(* ===== verification/_CoqProject ===== *)
-Q . S2P
Prelude.v
Serialize.v
Crc.v
DataType.v
ConstantExpr.v
TableDef.v
IndexBase.v
ObjStatus.v
ObjStatAccessor.v
PersistenceManager.v
AddrSerializer.v
WalInfo.v
WalCmd.v
WalEntry.v
WalIterator.v
CatalogDelta.v
DeltaEntry.v
OrderedMap.v
GlobalDelta.v
FileWorker.v
BufferManager.v
BufferInvariant.v
BufferSteps.v
BufferCleanup.v
BufferRefinement.v
BlockVersion.v
Bitmask.v
BlockEntry.v
BlockHistory.v
BlockFlush.v
SegmentEntry.v
SegmentHistory.v
SegmentVisibility.v
SegmentStatus.v
Compaction.v
CompactionHistory.v
TxnContext.v
EntryList.v
EntryHistory.v
TxnManager.v
TxnHistory.v
CatalogHistory.v
TxnTableStore.v
TableEntry.v
TxnStore.v
TxnStoreHistory.v
SegmentWrites.v
TableHistory.v
TableCommit.v
TxnConflict.v
TableCompaction.v
Calendar.v
CalendarDays.v
CalendarText.v
CalendarArith.v
LogFile.v
WalManager.v
WalReplay.v
WalRuns.v
WalInvariant.v
WalRecovery.v
WalDefects.v
QueryNode.v
QuerySemantics.v
DocIterator.v
DocCursor.v
DocHeap.v
DocUnion.v
DocTree.v
PostingIterator.v
PostingCursor.v
FulltextSearch.v
FulltextFilter.v
FulltextResult.v
MinimumMatch.v
MinimumResult.v
FulltextOptions.v
FulltextDefects.v
SecondaryIndex.v
SecondaryHistory.v
