(* ===== verification/Prelude.v ===== *)
(** * Infinity: verification of the storage layer and the index searches of the database

    Infinity is a database for vectors, full text and structured data. What it knows must
    survive a restart, and readers must see the rows of their timestamp: the write-ahead log and its manager,
    the checkpoints of the catalog, the persistence manager, the buffer manager, the
    versioned rows of blocks, segments and tables, the versioned catalog entries, the stores of
    transactions and the transaction manager are the parts of the storage layer
    ([src/src/storage]) that carry this; a full-text query or a filter on a secondary index must find exactly the rows that match it. This library models them as they are written, down
    to the bytes of their files and the width of their integers, and proves that what was
    written is what is read back, that the state of each component stays well formed, and
    what happens on every error path.

    ** How the parts interact

    A transaction ([TxnManager]) gets a begin timestamp, reads and changes versioned catalog
    entries ([EntryList]), collects the rows it inserts and deletes in a store for each table
    ([TxnTableStore]), and gets a commit timestamp; it is checked against the transactions
    that commit beside it, and the manager passes those that pass to the log in the order of
    their timestamps. Behind the log, the stores are carried into the tables ([TxnStore],
    [TableEntry]). A transaction that commits turns its changes into log commands ([WalCmd]), which are
    written to the log as one checksummed entry ([WalEntry]), and into catalog delta
    operations ([CatalogDelta]), which travel as a delta entry to the global delta
    ([GlobalDelta]). The global delta puts the entries of concurrent transactions into the
    order of their sequence numbers and merges the operations on one catalog entry; a
    checkpoint picks the merged operations and writes them to a delta file ([DeltaEntry]).
    The log manager ([WalManager]) writes the entries to the log, swaps the file, and removes the
    files that a committed checkpoint has made redundant. After a crash, the log files are cut
    back to their last good entry and read from the newest entry to the newest checkpoint
    ([WalIterator]); the manager attaches the files of that checkpoint ([LogFile]) and replays
    the entries behind it. Data files are stored by the persistence
    manager ([PersistenceManager]) in objects that hold many small files; log records and
    delta operations carry the addresses of these files ([AddrSerializer]), from which
    replay rebuilds the manager's maps.

    In memory, every file is the data of a buffer object ([BufferManager]), which its file
    worker ([FileWorker]) loads, spills and saves while the manager keeps the memory within
    its limit. The rows of a table are stored in segments ([SegmentEntry]), lists of blocks
    ([BlockEntry]) that only grow; the version of a block ([BlockVersion]), the data of one of
    its buffer objects, tells by commit timestamps which rows a reader sees, and readers mark
    them in bitmasks ([Bitmask]). A checkpoint saves versions and flushes the new rows; a
    compaction closes segments against deletes and replaces them; which segments it gets, the
    compaction algorithm ([Compaction]) decides by their sizes. Old versions of catalog entries
    are removed by a cleanup, behind the oldest transaction that still lives.

    A full-text query is a tree ([QueryNode]), which is rewritten into a normal form; from this a
    search makes a tree of iterators ([FulltextSearch], [DocIterator]) over the postings of the
    terms ([PostingIterator]), and a filter runs through them to mark the rows of a segment in a
    bitmask ([Bitmask]). The index of a column for ranges of keys ([SecondaryIndex]) grows in memory
    and is dumped to chunks, which transactions merge; the stores of these transactions decide by
    timestamps which chunks a reader sees.

    ** The files

    - [Prelude]: the result monad [res] with its notations and the tactic [res_inv], machine
      integers ([wrap], [swrap] and the abbreviations [u16] ... [i64]), association lists,
      the hint database [infinity].
    - [Serialize]: [parser/type/serialize.h]. Writers are the bytes they append, readers
      consume a buffer; [encodes] states that a writer and a reader fit together and how
      many bytes they use, [encodes_at] the same for readers that look at the bytes left.
      The classes [Codec] and [CodecLaws] are the interface of a serialisable component.
    - [Crc]: [common/utility/crc.cppm], the table-driven CRC-32.
    - [DataType], [ConstantExpr], [TableDef], [IndexBase]: column types, constants, table
      and index definitions ([parser/type], [parser/expr], [parser/definition],
      [storage/definition]) with their binary codecs.
    - [ObjStatus], [ObjStatAccessor], [PersistenceManager], [AddrSerializer]:
      [storage/persistence]. Objects with their deleted ranges; the object caches with
      their lists of used, unused and dropped objects; [Persist], [GetObjCache],
      [PutObjCache], [Cleanup] and the composition of small files; the addresses that log
      records carry. The files of the workspace are finite maps from names to bytes.
    - [WalInfo], [WalCmd], [WalEntry], [WalIterator]: [storage/wal/wal_entry.cpp]. Segment
      and chunk records, the commands, entries with header, checksum and trailing size,
      iteration in both directions over files and lists of files, the repair of torn
      files. Data blocks enter through the class [WalPayload]: [WalCmd] is proved against
      its laws, and [DemoPayload] is an instance.
    - [CatalogDelta], [DeltaEntry], [OrderedMap], [GlobalDelta]:
      [storage/wal/catalog_delta_entry.cpp]. The eight kinds of operations, their merge and
      prune rules, delta entries and their files, [std::map] with string keys, and the
      global delta with its reordering queue.
    - [FileWorker], [BufferManager]: [storage/buffer], [storage/io]. The class
      [FileWorkerImpl] is what a derived worker adds, [FileWorkerLaws] what it promises;
      [DataFileWorker] is an instance. Buffer objects with their heap, the eviction queues,
      the requests for memory and the handles. [BufferInvariant], [BufferSteps] and
      [BufferCleanup] hold the invariant and its preservation, [BufferRefinement] the runs of
      clients and the theorems.
    - [BlockVersion]: [storage/meta/entry/block_version.cpp] and the worker of version files,
      with the binary search of the standard library. [Bitmask]:
      [storage/common/roaring_bitmap.cppm] over the class [Roaring], with finite sets as an
      instance.
    - [BlockEntry], [BlockHistory], [BlockFlush]: [storage/meta/entry/block_entry.cpp], its
      refinement of a list of rows with their births and deaths, and its checkpoints.
    - [SegmentEntry], [SegmentHistory], [SegmentVisibility], [SegmentStatus]:
      [storage/meta/entry/segment_entry.cpp], the rows of a segment and its appends, its
      readers, and the deletes that run beside a compaction.
    - [Compaction], [CompactionHistory]: [storage/compaction], the layers of segments of similar
      size, the calls of the algorithm and the protocol they follow.
    - [TxnContext], [TxnManager], [TxnHistory]: [storage/txn]. The state of a transaction, the
      manager with its timestamps, queues and maps, and its runs: every interleaving of the
      steps between two locks.
    - [EntryList], [EntryHistory]: [storage/meta/entry/entry_list.cppm], [base_entry.cpp]. Lists
      of versions; the class [EntryKind] is what databases, tables and indexes add to the
      template. Their refinement of a history of commits with one pending transaction, under a
      protocol. [CatalogHistory] shows that the transaction manager keeps this protocol.
    - [TxnTableStore], [TxnStore]: [storage/txn/txn_store.cpp]. What a transaction collects for a
      table and for all tables, the phases of its commit, the checks for conflicts.
      [TxnStoreHistory] holds the invariant of stores over the calls of a transaction.
    - [TableEntry]: [storage/meta/entry/table_entry.cpp], the segments of a table with appends,
      deletes, imports, compactions, commits, rollbacks, replay, cleanup and the locks of writers.
      [SegmentWrites] and [TableHistory] follow the rows of segments and tables through the steps
      of a commit; [TableCommit] and [TxnConflict] hold the theorems on one and on several
      transactions, [TableCompaction] the one on the row count.
    - [Calendar]: [parser/type/datetime], the dates, times and intervals of columns and constants
      with their tables, loops and text forms. [CalendarDays], [CalendarText] and [CalendarArith]
      hold the theorems on counting days, on reading and printing, and on intervals.

    - [LogFile], [WalManager]: [storage/wal/log_file.cpp], [storage/wal/wal_manager.cpp]. The names
      of log and catalog files, listed through the class [Directory]; the flush thread in turns,
      checkpoints, replay. [WalReplay] holds the lemmas on the phases of a replay, [WalRuns] the
      runs with crashes and restarts, [WalInvariant] their invariant, [WalRecovery] and
      [WalDefects] the theorems.
    - [QueryNode]: [storage/invertedindex/search/query_node.cpp], query trees and their rewriting.
      [QuerySemantics] gives a tree its meaning and holds the theorem on the rewriting.
    - [DocIterator]: the iterators of [storage/invertedindex/search] with their heaps, generic in
      the postings (class [Posting]). [DocCursor] states what a cursor over a set of rows promises
      (class [CursorLaws]) and proves it for AND and AND NOT over any cursors, [DocHeap] and
      [DocUnion] for OR, [DocTree] for whole trees.
    - [PostingIterator]: [storage/invertedindex/posting_iterator.cpp] with the decoder over several
      index files and the reader of skip lists. [PostingCursor] shows that it is a cursor over the
      rows of its blocks and discharges the laws that [DocTree] asks of postings.
    - [FulltextSearch]: the methods [CreateSearch] and the filter of
      [planner/optimizer/index_scan/index_filter_evaluators.cpp]. [FulltextFilter] follows the loop
      of a filter, [FulltextResult] holds the theorem on its rows; [MinimumMatch] and [MinimumResult]
      show the same for a minimum number of matching leaves; [FulltextDefects] shows what goes wrong
      outside the hypotheses.
    - [FulltextOptions]: [storage/invertedindex/search/parse_fulltext_options.cpp], the option
      [minimum_should_match].
    - [SecondaryIndex]: [storage/secondary_index], the filters on secondary indexes of
      [index_filter_evaluators.cpp], and their cases in [segment_index_entry.cpp] and
      [txn_store.cpp], with the lemmas on a single query. The class [PGM] is the learned index over
      sorted keys, a library; [PGMLaws] states that the range it returns holds the place of the key.
      [SecondaryHistory] follows the index of a segment through inserts, dumps, merges and commits.

    Every definition carries the name it has in the source; a class is a record and a module
    of its methods, a method that changes the object returns the new object, and a method
    that can throw or leave the defined behaviour of the language returns a [res]. Mutable
    members that [GetSizeInBytes] sets ([pm_size_]) are part of the state, so the size
    checks of the writers are real checks. The tests [persistence_manager() != nullptr]
    are a boolean parameter. Locks protect whole methods; a method is one step.

    ** What the theorems show

    - Round trips: log commands, entries, delta operations, delta checkpoint files, table
      and index definitions and object addresses are written in exactly the announced bytes
      and read back, wherever they stand in a buffer; only filter commands announce another size, and
      delta operations come back without what the format does not store ([DeltaEntry.loaded]).
    - Safety of reading: a log entry or a delta file with one changed byte is never
      accepted; the table-driven checksum is the bitwise CRC-32.
    - Recovery: on files left by a crash the repair returns, drops exactly the files newer than the
      oldest torn one, cuts its torn tail and does not touch the files behind the newest checkpoint; iterators return every entry once,
      in order.
    - Restart: over the runs of the log manager that [WalRuns] describes, with crashes and restarts, in
      which checkpoints are logged in the order of their contents and no crash leaves one to three
      bytes of an entry, all acknowledged transactions are in the attached catalog or replayed, in order, and the log accepts every
      transaction; the theorems of [WalDefects] show when a restart fails, gives out timestamps
      again or, after checkpoints that are logged in the wrong order, loses transactions.
    - The global delta: entries are applied in sequence order whatever the order of
      arrival; pruning removes exactly the entries below a key; the picked operations have
      the effect of the whole history on the catalog (a refinement of the abstract catalog
      of [Effect]).
    - Persistence: a persisted file is readable through the address that is returned and disturbs no
      other file; a cleanup deletes exactly its range and drops an object when all of it is deleted; the object caches keep their invariant
      under every operation; reading and releasing restores the state; eviction takes the
      least recently used objects.
    - Buffers: every run of clients, without the growth of buffers of variable length, is a run of a map from objects to contents, whatever is
      evicted, spilled, saved, mapped or removed; the memory in use is accounted for and stays
      within the limit; a request for memory returns and fails only when nothing is left to
      evict; cleaning up leaves no pointer to a destroyed object.
    - Rows: over every history of appends, deletes and commits a block answers readers at
      every timestamp as its list of rows does, and refuses exactly the changes that list
      refuses; the loop over visible ranges terminates; a version file answers as of its
      checkpoint; checkpoints write every row once; a segment fills its blocks in order and
      its bulk reader is its check of single rows for deletes; a compaction learns of every delete that commits
      beside it; a bitmask is a set. A compaction gets the smallest segments of the highest layer
      that can give, and every segment is known once, idle or in one compaction.
    - Transactions: in every interleaving the steps of transactions do not raise; the log gets
      transactions in the order of their commit timestamps and a transaction that passed its
      check waits only for earlier ones that are not decided; the cleanup timestamp stays behind
      every transaction that lives; a catalog entry answers as the history of commits does, and
      repeats its answers except in the window that [late_commit_changes_read] shows.
    - Tables: stores hold the inserted rows in order and the deletes by block; a transaction takes
      effect in one step for all readers; transactions that were checked against each other all
      commit, when they name their rows in order; the row count is the number of live rows after
      any of these commits.
    - Dates: the tables and loops count the days of the Gregorian calendar; a date and time is
      read back from its text; adding hours, minutes and seconds moves it by exactly them.
    - Full text: the rewriting of queries refuses exactly the queries that are negative or mix
      negative and positive parts of an OR, and keeps the meaning of all others; every iterator
      gives the next row of its set, through heaps, skip lists and blocks, and a filter marks
      exactly the rows that match the query, or that match enough of the leaves of an OR, in a table with
      one segment and for searches that ask every document; [FulltextDefects] shows what a later segment
      does; the option [minimum_should_match] gives a number of leaves that the query has.
    - Secondary indexes: the search in a chunk returns exactly the positions of a range of keys; after
      any history a query finds exactly the inserted rows with a key in its ranges, if no dump is
      pending or later than the reader and no bound is the largest value of the key type, which the PGM
      index reserves; dumps raise while a row with that key is in memory; the rollback of a merge loses
      the rows of its chunks.
    - Error paths and defects: where the code overruns a buffer, loops, raises or forgets
      data, a theorem states when.

    ** Bounds and fuel

    Sizes are bounded by 2 GiB in the codecs because the code computes them in [i32]; the
    theorems state the bound. Readers of recursive data use the length of the buffer as
    fuel, and [encodes_fuel] shows it is enough; [Envict] loops at most as often as there
    are unused objects. The loops of the log iterators, which need not return on a bad file,
    take fuel and give [None] without it; the theorems show that one step per entry and
    one more is enough, or that no fuel is. A request for memory visits each eviction queue
    once. The phases of a replay take one step per entry of the log. The merge of chunks takes one step per pair, and the forward
    search in a chunk one per key. The loop of [SetDeleteBitmask] takes one turn per visible range, so the rows of the
    block plus one are enough; the loops of [AppendData] of a segment take at most one turn
    per input block and one per row, and the loop of a table, which appends a row at least in
    every turn, one per row; they give [None] without fuel and are proved to return.
    The loops that bring a date near 1970 take one turn per 400 years, and their fuel is computed
    from the date; [date_counts_days] shows that it is enough for every number.
    The loops of [Next] of document iterators take fuel at every node; the theorems show that some
    fuel is enough for every call, and [fulltext_filter_exact] that some fuel is enough for the
    whole filter. A posting takes one turn per index file and one per entry of its buffer.
    All other functions are structurally recursive and total. Offsets in a segment are below
    2^29, the rows of 65536 blocks, because the code keeps block ids in 16 bits.

    ** What is not modelled

    JSON and string forms, directories, failures of the operating system and object stores
    (a file is its contents), threads inside a method, and the constructors that copy members
    of live catalog entries into log and delta records. File workers run without the
    persistence manager; a lock that another thread holds is a parameter of the calls that
    only try it; the log manager runs without its queue and without followers, a failing write of
    a full catalog is a parameter, and the replay of a single command is a call; the registry of shared mappings is left out. Blocks and segments leave out
    column data, rough filters, snapshots and changes of columns: what they ask of columns
    and of the stores of transactions is a list of requests. Tables leave out their indexes, and
    the theorems on their rows are about histories without imports and compactions. Of the rest
    of the system, the operations that stores add to the delta log and the maps of names to lists
    of versions are planned next; of the calendar types the variant over [std::chrono] is left
    out. Of full text, the building of indexes (analyzers, dictionaries, integer codecs), postings
    in memory, scores and the iterators that skip by them are left out; the theorems on filters are
    about searches without batches ([kNaive], not by BM25, or [kAuto] where it takes none), and a minimum number of leaves is that of an OR of leaves.
    Of secondary indexes, the files and the cleanup of chunks, keys of floating point and the choice
    of ranges from filter expressions are left out, and histories start when the index of the
    segment is committed. Vector indexes, execution, the rest of planning, networking
    and generated code are outside this library. *)

From stdpp Require Export base list gmap strings.
From Stdlib Require Export ZArith Lia.
From Stdlib Require Strings.Byte.

Global Open Scope Z_scope.

(** ** Errors and the result monad

    [UnrecoverableError], [RecoverableError], [ParserError], exceptions of the standard library
    ([std::length_error], [std::invalid_argument]) and undefined behaviour (an access out of the
    range of an array or a buffer) end the call; every operation that can do so returns
    a [res]. *)
Inductive error : Type :=
| Unrecoverable
| ParserErr
| LengthErr
| Recoverable
| InvalidArgument
| Undefined.

#[export] Instance error_eq_dec : EqDecision error.
Proof. solve_decision. Defined.

Inductive res (A : Type) : Type :=
| Ok (a : A)
| Err (e : error).
Arguments Ok {A} a.
Arguments Err {A} e.

Definition res_bind {A B : Type} (m : res A) (k : A -> res B) : res B :=
  match m with Ok a => k a | Err e => Err e end.

Declare Scope res_scope.
Delimit Scope res_scope with res.
Notation "'let?' x ':=' m 'in' k" := (res_bind m (fun x => k))
  (at level 10, x pattern, m at level 100, k at level 200) : res_scope.
Notation "'check?' b 'else' e 'in' k" := (if b then k else Err e)
  (at level 10, b at level 100, e at level 100, k at level 200) : res_scope.
Global Open Scope res_scope.

Lemma res_bind_Ok {A B : Type} (m : res A) (k : A -> res B) b :
  res_bind m k = Ok b <-> exists a, m = Ok a /\ k a = Ok b.
Proof.
  destruct m as [a|e]; cbn; split.
  - eauto.
  - intros (a' & [= ->] & H). exact H.
  - discriminate.
  - intros (a' & [=] & _).
Qed.

(** Case analysis on every bind and guard of a hypothesis [_ = Ok _]. *)
Ltac res_inv :=
  repeat match goal with
  | H : res_bind ?m ?k = Ok _ |- _ =>
      apply res_bind_Ok in H; destruct H as (? & ? & H)
  | H : Ok _ = Ok _ |- _ => injection H as H
  | H : Err _ = Ok _ |- _ => discriminate H
  | H : Ok _ = Err _ |- _ => discriminate H
  end.

#[global] Arguments Z.ltb _ _ : simpl never.
#[global] Arguments Z.leb _ _ : simpl never.
#[global] Arguments Z.eqb _ _ : simpl never.
#[global] Arguments Z.geb _ _ : simpl never.
#[global] Arguments Z.gtb _ _ : simpl never.
#[global] Arguments Z.pow _ _ : simpl never.

(** ** Machine integers *)
Definition wrap (w z : Z) : Z := z mod 2 ^ w.
Definition swrap (w z : Z) : Z := (z + 2 ^ (w - 1)) mod 2 ^ w - 2 ^ (w - 1).

Abbreviation u16 := (wrap 16).
Abbreviation u32 := (wrap 32).
Abbreviation u64 := (wrap 64).
Abbreviation i8 := (swrap 8).
Abbreviation i32 := (swrap 32).
Abbreviation i64 := (swrap 64).

Definition unsigned_range (w z : Z) : Prop := 0 <= z < 2 ^ w.
Definition signed_range (w z : Z) : Prop := - 2 ^ (w - 1) <= z < 2 ^ (w - 1).

Lemma wrap_range w z : 0 <= w -> unsigned_range w (wrap w z).
Proof. intros. apply Z.mod_pos_bound, Z.pow_pos_nonneg; lia. Qed.

Lemma wrap_id w z : unsigned_range w z -> wrap w z = z.
Proof. apply Z.mod_small. Qed.

Lemma wrap_add_l w a b : wrap w (wrap w a + b) = wrap w (a + b).
Proof. unfold wrap. apply Zplus_mod_idemp_l. Qed.

Lemma wrap_add_r w a b : wrap w (a + wrap w b) = wrap w (a + b).
Proof. unfold wrap. apply Zplus_mod_idemp_r. Qed.

Lemma pow2_double w : 0 < w -> 2 ^ w = 2 * 2 ^ (w - 1).
Proof. intros. rewrite <- Z.pow_succ_r by lia. f_equal; lia. Qed.

Lemma swrap_range w z : 0 < w -> signed_range w (swrap w z).
Proof.
  intros Hw. unfold signed_range, swrap.
  pose proof (pow2_double w Hw).
  pose proof (Z.mod_pos_bound (z + 2 ^ (w - 1)) (2 ^ w)
                (Z.pow_pos_nonneg 2 w ltac:(lia) ltac:(lia))). lia.
Qed.

Lemma swrap_id w z : 0 < w -> signed_range w z -> swrap w z = z.
Proof.
  intros Hw Hz. unfold signed_range, swrap in *.
  rewrite Z.mod_small; pose proof (pow2_double w Hw); lia.
Qed.

Lemma swrap_add_l w a b : swrap w (swrap w a + b) = swrap w (a + b).
Proof.
  unfold swrap. f_equal.
  replace ((a + 2 ^ (w - 1)) mod 2 ^ w - 2 ^ (w - 1) + b + 2 ^ (w - 1))
    with ((a + 2 ^ (w - 1)) mod 2 ^ w + b) by lia.
  rewrite Zplus_mod_idemp_l. f_equal. lia.
Qed.

Lemma swrap_add_r w a b : swrap w (a + swrap w b) = swrap w (a + b).
Proof. now rewrite Z.add_comm, swrap_add_l, Z.add_comm. Qed.

Lemma swrap_idemp w a : swrap w (swrap w a) = swrap w a.
Proof. pose proof (swrap_add_l w a 0) as H. now rewrite !Z.add_0_r in H. Qed.

Create HintDb infinity.
#[export] Hint Resolve wrap_range swrap_range : infinity.

(** ** Association lists

    A [std::list] of keyed nodes, where the order of the nodes matters. *)
Section assoc.
Context {K V : Type} `{EqDecision K}.
Implicit Types (k : K) (l : list (K * V)).

Fixpoint afind k l : option V :=
  match l with
  | [] => None
  | (k', v) :: l => if decide (k = k') then Some v else afind k l
  end.
Fixpoint aremove k l : list (K * V) :=
  match l with
  | [] => []
  | (k', v) :: l => if decide (k = k') then l else (k', v) :: aremove k l
  end.
Fixpoint aupdate k (f : V -> V) l : list (K * V) :=
  match l with
  | [] => []
  | (k', v) :: l => if decide (k = k') then (k', f v) :: l else (k', v) :: aupdate k f l
  end.

Lemma afind_Some_elem k l v : afind k l = Some v -> (k, v) ∈ l.
Proof.
  induction l as [|[k' v'] l IH]; cbn; [discriminate|].
  case_decide; intros Hv; [injection Hv as ->; subst; left|right; auto].
Qed.

Lemma afind_None k l : afind k l = None <-> k ∉ l.*1.
Proof.
  induction l as [|[k' v'] l IH]; cbn; [set_solver|].
  case_decide; subst; [split; [discriminate|set_solver]|].
  rewrite IH. set_solver.
Qed.

Lemma afind_is_Some k l : is_Some (afind k l) <-> k ∈ l.*1.
Proof.
  destruct (afind k l) eqn:E.
  - apply afind_Some_elem in E. split; [|eauto]. intros _.
    apply list_elem_of_fmap. now exists (k, v).
  - apply afind_None in E. split; [intros [? [=]]|tauto].
Qed.

Lemma afind_elem k v l : NoDup l.*1 -> (k, v) ∈ l -> afind k l = Some v.
Proof.
  induction l as [|[k' v'] l IH]; cbn; [set_solver|].
  intros Hd H. apply NoDup_cons in Hd as [Hn Hd]. apply elem_of_cons in H as [[= -> ->]|H].
  - now rewrite decide_True.
  - rewrite decide_False; [auto|]. intros ->. apply Hn.
    apply list_elem_of_fmap. now exists (k', v).
Qed.

Lemma aremove_perm k v l : afind k l = Some v -> l ≡ₚ (k, v) :: aremove k l.
Proof.
  induction l as [|[k' v'] l IH]; cbn; [discriminate|].
  case_decide; intros Hv; [injection Hv as ->; now subst|].
  rewrite (IH Hv) at 1. apply Permutation_swap.
Qed.

Lemma aremove_notin k l : k ∉ l.*1 -> aremove k l = l.
Proof.
  induction l as [|[k' v'] l IH]; cbn; [done|]. intros H.
  rewrite decide_False by set_solver. f_equal. apply IH. set_solver.
Qed.

Lemma aupdate_keys k f l : (aupdate k f l).*1 = l.*1.
Proof. induction l as [|[k' v'] l IH]; cbn; [done|]. case_decide; cbn; congruence. Qed.

Lemma aupdate_notin k f l : k ∉ l.*1 -> aupdate k f l = l.
Proof.
  induction l as [|[k' v'] l IH]; cbn; [done|]. intros H.
  rewrite decide_False by set_solver. f_equal. apply IH. set_solver.
Qed.

Lemma afind_aupdate k f l : afind k (aupdate k f l) = f <$> afind k l.
Proof.
  induction l as [|[k' v'] l IH]; cbn; [done|].
  case_decide; cbn; [now rewrite decide_True|now rewrite decide_False].
Qed.

Lemma aremove_aupdate k f l : aremove k (aupdate k f l) = aremove k l.
Proof.
  induction l as [|[k' v'] l IH]; cbn; [done|].
  case_decide; cbn; [now rewrite decide_True|rewrite decide_False by done; congruence].
Qed.

Lemma aupdate_Forall k f l (P : K * V -> Prop) :
  Forall P l -> (forall v, afind k l = Some v -> P (k, f v)) -> Forall P (aupdate k f l).
Proof.
  induction l as [|[k' v'] l IH]; cbn; intros H Hf; [constructor|].
  apply Forall_cons in H as [H1 H2]. case_decide; constructor; auto.
  subst. now apply Hf.
Qed.

Lemma aremove_Forall k l (P : K * V -> Prop) : Forall P l -> Forall P (aremove k l).
Proof.
  induction 1 as [|[k' v'] l H1 H2 IH]; cbn; [constructor|]. case_decide; auto.
Qed.
End assoc.

(** ** Lists and strings *)
Lemma filter_all {A : Type} (P : A -> Prop) `{!forall x, Decision (P x)} (l : list A) : Forall P l -> filter P l = l.
Proof. induction 1; [done|]. rewrite filter_cons_True by done. by f_equal. Qed.

Lemma filter_none {A : Type} (P : A -> Prop) `{!forall x, Decision (P x)} (l : list A) :
  Forall (fun x => ~ P x) l -> filter P l = [].
Proof. induction 1; [done|]. by rewrite filter_cons_False. Qed.

Lemma string_app_assoc (a b c : string) :
  String.append (String.append a b) c = String.append a (String.append b c).
Proof. induction a as [|x a IH]; [done|]. exact (f_equal (String.String x) IH). Qed.
