(* ===== verification/Serialize.v ===== *)
(** * Byte buffers: [src/src/parser/type/serialize.h]

    [WriteBufAdv] appends the little-endian bytes of a value and advances the cursor, so
    a writer is the bytes it appends; [ReadBufAdv] consumes bytes at the cursor, so a
    reader maps the rest of the buffer to a value and what is left. Reading past the end
    of the buffer is [Undefined]; a [std::string] of negative size throws. *)
From S2P Require Import Prelude.
From Stdlib Require Strings.String Strings.Byte.

Abbreviation bytes := (list Byte.byte).
Abbreviation writer := (res bytes).
Abbreviation reader A := (bytes -> res (A * bytes)).

(** ** Little-endian integers *)
Definition byte_of_Z (z : Z) : Byte.byte :=
  match Byte.of_N (Z.to_N (z mod 256)) with Some b => b | None => Byte.x00 end.
Definition Z_of_byte (b : Byte.byte) : Z := Z.of_N (Byte.to_N b).

Fixpoint le_encode (n : nat) (z : Z) : bytes :=
  match n with
  | O => []
  | S n => byte_of_Z z :: le_encode n (z / 256)
  end.

Fixpoint le_decode (bs : bytes) : Z :=
  match bs with
  | [] => 0
  | b :: bs => Z_of_byte b + 256 * le_decode bs
  end.

(** ** Readers and writers *)
Definition wapp (w1 w2 : writer) : writer :=
  let? b1 := w1 in let? b2 := w2 in Ok (b1 ++ b2).
Infix "+++" := wapp (at level 60, right associativity) : res_scope.

Definition rret {A : Type} (a : A) : reader A := fun bs => Ok (a, bs).
Definition rfail {A : Type} (e : error) : reader A := fun _ => Err e.
Definition rbind {A B : Type} (r : reader A) (k : A -> reader B) : reader B :=
  fun bs => let? (a, rest) := r bs in k a rest.
Notation "'read' x ':=' r 'in' k" := (rbind r (fun x => k))
  (at level 10, x pattern, r at level 100, k at level 200) : res_scope.

Definition take_bytes (n : nat) : reader bytes := fun bs =>
  if (n <=? length bs)%nat then Ok (take n bs, drop n bs) else Err Undefined.

(** [ReadBufAdv<T>] and [WriteBufAdv<T>] for an unsigned or signed integer [T] of [n] bytes. *)
Definition ReadBufAdv_u (n : nat) : reader Z :=
  read b := take_bytes n in rret (le_decode b).
Definition ReadBufAdv_s (n : nat) : reader Z :=
  read b := take_bytes n in rret (swrap (8 * Z.of_nat n) (le_decode b)).
Definition WriteBufAdv_int (n : nat) (z : Z) : writer := Ok (le_encode n z).

(** [ReadBufAdv<std::string>] and [WriteBufAdv<std::string>]. *)
Definition ReadBufAdv_string : reader string :=
  read size := ReadBufAdv_s 4 in
  if size <? 0 then rfail LengthErr
  else read b := take_bytes (Z.to_nat size) in rret (String.string_of_list_byte b).
Definition WriteBufAdv_string (value : string) : writer :=
  let len := i32 (Z.of_nat (String.length value)) in
  WriteBufAdv_int 4 len +++
  (if len <? 0 then Err Undefined
   else Ok (take (Z.to_nat len) (String.list_byte_of_string value))).

(** [ReadBuf<T>] at an offset of the buffer, without advancing. *)
Definition ReadBuf_s (n : nat) (bs : bytes) : res Z :=
  let? (v, _) := ReadBufAdv_s n bs in Ok v.

(** The bytes of a string and its length prefix. *)
Definition string_size (value : string) : Z :=
  4 + Z.of_nat (String.length value).

(** The loops [for (x : l) Write(x)] and [for (i = 0; i < n; ++i) l.push_back(Read())]. *)
Definition write_each {A : Type} (w : A -> writer) : list A -> writer :=
  fix go (l : list A) : writer :=
    match l with
    | [] => Ok []
    | a :: l => w a +++ go l
    end.
Fixpoint read_each {A : Type} (r : reader A) (n : nat) : reader (list A) :=
  match n with
  | O => rret []
  | S n => read a := r in read l := read_each r n in rret (a :: l)
  end.

(** The loop [for (x : l) size += x.GetSizeInBytes()], where the call may update [x]. *)
Fixpoint size_each {A : Type} (f : A -> Z * A) (size : Z) (l : list A) : Z * list A :=
  match l with
  | [] => (size, [])
  | a :: l =>
      let '(n, a') := f a in
      let '(size, l') := size_each f (i32 (size + n)) l in
      (size, a' :: l')
  end.

(** ** What a writer and a reader promise each other

    [encodes w r a n]: the writer [w] raises no error and appends exactly [n] bytes, from
    which the reader [r] returns [a] and stops exactly behind them, whatever follows. *)
Definition encodes {A : Type} (w : writer) (r : reader A) (a : A) (n : Z) : Prop :=
  exists bs, w = Ok bs /\ Z.of_nat (length bs) = n /\ forall rest, r (bs ++ rest) = Ok (a, rest).

(** The same for a reader that looks at the number of bytes left, [L] at its start. *)
Definition encodes_at {A : Type} (L : Z) (w : writer) (r : reader A) (a : A) (n : Z) : Prop :=
  exists bs, w = Ok bs /\ Z.of_nat (length bs) = n /\
    forall rest, Z.of_nat (length (bs ++ rest)) = L -> r (bs ++ rest) = Ok (a, rest).

(** [ptr], as the number of bytes from it to the end of the buffer. *)
Definition rmark : reader Z := fun bs => Ok (Z.of_nat (length bs), bs).

(** The interface a serialisable component offers to the components that embed it: a
    writer, a reader that is told how many bytes it may use, and the size announced for a
    value; [codec_ok] says which values are written. The laws promise that the writer
    appends exactly the announced bytes and that the reader gets the value back from them
    whenever it may use that many. *)
Class Codec (A : Type) := {
  codec_write : A -> writer;
  codec_read : Z -> reader A;
  codec_size : A -> Z;
  codec_ok : A -> Prop;
}.
Class CodecLaws (A : Type) {C : Codec A} : Prop := {
  codec_encodes : forall (a : A) (max_bytes : Z),
    codec_ok a -> codec_size a <= max_bytes < 2 ^ 31 ->
    encodes (codec_write a) (codec_read max_bytes) a (codec_size a);
}.

(** [left max_bytes p0] is [ptr_end - ptr] with [ptr_end] set [max_bytes] behind the cursor [p0]. *)
Definition left (max_bytes p0 : Z) : reader Z := read p := rmark in rret (i32 (max_bytes - (p0 - p))).

(** ** Lemmas *)
Lemma Z_of_byte_range b : 0 <= Z_of_byte b < 256.
Proof. unfold Z_of_byte. pose proof (Byte.to_N_bounded b). lia. Qed.

Lemma Z_of_byte_of_Z z : Z_of_byte (byte_of_Z z) = z mod 256.
Proof.
  unfold Z_of_byte, byte_of_Z.
  pose proof (Z.mod_pos_bound z 256 ltac:(lia)).
  destruct (Byte.of_N _) as [b|] eqn:E.
  - apply Byte.to_of_N in E. lia.
  - apply Byte.of_N_None_iff in E. lia.
Qed.

Lemma length_le_encode n z : length (le_encode n z) = n.
Proof. revert z; induction n; intros; cbn; auto. Qed.

Lemma le_decode_encode n z : le_decode (le_encode n z) = z mod 2 ^ (8 * Z.of_nat n).
Proof.
  revert z; induction n as [|n IH]; intros z; cbn [le_encode le_decode].
  - now rewrite Z.mod_1_r.
  - rewrite IH, Z_of_byte_of_Z.
    replace (8 * Z.of_nat (S n)) with (8 + 8 * Z.of_nat n) by lia.
    rewrite Z.pow_add_r by lia. change (2 ^ 8) with 256.
    rewrite Z.rem_mul_r by (try apply Z.pow_nonzero; lia). reflexivity.
Qed.

Lemma le_decode_range bs : 0 <= le_decode bs < 2 ^ (8 * Z.of_nat (length bs)).
Proof.
  induction bs as [|b bs IH]; cbn [le_decode length].
  - cbn. lia.
  - replace (8 * Z.of_nat (S (length bs))) with (8 + 8 * Z.of_nat (length bs)) by lia.
    rewrite Z.pow_add_r by lia. pose proof (Z_of_byte_range b). lia.
Qed.

Lemma swrap_mod w z : 0 < w -> swrap w (z mod 2 ^ w) = swrap w z.
Proof. intros. unfold swrap. now rewrite Zplus_mod_idemp_l. Qed.

Lemma length_list_byte_of_string s : length (String.list_byte_of_string s) = String.length s.
Proof. induction s as [|c s IH]; cbn; [reflexivity|]. f_equal. exact IH. Qed.

Lemma take_bytes_app n bs rest :
  length bs = n -> take_bytes n (bs ++ rest) = Ok (bs, rest).
Proof.
  intros <-. unfold take_bytes.
  rewrite (proj2 (Nat.leb_le _ _)) by (rewrite length_app; lia).
  now rewrite take_app_length, drop_app_length.
Qed.

Lemma ReadBufAdv_u_app n b rest : length b = n -> ReadBufAdv_u n (b ++ rest) = Ok (le_decode b, rest).
Proof. intros H. unfold ReadBufAdv_u, rbind. now rewrite take_bytes_app by done. Qed.
Lemma ReadBufAdv_s_app n b rest :
  length b = n -> ReadBufAdv_s n (b ++ rest) = Ok (swrap (8 * Z.of_nat n) (le_decode b), rest).
Proof. intros H. unfold ReadBufAdv_s, rbind. now rewrite take_bytes_app by done. Qed.

Lemma Z_of_byte_inj a b : Z_of_byte a = Z_of_byte b -> a = b.
Proof.
  unfold Z_of_byte. intros H. apply N2Z.inj in H. apply (f_equal Byte.of_N) in H.
  rewrite !Byte.of_to_N in H. now injection H.
Qed.

Lemma le_decode_inj a b : length a = length b -> le_decode a = le_decode b -> a = b.
Proof.
  revert b. induction a as [|x a IH]; intros [|y b] Hl H; cbn in *; try done.
  pose proof (Z_of_byte_range x). pose proof (Z_of_byte_range y).
  f_equal; [apply Z_of_byte_inj; lia|apply IH; lia].
Qed.

Lemma swrap_decode_inj n a b :
  (0 < n)%nat -> length a = n -> length b = n ->
  swrap (8 * Z.of_nat n) (le_decode a) = swrap (8 * Z.of_nat n) (le_decode b) -> a = b.
Proof.
  intros Hn Ha Hb H. apply le_decode_inj; [congruence|].
  pose proof (le_decode_range a) as Ra. pose proof (le_decode_range b) as Rb. rewrite Ha in Ra. rewrite Hb in Rb.
  unfold swrap in H.
  assert (E : (le_decode a + 2 ^ (8 * Z.of_nat n - 1)) mod 2 ^ (8 * Z.of_nat n) =
              (le_decode b + 2 ^ (8 * Z.of_nat n - 1)) mod 2 ^ (8 * Z.of_nat n)) by lia.
  rewrite <- (Z.mod_small (le_decode a) _ Ra), <- (Z.mod_small (le_decode b) _ Rb).
  replace (le_decode a) with (le_decode a + 2 ^ (8 * Z.of_nat n - 1) - 2 ^ (8 * Z.of_nat n - 1)) by lia.
  replace (le_decode b) with (le_decode b + 2 ^ (8 * Z.of_nat n - 1) - 2 ^ (8 * Z.of_nat n - 1)) by lia.
  now rewrite Zminus_mod, E, <- Zminus_mod.
Qed.

Lemma encodes_ret {A : Type} (a : A) : encodes (Ok []) (rret a) a 0.
Proof. exists []. repeat split. Qed.

Lemma encodes_bind {A B : Type} w1 w2 (r : reader A) (k : A -> reader B) a b n1 n2 :
  encodes w1 r a n1 -> encodes w2 (k a) b n2 -> encodes (w1 +++ w2) (rbind r k) b (n1 + n2).
Proof.
  intros (b1 & -> & L1 & R1) (b2 & -> & L2 & R2). exists (b1 ++ b2). split; [reflexivity|].
  split; [rewrite length_app; lia|]. intros rest.
  unfold rbind. rewrite <- app_assoc, R1. cbn. apply R2.
Qed.

(** The last write of a record, whose reader then builds the value. *)
Lemma encodes_map {A B : Type} w (r : reader A) (k : A -> reader B) a b n :
  encodes w r a n -> (forall rest, k a rest = Ok (b, rest)) -> encodes w (rbind r k) b n.
Proof.
  intros (bs & -> & L & R) Hk. exists bs. repeat split; [exact L|].
  intros rest. unfold rbind. rewrite R. cbn. apply Hk.
Qed.

Lemma encodes_assoc {A : Type} w1 w2 w3 (r : reader A) a n :
  encodes (w1 +++ (w2 +++ w3)) r a n -> encodes ((w1 +++ w2) +++ w3) r a n.
Proof.
  intros (bs & H & L). exists bs. split; [|exact L].
  destruct w1, w2, w3; cbn in *; try discriminate. now rewrite <- app_assoc.
Qed.

Lemma encodes_size {A : Type} w (r : reader A) a n m : encodes w r a n -> n = m -> encodes w r a m.
Proof. now intros ? <-. Qed.

Lemma encodes_u n z :
  unsigned_range (8 * Z.of_nat n) z ->
  encodes (WriteBufAdv_int n z) (ReadBufAdv_u n) z (Z.of_nat n).
Proof.
  intros Hz. exists (le_encode n z). split; [reflexivity|].
  split; [now rewrite length_le_encode|]. intros rest. unfold ReadBufAdv_u, rbind.
  rewrite take_bytes_app by apply length_le_encode. cbn. unfold rret.
  rewrite le_decode_encode. do 2 f_equal. now apply Z.mod_small.
Qed.

Lemma encodes_s n z :
  (0 < n)%nat -> signed_range (8 * Z.of_nat n) z ->
  encodes (WriteBufAdv_int n z) (ReadBufAdv_s n) z (Z.of_nat n).
Proof.
  intros Hn Hz. exists (le_encode n z). split; [reflexivity|].
  split; [now rewrite length_le_encode|]. intros rest. unfold ReadBufAdv_s, rbind.
  rewrite take_bytes_app by apply length_le_encode. cbn [res_bind]. unfold rret.
  rewrite le_decode_encode, swrap_mod, swrap_id; auto; lia.
Qed.

Definition string_ok (s : string) : Prop := Z.of_nat (String.length s) < 2 ^ 31.

Lemma encodes_string s :
  string_ok s -> encodes (WriteBufAdv_string s) ReadBufAdv_string s (string_size s).
Proof.
  intros Hs. unfold string_ok in Hs. unfold WriteBufAdv_string, ReadBufAdv_string, string_size.
  rewrite swrap_id by (unfold signed_range; lia).
  replace (Z.of_nat (String.length s) <? 0) with false by (symmetry; apply Z.ltb_ge; lia).
  eapply encodes_bind.
  - apply (encodes_s 4); [lia|]. unfold signed_range. lia.
  - cbv beta. replace (Z.of_nat (String.length s) <? 0) with false by (symmetry; apply Z.ltb_ge; lia).
    rewrite Nat2Z.id.
    replace (take (String.length s) (String.list_byte_of_string s)) with (String.list_byte_of_string s)
      by (rewrite firstn_all2; [reflexivity|rewrite length_list_byte_of_string; lia]).
    eapply (encodes_map _ _ _ (String.list_byte_of_string s)).
    + exists (String.list_byte_of_string s). split; [reflexivity|].
      split; [now rewrite length_list_byte_of_string|].
      intros rest. apply take_bytes_app, length_list_byte_of_string.
    + intros rest. unfold rret. now rewrite String.string_of_list_byte_of_string.
Qed.

Lemma encodes_each {A B : Type} (w : A -> writer) (r : reader B) (f : A -> B) (size : A -> Z) l :
  (forall a, a ∈ l -> encodes (w a) r (f a) (size a)) ->
  encodes (write_each w l) (read_each r (length l)) (f <$> l) (foldr (fun a s => size a + s) 0 l).
Proof.
  induction l as [|a l IH]; intros H; cbn [write_each read_each length foldr].
  - apply encodes_ret.
  - eapply encodes_bind; [apply H; left|].
    eapply encodes_map; [apply IH; intros; apply H; now right|]. reflexivity.
Qed.

(** A list preceded by its [i32] element count. *)
Definition count_ok {A : Type} (l : list A) : Prop := Z.of_nat (length l) < 2 ^ 31.

Lemma encodes_count {A : Type} (l : list A) :
  count_ok l -> encodes (WriteBufAdv_int 4 (i32 (Z.of_nat (length l)))) (ReadBufAdv_s 4) (Z.of_nat (length l)) 4.
Proof.
  unfold count_ok. intros H. rewrite swrap_id by (unfold signed_range; lia).
  apply (encodes_s 4); [lia|]. unfold signed_range. lia.
Qed.

Lemma encodes_at_of {A : Type} L w (r : reader A) a n : encodes w r a n -> encodes_at L w r a n.
Proof. intros (bs & H & Hl & Hr). exists bs. repeat split; auto. Qed.

Lemma encodes_of_at {A : Type} w (r : reader A) a n : (forall L, encodes_at L w r a n) -> encodes w r a n.
Proof.
  intros H. destruct (H 0) as (bs & Hw & Hl & _). exists bs. repeat split; auto. intros rest.
  destruct (H (Z.of_nat (length (bs ++ rest)))) as (bs' & Hw' & _ & Hr').
  rewrite Hw in Hw'. injection Hw' as <-. now apply Hr'.
Qed.

Lemma encodes_at_bind {A B : Type} L w1 w2 (r : reader A) (k : A -> reader B) a b n1 n2 :
  encodes w1 r a n1 -> encodes_at (L - n1) w2 (k a) b n2 -> encodes_at L (w1 +++ w2) (rbind r k) b (n1 + n2).
Proof.
  intros (b1 & -> & L1 & R1) (b2 & -> & L2 & R2). exists (b1 ++ b2). split; [reflexivity|].
  split; [rewrite length_app; lia|]. intros rest HL.
  unfold rbind. rewrite <- app_assoc in *. rewrite R1. cbn. apply R2. rewrite length_app in HL. lia.
Qed.

(** [encodes_at_bind] where the first reader looks at the cursor too. *)
Lemma encodes_at_seq {A B : Type} L w1 w2 (r : reader A) (k : A -> reader B) a b n1 n2 :
  encodes_at L w1 r a n1 -> encodes_at (L - n1) w2 (k a) b n2 -> encodes_at L (w1 +++ w2) (rbind r k) b (n1 + n2).
Proof.
  intros (b1 & -> & L1 & R1) (b2 & -> & L2 & R2). exists (b1 ++ b2). split; [reflexivity|].
  split; [rewrite length_app; lia|]. intros rest HL.
  unfold rbind. rewrite <- app_assoc in *. rewrite R1 by done. cbn. apply R2. rewrite length_app in HL. lia.
Qed.

Lemma encodes_at_mark {A : Type} L w (k : Z -> reader A) a n :
  encodes_at L w (k L) a n -> encodes_at L w (rbind rmark k) a n.
Proof.
  intros (bs & -> & Hl & Hr). exists bs. repeat split; auto. intros rest HL.
  unfold rbind, rmark. cbn. rewrite HL. now apply Hr.
Qed.

(** The read of a record, after which only the cursor is looked at. *)
Lemma encodes_at_map {A B : Type} L w (r : reader A) (k : A -> reader B) a b n :
  encodes_at L w r a n ->
  (forall rest, Z.of_nat (length rest) = L - n -> k a rest = Ok (b, rest)) ->
  encodes_at L w (rbind r k) b n.
Proof.
  intros (bs & -> & Hl & R) Hk. exists bs. repeat split; [exact Hl|]. intros rest HL.
  unfold rbind. rewrite (R _ HL). cbn. apply Hk. rewrite length_app in HL. lia.
Qed.

Lemma encodes_at_size {A : Type} L w (r : reader A) a n m :
  encodes_at L w r a n -> n = m -> encodes_at L w r a m.
Proof. now intros ? <-. Qed.

Lemma encodes_at_left {A : Type} L max_bytes p0 w (k : Z -> reader A) a n :
  0 <= max_bytes < 2 ^ 31 -> 0 <= p0 - L <= max_bytes ->
  encodes_at L w (k (max_bytes - (p0 - L))) a n -> encodes_at L w (read m := left max_bytes p0 in k m) a n.
Proof.
  intros H1 H2 (bs & -> & Hl & Hr). exists bs. split_and!; [done..|]. intros rest HL.
  unfold left, rbind, rmark. cbn. rewrite HL, swrap_id by (unfold signed_range; lia). now apply Hr.
Qed.

(** The check that a record did not use more than [max_bytes]. *)
Lemma encodes_at_finish {A : Type} L max_bytes p0 e w (r : reader A) c n :
  0 <= n -> 0 <= p0 - L -> p0 - L + n <= max_bytes < 2 ^ 31 -> encodes_at L w r c n ->
  encodes_at L w (read x := r in read m := left max_bytes p0 in if m <? 0 then rfail e else rret x) c n.
Proof.
  intros Hn Hp Hm H. eapply encodes_at_map; [exact H|]. intros rest HL.
  unfold left, rbind, rmark. cbn. rewrite HL, swrap_id by (unfold signed_range; lia).
  replace (_ <? 0) with false by (symmetry; apply Z.ltb_ge; lia). reflexivity.
Qed.

(** A list whose elements are each read with the bytes left. *)
Lemma encodes_at_each {A : Type} L max_bytes p0 (w : A -> writer) (r : Z -> reader A) (size : A -> Z) l :
  (forall a, a ∈ l -> 0 <= size a) -> 0 <= p0 - L ->
  p0 - L + foldr (fun a s => size a + s) 0 l <= max_bytes < 2 ^ 31 ->
  (forall a m, a ∈ l -> size a <= m < 2 ^ 31 -> encodes (w a) (r m) a (size a)) ->
  encodes_at L (write_each w l) (read_each (read n := left max_bytes p0 in r n) (length l)) l
    (foldr (fun a s => size a + s) 0 l).
Proof.
  revert L. induction l as [|a l IH]; intros L Hs HL Hm Hw; cbn [write_each read_each length foldr].
  - apply encodes_at_of, encodes_ret.
  - pose proof (Hs a ltac:(set_solver)). cbn [foldr] in Hm.
    assert (0 <= foldr (fun a s => size a + s) 0 l).
    { clear -Hs. induction l as [|b l IH]; cbn; [lia|].
      pose proof (Hs b ltac:(set_solver)). specialize (IH ltac:(set_solver)). lia. }
    destruct (Hw a (max_bytes - (p0 - L)) ltac:(set_solver) ltac:(lia)) as (bs & E & Hl & Hr).
    destruct (IH (L - size a)) as (bs' & E' & Hl' & Hr'); [set_solver|lia|lia|intros; apply Hw; [set_solver|done]|].
    exists (bs ++ bs'). split_and!; [change (w a +++ write_each w l = Ok (bs ++ bs')); now rewrite E, E'|rewrite length_app; lia|].
    intros rest HL'. rewrite !length_app in HL'. unfold rbind. unfold left at 1. unfold rbind, rmark.
    cbn [res_bind rret]. rewrite <- app_assoc.
    replace (Z.of_nat (length (bs ++ bs' ++ rest))) with L by (rewrite !length_app; lia).
    rewrite swrap_id by (unfold signed_range; lia). rewrite Hr. cbn [res_bind].
    change (read_each _ (length l)) with (read_each (read n := left max_bytes p0 in r n) (length l)).
    rewrite Hr' by (rewrite length_app; lia). reflexivity.
Qed.

(** A reader that recurses on the bytes it consumes: the length of the buffer is enough fuel. *)
Lemma encodes_fuel {A : Type} w (r : nat -> reader A) a n d :
  (forall fuel, (d < fuel)%nat -> encodes w (r fuel) a n) -> Z.of_nat d <= n ->
  encodes w (fun bs => r (S (length bs)) bs) a n.
Proof.
  intros H Hd. destruct (H (S d) ltac:(lia)) as (bs & E & Hl & _). exists bs. split_and!; [done..|]. intros rest.
  destruct (H (S (length (bs ++ rest)))) as (bs' & E' & _ & Hr); [rewrite length_app; lia|].
  rewrite E in E'. injection E' as <-. apply Hr.
Qed.

Lemma encodes_pos {A : Type} w (r : reader A) a n : encodes w r a n -> 0 <= n.
Proof. intros (bs & _ & <- & _). lia. Qed.

(** [encodes] with the identity on the values, for a loop over plain data. *)
Lemma encodes_list {A : Type} (w : A -> writer) (r : reader A) (size : A -> Z) l :
  (forall a, a ∈ l -> encodes (w a) r a (size a)) ->
  encodes (write_each w l) (read_each r (length l)) l (foldr (fun a s => size a + s) 0 l).
Proof. intros H. rewrite <- (list_fmap_id l) at 3. now apply encodes_each. Qed.

Lemma size_each_gen {A : Type} (f : A -> Z * A) (g : A -> Z) l s :
  (forall a, a ∈ l -> i32 (f a).1 = i32 (g a)) ->
  size_each f (i32 s) l = (i32 (s + foldr (fun a n => g a + n) 0 l), (fun a => (f a).2) <$> l).
Proof.
  revert s; induction l as [|a l IH]; intros s H; cbn.
  - now rewrite Z.add_0_r.
  - pose proof (H a ltac:(left)) as Ha. destruct (f a) as [n a'] eqn:E. cbn in *.
    rewrite swrap_add_l, <- swrap_add_r, Ha, swrap_add_r, IH by (intros; apply H; now right). cbn.
    do 2 f_equal. lia.
Qed.

Lemma size_each_spec {A : Type} (f : A -> Z * A) (g : A -> Z) l s :
  (forall a, a ∈ l -> (f a).1 = i32 (g a)) ->
  size_each f (i32 s) l = (i32 (s + foldr (fun a n => g a + n) 0 l), (fun a => (f a).2) <$> l).
Proof. intros H. apply size_each_gen. intros a Ha. rewrite (H a Ha). apply swrap_idemp. Qed.

Lemma foldr_size_fmap {A : Type} (h : A -> A) (g : A -> Z) l :
  (forall a, g (h a) = g a) -> foldr (fun a n => g a + n) 0 (h <$> l) = foldr (fun a n => g a + n) 0 l.
Proof. intros H. induction l as [|a l IH]; cbn; [done|]. now rewrite H, IH. Qed.

Lemma foldr_const {A : Type} (c : Z) (l : list A) : foldr (fun _ n => c + n) 0 l = c * Z.of_nat (length l).
Proof. induction l as [|a l IH]; cbn [foldr length]; [lia|]. rewrite IH. lia. Qed.

#[global] Arguments wapp _ _ : simpl never.
#[global] Arguments rbind _ _ _ _ _ : simpl never.
#[global] Arguments WriteBufAdv_int _ _ : simpl never.
#[global] Arguments WriteBufAdv_string _ : simpl never.
#[global] Arguments ReadBufAdv_u _ _ : simpl never.
#[global] Arguments ReadBufAdv_s _ _ : simpl never.
#[global] Arguments ReadBufAdv_string _ : simpl never.

(** One field of a record: its write and its read are the next ones, and the range of the
    field is an assumption. *)
Ltac enc_field :=
  match goal with
  | |- encodes (WriteBufAdv_int ?n _) (ReadBufAdv_u ?n) _ _ => apply (encodes_u n); assumption
  | |- encodes (WriteBufAdv_int ?n _) (ReadBufAdv_s ?n) _ _ =>
      first [apply encodes_count; assumption | apply (encodes_s n); [lia|assumption]]
  | |- encodes (WriteBufAdv_string _) ReadBufAdv_string _ _ => apply encodes_string; assumption
  end.
Ltac enc := repeat (eapply encodes_bind; [enc_field|cbv beta]).
Ltac enc_at := repeat (eapply encodes_at_bind; [enc_field|cbv beta]).
Ltac split_hyps := repeat match goal with H : _ /\ _ |- _ => destruct H end.
(** Intermediate truncations of a sum do not matter. *)
Ltac flatten_i32 := repeat (rewrite swrap_add_l || rewrite swrap_add_r || rewrite <- (Z.add_assoc (swrap _ _))).
