(* ===== verification/Crc.v ===== *)
(** * Checksums: [src/src/common/utility/crc.cppm]

    The table-driven CRC-32 that guards log and checkpoint records, its equivalence with
    the bitwise definition, and the error detection its clients rely on: two buffers that
    differ in exactly one byte never have the same checksum. *)
From S2P Require Import Prelude Serialize.

Definition CRC32_IEEE : Z := 0xEDB88320.

Module CRC32IEEE.

(** One iteration of the inner loop of the table's constructor. *)
Definition shift_bit (c : Z) : Z :=
  if Z.odd c then Z.lxor CRC32_IEEE (Z.shiftr c 1) else Z.shiftr c 1.
Definition table_entry (i : Z) : Z := Nat.iter 8 shift_bit i.
Definition tab : list Z := Eval vm_compute in (fun i => table_entry (Z.of_nat i)) <$> seq 0 256.

Definition step (crc : Z) (b : Byte.byte) : Z :=
  Z.lxor (nth (Z.to_nat (Z.land (Z.lxor crc (Z_of_byte b)) 0xff)) tab 0) (Z.shiftr crc 8).
Definition update (crc : Z) (buf : bytes) : Z := fold_left step buf crc.
Definition makeCRC (buf : bytes) : Z := Z.lxor (update 0xFFFFFFFF buf) 0xFFFFFFFF.

(** The definition of the code without its table: the bits of the byte enter one at a time. *)
Definition step_bitwise (crc : Z) (b : Byte.byte) : Z := Nat.iter 8 shift_bit (Z.lxor crc (Z_of_byte b)).
Definition makeCRC_bitwise (buf : bytes) : Z :=
  Z.lxor (fold_left step_bitwise buf 0xFFFFFFFF) 0xFFFFFFFF.

End CRC32IEEE.

Section crc.
Import CRC32IEEE.

Lemma tab_spec i : 0 <= i < 256 -> nth (Z.to_nat i) tab 0 = table_entry i.
Proof.
  intros H. assert (E : tab = (fun i => table_entry (Z.of_nat i)) <$> seq 0 256) by (vm_compute; reflexivity).
  rewrite E, (nth_indep _ 0 (table_entry (Z.of_nat 0))) by (rewrite length_fmap, length_seq; lia).
  rewrite (map_nth (fun i => table_entry (Z.of_nat i))), seq_nth by lia. f_equal. lia.
Qed.

(** The shift register is linear over exclusive or. *)
Lemma shift_bit_lxor a b : shift_bit (Z.lxor a b) = Z.lxor (shift_bit a) (shift_bit b).
Proof.
  unfold shift_bit. rewrite <- !Z.bit0_odd, Z.lxor_spec, Z.shiftr_lxor.
  destruct (Z.testbit a 0), (Z.testbit b 0); cbn [xorb];
    apply Z.bits_inj'; intros n Hn; rewrite !Z.lxor_spec;
    destruct (Z.testbit CRC32_IEEE n), (Z.testbit (Z.shiftr a 1) n), (Z.testbit (Z.shiftr b 1) n); reflexivity.
Qed.

Lemma iter_shift_lxor n a b :
  Nat.iter n shift_bit (Z.lxor a b) = Z.lxor (Nat.iter n shift_bit a) (Nat.iter n shift_bit b).
Proof. induction n as [|n IH]; [done|]. rewrite !Nat.iter_succ. now rewrite IH, shift_bit_lxor. Qed.

Lemma iter_shift_high n a : Nat.iter n shift_bit (Z.shiftl a (Z.of_nat n)) = a.
Proof.
  revert a; induction n as [|n IH]; intros a; [apply Z.shiftl_0_r|].
  rewrite Nat.iter_succ_r. replace (Z.of_nat (S n)) with (1 + Z.of_nat n) by lia.
  unfold shift_bit at 2. rewrite <- Z.bit0_odd, Z.shiftl_spec_low by lia.
  rewrite Z.shiftr_shiftl_l by lia. replace (1 + Z.of_nat n - 1) with (Z.of_nat n) by lia. apply IH.
Qed.

Lemma low_high c : c = Z.lxor (Z.land c 0xff) (Z.shiftl (Z.shiftr c 8) 8).
Proof.
  apply Z.bits_inj'; intros n Hn.
  rewrite Z.lxor_spec, Z.land_spec, Z.shiftl_spec by lia.
  change 0xff with (Z.ones 8). destruct (Z.ltb_spec n 8).
  - rewrite Z.ones_spec_low, (Z.testbit_neg_r _ (n - 8)) by lia. now rewrite andb_true_r, xorb_false_r.
  - rewrite Z.ones_spec_high, Z.shiftr_spec by lia. rewrite andb_false_r, xorb_false_l. f_equal. lia.
Qed.

Lemma byte_high b : Z.shiftr (Z_of_byte b) 8 = 0.
Proof. pose proof (Z_of_byte_range b). rewrite Z.shiftr_div_pow2 by lia. apply Z.div_small. lia. Qed.

Lemma step_spec crc b : step crc b = step_bitwise crc b.
Proof.
  unfold step, step_bitwise. set (x := Z.lxor crc (Z_of_byte b)).
  assert (Hx : Z.shiftr crc 8 = Z.shiftr x 8)
    by (unfold x; now rewrite Z.shiftr_lxor, byte_high, Z.lxor_0_r).
  rewrite Hx, tab_spec.
  - rewrite (low_high x) at 3. rewrite iter_shift_lxor. f_equal.
    symmetry. apply (iter_shift_high 8).
  - change 0xff with (Z.ones 8). rewrite Z.land_ones by lia. apply Z.mod_pos_bound. lia.
Qed.

(** ** One changed byte *)
Definition top_byte (c : Z) : Z := Z.shiftr c 24.

Lemma tab_range i : (i < 256)%nat -> 0 <= nth i tab 0 < 2 ^ 32.
Proof.
  intros H. assert (Hf : forallb (fun x => (0 <=? x) && (x <? 2 ^ 32)) tab = true) by (vm_compute; reflexivity).
  rewrite forallb_forall in Hf. specialize (Hf (nth i tab 0)).
  apply andb_true_iff in Hf as [H1 H2]; [lia|]. apply nth_In. exact H.
Qed.

Lemma tab_top_inj i j : (i < 256)%nat -> (j < 256)%nat ->
  top_byte (nth i tab 0) = top_byte (nth j tab 0) -> i = j.
Proof.
  intros Hi Hj E.
  assert (Hd : bool_decide (NoDup (map top_byte tab)) = true) by (vm_compute; reflexivity).
  apply bool_decide_eq_true in Hd. apply NoDup_ListNoDup in Hd.
  rewrite (NoDup_nth _ (top_byte 0)) in Hd.
  apply (Hd i j); [now rewrite length_map..|]. now rewrite !map_nth.
Qed.

Lemma shiftr_24_8 c : 0 <= c < 2 ^ 32 -> top_byte (Z.shiftr c 8) = 0.
Proof.
  intros H. unfold top_byte. rewrite Z.shiftr_shiftr by lia.
  rewrite Z.shiftr_div_pow2 by lia. apply Z.div_small. exact H.
Qed.

Lemma lxor_u32 a b : 0 <= a < 2 ^ 32 -> 0 <= b < 2 ^ 32 -> 0 <= Z.lxor a b < 2 ^ 32.
Proof.
  intros Ha Hb. split; [apply Z.lxor_nonneg; lia|].
  destruct (Z.eq_dec (Z.lxor a b) 0) as [->|Hn]; [lia|].
  assert (0 <= Z.lxor a b) by (apply Z.lxor_nonneg; lia).
  apply Z.log2_lt_pow2; [lia|].
  pose proof (Z.log2_lxor a b ltac:(lia) ltac:(lia)).
  assert (forall c, 0 <= c < 2 ^ 32 -> Z.log2 c < 32).
  { intros c Hc. destruct (Z.eq_dec c 0) as [->|]; [now vm_compute|]. apply Z.log2_lt_pow2; lia. }
  pose proof (H1 a Ha). pose proof (H1 b Hb). lia.
Qed.

Lemma index_range c : (Z.to_nat (Z.land c 0xff) < 256)%nat /\ 0 <= Z.land c 0xff < 256.
Proof.
  change 0xff with (Z.ones 8). rewrite Z.land_ones by lia.
  pose proof (Z.mod_pos_bound c (2 ^ 8) ltac:(lia)). change (2 ^ 8) with 256 in *. lia.
Qed.

Lemma step_range crc b : 0 <= crc < 2 ^ 32 -> 0 <= step crc b < 2 ^ 32.
Proof.
  intros H. apply lxor_u32; [apply tab_range, index_range|].
  rewrite Z.shiftr_div_pow2 by lia. split; [apply Z.div_pos; lia|].
  apply Z.div_lt_upper_bound; lia.
Qed.

Lemma step_inj c1 c2 b1 b2 :
  0 <= c1 < 2 ^ 32 -> 0 <= c2 < 2 ^ 32 -> step c1 b1 = step c2 b2 ->
  Z.lxor c1 (Z_of_byte b1) = Z.lxor c2 (Z_of_byte b2).
Proof.
  intros H1 H2 E. unfold step in E.
  set (x1 := Z.lxor c1 (Z_of_byte b1)) in *. set (x2 := Z.lxor c2 (Z_of_byte b2)) in *.
  destruct (index_range x1) as [I1 R1], (index_range x2) as [I2 R2].
  assert (Et : Z.to_nat (Z.land x1 0xff) = Z.to_nat (Z.land x2 0xff)).
  { apply tab_top_inj; [done..|]. apply (f_equal top_byte) in E. unfold top_byte in E.
    rewrite !Z.shiftr_lxor in E. change (Z.shiftr (Z.shiftr c1 8) 24) with (top_byte (Z.shiftr c1 8)) in E.
    change (Z.shiftr (Z.shiftr c2 8) 24) with (top_byte (Z.shiftr c2 8)) in E.
    rewrite !shiftr_24_8, !Z.lxor_0_r in E by done. exact E. }
  rewrite Et in E. apply (f_equal (Z.lxor (nth (Z.to_nat (Z.land x2 0xff)) tab 0))) in E.
  rewrite <- !Z.lxor_assoc, Z.lxor_nilpotent, !Z.lxor_0_l in E.
  assert (Eh : Z.shiftr x1 8 = Z.shiftr x2 8)
    by (unfold x1, x2; now rewrite !Z.shiftr_lxor, !byte_high, !Z.lxor_0_r).
  rewrite (low_high x1), (low_high x2), Eh. f_equal. lia.
Qed.

Lemma update_range buf crc : 0 <= crc < 2 ^ 32 -> 0 <= update crc buf < 2 ^ 32.
Proof. revert crc; induction buf as [|b buf IH]; intros; cbn; [done|]. now apply IH, step_range. Qed.

Lemma lxor_inj_r a b c : Z.lxor a c = Z.lxor b c -> a = b.
Proof.
  intros E. apply (f_equal (fun z => Z.lxor z c)) in E.
  now rewrite !Z.lxor_assoc, Z.lxor_nilpotent, !Z.lxor_0_r in E.
Qed.

Lemma update_inj buf c1 c2 :
  0 <= c1 < 2 ^ 32 -> 0 <= c2 < 2 ^ 32 -> update c1 buf = update c2 buf -> c1 = c2.
Proof.
  revert c1 c2; induction buf as [|b buf IH]; intros c1 c2 H1 H2 E; [exact E|].
  cbn in E. apply IH in E; [|now apply step_range..]. apply step_inj in E; [|done..].
  now apply lxor_inj_r in E.
Qed.

Lemma makeCRC_one_byte pre b1 b2 post : makeCRC (pre ++ b1 :: post) = makeCRC (pre ++ b2 :: post) -> b1 = b2.
Proof.
  unfold makeCRC. intros E. apply lxor_inj_r in E. unfold update in E. rewrite !fold_left_app in E. cbn in E.
  assert (Hr : 0 <= update 0xFFFFFFFF pre < 2 ^ 32) by (apply update_range; lia).
  apply update_inj in E; [|now apply step_range..]. apply step_inj in E; [|done..].
  rewrite (Z.lxor_comm _ (Z_of_byte b1)), (Z.lxor_comm _ (Z_of_byte b2)) in E.
  apply lxor_inj_r in E. now apply Z_of_byte_inj.
Qed.

Lemma makeCRC_range buf : unsigned_range 32 (makeCRC buf).
Proof. apply lxor_u32; [apply update_range|]; lia. Qed.

(** The table-driven checksum equals the bitwise CRC-32 on every buffer. *)
Theorem crc_table_correct (buf : bytes) : makeCRC buf = makeCRC_bitwise buf.
Proof.
  unfold makeCRC, makeCRC_bitwise, update. f_equal. generalize 0xFFFFFFFF as c.
  induction buf as [|b buf IH]; intros c; cbn; [done|]. now rewrite step_spec.
Qed.
End crc.
