(* ===== verification/DataType.v ===== *)
(** * Column types and constants: [src/src/parser/type/data_type.cpp] and
      [src/src/parser/expr/constant_expr.cpp], the binary codecs

    Both are trees; [ReadAdv] recurses while it consumes bytes, so the length of the
    buffer bounds the depth and is the fuel. *)
From S2P Require Import Prelude Serialize.

(** [LogicalType], an enumeration over [int8_t]: any byte can be read. *)
Definition kDecimal : Z := 6.
Definition kArray : Z := 15.
Definition kEmbedding : Z := 23.
Definition kTensor : Z := 28.
Definition kTensorArray : Z := 29.
Definition kSparse : Z := 30.
Definition kMultiVector : Z := 34.
Definition EMBEDDING_LIMIT_INTERNAL : Z := 65536.

Inductive DataType :=
| mkDataType (type_ : Z) (type_info_ : option TypeInfo)
with TypeInfo :=
| ArrayInfo (elem_type_ : DataType)
| DecimalInfo (precision_ scale_ : Z)
| EmbeddingInfo (embedding_data_type_ dimension_ : Z)
| SparseInfo (data_type_ index_type_ dimension_ store_type_ : Z).

Module DataType.

(** The cases [kTensor], [kTensorArray], [kMultiVector] and [kEmbedding] of every switch. *)
Definition embedding_like (t : Z) : bool :=
  (t =? kTensor) || (t =? kTensorArray) || (t =? kMultiVector) || (t =? kEmbedding).

Fixpoint op_eq (a b : DataType) : bool :=
  match a, b with
  | mkDataType t1 i1, mkDataType t2 i2 =>
      (t1 =? t2) &&
      match i1, i2 with
      | None, None => true
      | Some (ArrayInfo e1), Some (ArrayInfo e2) => op_eq e1 e2
      | Some (DecimalInfo p1 s1), Some (DecimalInfo p2 s2) => (p1 =? p2) && (s1 =? s2)
      | Some (EmbeddingInfo t1 d1), Some (EmbeddingInfo t2 d2) => (d1 =? d2) && (t1 =? t2)
      | Some (SparseInfo a1 b1 c1 d1), Some (SparseInfo a2 b2 c2 d2) =>
          (a1 =? a2) && (b1 =? b2) && (c1 =? c2) && (d1 =? d2)
      | _, _ => false
      end
  end.

Fixpoint GetSizeInBytes (d : DataType) : res Z :=
  match d with
  | mkDataType t info =>
      match info with
      | None => Ok 1
      | Some info =>
          if t =? kArray then
            match info with
            | ArrayInfo e => let? n := GetSizeInBytes e in Ok (i32 (1 + n))
            | _ => Err Undefined
            end
          else if t =? kDecimal then Ok (1 + 8 * 2)
          else if embedding_like t then Ok (1 + 1 + 4)
          else if t =? kSparse then Ok (1 + 1 * 2 + 8 + 1)
          else Err ParserErr
      end
  end.

Fixpoint WriteAdv (d : DataType) : writer :=
  match d with
  | mkDataType t info =>
      WriteBufAdv_int 1 t +++
      if t =? kArray then
        match info with Some (ArrayInfo e) => WriteAdv e | _ => Err Undefined end
      else if t =? kDecimal then
        match info with
        | Some (DecimalInfo precision scale) => WriteBufAdv_int 8 precision +++ WriteBufAdv_int 8 scale
        | _ => WriteBufAdv_int 8 0 +++ WriteBufAdv_int 8 0
        end
      else if embedding_like t then
        match info with
        | Some (EmbeddingInfo type dimension) => WriteBufAdv_int 1 type +++ WriteBufAdv_int 4 (i32 dimension)
        | _ => Err ParserErr
        end
      else if t =? kSparse then
        match info with
        | Some (SparseInfo data_type index_type dimension store_type) =>
            WriteBufAdv_int 1 data_type +++ WriteBufAdv_int 1 index_type +++
            WriteBufAdv_int 8 dimension +++ WriteBufAdv_int 1 store_type
        | _ => Err Undefined
        end
      else Ok []
  end.

(** [EmbeddingInfo::Make] checks the dimension, a [size_t]. *)
Definition make_embedding (embedding_type dimension : Z) : reader TypeInfo :=
  if u64 dimension <=? EMBEDDING_LIMIT_INTERNAL
  then rret (EmbeddingInfo embedding_type (u64 dimension)) else rfail ParserErr.

Fixpoint read_fuel (fuel : nat) (maxbytes : Z) : reader DataType :=
  match fuel with
  | O => rfail Undefined
  | S fuel =>
      read p0 := rmark in
      read d :=
        (read t := ReadBufAdv_s 1 in
         if t =? kArray then
           read n := left maxbytes p0 in
           if 0 <? n then
             read e := read_fuel fuel n in
             rret (mkDataType t (Some (ArrayInfo e)))
           else rfail ParserErr
         else if t =? kDecimal then
           read precision := ReadBufAdv_s 8 in
           read scale := ReadBufAdv_s 8 in
           rret (mkDataType t (Some (DecimalInfo precision scale)))
         else if embedding_like t then
           read embedding_type := ReadBufAdv_s 1 in
           read dimension := ReadBufAdv_s 4 in
           read info := make_embedding embedding_type dimension in
           rret (mkDataType t (Some info))
         else if t =? kSparse then
           read data_type := ReadBufAdv_s 1 in
           read index_type := ReadBufAdv_s 1 in
           read dimension := ReadBufAdv_s 8 in
           read store_type := ReadBufAdv_s 1 in
           rret (mkDataType t (Some (SparseInfo data_type index_type (u64 dimension) store_type)))
         else rret (mkDataType t None)) in
      read m := left maxbytes p0 in
      if m <? 0 then rfail ParserErr else rret d
  end.
Definition ReadAdv (maxbytes : Z) : reader DataType := fun bs => read_fuel (S (length bs)) maxbytes bs.

Fixpoint size (d : DataType) : Z :=
  match d with
  | mkDataType _ None => 1
  | mkDataType _ (Some (ArrayInfo e)) => 1 + size e
  | mkDataType _ (Some (DecimalInfo _ _)) => 17
  | mkDataType _ (Some (EmbeddingInfo _ _)) => 6
  | mkDataType _ (Some (SparseInfo _ _ _ _)) => 12
  end.

(** A type has the information its [LogicalType] calls for, in the range of its encoding. *)
Fixpoint ok (d : DataType) : Prop :=
  match d with
  | mkDataType t info =>
      signed_range 8 t /\
      if t =? kArray then match info with Some (ArrayInfo e) => ok e | _ => False end
      else if t =? kDecimal then
        match info with Some (DecimalInfo p s) => signed_range 64 p /\ signed_range 64 s | _ => False end
      else if embedding_like t then
        match info with Some (EmbeddingInfo e d) => signed_range 8 e /\ 0 <= d <= EMBEDDING_LIMIT_INTERNAL | _ => False end
      else if t =? kSparse then
        match info with
        | Some (SparseInfo a b c d) => signed_range 8 a /\ signed_range 8 b /\ 0 <= c < 2 ^ 63 /\ signed_range 8 d
        | _ => False
        end
      else info = None
  end.

Fixpoint depth (d : DataType) : nat :=
  match d with mkDataType _ (Some (ArrayInfo e)) => S (depth e) | _ => 0%nat end.

End DataType.

Section data_type.
Import DataType.

Lemma DataType_depth_size d : 1 + Z.of_nat (depth d) <= size d.
Proof.
  revert d. fix IH 1. intros [t [[e| | |]|]]; cbn [depth size]; try lia.
  specialize (IH e). lia.
Qed.

Ltac case_type :=
  repeat match goal with
  | H : context [if ?b then _ else _] |- _ => destruct b eqn:?
  end.

Lemma DataType_GetSizeInBytes d : ok d -> size d < 2 ^ 31 -> GetSizeInBytes d = Ok (size d).
Proof.
  revert d. fix IH 1. intros [t info] [Ht Hok] Hs. cbn [GetSizeInBytes].
  destruct info as [info|]; [|reflexivity].
  destruct (t =? kArray) eqn:E1; [|destruct (t =? kDecimal) eqn:E2; [|destruct (embedding_like t) eqn:E3;
    [|destruct (t =? kSparse) eqn:E4]]]; destruct info; try contradiction; try discriminate; try reflexivity.
  cbn [size] in *. pose proof (DataType_depth_size elem_type_). rewrite IH by (done || lia). cbn.
  f_equal. apply swrap_id; [lia|]. unfold signed_range. lia.
Qed.

Lemma encodes_DataType d fuel maxbytes :
  (depth d < fuel)%nat -> ok d -> size d <= maxbytes < 2 ^ 31 ->
  encodes (WriteAdv d) (read_fuel fuel maxbytes) d (size d).
Proof.
  revert d fuel maxbytes. fix IH 1. intros [t info] [|fuel] maxbytes Hf [Ht Hok] Hs; [lia|].
  pose proof (DataType_depth_size (mkDataType t info)).
  apply encodes_of_at. intros p0. cbn [read_fuel WriteAdv]. apply encodes_at_mark.
  apply encodes_at_finish; [lia..|].
  destruct (t =? kArray) eqn:E1; [|destruct (t =? kDecimal) eqn:E2; [|destruct (embedding_like t) eqn:E3;
    [|destruct (t =? kSparse) eqn:E4]]]; try (destruct info as [[]|]; try contradiction; try discriminate);
    split_hyps.
  all: eapply encodes_at_size; [eapply encodes_at_bind; [apply (encodes_s 1); [lia|done]|]|].
  all: cbv beta; rewrite ?E1, ?E2, ?E3, ?E4.
  - apply encodes_at_left; [lia..|]. cbn [size depth] in *.
    replace (0 <? _) with true by (symmetry; apply Z.ltb_lt; lia).
    apply encodes_at_of. eapply encodes_map; [apply IH; [lia|done|lia]|reflexivity].
  - cbn [size]. lia.
  - apply encodes_at_of. enc. eapply encodes_map; [enc_field|reflexivity].
  - reflexivity.
  - apply encodes_at_of. enc. unfold EMBEDDING_LIMIT_INTERNAL in *.
    rewrite swrap_id by (unfold signed_range; lia).
    eapply encodes_map; [apply (encodes_s 4); [lia|unfold signed_range; lia]|]. intros rest.
    unfold make_embedding, rbind. rewrite wrap_id by (unfold unsigned_range; lia).
    replace (_ <=? _) with true by (symmetry; apply Z.leb_le; unfold EMBEDDING_LIMIT_INTERNAL; lia). reflexivity.
  - reflexivity.
  - apply encodes_at_of. enc.
    eapply encodes_bind; [apply (encodes_s 8); [lia|unfold signed_range; lia]|]. cbv beta.
    eapply encodes_map; [enc_field|]. intros rest. unfold rret.
    now rewrite wrap_id by (unfold unsigned_range; lia).
  - reflexivity.
  - apply encodes_at_of, encodes_ret.
  - reflexivity.
Qed.

Lemma encodes_ReadAdv_DataType d maxbytes :
  ok d -> size d <= maxbytes < 2 ^ 31 -> encodes (WriteAdv d) (ReadAdv maxbytes) d (size d).
Proof.
  intros Hok Hs. apply (encodes_fuel _ (fun fuel => read_fuel fuel maxbytes) _ _ (depth d)).
  - intros fuel Hf. now apply encodes_DataType.
  - pose proof (DataType_depth_size d). lia.
Qed.
End data_type.

(** A decimal type without its information: one byte is announced, seventeen are written. *)
Lemma decimal_without_info_overruns :
  DataType.GetSizeInBytes (mkDataType kDecimal None) = Ok 1 /\
  length <$> match DataType.WriteAdv (mkDataType kDecimal None) with Ok bs => Some bs | Err _ => None end = Some 17%nat.
Proof. split; vm_compute; reflexivity. Qed.
