(* ===== verification/ConstantExpr.v ===== *)
(** * Constants of the parser: [src/src/parser/expr/constant_expr.cpp], the binary codec

    One constructor per [LiteralType], with the members the type uses. A [double] is its
    64 bits. The C strings of a constant have no zero byte inside; [ReadAdv] copies what
    it reads with [strdup], up to the first zero byte. *)
From S2P Require Import Prelude Serialize.
From Stdlib Require Strings.String Strings.Ascii.

Inductive ConstantExpr :=
| kBoolean (bool_value_ : bool)
| kDouble (double_value_ : Z)
| kString (str_value_ : string)
| kInteger (integer_value_ : Z)
| kNull
| kDate (date_value_ : string)
| kTime (date_value_ : string)
| kDateTime (date_value_ : string)
| kTimestamp (date_value_ : string)
| kIntegerArray (long_array_ : list Z)
| kDoubleArray (double_array_ : list Z)
| kSubArrayArray (sub_array_array_ : list ConstantExpr)
| kInterval (interval_type_ integer_value_ : Z)
| kLongSparseArray (first second : list Z)
| kDoubleSparseArray (first second : list Z)
| kEmptyArray
| kCurlyBracketsArray (curly_brackets_array_ : list ConstantExpr).

Module ConstantExpr.

Definition literal_type (e : ConstantExpr) : Z :=
  match e with
  | kBoolean _ => 0 | kDouble _ => 1 | kString _ => 2 | kInteger _ => 3 | kNull => 4
  | kDate _ => 5 | kTime _ => 6 | kDateTime _ => 7 | kTimestamp _ => 8
  | kIntegerArray _ => 9 | kDoubleArray _ => 10 | kSubArrayArray _ => 11 | kInterval _ _ => 12
  | kLongSparseArray _ _ => 13 | kDoubleSparseArray _ _ => 14 | kEmptyArray => 15
  | kCurlyBracketsArray _ => 16
  end.

Fixpoint GetSizeInBytes (e : ConstantExpr) : Z :=
  let size := 4 in
  match e with
  | kBoolean _ => i32 (size + 1)
  | kDouble _ => i32 (size + 8)
  | kString s => i32 (size + (4 + Z.of_nat (String.length s)))
  | kInteger _ => i32 (size + 8)
  | kEmptyArray | kNull => size
  | kDate s | kTime s | kDateTime s | kTimestamp s => i32 (size + (4 + Z.of_nat (String.length s)))
  | kIntegerArray l | kDoubleArray l => i32 (i32 (size + 8) + 8 * Z.of_nat (length l))
  | kSubArrayArray l | kCurlyBracketsArray l => fold_left (fun size v => i32 (size + GetSizeInBytes v)) l (i32 (size + 8))
  | kLongSparseArray f s | kDoubleSparseArray f s =>
      i32 (i32 (size + (8 + 8 * Z.of_nat (length f))) + (8 + 8 * Z.of_nat (length s)))
  | kInterval _ _ => i32 (i32 (size + 4) + 8)
  end.

(** A vector preceded by its size as [int64_t]. *)
Definition write_len {A : Type} (l : list A) : writer := WriteBufAdv_int 8 (Z.of_nat (length l)).
Definition write_longs (l : list Z) : writer := write_len l +++ write_each (WriteBufAdv_int 8) l.

Fixpoint WriteAdv (e : ConstantExpr) : writer :=
  WriteBufAdv_int 4 (literal_type e) +++
  match e with
  | kBoolean b => WriteBufAdv_int 1 (if b then 1 else 0)
  | kDouble d => WriteBufAdv_int 8 d
  | kString s => WriteBufAdv_string s
  | kInteger z => WriteBufAdv_int 8 z
  | kEmptyArray | kNull => Ok []
  | kDate s | kTime s | kDateTime s | kTimestamp s => WriteBufAdv_string s
  | kIntegerArray l | kDoubleArray l => write_longs l
  | kSubArrayArray l | kCurlyBracketsArray l => write_len l +++ write_each WriteAdv l
  | kInterval u z => WriteBufAdv_int 4 u +++ WriteBufAdv_int 8 z
  | kLongSparseArray f s | kDoubleSparseArray f s => write_longs f +++ write_longs s
  end.

(** [strdup(s.c_str())]. *)
Fixpoint c_str (s : string) : string :=
  match s with
  | String.EmptyString => String.EmptyString
  | String.String c s => if Ascii.eqb c Ascii.zero then String.EmptyString else String.String c (c_str s)
  end.

Definition read_bool : reader bool := read b := ReadBufAdv_u 1 in rret (negb (b =? 0)).
Definition read_len : reader nat := read n := ReadBufAdv_s 8 in rret (Z.to_nat (u64 n)).
Definition read_longs (r : reader Z) : reader (list Z) := read n := read_len in read_each r n.
Definition read_c_str : reader string := read s := ReadBufAdv_string in rret (c_str s).

Fixpoint read_fuel (fuel : nat) (maxbytes : Z) : reader ConstantExpr :=
  match fuel with
  | O => rfail Undefined
  | S fuel =>
      read p0 := rmark in
      read e :=
        (read literal_type := ReadBufAdv_s 4 in
         let read_subs := read n := read_len in read_each (read m := left maxbytes p0 in read_fuel fuel m) n in
         match literal_type with
         | 0 => read b := read_bool in rret (kBoolean b)
         | 1 => read d := ReadBufAdv_u 8 in rret (kDouble d)
         | 2 => read s := read_c_str in rret (kString s)
         | 3 => read z := ReadBufAdv_s 8 in rret (kInteger z)
         | 4 => rret kNull
         | 5 => read s := read_c_str in rret (kDate s)
         | 6 => read s := read_c_str in rret (kTime s)
         | 7 => read s := read_c_str in rret (kDateTime s)
         | 8 => read s := read_c_str in rret (kTimestamp s)
         | 9 => read l := read_longs (ReadBufAdv_s 8) in rret (kIntegerArray l)
         | 10 => read l := read_longs (ReadBufAdv_u 8) in rret (kDoubleArray l)
         | 11 => read l := read_subs in rret (kSubArrayArray l)
         | 12 => read u := ReadBufAdv_s 4 in read z := ReadBufAdv_s 8 in rret (kInterval u z)
         | 13 => read f := read_longs (ReadBufAdv_s 8) in read s := read_longs (ReadBufAdv_s 8) in rret (kLongSparseArray f s)
         | 14 => read f := read_longs (ReadBufAdv_s 8) in read s := read_longs (ReadBufAdv_u 8) in rret (kDoubleSparseArray f s)
         | 15 => rret kEmptyArray
         | 16 => read l := read_subs in rret (kCurlyBracketsArray l)
         | _ => rfail Undefined
         end) in
      read m := left maxbytes p0 in
      if m <? 0 then rfail ParserErr else rret e
  end.
Definition ReadAdv (maxbytes : Z) : reader ConstantExpr := fun bs => read_fuel (S (length bs)) maxbytes bs.

Fixpoint size (e : ConstantExpr) : Z :=
  match e with
  | kBoolean _ => 5
  | kDouble _ | kInteger _ => 12
  | kString s | kDate s | kTime s | kDateTime s | kTimestamp s => 4 + string_size s
  | kEmptyArray | kNull => 4
  | kIntegerArray l | kDoubleArray l => 12 + 8 * Z.of_nat (length l)
  | kSubArrayArray l | kCurlyBracketsArray l => 12 + foldr (fun e n => size e + n) 0 l
  | kLongSparseArray f s | kDoubleSparseArray f s => 20 + 8 * Z.of_nat (length f) + 8 * Z.of_nat (length s)
  | kInterval _ _ => 16
  end.

Definition len_ok {A : Type} (l : list A) : Prop := Z.of_nat (length l) < 2 ^ 63.
Definition text_ok (s : string) : Prop := string_ok s /\ c_str s = s.
Fixpoint ok (e : ConstantExpr) : Prop :=
  match e with
  | kBoolean _ | kEmptyArray | kNull => True
  | kDouble d => unsigned_range 64 d
  | kInteger z => signed_range 64 z
  | kString s | kDate s | kTime s | kDateTime s | kTimestamp s => text_ok s
  | kIntegerArray l => len_ok l /\ Forall (signed_range 64) l
  | kDoubleArray l => len_ok l /\ Forall (unsigned_range 64) l
  | kSubArrayArray l | kCurlyBracketsArray l => len_ok l /\ foldr (fun e P => ok e /\ P) True l
  | kInterval u z => signed_range 32 u /\ signed_range 64 z
  | kLongSparseArray f s => len_ok f /\ len_ok s /\ Forall (signed_range 64) f /\ Forall (signed_range 64) s
  | kDoubleSparseArray f s => len_ok f /\ len_ok s /\ Forall (signed_range 64) f /\ Forall (unsigned_range 64) s
  end.

Fixpoint depth (e : ConstantExpr) : nat :=
  match e with
  | kSubArrayArray l | kCurlyBracketsArray l => S (foldr (fun e n => (depth e + n)%nat) 0%nat l)
  | _ => 0%nat
  end.

End ConstantExpr.

(** Induction with the hypothesis for every element of an array. *)
Section constant_ind.
Context (P : ConstantExpr -> Prop).
Definition leaf (e : ConstantExpr) : Prop :=
  match e with kSubArrayArray _ | kCurlyBracketsArray _ => False | _ => True end.
Context (Hleaf : forall e, leaf e -> P e).
Context (Hsub : forall l, Forall P l -> P (kSubArrayArray l)).
Context (Hcurly : forall l, Forall P l -> P (kCurlyBracketsArray l)).

Lemma constant_ind (e : ConstantExpr) : P e.
Proof.
  revert e. fix IH 1. intros []; try (apply Hleaf; exact I); [apply Hsub|apply Hcurly].
  - induction sub_array_array_ as [|e l IHl]; constructor; [apply IH|exact IHl].
  - induction curly_brackets_array_ as [|e l IHl]; constructor; [apply IH|exact IHl].
Qed.
End constant_ind.

Section constant_codec.
Import ConstantExpr.

Lemma size_pos_list l : Forall (fun e => 4 <= size e) l -> 0 <= foldr (fun e n => size e + n) 0 l.
Proof. induction 1; cbn; lia. Qed.

Lemma ConstantExpr_size_pos e : 4 <= size e.
Proof.
  induction e using constant_ind.
  - destruct e; try contradiction; cbn [size]; unfold string_size; lia.
  - cbn [size]. pose proof (size_pos_list l H). lia.
  - cbn [size]. pose proof (size_pos_list l H). lia.
Qed.

Lemma depth_list l :
  Forall (fun e => Z.of_nat (depth e) < size e) l ->
  Z.of_nat (foldr (fun e n => (depth e + n)%nat) 0%nat l) <= foldr (fun e n => size e + n) 0 l.
Proof. induction 1; cbn; lia. Qed.

Lemma ConstantExpr_depth_size e : Z.of_nat (depth e) < size e.
Proof.
  induction e using constant_ind.
  - pose proof (ConstantExpr_size_pos e). destruct e; try contradiction; cbn [depth]; lia.
  - cbn [size depth]. pose proof (depth_list l H). lia.
  - cbn [size depth]. pose proof (depth_list l H). lia.
Qed.

Lemma elem_depth e l : e ∈ l -> (depth e <= foldr (fun e n => (depth e + n)%nat) 0%nat l)%nat.
Proof. induction 1; cbn; lia. Qed.

Lemma elem_ok e l : foldr (fun e P => ok e /\ P) True l -> e ∈ l -> ok e.
Proof. induction l; cbn; [set_solver|]. intros [H1 H2] [->|H]%elem_of_cons; auto. Qed.

Lemma elem_size e l : e ∈ l -> size e <= foldr (fun e n => size e + n) 0 l.
Proof.
  assert (forall l, 0 <= foldr (fun e n => size e + n) 0 l) as Hl
    by (intros k; apply size_pos_list; rewrite Forall_forall; intros; apply ConstantExpr_size_pos).
  induction 1 as [|? ? ? ? IH]; cbn.
  - pose proof (Hl l). lia.
  - pose proof (ConstantExpr_size_pos y). lia.
Qed.

(** [GetSizeInBytes] announces the size, modulo the width of its result. *)
Lemma size_fold l s :
  Forall (fun e => GetSizeInBytes e = i32 (size e)) l ->
  fold_left (fun s v => i32 (s + GetSizeInBytes v)) l (i32 s) = i32 (s + foldr (fun e n => size e + n) 0 l).
Proof.
  intros H. revert s. induction H as [|e l He _ IH]; intros s; cbn; [now rewrite Z.add_0_r|].
  rewrite He, swrap_add_l, swrap_add_r, IH. f_equal. lia.
Qed.

Lemma ConstantExpr_GetSizeInBytes e : GetSizeInBytes e = i32 (size e).
Proof.
  induction e using constant_ind.
  - destruct e; try contradiction; cbn [GetSizeInBytes size]; rewrite ?swrap_add_l; unfold string_size;
      first [reflexivity|f_equal; lia].
  - cbn [GetSizeInBytes size]. now apply size_fold.
  - cbn [GetSizeInBytes size]. now apply size_fold.
Qed.

Lemma encodes_len {A : Type} (l : list A) : len_ok l -> encodes (write_len l) read_len (length l) 8.
Proof.
  intros H. unfold len_ok in H. eapply encodes_map; [apply (encodes_s 8); [lia|unfold signed_range; lia]|].
  intros rest. unfold rret. rewrite wrap_id by (unfold unsigned_range; lia). now rewrite Nat2Z.id.
Qed.

Lemma encodes_longs (r : reader Z) l :
  len_ok l -> (forall z, z ∈ l -> encodes (WriteBufAdv_int 8 z) r z 8) ->
  encodes (write_longs l) (read_longs r) l (8 + 8 * Z.of_nat (length l)).
Proof.
  intros Hl Hr. unfold write_longs, read_longs. rewrite <- (foldr_const 8 l).
  eapply encodes_bind; [now apply encodes_len|]. now apply (encodes_list _ _ (fun _ => 8)).
Qed.

Lemma encodes_signed_longs l :
  len_ok l -> Forall (signed_range 64) l -> encodes (write_longs l) (read_longs (ReadBufAdv_s 8)) l (8 + 8 * Z.of_nat (length l)).
Proof.
  intros Hl Hf. apply encodes_longs; [done|]. intros z Hz. rewrite Forall_forall in Hf.
  apply (encodes_s 8); [lia|]. now apply Hf.
Qed.
Lemma encodes_unsigned_longs l :
  len_ok l -> Forall (unsigned_range 64) l -> encodes (write_longs l) (read_longs (ReadBufAdv_u 8)) l (8 + 8 * Z.of_nat (length l)).
Proof.
  intros Hl Hf. apply encodes_longs; [done|]. intros z Hz. rewrite Forall_forall in Hf.
  apply (encodes_u 8). now apply Hf.
Qed.

Lemma encodes_text s : text_ok s -> encodes (WriteBufAdv_string s) read_c_str s (string_size s).
Proof.
  intros [H1 H2]. eapply encodes_map; [now apply encodes_string|]. intros rest. unfold rret. now rewrite H2.
Qed.

Lemma encodes_read_bool (b : bool) : encodes (WriteBufAdv_int 1 (if b then 1 else 0)) read_bool b 1.
Proof.
  eapply encodes_map; [apply (encodes_u 1); unfold unsigned_range; destruct b; cbn; lia|]. now destruct b.
Qed.

(** The leaves do not recurse, so any fuel will do. *)
Lemma encodes_leaf e fuel maxbytes :
  leaf e -> ok e -> size e <= maxbytes < 2 ^ 31 ->
  encodes (WriteAdv e) (read_fuel (S fuel) maxbytes) e (size e).
Proof.
  intros Hleaf Hok Hs. pose proof (ConstantExpr_size_pos e).
  apply encodes_of_at. intros p0. cbn [read_fuel]. apply encodes_at_mark.
  apply encodes_at_finish; [lia..|]. apply encodes_at_of.
  destruct e; try contradiction; cbn [WriteAdv literal_type ok] in *; split_hyps;
    (eapply encodes_size; [eapply encodes_bind; [apply (encodes_s 4); [lia|vm_compute; split; congruence]|]|]; cbv beta iota zeta).
  all: try (eapply encodes_map; [now apply encodes_text|reflexivity]).
  all: try (eapply encodes_map; [enc_field|reflexivity]).
  all: try apply encodes_ret.
  all: try reflexivity.
  all: try (cbn [size]; unfold string_size; lia).
  - eapply encodes_map; [apply encodes_read_bool|reflexivity].
  - cbn [size]. lia.
  - eapply encodes_map; [now apply encodes_signed_longs|reflexivity].
  - cbn [size]. lia.
  - eapply encodes_map; [now apply encodes_unsigned_longs|reflexivity].
  - cbn [size]. lia.
  - enc. eapply encodes_map; [enc_field|reflexivity].
  - reflexivity.
  - eapply encodes_bind; [now apply encodes_signed_longs|].
    eapply encodes_map; [now apply encodes_signed_longs|reflexivity].
  - cbn [size]. lia.
  - eapply encodes_bind; [now apply encodes_signed_longs|].
    eapply encodes_map; [now apply encodes_unsigned_longs|reflexivity].
  - cbn [size]. lia.
Qed.

(** An array of constants, from the property of its elements. *)
Lemma encodes_at_subs (mk : list ConstantExpr -> ConstantExpr) l L fuel maxbytes p0 :
  len_ok l -> foldr (fun e P => ok e /\ P) True l -> 0 <= p0 - L ->
  p0 - L + 8 + foldr (fun e n => size e + n) 0 l <= maxbytes < 2 ^ 31 ->
  (forall e m, e ∈ l -> ok e -> size e <= m < 2 ^ 31 -> encodes (WriteAdv e) (read_fuel fuel m) e (size e)) ->
  encodes_at L (write_len l +++ write_each WriteAdv l)
    (read l := (read n := read_len in read_each (read m := left maxbytes p0 in read_fuel fuel m) n) in rret (mk l)) (mk l)
    (8 + foldr (fun e n => size e + n) 0 l).
Proof.
  intros Hl Hok HL Hm He. eapply encodes_at_map; [|reflexivity].
  eapply encodes_at_bind; [now apply encodes_len|].
  apply encodes_at_each; [intros a _; pose proof (ConstantExpr_size_pos a); lia|lia|lia|].
  intros e m Hin Hm'. apply He; [done| |done]. eapply elem_ok; eauto.
Qed.

Lemma encodes_ConstantExpr e fuel maxbytes :
  (depth e < fuel)%nat -> ok e -> size e <= maxbytes < 2 ^ 31 ->
  encodes (WriteAdv e) (read_fuel fuel maxbytes) e (size e).
Proof.
  revert fuel maxbytes. induction e using constant_ind; intros [|fuel] maxbytes Hf Hok Hs; try lia.
  1: now apply encodes_leaf.
  all: pose proof (ConstantExpr_size_pos) as Hp; rewrite Forall_forall in H;
    cbn [size depth ok] in *; destruct Hok as [Hl Hok];
    assert (0 <= foldr (fun e n => size e + n) 0 l) by (apply size_pos_list; rewrite Forall_forall; auto).
  all: apply encodes_of_at; intros p0; cbn [read_fuel]; apply encodes_at_mark;
    apply encodes_at_finish; [lia..|]; cbn [WriteAdv literal_type].
  all: replace (12 + foldr (fun e n => size e + n) 0 l) with (4 + (8 + foldr (fun e n => size e + n) 0 l)) by lia.
  all: eapply encodes_at_bind; [apply (encodes_s 4); [lia|vm_compute; split; congruence]|]; cbv beta iota zeta.
  all: apply encodes_at_subs; [done|done|lia|lia|].
  all: intros e m He Hok' Hm'; apply H; [done| |done|done]; pose proof (elem_depth e l He); lia.
Qed.

Lemma encodes_ReadAdv_ConstantExpr e maxbytes :
  ok e -> size e <= maxbytes < 2 ^ 31 -> encodes (WriteAdv e) (ReadAdv maxbytes) e (size e).
Proof.
  intros Hok Hs. apply (encodes_fuel _ (fun fuel => read_fuel fuel maxbytes) _ _ (depth e)).
  - intros fuel Hf. now apply encodes_ConstantExpr.
  - pose proof (ConstantExpr_depth_size e). lia.
Qed.
End constant_codec.
