(* ===== verification/TableDef.v ===== *)
(** * Column and table definitions: [src/src/parser/definition/column_def.cpp] and
      [src/src/storage/definition/table_def.cpp]

    The binary codecs, the equality operators and the map from column names to positions.
    The default value of a column is a constant, as its constructors ensure. *)
From S2P Require Import Prelude Serialize DataType ConstantExpr.

(** [std::set<ConstraintType>]: an increasing list of the underlying [char]s. *)
Module ConstraintSet.
Fixpoint insert (c : Z) (s : list Z) : list Z :=
  match s with
  | [] => [c]
  | d :: s' => if c <? d then c :: s else if d <? c then d :: insert c s' else s
  end.
Fixpoint increasing (s : list Z) : Prop :=
  match s with
  | [] => True
  | c :: s => Forall (fun d => c < d) s /\ increasing s
  end.
End ConstraintSet.

Record ColumnDef := mkColumnDef {
  id_ : Z;
  column_type_ : DataType;
  name_ : string;
  constraints_ : list Z;
  comment_ : string;
  default_expr_ : ConstantExpr;
  build_bloom_filter_ : bool;
}.

Module ColumnDef.

Definition op_eq (a b : ColumnDef) : bool :=
  (id_ a =? id_ b) && String.eqb (name_ a) (name_ b) && DataType.op_eq (column_type_ a) (column_type_ b) &&
  (length (constraints_ a) =? length (constraints_ b))%nat &&
  Bool.eqb (build_bloom_filter_ a) (build_bloom_filter_ b) && String.eqb (comment_ a) (comment_ b) &&
  forallb (fun con => existsb (Z.eqb con) (constraints_ b)) (constraints_ a).

Definition GetSizeInBytes (c : ColumnDef) : res Z :=
  let size := 8 in
  let? n := DataType.GetSizeInBytes (column_type_ c) in
  let size := i32 (size + n) in
  let size := i32 (size + (4 + Z.of_nat (String.length (name_ c)))) in
  let size := i32 (size + (4 + Z.of_nat (length (constraints_ c)) * 1)) in
  let size := i32 (size + (4 + Z.of_nat (String.length (comment_ c)))) in
  let size := i32 (size + ConstantExpr.GetSizeInBytes (default_expr_ c)) in
  Ok (i32 (size + 1)).

Definition WriteAdv (c : ColumnDef) : writer :=
  WriteBufAdv_int 8 (id_ c) +++
  DataType.WriteAdv (column_type_ c) +++
  WriteBufAdv_string (name_ c) +++
  WriteBufAdv_int 4 (i32 (Z.of_nat (length (constraints_ c)))) +++
  write_each (WriteBufAdv_int 1) (constraints_ c) +++
  WriteBufAdv_string (comment_ c) +++
  ConstantExpr.WriteAdv (default_expr_ c) +++
  WriteBufAdv_int 1 (if build_bloom_filter_ c then 1 else 0).

Fixpoint read_constraints (n : nat) (constraints : list Z) : reader (list Z) :=
  match n with
  | O => rret constraints
  | S n => read c := ReadBufAdv_s 1 in read_constraints n (ConstraintSet.insert c constraints)
  end.
Definition ReadAdv (maxbytes : Z) : reader ColumnDef :=
  read id := ReadBufAdv_s 8 in
  read column_type := DataType.ReadAdv maxbytes in
  read name := ReadBufAdv_string in
  read constraint_size := ReadBufAdv_s 4 in
  read constraints := read_constraints (Z.to_nat constraint_size) [] in
  read comment := ReadBufAdv_string in
  read default_expr := ConstantExpr.ReadAdv maxbytes in
  read bf := ReadBufAdv_u 1 in
  rret (mkColumnDef id column_type name constraints comment default_expr (bf =? 1)).

Definition size (c : ColumnDef) : Z :=
  8 + DataType.size (column_type_ c) + string_size (name_ c) + (4 + Z.of_nat (length (constraints_ c))) +
  string_size (comment_ c) + ConstantExpr.size (default_expr_ c) + 1.

Record ok (c : ColumnDef) : Prop := {
  ok_id : signed_range 64 (id_ c);
  ok_type : DataType.ok (column_type_ c);
  ok_name : string_ok (name_ c);
  ok_count : count_ok (constraints_ c);
  ok_constraints : Forall (signed_range 8) (constraints_ c);
  ok_set : ConstraintSet.increasing (constraints_ c);
  ok_comment : string_ok (comment_ c);
  ok_default : ConstantExpr.ok (default_expr_ c);
}.

End ColumnDef.

Record TableDef := mkTableDef {
  schema_name_ : string;
  table_name_ : string;
  table_comment_ : string;
  columns_ : list ColumnDef;
  column_name2id_ : gmap string Z;
}.

Module TableDef.

(** The loop of the constructor: a later column of the same name wins. *)
Fixpoint index_columns (idx : Z) (columns : list ColumnDef) (m : gmap string Z) : gmap string Z :=
  match columns with
  | [] => m
  | c :: columns => index_columns (idx + 1) columns (<[name_ c := idx]> m)
  end.
Definition Make (schema table_name table_comment : string) (columns : list ColumnDef) : TableDef :=
  mkTableDef schema table_name table_comment columns (index_columns 0 columns ∅).

Fixpoint columns_eq (l k : list ColumnDef) : bool :=
  match l, k with
  | [], [] => true
  | a :: l, b :: k => ColumnDef.op_eq a b && columns_eq l k
  | _, _ => false
  end.
Definition op_eq (a b : TableDef) : bool :=
  String.eqb (schema_name_ a) (schema_name_ b) && String.eqb (table_name_ a) (table_name_ b) &&
  bool_decide (base.size (column_name2id_ a) = base.size (column_name2id_ b)) && columns_eq (columns_ a) (columns_ b).

Fixpoint columns_size (size : Z) (l : list ColumnDef) : res Z :=
  match l with
  | [] => Ok size
  | c :: l => let? n := ColumnDef.GetSizeInBytes c in columns_size (i32 (size + n)) l
  end.
Definition GetSizeInBytes (t : TableDef) : res Z :=
  let size := i32 (0 + (4 + Z.of_nat (String.length (schema_name_ t)))) in
  let size := i32 (size + (4 + Z.of_nat (String.length (table_name_ t)))) in
  let size := i32 (size + (4 + Z.of_nat (String.length (table_comment_ t)))) in
  let size := i32 (size + 4) in
  columns_size size (columns_ t).

Definition WriteAdv (t : TableDef) : writer :=
  WriteBufAdv_string (schema_name_ t) +++
  WriteBufAdv_string (table_name_ t) +++
  WriteBufAdv_string (table_comment_ t) +++
  WriteBufAdv_int 4 (i32 (Z.of_nat (length (columns_ t)))) +++
  write_each ColumnDef.WriteAdv (columns_ t).

Definition ReadAdv (maxbytes : Z) : reader TableDef :=
  read p0 := rmark in
  if maxbytes <=? 0 then rfail Unrecoverable else
  read t :=
    (read schema_name := ReadBufAdv_string in
     read table_name := ReadBufAdv_string in
     read table_comment := ReadBufAdv_string in
     read columns_size := ReadBufAdv_s 4 in
     read columns := read_each (ColumnDef.ReadAdv maxbytes) (Z.to_nat columns_size) in
     rret (Make schema_name table_name table_comment columns)) in
  read m := left maxbytes p0 in
  if m <? 0 then rfail Unrecoverable else rret t.

Definition size (t : TableDef) : Z :=
  string_size (schema_name_ t) + string_size (table_name_ t) + string_size (table_comment_ t) + 4 +
  foldr (fun c n => ColumnDef.size c + n) 0 (columns_ t).

Record ok (t : TableDef) : Prop := {
  ok_schema : string_ok (schema_name_ t);
  ok_table : string_ok (table_name_ t);
  ok_comment : string_ok (table_comment_ t);
  ok_count : count_ok (columns_ t);
  ok_columns : Forall ColumnDef.ok (columns_ t);
  ok_ids : column_name2id_ t = index_columns 0 (columns_ t) ∅;
}.

End TableDef.

#[export] Instance ColumnDef_Codec : Codec ColumnDef := {
  codec_write := ColumnDef.WriteAdv;
  codec_read := ColumnDef.ReadAdv;
  codec_size := ColumnDef.size;
  codec_ok := ColumnDef.ok;
}.
#[export] Instance TableDef_Codec : Codec TableDef := {
  codec_write := TableDef.WriteAdv;
  codec_read := TableDef.ReadAdv;
  codec_size := TableDef.size;
  codec_ok := TableDef.ok;
}.

Section definitions.

(** Inserting an increasing list element by element rebuilds it. *)
Lemma insert_largest c s : Forall (fun d => d < c) s -> ConstraintSet.insert c s = s ++ [c].
Proof.
  induction 1 as [|d s Hd Hs IH]; cbn; [done|].
  replace (c <? d) with false by (symmetry; apply Z.ltb_ge; lia).
  replace (d <? c) with true by (symmetry; apply Z.ltb_lt; lia). now rewrite IH.
Qed.

Lemma encodes_constraints l acc :
  Forall (signed_range 8) l -> ConstraintSet.increasing l -> Forall (fun d => Forall (fun c => d < c) l) acc ->
  encodes (write_each (WriteBufAdv_int 1) l) (ColumnDef.read_constraints (length l) acc) (acc ++ l) (Z.of_nat (length l)).
Proof.
  revert acc. induction l as [|c l IH]; intros acc Hr Hi Hacc.
  - rewrite app_nil_r. apply encodes_ret.
  - apply Forall_cons in Hr as [Hr1 Hr2]. destruct Hi as [Hc Hi]. cbn [length write_each ColumnDef.read_constraints].
    replace (Z.of_nat (S (length l))) with (1 + Z.of_nat (length l)) by lia.
    eapply encodes_bind; [apply (encodes_s 1); [lia|done]|]. cbv beta.
    rewrite insert_largest; [replace (acc ++ c :: l) with ((acc ++ [c]) ++ l) by (now rewrite <- app_assoc)|].
    + apply IH; [done..|]. rewrite Forall_app. split; [|now constructor].
      eapply Forall_impl; [exact Hacc|]. intros d Hd. now apply Forall_cons in Hd as [_ Hd].
    + eapply Forall_impl; [exact Hacc|]. intros d Hd. now apply Forall_cons in Hd as [Hd _].
Qed.

Lemma ColumnDef_size_bounds c : 1 <= DataType.size (column_type_ c) /\ 4 <= ConstantExpr.size (default_expr_ c) /\
  4 <= string_size (name_ c) /\ 4 <= string_size (comment_ c).
Proof.
  pose proof (DataType_depth_size (column_type_ c)). pose proof (ConstantExpr_size_pos (default_expr_ c)).
  unfold string_size. lia.
Qed.

Lemma encodes_ColumnDef c maxbytes :
  ColumnDef.ok c -> ColumnDef.size c <= maxbytes < 2 ^ 31 ->
  encodes (ColumnDef.WriteAdv c) (ColumnDef.ReadAdv maxbytes) c (ColumnDef.size c).
Proof.
  intros [H1 H2 H3 H4 H5 H6 H7 H8] Hs. pose proof (ColumnDef_size_bounds c) as (? & ? & ? & ?).
  assert (forall b, 4 <= b -> 0 <= b) by lia. unfold ColumnDef.size in Hs.
  unfold ColumnDef.WriteAdv, ColumnDef.ReadAdv. eapply encodes_size.
  - enc. eapply encodes_bind; [apply encodes_ReadAdv_DataType; [done|lia]|]. enc.
    rewrite Nat2Z.id. eapply encodes_bind; [now apply encodes_constraints|]. cbn [app]. enc.
    eapply encodes_bind; [apply encodes_ReadAdv_ConstantExpr; [done|lia]|].
    eapply (encodes_map _ _ _ (if build_bloom_filter_ c then 1 else 0)).
    + apply (encodes_u 1). unfold unsigned_range. destruct (build_bloom_filter_ c); cbn; lia.
    + intros rest. unfold rret. do 2 f_equal. destruct c as [? ? ? ? ? ? []]; reflexivity.
  - unfold ColumnDef.size. lia.
Qed.

#[export] Instance ColumnDef_CodecLaws : CodecLaws ColumnDef.
Proof. constructor. apply encodes_ColumnDef. Qed.

Lemma ColumnDef_size_nonneg c : 0 <= ColumnDef.size c.
Proof. pose proof (ColumnDef_size_bounds c). unfold ColumnDef.size. lia. Qed.

Lemma columns_size_nonneg l : 0 <= foldr (fun c n => ColumnDef.size c + n) 0 l.
Proof.
  induction l as [|c l IH]; cbn; [lia|]. pose proof (ColumnDef_size_nonneg c). lia.
Qed.

Lemma elem_columns_size c l : c ∈ l -> ColumnDef.size c <= foldr (fun c n => ColumnDef.size c + n) 0 l.
Proof.
  induction 1 as [c l|c d l H IH]; cbn.
  - pose proof (columns_size_nonneg l). lia.
  - pose proof (ColumnDef_size_nonneg d). lia.
Qed.

Lemma encodes_TableDef t maxbytes :
  TableDef.ok t -> TableDef.size t <= maxbytes < 2 ^ 31 ->
  encodes (TableDef.WriteAdv t) (TableDef.ReadAdv maxbytes) t (TableDef.size t).
Proof.
  intros [H1 H2 H3 H4 H5 H6] Hs. pose proof (columns_size_nonneg (columns_ t)).
  assert (forall s, 4 <= string_size s) as Hp by (intros; unfold string_size; lia).
  pose proof (Hp (schema_name_ t)). pose proof (Hp (table_name_ t)). pose proof (Hp (table_comment_ t)).
  unfold TableDef.size in *. apply encodes_of_at. intros p0. unfold TableDef.ReadAdv. apply encodes_at_mark.
  replace (maxbytes <=? 0) with false by (symmetry; apply Z.leb_gt; lia).
  apply encodes_at_finish; [lia..|]. apply encodes_at_of. eapply encodes_size.
  - unfold TableDef.WriteAdv. enc. rewrite Nat2Z.id. eapply (encodes_map _ _ _ (columns_ t)).
    + apply (encodes_list _ _ ColumnDef.size). intros c Hc. rewrite Forall_forall in H5.
      apply encodes_ColumnDef; [auto|]. pose proof (elem_columns_size c _ Hc). lia.
    + intros rest. unfold rret, TableDef.Make. rewrite <- H6. now destruct t.
  - lia.
Qed.

#[export] Instance TableDef_CodecLaws : CodecLaws TableDef.
Proof. constructor. apply encodes_TableDef. Qed.

Lemma ColumnDef_GetSizeInBytes c :
  ColumnDef.ok c -> ColumnDef.size c < 2 ^ 31 -> ColumnDef.GetSizeInBytes c = Ok (ColumnDef.size c).
Proof.
  intros Hok Hs. pose proof (ColumnDef_size_bounds c). unfold ColumnDef.size in Hs.
  unfold ColumnDef.GetSizeInBytes. rewrite DataType_GetSizeInBytes; [|apply Hok|lia]. cbn [res_bind].
  unfold string_size in *.
  rewrite ConstantExpr_GetSizeInBytes, (swrap_id 32 (ConstantExpr.size _)) by (unfold signed_range; lia).
  flatten_i32. rewrite swrap_id by (unfold signed_range; lia). f_equal. unfold ColumnDef.size, string_size. lia.
Qed.

Lemma columns_size_spec l s :
  Forall ColumnDef.ok l -> 0 <= s -> s + foldr (fun c n => ColumnDef.size c + n) 0 l < 2 ^ 31 ->
  TableDef.columns_size s l = Ok (s + foldr (fun c n => ColumnDef.size c + n) 0 l).
Proof.
  intros Hok. revert s. induction Hok as [|c l Hc Hl IH]; intros s H0 Hs; cbn in *; [f_equal; lia|].
  pose proof (columns_size_nonneg l). pose proof (ColumnDef_size_nonneg c).
  rewrite ColumnDef_GetSizeInBytes by (done || lia). cbn [res_bind].
  rewrite swrap_id by (unfold signed_range; lia). rewrite IH by lia. f_equal. lia.
Qed.

(** A table definition of less than 2 GiB is written in exactly the bytes
    [GetSizeInBytes] announces and read back unchanged, column types, constraints,
    default values and the column index included, by a reader that may use those bytes. *)
Theorem table_def_roundtrip (t : TableDef) (maxbytes : Z) :
  TableDef.ok t -> TableDef.size t <= maxbytes < 2 ^ 31 ->
  TableDef.GetSizeInBytes t = Ok (TableDef.size t) /\
  encodes (TableDef.WriteAdv t) (TableDef.ReadAdv maxbytes) t (TableDef.size t).
Proof.
  intros Hok Hs. split; [|now apply encodes_TableDef].
  unfold TableDef.GetSizeInBytes, TableDef.size, string_size in *. pose proof (columns_size_nonneg (columns_ t)).
  flatten_i32. rewrite swrap_id by (unfold signed_range; lia).
  rewrite columns_size_spec; [f_equal; lia|apply Hok|lia..].
Qed.

Definition demo_table : TableDef :=
  TableDef.Make "default" "t" "a table"
    [mkColumnDef 0 (mkDataType 3 None) "id" [1; 2] "key" kNull true;
     mkColumnDef 1 (mkDataType kArray (Some (ArrayInfo (mkDataType kEmbedding (Some (EmbeddingInfo 5 128)))))) "v" [] ""
       (kSubArrayArray [kIntegerArray [-1; 2]; kEmptyArray]) false].

Lemma table_def_roundtrip_witness :
  TableDef.GetSizeInBytes demo_table = Ok (TableDef.size demo_table) /\
  encodes (TableDef.WriteAdv demo_table) (TableDef.ReadAdv 1000) demo_table (TableDef.size demo_table).
Proof.
  apply (table_def_roundtrip demo_table 1000).
  - split; try reflexivity. repeat constructor; try reflexivity; vm_compute; intuition (congruence || lia).
  - vm_compute. split; congruence.
Defined.
End definitions.
