(* ===== verification/IndexBase.v ===== *)
(** * Index definitions: [src/src/storage/definition/index_base.cpp] and the classes derived
      from [IndexBase], the binary codec

    One constructor of [IndexOption] per derived class with the members it adds; the
    enumerations [MetricType], [HnswEncodeType], ... are the [int]s they are stored as, and
    a [float] is its 32 bits. *)
From S2P Require Import Prelude Serialize.

(** [LSGConfig] of [index_hnsw.cpp]. *)
Record LSGConfig := mkLSGConfig { sample_raito_ : Z; ls_k_ : Z; alpha_ : Z }.
Module LSGConfig.
Definition GetSizeInBytes (c : LSGConfig) : Z := 4 + 8 + 4.
Definition WriteAdv (c : LSGConfig) : writer :=
  WriteBufAdv_int 4 (sample_raito_ c) +++ WriteBufAdv_int 8 (ls_k_ c) +++ WriteBufAdv_int 4 (alpha_ c).
Definition ReadAdv : reader LSGConfig :=
  read sample_raito := ReadBufAdv_u 4 in
  read ls_k := ReadBufAdv_u 8 in
  read alpha := ReadBufAdv_u 4 in
  rret (mkLSGConfig sample_raito ls_k alpha).
Definition ok (c : LSGConfig) : Prop :=
  unsigned_range 32 (sample_raito_ c) /\ unsigned_range 64 (ls_k_ c) /\ unsigned_range 32 (alpha_ c).
End LSGConfig.

(** [IndexIVFOption] is copied as its 36 bytes: nine words, the sixth of which holds an
    [int8_t] and three bytes of padding. *)
Inductive IndexOption :=
| IndexIVF (ivf_option_ : list Z)
| IndexHnsw (metric_type_ encode_type_ build_type_ M_ ef_construction_ block_size_ : Z) (lsg_config_ : option LSGConfig)
| IndexBMP (block_size_ compress_type_ : Z)
| IndexFullText (analyzer_ : string) (flag_ : Z)
| IndexSecondary
| IndexEMVB (residual_pq_subspace_num_ residual_pq_subspace_bits_ : Z)
| IndexDiskAnn (metric_type_ encode_type_ R_ L_ num_pq_chunks_ num_parts_ : Z).

Record IndexBase := mkIndexBase {
  index_name_ : string;
  index_comment_ : string;
  file_name_ : string;
  column_names_ : list string;
  option_ : IndexOption;
}.

Module IndexBase.

(** [IndexType] of each class; [kInvalid] is 6. *)
Definition index_type (o : IndexOption) : Z :=
  match o with
  | IndexIVF _ => 0 | IndexHnsw _ _ _ _ _ _ _ => 1 | IndexBMP _ _ => 2 | IndexFullText _ _ => 3
  | IndexSecondary => 4 | IndexEMVB _ _ => 5 | IndexDiskAnn _ _ _ _ _ _ => 7
  end.

Definition op_eq (a b : IndexBase) : bool :=
  (index_type (option_ a) =? index_type (option_ b)) && bool_decide (column_names_ a = column_names_ b).

Definition base_size (i : IndexBase) : Z :=
  let size := i32 (0 + 4) in
  let size := i32 (i32 (size + 4) + Z.of_nat (String.length (index_name_ i))) in
  let size := i32 (i32 (size + 4) + Z.of_nat (String.length (index_comment_ i))) in
  let size := i32 (i32 (size + 4) + Z.of_nat (String.length (file_name_ i))) in
  let size := i32 (size + 4) in
  (size_each (fun s => (4 + Z.of_nat (String.length s), s)) size (column_names_ i)).1.

(** The sizes of the members a derived class adds to those of the base. *)
Definition size_ivf : Z := 36.
Definition size_hnsw (lsg_config : option LSGConfig) : Z :=
  4 + 4 + 4 + 8 + 8 + 8 + 1 + match lsg_config with Some c => LSGConfig.GetSizeInBytes c | None => 0 end.
Definition size_bmp : Z := 8 + 1.
Definition size_full_text (analyzer : string) : Z := 4 + Z.of_nat (String.length analyzer) + 1.
Definition size_emvb : Z := 4 + 4.
Definition size_diskann : Z := 4 + 4 + 8 + 8 + 8 + 8.
Definition option_size (o : IndexOption) : Z :=
  match o with
  | IndexIVF _ => size_ivf
  | IndexHnsw _ _ _ _ _ _ lsg => size_hnsw lsg
  | IndexBMP _ _ => size_bmp
  | IndexFullText analyzer _ => size_full_text analyzer
  | IndexSecondary => 0
  | IndexEMVB _ _ => size_emvb
  | IndexDiskAnn _ _ _ _ _ _ => size_diskann
  end.
Definition GetSizeInBytes (i : IndexBase) : Z := i32 (base_size i + option_size (option_ i)).

Definition write_base (i : IndexBase) (rest : writer) : writer :=
  WriteBufAdv_int 4 (index_type (option_ i)) +++
  WriteBufAdv_string (index_name_ i) +++
  WriteBufAdv_string (index_comment_ i) +++
  WriteBufAdv_string (file_name_ i) +++
  WriteBufAdv_int 4 (i32 (Z.of_nat (length (column_names_ i)))) +++
  write_each WriteBufAdv_string (column_names_ i) +++ rest.

(** [WriteAdv] of the derived classes, behind the base. *)
Definition write_ivf (words : list Z) : writer := write_each (WriteBufAdv_int 4) words.
Definition write_hnsw (metric encode build M ef block_size : Z) (lsg : option LSGConfig) : writer :=
  WriteBufAdv_int 4 metric +++ WriteBufAdv_int 4 encode +++ WriteBufAdv_int 4 build +++
  WriteBufAdv_int 8 M +++ WriteBufAdv_int 8 ef +++ WriteBufAdv_int 8 block_size +++
  match lsg with
  | Some c => WriteBufAdv_int 1 1 +++ LSGConfig.WriteAdv c
  | None => WriteBufAdv_int 1 0
  end.
Definition write_bmp (block_size compress_type : Z) : writer :=
  WriteBufAdv_int 8 block_size +++ WriteBufAdv_int 1 compress_type.
Definition write_full_text (analyzer : string) (flag : Z) : writer :=
  WriteBufAdv_string analyzer +++ WriteBufAdv_int 1 flag.
Definition write_emvb (num bits : Z) : writer := WriteBufAdv_int 4 num +++ WriteBufAdv_int 4 bits.
Definition write_diskann (metric encode R L chunks parts : Z) : writer :=
  WriteBufAdv_int 4 metric +++ WriteBufAdv_int 4 encode +++ WriteBufAdv_int 8 R +++ WriteBufAdv_int 8 L +++
  WriteBufAdv_int 8 chunks +++ WriteBufAdv_int 8 parts.
Definition write_option (o : IndexOption) : writer :=
  match o with
  | IndexIVF words => write_ivf words
  | IndexHnsw metric encode build M ef block_size lsg => write_hnsw metric encode build M ef block_size lsg
  | IndexBMP block_size compress_type => write_bmp block_size compress_type
  | IndexFullText analyzer flag => write_full_text analyzer flag
  | IndexSecondary => Ok []
  | IndexEMVB num bits => write_emvb num bits
  | IndexDiskAnn metric encode R L chunks parts => write_diskann metric encode R L chunks parts
  end.
Definition WriteAdv (i : IndexBase) : writer := write_base i (write_option (option_ i)).

(** The switch of [ReadAdv]; [kInvalid] is an unrecoverable error and the default a
    recoverable one, both of which end the call. *)
Definition read_option (index_type : Z) : reader IndexOption :=
  match index_type with
  | 0 => read words := read_each (ReadBufAdv_u 4) 9 in rret (IndexIVF words)
  | 1 =>
      read metric_type := ReadBufAdv_s 4 in
      read encode_type := ReadBufAdv_s 4 in
      read build_type := ReadBufAdv_s 4 in
      read M := ReadBufAdv_u 8 in
      read ef_construction := ReadBufAdv_u 8 in
      read block_size := ReadBufAdv_u 8 in
      read has_lsg := ReadBufAdv_u 1 in
      if has_lsg =? 0
      then rret (IndexHnsw metric_type encode_type build_type M ef_construction block_size None)
      else
        read c := LSGConfig.ReadAdv in
        rret (IndexHnsw metric_type encode_type build_type M ef_construction block_size (Some c))
  | 2 => read block_size := ReadBufAdv_u 8 in read compress_type := ReadBufAdv_s 1 in rret (IndexBMP block_size compress_type)
  | 3 => read analyzer := ReadBufAdv_string in read flag := ReadBufAdv_u 1 in rret (IndexFullText analyzer flag)
  | 4 => rret IndexSecondary
  | 5 => read num := ReadBufAdv_u 4 in read bits := ReadBufAdv_u 4 in rret (IndexEMVB num bits)
  | 7 =>
      read metric_type := ReadBufAdv_s 4 in
      read encode_type := ReadBufAdv_s 4 in
      read R := ReadBufAdv_u 8 in
      read L := ReadBufAdv_u 8 in
      read num_pq_chunks := ReadBufAdv_u 8 in
      read num_parts := ReadBufAdv_u 8 in
      rret (IndexDiskAnn metric_type encode_type R L num_pq_chunks num_parts)
  | _ => rfail Unrecoverable
  end.

Definition ReadAdv (maxbytes : Z) : reader IndexBase :=
  read p0 := rmark in
  if maxbytes <=? 0 then rfail Unrecoverable else
  read i :=
    (read index_type := ReadBufAdv_s 4 in
     read index_name := ReadBufAdv_string in
     read index_comment := ReadBufAdv_string in
     read file_name := ReadBufAdv_string in
     read n := ReadBufAdv_s 4 in
     read column_names := read_each ReadBufAdv_string (Z.to_nat n) in
     read o := read_option index_type in
     rret (mkIndexBase index_name index_comment file_name column_names o)) in
  read m := left maxbytes p0 in
  if m <? 0 then rfail Unrecoverable else rret i.

Definition size (i : IndexBase) : Z :=
  4 + string_size (index_name_ i) + string_size (index_comment_ i) + string_size (file_name_ i) + 4 +
  foldr (fun s n => string_size s + n) 0 (column_names_ i) + option_size (option_ i).

Definition option_ok (o : IndexOption) : Prop :=
  match o with
  | IndexIVF words => length words = 9%nat /\ Forall (unsigned_range 32) words
  | IndexHnsw metric encode build M ef block_size lsg =>
      signed_range 32 metric /\ signed_range 32 encode /\ signed_range 32 build /\
      unsigned_range 64 M /\ unsigned_range 64 ef /\ unsigned_range 64 block_size /\
      match lsg with Some c => LSGConfig.ok c | None => True end
  | IndexBMP block_size compress_type => unsigned_range 64 block_size /\ signed_range 8 compress_type
  | IndexFullText analyzer flag => string_ok analyzer /\ unsigned_range 8 flag
  | IndexSecondary => True
  | IndexEMVB num bits => unsigned_range 32 num /\ unsigned_range 32 bits
  | IndexDiskAnn metric encode R L chunks parts =>
      signed_range 32 metric /\ signed_range 32 encode /\ unsigned_range 64 R /\ unsigned_range 64 L /\
      unsigned_range 64 chunks /\ unsigned_range 64 parts
  end.
Record ok (i : IndexBase) : Prop := {
  ok_name : string_ok (index_name_ i);
  ok_comment : string_ok (index_comment_ i);
  ok_file : string_ok (file_name_ i);
  ok_count : count_ok (column_names_ i);
  ok_columns : Forall string_ok (column_names_ i);
  ok_option : option_ok (option_ i);
}.

End IndexBase.

#[export] Instance IndexBase_Codec : Codec IndexBase := {
  codec_write := IndexBase.WriteAdv;
  codec_read := IndexBase.ReadAdv;
  codec_size := IndexBase.size;
  codec_ok := IndexBase.ok;
}.

Section index_codec.
Import IndexBase.

Ltac enc_last := eapply encodes_map; [enc_field|reflexivity].

Lemma encodes_lsg c : LSGConfig.ok c -> encodes (LSGConfig.WriteAdv c) LSGConfig.ReadAdv c 16.
Proof.
  intros (? & ? & ?). change 16 with (4 + (8 + 4)). unfold LSGConfig.WriteAdv, LSGConfig.ReadAdv.
  enc. eapply encodes_map; [enc_field|]. now destruct c.
Qed.

Lemma encodes_flag n : 0 <= n <= 1 -> encodes (WriteBufAdv_int 1 n) (ReadBufAdv_u 1) n 1.
Proof. intros. apply (encodes_u 1). unfold unsigned_range. cbn. lia. Qed.

Lemma encodes_option o :
  option_ok o -> encodes (write_option o) (read_option (index_type o)) o (option_size o).
Proof.
  destruct o as [words|? ? ? ? ? ? lsg| | | | |]; cbn [option_ok write_option read_option index_type option_size];
    unfold size_ivf, size_hnsw, size_bmp, size_full_text, size_emvb, size_diskann,
      write_ivf, write_hnsw, write_bmp, write_full_text, write_emvb, write_diskann; intros H; split_hyps.
  - rewrite <- H. eapply (encodes_map _ _ _ words); [|reflexivity].
    replace 36 with (4 * Z.of_nat (length words)) by lia. rewrite <- foldr_const.
    apply (encodes_list _ _ (fun _ => 4)). intros w Hw. rewrite Forall_forall in H0.
    apply (encodes_u 4). now apply H0.
  - destruct lsg as [c|]; eapply encodes_size.
    + enc. eapply encodes_bind; [apply encodes_flag; lia|]. change (1 =? 0) with false. cbv beta iota.
      eapply encodes_map; [now apply encodes_lsg|reflexivity].
    + reflexivity.
    + enc. eapply encodes_map; [apply encodes_flag; lia|reflexivity].
    + reflexivity.
  - enc. enc_last.
  - eapply encodes_size; [enc; enc_last|]. unfold string_size. lia.
  - apply encodes_ret.
  - change (4 + 4) with (Z.of_nat 4 + Z.of_nat 4). enc. enc_last.
  - eapply encodes_size; [enc; enc_last|reflexivity].
Qed.

Lemma option_size_nonneg o : 0 <= option_size o.
Proof. destruct o as [|? ? ? ? ? ? []| | | | |]; cbn [option_size];
    unfold size_ivf, size_hnsw, size_bmp, size_full_text, size_emvb, size_diskann, LSGConfig.GetSizeInBytes; lia. Qed.

Lemma names_size_nonneg l : 0 <= foldr (fun s n => string_size s + n) 0 l.
Proof. induction l; cbn -[Z.add]; [lia|]. unfold string_size at 1. lia. Qed.

Lemma encodes_IndexBase i maxbytes :
  ok i -> size i <= maxbytes < 2 ^ 31 -> encodes (WriteAdv i) (ReadAdv maxbytes) i (size i).
Proof.
  intros [H1 H2 H3 H4 H5 H6] Hs. pose proof (option_size_nonneg (option_ i)).
  pose proof (names_size_nonneg (column_names_ i)).
  assert (forall s, 4 <= string_size s) as Hp by (intros; unfold string_size; lia).
  pose proof (Hp (index_name_ i)). pose proof (Hp (index_comment_ i)). pose proof (Hp (file_name_ i)).
  unfold size in *. apply encodes_of_at. intros p0. unfold ReadAdv. apply encodes_at_mark.
  replace (maxbytes <=? 0) with false by (symmetry; apply Z.leb_gt; lia).
  apply encodes_at_finish; [lia..|]. apply encodes_at_of. eapply encodes_size.
  - unfold WriteAdv, write_base.
    eapply encodes_bind; [apply (encodes_s 4); [lia|destruct (option_ i); vm_compute; split; congruence]|].
    cbv beta. enc. rewrite Nat2Z.id. eapply encodes_bind.
    + apply (encodes_list _ _ string_size). intros s Hin. rewrite Forall_forall in H5. apply encodes_string. auto.
    + eapply encodes_map; [now apply encodes_option|]. now destruct i.
  - lia.
Qed.

#[export] Instance IndexBase_CodecLaws : CodecLaws IndexBase.
Proof. constructor. apply encodes_IndexBase. Qed.

(** Every kind of index definition is written in exactly the bytes [GetSizeInBytes]
    announces and read back unchanged by a reader that may use those bytes. *)
Theorem index_base_roundtrip (i : IndexBase) (maxbytes : Z) :
  ok i -> size i <= maxbytes < 2 ^ 31 ->
  GetSizeInBytes i = size i /\ encodes (WriteAdv i) (ReadAdv maxbytes) i (size i).
Proof.
  intros Hok Hs. split; [|now apply encodes_IndexBase].
  pose proof (option_size_nonneg (option_ i)). pose proof (names_size_nonneg (column_names_ i)).
  unfold GetSizeInBytes, base_size. flatten_i32.
  rewrite (size_each_gen _ string_size) by reflexivity. cbn [fst]. rewrite swrap_add_l.
  unfold size, string_size in *. rewrite swrap_id by (unfold signed_range; lia). lia.
Qed.

Definition demo_index : IndexBase :=
  mkIndexBase "idx" "" "f" ["c1"; "c2"] (IndexHnsw 1 0 1 16 200 8192 (Some (mkLSGConfig 0x3C23D70A 10 0x3F800000))).

Lemma index_base_roundtrip_witness :
  GetSizeInBytes demo_index = size demo_index /\ encodes (WriteAdv demo_index) (ReadAdv 100) demo_index (size demo_index).
Proof.
  apply (index_base_roundtrip demo_index 100).
  - split; try reflexivity; [repeat constructor|vm_compute; intuition congruence].
  - vm_compute. split; congruence.
Defined.
End index_codec.
