(* ===== verification/ObjStatus.v ===== *)
(** * Object status: [src/src/storage/persistence/obj_status.{cppm,cpp}]

    An object (a file of the workspace that packs several persisted files) carries an
    [ObjStat]: its size, its number of parts, a reference count and the set of byte
    ranges whose parts have been deleted. [Set<Range>] is ordered by [start_] alone, so
    it is a list sorted by [start_] in which no two ranges have the same start. *)
From S2P Require Import Prelude Serialize.

Record Range := mkRange { start_ : Z; end_ : Z }.
#[export] Instance Range_eq_dec : EqDecision Range.
Proof. solve_decision. Defined.

Module Range.
Definition lt (a b : Range) : bool := start_ a <? start_ b.
Definition Cover (a b : Range) : bool := (start_ a <=? start_ b) && (end_ b <=? end_ a).
Definition Intersect (a b : Range) : bool := (start_ a <? end_ b) && (start_ b <? end_ a).
End Range.

(** ** [std::set<Range>] with the order of [Range::operator<] *)
Module RangeSet.

(** [emplace]/[insert]: the second component is the [ok] flag of the C++ pair. *)
Fixpoint insert (r : Range) (s : list Range) : list Range * bool :=
  match s with
  | [] => ([r], true)
  | x :: s' =>
      if Range.lt r x then (r :: s, true)
      else if Range.lt x r then let '(s'', ok) := insert r s' in (x :: s'', ok)
      else (s, false)
  end.

(** [lower_bound(r)] as the split of the set at the iterator: the ranges before it and
    the ranges from it on (the first of which is what the iterator points to). *)
Fixpoint lower_bound (r : Range) (s : list Range) : list Range * list Range :=
  match s with
  | [] => ([], [])
  | x :: s' =>
      if Range.lt x r then let '(a, b) := lower_bound r s' in (x :: a, b)
      else ([], s)
  end.

Inductive sorted : list Range -> Prop :=
| sorted_nil : sorted []
| sorted_cons r s : Forall (fun y : Range => start_ r < start_ y) s -> sorted s -> sorted (r :: s).

End RangeSet.

(** ** [ObjStat] *)
Inductive ObjCached := kNotCached | kDownloading | kCached.
#[export] Instance ObjCached_eq_dec : EqDecision ObjCached.
Proof. solve_decision. Defined.

Record ObjStat := mkObjStat {
  obj_size_ : Z;
  parts_ : Z;
  ref_count_ : Z;
  deleted_ranges_ : list Range;
  cached_ : ObjCached;
}.
#[export] Instance ObjStat_eq_dec : EqDecision ObjStat.
Proof. solve_decision. Defined.

Module ObjStat.

(** The default constructor and [ObjStat(obj_size, parts, ref_count, kCached)]. *)
Definition default_ : ObjStat := mkObjStat 0 0 0 [] kCached.
Definition make (obj_size parts ref_count : Z) : ObjStat :=
  mkObjStat obj_size parts ref_count [] kCached.

Definition set_ref_count (n : Z) (s : ObjStat) : ObjStat :=
  mkObjStat (obj_size_ s) (parts_ s) n (deleted_ranges_ s) (cached_ s).
Definition set_deleted_ranges (d : list Range) (s : ObjStat) : ObjStat :=
  mkObjStat (obj_size_ s) (parts_ s) (ref_count_ s) d (cached_ s).
Definition set_cached (c : ObjCached) (s : ObjStat) : ObjStat :=
  mkObjStat (obj_size_ s) (parts_ s) (ref_count_ s) (deleted_ranges_ s) c.

Definition GetSizeInBytes (s : ObjStat) : Z :=
  8 + 8 + 8 + (8 + 8) * Z.of_nat (length (deleted_ranges_ s)).

Definition write_range (r : Range) : writer :=
  WriteBufAdv_int 8 (start_ r) +++ WriteBufAdv_int 8 (end_ r).

Definition WriteBufAdv (s : ObjStat) : writer :=
  WriteBufAdv_int 8 (obj_size_ s) +++
  WriteBufAdv_int 8 (parts_ s) +++
  WriteBufAdv_int 8 (Z.of_nat (length (deleted_ranges_ s))) +++
  write_each write_range (deleted_ranges_ s).

(** The loop of [ReadBufAdv]: every range read is [emplace]d into the set. *)
Fixpoint read_ranges (n : nat) (acc : list Range) : reader (list Range) :=
  match n with
  | O => rret acc
  | S n =>
      read start := ReadBufAdv_u 8 in
      read end' := ReadBufAdv_u 8 in
      read_ranges n (fst (RangeSet.insert (mkRange start end') acc))
  end.

Definition ReadBufAdv : reader ObjStat :=
  read obj_size := ReadBufAdv_u 8 in
  read parts := ReadBufAdv_u 8 in
  read len := ReadBufAdv_u 8 in
  read ranges := read_ranges (Z.to_nat len) [] in
  rret (mkObjStat obj_size parts 0 ranges kCached).

(** [CheckValid] only logs: the list of what it reports. *)
Inductive report := RangesIntersect (a b : Range) | FullyDeleted.

Fixpoint check_adjacent (it1 : Range) (rest : list Range) : list report :=
  match rest with
  | [] => []
  | it2 :: rest' =>
      (if end_ it1 >=? start_ it2 then [RangesIntersect it1 it2] else []) ++ check_adjacent it2 rest'
  end.

Definition CheckValid (s : ObjStat) (current_object_size : Z) : list report :=
  match deleted_ranges_ s with
  | [] => []
  | [it1] => if (start_ it1 =? 0) && (end_ it1 =? current_object_size) then [FullyDeleted] else []
  | it1 :: rest => check_adjacent it1 rest
  end.

(** What survives a write followed by a read. *)
Definition canon (s : ObjStat) : ObjStat :=
  mkObjStat (obj_size_ s) (parts_ s) 0 (deleted_ranges_ s) kCached.

Definition range_ok (r : Range) : Prop := unsigned_range 64 (start_ r) /\ unsigned_range 64 (end_ r).
Definition ok (s : ObjStat) : Prop :=
  unsigned_range 64 (obj_size_ s) /\ unsigned_range 64 (parts_ s) /\
  unsigned_range 64 (Z.of_nat (length (deleted_ranges_ s))) /\
  Forall range_ok (deleted_ranges_ s) /\ RangeSet.sorted (deleted_ranges_ s).

End ObjStat.

(** ** The well-formedness of a set of deleted ranges

    Every range is non-empty, and two neighbours are separated by at least one byte
    (adjacent ranges have been merged). *)
Fixpoint separated (s : list Range) : Prop :=
  match s with
  | [] => True
  | r :: s' =>
      start_ r < end_ r /\ Forall (fun x => end_ r < start_ x) s' /\ separated s'
  end.

(** The bytes a set of ranges denotes. *)
Definition covers (s : list Range) (x : Z) : Prop :=
  Exists (fun r => start_ r <= x < end_ r) s.

Section range_sets.
Implicit Types (r : Range) (s : list Range).

Lemma insert_last acc r :
  Forall (fun y : Range => start_ y < start_ r) acc -> RangeSet.insert r acc = (acc ++ [r], true).
Proof.
  induction 1 as [|x acc Hx _ IH]; cbn; [reflexivity|].
  unfold Range.lt. rewrite (proj2 (Z.ltb_ge _ _)) by lia.
  rewrite (proj2 (Z.ltb_lt _ _)) by lia. now rewrite IH.
Qed.

Lemma sorted_app_inv s1 r s2 :
  RangeSet.sorted (s1 ++ r :: s2) -> Forall (fun y : Range => start_ y < start_ r) s1.
Proof.
  induction s1 as [|x s1 IH]; cbn; intros H; [constructor|].
  inversion H as [|? ? Hf Hs]; subst. constructor; [|auto].
  rewrite Forall_forall in Hf. apply Hf. set_solver.
Qed.

Lemma separated_sorted s : separated s -> RangeSet.sorted s.
Proof.
  induction s as [|r s IH]; cbn; intros H; constructor.
  - destruct H as (Hr & Hf & _). eapply Forall_impl; [exact Hf|]. cbn. lia.
  - apply IH, H.
Qed.

Lemma separated_app s1 s2 :
  separated (s1 ++ s2) <->
  separated s1 /\ separated s2 /\ Forall (fun a => Forall (fun b => end_ a < start_ b) s2) s1.
Proof.
  induction s1 as [|r s1 IH]; cbn.
  - split; [intros; repeat split; auto|tauto].
  - rewrite IH, Forall_app, Forall_cons. tauto.
Qed.

Lemma covers_app s1 s2 x : covers (s1 ++ s2) x <-> covers s1 x \/ covers s2 x.
Proof. apply Exists_app. Qed.

Lemma covers_cons r s x : covers (r :: s) x <-> start_ r <= x < end_ r \/ covers s x.
Proof. apply Exists_cons. Qed.

Lemma covers_nil x : covers [] x <-> False.
Proof. apply Exists_nil. Qed.

Lemma lower_bound_spec r s s1 s2 :
  RangeSet.lower_bound r s = (s1, s2) -> RangeSet.sorted s ->
  s = s1 ++ s2 /\ Forall (fun y : Range => start_ y < start_ r) s1 /\ Forall (fun y : Range => start_ r <= start_ y) s2.
Proof.
  revert s1 s2. induction s as [|x s IH]; cbn; intros s1 s2 E Hs.
  - injection E as <- <-. repeat constructor.
  - inversion Hs as [|? ? Hf Hs']; subst. unfold Range.lt in E.
    destruct (start_ x <? start_ r) eqn:C.
    + destruct (RangeSet.lower_bound r s) as [a b] eqn:E'. injection E as <- <-.
      destruct (IH a b eq_refl Hs') as (-> & Ha & Hb).
      apply Z.ltb_lt in C. repeat split; auto.
    + injection E as <- <-. apply Z.ltb_ge in C. repeat split; auto. constructor; [lia|].
      eapply Forall_impl; [exact Hf|]. cbn. lia.
Qed.

(** Inserting at the point [lower_bound] found. *)
Lemma insert_middle r s1 s2 :
  Forall (fun y : Range => start_ y < start_ r) s1 -> Forall (fun y : Range => start_ r < start_ y) s2 ->
  RangeSet.insert r (s1 ++ s2) = (s1 ++ r :: s2, true).
Proof.
  induction 1 as [|x s1 Hx _ IH]; cbn; intros H2.
  - destruct H2 as [|y s2 Hy _]; cbn; [reflexivity|].
    unfold Range.lt. now rewrite (proj2 (Z.ltb_lt _ _)) by lia.
  - unfold Range.lt. rewrite (proj2 (Z.ltb_ge _ _)) by lia.
    rewrite (proj2 (Z.ltb_lt _ _)) by lia. now rewrite (IH H2).
Qed.
End range_sets.

Section stat_codec.
Import ObjStat.

Lemma encodes_ranges acc s :
  Forall range_ok s -> RangeSet.sorted (acc ++ s) ->
  encodes (write_each write_range s) (read_ranges (length s) acc) (acc ++ s)
          (16 * Z.of_nat (length s)).
Proof.
  intros Hok. revert acc. induction Hok as [|[a b] s [H1 H2] _ IH]; intros acc Hs; cbn [start_ end_] in *.
  - rewrite app_nil_r. apply encodes_ret.
  - cbn [write_each read_ranges length]. apply encodes_assoc.
    eapply encodes_size; [eapply encodes_bind; [now apply (encodes_u 8)|];
      eapply encodes_bind; [now apply (encodes_u 8)|]|].
    + cbv beta. rewrite insert_last by (eapply sorted_app_inv; exact Hs). cbn [fst].
      replace (acc ++ mkRange a b :: s) with ((acc ++ [mkRange a b]) ++ s) in *
        by now rewrite <- app_assoc.
      now apply IH.
    + lia.
Qed.

Lemma encodes_ObjStat s :
  ok s -> encodes (WriteBufAdv s) ReadBufAdv (canon s) (GetSizeInBytes s).
Proof.
  intros (H1 & H2 & H3 & H4 & H5). unfold WriteBufAdv, ReadBufAdv, GetSizeInBytes.
  eapply encodes_size.
  - eapply encodes_bind; [now apply (encodes_u 8)|].
    eapply encodes_bind; [now apply (encodes_u 8)|].
    eapply encodes_bind; [now apply (encodes_u 8)|].
    eapply encodes_map; [rewrite Nat2Z.id; now apply (encodes_ranges [])|]. reflexivity.
  - lia.
Qed.

End stat_codec.
