(* ===== verification/ObjStatAccessor.v ===== *)
(** * Object status maps: [src/src/storage/persistence/obj_stat_accessor.{cppm,cpp}]

    [ObjectStatMap] keeps one list node per object in exactly one of three lists:
    [lru_list_] (cached on local disk, not in use, most recently released first),
    [using_list_] (in use) and [cleanuped_list_] (evicted from the local disk).
    [obj_map_] maps a key to its list iterator; since a node never moves in memory the
    iterator is the node's key. [splice] or [erase] on a list the node is not in is
    undefined behaviour. *)
From S2P Require Import Prelude Serialize ObjStatus.

Abbreviation node_list := (list (string * ObjStat)).

(** [dst.splice(dst.begin(), src, it)] and [src.erase(it)]. *)
Definition splice_front (key : string) (src dst : node_list) : res (node_list * node_list) :=
  match afind key src with
  | Some s => Ok (aremove key src, (key, s) :: dst)
  | None => Err Undefined
  end.
Definition list_erase (key : string) (src : node_list) : res node_list :=
  match afind key src with
  | Some _ => Ok (aremove key src)
  | None => Err Undefined
  end.

Module ObjectStatMap.

Record t := mk {
  obj_map_ : gset string;
  lru_list_ : node_list;
  using_list_ : node_list;
  cleanuped_list_ : node_list;
}.

Definition empty : t := mk ∅ [] [] [].

(** [map_iter->second->obj_stat_], for a key of [obj_map_]. *)
Definition find (key : string) (m : t) : option ObjStat :=
  if decide (key ∈ obj_map_ m) then
    match afind key (lru_list_ m) with
    | Some s => Some s
    | None =>
        match afind key (using_list_ m) with
        | Some s => Some s
        | None => afind key (cleanuped_list_ m)
        end
    end
  else None.

(** An assignment through the iterator. *)
Definition assign (key : string) (f : ObjStat -> ObjStat) (m : t) : t :=
  mk (obj_map_ m) (aupdate key f (lru_list_ m)) (aupdate key f (using_list_ m))
     (aupdate key f (cleanuped_list_ m)).

Definition Get (key : string) (m : t) : res (option ObjStat * t) :=
  match find key m with
  | None => Ok (None, m)
  | Some obj_stat =>
      let? m := (if ref_count_ obj_stat =? 0 then
                   let? (lru, inuse) := splice_front key (lru_list_ m) (using_list_ m) in
                   Ok (mk (obj_map_ m) lru inuse (cleanuped_list_ m))
                 else Ok m) in
      let f := ObjStat.set_ref_count (u64 (ref_count_ obj_stat + 1)) in
      Ok (Some (f obj_stat), assign key f m)
  end.

Definition GetNoCount (key : string) (m : t) : option ObjStat := find key m.

Definition Release (key : string) (m : t) : res (bool * option ObjStat * t) :=
  match find key m with
  | None => Ok (false, None, m)
  | Some obj_stat =>
      if ref_count_ obj_stat <=? 0 then Err Unrecoverable else
      let f := ObjStat.set_ref_count (ref_count_ obj_stat - 1) in
      let m := assign key f m in
      if 0 <? ref_count_ obj_stat - 1 then Ok (false, Some (f obj_stat), m) else
      let? (inuse, lru) := splice_front key (using_list_ m) (lru_list_ m) in
      Ok (true, Some (f obj_stat), mk (obj_map_ m) lru inuse (cleanuped_list_ m))
  end.

Definition PutNew (key : string) (obj_stat : ObjStat) (m : t) : t :=
  if decide (key ∈ obj_map_ m) then assign key (fun _ => obj_stat) m
  else mk ({[key]} ∪ obj_map_ m) ((key, obj_stat) :: lru_list_ m) (using_list_ m) (cleanuped_list_ m).

Definition Recover (key : string) (m : t) : res t :=
  match find key m with
  | None => Err Unrecoverable
  | Some obj_stat =>
      if 0 <? ref_count_ obj_stat then Err Unrecoverable else
      let? (clean, lru) := splice_front key (cleanuped_list_ m) (lru_list_ m) in
      let m := mk (obj_map_ m) lru (using_list_ m) clean in
      if decide (cached_ obj_stat = kNotCached)
      then Ok (assign key (ObjStat.set_cached kCached) m)
      else Err Unrecoverable
  end.

Definition Invalidate (key : string) (m : t) : res (option ObjStat * t) :=
  match find key m with
  | None => Ok (None, m)
  | Some obj_stat =>
      if 0 <? ref_count_ obj_stat then Err Unrecoverable else
      match cached_ obj_stat with
      | kDownloading => Err Unrecoverable
      | kCached =>
          let? lru := list_erase key (lru_list_ m) in
          Ok (Some obj_stat, mk (obj_map_ m ∖ {[key]}) lru (using_list_ m) (cleanuped_list_ m))
      | kNotCached =>
          let? clean := list_erase key (cleanuped_list_ m) in
          Ok (Some obj_stat, mk (obj_map_ m ∖ {[key]}) (lru_list_ m) (using_list_ m) clean)
      end
  end.

Definition EnvictLast (m : t) : res (option (string * ObjStat) * t) :=
  match last (lru_list_ m) with
  | None => Ok (None, m)
  | Some (key, obj_stat) =>
      if 0 <? ref_count_ obj_stat then Err Unrecoverable else
      if decide (cached_ obj_stat = kCached) then
        let m := assign key (ObjStat.set_cached kNotCached) m in
        let? (lru, clean) := splice_front key (lru_list_ m) (cleanuped_list_ m) in
        Ok (Some (key, ObjStat.set_cached kNotCached obj_stat), mk (obj_map_ m) lru (using_list_ m) clean)
      else Err Unrecoverable
  end.

(** ** The invariant of the three lists *)
Definition all_nodes (m : t) : node_list := lru_list_ m ++ using_list_ m ++ cleanuped_list_ m.

Record wf (m : t) : Prop := {
  wf_nodup : NoDup (all_nodes m).*1;
  wf_keys : forall k, k ∈ obj_map_ m <-> k ∈ (all_nodes m).*1;
  wf_lru : Forall (fun n => ref_count_ n.2 = 0 /\ cached_ n.2 = kCached) (lru_list_ m);
  wf_using : Forall (fun n => 0 < ref_count_ n.2 < 2 ^ 64 /\ cached_ n.2 = kCached) (using_list_ m);
  wf_clean : Forall (fun n => ref_count_ n.2 = 0 /\ cached_ n.2 = kNotCached) (cleanuped_list_ m);
}.

(** One call of the map that returns; a new object is not in use and is on local disk
    ([ObjStat(size, parts, 0)]), and fewer than [2^64 - 1] handles are open on a key. *)
Inductive step (m : t) : t -> Prop :=
| step_get k o m' : Get k m = Ok (o, m') ->
    (forall s, find k m = Some s -> ref_count_ s + 1 < 2 ^ 64) -> step m m'
| step_release k b o m' : Release k m = Ok (b, o, m') -> step m m'
| step_put k s : k ∉ obj_map_ m -> ref_count_ s = 0 -> cached_ s = kCached -> step m (PutNew k s m)
| step_recover k m' : Recover k m = Ok m' -> step m m'
| step_invalidate k o m' : Invalidate k m = Ok (o, m') -> step m m'
| step_evict e m' : EnvictLast m = Ok (e, m') -> step m m'.

End ObjectStatMap.

(** ** [ObjectStatAccessor_LocalStorage]: a plain map *)
Module LocalStorage.

Definition Get (key : string) (m : gmap string ObjStat) : option ObjStat * gmap string ObjStat :=
  match m !! key with
  | None => (None, m)
  | Some s =>
      let s := ObjStat.set_ref_count (u64 (ref_count_ s + 1)) s in (Some s, <[key := s]> m)
  end.

Definition GetNoCount (key : string) (m : gmap string ObjStat) : option ObjStat := m !! key.

Definition Release (key : string) (m : gmap string ObjStat) : res (option ObjStat * gmap string ObjStat) :=
  match m !! key with
  | None => Ok (None, m)
  | Some s =>
      if ref_count_ s <=? 0 then Err Unrecoverable else
      let s := ObjStat.set_ref_count (ref_count_ s - 1) s in Ok (Some s, <[key := s]> m)
  end.

Definition PutNew (key : string) (s : ObjStat) (m : gmap string ObjStat) : res (gmap string ObjStat) :=
  match m !! key with
  | Some _ => Err Unrecoverable
  | None => Ok (<[key := ObjStat.set_cached kCached s]> m)
  end.

Definition PutNoCount (key : string) (s : ObjStat) (m : gmap string ObjStat) : gmap string ObjStat :=
  <[key := ObjStat.set_cached kCached s]> m.

Definition Invalidate (key : string) (m : gmap string ObjStat) : option ObjStat * gmap string ObjStat :=
  (m !! key, delete key m).

(** [CheckValid] over all objects: the reports of every object. *)
Definition CheckValid (current_object_size : Z) (m : gmap string ObjStat) : list (string * ObjStat.report) :=
  flat_map (fun kv => pair (fst kv) <$> ObjStat.CheckValid (snd kv) current_object_size) (map_to_list m).

End LocalStorage.

(** ** [ObjectStatAccessor_ObjectStorage]: the map with a bound on the local disk *)
Module ObjectStorage.

Record t := mk {
  disk_capacity_limit_ : Z;
  disk_used_ : Z;
  obj_map_ : ObjectStatMap.t;
}.

Definition make (disk_capacity_limit : Z) : t := mk disk_capacity_limit 0 ObjectStatMap.empty.

Definition set_map (m : ObjectStatMap.t) (a : t) : t := mk (disk_capacity_limit_ a) (disk_used_ a) m.
Definition set_disk_used (n : Z) (a : t) : t := mk (disk_capacity_limit_ a) n (obj_map_ a).

Definition Get (key : string) (a : t) : res (option ObjStat * t) :=
  let? (o, m) := ObjectStatMap.Get key (obj_map_ a) in
  match o with
  | None => Ok (None, set_map m a)
  | Some s =>
      if disk_used_ a <? obj_size_ s then Err Unrecoverable
      else Ok (Some s, mk (disk_capacity_limit_ a) (disk_used_ a - obj_size_ s) m)
  end.

Definition GetNoCount (key : string) (a : t) : option ObjStat := ObjectStatMap.GetNoCount key (obj_map_ a).

(** [Envict]: the loop ends when the disk usage fits or [lru_list_] is empty, so it runs
    at most [length lru_list_ + 1] times. *)
Fixpoint Envict_loop (fuel : nat) (drop_keys : list string) (a : t) : res (list string * t) :=
  match fuel with
  | O => Err Undefined
  | S fuel =>
      if disk_capacity_limit_ a <? disk_used_ a then
        let? (e, m) := ObjectStatMap.EnvictLast (obj_map_ a) in
        match e with
        | None => Ok (drop_keys, set_map m a)
        | Some (key, s) =>
            Envict_loop fuel (drop_keys ++ [key])
              (mk (disk_capacity_limit_ a) (u64 (disk_used_ a - obj_size_ s)) m)
        end
      else Ok (drop_keys, a)
  end.

Definition Envict (drop_keys : list string) (a : t) : res (bool * list string * t) :=
  let? (drop_keys, a) := Envict_loop (S (length (ObjectStatMap.lru_list_ (obj_map_ a)))) drop_keys a in
  Ok (negb (disk_capacity_limit_ a <? disk_used_ a), drop_keys, a).

Definition Release (key : string) (drop_keys : list string) (a : t) : res (option ObjStat * list string * t) :=
  let? (release_ok, o, m) := ObjectStatMap.Release key (obj_map_ a) in
  if negb release_ok then Ok (o, drop_keys, set_map m a) else
  match o with
  | None => Err Undefined
  | Some s =>
      let a := mk (disk_capacity_limit_ a) (u64 (disk_used_ a + obj_size_ s)) m in
      if disk_capacity_limit_ a <? disk_used_ a then
        let? (_, drop_keys, a) := Envict drop_keys a in Ok (o, drop_keys, a)
      else Ok (o, drop_keys, a)
  end.

Definition PutNew (key : string) (s : ObjStat) (drop_keys : list string) (a : t) : res (list string * t) :=
  let a := mk (disk_capacity_limit_ a) (u64 (disk_used_ a + obj_size_ s))
              (ObjectStatMap.PutNew key s (obj_map_ a)) in
  if disk_capacity_limit_ a <? disk_used_ a then
    let? (_, drop_keys, a) := Envict drop_keys a in Ok (drop_keys, a)
  else Ok (drop_keys, a).

Definition PutNoCount (key : string) (s : ObjStat) (a : t) : t :=
  set_map (ObjectStatMap.PutNew key s (obj_map_ a)) a.

Definition Invalidate (key : string) (a : t) : res (option ObjStat * t) :=
  let? (o, m) := ObjectStatMap.Invalidate key (obj_map_ a) in
  match o with
  | None => Ok (None, set_map m a)
  | Some s => Ok (Some s, mk (disk_capacity_limit_ a) (u64 (disk_used_ a - obj_size_ s)) m)
  end.

(** The size of the objects that can be evicted. *)
Definition lru_size (a : t) : Z :=
  foldr (fun n acc => obj_size_ n.2 + acc) 0 (ObjectStatMap.lru_list_ (obj_map_ a)).

End ObjectStorage.

(** ** Lemmas on [ObjectStatMap] *)
Section object_stat_map.
Import ObjectStatMap.
Implicit Types (m : t) (k : string) (s : ObjStat) (l : node_list).

Lemma keys_aremove k s l : afind k l = Some s -> l.*1 ≡ₚ k :: (aremove k l).*1.
Proof. intros H%aremove_perm. now rewrite H at 1. Qed.

Lemma wf_empty : wf empty.
Proof. split; cbn; try constructor; set_solver. Qed.

Lemma wf_perm m m' :
  wf m -> obj_map_ m' = obj_map_ m -> (all_nodes m').*1 ≡ₚ (all_nodes m).*1 ->
  Forall (fun n => ref_count_ n.2 = 0 /\ cached_ n.2 = kCached) (lru_list_ m') ->
  Forall (fun n => 0 < ref_count_ n.2 < 2 ^ 64 /\ cached_ n.2 = kCached) (using_list_ m') ->
  Forall (fun n => ref_count_ n.2 = 0 /\ cached_ n.2 = kNotCached) (cleanuped_list_ m') ->
  wf m'.
Proof.
  intros [Hd Hk _ _ _] Hm Hp H1 H2 H3. split; auto.
  - now rewrite Hp.
  - intros k. now rewrite Hm, Hk, Hp.
Qed.

(** Where the node of a key is, and what the invariant says of it there. *)
Inductive located m k s : Prop :=
| in_lru : afind k (lru_list_ m) = Some s -> k ∉ (using_list_ m).*1 -> k ∉ (cleanuped_list_ m).*1 ->
    ref_count_ s = 0 -> cached_ s = kCached -> located m k s
| in_using : afind k (using_list_ m) = Some s -> k ∉ (lru_list_ m).*1 -> k ∉ (cleanuped_list_ m).*1 ->
    0 < ref_count_ s < 2 ^ 64 -> cached_ s = kCached -> located m k s
| in_clean : afind k (cleanuped_list_ m) = Some s -> k ∉ (lru_list_ m).*1 -> k ∉ (using_list_ m).*1 ->
    ref_count_ s = 0 -> cached_ s = kNotCached -> located m k s.

Lemma Forall_afind k s l (P : string * ObjStat -> Prop) : Forall P l -> afind k l = Some s -> P (k, s).
Proof. rewrite Forall_forall. intros H E. apply H. now apply afind_Some_elem. Qed.

Lemma afind_key k s l : afind k l = Some s -> k ∈ l.*1.
Proof. intros H. apply afind_is_Some. eauto. Qed.

Lemma find_located m k s : wf m -> find k m = Some s -> located m k s.
Proof.
  intros [Hd _ H1 H2 H3] H. unfold find in H. destruct (decide _); [|discriminate].
  unfold all_nodes in Hd. rewrite !fmap_app, !NoDup_app in Hd. destruct Hd as (_ & D1 & _ & D2 & _).
  destruct (afind k (lru_list_ m)) eqn:E1; [injection H as ->|].
  { pose proof (Forall_afind _ _ _ _ H1 E1) as [? ?]. apply afind_key in E1 as E1'.
    specialize (D1 k E1'). apply in_lru; auto; set_solver. }
  apply afind_None in E1.
  destruct (afind k (using_list_ m)) eqn:E2; [injection H as ->|].
  { pose proof (Forall_afind _ _ _ _ H2 E2) as [? ?]. apply afind_key in E2 as E2'.
    apply in_using; auto. }
  apply afind_None in E2. pose proof (Forall_afind _ _ _ _ H3 H) as [? ?]. now apply in_clean.
Qed.

Lemma aremove_gone k l : NoDup l.*1 -> k ∉ (aremove k l).*1.
Proof.
  destruct (afind k l) as [s|] eqn:E.
  - rewrite (keys_aremove _ _ _ E). now intros [? _]%NoDup_cons.
  - apply afind_None in E. now rewrite aremove_notin.
Qed.

Lemma wf_nodups m :
  wf m -> NoDup (lru_list_ m).*1 /\ NoDup (using_list_ m).*1 /\ NoDup (cleanuped_list_ m).*1.
Proof.
  intros [Hd _ _ _ _]. unfold all_nodes in Hd. rewrite !fmap_app, !NoDup_app in Hd. tauto.
Qed.

(** The lists after a node has moved to the front of another list. *)
Ltac node_perm F :=
  unfold all_nodes; cbn; rewrite !fmap_app; cbn;
  rewrite ?fmap_app, ?aremove_aupdate, ?aupdate_keys, ?(keys_aremove _ _ _ F); cbn;
  rewrite <- ?Permutation_middle; reflexivity.

Lemma wf_get m k o m' :
  wf m -> Get k m = Ok (o, m') -> (forall s, find k m = Some s -> ref_count_ s + 1 < 2 ^ 64) -> wf m'.
Proof.
  intros W H Hb. unfold Get in H. destruct (find k m) as [s|] eqn:E; [|now injection H as <- <-].
  specialize (Hb s eq_refl). destruct (wf_nodups m W) as (D1 & D2 & D3).
  pose proof (wf_lru _ W); pose proof (wf_using _ W); pose proof (wf_clean _ W).
  destruct (find_located m k s W E) as [F N1 N2 R C|F N1 N2 R C|F N1 N2 R C].
  - rewrite R in H. cbn in H. unfold splice_front in H. rewrite F in H. cbn in H. injection H as <- <-.
    unfold assign. cbn. rewrite decide_True by done.
    rewrite !(aupdate_notin k) by auto using aremove_gone.
    eapply wf_perm; [exact W|reflexivity|..]; cbn; auto using aremove_Forall.
    + node_perm F.
    + constructor; [|done]. cbn. split; [rewrite wrap_id; unfold unsigned_range; lia|done].
  - replace (ref_count_ s =? 0) with false in H by (symmetry; apply Z.eqb_neq; lia).
    cbn in H. injection H as <- <-. unfold assign. rewrite (aupdate_notin k) by done.
    rewrite (aupdate_notin k _ (cleanuped_list_ m)) by done.
    eapply wf_perm; [exact W|reflexivity|..]; cbn; auto.
    + node_perm F.
    + apply aupdate_Forall; [done|]. intros v Hv. rewrite F in Hv. injection Hv as <-. cbn.
      rewrite wrap_id by (unfold unsigned_range; lia). split; [lia|done].
  - rewrite R in H. cbn in H. unfold splice_front in H. apply afind_None in N1. rewrite N1 in H. discriminate.
Qed.

Lemma wf_release m k b o m' : wf m -> Release k m = Ok (b, o, m') -> wf m'.
Proof.
  intros W H. unfold Release in H. destruct (find k m) as [s|] eqn:E; [|now injection H as <- <- <-].
  destruct (wf_nodups m W) as (D1 & D2 & D3).
  pose proof (wf_lru _ W); pose proof (wf_using _ W); pose proof (wf_clean _ W).
  destruct (ref_count_ s <=? 0) eqn:Z0; [discriminate|]. apply Z.leb_gt in Z0.
  destruct (find_located m k s W E) as [F N1 N2 R C|F N1 N2 R C|F N1 N2 R C]; [lia| |lia].
  unfold assign in H. rewrite (aupdate_notin k _ (lru_list_ m)) in H by done.
  rewrite (aupdate_notin k _ (cleanuped_list_ m)) in H by done.
  destruct (0 <? ref_count_ s - 1) eqn:Z1.
  - injection H as <- <- <-. eapply wf_perm; [exact W|reflexivity|..]; cbn; auto.
    + node_perm F.
    + apply aupdate_Forall; [done|]. intros v Hv. rewrite F in Hv. injection Hv as <-. cbn.
      apply Z.ltb_lt in Z1. split; [lia|done].
  - cbn in H. unfold splice_front in H. rewrite afind_aupdate, F in H. cbn in H. injection H as <- <- <-.
    rewrite aremove_aupdate.
    eapply wf_perm; [exact W|reflexivity|..]; cbn; auto using aremove_Forall.
    + node_perm F.
    + constructor; [|done]. cbn. apply Z.ltb_ge in Z1. split; [lia|done].
Qed.

Lemma wf_put m k s : wf m -> k ∉ obj_map_ m -> ref_count_ s = 0 -> cached_ s = kCached -> wf (PutNew k s m).
Proof.
  intros W Hk R C. unfold PutNew. rewrite decide_False by done.
  destruct W as [Hd Hm H1 H2 H3]. split; cbn; auto.
  - unfold all_nodes in *. cbn. apply NoDup_cons. split; [|done]. now rewrite <- Hm.
  - intros k'. unfold all_nodes in *. cbn. rewrite elem_of_union, elem_of_singleton, elem_of_cons, Hm. done.
Qed.

Lemma wf_recover m k m' : wf m -> Recover k m = Ok m' -> wf m'.
Proof.
  intros W H. unfold Recover in H. destruct (find k m) as [s|] eqn:E; [|discriminate].
  destruct (wf_nodups m W) as (D1 & D2 & D3).
  pose proof (wf_lru _ W); pose proof (wf_using _ W); pose proof (wf_clean _ W).
  destruct (0 <? ref_count_ s); [discriminate|]. unfold splice_front in H.
  destruct (find_located m k s W E) as [F N1 N2 R C|F N1 N2 R C|F N1 N2 R C].
  1,2: apply afind_None in N2; rewrite N2 in H; discriminate.
  rewrite F in H. cbn in H. rewrite decide_True in H by done. injection H as <-.
  unfold assign. cbn. rewrite decide_True by done. rewrite !(aupdate_notin k) by auto using aremove_gone.
  eapply wf_perm; [exact W|reflexivity|..]; cbn; auto using aremove_Forall.
  node_perm F.
Qed.

Lemma wf_erased m m' k (l : list string) :
  wf m -> (all_nodes m).*1 ≡ₚ k :: l -> (all_nodes m').*1 ≡ₚ l -> obj_map_ m' = obj_map_ m ∖ {[k]} ->
  Forall (fun n => ref_count_ n.2 = 0 /\ cached_ n.2 = kCached) (lru_list_ m') ->
  Forall (fun n => 0 < ref_count_ n.2 < 2 ^ 64 /\ cached_ n.2 = kCached) (using_list_ m') ->
  Forall (fun n => ref_count_ n.2 = 0 /\ cached_ n.2 = kNotCached) (cleanuped_list_ m') ->
  wf m'.
Proof.
  intros [Hd Hk _ _ _] P P' Hm H1 H2 H3. rewrite P in Hd. apply NoDup_cons in Hd as [Hn Hd].
  split; auto.
  - now rewrite P'.
  - intros x. rewrite Hm, elem_of_difference, Hk, P, P', elem_of_singleton, elem_of_cons.
    split; [tauto|]. intros ?. split; [auto|]. now intros ->.
Qed.

Lemma wf_invalidate m k o m' : wf m -> Invalidate k m = Ok (o, m') -> wf m'.
Proof.
  intros W H. unfold Invalidate in H. destruct (find k m) as [s|] eqn:E; [|now injection H as <- <-].
  pose proof (wf_lru _ W); pose proof (wf_using _ W); pose proof (wf_clean _ W).
  destruct (0 <? ref_count_ s) eqn:Z0; [discriminate|]. unfold list_erase in H.
  destruct (find_located m k s W E) as [F N1 N2 R C|F N1 N2 R C|F N1 N2 R C]; rewrite C in H.
  - rewrite F in H. injection H as <- <-.
    eapply (wf_erased m _ k); [exact W|..]; cbn; auto using aremove_Forall.
    unfold all_nodes. cbn. now rewrite !fmap_app, (keys_aremove _ _ _ F).
  - apply afind_None in N1. rewrite N1 in H. discriminate.
  - rewrite F in H. injection H as <- <-.
    eapply (wf_erased m _ k); [exact W|..]; cbn; auto using aremove_Forall.
    unfold all_nodes. cbn. now rewrite !fmap_app, (keys_aremove _ _ _ F), <- !Permutation_middle.
Qed.

Lemma last_afind m k s : wf m -> last (lru_list_ m) = Some (k, s) -> afind k (lru_list_ m) = Some s.
Proof.
  intros W H. apply afind_elem; [now apply wf_nodups|].
  apply last_Some in H as [l' ->]. set_solver.
Qed.

Lemma lru_key_in_map m k s : wf m -> afind k (lru_list_ m) = Some s -> k ∈ obj_map_ m.
Proof.
  intros W H. apply (wf_keys _ W). unfold all_nodes. rewrite fmap_app. apply elem_of_app. left.
  eauto using afind_key.
Qed.

(** What [EnvictLast] does in a well-formed state: it never raises an error. *)
Lemma envict_last_spec m :
  wf m ->
  match last (lru_list_ m) with
  | None => EnvictLast m = Ok (None, m)
  | Some (k, s) =>
      EnvictLast m = Ok (Some (k, ObjStat.set_cached kNotCached s),
        mk (obj_map_ m) (aremove k (lru_list_ m)) (using_list_ m)
           ((k, ObjStat.set_cached kNotCached s) :: cleanuped_list_ m))
  end.
Proof.
  intros W. unfold EnvictLast. destruct (last (lru_list_ m)) as [[k s]|] eqn:L; [|done].
  apply last_afind in L as F; [|done]. pose proof (lru_key_in_map m k s W F) as Hk.
  assert (E : find k m = Some s) by (unfold find; now rewrite decide_True, F by done).
  destruct (find_located m k s W E) as [_ N1 N2 R C|F' N1 _ _ _|F' N1 _ _ _];
    [|apply afind_None in N1; congruence..].
  rewrite R. cbn. rewrite decide_True by done. unfold assign, splice_front. cbn.
  rewrite afind_aupdate, F. cbn. rewrite aremove_aupdate.
  now rewrite !(aupdate_notin k) by done.
Qed.

Lemma wf_evict m e m' : wf m -> EnvictLast m = Ok (e, m') -> wf m'.
Proof.
  intros W H. pose proof (envict_last_spec m W) as S.
  destruct (last (lru_list_ m)) as [[k s]|] eqn:L; rewrite S in H; injection H as <- <-; [|done].
  apply last_afind in L as F; [|done]. destruct (wf_nodups m W) as (D1 & _ & _).
  pose proof (wf_lru _ W) as H1. pose proof (wf_using _ W); pose proof (wf_clean _ W).
  eapply wf_perm; [exact W|reflexivity|..]; cbn; auto using aremove_Forall.
  - node_perm F.
  - constructor; [|done]. cbn. split; [|done]. exact (proj1 (Forall_afind _ _ _ _ H1 F)).
Qed.

Lemma step_wf m m' : step m m' -> wf m -> wf m'.
Proof. destruct 1; eauto using wf_get, wf_release, wf_put, wf_recover, wf_invalidate, wf_evict. Qed.
End object_stat_map.

(** ** Eviction *)
Section envict.
Import ObjectStorage.
Implicit Types (a : t) (l : node_list).

Definition nodes_size (l : node_list) : Z := foldr (fun n acc => obj_size_ n.2 + acc) 0 l.

Lemma nodes_size_app l1 l2 : nodes_size (l1 ++ l2) = nodes_size l1 + nodes_size l2.
Proof. induction l1 as [|x l1 IH]; cbn; [done|]. unfold nodes_size in *. lia. Qed.

Lemma nodes_size_nonneg l : Forall (fun n => 0 <= obj_size_ n.2) l -> 0 <= nodes_size l.
Proof. induction 1; cbn; unfold nodes_size in *; lia. Qed.

Lemma aremove_last k s l : k ∉ l.*1 -> aremove k (l ++ [(k, s)]) = l.
Proof.
  induction l as [|[k' s'] l IH]; cbn; intros H; [now rewrite decide_True|].
  rewrite decide_False by set_solver. f_equal. apply IH. set_solver.
Qed.

(** What one run of the eviction loop promises: it evicts the nodes from position [n] of
    the LRU list on, least recently used first, and no more of them than needed. *)
Definition evicted (drops drops' : list string) (a a' : t) (n : nat) : Prop :=
  let lru := ObjectStatMap.lru_list_ (obj_map_ a) in
  (n <= length lru)%nat /\
  drops' = drops ++ reverse (drop n lru).*1 /\
  disk_capacity_limit_ a' = disk_capacity_limit_ a /\
  disk_used_ a' = disk_used_ a - nodes_size (drop n lru) /\
  ObjectStatMap.lru_list_ (obj_map_ a') = take n lru /\
  ObjectStatMap.using_list_ (obj_map_ a') = ObjectStatMap.using_list_ (obj_map_ a) /\
  (n = 0%nat \/ disk_used_ a' <= disk_capacity_limit_ a') /\
  (forall x, lru !! n = Some x -> disk_capacity_limit_ a < disk_used_ a' + obj_size_ x.2).

Lemma envict_loop_spec lru a drops :
  ObjectStatMap.lru_list_ (obj_map_ a) = lru ->
  ObjectStatMap.wf (obj_map_ a) -> Forall (fun n => 0 <= obj_size_ n.2) lru ->
  nodes_size lru <= disk_used_ a < 2 ^ 64 ->
  exists n drops' a',
    Envict_loop (S (length lru)) drops a = Ok (drops', a') /\
    evicted drops drops' a a' n /\ ObjectStatMap.wf (obj_map_ a').
Proof.
  revert a drops. induction lru as [|[k s] lru IH] using rev_ind; intros a drops El W Hs Hd.
  - exists 0%nat, drops, a. unfold evicted. rewrite El. cbn.
    pose proof (envict_last_spec (obj_map_ a) W) as L. rewrite El in L.
    cbn in L. rewrite L.
    destruct a as [lim used m]; cbn in *.
    split; [now destruct (lim <? used)|]. rewrite app_nil_r. split; [|done].
    repeat split; auto; try lia; set_solver.
  - rewrite length_app, Nat.add_comm. cbn [length Nat.add Envict_loop].
    apply Forall_app in Hs as [Hs Hs']. apply Forall_cons in Hs' as [Hs' _]. cbn in Hs'.
    pose proof (nodes_size_nonneg _ Hs). rewrite nodes_size_app in Hd. cbn in Hd.
    destruct (disk_capacity_limit_ a <? disk_used_ a) eqn:C.
    + apply Z.ltb_lt in C. pose proof (envict_last_spec _ W) as L. rewrite El, last_snoc in L. rewrite L.
      cbn [res_bind obj_size_ ObjStat.set_cached].
      pose proof (wf_evict _ _ _ W L) as W'.
      assert (Hk : k ∉ lru.*1).
      { pose proof (proj1 (wf_nodups _ W)) as D. rewrite El, fmap_app in D. cbn in D.
        apply NoDup_app in D as (_ & D & _). intros Hin. apply (D k Hin). left. }
      rewrite wrap_id by (unfold unsigned_range; lia). rewrite aremove_last in * by done.
      set (a1 := mk _ _ _).
      destruct (IH a1 (drops ++ [k])) as (n & drops' & a' & E & Ev & W2);
        [reflexivity|exact W'|exact Hs|cbn; lia|].
      exists n, drops', a'. split; [exact E|].
      split; [|done]. destruct Ev as (Hn & -> & Hlim & Hu & Hl & Hus & Hfit & Hmin). cbn in *.
      unfold evicted. rewrite El, length_app, take_app_le, drop_app_le by lia. cbn.
      rewrite nodes_size_app. cbn. rewrite fmap_app, reverse_app. cbn.
      repeat split; auto; try lia; [now rewrite <- app_assoc|].
      intros x Hx. destruct (decide (n < length lru)%nat) as [Hlt|Hge].
      * rewrite lookup_app_l in Hx by done. now apply Hmin.
      * replace n with (length lru) in * by lia. rewrite list_lookup_middle in Hx by done.
        injection Hx as <-. cbn. rewrite Hu, drop_all. cbn. lia.
    + apply Z.ltb_ge in C. exists (length (lru ++ [(k, s)])), drops, a. split; [done|]. split; [|done].
      unfold evicted. rewrite El, drop_all, firstn_all, app_nil_r. cbn.
      repeat split; auto; try lia. intros x Hx. apply lookup_lt_Some in Hx. lia.
Qed.
End envict.

(** ** Properties *)

(** Whatever sequence of successful calls is made on a fresh [ObjectStatMap], every
    object has exactly one node, [obj_map_] holds exactly the keys of the nodes, unused
    cached objects are in [lru_list_], objects in use are in [using_list_] with a positive
    count, and evicted objects are in [cleanuped_list_] with no user. *)
Theorem object_stat_map_invariant (m : ObjectStatMap.t) :
  rtc ObjectStatMap.step ObjectStatMap.empty m -> ObjectStatMap.wf m.
Proof.
  intros H. assert (W : ObjectStatMap.wf ObjectStatMap.empty) by apply wf_empty.
  revert W. induction H; eauto using step_wf.
Qed.

Lemma object_stat_map_invariant_witness :
  let s := ObjStat.make 3 1 0 in
  ObjectStatMap.wf
    (ObjectStatMap.mk ({["a"%string]} ∪ ∅) [] [("a"%string, ObjStat.set_ref_count 1 s)] []).
Proof.
  cbv zeta. apply object_stat_map_invariant.
  eapply rtc_l; [apply (ObjectStatMap.step_put _ "a"%string (ObjStat.make 3 1 0)); [set_solver|done|done]|].
  eapply rtc_l; [|apply rtc_refl].
  eapply (ObjectStatMap.step_get _ "a"%string (Some (ObjStat.make 3 1 1))).
  - unfold ObjectStatMap.Get, ObjectStatMap.PutNew, ObjectStatMap.find. cbn.
    rewrite !decide_True by set_solver. reflexivity.
  - intros s. unfold ObjectStatMap.find. cbn. rewrite decide_True by set_solver.
    intros [= <-]. reflexivity.
Defined.

(** [Envict] never raises an error and terminates. It drops least recently used
    objects, reporting their keys oldest first, leaves the objects in use alone, subtracts
    exactly the sizes of the dropped objects, drops nothing more than needed, and answers
    [true] exactly when the usage fits the limit; when it answers [false] no unused object
    is left on disk. *)
Theorem envict_drops_least_recently_used (a : ObjectStorage.t) (drops : list string) :
  ObjectStatMap.wf (ObjectStorage.obj_map_ a) ->
  Forall (fun n => 0 <= obj_size_ n.2) (ObjectStatMap.lru_list_ (ObjectStorage.obj_map_ a)) ->
  nodes_size (ObjectStatMap.lru_list_ (ObjectStorage.obj_map_ a)) <= ObjectStorage.disk_used_ a < 2 ^ 64 ->
  exists ok n drops' a',
    ObjectStorage.Envict drops a = Ok (ok, drops', a') /\ evicted drops drops' a a' n /\
    (ok = true <-> ObjectStorage.disk_used_ a' <= ObjectStorage.disk_capacity_limit_ a') /\
    (ok = false -> ObjectStatMap.lru_list_ (ObjectStorage.obj_map_ a') = []).
Proof.
  intros W Hs Hd. destruct (envict_loop_spec _ a drops eq_refl W Hs Hd) as (n & drops' & a' & E & Ev & _).
  unfold ObjectStorage.Envict. rewrite E. cbn.
  eexists _, n, drops', a'. split; [reflexivity|]. split; [exact Ev|].
  rewrite negb_true_iff, negb_false_iff, Z.ltb_ge, Z.ltb_lt. split; [done|].
  destruct Ev as (_ & _ & _ & _ & -> & _ & [->|Hfit] & _); [done|lia].
Qed.

Lemma envict_drops_least_recently_used_witness :
  let s := ObjStat.make 6 1 0 in
  let a := ObjectStorage.mk 10 12 (ObjectStatMap.mk {["a"%string; "b"%string]} [("b"%string, s); ("a"%string, s)] [] []) in
  exists ok n drops' a',
    ObjectStorage.Envict [] a = Ok (ok, drops', a') /\ evicted [] drops' a a' n /\
    (ok = true <-> ObjectStorage.disk_used_ a' <= ObjectStorage.disk_capacity_limit_ a') /\
    (ok = false -> ObjectStatMap.lru_list_ (ObjectStorage.obj_map_ a') = []).
Proof.
  cbv zeta. apply envict_drops_least_recently_used; cbn.
  - split; cbn; [|intros k; set_solver|repeat constructor|constructor|constructor].
    apply NoDup_cons; split; [|apply NoDup_singleton]. set_solver.
  - repeat constructor; cbn; lia.
  - lia.
Defined.

(** A second handle on an object that is already in use: [Get] subtracts the object's
    size from [disk_used_] on every call although only the first call takes the object off
    the LRU list, so with a single object of non-zero size the second concurrent [Get]
    raises the "larger than disk used" error. *)
Theorem second_get_raises (key : string) (size limit : Z) (obj : ObjStat) :
  obj = ObjStat.make size 1 0 -> 0 < size <= limit -> limit < 2 ^ 64 ->
  exists a1 a2,
    ObjectStorage.PutNew key obj [] (ObjectStorage.make limit) = Ok ([], a1) /\
    ObjectStorage.Get key a1 = Ok (Some (ObjStat.make size 1 1), a2) /\
    ObjectStorage.Get key a2 = Err Unrecoverable.
Proof.
  intros -> H1 H2. unfold ObjectStorage.PutNew, ObjectStorage.make. cbn.
  rewrite wrap_id by (unfold unsigned_range; lia). change (0 + size) with size. rewrite (proj2 (Z.ltb_ge limit size)) by lia.
  unfold ObjectStatMap.PutNew. cbn. rewrite decide_False by set_solver.
  set (keys := {[key]} ∪ ∅).
  exists (ObjectStorage.mk limit size (ObjectStatMap.mk keys [(key, ObjStat.make size 1 0)] [] [])).
  exists (ObjectStorage.mk limit (size - size) (ObjectStatMap.mk keys [] [(key, ObjStat.make size 1 1)] [])).
  split; [reflexivity|].
  unfold ObjectStorage.Get, ObjectStatMap.Get, ObjectStatMap.find, splice_front. cbn.
  rewrite !(decide_True (P := key ∈ keys)) by set_solver. rewrite !decide_True by done. cbn.
  change (0 =? 0) with true. change (1 =? 0) with false. cbn.
  rewrite Z.ltb_irrefl, (proj2 (Z.ltb_lt (size - size) size)) by lia.
  unfold ObjectStatMap.assign. cbn. rewrite decide_True by done. split; reflexivity.
Qed.

Lemma second_get_raises_witness :
  exists a1 a2,
    ObjectStorage.PutNew "obj" (ObjStat.make 5 1 0) [] (ObjectStorage.make 10) = Ok ([], a1) /\
    ObjectStorage.Get "obj" a1 = Ok (Some (ObjStat.make 5 1 1), a2) /\
    ObjectStorage.Get "obj" a2 = Err Unrecoverable.
Proof. apply (second_get_raises "obj" 5 10 (ObjStat.make 5 1 0)); [reflexivity|lia|lia]. Defined.
