(* ===== verification/PersistenceManager.v ===== *)
(** * Persistence manager: [src/src/storage/persistence/persistence_manager.{cppm,cpp}]

    The manager packs the files it is given into workspace objects: a file is appended to
    the current unsealed object, or becomes an object of its own when it is large.
    [local_path_obj_] maps a local path to the object, offset and size where its bytes are.

    The file system is part of the state: [workspace_] holds the bytes of every object
    file by object key, [tmp_files_] the bytes of every other file by path. Object keys
    come from the UUID generator, a parameter [UUID] (the n-th key drawn); [uuid_count_]
    is the number of keys drawn so far. Only [ObjectStatAccessor_LocalStorage] is ever
    constructed by the manager. *)
From Stdlib Require Import Strings.Ascii.
From S2P Require Import Prelude Serialize ObjStatus ObjStatAccessor.

(** ** Object addresses *)
Record ObjAddr := mkObjAddr { obj_key_ : string; part_offset_ : Z; part_size_ : Z }.
#[export] Instance ObjAddr_eq_dec : EqDecision ObjAddr.
Proof. solve_decision. Defined.

Definition KeyEmpty : string := "KEY_EMPTY".

Module ObjAddr.
Definition default_ : ObjAddr := mkObjAddr "" 0 0.
Definition Valid (a : ObjAddr) : bool := negb (String.eqb (obj_key_ a) "").
Definition GetSizeInBytes (a : ObjAddr) : Z := 4 + Z.of_nat (String.length (obj_key_ a)) + 8 + 8.
Definition WriteBufAdv (a : ObjAddr) : writer :=
  WriteBufAdv_string (obj_key_ a) +++
  WriteBufAdv_int 8 (part_offset_ a) +++
  WriteBufAdv_int 8 (part_size_ a).
Definition ReadBufAdv : reader ObjAddr :=
  read key := ReadBufAdv_string in
  read offset := ReadBufAdv_u 8 in
  read size := ReadBufAdv_u 8 in
  rret (mkObjAddr key offset size).
Definition ok (a : ObjAddr) : Prop :=
  string_ok (obj_key_ a) /\ unsigned_range 64 (part_offset_ a) /\ unsigned_range 64 (part_size_ a).
End ObjAddr.

Record PersistWriteResult := mkWriteResult {
  w_obj_addr_ : ObjAddr;
  persist_keys_ : list string;
  drop_keys_ : list string;
  drop_from_remote_keys_ : list string;
}.
Definition write_result0 : PersistWriteResult := mkWriteResult ObjAddr.default_ [] [] [].

Definition ObjAlignment : Z := 8.
(** [(n + ObjAlignment - 1) & ~(ObjAlignment - 1)] on [SizeT]. *)
Definition align_up (n : Z) : Z := Z.ldiff (u64 (n + ObjAlignment - 1)) (ObjAlignment - 1).

Module PersistenceManager.

Record t := mk {
  local_data_dir_ : string;
  object_size_limit_ : Z;
  objects_ : gmap string ObjStat;
  local_path_obj_ : gmap string ObjAddr;
  current_object_key_ : string;
  current_object_size_ : Z;
  current_object_parts_ : Z;
  current_object_ref_count_ : Z;
  workspace_ : gmap string bytes;
  tmp_files_ : gmap string bytes;
  uuid_count_ : nat;
}.

Definition set_objects (o : gmap string ObjStat) (pm : t) : t :=
  mk (local_data_dir_ pm) (object_size_limit_ pm) o (local_path_obj_ pm) (current_object_key_ pm)
     (current_object_size_ pm) (current_object_parts_ pm) (current_object_ref_count_ pm)
     (workspace_ pm) (tmp_files_ pm) (uuid_count_ pm).
Definition set_paths (p : gmap string ObjAddr) (pm : t) : t :=
  mk (local_data_dir_ pm) (object_size_limit_ pm) (objects_ pm) p (current_object_key_ pm)
     (current_object_size_ pm) (current_object_parts_ pm) (current_object_ref_count_ pm)
     (workspace_ pm) (tmp_files_ pm) (uuid_count_ pm).
Definition set_current (key : string) (size parts refs : Z) (pm : t) : t :=
  mk (local_data_dir_ pm) (object_size_limit_ pm) (objects_ pm) (local_path_obj_ pm) key size parts refs
     (workspace_ pm) (tmp_files_ pm) (uuid_count_ pm).
Definition set_files (ws tmp : gmap string bytes) (pm : t) : t :=
  mk (local_data_dir_ pm) (object_size_limit_ pm) (objects_ pm) (local_path_obj_ pm) (current_object_key_ pm)
     (current_object_size_ pm) (current_object_parts_ pm) (current_object_ref_count_ pm) ws tmp (uuid_count_ pm).
Definition set_uuid_count (n : nat) (pm : t) : t :=
  mk (local_data_dir_ pm) (object_size_limit_ pm) (objects_ pm) (local_path_obj_ pm) (current_object_key_ pm)
     (current_object_size_ pm) (current_object_parts_ pm) (current_object_ref_count_ pm)
     (workspace_ pm) (tmp_files_ pm) n.

Section manager.
Variable UUID : nat -> string.

Definition ObjCreate (pm : t) : string * t :=
  (UUID (uuid_count_ pm), set_uuid_count (S (uuid_count_ pm)) pm).

(** The constructor; the workspace may hold files, and the empty-object file is truncated. *)
Definition make (data_dir : string) (object_size_limit : Z) (files tmp : gmap string bytes) : t :=
  let dir := if String.eqb data_dir "" ||
                negb (match String.get (String.length data_dir - 1) data_dir with
                      | Some c => Ascii.eqb c "/"%char | None => false end)
             then String.append data_dir "/" else data_dir in
  mk dir object_size_limit ∅ ∅ (UUID 0) 0 0 0 (<[KeyEmpty := []]> files) tmp 1.

Definition RemovePrefix (path : string) (pm : t) : string :=
  let d := local_data_dir_ pm in
  if String.prefix d path then
    String.substring (String.length d) (String.length path - String.length d) path
  else if negb (String.prefix "/" path) then path
  else ""%string.

Definition CurrentObjRoomNoLock (pm : t) : Z :=
  i32 (i32 (object_size_limit_ pm) - i32 (current_object_size_ pm)).

(** [CurrentObjAppendNoLock]: pad the object file with zeros up to [current_object_size_],
    then append the bytes of [tmp_file_path]. *)
Definition CurrentObjAppendNoLock (tmp_file_path : string) (file_size : Z) (pm : t) : res t :=
  match tmp_files_ pm !! tmp_file_path with
  | None => Err Unrecoverable
  | Some src =>
      let dst := default [] (workspace_ pm !! current_object_key_ pm) in
      let dst := if Z.of_nat (length dst) <? current_object_size_ pm
                 then dst ++ replicate (Z.to_nat (current_object_size_ pm) - length dst) Byte.x00
                 else dst in
      let size := u64 (current_object_size_ pm + file_size) in
      let pm := set_files (<[current_object_key_ pm := dst ++ src]> (workspace_ pm)) (tmp_files_ pm) pm in
      let pm := set_current (current_object_key_ pm) size (u64 (current_object_parts_ pm + 1))
                  (current_object_ref_count_ pm) pm in
      if object_size_limit_ pm <=? size then Err Unrecoverable else Ok pm
  end.

(** [CurrentObjFinalizeNoLock]: seal the current object and start a new one. *)
Definition CurrentObjFinalizeNoLock (persist_keys : list string) (pm : t) : res (list string * t) :=
  if 0 <? current_object_size_ pm then
    let key := current_object_key_ pm in
    let pm := if 1 <? current_object_parts_ pm
              then set_files (<[key := default [] (workspace_ pm !! key) ++ le_encode 4 1]> (workspace_ pm))
                             (tmp_files_ pm) pm
              else pm in
    let? objs := LocalStorage.PutNew key
        (ObjStat.make (current_object_size_ pm) (current_object_parts_ pm) (current_object_ref_count_ pm))
        (objects_ pm) in
    let pm := set_objects objs pm in
    let (key', pm) := ObjCreate pm in
    Ok (persist_keys ++ [key], set_current key' 0 0 0 pm)
  else Ok (persist_keys, pm).

(** The part of [CleanupNoLock] that works on the set of deleted ranges. [merge_prev] and
    [merge_next] are its two [if] statements: [None] is the early return for a range that
    has been deleted before; a neighbour that touches the range is erased and merged. *)
Definition merge_prev (orig_range : Range) (before : list Range) : res (option (Range * list Range)) :=
  match last before with
  | None => Ok (Some (orig_range, before))
  | Some prev =>
      if Range.Cover prev orig_range then Ok None
      else if Range.Intersect prev orig_range then Err Unrecoverable
      else if start_ orig_range =? end_ prev
      then Ok (Some (mkRange (start_ prev) (end_ orig_range), removelast before))
      else Ok (Some (orig_range, before))
  end.
Definition merge_next (orig_range range : Range) (after : list Range) : res (option (Range * list Range)) :=
  match after with
  | [] => Ok (Some (range, after))
  | next :: after' =>
      if Range.Cover next orig_range then Ok None
      else if Range.Intersect next orig_range then Err Unrecoverable
      else if end_ orig_range =? start_ next
      then Ok (Some (mkRange (start_ range) (end_ next), after'))
      else Ok (Some (range, after))
  end.

(** The inserted range (if any) and the new set. *)
Definition delete_range (orig_range : Range) (ranges : list Range) : res (option Range * list Range) :=
  let '(before, after) := RangeSet.lower_bound orig_range ranges in
  let? prev := merge_prev orig_range before in
  match prev with
  | None => Ok (None, ranges)
  | Some (range, before) =>
      let? next := merge_next orig_range range after in
      match next with
      | None => Ok (None, before ++ after)
      | Some (range, after) =>
          let '(s, ok) := RangeSet.insert range (before ++ after) in
          if ok then Ok (Some range, s) else Err Unrecoverable
      end
  end.

(** [CleanupNoLock] once the object's status is known. *)
Definition CleanupObject (object_addr : ObjAddr) (check_ref_count : bool) (obj_stat : ObjStat)
    (result : PersistWriteResult) (pm : t) : res (PersistWriteResult * t) :=
  let range_end := align_up (u64 (part_offset_ object_addr + part_size_ object_addr)) in
  let orig_range := mkRange (part_offset_ object_addr) range_end in
  let? (inserted, ranges) := delete_range orig_range (deleted_ranges_ obj_stat) in
  let pm := set_objects (<[obj_key_ object_addr := ObjStat.set_deleted_ranges ranges obj_stat]> (objects_ pm)) pm in
  match inserted with
  | None => Ok (result, pm)
  | Some range =>
      let obj_size := align_up (obj_size_ obj_stat) in
      if (start_ range =? 0) && (end_ range =? obj_size) &&
         negb (String.eqb (obj_key_ object_addr) (current_object_key_ pm)) then
        if String.eqb (obj_key_ object_addr) "" then Err Unrecoverable
        else if check_ref_count && (0 <? ref_count_ obj_stat) then Err Unrecoverable
        else
          Ok (mkWriteResult (w_obj_addr_ result) (persist_keys_ result) (drop_keys_ result)
                (drop_from_remote_keys_ result ++ [obj_key_ object_addr]),
              set_objects (snd (LocalStorage.Invalidate (obj_key_ object_addr) (objects_ pm))) pm)
      else Ok (result, pm)
  end.

Definition CleanupNoLock (object_addr : ObjAddr) (check_ref_count : bool)
    (result : PersistWriteResult) (pm : t) : res (PersistWriteResult * t) :=
  match LocalStorage.GetNoCount (obj_key_ object_addr) (objects_ pm) with
  | Some obj_stat => CleanupObject object_addr check_ref_count obj_stat result pm
  | None =>
      if String.eqb (obj_key_ object_addr) KeyEmpty then Ok (result, pm)
      else if String.eqb (obj_key_ object_addr) (current_object_key_ pm) then
        let? (keys, pm) := CurrentObjFinalizeNoLock (persist_keys_ result) pm in
        let result := mkWriteResult (w_obj_addr_ result) keys (drop_keys_ result) (drop_from_remote_keys_ result) in
        match LocalStorage.GetNoCount (obj_key_ object_addr) (objects_ pm) with
        | Some obj_stat => CleanupObject object_addr check_ref_count obj_stat result pm
        | None => Err Undefined
        end
      else Err Unrecoverable
  end.

Definition set_addr (a : ObjAddr) (r : PersistWriteResult) : PersistWriteResult :=
  mkWriteResult a (persist_keys_ r) (drop_keys_ r) (drop_from_remote_keys_ r).
Definition add_persist_key (k : string) (r : PersistWriteResult) : PersistWriteResult :=
  mkWriteResult (w_obj_addr_ r) (persist_keys_ r ++ [k]) (drop_keys_ r) (drop_from_remote_keys_ r).

(** The three ways [Persist] stores the bytes: nothing for an empty file, an object of its
    own, or a part of the current object. *)
Definition persist_empty (local_path tmp_file_path : string) (result : PersistWriteResult) (pm : t)
    : PersistWriteResult * t :=
  let obj_addr := mkObjAddr KeyEmpty 0 0 in
  let pm := set_files (workspace_ pm) (delete tmp_file_path (tmp_files_ pm)) pm in
  (set_addr obj_addr (add_persist_key KeyEmpty result),
   set_paths (<[local_path := obj_addr]> (local_path_obj_ pm)) pm).

Definition persist_dedicated (local_path tmp_file_path : string) (content : bytes) (src_size : Z)
    (result : PersistWriteResult) (pm : t) : res (PersistWriteResult * t) :=
  let (obj_key, pm) := ObjCreate pm in
  let pm := set_files (<[obj_key := content]> (workspace_ pm)) (delete tmp_file_path (tmp_files_ pm)) pm in
  let obj_addr := mkObjAddr obj_key 0 src_size in
  let? objs := LocalStorage.PutNew obj_key (ObjStat.make src_size 1 0) (objects_ pm) in
  let pm := set_paths (<[local_path := obj_addr]> (local_path_obj_ pm)) (set_objects objs pm) in
  Ok (set_addr obj_addr (add_persist_key obj_key result), pm).

Definition persist_composed (local_path tmp_file_path : string) (src_size : Z)
    (result : PersistWriteResult) (pm : t) : res (PersistWriteResult * t) :=
  let? (keys, pm) := (if CurrentObjRoomNoLock pm <=? i32 src_size
                      then CurrentObjFinalizeNoLock (persist_keys_ result) pm
                      else Ok (persist_keys_ result, pm)) in
  let pm := set_current (current_object_key_ pm) (align_up (current_object_size_ pm))
              (current_object_parts_ pm) (current_object_ref_count_ pm) pm in
  let obj_addr := mkObjAddr (current_object_key_ pm) (current_object_size_ pm) src_size in
  let? pm := CurrentObjAppendNoLock tmp_file_path src_size pm in
  let pm := set_files (workspace_ pm) (delete tmp_file_path (tmp_files_ pm)) pm in
  let pm := set_paths (<[local_path := obj_addr]> (local_path_obj_ pm)) pm in
  Ok (mkWriteResult obj_addr keys (drop_keys_ result) (drop_from_remote_keys_ result), pm).

Definition Persist (file_path tmp_file_path : string) (try_compose : bool) (pm : t)
    : res (PersistWriteResult * t) :=
  let local_path := RemovePrefix file_path pm in
  if String.eqb local_path "" then Err Unrecoverable else
  let? (result, pm) := (match local_path_obj_ pm !! local_path with
                        | Some addr => CleanupNoLock addr false write_result0 pm
                        | None => Ok (write_result0, pm)
                        end) in
  match tmp_files_ pm !! tmp_file_path with
  | None => Err Unrecoverable
  | Some content =>
      let src_size := Z.of_nat (length content) in
      if src_size =? 0 then Ok (persist_empty local_path tmp_file_path result pm)
      else if negb try_compose || (object_size_limit_ pm <=? src_size)
      then persist_dedicated local_path tmp_file_path content src_size result pm
      else persist_composed local_path tmp_file_path src_size result pm
  end.

Definition CurrentObjFinalize (pm : t) : res (PersistWriteResult * t) :=
  let? (keys, pm) := CurrentObjFinalizeNoLock [] pm in
  Ok (mkWriteResult ObjAddr.default_ keys [] [], pm).

(** [GetObjCache]: the address to read from, and the object's status when its file is
    missing on local disk. *)
Definition GetObjCache (file_path : string) (pm : t) : res (ObjAddr * option ObjStat * t) :=
  let local_path := RemovePrefix file_path pm in
  if String.eqb local_path "" then Err Unrecoverable else
  match local_path_obj_ pm !! local_path with
  | None => Ok (ObjAddr.default_, None, pm)
  | Some addr =>
      if part_size_ addr =? 0 then
        if String.eqb (obj_key_ addr) KeyEmpty then Ok (addr, None, pm) else Err Unrecoverable
      else
        match LocalStorage.Get (obj_key_ addr) (objects_ pm) with
        | (Some s, objs) =>
            match workspace_ pm !! obj_key_ addr with
            | Some _ => Ok (addr, None, set_objects objs pm)
            | None =>
                let s := if decide (cached_ s = kCached) then ObjStat.set_cached kNotCached s else s in
                Ok (addr, Some s, set_objects (<[obj_key_ addr := s]> objs) pm)
            end
        | (None, _) =>
            if String.eqb (obj_key_ addr) (current_object_key_ pm) then
              Ok (addr, None,
                  set_current (current_object_key_ pm) (current_object_size_ pm) (current_object_parts_ pm)
                    (u64 (current_object_ref_count_ pm + 1)) pm)
            else Err Unrecoverable
        end
  end.

Definition PutObjCache (file_path : string) (pm : t) : res t :=
  let local_path := RemovePrefix file_path pm in
  if String.eqb local_path "" then Err Unrecoverable else
  match local_path_obj_ pm !! local_path with
  | None => Err Unrecoverable
  | Some addr =>
      if part_size_ addr =? 0 then Ok pm
      else
        let? (o, objs) := LocalStorage.Release (obj_key_ addr) (objects_ pm) in
        match o with
        | Some _ => Ok (set_objects objs pm)
        | None =>
            if negb (String.eqb (obj_key_ addr) (current_object_key_ pm)) then Err Unrecoverable
            else if current_object_ref_count_ pm <=? 0 then Err Unrecoverable
            else Ok (set_current (current_object_key_ pm) (current_object_size_ pm) (current_object_parts_ pm)
                       (current_object_ref_count_ pm - 1) pm)
        end
  end.

Definition GetFileSize (file_path : string) (pm : t) : res (option Z) :=
  let local_path := RemovePrefix file_path pm in
  if String.eqb local_path "" then Err Unrecoverable
  else Ok (part_size_ <$> local_path_obj_ pm !! local_path).

Definition GetObjCacheWithoutCnt (file_path : string) (pm : t) : res ObjAddr :=
  let local_path := RemovePrefix file_path pm in
  if String.eqb local_path "" then Err Unrecoverable
  else Ok (default ObjAddr.default_ (local_path_obj_ pm !! local_path)).

Definition GetObjStatByObjAddr (addr : ObjAddr) (pm : t) : ObjStat :=
  default ObjStat.default_ (LocalStorage.GetNoCount (obj_key_ addr) (objects_ pm)).

Definition SaveLocalPath (file_path : string) (addr : ObjAddr) (pm : t) : res t :=
  let local_path := RemovePrefix file_path pm in
  if String.eqb local_path "" then Err Unrecoverable
  else Ok (set_paths (<[local_path := addr]> (local_path_obj_ pm)) pm).

Definition SaveObjStat (addr : ObjAddr) (s : ObjStat) (pm : t) : t :=
  set_objects (LocalStorage.PutNoCount (obj_key_ addr) s (objects_ pm)) pm.

Definition Cleanup (file_path : string) (pm : t) : res (PersistWriteResult * t) :=
  let local_path := RemovePrefix file_path pm in
  if String.eqb local_path "" then Err Unrecoverable else
  match local_path_obj_ pm !! local_path with
  | None => Ok (write_result0, pm)
  | Some addr =>
      let? (result, pm) := CleanupNoLock addr true write_result0 pm in
      Ok (result, set_paths (delete local_path (local_path_obj_ pm)) pm)
  end.

(** The bytes at an address, and those stored for a local path. *)
Definition read_at (pm : t) (addr : ObjAddr) : option bytes :=
  if String.eqb (obj_key_ addr) KeyEmpty then Some []
  else match workspace_ pm !! obj_key_ addr with
       | None => None
       | Some f => Some (take (Z.to_nat (part_size_ addr)) (drop (Z.to_nat (part_offset_ addr)) f))
       end.
Definition stored (pm : t) (local_path : string) : option bytes :=
  match local_path_obj_ pm !! local_path with
  | None => None
  | Some addr => read_at pm addr
  end.

End manager.
End PersistenceManager.

(** ** Deleted ranges *)
Section deleted_ranges.
Import PersistenceManager.
Implicit Types (r orig : Range) (s before after : list Range).

Lemma separated_before_last before prev after x :
  separated (before ++ prev :: after) -> covers before x -> x < start_ prev.
Proof.
  rewrite separated_app. intros (_ & _ & H) C. unfold covers in C.
  apply Exists_exists in C as (r & Hr & Hx). rewrite Forall_forall in H. specialize (H r Hr).
  apply Forall_cons in H as [H _]. lia.
Qed.

Lemma covers_after r after x :
  Forall (fun y : Range => end_ r < start_ y) after -> covers after x -> end_ r < x.
Proof.
  intros H C. apply Exists_exists in C as (y & Hy & Hx). rewrite Forall_forall in H.
  specialize (H y Hy). cbn in H. lia.
Qed.

Lemma Forall_start_trans (a b : Z) after :
  b <= a -> Forall (fun y : Range => a < start_ y) after -> Forall (fun y : Range => b < start_ y) after.
Proof. intros. eapply Forall_impl; [eassumption|]. cbn. lia. Qed.

Lemma separated_nonempty s : separated s -> Forall (fun y : Range => start_ y < end_ y) s.
Proof. induction s as [|r s IH]; cbn; intros H; constructor; [apply H|apply IH, H]. Qed.

(** The predecessor side: nothing of [orig] is covered by [before], and the merged range
    together with what is left of [before] covers the same bytes. *)
Lemma merge_prev_spec orig before :
  separated before -> start_ orig < end_ orig -> Forall (fun y : Range => start_ y < start_ orig) before ->
  match merge_prev orig before with
  | Err e => e = Unrecoverable /\ (exists x, start_ orig <= x < end_ orig /\ covers before x) /\
             (exists prev, prev ∈ before /\ start_ orig <= end_ prev < end_ orig /\ ~ covers before (end_ prev))
  | Ok None => forall x, start_ orig <= x < end_ orig -> covers before x
  | Ok (Some (r, before')) =>
      end_ r = end_ orig /\ start_ r <= start_ orig /\
      (forall x, start_ orig <= x < end_ orig -> ~ covers before x) /\
      separated before' /\ Forall (fun y : Range => end_ y < start_ r) before' /\
      (before' = before \/ exists prev, prev ∈ before /\ end_ prev = start_ orig) /\
      (forall x, covers before' x \/ start_ r <= x < end_ r <-> covers before x \/ start_ orig <= x < end_ orig)
  end.
Proof.
  intros Hs Ho Hb. unfold merge_prev. destruct (last before) as [prev|] eqn:L.
  2:{ apply last_None in L as ->. repeat split; auto; try lia. intros x _. now rewrite covers_nil. }
  apply last_Some in L as [b0 ->]. rewrite Forall_app, Forall_cons in Hb. destruct Hb as (Hb & Hp & _).
  pose proof (separated_before_last b0 prev [] ) as B0. pose proof Hs as Hs'.
  rewrite separated_app in Hs. destruct Hs as (Hs0 & (Hpne & _ & _) & Hsep).
  assert (Hcov : forall x, start_ orig <= x -> covers (b0 ++ [prev]) x <-> x < end_ prev).
  { intros x Hx. rewrite covers_app, covers_cons, covers_nil. split.
    - intros [C|[C|[]]]; [|lia]. specialize (B0 x Hs' C). lia.
    - intros. right; left. lia. }
  unfold Range.Cover, Range.Intersect.
  destruct ((start_ prev <=? start_ orig) && (end_ orig <=? end_ prev)) eqn:C1.
  { intros x Hx. rewrite Hcov by lia. lia. }
  destruct ((start_ prev <? end_ orig) && (start_ orig <? end_ prev)) eqn:C2.
  { split; [done|]. split.
    - exists (start_ orig). rewrite Hcov by lia. lia.
    - exists prev. split; [set_solver|]. rewrite Hcov by lia. lia. }
  assert (Hend : end_ prev <= start_ orig) by lia.
  assert (Hb0 : Forall (fun y : Range => end_ y < start_ prev) b0).
  { rewrite Forall_forall in Hsep |- *. intros y Hy. specialize (Hsep y Hy). now apply Forall_cons in Hsep as [? _]. }
  destruct (start_ orig =? end_ prev) eqn:C3; cbn [start_ end_].
  - rewrite removelast_last. repeat split; auto; try lia; intros.
    + rewrite Hcov by lia. lia.
    + right. exists prev. split; [set_solver|lia].
    + rewrite covers_app, covers_cons, covers_nil. destruct H as [H|H]; [tauto|].
      destruct (Z.lt_ge_cases x (end_ prev)); [left; right; left; lia|right; lia].
    + rewrite covers_app, covers_cons, covers_nil in H. destruct H as [[H|[H|[]]]|H]; [tauto|right; lia|right; lia].
  - repeat split; auto; try lia; intros.
    + rewrite Hcov by lia. lia.
    + rewrite Forall_app, Forall_cons. repeat split; [|lia|constructor].
      eapply Forall_impl; [exact Hb0|]. cbn. lia.
Qed.

Lemma merge_next_spec orig r after :
  separated after -> start_ orig < end_ orig -> end_ r = end_ orig -> start_ r <= start_ orig ->
  Forall (fun y : Range => start_ orig <= start_ y) after ->
  match merge_next orig r after with
  | Err e => e = Unrecoverable /\ (exists x, start_ orig <= x < end_ orig /\ covers after x) /\
             (exists x, start_ orig <= x < end_ orig /\ ~ covers after x)
  | Ok None => (forall x, start_ orig <= x < end_ orig -> covers after x) /\
               exists next after', after = next :: after' /\ start_ next = start_ orig
  | Ok (Some (r', after')) =>
      start_ r' = start_ r /\ end_ orig <= end_ r' /\
      (forall x, start_ orig <= x < end_ orig -> ~ covers after x) /\
      separated after' /\ Forall (fun y : Range => end_ r' < start_ y) after' /\
      (forall x, covers after' x \/ start_ r' <= x < end_ r' <-> covers after x \/ start_ r <= x < end_ r)
  end.
Proof.
  intros Hs Ho He Hst Ha. unfold merge_next. destruct after as [|next after'].
  { repeat split; auto; try lia; cbn. intros x _. now rewrite covers_nil. }
  apply Forall_cons in Ha as [Hn Ha]. destruct Hs as (Hne & Hf & Hs).
  assert (Hcov : forall x, covers (next :: after') x -> x < end_ orig -> start_ next <= x < end_ next \/ end_ next < x).
  { intros x. rewrite covers_cons. intros [C|C] _; [lia|]. right. eapply covers_after; eauto. }
  unfold Range.Cover, Range.Intersect.
  destruct ((start_ next <=? start_ orig) && (end_ orig <=? end_ next)) eqn:C1.
  { split; [intros x Hx; rewrite covers_cons; left; lia|]. exists next, after'. split; [done|lia]. }
  destruct ((start_ next <? end_ orig) && (start_ orig <? end_ next)) eqn:C2.
  { split; [done|]. split; [exists (start_ next); rewrite covers_cons; lia|].
    destruct (Z.eq_dec (start_ next) (start_ orig)).
    - exists (end_ next). split; [lia|]. intros C. destruct (Hcov _ C); lia.
    - exists (start_ orig). split; [lia|]. intros C. destruct (Hcov _ C); lia. }
  assert (Hend : end_ orig <= start_ next) by lia.
  assert (Hnc : forall x, start_ orig <= x < end_ orig -> ~ covers (next :: after') x).
  { intros x Hx C. destruct (Hcov _ C); lia. }
  destruct (end_ orig =? start_ next) eqn:C3; cbn [start_ end_].
  - repeat split; auto; try lia; intros; rewrite covers_cons in *.
    + destruct H as [H|H]; [tauto|]. destruct (Z.lt_ge_cases x (start_ next)); [right; lia|left; left; lia].
    + destruct H as [[H|H]|H]; [right; lia|tauto|right; lia].
  - repeat split; auto; try lia. rewrite Forall_cons. split; [lia|].
    eapply (Forall_start_trans (end_ next)); [lia|exact Hf].
Qed.

(** Deleting a range: refused exactly when it is partly deleted already, a no-op when it
    is deleted already, and otherwise the set stays separated and grows by exactly the
    bytes of the range. *)
Lemma delete_range_spec orig s :
  separated s -> start_ orig < end_ orig ->
  match delete_range orig s with
  | Err e => e = Unrecoverable /\ (exists x, start_ orig <= x < end_ orig /\ covers s x) /\
             (exists x, start_ orig <= x < end_ orig /\ ~ covers s x)
  | Ok (None, s') => s' = s /\ (forall x, start_ orig <= x < end_ orig -> covers s x)
  | Ok (Some r, s') =>
      (forall x, start_ orig <= x < end_ orig -> ~ covers s x) /\
      separated s' /\ r ∈ s' /\ start_ r <= start_ orig /\ end_ orig <= end_ r /\
      (forall x, covers s' x <-> covers s x \/ start_ orig <= x < end_ orig)
  end.
Proof.
  intros Hs Ho. unfold delete_range. destruct (RangeSet.lower_bound orig s) as [before after] eqn:E.
  apply lower_bound_spec in E as (-> & Hb & Ha); [|now apply separated_sorted].
  pose proof Hs as Hs'. rewrite separated_app in Hs. destruct Hs as (Hs1 & Hs2 & Hs3).
  pose proof (merge_prev_spec orig before Hs1 Ho Hb) as MP.
  assert (Hba : forall x y, covers before x -> covers after y -> x < y).
  { intros x y (r1 & H1 & ?)%Exists_exists (r2 & H2 & ?)%Exists_exists.
    rewrite Forall_forall in Hs3. specialize (Hs3 r1 H1). rewrite Forall_forall in Hs3. specialize (Hs3 r2 H2). lia. }
  assert (Hao : forall x, covers after x -> start_ orig <= x).
  { intros x (r2 & H2 & ?)%Exists_exists. rewrite Forall_forall in Ha. specialize (Ha r2 H2). cbn in Ha. lia. }
  destruct (merge_prev orig before) as [[[r before']|]|e]; cbn [res_bind].
  2:{ split; [done|]. intros x Hx. rewrite covers_app. left. auto. }
  2:{ destruct MP as (-> & (x & Hx & Cx) & p & Hp & Hy & Cy). split; [done|]. split.
      - exists x. rewrite covers_app. tauto.
      - exists (end_ p). rewrite covers_app. split; [done|]. intros [C|C]; [tauto|].
        rewrite Forall_forall in Hs3. pose proof (covers_after _ _ _ (Hs3 p Hp) C). lia. }
  destruct MP as (Er & Sr & NCb & Sb' & Fb' & Eb' & Cb').
  pose proof (merge_next_spec orig r after Hs2 Ho Er Sr Ha) as MN.
  destruct (merge_next orig r after) as [[[r' after']|]|e]; cbn [res_bind].
  - destruct MN as (Sr' & Er' & NCa & Sa' & Fa' & Ca').
    assert (Hne : start_ r' < end_ r') by lia.
    rewrite insert_middle; cycle 1.
    { eapply Forall_impl; [exact (proj2 (Forall_and _ _) (conj Fb' (separated_nonempty _ Sb')))|]. cbn. lia. }
    { eapply Forall_start_trans; [|exact Fa']. lia. }
    split; [intros x Hx; rewrite covers_app; intros [C|C]; [eapply NCb|eapply NCa]; eauto|].
    split; [|split; [set_solver|split; [lia|split; [lia|]]]].
    + apply separated_app. split; [done|]. split; [cbn; auto|].
      eapply Forall_impl; [exact Fb'|]. cbn. intros y Hy. constructor; [lia|].
      eapply Forall_start_trans; [|exact Fa']. lia.
    + intros x. rewrite covers_app, covers_cons, covers_app.
      specialize (Cb' x). specialize (Ca' x). rewrite Er in Cb'. rewrite Er in Ca'. tauto.
  - destruct MN as (Call & next & after' & -> & Hnext). split.
    + destruct Eb' as [->|(p & Hp & Ep)]; [done|].
      rewrite Forall_forall in Hs3. specialize (Hs3 p Hp). apply Forall_cons in Hs3 as [? _]. lia.
    + intros x Hx. rewrite covers_app. right. auto.
  - destruct MN as (-> & (x & Hx & Cx) & y & Hy & Cy). split; [done|]. split.
    + exists x. rewrite covers_app. tauto.
    + exists y. rewrite covers_app. split; [done|]. intros [C|C]; [|tauto]. eapply NCb; eauto.
Qed.
End deleted_ranges.

(** ** Where the bytes of a path are *)
(** A range of a separated set that covers a whole interval is that interval. *)
Lemma separated_apart s r1 r2 : separated s -> r1 ∈ s -> r2 ∈ s -> r1 = r2 \/ end_ r1 < start_ r2 \/ end_ r2 < start_ r1.
Proof.
  induction s as [|r s IH]; [intros _ []%not_elem_of_nil|]. intros (_ & Hf & Hs) H1 H2. rewrite Forall_forall in Hf.
  apply elem_of_cons in H1 as [->|H1]; apply elem_of_cons in H2 as [->|H2]; auto.
Qed.
Lemma whole_range s r size : separated s -> r ∈ s -> (forall x, covers s x <-> 0 <= x < size) -> start_ r = 0 /\ end_ r = size.
Proof.
  intros Hs Hr Hc. pose proof (separated_nonempty s Hs) as Hne. rewrite Forall_forall in Hne. specialize (Hne r Hr).
  assert (Hin : forall x, start_ r <= x < end_ r -> 0 <= x < size) by (intros x Hx; apply Hc, Exists_exists; eauto).
  assert (Hout : forall x, 0 <= x < size -> x = start_ r - 1 \/ x = end_ r -> False).
  { intros x Hx Hor. apply Hc, Exists_exists in Hx as (r2 & H2 & Hx). destruct (separated_apart s r r2 Hs Hr H2) as [<-|]; lia. }
  pose proof (Hin (start_ r) ltac:(lia)). pose proof (Hin (end_ r - 1) ltac:(lia)).
  destruct (decide (start_ r = 0)); [|destruct (Hout (start_ r - 1)); lia]. destruct (decide (end_ r = size)); [done|destruct (Hout (end_ r)); lia].
Qed.

Lemma align_up_spec n : 0 <= n < 2 ^ 63 -> n <= align_up n < n + 8 /\ align_up n mod 8 = 0.
Proof.
  intros H. unfold align_up, ObjAlignment. rewrite wrap_id by (unfold unsigned_range; lia).
  change (8 - 1) with (Z.ones 3). rewrite Z.ldiff_ones_r by lia.
  rewrite Z.shiftl_mul_pow2, Z.shiftr_div_pow2 by lia. change (2 ^ 3) with 8.
  rewrite Z_mod_mult. pose proof (Z.div_mod (n + 8 - 1) 8 ltac:(lia)).
  pose proof (Z.mod_pos_bound (n + 8 - 1) 8 ltac:(lia)). lia.
Qed.

Section storage.
Import PersistenceManager.
Variable UUID : nat -> string.

(** Documented behaviour of the UUID generator: keys are distinct, and none of them is
    the empty string or the reserved key. *)
Class UUIDLaws : Prop := {
  UUID_inj : forall i j, UUID i = UUID j -> i = j;
  UUID_not_reserved : forall i, UUID i <> KeyEmpty /\ UUID i <> ""%string;
}.

Definition region_ok (pm : t) (addr : ObjAddr) : Prop :=
  obj_key_ addr = KeyEmpty \/
  exists f, workspace_ pm !! obj_key_ addr = Some f /\
    0 <= part_offset_ addr /\ 0 <= part_size_ addr /\
    part_offset_ addr + part_size_ addr <= Z.of_nat (length f).

Record wf (pm : t) : Prop := {
  wf_limit : 0 < object_size_limit_ pm < 2 ^ 31;
  wf_current : exists c, (c < uuid_count_ pm)%nat /\ current_object_key_ pm = UUID c;
  wf_fresh : forall n, (uuid_count_ pm <= n)%nat -> workspace_ pm !! UUID n = None /\ objects_ pm !! UUID n = None;
  wf_unsealed : objects_ pm !! current_object_key_ pm = None;
  wf_size : Z.of_nat (length (default [] (workspace_ pm !! current_object_key_ pm))) = current_object_size_ pm;
  wf_bound : current_object_size_ pm < object_size_limit_ pm;
  wf_regions : forall p addr, local_path_obj_ pm !! p = Some addr -> region_ok pm addr;
}.

(** The workspace only grows: every object file keeps its bytes as a prefix. *)
Definition ws_grows (pm pm' : t) : Prop :=
  forall k f, workspace_ pm !! k = Some f -> exists g, workspace_ pm' !! k = Some (f ++ g).

Lemma ws_grows_refl pm : ws_grows pm pm.
Proof. intros k f H. exists []. now rewrite app_nil_r. Qed.

Lemma ws_grows_trans a b c : ws_grows a b -> ws_grows b c -> ws_grows a c.
Proof.
  intros H1 H2 k f H. destruct (H1 k f H) as [g Hg]. destruct (H2 _ _ Hg) as [h Hh].
  exists (g ++ h). now rewrite app_assoc.
Qed.

Lemma region_grows pm pm' addr : ws_grows pm pm' -> region_ok pm addr -> region_ok pm' addr.
Proof.
  intros G [H|(f & H & ? & ? & ?)]; [now left|]. right. destruct (G _ _ H) as [g Hg].
  exists (f ++ g). rewrite length_app. repeat split; auto; lia.
Qed.

(** A path keeps its bytes when the workspace grows and its address stays. *)
Lemma stored_grows pm pm' p :
  ws_grows pm pm' -> local_path_obj_ pm' !! p = local_path_obj_ pm !! p ->
  (forall addr, local_path_obj_ pm !! p = Some addr -> region_ok pm addr) ->
  stored pm' p = stored pm p.
Proof.
  intros G E R. unfold stored, read_at. rewrite E. destruct (local_path_obj_ pm !! p) as [addr|]; [|done].
  destruct (String.eqb_spec (obj_key_ addr) KeyEmpty); [done|].
  destruct (R addr eq_refl) as [?|(f & H & ? & ? & ?)]; [done|].
  destruct (G _ _ H) as [g ->]. rewrite H. f_equal.
  rewrite drop_app_le by lia. apply take_app_le. rewrite length_drop. lia.
Qed.

Context `{UUIDLaws}.

Lemma current_not_empty pm : wf pm -> current_object_key_ pm <> KeyEmpty.
Proof. intros W. destruct (wf_current _ W) as (c & _ & ->). apply UUID_not_reserved. Qed.

Lemma finalize_spec keys pm :
  wf pm ->
  exists keys' pm', CurrentObjFinalizeNoLock UUID keys pm = Ok (keys', pm') /\
    wf pm' /\ ws_grows pm pm' /\
    local_path_obj_ pm' = local_path_obj_ pm /\ tmp_files_ pm' = tmp_files_ pm /\
    local_data_dir_ pm' = local_data_dir_ pm /\ object_size_limit_ pm' = object_size_limit_ pm /\
    current_object_size_ pm' = 0 /\
    (0 < current_object_size_ pm ->
       objects_ pm' !! current_object_key_ pm =
         Some (ObjStat.make (current_object_size_ pm) (current_object_parts_ pm) (current_object_ref_count_ pm))).
Proof.
  intros W. unfold CurrentObjFinalizeNoLock. pose proof W as [Wl Wc Wf Wu Ws Wb Wr].
  destruct (0 <? current_object_size_ pm) eqn:C.
  2:{ exists keys, pm. split_and!; auto using ws_grows_refl; try lia. }
  set (pm1 := if 1 <? current_object_parts_ pm then _ else pm).
  assert (G : ws_grows pm pm1).
  { subst pm1. destruct (1 <? _); [|apply ws_grows_refl]. intros k f Hk. cbn.
    destruct (decide (k = current_object_key_ pm)) as [->|].
    - rewrite lookup_insert_eq, Hk. cbn. eauto.
    - rewrite lookup_insert_ne by done. exists []. now rewrite app_nil_r. }
  assert (E : objects_ pm1 = objects_ pm /\ local_path_obj_ pm1 = local_path_obj_ pm /\
              tmp_files_ pm1 = tmp_files_ pm /\ uuid_count_ pm1 = uuid_count_ pm /\
              current_object_size_ pm1 = current_object_size_ pm /\
              current_object_parts_ pm1 = current_object_parts_ pm /\
              current_object_ref_count_ pm1 = current_object_ref_count_ pm /\
              local_data_dir_ pm1 = local_data_dir_ pm /\ object_size_limit_ pm1 = object_size_limit_ pm).
  { subst pm1. now destruct (1 <? _). }
  assert (F : forall n, (uuid_count_ pm <= n)%nat -> workspace_ pm1 !! UUID n = None).
  { intros n Hn. subst pm1. destruct (1 <? _); [|now apply Wf]. cbn.
    destruct Wc as (c & Hc & ->). rewrite lookup_insert_ne; [now apply Wf|]. intros Ei%UUID_inj. lia. }
  destruct E as (E1 & E2 & E3 & E4 & E5 & E6 & E7 & E8 & E9).
  unfold LocalStorage.PutNew. rewrite E1, Wu. cbn. eexists _, _. split; [reflexivity|]. cbn.
  rewrite E2, E3, E4, E5, E6, E7, E8, E9.
  split_and!; auto; [|intros _; now rewrite lookup_insert_eq].
  constructor; cbn; rewrite ?E1, ?E2, ?E4, ?E9; auto; try lia.
  - eauto with lia.
  - intros n Hn. split; [apply F; lia|].
    rewrite lookup_insert_ne; [apply Wf; lia|]. destruct Wc as (c & Hc & ->). intros Ei%UUID_inj. lia.
  - rewrite lookup_insert_ne; [apply Wf; lia|]. destruct Wc as (c & Hc & ->). intros Ei%UUID_inj. lia.
  - rewrite F by lia. done.
  - intros p addr Hp. eapply region_grows; [|eapply Wr; eauto]. exact G.
Qed.

(** What every internal step keeps: the invariant, the stored bytes, the path map, the
    files outside the workspace and the configuration. *)
Record frame (pm pm' : t) : Prop := {
  frame_wf : wf pm';
  frame_ws : ws_grows pm pm';
  frame_paths : local_path_obj_ pm' = local_path_obj_ pm;
  frame_tmp : tmp_files_ pm' = tmp_files_ pm;
  frame_dir : local_data_dir_ pm' = local_data_dir_ pm;
  frame_limit : object_size_limit_ pm' = object_size_limit_ pm;
}.

Lemma frame_refl pm : wf pm -> frame pm pm.
Proof. constructor; auto using ws_grows_refl. Qed.

Lemma frame_trans a b c : frame a b -> frame b c -> frame a c.
Proof. intros [] []. constructor; eauto using ws_grows_trans; congruence. Qed.

(** Changing the status of a sealed object. *)
Lemma frame_objects pm key s :
  wf pm -> objects_ pm !! key = Some s ->
  forall o, o = delete key (objects_ pm) \/ (exists s', o = <[key := s']> (objects_ pm)) ->
  frame pm (set_objects o pm).
Proof.
  intros [Wl Wc Wf Wu Ws Wb Wr] Hk o Ho.
  assert (N : forall k, objects_ pm !! k = None -> o !! k = None).
  { intros k Hn. assert (key <> k) by congruence.
    destruct Ho as [->|[s' ->]]; [now rewrite lookup_delete_ne|now rewrite lookup_insert_ne]. }
  constructor; cbn; auto; [|exact (ws_grows_refl pm)].
  constructor; cbn; auto. intros n Hn. destruct (Wf n Hn). auto.
Qed.

Lemma cleanup_object_frame addr c s r pm r' pm' :
  wf pm -> objects_ pm !! obj_key_ addr = Some s ->
  CleanupObject addr c s r pm = Ok (r', pm') -> frame pm pm'.
Proof.
  intros W Hs E. unfold CleanupObject in E. res_inv.
  destruct x as [ins rs]. cbv beta iota zeta in E. set (pm1 := set_objects _ pm) in E.
  assert (F : frame pm pm1) by (eapply frame_objects; eauto).
  destruct ins as [range|]; [|now injection E as <- <-].
  destruct (_ && _) in E; [|now injection E as <- <-].
  destruct (String.eqb _ _) in E; [discriminate|]. destruct (_ && _) in E; [discriminate|].
  injection E as <- <-.
  eapply frame_trans; [exact F|].
  eapply frame_objects; [apply F| |left; reflexivity]. cbn. apply lookup_insert_eq.
Qed.

Lemma cleanup_frame addr c r pm r' pm' :
  wf pm -> CleanupNoLock UUID addr c r pm = Ok (r', pm') -> frame pm pm'.
Proof.
  intros W E. unfold CleanupNoLock, LocalStorage.GetNoCount in E.
  destruct (objects_ pm !! obj_key_ addr) as [s|] eqn:Hs; [eauto using cleanup_object_frame|].
  destruct (String.eqb _ KeyEmpty) in E; [injection E as <- <-; now apply frame_refl|].
  destruct (String.eqb _ _) in E; [|discriminate].
  destruct (finalize_spec (persist_keys_ r) pm W) as (keys & pm1 & E1 & W1 & G & P1 & P2 & P3 & P4 & _).
  rewrite E1 in E. cbn in E.
  destruct (objects_ pm1 !! obj_key_ addr) as [s|] eqn:Hs1; [|discriminate].
  eapply frame_trans; [|eauto using cleanup_object_frame]. now constructor.
Qed.

(** Appending a file to the current object: the bytes end up at the aligned offset. *)
Lemma append_spec tmp content pm :
  wf pm -> tmp_files_ pm !! tmp = Some content ->
  align_up (current_object_size_ pm) + Z.of_nat (length content) < object_size_limit_ pm ->
  let off := align_up (current_object_size_ pm) in
  let pm0 := set_current (current_object_key_ pm) off (current_object_parts_ pm) (current_object_ref_count_ pm) pm in
  exists pm' f, CurrentObjAppendNoLock tmp (Z.of_nat (length content)) pm0 = Ok pm' /\ frame pm pm' /\
    current_object_key_ pm' = current_object_key_ pm /\
    workspace_ pm' !! current_object_key_ pm = Some (f ++ content) /\ Z.of_nat (length f) = off.
Proof.
  intros W Ht Hl off pm0. unfold CurrentObjAppendNoLock. cbn. rewrite Ht.
  pose proof W as [Wl Wc Wf Wu Ws Wb Wr].
  destruct (align_up_spec (current_object_size_ pm)) as [A _]; [lia|]. fold off in A, Hl |- *.
  rewrite wrap_id by (unfold unsigned_range; lia). rewrite (proj2 (Z.leb_gt _ _)) by lia.
  set (dst0 := default [] (workspace_ pm !! current_object_key_ pm)) in *.
  set (dst := if Z.of_nat (length dst0) <? off then _ else dst0).
  assert (Hd : exists pad, dst = dst0 ++ pad /\ Z.of_nat (length dst) = off).
  { subst dst. destruct (_ <? _) eqn:C.
    - eexists. split; [reflexivity|]. rewrite length_app, length_replicate. lia.
    - exists []. rewrite app_nil_r. split; [done|lia]. }
  destruct Hd as (pad & Hd & Hlen).
  eexists _, dst. split; [reflexivity|]. cbn.
  assert (G : ws_grows pm (set_files (<[current_object_key_ pm:=dst ++ content]> (workspace_ pm)) (tmp_files_ pm) pm)).
  { intros k f Hk. cbn. destruct (decide (k = current_object_key_ pm)) as [->|].
    - rewrite lookup_insert_eq. exists (pad ++ content). rewrite app_assoc. do 2 f_equal.
      rewrite Hd. subst dst0. now rewrite Hk.
    - rewrite lookup_insert_ne by done. exists []. now rewrite app_nil_r. }
  split; [|now rewrite lookup_insert_eq].
  constructor; cbn; auto. constructor; cbn; auto; try lia.
  - intros n Hn. split; [|now apply Wf].
    destruct Wc as (c & Hc & ->). rewrite lookup_insert_ne; [now apply Wf|]. intros Ei%UUID_inj. lia.
  - rewrite lookup_insert_eq. cbn. rewrite length_app. lia.
  - intros p addr Hp. eapply region_grows; [exact G|eapply Wr; eauto].
Qed.

Lemma append_over_limit tmp content pm :
  wf pm -> tmp_files_ pm !! tmp = Some content -> Z.of_nat (length content) < object_size_limit_ pm ->
  object_size_limit_ pm <= align_up (current_object_size_ pm) + Z.of_nat (length content) ->
  CurrentObjAppendNoLock tmp (Z.of_nat (length content))
    (set_current (current_object_key_ pm) (align_up (current_object_size_ pm)) (current_object_parts_ pm)
       (current_object_ref_count_ pm) pm) = Err Unrecoverable.
Proof.
  intros [Wl _ _ _ Ws Wb _] Ht Hs Hl. unfold CurrentObjAppendNoLock. cbn. rewrite Ht.
  destruct (align_up_spec (current_object_size_ pm)) as [A _]; [lia|].
  rewrite wrap_id by (unfold unsigned_range; lia). now rewrite (proj2 (Z.leb_le _ _)) by lia.
Qed.

(** The path map and the files outside the workspace after a file has been stored at
    [addr], whose region holds [content]. *)
Lemma stored_at pm pm1 lp tmp addr content :
  frame pm pm1 ->
  (obj_key_ addr = KeyEmpty /\ content = [] \/
   obj_key_ addr <> KeyEmpty /\ exists f g, workspace_ pm1 !! obj_key_ addr = Some (f ++ content ++ g) /\
     part_offset_ addr = Z.of_nat (length f) /\ part_size_ addr = Z.of_nat (length content)) ->
  wf pm ->
  let pm' := set_paths (<[lp := addr]> (local_path_obj_ pm1))
               (set_files (workspace_ pm1) (delete tmp (tmp_files_ pm1)) pm1) in
  stored pm' lp = Some content /\ (forall p, p <> lp -> stored pm' p = stored pm p) /\
  tmp_files_ pm' !! tmp = None /\ wf pm'.
Proof.
  intros F Ha W pm'.
  assert (S : stored pm' lp = Some content).
  { unfold stored, read_at. cbn. rewrite lookup_insert_eq. destruct Ha as [[-> ->]|(Hn & f & g & -> & -> & ->)]; [done|].
    destruct (String.eqb_spec (obj_key_ addr) KeyEmpty); [done|].
    now rewrite !Nat2Z.id, drop_app_length, take_app_length. }
  split; [exact S|]. split; [|split; [cbn; apply lookup_delete_eq|]].
  - intros p Hp. apply stored_grows; [exact (frame_ws _ _ F)|cbn|].
    + rewrite lookup_insert_ne by done. now rewrite (frame_paths _ _ F).
    + apply W.
  - destruct (frame_wf _ _ F) as [Wl Wc Wf Wu Ws Wb Wr]. constructor; cbn; auto.
    intros p a. destruct (decide (p = lp)) as [->|].
    + rewrite lookup_insert_eq. intros [= <-].
      destruct Ha as [[? ?]|(Hn & f & g & Hw & Ho & Hs)]; [now left|]. right.
      exists (f ++ content ++ g). rewrite !length_app. split; [done|]. lia.
    + rewrite lookup_insert_ne by done. intros Hp. exact (Wr _ _ Hp).
Qed.

Lemma dedicated_spec lp tmp content r pm :
  wf pm -> content <> [] ->
  exists r' pm', persist_dedicated UUID lp tmp content (Z.of_nat (length content)) r pm = Ok (r', pm') /\
  local_path_obj_ pm' !! lp = Some (w_obj_addr_ r') /\ stored pm' lp = Some content /\ (forall p, p <> lp -> stored pm' p = stored pm p) /\
  tmp_files_ pm' !! tmp = None /\ wf pm'.
Proof.
  intros W Hc. unfold persist_dedicated, ObjCreate. cbn.
  pose proof W as [Wl Wc Wf Wu Ws Wb Wr]. set (key := UUID (uuid_count_ pm)).
  destruct (Wf (uuid_count_ pm) ltac:(lia)) as [Fw Fo]. fold key in Fw, Fo.
  unfold LocalStorage.PutNew. rewrite Fo. cbn. eexists _, _. split; [reflexivity|]. split; [apply lookup_insert_eq|].
  set (pm1 := set_objects (<[key := ObjStat.set_cached kCached (ObjStat.make (Z.of_nat (length content)) 1 0)]> (objects_ pm))
    (set_files (<[key := content]> (workspace_ pm)) (tmp_files_ pm) (set_uuid_count (S (uuid_count_ pm)) pm))).
  assert (Hcur : key <> current_object_key_ pm).
  { destruct Wc as (c & Hc' & ->). intros Ei%UUID_inj. lia. }
  assert (F : frame pm pm1).
  { assert (G : ws_grows pm pm1).
    { intros k f Hk. cbn. rewrite lookup_insert_ne by congruence. exists []. now rewrite app_nil_r. }
    constructor; cbn; auto. constructor; cbn; auto.
    - destruct Wc as (c & ? & ?). exists c. split; [lia|done].
    - intros n Hn. rewrite !lookup_insert_ne by (intros Ei%UUID_inj; lia). apply Wf. lia.
    - now rewrite lookup_insert_ne.
    - now rewrite lookup_insert_ne.
    - intros p a Hp. eapply region_grows; [exact G|eauto]. }
  apply (stored_at pm pm1 lp tmp (mkObjAddr key 0 (Z.of_nat (length content))) content F); [|done].
  right. split; [apply UUID_not_reserved|]. exists [], []. cbn. rewrite lookup_insert_eq, app_nil_r. done.
Qed.

Lemma composed_spec lp tmp content r pm :
  wf pm -> tmp_files_ pm !! tmp = Some content -> 0 < Z.of_nat (length content) < object_size_limit_ pm ->
  (persist_composed UUID lp tmp (Z.of_nat (length content)) r pm = Err Unrecoverable /\
   current_object_size_ pm + Z.of_nat (length content) < object_size_limit_ pm <=
     align_up (current_object_size_ pm) + Z.of_nat (length content)) \/
  (exists r' pm', persist_composed UUID lp tmp (Z.of_nat (length content)) r pm = Ok (r', pm') /\
   ~ (current_object_size_ pm + Z.of_nat (length content) < object_size_limit_ pm <=
     align_up (current_object_size_ pm) + Z.of_nat (length content)) /\
   local_path_obj_ pm' !! lp = Some (w_obj_addr_ r') /\ stored pm' lp = Some content /\ (forall p, p <> lp -> stored pm' p = stored pm p) /\
   tmp_files_ pm' !! tmp = None /\ wf pm').
Proof.
  intros W Ht Hl. unfold persist_composed, CurrentObjRoomNoLock.
  pose proof (wf_limit _ W) as Wl. pose proof (wf_size _ W) as Ws. pose proof (wf_bound _ W) as Wb.
  rewrite !(swrap_id 32) by (try lia; unfold signed_range; try rewrite !(swrap_id 32); try lia; unfold signed_range; lia).
  assert (Fin : forall pm1, frame pm pm1 ->
    align_up (current_object_size_ pm1) + Z.of_nat (length content) < object_size_limit_ pm1 ->
    forall keys, exists r' pm',
    (let pm2 := set_current (current_object_key_ pm1) (align_up (current_object_size_ pm1))
              (current_object_parts_ pm1) (current_object_ref_count_ pm1) pm1 in
     let? pm3 := CurrentObjAppendNoLock tmp (Z.of_nat (length content)) pm2 in
     let pm3 := set_files (workspace_ pm3) (delete tmp (tmp_files_ pm3)) pm3 in
     let addr := mkObjAddr (current_object_key_ pm2) (current_object_size_ pm2) (Z.of_nat (length content)) in
     Ok (mkWriteResult addr keys (drop_keys_ r) (drop_from_remote_keys_ r),
         set_paths (<[lp := addr]> (local_path_obj_ pm3)) pm3)) = Ok (r', pm') /\
    local_path_obj_ pm' !! lp = Some (w_obj_addr_ r') /\ stored pm' lp = Some content /\ (forall p, p <> lp -> stored pm' p = stored pm p) /\
    tmp_files_ pm' !! tmp = None /\ wf pm').
  { intros pm1 F Hlt keys. rewrite <- (frame_tmp _ _ F) in Ht.
    destruct (append_spec tmp content pm1 (frame_wf _ _ F) Ht Hlt) as (pm3 & f & E & F3 & Hk & Hw & Hf).
    cbn zeta. rewrite E. cbn [res_bind]. eexists _, _. split; [reflexivity|]. split; [apply lookup_insert_eq|].
    apply (stored_at pm pm3 lp tmp (mkObjAddr (current_object_key_ pm1) (align_up (current_object_size_ pm1))
      (Z.of_nat (length content))) content); [exact (frame_trans _ _ _ F F3)| |done].
    right. cbn. split; [apply (current_not_empty _ (frame_wf _ _ F))|].
    exists f, []. now rewrite app_nil_r. }
  destruct (object_size_limit_ pm - current_object_size_ pm <=? Z.of_nat (length content)) eqn:C.
  - destruct (finalize_spec (persist_keys_ r) pm W) as (keys & pm1 & E1 & W1 & G & P1 & P2 & P3 & P4 & P5 & _).
    rewrite E1. cbn [res_bind]. right.
    destruct (Fin pm1) with (keys := keys) as (r' & pm' & E & Rest).
    + now constructor.
    + rewrite P5, P4. change (align_up 0) with 0. lia.
    + exists r', pm'. split; [exact E|]. split; [lia|exact Rest].
  - cbn [res_bind].
    destruct (Z.le_gt_cases (object_size_limit_ pm) (align_up (current_object_size_ pm) + Z.of_nat (length content))) as [Ho|Ho].
    + left. cbn zeta. rewrite append_over_limit by (auto; lia). split; [done|lia].
    + right. destruct (Fin pm (frame_refl _ W) ltac:(lia) (persist_keys_ r)) as (r' & pm' & E & Rest).
      exists r', pm'. split; [exact E|]. split; [lia|exact Rest].
Qed.
End storage.

(** ** Properties *)
Section properties.
Import PersistenceManager.
Variable UUID : nat -> string.
Context `{L : !UUIDLaws UUID}.

(** C11. Read your writes: when [Persist] returns, the address in its result is the one recorded for
    the path, the bytes at it are exactly the bytes of the temporary file, every other path
    still reads as before, the temporary file is gone and the manager's invariant holds again. *)
Theorem persist_stores_file (file_path tmp : string) (try_compose : bool) (pm pm' : t)
    (r : PersistWriteResult) (content : bytes) :
  wf UUID pm -> tmp_files_ pm !! tmp = Some content ->
  Persist UUID file_path tmp try_compose pm = Ok (r, pm') ->
  let lp := RemovePrefix file_path pm in
  read_at pm' (w_obj_addr_ r) = Some content /\ local_path_obj_ pm' !! lp = Some (w_obj_addr_ r) /\
  stored pm' lp = Some content /\ (forall p, p <> lp -> stored pm' p = stored pm p) /\
  tmp_files_ pm' !! tmp = None /\ wf UUID pm'.
Proof.
  intros W Ht E lp. unfold Persist in E. fold lp in E.
  destruct (String.eqb lp ""); [discriminate|]. apply res_bind_Ok in E as ([r1 pm1] & E1 & E).
  assert (F : frame UUID pm pm1).
  { destruct (local_path_obj_ pm !! lp); [eauto using cleanup_frame|].
    injection E1 as <- <-. now apply frame_refl. }
  pose proof (frame_wf _ _ _ F) as W1. rewrite <- (frame_tmp _ _ _ F) in Ht. rewrite Ht in E.
  enough (local_path_obj_ pm' !! lp = Some (w_obj_addr_ r) /\ stored pm' lp = Some content /\
          (forall p, p <> lp -> stored pm' p = stored pm1 p) /\ tmp_files_ pm' !! tmp = None /\ wf UUID pm') as (S0 & S1 & S2 & S3 & S4).
  { split; [unfold stored in S1; now rewrite S0 in S1|]. split; [done|]. split; [done|]. split; [|done]. intros p Hp. rewrite S2 by done.
    apply stored_grows; [apply (frame_ws _ _ _ F)|now rewrite (frame_paths _ _ _ F)|apply W]. }
  destruct (Z.of_nat (length content) =? 0) eqn:Z0.
  { injection E as <- <-. destruct content; [|discriminate]. split; [apply lookup_insert_eq|].
    apply (stored_at UUID pm1 pm1 lp tmp (mkObjAddr KeyEmpty 0 0) []); auto using frame_refl. }
  destruct (_ || _) eqn:Hb.
  - destruct (dedicated_spec UUID lp tmp content r1 pm1 W1) as (r' & pm2 & E2 & R); [now intros ->|].
    rewrite E2 in E. now injection E as <- <-.
  - apply orb_false_iff in Hb as [_ Hb].
    destruct (composed_spec UUID lp tmp content r1 pm1 W1 Ht ltac:(lia)) as [[E2 _]|(r' & pm2 & E2 & _ & R)];
      rewrite E2 in E; [discriminate|now injection E as <- <-].
Qed.

(** When a new, non-empty file below the object size limit is composed, [Persist] fails
    exactly when the file fits in the room left of the current object but no longer fits
    once the offset has been aligned to 8 bytes: the room check ignores the padding that
    the append then adds. In every other case it succeeds. *)
Theorem persist_composed_fails_iff (file_path tmp : string) (pm : t) (content : bytes) :
  wf UUID pm -> RemovePrefix file_path pm <> ""%string ->
  local_path_obj_ pm !! RemovePrefix file_path pm = None ->
  tmp_files_ pm !! tmp = Some content -> 0 < Z.of_nat (length content) < object_size_limit_ pm ->
  let fits := current_object_size_ pm + Z.of_nat (length content) < object_size_limit_ pm in
  let fits_aligned := align_up (current_object_size_ pm) + Z.of_nat (length content) < object_size_limit_ pm in
  (Persist UUID file_path tmp true pm = Err Unrecoverable <-> fits /\ ~ fits_aligned) /\
  ((exists r pm', Persist UUID file_path tmp true pm = Ok (r, pm')) <-> ~ fits \/ fits_aligned).
Proof.
  intros W Hne Hnew Ht Hl fits fits_aligned. unfold Persist.
  rewrite (proj2 (String.eqb_neq _ _) Hne), Hnew. cbn [res_bind]. rewrite Ht.
  rewrite (proj2 (Z.eqb_neq _ _)) by lia. cbn [negb orb]. rewrite (proj2 (Z.leb_gt _ _)) by lia.
  subst fits fits_aligned.
  destruct (composed_spec UUID (RemovePrefix file_path pm) tmp content write_result0 pm W Ht Hl)
    as [[-> C]|(r & pm' & -> & C & _)].
  - split; split.
    + lia.
    + done.
    + intros (? & ? & [=]).
    + lia.
  - split; split.
    + done.
    + lia.
    + lia.
    + eauto.
Qed.

(** C15. Deleting a part of a sealed object whose deleted ranges are separated. The call is
    refused only for a range that is partly deleted already, for an object that is still
    referenced (when the caller asks for the check) or an empty key. Otherwise the object's
    deleted bytes grow by exactly the aligned part and stay a set of separated ranges. The
    object is dropped and its key reported only when all its bytes are now deleted and it is not
    the current object; and when all ranges lie in the object, it is dropped whenever this holds
    and the part was not deleted before. *)
Theorem cleanup_deletes_exactly (addr : ObjAddr) (chk : bool) (r : PersistWriteResult) (pm : t) (s : ObjStat) :
  objects_ pm !! obj_key_ addr = Some s -> separated (deleted_ranges_ s) ->
  0 <= part_offset_ addr -> 0 < part_size_ addr -> part_offset_ addr + part_size_ addr < 2 ^ 63 ->
  let part x := part_offset_ addr <= x < align_up (part_offset_ addr + part_size_ addr) in
  let gone x := covers (deleted_ranges_ s) x \/ part x in
  let inside x := 0 <= x < align_up (obj_size_ s) in
  match CleanupNoLock UUID addr chk r pm with
  | Err e =>
      e = Unrecoverable /\
      ((exists x, part x /\ covers (deleted_ranges_ s) x) /\ (exists x, part x /\ ~ covers (deleted_ranges_ s) x) \/
       chk = true /\ 0 < ref_count_ s \/ obj_key_ addr = ""%string)
  | Ok (r', pm') =>
      match objects_ pm' !! obj_key_ addr with
      | Some s' => r' = r /\ separated (deleted_ranges_ s') /\
          (forall x, covers (deleted_ranges_ s') x <-> gone x) /\
          ((forall x, gone x <-> inside x) -> obj_key_ addr = current_object_key_ pm \/ forall x, part x -> covers (deleted_ranges_ s) x)
      | None => drop_from_remote_keys_ r' = drop_from_remote_keys_ r ++ [obj_key_ addr] /\
          (forall x, inside x -> gone x) /\ obj_key_ addr <> current_object_key_ pm
      end
  end.
Proof.
  intros Hs Sep Ho Hp Hlt part gone inside. unfold CleanupNoLock, LocalStorage.GetNoCount. rewrite Hs.
  unfold CleanupObject. rewrite (wrap_id 64) by (unfold unsigned_range; lia).
  destruct (align_up_spec (part_offset_ addr + part_size_ addr)) as [A _]; [lia|].
  set (orig := mkRange _ _). pose proof (delete_range_spec orig _ Sep) as D. cbn [start_ end_ orig] in D.
  specialize (D ltac:(lia)). destruct (delete_range _ _) as [[[range|] rs]|e]; cbn [res_bind].
  - destruct D as (Dn & Dsep & Din & D1 & D2 & Dc).
    destruct (_ && _) eqn:Hdrop; cbn.
    + apply andb_prop in Hdrop as [Hr Hcur]. apply andb_prop in Hr as [Hr0 Hr1].
      destruct (String.eqb_spec (obj_key_ addr) ""); [auto|].
      destruct (chk && (0 <? ref_count_ s)) eqn:Hc.
      { apply andb_prop in Hc as [-> Hc]. split; [done|right; left; split; [done|lia]]. }
      cbn. rewrite lookup_delete_eq. split; [done|]. split.
      * intros x Hx. apply Dc, Exists_exists. exists range. split; [done|]. unfold inside in Hx. lia.
      * cbn in Hcur. now destruct (String.eqb_spec (obj_key_ addr) (current_object_key_ pm)).
    + rewrite lookup_insert_eq. cbn. split_and!; try done. intros Hall. left.
      destruct (whole_range rs range (align_up (obj_size_ s)) Dsep Din) as [R0 R1]; [intros x; rewrite Dc; apply Hall|].
      rewrite R0, R1, !Z.eqb_refl in Hdrop. cbn in Hdrop. now destruct (String.eqb_spec (obj_key_ addr) (current_object_key_ pm)).
  - destruct D as [-> D]. cbn. rewrite lookup_insert_eq. cbn. split_and!; [done..| |auto].
    intros x. split; [now left|]. intros [?|?]; auto.
  - destruct D as (-> & D1 & D2). auto.
Qed.

(** Reference counting: releasing a path right after acquiring it restores the
    manager's state exactly, for a path whose object file is on local disk. *)
Theorem put_after_get_restores (file_path : string) (pm pm1 : t) (a addr : ObjAddr) :
  local_path_obj_ pm !! RemovePrefix file_path pm = Some a ->
  (forall s, objects_ pm !! obj_key_ a = Some s -> 0 <= ref_count_ s < 2 ^ 64 - 1) ->
  0 <= current_object_ref_count_ pm < 2 ^ 64 - 1 ->
  GetObjCache file_path pm = Ok (addr, None, pm1) ->
  addr = a /\ PutObjCache file_path pm1 = Ok pm.
Proof.
  intros Ha Hr Hc E. unfold GetObjCache in E. rewrite Ha in E.
  destruct (String.eqb (RemovePrefix file_path pm) "") eqn:E0; [discriminate|].
  destruct (part_size_ a =? 0) eqn:E1.
  { destruct (String.eqb (obj_key_ a) KeyEmpty); [|discriminate]. injection E as <- <-. split; [done|].
    unfold PutObjCache. now rewrite E0, Ha, E1. }
  unfold LocalStorage.Get in E. destruct (objects_ pm !! obj_key_ a) as [s|] eqn:Hs.
  - specialize (Hr s eq_refl). destruct (workspace_ pm !! obj_key_ a); [|discriminate].
    injection E as <- <-. split; [done|]. unfold PutObjCache.
    change (RemovePrefix file_path (set_objects _ pm)) with (RemovePrefix file_path pm).
    cbn. rewrite E0, Ha, E1. unfold LocalStorage.Release. rewrite lookup_insert_eq. cbn.
    rewrite wrap_id by (unfold unsigned_range; lia). rewrite (proj2 (Z.leb_gt _ _)) by lia. cbn.
    rewrite insert_insert_eq. replace (ref_count_ s + 1 - 1) with (ref_count_ s) by lia.
    replace (ObjStat.set_ref_count (ref_count_ s) _) with s by now destruct s.
    rewrite insert_id by done. now destruct pm.
  - destruct (String.eqb (obj_key_ a) (current_object_key_ pm)) eqn:E2; [|discriminate].
    injection E as <- <-. split; [done|]. unfold PutObjCache.
    change (RemovePrefix file_path (set_current _ _ _ _ pm)) with (RemovePrefix file_path pm).
    cbn. rewrite E0, Ha, E1. unfold LocalStorage.Release. rewrite Hs. cbn. rewrite E2. cbn.
    rewrite wrap_id by (unfold unsigned_range; lia). rewrite (proj2 (Z.leb_gt _ _)) by lia.
    replace (current_object_ref_count_ pm + 1 - 1) with (current_object_ref_count_ pm) by lia. now destruct pm.
Qed.
End properties.

(** ** Concrete runs *)
Section witnesses.
Import PersistenceManager.

(** A key generator that satisfies the laws: the n-th key is the letter [k] n + 1 times. *)
Fixpoint unary_key (n : nat) : string :=
  match n with O => "k"%string | S n => String.String "k"%char (unary_key n) end.

#[export] Instance unary_key_laws : UUIDLaws unary_key.
Proof.
  split.
  - induction i as [|i IH]; intros [|j]; cbn; try done.
    + intros [= E]. now destruct j.
    + intros [= E]. now destruct i.
    + intros [= E]. f_equal. now apply IH.
  - intros [|i]; split; discriminate.
Qed.

(** The constructor establishes the invariant. *)
Lemma make_wf UUID `{!UUIDLaws UUID} dir limit files tmp :
  0 < limit < 2 ^ 31 -> (forall n, files !! UUID n = None) ->
  wf UUID (make UUID dir limit files tmp).
Proof.
  intros Hl Hf. assert (N : forall n, <[KeyEmpty := []]> files !! UUID n = None).
  { intros n. rewrite lookup_insert_ne; [apply Hf|]. intros E.
    destruct (UUID_not_reserved UUID n) as [E' _]. congruence. }
  constructor; cbn; auto; try lia.
  - exists 0%nat. split; [lia|done].
  - now rewrite N.
  - intros p addr. rewrite lookup_empty. discriminate.
Qed.

Definition demo_content : bytes := [Byte.x61; Byte.x62; Byte.x63; Byte.x64; Byte.x65].
Definition demo_pm (limit : Z) (content2 : bytes) : t :=
  make unary_key "data" limit ∅ (<["t1"%string := demo_content]> {["t2"%string := content2]}).
(** A state whose current object holds one file of five bytes. *)
Definition demo_pm1 (limit : Z) (content2 : bytes) : t :=
  mk "data/" limit ∅ {["f1"%string := mkObjAddr "k" 0 5]} "k" 5 1 0 {["k"%string := demo_content]}
     {["t2"%string := content2]} 1.

Lemma demo_pm1_wf limit content2 : 5 < limit < 2 ^ 31 -> wf unary_key (demo_pm1 limit content2).
Proof.
  intros Hl. constructor; cbn; try lia; try reflexivity.
  - exists 0%nat. split; [lia|done].
  - intros n Hn. split; [|apply lookup_empty]. apply lookup_singleton_ne.
    change "k"%string with (unary_key 0). intros E%UUID_inj; [lia|apply _].
  - intros p addr [<- <-]%lookup_singleton_Some. right. exists demo_content. cbn. split; [reflexivity|lia].
Qed.

Lemma persist_stores_file_witness :
  exists r pm', Persist unary_key "data/f2" "t2" true (demo_pm1 64 demo_content) = Ok (r, pm') /\
    read_at pm' (w_obj_addr_ r) = Some demo_content /\ stored pm' "f2" = Some demo_content /\ stored pm' "f1" = Some demo_content.
Proof.
  assert (E : exists x, Persist unary_key "data/f2" "t2" true (demo_pm1 64 demo_content) = Ok x)
    by (eexists; reflexivity).
  destruct E as [[r pm'] E]. exists r, pm'. split; [exact E|].
  destruct (persist_stores_file unary_key "data/f2" "t2" true (demo_pm1 64 demo_content) pm' r demo_content
    (demo_pm1_wf 64 _ ltac:(lia)) eq_refl E)
    as (S0 & _ & S1 & S2 & _).
  split; [exact S0|]. split; [exact S1|]. rewrite S2; [reflexivity|discriminate].
Defined.

Lemma persist_composed_fails_iff_witness :
  let pm := demo_pm1 14 (demo_content ++ [Byte.x66; Byte.x67; Byte.x68]) in
  Persist unary_key "data/f2" "t2" true pm = Err Unrecoverable /\ 5 + 8 < 14 <= align_up 5 + 8.
Proof.
  cbv zeta. split; [|vm_compute; split; congruence].
  apply (persist_composed_fails_iff unary_key "data/f2" "t2" _ (demo_content ++ [Byte.x66; Byte.x67; Byte.x68])).
  - apply demo_pm1_wf. lia.
  - discriminate.
  - reflexivity.
  - reflexivity.
  - cbn. lia.
  - vm_compute. split; congruence.
Defined.

Lemma cleanup_deletes_exactly_witness :
  let s := ObjStat.set_deleted_ranges [mkRange 8 16] (ObjStat.make 24 3 0) in
  let pm := set_objects {["obj"%string := s]} (demo_pm1 64 []) in
  let addr := mkObjAddr "obj" 0 5 in
  match CleanupNoLock unary_key addr true write_result0 pm with
  | Err _ => False
  | Ok (_, pm') => match objects_ pm' !! "obj"%string with
                   | Some s' => deleted_ranges_ s' = [mkRange 0 16] /\ (forall x, covers (deleted_ranges_ s') x <->
                       covers [mkRange 8 16] x \/ 0 <= x < align_up 5)
                   | None => False
                   end
  end.
Proof.
  cbv zeta. set (s := ObjStat.set_deleted_ranges _ _). set (pm := set_objects _ _).
  assert (Hs : objects_ pm !! "obj"%string = Some s) by reflexivity.
  assert (Sep : separated (deleted_ranges_ s)) by (cbn; repeat split; auto; lia).
  pose proof (cleanup_deletes_exactly unary_key (mkObjAddr "obj" 0 5) true write_result0 pm s Hs Sep
    ltac:(cbn; lia) ltac:(cbn; lia) ltac:(cbn; lia)) as T.
  change (CleanupNoLock unary_key (mkObjAddr "obj" 0 5) true write_result0 pm) with
    (Ok (write_result0, set_objects {["obj"%string := ObjStat.set_deleted_ranges [mkRange 0 16] s]} pm)) in *.
  split; [reflexivity|]. apply T.
Defined.

Lemma put_after_get_restores_witness :
  exists pm1, GetObjCache "data/f1" (demo_pm1 64 []) = Ok (mkObjAddr "k" 0 5, None, pm1) /\
    PutObjCache "data/f1" pm1 = Ok (demo_pm1 64 []).
Proof.
  eexists. split; [reflexivity|].
  apply (put_after_get_restores "data/f1" (demo_pm1 64 []) _ (mkObjAddr "k" 0 5) (mkObjAddr "k" 0 5)).
  - reflexivity.
  - intros s. cbn. rewrite lookup_empty. discriminate.
  - cbn. lia.
  - reflexivity.
Defined.
End witnesses.
