(* ===== verification/AddrSerializer.v ===== *)
(** * Object addresses in the log: [AddrSerializer] of
      [src/src/storage/persistence/persistence_manager.cpp]

    A log record that creates files carries, for every file, its path, its object address
    and the object's status, so that replay can rebuild the persistence manager. *)
From S2P Require Import Prelude Serialize ObjStatus ObjStatAccessor PersistenceManager.

Record AddrSerializer := mkAddrSerializer {
  paths_ : list string;
  obj_addrs_ : list ObjAddr;
  obj_stats_ : list ObjStat;
}.

Module AddrSerializer.
Import PersistenceManager.

Definition empty : AddrSerializer := mkAddrSerializer [] [] [].

(** [Initialize], for a non-null persistence manager. *)
Fixpoint initialize_paths (pm : t) (path : list string) (a : AddrSerializer) : res AddrSerializer :=
  match path with
  | [] => Ok a
  | p :: path =>
      let? obj_addr := GetObjCacheWithoutCnt p pm in
      let stat := if ObjAddr.Valid obj_addr then GetObjStatByObjAddr obj_addr pm else ObjStat.default_ in
      initialize_paths pm path
        (mkAddrSerializer (paths_ a ++ [p]) (obj_addrs_ a ++ [obj_addr]) (obj_stats_ a ++ [stat]))
  end.
Definition Initialize (pm : option t) (path : list string) (a : AddrSerializer) : res AddrSerializer :=
  match pm with
  | None => Ok a
  | Some pm => match paths_ a with [] => initialize_paths pm path a | _ => Err Unrecoverable end
  end.

(** [InitializeValid]: the addresses that were not known at [Initialize] time are looked up again. *)
Fixpoint revalidate (pm : t) (l : list (string * ObjAddr * ObjStat)) : res (list (ObjAddr * ObjStat)) :=
  match l with
  | [] => Ok []
  | (path, addr, stat) :: l =>
      if ObjAddr.Valid addr then let? rest := revalidate pm l in Ok ((addr, stat) :: rest)
      else
        let? addr := GetObjCacheWithoutCnt path pm in
        if ObjAddr.Valid addr
        then let? rest := revalidate pm l in Ok ((addr, GetObjStatByObjAddr addr pm) :: rest)
        else Err Unrecoverable
  end.
Definition InitializeValid (pm : option t) (a : AddrSerializer) : res AddrSerializer :=
  match pm with
  | None => Ok a
  | Some pm =>
      let? l := revalidate pm (combine (combine (paths_ a) (obj_addrs_ a)) (obj_stats_ a)) in
      Ok (mkAddrSerializer (paths_ a) l.*1 l.*2)
  end.

(** One record of the three parallel vectors. *)
Definition entries (a : AddrSerializer) : list (string * (ObjAddr * ObjStat)) :=
  combine (paths_ a) (combine (obj_addrs_ a) (obj_stats_ a)).

Definition entry_size (e : string * (ObjAddr * ObjStat)) : Z :=
  4 + Z.of_nat (String.length e.1) + ObjAddr.GetSizeInBytes e.2.1 + ObjStat.GetSizeInBytes e.2.2.
Definition GetSizeInBytes (a : AddrSerializer) : Z :=
  8 + foldr (fun e s => entry_size e + s) 0 (entries a).

Definition write_entry (e : string * (ObjAddr * ObjStat)) : writer :=
  WriteBufAdv_string e.1 +++
  (if ObjAddr.Valid e.2.1 then Ok [] else Err Unrecoverable) +++
  ObjAddr.WriteBufAdv e.2.1 +++
  ObjStat.WriteBufAdv e.2.2.
Definition WriteBufAdv (a : AddrSerializer) : writer :=
  WriteBufAdv_int 8 (Z.of_nat (length (paths_ a))) +++ write_each write_entry (entries a).

Definition read_entry : reader (string * (ObjAddr * ObjStat)) :=
  read path := ReadBufAdv_string in
  read addr := ObjAddr.ReadBufAdv in
  read stat := ObjStat.ReadBufAdv in
  rret (path, (addr, stat)).
(** [ReadBufAdv] on a fresh serializer; it returns the paths and leaves the vectors. *)
Definition ReadBufAdv : reader AddrSerializer :=
  read path_count := ReadBufAdv_u 8 in
  read l := read_each read_entry (Z.to_nat path_count) in
  rret (mkAddrSerializer l.*1 (l.*2).*1 (l.*2).*2).

(** [AddToPersistenceManager], at replay. *)
Fixpoint add_entries (l : list (string * (ObjAddr * ObjStat))) (pm : t) : res t :=
  match l with
  | [] => Ok pm
  | (path, (addr, stat)) :: l =>
      if negb (ObjAddr.Valid addr) then Err Unrecoverable else
      let? pm := SaveLocalPath path addr pm in
      add_entries l (SaveObjStat addr stat pm)
  end.
Definition AddToPersistenceManager (a : AddrSerializer) (pm : option t) : res (option t) :=
  match pm with
  | None => Ok None
  | Some pm => let? pm := add_entries (entries a) pm in Ok (Some pm)
  end.

Definition entry_ok (e : string * (ObjAddr * ObjStat)) : Prop :=
  string_ok e.1 /\ ObjAddr.Valid e.2.1 = true /\ ObjAddr.ok e.2.1 /\ ObjStat.ok e.2.2.
Record ok (a : AddrSerializer) : Prop := {
  ok_len1 : length (obj_addrs_ a) = length (paths_ a);
  ok_len2 : length (obj_stats_ a) = length (paths_ a);
  ok_count : unsigned_range 64 (Z.of_nat (length (paths_ a)));
  ok_entries : Forall entry_ok (entries a);
}.

(** What is read back: the status comes back without its reference count. *)
Definition canon (a : AddrSerializer) : AddrSerializer :=
  mkAddrSerializer (paths_ a) (obj_addrs_ a) (ObjStat.canon <$> obj_stats_ a).

End AddrSerializer.

Section codec.
Import AddrSerializer.

Lemma encodes_ObjAddr a :
  ObjAddr.ok a -> encodes (ObjAddr.WriteBufAdv a) ObjAddr.ReadBufAdv a (ObjAddr.GetSizeInBytes a).
Proof.
  intros (H1 & H2 & H3). unfold ObjAddr.WriteBufAdv, ObjAddr.ReadBufAdv, ObjAddr.GetSizeInBytes.
  eapply encodes_size.
  - eapply encodes_bind; [now apply encodes_string|].
    eapply encodes_bind; [now apply (encodes_u 8)|].
    eapply encodes_map; [now apply (encodes_u 8)|]. now destruct a.
  - unfold string_size. lia.
Qed.

Lemma wapp_nil_l w : (Ok [] +++ w) = w.
Proof. now destruct w. Qed.

Lemma encodes_entry e :
  entry_ok e -> encodes (write_entry e) read_entry (e.1, (e.2.1, ObjStat.canon e.2.2)) (entry_size e).
Proof.
  intros (H1 & H2 & H3 & H4). unfold write_entry, read_entry, entry_size. rewrite H2, wapp_nil_l.
  eapply encodes_size.
  - eapply encodes_bind; [now apply encodes_string|].
    eapply encodes_bind; [now apply encodes_ObjAddr|].
    eapply encodes_map; [now apply encodes_ObjStat|]. reflexivity.
  - unfold string_size. lia.
Qed.

Lemma combine_fst {A B : Type} (l : list A) (k : list B) : length k = length l -> (combine l k).*1 = l.
Proof. revert k; induction l; intros [|]; cbn; try done. intros [= ?]. f_equal. auto. Qed.
Lemma combine_snd {A B : Type} (l : list A) (k : list B) : length k = length l -> (combine l k).*2 = k.
Proof. revert k; induction l; intros [|]; cbn; try done. intros [= ?]. f_equal. auto. Qed.

Lemma encodes_AddrSerializer a :
  ok a -> encodes (WriteBufAdv a) ReadBufAdv (canon a) (GetSizeInBytes a).
Proof.
  intros [L1 L2 Hc He]. unfold WriteBufAdv, ReadBufAdv, GetSizeInBytes.
  assert (Lc : length (combine (obj_addrs_ a) (obj_stats_ a)) = length (paths_ a))
    by (rewrite length_combine; lia).
  assert (Le : length (entries a) = length (paths_ a)) by (unfold entries; rewrite length_combine; lia).
  eapply encodes_bind; [now apply (encodes_u 8)|]. rewrite Nat2Z.id, <- Le.
  eapply encodes_map.
  - apply (encodes_each write_entry read_entry (fun e => (e.1, (e.2.1, ObjStat.canon e.2.2))) entry_size).
    intros e Hin. apply encodes_entry. rewrite Forall_forall in He. auto.
  - intros rest. unfold rret. do 2 f_equal. unfold canon. rewrite <- !list_fmap_compose.
    unfold compose. cbn. f_equal.
    + unfold entries. apply (combine_fst _ _ Lc).
    + transitivity ((entries a).*2.*1); [now rewrite <- list_fmap_compose|].
      unfold entries. rewrite combine_snd by done. apply combine_fst. lia.
    + transitivity (ObjStat.canon <$> (entries a).*2.*2); [now rewrite <- !list_fmap_compose|].
      unfold entries. rewrite combine_snd by done. rewrite combine_snd by lia. done.
Qed.

(** Replaying the addresses rebuilds the maps: every path of the record is mapped to its
    address and its object is known with its status. *)
Lemma add_entries_lookup l pm pm' :
  add_entries l pm = Ok pm' -> NoDup (map (fun e => PersistenceManager.RemovePrefix e.1 pm) l) ->
  Forall (fun e => PersistenceManager.local_path_obj_ pm' !! PersistenceManager.RemovePrefix e.1 pm = Some e.2.1 /\
                   is_Some (PersistenceManager.objects_ pm' !! obj_key_ e.2.1)) l /\
  (forall p, p ∉ map (fun e => PersistenceManager.RemovePrefix e.1 pm) l ->
     PersistenceManager.local_path_obj_ pm' !! p = PersistenceManager.local_path_obj_ pm !! p) /\
  (forall k, is_Some (PersistenceManager.objects_ pm !! k) -> is_Some (PersistenceManager.objects_ pm' !! k)).
Proof.
  revert pm. induction l as [|[path [addr stat]] l IH]; intros pm E Hd; cbn in E.
  - injection E as <-. repeat split; auto.
  - destruct (negb _); [discriminate|]. res_inv. unfold PersistenceManager.SaveLocalPath in H.
    destruct (String.eqb _ _); [discriminate|]. injection H as <-.
    cbn in Hd. apply NoDup_cons in Hd as [Hn Hd].
    destruct (IH _ E Hd) as (F & P & O). cbn in P, O.
    split; [constructor; [|exact F]|split].
    + cbn. split; [rewrite P by exact Hn; apply lookup_insert_eq|].
      apply O. unfold LocalStorage.PutNoCount. rewrite lookup_insert_eq. eauto.
    + intros p Hp. cbn in Hp. rewrite P by set_solver. apply lookup_insert_ne. set_solver.
    + intros k Hk. apply O. unfold LocalStorage.PutNoCount. rewrite lookup_insert.
      case_decide; eauto.
Qed.
End codec.

Section replay.
Import AddrSerializer.

Lemma add_entries_ok l pm :
  Forall (fun e => ObjAddr.Valid e.2.1 = true /\ PersistenceManager.RemovePrefix e.1 pm <> ""%string) l ->
  exists pm', add_entries l pm = Ok pm'.
Proof.
  revert pm. induction l as [|[path [addr stat]] l IH]; intros pm H; cbn; [eauto|].
  apply Forall_cons in H as [[H1 H2] H]. cbn in H1, H2. rewrite H1. cbn.
  unfold PersistenceManager.SaveLocalPath. rewrite (proj2 (String.eqb_neq _ _) H2). cbn. apply IH. exact H.
Qed.

Lemma entries_canon a :
  length (obj_addrs_ a) = length (paths_ a) -> length (obj_stats_ a) = length (paths_ a) ->
  entries (canon a) = (fun e => (e.1, (e.2.1, ObjStat.canon e.2.2))) <$> entries a.
Proof.
  destruct a as [p ad st]. unfold entries, canon. cbn.
  revert ad st. induction p as [|x p IH]; intros [|y ad] [|z st]; cbn; try done.
  intros [= H1] [= H2]. f_equal. now apply IH.
Qed.

(** What is read back can be written again, in as many bytes. *)
Lemma AddrSerializer_canon_ok a : ok a -> ok (canon a).
Proof.
  intros [H1 H2 H3 H4]. split; [exact H1|cbn; now rewrite length_fmap|exact H3|].
  rewrite entries_canon, Forall_fmap by done. eapply Forall_impl; [exact H4|].
  intros [p [ad st]] (? & ? & ? & ?). now split_and!.
Qed.

Lemma AddrSerializer_canon_size a : ok a -> GetSizeInBytes (canon a) = GetSizeInBytes a.
Proof.
  intros [H1 H2 _ _]. unfold GetSizeInBytes. rewrite entries_canon by done. f_equal.
  induction (entries a) as [|e l IH]; cbn; [done|]. now rewrite IH.
Qed.

(** Log and replay: an address record that was written to the log is read back from
    exactly the bytes announced by [GetSizeInBytes], and adding it to a persistence manager
    maps every path of the record to its original object address, with the object known. *)
Theorem addr_serializer_replay (a : AddrSerializer) (pm : PersistenceManager.t) :
  ok a ->
  NoDup (map (fun e => PersistenceManager.RemovePrefix e.1 pm) (entries a)) ->
  Forall (fun e => PersistenceManager.RemovePrefix e.1 pm <> ""%string) (entries a) ->
  exists bs a' pm',
    WriteBufAdv a = Ok bs /\ Z.of_nat (length bs) = GetSizeInBytes a /\
    ReadBufAdv bs = Ok (a', []) /\ AddToPersistenceManager a' (Some pm) = Ok (Some pm') /\
    Forall (fun e => PersistenceManager.local_path_obj_ pm' !! PersistenceManager.RemovePrefix e.1 pm = Some e.2.1 /\
                     is_Some (PersistenceManager.objects_ pm' !! obj_key_ e.2.1)) (entries a).
Proof.
  intros Ha Hd Hne. destruct (encodes_AddrSerializer a Ha) as (bs & Hw & Hl & Hr).
  specialize (Hr []). rewrite app_nil_r in Hr.
  pose proof (entries_canon a (ok_len1 _ Ha) (ok_len2 _ Ha)) as Ec.
  destruct (add_entries_ok (entries (canon a)) pm) as [pm' E].
  { rewrite Ec, Forall_fmap. pose proof (ok_entries _ Ha) as He. rewrite Forall_forall in *.
    intros e Hin. cbn. split; [apply (He e Hin)|apply (Hne e Hin)]. }
  exists bs, (canon a), pm'. split_and!; auto; [unfold AddToPersistenceManager; now rewrite E|].
  rewrite Ec in E. destruct (add_entries_lookup _ _ _ E) as [F _].
  - rewrite List.map_map. exact Hd.
  - rewrite Forall_fmap in F. exact F.
Qed.

Lemma addr_serializer_replay_witness :
  let a := mkAddrSerializer ["data/x"%string] [mkObjAddr "k" 8 5]
             [ObjStat.set_deleted_ranges [mkRange 0 8] (ObjStat.make 13 2 7)] in
  exists bs a' pm',
    WriteBufAdv a = Ok bs /\ Z.of_nat (length bs) = GetSizeInBytes a /\
    ReadBufAdv bs = Ok (a', []) /\ AddToPersistenceManager a' (Some (demo_pm 64 [])) = Ok (Some pm') /\
    Forall (fun e => PersistenceManager.local_path_obj_ pm' !! PersistenceManager.RemovePrefix e.1 (demo_pm 64 []) = Some e.2.1 /\
                     is_Some (PersistenceManager.objects_ pm' !! obj_key_ e.2.1)) (entries a).
Proof.
  cbv zeta. apply addr_serializer_replay.
  - constructor; cbn; try lia; [unfold unsigned_range; lia|].
    repeat constructor; cbn; unfold string_ok, unsigned_range; cbn; try lia.
  - cbn. apply NoDup_singleton.
  - repeat constructor; cbn. discriminate.
Defined.
End replay.
