(* ===== verification/WalInfo.v ===== *)
(** * Block, segment and chunk records of the log:
      [src/src/storage/wal/wal_entry.cpp] (lines 69-301)

    The parameter [use_object_cache] is the test [persistence_manager() != nullptr]. With
    it, a record carries the object addresses of its files. [GetSizeInBytes] stores the
    size of the addresses in the mutable field [pm_size_], and [WriteBufferAdv] raises an
    unrecoverable error when what it writes has another size. *)
From S2P Require Import Prelude Serialize ObjStatus PersistenceManager AddrSerializer.

(** The addresses at the end of a record, checked against [pm_size_]. *)
Definition write_addrs (addr_serializer : AddrSerializer) (pm_size : Z) : writer :=
  let? bs := AddrSerializer.WriteBufAdv addr_serializer in
  if Z.of_nat (length bs) =? pm_size then Ok bs else Err Unrecoverable.

Module WalBlockInfo.

Record t := mk {
  block_id_ : Z;
  row_count_ : Z;
  row_capacity_ : Z;
  outline_infos_ : list (Z * Z);
  paths_ : list string;
  addr_serializer_ : AddrSerializer;
  pm_size_ : Z;
}.

Definition op_eq (a b : t) : bool :=
  (block_id_ a =? block_id_ b) && (row_count_ a =? row_count_ b) &&
  (row_capacity_ a =? row_capacity_ b) && bool_decide (outline_infos_ a = outline_infos_ b).

Definition set_pm_size (n : Z) (b : t) : t :=
  mk (block_id_ b) (row_count_ b) (row_capacity_ b) (outline_infos_ b) (paths_ b) (addr_serializer_ b) n.

Definition GetSizeInBytes (use_object_cache : bool) (b : t) : Z * t :=
  let size := i32 (2 + 2 + 2) in
  let size := i32 (size + (4 + Z.of_nat (length (outline_infos_ b)) * (4 + 8))) in
  if use_object_cache then
    let pm_size := AddrSerializer.GetSizeInBytes (addr_serializer_ b) in
    (i32 (size + pm_size), set_pm_size pm_size b)
  else (size, b).

Definition write_outline (o : Z * Z) : writer := WriteBufAdv_int 4 o.1 +++ WriteBufAdv_int 8 o.2.
Definition WriteBufferAdv (use_object_cache : bool) (b : t) : writer :=
  WriteBufAdv_int 2 (block_id_ b) +++
  WriteBufAdv_int 2 (row_count_ b) +++
  WriteBufAdv_int 2 (row_capacity_ b) +++
  WriteBufAdv_int 4 (i32 (Z.of_nat (length (outline_infos_ b)))) +++
  write_each write_outline (outline_infos_ b) +++
  if use_object_cache then write_addrs (addr_serializer_ b) (pm_size_ b) else Ok [].

Definition read_outline : reader (Z * Z) :=
  read buffer_cnt := ReadBufAdv_u 4 in
  read last_chunk_offset := ReadBufAdv_u 8 in
  rret (buffer_cnt, last_chunk_offset).
(** [outline_infos_.resize(count)] throws when [count] is negative. *)
Definition ReadBufferAdv (use_object_cache : bool) : reader t :=
  read block_id := ReadBufAdv_u 2 in
  read row_count := ReadBufAdv_u 2 in
  read row_capacity := ReadBufAdv_u 2 in
  read count := ReadBufAdv_s 4 in
  if count <? 0 then rfail LengthErr else
  read outline_infos := read_each read_outline (Z.to_nat count) in
  read addrs := (if use_object_cache then AddrSerializer.ReadBufAdv else rret AddrSerializer.empty) in
  rret (mk block_id row_count row_capacity outline_infos (AddrSerializer.paths_ addrs) addrs 0).

(** The number of bytes of a record. *)
Definition size (use_object_cache : bool) (b : t) : Z :=
  10 + 12 * Z.of_nat (length (outline_infos_ b)) +
  (if use_object_cache then AddrSerializer.GetSizeInBytes (addr_serializer_ b) else 0).

Record ok (use_object_cache : bool) (b : t) : Prop := {
  ok_id : unsigned_range 16 (block_id_ b);
  ok_rows : unsigned_range 16 (row_count_ b);
  ok_capacity : unsigned_range 16 (row_capacity_ b);
  ok_count : count_ok (outline_infos_ b);
  ok_outline : Forall (fun o => unsigned_range 32 o.1 /\ unsigned_range 64 o.2) (outline_infos_ b);
  ok_addrs : use_object_cache = true -> AddrSerializer.ok (addr_serializer_ b);
}.

(** What is read back: the files come from the addresses, which are kept only when the
    object cache is in use. *)
Definition canon (use_object_cache : bool) (b : t) : t :=
  let addrs := if use_object_cache then AddrSerializer.canon (addr_serializer_ b) else AddrSerializer.empty in
  mk (block_id_ b) (row_count_ b) (row_capacity_ b) (outline_infos_ b) (AddrSerializer.paths_ addrs) addrs 0.

End WalBlockInfo.

Module WalSegmentInfo.

Record t := mk {
  segment_id_ : Z;
  column_count_ : Z;
  row_count_ : Z;
  actual_row_count_ : Z;
  row_capacity_ : Z;
  block_infos_ : list WalBlockInfo.t;
}.

Fixpoint blocks_eq (l k : list WalBlockInfo.t) : bool :=
  match l, k with
  | [], [] => true
  | a :: l, b :: k => WalBlockInfo.op_eq a b && blocks_eq l k
  | _, _ => false
  end.
Definition op_eq (a b : t) : bool :=
  (segment_id_ a =? segment_id_ b) && (column_count_ a =? column_count_ b) && (row_count_ a =? row_count_ b) &&
  (actual_row_count_ a =? actual_row_count_ b) && (row_capacity_ a =? row_capacity_ b) &&
  blocks_eq (block_infos_ a) (block_infos_ b).

Definition set_blocks (l : list WalBlockInfo.t) (s : t) : t :=
  mk (segment_id_ s) (column_count_ s) (row_count_ s) (actual_row_count_ s) (row_capacity_ s) l.

Definition GetSizeInBytes (use_object_cache : bool) (s : t) : Z * t :=
  let '(size, blocks) := size_each (WalBlockInfo.GetSizeInBytes use_object_cache) (i32 (4 + 8 + 8 + 8 + 8 + 4)) (block_infos_ s) in
  (size, set_blocks blocks s).

Definition WriteBufferAdv (use_object_cache : bool) (s : t) : writer :=
  WriteBufAdv_int 4 (segment_id_ s) +++
  WriteBufAdv_int 8 (column_count_ s) +++
  WriteBufAdv_int 8 (row_count_ s) +++
  WriteBufAdv_int 8 (actual_row_count_ s) +++
  WriteBufAdv_int 8 (row_capacity_ s) +++
  WriteBufAdv_int 4 (i32 (Z.of_nat (length (block_infos_ s)))) +++
  write_each (WalBlockInfo.WriteBufferAdv use_object_cache) (block_infos_ s).

Definition ReadBufferAdv (use_object_cache : bool) : reader t :=
  read segment_id := ReadBufAdv_u 4 in
  read column_count := ReadBufAdv_u 8 in
  read row_count := ReadBufAdv_u 8 in
  read actual_row_count := ReadBufAdv_u 8 in
  read row_capacity := ReadBufAdv_u 8 in
  read count := ReadBufAdv_s 4 in
  read blocks := read_each (WalBlockInfo.ReadBufferAdv use_object_cache) (Z.to_nat count) in
  rret (mk segment_id column_count row_count actual_row_count row_capacity blocks).

Definition size (use_object_cache : bool) (s : t) : Z :=
  40 + foldr (fun b n => WalBlockInfo.size use_object_cache b + n) 0 (block_infos_ s).

Record ok (use_object_cache : bool) (s : t) : Prop := {
  ok_id : unsigned_range 32 (segment_id_ s);
  ok_columns : unsigned_range 64 (column_count_ s);
  ok_rows : unsigned_range 64 (row_count_ s);
  ok_actual : unsigned_range 64 (actual_row_count_ s);
  ok_capacity : unsigned_range 64 (row_capacity_ s);
  ok_count : count_ok (block_infos_ s);
  ok_blocks : Forall (WalBlockInfo.ok use_object_cache) (block_infos_ s);
}.

Definition canon (use_object_cache : bool) (s : t) : t :=
  set_blocks (WalBlockInfo.canon use_object_cache <$> block_infos_ s) s.

End WalSegmentInfo.

(** [pm_size_] of a chunk has no initialiser: [None] is its value until [GetSizeInBytes]. *)
Module WalChunkIndexInfo.

Record t := mk {
  chunk_id_ : Z;
  base_name_ : string;
  paths_ : list string;
  addr_serializer_ : AddrSerializer;
  pm_size_ : option Z;
  base_rowid_ : Z;
  row_count_ : Z;
  deprecate_ts_ : Z;
}.

Definition op_eq (a b : t) : bool :=
  (chunk_id_ a =? chunk_id_ b) && String.eqb (base_name_ a) (base_name_ b) && (base_rowid_ a =? base_rowid_ b) &&
  (row_count_ a =? row_count_ b) && (deprecate_ts_ a =? deprecate_ts_ b).

Definition set_pm_size (n : option Z) (c : t) : t :=
  mk (chunk_id_ c) (base_name_ c) (paths_ c) (addr_serializer_ c) n (base_rowid_ c) (row_count_ c) (deprecate_ts_ c).

Definition GetSizeInBytes (use_object_cache : bool) (c : t) : Z * t :=
  let pm_size := AddrSerializer.GetSizeInBytes (addr_serializer_ c) in
  let '(size, c') := if use_object_cache then (u64 (0 + pm_size), set_pm_size (Some pm_size) c) else (0, c) in
  (i32 (size + 4 + 4 + Z.of_nat (String.length (base_name_ c)) + 8 + 4 + 8), c').

Definition WriteBufferAdv (use_object_cache : bool) (c : t) : writer :=
  WriteBufAdv_int 4 (chunk_id_ c) +++
  WriteBufAdv_string (base_name_ c) +++
  WriteBufAdv_int 8 (base_rowid_ c) +++
  WriteBufAdv_int 4 (row_count_ c) +++
  WriteBufAdv_int 8 (deprecate_ts_ c) +++
  if use_object_cache then
    match pm_size_ c with
    | Some n => write_addrs (addr_serializer_ c) n
    | None => Err Undefined
    end
  else Ok [].

Definition ReadBufferAdv (use_object_cache : bool) : reader t :=
  read chunk_id := ReadBufAdv_u 4 in
  read base_name := ReadBufAdv_string in
  read base_rowid := ReadBufAdv_u 8 in
  read row_count := ReadBufAdv_u 4 in
  read deprecate_ts := ReadBufAdv_u 8 in
  read addrs := (if use_object_cache then AddrSerializer.ReadBufAdv else rret AddrSerializer.empty) in
  rret (mk chunk_id base_name (AddrSerializer.paths_ addrs) addrs None base_rowid row_count deprecate_ts).

Definition size (use_object_cache : bool) (c : t) : Z :=
  24 + string_size (base_name_ c) +
  (if use_object_cache then AddrSerializer.GetSizeInBytes (addr_serializer_ c) else 0).

Record ok (use_object_cache : bool) (c : t) : Prop := {
  ok_id : unsigned_range 32 (chunk_id_ c);
  ok_name : string_ok (base_name_ c);
  ok_rowid : unsigned_range 64 (base_rowid_ c);
  ok_rows : unsigned_range 32 (row_count_ c);
  ok_ts : unsigned_range 64 (deprecate_ts_ c);
  ok_addrs : use_object_cache = true -> AddrSerializer.ok (addr_serializer_ c);
}.

Definition canon (use_object_cache : bool) (c : t) : t :=
  let addrs := if use_object_cache then AddrSerializer.canon (addr_serializer_ c) else AddrSerializer.empty in
  mk (chunk_id_ c) (base_name_ c) (AddrSerializer.paths_ addrs) addrs None (base_rowid_ c) (row_count_ c) (deprecate_ts_ c).

End WalChunkIndexInfo.

(** ** The codecs *)
Section info_codecs.
Context (use_object_cache : bool).

Lemma encodes_addrs a :
  (use_object_cache = true -> AddrSerializer.ok a) ->
  encodes (if use_object_cache then write_addrs a (AddrSerializer.GetSizeInBytes a) else Ok [])
    (if use_object_cache then AddrSerializer.ReadBufAdv else rret AddrSerializer.empty)
    (if use_object_cache then AddrSerializer.canon a else AddrSerializer.empty)
    (if use_object_cache then AddrSerializer.GetSizeInBytes a else 0).
Proof.
  destruct use_object_cache; intros H; [|apply encodes_ret].
  destruct (encodes_AddrSerializer a (H eq_refl)) as (bs & Hw & Hl & Hr).
  exists bs. split_and!; [|done..]. unfold write_addrs. rewrite Hw. cbn. now rewrite Hl, Z.eqb_refl.
Qed.

(** [pm_size_] holds the size of the addresses, as [GetSizeInBytes] leaves it. *)
Definition block_sized (b : WalBlockInfo.t) : Prop :=
  use_object_cache = true -> WalBlockInfo.pm_size_ b = AddrSerializer.GetSizeInBytes (WalBlockInfo.addr_serializer_ b).
Definition chunk_sized (c : WalChunkIndexInfo.t) : Prop :=
  use_object_cache = true ->
  WalChunkIndexInfo.pm_size_ c = Some (AddrSerializer.GetSizeInBytes (WalChunkIndexInfo.addr_serializer_ c)).

Lemma encodes_outline o :
  unsigned_range 32 o.1 /\ unsigned_range 64 o.2 ->
  encodes (WalBlockInfo.write_outline o) WalBlockInfo.read_outline o 12.
Proof.
  intros [H1 H2]. change 12 with (4 + 8). eapply encodes_bind; [now apply (encodes_u 4)|].
  eapply encodes_map; [now apply (encodes_u 8)|]. now destruct o.
Qed.

Lemma encodes_WalBlockInfo b :
  WalBlockInfo.ok use_object_cache b -> block_sized b ->
  encodes (WalBlockInfo.WriteBufferAdv use_object_cache b) (WalBlockInfo.ReadBufferAdv use_object_cache)
    (WalBlockInfo.canon use_object_cache b) (WalBlockInfo.size use_object_cache b).
Proof.
  intros [H1 H2 H3 H4 H5 H6] Hs. unfold WalBlockInfo.WriteBufferAdv, WalBlockInfo.ReadBufferAdv.
  eapply encodes_size.
  - eapply encodes_bind; [now apply (encodes_u 2)|].
    eapply encodes_bind; [now apply (encodes_u 2)|].
    eapply encodes_bind; [now apply (encodes_u 2)|].
    eapply encodes_bind; [now apply encodes_count|].
    replace (Z.of_nat _ <? 0) with false by (symmetry; apply Z.ltb_ge; lia). rewrite Nat2Z.id.
    eapply encodes_bind.
    + apply (encodes_list _ _ (fun _ => 12)). intros o Ho. apply encodes_outline.
      rewrite Forall_forall in H5. auto.
    + replace (if use_object_cache then write_addrs (WalBlockInfo.addr_serializer_ b) (WalBlockInfo.pm_size_ b) else Ok [])
        with (if use_object_cache
              then write_addrs (WalBlockInfo.addr_serializer_ b) (AddrSerializer.GetSizeInBytes (WalBlockInfo.addr_serializer_ b))
              else Ok []) by (unfold block_sized in Hs; destruct use_object_cache; [now rewrite Hs|done]).
      eapply encodes_map; [apply (encodes_addrs _ H6)|reflexivity].
  - unfold WalBlockInfo.size. rewrite foldr_const. destruct use_object_cache; lia.
Qed.

Lemma WalBlockInfo_GetSizeInBytes b :
  (WalBlockInfo.GetSizeInBytes use_object_cache b).1 = i32 (WalBlockInfo.size use_object_cache b).
Proof.
  unfold WalBlockInfo.GetSizeInBytes, WalBlockInfo.size.
  change (i32 (2 + 2 + 2)) with 6.
  destruct use_object_cache; cbv zeta; cbn [fst]; rewrite ?swrap_add_l; f_equal; lia.
Qed.

Definition sized_block (b : WalBlockInfo.t) : WalBlockInfo.t := (WalBlockInfo.GetSizeInBytes use_object_cache b).2.

Lemma sized_block_props b :
  WalBlockInfo.ok use_object_cache b ->
  WalBlockInfo.ok use_object_cache (sized_block b) /\ block_sized (sized_block b).
Proof.
  intros H. unfold sized_block, WalBlockInfo.GetSizeInBytes, block_sized.
  destruct use_object_cache eqn:E; [|now split]. cbn.
  split; [destruct H; now constructor|done].
Qed.

Lemma sized_block_canon b :
  WalBlockInfo.canon use_object_cache (sized_block b) = WalBlockInfo.canon use_object_cache b /\
  WalBlockInfo.size use_object_cache (sized_block b) = WalBlockInfo.size use_object_cache b.
Proof. unfold sized_block, WalBlockInfo.GetSizeInBytes. now destruct use_object_cache. Qed.

(** A segment after [GetSizeInBytes]. *)
Definition sized_segment (s : WalSegmentInfo.t) : WalSegmentInfo.t :=
  (WalSegmentInfo.GetSizeInBytes use_object_cache s).2.

Lemma WalSegmentInfo_GetSizeInBytes s :
  WalSegmentInfo.GetSizeInBytes use_object_cache s =
  (i32 (WalSegmentInfo.size use_object_cache s),
   WalSegmentInfo.set_blocks (sized_block <$> WalSegmentInfo.block_infos_ s) s).
Proof.
  unfold WalSegmentInfo.GetSizeInBytes.
  rewrite (size_each_spec _ (WalBlockInfo.size use_object_cache)) by (intros; apply WalBlockInfo_GetSizeInBytes).
  reflexivity.
Qed.

Lemma sized_segment_eq s :
  sized_segment s = WalSegmentInfo.set_blocks (sized_block <$> WalSegmentInfo.block_infos_ s) s.
Proof. unfold sized_segment. now rewrite WalSegmentInfo_GetSizeInBytes. Qed.

Lemma encodes_WalSegmentInfo s :
  WalSegmentInfo.ok use_object_cache s ->
  encodes (WalSegmentInfo.WriteBufferAdv use_object_cache (sized_segment s))
    (WalSegmentInfo.ReadBufferAdv use_object_cache)
    (WalSegmentInfo.canon use_object_cache s) (WalSegmentInfo.size use_object_cache s).
Proof.
  intros [H1 H2 H3 H4 H5 H6 H7]. rewrite sized_segment_eq.
  unfold WalSegmentInfo.WriteBufferAdv, WalSegmentInfo.ReadBufferAdv. cbn.
  eapply encodes_size.
  - eapply encodes_bind; [now apply (encodes_u 4)|].
    eapply encodes_bind; [now apply (encodes_u 8)|].
    eapply encodes_bind; [now apply (encodes_u 8)|].
    eapply encodes_bind; [now apply (encodes_u 8)|].
    eapply encodes_bind; [now apply (encodes_u 8)|].
    rewrite length_fmap. eapply encodes_bind; [now apply encodes_count|].
    rewrite Nat2Z.id. eapply encodes_map.
    + rewrite <- (length_fmap sized_block).
      apply (encodes_each _ _ (WalBlockInfo.canon use_object_cache) (WalBlockInfo.size use_object_cache)).
      intros b Hb. apply list_elem_of_fmap in Hb as (b0 & -> & Hb).
      rewrite Forall_forall in H7.
      apply encodes_WalBlockInfo; apply sized_block_props; auto.
    + intros rest. unfold rret. do 2 f_equal. unfold WalSegmentInfo.canon, WalSegmentInfo.set_blocks.
      f_equal. rewrite <- list_fmap_compose. apply list_fmap_ext. intros ? b _. apply sized_block_canon.
  - unfold WalSegmentInfo.size. rewrite (foldr_size_fmap sized_block) by apply sized_block_canon. lia.
Qed.

Definition sized_chunk (c : WalChunkIndexInfo.t) : WalChunkIndexInfo.t :=
  (WalChunkIndexInfo.GetSizeInBytes use_object_cache c).2.

Lemma swrap_u64 z : i32 (u64 z) = i32 z.
Proof.
  unfold swrap, wrap. f_equal. rewrite Z.add_mod by lia. rewrite (Z.add_mod z) by lia. do 2 f_equal.
  change (2 ^ 64) with (2 ^ 32 * 2 ^ 32). rewrite Z.rem_mul_r by lia.
  rewrite Z.add_mod by lia. rewrite (Z.mul_comm (2 ^ 32)), Z.mod_mul by lia.
  now rewrite Z.add_0_r, !Z.mod_mod by lia.
Qed.

Lemma WalChunkIndexInfo_GetSizeInBytes c :
  (WalChunkIndexInfo.GetSizeInBytes use_object_cache c).1 = i32 (WalChunkIndexInfo.size use_object_cache c).
Proof.
  unfold WalChunkIndexInfo.GetSizeInBytes, WalChunkIndexInfo.size, string_size.
  destruct use_object_cache; cbn [fst]; [|f_equal; lia].
  rewrite <- !Z.add_assoc, <- swrap_add_l, swrap_u64, swrap_add_l. f_equal. lia.
Qed.

Lemma encodes_WalChunkIndexInfo c :
  WalChunkIndexInfo.ok use_object_cache c ->
  encodes (WalChunkIndexInfo.WriteBufferAdv use_object_cache (sized_chunk c))
    (WalChunkIndexInfo.ReadBufferAdv use_object_cache)
    (WalChunkIndexInfo.canon use_object_cache c) (WalChunkIndexInfo.size use_object_cache c).
Proof.
  intros [H1 H2 H3 H4 H5 H6].
  assert (encodes (WalChunkIndexInfo.WriteBufferAdv use_object_cache (sized_chunk c))
    (WalChunkIndexInfo.ReadBufferAdv use_object_cache)
    (WalChunkIndexInfo.canon use_object_cache c) 
    (4 + (string_size (WalChunkIndexInfo.base_name_ c) + (8 + (4 + (8 +
      if use_object_cache then AddrSerializer.GetSizeInBytes (WalChunkIndexInfo.addr_serializer_ c) else 0))))))
    as H; [|eapply encodes_size; [exact H|unfold WalChunkIndexInfo.size; destruct use_object_cache; lia]].
  pose proof (encodes_addrs (WalChunkIndexInfo.addr_serializer_ c) H6) as P.
  unfold WalChunkIndexInfo.WriteBufferAdv, WalChunkIndexInfo.ReadBufferAdv, sized_chunk, WalChunkIndexInfo.GetSizeInBytes.
  destruct use_object_cache; cbn.
  all: eapply encodes_bind; [now apply (encodes_u 4)|].
  all: eapply encodes_bind; [now apply encodes_string|].
  all: eapply encodes_bind; [now apply (encodes_u 8)|].
  all: eapply encodes_bind; [now apply (encodes_u 4)|].
  all: eapply encodes_bind; [now apply (encodes_u 8)|].
  all: eapply encodes_map; [exact P|reflexivity].
Qed.
End info_codecs.
