(* ===== verification/WalCmd.v ===== *)
(** * Log commands: [src/src/storage/wal/wal_entry.cpp] (lines 303-929)

    One constructor per class derived from [WalCmd], with the fields of the class;
    [GetSizeInBytes], [WriteAdv] and [operator==] of every class are the cases of one
    function each, and [ReadAdv] is the switch of the code. The definitions a command
    embeds (table, index, column and data block) enter through the interface [WalPayload].
    The shared pointers of a command are not null. Assertions are not modelled. *)
From S2P Require Import Prelude Serialize ObjStatus PersistenceManager AddrSerializer WalInfo.
From S2P Require TableDef IndexBase.

(** ** The interface to the definitions a command embeds *)
Class OperatorEq (A : Type) := op_eq : A -> A -> bool.

Class WalPayload := {
  table_def_t : Type;
  index_base_t : Type;
  data_block_t : Type;
  column_def_t : Type;
  #[global] TableDef_codec :: Codec table_def_t;
  #[global] IndexBase_codec :: Codec index_base_t;
  #[global] DataBlock_codec :: Codec data_block_t;
  #[global] ColumnDef_codec :: Codec column_def_t;
  #[global] TableDef_eq :: OperatorEq table_def_t;
  #[global] IndexBase_eq :: OperatorEq index_base_t;
  #[global] ColumnDef_eq :: OperatorEq column_def_t;
}.
Class WalPayloadLaws `{P : WalPayload} : Prop := {
  #[global] TableDef_laws :: CodecLaws table_def_t;
  #[global] IndexBase_laws :: CodecLaws index_base_t;
  #[global] DataBlock_laws :: CodecLaws data_block_t;
  #[global] ColumnDef_laws :: CodecLaws column_def_t;
}.

(** [InitParameter] of [src/src/parser/statement/statement_common.h]. *)
Module InitParameter.
Record t := mk { param_name_ : string; param_value_ : string }.
Definition GetSizeInBytes (p : t) : Z :=
  4 + Z.of_nat (String.length (param_name_ p)) + 4 + Z.of_nat (String.length (param_value_ p)).
Definition WriteAdv (p : t) : writer := WriteBufAdv_string (param_name_ p) +++ WriteBufAdv_string (param_value_ p).
Definition ReadAdv : reader t :=
  read param_name := ReadBufAdv_string in
  read param_value := ReadBufAdv_string in
  rret (mk param_name param_value).
Definition ok (p : t) : Prop := string_ok (param_name_ p) /\ string_ok (param_value_ p).
End InitParameter.

Inductive WalCommandType :=
| INVALID | CREATE_DATABASE | DROP_DATABASE | CREATE_TABLE | DROP_TABLE | ALTER_INFO
| CREATE_INDEX | DROP_INDEX | IMPORT | APPEND | DELETE
| SET_SEGMENT_STATUS_SEALED | UPDATE_SEGMENT_BLOOM_FILTER_DATA
| RENAME_TABLE | ADD_COLUMNS | DROP_COLUMNS
| CHECKPOINT | COMPACT | OPTIMIZE | DUMP_INDEX.
#[export] Instance WalCommandType_eq_dec : EqDecision WalCommandType.
Proof. solve_decision. Defined.

Module WalCommandType.
Definition to_Z (t : WalCommandType) : Z :=
  match t with
  | INVALID => 0 | CREATE_DATABASE => 1 | DROP_DATABASE => 2 | CREATE_TABLE => 3 | DROP_TABLE => 4
  | ALTER_INFO => 5 | CREATE_INDEX => 6 | DROP_INDEX => 7
  | IMPORT => 20 | APPEND => 21 | DELETE => 22
  | SET_SEGMENT_STATUS_SEALED => 31 | UPDATE_SEGMENT_BLOOM_FILTER_DATA => 32
  | RENAME_TABLE => 40 | ADD_COLUMNS => 41 | DROP_COLUMNS => 42
  | CHECKPOINT => 99 | COMPACT => 100 | OPTIMIZE => 101 | DUMP_INDEX => 102
  end.
(** A byte that is no enumerator selects the [default] of every switch, as [INVALID] does. *)
Definition of_Z (z : Z) : WalCommandType :=
  match z with
  | 1 => CREATE_DATABASE | 2 => DROP_DATABASE | 3 => CREATE_TABLE | 4 => DROP_TABLE
  | 5 => ALTER_INFO | 6 => CREATE_INDEX | 7 => DROP_INDEX
  | 20 => IMPORT | 21 => APPEND | 22 => DELETE
  | 31 => SET_SEGMENT_STATUS_SEALED | 32 => UPDATE_SEGMENT_BLOOM_FILTER_DATA
  | 40 => RENAME_TABLE | 41 => ADD_COLUMNS | 42 => DROP_COLUMNS
  | 99 => CHECKPOINT | 100 => COMPACT | 101 => OPTIMIZE | 102 => DUMP_INDEX
  | _ => INVALID
  end.
End WalCommandType.

Section commands.
Context `{P : WalPayload}.

Inductive WalCmd :=
| WalCmdCreateDatabase (db_name_ db_dir_tail_ db_comment_ : string)
| WalCmdDropDatabase (db_name_ : string)
| WalCmdCreateTable (db_name_ table_dir_tail_ : string) (table_def_ : table_def_t)
| WalCmdDropTable (db_name_ table_name_ : string)
| WalCmdCreateIndex (db_name_ table_name_ index_dir_tail_ : string) (index_base_ : index_base_t)
| WalCmdDropIndex (db_name_ table_name_ index_name_ : string)
| WalCmdImport (db_name_ table_name_ : string) (segment_info_ : WalSegmentInfo.t)
| WalCmdAppend (db_name_ table_name_ : string) (block_ : data_block_t)
| WalCmdDelete (db_name_ table_name_ : string) (row_ids_ : list Z)
| WalCmdSetSegmentStatusSealed (db_name_ table_name_ : string) (segment_id_ : Z)
    (segment_filter_binary_data_ : string) (block_filter_binary_data_ : list (Z * string))
| WalCmdUpdateSegmentBloomFilterData (db_name_ table_name_ : string) (segment_id_ : Z)
    (segment_filter_binary_data_ : string) (block_filter_binary_data_ : list (Z * string))
| WalCmdCheckpoint (max_commit_ts_ : Z) (is_full_checkpoint_ : bool) (catalog_path_ catalog_name_ : string)
| WalCmdCompact (db_name_ table_name_ : string) (new_segment_infos_ : list WalSegmentInfo.t)
    (deprecated_segment_ids_ : list Z)
| WalCmdOptimize (db_name_ table_name_ index_name_ : string) (params_ : list InitParameter.t)
| WalCmdDumpIndex (db_name_ table_name_ index_name_ : string) (segment_id_ : Z)
    (chunk_infos_ : list WalChunkIndexInfo.t) (deprecate_ids_ : list Z)
| WalCmdRenameTable (db_name_ table_name_ new_table_name_ : string)
| WalCmdAddColumns (db_name_ table_name_ : string) (column_defs_ : list column_def_t)
| WalCmdDropColumns (db_name_ table_name_ : string) (column_names_ : list string).

Definition GetType (c : WalCmd) : WalCommandType :=
  match c with
  | WalCmdCreateDatabase _ _ _ => CREATE_DATABASE
  | WalCmdDropDatabase _ => DROP_DATABASE
  | WalCmdCreateTable _ _ _ => CREATE_TABLE
  | WalCmdDropTable _ _ => DROP_TABLE
  | WalCmdCreateIndex _ _ _ _ => CREATE_INDEX
  | WalCmdDropIndex _ _ _ => DROP_INDEX
  | WalCmdImport _ _ _ => IMPORT
  | WalCmdAppend _ _ _ => APPEND
  | WalCmdDelete _ _ _ => DELETE
  | WalCmdSetSegmentStatusSealed _ _ _ _ _ => SET_SEGMENT_STATUS_SEALED
  | WalCmdUpdateSegmentBloomFilterData _ _ _ _ _ => UPDATE_SEGMENT_BLOOM_FILTER_DATA
  | WalCmdCheckpoint _ _ _ _ => CHECKPOINT
  | WalCmdCompact _ _ _ _ => COMPACT
  | WalCmdOptimize _ _ _ _ => OPTIMIZE
  | WalCmdDumpIndex _ _ _ _ _ _ => DUMP_INDEX
  | WalCmdRenameTable _ _ _ => RENAME_TABLE
  | WalCmdAddColumns _ _ _ => ADD_COLUMNS
  | WalCmdDropColumns _ _ _ => DROP_COLUMNS
  end.

(** [for (i...) if (a[i] != b[i]) return false] after the sizes were compared. *)
Fixpoint list_op_eq {A : Type} (eq : A -> A -> bool) (l k : list A) : bool :=
  match l, k with
  | [], [] => true
  | a :: l, b :: k => eq a b && list_op_eq eq l k
  | _, _ => false
  end.

(** [operator==] of each class; the [dynamic_cast] is the match on the second command. *)
Definition cmd_op_eq (a b : WalCmd) : bool :=
  match a, b with
  | WalCmdCreateDatabase db dir _, WalCmdCreateDatabase db' dir' _ => String.eqb db db' && String.eqb dir dir'
  | WalCmdDropDatabase db, WalCmdDropDatabase db' => String.eqb db db'
  | WalCmdCreateTable db dir def, WalCmdCreateTable db' dir' def' =>
      String.eqb db db' && String.eqb dir dir' && op_eq def def'
  | WalCmdDropTable db tb, WalCmdDropTable db' tb' => String.eqb db db' && String.eqb tb tb'
  | WalCmdCreateIndex db tb dir idx, WalCmdCreateIndex db' tb' dir' idx' =>
      String.eqb db db' && String.eqb tb tb' && String.eqb dir dir' && op_eq idx idx'
  | WalCmdDropIndex db tb idx, WalCmdDropIndex db' tb' idx' =>
      String.eqb db db' && String.eqb tb tb' && String.eqb idx idx'
  | WalCmdImport db tb seg, WalCmdImport db' tb' seg' =>
      String.eqb db db' && String.eqb tb tb' && WalSegmentInfo.op_eq seg seg'
  | WalCmdAppend db tb _, WalCmdAppend db' tb' _ => String.eqb db db' && String.eqb tb tb'
  | WalCmdDelete db tb rows, WalCmdDelete db' tb' rows' =>
      String.eqb db db' && String.eqb tb tb' && list_op_eq Z.eqb rows rows'
  | WalCmdSetSegmentStatusSealed db tb seg f fs, WalCmdSetSegmentStatusSealed db' tb' seg' f' fs' =>
      String.eqb db db' && String.eqb tb tb' && (seg =? seg') && String.eqb f f' && bool_decide (fs = fs')
  | WalCmdUpdateSegmentBloomFilterData db tb seg f fs, WalCmdUpdateSegmentBloomFilterData db' tb' seg' f' fs' =>
      String.eqb db db' && String.eqb tb tb' && (seg =? seg') && String.eqb f f' && bool_decide (fs = fs')
  | WalCmdCheckpoint ts full _ _, WalCmdCheckpoint ts' full' _ _ => (ts =? ts') && Bool.eqb full full'
  | WalCmdCompact db tb _ old, WalCmdCompact db' tb' _ old' =>
      String.eqb db db' && String.eqb tb tb' && list_op_eq Z.eqb old old'
  | WalCmdOptimize db tb idx _, WalCmdOptimize db' tb' idx' _ =>
      String.eqb db db' && String.eqb tb tb' && String.eqb idx idx'
  | WalCmdDumpIndex db tb idx seg chunks old, WalCmdDumpIndex db' tb' idx' seg' chunks' old' =>
      String.eqb db db' && String.eqb tb tb' && String.eqb idx idx' && (seg =? seg') &&
      list_op_eq WalChunkIndexInfo.op_eq chunks chunks' && bool_decide (old = old')
  | WalCmdRenameTable db tb new, WalCmdRenameTable db' tb' new' =>
      String.eqb db db' && String.eqb tb tb' && String.eqb new new'
  | WalCmdAddColumns db tb cols, WalCmdAddColumns db' tb' cols' =>
      String.eqb db db' && String.eqb tb tb' && list_op_eq op_eq cols cols'
  | WalCmdDropColumns db tb cols, WalCmdDropColumns db' tb' cols' =>
      String.eqb db db' && String.eqb tb tb' && bool_decide (cols = cols')
  | _, _ => false
  end.

(** ** [GetSizeInBytes]

    [len s] is [sizeof(i32) + s.size()]. The two commands that carry filters call the
    generic [::infinity::GetSizeInBytes] on their strings, which is [sizeof(std::string)],
    24 bytes in libc++. *)
Definition len (s : string) : Z := 4 + Z.of_nat (String.length s).
Definition sizeof_std_string : Z := 24.

Definition filter_cmd_size (block_filter_binary_data : list (Z * string)) : Z :=
  let sz := i32 (1 + sizeof_std_string + sizeof_std_string + 4 + sizeof_std_string) in
  let sz := i32 (sz + 4) in
  foldl (fun sz _ => i32 (sz + (2 + sizeof_std_string))) sz block_filter_binary_data.

Definition GetSizeInBytes (use_object_cache : bool) (c : WalCmd) : Z * WalCmd :=
  match c with
  | WalCmdCreateDatabase db dir comment => (i32 (1 + len db + len dir + len comment), c)
  | WalCmdDropDatabase db => (i32 (1 + len db), c)
  | WalCmdCreateTable db dir def => (i32 (1 + len db + len dir + codec_size def), c)
  | WalCmdCreateIndex db tb dir idx => (i32 (1 + len db + len tb + len dir + codec_size idx), c)
  | WalCmdDropTable db tb => (i32 (1 + len db + len tb), c)
  | WalCmdDropIndex db tb idx => (i32 (1 + len db + len tb + len idx), c)
  | WalCmdImport db tb seg =>
      let '(n, seg) := WalSegmentInfo.GetSizeInBytes use_object_cache seg in
      (i32 (1 + len db + len tb + n), WalCmdImport db tb seg)
  | WalCmdAppend db tb block => (i32 (1 + len db + len tb + codec_size block), c)
  | WalCmdDelete db tb rows => (i32 (1 + len db + len tb + 4 + Z.of_nat (length rows) * 8), c)
  | WalCmdSetSegmentStatusSealed _ _ _ _ fs => (filter_cmd_size fs, c)
  | WalCmdUpdateSegmentBloomFilterData _ _ _ _ fs => (filter_cmd_size fs, c)
  | WalCmdCheckpoint _ _ path name =>
      (i32 (1 + 8 + 1 + 4 + 4 + Z.of_nat (String.length path) + Z.of_nat (String.length name)), c)
  | WalCmdCompact db tb segs old =>
      let '(size, segs) :=
        size_each (WalSegmentInfo.GetSizeInBytes use_object_cache) (i32 (1 + len db + len tb + 4)) segs in
      (i32 (size + 4 + Z.of_nat (length old) * 4), WalCmdCompact db tb segs old)
  | WalCmdOptimize db tb idx params =>
      let size := i32 (i32 (1 + len db + len tb + len idx) + 4) in
      let '(size, _) := size_each (fun p => (InitParameter.GetSizeInBytes p, p)) size params in
      (size, c)
  | WalCmdDumpIndex db tb idx seg chunks old =>
      let '(size, chunks) :=
        size_each (WalChunkIndexInfo.GetSizeInBytes use_object_cache) (i32 (1 + len db + len tb + len idx + 4 + 4)) chunks in
      (i32 (size + (4 + 4 * Z.of_nat (length old))), WalCmdDumpIndex db tb idx seg chunks old)
  | WalCmdRenameTable db tb new => (i32 (1 + len db + len tb + len new), c)
  | WalCmdAddColumns db tb cols =>
      let res := 1 + len db + len tb + 4 in
      (i32 (foldl (fun res col => u64 (res + codec_size col)) res cols), c)
  | WalCmdDropColumns db tb cols =>
      let res := 1 + len db + len tb + 4 in
      (i32 (foldl (fun res name => u64 (res + len name)) res cols), c)
  end.

(** ** [WriteAdv] *)
Definition write_type (t : WalCommandType) : writer := WriteBufAdv_int 1 (WalCommandType.to_Z t).
Definition write_count {A : Type} (l : list A) : writer := WriteBufAdv_int 4 (i32 (Z.of_nat (length l))).
Definition write_filter (data : Z * string) : writer := WriteBufAdv_int 2 data.1 +++ WriteBufAdv_string data.2.

Definition WriteAdv (use_object_cache : bool) (c : WalCmd) : writer :=
  match c with
  | WalCmdCreateDatabase db dir comment =>
      write_type CREATE_DATABASE +++ WriteBufAdv_string db +++ WriteBufAdv_string dir +++ WriteBufAdv_string comment
  | WalCmdDropDatabase db => write_type DROP_DATABASE +++ WriteBufAdv_string db
  | WalCmdCreateTable db dir def =>
      write_type CREATE_TABLE +++ WriteBufAdv_string db +++ WriteBufAdv_string dir +++ codec_write def
  | WalCmdCreateIndex db tb dir idx =>
      write_type CREATE_INDEX +++ WriteBufAdv_string db +++ WriteBufAdv_string tb +++ WriteBufAdv_string dir +++ codec_write idx
  | WalCmdDropTable db tb => write_type DROP_TABLE +++ WriteBufAdv_string db +++ WriteBufAdv_string tb
  | WalCmdDropIndex db tb idx =>
      write_type DROP_INDEX +++ WriteBufAdv_string db +++ WriteBufAdv_string tb +++ WriteBufAdv_string idx
  | WalCmdImport db tb seg =>
      write_type IMPORT +++ WriteBufAdv_string db +++ WriteBufAdv_string tb +++
      WalSegmentInfo.WriteBufferAdv use_object_cache seg
  | WalCmdAppend db tb block =>
      write_type APPEND +++ WriteBufAdv_string db +++ WriteBufAdv_string tb +++ codec_write block
  | WalCmdDelete db tb rows =>
      write_type DELETE +++ WriteBufAdv_string db +++ WriteBufAdv_string tb +++
      write_count rows +++ write_each (WriteBufAdv_int 8) rows
  | WalCmdSetSegmentStatusSealed db tb seg f fs =>
      write_type SET_SEGMENT_STATUS_SEALED +++ WriteBufAdv_string db +++ WriteBufAdv_string tb +++
      WriteBufAdv_int 4 seg +++ WriteBufAdv_string f +++ write_count fs +++ write_each write_filter fs
  | WalCmdUpdateSegmentBloomFilterData db tb seg f fs =>
      write_type UPDATE_SEGMENT_BLOOM_FILTER_DATA +++ WriteBufAdv_string db +++ WriteBufAdv_string tb +++
      WriteBufAdv_int 4 seg +++ WriteBufAdv_string f +++ write_count fs +++ write_each write_filter fs
  | WalCmdCheckpoint ts full path name =>
      write_type CHECKPOINT +++ WriteBufAdv_int 8 ts +++ WriteBufAdv_int 1 (if full then 1 else 0) +++
      WriteBufAdv_string path +++ WriteBufAdv_string name
  | WalCmdCompact db tb segs old =>
      write_type COMPACT +++ WriteBufAdv_string db +++ WriteBufAdv_string tb +++
      write_count segs +++ write_each (WalSegmentInfo.WriteBufferAdv use_object_cache) segs +++
      write_count old +++ write_each (WriteBufAdv_int 4) old
  | WalCmdOptimize db tb idx params =>
      write_type OPTIMIZE +++ WriteBufAdv_string db +++ WriteBufAdv_string tb +++ WriteBufAdv_string idx +++
      write_count params +++ write_each InitParameter.WriteAdv params
  | WalCmdDumpIndex db tb idx seg chunks old =>
      write_type DUMP_INDEX +++ WriteBufAdv_string db +++ WriteBufAdv_string tb +++ WriteBufAdv_string idx +++
      WriteBufAdv_int 4 seg +++
      write_count chunks +++ write_each (WalChunkIndexInfo.WriteBufferAdv use_object_cache) chunks +++
      write_count old +++ write_each (WriteBufAdv_int 4) old
  | WalCmdRenameTable db tb new =>
      write_type RENAME_TABLE +++ WriteBufAdv_string db +++ WriteBufAdv_string tb +++ WriteBufAdv_string new
  | WalCmdAddColumns db tb cols =>
      write_type ADD_COLUMNS +++ WriteBufAdv_string db +++ WriteBufAdv_string tb +++
      write_count cols +++ write_each codec_write cols
  | WalCmdDropColumns db tb cols =>
      write_type DROP_COLUMNS +++ WriteBufAdv_string db +++ WriteBufAdv_string tb +++
      write_count cols +++ write_each WriteBufAdv_string cols
  end.

(** ** [ReadAdv]

    A vector constructed with a negative count throws; a loop with a negative bound does
    nothing. *)
Definition read_vector {A : Type} (r : reader A) : reader (list A) :=
  read n := ReadBufAdv_s 4 in read_each r (Z.to_nat n).
Definition read_filter : reader (Z * string) :=
  read id := ReadBufAdv_u 2 in read data := ReadBufAdv_string in rret (id, data).
Definition read_filters : reader (list (Z * string)) :=
  read count := ReadBufAdv_s 4 in
  if count <? 0 then rfail LengthErr else read_each read_filter (Z.to_nat count).

Definition read_body (use_object_cache : bool) (max_bytes p0 : Z) (cmd_type : WalCommandType) : reader WalCmd :=
  match cmd_type with
  | CREATE_DATABASE =>
      read db_name := ReadBufAdv_string in
      read db_dir_tail := ReadBufAdv_string in
      read db_comment := ReadBufAdv_string in
      rret (WalCmdCreateDatabase db_name db_dir_tail db_comment)
  | DROP_DATABASE =>
      read db_name := ReadBufAdv_string in
      rret (WalCmdDropDatabase db_name)
  | CREATE_TABLE =>
      read db_name := ReadBufAdv_string in
      read table_dir_tail := ReadBufAdv_string in
      read n := left max_bytes p0 in
      read table_def := codec_read n in
      rret (WalCmdCreateTable db_name table_dir_tail table_def)
  | DROP_TABLE =>
      read db_name := ReadBufAdv_string in
      read table_name := ReadBufAdv_string in
      rret (WalCmdDropTable db_name table_name)
  | IMPORT =>
      read db_name := ReadBufAdv_string in
      read table_name := ReadBufAdv_string in
      read segment_info := WalSegmentInfo.ReadBufferAdv use_object_cache in
      rret (WalCmdImport db_name table_name segment_info)
  | APPEND =>
      read db_name := ReadBufAdv_string in
      read table_name := ReadBufAdv_string in
      read n := left max_bytes p0 in
      read block := codec_read n in
      rret (WalCmdAppend db_name table_name block)
  | DELETE =>
      read db_name := ReadBufAdv_string in
      read table_name := ReadBufAdv_string in
      read row_ids := read_vector (ReadBufAdv_u 8) in
      rret (WalCmdDelete db_name table_name row_ids)
  | SET_SEGMENT_STATUS_SEALED =>
      read db_name := ReadBufAdv_string in
      read table_name := ReadBufAdv_string in
      read segment_id := ReadBufAdv_u 4 in
      read segment_filter_binary_data := ReadBufAdv_string in
      read block_filter_binary_data := read_filters in
      rret (WalCmdSetSegmentStatusSealed db_name table_name segment_id segment_filter_binary_data block_filter_binary_data)
  | UPDATE_SEGMENT_BLOOM_FILTER_DATA =>
      read db_name := ReadBufAdv_string in
      read table_name := ReadBufAdv_string in
      read segment_id := ReadBufAdv_u 4 in
      read segment_filter_binary_data := ReadBufAdv_string in
      read block_filter_binary_data := read_filters in
      rret (WalCmdUpdateSegmentBloomFilterData db_name table_name segment_id segment_filter_binary_data block_filter_binary_data)
  | CHECKPOINT =>
      read max_commit_ts := ReadBufAdv_s 8 in
      read is_full_checkpoint := ReadBufAdv_s 1 in
      read catalog_path := ReadBufAdv_string in
      read catalog_name := ReadBufAdv_string in
      rret (WalCmdCheckpoint max_commit_ts (negb (is_full_checkpoint =? 0)) catalog_path catalog_name)
  | CREATE_INDEX =>
      read db_name := ReadBufAdv_string in
      read table_name := ReadBufAdv_string in
      read index_dir_tail := ReadBufAdv_string in
      read n := left max_bytes p0 in
      read index_base := codec_read n in
      rret (WalCmdCreateIndex db_name table_name index_dir_tail index_base)
  | DROP_INDEX =>
      read db_name := ReadBufAdv_string in
      read table_name := ReadBufAdv_string in
      read index_name := ReadBufAdv_string in
      rret (WalCmdDropIndex db_name table_name index_name)
  | COMPACT =>
      read db_name := ReadBufAdv_string in
      read table_name := ReadBufAdv_string in
      read new_segment_infos := read_vector (WalSegmentInfo.ReadBufferAdv use_object_cache) in
      read deprecated_segment_ids := read_vector (ReadBufAdv_u 4) in
      rret (WalCmdCompact db_name table_name new_segment_infos deprecated_segment_ids)
  | OPTIMIZE =>
      read db_name := ReadBufAdv_string in
      read table_name := ReadBufAdv_string in
      read index_name := ReadBufAdv_string in
      read params := read_vector InitParameter.ReadAdv in
      rret (WalCmdOptimize db_name table_name index_name params)
  | DUMP_INDEX =>
      read db_name := ReadBufAdv_string in
      read table_name := ReadBufAdv_string in
      read index_name := ReadBufAdv_string in
      read segment_id := ReadBufAdv_u 4 in
      read chunk_infos := read_vector (WalChunkIndexInfo.ReadBufferAdv use_object_cache) in
      read old_chunk_ids := read_vector (ReadBufAdv_u 4) in
      rret (WalCmdDumpIndex db_name table_name index_name segment_id chunk_infos old_chunk_ids)
  | RENAME_TABLE =>
      read db_name := ReadBufAdv_string in
      read table_name := ReadBufAdv_string in
      read new_table_name := ReadBufAdv_string in
      rret (WalCmdRenameTable db_name table_name new_table_name)
  | ADD_COLUMNS =>
      read db_name := ReadBufAdv_string in
      read table_name := ReadBufAdv_string in
      read columns := read_vector (codec_read max_bytes) in
      rret (WalCmdAddColumns db_name table_name columns)
  | DROP_COLUMNS =>
      read db_name := ReadBufAdv_string in
      read table_name := ReadBufAdv_string in
      read column_names := read_vector ReadBufAdv_string in
      rret (WalCmdDropColumns db_name table_name column_names)
  | INVALID | ALTER_INFO => rfail Unrecoverable
  end.

Definition ReadAdv (use_object_cache : bool) (max_bytes : Z) : reader WalCmd :=
  read p0 := rmark in
  read cmd_type := ReadBufAdv_s 1 in
  read cmd := read_body use_object_cache max_bytes p0 (WalCommandType.of_Z cmd_type) in
  read max_bytes := left max_bytes p0 in
  if max_bytes <? 0 then rfail Unrecoverable else rret cmd.

(** ** What the codec promises *)
Definition sum_size {A : Type} (f : A -> Z) (l : list A) : Z := foldr (fun a n => f a + n) 0 l.

Definition filters_size (fs : list (Z * string)) : Z := 4 + sum_size (fun d => 2 + len d.2) fs.

(** The number of bytes [WriteAdv] appends. *)
Definition size (use_object_cache : bool) (c : WalCmd) : Z :=
  match c with
  | WalCmdCreateDatabase db dir comment => 1 + len db + len dir + len comment
  | WalCmdDropDatabase db => 1 + len db
  | WalCmdCreateTable db dir def => 1 + len db + len dir + codec_size def
  | WalCmdCreateIndex db tb dir idx => 1 + len db + len tb + len dir + codec_size idx
  | WalCmdDropTable db tb => 1 + len db + len tb
  | WalCmdDropIndex db tb idx => 1 + len db + len tb + len idx
  | WalCmdImport db tb seg => 1 + len db + len tb + WalSegmentInfo.size use_object_cache seg
  | WalCmdAppend db tb block => 1 + len db + len tb + codec_size block
  | WalCmdDelete db tb rows => 1 + len db + len tb + 4 + 8 * Z.of_nat (length rows)
  | WalCmdSetSegmentStatusSealed db tb _ f fs => 1 + len db + len tb + 4 + len f + filters_size fs
  | WalCmdUpdateSegmentBloomFilterData db tb _ f fs => 1 + len db + len tb + 4 + len f + filters_size fs
  | WalCmdCheckpoint _ _ path name => 1 + 8 + 1 + len path + len name
  | WalCmdCompact db tb segs old =>
      1 + len db + len tb + 4 + sum_size (WalSegmentInfo.size use_object_cache) segs + 4 + 4 * Z.of_nat (length old)
  | WalCmdOptimize db tb idx params =>
      1 + len db + len tb + len idx + 4 + sum_size InitParameter.GetSizeInBytes params
  | WalCmdDumpIndex db tb idx _ chunks old =>
      1 + len db + len tb + len idx + 4 + 4 + sum_size (WalChunkIndexInfo.size use_object_cache) chunks +
      4 + 4 * Z.of_nat (length old)
  | WalCmdRenameTable db tb new => 1 + len db + len tb + len new
  | WalCmdAddColumns db tb cols => 1 + len db + len tb + 4 + sum_size codec_size cols
  | WalCmdDropColumns db tb cols => 1 + len db + len tb + 4 + sum_size len cols
  end.

Definition ids_ok (w : Z) (l : list Z) : Prop := count_ok l /\ Forall (unsigned_range w) l.
Definition filters_ok (fs : list (Z * string)) : Prop :=
  count_ok fs /\ Forall (fun d => unsigned_range 16 d.1 /\ string_ok d.2) fs.

(** The commands whose fields fit the width of their encoding. *)
Definition cmd_ok (use_object_cache : bool) (c : WalCmd) : Prop :=
  match c with
  | WalCmdCreateDatabase db dir comment => string_ok db /\ string_ok dir /\ string_ok comment
  | WalCmdDropDatabase db => string_ok db
  | WalCmdCreateTable db dir def => string_ok db /\ string_ok dir /\ codec_ok def
  | WalCmdCreateIndex db tb dir idx => string_ok db /\ string_ok tb /\ string_ok dir /\ codec_ok idx
  | WalCmdDropTable db tb => string_ok db /\ string_ok tb
  | WalCmdDropIndex db tb idx => string_ok db /\ string_ok tb /\ string_ok idx
  | WalCmdImport db tb seg => string_ok db /\ string_ok tb /\ WalSegmentInfo.ok use_object_cache seg
  | WalCmdAppend db tb block => string_ok db /\ string_ok tb /\ codec_ok block
  | WalCmdDelete db tb rows => string_ok db /\ string_ok tb /\ ids_ok 64 rows
  | WalCmdSetSegmentStatusSealed db tb seg f fs | WalCmdUpdateSegmentBloomFilterData db tb seg f fs =>
      string_ok db /\ string_ok tb /\ unsigned_range 32 seg /\ string_ok f /\ filters_ok fs
  | WalCmdCheckpoint ts _ path name => signed_range 64 ts /\ string_ok path /\ string_ok name
  | WalCmdCompact db tb segs old =>
      string_ok db /\ string_ok tb /\ count_ok segs /\ Forall (WalSegmentInfo.ok use_object_cache) segs /\ ids_ok 32 old
  | WalCmdOptimize db tb idx params =>
      string_ok db /\ string_ok tb /\ string_ok idx /\ count_ok params /\ Forall InitParameter.ok params
  | WalCmdDumpIndex db tb idx seg chunks old =>
      string_ok db /\ string_ok tb /\ string_ok idx /\ unsigned_range 32 seg /\
      count_ok chunks /\ Forall (WalChunkIndexInfo.ok use_object_cache) chunks /\ ids_ok 32 old
  | WalCmdRenameTable db tb new => string_ok db /\ string_ok tb /\ string_ok new
  | WalCmdAddColumns db tb cols => string_ok db /\ string_ok tb /\ count_ok cols /\ Forall codec_ok cols
  | WalCmdDropColumns db tb cols => string_ok db /\ string_ok tb /\ count_ok cols /\ Forall string_ok cols
  end.

(** What is read back: everything but the files of a record that carries no addresses. *)
Definition canon (use_object_cache : bool) (c : WalCmd) : WalCmd :=
  match c with
  | WalCmdImport db tb seg => WalCmdImport db tb (WalSegmentInfo.canon use_object_cache seg)
  | WalCmdCompact db tb segs old => WalCmdCompact db tb (WalSegmentInfo.canon use_object_cache <$> segs) old
  | WalCmdDumpIndex db tb idx seg chunks old =>
      WalCmdDumpIndex db tb idx seg (WalChunkIndexInfo.canon use_object_cache <$> chunks) old
  | _ => c
  end.

(** The two commands whose [GetSizeInBytes] does not look at the strings. *)
Definition is_filter_cmd (c : WalCmd) : bool :=
  match c with
  | WalCmdSetSegmentStatusSealed _ _ _ _ _ | WalCmdUpdateSegmentBloomFilterData _ _ _ _ _ => true
  | _ => false
  end.

(** ** Lemmas *)
Lemma encodes_vector_bind {A B C : Type} (w : A -> writer) (r : reader B) (f : A -> B) (sz : A -> Z) l w2
    (k : list B -> reader C) c n :
  count_ok l -> (forall a, a ∈ l -> encodes (w a) r (f a) (sz a)) -> encodes w2 (k (f <$> l)) c n ->
  encodes (write_count l +++ write_each w l +++ w2) (read x := read_vector r in k x) c (4 + sum_size sz l + n).
Proof.
  intros Hc Hw (b2 & -> & L2 & R2).
  destruct (encodes_count l Hc) as (b0 & E0 & L0 & R0).
  destruct (encodes_each w r f sz l Hw) as (b1 & E1 & L1 & R1).
  exists (b0 ++ b1 ++ b2). split_and!.
  - unfold write_count. rewrite E0, E1. reflexivity.
  - rewrite !length_app. unfold sum_size. lia.
  - intros rest. unfold rbind, read_vector, rbind. rewrite <- !app_assoc, R0. cbn. rewrite Nat2Z.id, R1. cbn. apply R2.
Qed.

Lemma wapp_nil_r w : w +++ Ok [] = w.
Proof. destruct w as [b|e]; unfold wapp; cbn; [now rewrite app_nil_r|done]. Qed.

Lemma encodes_vector {A B C : Type} (w : A -> writer) (r : reader B) (f : A -> B) (sz : A -> Z) l
    (k : list B -> reader C) c :
  count_ok l -> (forall a, a ∈ l -> encodes (w a) r (f a) (sz a)) -> (forall rest, k (f <$> l) rest = Ok (c, rest)) ->
  encodes (write_count l +++ write_each w l) (read x := read_vector r in k x) c (4 + sum_size sz l).
Proof.
  intros Hc Hw Hk. eapply encodes_size; [|apply Z.add_0_r].
  rewrite <- (wapp_nil_r (write_each w l)). apply (encodes_vector_bind w r f); [done..|].
  exists []. split_and!; [done..|]. intros rest. apply Hk.
Qed.

(** Vectors of plain integers, strings, parameters and columns are read back unchanged. *)
Lemma ids_sum (n : nat) (l : list Z) : sum_size (fun _ => Z.of_nat n) l = Z.of_nat n * Z.of_nat (length l).
Proof. unfold sum_size. apply foldr_const. Qed.

Lemma encodes_vector_id {A C : Type} (w : A -> writer) (r : reader A) (sz : A -> Z) l (k : list A -> reader C) c :
  count_ok l -> (forall a, a ∈ l -> encodes (w a) r a (sz a)) -> (forall rest, k l rest = Ok (c, rest)) ->
  encodes (write_count l +++ write_each w l) (read x := read_vector r in k x) c (4 + sum_size sz l).
Proof. intros Hc Hw Hk. apply (encodes_vector w r id); [done..|]. intros rest. rewrite list_fmap_id. apply Hk. Qed.

Lemma encodes_ids {C : Type} (n : nat) (l : list Z) (k : list Z -> reader C) c :
  ids_ok (8 * Z.of_nat n) l -> (forall rest, k l rest = Ok (c, rest)) ->
  encodes (write_count l +++ write_each (WriteBufAdv_int n) l) (read x := read_vector (ReadBufAdv_u n) in k x) c
    (4 + Z.of_nat n * Z.of_nat (length l)).
Proof.
  intros [Hc Hf] Hk. rewrite <- ids_sum. apply encodes_vector_id; [done| |done].
  intros a Ha. rewrite Forall_forall in Hf. apply encodes_u. auto.
Qed.

Lemma encodes_filters {C : Type} (fs : list (Z * string)) (k : list (Z * string) -> reader C) c :
  filters_ok fs -> (forall rest, k fs rest = Ok (c, rest)) ->
  encodes (write_count fs +++ write_each write_filter fs) (read x := read_filters in k x) c (filters_size fs).
Proof.
  intros [Hc Hf] Hk. eapply (encodes_map _ _ _ fs); [|exact Hk].
  unfold read_filters, filters_size. eapply encodes_bind; [now apply encodes_count|].
  replace (Z.of_nat _ <? 0) with false by (symmetry; apply Z.ltb_ge; lia). rewrite Nat2Z.id.
  apply (encodes_list _ _ (fun d => 2 + len d.2)). intros d Hd. rewrite Forall_forall in Hf.
  destruct (Hf d Hd) as [H1 H2]. unfold write_filter, read_filter.
  eapply encodes_bind; [enc_field|]. eapply encodes_map; [enc_field|]. now destruct d.
Qed.

Lemma encodes_InitParameter p :
  InitParameter.ok p -> encodes (InitParameter.WriteAdv p) InitParameter.ReadAdv p (InitParameter.GetSizeInBytes p).
Proof.
  intros [H1 H2]. eapply encodes_size.
  - eapply encodes_bind; [enc_field|]. eapply encodes_map; [enc_field|]. now destruct p.
  - unfold string_size, InitParameter.GetSizeInBytes. lia.
Qed.

(** ** The cursor against [max_bytes] *)
Lemma encodes_at_cmd max_bytes uoc p0 t w c n :
  WalCommandType.of_Z (WalCommandType.to_Z t) = t ->
  0 <= n -> 1 + n <= max_bytes < 2 ^ 31 ->
  encodes_at (p0 - 1) w (read_body uoc max_bytes p0 t) c n ->
  encodes_at p0 (write_type t +++ w) (ReadAdv uoc max_bytes) c (1 + n).
Proof.
  intros Ht Hn Hm H. unfold ReadAdv. apply encodes_at_mark. eapply encodes_at_bind.
  - apply (encodes_s 1); [lia|]. destruct t; vm_compute; split; congruence.
  - cbv beta. rewrite Ht. apply encodes_at_finish; [lia..|exact H].
Qed.

Lemma len_pos s : 4 <= len s.
Proof. unfold len. lia. Qed.

Lemma sum_size_nonneg {A : Type} (f : A -> Z) l : (forall a, a ∈ l -> 0 <= f a) -> 0 <= sum_size f l.
Proof.
  induction l as [|a l IH]; intros H; cbn; [lia|]. unfold sum_size in IH.
  pose proof (H a ltac:(left)). specialize (IH ltac:(intros; apply H; now right)). lia.
Qed.

Lemma elem_sum_size {A : Type} (f : A -> Z) l a :
  a ∈ l -> (forall a, a ∈ l -> 0 <= f a) -> f a <= sum_size f l.
Proof.
  induction l as [|b l IH]; intros Ha H; cbn; [set_solver|]. unfold sum_size in IH.
  pose proof (H b ltac:(left)).
  pose proof (sum_size_nonneg f l ltac:(intros; apply H; now right)). unfold sum_size in *.
  apply elem_of_cons in Ha as [->|Ha]; [lia|].
  specialize (IH Ha ltac:(intros; apply H; now right)). lia.
Qed.

End commands.

(** The writes and reads of one command whose fields are all plain. *)
Ltac enc_last := eapply encodes_map; [enc_field|reflexivity].

Section command_codec.
Context `{P : WalPayload} `{PL : !WalPayloadLaws}.
Context (uoc : bool) (max_bytes p0 : Z).

Abbreviation sized c := (GetSizeInBytes uoc c).2.
Abbreviation roundtrips c :=
  (encodes_at p0 (WriteAdv uoc (sized c)) (ReadAdv uoc max_bytes) (canon uoc c) (size uoc c)).

Lemma roundtrip_plain t w c n m :
  WalCommandType.of_Z (WalCommandType.to_Z t) = t ->
  encodes w (read_body uoc max_bytes p0 t) c n -> m <= max_bytes -> max_bytes < 2 ^ 31 -> 1 + n = m ->
  encodes_at p0 (write_type t +++ w) (ReadAdv uoc max_bytes) c m.
Proof.
  intros Ht H Hm1 Hm2 <-. pose proof (encodes_pos _ _ _ _ H).
  apply encodes_at_cmd; [done|lia..|]. now apply encodes_at_of.
Qed.

(** A command that ends in a definition read with the bytes left. *)
Lemma encodes_at_payload {A : Type} `{CodecLaws A} (mk : A -> WalCmd) L (a : A) :
  codec_ok a -> 0 <= max_bytes < 2 ^ 31 -> 0 <= p0 - L -> p0 - L + codec_size a <= max_bytes -> 0 <= codec_size a ->
  encodes_at L (codec_write a) (read n := left max_bytes p0 in read x := codec_read n in rret (mk x)) (mk a) (codec_size a).
Proof.
  intros Ha H1 H2 H3 H4. apply encodes_at_left; [lia..|]. apply encodes_at_of.
  eapply encodes_map; [apply codec_encodes; [exact Ha|lia]|reflexivity].
Qed.

Lemma codec_size_nonneg {A : Type} `{CodecLaws A} (a : A) : codec_ok a -> 0 <= codec_size a.
Proof.
  intros Ha. destruct (Z.le_gt_cases (codec_size a) 0).
  - eapply encodes_pos, (codec_encodes a 0); [exact Ha|lia].
  - lia.
Qed.

Ltac size_lia := cbn [size]; change len with string_size; unfold filters_size; lia.
Ltac plain_cmd := eapply roundtrip_plain; [reflexivity| |eassumption|eassumption|size_lia]; unfold read_body.

Lemma encodes_bool (b : bool) : encodes (WriteBufAdv_int 1 (if b then 1 else 0)) (ReadBufAdv_s 1) (if b then 1 else 0) 1.
Proof. apply (encodes_s 1); [lia|]. destruct b; vm_compute; split; congruence. Qed.

Lemma encodes_strings {C : Type} (l : list string) (k : list string -> reader C) c :
  count_ok l -> Forall string_ok l -> (forall rest, k l rest = Ok (c, rest)) ->
  encodes (write_count l +++ write_each WriteBufAdv_string l) (read x := read_vector ReadBufAdv_string in k x) c
    (4 + sum_size len l).
Proof.
  intros Hc Hf Hk. apply encodes_vector_id; [done| |done]. rewrite Forall_forall in Hf.
  intros s Hs. apply encodes_string. auto.
Qed.

(** Every command, by the shape of what follows its names. *)
Lemma roundtrip_names c :
  match c with
  | WalCmdCreateDatabase _ _ _ | WalCmdDropDatabase _ | WalCmdDropTable _ _ | WalCmdDropIndex _ _ _
  | WalCmdRenameTable _ _ _ => True
  | _ => False
  end ->
  cmd_ok uoc c -> size uoc c <= max_bytes -> max_bytes < 2 ^ 31 -> roundtrips c.
Proof.
  intros Hc Hok Hs Hm. destruct c; try contradiction; cbn [cmd_ok] in Hok; split_hyps.
  all: eapply roundtrip_plain; [reflexivity|unfold read_body; enc; enc_last|exact Hs|exact Hm|size_lia].
Qed.

Lemma sized_optimize db tb idx params : sized (WalCmdOptimize db tb idx params) = WalCmdOptimize db tb idx params.
Proof. cbn. now destruct (size_each _ _ params). Qed.

Lemma roundtrip_vectors c :
  match c with
  | WalCmdDelete _ _ _ | WalCmdDropColumns _ _ _ | WalCmdAddColumns _ _ _ | WalCmdOptimize _ _ _ _
  | WalCmdSetSegmentStatusSealed _ _ _ _ _ | WalCmdUpdateSegmentBloomFilterData _ _ _ _ _
  | WalCmdCheckpoint _ _ _ _ => True
  | _ => False
  end ->
  cmd_ok uoc c -> size uoc c <= max_bytes -> max_bytes < 2 ^ 31 -> roundtrips c.
Proof.
  intros Hc Hok Hs Hm. destruct c; try contradiction; cbn [cmd_ok] in Hok; split_hyps.
  all: rewrite ?sized_optimize; eapply roundtrip_plain; [reflexivity| |exact Hs|exact Hm|].
  - unfold read_body. enc. apply (encodes_ids 8); [done|reflexivity].
  - size_lia.
  - unfold read_body. enc. apply encodes_filters; [done|reflexivity].
  - size_lia.
  - unfold read_body. enc. apply encodes_filters; [done|reflexivity].
  - size_lia.
  - unfold read_body. eapply encodes_bind; [enc_field|]. eapply encodes_bind; [apply encodes_bool|]. enc.
    eapply encodes_map; [enc_field|]. now destruct is_full_checkpoint_.
  - size_lia.
  - unfold read_body. enc.
    apply (encodes_vector_id _ _ InitParameter.GetSizeInBytes); [done| |reflexivity].
    intros q Hq. apply encodes_InitParameter. rewrite Forall_forall in H3. auto.
  - size_lia.
  - unfold read_body. enc. apply (encodes_vector_id _ _ codec_size); [done| |reflexivity].
    intros a Ha. rewrite Forall_forall in H2. apply codec_encodes; [auto|]. split; [|lia].
    cbn [size] in Hs. pose proof (len_pos db_name_). pose proof (len_pos table_name_).
    pose proof (elem_sum_size codec_size column_defs_ a Ha ltac:(intros; apply codec_size_nonneg; auto)). lia.
  - size_lia.
  - unfold read_body. enc. apply encodes_strings; [done..|reflexivity].
  - size_lia.
Qed.

Lemma roundtrip_payload c :
  match c with
  | WalCmdCreateTable _ _ _ | WalCmdCreateIndex _ _ _ _ | WalCmdAppend _ _ _ => True
  | _ => False
  end ->
  cmd_ok uoc c -> size uoc c <= max_bytes -> max_bytes < 2 ^ 31 -> roundtrips c.
Proof.
  intros Hc Hok Hs Hm. destruct c; try contradiction; cbn [cmd_ok size] in Hok, Hs; split_hyps;
    change len with string_size in Hs;
    match goal with H : codec_ok _ |- _ => pose proof (codec_size_nonneg _ H) end;
    assert (forall s, 4 <= string_size s) as Hp by (intros; unfold string_size; lia);
    pose proof (Hp db_name_); try pose proof (Hp table_name_); try pose proof (Hp table_dir_tail_);
    try pose proof (Hp index_dir_tail_).
  all: eapply encodes_at_size; [eapply encodes_at_cmd; [reflexivity| | |unfold read_body; enc_at]|].
  3: apply (encodes_at_payload (WalCmdCreateTable _ _)); [done|lia..].
  6: apply (encodes_at_payload (WalCmdCreateIndex _ _ _)); [done|lia..].
  9: apply (encodes_at_payload (WalCmdAppend _ _)); [done|lia..].
  all: cbv beta; cbn [size]; change len with string_size; lia.
Qed.

Lemma sized_compact db tb segs old :
  GetSizeInBytes uoc (WalCmdCompact db tb segs old) =
  (i32 (size uoc (WalCmdCompact db tb segs old)), WalCmdCompact db tb (sized_segment uoc <$> segs) old).
Proof.
  cbn. rewrite (size_each_spec _ (WalSegmentInfo.size uoc)) by (intros; now rewrite WalSegmentInfo_GetSizeInBytes).
  cbn. rewrite <- Z.add_assoc, swrap_add_l. do 2 f_equal. unfold sum_size. lia.
Qed.

Lemma sized_dump_index db tb idx seg chunks old :
  GetSizeInBytes uoc (WalCmdDumpIndex db tb idx seg chunks old) =
  (i32 (size uoc (WalCmdDumpIndex db tb idx seg chunks old)),
   WalCmdDumpIndex db tb idx seg (sized_chunk uoc <$> chunks) old).
Proof.
  cbn. rewrite (size_each_spec _ (WalChunkIndexInfo.size uoc)) by (intros; apply WalChunkIndexInfo_GetSizeInBytes).
  cbn. rewrite swrap_add_l. do 2 f_equal. unfold sum_size. lia.
Qed.

(** A vector of records after [GetSizeInBytes] updated each of them. *)
Lemma encodes_sized {A C : Type} (w : A -> writer) (r : reader A) (up f : A -> A) (sz : A -> Z) l w2
    (k : list A -> reader C) c n :
  count_ok l -> (forall a, a ∈ l -> encodes (w (up a)) r (f a) (sz a)) -> encodes w2 (k (f <$> l)) c n ->
  encodes (write_count (up <$> l) +++ write_each w (up <$> l) +++ w2) (read x := read_vector r in k x) c
    (4 + sum_size sz l + n).
Proof.
  intros Hc Hw H2. pose proof (encodes_vector_bind (fun a => w (up a)) r f sz l w2 k c n Hc Hw H2) as E.
  unfold write_count in *. rewrite length_fmap.
  replace (write_each w (up <$> l)) with (write_each (fun a => w (up a)) l); [exact E|].
  clear. induction l as [|a l IH]; cbn; [done|]. now rewrite IH.
Qed.

Lemma roundtrip_segments c :
  match c with
  | WalCmdImport _ _ _ | WalCmdCompact _ _ _ _ | WalCmdDumpIndex _ _ _ _ _ _ => True
  | _ => False
  end ->
  cmd_ok uoc c -> size uoc c <= max_bytes -> max_bytes < 2 ^ 31 -> roundtrips c.
Proof.
  intros Hc Hok Hs Hm. destruct c; try contradiction; cbn [cmd_ok] in Hok; split_hyps;
    rewrite ?sized_compact, ?sized_dump_index.
  all: try (cbn; rewrite WalSegmentInfo_GetSizeInBytes; cbn; rewrite <- sized_segment_eq).
  all: eapply roundtrip_plain; [reflexivity| |exact Hs|exact Hm|].
  - unfold read_body. enc. eapply encodes_map; [now apply encodes_WalSegmentInfo|reflexivity].
  - size_lia.
  - unfold read_body. enc. eapply (encodes_sized _ _ (sized_segment uoc) _ (WalSegmentInfo.size uoc)); [done| |].
    + intros a Ha. rewrite Forall_forall in H2. apply encodes_WalSegmentInfo. auto.
    + apply (encodes_ids 4); [done|reflexivity].
  - size_lia.
  - unfold read_body. enc. eapply (encodes_sized _ _ (sized_chunk uoc) _ (WalChunkIndexInfo.size uoc)); [done| |].
    + intros a Ha. rewrite Forall_forall in H4. apply encodes_WalChunkIndexInfo. auto.
    + apply (encodes_ids 4); [done|reflexivity].
  - size_lia.
Qed.

Lemma encodes_cmd_at c :
  cmd_ok uoc c -> size uoc c <= max_bytes -> max_bytes < 2 ^ 31 -> roundtrips c.
Proof.
  destruct c; first [apply roundtrip_names; exact I | apply roundtrip_vectors; exact I
                    | apply roundtrip_payload; exact I | apply roundtrip_segments; exact I].
Qed.
End command_codec.

Section command_laws.
Context `{P : WalPayload} `{PL : !WalPayloadLaws}.

Lemma encodes_cmd uoc max_bytes c :
  cmd_ok uoc c -> size uoc c <= max_bytes < 2 ^ 31 ->
  encodes (WriteAdv uoc (GetSizeInBytes uoc c).2) (ReadAdv uoc max_bytes) (canon uoc c) (size uoc c).
Proof. intros Hok [H1 H2]. apply encodes_of_at. intros p0. now apply encodes_cmd_at. Qed.

Lemma size_nonneg uoc c : cmd_ok uoc c -> 0 <= size uoc c.
Proof.
  intros Hok. destruct (Z.le_gt_cases (size uoc c) 0); [|lia].
  eapply encodes_pos, (encodes_cmd uoc 0); [exact Hok|lia].
Qed.

Lemma i32_fold_u64 {A : Type} (f : A -> Z) l r :
  i32 (foldl (fun r a => u64 (r + f a)) r l) = i32 (r + sum_size f l).
Proof.
  revert r. induction l as [|a l IH]; intros r; cbn; [now rewrite Z.add_0_r|].
  rewrite IH. rewrite <- swrap_add_l, swrap_u64, swrap_add_l. f_equal. unfold sum_size. lia.
Qed.

Lemma announced_size uoc c : is_filter_cmd c = false -> (GetSizeInBytes uoc c).1 = i32 (size uoc c).
Proof.
  destruct c; intros H; try discriminate; rewrite ?sized_compact, ?sized_dump_index; try reflexivity.
  - cbn. rewrite WalSegmentInfo_GetSizeInBytes. cbn. now rewrite swrap_add_r.
  - cbn. f_equal. lia.
  - cbn. unfold len. f_equal. lia.
  - cbn. rewrite !swrap_add_l. rewrite (size_each_gen _ InitParameter.GetSizeInBytes) by reflexivity. reflexivity.
  - cbn. apply i32_fold_u64.
  - cbn. apply i32_fold_u64.
Qed.

(** Every log command but the two that carry filters is written, after
    [GetSizeInBytes], in exactly the announced number of bytes; the reader that may use
    that many bytes gets the command back, with the files of its segments and chunks when
    the object cache is in use, and stops behind it. The two filter commands are read
    back as well. *)
Theorem wal_cmd_roundtrip (uoc : bool) (max_bytes : Z) (c : WalCmd) :
  cmd_ok uoc c -> size uoc c <= max_bytes < 2 ^ 31 ->
  (is_filter_cmd c = false -> (GetSizeInBytes uoc c).1 = size uoc c) /\
  encodes (WriteAdv uoc (GetSizeInBytes uoc c).2) (ReadAdv uoc max_bytes) (canon uoc c) (size uoc c).
Proof.
  intros Hok Hs. split; [|now apply encodes_cmd]. intros Hf. rewrite announced_size by done.
  pose proof (size_nonneg uoc c Hok). apply swrap_id; [lia|]. unfold signed_range. lia.
Qed.

(** What the filter commands announce, whatever their strings are. *)
Lemma filter_cmd_size_eq fs : filter_cmd_size fs = i32 (81 + 26 * Z.of_nat (length fs)).
Proof.
  unfold filter_cmd_size, sizeof_std_string. change (i32 (i32 (1 + 24 + 24 + 4 + 24) + 4)) with 81.
  assert (forall s, foldl (fun sz (_ : Z * string) => i32 (sz + (2 + 24))) (i32 s) fs = i32 (s + 26 * Z.of_nat (length fs)))
    as H; [|exact (H 81)].
  induction fs as [|f fs IH]; intros s; cbn [foldl length]; [f_equal; lia|].
  rewrite swrap_add_l, IH. f_equal. lia.
Qed.

(** [GetSizeInBytes] of the commands [WalCmdSetSegmentStatusSealed] and
    [WalCmdUpdateSegmentBloomFilterData] counts 24 bytes per string, so a buffer of the
    announced size is overrun exactly when the names and filters, with their length
    prefixes, take more than 24 bytes on average. *)
Theorem filter_cmd_overruns (uoc : bool) (db tb f : string) (seg : Z) (fs : list (Z * string)) (c : WalCmd) :
  c = WalCmdSetSegmentStatusSealed db tb seg f fs \/ c = WalCmdUpdateSegmentBloomFilterData db tb seg f fs ->
  81 + 26 * Z.of_nat (length fs) < 2 ^ 31 ->
  (GetSizeInBytes uoc c).1 < size uoc c <->
  24 * (3 + Z.of_nat (length fs)) < len db + len tb + len f + sum_size (fun d => len d.2) fs.
Proof.
  intros Hc Hn.
  assert (E : (GetSizeInBytes uoc c).1 = 81 + 26 * Z.of_nat (length fs)).
  { destruct Hc as [->| ->]; cbn; rewrite filter_cmd_size_eq; apply swrap_id; try lia; unfold signed_range; lia. }
  assert (F : size uoc c = 1 + len db + len tb + 4 + len f + filters_size fs) by (destruct Hc as [->| ->]; reflexivity).
  rewrite E, F. unfold filters_size.
  assert (G : sum_size (fun d => 2 + len d.2) fs = 2 * Z.of_nat (length fs) + sum_size (fun d => len d.2) fs).
  { clear. unfold sum_size. induction fs as [|d fs IH]; cbn [foldr length]; lia. }
  rewrite G. lia.
Qed.
End command_laws.

(** ** The interface is met: tables, indexes and columns by their own codecs, data blocks
    here by the codec of strings. *)
Module DemoPayload.
Import TableDef IndexBase.

#[export] Instance string_Codec : Codec string := {
  codec_write := WriteBufAdv_string;
  codec_read _ := ReadBufAdv_string;
  codec_size := string_size;
  codec_ok := string_ok;
}.
#[export] Instance string_CodecLaws : CodecLaws string.
Proof. constructor. intros. now apply encodes_string. Qed.

#[export] Instance payload : WalPayload := {
  table_def_t := TableDef;
  index_base_t := IndexBase;
  data_block_t := string;
  column_def_t := ColumnDef;
  TableDef_eq := TableDef.op_eq;
  IndexBase_eq := IndexBase.op_eq;
  ColumnDef_eq := ColumnDef.op_eq;
}.
#[export] Instance payload_laws : WalPayloadLaws.
Proof. constructor; apply _. Qed.

Definition demo_block : WalBlockInfo.t :=
  WalBlockInfo.mk 3 100 8192 [(1, 2); (3, 4)] [] 
    (mkAddrSerializer ["f1"] [PersistenceManager.mkObjAddr "key" 0 10] [ObjStat.make 10 1 2]) 0.
Definition demo_segment : WalSegmentInfo.t := WalSegmentInfo.mk 7 2 100 90 8192 [demo_block].
Definition demo_compact : WalCmd := WalCmdCompact "db" "t" [demo_segment] [1; 2; 3].

Lemma demo_compact_ok : cmd_ok true demo_compact.
Proof.
  cbn. split_and!; try reflexivity.
  - repeat constructor; try (vm_compute; intuition congruence).
  - repeat constructor; vm_compute; congruence.
Qed.
End DemoPayload.

Import DemoPayload.
Lemma wal_cmd_roundtrip_witness :
  size true demo_compact <= 1000 < 2 ^ 31 /\
  (is_filter_cmd demo_compact = false -> (GetSizeInBytes true demo_compact).1 = size true demo_compact) /\
  encodes (WriteAdv true (GetSizeInBytes true demo_compact).2) (ReadAdv true 1000) (canon true demo_compact)
    (size true demo_compact).
Proof.
  assert (size true demo_compact <= 1000 < 2 ^ 31) by (vm_compute; split; congruence).
  split; [done|]. apply (wal_cmd_roundtrip true 1000 demo_compact demo_compact_ok); done.
Defined.

Lemma filter_cmd_overruns_witness :
  (GetSizeInBytes false (WalCmdSetSegmentStatusSealed "default_database" "a_table_with_a_long_name" 1
     "abcdefghijklmnopqrstuvwxyz" [])).1 <
  size false (WalCmdSetSegmentStatusSealed "default_database" "a_table_with_a_long_name" 1
     "abcdefghijklmnopqrstuvwxyz" []).
Proof. eapply (filter_cmd_overruns false); [left; reflexivity|vm_compute; reflexivity|vm_compute; reflexivity]. Defined.
