(* ===== verification/WalEntry.v ===== *)
(** * Log entries: [WalEntry] of [src/src/storage/wal/wal_entry.cpp] (lines 1260-1377)

    An entry is a 24-byte header (size, checksum, transaction, commit timestamp), the
    number of commands, the commands, and the size again. [ReadAdv] works on the buffer
    of a file and an offset, since it looks at bytes relative to its cursor; a read outside
    the buffer is [Undefined]. *)
From S2P Require Import Prelude Serialize Crc WalInfo WalCmd.

Definition sizeof_WalEntryHeader : Z := 24.

(** [ReadBuf<T>(buf + off)]. *)
Definition read_at {A : Type} (r : reader A) (buf : bytes) (off : Z) : res A :=
  if (0 <=? off) && (off <=? Z.of_nat (length buf))
  then let? (v, _) := r (drop (Z.to_nat off) buf) in Ok v
  else Err Undefined.

Section entries.
Context `{P : WalPayload}.

Record WalEntry := mkWalEntry {
  size_ : Z;
  checksum_ : Z;
  txn_id_ : Z;
  commit_ts_ : Z;
  cmds_ : list WalCmd;
}.

Definition set_cmds (cmds : list WalCmd) (e : WalEntry) : WalEntry :=
  mkWalEntry (size_ e) (checksum_ e) (txn_id_ e) (commit_ts_ e) cmds.

Definition entry_op_eq (a b : WalEntry) : bool :=
  (txn_id_ a =? txn_id_ b) && (commit_ts_ a =? commit_ts_ b) && list_op_eq cmd_op_eq (cmds_ a) (cmds_ b).

Definition entry_GetSizeInBytes (uoc : bool) (e : WalEntry) : Z * WalEntry :=
  let '(size, cmds) := size_each (GetSizeInBytes uoc) (i32 (sizeof_WalEntryHeader + 4)) (cmds_ e) in
  (i32 (size + 4), set_cmds cmds e).

Definition header_bytes (size checksum txn_id commit_ts : Z) : bytes :=
  le_encode 4 size ++ le_encode 4 checksum ++ le_encode 8 txn_id ++ le_encode 8 commit_ts.

(** The header is copied first and its size and checksum are patched at the end; the
    checksum is computed over [size] bytes with the checksum field zero. *)
Definition entry_WriteAdv (uoc : bool) (e : WalEntry) : writer :=
  let? payload := WriteBufAdv_int 4 (i32 (Z.of_nat (length (cmds_ e)))) +++ write_each (WriteAdv uoc) (cmds_ e) in
  let size := i32 (sizeof_WalEntryHeader + Z.of_nat (length payload) + 4) in
  if size <? 0 then Err Undefined else
  let with_checksum c := header_bytes size c (txn_id_ e) (commit_ts_ e) ++ payload ++ le_encode 4 size in
  Ok (with_checksum (CRC32IEEE.makeCRC (take (Z.to_nat size) (with_checksum 0)))).

(** The header of the entry at [ptr]. *)
Definition read_header : reader (Z * Z * Z * Z) :=
  read size := ReadBufAdv_s 4 in
  read checksum := ReadBufAdv_u 4 in
  read txn_id := ReadBufAdv_s 8 in
  read commit_ts := ReadBufAdv_u 8 in
  rret (size, checksum, txn_id, commit_ts).

(** The buffer while [header->checksum_] is zero. *)
Definition clear_checksum (buf : bytes) (off : Z) : bytes :=
  take (Z.to_nat (off + 4)) buf ++ le_encode 4 0 ++ drop (Z.to_nat (off + 8)) buf.

(** The loop over the commands; [None] is [return nullptr]. *)
Fixpoint read_cmds (uoc : bool) (max_bytes p0 : Z) (n : nat) : reader (option (list WalCmd)) :=
  match n with
  | O => rret (Some [])
  | S n =>
      read m := left max_bytes p0 in
      if m <=? 0 then rret None else
      read cmd := ReadAdv uoc m in
      read l := read_cmds uoc max_bytes p0 n in
      rret (cons cmd <$> l)
  end.

(** The part of [ReadAdv] behind the checks of the header. [ptr += sizeof(i32)] skips the
    pad without reading it. *)
Definition read_payload (uoc : bool) (max_bytes : Z) : reader (option (list WalCmd)) :=
  read p0 := rmark in
  read _ := take_bytes 24 in
  read cnt := ReadBufAdv_s 4 in
  read cmds := read_cmds uoc max_bytes p0 (Z.to_nat cnt) in
  match cmds with
  | None => rret None
  | Some cmds =>
      read p := rmark in
      if i32 (max_bytes - (p0 - (p - 4))) <? 0 then rret None else rret (Some cmds)
  end.

Definition entry_ReadAdv (uoc : bool) (buf : bytes) (off max_bytes : Z) : res (option WalEntry) :=
  if max_bytes <=? 0 then Ok None else
  let? (size, checksum, txn_id, commit_ts) := read_at read_header buf off in
  let? size2 := read_at (ReadBufAdv_s 4) buf (off + size - 4) in
  if negb (size =? size2) then Ok None else
  if (size <? 0) || (Z.of_nat (length buf) <? off + size) then Err Undefined else
  let checksum2 := CRC32IEEE.makeCRC (take (Z.to_nat size) (drop (Z.to_nat off) (clear_checksum buf off))) in
  if negb (checksum =? checksum2) then Ok None else
  let? cmds := read_at (read_payload uoc max_bytes) buf off in
  Ok (mkWalEntry size checksum txn_id commit_ts <$> cmds).

(** The newest checkpoint command of an entry, and whether there is one with a positive
    timestamp ([last_checkpoint_cmd] is left as it was when there is none). *)
Definition checkpoint_step (acc : Z * option WalCmd) (cmd : WalCmd) : Z * option WalCmd :=
  match cmd with
  | WalCmdCheckpoint max_commit_ts _ _ _ =>
      if acc.1 <? u64 max_commit_ts then (u64 max_commit_ts, Some cmd) else acc
  | _ => acc
  end.
Definition IsCheckPoint (e : WalEntry) (last_checkpoint_cmd : option WalCmd) : bool * option WalCmd :=
  let '(max_commit_ts, cmd) := foldl checkpoint_step (0, last_checkpoint_cmd) (cmds_ e) in
  (negb (max_commit_ts =? 0), cmd).

(** ** What the codec promises *)
Definition entry_size (uoc : bool) (e : WalEntry) : Z := 32 + sum_size (size uoc) (cmds_ e).

Record entry_ok (uoc : bool) (e : WalEntry) : Prop := {
  ok_txn : signed_range 64 (txn_id_ e);
  ok_ts : unsigned_range 64 (commit_ts_ e);
  ok_count : count_ok (cmds_ e);
  ok_cmds : Forall (cmd_ok uoc) (cmds_ e);
  ok_size : entry_size uoc e < 2 ^ 31;
}.

(** The entry that is read back, with the size and checksum of its bytes. *)
Definition stored_entry (uoc : bool) (e : WalEntry) (checksum : Z) : WalEntry :=
  mkWalEntry (entry_size uoc e) checksum (txn_id_ e) (commit_ts_ e) (canon uoc <$> cmds_ e).

End entries.

(** ** Framing

    A frame is a size, a checksum, the contents and the size again; the checksum is the CRC
    of the frame with the checksum field zero. *)
Lemma le_decode_u n z : unsigned_range (8 * Z.of_nat n) z -> le_decode (le_encode n z) = z.
Proof. intros. rewrite le_decode_encode. now apply Z.mod_small. Qed.
Lemma le_decode_s n z : (0 < n)%nat -> signed_range (8 * Z.of_nat n) z -> swrap (8 * Z.of_nat n) (le_decode (le_encode n z)) = z.
Proof. intros. rewrite le_decode_encode, swrap_mod, swrap_id; auto; lia. Qed.

Definition frame_crc (sz mid pad : bytes) : Z := CRC32IEEE.makeCRC (sz ++ le_encode 4 0 ++ mid ++ pad).

Lemma insert_changes (l : bytes) i b : (i < length l)%nat -> l !! i <> Some b -> <[i := b]> l <> l.
Proof. intros Hi Hb E. apply Hb. rewrite <- E. now apply list_lookup_insert_eq. Qed.

Lemma frame_crc_changes sz mid i b :
  (i < length mid)%nat -> mid !! i <> Some b -> frame_crc sz (<[i := b]> mid) sz <> frame_crc sz mid sz.
Proof.
  intros Hi Hb E. unfold frame_crc in E.
  destruct (lookup_lt_is_Some_2 mid i Hi) as [b0 Hb0]. apply Hb. rewrite Hb0. f_equal.
  apply (makeCRC_one_byte (sz ++ le_encode 4 0 ++ take i mid) b0 b (drop (S i) mid ++ sz)).
  rewrite insert_take_drop in E by done. symmetry in E. rewrite <- (take_drop_middle mid _ _ Hb0) in E at 1.
  rewrite <- !app_assoc in *. exact E.
Qed.

(** A changed byte behind the first size shows in the second size or in the checksum. *)
Lemma frame_corrupt sz mid (i : nat) (b : Byte.byte) :
  length sz = 4%nat ->
  let bs := sz ++ le_encode 4 (frame_crc sz mid sz) ++ mid ++ sz in
  (4 <= i < length bs)%nat -> bs !! i <> Some b ->
  exists ck' mid' pad', <[i := b]> bs = sz ++ ck' ++ mid' ++ pad' /\
    length ck' = 4%nat /\ length mid' = length mid /\ length pad' = 4%nat /\
    (swrap 32 (le_decode pad') <> swrap 32 (le_decode sz) \/
     pad' = sz /\ le_decode ck' <> frame_crc sz mid' pad').
Proof.
  intros Hsz bs [Hi Hl] Hb. subst bs. rewrite !length_app in Hl.
  set (ck := le_encode 4 (frame_crc sz mid sz)) in *. assert (Hck : length ck = 4%nat) by apply length_le_encode.
  assert (Dck : le_decode ck = frame_crc sz mid sz) by (apply (le_decode_u 4), makeCRC_range).
  rewrite insert_app_r_alt by lia. rewrite lookup_app_r in Hb by lia.
  destruct (decide (i - length sz < length ck)%nat) as [Hj|Hj].
  - rewrite insert_app_l by done. rewrite lookup_app_l in Hb by done.
    eexists _, mid, sz. split; [reflexivity|]. rewrite length_insert. split_and!; [done..|].
    right. split; [done|]. rewrite <- Dck. intros E. apply le_decode_inj in E; [|now rewrite length_insert].
    now apply insert_changes in E.
  - rewrite insert_app_r_alt by lia. rewrite lookup_app_r in Hb by lia.
    destruct (decide (i - length sz - length ck < length mid)%nat) as [Hj'|Hj'].
    + rewrite insert_app_l by done. rewrite lookup_app_l in Hb by done.
      eexists ck, _, sz. split; [reflexivity|]. rewrite length_insert. split_and!; [done..|].
      right. split; [done|]. rewrite Dck. apply not_eq_sym. now apply frame_crc_changes.
    + rewrite insert_app_r_alt by lia. rewrite lookup_app_r in Hb by lia.
      eexists ck, mid, _. split; [reflexivity|]. rewrite length_insert. split_and!; [done..|]. left. intros E.
      apply (swrap_decode_inj 4) in E; [|lia|now rewrite length_insert|done].
      apply insert_changes in E; [done|lia|done].
Qed.

Section entry_codec.
Context `{P : WalPayload} `{PL : !WalPayloadLaws}.
Context (uoc : bool).

Lemma read_at_app {A : Type} (r : reader A) pre bs post a n :
  encodes (Ok bs) r a n -> read_at r (pre ++ bs ++ post) (Z.of_nat (length pre)) = Ok a.
Proof.
  intros (bs' & [= <-] & _ & Hr). unfold read_at.
  replace (_ && _) with true
    by (symmetry; apply andb_true_iff; split; apply Z.leb_le; rewrite ?length_app; lia).
  rewrite Nat2Z.id, drop_app_length, Hr. reflexivity.
Qed.

Lemma encodes_header size checksum txn ts :
  signed_range 32 size -> unsigned_range 32 checksum -> signed_range 64 txn -> unsigned_range 64 ts ->
  encodes (Ok (header_bytes size checksum txn ts)) read_header (size, checksum, txn, ts) 24.
Proof.
  intros. change 24 with (4 + (4 + (8 + 8))).
  change (Ok (header_bytes size checksum txn ts)) with
    (WriteBufAdv_int 4 size +++ WriteBufAdv_int 4 checksum +++ WriteBufAdv_int 8 txn +++ WriteBufAdv_int 8 ts).
  unfold read_header. enc. eapply encodes_map; [enc_field|reflexivity].
Qed.

Lemma length_header size checksum txn ts : length (header_bytes size checksum txn ts) = 24%nat.
Proof. reflexivity. Qed.

Abbreviation sized c := (GetSizeInBytes uoc c).2.

(** The loop over the commands. *)
Lemma encodes_at_cmds max_bytes p0 L cmds :
  Forall (cmd_ok uoc) cmds -> 0 <= p0 - L -> p0 - L + sum_size (size uoc) cmds + 4 <= max_bytes < 2 ^ 31 ->
  encodes_at L (write_each (fun c => WriteAdv uoc (sized c)) cmds) (read_cmds uoc max_bytes p0 (length cmds))
    (Some (canon uoc <$> cmds)) (sum_size (size uoc) cmds).
Proof.
  intros Hok. revert L. induction Hok as [|c cmds Hc Hcs IH]; intros L HL Hm.
  - apply encodes_at_of, encodes_ret.
  - unfold sum_size in *. cbn [write_each read_cmds length foldr fmap list_fmap] in *.
    pose proof (size_nonneg uoc c Hc).
    pose proof (sum_size_nonneg (size uoc) cmds) as Hn. unfold sum_size in Hn.
    rewrite Forall_forall in Hcs. specialize (Hn ltac:(intros; apply size_nonneg; auto)).
    apply encodes_at_left; [lia..|].
    replace (_ <=? 0) with false by (symmetry; apply Z.leb_gt; lia).
    eapply encodes_at_bind; [apply encodes_cmd; [done|lia]|].
    eapply encodes_at_map; [apply IH; lia|reflexivity].
Qed.

Lemma write_each_fmap {A B : Type} (w : B -> writer) (f : A -> B) l :
  write_each w (f <$> l) = write_each (fun a => w (f a)) l.
Proof. induction l as [|a l IH]; cbn; [done|]. now rewrite IH. Qed.

Lemma cmds_GetSizeInBytes e :
  (entry_GetSizeInBytes uoc e).2 = set_cmds ((fun c => sized c) <$> cmds_ e) e.
Proof.
  unfold entry_GetSizeInBytes.
  assert (forall s, (size_each (GetSizeInBytes uoc) s (cmds_ e)).2 = (fun c => sized c) <$> cmds_ e) as H.
  { induction (cmds_ e) as [|c l IH]; intros s; cbn; [done|].
    specialize (IH (i32 (s + (GetSizeInBytes uoc c).1))). destruct (GetSizeInBytes uoc c). cbn in *.
    destruct (size_each _ _ l). cbn in *. congruence. }
  specialize (H (i32 (sizeof_WalEntryHeader + 4))). destruct (size_each _ _ _). cbn in *. now subst.
Qed.

Abbreviation sized_entry e := ((entry_GetSizeInBytes uoc e).2).

(** The bytes of an entry: header, payload and the size once more. *)
Definition entry_bytes (e : WalEntry) (checksum : Z) (payload : bytes) : bytes :=
  header_bytes (entry_size uoc e) checksum (txn_id_ e) (commit_ts_ e) ++ payload ++ le_encode 4 (entry_size uoc e).
Definition entry_crc (e : WalEntry) (payload : bytes) : Z := CRC32IEEE.makeCRC (entry_bytes e 0 payload).

Lemma entry_size_nonneg e : entry_ok uoc e -> 32 <= entry_size uoc e.
Proof.
  intros H. unfold entry_size. pose proof (sum_size_nonneg (size uoc) (cmds_ e)) as Hn.
  pose proof (ok_cmds _ _ H) as Hc. rewrite Forall_forall in Hc.
  specialize (Hn ltac:(intros; apply size_nonneg; auto)). lia.
Qed.

Lemma length_entry_bytes e c payload :
  Z.of_nat (length payload) = 4 + sum_size (size uoc) (cmds_ e) ->
  Z.of_nat (length (entry_bytes e c payload)) = entry_size uoc e.
Proof. intros H. unfold entry_bytes, entry_size. rewrite !length_app, length_header, length_le_encode. lia. Qed.

Lemma entry_WriteAdv_spec e :
  entry_ok uoc e ->
  exists payload,
    Z.of_nat (length payload) = 4 + sum_size (size uoc) (cmds_ e) /\
    entry_WriteAdv uoc (sized_entry e) = Ok (entry_bytes e (entry_crc e payload) payload) /\
    (forall max_bytes hdr rest, length hdr = 24%nat -> entry_size uoc e <= max_bytes < 2 ^ 31 ->
       read_payload uoc max_bytes (hdr ++ payload ++ le_encode 4 (entry_size uoc e) ++ rest) =
       Ok (Some (canon uoc <$> cmds_ e), le_encode 4 (entry_size uoc e) ++ rest)).
Proof.
  intros Hok. pose proof (entry_size_nonneg e Hok). destruct Hok as [H1 H2 H3 H4 H5].
  destruct (encodes_count (cmds_ e) H3) as (b0 & E0 & L0 & R0).
  assert (Hw : forall L max_bytes p0, 0 <= p0 - L -> p0 - L + sum_size (size uoc) (cmds_ e) + 4 <= max_bytes < 2 ^ 31 ->
    encodes_at L (write_each (fun c => WriteAdv uoc (sized c)) (cmds_ e)) (read_cmds uoc max_bytes p0 (length (cmds_ e)))
      (Some (canon uoc <$> cmds_ e)) (sum_size (size uoc) (cmds_ e))) by (intros; now apply encodes_at_cmds).
  unfold entry_size in *.
  destruct (Hw 0 (sum_size (size uoc) (cmds_ e) + 4) 0) as (b1 & E1 & L1 & _); [lia..|].
  exists (b0 ++ b1). split; [rewrite length_app; lia|]. split.
  - unfold entry_WriteAdv. rewrite cmds_GetSizeInBytes. cbn [cmds_ set_cmds txn_id_ commit_ts_].
    rewrite length_fmap, write_each_fmap, E0, E1. unfold wapp. cbn [res_bind].
    replace (i32 (sizeof_WalEntryHeader + Z.of_nat (length (b0 ++ b1)) + 4)) with (entry_size uoc e)
      by (unfold sizeof_WalEntryHeader, entry_size; rewrite length_app, swrap_id; [lia..|unfold signed_range; lia]).
    replace (_ <? 0) with false by (symmetry; apply Z.ltb_ge; unfold entry_size; lia).
    assert (Z.of_nat (length (entry_bytes e 0 (b0 ++ b1))) = entry_size uoc e)
      by (apply length_entry_bytes; rewrite length_app; lia).
    unfold entry_crc, entry_bytes in *. rewrite firstn_all2 by lia. reflexivity.
  - intros max_bytes hdr rest Hh Hm.
    set (pad := le_encode 4 (32 + sum_size (size uoc) (cmds_ e))).
    assert (Hp : length pad = 4%nat) by apply length_le_encode.
    set (p0 := Z.of_nat (length (hdr ++ (b0 ++ b1) ++ pad ++ rest))).
    unfold read_payload. unfold rbind at 1, rmark. cbn [res_bind]. fold p0.
    unfold rbind at 1. rewrite take_bytes_app by done. cbn [res_bind].
    unfold rbind at 1. rewrite <- app_assoc, R0. cbn [res_bind]. rewrite Nat2Z.id.
    destruct (Hw (p0 - 28) max_bytes p0) as (b1' & E1' & _ & R1); [lia..|].
    rewrite E1 in E1'. injection E1' as <-.
    unfold rbind. rewrite R1 by (unfold p0; rewrite !length_app in *; lia). cbn [res_bind rmark].
    rewrite swrap_id; [|lia|unfold signed_range, p0; rewrite !length_app; lia].
    replace (_ <? 0) with false; [reflexivity|]. symmetry. apply Z.ltb_ge. unfold p0. rewrite !length_app. lia.
Qed.

(** ** The checks of [ReadAdv]

    The buffer around an entry whose header announces its length: the four bytes of the
    size, of the checksum, the rest of header and payload, and the pad. *)
Lemma read_at_drop {A : Type} (r : reader A) pre l off a rest :
  off = Z.of_nat (length pre) -> r l = Ok (a, rest) -> read_at r (pre ++ l) off = Ok a.
Proof.
  intros -> Hr. unfold read_at.
  replace (_ && _) with true by (symmetry; apply andb_true_iff; split; apply Z.leb_le; rewrite ?length_app; lia).
  now rewrite Nat2Z.id, drop_app_length, Hr.
Qed.

Lemma clear_checksum_app pre sz ck tail :
  length sz = 4%nat -> length ck = 4%nat ->
  clear_checksum (pre ++ sz ++ ck ++ tail) (Z.of_nat (length pre)) = pre ++ sz ++ le_encode 4 0 ++ tail.
Proof.
  intros Hs Hc. unfold clear_checksum.
  replace (Z.to_nat (Z.of_nat (length pre) + 4)) with (length (pre ++ sz)) by (rewrite length_app; lia).
  replace (Z.to_nat (Z.of_nat (length pre) + 8)) with (length (pre ++ sz ++ ck)) by (rewrite !length_app; lia).
  rewrite (app_assoc pre sz (ck ++ tail)), take_app_length.
  replace ((pre ++ sz) ++ ck ++ tail) with ((pre ++ sz ++ ck) ++ tail) by (now rewrite <- !app_assoc).
  rewrite drop_app_length. now rewrite <- !app_assoc.
Qed.

Lemma entry_checks pre sz ck mid pad post max_bytes size :
  length sz = 4%nat -> length ck = 4%nat -> (16 <= length mid)%nat -> length pad = 4%nat -> 0 < max_bytes ->
  swrap 32 (le_decode sz) = size -> size = 12 + Z.of_nat (length mid) ->
  entry_ReadAdv uoc (pre ++ sz ++ ck ++ mid ++ pad ++ post) (Z.of_nat (length pre)) max_bytes =
  (if negb (size =? swrap 32 (le_decode pad)) then Ok None else
   if negb (le_decode ck =? CRC32IEEE.makeCRC (sz ++ le_encode 4 0 ++ mid ++ pad)) then Ok None else
   let? cmds := read_at (read_payload uoc max_bytes) (pre ++ sz ++ ck ++ mid ++ pad ++ post) (Z.of_nat (length pre)) in
   Ok (mkWalEntry size (le_decode ck) (swrap 64 (le_decode (take 8 mid))) (le_decode (take 8 (drop 8 mid))) <$> cmds)).
Proof.
  intros Hsz Hck Hmid Hpad Hm Hd Hsize. unfold entry_ReadAdv.
  replace (max_bytes <=? 0) with false by (symmetry; apply Z.leb_gt; lia).
  assert (Hmid' : mid = take 8 mid ++ take 8 (drop 8 mid) ++ drop 16 mid).
  { rewrite <- (take_drop 8 mid) at 1. f_equal. rewrite <- (take_drop 8 (drop 8 mid)) at 1. f_equal.
    now rewrite drop_drop. }
  erewrite (read_at_drop read_header); [|reflexivity|]; cycle 1.
  { unfold read_header. unfold rbind at 1. rewrite ReadBufAdv_s_app by done. cbn [res_bind].
    unfold rbind at 1. rewrite ReadBufAdv_u_app by done. cbn [res_bind].
    rewrite Hmid' at 1. rewrite <- !app_assoc.
    unfold rbind at 1. rewrite ReadBufAdv_s_app by (rewrite length_take; lia). cbn [res_bind].
    unfold rbind at 1. rewrite ReadBufAdv_u_app by (rewrite length_take, length_drop; lia). cbn [res_bind].
    reflexivity. }
  cbn [res_bind]. change (8 * Z.of_nat 4) with 32. change (8 * Z.of_nat 8) with 64. rewrite Hd.
  replace (pre ++ sz ++ ck ++ mid ++ pad ++ post) with ((pre ++ sz ++ ck ++ mid) ++ pad ++ post) at 1
    by (now rewrite <- !app_assoc).
  erewrite (read_at_drop (ReadBufAdv_s 4) (pre ++ sz ++ ck ++ mid)); cycle 1.
  { rewrite !length_app. lia. }
  { apply ReadBufAdv_s_app. exact Hpad. }
  cbn [res_bind]. change (8 * Z.of_nat 4) with 32. destruct (negb _); [reflexivity|].
  replace ((size <? 0) || _) with false
    by (symmetry; apply orb_false_iff; split; apply Z.ltb_ge; rewrite ?length_app; lia).
  rewrite clear_checksum_app by done. rewrite Nat2Z.id, drop_app_length.
  replace (take (Z.to_nat size) (sz ++ le_encode 4 0 ++ mid ++ pad ++ post))
    with (sz ++ le_encode 4 0 ++ mid ++ pad); [reflexivity|].
  replace (sz ++ le_encode 4 0 ++ mid ++ pad ++ post) with ((sz ++ le_encode 4 0 ++ mid ++ pad) ++ post)
    by (now rewrite <- !app_assoc).
  rewrite take_app_length'; [reflexivity|]. rewrite !length_app, length_le_encode. lia.
Qed.

Definition entry_mid (e : WalEntry) (payload : bytes) : bytes :=
  le_encode 8 (txn_id_ e) ++ le_encode 8 (commit_ts_ e) ++ payload.

Lemma entry_bytes_split e c payload :
  entry_bytes e c payload =
  le_encode 4 (entry_size uoc e) ++ le_encode 4 c ++ entry_mid e payload ++ le_encode 4 (entry_size uoc e).
Proof. unfold entry_bytes, header_bytes, entry_mid. now rewrite <- !app_assoc. Qed.

Lemma length_entry_mid e payload : length (entry_mid e payload) = (16 + length payload)%nat.
Proof. reflexivity. Qed.

Section written.
Context (e : WalEntry) (payload : bytes).
Context (Hok : entry_ok uoc e).
Context (Hlen : Z.of_nat (length payload) = 4 + sum_size (size uoc) (cmds_ e)).

Lemma decode_size : swrap 32 (le_decode (le_encode 4 (entry_size uoc e))) = entry_size uoc e.
Proof.
  apply (le_decode_s 4); [lia|]. pose proof (entry_size_nonneg e Hok). pose proof (ok_size _ _ Hok).
  unfold signed_range. cbn. lia.
Qed.

Lemma mid_size : entry_size uoc e = 12 + Z.of_nat (length (entry_mid e payload)).
Proof. rewrite length_entry_mid. unfold entry_size. lia. Qed.

Lemma entry_ReadAdv_spec pre post max_bytes :
  (forall hdr rest, length hdr = 24%nat ->
     read_payload uoc max_bytes (hdr ++ payload ++ le_encode 4 (entry_size uoc e) ++ rest) =
     Ok (Some (canon uoc <$> cmds_ e), le_encode 4 (entry_size uoc e) ++ rest)) ->
  0 < max_bytes ->
  entry_ReadAdv uoc (pre ++ entry_bytes e (entry_crc e payload) payload ++ post) (Z.of_nat (length pre)) max_bytes =
  Ok (Some (stored_entry uoc e (entry_crc e payload))).
Proof.
  intros Hr Hm. rewrite entry_bytes_split, <- !app_assoc.
  rewrite (entry_checks pre _ _ _ _ post max_bytes (entry_size uoc e));
    [|apply length_le_encode|apply length_le_encode|rewrite length_entry_mid; lia|apply length_le_encode|exact Hm
     |exact decode_size|exact mid_size].
  rewrite decode_size, Z.eqb_refl. cbn [negb].
  rewrite le_decode_u by (apply makeCRC_range). unfold entry_crc at 2 3. rewrite entry_bytes_split, Z.eqb_refl. cbn [negb].
  erewrite read_at_drop; [|reflexivity|]; cycle 1.
  { unfold entry_mid. rewrite !app_assoc, <- (app_assoc _ payload), <- (app_assoc _ (payload ++ _)), <- (app_assoc payload).
    apply Hr. reflexivity. }
  cbn [res_bind fmap option_fmap option_map]. do 2 f_equal. unfold stored_entry, entry_mid. f_equal.
  - rewrite take_app_length' by reflexivity. apply (le_decode_s 8); [lia|apply Hok].
  - rewrite drop_app_length' by reflexivity. rewrite take_app_length' by reflexivity.
    apply (le_decode_u 8). apply Hok.
Qed.

(** ** One changed byte *)
Abbreviation bs := (entry_bytes e (entry_crc e payload) payload).

Lemma entry_ReadAdv_corrupt (i : nat) (b : Byte.byte) pre post max_bytes :
  (4 <= i < length bs)%nat -> bs !! i <> Some b -> 0 < max_bytes ->
  entry_ReadAdv uoc (pre ++ <[i := b]> bs ++ post) (Z.of_nat (length pre)) max_bytes = Ok None.
Proof.
  intros Hi Hb Hm. rewrite entry_bytes_split in *. unfold entry_crc in *. rewrite entry_bytes_split in *.
  destruct (frame_corrupt (le_encode 4 (entry_size uoc e)) (entry_mid e payload) i b eq_refl Hi Hb)
    as (ck' & mid' & pad' & E & Hc & Hmid & Hp & Hbad).
  unfold frame_crc in E at 1. rewrite E. clear E.
  rewrite <- !app_assoc.
  rewrite (entry_checks pre _ ck' mid' pad' post max_bytes (entry_size uoc e));
    [|done|done|rewrite Hmid, length_entry_mid; lia|done|done|exact decode_size|rewrite Hmid; exact mid_size].
  destruct Hbad as [Hbad|[-> Hbad]].
  - rewrite decode_size in Hbad. now rewrite (proj2 (Z.eqb_neq _ _) (not_eq_sym Hbad)).
  - unfold frame_crc in Hbad. rewrite decode_size, Z.eqb_refl. cbn [negb]. now rewrite (proj2 (Z.eqb_neq _ _) Hbad).
Qed.
End written.
End entry_codec.

Section entry_properties.
Context `{P : WalPayload} `{PL : !WalPayloadLaws}.

Lemma entry_announced uoc e :
  entry_ok uoc e -> Forall (fun c => is_filter_cmd c = false) (cmds_ e) ->
  (entry_GetSizeInBytes uoc e).1 = entry_size uoc e.
Proof.
  intros Hok Hf. unfold entry_GetSizeInBytes. rewrite Forall_forall in Hf.
  rewrite (size_each_spec _ (size uoc)) by (intros; apply announced_size; auto). cbn [fst].
  rewrite swrap_add_l, swrap_id; [unfold entry_size, sizeof_WalEntryHeader, sum_size; lia|lia|].
  pose proof (entry_size_nonneg uoc e Hok). pose proof (ok_size _ _ Hok).
  unfold entry_size, sizeof_WalEntryHeader, sum_size, signed_range in *. lia.
Qed.

(** C30. A log entry of less than 2 GiB is written, after [GetSizeInBytes], in exactly its
    size in bytes, the announced one unless it holds a filter command. Wherever these
    bytes stand in a buffer, [ReadAdv] with at least that many bytes accepts the size and
    the checksum and returns the transaction, the timestamp and the commands. *)
Theorem wal_entry_roundtrip (uoc : bool) (e : WalEntry) :
  entry_ok uoc e ->
  exists bs checksum,
    entry_WriteAdv uoc (entry_GetSizeInBytes uoc e).2 = Ok bs /\
    Z.of_nat (length bs) = entry_size uoc e /\
    (Forall (fun c => is_filter_cmd c = false) (cmds_ e) -> (entry_GetSizeInBytes uoc e).1 = entry_size uoc e) /\
    forall pre post max_bytes, entry_size uoc e <= max_bytes < 2 ^ 31 ->
      entry_ReadAdv uoc (pre ++ bs ++ post) (Z.of_nat (length pre)) max_bytes =
      Ok (Some (stored_entry uoc e checksum)).
Proof.
  intros Hok. destruct (entry_WriteAdv_spec uoc e Hok) as (payload & Hl & Hw & Hr).
  exists (entry_bytes uoc e (entry_crc uoc e payload) payload), (entry_crc uoc e payload).
  split_and!; [exact Hw|now apply length_entry_bytes|now apply entry_announced|].
  intros pre post max_bytes Hm. pose proof (entry_size_nonneg uoc e Hok).
  apply entry_ReadAdv_spec; [done|done| |lia]. intros hdr rest Hh. now apply Hr.
Qed.

(** C28. No single corrupted byte of a stored entry goes unnoticed: whatever byte behind the
    size field of a written entry is changed to another value, wherever the entry stands
    in a buffer, [ReadAdv] reports no entry. *)
Theorem wal_entry_corruption_detected (uoc : bool) (e : WalEntry) (bs : bytes) (i : nat) (b : Byte.byte)
    (pre post : bytes) (max_bytes : Z) :
  entry_ok uoc e -> entry_WriteAdv uoc (entry_GetSizeInBytes uoc e).2 = Ok bs ->
  (4 <= i < length bs)%nat -> bs !! i <> Some b -> 0 < max_bytes ->
  entry_ReadAdv uoc (pre ++ <[i := b]> bs ++ post) (Z.of_nat (length pre)) max_bytes = Ok None.
Proof.
  intros Hok Hw Hi Hb Hm. destruct (entry_WriteAdv_spec uoc e Hok) as (payload & Hl & Hw' & _).
  rewrite Hw in Hw'. injection Hw' as ->. now apply entry_ReadAdv_corrupt.
Qed.

(** ** Checkpoints *)
Definition checkpoint_ts (c : WalCmd) : Z :=
  match c with WalCmdCheckpoint ts _ _ _ => u64 ts | _ => 0 end.

Lemma checkpoint_fold cmds ts0 r0 ts r :
  0 <= ts0 -> foldl checkpoint_step (ts0, r0) cmds = (ts, r) ->
  ts0 <= ts /\ Forall (fun c => checkpoint_ts c <= ts) cmds /\
  (ts = ts0 /\ r = r0 \/ exists c, r = Some c /\ c ∈ cmds /\ checkpoint_ts c = ts /\ ts0 < ts).
Proof.
  revert ts0 r0. induction cmds as [|c cmds IH]; intros ts0 r0 H0 E; cbn in E.
  - injection E as <- <-. split; [lia|]. split; [constructor|now left].
  - assert (Hc : exists ts1 r1, checkpoint_step (ts0, r0) c = (ts1, r1) /\ ts0 <= ts1 /\ checkpoint_ts c <= ts1 /\
      (ts1 = ts0 /\ r1 = r0 \/ r1 = Some c /\ checkpoint_ts c = ts1 /\ ts0 < ts1)).
    { destruct c; cbn; try (exists ts0, r0; split_and!; auto; lia).
      destruct (ts0 <? u64 _) eqn:F; [apply Z.ltb_lt in F|apply Z.ltb_ge in F]; eexists _, _;
        (split; [reflexivity|]); split_and!; try lia; auto. }
    destruct Hc as (ts1 & r1 & E1 & H1 & H2 & H3). rewrite E1 in E.
    destruct (IH ts1 r1 ltac:(lia) E) as (L & F & D). split; [lia|]. split; [constructor; [lia|done]|].
    destruct D as [[-> ->]|(c' & -> & Hin & E' & Hlt)].
    + destruct H3 as [[-> ->]|(-> & Hts & Hlt)]; [now left|right]. exists c. split_and!; auto. set_solver.
    + right. exists c'. split_and!; auto; [set_solver|lia].
Qed.

(** [IsCheckPoint] holds exactly when the entry has a checkpoint command with a
    non-zero timestamp; it then returns a checkpoint command of the entry whose timestamp
    is the largest, and it leaves its argument alone otherwise. *)
Theorem is_checkpoint_newest (e : WalEntry) (last r : option WalCmd) (b : bool) :
  IsCheckPoint e last = (b, r) ->
  (b = true <-> Exists (fun c => 0 < checkpoint_ts c) (cmds_ e)) /\
  (b = true -> exists c, r = Some c /\ c ∈ cmds_ e /\ GetType c = CHECKPOINT /\
                 Forall (fun c' => checkpoint_ts c' <= checkpoint_ts c) (cmds_ e)) /\
  (b = false -> r = last).
Proof.
  unfold IsCheckPoint. destruct (foldl _ _ _) as [ts r'] eqn:E. intros [= <- <-].
  apply checkpoint_fold in E as (L & F & D); [|lia]. rewrite negb_true_iff, negb_false_iff, Z.eqb_neq, Z.eqb_eq.
  rewrite List.Exists_exists. split_and!.
  - split.
    + intros Hn. destruct D as [[-> _]|(c & _ & Hin & <- & Hlt)]; [lia|]. exists c. now rewrite <- list_elem_of_In.
    + intros (c & Hin & Hc). rewrite <- list_elem_of_In in Hin. rewrite Forall_forall in F. specialize (F c Hin). cbn in F. lia.
  - intros Hn. destruct D as [[-> _]|(c & -> & Hin & <- & Hlt)]; [lia|]. exists c. split_and!; auto.
    destruct c; cbn in Hlt; try lia; reflexivity.
  - intros ->. destruct D as [[_ ->]|(c & _ & _ & _ & Hlt)]; [done|lia].
Qed.
End entry_properties.

(** ** Witnesses *)
Import DemoPayload.
Definition demo_entry : WalEntry :=
  mkWalEntry 0 0 42 4711 [demo_compact; WalCmdCheckpoint 5 true "data" "full"; WalCmdDropTable "db" "t"].

Lemma demo_entry_ok : entry_ok true demo_entry.
Proof.
  split; [vm_compute; split; congruence..|vm_compute; reflexivity| |vm_compute; reflexivity].
  repeat constructor; try exact demo_compact_ok; vm_compute; intuition congruence.
Qed.

Lemma wal_entry_roundtrip_witness : exists bs checksum,
  entry_WriteAdv true (entry_GetSizeInBytes true demo_entry).2 = Ok bs /\
  entry_ReadAdv true ([Byte.x00] ++ bs ++ []) 1 1000 = Ok (Some (stored_entry true demo_entry checksum)).
Proof.
  destruct (wal_entry_roundtrip true demo_entry demo_entry_ok) as (bs & c & Hw & _ & _ & Hr).
  exists bs, c. split; [exact Hw|]. apply (Hr [Byte.x00] [] 1000). vm_compute. split; congruence.
Defined.

Lemma wal_entry_corruption_detected_witness : exists bs,
  entry_WriteAdv true (entry_GetSizeInBytes true demo_entry).2 = Ok bs /\
  entry_ReadAdv true ([] ++ <[40%nat := Byte.xff]> bs ++ []) 0 1000 = Ok None.
Proof.
  eexists. split; [vm_compute; reflexivity|].
  eapply (wal_entry_corruption_detected true demo_entry _ 40 Byte.xff [] [] 1000 demo_entry_ok);
    [vm_compute; reflexivity|cbn; lia|vm_compute; congruence|lia].
Defined.

Lemma is_checkpoint_newest_witness :
  IsCheckPoint demo_entry None = (true, Some (WalCmdCheckpoint 5 true "data" "full")) /\
  Exists (fun c => 0 < checkpoint_ts c) (cmds_ demo_entry).
Proof.
  assert (E : IsCheckPoint demo_entry None = (true, Some (WalCmdCheckpoint 5 true "data" "full"))) by reflexivity.
  split; [exact E|]. apply (is_checkpoint_newest demo_entry None _ true E). reflexivity.
Defined.
