(* ===== verification/WalIterator.v ===== *)
(** * Iterating over log files: [WalEntryIterator] and [WalListIterator] of
      [src/src/storage/wal/wal_entry.cpp] (lines 1478-1633)

    The iterator over one file works on its content; the iterator over a list of files
    (newest first) first removes what a crash left behind the newest checkpoint. The file
    system is a map from paths to contents. A [while] loop has fuel, and [None] is the
    loop that is still running. *)
From S2P Require Import Prelude Serialize Crc WalInfo WalCmd WalEntry.

Record WalEntryIterator := mkIterator {
  is_backward_ : bool;
  off_ : Z;
  buf_ : bytes;
}.

Module WalEntryIterator.
Section iterator.
Context `{P : WalPayload}.
Context (uoc : bool).

Definition make (buf : bytes) (is_backward : bool) : WalEntryIterator :=
  mkIterator is_backward (if is_backward then Z.of_nat (length buf) else 0) buf.

(** [Make]: a file that cannot be opened is an unrecoverable error. *)
Definition Make (files : gmap string bytes) (wal_path : string) (is_backward : bool) : res WalEntryIterator :=
  match files !! wal_path with
  | Some buf => Ok (make buf is_backward)
  | None => Err Unrecoverable
  end.

Definition set_off (off : Z) (it : WalEntryIterator) : WalEntryIterator := mkIterator (is_backward_ it) off (buf_ it).

Definition HasNext (it : WalEntryIterator) : bool :=
  (is_backward_ it && (0 <? off_ it)) || (negb (is_backward_ it) && (off_ it <? Z.of_nat (length (buf_ it)))).

Definition Next (it : WalEntryIterator) : res (option WalEntry * WalEntryIterator) :=
  if is_backward_ it then
    let? entry_size := read_at (ReadBufAdv_s 4) (buf_ it) (off_ it - 4) in
    if off_ it <? u64 entry_size then Ok (None, it) else
    let? entry := entry_ReadAdv uoc (buf_ it) (off_ it - u64 entry_size) entry_size in
    match entry with
    | Some e => Ok (Some e, set_off (u64 (off_ it - u64 entry_size)) it)
    | None => Ok (None, it)
    end
  else
    let? entry_size := read_at (ReadBufAdv_s 4) (buf_ it) (off_ it) in
    if Z.of_nat (length (buf_ it)) <? u64 (off_ it + u64 entry_size) then Ok (None, it) else
    let? entry := entry_ReadAdv uoc (buf_ it) (off_ it) entry_size in
    match entry with
    | Some e => Ok (Some e, set_off (u64 (off_ it + u64 entry_size)) it)
    | None => Ok (None, it)
    end.

(** The loops of [GetEntryByIndex] and [GetAllEntries]. *)
Fixpoint GetEntryByIndex (fuel : nat) (index count : Z) (it : WalEntryIterator) : res (option (option WalEntry)) :=
  if HasNext it then
    match fuel with
    | O => Ok None
    | S fuel =>
        let? (e, it) := Next it in
        if count =? index then Ok (Some e) else GetEntryByIndex fuel index (count + 1) it
    end
  else Ok (Some None).

Fixpoint collect (fuel : nat) (entries : list (option WalEntry)) (it : WalEntryIterator)
    : res (option (list (option WalEntry) * WalEntryIterator)) :=
  if HasNext it then
    match fuel with
    | O => Ok None
    | S fuel => let? (e, it) := Next it in collect fuel (entries ++ [e]) it
    end
  else Ok (Some (entries, it)).
Definition GetAllEntries (fuel : nat) (it : WalEntryIterator) : res (option (list (option WalEntry) * WalEntryIterator)) :=
  let? r := collect fuel [] it in
  Ok ((fun '(l, it) => (if is_backward_ it then rev l else l, it)) <$> r).

Definition IsGood (it : WalEntryIterator) : bool :=
  (is_backward_ it && (off_ it =? 0)) || (negb (is_backward_ it) && (off_ it =? Z.of_nat (length (buf_ it)))).

End iterator.
End WalEntryIterator.

Record WalListIterator := mkListIterator {
  wal_list_ : list string;
  iter_ : option WalEntryIterator;
}.

Module WalListIterator.
Section list_iterator.
Context `{P : WalPayload}.
Context (uoc : bool).

(** The scan of one file: whether it holds a checkpoint, and the offset of the first bad
    entry. Every entry takes at least one byte, so the length of the file is enough fuel. *)
Fixpoint scan (fuel : nat) (found : bool) (it : WalEntryIterator) : res (bool * option Z) :=
  if WalEntryIterator.HasNext it then
    match fuel with
    | O => Err Undefined
    | S fuel =>
        let? (entry, it) := WalEntryIterator.Next uoc it in
        match entry with
        | Some e => scan fuel (found || (IsCheckPoint e None).1) it
        | None => Ok (found, Some (off_ it))
        end
    end
  else Ok (found, None).
Definition scan_file (files : gmap string bytes) (found : bool) (path : string) : res (bool * option Z) :=
  let? it := WalEntryIterator.Make files path false in
  scan (S (length (buf_ it))) found it.

(** [PurgeBadEntriesAfterLatestCheckpoint]: [before] are the nodes of [wal_list_] in front of
    the iterator, [file_num] of them, and [todo] the node it points to and those behind it. *)
Fixpoint purge (found_checkpoint : bool) (before todo : list string) (files : gmap string bytes)
    : res (list string * gmap string bytes) :=
  if found_checkpoint then Ok (before ++ todo, files) else
  match todo with
  | [] => Ok (before, files)
  | path :: todo =>
      let? (found_checkpoint, bad_offset) := scan_file files found_checkpoint path in
      match bad_offset with
      | Some off =>
          if off =? 0 then purge found_checkpoint [] todo (delete path files)
          else
            let content := take (Z.to_nat off) (default [] (files !! path)) in
            purge found_checkpoint [path] todo (<[path := content]> files)
      | None => purge found_checkpoint (before ++ [path]) todo files
      end
  end.

Definition make (wal_list : list string) (files : gmap string bytes) : res (WalListIterator * gmap string bytes) :=
  let? (wal_list, files) := purge false [] wal_list files in
  match wal_list with
  | [] => Ok (mkListIterator [] None, files)
  | path :: _ => let? it := WalEntryIterator.Make files path true in Ok (mkListIterator wal_list (Some it), files)
  end.

(** The [while (1)] of [HasNext] drops the front of the list until a file has entries. *)
Fixpoint advance (files : gmap string bytes) (wal_list : list string) (it : WalEntryIterator)
    : res (bool * WalListIterator) :=
  match wal_list with
  | front :: ((path :: _) as rest) =>
      let? it := WalEntryIterator.Make files path true in
      if WalEntryIterator.HasNext it then Ok (true, mkListIterator rest (Some it)) else advance files rest it
  | _ => Ok (false, mkListIterator wal_list (Some it))
  end.
Definition HasNext (files : gmap string bytes) (l : WalListIterator) : res (bool * WalListIterator) :=
  match iter_ l with
  | None => Ok (false, l)
  | Some it => if WalEntryIterator.HasNext it then Ok (true, l) else advance files (wal_list_ l) it
  end.
Definition Next (l : WalListIterator) : res (option WalEntry * WalListIterator) :=
  match iter_ l with
  | None => Err Undefined
  | Some it => let? (e, it) := WalEntryIterator.Next uoc it in Ok (e, mkListIterator (wal_list_ l) (Some it))
  end.

End list_iterator.
End WalListIterator.

(** ** Files of written entries *)
Section images.
Context `{P : WalPayload} `{PL : !WalPayloadLaws}.
Context (uoc : bool).
Import WalEntryIterator.

(** The bytes of an entry and of a sequence of entries, as a log writes them. *)
Definition written (e : WalEntry) : writer := entry_WriteAdv uoc (entry_GetSizeInBytes uoc e).2.
Definition image (es : list WalEntry) : writer := write_each written es.

(** An entry as it is read back. *)
Definition stored (e : WalEntry) : WalEntry :=
  match written e with
  | Ok bs => stored_entry uoc e (le_decode (take 4 (drop 4 bs)))
  | Err _ => e
  end.

Lemma written_spec e :
  entry_ok uoc e ->
  exists bs, written e = Ok bs /\ Z.of_nat (length bs) = entry_size uoc e /\
    (exists tail, bs = le_encode 4 (entry_size uoc e) ++ tail) /\ (exists front, bs = front ++ le_encode 4 (entry_size uoc e)) /\
    forall pre post, entry_ReadAdv uoc (pre ++ bs ++ post) (Z.of_nat (length pre)) (entry_size uoc e) = Ok (Some (stored e)).
Proof.
  intros Hok. destruct (entry_WriteAdv_spec uoc e Hok) as (payload & Hl & Hw & Hr).
  pose proof (entry_size_nonneg uoc e Hok). pose proof (ok_size _ _ Hok).
  exists (entry_bytes uoc e (entry_crc uoc e payload) payload).
  assert (Hst : stored e = stored_entry uoc e (entry_crc uoc e payload)).
  { unfold stored, written. rewrite Hw, entry_bytes_split. f_equal.
    rewrite drop_app_length', take_app_length' by reflexivity. apply (le_decode_u 4), makeCRC_range. }
  split_and!; [exact Hw|now apply length_entry_bytes| | |].
  - rewrite entry_bytes_split. eauto.
  - rewrite entry_bytes_split, !app_assoc. eauto.
  - intros pre post. rewrite Hst. apply entry_ReadAdv_spec; [done|done| |lia].
    intros hdr rest Hh. apply Hr; [done|lia].
Qed.

Lemma size_at pre l off n rest :
  off = Z.of_nat (length pre) -> signed_range 32 n -> l = le_encode 4 n ++ rest ->
  read_at (ReadBufAdv_s 4) (pre ++ l) off = Ok n.
Proof.
  intros -> Hn ->. eapply (read_at_drop (ReadBufAdv_s 4)); [reflexivity|].
  rewrite ReadBufAdv_s_app by apply length_le_encode. do 2 f_equal. apply (le_decode_s 4); [lia|exact Hn].
Qed.

(** One step over a written entry, in both directions. *)
Lemma next_forward e bs pre post :
  entry_ok uoc e -> written e = Ok bs -> Z.of_nat (length (pre ++ bs ++ post)) < 2 ^ 63 ->
  Next uoc (mkIterator false (Z.of_nat (length pre)) (pre ++ bs ++ post)) =
  Ok (Some (stored e), mkIterator false (Z.of_nat (length (pre ++ bs))) (pre ++ bs ++ post)).
Proof.
  intros Hok Hw Hl. destruct (written_spec e Hok) as (bs' & Hw' & Hlen & (tail & Ht) & _ & Hr).
  rewrite Hw in Hw'. injection Hw' as <-.
  pose proof (entry_size_nonneg uoc e Hok). pose proof (ok_size _ _ Hok). rewrite !length_app in Hl.
  unfold Next. cbn [is_backward_ off_ buf_].
  rewrite (size_at pre (bs ++ post) _ (entry_size uoc e) (tail ++ post)); [|reflexivity|unfold signed_range; lia|].
  2: rewrite Ht at 1; now rewrite <- app_assoc.
  cbn [res_bind]. rewrite (wrap_id 64 (entry_size uoc e)) by (unfold unsigned_range; lia).
  rewrite wrap_id by (unfold unsigned_range; lia).
  replace (_ <? _) with false by (symmetry; apply Z.ltb_ge; rewrite !length_app; lia).
  rewrite Hr. cbn [res_bind]. unfold set_off. cbn. do 3 f_equal. rewrite length_app. lia.
Qed.

Lemma next_backward e bs pre post :
  entry_ok uoc e -> written e = Ok bs -> Z.of_nat (length (pre ++ bs ++ post)) < 2 ^ 63 ->
  Next uoc (mkIterator true (Z.of_nat (length (pre ++ bs))) (pre ++ bs ++ post)) =
  Ok (Some (stored e), mkIterator true (Z.of_nat (length pre)) (pre ++ bs ++ post)).
Proof.
  intros Hok Hw Hl. destruct (written_spec e Hok) as (bs' & Hw' & Hlen & _ & (front & Hf) & Hr).
  rewrite Hw in Hw'. injection Hw' as <-.
  pose proof (entry_size_nonneg uoc e Hok). pose proof (ok_size _ _ Hok). rewrite !length_app in Hl.
  unfold Next. cbn [is_backward_ off_ buf_].
  replace (read_at (ReadBufAdv_s 4) (pre ++ bs ++ post) (Z.of_nat (length (pre ++ bs)) - 4)) with (Ok (entry_size uoc e)).
  2: { symmetry. rewrite Hf at 1. rewrite <- (app_assoc front), (app_assoc pre front).
       apply (size_at (pre ++ front) _ _ _ post); [|unfold signed_range; lia|reflexivity].
       rewrite Hf, !length_app, length_le_encode. lia. }
  cbn [res_bind]. rewrite (wrap_id 64 (entry_size uoc e)) by (unfold unsigned_range; lia).
  replace (_ <? _) with false by (symmetry; apply Z.ltb_ge; rewrite length_app; lia).
  replace (Z.of_nat (length (pre ++ bs)) - entry_size uoc e) with (Z.of_nat (length pre)) by (rewrite length_app; lia).
  rewrite Hr. cbn [res_bind]. rewrite wrap_id by (unfold unsigned_range; lia). reflexivity.
Qed.

Lemma image_cons e es bs :
  image (e :: es) = Ok bs <-> exists b1 b2, written e = Ok b1 /\ image es = Ok b2 /\ bs = b1 ++ b2.
Proof.
  change (image (e :: es)) with (written e +++ image es). unfold wapp. split.
  - intros H. res_inv. subst. eauto.
  - intros (b1 & b2 & -> & -> & ->). reflexivity.
Qed.

Lemma image_snoc es e bs :
  image (es ++ [e]) = Ok bs <-> exists b1 b2, image es = Ok b1 /\ written e = Ok b2 /\ bs = b1 ++ b2.
Proof.
  revert bs. induction es as [|e' es IH]; intros bs; cbn [app].
  - rewrite image_cons. split.
    + intros (b1 & b2 & H1 & [= <-] & ->). exists [], b1. split_and!; [done..|]. now rewrite app_nil_r.
    + intros (b1 & b2 & [= <-] & H2 & ->). exists b2, []. split_and!; [done..|]. now rewrite app_nil_r.
  - rewrite image_cons. split.
    + intros (b1 & b2 & H1 & (b3 & b4 & H3 & H4 & ->)%IH & ->). exists (b1 ++ b3), b4.
      split_and!; [|done|now rewrite app_assoc]. apply image_cons. eauto.
    + intros (b1 & b2 & (b3 & b4 & H3 & H4 & ->)%image_cons & H2 & ->). exists b3, (b4 ++ b2).
      split_and!; [done| |now rewrite app_assoc]. apply IH. eauto.
Qed.

Lemma image_total es : Forall (entry_ok uoc) es -> exists bs, image es = Ok bs.
Proof.
  induction 1 as [|e es He _ (bs & IH)]; [now exists []|].
  destruct (written_spec e He) as (b & Hb & _). exists (b ++ bs). apply image_cons. eauto.
Qed.

Lemma written_length e bs : entry_ok uoc e -> written e = Ok bs -> 32 <= Z.of_nat (length bs).
Proof.
  intros Hok Hw. destruct (written_spec e Hok) as (bs' & Hw' & Hlen & _).
  rewrite Hw in Hw'. injection Hw' as <-. pose proof (entry_size_nonneg uoc e Hok). lia.
Qed.

Lemma collect_forward es pre bs acc fuel :
  Forall (entry_ok uoc) es -> image es = Ok bs -> (length es <= fuel)%nat ->
  Z.of_nat (length (pre ++ bs)) < 2 ^ 63 ->
  collect uoc fuel acc (mkIterator false (Z.of_nat (length pre)) (pre ++ bs)) =
  Ok (Some (acc ++ (Some <$> (stored <$> es)), mkIterator false (Z.of_nat (length (pre ++ bs))) (pre ++ bs))).
Proof.
  intros Hok. revert pre bs acc fuel. induction Hok as [|e es He Hes IH]; intros pre bs acc fuel Hi Hf Hl.
  - injection Hi as <-. destruct fuel; cbn; rewrite ?app_nil_r;
      (replace (_ <? _) with false by (symmetry; apply Z.ltb_ge; lia)); reflexivity.
  - apply image_cons in Hi as (b1 & b2 & H1 & H2 & ->). pose proof (written_length e b1 He H1).
    destruct fuel as [|fuel]; [cbn in Hf; lia|]. cbn [collect].
    unfold HasNext at 1. cbn [is_backward_ off_ buf_ negb andb orb].
    replace (_ <? _) with true by (symmetry; apply Z.ltb_lt; rewrite !length_app; lia).
    rewrite (next_forward e b1 pre b2) by done. cbn [res_bind].
    rewrite (app_assoc pre b1 b2). rewrite IH; [|done|cbn in Hf; lia|now rewrite <- app_assoc].
    cbn. now rewrite <- app_assoc.
Qed.

Lemma collect_backward es post bs acc fuel :
  Forall (entry_ok uoc) es -> image es = Ok bs -> (length es <= fuel)%nat ->
  Z.of_nat (length (bs ++ post)) < 2 ^ 63 ->
  collect uoc fuel acc (mkIterator true (Z.of_nat (length bs)) (bs ++ post)) =
  Ok (Some (acc ++ rev (Some <$> (stored <$> es)), mkIterator true 0 (bs ++ post))).
Proof.
  revert post bs acc fuel. induction es as [|e es IH] using rev_ind; intros post bs acc fuel Hok Hi Hf Hl.
  - injection Hi as <-. destruct fuel; cbn; now rewrite ?app_nil_r.
  - apply Forall_app in Hok as [Hes He]. apply Forall_cons in He as [He _].
    apply image_snoc in Hi as (b1 & b2 & H1 & H2 & ->). pose proof (written_length e b2 He H2).
    rewrite length_app in Hf. cbn in Hf. destruct fuel as [|fuel]; [lia|]. cbn [collect].
    unfold HasNext at 1. cbn [is_backward_ off_ buf_ negb andb orb].
    replace (_ <? _) with true by (symmetry; apply Z.ltb_lt; rewrite length_app; lia). cbn [orb].
    rewrite <- app_assoc in *. rewrite (next_backward e b2 b1 post) by done. cbn [res_bind].
    rewrite IH; [|done|done|lia|done].
    rewrite !fmap_app, rev_app_distr. cbn. now rewrite <- app_assoc.
Qed.

Lemma next_none it it' : Next uoc it = Ok (None, it') -> it' = it.
Proof.
  unfold Next. intros H. destruct (is_backward_ it); apply res_bind_Ok in H as (n & _ & H);
    (destruct (_ <? _); [congruence|]); apply res_bind_Ok in H as ([e|] & _ & H); congruence.
Qed.
(** Whether the iterator stands before a bad entry, as a test. *)
Definition at_bad_entry (it : WalEntryIterator) : bool :=
  match Next uoc it with Ok (None, _) => true | _ => false end.
Lemma at_bad_entry_spec it : at_bad_entry it = true -> Next uoc it = Ok (None, it).
Proof.
  unfold at_bad_entry. destruct (Next uoc it) as [[[e|] it']|] eqn:E; try discriminate.
  intros _. now rewrite (next_none _ _ E).
Qed.
End images.

Section iterator_properties.
Context `{P : WalPayload} `{PL : !WalPayloadLaws}.
Import WalEntryIterator.

(** On a file that holds a sequence of written entries, [GetAllEntries] returns exactly
    these entries in the order they were written, both when it iterates forward and when
    it iterates backward from the end, and [IsGood] holds afterwards. *)
Theorem wal_iterator_reads_log (uoc : bool) (es : list WalEntry) (bs : bytes) (is_backward : bool) (fuel : nat) :
  Forall (entry_ok uoc) es -> image uoc es = Ok bs -> Z.of_nat (length bs) < 2 ^ 63 -> (length es <= fuel)%nat ->
  exists it, GetAllEntries uoc fuel (make bs is_backward) = Ok (Some (Some <$> (stored uoc <$> es), it)) /\ IsGood it = true.
Proof.
  intros Hok Hi Hl Hf. unfold GetAllEntries, make. destruct is_backward.
  - pose proof (collect_backward uoc es [] bs [] fuel Hok Hi Hf) as H. rewrite app_nil_r in H. rewrite H by done.
    eexists. split; [cbn; now rewrite rev_involutive|reflexivity].
  - pose proof (collect_forward uoc es [] bs [] fuel Hok Hi Hf Hl) as H. cbn [app length] in H. change (Z.of_nat 0) with 0 in H. rewrite H.
    eexists. split; [reflexivity|]. cbn. now rewrite Z.eqb_refl.
Qed.

(** [GetAllEntries] does not return on a file with a bad entry: [Next] reports the bad
    entry without moving, so from an iterator that stands before one the loop is still
    running after any number of iterations. *)
Theorem get_all_entries_diverges (uoc : bool) (it it' : WalEntryIterator) (fuel : nat) :
  HasNext it = true -> Next uoc it = Ok (None, it') -> GetAllEntries uoc fuel it = Ok None.
Proof.
  intros Hh Hn. pose proof (next_none _ _ _ Hn) as ->. unfold GetAllEntries.
  assert (forall acc, collect uoc fuel acc it = Ok None) as H; [|now rewrite H].
  induction fuel as [|fuel IH]; intros acc; cbn; rewrite Hh; [done|]. rewrite Hn. cbn. apply IH.
Qed.
End iterator_properties.

(** ** Recovery after a crash

    A crash leaves every file as a sequence of written entries followed by a torn tail: one
    that the iterator does not accept as an entry. *)
Section recovery.
Context `{P : WalPayload} `{PL : !WalPayloadLaws}.
Context (uoc : bool).
Import WalEntryIterator WalListIterator.

Record crash_file := mkCrashFile { path : string; good : list WalEntry; tail : bytes }.

Definition torn (pre tail : bytes) : Prop :=
  tail <> [] /\ exists it, WalEntryIterator.Next uoc (mkIterator false (Z.of_nat (length pre)) (pre ++ tail)) = Ok (None, it).
Definition holds (files : gmap string bytes) (f : crash_file) : Prop :=
  exists bs, image uoc (good f) = Ok bs /\ files !! path f = Some (bs ++ tail f) /\
    Forall (entry_ok uoc) (good f) /\ (tail f = [] \/ torn bs (tail f)) /\ Z.of_nat (length (bs ++ tail f)) < 2 ^ 63.
(** The file holds its entries and nothing else. *)
Definition intact (files : gmap string bytes) (f : crash_file) : Prop :=
  exists bs, image uoc (good f) = Ok bs /\ files !! path f = Some bs /\
    Forall (entry_ok uoc) (good f) /\ Z.of_nat (length bs) < 2 ^ 63.
Definition is_checkpoint (e : WalEntry) : bool := (IsCheckPoint (stored uoc e) None).1.
Definition has_checkpoint (f : crash_file) : bool := existsb is_checkpoint (good f).

Lemma scan_image es pre bs tail found fuel :
  Forall (entry_ok uoc) es -> image uoc es = Ok bs -> (length es < fuel)%nat ->
  Z.of_nat (length (pre ++ bs ++ tail)) < 2 ^ 63 -> (tail = [] \/ torn (pre ++ bs) tail) ->
  scan uoc fuel found (mkIterator false (Z.of_nat (length pre)) (pre ++ bs ++ tail)) =
  Ok (found || existsb is_checkpoint es, if decide (tail = []) then None else Some (Z.of_nat (length (pre ++ bs)))).
Proof.
  intros Hok. revert pre bs found fuel. induction Hok as [|e es He Hes IH]; intros pre bs found fuel Hi Hf Hl Ht;
    (destruct fuel as [|fuel]; [cbn in Hf; lia|]); cbn [scan]; unfold WalEntryIterator.HasNext at 1;
    cbn [is_backward_ off_ buf_ negb andb orb existsb].
  - injection Hi as <-. rewrite app_nil_r in *. cbn [app] in *. rewrite orb_false_r.
    destruct (decide (tail = [])) as [->|Hne].
    + rewrite app_nil_r. replace (_ <? _) with false by (symmetry; apply Z.ltb_ge; lia). reflexivity.
    + destruct Ht as [?|[_ [it E]]]; [done|].
      replace (_ <? _) with true by (symmetry; apply Z.ltb_lt; rewrite length_app; destruct tail; cbn; [done|lia]).
      rewrite E. pose proof (next_none _ _ _ E) as ->. reflexivity.
  - apply image_cons in Hi as (b1 & b2 & H1 & H2 & ->). pose proof (written_length uoc e b1 He H1).
    replace (_ <? _) with true by (symmetry; apply Z.ltb_lt; rewrite !length_app; lia).
    rewrite <- !app_assoc in *. rewrite (next_forward uoc e b1 pre (b2 ++ tail)) by done. cbn [res_bind].
    rewrite (app_assoc pre b1 (b2 ++ tail)). rewrite IH; [|done|cbn in Hf; lia|now rewrite <- app_assoc|now rewrite <- app_assoc].
    rewrite <- !app_assoc. now rewrite orb_assoc.
Qed.

Lemma image_length es bs : Forall (entry_ok uoc) es -> image uoc es = Ok bs -> Z.of_nat (length es) <= Z.of_nat (length bs).
Proof.
  intros H. revert bs. induction H as [|e es He _ IH]; intros bs Hi; [cbn; lia|].
  apply image_cons in Hi as (b1 & b2 & H1 & H2 & ->). pose proof (written_length uoc e b1 He H1).
  specialize (IH b2 H2). rewrite length_app. cbn [length]. lia.
Qed.

Lemma scan_file_holds files f bs :
  holds files f -> image uoc (good f) = Ok bs ->
  scan_file uoc files false (path f) =
  Ok (has_checkpoint f, if decide (tail f = []) then None else Some (Z.of_nat (length bs))).
Proof.
  intros (bs' & Hi & Hf & Hok & Ht & Hl) Hi'. rewrite Hi in Hi'. injection Hi' as ->.
  unfold scan_file, Make. rewrite Hf. cbn [res_bind].
  pose proof (image_length _ _ Hok Hi).
  apply (scan_image (good f) [] bs (tail f) false); [done|done| |done|done].
  unfold WalEntryIterator.make. cbn [buf_]. rewrite length_app. lia.
Qed.

Lemma holds_insert_ne files f p c : p <> path f -> holds files f -> holds (<[p := c]> files) f.
Proof. intros Hp (bs & H1 & H2 & H3). exists bs. split; [done|]. now rewrite lookup_insert_ne. Qed.
Lemma holds_delete_ne files f p : p <> path f -> holds files f -> holds (delete p files) f.
Proof. intros Hp (bs & H1 & H2 & H3). exists bs. split; [done|]. now rewrite lookup_delete_ne. Qed.

(** What is left: [kept] without their tails, and [rest] that was not looked at. *)
Record purged (all : list crash_file) (files : gmap string bytes) (l : list string) (files' : gmap string bytes)
    (dropped kept rest : list crash_file) : Prop := {
  purged_split : all = dropped ++ kept ++ rest;
  purged_list : l = path <$> (kept ++ rest);
  purged_kept : Forall (intact files') kept;
  purged_rest : Forall (fun f => files' !! path f = files !! path f) rest;
  purged_stop : rest <> [] -> exists f, last kept = Some f /\ has_checkpoint f = true;
  (** Nothing behind a checkpoint was looked at. *)
  purged_looked : Forall (fun f => has_checkpoint f = false) (removelast (dropped ++ kept));
  (** Only the newest kept file can have been torn, and it has entries; so every file in front of a torn
      one is dropped. *)
  purged_clean : Forall (fun f => tail f = []) (drop 1 kept);
  purged_newest f : head kept = Some f -> tail f <> [] -> good f <> [];
  (** The dropped files end with a torn one without entries or in front of a torn one. *)
  purged_dropped : dropped <> [] -> (exists f, last dropped = Some f /\ tail f <> [] /\ good f = []) \/ (exists f, head kept = Some f /\ tail f <> []);
}.

Lemma purged_head f todo dr k' (rest : list crash_file) :
  f :: todo = dr ++ k' ++ rest -> (rest <> [] -> exists g, last k' = Some g) ->
  exists tl, dr ++ k' = f :: tl /\ todo = tl ++ rest.
Proof.
  intros E H. rewrite app_assoc in E. destruct (dr ++ k') as [|g tl] eqn:F; cbn in E.
  - apply app_eq_nil in F as [-> ->]. subst rest. destruct (H ltac:(done)) as [g Hg]. done.
  - injection E as <- ->. eauto.
Qed.

(** What [purge] has kept so far. *)
Record kept_ok (found : bool) (kept : list crash_file) : Prop := {
  kept_found : found = true -> exists f, last kept = Some f /\ has_checkpoint f = true;
  kept_looked : Forall (fun f => has_checkpoint f = false) (if found then removelast kept else kept);
  kept_clean : Forall (fun f => tail f = []) (drop 1 kept);
  kept_newest f : head kept = Some f -> tail f <> [] -> good f <> [];
}.
Lemma kept_snoc kept f : kept_ok false kept -> tail f = [] -> kept_ok (has_checkpoint f) (kept ++ [f]).
Proof.
  intros [_ H2 H3 H4] Ht. split.
  - intros Hc. exists f. by rewrite last_snoc.
  - destruct (has_checkpoint f) eqn:E; [by rewrite removelast_last|]. apply Forall_app. split; [done|]. by constructor.
  - destruct kept; cbn; [constructor|]. cbn in H3. apply Forall_app. split; [done|]. by constructor.
  - intros g. destruct kept; cbn; [intros [= <-]; done|apply H4].
Qed.
Lemma kept_one f : good f <> [] -> kept_ok (has_checkpoint f) [f].
Proof. intros Hg. split; [eauto|destruct (has_checkpoint f) eqn:E; by repeat constructor|constructor|]. intros g [= <-]. done. Qed.
Lemma kept_purged files kept todo found : Forall (intact files) kept -> kept_ok found kept -> found = true \/ todo = [] ->
  purged (kept ++ todo) files (path <$> (kept ++ todo)) files [] kept todo.
Proof.
  intros Hk [H1 H2 H3 H4] Hor. split; try done; [by apply Forall_true| |].
  - intros Hne. destruct Hor as [->|?]; [by apply H1|done].
  - cbn. destruct found; [done|]. clear -H2. induction kept as [|f kept IH]; [constructor|]. apply Forall_cons in H2 as [? ?]. destruct kept; [constructor|]. constructor; [done|by apply IH].
Qed.
Lemma purge_spec todo : forall kept files found,
  NoDup (path <$> todo) ->
  Forall (fun f => path f ∉ path <$> todo) kept ->
  Forall (intact files) kept -> Forall (holds files) todo -> kept_ok found kept ->
  exists l files' dropped kept' rest,
    purge uoc found (path <$> kept) (path <$> todo) files = Ok (l, files') /\
    purged (kept ++ todo) files l files' dropped kept' rest.
Proof.
  induction todo as [|f todo IH]; intros kept files found Hnd Hdis Hk Ht Hko; cbn [purge fmap list_fmap].
  - eexists _, files, [], kept, []. split; [destruct found; rewrite <- ?fmap_app, ?app_nil_r; reflexivity|]. pose proof (kept_purged files kept [] found Hk Hko) as Hp.
    rewrite !app_nil_r in *. auto.
  - destruct found.
    { eexists _, files, [], kept, (f :: todo). split; [reflexivity|]. pose proof (kept_purged files kept (f :: todo) true Hk Hko) as Hp. rewrite fmap_app in Hp. auto. }
    apply Forall_cons in Ht as [Hf Ht]. cbn in Hnd. apply NoDup_cons in Hnd as [Hnf Hnd].
    destruct Hf as (bs & Hi & Hl & Hok & Htail & Hlen).
    rewrite (scan_file_holds files f bs); [|exists bs; auto|exact Hi]. cbn [res_bind].
    assert (Hpath : forall g, g ∈ todo -> path f <> path g)
      by (intros g Hg Hp; apply Hnf; rewrite Hp; apply list_elem_of_fmap; eauto).
    rewrite Forall_forall in Ht. pose proof (kept_looked _ _ Hko) as Hlk. cbn in Hlk.
    destruct (decide (tail f = [])) as [Et|Et]; [|destruct (_ =? 0) eqn:E0].
    + destruct (IH (kept ++ [f]) files (has_checkpoint f)) as (l & files' & dr & k' & rest & E & [S1 S2 S3 S4 S5 S6 S7 S8 S9]); auto.
      * rewrite Forall_app. split; [|repeat constructor; done].
        eapply Forall_impl; [exact Hdis|]. intros g Hg. cbn in Hg. set_solver.
      * rewrite Forall_app. split; [done|]. repeat constructor. exists bs. rewrite Et, app_nil_r in *. auto.
      * rewrite Forall_forall. done.
      * by apply kept_snoc.
      * rewrite fmap_app in E. exists l, files', dr, k', rest. split; [exact E|]. split; auto. now rewrite <- S1, <- app_assoc.
    + apply Z.eqb_eq in E0. assert (good f = []) as Hg by (pose proof (image_length _ _ Hok Hi); destruct (good f); cbn in *; [done|lia]).
      assert (Hcf : has_checkpoint f = false) by (unfold has_checkpoint; now rewrite Hg).
      destruct (IH [] (delete (path f) files) (has_checkpoint f)) as (l & files' & dr & k' & rest & E & [S1 S2 S3 S4 S5 S6 S7 S8 S9]); auto.
      * rewrite Forall_forall. intros g Hg'. apply holds_delete_ne; auto.
      * rewrite Hcf. by split.
      * exists l, files', (kept ++ [f] ++ dr), k', rest. split; [exact E|]. split; auto.
        -- cbn in S1. now rewrite S1, <- !app_assoc.
        -- rewrite Forall_forall in *. intros g Hg'. rewrite S4 by done. apply lookup_delete_ne, Hpath.
           cbn in S1. rewrite S1. set_solver.
        -- rewrite <- !app_assoc, app_assoc. destruct (dr ++ k') as [|x tl] eqn:Ex; [rewrite app_nil_r, removelast_last; done|].
           rewrite removelast_app by done. apply Forall_app. split; [|done]. apply Forall_app. split; [done|by constructor].
        -- intros _. destruct dr as [|x dr]; [left; exists f; by rewrite (app_nil_r [f]), last_snoc|]. destruct (S9 ltac:(done)) as [(y & Hy & ?)|?]; [left; exists y|by right].
           split; [|done]. by rewrite app_assoc, last_app, Hy.
    + apply Z.eqb_neq in E0. assert (good f <> []) as Hg.
      { intros Hg. apply E0. rewrite Hg in Hi. cbn in Hi. by injection Hi as <-. }
      destruct (IH [f] (<[path f := bs]> files) (has_checkpoint f))
        as (l & files' & dr & k' & rest & E & [S1 S2 S3 S4 S5 S6 S7 S8 S9]); auto.
      * repeat constructor. exists bs. split_and!; [done|apply lookup_insert_eq|done|]. rewrite length_app in Hlen. lia.
      * rewrite Forall_forall. intros g Hg'. apply holds_insert_ne; auto.
      * by apply kept_one.
      * destruct (purged_head f todo dr k' rest S1) as (tl & Eh & Er); [naive_solver|].
        exists l, files', (kept ++ dr), k', rest. split.
        { rewrite Hl. change (default [] (Some (bs ++ tail f))) with (bs ++ tail f). rewrite Nat2Z.id, take_app_length. exact E. }
        split; auto.
        -- cbn [app] in S1. now rewrite S1, <- !app_assoc.
        -- rewrite Forall_forall in *. intros g Hg'. rewrite S4 by done. apply lookup_insert_ne, Hpath.
           rewrite Er. set_solver.
        -- rewrite <- app_assoc. rewrite removelast_app by (rewrite Eh; done). by apply Forall_app.
        -- intros _. destruct dr as [|x dr]; [right; exists f; cbn in Eh; by rewrite Eh|]. destruct (S9 ltac:(done)) as [(y & Hy & ?)|?]; [left; exists y|by right].
           split; [|done]. by rewrite last_app, Hy.
Qed.

(** The client's loop [while (it.HasNext()) ... it.Next()]. *)
Fixpoint drain (fuel : nat) (files : gmap string bytes) (l : WalListIterator) (acc : list (option WalEntry))
    : res (list (option WalEntry)) :=
  let? (b, l) := WalListIterator.HasNext files l in
  if (b : bool) then
    match fuel with
    | O => Err Undefined
    | S fuel => let? (e, l) := WalListIterator.Next uoc l in drain fuel files l (acc ++ [e])
    end
  else Ok acc.

Lemma drain_ext fuel files l l' acc :
  WalListIterator.HasNext files l = WalListIterator.HasNext files l' -> drain fuel files l acc = drain fuel files l' acc.
Proof. intros H. destruct fuel; cbn; now rewrite H. Qed.

(** From an exhausted file to the next one. *)
Lemma drain_next_file fuel files p q rest buf c acc :
  files !! q = Some c ->
  drain fuel files (mkListIterator (p :: q :: rest) (Some (mkIterator true 0 buf))) acc =
  drain fuel files (mkListIterator (q :: rest) (Some (WalEntryIterator.make c true))) acc.
Proof.
  intros Hq. apply drain_ext. unfold WalListIterator.HasNext. cbn [iter_ wal_list_].
  change (WalEntryIterator.HasNext (mkIterator true 0 buf)) with false. cbn [advance].
  unfold Make. rewrite Hq. cbn [res_bind]. reflexivity.
Qed.

Lemma drain_file es b post files paths fuel acc :
  Forall (entry_ok uoc) es -> image uoc es = Ok b -> Z.of_nat (length (b ++ post)) < 2 ^ 63 -> (length es <= fuel)%nat ->
  drain fuel files (mkListIterator paths (Some (mkIterator true (Z.of_nat (length b)) (b ++ post)))) acc =
  drain (fuel - length es) files (mkListIterator paths (Some (mkIterator true 0 (b ++ post))))
    (acc ++ rev (Some <$> (stored uoc <$> es))).
Proof.
  revert b post fuel acc. induction es as [|e es IH] using rev_ind; intros b post fuel acc Hok Hi Hl Hf.
  - injection Hi as <-. cbn [fmap list_fmap rev length]. now rewrite app_nil_r, Nat.sub_0_r.
  - apply Forall_app in Hok as [Hes He]. apply Forall_cons in He as [He _].
    apply image_snoc in Hi as (b1 & b2 & H1 & H2 & ->). pose proof (written_length uoc e b2 He H2).
    rewrite (length_app es [e]) in *. cbn [length] in Hf |- *. destruct fuel as [|fuel]; [lia|].
    cbn [drain]. unfold WalListIterator.HasNext at 1. cbn [iter_]. unfold WalEntryIterator.HasNext at 1.
    cbn [is_backward_ off_ andb orb].
    replace (0 <? _) with true by (symmetry; apply Z.ltb_lt; rewrite length_app; lia). cbn [orb res_bind].
    unfold WalListIterator.Next at 1. cbn [iter_]. rewrite <- app_assoc in *.
    rewrite (next_backward uoc e b2 b1 post) by done. cbn [res_bind wal_list_].
    rewrite IH; [|done|done|done|lia]. rewrite !fmap_app, rev_app_distr. cbn [fmap list_fmap rev app].
    replace (S fuel - (length es + 1))%nat with (fuel - length es)%nat by lia. now rewrite <- app_assoc.
Qed.

Definition newest_first (fs : list crash_file) : list (option WalEntry) :=
  concat (map (fun f => rev (Some <$> (stored uoc <$> good f))) fs).

Lemma drain_files fs f c files fuel acc :
  Forall (intact files) (f :: fs) -> files !! path f = Some c ->
  (length (newest_first (f :: fs)) <= fuel)%nat ->
  drain fuel files (mkListIterator (path <$> (f :: fs)) (Some (WalEntryIterator.make c true))) acc =
  Ok (acc ++ newest_first (f :: fs)).
Proof.
  revert f c fuel acc. induction fs as [|g fs IH]; intros f c fuel acc Hi Hc Hf;
    apply Forall_cons in Hi as [(b & Him & Hb & Hok & Hl) Hi]; rewrite Hc in Hb; injection Hb as ->;
    unfold newest_first in Hf; cbn [map concat] in Hf; rewrite length_app, length_rev, !length_fmap in Hf;
    unfold WalEntryIterator.make; rewrite <- (app_nil_r b) in Hl;
    rewrite <- (app_nil_r b) at 2; rewrite (drain_file (good f)) by (done || lia).
  - unfold newest_first. cbn [map concat]. rewrite !app_nil_r.
    destruct (fuel - length (good f))%nat; reflexivity.
  - apply Forall_cons in Hi as [Hg Hi]. destruct Hg as (bg & Hg).
    change (path <$> (f :: g :: fs)) with (path f :: path g :: (path <$> fs)). rewrite (drain_next_file _ _ _ _ _ _ bg) by apply Hg.
    change (path g :: _) with (path <$> (g :: fs)).
    rewrite IH; [|constructor; [exists bg; exact Hg|done]|apply Hg|unfold newest_first; cbn [map concat]; lia].
    unfold newest_first. cbn [map concat]. now rewrite <- app_assoc.
Qed.
End recovery.

Section recovery_properties.
Context `{P : WalPayload} `{PL : !WalPayloadLaws}.

(** C12. Recovery purges exactly the torn writes. When every log file (newest first) holds
    written entries followed by nothing or by a torn tail,
    [PurgeBadEntriesAfterLatestCheckpoint] returns. It looks at the files up to the first one with a
    checkpoint and does not touch the rest. Of the files it looks at, it drops all that are newer than
    the oldest torn one, and that one too when it has no entries, and keeps the others, which
    afterwards hold their entries and nothing else; without a torn file it drops nothing. *)
Theorem wal_purge_recovers (uoc : bool) (fs : list crash_file) (files : gmap string bytes) :
  NoDup (path <$> fs) -> Forall (holds uoc files) fs ->
  exists l files' dropped kept rest,
    WalListIterator.purge uoc false [] (path <$> fs) files = Ok (l, files') /\
    purged uoc fs files l files' dropped kept rest.
Proof. intros Hnd Hh. apply (purge_spec uoc fs [] files false); auto. by split. Qed.

(** Over files that hold written entries and nothing else, the backward iterator over the
    list returns every entry of every file, files in the order of the list and the entries
    of each from the last to the first, skipping files without entries, and then stops. *)
Theorem wal_list_reads_newest_first (uoc : bool) (f : crash_file) (fs : list crash_file) (files : gmap string bytes)
    (c : bytes) (fuel : nat) :
  Forall (intact uoc files) (f :: fs) -> files !! path f = Some c ->
  (length (newest_first uoc (f :: fs)) <= fuel)%nat ->
  drain uoc fuel files (mkListIterator (path <$> (f :: fs)) (Some (WalEntryIterator.make c true))) [] =
  Ok (newest_first uoc (f :: fs)).
Proof. intros Hi Hc Hf. now rewrite (drain_files uoc fs f c). Qed.
End recovery_properties.

(** ** Witnesses *)
Import DemoPayload.
Definition demo_log : list WalEntry := [demo_entry; mkWalEntry 0 0 43 4712 [WalCmdDropDatabase "db"]].
Lemma demo_log_ok : Forall (entry_ok true) demo_log.
Proof.
  constructor; [exact demo_entry_ok|]. constructor; [|constructor].
  split; [vm_compute; split; congruence..|vm_compute; reflexivity|repeat constructor|vm_compute; reflexivity].
Qed.
Definition demo_image : bytes := Eval vm_compute in match image true demo_log with Ok bs => bs | Err _ => [] end.
Lemma demo_image_eq : image true demo_log = Ok demo_image.
Proof. vm_compute. reflexivity. Qed.

Lemma wal_iterator_reads_log_witness :
  exists it, WalEntryIterator.GetAllEntries true 2 (WalEntryIterator.make demo_image true) =
    Ok (Some (Some <$> (stored true <$> demo_log), it)) /\ WalEntryIterator.IsGood it = true.
Proof.
  apply (wal_iterator_reads_log true demo_log demo_image true 2 demo_log_ok demo_image_eq); [vm_compute; reflexivity|cbn; lia].
Defined.

(** A tail of eight zero bytes is a bad entry. *)
Definition demo_tail : bytes := repeat Byte.x00 8.
Definition demo_bad : WalEntryIterator := mkIterator false (Z.of_nat (length demo_image)) (demo_image ++ demo_tail).
Lemma get_all_entries_diverges_witness : WalEntryIterator.GetAllEntries true 1000 demo_bad = Ok None.
Proof.
  apply (get_all_entries_diverges true demo_bad demo_bad 1000); [reflexivity|].
  apply at_bad_entry_spec. vm_compute. reflexivity.
Defined.

Definition demo_files : gmap string bytes := {[ "wal.log.2" := demo_image ++ demo_tail; "wal.log.1" := demo_image ]}.
Definition demo_crash : list crash_file :=
  [mkCrashFile "wal.log.2" demo_log demo_tail; mkCrashFile "wal.log.1" demo_log []].

Lemma wal_purge_recovers_witness : exists l files' dropped kept rest,
  WalListIterator.purge true false [] ["wal.log.2"; "wal.log.1"] demo_files = Ok (l, files') /\
  purged true demo_crash demo_files l files' dropped kept rest.
Proof.
  apply (wal_purge_recovers true demo_crash demo_files).
  - apply (bool_decide_unpack _). vm_compute. exact I.
  - repeat constructor; exists demo_image; (split; [exact demo_image_eq|]); (split; [vm_compute; reflexivity|]);
      (split; [exact demo_log_ok|]).
    + split; [|vm_compute; reflexivity]. right. split; [discriminate|]. exists demo_bad. apply (at_bad_entry_spec true demo_bad). vm_compute. reflexivity.
    + split; [now left|vm_compute; reflexivity].
Defined.

Lemma wal_list_reads_newest_first_witness :
  drain true 4 {[ "wal.log.2" := demo_image; "wal.log.1" := demo_image ]}
    (mkListIterator ["wal.log.2"; "wal.log.1"] (Some (WalEntryIterator.make demo_image true))) [] =
  Ok (newest_first true demo_crash).
Proof.
  apply (wal_list_reads_newest_first true (mkCrashFile "wal.log.2" demo_log demo_tail)
    [mkCrashFile "wal.log.1" demo_log []]).
  - repeat constructor; exists demo_image; (split; [exact demo_image_eq|]); (split; [vm_compute; reflexivity|]);
      (split; [exact demo_log_ok|vm_compute; reflexivity]).
  - vm_compute. reflexivity.
  - cbn. lia.
Defined.
