(* ===== verification/CatalogDelta.v ===== *)
(** * Catalog delta operations: [CatalogDeltaOperation] and the classes derived from it, of
      [src/src/storage/wal/catalog_delta_entry.cpp] (lines 43-1002)

    A delta operation describes the change of one catalog entry, which its [encode_] names.
    The members of the base class are a record, those of a derived class a record of the
    module named after it. The parameter [uoc] is the test [persistence_manager() != nullptr].
    Pointers into the live catalog ([block_entry_], [column_entry_], [segment_index_entry_])
    are not part of an operation; [table_entry_type_] never changes from its default. *)
From S2P Require Import Prelude Serialize ObjStatus ObjStatAccessor PersistenceManager AddrSerializer.
From S2P Require Import DataType ConstantExpr TableDef IndexBase WalInfo.

Definition UNCOMMIT_TS : Z := 2 ^ 64 - 1.

(** [CatalogDeltaOpType], an [i8]. *)
Definition ADD_DATABASE_ENTRY : Z := 1.
Definition ADD_TABLE_ENTRY : Z := 2.
Definition ADD_SEGMENT_ENTRY : Z := 3.
Definition ADD_BLOCK_ENTRY : Z := 4.
Definition ADD_COLUMN_ENTRY : Z := 5.
Definition ADD_TABLE_INDEX_ENTRY : Z := 11.
Definition ADD_SEGMENT_INDEX_ENTRY : Z := 12.
Definition ADD_CHUNK_INDEX_ENTRY : Z := 13.

(** [CatalogDeltaOpTypeToString]: [INVALID] raises, a value without a name gives the empty string. *)
Definition CatalogDeltaOpTypeToString (op_type : Z) : res string :=
  match op_type with
  | 1 => Ok "AddDatabase"%string
  | 2 => Ok "AddTable"%string
  | 3 => Ok "AddSegment"%string
  | 4 => Ok "AddBlock"%string
  | 5 => Ok "AddColumn"%string
  | 11 => Ok "AddTableIndex"%string
  | 12 => Ok "AddSegmentIndex"%string
  | 13 => Ok "AddChunkIndex"%string
  | 21 => Ok "SealSegment"%string
  | 22 => Ok "SealBlock"%string
  | 0 => Err Unrecoverable
  | _ => Ok ""%string
  end.

(** [SegmentStatus], a [u8]. *)
Definition kDeprecated : Z := 4.

(** [MergeFlag], a [u8]; [kUnnamed b] is a byte read from a file that names no enumerator. *)
Inductive MergeFlag : Type :=
| kInvalid
| kDelete
| kNew
| kUpdate
| kDeleteAndNew
| kUnnamed (b : Z).

#[export] Instance MergeFlag_eq_dec : EqDecision MergeFlag.
Proof. solve_decision. Defined.

Module MergeFlag.
Definition to_u8 (f : MergeFlag) : Z :=
  match f with
  | kInvalid => 0 | kDelete => 1 | kNew => 2 | kUpdate => 3 | kDeleteAndNew => 4 | kUnnamed b => b
  end.
Definition of_u8 (b : Z) : MergeFlag :=
  match b with
  | 0 => kInvalid | 1 => kDelete | 2 => kNew | 3 => kUpdate | 4 => kDeleteAndNew | _ => kUnnamed b
  end.
Definition ok (f : MergeFlag) : Prop :=
  match f with kUnnamed b => 4 < b < 256 | _ => True end.
End MergeFlag.

Inductive PruneFlag : Type :=
| PruneInvalid
| kPrune
| kPruneSub
| kKeep.

#[export] Instance PruneFlag_eq_dec : EqDecision PruneFlag.
Proof. solve_decision. Defined.

(** ** The base class *)
Record CatalogDeltaOperation := mkBase {
  begin_ts_ : Z;
  txn_id_ : Z;
  commit_ts_ : Z;
  merge_flag_ : MergeFlag;
  encode_ : string;
  addr_serializer_ : AddrSerializer;
  pm_size_ : Z;
}.

Module CatalogDeltaOperation.

Definition set_pm_size (n : Z) (o : CatalogDeltaOperation) : CatalogDeltaOperation :=
  mkBase (begin_ts_ o) (txn_id_ o) (commit_ts_ o) (merge_flag_ o) (encode_ o) (addr_serializer_ o) n.
Definition set_merge_flag (f : MergeFlag) (o : CatalogDeltaOperation) : CatalogDeltaOperation :=
  mkBase (begin_ts_ o) (txn_id_ o) (commit_ts_ o) f (encode_ o) (addr_serializer_ o) (pm_size_ o).
Definition set_commit_ts (ts : Z) (o : CatalogDeltaOperation) : CatalogDeltaOperation :=
  mkBase (begin_ts_ o) (txn_id_ o) ts (merge_flag_ o) (encode_ o) (addr_serializer_ o) (pm_size_ o).
Definition set_addr_serializer (a : AddrSerializer) (o : CatalogDeltaOperation) : CatalogDeltaOperation :=
  mkBase (begin_ts_ o) (txn_id_ o) (commit_ts_ o) (merge_flag_ o) (encode_ o) a (pm_size_ o).

(** [GetBaseSizeInBytes] records the size of the addresses in the mutable [pm_size_]. *)
Definition GetBaseSizeInBytes (uoc : bool) (o : CatalogDeltaOperation) : Z * CatalogDeltaOperation :=
  let size := u64 (8 + 1 + 8 + 8) in
  let size := u64 (size + (4 + Z.of_nat (String.length (encode_ o)))) in
  if uoc then
    let pm_size := AddrSerializer.GetSizeInBytes (addr_serializer_ o) in
    (u64 (size + pm_size), set_pm_size pm_size o)
  else (size, o).

Definition WriteAdvBase (uoc : bool) (o : CatalogDeltaOperation) : writer :=
  WriteBufAdv_int 8 (begin_ts_ o) +++
  WriteBufAdv_int 1 (MergeFlag.to_u8 (merge_flag_ o)) +++
  WriteBufAdv_int 8 (txn_id_ o) +++
  WriteBufAdv_int 8 (commit_ts_ o) +++
  WriteBufAdv_string (encode_ o) +++
  if uoc then write_addrs (addr_serializer_ o) (pm_size_ o) else Ok [].

(** [ReadAdvBase] on a fresh operation. *)
Definition ReadAdvBase (uoc : bool) : reader CatalogDeltaOperation :=
  read begin_ts := ReadBufAdv_u 8 in
  read merge_flag := ReadBufAdv_u 1 in
  read txn_id := ReadBufAdv_u 8 in
  read commit_ts := ReadBufAdv_u 8 in
  read encode := ReadBufAdv_string in
  read addrs := (if uoc then AddrSerializer.ReadBufAdv else rret AddrSerializer.empty) in
  rret (mkBase begin_ts txn_id commit_ts (MergeFlag.of_u8 merge_flag) encode addrs 0).

(** [operator==] on the members of the base class; [type_] is compared by the caller. *)
Definition op_eq (a b : CatalogDeltaOperation) : bool :=
  (begin_ts_ a =? begin_ts_ b) && (txn_id_ a =? txn_id_ b) && (commit_ts_ a =? commit_ts_ b) &&
  bool_decide (merge_flag_ a = merge_flag_ b) && String.eqb (encode_ a) (encode_ b).

(** The constructor from a catalog entry, given the members of the entry it reads. *)
Definition merge_flag_of (deleted committed : bool) (entry_commit_ts commit_ts : Z) : res MergeFlag :=
  if deleted then Ok kDelete
  else if commit_ts =? entry_commit_ts then Ok kNew
  else if negb committed then Err Unrecoverable
  else if commit_ts <? entry_commit_ts then Err Unrecoverable
  else Ok kUpdate.

(** [ToPrune]: what an operation of flag [new_merge_flag] does to the operations kept so
    far for the same entry and for the entries below it. *)
Definition ToPrune (old_merge_flag_opt : option MergeFlag) (new_merge_flag : MergeFlag) : res PruneFlag :=
  match old_merge_flag_opt with
  | None =>
      match new_merge_flag with
      | kDelete | kDeleteAndNew => Ok kPruneSub
      | kNew | kUpdate => Ok kKeep
      | _ => Err Unrecoverable
      end
  | Some old_merge_flag =>
      match new_merge_flag with
      | kDelete =>
          match old_merge_flag with
          | kNew => Ok kPrune
          | kUpdate | kDeleteAndNew => Ok kPruneSub
          | _ => Err Unrecoverable
          end
      | kNew | kUpdate => Ok kKeep
      | kDeleteAndNew =>
          match old_merge_flag with
          | kNew | kUpdate | kDeleteAndNew => Ok kPruneSub
          | _ => Err Unrecoverable
          end
      | _ => Err Unrecoverable
      end
  end.

Definition NextDeleteFlag (merge_flag new_merge_flag : MergeFlag) : res MergeFlag :=
  match merge_flag with
  | kDelete => match new_merge_flag with kNew => Ok kDeleteAndNew | _ => Err Unrecoverable end
  | kNew =>
      match new_merge_flag with
      | kDelete => Err Unrecoverable
      | kUpdate | kDeleteAndNew => Ok kNew
      | _ => Err Unrecoverable
      end
  | kUpdate =>
      match new_merge_flag with
      | kDelete => Ok kDelete
      | kUpdate => Ok kUpdate
      | kDeleteAndNew => Ok kNew
      | _ => Err Unrecoverable
      end
  | kDeleteAndNew =>
      match new_merge_flag with
      | kDelete => Ok kDelete
      | kUpdate | kDeleteAndNew => Ok kDeleteAndNew
      | _ => Err Unrecoverable
      end
  | _ => Err Unrecoverable
  end.

(** The number of bytes [WriteAdvBase] writes. *)
Definition base_size (uoc : bool) (o : CatalogDeltaOperation) : Z :=
  25 + string_size (encode_ o) + (if uoc then AddrSerializer.GetSizeInBytes (addr_serializer_ o) else 0).

Record ok (uoc : bool) (o : CatalogDeltaOperation) : Prop := {
  ok_begin : unsigned_range 64 (begin_ts_ o);
  ok_flag : MergeFlag.ok (merge_flag_ o);
  ok_txn : unsigned_range 64 (txn_id_ o);
  ok_commit : unsigned_range 64 (commit_ts_ o);
  ok_encode : string_ok (encode_ o);
  ok_addrs : uoc = true -> AddrSerializer.ok (addr_serializer_ o);
}.

(** What is read back. *)
Definition canon (uoc : bool) (o : CatalogDeltaOperation) : CatalogDeltaOperation :=
  mkBase (begin_ts_ o) (txn_id_ o) (commit_ts_ o) (merge_flag_ o) (encode_ o)
    (if uoc then AddrSerializer.canon (addr_serializer_ o) else AddrSerializer.empty) 0.

End CatalogDeltaOperation.

(** ** The derived classes

    [WriteAdv] and [GetSizeInBytes] of every class start with the type and the base; the
    functions of the modules below are what follows. *)
Module AddDBEntryOp.
Record t := mk { db_entry_dir_ : string; comment_ : string }.

Definition GetSizeInBytes (total_size : Z) (o : t) : Z :=
  u64 (total_size + (4 + Z.of_nat (String.length (db_entry_dir_ o)) + 4 + Z.of_nat (String.length (comment_ o)))).
Definition WriteAdv (o : t) : writer := WriteBufAdv_string (db_entry_dir_ o) +++ WriteBufAdv_string (comment_ o).
Definition ReadAdv : reader t :=
  read db_entry_dir := ReadBufAdv_string in
  read comment := ReadBufAdv_string in
  rret (mk db_entry_dir comment).
Definition op_eq (a b : t) : bool :=
  String.eqb (db_entry_dir_ a) (db_entry_dir_ b) && String.eqb (comment_ a) (comment_ b).

Definition size (o : t) : Z := string_size (db_entry_dir_ o) + string_size (comment_ o).
Definition ok (o : t) : Prop := string_ok (db_entry_dir_ o) /\ string_ok (comment_ o).
End AddDBEntryOp.

Module AddTableEntryOp.
Record t := mk {
  table_entry_dir_ : string;
  column_defs_ : list ColumnDef;
  row_count_ : Z;
  unsealed_id_ : Z;
  next_segment_id_ : Z;
  next_column_id_ : Z;
  table_comment_ : string;
}.

(** [auto total_size = 0] is an [int]. *)
Definition add_column_size (total_size : Z) (cd : ColumnDef) : res Z :=
  let total_size := i32 (total_size + 8) in
  let? n := DataType.GetSizeInBytes (column_type_ cd) in
  let total_size := i32 (total_size + n) in
  let total_size := i32 (total_size + (4 + Z.of_nat (String.length (name_ cd)))) in
  let total_size := i32 (total_size + 4) in
  let total_size := i32 (total_size + Z.of_nat (length (constraints_ cd)) * 1) in
  let total_size := i32 (total_size + (4 + Z.of_nat (String.length (TableDef.comment_ cd)))) in
  Ok (i32 (total_size + ConstantExpr.GetSizeInBytes (default_expr_ cd))).
Fixpoint columns_size (total_size : Z) (l : list ColumnDef) : res Z :=
  match l with
  | [] => Ok total_size
  | cd :: l => let? total_size := add_column_size total_size cd in columns_size total_size l
  end.
Definition GetSizeInBytes (total_size : Z) (o : t) : res Z :=
  let total_size := i32 (0 + total_size) in
  let total_size := i32 (total_size + (4 + Z.of_nat (String.length (table_entry_dir_ o)))) in
  let total_size := i32 (total_size + 4) in
  let? total_size := columns_size total_size (column_defs_ o) in
  let total_size := i32 (total_size + 8) in
  let total_size := i32 (total_size + 4 * 2) in
  let total_size := i32 (total_size + 8) in
  let total_size := i32 (total_size + (4 + Z.of_nat (String.length (table_comment_ o)))) in
  Ok (u64 total_size).

Definition write_column (cd : ColumnDef) : writer :=
  WriteBufAdv_int 8 (id_ cd) +++
  DataType.WriteAdv (column_type_ cd) +++
  WriteBufAdv_string (name_ cd) +++
  WriteBufAdv_int 4 (i32 (Z.of_nat (length (constraints_ cd)))) +++
  write_each (WriteBufAdv_int 1) (constraints_ cd) +++
  WriteBufAdv_string (TableDef.comment_ cd) +++
  ConstantExpr.WriteAdv (default_expr_ cd).
Definition WriteAdv (o : t) : writer :=
  WriteBufAdv_string (table_entry_dir_ o) +++
  WriteBufAdv_int 4 (i32 (Z.of_nat (length (column_defs_ o)))) +++
  write_each write_column (column_defs_ o) +++
  WriteBufAdv_int 8 (row_count_ o) +++
  WriteBufAdv_int 4 (unsealed_id_ o) +++
  WriteBufAdv_int 4 (next_segment_id_ o) +++
  WriteBufAdv_int 8 (next_column_id_ o) +++
  WriteBufAdv_string (table_comment_ o).

(** [max_bytes] is a [SizeT], so only [ptr == ptr_end] is caught; the readers it is passed
    to take an [int32_t]. The constructor leaves [build_bloom_filter_] at [false]. *)
Definition read_column (max_bytes p0 : Z) : reader ColumnDef :=
  read id := ReadBufAdv_s 8 in
  read p := rmark in
  let m := u64 (max_bytes - (p0 - p)) in
  if m =? 0 then rfail Unrecoverable else
  read column_type := DataType.ReadAdv (i32 m) in
  read column_name := ReadBufAdv_string in
  read constraints_size := ReadBufAdv_s 4 in
  read constraints := ColumnDef.read_constraints (Z.to_nat constraints_size) [] in
  read column_comment := ReadBufAdv_string in
  read default_expr := ConstantExpr.ReadAdv (i32 m) in
  rret (mkColumnDef id column_type column_name constraints column_comment default_expr false).
Definition ReadAdv (max_bytes p0 : Z) : reader t :=
  read table_entry_dir := ReadBufAdv_string in
  read columns_size := ReadBufAdv_s 4 in
  read columns := read_each (read_column max_bytes p0) (Z.to_nat columns_size) in
  read row_count := ReadBufAdv_u 8 in
  read unsealed_id := ReadBufAdv_u 4 in
  read next_segment_id := ReadBufAdv_u 4 in
  read next_column_id := ReadBufAdv_u 8 in
  read table_comment := ReadBufAdv_string in
  rret (mk table_entry_dir columns row_count unsealed_id next_segment_id next_column_id table_comment).

Definition op_eq (a b : t) : bool :=
  String.eqb (table_entry_dir_ a) (table_entry_dir_ b) && (row_count_ a =? row_count_ b) &&
  (unsealed_id_ a =? unsealed_id_ b) && (next_segment_id_ a =? next_segment_id_ b) &&
  (next_column_id_ a =? next_column_id_ b) && String.eqb (table_comment_ a) (table_comment_ b) &&
  TableDef.columns_eq (column_defs_ a) (column_defs_ b).

Definition column_size (cd : ColumnDef) : Z := ColumnDef.size cd - 1.
Definition size (o : t) : Z :=
  string_size (table_entry_dir_ o) + 4 + foldr (fun c n => column_size c + n) 0 (column_defs_ o) + 24 +
  string_size (table_comment_ o).

(** A column as it is read back. *)
Definition forget_bloom (cd : ColumnDef) : ColumnDef :=
  mkColumnDef (id_ cd) (column_type_ cd) (name_ cd) (constraints_ cd) (TableDef.comment_ cd) (default_expr_ cd) false.

Record ok (o : t) : Prop := {
  ok_dir : string_ok (table_entry_dir_ o);
  ok_count : count_ok (column_defs_ o);
  ok_columns : Forall ColumnDef.ok (column_defs_ o);
  ok_rows : unsigned_range 64 (row_count_ o);
  ok_unsealed : unsigned_range 32 (unsealed_id_ o);
  ok_segment : unsigned_range 32 (next_segment_id_ o);
  ok_column : unsigned_range 64 (next_column_id_ o);
  ok_comment : string_ok (table_comment_ o);
}.
End AddTableEntryOp.

Module AddSegmentEntryOp.
Record t := mk {
  status_ : Z;
  column_count_ : Z;
  row_count_ : Z;
  actual_row_count_ : Z;
  row_capacity_ : Z;
  min_row_ts_ : Z;
  max_row_ts_ : Z;
  first_delete_ts_ : Z;
  deprecate_ts_ : Z;
  segment_filter_binary_data_ : string;
}.
Definition set_filter (s : string) (o : t) : t :=
  mk (status_ o) (column_count_ o) (row_count_ o) (actual_row_count_ o) (row_capacity_ o) (min_row_ts_ o)
    (max_row_ts_ o) (first_delete_ts_ o) (deprecate_ts_ o) s.

Definition GetSizeInBytes (total_size : Z) (o : t) : Z :=
  let total_size := i32 (0 + total_size) in
  let total_size := i32 (total_size + 1) in
  let total_size := i32 (total_size + 8) in
  let total_size := i32 (total_size + 8) in
  let total_size := i32 (total_size + 8) in
  let total_size := i32 (total_size + 8) in
  let total_size := i32 (total_size + 8 * 4) in
  let total_size := i32 (total_size + (4 + Z.of_nat (String.length (segment_filter_binary_data_ o)))) in
  u64 total_size.
Definition WriteAdv (o : t) : writer :=
  WriteBufAdv_int 1 (status_ o) +++
  WriteBufAdv_int 8 (column_count_ o) +++
  WriteBufAdv_int 8 (row_count_ o) +++
  WriteBufAdv_int 8 (actual_row_count_ o) +++
  WriteBufAdv_int 8 (row_capacity_ o) +++
  WriteBufAdv_int 8 (min_row_ts_ o) +++
  WriteBufAdv_int 8 (max_row_ts_ o) +++
  WriteBufAdv_int 8 (first_delete_ts_ o) +++
  WriteBufAdv_int 8 (deprecate_ts_ o) +++
  WriteBufAdv_string (segment_filter_binary_data_ o).
Definition ReadAdv : reader t :=
  read status := ReadBufAdv_u 1 in
  read column_count := ReadBufAdv_u 8 in
  read row_count := ReadBufAdv_u 8 in
  read actual_row_count := ReadBufAdv_u 8 in
  read row_capacity := ReadBufAdv_u 8 in
  read min_row_ts := ReadBufAdv_u 8 in
  read max_row_ts := ReadBufAdv_u 8 in
  read first_delete_ts := ReadBufAdv_u 8 in
  read deprecate_ts := ReadBufAdv_u 8 in
  read segment_filter_binary_data := ReadBufAdv_string in
  rret (mk status column_count row_count actual_row_count row_capacity min_row_ts max_row_ts first_delete_ts
          deprecate_ts segment_filter_binary_data).
Definition op_eq (a b : t) : bool :=
  (status_ a =? status_ b) && (column_count_ a =? column_count_ b) && (row_count_ a =? row_count_ b) &&
  (actual_row_count_ a =? actual_row_count_ b) && (row_capacity_ a =? row_capacity_ b) &&
  (min_row_ts_ a =? min_row_ts_ b) && (max_row_ts_ a =? max_row_ts_ b) &&
  (first_delete_ts_ a =? first_delete_ts_ b) && (deprecate_ts_ a =? deprecate_ts_ b).

(** What [Merge] makes of the members: the newer ones, with the filter of the older
    operation when the newer one brings none. *)
Definition Merge (self other : t) : res t :=
  if String.eqb (segment_filter_binary_data_ self) "" then Ok other
  else if negb (String.eqb (segment_filter_binary_data_ other) "") then Err Unrecoverable
  else Ok (set_filter (segment_filter_binary_data_ self) other).

Definition size (o : t) : Z := 65 + string_size (segment_filter_binary_data_ o).
Definition ok (o : t) : Prop :=
  unsigned_range 8 (status_ o) /\ unsigned_range 64 (column_count_ o) /\ unsigned_range 64 (row_count_ o) /\
  unsigned_range 64 (actual_row_count_ o) /\ unsigned_range 64 (row_capacity_ o) /\
  unsigned_range 64 (min_row_ts_ o) /\ unsigned_range 64 (max_row_ts_ o) /\
  unsigned_range 64 (first_delete_ts_ o) /\ unsigned_range 64 (deprecate_ts_ o) /\
  string_ok (segment_filter_binary_data_ o).
End AddSegmentEntryOp.

Module AddBlockEntryOp.
Record t := mk {
  row_capacity_ : Z;
  row_count_ : Z;
  min_row_ts_ : Z;
  max_row_ts_ : Z;
  checkpoint_ts_ : Z;
  checkpoint_row_count_ : Z;
  block_filter_binary_data_ : string;
  local_paths_ : list string;
}.
Definition set_filter (s : string) (o : t) : t :=
  mk (row_capacity_ o) (row_count_ o) (min_row_ts_ o) (max_row_ts_ o) (checkpoint_ts_ o) (checkpoint_row_count_ o)
    s (local_paths_ o).

Definition GetSizeInBytes (total_size : Z) (o : t) : Z :=
  let total_size := u64 (total_size + (2 + 2 + 8 * 2)) in
  let total_size := u64 (total_size + (8 + 2)) in
  u64 (total_size + (4 + Z.of_nat (String.length (block_filter_binary_data_ o)))).
Definition WriteAdv (o : t) : writer :=
  WriteBufAdv_int 2 (row_count_ o) +++
  WriteBufAdv_int 2 (row_capacity_ o) +++
  WriteBufAdv_int 8 (min_row_ts_ o) +++
  WriteBufAdv_int 8 (max_row_ts_ o) +++
  WriteBufAdv_int 8 (checkpoint_ts_ o) +++
  WriteBufAdv_int 2 (checkpoint_row_count_ o) +++
  WriteBufAdv_string (block_filter_binary_data_ o).
Definition ReadAdv : reader t :=
  read row_count := ReadBufAdv_u 2 in
  read row_capacity := ReadBufAdv_u 2 in
  read min_row_ts := ReadBufAdv_u 8 in
  read max_row_ts := ReadBufAdv_u 8 in
  read checkpoint_ts := ReadBufAdv_u 8 in
  read checkpoint_row_count := ReadBufAdv_u 2 in
  read block_filter_binary_data := ReadBufAdv_string in
  rret (mk row_capacity row_count min_row_ts max_row_ts checkpoint_ts checkpoint_row_count block_filter_binary_data []).
Definition op_eq (a b : t) : bool :=
  (row_count_ a =? row_count_ b) && (row_capacity_ a =? row_capacity_ b) && (min_row_ts_ a =? min_row_ts_ b) &&
  (max_row_ts_ a =? max_row_ts_ b) && (checkpoint_ts_ a =? checkpoint_ts_ b) &&
  (checkpoint_row_count_ a =? checkpoint_row_count_ b).
Definition Merge (self other : t) : res t :=
  if String.eqb (block_filter_binary_data_ self) "" then Ok other
  else if negb (String.eqb (block_filter_binary_data_ other) "") then Err Unrecoverable
  else Ok (set_filter (block_filter_binary_data_ self) other).

Definition size (o : t) : Z := 30 + string_size (block_filter_binary_data_ o).
Definition ok (o : t) : Prop :=
  unsigned_range 16 (row_count_ o) /\ unsigned_range 16 (row_capacity_ o) /\ unsigned_range 64 (min_row_ts_ o) /\
  unsigned_range 64 (max_row_ts_ o) /\ unsigned_range 64 (checkpoint_ts_ o) /\
  unsigned_range 16 (checkpoint_row_count_ o) /\ string_ok (block_filter_binary_data_ o).
Definition canon (o : t) : t :=
  mk (row_capacity_ o) (row_count_ o) (min_row_ts_ o) (max_row_ts_ o) (checkpoint_ts_ o) (checkpoint_row_count_ o)
    (block_filter_binary_data_ o) [].
End AddBlockEntryOp.

Module AddColumnEntryOp.
Record t := mk { outline_info_ : Z * Z; local_paths_ : list string }.
Definition GetSizeInBytes (total_size : Z) (o : t) : Z := u64 (total_size + (4 + 8)).
Definition WriteAdv (o : t) : writer :=
  let '(outline_buffer_count, last_chunk_offset) := outline_info_ o in
  WriteBufAdv_int 4 outline_buffer_count +++ WriteBufAdv_int 8 last_chunk_offset.
Definition ReadAdv : reader t :=
  read outline_buffer_count := ReadBufAdv_u 4 in
  read last_chunk_offset := ReadBufAdv_u 8 in
  rret (mk (outline_buffer_count, last_chunk_offset) []).
Definition op_eq (a b : t) : bool := bool_decide (outline_info_ a = outline_info_ b).
Definition ok (o : t) : Prop := unsigned_range 32 (outline_info_ o).1 /\ unsigned_range 64 (outline_info_ o).2.
Definition canon (o : t) : t := mk (outline_info_ o) [].
End AddColumnEntryOp.

Module AddTableIndexEntryOp.
(** Both members are pointers; an operation that deletes an index leaves them null when it is read. *)
Record t := mk { index_dir_ : option string; index_base_ : option IndexBase }.
Definition GetSizeInBytes (flag : MergeFlag) (total_size : Z) (o : t) : res Z :=
  if decide (flag = kDelete) then Ok total_size else
  match index_dir_ o, index_base_ o with
  | Some index_dir, Some index_base =>
      let total_size := u64 (total_size + (4 + Z.of_nat (String.length index_dir))) in
      Ok (u64 (total_size + IndexBase.GetSizeInBytes index_base))
  | _, _ => Err Undefined
  end.
Definition WriteAdv (flag : MergeFlag) (o : t) : writer :=
  if decide (flag = kDelete) then Ok [] else
  match index_dir_ o, index_base_ o with
  | Some index_dir, Some index_base => WriteBufAdv_string index_dir +++ IndexBase.WriteAdv index_base
  | _, _ => Err Undefined
  end.
Definition ReadAdv (flag : MergeFlag) (max_bytes p0 : Z) : reader t :=
  if decide (flag = kDelete) then rret (mk None None) else
  read index_dir := ReadBufAdv_string in
  read m := left max_bytes p0 in
  read index_base := IndexBase.ReadAdv m in
  rret (mk (Some index_dir) (Some index_base)).
Definition op_eq (a b : t) : res bool :=
  match index_dir_ a, index_dir_ b with
  | Some d, Some d' =>
      if negb (String.eqb d d') then Ok false else
      match index_base_ a, index_base_ b with
      | Some i, Some i' => Ok (IndexBase.op_eq i i')
      | _, _ => Err Undefined
      end
  | _, _ => Err Undefined
  end.
Definition size (flag : MergeFlag) (o : t) : Z :=
  if decide (flag = kDelete) then 0 else
  match index_dir_ o, index_base_ o with
  | Some d, Some i => string_size d + IndexBase.size i
  | _, _ => 0
  end.
Definition ok (flag : MergeFlag) (o : t) : Prop :=
  flag = kDelete \/
  exists d i, index_dir_ o = Some d /\ index_base_ o = Some i /\ string_ok d /\ IndexBase.ok i.
Definition canon (flag : MergeFlag) (o : t) : t := if decide (flag = kDelete) then mk None None else o.
End AddTableIndexEntryOp.

Module AddSegmentIndexEntryOp.
Record t := mk { min_ts_ : Z; max_ts_ : Z; next_chunk_id_ : Z; deprecate_ts_ : Z }.
Definition GetSizeInBytes (total_size : Z) (o : t) : Z :=
  let total_size := u64 (total_size + (8 + 8)) in
  let total_size := u64 (total_size + 4) in
  u64 (total_size + 8).
Definition WriteAdv (o : t) : writer :=
  WriteBufAdv_int 8 (min_ts_ o) +++
  WriteBufAdv_int 8 (max_ts_ o) +++
  WriteBufAdv_int 4 (next_chunk_id_ o) +++
  WriteBufAdv_int 8 (deprecate_ts_ o).
Definition ReadAdv : reader t :=
  read min_ts := ReadBufAdv_u 8 in
  read max_ts := ReadBufAdv_u 8 in
  read next_chunk_id := ReadBufAdv_u 4 in
  read deprecate_ts := ReadBufAdv_u 8 in
  rret (mk min_ts max_ts next_chunk_id deprecate_ts).
Definition op_eq (a b : t) : bool :=
  (min_ts_ a =? min_ts_ b) && (max_ts_ a =? max_ts_ b) && (next_chunk_id_ a =? next_chunk_id_ b) &&
  (deprecate_ts_ a =? deprecate_ts_ b).
Definition ok (o : t) : Prop :=
  unsigned_range 64 (min_ts_ o) /\ unsigned_range 64 (max_ts_ o) /\ unsigned_range 32 (next_chunk_id_ o) /\
  unsigned_range 64 (deprecate_ts_ o).
End AddSegmentIndexEntryOp.

Module AddChunkIndexEntryOp.
(** [base_rowid_] is the [uint64_t] value of the row id. *)
Record t := mk {
  base_name_ : string;
  local_paths_ : list string;
  base_rowid_ : Z;
  row_count_ : Z;
  deprecate_ts_ : Z;
}.
Definition GetSizeInBytes (total_size : Z) (o : t) : Z :=
  let total_size := u64 (total_size + (4 + Z.of_nat (String.length (base_name_ o)))) in
  let total_size := u64 (total_size + 8) in
  let total_size := u64 (total_size + 4) in
  u64 (total_size + 8).
Definition WriteAdv (o : t) : writer :=
  WriteBufAdv_string (base_name_ o) +++
  WriteBufAdv_int 8 (base_rowid_ o) +++
  WriteBufAdv_int 4 (row_count_ o) +++
  WriteBufAdv_int 8 (deprecate_ts_ o).
Definition ReadAdv : reader t :=
  read base_name := ReadBufAdv_string in
  read base_rowid := ReadBufAdv_u 8 in
  read row_count := ReadBufAdv_u 4 in
  read deprecate_ts := ReadBufAdv_u 8 in
  rret (mk base_name [] base_rowid row_count deprecate_ts).
Definition op_eq (a b : t) : bool :=
  String.eqb (base_name_ a) (base_name_ b) && (base_rowid_ a =? base_rowid_ b) && (row_count_ a =? row_count_ b).
Definition size (o : t) : Z := string_size (base_name_ o) + 20.
Definition ok (o : t) : Prop :=
  string_ok (base_name_ o) /\ unsigned_range 64 (base_rowid_ o) /\ unsigned_range 32 (row_count_ o) /\
  unsigned_range 64 (deprecate_ts_ o).
Definition canon (o : t) : t := mk (base_name_ o) [] (base_rowid_ o) (row_count_ o) (deprecate_ts_ o).
End AddChunkIndexEntryOp.

(** ** An operation of any class *)
Inductive DeltaMembers : Type :=
| AddDBEntry (o : AddDBEntryOp.t)
| AddTableEntry (o : AddTableEntryOp.t)
| AddSegmentEntry (o : AddSegmentEntryOp.t)
| AddBlockEntry (o : AddBlockEntryOp.t)
| AddColumnEntry (o : AddColumnEntryOp.t)
| AddTableIndexEntry (o : AddTableIndexEntryOp.t)
| AddSegmentIndexEntry (o : AddSegmentIndexEntryOp.t)
| AddChunkIndexEntry (o : AddChunkIndexEntryOp.t).

Record DeltaOp := mkDeltaOp { base_ : CatalogDeltaOperation; members_ : DeltaMembers }.

Module DeltaOp.

Definition type_ (m : DeltaMembers) : Z :=
  match m with
  | AddDBEntry _ => ADD_DATABASE_ENTRY
  | AddTableEntry _ => ADD_TABLE_ENTRY
  | AddSegmentEntry _ => ADD_SEGMENT_ENTRY
  | AddBlockEntry _ => ADD_BLOCK_ENTRY
  | AddColumnEntry _ => ADD_COLUMN_ENTRY
  | AddTableIndexEntry _ => ADD_TABLE_INDEX_ENTRY
  | AddSegmentIndexEntry _ => ADD_SEGMENT_INDEX_ENTRY
  | AddChunkIndexEntry _ => ADD_CHUNK_INDEX_ENTRY
  end.
Definition flag (o : DeltaOp) : MergeFlag := merge_flag_ (base_ o).
Definition set_flag (f : MergeFlag) (o : DeltaOp) : DeltaOp :=
  mkDeltaOp (CatalogDeltaOperation.set_merge_flag f (base_ o)) (members_ o).

Definition GetFilePaths (m : DeltaMembers) : list string :=
  match m with
  | AddBlockEntry o => AddBlockEntryOp.local_paths_ o
  | AddColumnEntry o => AddColumnEntryOp.local_paths_ o
  | AddChunkIndexEntry o => AddChunkIndexEntryOp.local_paths_ o
  | _ => []
  end.

(** [InitializeAddrSerializer] looks the object addresses of the operation's files up. *)
Definition InitializeAddrSerializer (pm : option PersistenceManager.t) (o : DeltaOp) : res DeltaOp :=
  match pm with
  | None => Ok o
  | Some _ =>
      let? a := AddrSerializer.Initialize pm (GetFilePaths (members_ o)) (addr_serializer_ (base_ o)) in
      Ok (mkDeltaOp (CatalogDeltaOperation.set_addr_serializer a (base_ o)) (members_ o))
  end.

Definition add_members_size (flag : MergeFlag) (total_size : Z) (m : DeltaMembers) : res Z :=
  match m with
  | AddDBEntry o => Ok (AddDBEntryOp.GetSizeInBytes total_size o)
  | AddTableEntry o => AddTableEntryOp.GetSizeInBytes total_size o
  | AddSegmentEntry o => Ok (AddSegmentEntryOp.GetSizeInBytes total_size o)
  | AddBlockEntry o => Ok (AddBlockEntryOp.GetSizeInBytes total_size o)
  | AddColumnEntry o => Ok (AddColumnEntryOp.GetSizeInBytes total_size o)
  | AddTableIndexEntry o => AddTableIndexEntryOp.GetSizeInBytes flag total_size o
  | AddSegmentIndexEntry o => Ok (AddSegmentIndexEntryOp.GetSizeInBytes total_size o)
  | AddChunkIndexEntry o => Ok (AddChunkIndexEntryOp.GetSizeInBytes total_size o)
  end.
Definition GetSizeInBytes (uoc : bool) (o : DeltaOp) : res (Z * DeltaOp) :=
  let '(n, b) := CatalogDeltaOperation.GetBaseSizeInBytes uoc (base_ o) in
  let? total_size := add_members_size (flag o) (u64 (1 + n)) (members_ o) in
  Ok (total_size, mkDeltaOp b (members_ o)).

Definition write_members (flag : MergeFlag) (m : DeltaMembers) : writer :=
  match m with
  | AddDBEntry o => AddDBEntryOp.WriteAdv o
  | AddTableEntry o => AddTableEntryOp.WriteAdv o
  | AddSegmentEntry o => AddSegmentEntryOp.WriteAdv o
  | AddBlockEntry o => AddBlockEntryOp.WriteAdv o
  | AddColumnEntry o => AddColumnEntryOp.WriteAdv o
  | AddTableIndexEntry o => AddTableIndexEntryOp.WriteAdv flag o
  | AddSegmentIndexEntry o => AddSegmentIndexEntryOp.WriteAdv o
  | AddChunkIndexEntry o => AddChunkIndexEntryOp.WriteAdv o
  end.
Definition WriteAdv (uoc : bool) (o : DeltaOp) : writer :=
  WriteBufAdv_int 1 (type_ (members_ o)) +++
  CatalogDeltaOperation.WriteAdvBase uoc (base_ o) +++
  write_members (flag o) (members_ o).

(** The switch of [CatalogDeltaOperation::ReadAdv], behind the base. *)
Definition read_members (type : Z) (flag : MergeFlag) (max_bytes p0 : Z) : reader DeltaMembers :=
  match type with
  | 1 => read o := AddDBEntryOp.ReadAdv in rret (AddDBEntry o)
  | 2 => read o := AddTableEntryOp.ReadAdv max_bytes p0 in rret (AddTableEntry o)
  | 3 => read o := AddSegmentEntryOp.ReadAdv in rret (AddSegmentEntry o)
  | 4 => read o := AddBlockEntryOp.ReadAdv in rret (AddBlockEntry o)
  | 5 => read o := AddColumnEntryOp.ReadAdv in rret (AddColumnEntry o)
  | 11 => read o := AddTableIndexEntryOp.ReadAdv flag max_bytes p0 in rret (AddTableIndexEntry o)
  | 12 => read o := AddSegmentIndexEntryOp.ReadAdv in rret (AddSegmentIndexEntry o)
  | 13 => read o := AddChunkIndexEntryOp.ReadAdv in rret (AddChunkIndexEntry o)
  | _ => rfail Unrecoverable
  end.
Definition known_type (type : Z) : bool := existsb (Z.eqb type) [1; 2; 3; 4; 5; 11; 12; 13].
Definition ReadAdv (uoc : bool) (max_bytes : Z) : reader DeltaOp :=
  read p0 := rmark in
  read o :=
    (read type := ReadBufAdv_s 1 in
     if negb (known_type type) then rfail Unrecoverable else
     read b := CatalogDeltaOperation.ReadAdvBase uoc in
     read m := read_members type (merge_flag_ b) max_bytes p0 in
     rret (mkDeltaOp b m)) in
  read m := left max_bytes p0 in
  if m <? 0 then rfail Unrecoverable else rret o.

(** [operator==]: [dynamic_cast] gives null, and the result is false, for another class. *)
Definition op_eq (a b : DeltaOp) : res bool :=
  let base_eq (members_eq : bool) := Ok (CatalogDeltaOperation.op_eq (base_ a) (base_ b) && members_eq) in
  match members_ a, members_ b with
  | AddDBEntry o, AddDBEntry o' => base_eq (AddDBEntryOp.op_eq o o')
  | AddTableEntry o, AddTableEntry o' => base_eq (AddTableEntryOp.op_eq o o')
  | AddSegmentEntry o, AddSegmentEntry o' => base_eq (AddSegmentEntryOp.op_eq o o')
  | AddBlockEntry o, AddBlockEntry o' => base_eq (AddBlockEntryOp.op_eq o o')
  | AddColumnEntry o, AddColumnEntry o' => base_eq (AddColumnEntryOp.op_eq o o')
  | AddTableIndexEntry o, AddTableIndexEntry o' =>
      if CatalogDeltaOperation.op_eq (base_ a) (base_ b) then AddTableIndexEntryOp.op_eq o o' else Ok false
  | AddSegmentIndexEntry o, AddSegmentIndexEntry o' => base_eq (AddSegmentIndexEntryOp.op_eq o o')
  | AddChunkIndexEntry o, AddChunkIndexEntry o' => base_eq (AddChunkIndexEntryOp.op_eq o o')
  | _, _ => Ok false
  end.

(** [CheckDelete]: a deprecated segment or chunk counts as deleted. *)
Definition CheckDelete (o : DeltaOp) : DeltaOp :=
  match members_ o with
  | AddSegmentEntry s => if AddSegmentEntryOp.status_ s =? kDeprecated then set_flag kDelete o else o
  | AddChunkIndexEntry c => if negb (AddChunkIndexEntryOp.deprecate_ts_ c =? UNCOMMIT_TS) then set_flag kDelete o else o
  | _ => o
  end.

(** [Merge] of every class: the type has to agree, and the newer operation replaces the
    older one except for the flag, which both determine, and the filter data. *)
Definition merge_members (self other : DeltaMembers) : res DeltaMembers :=
  match self, other with
  | AddSegmentEntry o, AddSegmentEntry o' => let? m := AddSegmentEntryOp.Merge o o' in Ok (AddSegmentEntry m)
  | AddBlockEntry o, AddBlockEntry o' => let? m := AddBlockEntryOp.Merge o o' in Ok (AddBlockEntry m)
  | _, _ => Ok other
  end.
Definition Merge (self other : DeltaOp) : res DeltaOp :=
  if negb (type_ (members_ other) =? type_ (members_ self)) then Err Unrecoverable else
  let? f := CatalogDeltaOperation.NextDeleteFlag (flag self) (flag other) in
  let? m := merge_members (members_ self) (members_ other) in
  Ok (mkDeltaOp (CatalogDeltaOperation.set_merge_flag f (base_ other)) m).

(** ** What the codec promises *)
Definition members_size (flag : MergeFlag) (m : DeltaMembers) : Z :=
  match m with
  | AddDBEntry o => AddDBEntryOp.size o
  | AddTableEntry o => AddTableEntryOp.size o
  | AddSegmentEntry o => AddSegmentEntryOp.size o
  | AddBlockEntry o => AddBlockEntryOp.size o
  | AddColumnEntry _ => 12
  | AddTableIndexEntry o => AddTableIndexEntryOp.size flag o
  | AddSegmentIndexEntry _ => 28
  | AddChunkIndexEntry o => AddChunkIndexEntryOp.size o
  end.
Definition size (uoc : bool) (o : DeltaOp) : Z :=
  1 + CatalogDeltaOperation.base_size uoc (base_ o) + members_size (flag o) (members_ o).

Definition members_ok (flag : MergeFlag) (m : DeltaMembers) : Prop :=
  match m with
  | AddDBEntry o => AddDBEntryOp.ok o
  | AddTableEntry o => AddTableEntryOp.ok o
  | AddSegmentEntry o => AddSegmentEntryOp.ok o
  | AddBlockEntry o => AddBlockEntryOp.ok o
  | AddColumnEntry o => AddColumnEntryOp.ok o
  | AddTableIndexEntry o => AddTableIndexEntryOp.ok flag o
  | AddSegmentIndexEntry o => AddSegmentIndexEntryOp.ok o
  | AddChunkIndexEntry o => AddChunkIndexEntryOp.ok o
  end.
Definition ok (uoc : bool) (o : DeltaOp) : Prop :=
  CatalogDeltaOperation.ok uoc (base_ o) /\ members_ok (flag o) (members_ o).

Definition canon_members (flag : MergeFlag) (m : DeltaMembers) : DeltaMembers :=
  match m with
  | AddTableEntry o => AddTableEntry
      (AddTableEntryOp.mk (AddTableEntryOp.table_entry_dir_ o) (AddTableEntryOp.forget_bloom <$> AddTableEntryOp.column_defs_ o)
         (AddTableEntryOp.row_count_ o) (AddTableEntryOp.unsealed_id_ o) (AddTableEntryOp.next_segment_id_ o)
         (AddTableEntryOp.next_column_id_ o) (AddTableEntryOp.table_comment_ o))
  | AddBlockEntry o => AddBlockEntry (AddBlockEntryOp.canon o)
  | AddColumnEntry o => AddColumnEntry (AddColumnEntryOp.canon o)
  | AddTableIndexEntry o => AddTableIndexEntry (AddTableIndexEntryOp.canon flag o)
  | AddChunkIndexEntry o => AddChunkIndexEntry (AddChunkIndexEntryOp.canon o)
  | _ => m
  end.
(** The operation that is read back: the file paths are dropped, and so are the bloom
    filter flags of the columns. *)
Definition canon (uoc : bool) (o : DeltaOp) : DeltaOp :=
  mkDeltaOp (CatalogDeltaOperation.canon uoc (base_ o)) (canon_members (flag o) (members_ o)).

End DeltaOp.

Section delta_codec.
Context (uoc : bool).

Lemma merge_flag_u8 f : MergeFlag.ok f -> MergeFlag.of_u8 (MergeFlag.to_u8 f) = f /\ unsigned_range 8 (MergeFlag.to_u8 f).
Proof.
  destruct f as [| | | | |b]; cbn [MergeFlag.ok MergeFlag.to_u8]; intros H;
    try (split; [reflexivity|unfold unsigned_range; cbn; lia]).
  split; [|unfold unsigned_range; cbn; lia].
  unfold MergeFlag.of_u8. destruct b as [|p|p]; try lia. do 3 (destruct p as [p|p|]; try lia; try reflexivity).
Qed.

Abbreviation sized o := (CatalogDeltaOperation.GetBaseSizeInBytes uoc o).2.

Lemma sized_fields o :
  begin_ts_ (sized o) = begin_ts_ o /\ txn_id_ (sized o) = txn_id_ o /\ commit_ts_ (sized o) = commit_ts_ o /\
  merge_flag_ (sized o) = merge_flag_ o /\ encode_ (sized o) = encode_ o /\
  addr_serializer_ (sized o) = addr_serializer_ o.
Proof. unfold CatalogDeltaOperation.GetBaseSizeInBytes. destruct uoc; now split_and!. Qed.

(** After [GetBaseSizeInBytes] the addresses have the recorded size. *)
Lemma encodes_base_addrs o :
  CatalogDeltaOperation.ok uoc o ->
  encodes (if uoc then write_addrs (addr_serializer_ (sized o)) (pm_size_ (sized o)) else Ok [])
    (if uoc then AddrSerializer.ReadBufAdv else rret AddrSerializer.empty)
    (if uoc then AddrSerializer.canon (addr_serializer_ o) else AddrSerializer.empty)
    (if uoc then AddrSerializer.GetSizeInBytes (addr_serializer_ o) else 0).
Proof.
  intros [_ _ _ _ _ Ha]. destruct uoc; [|apply encodes_ret]. cbn.
  destruct (encodes_AddrSerializer _ (Ha eq_refl)) as (bs & E & Hl & Hr). exists bs. split_and!; [|done..].
  unfold write_addrs. rewrite E. cbn [res_bind]. now rewrite Hl, Z.eqb_refl.
Qed.

Lemma encodes_base o :
  CatalogDeltaOperation.ok uoc o ->
  encodes (CatalogDeltaOperation.WriteAdvBase uoc (sized o)) (CatalogDeltaOperation.ReadAdvBase uoc)
    (CatalogDeltaOperation.canon uoc o) (CatalogDeltaOperation.base_size uoc o).
Proof.
  intros Hok. pose proof (encodes_base_addrs o Hok) as Ha. pose proof (sized_fields o) as (E1 & E2 & E3 & E4 & E5 & _).
  destruct Hok as [H1 H2 H3 H4 H5 _]. destruct (merge_flag_u8 _ H2) as [Hf Hr].
  unfold CatalogDeltaOperation.WriteAdvBase, CatalogDeltaOperation.ReadAdvBase. rewrite E1, E2, E3, E4, E5.
  eapply encodes_size; [enc; eapply encodes_map; [exact Ha|]|].
  - intros rest. unfold rret, CatalogDeltaOperation.canon. now rewrite Hf.
  - unfold CatalogDeltaOperation.base_size. lia.
Qed.

(** ** The members of each class *)
Ltac enc_record o := eapply encodes_size; [enc; eapply encodes_map; [enc_field|now destruct o]|].

Lemma encodes_db o : AddDBEntryOp.ok o -> encodes (AddDBEntryOp.WriteAdv o) AddDBEntryOp.ReadAdv o (AddDBEntryOp.size o).
Proof. intros (? & ?). unfold AddDBEntryOp.WriteAdv, AddDBEntryOp.ReadAdv. now enc_record o. Qed.

Lemma encodes_segment o :
  AddSegmentEntryOp.ok o -> encodes (AddSegmentEntryOp.WriteAdv o) AddSegmentEntryOp.ReadAdv o (AddSegmentEntryOp.size o).
Proof.
  unfold AddSegmentEntryOp.ok. intros; split_hyps. unfold AddSegmentEntryOp.WriteAdv, AddSegmentEntryOp.ReadAdv.
  enc_record o. unfold AddSegmentEntryOp.size. lia.
Qed.

Lemma encodes_block o :
  AddBlockEntryOp.ok o ->
  encodes (AddBlockEntryOp.WriteAdv o) AddBlockEntryOp.ReadAdv (AddBlockEntryOp.canon o) (AddBlockEntryOp.size o).
Proof.
  unfold AddBlockEntryOp.ok. intros; split_hyps. unfold AddBlockEntryOp.WriteAdv, AddBlockEntryOp.ReadAdv.
  enc_record o. unfold AddBlockEntryOp.size. lia.
Qed.

Lemma encodes_column_op o :
  AddColumnEntryOp.ok o ->
  encodes (AddColumnEntryOp.WriteAdv o) AddColumnEntryOp.ReadAdv (AddColumnEntryOp.canon o) 12.
Proof.
  destruct o as [[n off] paths]. intros (? & ?). cbn in *.
  unfold AddColumnEntryOp.WriteAdv, AddColumnEntryOp.ReadAdv. cbn [AddColumnEntryOp.outline_info_].
  eapply encodes_size; [enc; eapply encodes_map; [enc_field|reflexivity]|reflexivity].
Qed.

Lemma encodes_segment_index o :
  AddSegmentIndexEntryOp.ok o -> encodes (AddSegmentIndexEntryOp.WriteAdv o) AddSegmentIndexEntryOp.ReadAdv o 28.
Proof.
  unfold AddSegmentIndexEntryOp.ok. intros; split_hyps.
  unfold AddSegmentIndexEntryOp.WriteAdv, AddSegmentIndexEntryOp.ReadAdv. now enc_record o.
Qed.

Lemma encodes_chunk_index o :
  AddChunkIndexEntryOp.ok o ->
  encodes (AddChunkIndexEntryOp.WriteAdv o) AddChunkIndexEntryOp.ReadAdv (AddChunkIndexEntryOp.canon o) (AddChunkIndexEntryOp.size o).
Proof.
  unfold AddChunkIndexEntryOp.ok. intros; split_hyps.
  unfold AddChunkIndexEntryOp.WriteAdv, AddChunkIndexEntryOp.ReadAdv. enc_record o. unfold AddChunkIndexEntryOp.size. lia.
Qed.

Lemma encodes_table_index f o L max_bytes p0 :
  AddTableIndexEntryOp.ok f o -> 0 <= p0 - L -> p0 - L + AddTableIndexEntryOp.size f o <= max_bytes < 2 ^ 31 ->
  encodes_at L (AddTableIndexEntryOp.WriteAdv f o) (AddTableIndexEntryOp.ReadAdv f max_bytes p0)
    (AddTableIndexEntryOp.canon f o) (AddTableIndexEntryOp.size f o).
Proof.
  unfold AddTableIndexEntryOp.ok, AddTableIndexEntryOp.WriteAdv, AddTableIndexEntryOp.ReadAdv,
    AddTableIndexEntryOp.canon, AddTableIndexEntryOp.size.
  intros Hok HL Hm. case_decide as Hd; [apply encodes_at_of, encodes_ret|].
  destruct Hok as [?|(d & i & Ed & Ei & Hd' & Hi)]; [done|]. rewrite Ed, Ei in *.
  assert (0 <= IndexBase.size i).
  { pose proof (option_size_nonneg (option_ i)). pose proof (names_size_nonneg (column_names_ i)).
    assert (forall s, 4 <= string_size s) as Hp by (intros; unfold string_size; lia).
    pose proof (Hp (index_name_ i)). pose proof (Hp (index_comment_ i)). pose proof (Hp (file_name_ i)).
    unfold IndexBase.size. lia. }
  assert (4 <= string_size d) by (unfold string_size; lia).
  enc_at. apply encodes_at_left; [lia..|]. apply encodes_at_of.
  eapply encodes_map; [apply encodes_IndexBase; [done|lia]|].
  intros rest. unfold rret. do 3 f_equal. destruct o; cbn in *; congruence.
Qed.

(** ** The columns of a table *)
Lemma column_size_pos c : 8 < AddTableEntryOp.column_size c.
Proof. unfold AddTableEntryOp.column_size, ColumnDef.size. pose proof (ColumnDef_size_bounds c). lia. Qed.

Lemma encodes_at_column c L max_bytes p0 :
  ColumnDef.ok c -> 0 <= p0 - L -> p0 - L + AddTableEntryOp.column_size c <= max_bytes < 2 ^ 31 ->
  encodes_at L (AddTableEntryOp.write_column c) (AddTableEntryOp.read_column max_bytes p0)
    (AddTableEntryOp.forget_bloom c) (AddTableEntryOp.column_size c).
Proof.
  intros [H1 H2 H3 H4 H5 H6 H7 H8] HL Hs. pose proof (ColumnDef_size_bounds c) as (? & ? & ? & ?).
  unfold AddTableEntryOp.column_size, ColumnDef.size in *.
  unfold AddTableEntryOp.write_column, AddTableEntryOp.read_column. eapply encodes_at_size.
  - eapply encodes_at_bind; [apply (encodes_s 8); [lia|done]|]. cbv beta. apply encodes_at_mark. cbv zeta.
    assert (E : u64 (max_bytes - (p0 - (L - Z.of_nat 8))) = max_bytes - (p0 - (L - 8)))
      by (apply wrap_id; unfold unsigned_range; lia).
    rewrite E. replace (_ =? 0) with false by (symmetry; apply Z.eqb_neq; lia).
    rewrite (swrap_id 32 (max_bytes - _)) by (unfold signed_range; lia). apply encodes_at_of.
    eapply encodes_bind; [apply encodes_ReadAdv_DataType; [done|lia]|]. enc.
    rewrite Nat2Z.id. eapply encodes_bind; [now apply encodes_constraints|]. cbn [app]. enc.
    eapply encodes_map; [apply encodes_ReadAdv_ConstantExpr; [done|lia]|]. reflexivity.
  - lia.
Qed.

Lemma encodes_at_columns l L max_bytes p0 :
  Forall ColumnDef.ok l -> 0 <= p0 - L ->
  p0 - L + foldr (fun c n => AddTableEntryOp.column_size c + n) 0 l <= max_bytes < 2 ^ 31 ->
  encodes_at L (write_each AddTableEntryOp.write_column l) (read_each (AddTableEntryOp.read_column max_bytes p0) (length l))
    (AddTableEntryOp.forget_bloom <$> l) (foldr (fun c n => AddTableEntryOp.column_size c + n) 0 l).
Proof.
  intros Hok. revert L. induction Hok as [|c l Hc Hl IH]; intros L HL Hm.
  - apply encodes_at_of, encodes_ret.
  - cbn [foldr fmap list_fmap length write_each read_each] in *. pose proof (column_size_pos c).
    assert (0 <= foldr (fun c n => AddTableEntryOp.column_size c + n) 0 l).
    { clear. induction l as [|c l IH]; cbn; [lia|]. pose proof (column_size_pos c). lia. }
    eapply encodes_at_seq; [apply encodes_at_column; [done|lia..]|].
    eapply encodes_at_map; [apply IH; lia|]. reflexivity.
Qed.

Abbreviation sum_columns l := (foldr (fun c n => AddTableEntryOp.column_size c + n) 0 l).

Lemma sum_columns_nonneg l : 0 <= sum_columns l.
Proof. induction l as [|c l IH]; cbn; [lia|]. pose proof (column_size_pos c). lia. Qed.

Lemma encodes_at_table o L max_bytes p0 :
  AddTableEntryOp.ok o -> 0 <= p0 - L -> p0 - L + AddTableEntryOp.size o <= max_bytes < 2 ^ 31 ->
  encodes_at L (AddTableEntryOp.WriteAdv o) (read m := AddTableEntryOp.ReadAdv max_bytes p0 in rret (AddTableEntry m))
    (DeltaOp.canon_members kInvalid (AddTableEntry o)) (AddTableEntryOp.size o).
Proof.
  intros [H1 H2 H3 H4 H5 H6 H7 H8] HL Hs. pose proof (sum_columns_nonneg (AddTableEntryOp.column_defs_ o)).
  assert (forall s, 4 <= string_size s) as Hp by (intros; unfold string_size; lia).
  pose proof (Hp (AddTableEntryOp.table_entry_dir_ o)). pose proof (Hp (AddTableEntryOp.table_comment_ o)).
  unfold AddTableEntryOp.size in *. eapply encodes_at_map; [|intros; reflexivity].
  unfold AddTableEntryOp.WriteAdv, AddTableEntryOp.ReadAdv. eapply encodes_at_size.
  - enc_at. rewrite Nat2Z.id. eapply encodes_at_seq; [apply encodes_at_columns; [done|lia..]|].
    enc_at. eapply encodes_at_map; [apply encodes_at_of; enc_field|]. reflexivity.
  - lia.
Qed.

(** ** Members of any class *)
Ltac members_case := eapply encodes_at_map; [|intros; reflexivity]; try apply encodes_at_of.

Lemma encodes_at_members f m L max_bytes p0 :
  DeltaOp.members_ok f m -> 0 <= p0 - L -> p0 - L + DeltaOp.members_size f m <= max_bytes < 2 ^ 31 ->
  encodes_at L (DeltaOp.write_members f m) (DeltaOp.read_members (DeltaOp.type_ m) f max_bytes p0)
    (DeltaOp.canon_members f m) (DeltaOp.members_size f m).
Proof.
  intros Hok HL Hs. destruct m as [o|o|o|o|o|o|o|o];
    cbn [DeltaOp.members_ok DeltaOp.members_size DeltaOp.write_members DeltaOp.canon_members DeltaOp.type_] in *.
  - members_case. now apply encodes_db.
  - now apply encodes_at_table.
  - members_case. now apply encodes_segment.
  - members_case. now apply encodes_block.
  - members_case. now apply encodes_column_op.
  - eapply encodes_at_map; [now apply encodes_table_index|reflexivity].
  - members_case. now apply encodes_segment_index.
  - members_case. now apply encodes_chunk_index.
Qed.

Lemma members_size_nonneg f m : 0 <= DeltaOp.members_size f m.
Proof.
  assert (forall s, 4 <= string_size s) as Hp by (intros; unfold string_size; lia).
  destruct m as [o|o|o|o|o|o|o|o]; cbn [DeltaOp.members_size]; try lia.
  - unfold AddDBEntryOp.size. pose proof (Hp (AddDBEntryOp.db_entry_dir_ o)). pose proof (Hp (AddDBEntryOp.comment_ o)). lia.
  - unfold AddTableEntryOp.size. pose proof (Hp (AddTableEntryOp.table_entry_dir_ o)).
    pose proof (Hp (AddTableEntryOp.table_comment_ o)). pose proof (sum_columns_nonneg (AddTableEntryOp.column_defs_ o)). lia.
  - unfold AddSegmentEntryOp.size. pose proof (Hp (AddSegmentEntryOp.segment_filter_binary_data_ o)). lia.
  - unfold AddBlockEntryOp.size. pose proof (Hp (AddBlockEntryOp.block_filter_binary_data_ o)). lia.
  - unfold AddTableIndexEntryOp.size. case_decide; [lia|]. destruct (AddTableIndexEntryOp.index_dir_ o) as [d|]; [|lia].
    destruct (AddTableIndexEntryOp.index_base_ o) as [i|]; [|lia].
    pose proof (option_size_nonneg (option_ i)). pose proof (names_size_nonneg (column_names_ i)).
    pose proof (Hp (index_name_ i)). pose proof (Hp (index_comment_ i)). pose proof (Hp (file_name_ i)). pose proof (Hp d).
    unfold IndexBase.size. lia.
  - unfold AddChunkIndexEntryOp.size. pose proof (Hp (AddChunkIndexEntryOp.base_name_ o)). lia.
Qed.

Lemma base_size_bounds o : CatalogDeltaOperation.ok uoc o -> 29 <= CatalogDeltaOperation.base_size uoc o.
Proof. intros H. pose proof (encodes_pos _ _ _ _ (encodes_base_addrs o H)). unfold CatalogDeltaOperation.base_size, string_size. lia. Qed.

(** ** The operation *)
Definition sized_op (o : DeltaOp) : DeltaOp := mkDeltaOp (sized (base_ o)) (members_ o).

Lemma encodes_delta_op o max_bytes :
  DeltaOp.ok uoc o -> DeltaOp.size uoc o <= max_bytes < 2 ^ 31 ->
  encodes (DeltaOp.WriteAdv uoc (sized_op o)) (DeltaOp.ReadAdv uoc max_bytes) (DeltaOp.canon uoc o) (DeltaOp.size uoc o).
Proof.
  intros [Hb Hm] Hs. pose proof (base_size_bounds _ Hb). pose proof (members_size_nonneg (DeltaOp.flag o) (members_ o)).
  unfold DeltaOp.size in *. apply encodes_of_at. intros p0. unfold DeltaOp.ReadAdv. apply encodes_at_mark.
  apply encodes_at_finish; [lia..|]. unfold DeltaOp.WriteAdv, sized_op. cbn [base_ members_].
  assert (Ef : DeltaOp.flag (mkDeltaOp (sized (base_ o)) (members_ o)) = DeltaOp.flag o) by apply sized_fields.
  rewrite Ef. eapply encodes_at_size.
  - eapply encodes_at_bind; [apply (encodes_s 1); [lia|destruct (members_ o); vm_compute; split; congruence]|]. cbv beta.
    replace (negb (DeltaOp.known_type (DeltaOp.type_ (members_ o)))) with false by (destruct (members_ o); reflexivity).
    eapply encodes_at_bind; [now apply encodes_base|]. cbv beta.
    change (merge_flag_ (CatalogDeltaOperation.canon uoc (base_ o))) with (DeltaOp.flag o).
    eapply encodes_at_map; [apply encodes_at_members; [done|lia..]|]. reflexivity.
  - lia.
Qed.

(** ** The announced size *)
Lemma base_announced o :
  CatalogDeltaOperation.ok uoc o -> CatalogDeltaOperation.base_size uoc o < 2 ^ 31 ->
  (CatalogDeltaOperation.GetBaseSizeInBytes uoc o).1 = CatalogDeltaOperation.base_size uoc o.
Proof.
  intros H Hs. pose proof (base_size_bounds o H).
  unfold CatalogDeltaOperation.GetBaseSizeInBytes, CatalogDeltaOperation.base_size, string_size in *.
  change (u64 (8 + 1 + 8 + 8)) with 25.
  destruct uoc; cbn [fst]; rewrite ?wrap_add_l, wrap_id; unfold unsigned_range; lia.
Qed.

Lemma columns_announced l s :
  Forall ColumnDef.ok l -> 0 <= s -> s + sum_columns l < 2 ^ 31 ->
  AddTableEntryOp.columns_size s l = Ok (s + sum_columns l).
Proof.
  intros Hok. revert s. induction Hok as [|c l Hc Hl IH]; intros s H0 Hs; cbn in *; [f_equal; lia|].
  pose proof (sum_columns_nonneg l). pose proof (ColumnDef_size_bounds c). pose proof (column_size_pos c).
  assert (E : AddTableEntryOp.add_column_size s c = Ok (s + AddTableEntryOp.column_size c)).
  { unfold AddTableEntryOp.add_column_size, AddTableEntryOp.column_size, ColumnDef.size in *.
    rewrite DataType_GetSizeInBytes; [|apply Hc|lia]. cbn [res_bind]. unfold string_size in *.
    rewrite ConstantExpr_GetSizeInBytes, (swrap_id 32 (ConstantExpr.size _)) by (unfold signed_range; lia).
    flatten_i32. rewrite swrap_id by (unfold signed_range; lia). f_equal. lia. }
  rewrite E. cbn [res_bind]. rewrite IH by lia. f_equal. lia.
Qed.

Lemma index_announced i : IndexBase.size i < 2 ^ 31 -> IndexBase.GetSizeInBytes i = IndexBase.size i.
Proof.
  intros Hs. pose proof (option_size_nonneg (option_ i)). pose proof (names_size_nonneg (column_names_ i)).
  unfold IndexBase.GetSizeInBytes, IndexBase.base_size. flatten_i32.
  rewrite (size_each_gen _ string_size) by reflexivity. cbn [fst]. rewrite swrap_add_l.
  unfold IndexBase.size, string_size in *. rewrite swrap_id by (unfold signed_range; lia). lia.
Qed.

Ltac flatten_u64 := repeat (rewrite wrap_add_l || rewrite <- (Z.add_assoc (wrap _ _))).
Ltac announced := cbv zeta; f_equal; flatten_u64; flatten_i32;
  rewrite ?(swrap_id 32) by (unfold signed_range; lia); rewrite ?wrap_id by (unfold unsigned_range; lia); lia.

Lemma members_announced f m n :
  DeltaOp.members_ok f m -> 0 <= n -> n + DeltaOp.members_size f m < 2 ^ 31 ->
  DeltaOp.add_members_size f n m = Ok (n + DeltaOp.members_size f m).
Proof.
  intros Hok Hn Hs. pose proof (members_size_nonneg f m).
  destruct m as [o|o|o|o|o|o|o|o]; cbn [DeltaOp.members_ok DeltaOp.members_size DeltaOp.add_members_size] in *.
  - unfold AddDBEntryOp.GetSizeInBytes, AddDBEntryOp.size, string_size in *. announced.
  - unfold AddTableEntryOp.GetSizeInBytes, AddTableEntryOp.size in *.
    pose proof (sum_columns_nonneg (AddTableEntryOp.column_defs_ o)). unfold string_size in *. flatten_i32.
    rewrite swrap_id by (unfold signed_range; lia). rewrite columns_announced; [|apply Hok|lia..]. cbn [res_bind]. announced.
  - unfold AddSegmentEntryOp.GetSizeInBytes, AddSegmentEntryOp.size, string_size in *. announced.
  - unfold AddBlockEntryOp.GetSizeInBytes, AddBlockEntryOp.size, string_size in *. announced.
  - unfold AddColumnEntryOp.GetSizeInBytes. announced.
  - unfold AddTableIndexEntryOp.GetSizeInBytes, AddTableIndexEntryOp.size in *. case_decide; [f_equal; lia|].
    destruct Hok as [?|(d & i & Ed & Ei & _ & _)]; [done|]. rewrite Ed, Ei in *.
    pose proof (members_size_nonneg kNew (AddTableIndexEntry (AddTableIndexEntryOp.mk (Some "") (Some i)))) as Hi.
    cbn [DeltaOp.members_size] in Hi. unfold AddTableIndexEntryOp.size in Hi. rewrite decide_False in Hi by done. cbn in Hi.
    unfold string_size in *. cbn in Hi. rewrite index_announced by lia. announced.
  - unfold AddSegmentIndexEntryOp.GetSizeInBytes. announced.
  - unfold AddChunkIndexEntryOp.GetSizeInBytes, AddChunkIndexEntryOp.size, string_size in *. announced.
Qed.

Lemma delta_op_announced o :
  DeltaOp.ok uoc o -> DeltaOp.size uoc o < 2 ^ 31 ->
  DeltaOp.GetSizeInBytes uoc o = Ok (DeltaOp.size uoc o, sized_op o).
Proof.
  intros [Hb Hm] Hs. pose proof (base_size_bounds _ Hb). pose proof (members_size_nonneg (DeltaOp.flag o) (members_ o)).
  unfold DeltaOp.GetSizeInBytes, DeltaOp.size, sized_op in *.
  rewrite (surjective_pairing (CatalogDeltaOperation.GetBaseSizeInBytes uoc (base_ o))).
  rewrite base_announced by (done || lia). rewrite wrap_id by (unfold unsigned_range; lia).
  rewrite members_announced by (done || lia). reflexivity.
Qed.

(** ** What is read back can be written again, in as many bytes *)
Lemma base_canon o :
  CatalogDeltaOperation.ok uoc o ->
  CatalogDeltaOperation.ok uoc (CatalogDeltaOperation.canon uoc o) /\
  CatalogDeltaOperation.base_size uoc (CatalogDeltaOperation.canon uoc o) = CatalogDeltaOperation.base_size uoc o.
Proof.
  intros [H1 H2 H3 H4 H5 H6]. unfold CatalogDeltaOperation.canon, CatalogDeltaOperation.base_size. cbn. split.
  - split; cbn; try done. destruct uoc; [|done]. intros _. now apply AddrSerializer_canon_ok, H6.
  - destruct uoc; [|done]. now rewrite AddrSerializer_canon_size by now apply H6.
Qed.

Lemma members_canon f m :
  DeltaOp.members_ok f m ->
  DeltaOp.members_ok f (DeltaOp.canon_members f m) /\
  DeltaOp.members_size f (DeltaOp.canon_members f m) = DeltaOp.members_size f m.
Proof.
  destruct m as [o|o|o|o|o|o|o|o]; cbn; intros H; try (split; [exact H|reflexivity]).
  - destruct H as [H1 H2 H3 H4 H5 H6 H7 H8]. unfold AddTableEntryOp.size. cbn. split.
    + split; cbn; try done; [unfold count_ok in *; now rewrite length_fmap|]. rewrite Forall_fmap.
      eapply Forall_impl; [exact H3|]. intros c []. now split.
    + do 3 f_equal. apply (foldr_size_fmap AddTableEntryOp.forget_bloom AddTableEntryOp.column_size). reflexivity.
  - unfold AddTableIndexEntryOp.canon, AddTableIndexEntryOp.size. case_decide; [|done]. split; [now left|done].
Qed.

Lemma delta_op_canon o :
  DeltaOp.ok uoc o -> DeltaOp.ok uoc (DeltaOp.canon uoc o) /\ DeltaOp.size uoc (DeltaOp.canon uoc o) = DeltaOp.size uoc o.
Proof.
  intros [Hb Hm]. destruct (base_canon _ Hb) as [Hb' Eb]. destruct (members_canon _ _ Hm) as [Hm' Em].
  unfold DeltaOp.size, DeltaOp.ok. cbn [base_ members_ DeltaOp.canon].
  change (DeltaOp.flag (DeltaOp.canon uoc o)) with (DeltaOp.flag o). now rewrite Eb, Em.
Qed.

Lemma sized_op_facts o :
  DeltaOp.ok uoc o ->
  DeltaOp.ok uoc (sized_op o) /\ DeltaOp.size uoc (sized_op o) = DeltaOp.size uoc o /\
  sized_op (sized_op o) = sized_op o /\ DeltaOp.canon uoc (sized_op o) = DeltaOp.canon uoc o.
Proof.
  intros [[H1 H2 H3 H4 H5 H6] Hm]. unfold DeltaOp.ok, DeltaOp.size, DeltaOp.canon, sized_op, DeltaOp.flag in *.
  unfold CatalogDeltaOperation.GetBaseSizeInBytes, CatalogDeltaOperation.base_size, CatalogDeltaOperation.canon.
  destruct uoc; cbn; split_and!; done.
Qed.

Lemma DeltaOp_size_pos o : DeltaOp.ok uoc o -> 30 <= DeltaOp.size uoc o.
Proof.
  intros [Hb Hm]. pose proof (base_size_bounds _ Hb). pose proof (members_size_nonneg (DeltaOp.flag o) (members_ o)).
  unfold DeltaOp.size. lia.
Qed.

(** Every kind of catalog delta operation of less than 2 GiB is written in exactly the
    bytes [GetSizeInBytes] announces, the addresses in the size it recorded, and read back
    by a reader that may use those bytes: all members come back except the local file
    paths, and, for a table, whether its columns have bloom filters. *)
Theorem catalog_delta_op_roundtrip (o : DeltaOp) (max_bytes : Z) :
  DeltaOp.ok uoc o -> DeltaOp.size uoc o <= max_bytes < 2 ^ 31 ->
  exists o', DeltaOp.GetSizeInBytes uoc o = Ok (DeltaOp.size uoc o, o') /\
    encodes (DeltaOp.WriteAdv uoc o') (DeltaOp.ReadAdv uoc max_bytes) (DeltaOp.canon uoc o) (DeltaOp.size uoc o).
Proof.
  intros Hok Hs. exists (sized_op o). split; [apply delta_op_announced; [done|lia]|now apply encodes_delta_op].
Qed.
End delta_codec.

(** ** Witnesses *)
Definition demo_base (f : MergeFlag) (encode : string) : CatalogDeltaOperation :=
  mkBase 3 7 9 f encode
    (mkAddrSerializer ["data/x"%string] [mkObjAddr "k" 8 5] [ObjStat.set_deleted_ranges [mkRange 0 8] (ObjStat.make 13 2 7)]) 0.
Definition demo_table_op : DeltaOp :=
  mkDeltaOp (demo_base kNew "#db#t")
    (AddTableEntry (AddTableEntryOp.mk "dir" (columns_ demo_table) 10 1 2 3 "a table")).
Definition demo_index_op : DeltaOp :=
  mkDeltaOp (demo_base kUpdate "#db#t#i") (AddTableIndexEntry (AddTableIndexEntryOp.mk (Some "dir"%string) (Some demo_index))).

Lemma demo_base_ok f encode : MergeFlag.ok f -> string_ok encode -> CatalogDeltaOperation.ok true (demo_base f encode).
Proof.
  intros Hf He. split; cbn; try done; try (unfold unsigned_range; lia). intros _.
  constructor; cbn; try lia; [unfold unsigned_range; lia|].
  repeat constructor; cbn; unfold string_ok, unsigned_range; cbn; try lia.
Qed.

Lemma demo_columns_ok : Forall ColumnDef.ok (columns_ demo_table).
Proof. repeat constructor; try reflexivity; vm_compute; intuition (congruence || lia). Qed.

Lemma demo_table_op_ok : DeltaOp.ok true demo_table_op.
Proof.
  split; [now apply demo_base_ok|].
  split; try exact demo_columns_ok; vm_compute; intuition congruence.
Qed.

Lemma demo_index_op_ok : DeltaOp.ok true demo_index_op.
Proof.
  split; [now apply demo_base_ok|]. right. exists "dir"%string, demo_index. split_and!; [reflexivity..|].
  split; try reflexivity; [repeat constructor|vm_compute; intuition congruence].
Qed.

Lemma catalog_delta_op_roundtrip_witness :
  exists o', DeltaOp.GetSizeInBytes true demo_table_op = Ok (DeltaOp.size true demo_table_op, o') /\
    encodes (DeltaOp.WriteAdv true o') (DeltaOp.ReadAdv true 1000) (DeltaOp.canon true demo_table_op) (DeltaOp.size true demo_table_op).
Proof.
  apply (catalog_delta_op_roundtrip true demo_table_op 1000 demo_table_op_ok). vm_compute. split; congruence.
Defined.
