(* ===== verification/DeltaEntry.v ===== *)
(** * Catalog delta entries: [CatalogDeltaEntry] of
      [src/src/storage/wal/catalog_delta_entry.cpp] (lines 1018-1164), and the delta
      checkpoint file of [src/src/storage/meta/catalog.cpp]

    The operations of a transaction, or of all transactions since the last checkpoint. An
    entry is stored as size, checksum, commit timestamp, number of operations, operations
    and the size again; a file holds one entry. *)
From S2P Require Import Prelude Serialize Crc WalEntry CatalogDelta.

Record CatalogDeltaEntry := mkDeltaEntry {
  txn_ids_ : list Z;
  max_commit_ts_ : Z;
  sequence_ : Z;
  operations_ : list DeltaOp;
}.

Module CatalogDeltaEntry.

Definition empty : CatalogDeltaEntry := mkDeltaEntry [] UNCOMMIT_TS 0 [].
Definition set_operations (l : list DeltaOp) (e : CatalogDeltaEntry) : CatalogDeltaEntry :=
  mkDeltaEntry (txn_ids_ e) (max_commit_ts_ e) (sequence_ e) l.

Definition sizeof_header : Z := 4 + 4.

(** The loop of [GetSizeInBytes]; every operation records the size of its addresses. *)
Fixpoint operations_size (uoc : bool) (size : Z) (l : list DeltaOp) : res (Z * list DeltaOp) :=
  match l with
  | [] => Ok (size, [])
  | o :: l =>
      let? (n, o) := DeltaOp.GetSizeInBytes uoc o in
      let? (size, l) := operations_size uoc (i32 (size + n)) l in
      Ok (size, o :: l)
  end.
Definition GetSizeInBytes (uoc : bool) (e : CatalogDeltaEntry) : res (Z * CatalogDeltaEntry) :=
  let size := i32 (i32 (sizeof_header + 8) + 4) in
  let? (size, l) := operations_size uoc size (operations_ e) in
  Ok (i32 (size + 4), set_operations l e).

(** The loop of [WriteAdv]. *)
Fixpoint write_operations (uoc : bool) (l : list DeltaOp) : res (bytes * list DeltaOp) :=
  match l with
  | [] => Ok ([], [])
  | o :: l =>
      let? (exp_size, o) := DeltaOp.GetSizeInBytes uoc o in
      let? bs := DeltaOp.WriteAdv uoc o in
      let act_size := i32 (Z.of_nat (length bs)) in
      if negb (i32 exp_size =? act_size) then Err Unrecoverable else
      let? (bs', l) := write_operations uoc l in
      Ok (bs ++ bs', o :: l)
  end.
(** The header is written last, over the bytes the cursor skipped at the start. *)
Definition WriteAdv (uoc : bool) (e : CatalogDeltaEntry) : res (bytes * CatalogDeltaEntry) :=
  let? (ops, l) := write_operations uoc (operations_ e) in
  let body := le_encode 8 (max_commit_ts_ e) ++ le_encode 4 (i32 (Z.of_nat (length (operations_ e)))) ++ ops in
  let size := i32 (sizeof_header + Z.of_nat (length body) + 4) in
  if size <? 0 then Err Undefined else
  let with_checksum c := le_encode 4 size ++ le_encode 4 c ++ body ++ le_encode 4 size in
  Ok (with_checksum (CRC32IEEE.makeCRC (take (Z.to_nat size) (with_checksum 0))), set_operations l e).

Definition read_header : reader (Z * Z) :=
  read size := ReadBufAdv_s 4 in
  read checksum := ReadBufAdv_u 4 in
  rret (size, checksum).

Fixpoint read_operations (uoc : bool) (max_bytes p0 : Z) (n : nat) : reader (list DeltaOp) :=
  match n with
  | O => rret []
  | S n =>
      read m := left max_bytes p0 in
      if m <=? 0 then rfail Unrecoverable else
      read o := DeltaOp.ReadAdv uoc m in
      read l := read_operations uoc max_bytes p0 n in
      rret (o :: l)
  end.
(** What [ReadAdv] reads once the header is accepted, with the distance from [ptr_start] to
    the final cursor; [ptr += sizeof(i32)] skips the pad without reading it. *)
Definition read_body (uoc : bool) (max_bytes : Z) : reader (CatalogDeltaEntry * Z) :=
  read p0 := rmark in
  read _ := take_bytes 8 in
  read max_commit_ts := ReadBufAdv_u 8 in
  read cnt := ReadBufAdv_s 4 in
  read l := read_operations uoc max_bytes p0 (Z.to_nat cnt) in
  read p := rmark in
  if i32 (max_bytes - (p0 - (p - 4))) <? 0 then rfail Unrecoverable
  else rret (mkDeltaEntry [] max_commit_ts 0 l, p0 - (p - 4)).

(** [ReadAdv] at an offset of a buffer; [None] is [nullptr]. *)
Definition ReadAdv (uoc : bool) (buf : bytes) (off max_bytes : Z) : res (option (CatalogDeltaEntry * Z)) :=
  if max_bytes <=? 0 then Err Unrecoverable else
  let? (size, checksum) := read_at read_header buf off in
  let? size2 := read_at (ReadBufAdv_s 4) buf (off + size - 4) in
  if negb (size =? size2) then Ok None else
  if (size <? 0) || (Z.of_nat (length buf) <? off + size) then Err Undefined else
  let checksum2 := CRC32IEEE.makeCRC (take (Z.to_nat size) (drop (Z.to_nat off) (clear_checksum buf off))) in
  if negb (checksum =? checksum2) then Err Unrecoverable else
  let? r := read_at (read_body uoc max_bytes) buf off in
  Ok (Some r).

(** [SaveState], at commit. *)
Definition SaveState (txn_id commit_ts sequence : Z) (e : CatalogDeltaEntry) : res CatalogDeltaEntry :=
  if negb (max_commit_ts_ e =? UNCOMMIT_TS) || negb (bool_decide (txn_ids_ e = [])) then Err Unrecoverable else
  Ok (mkDeltaEntry [txn_id] commit_ts sequence
        ((fun o => mkDeltaOp (CatalogDeltaOperation.set_commit_ts commit_ts (base_ o)) (members_ o)) <$> operations_ e)).

Definition AddOperation (o : DeltaOp) (e : CatalogDeltaEntry) : CatalogDeltaEntry :=
  set_operations (operations_ e ++ [o]) e.

(** The end of [Catalog::SaveDeltaCatalog]: the bytes of the file. The buffer has the
    announced size; writing more is undefined. *)
Definition file_bytes (uoc : bool) (e : CatalogDeltaEntry) : res bytes :=
  let? (exp_size, e) := GetSizeInBytes uoc e in
  if exp_size <? 0 then Err LengthErr else
  let? (bs, _) := WriteAdv uoc e in
  if exp_size <? Z.of_nat (length bs) then Err Undefined else
  let act_size := i32 (Z.of_nat (length bs)) in
  if negb (exp_size =? act_size) then Err Unrecoverable else Ok bs.

(** [Catalog::LoadFromFileDelta], for the contents of the file. *)
Definition LoadFromFileDelta (uoc : bool) (buf : bytes) : res CatalogDeltaEntry :=
  let file_size := Z.of_nat (length buf) in
  let? r := ReadAdv uoc buf 0 (i32 file_size) in
  match r with
  | None => Err Unrecoverable
  | Some (e, consumed) =>
      let? (n_bytes, e) := GetSizeInBytes uoc e in
      if negb (file_size =? n_bytes) && negb (file_size =? consumed) then Err Recoverable else Ok e
  end.

(** ** What the codec promises *)
Definition sum_ops (uoc : bool) (l : list DeltaOp) : Z := foldr (fun o n => DeltaOp.size uoc o + n) 0 l.
Definition size (uoc : bool) (e : CatalogDeltaEntry) : Z := 24 + sum_ops uoc (operations_ e).

Record ok (uoc : bool) (e : CatalogDeltaEntry) : Prop := {
  ok_ts : unsigned_range 64 (max_commit_ts_ e);
  ok_count : count_ok (operations_ e);
  ok_ops : Forall (DeltaOp.ok uoc) (operations_ e);
  ok_size : size uoc e < 2 ^ 31;
}.
Definition canon (uoc : bool) (e : CatalogDeltaEntry) : CatalogDeltaEntry :=
  mkDeltaEntry [] (max_commit_ts_ e) 0 (DeltaOp.canon uoc <$> operations_ e).

End CatalogDeltaEntry.

Section entry_codec.
Import CatalogDeltaEntry.
Context (uoc : bool).
Abbreviation sized_ops l := (sized_op uoc <$> l).

Lemma sum_ops_cons o l : sum_ops uoc (o :: l) = DeltaOp.size uoc o + sum_ops uoc l.
Proof. reflexivity. Qed.

Lemma sum_ops_nonneg l : Forall (DeltaOp.ok uoc) l -> 0 <= sum_ops uoc l.
Proof. induction 1 as [|o l Ho Hl IH]; [done|]. rewrite sum_ops_cons. pose proof (DeltaOp_size_pos uoc o Ho). lia. Qed.

Lemma sum_ops_fmap (g : DeltaOp -> DeltaOp) l :
  Forall (fun o => DeltaOp.size uoc (g o) = DeltaOp.size uoc o) l -> sum_ops uoc (g <$> l) = sum_ops uoc l.
Proof. induction 1 as [|o l Ho Hl IH]; [done|]. rewrite fmap_cons, !sum_ops_cons. now rewrite Ho, IH. Qed.

Lemma operations_announced l s :
  Forall (DeltaOp.ok uoc) l -> 0 <= s -> s + sum_ops uoc l < 2 ^ 31 ->
  operations_size uoc s l = Ok (s + sum_ops uoc l, sized_ops l).
Proof.
  intros Hok. revert s. induction Hok as [|o l Ho Hl IH]; intros s H0 Hs; [cbn; do 2 f_equal; unfold sum_ops; cbn; lia|].
  rewrite sum_ops_cons in *. cbn [operations_size]. pose proof (sum_ops_nonneg l Hl). pose proof (DeltaOp_size_pos uoc o Ho).
  rewrite delta_op_announced by (done || lia). cbn [res_bind]. rewrite swrap_id by (unfold signed_range; lia).
  rewrite IH by lia. cbn [res_bind]. do 2 f_equal. lia.
Qed.

Lemma GetSizeInBytes_spec e :
  ok uoc e -> GetSizeInBytes uoc e = Ok (size uoc e, set_operations (sized_ops (operations_ e)) e).
Proof.
  intros [H1 H2 H3 H4]. pose proof (sum_ops_nonneg _ H3). unfold size in *. unfold GetSizeInBytes.
  change (i32 (i32 (sizeof_header + 8) + 4)) with 20. rewrite operations_announced by (done || lia). cbn [res_bind].
  rewrite swrap_id by (unfold signed_range; lia). do 2 f_equal. lia.
Qed.

(** The operations: what the loop writes and what the reading loop makes of it. *)
Lemma operations_written l :
  Forall (DeltaOp.ok uoc) l -> sum_ops uoc l < 2 ^ 31 ->
  exists bs, write_operations uoc l = Ok (bs, sized_ops l) /\ Z.of_nat (length bs) = sum_ops uoc l /\
    forall L max_bytes p0, 0 <= p0 - L -> p0 - L + sum_ops uoc l <= max_bytes < 2 ^ 31 ->
      encodes_at L (Ok bs) (read_operations uoc max_bytes p0 (length l)) (DeltaOp.canon uoc <$> l) (sum_ops uoc l).
Proof.
  induction 1 as [|o l Ho Hl IH]; intros Hs.
  - exists []. split_and!; [done..|]. intros. apply encodes_at_of, encodes_ret.
  - rewrite sum_ops_cons in Hs. pose proof (sum_ops_nonneg l Hl). pose proof (DeltaOp_size_pos uoc o Ho).
    destruct IH as (bs' & E' & L' & R'); [lia|].
    destruct (encodes_delta_op uoc o (DeltaOp.size uoc o) Ho) as (bs & E & Lb & _); [lia|].
    exists (bs ++ bs'). split_and!.
    + cbn [write_operations]. rewrite delta_op_announced by (done || lia). cbn [res_bind].
      rewrite E. cbn [res_bind]. rewrite Lb, Z.eqb_refl, E'. reflexivity.
    + rewrite length_app, sum_ops_cons. lia.
    + intros L max_bytes p0 HL Hm. rewrite sum_ops_cons in *. cbn [length read_operations]. rewrite fmap_cons. apply encodes_at_left; [lia..|].
      replace (_ <=? 0) with false by (symmetry; apply Z.leb_gt; lia).
      change (Ok (bs ++ bs')) with (Ok bs +++ Ok bs'). rewrite <- E.
      eapply encodes_at_bind; [apply encodes_delta_op; [done|lia]|].
      eapply encodes_at_map; [apply R'; lia|reflexivity].
Qed.

(** The bytes of an entry. *)
Definition body_of (e : CatalogDeltaEntry) (ops : bytes) : bytes :=
  le_encode 8 (max_commit_ts_ e) ++ le_encode 4 (Z.of_nat (length (operations_ e))) ++ ops.
Definition size_bytes (e : CatalogDeltaEntry) : bytes := le_encode 4 (size uoc e).
Definition entry_frame (e : CatalogDeltaEntry) (ops : bytes) : bytes :=
  size_bytes e ++ le_encode 4 (frame_crc (size_bytes e) (body_of e ops) (size_bytes e)) ++ body_of e ops ++ size_bytes e.

Lemma length_body e ops :
  Z.of_nat (length ops) = sum_ops uoc (operations_ e) -> size uoc e = 12 + Z.of_nat (length (body_of e ops)).
Proof. intros H. unfold size, body_of. rewrite !length_app, !length_le_encode. lia. Qed.

Lemma length_frame e ops :
  Z.of_nat (length ops) = sum_ops uoc (operations_ e) -> Z.of_nat (length (entry_frame e ops)) = size uoc e.
Proof.
  intros H. rewrite (length_body e ops H). unfold entry_frame, size_bytes. rewrite !length_app, !length_le_encode. lia.
Qed.

Lemma WriteAdv_spec e :
  ok uoc e ->
  exists ops, Z.of_nat (length ops) = sum_ops uoc (operations_ e) /\
    WriteAdv uoc e = Ok (entry_frame e ops, set_operations (sized_ops (operations_ e)) e) /\
    forall max_bytes hdr rest, length hdr = 8%nat -> size uoc e <= max_bytes < 2 ^ 31 ->
      exists rest', read_body uoc max_bytes (hdr ++ body_of e ops ++ size_bytes e ++ rest) =
        Ok (canon uoc e, size uoc e, rest').
Proof.
  intros [H1 H2 H3 H4]. pose proof (sum_ops_nonneg _ H3).
  destruct (operations_written _ H3) as (ops & Ew & Lo & Ro); [unfold size in H4; lia|].
  exists ops. split; [exact Lo|]. pose proof (length_body e ops Lo) as Lb. split.
  - unfold WriteAdv. rewrite Ew. cbn [res_bind]. rewrite (swrap_id 32 (Z.of_nat (length (operations_ e))))
      by (unfold count_ok, signed_range in *; lia).
    fold (body_of e ops). replace (i32 (sizeof_header + Z.of_nat (length (body_of e ops)) + 4)) with (size uoc e)
      by (unfold sizeof_header; rewrite swrap_id; [lia..|unfold signed_range; lia]).
    replace (_ <? 0) with false by (symmetry; apply Z.ltb_ge; lia).
    rewrite firstn_all2; [reflexivity|]. rewrite !length_app, !length_le_encode. lia.
  - intros max_bytes hdr rest Hh Hm. unfold size in Hm. exists (size_bytes e ++ rest).
    set (p0 := Z.of_nat (length (hdr ++ body_of e ops ++ size_bytes e ++ rest))).
    assert (Hp : p0 = 20 + sum_ops uoc (operations_ e) + Z.of_nat (length (size_bytes e ++ rest))).
    { unfold p0. rewrite !length_app. rewrite Hh. unfold size in Lb. lia. }
    unfold read_body. unfold rbind at 1, rmark. cbn [res_bind]. fold p0.
    unfold rbind at 1. rewrite take_bytes_app by done. cbn [res_bind]. unfold body_of. rewrite <- !app_assoc.
    unfold rbind at 1. rewrite ReadBufAdv_u_app by apply length_le_encode. cbn [res_bind].
    rewrite (le_decode_u 8) by done.
    unfold rbind at 1. rewrite ReadBufAdv_s_app by apply length_le_encode. cbn [res_bind].
    rewrite (le_decode_s 4) by (unfold count_ok, signed_range in *; cbn; lia). rewrite Nat2Z.id.
    destruct (Ro (p0 - 20) max_bytes p0) as (ops' & [= <-] & _ & R); [lia..|].
    unfold rbind at 1. rewrite R by (rewrite length_app; lia). cbn [res_bind].
    unfold rbind, rmark. cbn [res_bind]. unfold size_bytes in *. rewrite length_app, length_le_encode in *.
    rewrite swrap_id; [|lia|unfold signed_range; lia].
    replace (_ <? 0) with false by (symmetry; apply Z.ltb_ge; lia). unfold rret, canon, size. repeat f_equal. lia.
Qed.

Section written.
Context (e : CatalogDeltaEntry) (Hok : ok uoc e).

Lemma decode_delta_size : swrap 32 (le_decode (size_bytes e)) = size uoc e.
Proof.
  destruct Hok as [_ _ H3 H4]. pose proof (sum_ops_nonneg _ H3). unfold size in *.
  apply (le_decode_s 4); [lia|]. unfold signed_range, size. cbn. lia.
Qed.

(** The checks of [ReadAdv], for a frame whose header announces its length. *)
Lemma ReadAdv_checks pre ck mid pad post max_bytes :
  length ck = 4%nat -> length pad = 4%nat -> 0 < max_bytes -> size uoc e = 12 + Z.of_nat (length mid) ->
  ReadAdv uoc (pre ++ size_bytes e ++ ck ++ mid ++ pad ++ post) (Z.of_nat (length pre)) max_bytes =
  (if negb (size uoc e =? swrap 32 (le_decode pad)) then Ok None else
   if negb (le_decode ck =? frame_crc (size_bytes e) mid pad) then Err Unrecoverable else
   let? r := read_at (read_body uoc max_bytes) (pre ++ size_bytes e ++ ck ++ mid ++ pad ++ post) (Z.of_nat (length pre)) in
   Ok (Some r)).
Proof.
  intros Hck Hpad Hm Hsize. unfold ReadAdv. replace (max_bytes <=? 0) with false by (symmetry; apply Z.leb_gt; lia).
  erewrite (read_at_drop read_header); [|reflexivity|]; cycle 1.
  { unfold read_header. unfold rbind at 1. rewrite ReadBufAdv_s_app by apply length_le_encode. cbn [res_bind].
    unfold rbind at 1. rewrite ReadBufAdv_u_app by done. reflexivity. }
  cbn [res_bind]. change (8 * Z.of_nat 4) with 32. rewrite decode_delta_size.
  replace (pre ++ size_bytes e ++ ck ++ mid ++ pad ++ post) with ((pre ++ size_bytes e ++ ck ++ mid) ++ pad ++ post) at 1
    by (now rewrite <- !app_assoc).
  erewrite (read_at_drop (ReadBufAdv_s 4) (pre ++ size_bytes e ++ ck ++ mid)); cycle 1.
  { rewrite !length_app, Hck. unfold size_bytes. rewrite length_le_encode. lia. }
  { apply ReadBufAdv_s_app. exact Hpad. }
  cbn [res_bind]. change (8 * Z.of_nat 4) with 32. destruct (negb _); [reflexivity|].
  assert (Hl : Z.of_nat (length (size_bytes e ++ le_encode 4 0 ++ mid ++ pad)) = size uoc e).
  { unfold size_bytes. rewrite !length_app, !length_le_encode. lia. }
  replace ((size uoc e <? 0) || _) with false; cycle 1.
  { symmetry. apply orb_false_iff. unfold size_bytes in *. rewrite !length_app, !length_le_encode in *.
    split; apply Z.ltb_ge; lia. }
  rewrite clear_checksum_app by done. rewrite Nat2Z.id, drop_app_length.
  replace (size_bytes e ++ le_encode 4 0 ++ mid ++ pad ++ post) with ((size_bytes e ++ le_encode 4 0 ++ mid ++ pad) ++ post)
    by (now rewrite <- !app_assoc).
  rewrite take_app_length' by lia. reflexivity.
Qed.

Lemma ReadAdv_frame ops pre post max_bytes :
  Z.of_nat (length ops) = sum_ops uoc (operations_ e) ->
  (forall hdr rest, length hdr = 8%nat ->
     exists rest', read_body uoc max_bytes (hdr ++ body_of e ops ++ size_bytes e ++ rest) = Ok (canon uoc e, size uoc e, rest')) ->
  0 < max_bytes ->
  ReadAdv uoc (pre ++ entry_frame e ops ++ post) (Z.of_nat (length pre)) max_bytes = Ok (Some (canon uoc e, size uoc e)).
Proof.
  intros Hl Hr Hm. unfold entry_frame. rewrite <- !app_assoc.
  rewrite ReadAdv_checks; [|apply length_le_encode|apply length_le_encode|done|now apply length_body].
  rewrite decode_delta_size, Z.eqb_refl. cbn [negb]. rewrite (le_decode_u 4) by apply makeCRC_range.
  rewrite Z.eqb_refl. cbn [negb]. rewrite (app_assoc (size_bytes e)).
  destruct (Hr (size_bytes e ++ le_encode 4 (frame_crc (size_bytes e) (body_of e ops) (size_bytes e))) post eq_refl) as [rest' E].
  now rewrite (read_at_drop _ _ _ _ _ _ eq_refl E).
Qed.

Lemma ReadAdv_corrupt ops (i : nat) (b : Byte.byte) pre post max_bytes :
  Z.of_nat (length ops) = sum_ops uoc (operations_ e) ->
  (4 <= i < length (entry_frame e ops))%nat -> entry_frame e ops !! i <> Some b -> 0 < max_bytes ->
  ReadAdv uoc (pre ++ <[i := b]> (entry_frame e ops) ++ post) (Z.of_nat (length pre)) max_bytes ∈
    [Ok None; Err Unrecoverable].
Proof.
  intros Hl Hi Hb Hm. unfold entry_frame in *.
  destruct (frame_corrupt (size_bytes e) (body_of e ops) i b eq_refl Hi Hb)
    as (ck' & mid' & pad' & -> & Hc & Hmid & Hp & Hbad).
  rewrite <- !app_assoc. rewrite ReadAdv_checks; [|done|done|done|rewrite Hmid; now apply length_body].
  destruct Hbad as [Hbad|[-> Hbad]].
  - rewrite decode_delta_size in Hbad. rewrite (proj2 (Z.eqb_neq _ _) (not_eq_sym Hbad)). set_solver.
  - rewrite decode_delta_size, Z.eqb_refl. cbn [negb]. rewrite (proj2 (Z.eqb_neq _ _) Hbad). set_solver.
Qed.
End written.

(** ** Checkpoint files *)
Definition sized_entry (e : CatalogDeltaEntry) : CatalogDeltaEntry := set_operations (sized_ops (operations_ e)) e.
(** What is loaded: the operations as they are read back, with the size of their addresses recorded. *)
Definition loaded (e : CatalogDeltaEntry) : CatalogDeltaEntry := sized_entry (canon uoc e).

Lemma ok_map (g : DeltaOp -> DeltaOp) e e' :
  (forall o, DeltaOp.ok uoc o -> DeltaOp.ok uoc (g o) /\ DeltaOp.size uoc (g o) = DeltaOp.size uoc o) ->
  max_commit_ts_ e' = max_commit_ts_ e -> operations_ e' = g <$> operations_ e ->
  ok uoc e -> ok uoc e' /\ size uoc e' = size uoc e.
Proof.
  intros Hg Ht Ho [H1 H2 H3 H4].
  assert (Hs : size uoc e' = size uoc e).
  { unfold size. rewrite Ho, sum_ops_fmap; [done|]. eapply Forall_impl; [exact H3|]. intros o. now apply Hg. }
  split; [|exact Hs]. split; rewrite ?Ht, ?Hs; try done.
  - unfold count_ok. now rewrite Ho, length_fmap.
  - rewrite Ho, Forall_fmap. eapply Forall_impl; [exact H3|]. intros o. now apply Hg.
Qed.

Lemma sized_entry_ok e : ok uoc e -> ok uoc (sized_entry e) /\ size uoc (sized_entry e) = size uoc e.
Proof. apply (ok_map (sized_op uoc)); [|done..]. intros o Ho. destruct (sized_op_facts uoc o Ho) as (? & ? & _). done. Qed.

Lemma canon_entry_ok e : ok uoc e -> ok uoc (canon uoc e) /\ size uoc (canon uoc e) = size uoc e.
Proof. apply (ok_map (DeltaOp.canon uoc)); [|done..]. intros o Ho. now apply delta_op_canon. Qed.

Lemma canon_sized_entry e : ok uoc e -> canon uoc (sized_entry e) = canon uoc e.
Proof.
  intros [_ _ H3 _]. unfold canon. cbn. f_equal. rewrite <- list_fmap_compose. apply list_fmap_ext.
  intros i o Ho. rewrite Forall_lookup in H3. apply (sized_op_facts uoc o (H3 _ _ Ho)).
Qed.

Lemma file_bytes_spec e :
  ok uoc e ->
  exists ops, Z.of_nat (length ops) = sum_ops uoc (operations_ (sized_entry e)) /\
    file_bytes uoc e = Ok (entry_frame (sized_entry e) ops) /\
    forall pre post max_bytes, size uoc e <= max_bytes < 2 ^ 31 ->
      ReadAdv uoc (pre ++ entry_frame (sized_entry e) ops ++ post) (Z.of_nat (length pre)) max_bytes =
      Ok (Some (canon uoc e, size uoc e)).
Proof.
  intros Hok. destruct (sized_entry_ok e Hok) as [Hok' Hsz].
  destruct (WriteAdv_spec _ Hok') as (ops & Hl & Hw & Hr). exists ops. split; [exact Hl|].
  assert (Hpos : 24 <= size uoc e) by (unfold size; pose proof (sum_ops_nonneg _ (ok_ops _ _ Hok)); lia).
  pose proof (ok_size _ _ Hok). split.
  - unfold file_bytes. rewrite GetSizeInBytes_spec by done. cbn [res_bind].
    replace (size uoc e <? 0) with false by (symmetry; apply Z.ltb_ge; lia). fold (sized_entry e). rewrite Hw. cbn [res_bind].
    rewrite length_frame, Hsz, Z.ltb_irrefl, swrap_id, Z.eqb_refl; [done|lia|unfold signed_range; lia|done].
  - intros pre post max_bytes Hm. rewrite <- (canon_sized_entry e Hok), <- Hsz.
    apply ReadAdv_frame; [done|done| |lia]. intros hdr rest Hh. apply Hr; [done|lia].
Qed.

(** C31. A delta checkpoint of less than 2 GiB is written to a file of exactly the announced
    size, and loading the file gives back the commit timestamp and the operations as far as the format
    stores them ([loaded]). What it does not store is lost: the transaction ids and the sequence number of the
    entry, the bloom filter flags of columns, the lists of file paths, and the directory and definition of an
    index in an operation that deletes it. *)
Theorem delta_checkpoint_roundtrip (e : CatalogDeltaEntry) :
  ok uoc e ->
  exists bs, file_bytes uoc e = Ok bs /\ Z.of_nat (length bs) = size uoc e /\
    LoadFromFileDelta uoc bs = Ok (loaded e).
Proof.
  intros Hok. destruct (file_bytes_spec e Hok) as (ops & Hl & Hw & Hr). destruct (sized_entry_ok e Hok) as [Hok' Hsz].
  exists (entry_frame (sized_entry e) ops). pose proof (length_frame _ _ Hl) as Hlen. rewrite Hsz in Hlen.
  split_and!; [exact Hw|exact Hlen|]. unfold LoadFromFileDelta. rewrite Hlen.
  assert (24 <= size uoc e) by (unfold size; pose proof (sum_ops_nonneg _ (ok_ops _ _ Hok)); lia).
  pose proof (ok_size _ _ Hok). rewrite swrap_id by (unfold signed_range; lia).
  specialize (Hr [] [] (size uoc e) ltac:(lia)). rewrite app_nil_r in Hr. cbn [app length] in Hr.
  change (Z.of_nat 0) with 0 in Hr. rewrite Hr. cbn [res_bind].
  destruct (canon_entry_ok e Hok) as [Hc Hcs]. rewrite GetSizeInBytes_spec by done. cbn [res_bind].
  now rewrite Z.eqb_refl, andb_false_r.
Qed.

(** A delta checkpoint file with one changed byte behind its size field is not loaded:
    the size check or the checksum ends the load with an unrecoverable error. *)
Theorem delta_checkpoint_corruption_detected (e : CatalogDeltaEntry) (bs : bytes) (i : nat) (b : Byte.byte) :
  ok uoc e -> file_bytes uoc e = Ok bs -> (4 <= i < length bs)%nat -> bs !! i <> Some b ->
  LoadFromFileDelta uoc (<[i := b]> bs) = Err Unrecoverable.
Proof.
  intros Hok Hw Hi Hb. destruct (file_bytes_spec e Hok) as (ops & Hl & Hw' & _). rewrite Hw in Hw'. injection Hw' as ->.
  destruct (sized_entry_ok e Hok) as [Hok' Hsz]. pose proof (length_frame _ _ Hl) as Hlen. rewrite Hsz in Hlen.
  assert (24 <= size uoc e) by (unfold size; pose proof (sum_ops_nonneg _ (ok_ops _ _ Hok)); lia).
  pose proof (ok_size _ _ Hok).
  pose proof (ReadAdv_corrupt _ Hok' ops i b [] [] (size uoc e) Hl Hi Hb ltac:(lia)) as H1.
  rewrite app_nil_r in H1. cbn [app length] in H1. unfold LoadFromFileDelta.
  rewrite length_insert, Hlen, swrap_id by (unfold signed_range; lia).
  change (Z.of_nat 0) with 0 in H1. apply elem_of_cons in H1 as [->|H1]; [done|].
  apply list_elem_of_singleton in H1. now rewrite H1.
Qed.
End entry_codec.

(** ** Witnesses *)
Definition demo_delta_entry : CatalogDeltaEntry :=
  mkDeltaEntry [7] 9 1 [demo_table_op; demo_index_op].

Lemma demo_delta_entry_ok : CatalogDeltaEntry.ok true demo_delta_entry.
Proof.
  split; [vm_compute; split; congruence|vm_compute; reflexivity| |vm_compute; reflexivity].
  apply Forall_cons_2; [apply demo_table_op_ok|]. apply Forall_cons_2; [apply demo_index_op_ok|constructor].
Qed.

Lemma delta_checkpoint_roundtrip_witness : exists bs,
  CatalogDeltaEntry.file_bytes true demo_delta_entry = Ok bs /\
  CatalogDeltaEntry.LoadFromFileDelta true bs = Ok (loaded true demo_delta_entry).
Proof.
  destruct (delta_checkpoint_roundtrip true demo_delta_entry demo_delta_entry_ok) as (bs & Hw & _ & Hr).
  exists bs. exact (conj Hw Hr).
Defined.

Lemma delta_checkpoint_corruption_detected_witness : exists bs,
  CatalogDeltaEntry.file_bytes true demo_delta_entry = Ok bs /\
  CatalogDeltaEntry.LoadFromFileDelta true (<[30%nat := Byte.xff]> bs) = Err Unrecoverable.
Proof.
  eexists. split; [vm_compute; reflexivity|].
  eapply (delta_checkpoint_corruption_detected true demo_delta_entry _ 30 Byte.xff demo_delta_entry_ok);
    [vm_compute; reflexivity|cbn; lia|vm_compute; congruence].
Defined.
