(* ===== verification/OrderedMap.v ===== *)
(** * [std::map<std::string, T>]

    An association list in strictly increasing order of its keys; [std::string] compares
    its bytes as unsigned characters, lexicographically. Catalog keys are paths: the key of
    an entry is the key of its parent, a [#] and a name. *)
From S2P Require Import Prelude.
From Stdlib Require Import Ascii String.

Definition byte_val (c : ascii) : Z := Z.of_N (N_of_ascii c).

Fixpoint str_ltb (a b : string) : bool :=
  match a, b with
  | _, EmptyString => false
  | EmptyString, String _ _ => true
  | String c a, String d b =>
      if byte_val c <? byte_val d then true
      else if byte_val d <? byte_val c then false else str_ltb a b
  end.

Fixpoint prefixb (a b : string) : bool :=
  match a, b with
  | EmptyString, _ => true
  | String c a, String d b => Ascii.eqb c d && prefixb a b
  | String _ _, EmptyString => false
  end.

(** [b] is [a], a [#] and something. *)
Fixpoint is_sub (a b : string) : bool :=
  match a, b with
  | EmptyString, String d _ => Ascii.eqb d "#"
  | String c a, String d b => Ascii.eqb c d && is_sub a b
  | _, EmptyString => false
  end.

Section omap.
Context {V : Type}.
Abbreviation omap := (list (string * V)).

Fixpoint sorted (m : omap) : Prop :=
  match m with
  | [] => True
  | (k, _) :: m => Forall (fun e => str_ltb k e.1 = true) m /\ sorted m
  end.

(** [m[k] = v]. *)
Fixpoint oinsert (k : string) (v : V) (m : omap) : omap :=
  match m with
  | [] => [(k, v)]
  | (k', v') :: m' =>
      if str_ltb k k' then (k, v) :: m
      else if str_ltb k' k then (k', v') :: oinsert k v m' else (k, v) :: m'
  end.

(** The elements before [m.lower_bound(k)], and those from it on. *)
Fixpoint before_bound (k : string) (m : omap) : omap :=
  match m with
  | (k', v) :: m' => if str_ltb k' k then (k', v) :: before_bound k m' else []
  | [] => []
  end.
Fixpoint lower_bound (k : string) (m : omap) : omap :=
  match m with
  | (k', v) :: m' => if str_ltb k' k then lower_bound k m' else m
  | [] => []
  end.
End omap.

(** ** The order *)
Lemma byte_val_inj c d : byte_val c = byte_val d -> c = d.
Proof. unfold byte_val. intros H. apply N2Z.inj in H. rewrite <- (ascii_N_embedding c), H. apply ascii_N_embedding. Qed.

(** Case analysis on the comparison of two characters. *)
Ltac cmp_char c d :=
  destruct (Z.lt_trichotomy (byte_val c) (byte_val d)) as [?|[?|?]];
  [rewrite ?(proj2 (Z.ltb_lt (byte_val c) (byte_val d))) by lia
  |match goal with E : byte_val c = byte_val d |- _ => apply byte_val_inj in E; subst end; rewrite ?Z.ltb_irrefl
  |rewrite ?(proj2 (Z.ltb_ge (byte_val c) (byte_val d))), ?(proj2 (Z.ltb_lt (byte_val d) (byte_val c))) by lia].

Lemma str_ltb_irrefl a : str_ltb a a = false.
Proof. induction a as [|c a IH]; cbn; [done|]. now rewrite Z.ltb_irrefl. Qed.

Lemma str_ltb_total a b : str_ltb a b = false -> str_ltb b a = false -> a = b.
Proof.
  revert b. induction a as [|c a IH]; intros [|d b]; cbn; try done.
  cmp_char c d; try done. intros. f_equal. auto.
Qed.

Lemma str_ltb_trans a b c : str_ltb a b = true -> str_ltb b c = true -> str_ltb a c = true.
Proof.
  revert b c. induction a as [|x a IH]; intros [|y b] [|z c]; cbn; try done.
  destruct (Z.lt_trichotomy (byte_val x) (byte_val y)) as [Hxy|[Hxy|Hxy]];
    destruct (Z.lt_trichotomy (byte_val y) (byte_val z)) as [Hyz|[Hyz|Hyz]];
    repeat match goal with |- context [?p <? ?q] =>
      first [rewrite (proj2 (Z.ltb_lt p q)) by lia | rewrite (proj2 (Z.ltb_ge p q)) by lia] end; try done.
  apply IH.
Qed.

(** A key does not come before its prefixes, and the keys with a prefix stand together. *)
Lemma prefixb_not_lt e k : prefixb e k = true -> str_ltb k e = false.
Proof.
  revert k. induction e as [|c e IH]; intros [|d k]; cbn; try done.
  rewrite andb_true_iff, Ascii.eqb_eq. intros [<- H]. rewrite Z.ltb_irrefl. auto.
Qed.

Lemma prefixb_between e k1 k2 :
  str_ltb k1 e = false -> str_ltb k1 k2 = true -> prefixb e k2 = true -> prefixb e k1 = true.
Proof.
  revert k1 k2. induction e as [|c e IH]; intros [|x k1] [|y k2]; cbn; try done.
  rewrite !andb_true_iff, !Ascii.eqb_eq. intros H1 H2 [<- H3].
  cmp_char x c; rewrite ?Z.ltb_irrefl in *.
  - now rewrite (proj2 (Z.ltb_lt _ _)) in H1.
  - eauto.
  - rewrite (proj2 (Z.ltb_ge _ _)) in H2 by lia. now rewrite (proj2 (Z.ltb_lt _ _)) in H2.
Qed.

Lemma is_sub_prefix e k : is_sub e k = true -> prefixb e k = true.
Proof.
  revert k. induction e as [|c e IH]; intros [|d k]; cbn; try done.
  rewrite !andb_true_iff. intros []. auto.
Qed.

Lemma is_sub_irrefl e : is_sub e e = false.
Proof. induction e as [|c e IH]; cbn; [done|]. now rewrite IH, andb_false_r. Qed.

Lemma is_sub_trans a b c : is_sub a b = true -> is_sub b c = true -> is_sub a c = true.
Proof.
  revert b c. induction a as [|x a IH]; intros [|y b] [|z c]; cbn; try done;
    rewrite ?andb_true_iff, ?Ascii.eqb_eq.
  - intros -> [<- _]. done.
  - intros [-> H1] [-> H2]. split; [done|eauto].
Qed.

Lemma is_sub_spec a b : is_sub a b = true <-> exists r, b = (a ++ String "#" r)%string.
Proof.
  revert b. induction a as [|c a IH]; intros [|d b]; cbn.
  - split; [done|intros [r [=]]].
  - rewrite Ascii.eqb_eq. split; [intros ->; eauto|intros [r [= -> ->]]; done].
  - split; [done|intros [r [=]]].
  - rewrite andb_true_iff, Ascii.eqb_eq, IH. split; [intros [-> [r ->]]; eauto|intros [r [= -> ->]]; eauto].
Qed.

(** ** The map *)

Section omap_lemmas.
Context {V : Type}.
Implicit Types (m : list (string * V)) (k : string).

Lemma sorted_keys_ne k v m : sorted ((k, v) :: m) -> k ∉ m.*1.
Proof.
  intros [H _] Hin. apply list_elem_of_fmap in Hin as ((k' & v') & -> & Hin).
  rewrite Forall_forall in H. specialize (H _ Hin). cbn in H. now rewrite str_ltb_irrefl in H.
Qed.

Lemma sorted_NoDup m : sorted m -> NoDup m.*1.
Proof.
  induction m as [|[k v] m IH]; intros H; [constructor|]. cbn. constructor; [now apply (sorted_keys_ne k v)|].
  apply IH, H.
Qed.

Lemma oinsert_Forall (P : string * V -> Prop) k v m : Forall P m -> P (k, v) -> Forall P (oinsert k v m).
Proof.
  induction 1 as [|[k' v'] m Hk Hm IH]; intros Hp; cbn; [now repeat constructor|].
  destruct (str_ltb k k'); [now repeat constructor|]. destruct (str_ltb k' k); constructor; auto.
Qed.

Lemma sorted_oinsert k v m : sorted m -> sorted (oinsert k v m).
Proof.
  induction m as [|[k' v'] m IH]; cbn; [done|]. intros [H1 H2].
  destruct (str_ltb k k') eqn:E1; cbn.
  - split; [|done]. constructor; [done|]. eapply Forall_impl; [exact H1|]. intros e. now apply str_ltb_trans.
  - destruct (str_ltb k' k) eqn:E2; cbn.
    + split; [now apply oinsert_Forall|auto].
    + rewrite <- (str_ltb_total _ _ E1 E2) in H1. done.
Qed.

Lemma afind_oinsert k v m k' :
  sorted m -> afind k' (oinsert k v m) = if decide (k' = k) then Some v else afind k' m.
Proof.
  induction m as [|[k0 v0] m IH]; cbn; [done|]. intros [H1 H2].
  destruct (str_ltb k k0) eqn:E1; [done|]. destruct (str_ltb k0 k) eqn:E2; cbn.
  - rewrite IH by done. repeat case_decide; subst; try done. now rewrite str_ltb_irrefl in E2.
  - pose proof (str_ltb_total _ _ E1 E2) as ->. repeat case_decide; subst; done.
Qed.

Lemma sorted_sublist m' m : m' `sublist_of` m -> sorted m -> sorted m'.
Proof.
  induction 1 as [|[k v] m1 m2 H IH|[k v] m1 m2 H IH]; cbn; [done| |].
  - intros [H1 H2]. split; [|auto]. rewrite Forall_forall in *. intros e He. apply H1. eapply elem_of_submseteq; [exact He|now apply sublist_submseteq].
  - intros [_ H2]. auto.
Qed.

Lemma aremove_sublist k m : aremove k m `sublist_of` m.
Proof.
  induction m as [|[k' v] m IH]; cbn; [constructor|]. case_decide; [apply sublist_cons, reflexivity|now constructor].
Qed.

Lemma afind_aremove k m k' : sorted m -> afind k' (aremove k m) = if decide (k' = k) then None else afind k' m.
Proof.
  induction m as [|[k0 v0] m IH]; intros Hs; [cbn; now case_decide|]. pose proof (sorted_keys_ne _ _ _ Hs) as Hn.
  destruct Hs as [_ Hs]. cbn. destruct (decide (k = k0)) as [->|].
  - destruct (decide (k' = k0)) as [->|]; [now apply afind_None|done].
  - cbn. rewrite IH by done. repeat case_decide; congruence.
Qed.

Lemma afind_filter (P : string -> bool) m k' :
  afind k' (filter (fun e => P e.1 = true) m) = if P k' then afind k' m else None.
Proof.
  induction m as [|[k0 v0] m IH]; [cbn; now destruct (P k')|]. rewrite filter_cons. cbn.
  destruct (P k0) eqn:E; cbn.
  - rewrite decide_True by done. cbn. rewrite IH. case_decide; subst; [now rewrite E|done].
  - rewrite decide_False by done. rewrite IH. case_decide; subst; [now rewrite E|done].
Qed.

Lemma bound_split k m : before_bound k m ++ lower_bound k m = m.
Proof. induction m as [|[k' v] m IH]; cbn; [done|]. destruct (str_ltb k' k); cbn; congruence. Qed.

Lemma before_bound_lt k m : Forall (fun e => str_ltb e.1 k = true) (before_bound k m).
Proof. induction m as [|[k' v] m IH]; cbn; [constructor|]. destruct (str_ltb k' k) eqn:E; now constructor. Qed.

Lemma lower_bound_ge k m : sorted m -> Forall (fun e => str_ltb e.1 k = false) (lower_bound k m) /\ sorted (lower_bound k m).
Proof.
  induction m as [|[k' v] m IH]; cbn; [done|]. intros [H1 H2]. destruct (str_ltb k' k) eqn:E; [auto|].
  split; [|done]. constructor; [done|]. rewrite Forall_forall in *. intros [k2 v2] Hin. cbn.
  specialize (H1 _ Hin). cbn in H1. destruct (str_ltb k2 k) eqn:E2; [|done].
  now rewrite (str_ltb_trans _ _ _ H1 E2) in E.
Qed.
End omap_lemmas.
