(* ===== verification/GlobalDelta.v ===== *)
(** * The global catalog delta: [GlobalCatalogDeltaEntry] of
      [src/src/storage/wal/catalog_delta_entry.cpp] (lines 1166-1377)

    Committed transactions hand their delta entries over in any order; the entries are
    applied in the order of their sequence numbers, and the operations on one catalog
    entry are merged until a checkpoint picks them. Every operation runs under
    [catalog_delta_locker_], so it is one step here. *)
From S2P Require Import Prelude OrderedMap CatalogDelta DeltaEntry.
From stdpp Require Import sorting.
From Stdlib Require Strings.Ascii Strings.String.
Import Strings.Ascii.
Local Open Scope Z_scope.

(** The merged operations and what belongs to them. *)
Record DeltaState := mkDeltaState {
  delta_ops_ : list (string * DeltaOp);
  g_txn_ids_ : gset Z;
  g_max_commit_ts_ : Z;
  last_full_ckp_ts_ : Z;
}.
(** [sequence_heap_] is a queue whose [top()] is the smallest element: an increasing list. *)
Record GlobalCatalogDeltaEntry := mkGlobal {
  last_sequence_ : Z;
  sequence_heap_ : list Z;
  delta_entry_map_ : gmap Z CatalogDeltaEntry;
  delta_state_ : DeltaState;
}.

Module GlobalDelta.

Definition encode (o : DeltaOp) : string := encode_ (base_ o).
Definition op_ts (o : DeltaOp) : Z := commit_ts_ (base_ o).
Definition op_type (o : DeltaOp) : Z := DeltaOp.type_ (members_ o).

Definition set_ops (l : list (string * DeltaOp)) (s : DeltaState) : DeltaState :=
  mkDeltaState l (g_txn_ids_ s) (g_max_commit_ts_ s) (last_full_ckp_ts_ s).

(** ** [PruneOpWithSamePrefix] *)

(** The loop on [idx]: how many characters agree. *)
Fixpoint common_length (encode1 encode2 : string) : nat :=
  match encode1, encode2 with
  | String c encode1, String d encode2 => if Ascii.eqb c d then S (common_length encode1 encode2) else O
  | _, _ => O
  end.
Fixpoint prune_from (encode1 : string) (l : list (string * DeltaOp)) : list (string * DeltaOp) :=
  match l with
  | [] => []
  | (encode2, o) :: l' =>
      if (String.length encode2 <? String.length encode1)%nat then l
      else
        let idx := common_length encode1 encode2 in
        if negb (idx =? String.length encode1)%nat then l
        else if (idx =? String.length encode2)%nat then (encode2, o) :: prune_from encode1 l'
        else if bool_decide (String.get idx encode2 = Some "#"%char) then prune_from encode1 l'
        else (encode2, o) :: prune_from encode1 l'
  end.
Definition PruneOpWithSamePrefix (encode1 : string) (l : list (string * DeltaOp)) : list (string * DeltaOp) :=
  before_bound encode1 l ++ prune_from encode1 (lower_bound encode1 l).

(** ** [AddDeltaEntryInner] *)

(** One operation of the loop. [op->Merge] changes the stored operation in place; its
    exception is rethrown. *)
Definition add_op (last_full_ckp_ts : Z) (new_op : DeltaOp) (l : list (string * DeltaOp)) : res (list (string * DeltaOp)) :=
  let new_op := DeltaOp.CheckDelete new_op in
  let encode1 := encode new_op in
  if String.eqb encode1 "" then Err Unrecoverable else
  let '(found, l) :=
    match afind encode1 l with
    | Some op => if op_ts op <=? last_full_ckp_ts then (None, aremove encode1 l) else (Some op, l)
    | None => (None, l)
    end in
  match found with
  | Some op =>
      let? prune_flag := CatalogDeltaOperation.ToPrune (Some (DeltaOp.flag op)) (DeltaOp.flag new_op) in
      if decide (prune_flag = kPrune) then Ok (PruneOpWithSamePrefix encode1 (aremove encode1 l))
      else
        let l := if decide (prune_flag = kPruneSub) then PruneOpWithSamePrefix encode1 l else l in
        let? op := DeltaOp.Merge op new_op in
        Ok (aupdate encode1 (fun _ => op) l)
  | None =>
      let? prune_flag := CatalogDeltaOperation.ToPrune None (DeltaOp.flag new_op) in
      let l := oinsert encode1 new_op l in
      Ok (if decide (prune_flag = kPruneSub) then PruneOpWithSamePrefix encode1 l else l)
  end.
Fixpoint add_ops (last_full_ckp_ts : Z) (ops : list DeltaOp) (l : list (string * DeltaOp)) : res (list (string * DeltaOp)) :=
  match ops with
  | [] => Ok l
  | o :: ops => let? l := add_op last_full_ckp_ts o l in add_ops last_full_ckp_ts ops l
  end.
Definition AddDeltaEntryInner (e : CatalogDeltaEntry) (s : DeltaState) : res DeltaState :=
  if max_commit_ts_ e =? UNCOMMIT_TS then Err Unrecoverable else
  let? l := add_ops (last_full_ckp_ts_ s) (operations_ e) (delta_ops_ s) in
  Ok (mkDeltaState l (g_txn_ids_ s ∪ list_to_set (txn_ids_ e)) (Z.max (g_max_commit_ts_ s) (max_commit_ts_ e))
        (last_full_ckp_ts_ s)).

(** ** [AddDeltaEntry] *)
Fixpoint heap_push (x : Z) (heap : list Z) : list Z :=
  match heap with
  | [] => [x]
  | y :: heap' => if x <=? y then x :: heap else y :: heap_push x heap'
  end.
(** The [do ... while (true)] loop; every further turn takes the top of the heap. *)
Fixpoint drain (last_sequence : Z) (m : gmap Z CatalogDeltaEntry) (s : DeltaState) (e : CatalogDeltaEntry)
    (heap : list Z) : res GlobalCatalogDeltaEntry :=
  let? s := AddDeltaEntryInner e s in
  let last_sequence := u64 (last_sequence + 1) in
  match heap with
  | top :: heap' =>
      if top =? u64 (last_sequence + 1) then
        match m !! top with
        | None => Err Unrecoverable
        | Some e => drain last_sequence (delete top m) s e heap'
        end
      else Ok (mkGlobal last_sequence heap m s)
  | [] => Ok (mkGlobal last_sequence heap m s)
  end.
(** [emplace] keeps an entry that is already there. *)
Definition AddDeltaEntry (e : CatalogDeltaEntry) (g : GlobalCatalogDeltaEntry) : res GlobalCatalogDeltaEntry :=
  let entry_sequence := sequence_ e in
  if negb (entry_sequence =? u64 (last_sequence_ g + 1)) then
    Ok (mkGlobal (last_sequence_ g) (heap_push entry_sequence (sequence_heap_ g))
          (match delta_entry_map_ g !! entry_sequence with
           | Some _ => delta_entry_map_ g
           | None => <[entry_sequence := e]> (delta_entry_map_ g)
           end) (delta_state_ g))
  else drain (last_sequence_ g) (delta_entry_map_ g) (delta_state_ g) e (sequence_heap_ g).

Definition ReplayDeltaEntry (e : CatalogDeltaEntry) (g : GlobalCatalogDeltaEntry) : res GlobalCatalogDeltaEntry :=
  let? s := AddDeltaEntryInner e (delta_state_ g) in
  Ok (mkGlobal (last_sequence_ g) (sequence_heap_ g) (delta_entry_map_ g) s).

(** ** Checkpoints *)

(** [PickFlushEntry]; [sort] is the call of [std::sort], which orders by type and leaves the
    order of operations of one type open. The order of [txn_ids_], a hash set, is open too. *)
Definition PickFlushEntry (sort : list DeltaOp -> list DeltaOp) (s : DeltaState) : CatalogDeltaEntry * DeltaState :=
  let delta_ops := (delta_ops_ s).*2 in
  let max_ts := foldl (fun ts o => Z.max ts (op_ts o)) 0 delta_ops in
  let max_commit_ts := Z.max max_ts (g_max_commit_ts_ s) in
  (mkDeltaEntry (elements (g_txn_ids_ s)) max_commit_ts 0 (sort delta_ops),
   mkDeltaState [] ∅ (g_max_commit_ts_ s) (last_full_ckp_ts_ s)).

(** [RemoveDeltaOp]. *)
Fixpoint remove_old (max_commit_ts : Z) (l : list (string * DeltaOp)) : list (string * DeltaOp) :=
  match l with
  | [] => []
  | (k, o) :: l => if op_ts o <=? max_commit_ts then remove_old max_commit_ts l else (k, o) :: remove_old max_commit_ts l
  end.
Definition SetFullCheckpointTs (last_full_ckp_ts : Z) (s : DeltaState) : DeltaState :=
  mkDeltaState (remove_old last_full_ckp_ts (delta_ops_ s)) (g_txn_ids_ s) (g_max_commit_ts_ s) last_full_ckp_ts.
Definition InitFullCheckpointTs (last_full_ckp_ts : Z) (s : DeltaState) : DeltaState :=
  mkDeltaState (delta_ops_ s) (g_txn_ids_ s) (g_max_commit_ts_ s) last_full_ckp_ts.
Definition OpSize (s : DeltaState) : Z := Z.of_nat (length (delta_ops_ s)).

End GlobalDelta.

(** ** Pruning removes exactly the entries below the key *)
Section prune.
Import GlobalDelta.

Lemma common_length_prefix e k :
  (String.length e <= String.length k)%nat /\ common_length e k = String.length e <-> prefixb e k = true.
Proof.
  revert k. induction e as [|c e IH]; intros [|d k]; cbn; try (split; [done|split; [lia|done]]); [split; [lia|done]|].
  destruct (Ascii.eqb c d); cbn; [|lia]. rewrite <- IH. lia.
Qed.

Lemma common_length_sub e k :
  prefixb e k = true ->
  (common_length e k = String.length k -> is_sub e k = false) /\
  (String.get (common_length e k) k = Some "#"%char <-> is_sub e k = true).
Proof.
  revert k. induction e as [|c e IH]; intros [|d k]; cbn; try done.
  - intros _. split; [done|]. rewrite Ascii.eqb_eq. split; congruence.
  - destruct (Ascii.eqb c d); cbn; [|done]. intros H. destruct (IH k H) as [H1 H2]. split; [|exact H2].
    intros [= E]. auto.
Qed.

Lemma prune_from_filter e l :
  sorted l -> Forall (fun x => str_ltb x.1 e = false) l ->
  prune_from e l = filter (fun x => negb (is_sub e x.1) = true) l.
Proof.
  induction l as [|[k o] l IH]; intros Hs Hge; [done|].
  apply Forall_cons in Hge as [Hk Hge]. destruct Hs as [Hlt Hs]. cbn [fst] in *. rewrite filter_cons. cbn [prune_from fst].
  destruct (prefixb e k) eqn:Hp.
  - pose proof (proj2 (common_length_prefix e k) Hp) as [Hl Hc]. destruct (common_length_sub e k Hp) as [H1 H2].
    rewrite (proj2 (Nat.ltb_ge _ _) Hl), (proj2 (Nat.eqb_eq _ _) Hc). cbn [negb]. rewrite IH by done.
    destruct (common_length e k =? String.length k)%nat eqn:E.
    + apply Nat.eqb_eq in E. now rewrite (H1 E), decide_True.
    + destruct (is_sub e k); [rewrite bool_decide_true by tauto|rewrite bool_decide_false by (intros F; now apply H2 in F)]; done.
  - assert (Hrest : filter (fun x => negb (is_sub e x.1) = true) ((k, o) :: l) = (k, o) :: l).
    { apply filter_all, Forall_forall. intros x [->|Hx]%elem_of_cons; apply negb_true_iff, not_true_is_false; intros Hsub;
        apply is_sub_prefix in Hsub; [cbn in Hsub; congruence|].
      rewrite Forall_forall in Hlt. specialize (Hlt x Hx).
      pose proof (prefixb_between e k x.1 Hk Hlt Hsub). congruence. }
    rewrite filter_cons in Hrest. cbn [fst] in Hrest. rewrite Hrest.
    destruct (String.length k <? String.length e)%nat eqn:E1; [done|].
    destruct (common_length e k =? String.length e)%nat eqn:E2; [|done].
    apply Nat.ltb_ge in E1. apply Nat.eqb_eq in E2. exfalso.
    assert (prefixb e k = true) by (apply common_length_prefix; done). congruence.
Qed.

Lemma prune_filter e l :
  sorted l -> PruneOpWithSamePrefix e l = filter (fun x => negb (is_sub e x.1) = true) l.
Proof.
  intros Hs. unfold PruneOpWithSamePrefix. destruct (lower_bound_ge e l Hs) as [Hge Hs'].
  rewrite prune_from_filter by done. rewrite <- (bound_split e l) at 3. rewrite filter_app. f_equal.
  symmetry. apply filter_all, Forall_forall. intros x Hx. apply negb_true_iff, not_true_is_false. intros Hsub.
  apply is_sub_prefix, prefixb_not_lt in Hsub.
  pose proof (before_bound_lt e l) as H. rewrite Forall_forall in H. specialize (H x Hx). cbn in H. congruence.
Qed.

Lemma afind_prune e l k :
  sorted l -> afind k (PruneOpWithSamePrefix e l) = if is_sub e k then None else afind k l.
Proof.
  intros Hs. rewrite prune_filter by done. rewrite (afind_filter (fun k => negb (is_sub e k))).
  now destruct (is_sub e k).
Qed.

Lemma sorted_prune e l : sorted l -> sorted (PruneOpWithSamePrefix e l).
Proof. intros Hs. rewrite prune_filter by done. eapply sorted_sublist; [|exact Hs]. apply sublist_filter. Qed.

(** [PruneOpWithSamePrefix] removes exactly the operations on the entries below the
    given one, those whose key is the given key, a [#] and a name, although it starts at
    the lower bound of the key and stops at the first key that does not begin with it;
    keys that merely share the prefix ([#db#t1] and [#db#t10]) stay. *)
Theorem prune_removes_exactly_descendants (e : string) (l : list (string * DeltaOp)) :
  sorted l ->
  sorted (PruneOpWithSamePrefix e l) /\
  forall k o, (k, o) ∈ PruneOpWithSamePrefix e l <->
    (k, o) ∈ l /\ ~ exists name, k = (e ++ "#" ++ name)%string.
Proof.
  intros Hs. split; [now apply sorted_prune|]. intros k o. rewrite prune_filter, list_elem_of_filter, negb_true_iff by done.
  cbn [fst]. rewrite <- not_true_iff_false, is_sub_spec. cbn. tauto.
Qed.

Definition demo_ops (l : list string) : list (string * DeltaOp) :=
  (fun k => (k, mkDeltaOp (mkBase 1 1 2 kNew k AddrSerializer.AddrSerializer.empty 0) (AddDBEntry (AddDBEntryOp.mk "d" "")))) <$> l.

Definition demo_keys : list string := ["#db"; "#db#t1"; "#db#t1#0"; "#db#t10"; "#db#t10#1"; "#db#t2"]%string.

Lemma prune_removes_exactly_descendants_witness :
  sorted (PruneOpWithSamePrefix "#db#t1" (demo_ops demo_keys)) /\
  (PruneOpWithSamePrefix "#db#t1" (demo_ops demo_keys)).*1 =
    ["#db"; "#db#t1"; "#db#t10"; "#db#t10#1"; "#db#t2"]%string.
Proof.
  split; [|vm_compute; reflexivity].
  apply (prune_removes_exactly_descendants "#db#t1").
  cbn. split_and!; repeat constructor.
Defined.
End prune.

(** ** Entries are applied in the order of their sequence numbers *)
Section sequencing.
Import GlobalDelta.

Fixpoint add_all (es : list CatalogDeltaEntry) (g : GlobalCatalogDeltaEntry) : res GlobalCatalogDeltaEntry :=
  match es with
  | [] => Ok g
  | e :: es => let? g := AddDeltaEntry e g in add_all es g
  end.
Fixpoint inner_all (es : list CatalogDeltaEntry) (s : DeltaState) : res DeltaState :=
  match es with
  | [] => Ok s
  | e :: es => let? s := AddDeltaEntryInner e s in inner_all es s
  end.
(** The entries have the sequence numbers [n], [n + 1], ... *)
Fixpoint consecutive (n : Z) (es : list CatalogDeltaEntry) : Prop :=
  match es with
  | [] => True
  | e :: es => sequence_ e = n /\ consecutive (n + 1) es
  end.

Lemma consecutive_range n es e : consecutive n es -> e ∈ es -> n <= sequence_ e < n + Z.of_nat (length es).
Proof.
  revert n. induction es as [|e' es IH]; intros n; [set_solver|]. intros [<- Hc] [->|He]%elem_of_cons; cbn [length]; [lia|].
  specialize (IH _ Hc He). lia.
Qed.

(** The entry of the first number is the first one. *)
Lemma consecutive_head n es e l :
  consecutive n es -> e :: l ≡ₚ es -> sequence_ e = n -> exists es', es = e :: es' /\ l ≡ₚ es' /\ consecutive (n + 1) es'.
Proof.
  intros Hc Hp He. destruct es as [|e' es]; [symmetry in Hp; now apply Permutation_nil_cons in Hp|].
  destruct Hc as [<- Hc]. assert (Hin : e ∈ e' :: es) by (rewrite <- Hp; left).
  apply elem_of_cons in Hin as [->|Hin].
  - exists es. split_and!; [done| |done]. now apply Permutation_cons_inv in Hp.
  - pose proof (consecutive_range _ _ _ Hc Hin). lia.
Qed.

Lemma distinct_seq n es e l p : consecutive n es -> e :: l ≡ₚ es -> p ∈ l -> sequence_ e = sequence_ p -> False.
Proof.
  intros Hc Hp Hin Heq. assert (Hd : NoDup (sequence_ <$> es)).
  { clear -Hc. revert n Hc. induction es as [|x es IH]; intros n; cbn; [constructor|]. intros [<- Hc].
    constructor; [|eauto]. intros (y & Hy & Hin)%list_elem_of_fmap. pose proof (consecutive_range _ _ _ Hc Hin). lia. }
  rewrite <- Hp in Hd. cbn in Hd. apply NoDup_cons in Hd as [Hn _]. apply Hn. rewrite Heq. now apply list_elem_of_fmap_2.
Qed.

(** Waiting entries, in increasing order, and what the heap and the map hold for them. *)
Fixpoint waiting (n : Z) (pend : list CatalogDeltaEntry) : Prop :=
  match pend with
  | [] => True
  | e :: pend => n < sequence_ e /\ waiting (sequence_ e) pend
  end.
Definition seqs (pend : list CatalogDeltaEntry) : list Z := sequence_ <$> pend.
Definition by_seq (pend : list CatalogDeltaEntry) : gmap Z CatalogDeltaEntry :=
  list_to_map ((fun e => (sequence_ e, e)) <$> pend).
Definition holding (last : Z) (s : DeltaState) (pend : list CatalogDeltaEntry) : GlobalCatalogDeltaEntry :=
  mkGlobal last (seqs pend) (by_seq pend) s.
Fixpoint enqueue (e : CatalogDeltaEntry) (pend : list CatalogDeltaEntry) : list CatalogDeltaEntry :=
  match pend with
  | [] => [e]
  | p :: pend' => if sequence_ e <=? sequence_ p then e :: pend else p :: enqueue e pend'
  end.

Lemma waiting_lt n pend : waiting n pend -> Forall (fun e => n < sequence_ e) pend.
Proof.
  revert n. induction pend as [|p pend IH]; intros n; [constructor|]. intros [H1 H2]. constructor; [done|].
  eapply Forall_impl; [exact (IH _ H2)|]. cbn. intros; lia.
Qed.

Lemma by_seq_None n pend : Forall (fun e => n <> sequence_ e) pend -> by_seq pend !! n = None.
Proof.
  intros H. apply not_elem_of_list_to_map_1. rewrite <- list_fmap_compose. intros (e & -> & He)%list_elem_of_fmap.
  rewrite Forall_forall in H. now apply (H e He).
Qed.

Lemma enqueue_spec e n pend :
  waiting n pend -> n < sequence_ e -> Forall (fun p => sequence_ e <> sequence_ p) pend ->
  waiting n (enqueue e pend) /\ enqueue e pend ≡ₚ e :: pend /\ seqs (enqueue e pend) = heap_push (sequence_ e) (seqs pend) /\
  by_seq (enqueue e pend) = <[sequence_ e := e]> (by_seq pend).
Proof.
  revert n. induction pend as [|p pend IH]; intros n Hw Hn Hne; cbn; [done|].
  destruct Hw as [H1 H2]. apply Forall_cons in Hne as [Hp Hne].
  destruct (sequence_ e <=? sequence_ p) eqn:E; cbn.
  - apply Z.leb_le in E. split_and!; try done; lia.
  - apply Z.leb_gt in E. destruct (IH (sequence_ p) H2 ltac:(lia) Hne) as (I1 & I2 & I3 & I4). split_and!; try done.
    + rewrite I2. apply Permutation_swap.
    + unfold seqs in I3. now rewrite I3.
    + unfold by_seq in *. cbn. rewrite I4. apply insert_insert_ne. congruence.
Qed.

Lemma by_seq_cons p pend : by_seq (p :: pend) = <[sequence_ p := p]> (by_seq pend).
Proof. reflexivity. Qed.

Lemma inner_all_app es es' s : inner_all (es ++ es') s = let? s := inner_all es s in inner_all es' s.
Proof. revert s. induction es as [|e es IH]; intros s; cbn; [done|]. destruct (AddDeltaEntryInner e s); cbn; auto. Qed.

(** The loop: it applies the entry and then as many waiting entries as follow without a gap. *)
Lemma drain_spec pend last s e es l :
  0 <= last -> last + Z.of_nat (length (e :: es)) < 2 ^ 64 ->
  waiting (last + 1) pend -> consecutive (last + 2) es -> l ++ pend ≡ₚ es ->
  (exists err, drain last (by_seq pend) s e (seqs pend) = Err err /\ inner_all (e :: es) s = Err err) \/
  exists es1 es2 s' pend',
    es = es1 ++ es2 /\ inner_all (e :: es1) s = Ok s' /\
    drain last (by_seq pend) s e (seqs pend) = Ok (holding (last + 1 + Z.of_nat (length es1)) s' pend') /\
    waiting (last + 1 + Z.of_nat (length es1) + 1) pend' /\
    consecutive (last + 1 + Z.of_nat (length es1) + 1) es2 /\ l ++ pend' ≡ₚ es2.
Proof.
  revert last s e es. induction pend as [|p pend IH]; intros last s e es H0 Hlen Hw Hc Hp; cbn [length] in Hlen;
    (destruct (AddDeltaEntryInner e s) as [s1|err] eqn:E1;
     [|left; exists err; cbn [drain inner_all seqs fmap list_fmap]; now rewrite E1]).
  - right. exists [], es, s1, []. cbn [inner_all drain seqs fmap list_fmap length]. rewrite E1. cbn [res_bind].
    rewrite wrap_id by (unfold unsigned_range; lia).
    replace (last + 1 + Z.of_nat 0) with (last + 1) by lia. split_and!; try done.
    now replace (last + 1 + 1) with (last + 2) by lia.
  - destruct Hw as [Hw1 Hw2].
    assert (Hr : last + 2 <= sequence_ p < last + 2 + Z.of_nat (length es)).
    { apply consecutive_range; [done|]. rewrite <- Hp. set_solver. }
    assert (Hd : drain last (by_seq (p :: pend)) s e (seqs (p :: pend)) =
      if sequence_ p =? last + 2 then drain (last + 1) (by_seq pend) s1 p (seqs pend)
      else Ok (holding (last + 1) s1 (p :: pend))).
    { cbn [seqs fmap list_fmap drain]. rewrite E1. cbn [res_bind].
      rewrite (wrap_id 64 (last + 1)), (wrap_id 64 (last + 1 + 1)) by (unfold unsigned_range; lia).
      replace (last + 1 + 1) with (last + 2) by lia. destruct (_ =? _) eqn:E; [|done].
      rewrite by_seq_cons, lookup_insert_eq, delete_insert_id; [done|]. apply by_seq_None.
      eapply Forall_impl; [exact (waiting_lt _ _ Hw2)|]. cbn. lia. }
    rewrite Hd. destruct (sequence_ p =? last + 2) eqn:E.
    + apply Z.eqb_eq in E.
      destruct (consecutive_head (last + 2) es p (l ++ pend)) as (es' & -> & Hp' & Hc');
        [done|rewrite <- Hp; apply Permutation_middle|lia|].
      destruct (IH (last + 1) s1 p es') as [(err & D & I)|(es1 & es2 & s' & pend' & -> & I & D & W & C & P)];
        try done; [lia|cbn [length] in *; lia|now replace (last + 1 + 1) with (sequence_ p) by lia
                  |now replace (last + 1 + 2) with (last + 2 + 1) by lia| |].
      * left. exists err. split; [exact D|]. cbn [inner_all] in *. rewrite E1. exact I.
      * right. exists (p :: es1), es2, s', pend'. cbn [length].
        replace (last + 1 + Z.of_nat (S (length es1))) with (last + 1 + 1 + Z.of_nat (length es1)) by lia.
        split_and!; try done. cbn [inner_all] in *. rewrite E1. exact I.
    + apply Z.eqb_neq in E. right. exists [], es, s1, (p :: pend). cbn [length inner_all]. rewrite E1.
      replace (last + 1 + Z.of_nat 0) with (last + 1) by lia. split_and!; try done; [split; [lia|done]|].
      now replace (last + 1 + 1) with (last + 2) by lia.
Qed.

Lemma add_all_spec l last s pend es :
  0 <= last -> last + Z.of_nat (length es) < 2 ^ 64 ->
  waiting (last + 1) pend -> consecutive (last + 1) es -> l ++ pend ≡ₚ es ->
  add_all l (holding last s pend) = let? s' := inner_all es s in Ok (holding (last + Z.of_nat (length es)) s' []).
Proof.
  revert last s pend es. induction l as [|e l IH]; intros last s pend es H0 Hlen Hw Hc Hp.
  - destruct es as [|e es].
    + apply Permutation_nil_r in Hp. cbn in Hp. subst pend. cbn. now rewrite Z.add_0_r.
    + exfalso. destruct Hc as [He _]. assert (Hin : e ∈ pend) by (cbn in Hp; rewrite Hp; left).
      pose proof (waiting_lt _ _ Hw) as Hf. rewrite Forall_forall in Hf. specialize (Hf e Hin). cbn in Hf. lia.
  - assert (Hr : last + 1 <= sequence_ e < last + 1 + Z.of_nat (length es)).
    { apply consecutive_range; [done|]. rewrite <- Hp. left. }
    cbn [add_all]. unfold AddDeltaEntry. cbn [holding last_sequence_ sequence_heap_ delta_entry_map_ delta_state_].
    rewrite wrap_id by (unfold unsigned_range; lia). destruct (sequence_ e =? last + 1) eqn:E; cbn [negb].
    + apply Z.eqb_eq in E. destruct (consecutive_head (last + 1) es e (l ++ pend)) as (es' & -> & Hp' & Hc'); [done..|].
      destruct (drain_spec pend last s e es' l) as [(err & D & I)|(es1 & es2 & s' & pend' & -> & I & D & W & C & P)];
        try done; [now replace (last + 2) with (last + 1 + 1) by lia|rewrite D, I; done|].
      rewrite D. cbn [res_bind length] in *. rewrite length_app in *. rewrite IH with (es := es2) by (done || lia).
      change (e :: es1 ++ es2) with ((e :: es1) ++ es2). rewrite inner_all_app, I. cbn [res_bind].
      destruct (inner_all es2 s'); cbn; [|done]. do 2 f_equal. lia.
    + apply Z.eqb_neq in E.
      assert (Hne : Forall (fun p => sequence_ e <> sequence_ p) pend).
      { apply Forall_forall. intros p Hin Heq. apply (distinct_seq (last + 1) es e (l ++ pend) p); try done. set_solver. }
      destruct (enqueue_spec e (last + 1) pend Hw ltac:(lia) Hne) as (W & P & S & M).
      rewrite (by_seq_None _ _ Hne). cbn [res_bind]. rewrite <- S, <- M.
      change (mkGlobal last _ _ s) with (holding last s (enqueue e pend)). apply IH; try done.
      rewrite P. rewrite <- Hp. symmetry. apply Permutation_middle.
Qed.

(** C29. Whatever the order in which the delta entries of transactions [last + 1], ...,
    [last + n] arrive, [AddDeltaEntry] applies them in the order of their sequence numbers,
    each exactly once: the result, or the error, is the one of applying them in that order,
    and no entry is left waiting. *)
Theorem delta_entries_applied_in_sequence (entries arrivals : list CatalogDeltaEntry) (last : Z) (s : DeltaState) :
  0 <= last -> last + Z.of_nat (length entries) < 2 ^ 64 ->
  consecutive (last + 1) entries -> arrivals ≡ₚ entries ->
  add_all arrivals (mkGlobal last [] ∅ s) =
  let? s' := inner_all entries s in Ok (mkGlobal (last + Z.of_nat (length entries)) [] ∅ s').
Proof.
  intros H0 Hlen Hc Hp. apply (add_all_spec arrivals last s [] entries); try done. now rewrite app_nil_r.
Qed.

Definition demo_create (seq : Z) (k : string) (f : MergeFlag) : CatalogDeltaEntry :=
  mkDeltaEntry [seq] (10 + seq) seq
    [mkDeltaOp (mkBase 1 seq (10 + seq) f k AddrSerializer.AddrSerializer.empty 0) (AddDBEntry (AddDBEntryOp.mk "d" ""))].
Definition demo_state : DeltaState := mkDeltaState [] ∅ 0 0.

Lemma delta_entries_applied_in_sequence_witness :
  add_all [demo_create 3 "#c" kNew; demo_create 2 "#a" kDelete; demo_create 1 "#a" kNew] (mkGlobal 0 [] ∅ demo_state) =
  let? s' := inner_all [demo_create 1 "#a" kNew; demo_create 2 "#a" kDelete; demo_create 3 "#c" kNew] demo_state in
  Ok (mkGlobal (0 + 3) [] ∅ s').
Proof.
  apply (delta_entries_applied_in_sequence
    [demo_create 1 "#a" kNew; demo_create 2 "#a" kDelete; demo_create 3 "#c" kNew]
    [demo_create 3 "#c" kNew; demo_create 2 "#a" kDelete; demo_create 1 "#a" kNew] 0 demo_state); [lia|cbn; lia|cbn; lia|].
  apply Permutation_rev.
Defined.
End sequencing.

(** ** Merging keeps the effect of the operations

    A catalog maps the keys of its live entries to their contents; the contents are the
    members of the operation that described the entry last, without the filter data, which
    [Merge] carries over. *)
Definition content (m : DeltaMembers) : DeltaMembers :=
  match m with
  | AddSegmentEntry o => AddSegmentEntry (AddSegmentEntryOp.set_filter "" o)
  | AddBlockEntry o => AddBlockEntry (AddBlockEntryOp.set_filter "" o)
  | _ => m
  end.
Definition catalog : Type := string -> option DeltaMembers.

Module Effect.
Import GlobalDelta.

(** The operation removes the entries below its own. *)
Definition deletes (f : MergeFlag) : bool := bool_decide (f = kDelete) || bool_decide (f = kDeleteAndNew).

(** One operation on a catalog. *)
Definition apply (c : catalog) (o : DeltaOp) : catalog := fun k =>
  if decide (k = encode o) then (if decide (DeltaOp.flag o = kDelete) then None else Some (content (members_ o)))
  else if deletes (DeltaOp.flag o) && is_sub (encode o) k then None else c k.

(** An entry is created when there is none, and updated or deleted when there is one. *)
Definition legal (c : catalog) (o : DeltaOp) : Prop :=
  encode o <> ""%string /\
  match DeltaOp.flag o with
  | kNew => c (encode o) = None
  | kUpdate | kDelete => is_Some (c (encode o))
  | _ => False
  end.
Fixpoint legal_history (c : catalog) (ops : list DeltaOp) : Prop :=
  match ops with
  | [] => True
  | o :: ops => legal c (DeltaOp.CheckDelete o) /\ legal_history (apply c (DeltaOp.CheckDelete o)) ops
  end.
Definition history (c : catalog) (ops : list DeltaOp) : catalog := foldl (fun c o => apply c (DeltaOp.CheckDelete o)) c ops.

(** What a set of merged operations stands for, over a base catalog. *)
Definition hidden (l : list (string * DeltaOp)) (k : string) : bool :=
  existsb (fun x => deletes (DeltaOp.flag x.2) && is_sub x.1 k) l.
Definition merged (l : list (string * DeltaOp)) (b : catalog) : catalog := fun k =>
  match afind k l with
  | Some o => if decide (DeltaOp.flag o = kDelete) then None else Some (content (members_ o))
  | None => if hidden l k then None else b k
  end.
End Effect.

Section merging.
Import GlobalDelta Effect.

(** ** Catalogs up to pointwise equality *)
#[local] Instance catalog_equiv : Equiv catalog := pointwise_relation string eq.
#[local] Instance catalog_equivalence : Equivalence (≡@{catalog}).
Proof. unfold equiv, catalog_equiv. apply _. Qed.

#[local] Instance apply_proper : Proper ((≡) ==> (=) ==> (≡)) apply.
Proof. intros c c' Hc o ? <- k. unfold apply. repeat case_match; auto. Qed.
#[local] Instance legal_proper : Proper ((≡) ==> (=) ==> iff) legal.
Proof. intros c c' Hc o ? <-. unfold legal. now rewrite (Hc (encode o)). Qed.
#[local] Instance legal_history_proper : Proper ((≡) ==> (=) ==> iff) legal_history.
Proof.
  intros c c' Hc ops ? <-. revert c c' Hc. induction ops as [|o ops IH]; intros c c' Hc; cbn; [done|].
  rewrite (IH _ _ (apply_proper _ _ Hc (DeltaOp.CheckDelete o) _ eq_refl)). now rewrite Hc.
Qed.
#[local] Instance history_proper : Proper ((≡) ==> (=) ==> (≡)) history.
Proof.
  intros c c' Hc ops ? <-. unfold history. revert c c' Hc. induction ops as [|o ops IH]; intros c c' Hc; [exact Hc|].
  cbn. apply IH. now rewrite Hc.
Qed.

(** ** Lookups *)
Lemma hidden_spec l k :
  sorted l ->
  hidden l k = true <-> exists a x, afind a l = Some x /\ deletes (DeltaOp.flag x) = true /\ is_sub a k = true.
Proof.
  intros Hs. unfold hidden. rewrite existsb_exists. split.
  - intros ([a x] & Hin & Hd). apply andb_true_iff in Hd as [H1 H2]. exists a, x. split_and!; try done.
    apply afind_elem; [now apply sorted_NoDup|now apply list_elem_of_In].
  - intros (a & x & Ha & H1 & H2). exists (a, x). split; [apply list_elem_of_In; now apply afind_Some_elem|].
    cbn. now rewrite H1, H2.
Qed.

Lemma afind_aupdate_all {V : Type} (k : string) (f : V -> V) l k' :
  afind k' (aupdate k f l) = if decide (k' = k) then f <$> afind k l else afind k' l.
Proof.
  induction l as [|[k0 v] l IH]; cbn; [now case_decide|].
  destruct (decide (k = k0)) as [->|]; cbn; destruct (decide (k' = k0)) as [->|]; try done.
  now rewrite decide_False by done.
Qed.

Lemma sorted_aupdate {V : Type} k (f : V -> V) l : sorted l -> sorted (aupdate k f l).
Proof.
  induction l as [|[k0 v] l IH]; cbn; [done|]. intros [H1 H2]. case_decide; cbn; [done|].
  split; [|auto]. clear -H1. induction l as [|[k1 v1] l IH]; cbn; [constructor|].
  apply Forall_cons in H1 as [Ha Hb]. case_decide; constructor; auto.
Qed.

(** ** One step, seen through lookups

    [changed k r del l l']: the operation on [k] becomes [r], those below [k] go if [del]. *)
Definition changed (k : string) (r : option DeltaOp) (del : bool) (l l' : list (string * DeltaOp)) : Prop :=
  sorted l' /\ forall k', afind k' l' = if decide (k' = k) then r else if del && is_sub k k' then None else afind k' l.

Definition hides (r : option DeltaOp) : bool := match r with Some o => deletes (DeltaOp.flag o) | None => false end.

Section changed.
Context (k : string) (r : option DeltaOp) (del : bool) (l l' : list (string * DeltaOp)).
Context (Hs : sorted l) (Hch : changed k r del l l').

Lemma changed_hidden_other k' : is_sub k k' = false -> hidden l' k' = hidden l k'.
Proof.
  intros Hn. destruct Hch as [Hs' Hl]. apply eq_true_iff_eq. rewrite !hidden_spec by done.
  split; intros (a & x & Ha & Hd & Hk); exists a, x; split_and!; try done.
  - rewrite Hl in Ha. case_decide; [subst; congruence|]. destruct (del && is_sub k a); [done|exact Ha].
  - rewrite Hl. rewrite decide_False by (intros ->; congruence).
    destruct (is_sub k a) eqn:E; [|now rewrite andb_false_r].
    pose proof (is_sub_trans _ _ _ E Hk). congruence.
Qed.

Lemma changed_hidden_below k' : is_sub k k' = true -> hides r = true -> hidden l' k' = true.
Proof.
  intros Hk Hr. destruct Hch as [Hs' Hl]. apply hidden_spec; [done|].
  destruct r as [o|]; [|done]. exists k, o. split_and!; try done. rewrite Hl. now rewrite decide_True.
Qed.

Lemma changed_hidden_keep k' : del = false -> hides r = hides (afind k l) -> hidden l' k' = hidden l k'.
Proof.
  intros -> Hr. destruct Hch as [Hs' Hl]. apply eq_true_iff_eq. rewrite !hidden_spec by done.
  split; intros (a & x & Ha & Hd & Hk); rewrite ?Hl in Ha;
    (destruct (decide (a = k)) as [->|Hne]; [|exists a, x; rewrite ?Hl, ?decide_False by done; done]).
  - subst r. cbn in Hr. rewrite Hd in Hr. destruct (afind k l) as [y|] eqn:E; [|done]. exists k, y. now split_and!.
  - rewrite Ha in Hr. cbn in Hr. rewrite Hd in Hr. destruct r as [y|]; [|done]. exists k, y.
    rewrite Hl, decide_True by done. now split_and!.
Qed.

End changed.

(** The step has the effect of the operation [o] on the merged catalog. *)
Lemma changed_effect k r del l l' (b : catalog) (o : DeltaOp) :
  sorted l -> changed k r del l l' -> encode o = k -> deletes (DeltaOp.flag o) = del ->
  (del = false -> hides r = hides (afind k l)) ->
  match r with
  | Some o' => content (members_ o') = content (members_ o) /\ (DeltaOp.flag o' = kDelete <-> DeltaOp.flag o = kDelete) /\
      (del = true -> deletes (DeltaOp.flag o') = true)
  | None => DeltaOp.flag o = kDelete /\
      forall k', k' = k \/ is_sub k k' = true -> b k' = None \/ hidden l k = true
  end ->
  merged l' b ≡ apply (merged l b) o.
Proof.
  intros Hs Hch He Hd Hkeep Hr k'. pose proof (proj2 Hch k') as Hk'.
  assert (Hother : forall k', is_sub k k' = false -> hidden l' k' = hidden l k') by (intros; eapply changed_hidden_other; eauto).
  assert (Hbelow : forall k', is_sub k k' = true -> hides r = true -> hidden l' k' = true)
    by (intros; eapply changed_hidden_below; eauto).
  assert (Hsame : forall k', del = false -> hides r = hides (afind k l) -> hidden l' k' = hidden l k')
    by (intros; eapply changed_hidden_keep; eauto).
  destruct Hch as [Hs' _]. unfold apply, merged. rewrite He, Hd, Hk'.
  destruct (decide (k' = k)) as [->|Hne].
  - destruct r as [o'|].
    + destruct Hr as (Hc & Hf & _). rewrite Hc. repeat case_decide; tauto.
    + destruct Hr as [Hf Hb]. rewrite (decide_True _ _ Hf).
      rewrite Hother by apply is_sub_irrefl. destruct (Hb k) as [->| ->]; [now left|now case_match|done].
  - destruct del, (is_sub k k') eqn:E; cbn [andb].
    + destruct r as [o'|].
      * rewrite Hbelow; [done|done|]. cbn. now apply Hr.
      * destruct Hr as [_ Hb]. destruct (Hb k') as [->|H]; [now right|by destruct (hidden l' k')|].
        replace (hidden l' k') with true; [done|]. symmetry. rewrite <- (Hother k) in H by apply is_sub_irrefl.
        apply hidden_spec in H as (a & x & ? & ? & ?); [|done]. apply hidden_spec; [done|].
        exists a, x. split_and!; try done. now apply (is_sub_trans a k k').
    + now rewrite Hother by done.
    + now rewrite Hsame by auto.
    + now rewrite Hother by done.
Qed.

(** The shapes of a step. *)
Lemma changed_insert k o l : sorted l -> changed k (Some o) false l (oinsert k o l).
Proof. intros Hs. split; [now apply sorted_oinsert|]. intros k'. now rewrite afind_oinsert. Qed.

Lemma changed_insert_prune k o l : sorted l -> changed k (Some o) true l (PruneOpWithSamePrefix k (oinsert k o l)).
Proof.
  intros Hs. pose proof (sorted_oinsert k o l Hs). split; [now apply sorted_prune|]. intros k'.
  rewrite afind_prune, afind_oinsert by done. case_decide; [subst; now rewrite is_sub_irrefl|done].
Qed.

Lemma changed_update k x o l :
  sorted l -> afind k l = Some x -> changed k (Some o) false l (aupdate k (fun _ => o) l).
Proof. intros Hs Hk. split; [now apply sorted_aupdate|]. intros k'. now rewrite afind_aupdate_all, Hk. Qed.

Lemma changed_update_prune k x o l :
  sorted l -> afind k l = Some x -> changed k (Some o) true l (aupdate k (fun _ => o) (PruneOpWithSamePrefix k l)).
Proof.
  intros Hs Hk. split; [now apply sorted_aupdate, sorted_prune|]. intros k'.
  now rewrite afind_aupdate_all, !afind_prune, is_sub_irrefl, Hk by done.
Qed.

Lemma changed_remove_prune k l : sorted l -> changed k None true l (PruneOpWithSamePrefix k (aremove k l)).
Proof.
  intros Hs. assert (sorted (aremove k l)) by (eapply sorted_sublist; [apply aremove_sublist|done]).
  split; [now apply sorted_prune|]. intros k'. rewrite afind_prune, afind_aremove by done.
  case_decide; [subst; now rewrite is_sub_irrefl|done].
Qed.

(** Filter data. *)
Definition filter_of (o : DeltaOp) : string :=
  match members_ o with
  | AddSegmentEntry s => AddSegmentEntryOp.segment_filter_binary_data_ s
  | AddBlockEntry c => AddBlockEntryOp.block_filter_binary_data_ c
  | _ => ""%string
  end.
Definition filter_compatible (x o : DeltaOp) : Prop := filter_of x = ""%string \/ filter_of o = ""%string.

Lemma Merge_spec x o f :
  op_type x = op_type o -> CatalogDeltaOperation.NextDeleteFlag (DeltaOp.flag x) (DeltaOp.flag o) = Ok f ->
  filter_compatible x o ->
  exists o', DeltaOp.Merge x o = Ok o' /\ DeltaOp.flag o' = f /\ encode o' = encode o /\ op_ts o' = op_ts o /\
    op_type o' = op_type o /\ content (members_ o') = content (members_ o) /\
    (filter_of o' = filter_of x \/ filter_of o' = filter_of o).
Proof.
  destruct x as [bx mx], o as [bo mo]. unfold op_type, filter_compatible, filter_of, DeltaOp.Merge, DeltaOp.flag. cbn [base_ members_].
  intros Ht Hf Hc. rewrite <- Ht, Z.eqb_refl, Hf. cbn [negb res_bind].
  destruct mx as [?|?|sx|cx|?|?|?|?], mo as [?|?|so|co|?|?|?|?]; try discriminate Ht; cbn [DeltaOp.merge_members res_bind];
    try (eexists; split; [reflexivity|]; cbn; split_and!; auto; done).
  - unfold AddSegmentEntryOp.Merge. destruct (String.eqb_spec (AddSegmentEntryOp.segment_filter_binary_data_ sx) "").
    + eexists; split; [reflexivity|]. cbn. split_and!; auto.
    + destruct Hc as [?|Hc]; [done|]. rewrite (proj2 (String.eqb_eq _ _) Hc). cbn.
      eexists; split; [reflexivity|]. cbn. split_and!; auto.
  - unfold AddBlockEntryOp.Merge. destruct (String.eqb_spec (AddBlockEntryOp.block_filter_binary_data_ cx) "").
    + eexists; split; [reflexivity|]. cbn. split_and!; auto.
    + destruct Hc as [?|Hc]; [done|]. rewrite (proj2 (String.eqb_eq _ _) Hc). cbn.
      eexists; split; [reflexivity|]. cbn. split_and!; auto.
Qed.

(** ** The invariant of the merged operations

    [key_type] gives the kind of the entry a key names; the base catalog has no entry below
    a missing one. *)
Section invariant.
Context (key_type : string -> option Z) (b : catalog) (ckp : Z).
Context (Hclosed : forall k k', is_Some (key_type k) -> is_sub k k' = true -> b k = None -> b k' = None).

Definition op_inv (l : list (string * DeltaOp)) (k : string) (o : DeltaOp) : Prop :=
  encode o = k /\ ckp < op_ts o /\ key_type k = Some (op_type o) /\
  DeltaOp.flag o ∈ [kDelete; kNew; kUpdate; kDeleteAndNew] /\
  (DeltaOp.flag o = kNew -> b k = None \/ hidden l k = true).
Definition inv (l : list (string * DeltaOp)) : Prop := sorted l /\ forall k o, afind k l = Some o -> op_inv l k o.

Lemma changed_inv k r del l l' :
  inv l -> changed k r del l l' -> (del = false -> hides r = hides (afind k l)) ->
  (forall o, r = Some o -> op_inv l k o) -> inv l'.
Proof.
  intros [Hs Hi] Hch Hkeep Hr. split; [apply Hch|]. intros k' o Ho. rewrite (proj2 Hch) in Ho.
  destruct (decide (k' = k)) as [->|Hne].
  - destruct (Hr o Ho) as (? & ? & ? & ? & H). split_and!; try done. intros Hf.
    rewrite (changed_hidden_other _ _ _ _ _ Hs Hch) by apply is_sub_irrefl. auto.
  - destruct (del && is_sub k k') eqn:E; [done|]. destruct (Hi _ _ Ho) as (? & ? & ? & ? & H). split_and!; try done.
    intros Hf. destruct (is_sub k k') eqn:Esub.
    + rewrite andb_true_r in E. rewrite (changed_hidden_keep _ _ _ _ _ Hs Hch) by auto. auto.
    + rewrite (changed_hidden_other _ _ _ _ _ Hs Hch) by done. auto.
Qed.

(** What a step promises. *)
Definition step_ok (l : list (string * DeltaOp)) (o : DeltaOp) (l' : list (string * DeltaOp)) : Prop :=
  inv l' /\ merged l' b ≡ apply (merged l b) o /\
  forall k x, afind k l' = Some x -> afind k l = Some x \/
    k = encode o /\ (filter_of x = filter_of o \/ exists y, afind k l = Some y /\ filter_of x = filter_of y).

Lemma step_of_changed l o r del l' :
  inv l -> changed (encode o) r del l l' -> deletes (DeltaOp.flag o) = del ->
  (del = false -> hides r = hides (afind (encode o) l)) ->
  match r with
  | Some o' => op_inv l (encode o) o' /\ content (members_ o') = content (members_ o) /\
      (DeltaOp.flag o' = kDelete <-> DeltaOp.flag o = kDelete) /\ (del = true -> deletes (DeltaOp.flag o') = true) /\
      (filter_of o' = filter_of o \/ exists y, afind (encode o) l = Some y /\ filter_of o' = filter_of y)
  | None => DeltaOp.flag o = kDelete /\ exists x, afind (encode o) l = Some x /\ DeltaOp.flag x = kNew
  end -> step_ok l o l'.
Proof.
  intros Hinv Hch Hd Hkeep Hr. pose proof Hinv as [Hs Hi]. split_and!.
  - eapply changed_inv; [done..|]. intros o' ->. apply Hr.
  - eapply changed_effect; [done..|]. destruct r as [o'|].
    + destruct Hr as (_ & ? & ? & ? & _). now split_and!.
    + destruct Hr as (Hf & x & Hx & Hn). split; [done|]. destruct (Hi _ _ Hx) as (_ & _ & Hk & _ & Hnew).
      destruct (Hnew Hn) as [Hb|Hb]; [|now right]. intros k' [->|Hsub]; left; [done|].
      eapply Hclosed; [rewrite Hk; eauto|exact Hsub|exact Hb].
  - intros k x Hx. rewrite (proj2 Hch) in Hx. destruct (decide (k = encode o)) as [->|].
    + right. subst r. split; [done|]. apply Hr.
    + left. destruct (del && is_sub (encode o) k); [done|exact Hx].
Qed.

(** An operation on an entry that has none yet. *)
Lemma add_new l o :
  inv l -> legal (merged l b) o -> ckp < op_ts o -> key_type (encode o) = Some (op_type o) ->
  afind (encode o) l = None ->
  exists l', (let? prune_flag := CatalogDeltaOperation.ToPrune None (DeltaOp.flag o) in
              let l := oinsert (encode o) o l in
              Ok (if decide (prune_flag = kPruneSub) then PruneOpWithSamePrefix (encode o) l else l)) = Ok l' /\
    step_ok l o l'.
Proof.
  intros Hinv [_ Hlegal] Hts Hkt Hnone. pose proof Hinv as [Hs _]. unfold merged in Hlegal. rewrite Hnone in Hlegal.
  destruct (DeltaOp.flag o) eqn:Hf; try done; cbn [CatalogDeltaOperation.ToPrune res_bind];
    (eexists; split; [reflexivity|]); cbv zeta; cbn [decide]; rewrite ?decide_True, ?decide_False by done.
  - apply (step_of_changed l o (Some o) true); [done|now apply changed_insert_prune|now rewrite Hf|done|].
    split_and!; auto; [|now rewrite Hf]. split_and!; auto; [rewrite Hf; repeat constructor|congruence].
  - apply (step_of_changed l o (Some o) false); [done|now apply changed_insert|now rewrite Hf|cbn; now rewrite Hnone, Hf|].
    split_and!; auto; [|done]. split_and!; auto; [rewrite Hf; repeat constructor|]. intros _. destruct (hidden l (encode o)); auto.
  - apply (step_of_changed l o (Some o) false); [done|now apply changed_insert|now rewrite Hf|cbn; now rewrite Hnone, Hf|].
    split_and!; auto; [|done]. split_and!; auto; [rewrite Hf; repeat constructor|congruence].
Qed.

(** An operation on an entry that has one: every pair of flags that can meet. *)
Lemma add_found l o x :
  inv l -> legal (merged l b) o -> ckp < op_ts o -> key_type (encode o) = Some (op_type o) ->
  afind (encode o) l = Some x -> filter_compatible x o ->
  exists l', (let? prune_flag := CatalogDeltaOperation.ToPrune (Some (DeltaOp.flag x)) (DeltaOp.flag o) in
              if decide (prune_flag = kPrune) then Ok (PruneOpWithSamePrefix (encode o) (aremove (encode o) l))
              else
                let l := if decide (prune_flag = kPruneSub) then PruneOpWithSamePrefix (encode o) l else l in
                let? op := DeltaOp.Merge x o in
                Ok (aupdate (encode o) (fun _ => op) l)) = Ok l' /\
    step_ok l o l'.
Proof.
  intros Hinv [_ Hlegal] Hts Hkt Hx Hfc. pose proof Hinv as [Hs Hi]. unfold merged in Hlegal. rewrite Hx in Hlegal.
  destruct (Hi _ _ Hx) as (_ & _ & Hkx & Hfx & Hnew). rewrite Hkt in Hkx. injection Hkx as Ht.
  assert (Hmerge : forall f del, CatalogDeltaOperation.NextDeleteFlag (DeltaOp.flag x) (DeltaOp.flag o) = Ok f ->
    deletes (DeltaOp.flag o) = del -> f ∈ [kDelete; kNew; kUpdate; kDeleteAndNew] ->
    (f = kNew -> DeltaOp.flag x = kNew) -> (f = kDelete <-> DeltaOp.flag o = kDelete) ->
    (if del then deletes f = true else deletes f = deletes (DeltaOp.flag x)) ->
    exists o', DeltaOp.Merge x o = Ok o' /\
      step_ok l o (aupdate (encode o) (fun _ => o') (if del then PruneOpWithSamePrefix (encode o) l else l))).
  { intros f del Hn Hd Hk Hf Hdel Hdd. destruct (Merge_spec x o f (eq_sym Ht) Hn Hfc) as (o' & HM & E1 & E2 & E3 & E4 & E5 & E6).
    exists o'. split; [exact HM|]. apply (step_of_changed l o (Some o') del); [done| |done| |].
    - destruct del; [eapply changed_update_prune; eauto|eapply changed_update; eauto].
    - intros ->. cbn. now rewrite Hx, E1.
    - rewrite E1. split_and!; auto; [| |destruct E6; eauto].
      + unfold op_inv. rewrite E1, E2, E3, E4. split_and!; auto.
      + intros ->. done. }
  rewrite !elem_of_cons, elem_of_nil in Hfx.
  destruct (DeltaOp.flag o) eqn:Hfo; try done; destruct (DeltaOp.flag x) eqn:Hfl; try (exfalso; intuition discriminate);
    try (now destruct Hlegal); cbn [CatalogDeltaOperation.ToPrune res_bind]; rewrite ?decide_True, ?decide_False by done.
  - (* a new entry is deleted *)
    eexists. split; [reflexivity|]. apply (step_of_changed l o None true); [done|now apply changed_remove_prune|now rewrite Hfo|done|].
    split; [done|]. now exists x.
  - destruct (Hmerge kDelete true) as (o' & -> & Hst); try done; [repeat constructor|]. eauto.
  - destruct (Hmerge kDelete true) as (o' & -> & Hst); try done; [repeat constructor|]. eauto.
  - destruct (Hmerge kDeleteAndNew false) as (o' & -> & Hst); try done; [repeat constructor|]. eauto.
  - destruct (Hmerge kNew false) as (o' & -> & Hst); try done; [repeat constructor|]. eauto.
  - destruct (Hmerge kUpdate false) as (o' & -> & Hst); try done; [repeat constructor|]. eauto.
  - destruct (Hmerge kDeleteAndNew false) as (o' & -> & Hst); try done; [repeat constructor|]. eauto.
Qed.

(** ** Sequences of operations *)
Lemma CheckDelete_same o :
  encode (DeltaOp.CheckDelete o) = encode o /\ op_ts (DeltaOp.CheckDelete o) = op_ts o /\
  op_type (DeltaOp.CheckDelete o) = op_type o /\ filter_of (DeltaOp.CheckDelete o) = filter_of o.
Proof. destruct o as [? []]; unfold DeltaOp.CheckDelete; cbn; try case_match; now split_and!. Qed.

Definition op_ok (o : DeltaOp) : Prop := ckp < op_ts o /\ key_type (encode o) = Some (op_type o).

(** At most one operation on an entry brings filter data. *)
Fixpoint filter_once (ops : list DeltaOp) : Prop :=
  match ops with
  | [] => True
  | o :: ops => Forall (fun o' => encode o' = encode o -> filter_compatible o o') ops /\ filter_once ops
  end.
Definition filters_fit (l : list (string * DeltaOp)) (ops : list DeltaOp) : Prop :=
  Forall (fun o => forall x, afind (encode o) l = Some x -> filter_compatible x o) ops.

Lemma add_op_step l o0 :
  let o := DeltaOp.CheckDelete o0 in
  inv l -> legal (merged l b) o -> op_ok o0 ->
  (forall x, afind (encode o0) l = Some x -> filter_compatible x o0) ->
  exists l', add_op ckp o0 l = Ok l' /\ step_ok l o l'.
Proof.
  cbv zeta. destruct (CheckDelete_same o0) as (E1 & E2 & E3 & E4). intros Hinv Hlegal [Hts Hkt] Hfc.
  rewrite <- E1, <- E3 in Hkt. rewrite <- E2 in Hts. rewrite <- E1 in Hfc.
  unfold add_op. rewrite (proj2 (String.eqb_neq _ _) (proj1 Hlegal)).
  destruct (afind (encode (DeltaOp.CheckDelete o0)) l) as [x|] eqn:Hx; [|now apply add_new].
  destruct (proj2 Hinv _ _ Hx) as (_ & Hlt & _). rewrite (proj2 (Z.leb_gt _ _) Hlt). apply add_found; try done.
  specialize (Hfc x eq_refl). unfold filter_compatible in *. now rewrite E4.
Qed.

Lemma filters_fit_step l o l' ops :
  step_ok l o l' -> filters_fit l ops -> Forall (fun o' => encode o' = encode o -> filter_compatible o o') ops ->
  filters_fit l' ops.
Proof.
  intros (_ & _ & Hx) Hf Ho. unfold filters_fit in *. rewrite Forall_forall in *. intros o' Hin x Hl'.
  destruct (Hx _ _ Hl') as [Hl|[He Hfx]]; [now apply (Hf o' Hin)|]. unfold filter_compatible in *.
  destruct Hfx as [->|(y & Hy & ->)]; [now apply (Ho o' Hin)|now apply (Hf o' Hin)].
Qed.

Lemma add_ops_spec ops l :
  inv l -> legal_history (merged l b) ops -> Forall op_ok ops -> filter_once ops -> filters_fit l ops ->
  exists l', add_ops ckp ops l = Ok l' /\ inv l' /\ merged l' b ≡ history (merged l b) ops.
Proof.
  revert l. induction ops as [|o ops IH]; intros l Hinv Hleg Hok Hfo Hff; [now exists l|].
  destruct Hleg as [Hl Hleg]. apply Forall_cons in Hok as [Ho Hok]. destruct Hfo as [Hf1 Hfo].
  apply Forall_cons in Hff as [Hff1 Hff].
  destruct (add_op_step l o Hinv Hl Ho Hff1) as (l1 & E1 & Hst). pose proof Hst as (Hinv1 & Heff & _).
  destruct (IH l1) as (l' & E & Hi & He); [done|now rewrite Heff|done|done| |].
  - destruct (CheckDelete_same o) as (Ee & _ & _ & Ef). apply (filters_fit_step l (DeltaOp.CheckDelete o)); [done..|].
    eapply Forall_impl; [exact Hf1|]. unfold filter_compatible. cbn. now rewrite Ee, Ef.
  - exists l'. cbn [add_ops]. rewrite E1. split_and!; try done. rewrite He. unfold history. cbn [foldl].
    fold (history (merged l1 b) ops). fold (history (apply (merged l b) (DeltaOp.CheckDelete o)) ops). now rewrite Heff.
Qed.

(** Applying the merged operations from the top of the catalog to the bottom. *)
Definition keyed (ops : list DeltaOp) : list (string * DeltaOp) := (fun o => (encode o, o)) <$> ops.

Lemma afind_app {V : Type} (k : string) (l l' : list (string * V)) :
  afind k (l ++ l') = match afind k l with Some v => Some v | None => afind k l' end.
Proof. induction l as [|[k0 v] l IH]; cbn; [done|]. now case_decide. Qed.

Lemma replay_merged ops :
  NoDup (encode <$> ops) ->
  (forall l1 o l2, ops = l1 ++ o :: l2 -> Forall (fun o1 => is_sub (encode o) (encode o1) = false) l1) ->
  foldl apply b ops ≡ merged (keyed ops) b.
Proof.
  induction ops as [|o ops IH] using rev_ind; intros Hd Hord; [done|].
  rewrite foldl_app. cbn [foldl]. rewrite fmap_app in Hd. apply NoDup_app in Hd as (Hd & Hn & _).
  rewrite IH; [|done|intros l1 o1 l2 ->; apply (Hord l1 o1 (l2 ++ [o])); now rewrite <- app_assoc].
  intros k. specialize (Hord ops o [] eq_refl). unfold merged, apply, keyed, hidden. rewrite fmap_app, afind_app, existsb_app.
  fold (keyed ops). cbn [fmap list_fmap afind existsb fst snd]. rewrite orb_false_r.
  assert (Hno : afind (encode o) (keyed ops) = None).
  { apply afind_None. unfold keyed. rewrite <- list_fmap_compose. intros Hin. apply (Hn (encode o)); [exact Hin|left]. }
  destruct (decide (k = encode o)) as [->|Hne]; [now rewrite Hno|].
  destruct (afind k (keyed ops)) as [x|] eqn:Hk.
  - replace (is_sub (encode o) k) with false; [now rewrite andb_false_r|]. symmetry.
    apply afind_Some_elem, list_elem_of_fmap in Hk as (o1 & [= -> ->] & Hin). rewrite Forall_forall in Hord. now apply Hord.
  - now destruct (deletes (DeltaOp.flag o) && is_sub (encode o) k), (existsb _ (keyed ops)).
Qed.

Lemma merged_perm l l' : NoDup l.*1 -> l ≡ₚ l' -> merged l b ≡ merged l' b.
Proof.
  intros Hd Hp k. assert (Hd' : NoDup l'.*1) by now rewrite <- Hp.
  assert (Hf : afind k l = afind k l').
  { destruct (afind k l) as [x|] eqn:E.
    - symmetry. apply afind_elem; [done|]. rewrite <- Hp. now apply afind_Some_elem.
    - symmetry. apply afind_None. apply afind_None in E. now rewrite <- Hp. }
  assert (Hh : hidden l k = hidden l' k).
  { unfold hidden. apply eq_true_iff_eq. rewrite !existsb_exists. setoid_rewrite <- list_elem_of_In. now setoid_rewrite Hp. }
  unfold merged. now rewrite Hf, Hh.
Qed.

Lemma keyed_inv l : inv l -> keyed l.*2 = l.
Proof.
  intros [Hs Hi]. assert (H : Forall (fun x => encode x.2 = x.1) l).
  { apply Forall_forall. intros [k o] Hin. apply (Hi k o). apply afind_elem; [now apply sorted_NoDup|done]. }
  clear -H. induction H as [|[k o] l Hx Hl IH]; cbn; [done|]. unfold keyed in IH. cbn in Hx. now rewrite IH, Hx.
Qed.

Context (Horder : forall k k' t t', key_type k = Some t -> key_type k' = Some t' -> is_sub k k' = true -> t < t').

Lemma flush_replay l ops :
  inv l -> ops ≡ₚ l.*2 -> StronglySorted (fun o o' => op_type o <= op_type o') ops -> foldl apply b ops ≡ merged l b.
Proof.
  intros Hinv Hp Hst. pose proof Hinv as [Hs Hi].
  assert (Hpk : keyed ops ≡ₚ l) by (unfold keyed; rewrite Hp; fold (keyed l.*2); now rewrite keyed_inv).
  assert (Hd : NoDup (keyed ops).*1) by (rewrite Hpk; now apply sorted_NoDup).
  assert (Hkt : Forall (fun o => key_type (encode o) = Some (op_type o)) ops).
  { apply Forall_forall. intros o Hin. assert (Hk : (encode o, o) ∈ l) by (rewrite <- Hpk; apply list_elem_of_fmap; eauto).
    apply (Hi (encode o) o). apply afind_elem; [now apply sorted_NoDup|done]. }
  rewrite replay_merged; [now apply merged_perm| |].
  - unfold keyed in Hd. now rewrite <- list_fmap_compose in Hd.
  - intros l1 o l2 ->. apply Forall_forall. intros o1 Hin. apply not_true_is_false. intros Hsub.
    apply Forall_app in Hkt as [Hk1 Hk2]. apply Forall_cons in Hk2 as [Hko _]. rewrite Forall_forall in Hk1.
    pose proof (Horder _ _ _ _ Hko (Hk1 _ Hin) Hsub). pose proof (StronglySorted_app_1_elem_of _ _ _ _ _ Hst Hin (list_elem_of_here o l2)) as Hle. cbn in Hle. lia.
Qed.
End invariant.
End merging.

Section flushing.
Import GlobalDelta Effect.

(** The operations of delta entries over a base catalog: entries are created, updated and
    deleted as they exist, keys name entries of one kind, children are of a later kind than
    their parents and exist only below them, and filter data comes once. *)
Record history_ok (key_type : string -> option Z) (b : catalog) (ckp : Z) (entries : list CatalogDeltaEntry) : Prop := {
  key_order : forall k k' t t', key_type k = Some t -> key_type k' = Some t' -> is_sub k k' = true -> t < t';
  base_closed : forall k k', is_Some (key_type k) -> is_sub k k' = true -> b k = None -> b k' = None;
  entries_committed : Forall (fun e => max_commit_ts_ e <> UNCOMMIT_TS) entries;
  ops_ok : Forall (op_ok key_type ckp) (concat (operations_ <$> entries));
  ops_filters : filter_once (concat (operations_ <$> entries));
  ops_legal : legal_history b (concat (operations_ <$> entries));
}.

Lemma add_ops_app ckp ops ops' l :
  add_ops ckp (ops ++ ops') l = let? l := add_ops ckp ops l in add_ops ckp ops' l.
Proof. revert l. induction ops as [|o ops IH]; intros l; cbn; [done|]. destruct (add_op ckp o l); cbn; auto. Qed.

Lemma inner_all_ops entries s l' :
  Forall (fun e => max_commit_ts_ e <> UNCOMMIT_TS) entries ->
  add_ops (last_full_ckp_ts_ s) (concat (operations_ <$> entries)) (delta_ops_ s) = Ok l' ->
  exists s', inner_all entries s = Ok s' /\ delta_ops_ s' = l'.
Proof.
  intros Hc. revert s. induction Hc as [|e entries He Hes IH]; intros s; cbn.
  - intros [= <-]. eauto.
  - rewrite add_ops_app. intros H. res_inv. unfold AddDeltaEntryInner. rewrite (proj2 (Z.eqb_neq _ _) He), H0. cbn.
    apply IH. exact H.
Qed.

(** C1. Merging and flushing lose nothing: let delta entries [last + 1], ..., [last + n]
    arrive in any order. They are all accepted, and the operations the next checkpoint
    picks, applied in their order to the base catalog, give the catalog that applying every
    single operation in commit order gives; the global delta is empty afterwards. *)
Theorem delta_flush_has_effect_of_history (key_type : string -> option Z) (b : catalog)
    (sort : list DeltaOp -> list DeltaOp) (entries arrivals : list CatalogDeltaEntry) (last ts ckp : Z) :
  (forall l, sort l ≡ₚ l) -> (forall l, StronglySorted (fun o o' => op_type o <= op_type o') (sort l)) ->
  0 <= last -> last + Z.of_nat (length entries) < 2 ^ 64 -> consecutive (last + 1) entries -> arrivals ≡ₚ entries ->
  history_ok key_type b ckp entries ->
  exists g, add_all arrivals (mkGlobal last [] ∅ (mkDeltaState [] ∅ ts ckp)) = Ok g /\
    (forall k, foldl apply b (operations_ (PickFlushEntry sort (delta_state_ g)).1) k =
               history b (concat (operations_ <$> entries)) k) /\
    delta_ops_ (PickFlushEntry sort (delta_state_ g)).2 = [] /\ sequence_heap_ g = [].
Proof.
  intros Hp Hst H0 Hlen Hc Ha [Ho Hcl Hcm Hok Hfo Hleg].
  destruct (add_ops_spec key_type b ckp Hcl (concat (operations_ <$> entries)) []) as (l' & E & Hinv & Heff); try done.
  { apply Forall_forall. done. }
  destruct (inner_all_ops entries (mkDeltaState [] ∅ ts ckp) l' Hcm E) as (s' & Ei & <-).
  exists (holding (last + Z.of_nat (length entries)) s' []). split_and!; try done.
  - pose proof (add_all_spec arrivals last (mkDeltaState [] ∅ ts ckp) [] entries H0 Hlen I Hc) as Hadd.
    rewrite app_nil_r in Hadd. specialize (Hadd Ha). rewrite Ei in Hadd. exact Hadd.
  - intros k. cbn. etransitivity; [|apply Heff].
    apply (flush_replay key_type b ckp Ho (delta_ops_ s')); [done|apply Hp|apply Hst].
Qed.

(** ** Witness *)
Definition type_le (o o' : DeltaOp) : Prop := op_type o <= op_type o'.
#[local] Instance type_le_dec : RelDecision type_le.
Proof. intros o o'. unfold type_le. apply _. Defined.
#[local] Instance type_le_total : Total type_le.
Proof. intros o o'. unfold type_le. lia. Qed.
#[local] Instance type_le_trans : Transitive type_le.
Proof. intros o o' o''. unfold type_le. lia. Qed.

(** The kind of an entry by the number of [#] in its key: 1 for a database, 2 for a table. *)
Fixpoint depth (k : string) : Z :=
  match k with EmptyString => 0 | String c k => (if Ascii.eqb c "#" then 1 else 0) + depth k end.

Lemma depth_nonneg k : 0 <= depth k.
Proof. induction k as [|c k IH]; cbn; [lia|]. destruct (Ascii.eqb c "#"); lia. Qed.

Lemma depth_sub k k' : is_sub k k' = true -> depth k < depth k'.
Proof.
  revert k'. induction k as [|c k IH]; intros [|d k']; cbn; try done.
  - intros ->. pose proof (depth_nonneg k'). lia.
  - rewrite andb_true_iff, Ascii.eqb_eq. intros [-> H]. specialize (IH _ H). lia.
Qed.

Definition demo_op (k : string) (f : MergeFlag) (m : DeltaMembers) (ts : Z) : DeltaOp :=
  mkDeltaOp (mkBase 1 1 ts f k AddrSerializer.AddrSerializer.empty 0) m.
Definition demo_db : DeltaMembers := AddDBEntry (AddDBEntryOp.mk "d" "").
Definition demo_tbl (rows : Z) : DeltaMembers := AddTableEntry (AddTableEntryOp.mk "t" [] rows 0 0 0 "").
Definition demo_base_catalog : catalog := fun k => if decide (k = "#a"%string) then Some demo_db else None.
Definition demo_history : list CatalogDeltaEntry :=
  [mkDeltaEntry [1] 5 1 [demo_op "#a#t" kNew (demo_tbl 1) 5; demo_op "#b" kNew demo_db 5];
   mkDeltaEntry [2] 6 2 [demo_op "#a#t" kUpdate (demo_tbl 2) 6; demo_op "#b#u" kNew (demo_tbl 1) 6];
   mkDeltaEntry [3] 7 3 [demo_op "#b" kDelete demo_db 7; demo_op "#a" kDelete demo_db 7; demo_op "#a" kNew demo_db 7]].

Definition demo_key_type (k : string) : option Z := match k with EmptyString => None | _ => Some (depth k) end.

Lemma demo_history_ok : history_ok demo_key_type demo_base_catalog 0 demo_history.
Proof.
  split.
  - intros [|c k] [|c' k'] t t' [=] [=]; subst. apply depth_sub.
  - intros k k' [? Hkt] Hs Hk. unfold demo_base_catalog in *. destruct (decide (k' = _)) as [->|]; [|done].
    apply is_sub_spec in Hs as [r Hs]. destruct k as [|c [|c' [|c'' k]]]; discriminate.
  - repeat constructor; done.
  - repeat constructor.
  - cbn. repeat constructor; intros; now left.
  - cbn. unfold legal. cbn. repeat split; try done; vm_compute; eauto.
Qed.

Lemma delta_flush_has_effect_of_history_witness :
  exists g, add_all (rev demo_history) (mkGlobal 0 [] ∅ (mkDeltaState [] ∅ 0 0)) = Ok g /\
    (forall k, foldl apply demo_base_catalog (operations_ (PickFlushEntry (merge_sort type_le) (delta_state_ g)).1) k =
               history demo_base_catalog (concat (operations_ <$> demo_history)) k).
Proof.
  destruct (delta_flush_has_effect_of_history demo_key_type demo_base_catalog (merge_sort type_le)
    demo_history (rev demo_history) 0 0 0) as (g & H1 & H2 & _).
  - intros l. apply merge_sort_Permutation.
  - intros l. apply (StronglySorted_merge_sort type_le).
  - lia.
  - cbn. lia.
  - cbn. lia.
  - symmetry. apply Permutation_rev.
  - exact demo_history_ok.
  - exists g. exact (conj H1 H2).
Defined.

(** The transition of an update followed by a deletion and re-creation (a flag that
    only a delta file brings) is a creation: after [kUpdate] and [kDeleteAndNew] on a table,
    the merged operations leave an entry of the base catalog below the table alive, which
    the two operations remove. *)
Theorem recreate_after_update_keeps_children :
  exists (b : catalog) (o1 o2 : DeltaOp) (l : list (string * DeltaOp)) (k : string),
    DeltaOp.flag o1 = kUpdate /\ DeltaOp.flag o2 = kDeleteAndNew /\ add_ops 0 [o1; o2] [] = Ok l /\
    is_sub (encode o2) k = true /\ is_Some (merged l b k) /\ history b [o1; o2] k = None.
Proof.
  exists (fun _ => Some demo_db), (demo_op "#a#t" kUpdate (demo_tbl 1) 5), (demo_op "#a#t" kDeleteAndNew (demo_tbl 2) 6).
  eexists _, "#a#t#i"%string. split_and!; [done|done|vm_compute; reflexivity|done|vm_compute; eauto|done].
Qed.
End flushing.
