(* ===== verification/FileWorker.v ===== *)
(** * File workers: [src/src/storage/buffer/file_worker]

    A file worker owns the in-memory form of one file: it allocates and frees it, writes it to
    the spill directory or to the data directory, reads it back and maps it. [FileWorker] is an
    abstract class; what a derived class adds is the class [FileWorkerImpl], with the laws
    [FileWorkerLaws] that the buffer manager relies on. [DataFileWorker] is an instance.

    The local file system is a finite map from paths to bytes ([fs]); directories and the
    failures of the operating system are left out. The workers run without a persistence
    manager ([persistence_manager_ == nullptr]). *)
From S2P Require Import Prelude Serialize.

Abbreviation fs := (gmap string bytes).

(** ** Files: [storage/io/virtual_store.cpp], [storage/io/local_file_handle.cpp] *)
Module VirtualStore.
Definition is_absolute (path : string) : bool := String.prefix "/" path.

Definition Exists (path : string) (files : fs) : bool := bool_decide (is_Some (files !! path)).

Definition DeleteFile (file_name : string) (files : fs) : res fs :=
  check? is_absolute file_name else Unrecoverable in Ok (delete file_name files).

Definition Rename (old_path new_path : string) (files : fs) : res fs :=
  check? is_absolute old_path else Unrecoverable in
  check? is_absolute new_path else Unrecoverable in
  match files !! old_path with
  | None => Err Unrecoverable
  | Some content => Ok (<[new_path := content]> (delete old_path files))
  end.

(** [Open] with [kWrite] creates the file but does not truncate it, and a new handle stands at
    its start: what is appended through the handle replaces the first bytes. *)
Definition write_from_start (path : string) (appended : bytes) (files : fs) : fs :=
  <[path := appended ++ drop (length appended) (default [] (files !! path))]> files.

(** [GetFileSize] throws when the file is missing; an empty file cannot be mapped. *)
Definition MmapFile (file_path : string) (files : fs) : res bytes :=
  check? is_absolute file_path else Unrecoverable in
  match files !! file_path with
  | None | Some [] => Err Unrecoverable
  | Some content => Ok content
  end.

(** [LocalFileHandle::Read]: as many of the [nbytes] as the file still has. *)
Definition Read (nbytes : Z) (rest : bytes) : bytes * bytes :=
  (take (Z.to_nat nbytes) rest, drop (Z.to_nat nbytes) rest).
End VirtualStore.

(** ** The virtual methods of a worker

    [W] holds the members of the derived class and [D] is what [data_] points to. The reader
    gets the bytes of the file, the writer returns the bytes it appends and whether all data
    was saved. *)
Class FileWorkerImpl (W D : Type) := {
  GetMemoryCost : W -> Z;
  NewData : W -> res D;
  WriteToFileImpl : bool -> W -> D -> res (bool * bytes);
  ReadFromFileImpl : W -> bytes -> res D;
  ReadFromMmapImpl : W -> bytes -> res D;
}.

(** What a worker promises: its data has an image on disk, of a size that only depends on the
    worker, from which both readers get the data back. *)
Class FileWorkerLaws (W D : Type) {I : FileWorkerImpl W D} := {
  worker_ok : W -> Prop;
  data_ok : W -> D -> Prop;
  image : W -> D -> bytes;
  image_size : W -> nat;
  cost_range (w : W) : worker_ok w -> unsigned_range 64 (GetMemoryCost w);
  image_pos (w : W) : worker_ok w -> (0 < image_size w)%nat;
  image_length (w : W) (d : D) : worker_ok w -> data_ok w d -> length (image w d) = image_size w;
  new_data_ok (w : W) : worker_ok w -> exists d, NewData w = Ok d /\ data_ok w d;
  write_image (to_spill : bool) (w : W) (d : D) :
    worker_ok w -> data_ok w d -> WriteToFileImpl to_spill w d = Ok (true, image w d);
  read_image (w : W) (d : D) : worker_ok w -> data_ok w d -> ReadFromFileImpl w (image w d) = Ok d;
  mmap_image (w : W) (d : D) : worker_ok w -> data_ok w d -> ReadFromMmapImpl w (image w d) = Ok d;
}.

(** ** [FileWorker] *)
Record FileWorker (W D : Type) := mkFileWorker {
  data_dir_ : string;
  temp_dir_ : string;
  file_dir_ : string;
  file_name_ : string;
  derived_ : W;
  data_ : option D;
  mmap_addr_ : option bytes;
  mmap_data_ : option D;
}.
Arguments mkFileWorker {W D} _ _ _ _ _ _ _ _.
Arguments data_dir_ {W D} _.
Arguments temp_dir_ {W D} _.
Arguments file_dir_ {W D} _.
Arguments file_name_ {W D} _.
Arguments derived_ {W D} _.
Arguments data_ {W D} _.
Arguments mmap_addr_ {W D} _.
Arguments mmap_data_ {W D} _.

Definition path_div (a b : string) : string := String.append a (String.append "/" b).

Module FileWorker.
Section worker.
Context {W D : Type} `{FileWorkerImpl W D}.
Implicit Types (w : FileWorker W D) (files : fs).

Definition set_data (d : option D) w : FileWorker W D :=
  mkFileWorker (data_dir_ w) (temp_dir_ w) (file_dir_ w) (file_name_ w) (derived_ w) d
    (mmap_addr_ w) (mmap_data_ w).
Definition set_mmap (a : option bytes) (d : option D) w : FileWorker W D :=
  mkFileWorker (data_dir_ w) (temp_dir_ w) (file_dir_ w) (file_name_ w) (derived_ w) (data_ w) a d.

Definition GetBufferSize w : Z := GetMemoryCost (derived_ w).

Definition ChooseFileDir (spill : bool) w : string :=
  if spill then path_div (temp_dir_ w) (file_dir_ w) else path_div (data_dir_ w) (file_dir_ w).

Definition GetFilePath w : string := path_div (path_div (data_dir_ w) (file_dir_ w)) (file_name_ w).

(** The path all methods compute: the chosen directory, a separator and the name. *)
Definition GetFilePathInner (from_spill : bool) w : string :=
  path_div (ChooseFileDir from_spill w) (file_name_ w).

Definition AllocateInMemory w : res (FileWorker W D) :=
  match data_ w with
  | Some _ => Err Unrecoverable
  | None => let? d := NewData (derived_ w) in Ok (set_data (Some d) w)
  end.

Definition FreeInMemory w : res (FileWorker W D) :=
  match data_ w with
  | None => Err Unrecoverable
  | Some _ => Ok (set_data None w)
  end.

Definition WriteToFile (to_spill : bool) w files : res (bool * fs) :=
  match data_ w with
  | None => Err Unrecoverable
  | Some d =>
      let write_path := GetFilePathInner to_spill w in
      let? (all_save, appended) := WriteToFileImpl to_spill (derived_ w) d in
      Ok (all_save, VirtualStore.write_from_start write_path appended files)
  end.

Definition ReadFromFile (from_spill : bool) w files : res (FileWorker W D) :=
  match files !! GetFilePathInner from_spill w with
  | None => Err Unrecoverable
  | Some content =>
      let? d := ReadFromFileImpl (derived_ w) content in
      Ok (set_data (Some d) w)
  end.

Definition MoveFile w files : res fs :=
  let src_path := GetFilePathInner true w in
  let dest_path := GetFilePathInner false w in
  check? VirtualStore.Exists src_path files else Recoverable in
  VirtualStore.Rename src_path dest_path files.

Definition CleanupFile w files : res fs :=
  let path := GetFilePathInner false w in
  if VirtualStore.Exists path files then VirtualStore.DeleteFile path files else Ok files.

Definition CleanupTempFile w files : res fs :=
  let path := GetFilePathInner true w in
  check? VirtualStore.Exists path files else Unrecoverable in
  VirtualStore.DeleteFile path files.

Definition Munmap w : FileWorker W D :=
  match mmap_addr_ w with
  | None => w
  | Some _ => set_mmap None None w
  end.

Definition Mmap w files : res (FileWorker W D) :=
  let w := match mmap_addr_ w, mmap_data_ w with
           | None, None => w
           | _, _ => Munmap w
           end in
  let read_path := GetFilePathInner false w in
  let? addr := VirtualStore.MmapFile read_path files in
  let? d := ReadFromMmapImpl (derived_ w) addr in
  Ok (set_mmap (Some addr) (Some d) w).

(** What the laws of a worker give for the methods of the base class. *)
Context `{!FileWorkerLaws W D}.

Lemma write_file_image spill w d files :
  worker_ok (derived_ w) -> data_ok (derived_ w) d -> data_ w = Some d ->
  (forall c, files !! GetFilePathInner spill w = Some c -> (length c <= image_size (derived_ w))%nat) ->
  WriteToFile spill w files = Ok (true, <[GetFilePathInner spill w := image (derived_ w) d]> files).
Proof.
  intros Hw Hd Hdata Hs. unfold WriteToFile. rewrite Hdata, write_image by done. cbn.
  unfold VirtualStore.write_from_start. rewrite drop_ge; [now rewrite app_nil_r|].
  rewrite image_length by done. destruct (files !! _) as [c|] eqn:E; cbn; [auto|lia].
Qed.

Lemma read_file_image spill w d files :
  worker_ok (derived_ w) -> data_ok (derived_ w) d ->
  files !! GetFilePathInner spill w = Some (image (derived_ w) d) ->
  ReadFromFile spill w files = Ok (set_data (Some d) w).
Proof. intros Hw Hd E. unfold ReadFromFile. now rewrite E, read_image. Qed.

Lemma mmap_file_image w d files :
  worker_ok (derived_ w) -> data_ok (derived_ w) d -> VirtualStore.is_absolute (GetFilePathInner false w) = true ->
  files !! GetFilePathInner false w = Some (image (derived_ w) d) ->
  Mmap w files = Ok (set_mmap (Some (image (derived_ w) d)) (Some d) w).
Proof.
  intros Hw Hd Ha E. unfold Mmap.
  set (w' := match mmap_addr_ w, mmap_data_ w with None, None => w | _, _ => Munmap w end).
  assert (Hw' : GetFilePathInner false w' = GetFilePathInner false w /\ derived_ w' = derived_ w /\
                set_mmap (Some (image (derived_ w) d)) (Some d) w' = set_mmap (Some (image (derived_ w) d)) (Some d) w).
  { subst w'. unfold Munmap. destruct (mmap_addr_ w), (mmap_data_ w); auto. }
  destruct Hw' as (-> & -> & <-). unfold VirtualStore.MmapFile. rewrite Ha, E.
  pose proof (image_length _ _ Hw Hd) as Hl. pose proof (image_pos _ Hw).
  destruct (image (derived_ w) d) as [|b l] eqn:Ei; [cbn in Hl; lia|]. cbn [res_bind].
  rewrite <- Ei, mmap_image by done. reflexivity.
Qed.
End worker.
End FileWorker.

(** ** [DataFileWorker]

    A header of a magic number and the size, the data, and an unused checksum. *)
Record DataFileWorker := mkDataFileWorker { buffer_size_ : Z }.

Module DataFileWorker.
Definition magic_number : Z := 14496580. (* 0x00dd3344 *)

(** [AllocateInMemory]: zeroed memory. *)
Definition NewData (w : DataFileWorker) : res bytes :=
  check? negb (buffer_size_ w =? 0) else Unrecoverable in
  Ok (replicate (Z.to_nat (buffer_size_ w)) Byte.x00).

Definition WriteToFileImpl (to_spill : bool) (w : DataFileWorker) (d : bytes) : res (bool * bytes) :=
  check? (Z.to_nat (buffer_size_ w) <=? length d)%nat else Undefined in
  Ok (true, le_encode 8 magic_number ++ le_encode 8 (buffer_size_ w) ++
            take (Z.to_nat (buffer_size_ w)) d ++ le_encode 8 0).

Definition ReadFromFileImpl (w : DataFileWorker) (file : bytes) : res bytes :=
  let file_size := Z.of_nat (length file) in
  check? 8 * 3 <=? file_size else Recoverable in
  let (b1, rest) := VirtualStore.Read 8 file in
  check? (length b1 =? 8)%nat else Recoverable in
  check? le_decode b1 =? magic_number else Recoverable in
  let (b2, rest) := VirtualStore.Read 8 rest in
  check? (length b2 =? 8)%nat else Recoverable in
  let buffer_size := le_decode b2 in
  check? file_size =? u64 (buffer_size + 3 * 8) else Recoverable in
  let (data, rest) := VirtualStore.Read buffer_size rest in
  check? Z.of_nat (length data) =? buffer_size else Recoverable in
  let (b4, _) := VirtualStore.Read 8 rest in
  check? (length b4 =? 8)%nat else Recoverable in
  Ok data.

Definition ReadFromMmapImpl (w : DataFileWorker) (file : bytes) : res bytes :=
  let? (magic, ptr) := ReadBufAdv_u 8 file in
  check? magic =? magic_number else Recoverable in
  let? (buffer_size, ptr) := ReadBufAdv_u 8 ptr in
  check? Z.of_nat (length file) =? u64 (buffer_size + 3 * 8) else Recoverable in
  let? (_, _) := ReadBufAdv_u 8 (drop (Z.to_nat buffer_size) ptr) in
  Ok (take (Z.to_nat buffer_size) ptr).

#[global] Instance impl : FileWorkerImpl DataFileWorker bytes := {
  GetMemoryCost := buffer_size_;
  NewData := NewData;
  WriteToFileImpl := WriteToFileImpl;
  ReadFromFileImpl := ReadFromFileImpl;
  ReadFromMmapImpl := ReadFromMmapImpl;
}.

(** The file of a worker; [checksum] is whatever the footer holds. *)
Definition file_of (size : Z) (d checksum : bytes) : bytes :=
  le_encode 8 magic_number ++ le_encode 8 size ++ d ++ checksum.

Definition size_ok (w : DataFileWorker) : Prop := 0 < buffer_size_ w < 2 ^ 63.
Definition full (w : DataFileWorker) (d : bytes) : Prop := length d = Z.to_nat (buffer_size_ w).

Lemma length_file_of size d c : length c = 8%nat -> length (file_of size d c) = (length d + 24)%nat.
Proof. intros Hc. unfold file_of. rewrite !length_app, !length_le_encode. lia. Qed.

Lemma Read_app n b rest : Z.of_nat (length b) = n -> VirtualStore.Read n (b ++ rest) = (b, rest).
Proof.
  intros <-. unfold VirtualStore.Read. rewrite Nat2Z.id, take_app_length, drop_app_length. done.
Qed.

Lemma decode_u64 z : 0 <= z < 2 ^ 64 -> le_decode (le_encode 8 z) = z.
Proof. intros Hz. rewrite le_decode_encode. apply Z.mod_small. exact Hz. Qed.

Lemma split8 (l : bytes) : (8 <= length l)%nat -> exists a b, l = a ++ b /\ length a = 8%nat.
Proof. intros H. exists (take 8 l), (drop 8 l). rewrite take_drop, length_take. split; [done|lia]. Qed.

Lemma u64_size n k : 24 <= n < 2 ^ 64 -> 0 <= k < 2 ^ 64 -> n = u64 (k + 24) -> n = k + 24.
Proof.
  intros Hn Hk E. destruct (Z.lt_ge_cases (k + 24) (2 ^ 64)) as [H|H].
  - rewrite wrap_id in E by (unfold unsigned_range; lia). exact E.
  - assert (u64 (k + 24) = k + 24 - 2 ^ 64); [|lia].
    unfold wrap. symmetry. apply Z.mod_unique with 1; lia.
Qed.

(** A file is accepted exactly when it has the magic number and the size of its data. *)
Lemma read_file_of w size d c :
  0 <= size < 2 ^ 63 -> Z.of_nat (length d) = size -> length c = 8%nat ->
  ReadFromFileImpl w (file_of size d c) = Ok d.
Proof.
  intros Hs Hd Hc. pose proof (length_file_of size d c Hc) as HL. unfold ReadFromFileImpl.
  rewrite HL. unfold file_of. cbn beta zeta.
  rewrite (proj2 (Z.leb_le _ _)) by lia.
  rewrite Read_app by now rewrite length_le_encode.
  rewrite length_le_encode, decode_u64 by (unfold magic_number; lia). rewrite Nat.eqb_refl, Z.eqb_refl.
  rewrite Read_app by now rewrite length_le_encode.
  rewrite length_le_encode, decode_u64 by lia. rewrite Nat.eqb_refl.
  rewrite wrap_id by (unfold unsigned_range; lia).
  rewrite (proj2 (Z.eqb_eq _ _)) by lia.
  rewrite Read_app, Hd, Z.eqb_refl by done.
  rewrite <- (app_nil_r c), Read_app by now rewrite Hc. now rewrite Hc.
Qed.

Lemma read_file_inv w file d :
  Z.of_nat (length file) < 2 ^ 64 -> ReadFromFileImpl w file = Ok d ->
  exists c, file = file_of (Z.of_nat (length d)) d c /\ length c = 8%nat.
Proof.
  intros Hl. unfold ReadFromFileImpl.
  destruct (Z.leb_spec (8 * 3) (Z.of_nat (length file))) as [H24|]; [|discriminate].
  destruct (split8 file ltac:(lia)) as (b1 & r1 & -> & L1). rewrite length_app in *.
  rewrite Read_app by lia. cbv beta iota zeta. rewrite L1, Nat.eqb_refl.
  destruct (Z.eqb_spec (le_decode b1) magic_number) as [M|]; [|discriminate].
  destruct (split8 r1 ltac:(lia)) as (b2 & r2 & -> & L2). rewrite length_app in *.
  rewrite Read_app by lia. cbv beta iota zeta. rewrite L2, Nat.eqb_refl.
  destruct (Z.eqb_spec (Z.of_nat (8 + (8 + length r2))) (u64 (le_decode b2 + 3 * 8))) as [E|]; [|discriminate].
  pose proof (le_decode_range b1) as Hr1. rewrite L1 in Hr1. change (8 * Z.of_nat 8) with 64 in Hr1.
  pose proof (le_decode_range b2) as Hr. rewrite L2 in Hr. change (8 * Z.of_nat 8) with 64 in Hr.
  apply u64_size in E; [|lia..]. unfold VirtualStore.Read.
  destruct (Z.eqb_spec (Z.of_nat (length (take (Z.to_nat (le_decode b2)) r2))) (le_decode b2)) as [Ed|]; [|discriminate].
  destruct (Nat.eqb_spec (length (take (Z.to_nat 8) (drop (Z.to_nat (le_decode b2)) r2))) 8) as [_|]; [|discriminate].
  intros [= <-]. exists (drop (Z.to_nat (le_decode b2)) r2). rewrite length_drop. split; [|lia].
  unfold file_of. rewrite Ed, take_drop, <- M.
  f_equal; [|f_equal]; apply le_decode_inj; rewrite ?length_le_encode, ?decode_u64; auto; lia.
Qed.

Lemma mmap_file_of w size d c :
  0 <= size < 2 ^ 63 -> Z.of_nat (length d) = size -> length c = 8%nat ->
  ReadFromMmapImpl w (file_of size d c) = Ok d.
Proof.
  intros Hs Hd Hc. pose proof (length_file_of size d c Hc) as HL. unfold ReadFromMmapImpl.
  rewrite HL. unfold file_of. rewrite ReadBufAdv_u_app by apply length_le_encode. cbn [res_bind].
  rewrite decode_u64, Z.eqb_refl by (unfold magic_number; lia).
  rewrite ReadBufAdv_u_app by apply length_le_encode. cbn [res_bind].
  rewrite decode_u64 by lia. rewrite wrap_id by (unfold unsigned_range; lia).
  rewrite (proj2 (Z.eqb_eq _ _)) by lia.
  rewrite <- Hd, Nat2Z.id, drop_app_length, take_app_length, <- (app_nil_r c).
  now rewrite ReadBufAdv_u_app by done.
Qed.

#[global] Instance laws : FileWorkerLaws DataFileWorker bytes.
Proof.
  refine {| worker_ok := size_ok; data_ok := full;
            image := fun w d => file_of (buffer_size_ w) d (le_encode 8 0);
            image_size := fun w => (Z.to_nat (buffer_size_ w) + 24)%nat |}.
  - unfold size_ok, unsigned_range. cbn. lia.
  - lia.
  - intros w d _ Hd. rewrite length_file_of, Hd by apply length_le_encode. done.
  - intros w Hw. cbn. unfold NewData. rewrite (proj2 (Z.eqb_neq _ _)) by (unfold size_ok in Hw; lia).
    eexists. split; [done|]. apply length_replicate.
  - intros sp w d _ Hd. cbn. unfold WriteToFileImpl, full in *. rewrite Hd, Nat.leb_refl.
    now rewrite take_ge by lia.
  - intros w d Hw Hd. apply read_file_of; unfold size_ok, full in *; rewrite ?length_le_encode; lia.
  - intros w d Hw Hd. apply mmap_file_of; unfold size_ok, full in *; rewrite ?length_le_encode; lia.
Defined.

(** The reader of data files accepts a file exactly when it consists of the magic number,
    the size of its data as a 64-bit integer, the data and eight more bytes, and then returns
    the data; the last eight bytes, which the format calls the checksum, are never compared. *)
Theorem data_file_accepted_iff (w : DataFileWorker) (file d : bytes) :
  Z.of_nat (length file) < 2 ^ 63 ->
  ReadFromFileImpl w file = Ok d <->
  exists checksum, length checksum = 8%nat /\
    file = le_encode 8 magic_number ++ le_encode 8 (Z.of_nat (length d)) ++ d ++ checksum.
Proof.
  intros Hl. split.
  - intros E. apply read_file_inv in E as (c & -> & Hc); [|lia]. now exists c.
  - intros (c & Hc & ->). apply read_file_of; [|done..].
    pose proof (length_file_of (Z.of_nat (length d)) d c Hc) as HL. unfold file_of in HL. lia.
Qed.

Lemma data_file_accepted_iff_witness :
  ReadFromFileImpl (mkDataFileWorker 2)
    (le_encode 8 magic_number ++ le_encode 8 2 ++ [Byte.x61; Byte.x62] ++ le_encode 8 7) =
  Ok [Byte.x61; Byte.x62].
Proof.
  apply data_file_accepted_iff; [vm_compute; reflexivity|].
  exists (le_encode 8 7). split; reflexivity.
Defined.
End DataFileWorker.
