(* ===== verification/BufferManager.v ===== *)
(** * The buffer manager: [src/src/storage/buffer]

    [buffer_obj.cpp], [buffer_manager.cpp] and [buffer_handle.cpp]. A buffer object owns a file
    worker and moves between memory, the spill directory and the data directory; the manager
    counts the memory in use and, when it is short, frees objects that nobody uses in the order
    of their queues. The objects live in a heap ([objs_]) and refer to each other by pointer,
    as do the queues, the clean list and the sets of temporary files.

    A method is one step. [Free] is the only method that does not wait for the lock of an
    object: the set [locked] holds the objects whose lock is taken when it tries, by other
    threads or by the caller further up. *)
From S2P Require Import Prelude Serialize FileWorker.

Abbreviation ptr := positive.

Inductive BufferStatus := kLoaded | kUnloaded | kFreed | kClean | kNew.
Inductive BufferType := kPersistent | kEphemeral | kTemp | kToMmap | kMmap.

#[export] Instance BufferStatus_eq_dec : EqDecision BufferStatus.
Proof. solve_decision. Defined.
#[export] Instance BufferType_eq_dec : EqDecision BufferType.
Proof. solve_decision. Defined.

Record BufferObj (W D : Type) := mkBufferObj {
  status_ : BufferStatus;
  type_ : BufferType;
  rc_ : Z;
  file_worker_ : FileWorker W D;
  id_ : Z;
  obj_rc_ : Z;
}.
Arguments mkBufferObj {W D} _ _ _ _ _ _.
Arguments status_ {W D} _.
Arguments type_ {W D} _.
Arguments rc_ {W D} _.
Arguments file_worker_ {W D} _.
Arguments id_ {W D} _.
Arguments obj_rc_ {W D} _.

(** The manager with the heap of its objects and the file system. An LRU cache is its
    [gc_list_]; its [gc_map_] maps each element of the list to its node. *)
Record BufferManager (W D : Type) := mkBufferManager {
  memory_limit_ : Z;
  current_memory_size_ : Z;
  buffer_map_ : gmap string ptr;
  buffer_id_ : Z;
  lru_caches_ : list (list ptr);
  round_robin_ : nat;
  clean_list_ : list ptr;
  temp_set_ : gset ptr;
  clean_temp_set_ : gset ptr;
  total_request_count_ : Z;
  cache_miss_count_ : Z;
  objs_ : gmap ptr (BufferObj W D);
  files_ : fs;
}.
Arguments mkBufferManager {W D} _ _ _ _ _ _ _ _ _ _ _ _ _.
Arguments memory_limit_ {W D} _.
Arguments current_memory_size_ {W D} _.
Arguments buffer_map_ {W D} _.
Arguments buffer_id_ {W D} _.
Arguments lru_caches_ {W D} _.
Arguments round_robin_ {W D} _.
Arguments clean_list_ {W D} _.
Arguments temp_set_ {W D} _.
Arguments clean_temp_set_ {W D} _.
Arguments total_request_count_ {W D} _.
Arguments cache_miss_count_ {W D} _.
Arguments objs_ {W D} _.
Arguments files_ {W D} _.

Section setters.
Context {W D : Type}.
Implicit Types (o : BufferObj W D) (m : BufferManager W D).

Definition set_status (s : BufferStatus) o : BufferObj W D :=
  mkBufferObj s (type_ o) (rc_ o) (file_worker_ o) (id_ o) (obj_rc_ o).
Definition set_type (t : BufferType) o : BufferObj W D :=
  mkBufferObj (status_ o) t (rc_ o) (file_worker_ o) (id_ o) (obj_rc_ o).
Definition set_rc (n : Z) o : BufferObj W D :=
  mkBufferObj (status_ o) (type_ o) n (file_worker_ o) (id_ o) (obj_rc_ o).
Definition set_worker (w : FileWorker W D) o : BufferObj W D :=
  mkBufferObj (status_ o) (type_ o) (rc_ o) w (id_ o) (obj_rc_ o).
Definition set_obj_rc (n : Z) o : BufferObj W D :=
  mkBufferObj (status_ o) (type_ o) (rc_ o) (file_worker_ o) (id_ o) n.

Definition set_memory (n : Z) m : BufferManager W D :=
  mkBufferManager (memory_limit_ m) n (buffer_map_ m) (buffer_id_ m) (lru_caches_ m) (round_robin_ m)
    (clean_list_ m) (temp_set_ m) (clean_temp_set_ m) (total_request_count_ m) (cache_miss_count_ m)
    (objs_ m) (files_ m).
Definition set_map (b : gmap string ptr) (n : Z) m : BufferManager W D :=
  mkBufferManager (memory_limit_ m) (current_memory_size_ m) b n (lru_caches_ m) (round_robin_ m)
    (clean_list_ m) (temp_set_ m) (clean_temp_set_ m) (total_request_count_ m) (cache_miss_count_ m)
    (objs_ m) (files_ m).
Definition set_lru (l : list (list ptr)) (rr : nat) m : BufferManager W D :=
  mkBufferManager (memory_limit_ m) (current_memory_size_ m) (buffer_map_ m) (buffer_id_ m) l rr
    (clean_list_ m) (temp_set_ m) (clean_temp_set_ m) (total_request_count_ m) (cache_miss_count_ m)
    (objs_ m) (files_ m).
Definition set_clean_list (l : list ptr) m : BufferManager W D :=
  mkBufferManager (memory_limit_ m) (current_memory_size_ m) (buffer_map_ m) (buffer_id_ m) (lru_caches_ m)
    (round_robin_ m) l (temp_set_ m) (clean_temp_set_ m) (total_request_count_ m) (cache_miss_count_ m)
    (objs_ m) (files_ m).
Definition set_temps (t c : gset ptr) m : BufferManager W D :=
  mkBufferManager (memory_limit_ m) (current_memory_size_ m) (buffer_map_ m) (buffer_id_ m) (lru_caches_ m)
    (round_robin_ m) (clean_list_ m) t c (total_request_count_ m) (cache_miss_count_ m) (objs_ m) (files_ m).
Definition set_counts (r c : Z) m : BufferManager W D :=
  mkBufferManager (memory_limit_ m) (current_memory_size_ m) (buffer_map_ m) (buffer_id_ m) (lru_caches_ m)
    (round_robin_ m) (clean_list_ m) (temp_set_ m) (clean_temp_set_ m) r c (objs_ m) (files_ m).
Definition set_objs (h : gmap ptr (BufferObj W D)) m : BufferManager W D :=
  mkBufferManager (memory_limit_ m) (current_memory_size_ m) (buffer_map_ m) (buffer_id_ m) (lru_caches_ m)
    (round_robin_ m) (clean_list_ m) (temp_set_ m) (clean_temp_set_ m) (total_request_count_ m)
    (cache_miss_count_ m) h (files_ m).
Definition set_files (f : fs) m : BufferManager W D :=
  mkBufferManager (memory_limit_ m) (current_memory_size_ m) (buffer_map_ m) (buffer_id_ m) (lru_caches_ m)
    (round_robin_ m) (clean_list_ m) (temp_set_ m) (clean_temp_set_ m) (total_request_count_ m)
    (cache_miss_count_ m) (objs_ m) f.

Definition set_obj (p : ptr) o m : BufferManager W D := set_objs (<[p := o]> (objs_ m)) m.

(** Following a pointer to an object that was destroyed is undefined. *)
Definition deref (p : ptr) m : res (BufferObj W D) :=
  match objs_ m !! p with Some o => Ok o | None => Err Undefined end.
End setters.

(** ** [LRUCache] *)
Module LRUCache.
(** [gc_list_.erase(iter); gc_map_.erase(iter)] for the node of [p]. *)
Definition erase (p : ptr) (l : list ptr) : list ptr := filter (.≠ p) l.

Definition PushGCQueue (p : ptr) (l : list ptr) : list ptr := erase p l ++ [p].

Definition RemoveFromGCQueue (p : ptr) (l : list ptr) : bool * list ptr :=
  if decide (p ∈ l) then (true, erase p l) else (false, l).

Definition RemoveClean (cleans : list ptr) (l : list ptr) : list ptr :=
  foldl (fun l p => erase p l) l cleans.
End LRUCache.

Module BufferManager.
Section manager.
Context {W D : Type} `{FileWorkerImpl W D}.
Implicit Types (o : BufferObj W D) (m : BufferManager W D) (p : ptr) (locked : gset ptr).

(** The constructor. *)
Definition make (memory_limit : Z) (lru_count : nat) (files : fs) : BufferManager W D :=
  mkBufferManager memory_limit 0 ∅ 0 (replicate lru_count []) 0 [] ∅ ∅ 0 0 ∅ files.

Definition GetBufferSize o : Z := FileWorker.GetBufferSize (file_worker_ o).
Definition GetFilename o : string := FileWorker.GetFilePath (file_worker_ o).

Definition AddTemp p m : res (BufferManager W D) :=
  if decide (p ∈ temp_set_ m) then Err Unrecoverable
  else Ok (set_temps ({[p]} ∪ temp_set_ m) (clean_temp_set_ m ∖ {[p]}) m).

Definition RemoveTemp p m : res (BufferManager W D) :=
  if decide (p ∈ temp_set_ m) then
    if decide (p ∈ clean_temp_set_ m) then Err Unrecoverable
    else Ok (set_temps (temp_set_ m ∖ {[p]}) ({[p]} ∪ clean_temp_set_ m) m)
  else Err Unrecoverable.

Definition MoveTemp p m : res (BufferManager W D) :=
  if decide (p ∈ temp_set_ m) then Ok (set_temps (temp_set_ m ∖ {[p]}) (clean_temp_set_ m) m)
  else Err Unrecoverable.

(** [BufferObj::Free]: spill an object that was never written, then drop its memory. *)
Definition Free locked p m : res (bool * BufferManager W D) :=
  if decide (p ∈ locked) then Ok (false, m) else
  let? o := deref p m in
  check? bool_decide (status_ o = kUnloaded) else Unrecoverable in
  let? (o, m) :=
    match type_ o with
    | kTemp | kPersistent => Ok (o, m)
    | kEphemeral =>
        let o := set_type kTemp o in
        let? (all_save, files) := FileWorker.WriteToFile true (file_worker_ o) (files_ m) in
        check? all_save else Unrecoverable in
        let? m := AddTemp p (set_files files m) in
        Ok (o, m)
    | _ => Err Unrecoverable
    end in
  let? w := FileWorker.FreeInMemory (file_worker_ o) in
  Ok (true, set_obj p (set_status kFreed (set_worker w o)) m).

(** [LRUCache::RequestSpace] on the [i]-th cache; [todo] is the part of [gc_list_] from [iter] on. *)
Definition lru_erase (i : nat) p m : BufferManager W D :=
  set_lru (alter (LRUCache.erase p) i (lru_caches_ m)) (round_robin_ m) m.
Fixpoint lru_request locked (need_space : Z) (i : nat) (free_space : Z) (todo : list ptr) m
  : res (Z * BufferManager W D) :=
  match todo with
  | [] => Ok (free_space, m)
  | p :: todo =>
      if free_space <? need_space then
        let? (freed, m) := Free locked p m in
        if freed : bool then
          let? o := deref p m in
          lru_request locked need_space i (u64 (free_space + GetBufferSize o)) todo (lru_erase i p m)
        else lru_request locked need_space i free_space todo m
      else Ok (free_space, m)
  end.

(** The [do ... while] of [RequestSpace]; [n] bounds the rounds, see [request_loop_total]. *)
Fixpoint request_loop (n : nat) locked (need_size free_space freed_space : Z) (round_robin : nat) m
  : res (Z * BufferManager W D) :=
  match n with
  | O => Err Undefined
  | S n =>
      match lru_caches_ m !! round_robin_ m with
      | None => Err Undefined
      | Some l =>
          let? (f, m) := lru_request locked need_size (round_robin_ m) 0 l m in
          let freed_space := u64 (freed_space + f) in
          let rr := ((round_robin_ m + 1) mod length (lru_caches_ m))%nat in
          let m := set_lru (lru_caches_ m) rr m in
          if (u64 (freed_space + free_space) <? need_size) && negb (rr =? round_robin)%nat
          then request_loop n locked need_size free_space freed_space round_robin m
          else Ok (freed_space, m)
      end
  end.

Definition RequestSpace locked (need_size : Z) m : res (bool * BufferManager W D) :=
  let free_space := u64 (memory_limit_ m - current_memory_size_ m) in
  if need_size <=? free_space
  then Ok (true, set_memory (u64 (current_memory_size_ m + need_size)) m)
  else
    let? (freed_space, m) :=
      request_loop (length (lru_caches_ m)) locked need_size free_space 0 (round_robin_ m) m in
    let free_success := need_size <=? u64 (freed_space + free_space) in
    Ok (free_success, set_memory (u64 (current_memory_size_ m + (need_size - freed_space))) m).

Definition LRUIdx o m : res nat :=
  if decide (length (lru_caches_ m) = 0%nat) then Err Undefined
  else Ok (Z.to_nat (id_ o mod Z.of_nat (length (lru_caches_ m)))).

Definition PushGCQueue locked p o m : res (BufferManager W D) :=
  let? idx := LRUIdx o m in
  let m := set_lru (alter (LRUCache.PushGCQueue p) idx (lru_caches_ m)) (round_robin_ m) m in
  if memory_limit_ m <? current_memory_size_ m then
    let need_size := u64 (current_memory_size_ m - memory_limit_ m) in
    let? (_, m) := RequestSpace locked need_size m in Ok m
  else Ok m.

Definition RemoveFromGCQueue p o m : res (bool * BufferManager W D) :=
  let? idx := LRUIdx o m in
  match lru_caches_ m !! idx with
  | None => Err Undefined
  | Some l =>
      let (found, l) := LRUCache.RemoveFromGCQueue p l in
      Ok (found, set_lru (<[idx := l]> (lru_caches_ m)) (round_robin_ m) m)
  end.

Definition FreeUnloadBuffer o m : res (BufferManager W D) :=
  let buffer_size := GetBufferSize o in
  let memory_size := current_memory_size_ m in
  let m := set_memory (u64 (memory_size - buffer_size)) m in
  check? buffer_size <=? memory_size else Unrecoverable in Ok m.

Definition AddToCleanList p o (do_free : bool) m : res (BufferManager W D) :=
  let m := set_clean_list (clean_list_ m ++ [p]) m in
  if do_free then
    let? m := FreeUnloadBuffer o m in
    let? (found, m) := RemoveFromGCQueue p o m in
    check? found else Unrecoverable in Ok m
  else Ok m.
End manager.
End BufferManager.

(** ** [BufferObj] *)
Module BufferObj.
Import BufferManager.
Section obj.
Context {W D : Type} `{FileWorkerImpl W D}.
Implicit Types (o : BufferObj W D) (m : BufferManager W D) (p : ptr) (locked : gset ptr).

(** The constructor. *)
Definition make (is_ephemeral : bool) (file_worker : FileWorker W D) (id : Z) : BufferObj W D :=
  if is_ephemeral then mkBufferObj kNew kEphemeral 0 file_worker id 0
  else mkBufferObj kFreed kPersistent 0 file_worker id 0.

Definition AddRequestCount m : BufferManager W D :=
  set_counts (u64 (total_request_count_ m + 1)) (cache_miss_count_ m) m.
Definition AddCacheMissCount m : BufferManager W D :=
  set_counts (total_request_count_ m) (u64 (cache_miss_count_ m + 1)) m.

(** [Load] for a mapped object. *)
Definition load_mmap p o m : res (option D * BufferManager W D) :=
  let? w :=
    match status_ o with
    | kUnloaded | kLoaded => Ok (file_worker_ o)
    | kFreed | kNew => FileWorker.Mmap (file_worker_ o) (files_ m)
    | kClean => Err Unrecoverable
    end in
  let o := set_rc (u64 (rc_ o + 1)) (set_status kLoaded (set_worker w o)) in
  Ok (mmap_data_ w, set_obj p o m).

(** [Load] for the other types: the worker with its data, and the manager after space was
    requested. *)
Definition load_data locked p o m : res (FileWorker W D * BufferManager W D) :=
  match status_ o with
  | kLoaded => Ok (file_worker_ o, m)
  | kUnloaded =>
      let? (found, m) := RemoveFromGCQueue p o m in
      check? found else Unrecoverable in Ok (file_worker_ o, m)
  | kFreed =>
      let m := AddCacheMissCount m in
      let? (free_success, m) := RequestSpace locked (GetBufferSize o) m in
      check? free_success else Unrecoverable in
      check? negb (bool_decide (type_ o = kEphemeral)) else Unrecoverable in
      let from_spill := negb (bool_decide (type_ o = kPersistent)) in
      let? w := FileWorker.ReadFromFile from_spill (file_worker_ o) (files_ m) in Ok (w, m)
  | kNew =>
      let m := AddCacheMissCount m in
      let? (free_success, m) := RequestSpace locked (GetBufferSize o) m in
      check? free_success else Unrecoverable in
      let? w := FileWorker.AllocateInMemory (file_worker_ o) in Ok (w, m)
  | kClean => Err Unrecoverable
  end.

(** The handle it returns holds the object and the data. *)
Definition Load locked p m : res (option D * BufferManager W D) :=
  let m := AddRequestCount m in
  let? o := deref p m in
  if decide (type_ o = kMmap) then load_mmap p o m
  else
    let? (w, m) := load_data ({[p]} ∪ locked) p o m in
    let o := set_rc (u64 (rc_ o + 1)) (set_status kLoaded (set_worker w o)) in
    Ok (data_ w, set_obj p o m).

Definition Save p m : res (bool * BufferManager W D) :=
  let? o := deref p m in
  match type_ o with
  | kEphemeral =>
      match status_ o with
      | kLoaded | kUnloaded =>
          let? (all_save, files) := FileWorker.WriteToFile false (file_worker_ o) (files_ m) in
          let o := if all_save : bool then set_type kPersistent o else o in
          Ok (true, set_obj p o (set_files files m))
      | kFreed =>
          let? files := FileWorker.MoveFile (file_worker_ o) (files_ m) in
          Ok (false, set_files files m)
      | _ => Err Unrecoverable
      end
  | kTemp =>
      let? m := MoveTemp p m in
      let? files := FileWorker.MoveFile (file_worker_ o) (files_ m) in
      Ok (false, set_obj p (set_type kPersistent o) (set_files files m))
  | kMmap => Err Unrecoverable
  | kPersistent | kToMmap => Ok (false, m)
  end.

Definition PickForCleanup p m : res (BufferManager W D) :=
  let? o := deref p m in
  check? negb (obj_rc_ o =? 0) else Unrecoverable in
  let o := set_obj_rc (u32 (obj_rc_ o - 1)) o in
  if 0 <? obj_rc_ o then Ok (set_obj p o m)
  else if decide (type_ o = kMmap) then
    let o := set_worker (FileWorker.Munmap (file_worker_ o)) o in
    let? m := AddToCleanList p o false m in
    Ok (set_obj p (set_status kClean o) m)
  else
    let? (o, m) :=
      match status_ o with
      | kNew | kFreed => let? m := AddToCleanList p o false m in Ok (o, m)
      | kUnloaded =>
          let? w := FileWorker.FreeInMemory (file_worker_ o) in
          let o := set_worker w o in
          let? m := AddToCleanList p o true m in Ok (o, m)
      | _ => Err Unrecoverable
      end in
    let m := set_obj p (set_status kClean o) m in
    if decide (type_ o = kTemp) then RemoveTemp p m else Ok m.

Definition CleanupFile p m : res (BufferManager W D) :=
  let? o := deref p m in
  check? bool_decide (status_ o = kClean) else Unrecoverable in
  match data_ (file_worker_ o) with
  | Some _ => Err Unrecoverable
  | None => let? files := FileWorker.CleanupFile (file_worker_ o) (files_ m) in Ok (set_files files m)
  end.

Definition CleanupTempFile p m : res (BufferManager W D) :=
  let? o := deref p m in
  if decide (type_ o = kTemp) then Ok m
  else let? files := FileWorker.CleanupTempFile (file_worker_ o) (files_ m) in Ok (set_files files m).

Definition ToMmap p m : res (BufferManager W D) :=
  let? o := deref p m in
  if decide (type_ o = kMmap) then Ok m else
  check? bool_decide (type_ o = kPersistent) else Unrecoverable in
  match status_ o with
  | kLoaded => Ok (set_obj p (set_type kToMmap o) m)
  | kUnloaded =>
      let? (_, m) := RemoveFromGCQueue p o m in
      let? w := FileWorker.FreeInMemory (file_worker_ o) in
      let o := set_worker w o in
      let? m := FreeUnloadBuffer o m in
      Ok (set_obj p (set_type kMmap (set_status kFreed o)) m)
  | kFreed => Ok (set_obj p (set_type kMmap o) m)
  | _ => Err Unrecoverable
  end.

Definition LoadInner p m : res (BufferManager W D) :=
  let? o := deref p m in
  check? bool_decide (status_ o = kLoaded) else Unrecoverable in
  Ok (set_obj p (set_rc (u64 (rc_ o + 1)) o) m).

Definition GetMutPointer locked p m : res (option D * BufferManager W D) :=
  let? o := deref p m in
  let? (w, m) :=
    match type_ o with
    | kTemp => let? m := RemoveTemp p m in Ok (file_worker_ o, m)
    | kMmap =>
        let? (free_success, m) := RequestSpace ({[p]} ∪ locked) (GetBufferSize o) m in
        check? free_success else Unrecoverable in
        let? w := FileWorker.ReadFromFile false (file_worker_ o) (files_ m) in Ok (w, m)
    | _ => Ok (file_worker_ o, m)
    end in
  Ok (data_ w, set_obj p (set_type kEphemeral (set_worker w o)) m).

Definition UnloadInner locked p m : res (BufferManager W D) :=
  let? o := deref p m in
  check? bool_decide (status_ o = kLoaded) else Unrecoverable in
  let o := set_rc (u64 (rc_ o - 1)) o in
  if rc_ o =? 0 then
    match type_ o with
    | kToMmap =>
        let? w := FileWorker.FreeInMemory (file_worker_ o) in
        let o := set_worker w o in
        let? m := FreeUnloadBuffer o m in
        Ok (set_obj p (set_type kMmap (set_status kFreed o)) m)
    | kMmap => Ok (set_obj p (set_status kUnloaded o) m)
    | _ =>
        let? m := PushGCQueue ({[p]} ∪ locked) p o m in
        Ok (set_obj p (set_status kUnloaded o) m)
    end
  else Ok (set_obj p o m).

(** [AddBufferSize]; [is_var_file] is [file_worker_->Type() == FileWorkerType::kVarFile]. A
    failed request is only logged. *)
Definition AddBufferSize locked (is_var_file : bool) (add_size : Z) m : res (bool * BufferManager W D) :=
  check? is_var_file else Unrecoverable in RequestSpace locked add_size m.

Definition AddObjRc p m : res (BufferManager W D) :=
  let? o := deref p m in Ok (set_obj p (set_obj_rc (u32 (obj_rc_ o + 1)) o) m).

Definition SubObjRc p m : res (BufferManager W D) :=
  let? o := deref p m in
  check? negb (obj_rc_ o =? 0) else Unrecoverable in
  let o := set_obj_rc (u32 (obj_rc_ o - 1)) o in
  if obj_rc_ o =? 0 then
    let o := set_status kClean o in
    let? m := AddToCleanList p o false m in Ok (set_obj p o m)
  else Ok (set_obj p o m).

Definition CheckState p m : res unit :=
  let? o := deref p m in
  match status_ o with
  | kLoaded => check? negb (rc_ o =? 0) else Unrecoverable in Ok tt
  | kUnloaded | kFreed | kClean => check? negb (0 <? rc_ o) else Unrecoverable in Ok tt
  | kNew =>
      check? negb (negb (bool_decide (type_ o = kEphemeral)) || (0 <? rc_ o)) else Unrecoverable in Ok tt
  end.
End obj.
End BufferObj.

(** ** Allocation, lookup and removal of objects *)
Module BufferObjects.
Import BufferManager.
Section objects.
Context {W D : Type} `{FileWorkerImpl W D}.
Implicit Types (m : BufferManager W D) (w : FileWorker W D) (p : ptr).

(** [MakeBufferObj]; the address of the new object is one no object has. *)
Definition MakeBufferObj w (is_ephemeral : bool) m : ptr * BufferManager W D :=
  let p := fresh (dom (objs_ m)) in
  (p, set_map (buffer_map_ m) (u32 (buffer_id_ m + 1))
        (set_obj p (BufferObj.make is_ephemeral w (buffer_id_ m)) m)).

Definition AllocateBufferObject w m : res (ptr * BufferManager W D) :=
  let file_path := FileWorker.GetFilePath w in
  let (p, m) := MakeBufferObj w true m in
  match buffer_map_ m !! file_path with
  | Some _ => Err Unrecoverable
  | None => Ok (p, set_map (<[file_path := p]> (buffer_map_ m)) (buffer_id_ m) m)
  end.

Definition GetBufferObject w m : res (ptr * BufferManager W D) :=
  let file_path := FileWorker.GetFilePath w in
  match buffer_map_ m !! file_path with
  | Some p => Ok (p, m)
  | None =>
      let (p, m) := MakeBufferObj w false m in
      Ok (p, set_map (<[file_path := p]> (buffer_map_ m)) (buffer_id_ m) m)
  end.

(** The loops of [RemoveClean]. Erasing from [buffer_map_] destroys the object. *)
Fixpoint cleanup_each (f : ptr -> BufferManager W D -> res (BufferManager W D)) (l : list ptr) m
  : res (BufferManager W D) :=
  match l with
  | [] => Ok m
  | p :: l => let? m := f p m in cleanup_each f l m
  end.
Definition erase_object p m : res (BufferManager W D) :=
  let? o := deref p m in
  match buffer_map_ m !! GetFilename o with
  | None => Err Unrecoverable
  | Some q => Ok (set_objs (delete q (objs_ m))
                    (set_map (delete (GetFilename o) (buffer_map_ m)) (buffer_id_ m) m))
  end.

Definition RemoveClean m : res (BufferManager W D) :=
  let clean_list := clean_list_ m in
  let m := set_clean_list [] m in
  let? m := cleanup_each BufferObj.CleanupFile clean_list m in
  let clean_temp_set := clean_temp_set_ m in
  let m := set_temps (temp_set_ m) ∅ m in
  let? m := cleanup_each BufferObj.CleanupTempFile (elements clean_temp_set) m in
  let m := set_lru (LRUCache.RemoveClean clean_list <$> lru_caches_ m) (round_robin_ m) m in
  cleanup_each erase_object clean_list m.
End objects.
End BufferObjects.

(** ** [BufferHandle]: [storage/buffer/buffer_handle.cpp]

    A handle pins the object it points to. A moved-from handle points to nothing; copying it
    follows a null pointer. *)
Record BufferHandle (D : Type) := mkBufferHandle { buffer_obj_ : option ptr; handle_data_ : option D }.
Arguments mkBufferHandle {D} _ _.
Arguments buffer_obj_ {D} _.
Arguments handle_data_ {D} _.

Module BufferHandle.
Section handle.
Context {W D : Type} `{FileWorkerImpl W D}.
Implicit Types (m : BufferManager W D) (h other : BufferHandle D) (locked : gset ptr).

Definition empty : BufferHandle D := mkBufferHandle None None.

(** The handle [BufferObj::Load] returns. *)
Definition load locked (p : ptr) m : res (BufferHandle D * BufferManager W D) :=
  let? (data, m) := BufferObj.Load locked p m in Ok (mkBufferHandle (Some p) data, m).

(** [if (buffer_obj_) buffer_obj_->UnloadInner()] *)
Definition release locked h m : res (BufferManager W D) :=
  match buffer_obj_ h with
  | Some p => BufferObj.UnloadInner locked p m
  | None => Ok m
  end.
Definition load_inner h m : res (BufferManager W D) :=
  match buffer_obj_ h with
  | Some p => BufferObj.LoadInner p m
  | None => Err Undefined
  end.

Definition copy other m : res (BufferHandle D * BufferManager W D) :=
  let? m := load_inner other m in Ok (mkBufferHandle (buffer_obj_ other) (handle_data_ other), m).

(** [operator=(const BufferHandle &)] and [operator=(BufferHandle &&)]; the second also returns
    the handle that was moved from. *)
Definition assign locked h other m : res (BufferHandle D * BufferManager W D) :=
  let? m := release locked h m in
  let h := mkBufferHandle (buffer_obj_ other) (handle_data_ other) in
  let? m := load_inner h m in Ok (h, m).
Definition move other : BufferHandle D * BufferHandle D :=
  (mkBufferHandle (buffer_obj_ other) (handle_data_ other), empty).
Definition assign_move locked h other m : res (BufferHandle D * BufferHandle D * BufferManager W D) :=
  let? m := release locked h m in
  let (h, other) := move other in Ok (h, other, m).

Definition destroy locked h m : res (BufferHandle D * BufferManager W D) :=
  let? m := release locked h m in Ok (empty, m).

Definition GetDataMut locked h m : res (BufferHandle D * BufferManager W D) :=
  match buffer_obj_ h with
  | None => Err Undefined
  | Some p =>
      let? (data, m) := BufferObj.GetMutPointer locked p m in
      Ok (mkBufferHandle (buffer_obj_ h) data, m)
  end.
End handle.
End BufferHandle.
