(* ===== verification/BufferInvariant.v ===== *)
(** * What the buffer manager keeps true

    The invariant of [BufferManager] ties the status and type of every object to the queues,
    sets and files that mention it, and to the memory in use. It is stated against the
    abstract contents of the objects, a map from pointers to data ([store]): the contents of
    an object are in memory, in its spill file, in its data file or in its mapping, as its
    status and type say. *)
From S2P Require Import Prelude Serialize FileWorker BufferManager.
Import BufferManager.

(** Who refers to a pointer. *)
Record refs := mkRefs { r_queue : list bool; r_temp : bool; r_ctemp : bool; r_clean : bool }.

Definition in_each (p : ptr) (ls : list (list ptr)) : list bool :=
  (fun l => bool_decide (p ∈ l)) <$> ls.
Definition queue_at (n idx : nat) : list bool := <[idx := true]> (replicate n false).

Lemma length_in_each p ls : length (in_each p ls) = length ls.
Proof. apply length_fmap. Qed.

Lemma in_each_alter q i (f : list ptr -> list ptr) ls :
  (forall l, q ∈ f l <-> q ∈ l) -> in_each q (alter f i ls) = in_each q ls.
Proof.
  intros Hf. apply list_eq. intros j. unfold in_each. rewrite !list_lookup_fmap.
  rewrite list_lookup_alter. case_decide as E; [subst j|done].
  destruct (ls !! i); cbn; [|done]. f_equal. apply bool_decide_ext, Hf.
Qed.

Lemma elem_of_erase q p l : q ∈ LRUCache.erase p l <-> q ∈ l /\ q <> p.
Proof. unfold LRUCache.erase. rewrite list_elem_of_filter. tauto. Qed.

Lemma in_each_alter_eq p i (f : list ptr -> list ptr) ls b :
  (i < length ls)%nat -> (forall l, bool_decide (p ∈ f l) = b) ->
  in_each p (alter f i ls) = <[i := b]> (in_each p ls).
Proof.
  intros Hi Hf. apply list_eq. intros j. unfold in_each. rewrite list_lookup_fmap.
  destruct (decide (i = j)) as [->|].
  - rewrite list_lookup_alter_eq, list_lookup_insert_eq by now rewrite length_fmap.
    destruct (lookup_lt_is_Some_2 ls j Hi) as [l ->]. cbn. now rewrite Hf.
  - now rewrite list_lookup_alter_ne, list_lookup_insert_ne, list_lookup_fmap by done.
Qed.

Lemma queue_at_reset n idx : (idx < n)%nat -> <[idx := false]> (queue_at n idx) = replicate n false.
Proof.
  intros Hi. unfold queue_at. rewrite list_insert_insert_eq. apply list_insert_id.
  now apply lookup_replicate_2.
Qed.

(** The directories of a manager: both absolute, and no path lies below both. *)
Class Directories := {
  data_dir : string;
  temp_dir : string;
  dirs_apart (a b : string) : path_div data_dir a <> path_div temp_dir b;
  dirs_absolute (a : string) :
    VirtualStore.is_absolute (path_div data_dir a) = true /\ VirtualStore.is_absolute (path_div temp_dir a) = true;
}.

Section invariant.
Context {W D : Type} `{HI : FileWorkerImpl W D} `{HL : !FileWorkerLaws W D}.
Context `{Dirs : Directories}.
Implicit Types (o : BufferObj W D) (m : BufferManager W D) (p q : ptr) (d : D) (C : gmap ptr D).

Definition worker o : W := derived_ (file_worker_ o).
Definition path (spill : bool) o : string := FileWorker.GetFilePathInner spill (file_worker_ o).

Definition resident o : bool :=
  match status_ o, type_ o with
  | (kLoaded | kUnloaded), kMmap => false
  | (kLoaded | kUnloaded), _ => true
  | _, _ => false
  end.
Definition queued o : bool :=
  match status_ o, type_ o with
  | kUnloaded, kMmap => false
  | kUnloaded, _ => true
  | _, _ => false
  end.
Definition is_temp (t : BufferType) : bool := match t with kTemp => true | _ => false end.
Definition is_ephemeral (t : BufferType) : bool := match t with kEphemeral => true | _ => false end.
Definition idx_of (n : nat) o : nat := Z.to_nat (id_ o mod Z.of_nat n).

(** The statuses an object of each type can have. *)
Definition shape o : bool :=
  match status_ o, type_ o with
  | kLoaded, _ => true
  | kUnloaded, kToMmap => false
  | kUnloaded, _ => true
  | kFreed, (kPersistent | kTemp | kMmap) => true
  | kNew, kEphemeral => true
  | _, _ => false
  end.
Definition saved_type o : bool :=
  match type_ o with kPersistent | kToMmap | kMmap => true | _ => false end.

Definition small_file o (f : option bytes) : Prop :=
  forall c, f = Some c -> (length c <= image_size (worker o))%nat.

(** An object in use with contents [d]; [tf] and [df] are its spill and data file. *)
Record live (n : nat) o (r : refs) (tf df : option bytes) (d : D) : Prop := mkLive {
  li_data_ok : data_ok (worker o) d;
  li_rc : 0 <= rc_ o < 2 ^ 64 /\ (status_ o = kLoaded <-> 0 < rc_ o);
  li_shape : shape o = true;
  li_queue : r_queue r = if queued o then queue_at n (idx_of n o) else replicate n false;
  li_temp : r_temp r = is_temp (type_ o);
  li_ctemp : r_ctemp r = true -> type_ o <> kTemp /\ is_Some tf;
  li_clean : r_clean r = false;
  li_data : data_ (file_worker_ o) = if resident o then Some d else None;
  li_new : status_ o = kNew -> NewData (worker o) = Ok d;
  li_mmap : type_ o = kMmap -> status_ o <> kFreed -> mmap_data_ (file_worker_ o) = Some d;
  li_spill : type_ o = kTemp -> tf = Some (image (worker o) d);
  li_saved : saved_type o = true -> df = Some (image (worker o) d);
  li_small : small_file o tf /\ small_file o df;
}.

(** An object that waits for its removal. *)
Record dead (n : nat) o (r : refs) (tf : option bytes) : Prop := mkDead {
  de_rc : rc_ o = 0 /\ obj_rc_ o = 0;
  de_queue : r_queue r = replicate n false;
  de_temp : r_temp r = false;
  de_ctemp : r_ctemp r = true -> type_ o = kTemp \/ is_Some tf;
  de_clean : r_clean r = true;
  de_data : data_ (file_worker_ o) = None;
}.

Definition refs_of m p : refs :=
  mkRefs (in_each p (lru_caches_ m)) (bool_decide (p ∈ temp_set_ m))
    (bool_decide (p ∈ clean_temp_set_ m)) (bool_decide (p ∈ clean_list_ m)).
Definition no_refs (n : nat) : refs := mkRefs (replicate n false) false false false.

Record home m p o : Prop := mkHome {
  ho_data_dir : data_dir_ (file_worker_ o) = data_dir;
  ho_temp_dir : temp_dir_ (file_worker_ o) = temp_dir;
  ho_ok : worker_ok (worker o);
  ho_map : buffer_map_ m !! GetFilename o = Some p;
}.

Definition pinv m C p : Prop :=
  let n := length (lru_caches_ m) in
  match objs_ m !! p with
  | None => refs_of m p = no_refs n /\ C !! p = None
  | Some o =>
      home m p o /\
      let tf := files_ m !! path true o in
      let df := files_ m !! path false o in
      if decide (status_ o = kClean) then C !! p = None /\ dead n o (refs_of m p) tf
      else exists d, C !! p = Some d /\ live n o (refs_of m p) tf df d
  end.

Record glob m : Prop := mkGlob {
  gl_lru : (0 < length (lru_caches_ m))%nat;
  gl_rr : (round_robin_ m < length (lru_caches_ m))%nat;
  gl_nodup : Forall NoDup (lru_caches_ m) /\ NoDup (clean_list_ m);
  gl_limit : unsigned_range 64 (memory_limit_ m);
  gl_map : forall f p, buffer_map_ m !! f = Some p -> exists o, objs_ m !! p = Some o /\ GetFilename o = f;
}.

Definition inv m C : Prop := glob m /\ forall p, pinv m C p.

(** ** Memory *)
Definition cost o : Z := if data_ (file_worker_ o) then GetBufferSize o else 0.
Definition mem_cost m : Z := map_fold (fun _ o n => cost o + n) 0 (objs_ m).

(** The memory in use is what the objects hold and [slack] more, within the limit. *)
Definition accounted (slack : Z) m : Prop :=
  current_memory_size_ m = mem_cost m + slack /\ current_memory_size_ m <= memory_limit_ m.

Lemma mem_cost_split (h : gmap ptr (BufferObj W D)) p o :
  h !! p = Some o ->
  map_fold (fun _ o n => cost o + n) 0 h = cost o + map_fold (fun _ o n => cost o + n) 0 (delete p h).
Proof. intros Ho. apply (map_fold_delete_L (fun _ o n => cost o + n) 0 p o h); [lia|done]. Qed.

Lemma mem_cost_fresh (h : gmap ptr (BufferObj W D)) p o :
  h !! p = None ->
  map_fold (fun _ o n => cost o + n) 0 (<[p := o]> h) = cost o + map_fold (fun _ o n => cost o + n) 0 h.
Proof. intros Ho. apply (map_fold_insert_L (fun _ o n => cost o + n) 0 p o h); [lia|done]. Qed.

Lemma mem_cost_set m p o o' :
  objs_ m !! p = Some o -> mem_cost (set_obj p o' m) = mem_cost m - cost o + cost o'.
Proof.
  intros Ho. unfold mem_cost. cbn. rewrite <- insert_delete_eq.
  rewrite mem_cost_fresh by apply lookup_delete_eq. rewrite (mem_cost_split _ _ _ Ho). lia.
Qed.

Lemma home_cost m p o : home m p o -> 0 <= GetBufferSize o < 2 ^ 64.
Proof. intros Hh. apply (cost_range (worker o)), Hh. Qed.

Lemma mem_cost_nonneg (h : gmap ptr (BufferObj W D)) :
  (forall p o, h !! p = Some o -> 0 <= cost o) -> 0 <= map_fold (fun _ o n => cost o + n) 0 h.
Proof.
  induction h as [|p o h Hp IH] using map_ind; intros Hc.
  - now rewrite map_fold_empty.
  - rewrite mem_cost_fresh by done. pose proof (Hc p o (lookup_insert_eq _ _ _)).
    enough (0 <= map_fold (fun _ o n => cost o + n) 0 h) by lia.
    apply IH. intros q o' Hq. apply (Hc q). rewrite lookup_insert_ne; [done|congruence].
Qed.

(** The objects together hold at least what one of them holds. *)
Lemma inv_mem_ge m C : inv m C -> forall p o, objs_ m !! p = Some o -> cost o <= mem_cost m.
Proof.
  intros [_ Hp] p o Ho. unfold mem_cost. rewrite (mem_cost_split _ _ _ Ho).
  enough (0 <= map_fold (fun _ o n => cost o + n) 0 (delete p (objs_ m))) by lia.
  apply mem_cost_nonneg. intros q o' Hq. apply lookup_delete_Some in Hq as [_ Hq].
  specialize (Hp q). unfold pinv in Hp. rewrite Hq in Hp. destruct Hp as [Hh _].
  apply home_cost in Hh. unfold cost. destruct (data_ _); lia.
Qed.

Lemma inv_mem_nonneg m C : inv m C -> 0 <= mem_cost m.
Proof.
  intros [_ Hp]. apply mem_cost_nonneg. intros q o' Hq.
  specialize (Hp q). unfold pinv in Hp. rewrite Hq in Hp. destruct Hp as [Hh _].
  apply home_cost in Hh. unfold cost. destruct (data_ _); lia.
Qed.

(** ** Paths *)

Lemma path_div_assoc a b c : path_div (path_div a b) c = path_div a (path_div b c).
Proof. unfold path_div. rewrite string_app_assoc. cbn. now rewrite string_app_assoc. Qed.

Lemma path_div_inj a b c : path_div a b = path_div a c -> b = c.
Proof. unfold path_div. intros E. apply (inj (String.append a)) in E. now apply (inj (String.append "/")) in E. Qed.

Lemma paths_apart m p q o o' b b' :
  home m p o -> home m q o' -> p <> q -> path b o <> path b' o'.
Proof.
  intros [D1 T1 _ M1] [D2 T2 _ M2] Hpq E. unfold GetFilename, FileWorker.GetFilePath in *.
  unfold path, FileWorker.GetFilePathInner, FileWorker.ChooseFileDir in E.
  rewrite D1 in M1. rewrite D2 in M2. rewrite D1, D2, T1, T2 in E.
  destruct b, b'; rewrite ?path_div_assoc in *.
  - apply path_div_inj in E. rewrite E in M1. congruence.
  - symmetry in E. now apply dirs_apart in E.
  - now apply dirs_apart in E.
  - rewrite E in M1. congruence.
Qed.

Lemma path_spill_data m p o : home m p o -> path true o <> path false o.
Proof.
  intros [D1 T1 _ _] E. unfold path, FileWorker.GetFilePathInner, FileWorker.ChooseFileDir in E.
  rewrite D1, T1, !path_div_assoc in E. symmetry in E. now apply dirs_apart in E.
Qed.

Lemma path_filename o : path false o = GetFilename o.
Proof. reflexivity. Qed.

(** ** Frames: what changes when an operation works on one object *)
Definition same_view m m' q : Prop :=
  objs_ m' !! q = objs_ m !! q /\ refs_of m' q = refs_of m q /\
  forall o, objs_ m !! q = Some o ->
    buffer_map_ m' !! GetFilename o = buffer_map_ m !! GetFilename o /\
    forall b, files_ m' !! path b o = files_ m !! path b o.

Record only p m m' : Prop := mkOnly {
  on_len : length (lru_caches_ m') = length (lru_caches_ m);
  on_view : forall q, q <> p -> same_view m m' q;
}.

Lemma only_refl p m : only p m m.
Proof. split; [done|]. intros q _. repeat split; auto. Qed.

Lemma only_trans p m1 m2 m3 : only p m1 m2 -> only p m2 m3 -> only p m1 m3.
Proof.
  intros [L1 V1] [L2 V2]. split; [congruence|]. intros q Hq.
  destruct (V1 q Hq) as (O1 & R1 & F1), (V2 q Hq) as (O2 & R2 & F2).
  split_and!; [congruence..|]. intros o Ho.
  destruct (F1 o Ho) as [M1 P1]. destruct (F2 o) as [M2 P2]; [congruence|].
  split; [congruence|]. intros b. rewrite P2. apply P1.
Qed.

Lemma only_set_obj p o m : only p m (set_obj p o m).
Proof.
  split; [done|]. intros q Hq. split_and!; [|done|done].
  apply lookup_insert_ne. congruence.
Qed.

Lemma only_memory p n m : only p m (set_memory n m).
Proof. split; [done|]. intros q _. repeat split; auto. Qed.

Lemma only_counts p r c m : only p m (set_counts r c m).
Proof. split; [done|]. intros q _. repeat split; auto. Qed.

Lemma refs_ext m m' q :
  in_each q (lru_caches_ m') = in_each q (lru_caches_ m) ->
  (q ∈ temp_set_ m' <-> q ∈ temp_set_ m) -> (q ∈ clean_temp_set_ m' <-> q ∈ clean_temp_set_ m) ->
  (q ∈ clean_list_ m' <-> q ∈ clean_list_ m) -> refs_of m' q = refs_of m q.
Proof. intros Hl Ht Hc Hn. unfold refs_of. rewrite Hl. f_equal; now apply bool_decide_ext. Qed.

Lemma refs_eq m p qs t c n :
  in_each p (lru_caches_ m) = qs -> bool_decide (p ∈ temp_set_ m) = t ->
  bool_decide (p ∈ clean_temp_set_ m) = c -> bool_decide (p ∈ clean_list_ m) = n ->
  refs_of m p = mkRefs qs t c n.
Proof. now intros <- <- <- <-. Qed.

Lemma in_each_erase p i ls :
  (i < length ls)%nat -> in_each p (alter (LRUCache.erase p) i ls) = <[i := false]> (in_each p ls).
Proof.
  intros Hi. apply in_each_alter_eq; [done|]. intros l. apply bool_decide_false.
  rewrite elem_of_erase. tauto.
Qed.

Lemma in_each_push p i ls :
  (i < length ls)%nat -> in_each p (alter (LRUCache.PushGCQueue p) i ls) = <[i := true]> (in_each p ls).
Proof.
  intros Hi. apply in_each_alter_eq; [done|]. intros l. apply bool_decide_true.
  unfold LRUCache.PushGCQueue. rewrite elem_of_app, list_elem_of_singleton. tauto.
Qed.

Lemma only_lru p i (f : list ptr -> list ptr) m :
  (forall l q, q <> p -> q ∈ f l <-> q ∈ l) ->
  only p m (set_lru (alter f i (lru_caches_ m)) (round_robin_ m) m).
Proof.
  intros Hf. split; [apply length_alter|]. intros q Hq. split_and!; [done| |done].
  apply refs_ext; cbn; [|done..]. apply in_each_alter. auto.
Qed.

Lemma only_temps p (t c : gset ptr) m :
  (forall q, q <> p -> q ∈ t <-> q ∈ temp_set_ m) ->
  (forall q, q <> p -> q ∈ c <-> q ∈ clean_temp_set_ m) -> only p m (set_temps t c m).
Proof.
  intros Ht Hc. split; [done|]. intros q Hq. split_and!; [done| |done].
  apply refs_ext; cbn; auto.
Qed.

Lemma only_clean p m : only p m (set_clean_list (clean_list_ m ++ [p]) m).
Proof.
  split; [done|]. intros q Hq. split_and!; [done| |done].
  apply refs_ext; cbn; [done..|]. rewrite elem_of_app, list_elem_of_singleton. naive_solver.
Qed.

Lemma inv_home m C p o : inv m C -> objs_ m !! p = Some o -> home m p o.
Proof. intros [_ Hp] Ho. specialize (Hp p). unfold pinv in Hp. rewrite Ho in Hp. apply Hp. Qed.

Lemma inv_live m C p o :
  inv m C -> objs_ m !! p = Some o -> status_ o <> kClean ->
  exists d, C !! p = Some d /\
    live (length (lru_caches_ m)) o (refs_of m p) (files_ m !! path true o) (files_ m !! path false o) d.
Proof.
  intros [_ Hp] Ho Hs. specialize (Hp p). unfold pinv in Hp. rewrite Ho in Hp.
  destruct Hp as [_ Hp]. now rewrite decide_False in Hp.
Qed.

Lemma inv_dead m C p o :
  inv m C -> objs_ m !! p = Some o -> status_ o = kClean ->
  C !! p = None /\ dead (length (lru_caches_ m)) o (refs_of m p) (files_ m !! path true o).
Proof.
  intros [_ Hp] Ho Hs. specialize (Hp p). unfold pinv in Hp. rewrite Ho in Hp.
  destruct Hp as [_ Hp]. now rewrite decide_True in Hp.
Qed.

Lemma only_files m C p o (files : fs) :
  inv m C -> objs_ m !! p = Some o ->
  (forall f, (forall b, f <> path b o) -> files !! f = files_ m !! f) -> only p m (set_files files m).
Proof.
  intros Hinv Ho Hf. split; [done|]. intros q Hq. split_and!; [done..|].
  intros o' Ho'. split; [done|]. intros b. apply Hf. intros b'.
  eapply paths_apart; eauto using inv_home.
Qed.

Lemma pinv_view m m' C C' q :
  same_view m m' q -> length (lru_caches_ m') = length (lru_caches_ m) -> C' !! q = C !! q ->
  pinv m C q -> pinv m' C' q.
Proof.
  intros (Ho & Hr & Hf) Hn HC. unfold pinv. rewrite Ho, Hn, Hr, HC.
  destruct (objs_ m !! q) as [o|] eqn:E; [|done].
  destruct (Hf o eq_refl) as [Hm Hb]. rewrite !Hb. intros [[? ? ? ?] Hp].
  split; [split; congruence|done].
Qed.

(** Changing one object keeps the invariant of the others. *)
Lemma inv_only p m m' C C' :
  inv m C -> only p m m' -> (forall q, q <> p -> C' !! q = C !! q) -> glob m' -> pinv m' C' p ->
  inv m' C'.
Proof.
  intros [_ Hp] [Hn HV] HC Hg Hpp. split; [done|]. intros q.
  destruct (decide (q = p)) as [->|Hq]; [done|]. apply (pinv_view m m' C C'); auto.
Qed.

(** A change no object sees. *)
Lemma inv_same m m' C :
  inv m C -> glob m' -> length (lru_caches_ m') = length (lru_caches_ m) ->
  (forall q, same_view m m' q) -> inv m' C.
Proof. intros [_ Hp] Hg Hn HV. split; [done|]. intros q. apply (pinv_view m m' C C); auto. Qed.

Lemma glob_keep p o o' m m' :
  glob m -> objs_ m !! p = Some o -> objs_ m' = <[p := o']> (objs_ m) ->
  GetFilename o' = GetFilename o -> buffer_map_ m' = buffer_map_ m ->
  memory_limit_ m' = memory_limit_ m -> length (lru_caches_ m') = length (lru_caches_ m) ->
  round_robin_ m' = round_robin_ m -> Forall NoDup (lru_caches_ m') -> NoDup (clean_list_ m') ->
  glob m'.
Proof.
  intros [H1 H2 H3 H4 H5] Ho Eo Ef Eb El En Er Hl Hc. split; rewrite ?En, ?Er, ?El; auto.
  rewrite Eb, Eo. intros f q Hq. destruct (H5 f q Hq) as (o1 & Ho1 & Hf).
  destruct (decide (q = p)) as [->|Hqp].
  - exists o'. rewrite lookup_insert_eq. split; [done|]. congruence.
  - exists o1. rewrite lookup_insert_ne by congruence. auto.
Qed.

Lemma NoDup_erase p l : NoDup l -> NoDup (LRUCache.erase p l).
Proof. apply NoDup_filter. Qed.

Lemma Forall_alter_NoDup i (f : list ptr -> list ptr) ls :
  (forall l, NoDup l -> NoDup (f l)) -> Forall NoDup ls -> Forall NoDup (alter f i ls).
Proof.
  intros Hf H. apply Forall_lookup. intros j l. rewrite list_lookup_alter.
  rewrite Forall_lookup in H. case_decide; subst; [|eauto].
  destruct (ls !! j) eqn:E; [|done]. intros [= <-]. eauto.
Qed.

(** ** Queues and their objects *)
Lemma queue_at_lookup n idx j : queue_at n idx !! j = Some true -> j = idx.
Proof.
  unfold queue_at. intros E. destruct (decide (j = idx)) as [|Hn]; [done|].
  rewrite list_lookup_insert_ne in E by congruence. apply lookup_replicate in E as [? _]. discriminate.
Qed.

Lemma in_queue_object m C p i l :
  inv m C -> lru_caches_ m !! i = Some l -> p ∈ l ->
  exists o d, objs_ m !! p = Some o /\ queued o = true /\ i = idx_of (length (lru_caches_ m)) o /\
    C !! p = Some d /\
    live (length (lru_caches_ m)) o (refs_of m p) (files_ m !! path true o) (files_ m !! path false o) d.
Proof.
  intros [Hg Hp] Hl Hin. specialize (Hp p). unfold pinv in Hp.
  assert (Hq : r_queue (refs_of m p) !! i = Some true).
  { cbn. unfold in_each. rewrite list_lookup_fmap, Hl. cbn. now rewrite bool_decide_true. }
  destruct (objs_ m !! p) as [o|].
  - destruct Hp as [_ Hp]. case_decide as Hs.
    + destruct Hp as [_ Hd]. rewrite (de_queue _ _ _ _ Hd) in Hq.
      apply lookup_replicate in Hq as [? _]. discriminate.
    + destruct Hp as (d & HC & Hlive). exists o, d. pose proof (li_queue _ _ _ _ _ _ Hlive) as E.
      rewrite E in Hq. destruct (queued o).
      * split_and!; auto. now apply queue_at_lookup in Hq.
      * apply lookup_replicate in Hq as [? _]. discriminate.
  - destruct Hp as [E _]. rewrite E in Hq. cbn in Hq. apply lookup_replicate in Hq as [? _]. discriminate.
Qed.

Lemma idx_of_lt n o : (0 < n)%nat -> (idx_of n o < n)%nat.
Proof. intros Hn. unfold idx_of. pose proof (Z.mod_pos_bound (id_ o) (Z.of_nat n)). lia. Qed.

(** Conversely, a queued object is in its queue. *)
Lemma queued_in m C p o :
  inv m C -> objs_ m !! p = Some o -> queued o = true ->
  exists l, lru_caches_ m !! idx_of (length (lru_caches_ m)) o = Some l /\ p ∈ l.
Proof.
  intros Hinv Ho Hq. destruct (inv_live m C p o Hinv Ho) as (d & _ & Hlive).
  { intros E. unfold queued in Hq. rewrite E in Hq. discriminate. }
  pose proof (idx_of_lt _ o (gl_lru _ (proj1 Hinv))) as Hi.
  destruct (lookup_lt_is_Some_2 _ _ Hi) as [l Hl]. exists l. split; [done|].
  pose proof (li_queue _ _ _ _ _ _ Hlive) as E. rewrite Hq in E. cbn in E.
  assert (Hb : in_each p (lru_caches_ m) !! idx_of (length (lru_caches_ m)) o = Some true).
  { rewrite E. unfold queue_at. apply list_lookup_insert_eq. now rewrite length_replicate. }
  unfold in_each in Hb. rewrite list_lookup_fmap, Hl in Hb. cbn in Hb. injection Hb as Hb.
  now apply bool_decide_eq_true in Hb.
Qed.

Lemma pinv_live m C p o d :
  objs_ m !! p = Some o -> home m p o -> status_ o <> kClean -> C !! p = Some d ->
  live (length (lru_caches_ m)) o (refs_of m p) (files_ m !! path true o) (files_ m !! path false o) d ->
  pinv m C p.
Proof. intros Ho Hh Hs HC Hl. unfold pinv. rewrite Ho, decide_False by done. eauto. Qed.

(** ** Eviction *)
Definition evicted o : BufferObj W D :=
  mkBufferObj kFreed (if is_ephemeral (type_ o) then kTemp else type_ o) (rc_ o)
    (FileWorker.set_data None (file_worker_ o)) (id_ o) (obj_rc_ o).

(** Every object is as before or was evicted. *)
Definition kept_or_evicted m m' : Prop :=
  forall p, objs_ m' !! p = objs_ m !! p \/
    exists o, objs_ m !! p = Some o /\ queued o = true /\ objs_ m' !! p = Some (evicted o).

Lemma kept_trans m1 m2 m3 : kept_or_evicted m1 m2 -> kept_or_evicted m2 m3 -> kept_or_evicted m1 m3.
Proof.
  intros H1 H2 p. destruct (H2 p) as [E2|(o2 & O2 & Q2 & E2)], (H1 p) as [E1|(o1 & O1 & Q1 & E1)].
  - left. congruence.
  - right. exists o1. split_and!; auto. congruence.
  - right. exists o2. split_and!; auto. congruence.
  - rewrite E1 in O2. injection O2 as <-. discriminate Q2.
Qed.

(** What eviction leaves alone. *)
Record evicts (locked : gset ptr) m m' : Prop := mkEvicts {
  ev_memory : memory_limit_ m' = memory_limit_ m /\ current_memory_size_ m' = current_memory_size_ m;
  ev_len : length (lru_caches_ m') = length (lru_caches_ m);
  ev_sub : forall j l', lru_caches_ m' !! j = Some l' -> exists l, lru_caches_ m !! j = Some l /\ l' ⊆ l;
  ev_locked : forall p, p ∈ locked -> objs_ m' !! p = objs_ m !! p;
  ev_objs : kept_or_evicted m m';
}.

Lemma evicts_refl locked m : evicts locked m m.
Proof. split; auto; [|now left]. intros j l Hl. exists l. split; [done|set_solver]. Qed.

Lemma evicts_trans locked m1 m2 m3 : evicts locked m1 m2 -> evicts locked m2 m3 -> evicts locked m1 m3.
Proof.
  intros [[A1 A2] A3 A5 A6 A7] [[B1 B2] B3 B5 B6 B7].
  split; [split; congruence|congruence| | |by eapply kept_trans].
  - intros j l3 H3. destruct (B5 _ _ H3) as (l2 & H2 & S2). destruct (A5 _ _ H2) as (l1 & H1 & S1).
    exists l1. split; [done|]. etrans; eauto.
  - intros p Hp. rewrite B6, A6 by done. done.
Qed.

#[export] Instance evicts_preorder locked : PreOrder (evicts locked).
Proof. split; [intros m; apply evicts_refl|intros m1 m2 m3; apply evicts_trans]. Qed.
#[export] Instance only_preorder p : PreOrder (only p).
Proof. split; [intros m; apply only_refl|intros m1 m2 m3; apply only_trans]. Qed.

Lemma unloaded_rc o : (status_ o = kLoaded <-> 0 < rc_ o) -> 0 <= rc_ o -> status_ o <> kLoaded -> rc_ o = 0.
Proof. intros [_ H] H0 Hs. destruct (decide (0 < rc_ o)); [tauto|lia]. Qed.

Lemma evicted_live n o r tf df d :
  worker_ok (worker o) -> live n o r tf df d -> queued o = true ->
  live n (evicted o) (mkRefs (replicate n false) (is_ephemeral (type_ o) || r_temp r)
                        (negb (is_ephemeral (type_ o)) && r_ctemp r) (r_clean r))
    (if is_ephemeral (type_ o) then Some (image (worker o) d) else tf) df d.
Proof.
  intros Hw [L1 [L2 L2'] L3 L4 L5 L6 L7 L8 L9 L10 L11 L12 [L13 L14]] Hq.
  destruct o as [st ty rc w id orc]. unfold queued, evicted, shape, resident, saved_type in *. cbn in *.
  destruct st; try discriminate.
  assert (Hrc : rc = 0) by (destruct (decide (0 < rc)) as [E|]; [apply L2' in E; discriminate|lia]).
  subst rc. destruct ty; try discriminate; cbn in *;
    (split; cbn in *; auto; try (intros; discriminate); try (split; [lia|split; [discriminate|lia]])).
  split; [|exact L14]. intros c [= <-]. rewrite image_length by done. reflexivity.
Qed.

Lemma queued_status o : queued o = true -> status_ o = kUnloaded.
Proof. unfold queued. now destruct (status_ o). Qed.

Lemma deref_ok p m o : objs_ m !! p = Some o -> deref p m = Ok o.
Proof. intros Ho. unfold deref. now rewrite Ho. Qed.

Definition spill p o d m : BufferManager W D :=
  if is_ephemeral (type_ o)
  then set_temps ({[p]} ∪ temp_set_ m) (clean_temp_set_ m ∖ {[p]})
         (set_files (<[path true o := image (worker o) d]> (files_ m)) m)
  else m.

Arguments spill : simpl never.

Lemma Free_run locked m C p o d :
  inv m C -> objs_ m !! p = Some o -> queued o = true -> p ∉ locked -> C !! p = Some d ->
  Free locked p m = Ok (true, set_obj p (evicted o) (spill p o d m)).
Proof.
  intros Hinv Ho Hq Hlk HC. pose proof (queued_status o Hq) as Hs.
  destruct (inv_live m C p o Hinv Ho ltac:(congruence)) as (d' & HC' & Hl).
  assert (d' = d) as -> by congruence. pose proof (inv_home m C p o Hinv Ho) as Hh.
  unfold Free. rewrite decide_False by done. rewrite (deref_ok p m o Ho). cbn [res_bind].
  rewrite bool_decide_true by done.
  assert (Hdata : data_ (file_worker_ o) = Some d).
  { rewrite (li_data _ _ _ _ _ _ Hl). unfold resident, queued in *. rewrite Hs in *. now destruct (type_ o). }
  assert (Hw : FileWorker.WriteToFile true (file_worker_ o) (files_ m) =
               Ok (true, <[path true o := image (worker o) d]> (files_ m))).
  { apply FileWorker.write_file_image; [apply Hh|apply Hl|done|apply (li_small _ _ _ _ _ _ Hl)]. }
  unfold queued in Hq. rewrite Hs in Hq. unfold spill, evicted, FileWorker.FreeInMemory.
  pose proof (li_temp _ _ _ _ _ _ Hl) as Ht. cbn in Ht.
  pose proof (li_shape _ _ _ _ _ _ Hl) as Hsh. unfold shape in Hsh. rewrite Hs in Hsh.
  destruct (type_ o) eqn:Ety; try discriminate; cbn [res_bind is_ephemeral]; cbn.
  - rewrite Hdata. cbn. unfold set_status, set_worker. cbn. now rewrite Ety.
  - rewrite Hw. cbn [res_bind]. unfold AddTemp. cbn.
    rewrite decide_False by now apply bool_decide_eq_false in Ht. cbn. rewrite Hdata. done.
  - rewrite Hdata. cbn. unfold set_status, set_worker. cbn. now rewrite Ety.
Qed.

Lemma spill_only m C p o d : inv m C -> objs_ m !! p = Some o -> only p m (spill p o d m).
Proof.
  intros Hinv Ho. unfold spill. destruct (is_ephemeral _); [|apply only_refl].
  eapply only_trans; [apply (only_files m C p o); [done|done|]|apply only_temps; cbn; set_solver].
  intros f Hf. rewrite lookup_insert_ne; [done|]. specialize (Hf true). congruence.
Qed.

(** The object itself after its eviction. *)
Lemma evict_live m C p o d :
  inv m C -> objs_ m !! p = Some o -> queued o = true -> C !! p = Some d ->
  live (length (lru_caches_ m)) o (refs_of m p) (files_ m !! path true o) (files_ m !! path false o) d ->
  let m2 := lru_erase (idx_of (length (lru_caches_ m)) o) p (set_obj p (evicted o) (spill p o d m)) in
  live (length (lru_caches_ m)) (evicted o) (refs_of m2 p) (files_ m2 !! path true (evicted o))
    (files_ m2 !! path false (evicted o)) d.
Proof.
  intros Hinv Ho Hq HC Hlive m2. pose proof (inv_home m C p o Hinv Ho) as Hh.
  set (i := idx_of (length (lru_caches_ m)) o) in *.
  pose proof (idx_of_lt _ o (gl_lru _ (proj1 Hinv))) as Hi. fold i in Hi.
  assert (E1 : lru_caches_ (spill p o d m) = lru_caches_ m /\ clean_list_ (spill p o d m) = clean_list_ m).
  { unfold spill. now destruct (is_ephemeral _). }
  destruct E1 as [E1 E7]. pose proof Hlive as Hlive0.
  apply (evicted_live _ _ _ _ _ _ (ho_ok _ _ _ Hh)) in Hlive; [|done].
  assert (Er : refs_of m2 p = mkRefs (replicate (length (lru_caches_ m)) false)
                 (is_ephemeral (type_ o) || r_temp (refs_of m p))
                 (negb (is_ephemeral (type_ o)) && r_ctemp (refs_of m p)) (r_clean (refs_of m p))).
  { apply refs_eq.
    - change (in_each p (alter (LRUCache.erase p) i (lru_caches_ (spill p o d m))) = replicate (length (lru_caches_ m)) false).
      rewrite E1, in_each_erase by done.
      pose proof (li_queue _ _ _ _ _ _ Hlive0) as Hq0. rewrite Hq in Hq0. cbn in Hq0. rewrite Hq0.
      now apply queue_at_reset.
    - unfold m2, spill. destruct (is_ephemeral _); [|done]. apply bool_decide_true. cbn. set_solver.
    - unfold m2, spill. destruct (is_ephemeral _); [|done]. apply bool_decide_false. cbn. set_solver.
    - cbn. now rewrite E7. }
  rewrite Er. revert Hlive. cbn. unfold spill. destruct (is_ephemeral _) eqn:Ee; cbn; [|done].
  change (path true (evicted o)) with (path true o). change (path false (evicted o)) with (path false o).
  rewrite lookup_insert_eq, lookup_insert_ne; [done|]. eapply path_spill_data; eauto.
Qed.

Lemma evict_ok locked m C p o :
  inv m C -> objs_ m !! p = Some o -> queued o = true -> p ∉ locked ->
  exists m1, Free locked p m = Ok (true, m1) /\
    let m2 := lru_erase (idx_of (length (lru_caches_ m)) o) p m1 in
    objs_ m1 !! p = Some (evicted o) /\ inv m2 C /\ evicts locked m m2 /\
    round_robin_ m2 = round_robin_ m /\ mem_cost m2 = mem_cost m - GetBufferSize o /\
    lru_caches_ m2 = alter (LRUCache.erase p) (idx_of (length (lru_caches_ m)) o) (lru_caches_ m).
Proof.
  intros Hinv Ho Hq Hlk. pose proof (queued_status o Hq) as Hs.
  destruct (inv_live m C p o Hinv Ho ltac:(congruence)) as (d & HC & Hlive).
  pose proof (inv_home m C p o Hinv Ho) as Hh. pose proof (gl_lru _ (proj1 Hinv)) as Hn.
  eexists. split; [apply (Free_run locked m C p o d); auto|].
  set (m1 := set_obj p (evicted o) (spill p o d m)).
  assert (Hlru : lru_caches_ (spill p o d m) = lru_caches_ m /\ round_robin_ (spill p o d m) = round_robin_ m
                 /\ objs_ (spill p o d m) = objs_ m /\ memory_limit_ (spill p o d m) = memory_limit_ m
                 /\ current_memory_size_ (spill p o d m) = current_memory_size_ m
                 /\ buffer_map_ (spill p o d m) = buffer_map_ m /\ clean_list_ (spill p o d m) = clean_list_ m).
  { unfold spill. now destruct (is_ephemeral _). }
  destruct Hlru as (E1 & E2 & E3 & E4 & E5 & E6 & E7). cbn zeta.
  assert (Hob : objs_ m1 !! p = Some (evicted o)) by apply lookup_insert_eq.
  set (i := idx_of (length (lru_caches_ m)) o). pose proof (idx_of_lt _ o Hn) as Hi. fold i in Hi.
  split_and!; [done| | |done| |cbn; now rewrite E1].
  - eapply (inv_only p m); [done| |done| |].
    + eapply only_trans; [apply (spill_only m C p o d); done|].
      eapply only_trans; [apply only_set_obj|]. apply only_lru. intros l q Hqp. rewrite elem_of_erase. tauto.
    + apply (glob_keep p o (evicted o) m); cbn; rewrite ?E1, ?E2, ?E3, ?E4, ?E6, ?E7, ?length_alter; auto; try apply Hinv.
      apply Forall_alter_NoDup; [intros; now apply NoDup_erase|apply Hinv].
    + apply (pinv_live _ _ _ (evicted o) d); [done| |done|done|].
      * destruct Hh. split; cbn; auto. now rewrite E6.
      * cbn. rewrite E1, length_alter. by apply (evict_live m C).
  - split; cbn; rewrite ?E1, ?E2, ?length_alter, ?E3; auto.
    + intros j l'. rewrite list_lookup_alter. case_decide as Ej; [subst j|].
      * destruct (lru_caches_ m !! i) as [l|]; [|done]. intros [= <-]. exists l. split; [done|].
        intros q Hq'. now apply elem_of_erase in Hq' as [? _].
      * intros ->. exists l'. split; [done|]. set_solver.
    + intros q Hq'. rewrite lookup_insert_ne; [done|]. intros ->. done.
    + intros q. destruct (decide (q = p)) as [->|Hqp]; cbn; rewrite E3.
      * right. exists o. rewrite lookup_insert_eq. auto.
      * left. apply lookup_insert_ne. congruence.
  - unfold m1. change (mem_cost (lru_erase i p (set_obj p (evicted o) (spill p o d m))))
      with (mem_cost (set_obj p (evicted o) (spill p o d m))).
    rewrite (mem_cost_set _ p o) by now rewrite E3. unfold mem_cost at 1. rewrite E3. fold (mem_cost m).
    unfold cost. cbn [evicted file_worker_ FileWorker.set_data data_].
    rewrite (li_data _ _ _ _ _ _ Hlive). unfold resident, queued in *. rewrite Hs in *.
    destruct (type_ o); try discriminate; lia.
Qed.

Lemma path_absolute m p o b : home m p o -> VirtualStore.is_absolute (path b o) = true.
Proof.
  intros [D1 T1 _ _]. unfold path, FileWorker.GetFilePathInner, FileWorker.ChooseFileDir.
  rewrite D1, T1. destruct b; rewrite path_div_assoc; apply dirs_absolute.
Qed.

(** ** Requests for memory *)

(** After [m'], the queue [i] holds none of [ps] that could be freed. *)
Definition exhausted (locked : gset ptr) (i : nat) m : Prop :=
  forall l p, lru_caches_ m !! i = Some l -> p ∈ l -> p ∈ locked.

Lemma lru_request_ok locked need i todo : forall free m C,
  inv m C -> 0 <= free -> free + mem_cost m < 2 ^ 64 -> NoDup todo ->
  (forall p, p ∈ todo -> exists l, lru_caches_ m !! i = Some l /\ p ∈ l) ->
  exists f m', lru_request locked need i free todo m = Ok (f, m') /\ inv m' C /\ evicts locked m m' /\
    round_robin_ m' = round_robin_ m /\ free <= f /\ mem_cost m' = mem_cost m - (f - free) /\
    (f < need -> forall l p, lru_caches_ m' !! i = Some l -> p ∈ l -> p ∈ locked \/ p ∉ todo).
Proof.
  induction todo as [|p todo IH]; intros free m C Hinv Hf Hb Hnd Hin; cbn [lru_request].
  { exists free, m. split_and!; auto using evicts_refl; [lia|lia|]. intros _ l q _ _. right. set_solver. }
  destruct (Z.ltb_spec free need) as [Hlt|Hge].
  2:{ exists free, m. split_and!; auto using evicts_refl; lia. }
  apply NoDup_cons in Hnd as [Hp Hnd].
  destruct (decide (p ∈ locked)) as [Hlk|Hlk].
  - assert (E : Free locked p m = Ok (false, m)) by (unfold Free; now rewrite decide_True).
    rewrite E. cbn [res_bind].
    destruct (IH free m C) as (f & m' & E' & H1 & H2 & Hr & H3 & H4 & H5); auto.
    { intros q Hq. apply Hin. now right. }
    exists f, m'. split_and!; auto. intros Hn l q Hl Hq. destruct (H5 Hn l q Hl Hq); [tauto|].
    destruct (decide (q = p)) as [->|]; [tauto|]. right. set_solver.
  - destruct (Hin p ltac:(now left)) as (l0 & Hl0 & Hpl0).
    destruct (in_queue_object m C p i l0) as (o & d & Ho & Hq & -> & HC & Hlive); auto.
    destruct (evict_ok locked m C p o) as (m1 & E & Hob & Hinv2 & Hev & Hrr & Hmem & Hlru); auto.
    rewrite E. cbn [res_bind]. rewrite (deref_ok p m1 _ Hob). cbn [res_bind].
    pose proof (home_cost m p o (inv_home m C p o Hinv Ho)) as Hc.
    change (GetBufferSize (evicted o)) with (GetBufferSize o).
    pose proof (inv_mem_nonneg _ _ Hinv2). rewrite wrap_id by (unfold unsigned_range; lia).
    set (i := idx_of (length (lru_caches_ m)) o) in *.
    destruct (IH (free + GetBufferSize o) (lru_erase i p m1) C) as (f & m' & E' & H1 & H2 & Hr & H3 & H4 & H5); auto; try lia.
    { intros q Hq'. destruct (Hin q ltac:(now right)) as (l & Hl & Hql). exists (LRUCache.erase p l).
      rewrite Hlru, list_lookup_alter_eq, Hl. split; [done|]. apply elem_of_erase. split; [done|]. congruence. }
    exists f, m'. split_and!; auto; [by etrans|congruence|lia|lia|].
    intros Hn l q Hl Hql. destruct (H5 Hn l q Hl Hql) as [|Hnt]; [tauto|].
    destruct (decide (q = p)) as [->|]; [|right; set_solver]. exfalso.
    destruct (ev_sub _ _ _ H2 i l Hl) as (l1 & Hl1 & Hs1). apply Hs1 in Hql.
    rewrite Hlru, list_lookup_alter_eq, Hl0 in Hl1. injection Hl1 as <-. apply elem_of_erase in Hql. tauto.
Qed.

Lemma inv_rr m C rr :
  inv m C -> (rr < length (lru_caches_ m))%nat -> inv (set_lru (lru_caches_ m) rr m) C.
Proof.
  intros Hinv Hr. apply (inv_same m); [done| |done|now intros q; split_and!].
  destruct Hinv as [[G1 G2 G3 G4 G5] _]. split; auto.
Qed.

Lemma exhausted_evicts locked i m m' : evicts locked m m' -> exhausted locked i m -> exhausted locked i m'.
Proof. intros He Hx l p Hl Hp. destruct (ev_sub _ _ _ He i l Hl) as (l1 & Hl1 & Hs). eauto. Qed.

Lemma rr_next start k N :
  (start < N)%nat -> (k < N)%nat ->
  (((start + k) mod N + 1) mod N = (start + S k) mod N)%nat /\
  (((start + S k) mod N = start)%nat <-> S k = N).
Proof.
  intros Hs Hk. rewrite Nat.Div0.add_mod_idemp_l. split; [f_equal; lia|].
  destruct (Nat.lt_ge_cases (start + S k) N) as [H|H].
  - rewrite Nat.mod_small by done. lia.
  - replace (start + S k)%nat with ((start + S k - N) + 1 * N)%nat by lia.
    rewrite Nat.Div0.mod_add. destruct (Nat.lt_ge_cases (start + S k - N) N); [|lia].
    rewrite Nat.mod_small by lia. lia.
Qed.

(** One round per queue is enough for [RequestSpace]; when it gives up, no queue holds an
    object that could be freed. *)
Lemma request_loop_total locked need free start fuel : forall k freed m C,
  inv m C -> (start < length (lru_caches_ m))%nat -> (fuel + k = length (lru_caches_ m))%nat -> (0 < fuel)%nat ->
  round_robin_ m = ((start + k) mod length (lru_caches_ m))%nat ->
  0 <= freed -> 0 <= free -> freed + free + mem_cost m < 2 ^ 64 ->
  (forall j, (j < k)%nat -> exhausted locked ((start + j) mod length (lru_caches_ m)) m) ->
  exists f m', request_loop fuel locked need free freed start m = Ok (f, m') /\ inv m' C /\
    evicts locked m m' /\ freed <= f /\ mem_cost m' = mem_cost m - (f - freed) /\
    (f + free < need -> forall i, (i < length (lru_caches_ m))%nat -> exhausted locked i m').
Proof.
  induction fuel as [|fuel IH]; intros k freed m C Hinv Hst Hk Hfu Hrr Hf0 Hfr Hb Hx; [lia|].
  cbn [request_loop]. set (N := length (lru_caches_ m)) in *.
  assert (Hrr' : (round_robin_ m < N)%nat) by apply (gl_rr _ (proj1 Hinv)).
  destruct (lookup_lt_is_Some_2 (lru_caches_ m) (round_robin_ m) Hrr') as [l Hl]. rewrite Hl.
  pose proof (inv_mem_nonneg _ _ Hinv) as Hm0.
  destruct (lru_request_ok locked need (round_robin_ m) l 0 m C) as (f & m1 & E & I1 & V1 & R1 & F1 & M1 & X1);
    auto; try lia.
  { apply (Forall_lookup_1 _ _ _ _ (proj1 (gl_nodup _ (proj1 Hinv))) Hl). }
  { intros p Hp. eauto. }
  rewrite E. cbn [res_bind]. pose proof (inv_mem_nonneg _ _ I1) as Hm1.
  rewrite (wrap_id 64 (freed + f)) by (unfold unsigned_range; lia).
  rewrite wrap_id by (unfold unsigned_range; lia). pose proof (ev_len _ _ _ V1) as Hlen. fold N in Hlen.
  rewrite Hlen, R1, Hrr. destruct (rr_next start k N Hst ltac:(lia)) as [-> Hwrap].
  set (m2 := set_lru (lru_caches_ m1) ((start + S k) mod N) m1).
  assert (I2 : inv m2 C) by (apply inv_rr; [done|]; rewrite Hlen; apply Nat.mod_upper_bound; lia).
  assert (V2 : evicts locked m m2) by (destruct V1; split; auto).
  assert (Hx2 : f < need -> forall j, (j < S k)%nat -> exhausted locked ((start + j) mod N) m2).
  { intros Hn j Hj. destruct (decide (j = k)) as [->|].
    - rewrite <- Hrr. intros l' p Hl' Hp. destruct (X1 Hn l' p Hl' Hp) as [|Hnl]; [done|].
      destruct (ev_sub _ _ _ V1 _ _ Hl') as (l1 & Hl1 & Hs). rewrite Hl in Hl1. injection Hl1 as <-. set_solver.
    - apply (exhausted_evicts _ _ m m2 V2). apply Hx. lia. }
  assert (HN : length (lru_caches_ m2) = N) by done.
  destruct ((freed + f + free <? need) && negb (((start + S k) mod N =? start)%nat)) eqn:Ec.
  - apply andb_prop in Ec as [Ec1 Ec2]. apply Z.ltb_lt in Ec1.
    apply negb_true_iff, Nat.eqb_neq in Ec2.
    destruct (IH (S k) (freed + f) m2 C) as (f' & m' & E' & I' & V' & F' & M' & X'); rewrite ?HN; auto; try lia.
    { change (freed + f + free + mem_cost m1 < 2 ^ 64). lia. }
    { intros j Hj. apply Hx2; [lia|done]. }
    rewrite HN in X'. change (mem_cost m2) with (mem_cost m1) in M'.
    exists f', m'. split_and!; auto; [by etrans|lia|lia].
  - exists (freed + f), m2. change (mem_cost m2) with (mem_cost m1). split_and!; auto; [lia|lia|].
    intros Hn i Hi. apply andb_false_iff in Ec as [Ec|Ec]; [apply Z.ltb_ge in Ec; lia|].
    apply negb_false_iff, Nat.eqb_eq, Hwrap in Ec.
    destruct (decide (start <= i)%nat).
    + specialize (Hx2 ltac:(lia) (i - start)%nat ltac:(lia)).
      replace (start + (i - start))%nat with i in Hx2 by lia. now rewrite Nat.mod_small in Hx2.
    + specialize (Hx2 ltac:(lia) (i + N - start)%nat ltac:(lia)).
      replace (start + (i + N - start))%nat with (i + 1 * N)%nat in Hx2 by lia.
      now rewrite Nat.Div0.mod_add, Nat.mod_small in Hx2.
Qed.

End invariant.
