(* ===== verification/BufferSteps.v ===== *)
(** * The operations of the buffer manager refine a store of contents

    Every operation of [BufferManager] keeps the invariant of [BufferInvariant] and acts on
    the contents of the objects as an abstract store does: loading returns the contents,
    writing replaces them, cleaning up forgets them, and nothing else changes them, whatever
    is evicted, spilled, saved or mapped on the way. *)
From S2P Require Import Prelude Serialize FileWorker BufferManager BufferInvariant.
Import BufferManager.

Section steps.
Context {W D : Type} `{HI : FileWorkerImpl W D} `{HL : !FileWorkerLaws W D} `{Dirs : Directories}.
Implicit Types (o : BufferObj W D) (m : BufferManager W D) (p q : ptr) (d : D) (C : gmap ptr D).

(** Two forms of an object that belong to the same files. *)
Record same_place o o' : Prop := mkSamePlace {
  sp_data : data_dir_ (file_worker_ o') = data_dir_ (file_worker_ o);
  sp_temp : temp_dir_ (file_worker_ o') = temp_dir_ (file_worker_ o);
  sp_dir : file_dir_ (file_worker_ o') = file_dir_ (file_worker_ o);
  sp_name : file_name_ (file_worker_ o') = file_name_ (file_worker_ o);
  sp_worker : worker o' = worker o;
}.

Lemma same_place_path o o' : same_place o o' -> forall b, path b o' = path b o.
Proof.
  intros [H1 H2 H3 H4 _] b. unfold path, FileWorker.GetFilePathInner, FileWorker.ChooseFileDir.
  now rewrite H1, H2, H3, H4.
Qed.

(** The rest of the manager, which no object refers to. *)
Record same_rest m m' : Prop := mkSameRest {
  sr_map : buffer_map_ m' = buffer_map_ m;
  sr_limit : memory_limit_ m' = memory_limit_ m;
  sr_rr : round_robin_ m' = round_robin_ m;
  sr_nodup : Forall NoDup (lru_caches_ m') /\ NoDup (clean_list_ m');
}.

Lemma update_home p o o' m m' C :
  inv m C -> objs_ m !! p = Some o -> same_place o o' -> buffer_map_ m' = buffer_map_ m -> home m' p o'.
Proof.
  intros Hinv Ho Hs Hm. pose proof (same_place_path o o' Hs false) as Hp. rewrite !path_filename in Hp.
  destruct (inv_home m C p o Hinv Ho), Hs. split; [congruence..|]. now rewrite Hm, Hp.
Qed.

Lemma update_glob p o o' m m' C :
  inv m C -> objs_ m !! p = Some o -> only p m m' -> objs_ m' = <[p := o']> (objs_ m) ->
  same_place o o' -> same_rest m m' -> glob m'.
Proof.
  intros [Hg _] Ho Hon Eo Hs [S1 S2 S3 [S4 S5]]. apply (glob_keep p o o' m); auto; [|apply Hon].
  rewrite <- !path_filename. now apply same_place_path.
Qed.

Lemma inv_update p o o' d m m' C :
  inv m C -> objs_ m !! p = Some o -> only p m m' -> objs_ m' = <[p := o']> (objs_ m) ->
  same_place o o' -> same_rest m m' -> status_ o' <> kClean ->
  live (length (lru_caches_ m)) o' (refs_of m' p) (files_ m' !! path true o) (files_ m' !! path false o) d ->
  inv m' (<[p := d]> C).
Proof.
  intros Hinv Ho Hon Eo Hs Hr Hc Hl. eapply (inv_only p m); eauto using update_glob.
  - intros q Hq. apply lookup_insert_ne. congruence.
  - apply (pinv_live _ _ _ o' d); rewrite ?(on_len _ _ _ Hon), ?(same_place_path o o' Hs); auto.
    + rewrite Eo. apply lookup_insert_eq.
    + eapply update_home; eauto. apply Hr.
    + apply lookup_insert_eq.
Qed.

Lemma inv_update_dead p o o' m m' C :
  inv m C -> objs_ m !! p = Some o -> only p m m' -> objs_ m' = <[p := o']> (objs_ m) ->
  same_place o o' -> same_rest m m' -> status_ o' = kClean ->
  dead (length (lru_caches_ m)) o' (refs_of m' p) (files_ m' !! path true o) ->
  inv m' (delete p C).
Proof.
  intros Hinv Ho Hon Eo Hs Hr Hc Hl. eapply (inv_only p m); eauto using update_glob.
  - intros q Hq. apply lookup_delete_ne. congruence.
  - unfold pinv. rewrite Eo, lookup_insert_eq, (on_len _ _ _ Hon), !(same_place_path o o' Hs).
    split; [eapply update_home; eauto; apply Hr|]. rewrite decide_True by done.
    split; [apply lookup_delete_eq|done].
Qed.

Lemma inv_memory n m C : inv m C -> inv (set_memory n m) C.
Proof.
  intros Hinv. apply (inv_same m); [done| |done|now intros q; split_and!].
  destruct Hinv as [[G1 G2 G3 G4 G5] _]. split; auto.
Qed.

Lemma inv_counts r c m C : inv m C -> inv (set_counts r c m) C.
Proof.
  intros Hinv. apply (inv_same m); [done| |done|now intros q; split_and!].
  destruct Hinv as [[G1 G2 G3 G4 G5] _]. split; auto.
Qed.

Lemma RequestSpace_ok locked need m C :
  inv m C -> accounted 0 m -> 0 <= need < 2 ^ 64 ->
  exists (ok : bool) m', RequestSpace locked need m = Ok (ok, m') /\ inv m' C /\
    (forall p, p ∈ locked -> objs_ m' !! p = objs_ m !! p) /\ kept_or_evicted m m' /\
    length (lru_caches_ m') = length (lru_caches_ m) /\
    memory_limit_ m' = memory_limit_ m /\ mem_cost m' <= mem_cost m /\
    if ok then accounted need m'
    else memory_limit_ m' < mem_cost m' + need /\
         current_memory_size_ m' = u64 (mem_cost m' + need) /\
         forall i, (i < length (lru_caches_ m'))%nat -> exhausted locked i m'.
Proof.
  intros Hinv [Hc Hle] Hn. unfold RequestSpace. rewrite Z.add_0_r in Hc.
  pose proof (inv_mem_nonneg _ _ Hinv). pose proof (gl_limit _ (proj1 Hinv)) as Hlim. unfold unsigned_range in Hlim.
  rewrite (wrap_id 64 (_ - _)) by (unfold unsigned_range; lia).
  destruct (Z.leb_spec need (memory_limit_ m - current_memory_size_ m)) as [Hfit|Hfit].
  - exists true. eexists. split; [reflexivity|]. split_and!; auto using inv_memory; [now left|done|].
    unfold accounted. cbn. change (mem_cost (set_memory _ m)) with (mem_cost m).
    rewrite wrap_id by (unfold unsigned_range; lia). lia.
  - pose proof (gl_lru _ (proj1 Hinv)) as Hl. pose proof (gl_rr _ (proj1 Hinv)) as Hrr.
    destruct (request_loop_total locked need (memory_limit_ m - current_memory_size_ m) (round_robin_ m)
                (length (lru_caches_ m)) 0 0 m C) as (f & m1 & E & I1 & [[V1 V2] V3 V4 V5 V6] & F1 & M1 & X1); auto; try lia.
    { now rewrite Nat.add_0_r, Nat.mod_small. }
    rewrite E. cbn [res_bind]. pose proof (inv_mem_nonneg _ _ I1).
    rewrite (wrap_id 64 (f + _)) by (unfold unsigned_range; lia). rewrite V2.
    eexists _, _. split; [reflexivity|].
    change (mem_cost (set_memory _ m1)) with (mem_cost m1).
    split_and!; auto using inv_memory; [lia|].
    destruct (Z.leb_spec need (f + (memory_limit_ m - current_memory_size_ m))) as [Hok|Hno].
    + unfold accounted. cbn. change (mem_cost (set_memory _ m1)) with (mem_cost m1).
      rewrite V1, wrap_id by (unfold unsigned_range; lia). lia.
    + cbn. rewrite V1, V3. split; [lia|]. split; [f_equal; lia|]. intros i Hi l p. now apply X1.
Qed.

(** ** Queues *)
Lemma LRUIdx_ok m C o : inv m C -> LRUIdx o m = Ok (idx_of (length (lru_caches_ m)) o).
Proof.
  intros [Hg _]. pose proof (gl_lru _ Hg). unfold LRUIdx. rewrite decide_False by lia. reflexivity.
Qed.

Lemma RemoveFromGCQueue_at m C p o o' m2 :
  inv m C -> objs_ m !! p = Some o -> queued o = true -> id_ o' = id_ o -> lru_caches_ m2 = lru_caches_ m ->
  RemoveFromGCQueue p o' m2 = Ok (true, lru_erase (idx_of (length (lru_caches_ m)) o) p m2).
Proof.
  intros Hinv Ho Hq Hid Hm2. unfold RemoveFromGCQueue, LRUIdx. pose proof (gl_lru _ (proj1 Hinv)).
  rewrite Hm2, decide_False by lia. cbn [res_bind]. rewrite Hid. fold (idx_of (length (lru_caches_ m)) o).
  destruct (queued_in m C p o Hinv Ho Hq) as (l & Hl & Hp). rewrite Hl.
  unfold LRUCache.RemoveFromGCQueue. rewrite decide_True by done. unfold lru_erase. rewrite Hm2.
  f_equal. f_equal. f_equal.
  apply list_eq. intros j. rewrite list_lookup_alter. case_decide as E.
  - subst j. rewrite list_lookup_insert_eq by apply (lookup_lt_Some _ _ _ Hl). now rewrite Hl.
  - now rewrite list_lookup_insert_ne.
Qed.

Lemma RemoveFromGCQueue_ok m C p o :
  inv m C -> objs_ m !! p = Some o -> queued o = true ->
  RemoveFromGCQueue p o m = Ok (true, lru_erase (idx_of (length (lru_caches_ m)) o) p m).
Proof. intros Hinv Ho Hq. by eapply RemoveFromGCQueue_at. Qed.

Lemma PushGCQueue_ok locked m C p o :
  inv m C -> current_memory_size_ m <= memory_limit_ m ->
  PushGCQueue locked p o m =
  Ok (set_lru (alter (LRUCache.PushGCQueue p) (idx_of (length (lru_caches_ m)) o) (lru_caches_ m))
        (round_robin_ m) m).
Proof.
  intros Hinv Hm. unfold PushGCQueue. rewrite (LRUIdx_ok m C) by done. cbn [res_bind].
  cbn. now rewrite (proj2 (Z.ltb_ge _ _) Hm).
Qed.

Lemma lru_erase_only i p m : only p m (lru_erase i p m).
Proof. apply only_lru. intros l q Hq. rewrite elem_of_erase. tauto. Qed.

Lemma push_only i p m :
  only p m (set_lru (alter (LRUCache.PushGCQueue p) i (lru_caches_ m)) (round_robin_ m) m).
Proof.
  apply only_lru. intros l q Hq. unfold LRUCache.PushGCQueue.
  rewrite elem_of_app, list_elem_of_singleton, elem_of_erase. tauto.
Qed.

Lemma NoDup_push p l : NoDup l -> NoDup (LRUCache.PushGCQueue p l).
Proof.
  intros Hl. unfold LRUCache.PushGCQueue. apply NoDup_app. split_and!.
  - now apply NoDup_erase.
  - intros q Hq. apply elem_of_erase in Hq as [_ Hq]. now rewrite list_elem_of_singleton.
  - apply NoDup_singleton.
Qed.

Lemma same_rest_lru m C i (f : list ptr -> list ptr) o p :
  inv m C -> (forall l, NoDup l -> NoDup (f l)) ->
  same_rest m (set_obj p o (set_lru (alter f i (lru_caches_ m)) (round_robin_ m) m)).
Proof.
  intros [Hg _] Hf. split; [done..|]. cbn. split; [|apply Hg].
  apply Forall_alter_NoDup; [done|apply Hg].
Qed.

Lemma same_rest_obj m C o p : inv m C -> same_rest m (set_obj p o m).
Proof. intros [Hg _]. split; [done..|]. apply Hg. Qed.

(** The references of an object after it left its queue, or was not in one. *)
Lemma refs_erase m C p o :
  inv m C -> objs_ m !! p = Some o -> queued o = true ->
  refs_of (lru_erase (idx_of (length (lru_caches_ m)) o) p m) p =
  mkRefs (replicate (length (lru_caches_ m)) false) (r_temp (refs_of m p)) (r_ctemp (refs_of m p))
    (r_clean (refs_of m p)).
Proof.
  intros Hinv Ho Hq. destruct (inv_live m C p o Hinv Ho) as (d & _ & Hl).
  { rewrite (queued_status o Hq). discriminate. }
  apply refs_eq; [|done..].
  change (in_each p (alter (LRUCache.erase p) (idx_of (length (lru_caches_ m)) o) (lru_caches_ m)) =
          replicate (length (lru_caches_ m)) false).
  pose proof (idx_of_lt _ o (gl_lru _ (proj1 Hinv))) as Hi.
  rewrite in_each_erase by done. pose proof (li_queue _ _ _ _ _ _ Hl) as E. rewrite Hq in E. cbn in E.
  rewrite E. now apply queue_at_reset.
Qed.

(** ** Loading *)
Lemma loaded_live n o r r' tf df d w :
  live n o r tf df d -> rc_ o + 1 < 2 ^ 64 -> status_ o <> kClean -> derived_ w = worker o ->
  data_ w = match type_ o with kMmap => None | _ => Some d end ->
  (type_ o = kMmap -> mmap_data_ w = Some d) ->
  r' = mkRefs (replicate n false) (r_temp r) (r_ctemp r) (r_clean r) ->
  live n (set_rc (u64 (rc_ o + 1)) (set_status kLoaded (set_worker w o))) r' tf df d.
Proof.
  intros [L1 [L2 L2'] L3 L4 L5 L6 L7 L8 L9 L10 L11 L12 [L13 L14]] Hrc Hs Hw Hd Hm ->.
  rewrite (wrap_id 64) by (unfold unsigned_range; lia).
  unfold resident, shape, saved_type, small_file, worker in *.
  split; cbn in *; unfold worker, small_file; cbn; rewrite ?Hw; auto; try discriminate.
  - split; [lia|]. split; [lia|done].
  - rewrite Hd. now destruct (type_ o).
  - unfold worker. cbn. rewrite Hw. split; [exact L13|exact L14].
Qed.

Lemma cost_live n o r tf df d : live n o r tf df d -> cost o = if resident o then GetBufferSize o else 0.
Proof. intros Hl. unfold cost. rewrite (li_data _ _ _ _ _ _ Hl). now destruct (resident o). Qed.

Definition loaded o (w : FileWorker W D) : BufferObj W D :=
  set_rc (u64 (rc_ o + 1)) (set_status kLoaded (set_worker w o)).

(** The manager after an object left its queue. *)
Definition unqueue p o m : BufferManager W D :=
  if queued o then lru_erase (idx_of (length (lru_caches_ m)) o) p m else m.

Lemma unqueue_same p o m :
  objs_ (unqueue p o m) = objs_ m /\ files_ (unqueue p o m) = files_ m /\
  current_memory_size_ (unqueue p o m) = current_memory_size_ m /\
  memory_limit_ (unqueue p o m) = memory_limit_ m /\ clean_list_ (unqueue p o m) = clean_list_ m /\
  temp_set_ (unqueue p o m) = temp_set_ m /\ clean_temp_set_ (unqueue p o m) = clean_temp_set_ m /\
  buffer_map_ (unqueue p o m) = buffer_map_ m.
Proof. unfold unqueue. now destruct (queued o). Qed.

Lemma unqueue_only p o m : only p m (unqueue p o m).
Proof. unfold unqueue. destruct (queued o); [apply lru_erase_only|apply only_refl]. Qed.

Lemma unqueue_rest m C p o : inv m C -> same_rest m (unqueue p o m).
Proof.
  intros [Hg _]. unfold unqueue. destruct (queued o); (split; [done..|]); [|apply Hg].
  cbn. split; [|apply Hg]. apply Forall_alter_NoDup; [intros; now apply NoDup_erase|apply Hg].
Qed.

Lemma unqueue_refs m C p o :
  inv m C -> objs_ m !! p = Some o -> status_ o <> kClean ->
  in_each p (lru_caches_ (unqueue p o m)) = replicate (length (lru_caches_ m)) false.
Proof.
  intros Hinv Ho Hs. unfold unqueue. destruct (queued o) eqn:Hq.
  - pose proof (refs_erase m C p o Hinv Ho Hq) as E. apply (f_equal r_queue) in E. exact E.
  - destruct (inv_live m C p o Hinv Ho Hs) as (d & _ & Hl).
    pose proof (li_queue _ _ _ _ _ _ Hl) as E. now rewrite Hq in E.
Qed.

(** The last step of [Load]: [slack] bytes were reserved for the data. *)
Lemma load_finish m C p o d w slack :
  inv m C -> objs_ m !! p = Some o -> C !! p = Some d -> rc_ o + 1 < 2 ^ 64 -> status_ o <> kClean ->
  same_place o (loaded o w) ->
  data_ w = match type_ o with kMmap => None | _ => Some d end ->
  (type_ o = kMmap -> mmap_data_ w = Some d) ->
  accounted slack m -> slack = cost (loaded o w) - cost o ->
  inv (set_obj p (loaded o w) (unqueue p o m)) C /\ accounted 0 (set_obj p (loaded o w) (unqueue p o m)).
Proof.
  intros Hinv Ho HC Hrc Hs Hsp Hd Hm [Ha1 Ha2] Hsl.
  destruct (unqueue_same p o m) as (U1 & U2 & U3 & U4 & U5 & U6 & U7 & U8).
  destruct (inv_live m C p o Hinv Ho Hs) as (d' & HC' & Hl). assert (d' = d) as -> by congruence. split.
  - rewrite <- (insert_id C p d HC). apply (inv_update p o (loaded o w) d m); [done|done| | |done| |discriminate|].
    + eapply only_trans; [apply unqueue_only|apply only_set_obj].
    + cbn. now rewrite U1.
    + destruct (unqueue_rest m C p o Hinv). split; auto.
    + cbn. rewrite U2. eapply loaded_live; eauto; [apply Hsp|].
      apply refs_eq; cbn; rewrite ?U5, ?U6, ?U7; try done. by eapply unqueue_refs.
  - unfold accounted. rewrite (mem_cost_set _ p o) by now rewrite U1. cbn. rewrite U3, U4.
    unfold mem_cost at 1. rewrite U1. fold (mem_cost m). lia.
Qed.

(** Memory cannot be found for [need] bytes, even after freeing all that is not locked. *)
Definition out_of_memory (locked : gset ptr) (need : Z) m C : Prop :=
  exists m', inv m' C /\ memory_limit_ m' < mem_cost m' + need /\
    forall l p, l ∈ lru_caches_ m' -> p ∈ l -> p ∈ locked.

Lemma request_for locked need m C p o :
  inv m C -> accounted 0 m -> objs_ m !! p = Some o -> home m p o -> need = GetBufferSize o ->
  (exists m', RequestSpace ({[p]} ∪ locked) need m = Ok (true, m') /\ inv m' C /\ accounted need m' /\
     objs_ m' !! p = Some o) \/
  (exists m', RequestSpace ({[p]} ∪ locked) need m = Ok (false, m')) /\
     out_of_memory ({[p]} ∪ locked) need m C.
Proof.
  intros Hinv Ha Ho Hh ->. pose proof (home_cost m p o Hh) as Hc.
  destruct (RequestSpace_ok ({[p]} ∪ locked) (GetBufferSize o) m C Hinv Ha Hc)
    as ([|] & m' & E & I' & Hk & _ & _ & _ & _ & H).
  - left. exists m'. split_and!; auto. rewrite Hk by set_solver. done.
  - right. split; [eauto|]. exists m'. destruct H as (H1 & _ & H2). split_and!; auto.
    intros l q Hl Hq. apply list_elem_of_lookup in Hl as [i Hi].
    apply (H2 i (lookup_lt_Some _ _ _ Hi) l q Hi Hq).
Qed.

Lemma same_place_loaded o w :
  data_dir_ w = data_dir_ (file_worker_ o) -> temp_dir_ w = temp_dir_ (file_worker_ o) ->
  file_dir_ w = file_dir_ (file_worker_ o) -> file_name_ w = file_name_ (file_worker_ o) ->
  derived_ w = derived_ (file_worker_ o) -> same_place o (loaded o w).
Proof. intros. now split. Qed.

Lemma load_mmap_ok m C p o d :
  inv m C -> accounted 0 m -> objs_ m !! p = Some o -> status_ o <> kClean -> C !! p = Some d ->
  rc_ o + 1 < 2 ^ 64 -> type_ o = kMmap ->
  exists m', BufferObj.load_mmap p o m = Ok (Some d, m') /\ inv m' C /\ accounted 0 m'.
Proof.
  intros Hinv Ha Ho Hs HC Hrc Ht. pose proof (inv_home m C p o Hinv Ho) as Hh.
  destruct (inv_live m C p o Hinv Ho Hs) as (d' & HC' & Hl). assert (d' = d) as -> by congruence.
  assert (Hdata : data_ (file_worker_ o) = None).
  { rewrite (li_data _ _ _ _ _ _ Hl). unfold resident. rewrite Ht. now destruct (status_ o). }
  assert (Hw : exists w, match status_ o with
      | kUnloaded | kLoaded => Ok (file_worker_ o)
      | kFreed | kNew => FileWorker.Mmap (file_worker_ o) (files_ m)
      | kClean => Err Unrecoverable
      end = Ok w /\ same_place o (loaded o w) /\ data_ w = None /\ mmap_data_ w = Some d).
  { pose proof (li_shape _ _ _ _ _ _ Hl) as Hsh. unfold shape in Hsh. rewrite Ht in Hsh.
    pose proof (li_mmap _ _ _ _ _ _ Hl Ht) as Hm.
    destruct (status_ o) eqn:Es; try discriminate; try (eexists; split_and!; [done|done|done|now apply Hm]).
    eexists. split; [apply FileWorker.mmap_file_image|].
    - apply Hh.
    - apply Hl.
    - exact (path_absolute m p o false Hh).
    - apply (li_saved _ _ _ _ _ _ Hl). unfold saved_type. now rewrite Ht.
    - now split_and!. }
  destruct Hw as (w & Ew & Hsp & Hd & Hmd). unfold BufferObj.load_mmap. rewrite Ew. cbn [res_bind].
  rewrite Hmd. eexists. split; [reflexivity|]. fold (loaded o w).
  assert (Hu : unqueue p o m = m).
  { unfold unqueue, queued. rewrite Ht. now destruct (status_ o). }
  rewrite <- Hu. apply (load_finish m C p o d w 0); auto; rewrite ?Ht; auto.
  unfold cost. cbn. now rewrite Hd, Hdata.
Qed.

Lemma accounted_counts r c slack m : accounted slack m -> accounted slack (set_counts r c m).
Proof. done. Qed.

(** [load_data] brings the contents into memory, or there is no memory for them. *)
Lemma load_data_ok locked m C p o d :
  inv m C -> accounted 0 m -> objs_ m !! p = Some o -> status_ o <> kClean -> C !! p = Some d ->
  type_ o <> kMmap ->
  (exists w m1, BufferObj.load_data ({[p]} ∪ locked) p o m = Ok (w, unqueue p o m1) /\ inv m1 C /\
     objs_ m1 !! p = Some o /\ same_place o (loaded o w) /\ data_ w = Some d /\
     accounted (cost (loaded o w) - cost o) m1) \/
  (BufferObj.load_data ({[p]} ∪ locked) p o m = Err Unrecoverable /\
     out_of_memory ({[p]} ∪ locked) (GetBufferSize o) m C).
Proof.
  intros Hinv Ha Ho Hs HC Ht. pose proof (inv_home m C p o Hinv Ho) as Hh.
  destruct (inv_live m C p o Hinv Ho Hs) as (d' & HC' & Hl). assert (d' = d) as -> by congruence.
  pose proof (li_data _ _ _ _ _ _ Hl) as Hdata. pose proof (li_shape _ _ _ _ _ _ Hl) as Hsh.
  unfold BufferObj.load_data, resident, shape in *.
  set (m0 := BufferObj.AddCacheMissCount m). assert (I0 : inv m0 C) by now apply inv_counts.
  assert (Hreq : forall d', data_ (file_worker_ o) = None ->
    accounted (cost (loaded o (FileWorker.set_data (Some d') (file_worker_ o))) - cost o) =
    accounted (W := W) (D := D) (GetBufferSize o)).
  { intros d' Hn. unfold cost. cbn. rewrite Hn. f_equal. apply Z.sub_0_r. }
  pose proof (request_for locked (GetBufferSize o) m0 C p o I0 Ha Ho ltac:(by eapply inv_home) eq_refl) as HR.
  destruct (status_ o) eqn:Es; try discriminate.
  - left. exists (file_worker_ o), m. unfold unqueue, queued. rewrite Es.
    split_and!; [done..|now destruct (type_ o)|].
    change (cost (loaded o (file_worker_ o))) with (cost o). now rewrite Z.sub_diag.
  - left. exists (file_worker_ o), m. assert (Hq : queued o = true).
    { unfold queued. rewrite Es. now destruct (type_ o). }
    rewrite (RemoveFromGCQueue_ok m C p o Hinv Ho Hq). cbn [res_bind].
    unfold unqueue. rewrite Hq. split_and!; [done..|now destruct (type_ o)|].
    change (cost (loaded o (file_worker_ o))) with (cost o). now rewrite Z.sub_diag.
  - destruct HR as [(m1 & E & I1 & A1 & O1)|[(m1 & E) Hoom]]; rewrite E; cbn [res_bind]; [left|by right].
    destruct (inv_live m1 C p o I1 O1 ltac:(congruence)) as (d1 & HC1 & Hl1).
    assert (d1 = d) as -> by congruence.
    assert (Hf : files_ m1 !! path (negb (bool_decide (type_ o = kPersistent))) o = Some (image (worker o) d)).
    { destruct (type_ o) eqn:Et; try discriminate; try congruence.
      - rewrite bool_decide_true by done. apply (li_saved _ _ _ _ _ _ Hl1). unfold saved_type. now rewrite Et.
      - rewrite bool_decide_false by done. now apply (li_spill _ _ _ _ _ _ Hl1). }
    rewrite bool_decide_false by now destruct (type_ o). cbn [negb].
    rewrite (FileWorker.read_file_image _ _ d); [|apply Hh|apply Hl|exact Hf]. cbn [res_bind].
    eexists _, m1. unfold unqueue, queued. rewrite Es. split_and!; [done..|]. now rewrite Hreq.
  - destruct HR as [(m1 & E & I1 & A1 & O1)|[(m1 & E) Hoom]]; rewrite E; cbn [res_bind]; [left|by right].
    unfold FileWorker.AllocateInMemory. rewrite Hdata. fold (worker o). rewrite (li_new _ _ _ _ _ _ Hl) by done.
    cbn [res_bind].
    eexists _, m1. unfold unqueue, queued. rewrite Es. split_and!; [done..|]. now rewrite Hreq.
Qed.

Lemma Load_ok locked m C p o d :
  inv m C -> accounted 0 m -> objs_ m !! p = Some o -> status_ o <> kClean -> C !! p = Some d ->
  rc_ o + 1 < 2 ^ 64 ->
  (exists m', BufferObj.Load locked p m = Ok (Some d, m') /\ inv m' C /\ accounted 0 m') \/
  (BufferObj.Load locked p m = Err Unrecoverable /\ resident o = false /\
     out_of_memory ({[p]} ∪ locked) (GetBufferSize o) m C).
Proof.
  intros Hinv Ha Ho Hs HC Hrc. unfold BufferObj.Load.
  set (m0 := BufferObj.AddRequestCount m). assert (I0 : inv m0 C) by now apply inv_counts.
  change (objs_ m) with (objs_ m0) in Ho. rewrite (deref_ok p m0 o Ho). cbn [res_bind].
  case_decide as Ht.
  - left. by eapply (load_mmap_ok m0).
  - destruct (load_data_ok locked m0 C p o d I0 Ha Ho Hs HC Ht) as [(w & m1 & E & I1 & O1 & Hsp & Hd & A1)|[E Hoom]];
      rewrite E; cbn [res_bind].
    + left. rewrite Hd. eexists. split; [reflexivity|]. fold (loaded o w).
      apply (load_finish m1 C p o d w (cost (loaded o w) - cost o)); auto; [|tauto].
      rewrite Hd. now destruct (type_ o).
    + right. split_and!; [done| |done]. destruct (inv_live m0 C p o I0 Ho Hs) as (d' & _ & Hl).
      destruct (resident o) eqn:Er; [|done]. exfalso. revert E. unfold BufferObj.load_data, resident in *.
      destruct (status_ o) eqn:Es; try discriminate.
      assert (Hq : queued o = true) by (unfold queued; rewrite Es; now destruct (type_ o)).
      now rewrite (RemoveFromGCQueue_ok m0 C p o I0 Ho Hq).
Qed.

(** ** Handles and reference counts *)

(** A change of the object alone. *)
Lemma inv_set_obj m C p o o' d :
  inv m C -> objs_ m !! p = Some o -> same_place o o' -> status_ o' <> kClean ->
  live (length (lru_caches_ m)) o' (refs_of m p) (files_ m !! path true o) (files_ m !! path false o) d ->
  inv (set_obj p o' m) (<[p := d]> C).
Proof.
  intros Hinv Ho Hsp Hs Hl. apply (inv_update p o o' d m); auto using only_set_obj. by eapply same_rest_obj.
Qed.

Lemma accounted_set_obj m p o o' slack :
  objs_ m !! p = Some o -> accounted slack m -> accounted (slack + cost o - cost o') (set_obj p o' m).
Proof. intros Ho [H1 H2]. unfold accounted. rewrite (mem_cost_set m p o) by done. cbn. lia. Qed.

Lemma accounted_same m p o o' :
  objs_ m !! p = Some o -> cost o' = cost o -> accounted 0 m -> accounted 0 (set_obj p o' m).
Proof.
  intros Ho Hc Ha. pose proof (accounted_set_obj m p o o' 0 Ho Ha) as H. rewrite Hc in H.
  now replace (0 + cost o - cost o) with 0 in H by lia.
Qed.

(** What the operations keep. *)
Definition good m C : Prop := inv m C /\ accounted 0 m.

(** Follow the pointer an operation starts with. *)
Ltac deref_obj H o Ho :=
  match type of H with context [deref ?p ?m] =>
    unfold deref in H; destruct (objs_ m !! p) as [o|] eqn:Ho; [|discriminate H]; cbn [res_bind] in H
  end.

Lemma LoadInner_ok m m' C p :
  good m C -> BufferObj.LoadInner p m = Ok m' ->
  (forall o, objs_ m !! p = Some o -> rc_ o + 1 < 2 ^ 64) -> good m' C.
Proof.
  intros [Hinv Ha] H Hrc. unfold BufferObj.LoadInner in H. deref_obj H o Ho.
  destruct (bool_decide_reflect (status_ o = kLoaded)) as [Hs|]; [|discriminate]. injection H as <-.
  destruct (inv_live m C p o Hinv Ho ltac:(congruence)) as (d & HC & Hl).
  assert (E : set_rc (u64 (rc_ o + 1)) o = loaded o (file_worker_ o)) by (unfold loaded, set_rc; cbn; now rewrite Hs).
  rewrite E. assert (Hu : unqueue p o m = m) by (unfold unqueue, queued; now rewrite Hs). 
  unfold good. rewrite <- Hu.
  apply (load_finish m C p o d (file_worker_ o) 0); auto; try congruence; [done| | |].
  - rewrite (li_data _ _ _ _ _ _ Hl). unfold resident. rewrite Hs. now destruct (type_ o).
  - intros Ht. apply (li_mmap _ _ _ _ _ _ Hl Ht). congruence.
  - change (cost (loaded o (file_worker_ o))) with (cost o). lia.
Qed.

Lemma live_rc n o r tf df d k :
  live n o r tf df d -> status_ o = kLoaded -> 0 < k < 2 ^ 64 -> live n (set_rc k o) r tf df d.
Proof.
  intros [L1 [L2 L2'] L3 L4 L5 L6 L7 L8 L9 L10 L11 L12 L13] Hs Hk.
  split; auto. cbn. split; [lia|]. split; [lia|done].
Qed.

Lemma live_obj_rc n o r tf df d k : live n o r tf df d -> live n (set_obj_rc k o) r tf df d.
Proof. intros [L1 L2 L3 L4 L5 L6 L7 L8 L9 L10 L11 L12 L13]. split; auto. Qed.

Lemma AddObjRc_ok m m' C p :
  good m C -> BufferObj.AddObjRc p m = Ok m' ->
  (forall o, objs_ m !! p = Some o -> status_ o <> kClean) -> good m' C.
Proof.
  intros [Hinv Ha] H Hs. unfold BufferObj.AddObjRc in H. deref_obj H o Ho.
  injection H as <-. destruct (inv_live m C p o Hinv Ho (Hs o eq_refl)) as (d & HC & Hl). split.
  - rewrite <- (insert_id C p d HC). apply (inv_set_obj m C p o); [done..|by apply (Hs o)|now apply live_obj_rc].
  - by eapply accounted_same.
Qed.

(** The memory of an object that is in memory can be given back. *)
Lemma FreeUnloadBuffer_ok m C p o o' m2 :
  good m C -> objs_ m !! p = Some o -> data_ (file_worker_ o) <> None -> GetBufferSize o' = GetBufferSize o ->
  current_memory_size_ m2 = current_memory_size_ m ->
  FreeUnloadBuffer o' m2 = Ok (set_memory (current_memory_size_ m - GetBufferSize o) m2) /\
  cost o = GetBufferSize o.
Proof.
  intros [Hinv [Ha Hle]] Ho Hd Hb Hm. unfold FreeUnloadBuffer. rewrite Hb, Hm.
  pose proof (inv_mem_ge m C Hinv p o Ho) as Hge.
  assert (Hc : cost o = GetBufferSize o) by (unfold cost; now destruct (data_ _)). rewrite Hc in Hge.
  pose proof (home_cost m p o (inv_home m C p o Hinv Ho)). pose proof (gl_limit _ (proj1 Hinv)) as Hlim.
  unfold unsigned_range in Hlim. rewrite (proj2 (Z.leb_le _ _)) by lia.
  rewrite wrap_id by (unfold unsigned_range; lia). done.
Qed.

(** An object that leaves memory for its mapping. *)
Definition unmapped o : BufferObj W D :=
  mkBufferObj kFreed kMmap 0 (FileWorker.set_data None (file_worker_ o)) (id_ o) (obj_rc_ o).

Lemma unmapped_live n o r r' tf df d :
  live n o r tf df d -> saved_type o = true -> is_temp (type_ o) = false ->
  r' = mkRefs (replicate n false) (r_temp r) (r_ctemp r) (r_clean r) ->
  live n (unmapped o) r' tf df d.
Proof.
  intros [L1 L2 L3 L4 L5 L6 L7 L8 L9 L10 L11 L12 [L13 L14]] Hsv Ht ->.
  split; cbn; auto; try discriminate.
  - split; [lia|]. split; [discriminate|lia].
  - now rewrite L5.
  - intros Hc. split; [discriminate|now apply L6].
  - intros _ Hc. now destruct Hc.
Qed.

Lemma unmapped_ok m C p o o' :
  good m C -> objs_ m !! p = Some o -> resident o = true -> saved_type o = true ->
  GetBufferSize o' = GetBufferSize o ->
  exists m1, FreeUnloadBuffer o' (unqueue p o m) = Ok m1 /\ good (set_obj p (unmapped o) m1) C.
Proof.
  intros Hg Ho Hr Hsv Hb. pose proof Hg as [Hinv Ha].
  destruct (unqueue_same p o m) as (U1 & U2 & U3 & U4 & U5 & U6 & U7 & U8).
  assert (Hs : status_ o <> kClean) by (intros E; unfold resident in Hr; now rewrite E in Hr).
  destruct (inv_live m C p o Hinv Ho Hs) as (d & HC & Hl).
  assert (Hd : data_ (file_worker_ o) <> None) by (rewrite (li_data _ _ _ _ _ _ Hl), Hr; discriminate).
  destruct (FreeUnloadBuffer_ok m C p o o' (unqueue p o m) Hg Ho Hd Hb U3) as [-> Hc].
  eexists. split; [reflexivity|]. split.
  - rewrite <- (insert_id C p d HC). apply (inv_update p o (unmapped o) d m); [done|done| | |done| |done|].
    + etrans; [apply unqueue_only|]. etrans; [apply only_memory|apply only_set_obj].
    + cbn. now rewrite U1.
    + destruct (unqueue_rest m C p o Hinv). split; auto.
    + cbn. rewrite U2. eapply unmapped_live; [exact Hl|done| |].
      * unfold saved_type in Hsv. now destruct (type_ o).
      * apply refs_eq; cbn; rewrite ?U5, ?U6, ?U7; try done. by eapply unqueue_refs.
  - destruct Ha as [Ha1 Ha2]. unfold accounted. rewrite (mem_cost_set _ p o) by (cbn; now rewrite U1).
    unfold mem_cost at 1. cbn. rewrite U1, U4. fold (mem_cost m). rewrite Hc.
    change (cost (unmapped o)) with 0.
    pose proof (home_cost m p o (inv_home m C p o Hinv Ho)). lia.
Qed.

Lemma pushed_live n o r r' tf df d :
  (idx_of n o < n)%nat ->
  live n o r tf df d -> status_ o = kLoaded -> resident o = true -> type_ o <> kToMmap ->
  r' = mkRefs (queue_at n (idx_of n o)) (r_temp r) (r_ctemp r) (r_clean r) ->
  live n (set_status kUnloaded (set_rc 0 o)) r' tf df d.
Proof.
  intros Hi [L1 L2 L3 L4 L5 L6 L7 L8 L9 L10 L11 L12 [L13 L14]] Hs Hr Ht ->.
  unfold resident in *. rewrite Hs in *. unfold shape, queued, resident.
  split; cbn; auto; unfold shape, queued, resident; cbn.
  - split; [lia|]. split; [discriminate|lia].
  - now destruct (type_ o).
  - now destruct (type_ o).
  - discriminate.
Qed.

Lemma pushed_ok locked m C p o :
  good m C -> objs_ m !! p = Some o -> status_ o = kLoaded -> resident o = true -> type_ o <> kToMmap ->
  exists m1, PushGCQueue locked p (set_rc 0 o) m = Ok m1 /\
    good (set_obj p (set_status kUnloaded (set_rc 0 o)) m1) C.
Proof.
  intros [Hinv Ha] Ho Hs Hr Ht. destruct (inv_live m C p o Hinv Ho ltac:(congruence)) as (d & HC & Hl).
  rewrite (PushGCQueue_ok locked m C) by (auto; apply Ha). eexists. split; [reflexivity|].
  change (idx_of (length (lru_caches_ m)) (set_rc 0 o)) with (idx_of (length (lru_caches_ m)) o).
  pose proof (idx_of_lt _ o (gl_lru _ (proj1 Hinv))) as Hi. split.
  - rewrite <- (insert_id C p d HC).
    eapply (inv_update p o _ d m); [done|done| |reflexivity|done| |done|].
    + etrans; [apply push_only|apply only_set_obj].
    + eapply same_rest_lru; [done|]. intros l. apply NoDup_push.
    + cbn. eapply pushed_live; [done|exact Hl|done..|]. apply refs_eq; [|done..].
      change (in_each p (alter (LRUCache.PushGCQueue p) (idx_of (length (lru_caches_ m)) o) (lru_caches_ m)) =
              queue_at (length (lru_caches_ m)) (idx_of (length (lru_caches_ m)) o)).
      rewrite in_each_push by done. unfold queue_at. f_equal.
      pose proof (li_queue _ _ _ _ _ _ Hl) as E. unfold queued in E. now rewrite Hs in E.
  - destruct Ha as [Ha1 Ha2]. unfold accounted. rewrite (mem_cost_set _ p o) by done.
    cbn. change (mem_cost (set_lru _ _ m)) with (mem_cost m).
    change (cost (set_status kUnloaded (set_rc 0 o))) with (cost o). lia.
Qed.

Lemma mmap_unloaded_live n o r tf df d :
  live n o r tf df d -> status_ o = kLoaded -> type_ o = kMmap ->
  live n (set_status kUnloaded (set_rc 0 o)) r tf df d.
Proof.
  intros [L1 L2 L3 L4 L5 L6 L7 L8 L9 L10 L11 L12 [L13 L14]] Hs Ht.
  unfold resident, queued in *. rewrite Hs, Ht in *.
  split; cbn; unfold shape, queued, resident; cbn; rewrite ?Ht; auto; try discriminate.
  - split; [lia|]. split; [discriminate|lia].
Qed.

Lemma UnloadInner_ok locked m m' C p :
  good m C -> BufferObj.UnloadInner locked p m = Ok m' -> good m' C.
Proof.
  intros Hg H. pose proof Hg as [Hinv Ha]. unfold BufferObj.UnloadInner in H. deref_obj H o Ho.
  destruct (bool_decide_reflect (status_ o = kLoaded)) as [Hs|]; [|discriminate].
  destruct (inv_live m C p o Hinv Ho ltac:(congruence)) as (d & HC & Hl).
  pose proof (proj2 (li_rc _ _ _ _ _ _ Hl)) as Hrc. apply proj1 in Hrc. specialize (Hrc Hs).
  pose proof (proj1 (li_rc _ _ _ _ _ _ Hl)) as Hrb.
  rewrite (wrap_id 64 (rc_ o - 1)) in H by (unfold unsigned_range; lia). cbn [set_rc rc_] in H.
  destruct (Z.eqb_spec (rc_ o - 1) 0) as [E0|E0].
  2:{ injection H as <-. split; [|by eapply accounted_same].
      rewrite <- (insert_id C p d HC). apply (inv_set_obj m C p o); [done..|cbn; congruence|].
      apply live_rc; [done|done|lia]. }
  assert (Hu : unqueue p o m = m) by (unfold unqueue, queued; now rewrite Hs).
  cbn [set_rc type_] in H. rewrite E0 in H. fold (set_rc 0 o) in H.
  destruct (decide (type_ o = kMmap)) as [Et|Hnm].
  { rewrite Et in H. injection H as <-. split; [|by eapply accounted_same].
    rewrite <- (insert_id C p d HC). apply (inv_set_obj m C p o); [done..|].
    now apply mmap_unloaded_live. }
  assert (Hr : resident o = true) by (unfold resident; rewrite Hs; now destruct (type_ o)).
  destruct (decide (type_ o = kToMmap)) as [Et|Hnt].
  { rewrite Et in H. unfold FileWorker.FreeInMemory in H. cbn [set_rc file_worker_] in H.
    rewrite (li_data _ _ _ _ _ _ Hl), Hr in H. cbn [res_bind] in H. rewrite <- Hu in H.
    destruct (unmapped_ok m C p o (set_worker (FileWorker.set_data None (file_worker_ o)) (set_rc 0 o)))
      as (m1 & E & Hg1); auto; [unfold saved_type; now rewrite Et|].
    rewrite E in H. cbn [res_bind] in H. injection H as <-. exact Hg1. }
  destruct (pushed_ok ({[p]} ∪ locked) m C p o) as (m1 & E & Hg1); auto.
  rewrite E in H. destruct (type_ o); try congruence; cbn [res_bind] in H; injection H as <-; exact Hg1.
Qed.

(** ** Writing through a handle *)
Definition ephemeral o (w : FileWorker W D) : BufferObj W D := set_type kEphemeral (set_worker w o).

Lemma ephemeral_live n o r r' tf df d w c :
  live n o r tf df d -> status_ o = kLoaded -> derived_ w = worker o -> data_ w = Some d ->
  r' = mkRefs (r_queue r) false c (r_clean r) -> (c = true -> is_Some tf) ->
  live n (ephemeral o w) r' tf df d.
Proof.
  intros [L1 L2 L3 L4 L5 L6 L7 L8 L9 L10 L11 L12 [L13 L14]] Hs Hw Hd -> Hc.
  unfold shape, queued in *. rewrite Hs in *.
  assert (Hw' : worker (ephemeral o w) = worker o) by exact Hw.
  split; unfold shape, queued, resident, saved_type, small_file; cbn [ephemeral set_type set_worker status_ type_ rc_ file_worker_ r_queue r_temp r_ctemp r_clean];
    rewrite ?Hw', ?Hs; auto; try discriminate.
Qed.

Lemma ephemeral_ok m C p o d w m1 c slack :
  inv m C -> objs_ m !! p = Some o -> C !! p = Some d -> status_ o = kLoaded ->
  same_place o (ephemeral o w) -> data_ w = Some d ->
  only p m m1 -> objs_ m1 = objs_ m -> same_rest m m1 -> files_ m1 = files_ m ->
  refs_of m1 p = mkRefs (r_queue (refs_of m p)) false c (r_clean (refs_of m p)) ->
  (c = true -> is_Some (files_ m !! path true o)) ->
  accounted slack m1 -> slack = cost (ephemeral o w) - cost o -> good (set_obj p (ephemeral o w) m1) C.
Proof.
  intros Hinv Ho HC Hs Hsp Hd Hon Eo Hsr Ef Er Hc [Ha1 Ha2] Hsl.
  destruct (inv_live m C p o Hinv Ho ltac:(congruence)) as (d' & HC' & Hl). assert (d' = d) as -> by congruence.
  split.
  - rewrite <- (insert_id C p d HC). eapply (inv_update p o _ d m); [done|done| | |done| | |].
    + etrans; [exact Hon|apply only_set_obj].
    + cbn. now rewrite Eo.
    + destruct Hsr. split; auto.
    + cbn. congruence.
    + cbn. rewrite Ef. eapply ephemeral_live; eauto. apply Hsp.
  - unfold accounted. rewrite (mem_cost_set _ p o) by now rewrite Eo. cbn. lia.
Qed.

Lemma GetMutPointer_ok locked m r m' C p :
  good m C -> BufferObj.GetMutPointer locked p m = Ok (r, m') ->
  (forall o, objs_ m !! p = Some o -> 0 < rc_ o /\ status_ o <> kClean) -> good m' C /\ r = C !! p.
Proof.
  intros [Hinv Ha] H Hrc. unfold BufferObj.GetMutPointer in H. deref_obj H o Ho.
  destruct (Hrc o eq_refl) as [Hrc1 Hnc].
  destruct (inv_live m C p o Hinv Ho Hnc) as (d & HC & Hl). pose proof (inv_home m C p o Hinv Ho) as Hh.
  pose proof (proj2 (proj2 (li_rc _ _ _ _ _ _ Hl)) Hrc1) as Hs.
  pose proof (li_data _ _ _ _ _ _ Hl) as Hdata. unfold resident in Hdata. rewrite Hs in Hdata.
  pose proof (li_temp _ _ _ _ _ _ Hl) as Htmp. pose proof (li_ctemp _ _ _ _ _ _ Hl) as Hct. rewrite HC.
  destruct (decide (type_ o = kMmap)) as [Et|Hnm].
  - rewrite Et in H, Hdata. destruct (request_for locked (GetBufferSize o) m C p o Hinv Ha Ho Hh eq_refl)
      as [(m1 & E & I1 & A1 & O1)|[(m1 & E) _]]; rewrite E in H; cbn [res_bind] in H; [|discriminate].
    destruct (inv_live m1 C p o I1 O1 Hnc) as (d1 & HC1 & Hl1). assert (d1 = d) as -> by congruence.
    rewrite (FileWorker.read_file_image _ _ d) in H; [|apply Hh|apply Hl|].
    2:{ apply (li_saved _ _ _ _ _ _ Hl1). unfold saved_type. now rewrite Et. }
    cbn [res_bind] in H. injection H as <- <-. split; [|done].
    apply (ephemeral_ok m1 C p o d _ m1 (r_ctemp (refs_of m1 p)) (GetBufferSize o));
      [done..|apply only_refl|done|split; [done..|apply I1]|done| | |done|].
    + apply refs_eq; try done. pose proof (li_temp _ _ _ _ _ _ Hl1) as E1. now rewrite Et in E1.
    + intros E1. now apply (li_ctemp _ _ _ _ _ _ Hl1).
    + unfold cost. cbn. rewrite Hdata. symmetry. apply Z.sub_0_r.
  - assert (Hd : data_ (file_worker_ o) = Some d) by now destruct (type_ o).
    destruct (decide (type_ o = kTemp)) as [Et|Hnt].
    + rewrite Et in H, Htmp, Hct. unfold RemoveTemp in H. cbn in Htmp, Hct.
      rewrite decide_True in H by now apply bool_decide_eq_true in Htmp.
      rewrite decide_False in H.
      2:{ intros E. apply (bool_decide_eq_true_2 _) in E. now destruct (Hct E). }
      cbn [res_bind] in H. injection H as <- <-. split; [|done].
      eapply (ephemeral_ok m C p o d _ _ true 0);
        [done..| |done|split; [done..|apply Hinv]|done| | |done|].
      * apply only_temps; set_solver.
      * apply refs_eq; cbn; [done|..|done]; [apply bool_decide_false|apply bool_decide_true]; set_solver.
      * intros _. rewrite (li_spill _ _ _ _ _ _ Hl Et). eauto.
      * change (cost (ephemeral o (file_worker_ o))) with (cost o). lia.
    + assert (E : Ok (data_ (file_worker_ o), set_obj p (ephemeral o (file_worker_ o)) m) = Ok (r, m'))
        by (destruct (type_ o); congruence || exact H).
      injection E as <- <-. split; [|done].
      eapply (ephemeral_ok m C p o d _ _ (r_ctemp (refs_of m p)) 0);
        [done..|apply only_refl|done|split; [done..|apply Hinv]|done| | |done|].
      * apply refs_eq; try done. cbn in Htmp. rewrite Htmp. now destruct (type_ o).
      * intros E1. now apply Hct.
      * change (cost (ephemeral o (file_worker_ o))) with (cost o). lia.
Qed.

(** The client writes through the pointer it got from [GetMutPointer]. *)
Definition WriteData p d m : res (BufferManager W D) :=
  let? o := deref p m in
  Ok (set_obj p (set_worker (FileWorker.set_data (Some d) (file_worker_ o)) o) m).

Lemma WriteData_ok m m' C p d :
  good m C -> WriteData p d m = Ok m' ->
  (forall o, objs_ m !! p = Some o -> status_ o = kLoaded /\ type_ o = kEphemeral /\ data_ok (worker o) d) ->
  good m' (<[p := d]> C).
Proof.
  intros [Hinv Ha] H Hpre. unfold WriteData in H. deref_obj H o Ho. injection H as <-.
  destruct (Hpre o eq_refl) as (Hs & Ht & Hd).
  destruct (inv_live m C p o Hinv Ho ltac:(congruence)) as (d0 & HC & Hl).
  assert (Hd0 : data_ (file_worker_ o) = Some d0).
  { rewrite (li_data _ _ _ _ _ _ Hl). unfold resident. now rewrite Hs, Ht. } split.
  - apply (inv_set_obj m C p o); [done..|cbn; congruence|].
    destruct Hl as [L1 L2 L3 L4 L5 L6 L7 L8 L9 L10 L11 L12 [L13 L14]].
    unfold resident, saved_type in *.
    split; unfold resident, saved_type; cbn; rewrite <- ?Hs, <- ?Ht; auto; rewrite ?Hs, ?Ht; auto; try discriminate.
    now rewrite Hs in L2.
  - apply (accounted_same m p o); [done| |done]. unfold cost. cbn. now rewrite Hd0.
Qed.

(** ** Saving *)
Lemma saved_live n o r r' tf df d :
  live n o r tf df d -> type_ o = kEphemeral \/ type_ o = kTemp -> worker_ok (worker o) -> status_ o <> kNew ->
  r_queue r' = r_queue r -> r_temp r' = false -> r_clean r' = r_clean r ->
  forall tf', (r_ctemp r' = true -> is_Some tf') -> small_file o tf' ->
  live n (set_type kPersistent o) r' tf' (Some (image (worker o) d)) d.
Proof.
  intros [L1 L2 L3 L4 L5 L6 L7 L8 L9 L10 L11 L12 [L13 L14]] Ht Hw Hs Hq Htm Hcl tf' Hc Hsm.
  unfold shape, queued, resident in *.
  split; unfold shape, queued, resident, saved_type; cbn; auto; try discriminate.
  - destruct (status_ o); try discriminate; congruence.
  - rewrite Hq, L4. destruct Ht as [-> | ->]; destruct (status_ o); auto.
  - congruence.
  - rewrite L8. destruct Ht as [-> | ->]; destruct (status_ o); auto.
  - split; [done|]. intros c [= <-]. rewrite image_length by done. reflexivity.
Qed.

(** The data of the object is written to its data file. *)
Lemma save_written m C p o d :
  good m C -> objs_ m !! p = Some o -> C !! p = Some d -> resident o = true -> type_ o = kEphemeral ->
  good (set_obj p (set_type kPersistent o) (set_files (<[path false o := image (worker o) d]> (files_ m)) m)) C.
Proof.
  intros [Hinv Ha] Ho HC Hr Et. pose proof (inv_home m C p o Hinv Ho) as Hh.
  pose proof (path_spill_data m p o Hh) as Hne.
  assert (Hst : status_ o = kLoaded \/ status_ o = kUnloaded).
  { unfold resident in Hr. destruct (status_ o); auto; discriminate. }
  destruct (inv_live m C p o Hinv Ho) as (d' & HC' & Hl); [intuition congruence|].
  assert (d' = d) as -> by congruence.
  split; [|by apply (accounted_same _ p o)].
  rewrite <- (insert_id C p d HC). eapply (inv_update p o _ d m); [done|done| |done|done| | |].
  - etrans; [apply (only_files m C p o); [done|done|]|apply only_set_obj].
    intros f Hf. apply lookup_insert_ne. specialize (Hf false). congruence.
  - split; [done..|apply Hinv].
  - cbn. intuition congruence.
  - cbn. rewrite lookup_insert_eq, lookup_insert_ne by congruence.
    apply (saved_live _ _ (refs_of m p) _ _ _ _ Hl);
      [by left|apply Hh|intuition congruence|done| |done| |apply (li_small _ _ _ _ _ _ Hl)].
    + pose proof (li_temp _ _ _ _ _ _ Hl) as E1. now rewrite Et in E1.
    + intros E1. now apply (li_ctemp _ _ _ _ _ _ Hl).
Qed.

(** The spill file of the object becomes its data file. *)
Lemma save_moved m C p o d :
  good m C -> objs_ m !! p = Some o -> C !! p = Some d -> type_ o = kTemp -> status_ o <> kClean ->
  good (set_obj p (set_type kPersistent o)
          (set_files (<[path false o := image (worker o) d]> (delete (path true o) (files_ m)))
             (set_temps (temp_set_ m ∖ {[p]}) (clean_temp_set_ m) m))) C.
Proof.
  intros [Hinv Ha] Ho HC Et Hnc. pose proof (inv_home m C p o Hinv Ho) as Hh.
  pose proof (path_spill_data m p o Hh) as Hne.
  destruct (inv_live m C p o Hinv Ho Hnc) as (d' & HC' & Hl). assert (d' = d) as -> by congruence.
  pose proof (li_shape _ _ _ _ _ _ Hl) as Hsh. unfold shape in Hsh. rewrite Et in Hsh.
  split; [|by apply (accounted_same _ p o)].
  rewrite <- (insert_id C p d HC). eapply (inv_update p o _ d m); [done|done| |done|done| | |].
  - set (F := <[path false o := image (worker o) d]> (delete (path true o) (files_ m))).
    apply (only_trans p m (set_files F m)).
    + apply (only_files m C p o); [done|done|]. intros f Hf'. unfold F.
      rewrite lookup_insert_ne by (specialize (Hf' false); congruence).
      apply lookup_delete_ne. specialize (Hf' true). congruence.
    + apply (only_trans p _ (set_temps (temp_set_ m ∖ {[p]}) (clean_temp_set_ m) (set_files F m)));
        [apply only_temps; [set_solver|done]|apply only_set_obj].
  - split; [done..|apply Hinv].
  - done.
  - cbn. rewrite lookup_insert_eq, lookup_insert_ne, lookup_delete_eq by congruence.
    apply (saved_live _ _ (refs_of m p) _ _ _ _ Hl);
      [by right|apply Hh|destruct (status_ o); congruence|done| |done| |done].
    + cbn. apply bool_decide_false. set_solver.
    + cbn. intros E1. destruct (li_ctemp _ _ _ _ _ _ Hl E1). congruence.
Qed.

Lemma Save_ok m b m' C p : good m C -> BufferObj.Save p m = Ok (b, m') -> good m' C.
Proof.
  intros Hg H. pose proof Hg as [Hinv Ha]. unfold BufferObj.Save in H. deref_obj H o Ho.
  pose proof (inv_home m C p o Hinv Ho) as Hh.
  destruct (type_ o) eqn:Et; [injection H as <- <-; done| | |injection H as <- <-; done|discriminate].
  - destruct (decide (status_ o = kClean)) as [E|Hs]; [now rewrite E in H|].
    destruct (inv_live m C p o Hinv Ho Hs) as (d & HC & Hl).
    pose proof (li_shape _ _ _ _ _ _ Hl) as Hsh. unfold shape in Hsh. rewrite Et in Hsh.
    destruct (resident o) eqn:Hr.
    2:{ unfold resident in Hr. rewrite Et in Hr. destruct (status_ o); discriminate. }
    assert (E : FileWorker.WriteToFile false (file_worker_ o) (files_ m) =
               Ok (true, <[path false o := image (worker o) d]> (files_ m))).
    { apply FileWorker.write_file_image; [apply Hh|apply Hl| |apply (li_small _ _ _ _ _ _ Hl)].
      now rewrite (li_data _ _ _ _ _ _ Hl), Hr. }
    pose proof (save_written m C p o d Hg Ho HC Hr Et) as Hg'.
    destruct (status_ o); try discriminate; rewrite E in H; cbn [res_bind] in H; injection H as <- <-; exact Hg'.
  - unfold MoveTemp in H. case_decide as Hin; [|discriminate]. cbn [res_bind files_ set_temps] in H.
    assert (Hnc : status_ o <> kClean).
    { intros E. destruct (inv_dead m C p o Hinv Ho E) as [_ [_ _ Hd _ _ _]].
      now apply bool_decide_eq_false in Hd. }
    destruct (inv_live m C p o Hinv Ho Hnc) as (d & HC & Hl).
    assert (E : FileWorker.MoveFile (file_worker_ o) (files_ m) =
               Ok (<[path false o := image (worker o) d]> (delete (path true o) (files_ m)))).
    { unfold FileWorker.MoveFile, VirtualStore.Exists, VirtualStore.Rename.
      fold (path true o) (path false o). rewrite (li_spill _ _ _ _ _ _ Hl Et), !(path_absolute m p o) by done.
      now rewrite bool_decide_true by eauto. }
    rewrite E in H. cbn [res_bind] in H. injection H as <- <-. by eapply save_moved.
Qed.

(** ** Mapping *)
Lemma to_mmap_live n o r tf df d :
  live n o r tf df d -> type_ o = kPersistent -> status_ o = kLoaded ->
  live n (set_type kToMmap o) r tf df d.
Proof.
  intros [L1 L2 L3 L4 L5 L6 L7 L8 L9 L10 L11 L12 [L13 L14]] Ht Hs.
  unfold queued, resident, saved_type in *. rewrite Ht, Hs in *.
  split; unfold shape, queued, resident, saved_type; cbn; rewrite ?Hs; auto; try discriminate.
  intros E. split; [discriminate|now apply L6].
Qed.

Lemma freed_mmap_live n o r tf df d :
  live n o r tf df d -> type_ o = kPersistent -> status_ o = kFreed ->
  live n (set_type kMmap o) r tf df d.
Proof.
  intros [L1 L2 L3 L4 L5 L6 L7 L8 L9 L10 L11 L12 [L13 L14]] Ht Hs.
  unfold queued, resident, saved_type in *. rewrite Ht, Hs in *.
  split; unfold shape, queued, resident, saved_type; cbn; rewrite ?Hs; auto; try discriminate.
  - intros E. split; [discriminate|now apply L6].
  - intros _ E. now destruct E.
Qed.

Lemma ToMmap_ok m m' C p : good m C -> BufferObj.ToMmap p m = Ok m' -> good m' C.
Proof.
  intros Hg H. pose proof Hg as [Hinv Ha]. unfold BufferObj.ToMmap in H. deref_obj H o Ho.
  case_decide; [now injection H as <-|].
  destruct (bool_decide_reflect (type_ o = kPersistent)) as [Ht|]; [|discriminate].
  destruct (decide (status_ o = kClean)) as [E|Hnc]; [now rewrite E in H|].
  destruct (inv_live m C p o Hinv Ho Hnc) as (d & HC & Hl).
  destruct (status_ o) eqn:Es; try discriminate.
  - injection H as <-. split; [|by eapply accounted_same]. rewrite <- (insert_id C p d HC).
    apply (inv_set_obj m C p o); [done..|cbn; congruence|by apply to_mmap_live].
  - assert (Hq : queued o = true) by (unfold queued; now rewrite Es, Ht).
    assert (Hr : resident o = true) by (unfold resident; now rewrite Es, Ht).
    rewrite (RemoveFromGCQueue_ok m C p o Hinv Ho Hq) in H. cbn [res_bind] in H.
    unfold FileWorker.FreeInMemory in H. rewrite (li_data _ _ _ _ _ _ Hl), Hr in H. cbn [res_bind] in H.
    assert (Hu : unqueue p o m = lru_erase (idx_of (length (lru_caches_ m)) o) p m) by (unfold unqueue; now rewrite Hq).
    rewrite <- Hu in H.
    destruct (unmapped_ok m C p o (set_worker (FileWorker.set_data None (file_worker_ o)) o))
      as (m1 & E & Hg1); auto; [unfold saved_type; now rewrite Ht|].
    rewrite E in H. cbn [res_bind] in H. injection H as <-.
    assert (Hrc : rc_ o = 0) by (apply unloaded_rc; [apply Hl|apply Hl|congruence]).
    unfold unmapped in Hg1. unfold set_type, set_status, set_worker. cbn. now rewrite Hrc.
  - injection H as <-. split; [|by eapply accounted_same]. rewrite <- (insert_id C p d HC).
    apply (inv_set_obj m C p o); [done..|cbn; congruence|by apply freed_mmap_live].
Qed.

(** ** Cleaning up *)
Lemma cleaned_ok m C p o o' m' c :
  good m C -> objs_ m !! p = Some o -> only p m m' -> objs_ m' = <[p := o']> (objs_ m) ->
  same_place o o' -> same_rest m m' -> files_ m' = files_ m ->
  status_ o' = kClean -> rc_ o' = 0 -> obj_rc_ o' = 0 -> data_ (file_worker_ o') = None ->
  refs_of m' p = mkRefs (replicate (length (lru_caches_ m)) false) false c true ->
  (c = true -> type_ o' = kTemp \/ is_Some (files_ m !! path true o)) ->
  current_memory_size_ m' = current_memory_size_ m - cost o -> good m' (delete p C).
Proof.
  intros [Hinv [Ha1 Ha2]] Ho Hon Eo Hsp Hsr Ef Hs Hrc Horc Hd Er Hc Hm. split.
  - eapply (inv_update_dead p o o' m); eauto. rewrite Er. split; cbn; auto. now rewrite Ef.
  - unfold accounted. assert (E : mem_cost m' = mem_cost (set_obj p o' m)) by (unfold mem_cost; now rewrite Eo).
    rewrite E, (mem_cost_set m p o) by done. rewrite (sr_limit _ _ Hsr), Hm.
    assert (Hc' : cost o' = 0) by (unfold cost; now rewrite Hd). rewrite Hc'.
    pose proof (inv_home m C p o Hinv Ho) as Hh. apply home_cost in Hh.
    assert (0 <= cost o) by (unfold cost; destruct (data_ (file_worker_ o)); lia). lia.
Qed.

Lemma NoDup_clean m C p :
  inv m C -> r_clean (refs_of m p) = false -> NoDup (clean_list_ m ++ [p]).
Proof.
  intros [Hg _] Hn. apply NoDup_app. split_and!; [apply Hg| |apply NoDup_singleton].
  intros q Hq. rewrite list_elem_of_singleton. intros ->. cbn in Hn. apply bool_decide_eq_false in Hn. done.
Qed.

(** What picking an object for cleanup does: it is listed, leaves its queue and memory, and its
    spill file is up for removal. *)
Definition move_temp p m : BufferManager W D :=
  set_temps (temp_set_ m ∖ {[p]}) ({[p]} ∪ clean_temp_set_ m) m.
Definition picked p o o' m : BufferManager W D :=
  let m1 := set_obj p o' (set_memory (current_memory_size_ m - cost o)
              (unqueue p o (set_clean_list (clean_list_ m ++ [p]) m))) in
  if is_temp (type_ o) then move_temp p m1 else m1.

Lemma picked_ok m C p o o' :
  good m C -> objs_ m !! p = Some o -> status_ o <> kClean -> same_place o o' -> status_ o' = kClean ->
  type_ o' = type_ o -> rc_ o' = 0 -> obj_rc_ o' = 0 -> data_ (file_worker_ o') = None ->
  good (picked p o o' m) (delete p C).
Proof.
  intros Hg Ho Hs Hsp Hs' Ht' Hrc Horc Hd. pose proof Hg as [Hinv Ha].
  destruct (inv_live m C p o Hinv Ho Hs) as (d & HC & Hl). set (m0 := set_clean_list (clean_list_ m ++ [p]) m).
  destruct (unqueue_same p o m0) as (U1 & U2 & U3 & U4 & U5 & U6 & U7 & U8).
  assert (Hq : in_each p (lru_caches_ (unqueue p o m0)) = replicate (length (lru_caches_ m)) false).
  { rewrite <- (unqueue_refs m C p o Hinv Ho Hs). unfold unqueue. now destruct (queued o). }
  assert (Hon : only p m (set_obj p o' (set_memory (current_memory_size_ m - cost o) (unqueue p o m0)))).
  { etrans; [apply only_clean|]. etrans; [apply (unqueue_only p o)|]. etrans; [apply only_memory|apply only_set_obj]. }
  assert (Hsr : same_rest m (unqueue p o m0)).
  { destruct (unqueue_rest m C p o Hinv) as [? ? ? [Hn1 _]]. unfold unqueue in *.
    destruct (queued o); (split; [done..|]); (split; [exact Hn1|eapply NoDup_clean; [done|apply Hl]]). }
  eapply (cleaned_ok m C p o o' _ (is_temp (type_ o) || r_ctemp (refs_of m p))); eauto; unfold picked; fold m0.
  - destruct (is_temp _); [|done]. etrans; [exact Hon|]. apply only_temps; set_solver.
  - destruct (is_temp _); cbn; now rewrite U1.
  - destruct Hsr. destruct (is_temp _); split; auto.
  - destruct (is_temp _); cbn; now rewrite U2.
  - pose proof (li_temp _ _ _ _ _ _ Hl) as E. cbn in E.
    assert (Hcl : bool_decide (p ∈ clean_list_ m ++ [p]) = true).
    { apply bool_decide_true, elem_of_app. right. now apply list_elem_of_singleton. }
    destruct (is_temp (type_ o)); apply refs_eq; cbn; rewrite ?U5, ?U6, ?U7; auto;
      [apply bool_decide_false|apply bool_decide_true]; set_solver.
  - rewrite Ht'. intros E. destruct (is_temp (type_ o)) eqn:Et.
    + left. now destruct (type_ o).
    + right. now apply (li_ctemp _ _ _ _ _ _ Hl).
  - destruct (is_temp _); reflexivity.
Qed.

Lemma set_memory_id m : set_memory (current_memory_size_ m) m = m.
Proof. now destruct m. Qed.

(** Adding a queued object to the clean list takes it out of memory and of its queue. *)
Lemma AddToCleanList_free m C p o o' :
  good m C -> objs_ m !! p = Some o -> queued o = true -> id_ o' = id_ o -> GetBufferSize o' = GetBufferSize o ->
  data_ (file_worker_ o) <> None ->
  AddToCleanList p o' true m =
  Ok (set_memory (current_memory_size_ m - cost o) (unqueue p o (set_clean_list (clean_list_ m ++ [p]) m))).
Proof.
  intros Hg Ho Hq Hid Hb Hd. pose proof Hg as [Hinv _]. unfold AddToCleanList.
  destruct (FreeUnloadBuffer_ok m C p o o' (set_clean_list (clean_list_ m ++ [p]) m) Hg Ho Hd Hb eq_refl) as [-> Hc].
  cbn [res_bind]. rewrite (RemoveFromGCQueue_at m C p o o') by done. cbn [res_bind].
  unfold unqueue. rewrite Hq, Hc. reflexivity.
Qed.

Lemma RemoveTemp_ok m C p o m1 :
  inv m C -> objs_ m !! p = Some o -> status_ o <> kClean -> type_ o = kTemp ->
  temp_set_ m1 = temp_set_ m -> clean_temp_set_ m1 = clean_temp_set_ m ->
  RemoveTemp p m1 = Ok (move_temp p m1).
Proof.
  intros Hinv Ho Hs Ht E1 E2. destruct (inv_live m C p o Hinv Ho Hs) as (d & HC & Hl).
  pose proof (li_temp _ _ _ _ _ _ Hl) as Htm. pose proof (li_ctemp _ _ _ _ _ _ Hl) as Hct.
  rewrite Ht in *. cbn in Htm, Hct. unfold RemoveTemp. rewrite E1, E2.
  rewrite decide_True by now apply bool_decide_eq_true in Htm.
  rewrite decide_False; [unfold move_temp; now rewrite E1, E2|].
  intros E. apply (bool_decide_eq_true_2 _) in E. now destruct (Hct E).
Qed.

(** The end of [PickForCleanup]. *)
Lemma pick_finish m C p o o' m' :
  good m C -> objs_ m !! p = Some o -> status_ o <> kClean ->
  (if decide (type_ o = kTemp)
   then RemoveTemp p (set_obj p o' (set_memory (current_memory_size_ m - cost o)
          (unqueue p o (set_clean_list (clean_list_ m ++ [p]) m))))
   else Ok (set_obj p o' (set_memory (current_memory_size_ m - cost o)
          (unqueue p o (set_clean_list (clean_list_ m ++ [p]) m))))) = Ok m' ->
  same_place o o' -> status_ o' = kClean -> type_ o' = type_ o -> rc_ o' = 0 -> obj_rc_ o' = 0 ->
  data_ (file_worker_ o') = None -> good m' (delete p C).
Proof.
  intros Hg Ho Hs H Hsp Hs' Ht' Hrc Horc Hd.
  destruct (unqueue_same p o (set_clean_list (clean_list_ m ++ [p]) m)) as (_ & _ & _ & _ & _ & U6 & U7 & _).
  enough (E : m' = picked p o o' m) by (rewrite E; now apply picked_ok).
  unfold picked. case_decide as Ht.
  - rewrite (RemoveTemp_ok m C p o) in H; [|apply Hg|done..|exact U6|exact U7]. rewrite Ht. now injection H as <-.
  - injection H as <-. now destruct (type_ o).
Qed.

Lemma pick_finish_listed m C p o o' m' :
  good m C -> objs_ m !! p = Some o -> status_ o <> kClean -> cost o = 0 -> queued o = false ->
  (if decide (type_ o = kTemp)
   then RemoveTemp p (set_obj p o' (set_clean_list (clean_list_ m ++ [p]) m))
   else Ok (set_obj p o' (set_clean_list (clean_list_ m ++ [p]) m))) = Ok m' ->
  same_place o o' -> status_ o' = kClean -> type_ o' = type_ o -> rc_ o' = 0 -> obj_rc_ o' = 0 ->
  data_ (file_worker_ o') = None -> good m' (delete p C).
Proof.
  intros Hg Ho Hs Hc Hq H. apply (pick_finish m C p o o' m'); auto.
  unfold unqueue. rewrite Hc, Hq, Z.sub_0_r.
  change (current_memory_size_ m) with (current_memory_size_ (set_clean_list (clean_list_ m ++ [p]) m)).
  now rewrite set_memory_id.
Qed.

(** A mapped object is unmapped. *)
Lemma pick_mmap_ok m C p o :
  good m C -> objs_ m !! p = Some o -> status_ o <> kClean -> type_ o = kMmap -> rc_ o = 0 ->
  good (set_obj p (set_status kClean (set_worker (FileWorker.Munmap (file_worker_ o)) (set_obj_rc 0 o)))
          (set_clean_list (clean_list_ m ++ [p]) m)) (delete p C).
Proof.
  intros Hg Ho Hs Ht Hrc. destruct (inv_live m C p o (proj1 Hg) Ho Hs) as (d & HC & Hl).
  assert (Hdn : data_ (file_worker_ o) = None).
  { rewrite (li_data _ _ _ _ _ _ Hl). unfold resident. rewrite Ht. now destruct (status_ o). }
  eapply (pick_finish_listed m C p o); [done|done|done| | |rewrite decide_False by congruence; reflexivity| |done|done|exact Hrc|done|].
  - unfold cost. now rewrite Hdn.
  - unfold queued. rewrite Ht. now destruct (status_ o).
  - unfold FileWorker.Munmap. split; cbn; now destruct (mmap_addr_ _).
  - cbn. unfold FileWorker.Munmap. now destruct (mmap_addr_ _).
Qed.

Definition picked_contents (n : Z) p C : gmap ptr D :=
  if decide (u32 (n - 1) = 0) then delete p C else C.

Lemma PickForCleanup_ok m m' C p :
  good m C -> BufferObj.PickForCleanup p m = Ok m' ->
  (forall o, objs_ m !! p = Some o -> rc_ o = 0) ->
  exists o, objs_ m !! p = Some o /\ good m' (picked_contents (obj_rc_ o) p C).
Proof.
  intros Hg H Hrc. pose proof Hg as [Hinv Ha]. unfold BufferObj.PickForCleanup in H. deref_obj H o Ho.
  exists o. split; [done|]. specialize (Hrc o eq_refl).
  destruct (Z.eqb_spec (obj_rc_ o) 0) as [|Hn]; [discriminate|]. cbn [negb] in H.
  assert (Hs : status_ o <> kClean).
  { intros E. destruct (inv_dead m C p o Hinv Ho E) as [_ [[_ ?] _ _ _ _ _]]. congruence. }
  destruct (inv_live m C p o Hinv Ho Hs) as (d & HC & Hl). unfold picked_contents.
  cbn [set_obj_rc obj_rc_] in H. pose proof (wrap_range 32 (obj_rc_ o - 1) ltac:(lia)) as Hw.
  unfold unsigned_range in Hw. destruct (Z.ltb_spec 0 (u32 (obj_rc_ o - 1))) as [Hpos|Hzero].
  { injection H as <-. rewrite decide_False by lia. split; [|by eapply accounted_same].
    rewrite <- (insert_id C p d HC). apply (inv_set_obj m C p o); [done..|]. now apply live_obj_rc. }
  assert (Ez : u32 (obj_rc_ o - 1) = 0) by lia. rewrite Ez in H. rewrite decide_True by done.
  cbn [set_obj_rc type_ status_ file_worker_ res_bind] in H.
  case_decide as Ht; [injection H as <-; by eapply pick_mmap_ok|].
  destruct (status_ o) eqn:Es; try discriminate.
  - assert (Hq : queued o = true) by (unfold queued; rewrite Es; now destruct (type_ o)).
    assert (Hd : data_ (file_worker_ o) = Some d).
    { rewrite (li_data _ _ _ _ _ _ Hl). unfold resident. rewrite Es. now destruct (type_ o). }
    unfold FileWorker.FreeInMemory in H. rewrite Hd in H. cbn [res_bind] in H.
    rewrite (AddToCleanList_free m C p o) in H by (auto; rewrite Hd; discriminate). cbn [res_bind] in H.
    apply (pick_finish m C p o _ m' Hg Ho ltac:(congruence)) in H; [done|by split|done..].
  - assert (Hd : data_ (file_worker_ o) = None).
    { rewrite (li_data _ _ _ _ _ _ Hl). unfold resident. now rewrite Es. }
    assert (Hc : cost o = 0) by (unfold cost; now rewrite Hd).
    assert (Hq : queued o = false) by (unfold queued; now rewrite Es).
    cbn [AddToCleanList res_bind] in H.
    apply (pick_finish_listed m C p o _ m' Hg Ho ltac:(congruence) Hc Hq) in H; [done|by split|done..].
  - assert (Hd : data_ (file_worker_ o) = None).
    { rewrite (li_data _ _ _ _ _ _ Hl). unfold resident. now rewrite Es. }
    assert (Hc : cost o = 0) by (unfold cost; now rewrite Hd).
    assert (Hq : queued o = false) by (unfold queued; now rewrite Es).
    cbn [AddToCleanList res_bind] in H.
    apply (pick_finish_listed m C p o _ m' Hg Ho ltac:(congruence) Hc Hq) in H; [done|by split|done..].
Qed.

(** [SubObjRc] may drop the last reference of an object only when the object is neither in
    memory nor in the spill directory. *)
Lemma SubObjRc_ok m m' C p :
  good m C -> BufferObj.SubObjRc p m = Ok m' ->
  (forall o, objs_ m !! p = Some o -> u32 (obj_rc_ o - 1) = 0 ->
     (status_ o = kNew \/ status_ o = kFreed) /\ type_ o <> kTemp) ->
  exists o, objs_ m !! p = Some o /\ good m' (picked_contents (obj_rc_ o) p C).
Proof.
  intros Hg H Hpre. pose proof Hg as [Hinv Ha]. unfold BufferObj.SubObjRc in H. deref_obj H o Ho.
  exists o. split; [done|]. specialize (Hpre o eq_refl).
  destruct (Z.eqb_spec (obj_rc_ o) 0) as [|Hn]; [discriminate|]. cbn [negb] in H.
  assert (Hs : status_ o <> kClean).
  { intros E. destruct (inv_dead m C p o Hinv Ho E) as [_ [[_ ?] _ _ _ _ _]]. congruence. }
  destruct (inv_live m C p o Hinv Ho Hs) as (d & HC & Hl). unfold picked_contents.
  cbn [set_obj_rc obj_rc_] in H. destruct (Z.eqb_spec (u32 (obj_rc_ o - 1)) 0) as [Ez|Hz].
  - rewrite decide_True by done. destruct (Hpre Ez) as [Hst Ht]. rewrite Ez in H.
    assert (Hd : data_ (file_worker_ o) = None).
    { rewrite (li_data _ _ _ _ _ _ Hl). unfold resident. now destruct Hst as [-> | ->]. }
    assert (Hrc : rc_ o = 0) by (apply unloaded_rc; [apply Hl|apply Hl|intuition congruence]).
    cbn [AddToCleanList res_bind] in H.
    eapply (pick_finish_listed m C p o); [done|done|done| | |rewrite decide_False by done; exact H|by split|done|done|done|done|done].
    + unfold cost. now rewrite Hd.
    + unfold queued. now destruct Hst as [-> | ->].
  - injection H as <-. rewrite decide_False by done. split; [|by eapply accounted_same].
    rewrite <- (insert_id C p d HC). apply (inv_set_obj m C p o); [done..|]. now apply live_obj_rc.
Qed.

(** ** New objects *)
Record place_ok (w : FileWorker W D) m : Prop := mkPlaceOk {
  po_data_dir : data_dir_ w = data_dir;
  po_temp_dir : temp_dir_ w = temp_dir;
  po_worker : worker_ok (derived_ w);
  po_data : data_ w = None;
  po_small : forall b c, files_ m !! FileWorker.GetFilePathInner b w = Some c ->
    (length c <= image_size (derived_ w))%nat;
}.

(** What the object holds at first: fresh data, or the data in its file. *)
Definition first_contents (is_ephemeral : bool) (w : FileWorker W D) m d : Prop :=
  data_ok (derived_ w) d /\
  if is_ephemeral then NewData (derived_ w) = Ok d
  else files_ m !! FileWorker.GetFilePathInner false w = Some (image (derived_ w) d).

Definition with_new p (w : FileWorker W D) o m : BufferManager W D :=
  set_map (<[FileWorker.GetFilePath w := p]> (buffer_map_ m)) (u32 (buffer_id_ m + 1)) (set_obj p o m).

Lemma new_only m C p o w :
  inv m C -> objs_ m !! p = None -> buffer_map_ m !! FileWorker.GetFilePath w = None ->
  only p m (with_new p w o m).
Proof.
  intros Hinv Hp Hb. split; [done|]. intros q Hq. split_and!; [|done|].
  - cbn. apply lookup_insert_ne. congruence.
  - intros o' Ho'. split; [|done]. cbn. apply lookup_insert_ne. intros E.
    pose proof (ho_map _ _ _ (inv_home m C q o' Hinv Ho')). congruence.
Qed.

Lemma new_live n w e id d tf df :
  worker_ok (derived_ w) -> data_ w = None -> data_ok (derived_ w) d ->
  (if e : bool then NewData (derived_ w) = Ok d else df = Some (image (derived_ w) d)) ->
  (forall c, tf = Some c -> (length c <= image_size (derived_ w))%nat) ->
  (forall c, df = Some c -> (length c <= image_size (derived_ w))%nat) ->
  live n (BufferObj.make e w id) (no_refs n) tf df d.
Proof.
  intros Hw Hd Hok Hf Ht Hdf. split; destruct e; cbn; auto; try discriminate;
    (split; [lia|split; [discriminate|lia]]).
Qed.

Lemma make_ok m C (e : bool) w d :
  good m C -> place_ok w m -> first_contents e w m d -> buffer_map_ m !! FileWorker.GetFilePath w = None ->
  let p := fresh (dom (objs_ m)) in
  C !! p = None /\ good (with_new p w (BufferObj.make e w (buffer_id_ m)) m) (<[p := d]> C).
Proof.
  intros [Hinv [Ha1 Ha2]] [P1 P2 P3 P4 P5] [Hok Hf] Hb p.
  assert (Hp : objs_ m !! p = None) by (apply not_elem_of_dom, is_fresh).
  set (o := BufferObj.make e w (buffer_id_ m)).
  assert (Hfw : file_worker_ o = w) by (unfold o, BufferObj.make; now destruct e).
  destruct Hinv as [Hg Hpi] eqn:Ei. pose proof (Hpi p) as Hpp. unfold pinv in Hpp. rewrite Hp in Hpp.
  destruct Hpp as [Hr HC]. split; [done|]. split.
  - apply (inv_only p m _ C); [done|by eapply new_only|intros q Hq; apply lookup_insert_ne; congruence| |].
    + destruct Hg as [G1 G2 G3 G4 G5]. split; auto. cbn. intros f q.
      destruct (decide (f = FileWorker.GetFilePath w)) as [->|Hne].
      * rewrite lookup_insert_eq. intros [= <-]. exists o. rewrite lookup_insert_eq. split; [done|].
        unfold GetFilename. now rewrite Hfw.
      * rewrite lookup_insert_ne by congruence. intros Hq. destruct (G5 f q Hq) as (o' & Ho' & Hn).
        exists o'. rewrite lookup_insert_ne by congruence. done.
    + apply (pinv_live _ _ _ o d); [apply lookup_insert_eq| | |apply lookup_insert_eq|].
      * split; unfold worker, GetFilename; rewrite ?Hfw; auto. cbn. apply lookup_insert_eq.
      * unfold o, BufferObj.make. now destruct e.
      * change (refs_of (with_new p w o m) p) with (refs_of m p). rewrite Hr. cbn.
        unfold path. rewrite Hfw. apply new_live; auto; apply P5.
  - unfold accounted, mem_cost. cbn. rewrite mem_cost_fresh by done.
    assert (Hc : cost o = 0) by (unfold cost; now rewrite Hfw, P4). rewrite Hc. unfold mem_cost in Ha1. lia.
Qed.

End steps.
