(* ===== verification/BufferCleanup.v ===== *)
(** * [BufferManager::RemoveClean]

    Objects that were picked for cleanup are removed together with their files; under the
    invariant the removal always succeeds and leaves no pointer to a destroyed object. *)
From S2P Require Import Prelude Serialize FileWorker BufferManager BufferInvariant BufferSteps.
Import BufferManager BufferObjects.

Section cleanup.
Context {W D : Type} `{HI : FileWorkerImpl W D} `{HL : !FileWorkerLaws W D} `{Dirs : Directories}.
Implicit Types (o : BufferObj W D) (m : BufferManager W D) (p q : ptr) (d : D) (C : gmap ptr D).

(** The files of the objects in [l] are deleted one after the other; nothing else changes. *)
Lemma cleanup_files m0 l m :
  (forall p, p ∈ l -> exists o, objs_ m0 !! p = Some o /\ home m0 p o /\ status_ o = kClean /\
                                data_ (file_worker_ o) = None) ->
  objs_ m = objs_ m0 ->
  exists F, cleanup_each BufferObj.CleanupFile l m = Ok (set_files F m) /\
    forall f, F !! f = files_ m !! f \/
      (F !! f = None /\ exists p o, p ∈ l /\ objs_ m0 !! p = Some o /\ f = path false o).
Proof.
  intros Hl Ho. revert m Ho. induction l as [|p l IH]; intros m Ho; cbn [cleanup_each].
  { exists (files_ m). split; [now destruct m|auto]. }
  destruct (Hl p ltac:(now left)) as (o & Hp & Hh & Hs & Hd).
  assert (E : exists F, BufferObj.CleanupFile p m = Ok (set_files F m) /\
    (F = files_ m \/ F = delete (path false o) (files_ m))).
  { unfold BufferObj.CleanupFile. rewrite (deref_ok p m o) by now rewrite Ho. cbn [res_bind].
    rewrite bool_decide_true, Hd by done. unfold FileWorker.CleanupFile. fold (path false o).
    destruct (VirtualStore.Exists _ _).
    - unfold VirtualStore.DeleteFile. rewrite (path_absolute m0 p o) by done. cbn. eauto.
    - cbn. eauto. }
  destruct E as (F & -> & HF). cbn [res_bind].
  destruct (IH ltac:(intros; apply Hl; now right) (set_files F m) Ho) as (F' & E & HF').
  exists F'. split; [exact E|]. intros f. destruct (HF' f) as [E1|(E1 & q & o' & Hq & Ho' & Hf)].
  - cbn in E1. destruct HF as [-> | ->]; [auto|].
    destruct (decide (f = path false o)) as [->|Hne].
    + right. rewrite E1, lookup_delete_eq. split; [done|]. exists p, o. split_and!; auto. now left.
    + left. rewrite E1. apply lookup_delete_ne. congruence.
  - right. split; [done|]. exists q, o'. split_and!; auto. now right.
Qed.

Lemma cleanup_temps m0 l m :
  NoDup l ->
  (forall p, p ∈ l -> exists o, objs_ m0 !! p = Some o /\ home m0 p o /\
                                (type_ o = kTemp \/ is_Some (files_ m !! path true o))) ->
  objs_ m = objs_ m0 ->
  exists F, cleanup_each BufferObj.CleanupTempFile l m = Ok (set_files F m) /\
    forall f, F !! f = files_ m !! f \/
      (F !! f = None /\ exists p o, p ∈ l /\ objs_ m0 !! p = Some o /\ type_ o <> kTemp /\ f = path true o).
Proof.
  revert m. induction l as [|p l IH]; intros m Hnd Hl Ho; cbn [cleanup_each].
  { exists (files_ m). split; [now destruct m|auto]. }
  apply NoDup_cons in Hnd as [Hn Hnd].
  destruct (Hl p ltac:(now left)) as (o & Hp & Hh & Ht).
  assert (E : exists F, BufferObj.CleanupTempFile p m = Ok (set_files F m) /\
    (F = files_ m \/ (type_ o <> kTemp /\ F = delete (path true o) (files_ m)))).
  { unfold BufferObj.CleanupTempFile. rewrite (deref_ok p m o) by now rewrite Ho. cbn [res_bind].
    case_decide as Et; [exists (files_ m); split; [now destruct m|auto]|].
    destruct Ht as [|Hf]; [done|]. unfold FileWorker.CleanupTempFile, VirtualStore.Exists. fold (path true o).
    rewrite bool_decide_true by done. unfold VirtualStore.DeleteFile. rewrite (path_absolute m0 p o) by done.
    cbn. eauto. }
  destruct E as (F & -> & HF). cbn [res_bind].
  destruct (IH (set_files F m) Hnd) as (F' & E & HF'); [|done|].
  { intros q Hq. destruct (Hl q ltac:(now right)) as (o' & Hq' & Hh' & Ht'). exists o'. split_and!; auto.
    destruct Ht' as [|Hf]; [auto|]. right. cbn. destruct HF as [-> |[_ ->]]; [done|].
    rewrite lookup_delete_ne; [done|]. apply (paths_apart m0 p q); [done|done|]. intros ->. done. }
  exists F'. split; [exact E|]. intros f. destruct (HF' f) as [E1|(E1 & q & o' & Hq & Ho' & Hf)].
  - cbn in E1. destruct HF as [-> |[Hnt ->]]; [auto|].
    destruct (decide (f = path true o)) as [->|Hne].
    + right. rewrite E1, lookup_delete_eq. split; [done|]. exists p, o. split_and!; auto. now left.
    + left. rewrite E1. apply lookup_delete_ne. congruence.
  - right. split; [done|]. exists q, o'. split_and!; try tauto. now right.
Qed.

(** The objects in [l] are destroyed. *)
Lemma erase_objects m0 l m :
  NoDup l -> (forall p, p ∈ l -> exists o, objs_ m !! p = Some o /\ cost o = 0 /\
    forall f, buffer_map_ m !! f = Some p <-> f = GetFilename o) ->
  exists h b, cleanup_each erase_object l m = Ok (set_objs h (set_map b (buffer_id_ m) m)) /\
    (forall q, h !! q = if decide (q ∈ l) then None else objs_ m !! q) /\
    (forall f, b !! f = match buffer_map_ m !! f with
                        | Some q => if decide (q ∈ l) then None else Some q
                        | None => None end) /\
    mem_cost (set_objs h m0) = mem_cost m.
Proof.
  revert m. induction l as [|p l IH]; intros m Hnd Hl; cbn [cleanup_each].
  { exists (objs_ m), (buffer_map_ m). split_and!; [now destruct m| | |done].
    - intros q. rewrite decide_False; [done|]. set_solver.
    - intros f. destruct (buffer_map_ m !! f); [|done]. rewrite decide_False; [done|]. set_solver. }
  apply NoDup_cons in Hnd as [Hn Hnd]. destruct (Hl p ltac:(now left)) as (o & Ho & Hc & Hbi).
  pose proof (proj2 (Hbi _) eq_refl) as Hb.
  assert (E : erase_object p m = Ok (set_objs (delete p (objs_ m))
                (set_map (delete (GetFilename o) (buffer_map_ m)) (buffer_id_ m) m))).
  { unfold erase_object. rewrite (deref_ok p m o) by done. cbn [res_bind]. now rewrite Hb. }
  rewrite E. cbn [res_bind]. set (m1 := set_objs _ _).
  destruct (IH m1 Hnd) as (h & b & E1 & Hh & Hbm & Hm).
  { intros q Hq. destruct (Hl q ltac:(now right)) as (o' & Ho' & Hc' & Hb'). exists o'.
    assert (Hqp : q <> p) by (intros ->; done). split_and!; [|done|].
    - cbn. rewrite lookup_delete_ne; [done|congruence].
    - intros f. rewrite <- Hb'. cbn. rewrite lookup_delete_Some. split; [tauto|]. intros Hf. split; [|done].
      intros E0. rewrite <- E0 in Hf. congruence. }
  exists h, b. split_and!; [rewrite E1; reflexivity| | |].
  - intros q. rewrite Hh. cbn. destruct (decide (q = p)) as [->|Hqp].
    + destruct (decide (p ∈ p :: l)) as [_|Hx]; [|set_solver]. case_decide; [done|]. apply lookup_delete_eq.
    + rewrite lookup_delete_ne by congruence.
      destruct (decide (q ∈ l)), (decide (q ∈ p :: l)); try done; set_solver.
  - intros f. rewrite Hbm. cbn. destruct (decide (f = GetFilename o)) as [->|Hf].
    + rewrite lookup_delete_eq, Hb. destruct (decide (p ∈ p :: l)); [done|]. set_solver.
    + rewrite lookup_delete_ne by congruence. destruct (buffer_map_ m !! f) as [q|] eqn:Eq; [|done].
      assert (q <> p) by (intros ->; now apply Hbi in Eq).
      destruct (decide (q ∈ l)), (decide (q ∈ p :: l)); try done; set_solver.
  - rewrite Hm. unfold mem_cost. cbn. rewrite (mem_cost_split _ _ _ Ho), Hc. lia.
Qed.

Lemma erase_notin p (l : list ptr) : p ∉ l -> LRUCache.erase p l = l.
Proof.
  unfold LRUCache.erase. induction l as [|q l IH]; [done|]. intros H.
  rewrite filter_cons_True by set_solver. f_equal. apply IH. set_solver.
Qed.

(** Erasing objects that are in no queue changes no queue. *)
Lemma remove_clean_id (cleans : list ptr) (ls : list (list ptr)) :
  (forall p, p ∈ cleans -> forall l, l ∈ ls -> p ∉ l) -> LRUCache.RemoveClean cleans <$> ls = ls.
Proof.
  intros H. transitivity (id <$> ls); [|apply list_fmap_id]. apply list_fmap_ext. intros i l Hl. cbn.
  assert (Hin : l ∈ ls) by apply (list_elem_of_lookup_2 _ _ _ Hl).
  unfold LRUCache.RemoveClean. induction cleans as [|p cleans IH] in H |- *; [done|]. cbn.
  assert (E : LRUCache.erase p l = l).
  { apply erase_notin, H; [now left|done]. }
  rewrite E. apply IH. intros q Hq. apply H. now right.
Qed.

(** The files a removal may delete: the data files of the listed objects and the obsolete
    spill files. *)
Definition removed_files m m' : Prop :=
  forall f, files_ m' !! f = files_ m !! f \/
    (files_ m' !! f = None /\ exists p o, objs_ m !! p = Some o /\
       ((p ∈ clean_list_ m /\ f = path false o) \/
        (p ∈ clean_temp_set_ m /\ type_ o <> kTemp /\ f = path true o))).

(** What stays after the removal of the objects on the clean list. *)
Lemma remaining_ok m C F h b :
  inv m C ->
  removed_files m (set_files F m) ->
  (forall q, h !! q = if decide (q ∈ clean_list_ m) then None else objs_ m !! q) ->
  (forall f, b !! f = match buffer_map_ m !! f with
                      | Some q => if decide (q ∈ clean_list_ m) then None else Some q
                      | None => None end) ->
  inv (set_objs h (set_map b (buffer_id_ m) (set_files F (set_temps (temp_set_ m) ∅ (set_clean_list [] m))))) C.
Proof.
  intros Hinv HF Hh Hb. set (m' := set_objs _ _). pose proof Hinv as [[G1 G2 G3 G4 G5] Hp]. split.
  - split; auto; [split; [apply G3|apply NoDup_nil; done]|].
    intros f q. cbn. rewrite Hb. destruct (buffer_map_ m !! f) as [q'|] eqn:Ef; [|done].
    case_decide as Hq; [done|]. intros [= ->]. destruct (G5 f q Ef) as (o & Ho & Hn).
    exists o. rewrite Hh, decide_False by done. done.
  - intros q. pose proof (Hp q) as Hq. unfold pinv in *. cbn [m' set_objs objs_]. rewrite Hh.
    assert (Er : refs_of m' q = mkRefs (r_queue (refs_of m q)) (r_temp (refs_of m q)) false false) by done.
    change (length (lru_caches_ m')) with (length (lru_caches_ m)). rewrite Er.
    destruct (objs_ m !! q) as [o|] eqn:Ho.
    2:{ destruct Hq as [E HC]. rewrite E. now destruct (decide _). }
    destruct Hq as [Hhome Hq]. case_decide as Hs.
    + destruct Hq as [HC Hd]. pose proof (de_clean _ _ _ _ Hd) as Hcl. cbn in Hcl.
      apply bool_decide_eq_true in Hcl. rewrite decide_True by done.
      rewrite (de_queue _ _ _ _ Hd), (de_temp _ _ _ _ Hd). done.
    + destruct Hq as (d & HC & Hl). pose proof (li_clean _ _ _ _ _ _ Hl) as Hcl. cbn in Hcl.
      apply bool_decide_eq_false in Hcl. rewrite decide_False by done. split.
      { destruct Hhome as [H1 H2 H3 H4]. split; auto. cbn. now rewrite Hb, H4, decide_False. }
      rewrite decide_False by done. exists d. split; [done|].
      assert (Hdf : F !! path false o = files_ m !! path false o).
      { destruct (HF (path false o)) as [E|(E & p & o' & Hp' & [[Hin Hpath]|(_ & _ & Hpath)])]; [done|..].
        - destruct (decide (p = q)) as [->|Hpq]; [done|]. exfalso. symmetry in Hpath.
          revert Hpath. apply (paths_apart m p q); auto. by eapply inv_home.
        - destruct (decide (p = q)) as [->|Hpq].
          + rewrite Ho in Hp'. injection Hp' as ->. symmetry in Hpath. now apply (path_spill_data m q) in Hpath.
          + exfalso. symmetry in Hpath. revert Hpath. apply (paths_apart m p q); auto. by eapply inv_home. }
      assert (Htf : F !! path true o = files_ m !! path true o \/ F !! path true o = None /\ type_ o <> kTemp).
      { destruct (HF (path true o)) as [E|(E & p & o' & Hp' & [[Hin Hpath]|(_ & Hnt & Hpath)])]; [auto|..].
        - exfalso. destruct (decide (p = q)) as [->|Hpq]; [done|]. symmetry in Hpath.
          revert Hpath. apply (paths_apart m p q); auto. by eapply inv_home.
        - destruct (decide (p = q)) as [->|Hpq]; [right; split; [done|congruence]|].
          exfalso. symmetry in Hpath. revert Hpath. apply (paths_apart m p q); auto. by eapply inv_home. }
      cbn [m' set_objs set_map set_files files_]. rewrite Hdf.
      destruct Hl as [L1 L2 L3 L4 L5 L6 L7 L8 L9 L10 L11 L12 [L13 L14]].
      split; auto; try discriminate.
      * intros Et. destruct Htf as [-> |[_ Hnt]]; [auto|congruence].
      * split; [|done]. destruct Htf as [-> |[-> _]]; [done|]. intros c. discriminate.
Qed.

(** The objects the clean list and the set of obsolete spill files mention. *)
Lemma listed_object m C p :
  inv m C -> p ∈ clean_list_ m ->
  exists o, objs_ m !! p = Some o /\ home m p o /\ status_ o = kClean /\ data_ (file_worker_ o) = None /\
    in_each p (lru_caches_ m) = replicate (length (lru_caches_ m)) false.
Proof.
  intros [_ Hp] Hin. specialize (Hp p). unfold pinv in Hp.
  assert (Hr : r_clean (refs_of m p) = true) by now apply bool_decide_true.
  destruct (objs_ m !! p) as [o|]; [|destruct Hp as [E _]; now rewrite E in Hr].
  destruct Hp as [Hh Hp]. case_decide as Hs.
  - destruct Hp as [_ [_ Hq _ _ _ Hd]]. eauto 6.
  - destruct Hp as (d & _ & Hl). now rewrite (li_clean _ _ _ _ _ _ Hl) in Hr.
Qed.

Lemma obsolete_object m C p :
  inv m C -> p ∈ clean_temp_set_ m ->
  exists o, objs_ m !! p = Some o /\ home m p o /\ (type_ o = kTemp \/ is_Some (files_ m !! path true o)).
Proof.
  intros [_ Hp] Hin. specialize (Hp p). unfold pinv in Hp.
  assert (Hr : r_ctemp (refs_of m p) = true) by now apply bool_decide_true.
  destruct (objs_ m !! p) as [o|]; [|destruct Hp as [E _]; now rewrite E in Hr].
  destruct Hp as [Hh Hp]. exists o. split_and!; auto. case_decide as Hs.
  - apply Hp. done.
  - destruct Hp as (d & _ & Hl). right. now apply (li_ctemp _ _ _ _ _ _ Hl).
Qed.

Lemma listed_not_queued m C p l : inv m C -> p ∈ clean_list_ m -> l ∈ lru_caches_ m -> p ∉ l.
Proof.
  intros Hinv Hp Hl Hin. destruct (listed_object m C p Hinv Hp) as (o & _ & _ & _ & _ & Hq).
  apply list_elem_of_lookup in Hl as [i Hi].
  assert (E : in_each p (lru_caches_ m) !! i = Some true).
  { unfold in_each. rewrite list_lookup_fmap, Hi. cbn. now rewrite bool_decide_true. }
  rewrite Hq in E. apply lookup_replicate in E as [? _]. discriminate.
Qed.

Lemma RemoveClean_ok m C :
  good m C -> exists m', RemoveClean m = Ok m' /\ good m' C /\
    (forall q, objs_ m' !! q = if decide (q ∈ clean_list_ m) then None else objs_ m !! q) /\
    clean_list_ m' = [] /\ clean_temp_set_ m' = ∅ /\ removed_files m m'.
Proof.
  intros [Hinv [Ha1 Ha2]]. unfold RemoveClean. pose proof (proj1 Hinv) as Hg.
  destruct (cleanup_files m (clean_list_ m) (set_clean_list [] m)) as (F1 & E1 & HF1); [|done|].
  { intros p Hp. destruct (listed_object m C p Hinv Hp) as (o & ? & ? & ? & ? & _). eauto 6. }
  rewrite E1. cbn [res_bind].
  set (m1 := set_temps _ ∅ _).
  destruct (cleanup_temps m (elements (clean_temp_set_ m)) m1) as (F2 & E2 & HF2); [apply NoDup_elements| |done|].
  { intros p Hp. apply elem_of_elements in Hp. destruct (obsolete_object m C p Hinv Hp) as (o & Ho & Hh & Ht).
    exists o. split_and!; auto. destruct Ht as [|Hf]; [auto|right]. cbn.
    destruct (HF1 (path true o)) as [-> |(_ & q & o' & Hq & Ho' & Hpath)]; [done|]. exfalso.
    destruct (decide (p = q)) as [->|Hpq].
    - rewrite Ho in Ho'. injection Ho' as ->. now apply (path_spill_data m q) in Hpath.
    - revert Hpath. apply (paths_apart m p q); auto. by eapply inv_home. }
  cbn [set_files clean_temp_set_ set_clean_list]. rewrite E2. cbn [res_bind].
  set (m2 := set_lru _ _ _).
  assert (Em2 : m2 = set_files F2 m1).
  { unfold m2. cbn. rewrite remove_clean_id; [done|]. intros p Hp l Hl. by eapply listed_not_queued. }
  destruct (erase_objects m (clean_list_ m) m2) as (h & b & E3 & Hh & Hb & Hm); [apply Hg| |].
  { intros p Hp. destruct (listed_object m C p Hinv Hp) as (o & Ho & Hho & _ & Hd & _). exists o.
    rewrite Em2. split_and!; [done|unfold cost; now rewrite Hd|]. intros f. cbn. split; [|intros ->; apply Hho].
    intros Hf. destruct (gl_map _ Hg f p Hf) as (o' & Ho' & <-). congruence. }
  assert (HF : removed_files m (set_files F2 m1)).
  { intros f. destruct (HF2 f) as [E|(E & p & o & Hp & Ho & Ht & Hpath)].
    - cbn. rewrite E. cbn. destruct (HF1 f) as [E'|(E' & p & o & Hp & Ho & Hpath)]; [auto|right]. eauto 8.
    - right. split; [done|]. exists p, o. split; [done|]. right. apply elem_of_elements in Hp. auto. }
  exists (set_objs h (set_map b (buffer_id_ m2) m2)). split_and!; [exact E3| |..].
  - rewrite Em2 in *. cbn in Hh, Hb. split.
    + now apply (remaining_ok m C F2 h b).
    + unfold accounted. change (mem_cost (set_objs h _)) with (mem_cost (set_objs h m)). rewrite Hm. cbn. done.
  - intros q. cbn. rewrite Hh, Em2. done.
  - now rewrite Em2.
  - now rewrite Em2.
  - rewrite Em2. exact HF.
Qed.
End cleanup.
