(* ===== verification/BufferRefinement.v ===== *)
(** * The buffer manager as a store of contents

    Clients see the buffer manager as a map from objects to contents. [call] lists what they
    can do, [run] executes it on the manager, [spec] is its effect on the map and [allowed]
    the rules the clients keep. Every run of the manager is a run of the map
    ([buffer_runs_refine_store]), whatever is evicted in between; the rest of the file states
    what holds of each state of such a run, and what the rules protect from. *)
From S2P Require Import Prelude Serialize FileWorker BufferManager BufferInvariant BufferSteps BufferCleanup.
Import BufferManager BufferObjects.

Section refinement.
Context {W D : Type} `{HI : FileWorkerImpl W D} `{HL : !FileWorkerLaws W D} `{Dirs : Directories}.
Implicit Types (o : BufferObj W D) (m : BufferManager W D) (p q : ptr) (d : D) (C : gmap ptr D).

(** [CGet w d]: the data file of [w] holds [d] when the object is not buffered yet. [CWrite]
    is a write through the pointer that [GetMutPointer] returned. *)
Inductive call : Type :=
| CAllocate (w : FileWorker W D)
| CGet (w : FileWorker W D) (d : D)
| CLoad (p : ptr)
| CLoadInner (p : ptr)
| CUnloadInner (p : ptr)
| CGetMutPointer (p : ptr)
| CWrite (p : ptr) (d : D)
| CSave (p : ptr)
| CToMmap (p : ptr)
| CAddObjRc (p : ptr)
| CSubObjRc (p : ptr)
| CPickForCleanup (p : ptr)
| CRemoveClean.

Inductive result : Type := RUnit | RPtr (p : ptr) | RData (d : option D).

Definition unit_result (r : res (BufferManager W D)) : res (result * BufferManager W D) :=
  let? m := r in Ok (RUnit, m).

(** [locked] are the objects other threads hold while the call runs. *)
Definition run (locked : gset ptr) (c : call) m : res (result * BufferManager W D) :=
  match c with
  | CAllocate w => let? (p, m) := AllocateBufferObject w m in Ok (RPtr p, m)
  | CGet w _ => let? (p, m) := GetBufferObject w m in Ok (RPtr p, m)
  | CLoad p => let? (d, m) := BufferObj.Load locked p m in Ok (RData d, m)
  | CLoadInner p => unit_result (BufferObj.LoadInner p m)
  | CUnloadInner p => unit_result (BufferObj.UnloadInner locked p m)
  | CGetMutPointer p => let? (d, m) := BufferObj.GetMutPointer locked p m in Ok (RData d, m)
  | CWrite p d => unit_result (WriteData p d m)
  | CSave p => let? (_, m) := BufferObj.Save p m in Ok (RUnit, m)
  | CToMmap p => unit_result (BufferObj.ToMmap p m)
  | CAddObjRc p => unit_result (BufferObj.AddObjRc p m)
  | CSubObjRc p => unit_result (BufferObj.SubObjRc p m)
  | CPickForCleanup p => unit_result (BufferObj.PickForCleanup p m)
  | CRemoveClean => unit_result (RemoveClean m)
  end.

(** The rules of the clients. A worker is new and belongs to the directories of the manager;
    a mutable pointer is taken through a handle and written while it is the latest form of
    the data; an object is picked when no handle is left, not used after it was picked, and
    [SubObjRc] is not used to drop an object that is in memory or spilled. *)
Definition at_object m p (P : BufferObj W D -> Prop) : Prop := forall o, objs_ m !! p = Some o -> P o.
Definition allowed (c : call) m : Prop :=
  match c with
  | CAllocate w => place_ok w m
  | CGet w d => buffer_map_ m !! FileWorker.GetFilePath w = None -> place_ok w m /\ first_contents false w m d
  | CLoad p => at_object m p (fun o => status_ o <> kClean /\ rc_ o + 1 < 2 ^ 64)
  | CLoadInner p => at_object m p (fun o => rc_ o + 1 < 2 ^ 64)
  | CGetMutPointer p => at_object m p (fun o => 0 < rc_ o /\ status_ o <> kClean)
  | CWrite p d => at_object m p (fun o => status_ o = kLoaded /\ type_ o = kEphemeral /\ data_ok (worker o) d)
  | CAddObjRc p => at_object m p (fun o => status_ o <> kClean)
  | CSubObjRc p => at_object m p (fun o => u32 (obj_rc_ o - 1) = 0 ->
                     (status_ o = kNew \/ status_ o = kFreed) /\ type_ o <> kTemp)
  | CPickForCleanup p => at_object m p (fun o => rc_ o = 0)
  | _ => True
  end.

(** The effect of a call on the contents. *)
Definition spec (c : call) C (r : result) C' : Prop :=
  match c with
  | CAllocate w => exists p d, r = RPtr p /\ C !! p = None /\ NewData (derived_ w) = Ok d /\ C' = <[p := d]> C
  | CGet w d => exists p, r = RPtr p /\ (C' = C \/ (C !! p = None /\ C' = <[p := d]> C))
  | CLoad p | CGetMutPointer p => exists d, C !! p = Some d /\ r = RData (Some d) /\ C' = C
  | CWrite p d => C' = <[p := d]> C
  | CSubObjRc p | CPickForCleanup p => C' = C \/ C' = delete p C
  | _ => C' = C
  end.

(** A run of the manager with the calls, their results and the locks they met; and the same
    for the contents. *)
Inductive runs : BufferManager W D -> list (call * result) -> BufferManager W D -> Prop :=
| runs_nil m : runs m [] m
| runs_snoc m l m1 locked c r m2 :
    runs m l m1 -> allowed c m1 -> run locked c m1 = Ok (r, m2) -> runs m (l ++ [(c, r)]) m2.
Inductive spec_runs : gmap ptr D -> list (call * result) -> gmap ptr D -> Prop :=
| spec_nil C : spec_runs C [] C
| spec_snoc C l C1 c r C2 : spec_runs C l C1 -> spec c C1 r C2 -> spec_runs C (l ++ [(c, r)]) C2.

Lemma make_good limit n files :
  unsigned_range 64 limit -> (0 < n)%nat -> good (make (W := W) (D := D) limit n files) ∅.
Proof.
  intros Hl Hn. split; [split|].
  - assert (Hd : Forall NoDup (replicate n ([] : list ptr))) by apply Forall_replicate, NoDup_nil_2.
    split; cbn; rewrite ?length_replicate; auto using NoDup_nil_2. intros f p. now rewrite lookup_empty.
  - intros p. unfold pinv. cbn. rewrite lookup_empty. split; [|apply lookup_empty].
    apply refs_eq; [|apply bool_decide_false; set_solver..].
    cbn. unfold in_each. now rewrite fmap_replicate, length_replicate.
  - unfold accounted, mem_cost. cbn. rewrite map_fold_empty. unfold unsigned_range in Hl. lia.
Qed.

Lemma unit_result_ok r x m' : unit_result r = Ok (x, m') -> r = Ok m' /\ x = RUnit.
Proof. destruct r; cbn; [|discriminate]. now intros [= <- <-]. Qed.

Lemma step_refines locked c m C r m' :
  good m C -> allowed c m -> run locked c m = Ok (r, m') -> exists C', spec c C r C' /\ good m' C'.
Proof.
  intros Hg Hal H. pose proof Hg as [Hinv Ha].
  destruct c as [w|w d|p|p|p|p|p d|p|p|p|p|p|]; cbn [run allowed spec] in *; unfold at_object in *.
  - apply res_bind_Ok in H as ([p m1] & E & [= <- <-]). unfold AllocateBufferObject in E. cbn in E.
    destruct (buffer_map_ m !! FileWorker.GetFilePath w) eqn:Eb; [discriminate|]. injection E as <- <-.
    destruct (new_data_ok (derived_ w) (po_worker _ _ Hal)) as (d & Hd & Hok).
    destruct (make_ok m C true w d Hg Hal) as [HC Hg']; [by split|done|].
    eexists. split; [|exact Hg']. eauto 6.
  - apply res_bind_Ok in H as ([p m1] & E & [= <- <-]). unfold GetBufferObject in E.
    destruct (buffer_map_ m !! FileWorker.GetFilePath w) eqn:Eb.
    + injection E as <- <-. exists C. eauto.
    + destruct (Hal eq_refl) as [Hpl Hf]. injection E as <- <-.
      destruct (make_ok m C false w d Hg Hpl Hf Eb) as [HC Hg']. eexists. split; [|exact Hg']. eauto.
  - apply res_bind_Ok in H as ([d m1] & E & [= <- <-]).
    destruct (objs_ m !! p) as [o|] eqn:Ho.
    2:{ unfold BufferObj.Load, deref in E. cbn in E. now rewrite Ho in E. }
    destruct (Hal o eq_refl) as [Hs Hrc]. destruct (inv_live m C p o Hinv Ho Hs) as (d' & HC & _).
    destruct (Load_ok locked m C p o d' Hinv Ha Ho Hs HC Hrc) as [(m2 & E2 & Hg')|(E2 & _)];
      rewrite E2 in E; [|discriminate]. injection E as <- <-. exists C. eauto.
  - apply unit_result_ok in H as [H ->]. exists C. split; [done|]. by eapply LoadInner_ok.
  - apply unit_result_ok in H as [H ->]. exists C. split; [done|]. by eapply UnloadInner_ok.
  - apply res_bind_Ok in H as ([d m1] & E & [= <- <-]).
    destruct (GetMutPointer_ok locked m d m1 C p Hg E Hal) as [Hg' ->].
    destruct (objs_ m !! p) as [o|] eqn:Ho.
    2:{ unfold BufferObj.GetMutPointer, deref in E. now rewrite Ho in E. }
    destruct (Hal o eq_refl) as [_ Hs]. destruct (inv_live m C p o Hinv Ho Hs) as (d' & HC & _).
    exists C. rewrite HC. eauto.
  - apply unit_result_ok in H as [H ->]. eexists. split; [reflexivity|]. by eapply WriteData_ok.
  - apply res_bind_Ok in H as ([b m1] & E & [= <- <-]). exists C. split; [done|]. by eapply Save_ok.
  - apply unit_result_ok in H as [H ->]. exists C. split; [done|]. by eapply ToMmap_ok.
  - apply unit_result_ok in H as [H ->]. exists C. split; [done|]. by eapply AddObjRc_ok.
  - apply unit_result_ok in H as [H ->]. destruct (SubObjRc_ok m m' C p Hg H Hal) as (o & _ & Hg').
    eexists. split; [|exact Hg']. unfold picked_contents. destruct (decide _); auto.
  - apply unit_result_ok in H as [H ->]. destruct (PickForCleanup_ok m m' C p Hg H Hal) as (o & _ & Hg').
    eexists. split; [|exact Hg']. unfold picked_contents. destruct (decide _); auto.
  - apply unit_result_ok in H as [H ->]. destruct (RemoveClean_ok m C Hg) as (m1 & E & Hg' & _).
    rewrite E in H. injection H as <-. eauto.
Qed.

Lemma runs_good limit n files l m :
  unsigned_range 64 limit -> (0 < n)%nat -> runs (make limit n files) l m ->
  exists C, spec_runs ∅ l C /\ good m C.
Proof.
  intros Hl Hn Hr. remember (make limit n files) as m0 eqn:E0. revert E0.
  induction Hr as [m|m l m1 locked c r m2 Hr IH Hal H]; intros ->.
  - exists ∅. split; [constructor|now apply make_good].
  - destruct IH as (C1 & HS & Hg); [done|].
    destruct (step_refines locked c m1 C1 r m2 Hg Hal H) as (C2 & HC & Hg2).
    exists C2. split; [by econstructor|done].
Qed.

(** C3. Every run of the buffer manager is a run of the store of contents: whatever calls the
    clients make under their rules, and whatever objects are evicted, spilled to temporary
    files, saved, moved, mapped or removed on the way, every [Load] and every mutable pointer
    gives exactly the contents that were last written to the object. *)
Theorem buffer_runs_refine_store (limit : Z) (lru_count : nat) (files : fs) (l : list (call * result)) m :
  unsigned_range 64 limit -> (0 < lru_count)%nat -> runs (make limit lru_count files) l m ->
  exists C, spec_runs ∅ l C.
Proof. intros Hl Hn Hr. destruct (runs_good limit lru_count files l m Hl Hn Hr) as (C & HS & _). eauto. Qed.

(** C32. A run consists of the calls of handles, of file workers and of the cleanup; the growth of buffers of
    variable length ([AddBufferSize]) is not among them, and [failed_request_lifts_limit] shows that a refused
    growth breaks what follows. In every state of a run the memory in use is exactly the sum of the sizes of the objects
    whose data is in memory, it never exceeds the limit, and no object fails [CheckState]. *)
Theorem buffer_runs_within_limit (limit : Z) (lru_count : nat) (files : fs) (l : list (call * result)) m :
  unsigned_range 64 limit -> (0 < lru_count)%nat -> runs (make limit lru_count files) l m ->
  current_memory_size_ m = map_fold (fun _ o n => (if data_ (file_worker_ o) then GetBufferSize o else 0) + n) 0 (objs_ m) /\
  current_memory_size_ m <= memory_limit_ m /\
  forall p o, objs_ m !! p = Some o -> BufferObj.CheckState p m = Ok tt.
Proof.
  intros Hl Hn Hr. destruct (runs_good limit lru_count files l m Hl Hn Hr) as (C & _ & Hinv & [Ha1 Ha2]).
  split_and!; [rewrite Ha1; unfold mem_cost, cost; lia|done|].
  intros p o Ho. unfold BufferObj.CheckState. rewrite (deref_ok p m o Ho). cbn [res_bind].
  destruct (decide (status_ o = kClean)) as [Hs|Hs].
  - destruct (inv_dead m C p o Hinv Ho Hs) as [_ [[Hrc _] _ _ _ _ _]]. now rewrite Hs, Hrc.
  - destruct (inv_live m C p o Hinv Ho Hs) as (d & _ & [_ [L2 L2'] L3 _ _ _ _ _ _ _ _ _ _]).
    unfold shape in L3. destruct (Z.ltb_spec 0 (rc_ o)) as [Hpos|Hneg].
    + apply L2' in Hpos as E. rewrite E in *. destruct (Z.eqb_spec (rc_ o) 0); [lia|done].
    + destruct (status_ o); try done; [pose proof (proj1 L2' eq_refl); lia|]. now destruct (type_ o).
Qed.

(** C35. In every state of a run, that is, of a manager in which no growth of a buffer of variable length
    ([AddBufferSize]) was refused, a request for memory returns. When it succeeds, the requested
    bytes fit beside what the objects hold; when it fails, they do not, even though every
    object that is left in a queue is locked, so nothing more could have been freed. Only
    objects in a queue were evicted: what is loaded stays in memory. *)
Theorem request_space_outcome (limit : Z) (lru_count : nat) (files : fs) (l : list (call * result)) m
    (locked : gset ptr) (need : Z) :
  unsigned_range 64 limit -> (0 < lru_count)%nat -> runs (make limit lru_count files) l m ->
  0 <= need < 2 ^ 64 ->
  exists (ok : bool) m', RequestSpace locked need m = Ok (ok, m') /\
    (if ok then current_memory_size_ m' = mem_cost m' + need /\ mem_cost m' + need <= memory_limit_ m'
     else memory_limit_ m' < mem_cost m' + need /\
          forall (queue : list ptr) p, queue ∈ lru_caches_ m' -> p ∈ queue -> p ∈ locked) /\
    forall p o, objs_ m !! p = Some o -> 0 < rc_ o -> objs_ m' !! p = Some o.
Proof.
  intros Hl Hn Hr Hneed. destruct (runs_good limit lru_count files l m Hl Hn Hr) as (C & _ & Hinv & Ha).
  destruct (RequestSpace_ok locked need m C Hinv Ha Hneed) as (ok & m' & E & I' & _ & Hk & _ & _ & _ & H).
  exists ok, m'. split_and!; [done| |].
  - destruct ok; [destruct H; lia|]. destruct H as (H1 & _ & H2). split; [done|].
    intros q p Hq Hp. apply list_elem_of_lookup in Hq as [i Hi].
    apply (H2 i (lookup_lt_Some _ _ _ Hi) q p Hi Hp).
  - intros p o Ho Hrc. destruct (Hk p) as [E'|(o' & Ho' & Hq & _)]; [congruence|].
    rewrite Ho in Ho'. injection Ho' as <-. pose proof (queued_status o Hq) as Hs.
    destruct (inv_live m C p o Hinv Ho ltac:(congruence)) as (d & _ & Hlv).
    pose proof (proj2 (proj2 (li_rc _ _ _ _ _ _ Hlv)) Hrc). congruence.
Qed.

(** Loading an object that was not picked for cleanup can fail in one way only: its data is
    not in memory and there is no memory for it, even after everything that nobody uses was
    freed. In particular a spill or data file that is missing or does not fit is never met. *)
Theorem load_fails_only_without_memory (limit : Z) (lru_count : nat) (files : fs) (l : list (call * result)) m
    (locked : gset ptr) p o :
  unsigned_range 64 limit -> (0 < lru_count)%nat -> runs (make limit lru_count files) l m ->
  objs_ m !! p = Some o -> status_ o <> kClean -> rc_ o + 1 < 2 ^ 64 ->
  (exists d m', BufferObj.Load locked p m = Ok (Some d, m')) \/
  (BufferObj.Load locked p m = Err Unrecoverable /\ data_ (file_worker_ o) = None /\
     exists m', memory_limit_ m' < mem_cost m' + GetBufferSize o /\
       forall (queue : list ptr) p', queue ∈ lru_caches_ m' -> p' ∈ queue -> p' = p \/ p' ∈ locked).
Proof.
  intros Hl Hn Hr Ho Hs Hrc. destruct (runs_good limit lru_count files l m Hl Hn Hr) as (C & _ & Hinv & Ha).
  destruct (inv_live m C p o Hinv Ho Hs) as (d & HC & Hlv).
  destruct (Load_ok locked m C p o d Hinv Ha Ho Hs HC Hrc) as [(m' & E & _)|(E & Hres & m' & _ & H1 & H2)];
    [left; eauto|right].
  split_and!; [done|now rewrite (li_data _ _ _ _ _ _ Hlv), Hres|]. exists m'. split; [done|].
  intros q p' Hq Hp. specialize (H2 q p' Hq Hp). set_solver.
Qed.

(** Removing the objects that were picked for cleanup never fails in a run. Exactly they are
    destroyed, and no queue, set or table of the manager refers to a destroyed object. *)
Theorem remove_clean_leaves_no_pointer (limit : Z) (lru_count : nat) (files : fs) (l : list (call * result)) m :
  unsigned_range 64 limit -> (0 < lru_count)%nat -> runs (make limit lru_count files) l m ->
  exists m', RemoveClean m = Ok m' /\
    (forall p, objs_ m' !! p = if decide (p ∈ clean_list_ m) then None else objs_ m !! p) /\
    (forall p, p ∈ temp_set_ m' \/ p ∈ clean_temp_set_ m' \/ p ∈ clean_list_ m' \/
               (exists queue : list ptr, queue ∈ lru_caches_ m' /\ p ∈ queue) \/ (exists f, buffer_map_ m' !! f = Some p) ->
       is_Some (objs_ m' !! p)).
Proof.
  intros Hl Hn Hr. destruct (runs_good limit lru_count files l m Hl Hn Hr) as (C & _ & Hg).
  destruct (RemoveClean_ok m C Hg) as (m' & E & [Hinv' _] & Ho & _ & _ & _).
  exists m'. split_and!; [done|done|]. intros p Hp.
  destruct (objs_ m' !! p) as [o|] eqn:Eo; [eauto|]. exfalso.
  destruct Hp as [Hp|[Hp|[Hp|[(q & Hq & Hp)|(f & Hf)]]]].
  1-3: destruct Hinv' as [_ Hpi]; specialize (Hpi p); unfold pinv in Hpi; rewrite Eo in Hpi;
       destruct Hpi as [Er _]; unfold refs_of, no_refs in Er;
       injection Er; rewrite ?(bool_decide_true _ Hp); congruence.
  - apply list_elem_of_lookup in Hq as [i Hi].
    destruct (in_queue_object m' C p i q Hinv' Hi Hp) as (o & _ & Ho' & _). congruence.
  - destruct (gl_map _ (proj1 Hinv') f p Hf) as (o & Ho' & _). congruence.
Qed.

(** A request of a variable-length buffer that fails is only logged and still counted, and
    from then on the memory in use exceeds the limit. The next request computes the free
    space with an unsigned subtraction that wraps around, so it succeeds at once without
    freeing anything: the limit is no longer enforced. *)
Theorem failed_request_lifts_limit (limit : Z) (lru_count : nat) (files : fs) (l : list (call * result)) m
    (locked locked' : gset ptr) (need need' : Z) m1 :
  unsigned_range 63 limit -> (0 < lru_count)%nat -> runs (make limit lru_count files) l m ->
  0 <= need -> memory_limit_ m + need < 2 ^ 63 -> 0 <= need' < 2 ^ 63 ->
  BufferObj.AddBufferSize locked true need m = Ok (false, m1) ->
  BufferObj.AddBufferSize locked' true need' m1 =
  Ok (true, set_memory (current_memory_size_ m1 + need') m1) /\ memory_limit_ m1 < current_memory_size_ m1.
Proof.
  intros Hl Hn Hr Hneed Hb Hneed' E.
  assert (Hl' : unsigned_range 64 limit) by (unfold unsigned_range in *; lia).
  destruct (runs_good limit lru_count files l m Hl' Hn Hr) as (C & _ & Hinv & Ha).
  pose proof (gl_limit _ (proj1 Hinv)) as Hlim. unfold unsigned_range in Hlim.
  destruct (RequestSpace_ok locked need m C Hinv Ha ltac:(lia)) as (ok & m' & E' & I' & _ & _ & _ & Hlm & Hmc & H).
  unfold BufferObj.AddBufferSize in *. rewrite E' in E. injection E as -> ->.
  destruct H as (H1 & H2 & _), Ha as [Ha1 Ha2]. pose proof (inv_mem_nonneg _ _ I') as Hm0.
  rewrite wrap_id in H2 by (unfold unsigned_range; lia). split; [|lia]. unfold RequestSpace.
  assert (Ew : u64 (memory_limit_ m1 - current_memory_size_ m1) = memory_limit_ m1 - current_memory_size_ m1 + 2 ^ 64).
  { unfold wrap. symmetry. apply Z.mod_unique with (-1); lia. }
  rewrite Ew, (proj2 (Z.leb_le _ _)) by lia. now rewrite wrap_id by (unfold unsigned_range; lia).
Qed.

(** ** Defects *)

(** The spill file of an object that was evicted before it was ever saved stays in the
    temporary directory when the object is cleaned up: [CleanupTempFile] skips objects of
    type [kTemp], and an object that is picked keeps this type. *)
Theorem spill_file_survives_cleanup m C p o m' :
  good m C -> objs_ m !! p = Some o -> type_ o = kTemp -> RemoveClean m = Ok m' ->
  files_ m' !! path true o = files_ m !! path true o.
Proof.
  intros Hg Ho Ht E. destruct (RemoveClean_ok m C Hg) as (m1 & E1 & _ & _ & _ & _ & HF).
  rewrite E1 in E. injection E as ->. destruct Hg as [Hinv _].
  pose proof (inv_home m C p o Hinv Ho) as Hh.
  destruct (HF (path true o)) as [|(_ & q & o' & Hq & [[_ Hp]|(_ & Hn & Hp)])]; [done|exfalso..].
  - destruct (decide (p = q)) as [->|Hpq].
    + rewrite Ho in Hq. injection Hq as <-. now apply (path_spill_data m q o Hh) in Hp.
    + revert Hp. apply (paths_apart m p q); auto. by eapply inv_home.
  - destruct (decide (p = q)) as [->|Hpq]; [congruence|].
    revert Hp. apply (paths_apart m p q); auto. by eapply inv_home.
Qed.

(** [SubObjRc] marks an object whose data is in memory as clean without freeing it; the next
    [RemoveClean] finds the data and raises. *)
Theorem sub_obj_rc_breaks_cleanup m p o d m1 :
  objs_ m !! p = Some o -> data_ (file_worker_ o) = Some d -> obj_rc_ o = 1 -> clean_list_ m = [] ->
  BufferObj.SubObjRc p m = Ok m1 -> RemoveClean m1 = Err Unrecoverable.
Proof.
  intros Ho Hd Hrc Hcl E. unfold BufferObj.SubObjRc in E. rewrite (deref_ok p m o Ho) in E. cbn in E.
  rewrite Hrc in E. cbn in E. injection E as <-. unfold RemoveClean. cbn. rewrite Hcl. cbn.
  unfold BufferObj.CleanupFile, deref. cbn. rewrite lookup_insert_eq. cbn. now rewrite Hd.
Qed.

(** Assigning the only handle of an object to itself raises: the handle is released first, and
    the object it would load again is no longer loaded. *)
Theorem handle_self_assignment_raises (locked : gset ptr) m C p o (h : BufferHandle D) :
  good m C -> objs_ m !! p = Some o -> status_ o = kLoaded -> type_ o = kPersistent \/ type_ o = kEphemeral ->
  rc_ o = 1 -> buffer_obj_ h = Some p -> BufferHandle.assign locked h h m = Err Unrecoverable.
Proof.
  intros Hg Ho Hs Ht Hrc Hh. unfold BufferHandle.assign, BufferHandle.release, BufferHandle.load_inner.
  cbn. rewrite Hh. unfold BufferObj.UnloadInner. rewrite (deref_ok p m o Ho). cbn [res_bind].
  rewrite bool_decide_true by done. cbn [set_rc rc_ type_]. rewrite Hrc. cbn [Z.sub].
  change (u64 (1 - 1)) with 0. rewrite Z.eqb_refl.
  destruct (pushed_ok ({[p]} ∪ locked) m C p o) as (m1 & E & _); auto.
  { unfold resident. rewrite Hs. now destruct Ht as [-> | ->]. }
  { destruct Ht; congruence. }
  fold (set_rc 0 o). rewrite E. destruct Ht as [-> | ->]; cbn [res_bind];
    unfold BufferObj.LoadInner, deref; cbn; rewrite lookup_insert_eq; cbn;
    now rewrite bool_decide_false.
Qed.
End refinement.

(** ** An example run

    Two objects of eight bytes share a memory of ten: loading the second evicts the first to
    its spill file, and loading the first again gives back what was written to it. *)
#[export] Instance demo_dirs : Directories.
Proof.
  refine {| data_dir := "/data"; temp_dir := "/temp" |}.
  - intros a b E. cbn in E. discriminate E.
  - intros a. now split.
Defined.

Definition demo_worker (name : string) : FileWorker DataFileWorker bytes :=
  mkFileWorker "/data" "/temp" "db" name (mkDataFileWorker 8) None None None.
Definition demo_data : bytes := replicate 8 Byte.x61.
Definition demo_step (c : call) (m : BufferManager DataFileWorker bytes) : BufferManager DataFileWorker bytes :=
  match run ∅ c m with Ok (_, m') => m' | Err _ => m end.
Definition demo0 : BufferManager DataFileWorker bytes := make 10 2 ∅.
Definition demo1 := demo_step (CLoad 1) (demo_step (CAllocate (demo_worker "a")) demo0).
Definition demo2 := demo_step (CUnloadInner 1) (demo_step (CWrite 1 demo_data) (demo_step (CGetMutPointer 1) demo1)).
Definition demo3 := demo_step (CLoad 2) (demo_step (CAllocate (demo_worker "b")) demo2).
Definition demo4 := demo_step (CUnloadInner 2) demo3.

Example demo_reload : run ∅ (CLoad 1) demo4 = Ok (RData (Some demo_data), demo_step (CLoad 1) demo4).
Proof. vm_compute. reflexivity. Qed.

(** One call of the run, checked by evaluation. *)
Lemma demo_snoc l m c r m' :
  runs demo0 l m -> allowed c m -> run ∅ c m = Ok (r, m') -> runs demo0 (l ++ [(c, r)]) m'.
Proof. apply runs_snoc. Qed.

Lemma demo_place name m : files_ m = ∅ -> place_ok (demo_worker name) m.
Proof.
  intros Hf. split; [reflexivity..| |reflexivity|].
  - now split.
  - intros b c. rewrite Hf, lookup_empty. discriminate.
Qed.

Ltac demo_object := intros o Ho; vm_compute in Ho; injection Ho as <-.

Definition demo_trace2 : list (call * result) :=
  [(CAllocate (demo_worker "a"), RPtr 1); (CLoad 1, RData (Some (replicate 8 Byte.x00)));
   (CGetMutPointer 1, RData (Some (replicate 8 Byte.x00))); (CWrite 1 demo_data, RUnit); (CUnloadInner 1, RUnit)].
Definition demo_trace : list (call * result) :=
  demo_trace2 ++ [(CAllocate (demo_worker "b"), RPtr 2); (CLoad 2, RData (Some (replicate 8 Byte.x00)));
                  (CUnloadInner 2, RUnit)].

Lemma demo_runs2 : runs demo0 demo_trace2 demo2.
Proof.
  apply (demo_snoc [_; _; _; _] (demo_step (CWrite 1 demo_data) (demo_step (CGetMutPointer 1) demo1)));
    [|done|vm_compute; reflexivity].
  apply (demo_snoc [_; _; _] (demo_step (CGetMutPointer 1) demo1)); [|demo_object; now split_and!|vm_compute; reflexivity].
  apply (demo_snoc [_; _] demo1); [|demo_object; now split|vm_compute; reflexivity].
  apply (demo_snoc [_] (demo_step (CAllocate (demo_worker "a")) demo0)); [|demo_object; now split|vm_compute; reflexivity].
  apply (demo_snoc [] demo0); [apply runs_nil|by apply demo_place|vm_compute; reflexivity].
Qed.

Lemma demo_runs : runs demo0 demo_trace demo4.
Proof.
  apply (demo_snoc (demo_trace2 ++ [_; _]) demo3); [|done|vm_compute; reflexivity].
  apply (demo_snoc (demo_trace2 ++ [_]) (demo_step (CAllocate (demo_worker "b")) demo2));
    [|demo_object; now split|vm_compute; reflexivity].
  apply (demo_snoc demo_trace2 demo2); [apply demo_runs2|by apply demo_place|vm_compute; reflexivity].
Qed.

Lemma demo_range : unsigned_range 64 10.
Proof. unfold unsigned_range. lia. Qed.

Lemma buffer_runs_refine_store_witness :
  exists C, spec_runs ∅ (demo_trace ++ [(CLoad 1, RData (Some demo_data))]) C.
Proof.
  apply (buffer_runs_refine_store 10 2 ∅ _ (demo_step (CLoad 1) demo4)); [apply demo_range|lia|].
  apply (demo_snoc demo_trace demo4); [apply demo_runs|demo_object; now split|vm_compute; reflexivity].
Defined.

Lemma buffer_runs_within_limit_witness :
  current_memory_size_ demo4 = 8 /\ current_memory_size_ demo4 <= memory_limit_ demo4.
Proof.
  destruct (buffer_runs_within_limit 10 2 ∅ _ demo4 demo_range ltac:(lia) demo_runs) as (_ & H & _).
  split; [vm_compute; reflexivity|exact H].
Defined.

Lemma request_space_outcome_witness :
  exists (ok : bool) m', RequestSpace {[2%positive]} 9 demo4 = Ok (ok, m') /\ ok = false /\
    memory_limit_ m' < mem_cost m' + 9.
Proof.
  destruct (request_space_outcome 10 2 ∅ _ demo4 {[2%positive]} 9 demo_range ltac:(lia) demo_runs ltac:(lia))
    as ([|] & m' & E & H & _).
  - vm_compute in E. discriminate E.
  - exists false, m'. split; [exact E|]. split; [reflexivity|apply H].
Defined.

Lemma load_fails_only_without_memory_witness :
  (exists d m', BufferObj.Load ∅ 1 demo4 = Ok (Some d, m')) \/
  (BufferObj.Load ∅ 1 demo4 = Err Unrecoverable /\ exists m' : BufferManager DataFileWorker bytes, memory_limit_ m' < mem_cost m' + 8).
Proof.
  destruct (objs_ demo4 !! 1%positive) as [o|] eqn:Ho; [|vm_compute in Ho; discriminate Ho].
  pose proof Ho as Ho'. vm_compute in Ho'. injection Ho' as <-.
  destruct (load_fails_only_without_memory 10 2 ∅ _ demo4 ∅ 1 _ demo_range ltac:(lia) demo_runs Ho
              ltac:(discriminate) ltac:(cbn; lia)) as [H|(H1 & _ & m' & H2 & _)]; [left; exact H|right].
  split; [exact H1|]. exists m'. exact H2.
Defined.

Definition demo5 := demo_step (CPickForCleanup 1) (demo_step (CAddObjRc 1) demo4).
Lemma demo_runs5 : runs demo0 (demo_trace ++ [(CAddObjRc 1, RUnit); (CPickForCleanup 1, RUnit)]) demo5.
Proof.
  apply (demo_snoc (demo_trace ++ [_]) (demo_step (CAddObjRc 1) demo4)); [|now demo_object|vm_compute; reflexivity].
  apply (demo_snoc demo_trace demo4); [apply demo_runs|now demo_object|vm_compute; reflexivity].
Qed.

Lemma remove_clean_leaves_no_pointer_witness :
  exists m', RemoveClean demo5 = Ok m' /\ objs_ m' !! 1%positive = None /\ objs_ m' !! 2%positive <> None.
Proof.
  destruct (remove_clean_leaves_no_pointer 10 2 ∅ _ demo5 demo_range ltac:(lia) demo_runs5) as (m' & E & H & _).
  exists m'. split; [exact E|]. rewrite !H. split; vm_compute; [reflexivity|discriminate].
Defined.

(** Two bytes are free, twenty are requested with the only object in memory locked; then nine
    more are granted. *)
Definition demo_failed : BufferManager DataFileWorker bytes :=
  match BufferObj.AddBufferSize {[2%positive]} true 20 demo4 with Ok (_, m) => m | Err _ => demo4 end.
Lemma failed_request_lifts_limit_witness :
  BufferObj.AddBufferSize ∅ true 9 demo_failed = Ok (true, set_memory 37 demo_failed).
Proof.
  refine (proj1 (failed_request_lifts_limit 10 2 ∅ _ demo4 {[2%positive]} ∅ 20 9 demo_failed
            _ _ demo_runs _ _ _ _)).
  - unfold unsigned_range. lia.
  - lia.
  - lia.
  - vm_compute. reflexivity.
  - lia.
  - vm_compute. reflexivity.
Defined.
