(* ===== verification/BlockVersion.v ===== *)
(** * Versions of a block: [src/src/storage/meta/entry/block_version.cpp],
    [src/src/storage/buffer/file_worker/version_file_worker.cpp]

    Rows of a block carry no timestamps of their own. The version of the block holds one
    [CreateField] per append (the commit timestamp and the number of rows after it) and one
    commit timestamp per row for the deletion of the row, 0 when it was not deleted. A version
    is read and written through a buffer object, whose file worker is [VersionFileWorker]: it
    spills the whole version and saves what a checkpoint may see. *)
From S2P Require Import Prelude Serialize FileWorker BufferManager.

(** ** [std::lower_bound] and [std::upper_bound]

    Both search for the point where a predicate turns false, by halving the range of [len]
    elements behind [first]. *)
Module Algorithm.
Section search.
Context {A : Type}.
Implicit Types (p : A -> bool) (l : list A).

Fixpoint partition_loop p l (fuel first len : nat) : nat :=
  match fuel with
  | O => first
  | S fuel =>
      if (len =? 0)%nat then first
      else
        let half := Nat.div2 len in
        match l !! (first + half)%nat with
        | None => first
        | Some x =>
            if p x then partition_loop p l fuel (S (first + half)) (len - half - 1)
            else partition_loop p l fuel first half
        end
  end.

Definition partition_point p l : nat := partition_loop p l (length l) 0 (length l).

(** [upper_bound(v)] stops at the first [x] with [v < x], [lower_bound(v)] at the first [x]
    that is not below [v]. *)
Definition upper_bound (less : A -> bool) l : nat := partition_point (fun x => negb (less x)) l.
Definition lower_bound (less : A -> bool) l : nat := partition_point less l.

(** The predicate holds for the first [k] elements and for no other. *)
Definition split_at p l (k : nat) : Prop :=
  (k <= length l)%nat /\ forall i x, l !! i = Some x -> p x = true <-> (i < k)%nat.

Lemma partition_loop_split p l k fuel first len :
  split_at p l k -> (len <= fuel)%nat -> (first <= k <= first + len)%nat -> (first + len <= length l)%nat ->
  partition_loop p l fuel first len = k.
Proof.
  intros [_ Hp]. revert first len. induction fuel as [|fuel IH]; intros first len Hf Hk Hl; cbn -[Nat.div2]; [lia|].
  destruct (Nat.eqb_spec len 0) as [->|Hn]; [lia|].
  assert (Hd : (Nat.div2 len < len)%nat) by (apply Nat.lt_div2; lia).
  generalize dependent (Nat.div2 len). intros half Hd.
  destruct (lookup_lt_is_Some_2 l (first + half)) as [x Hx]; [lia|]. rewrite Hx.
  specialize (Hp _ _ Hx). destruct (p x).
  - assert (first + half < k)%nat by now apply Hp. apply IH; lia.
  - assert (~ (first + half < k)%nat) by now rewrite <- Hp. apply IH; lia.
Qed.

Lemma partition_point_split p l k : split_at p l k -> partition_point p l = k.
Proof. intros H. apply partition_loop_split; [done..| |lia]. pose proof (proj1 H). lia. Qed.

Lemma split_at_ext p q l k : (forall x, x ∈ l -> p x = q x) -> split_at p l k -> split_at q l k.
Proof.
  intros E [Hk H]. split; [done|]. intros i x Hx. rewrite <- (E x); [auto|]. by eapply list_elem_of_lookup_2.
Qed.

(** A predicate that, along the list, never becomes true again has such a point. *)
Fixpoint prefix_length p l : nat :=
  match l with
  | [] => 0
  | x :: l => if p x then S (prefix_length p l) else 0
  end.

Lemma prefix_length_split p l :
  (forall i j x y, (i < j)%nat -> l !! i = Some x -> l !! j = Some y -> p y = true -> p x = true) ->
  split_at p l (prefix_length p l).
Proof.
  induction l as [|a l IH]; intros Hm; cbn.
  { split; [done|]. intros i x [=]. }
  destruct (p a) eqn:Ea.
  - destruct IH as [Hk Hp]. { intros i j x y Hij Hi Hj. apply (Hm (S i) (S j)); [lia|done..]. }
    split; [cbn; lia|]. intros [|i] x Hx; cbn in Hx.
    + simplify_eq. split; [lia|done].
    + rewrite (Hp i x Hx). split; lia.
  - split; [lia|]. intros i x Hx. split; [|lia]. intros Hpx. exfalso.
    destruct i as [|i]; cbn in Hx; [congruence|].
    rewrite (Hm 0%nat (S i) a x) in Ea; [done|lia|done..].
Qed.
End search.
End Algorithm.

(** ** [CreateField], [BlockVersion] *)
Record CreateField := mkCreateField { create_ts_ : Z; row_count_ : Z }.

Record BlockVersion := mkBlockVersion {
  created_ : list CreateField;
  deleted_ : list Z;
  latest_change_ts_ : Z;
}.

Definition MAX_TIMESTAMP : Z := 2 ^ 64 - 1.
Definition UNCOMMIT_TS : Z := 2 ^ 64 - 1.

Module CreateField.
Definition SaveToFile (c : CreateField) : bytes := le_encode 8 (create_ts_ c) ++ le_encode 8 (row_count_ c).

(** [Read] into a member that is zero: the bytes behind the end of the file stay zero. *)
Definition read_u64 (file : bytes) : Z * bytes :=
  let (b, rest) := VirtualStore.Read 8 file in (le_decode b, rest).

Definition LoadFromFile (file : bytes) : CreateField * bytes :=
  let (create_ts, file) := read_u64 file in
  let (row_count, file) := read_u64 file in
  (mkCreateField create_ts (i64 row_count), file).

Definition eqb (a b : CreateField) : bool := (create_ts_ a =? create_ts_ b) && (row_count_ a =? row_count_ b).
End CreateField.

Module BlockVersion.
Definition new (capacity : Z) : BlockVersion := mkBlockVersion [] (replicate (Z.to_nat capacity) 0) 0.

(** [operator==]: the latest change is not compared. *)
Fixpoint all2 {A : Type} (f : A -> A -> bool) (l1 l2 : list A) : bool :=
  match l1, l2 with
  | [], [] => true
  | a :: l1, b :: l2 => f a b && all2 f l1 l2
  | _, _ => false
  end.
Definition eqb (v w : BlockVersion) : bool :=
  all2 CreateField.eqb (created_ v) (created_ w) && all2 Z.eqb (deleted_ v) (deleted_ w).

Definition GetRowCount (v : BlockVersion) (begin_ts : Z) : Z :=
  match Algorithm.upper_bound (fun field => begin_ts <? create_ts_ field) (created_ v) with
  | O => 0
  | S i => match created_ v !! i with Some field => i32 (row_count_ field) | None => 0 end
  end.

(** The loop that drops the appends behind the checkpoint. *)
Fixpoint trim_created (created : list CreateField) (checkpoint_ts : Z) (create_size : nat) : nat :=
  match create_size with
  | O => O
  | S n =>
      match created !! n with
      | Some field => if checkpoint_ts <? create_ts_ field then trim_created created checkpoint_ts n else S n
      | None => S n
      end
  end.

Definition SaveToFile (checkpoint_ts : Z) (v : BlockVersion) : bytes :=
  let create_size := trim_created (created_ v) checkpoint_ts (Z.to_nat (u16 (Z.of_nat (length (created_ v))))) in
  let capacity := u16 (Z.of_nat (length (deleted_ v))) in
  le_encode 2 (Z.of_nat create_size) ++
  concat (map CreateField.SaveToFile (take create_size (created_ v))) ++
  le_encode 2 capacity ++
  concat (map (fun ts => if ts <=? checkpoint_ts then le_encode 8 ts else le_encode 8 0) (deleted_ v)).

Definition SpillToFile (v : BlockVersion) : bytes :=
  let create_size := u16 (Z.of_nat (length (created_ v))) in
  let capacity := u16 (Z.of_nat (length (deleted_ v))) in
  le_encode 2 create_size ++
  concat (map CreateField.SaveToFile (created_ v)) ++
  le_encode 2 capacity ++
  concat (map (le_encode 8) (take (Z.to_nat capacity) (deleted_ v))).

(** [Read] into an uninitialised variable needs all its bytes. *)
Definition read_u16 (file : bytes) : res (Z * bytes) :=
  let (b, rest) := VirtualStore.Read 2 file in
  check? (length b =? 2)%nat else Undefined in Ok (le_decode b, rest).

Fixpoint read_n {A : Type} (r : bytes -> A * bytes) (n : nat) (file : bytes) : list A * bytes :=
  match n with
  | O => ([], file)
  | S n => let (a, file) := r file in let (l, file) := read_n r n file in (a :: l, file)
  end.

Definition LoadFromFile (file : bytes) : res BlockVersion :=
  let? (create_size, file) := read_u16 file in
  let (created, file) := read_n CreateField.LoadFromFile (Z.to_nat create_size) file in
  let? (capacity, file) := read_u16 file in
  let (deleted, _) := read_n CreateField.read_u64 (Z.to_nat capacity) file in
  Ok (mkBlockVersion created deleted 0).

(** [GetCreateTS]: the values appended to the column; [iter] is the rest of [created_]. *)
Fixpoint create_ts_loop (offset : Z) (size : nat) (i : Z) (iter : list CreateField) : list Z :=
  match size with
  | O => []
  | S size =>
      match iter with
      | [] => MAX_TIMESTAMP :: create_ts_loop offset size (i + 1) []
      | field :: iter' =>
          create_ts_ field ::
          create_ts_loop offset size (i + 1) (if row_count_ field =? i + offset then iter' else iter)
      end
  end.
Definition GetCreateTS (v : BlockVersion) (offset : Z) (size : nat) : list Z :=
  let first := Algorithm.lower_bound (fun field => row_count_ field <? offset) (created_ v) in
  create_ts_loop offset size 0 (drop first (created_ v)).

Definition GetDeleteTS (v : BlockVersion) (offset size : nat) : res (list Z) :=
  check? (offset + size <=? length (deleted_ v))%nat else Undefined in
  Ok (take size (drop offset (deleted_ v))).

Definition Append (commit_ts row_count : Z) (v : BlockVersion) : BlockVersion :=
  mkBlockVersion (created_ v ++ [mkCreateField commit_ts row_count]) (deleted_ v) commit_ts.

Definition Delete (offset commit_ts : Z) (v : BlockVersion) : res BlockVersion :=
  match deleted_ v !! Z.to_nat offset with
  | None => Err Undefined
  | Some old_ts =>
      check? old_ts =? 0 else Unrecoverable in
      Ok (mkBlockVersion (created_ v) (<[Z.to_nat offset := commit_ts]> (deleted_ v)) commit_ts)
  end.

(** An offset that is negative or behind the end is not deleted. *)
Definition CheckDelete (v : BlockVersion) (offset check_ts : Z) : bool :=
  if Z.of_nat (length (deleted_ v)) <=? u64 offset then false
  else match deleted_ v !! Z.to_nat (u64 offset) with
       | Some ts => negb (ts =? 0) && (ts <=? check_ts)
       | None => false
       end.
End BlockVersion.

(** ** [VersionFileWorker] *)
Record VersionFileWorker := mkVersionFileWorker { capacity_ : Z }.

Module VersionFileWorker.
Definition NewData (w : VersionFileWorker) : res BlockVersion :=
  check? negb (capacity_ w =? 0) else Unrecoverable in Ok (BlockVersion.new (capacity_ w)).

Definition GetMemoryCost (w : VersionFileWorker) : Z := u64 (capacity_ w * 8).

(** [checkpoint_ts] is the member of the [VersionFileWorkerSaveCtx] that [Save] passes on. *)
Definition WriteToFileImpl (checkpoint_ts : Z) (to_spill : bool) (w : VersionFileWorker) (v : BlockVersion)
    : res (bool * bytes) :=
  if to_spill then Ok (true, BlockVersion.SpillToFile v)
  else Ok (latest_change_ts_ v <=? checkpoint_ts, BlockVersion.SaveToFile checkpoint_ts v).

Definition ReadFromFileImpl (w : VersionFileWorker) (file : bytes) : res BlockVersion :=
  BlockVersion.LoadFromFile file.

(** The methods of a version file worker, in calls whose context holds [checkpoint_ts]. *)
Definition impl (checkpoint_ts : Z) : FileWorkerImpl VersionFileWorker BlockVersion := {|
  FileWorker.GetMemoryCost := GetMemoryCost;
  FileWorker.NewData := NewData;
  FileWorker.WriteToFileImpl := WriteToFileImpl checkpoint_ts;
  FileWorker.ReadFromFileImpl := ReadFromFileImpl;
  FileWorker.ReadFromMmapImpl := fun _ _ => Err Unrecoverable;
|}.
End VersionFileWorker.

(** ** What a version says

    [rows_at created ts] is the number of rows behind the last append at or before [ts], and
    [delete_at deleted offset] the commit that deleted a row. *)
Definition rows_at (created : list CreateField) (ts : Z) : Z :=
  foldl (fun n field => if create_ts_ field <=? ts then row_count_ field else n) 0 created.

Definition delete_at (deleted : list Z) (offset : Z) : option Z :=
  match deleted !! Z.to_nat offset with
  | Some ts => if ts =? 0 then None else Some ts
  | None => None
  end.

(** Appends are in the order of their commits. *)
Definition in_order (created : list CreateField) : Prop :=
  forall i j x y, (i < j)%nat -> created !! i = Some x -> created !! j = Some y -> create_ts_ x <= create_ts_ y.

Definition field_ok (f : CreateField) : Prop := unsigned_range 64 (create_ts_ f) /\ 0 <= row_count_ f < 2 ^ 31.

Record version_ok (v : BlockVersion) : Prop := {
  vo_order : in_order (created_ v);
  vo_fields : Forall field_ok (created_ v);
  vo_deleted : Forall (unsigned_range 64) (deleted_ v);
  vo_created_size : Z.of_nat (length (created_ v)) < 2 ^ 16;
  vo_capacity : Z.of_nat (length (deleted_ v)) < 2 ^ 16;
}.

Section versions.
Implicit Types (created : list CreateField) (v : BlockVersion).
Import BlockVersion.

Lemma rows_at_snoc created f ts :
  rows_at (created ++ [f]) ts = if create_ts_ f <=? ts then row_count_ f else rows_at created ts.
Proof. unfold rows_at. now rewrite foldl_app. Qed.

Lemma in_order_app created f :
  in_order (created ++ [f]) <-> in_order created /\ Forall (fun x => create_ts_ x <= create_ts_ f) created.
Proof.
  split.
  - intros H. split.
    + intros i j x y Hij Hx Hy. apply (H i j); [done|by apply lookup_app_l_Some..].
    + apply Forall_lookup. intros i x Hx. pose proof (lookup_lt_Some _ _ _ Hx).
      apply (H i (length created)); [done|by apply lookup_app_l_Some|by apply list_lookup_middle].
  - intros [Ho Hf] i j x y Hij Hx Hy. apply lookup_app_Some in Hy as [Hy|[Hj Hy]].
    + apply (Ho i j); [done| |done]. rewrite lookup_app_l in Hx; [done|]. apply lookup_lt_Some in Hy. lia.
    + apply list_lookup_singleton_Some in Hy as [Hj' <-]. rewrite lookup_app_l in Hx by lia.
      by eapply Forall_lookup in Hf.
Qed.

(** The whole list when its last append is visible. *)
Lemma rows_at_all created ts ts' :
  Forall (fun f => create_ts_ f <= ts) created -> Forall (fun f => create_ts_ f <= ts') created ->
  rows_at created ts = rows_at created ts'.
Proof.
  intros H H'. induction created as [|f created IH] using rev_ind; [done|].
  apply Forall_app in H as [_ [H _]%Forall_cons_1], H' as [_ [H' _]%Forall_cons_1].
  rewrite !rows_at_snoc, (proj2 (Z.leb_le _ ts)), (proj2 (Z.leb_le _ ts')) by done. done.
Qed.

Lemma last_all_le created f ts :
  in_order (created ++ [f]) -> create_ts_ f <= ts -> Forall (fun x => create_ts_ x <= ts) (created ++ [f]).
Proof.
  intros [_ H]%in_order_app Hf. apply Forall_app. split; [|by apply Forall_singleton].
  eapply Forall_impl; [exact H|]. cbn. lia.
Qed.

Lemma split_at_snoc_false {A : Type} (p : A -> bool) l x k :
  p x = false -> Algorithm.split_at p (l ++ [x]) k -> Algorithm.split_at p l k.
Proof.
  intros Hx [Hk H]. rewrite length_app in Hk. cbn in Hk. split.
  - destruct (Nat.le_gt_cases k (length l)); [done|]. exfalso.
    destruct (H (length l) x) as [_ H']; [by apply list_lookup_middle|]. rewrite Hx in H'.
    discriminate H'. lia.
  - intros i y Hy. apply H. by apply lookup_app_l_Some.
Qed.

Lemma row_count_at_split created ts k :
  Forall field_ok created -> Algorithm.split_at (fun f => create_ts_ f <=? ts) created k ->
  match k with O => 0 | S i => match created !! i with Some f => i32 (row_count_ f) | None => 0 end end
  = rows_at created ts.
Proof.
  intros Hf. induction created as [|f created IH] using rev_ind; intros Hs.
  { destruct Hs as [Hk _]. cbn in Hk. destruct k; [done|lia]. }
  apply Forall_app in Hf as [Hf [[_ Hr] _]%Forall_cons_1]. rewrite rows_at_snoc.
  destruct (create_ts_ f <=? ts) eqn:E.
  - destruct Hs as [Hk Hs]. rewrite length_app in Hk. cbn in Hk.
    assert (length created < k)%nat.
    { apply (Hs (length created) f); [by apply list_lookup_middle|done]. }
    replace k with (S (length created)) by lia. rewrite list_lookup_middle by done.
    apply swrap_id; unfold signed_range; lia.
  - apply split_at_snoc_false in Hs as Hs'; [|done]. rewrite <- (IH Hf Hs').
    destruct k as [|i]; [done|]. rewrite lookup_app_l; [done|]. pose proof (proj1 Hs'). lia.
Qed.

Lemma GetRowCount_rows_at v ts : in_order (created_ v) -> Forall field_ok (created_ v) ->
  GetRowCount v ts = rows_at (created_ v) ts.
Proof.
  intros Ho Hf. unfold GetRowCount, Algorithm.upper_bound.
  set (p := fun f => create_ts_ f <=? ts).
  assert (Hs : Algorithm.split_at p (created_ v) (Algorithm.prefix_length p (created_ v))).
  { apply Algorithm.prefix_length_split. unfold p. intros i j x y Hij Hx Hy Hpy.
    pose proof (Ho i j x y Hij Hx Hy). lia. }
  erewrite Algorithm.partition_point_split.
  - by apply row_count_at_split.
  - eapply Algorithm.split_at_ext; [|exact Hs]. intros x _. unfold p. lia.
Qed.

Lemma CheckDelete_delete_at v offset ts : 0 <= offset < 2 ^ 64 ->
  CheckDelete v offset ts = match delete_at (deleted_ v) offset with Some d => d <=? ts | None => false end.
Proof.
  intros Ho. unfold CheckDelete, delete_at. rewrite wrap_id by done.
  destruct (Z.leb_spec (Z.of_nat (length (deleted_ v))) offset) as [H|H].
  - now rewrite lookup_ge_None_2 by lia.
  - destruct (deleted_ v !! Z.to_nat offset) as [d|]; [|done]. destruct (d =? 0); done.
Qed.
End versions.

(** ** Version files *)
Section files.
Implicit Types (created : list CreateField) (v : BlockVersion) (rest : bytes).
Import BlockVersion.

Lemma read_u16_app z rest : unsigned_range 16 z -> read_u16 (le_encode 2 z ++ rest) = Ok (z, rest).
Proof.
  intros Hz. unfold read_u16. rewrite DataFileWorker.Read_app by now rewrite length_le_encode.
  rewrite length_le_encode, le_decode_encode, Z.mod_small by exact Hz. done.
Qed.

Lemma read_u64_app z rest : unsigned_range 64 z -> CreateField.read_u64 (le_encode 8 z ++ rest) = (z, rest).
Proof.
  intros Hz. unfold CreateField.read_u64. rewrite DataFileWorker.Read_app by now rewrite length_le_encode.
  now rewrite DataFileWorker.decode_u64.
Qed.

Lemma load_field_app f rest : field_ok f -> CreateField.LoadFromFile (CreateField.SaveToFile f ++ rest) = (f, rest).
Proof.
  intros [Ht Hr]. unfold CreateField.LoadFromFile, CreateField.SaveToFile. rewrite <- app_assoc.
  rewrite read_u64_app by done. rewrite read_u64_app by (unfold unsigned_range; lia).
  rewrite swrap_id by (unfold signed_range; lia). now destruct f.
Qed.

Lemma read_n_concat {A B : Type} (r : bytes -> B * bytes) (w : A -> bytes) (f : A -> B) (l : list A) rest :
  Forall (fun a => forall rest, r (w a ++ rest) = (f a, rest)) l ->
  read_n r (length l) (concat (map w l) ++ rest) = (map f l, rest).
Proof. induction 1 as [|a l Ha _ IH]; cbn; [done|]. now rewrite <- app_assoc, Ha, IH. Qed.

Lemma read_n_eof n : read_n CreateField.read_u64 n [] = (replicate n 0, []).
Proof.
  induction n as [|n IH]; [done|]. cbn [read_n].
  change (CreateField.read_u64 []) with (0, @nil Byte.byte). cbv iota beta. now rewrite IH.
Qed.

Lemma read_n_app {A : Type} (r : bytes -> A * bytes) n m file l rest :
  read_n r n file = (l, rest) ->
  read_n r (n + m) file = (l ++ fst (read_n r m rest), snd (read_n r m rest)).
Proof.
  revert file l. induction n as [|n IH]; intros file l; cbn; [intros [= <- <-]; now destruct (read_n r m file)|].
  destruct (r file) as [a file']. destruct (read_n r n file') as [l' rest'] eqn:E. intros [= <- <-].
  now rewrite (IH _ _ E).
Qed.

(** The file of a version with these appends and [tail] as the timestamps of deletes. *)
Definition version_file created (capacity : Z) (tail : bytes) : bytes :=
  le_encode 2 (Z.of_nat (length created)) ++ concat (map CreateField.SaveToFile created) ++
  le_encode 2 capacity ++ tail.

Lemma load_version_file created capacity tail :
  Z.of_nat (length created) < 2 ^ 16 -> Forall field_ok created -> unsigned_range 16 capacity ->
  LoadFromFile (version_file created capacity tail) =
  Ok (mkBlockVersion created (fst (read_n CreateField.read_u64 (Z.to_nat capacity) tail)) 0).
Proof.
  intros Hl Hf Hc. unfold LoadFromFile, version_file.
  rewrite read_u16_app by (unfold unsigned_range; lia). cbn [res_bind].
  rewrite Nat2Z.id, (read_n_concat _ _ id); cycle 1.
  { eapply Forall_impl; [exact Hf|]. intros f Hok rest. now apply load_field_app. }
  rewrite map_id, read_u16_app by done. cbn [res_bind]. now destruct (read_n _ _ tail).
Qed.

Lemma read_deletes (g : Z -> Z) (l : list Z) rest :
  Forall (fun ts => unsigned_range 64 (g ts)) l ->
  read_n CreateField.read_u64 (length l) (concat (map (fun ts => le_encode 8 (g ts)) l) ++ rest) = (map g l, rest).
Proof.
  intros H. apply (read_n_concat _ (fun ts => le_encode 8 (g ts))).
  eapply Forall_impl; [exact H|]. intros ts Hts r. now apply read_u64_app.
Qed.

Lemma u16_size {A : Type} (l : list A) : Z.of_nat (length l) < 2 ^ 16 -> u16 (Z.of_nat (length l)) = Z.of_nat (length l).
Proof. intros H. apply wrap_id. unfold unsigned_range. lia. Qed.

Lemma spill_file v : version_ok v ->
  SpillToFile v = version_file (created_ v) (Z.of_nat (length (deleted_ v))) (concat (map (le_encode 8) (deleted_ v))).
Proof.
  intros [_ _ _ Hc Hd]. unfold SpillToFile, version_file.
  rewrite !u16_size, Nat2Z.id, firstn_all by done. done.
Qed.

Lemma trim_le created ckp n : (trim_created created ckp n <= n)%nat.
Proof. induction n as [|n IH]; cbn; [done|]. destruct (created !! n); [|done]. destruct (_ <? _); lia. Qed.

(** What the checkpoint keeps are the appends it may see. *)
Lemma rows_at_trim created ckp n ts :
  in_order created -> (n <= length created)%nat ->
  rows_at (take (trim_created created ckp n) created) ts = rows_at (take n created) (Z.min ts ckp).
Proof.
  intros Ho. induction n as [|n IH]; intros Hn; [done|]. cbn [trim_created].
  destruct (lookup_lt_is_Some_2 created n) as [f Hf]; [lia|]. rewrite Hf.
  destruct (Z.ltb_spec ckp (create_ts_ f)).
  - rewrite IH, (take_S_r _ _ _ Hf), rows_at_snoc by lia. destruct (Z.leb_spec (create_ts_ f) (Z.min ts ckp)); [lia|done].
  - rewrite (take_S_r _ _ _ Hf), !rows_at_snoc.
    assert (Hle : Forall (fun x => create_ts_ x <= create_ts_ f) (take n created)).
    { apply Forall_lookup. intros i x [Hx Hi]%lookup_take_Some. by apply (Ho i n). }
    destruct (Z.le_gt_cases ts ckp); [now rewrite Z.min_l|]. rewrite Z.min_r by lia.
    rewrite (proj2 (Z.leb_le _ ts)), (proj2 (Z.leb_le _ ckp)) by lia. done.
Qed.

Definition seen (ckp ts : Z) : Z := if ts <=? ckp then ts else 0.

Lemma save_file ckp v : version_ok v ->
  SaveToFile ckp v =
  version_file (take (trim_created (created_ v) ckp (length (created_ v))) (created_ v))
    (Z.of_nat (length (deleted_ v))) (concat (map (fun ts => le_encode 8 (seen ckp ts)) (deleted_ v))).
Proof.
  intros [_ _ _ Hc Hd]. unfold SaveToFile, version_file. rewrite !u16_size, Nat2Z.id by done.
  rewrite length_take, Nat.min_l by apply trim_le.
  do 4 f_equal. apply map_ext. intros ts. unfold seen. now destruct (ts <=? ckp).
Qed.

Definition saved (ckp : Z) v : BlockVersion :=
  mkBlockVersion (take (trim_created (created_ v) ckp (length (created_ v))) (created_ v)) (map (seen ckp) (deleted_ v)) 0.

Lemma load_saved ckp v : version_ok v -> LoadFromFile (SaveToFile ckp v) = Ok (saved ckp v).
Proof.
  intros Hv. pose proof Hv as [_ Hf Hd Hc Hn]. rewrite save_file by done.
  rewrite load_version_file; [| |by apply Forall_take|unfold unsigned_range; lia].
  - rewrite Nat2Z.id, <- (app_nil_r (concat _)), read_deletes; [done|].
    eapply Forall_impl; [exact Hd|]. unfold seen, unsigned_range. intros ts Hts. cbn. destruct (ts <=? ckp); lia.
  - rewrite length_take. lia.
Qed.

Lemma load_spilled v : version_ok v ->
  LoadFromFile (SpillToFile v) = Ok (mkBlockVersion (created_ v) (deleted_ v) 0).
Proof.
  intros Hv. pose proof Hv as [_ Hf Hd Hc Hn]. rewrite spill_file by done.
  rewrite load_version_file by (done || unfold unsigned_range; lia).
  rewrite Nat2Z.id, <- (app_nil_r (concat _)), (read_deletes id); [now rewrite map_id|exact Hd].
Qed.

Lemma in_order_take created n : in_order created -> in_order (take n created).
Proof. intros Ho i j x y Hij [Hx _]%lookup_take_Some [Hy _]%lookup_take_Some. by apply (Ho i j). Qed.

Lemma delete_at_seen ckp deleted offset : 0 <= ckp ->
  delete_at (map (seen ckp) deleted) offset =
  match delete_at deleted offset with Some d => if d <=? ckp then Some d else None | None => None end.
Proof.
  intros Hckp. unfold delete_at. rewrite list_lookup_fmap. destruct (deleted !! _) as [d|]; cbn; [|done].
  unfold seen. destruct (Z.eqb_spec d 0) as [->|Hd].
  - rewrite (proj2 (Z.leb_le 0 ckp)) by done. done.
  - destruct (d <=? ckp); [|done]. rewrite (proj2 (Z.eqb_neq d 0)) by done. done.
Qed.

(** C21. The version file of a checkpoint, loaded again, answers every query up to the timestamp of
    the checkpoint as the version in memory does: the number of rows visible at [ts] and whether a
    row is deleted at [ts]. A later query gets the answer at the checkpoint, whatever was appended
    or deleted after it. *)
Theorem version_checkpoint_preserves_queries (v : BlockVersion) (checkpoint_ts : Z) :
  version_ok v -> 0 <= checkpoint_ts ->
  exists v', LoadFromFile (SaveToFile checkpoint_ts v) = Ok v' /\
    forall ts offset, 0 <= offset < 2 ^ 64 ->
      GetRowCount v' ts = GetRowCount v (Z.min ts checkpoint_ts) /\
      CheckDelete v' offset ts = CheckDelete v offset (Z.min ts checkpoint_ts).
Proof.
  intros Hv Hckp. pose proof Hv as [Ho Hf _ _ _]. exists (saved checkpoint_ts v).
  split; [by apply load_saved|]. intros ts offset Hoff. split.
  - rewrite !GetRowCount_rows_at by (done || by apply in_order_take || by apply Forall_take).
    cbn [created_ saved]. now rewrite rows_at_trim, firstn_all.
  - rewrite !CheckDelete_delete_at by done. cbn [deleted_ saved]. rewrite delete_at_seen by done.
    destruct (delete_at _ offset) as [d|]; [|done]. destruct (Z.leb_spec d checkpoint_ts); lia.
Qed.

Definition demo_version : BlockVersion := mkBlockVersion [mkCreateField 10 2; mkCreateField 30 3] [0; 20; 40] 40.

Lemma demo_version_ok : version_ok demo_version.
Proof.
  split; cbn; [|repeat constructor; cbn; lia|repeat constructor; cbn; lia|lia|lia].
  apply (in_order_app [mkCreateField 10 2]). split.
  - intros [|i] [|j] x y Hij Hx Hy; cbn in *; [lia|done..].
  - apply Forall_singleton. cbn. lia.
Defined.

Lemma version_checkpoint_preserves_queries_witness :
  exists v', LoadFromFile (SaveToFile 25 demo_version) = Ok v' /\
    forall ts offset, 0 <= offset < 2 ^ 64 ->
      GetRowCount v' ts = GetRowCount demo_version (Z.min ts 25) /\
      CheckDelete v' offset ts = CheckDelete demo_version offset (Z.min ts 25).
Proof. apply version_checkpoint_preserves_queries; [exact demo_version_ok|lia]. Defined.

(** A version file that lost its end still loads: the deletes that were in the lost part are gone. *)
Theorem truncated_version_file_loads v n : version_ok v -> (n <= length (deleted_ v))%nat ->
  LoadFromFile (take (length (SpillToFile v) - 8 * n) (SpillToFile v)) =
  Ok (mkBlockVersion (created_ v) (take (length (deleted_ v) - n) (deleted_ v) ++ replicate n 0) 0).
Proof.
  intros Hv Hn. pose proof Hv as [_ Hf Hd Hc Hl]. set (kept := (length (deleted_ v) - n)%nat).
  assert (Hsize : forall l : list Z, length (concat (map (le_encode 8) l)) = (8 * length l)%nat).
  { induction l as [|z l IH]; cbn [map concat length]; [done|]. rewrite length_app, length_le_encode, IH. lia. }
  assert (E : take (length (SpillToFile v) - 8 * n) (SpillToFile v) =
    version_file (created_ v) (Z.of_nat (length (deleted_ v))) (concat (map (le_encode 8) (take kept (deleted_ v))))).
  { rewrite spill_file by done. unfold version_file.
    rewrite <- (take_drop kept (deleted_ v)) at 2 4. rewrite map_app, concat_app, !app_assoc.
    rewrite take_app_length'; [done|]. rewrite !length_app, !Hsize, length_take, length_drop. lia. }
  rewrite E, load_version_file by (done || unfold unsigned_range; lia). do 2 f_equal.
  rewrite Nat2Z.id. replace (length (deleted_ v)) with (kept + n)%nat by lia.
  erewrite read_n_app; [now rewrite read_n_eof|].
  replace kept with (length (take kept (deleted_ v))) at 1 by (rewrite length_take; lia).
  rewrite <- (app_nil_r (concat _)), (read_deletes id); [now rewrite map_id|by apply Forall_take].
Qed.

(** [GetCreateTS] reports for the first row of an append the commit before it. *)
Theorem create_ts_off_by_one (first second n m : Z) : 0 < n < n + m -> n + m < 2 ^ 15 -> first < second ->
  let v := Append second (n + m) (Append first n (new 8192)) in
  GetCreateTS v n 1 = [first] /\ GetRowCount v first = n /\ GetRowCount v second = n + m.
Proof.
  intros Hn Hm Hts v. subst v. unfold GetCreateTS, GetRowCount, Algorithm.upper_bound, Algorithm.lower_bound,
    Algorithm.partition_point. cbn.
  rewrite (proj2 (Z.ltb_ge n n)), (proj2 (Z.ltb_ge (n + m) n)), (proj2 (Z.ltb_lt first second)),
    (proj2 (Z.ltb_ge second second)), (proj2 (Z.ltb_ge first first)) by lia.
  cbn. rewrite !swrap_id by (unfold signed_range; lia). done.
Qed.

(** A version whose buffer object was spilled is saved by moving the spill file into the data
    directory, which keeps what was committed after the checkpoint: when a row was deleted by a
    commit after [checkpoint_ts], the file saved for that checkpoint already has the delete, and
    replaying the commit from the log raises. The file that the version file worker writes for the
    same checkpoint leaves the delete out, and the replay succeeds. *)
Theorem spilled_version_saved_past_checkpoint
    (m : BufferManager VersionFileWorker BlockVersion) p o v checkpoint_ts offset commit_ts :
  let data_path := FileWorker.GetFilePathInner false (file_worker_ o) in
  let spill_path := FileWorker.GetFilePathInner true (file_worker_ o) in
  objs_ m !! p = Some o -> type_ o = kTemp -> p ∈ temp_set_ m ->
  VirtualStore.is_absolute spill_path = true -> VirtualStore.is_absolute data_path = true ->
  version_ok v -> files_ m !! spill_path = Some (SpillToFile v) ->
  delete_at (deleted_ v) offset = Some commit_ts -> checkpoint_ts < commit_ts -> 0 <= checkpoint_ts ->
  (exists m' file v',
    @BufferObj.Save _ _ (VersionFileWorker.impl checkpoint_ts) p m = Ok (false, m') /\
    files_ m' !! data_path = Some file /\ LoadFromFile file = Ok v' /\
    Delete offset commit_ts v' = Err Unrecoverable) /\
  exists v', LoadFromFile (SaveToFile checkpoint_ts v) = Ok v' /\ exists v'', Delete offset commit_ts v' = Ok v''.
Proof.
  cbv zeta. intros Ho Ht Hp Hs Hd Hv Hf Hdel Hlt Hckp. split.
  - unfold BufferObj.Save, deref. rewrite Ho. cbn [res_bind]. rewrite Ht. unfold BufferManager.MoveTemp.
    rewrite decide_True by done. cbn [res_bind]. unfold FileWorker.MoveFile, VirtualStore.Exists, VirtualStore.Rename.
    cbn [files_ set_temps]. rewrite Hf, bool_decide_eq_true_2, Hs, Hd by eauto. cbn [res_bind].
    eexists _, (SpillToFile v), _. split; [done|]. split; [apply lookup_insert_eq|]. split; [by apply load_spilled|].
    unfold Delete, delete_at in *. cbn [deleted_]. destruct (deleted_ v !! _) as [d|]; [|done].
    destruct (d =? 0); done.
  - exists (saved checkpoint_ts v). split; [by apply load_saved|]. unfold Delete, delete_at in *. cbn [saved deleted_].
    rewrite list_lookup_fmap. destruct (deleted_ v !! _) as [d|]; [|done]. destruct (d =? 0) eqn:E; [done|].
    injection Hdel as ->. cbn. unfold seen. rewrite (proj2 (Z.leb_gt commit_ts checkpoint_ts)) by done. eauto.
Qed.

Definition demo_object : BufferObj VersionFileWorker BlockVersion :=
  mkBufferObj kFreed kTemp 0 (mkFileWorker "/data" "/tmp" "b" "version" (mkVersionFileWorker 3) None None None) 0 1.
Definition demo_manager : BufferManager VersionFileWorker BlockVersion :=
  mkBufferManager 1000 0 ∅ 1 [[]] 0 [] {[1%positive]} ∅ 0 0 {[1%positive := demo_object]}
    {["/tmp/b/version" := SpillToFile demo_version]}.

Lemma spilled_version_saved_past_checkpoint_witness :
  (exists m' file v',
    @BufferObj.Save _ _ (VersionFileWorker.impl 30) 1%positive demo_manager = Ok (false, m') /\
    files_ m' !! "/data/b/version" = Some file /\ LoadFromFile file = Ok v' /\
    Delete 2 40 v' = Err Unrecoverable) /\
  exists v', LoadFromFile (SaveToFile 30 demo_version) = Ok v' /\ exists v'', Delete 2 40 v' = Ok v''.
Proof.
  apply (spilled_version_saved_past_checkpoint demo_manager 1%positive demo_object demo_version 30 2 40);
    try reflexivity; [exact demo_version_ok|lia].
Defined.
End files.
