(* ===== verification/Bitmask.v ===== *)
(** * Bitmasks: [src/src/storage/common/roaring_bitmap.cppm]

    [Bitmask] is [RoaringBitmap<true>]: [count_] bits that start out set, kept in a CRoaring
    bitmap, with a flag that stands for all bits being set. CRoaring is the class [Roaring]: a
    set of 32-bit integers, [members], and the operations the source calls on it. *)
From S2P Require Import Prelude Serialize.

Class Roaring (R : Type) := {
  r_empty : R;
  r_add : Z -> R -> R;
  r_remove : Z -> R -> R;
  r_addRange : Z -> Z -> R -> R;
  r_removeRange : Z -> Z -> R -> R;
  r_contains : Z -> R -> bool;
  r_cardinality : R -> Z;
  r_runOptimize : R -> R;
  r_and : R -> R -> R;
  r_or : R -> R -> R;
  r_eq : R -> R -> bool;
  r_getSizeInBytes : R -> Z;
  r_write : R -> bytes;
  r_read : bytes -> res R;
}.

(** The half-open range [[start, stop)]. *)
Definition range (start stop : Z) : gset Z := list_to_set (seqZ start (stop - start)).

Lemma elem_of_range x start stop : x ∈ range start stop <-> start <= x < stop.
Proof. unfold range. rewrite elem_of_list_to_set, elem_of_seqZ. lia. Qed.

Class RoaringLaws (R : Type) `{Roaring R} := {
  members : R -> gset Z;
  members_empty : members r_empty = ∅;
  members_add x r : members (r_add x r) = {[x]} ∪ members r;
  members_remove x r : members (r_remove x r) = members r ∖ {[x]};
  members_addRange a b r : members (r_addRange a b r) = range a b ∪ members r;
  members_removeRange a b r : members (r_removeRange a b r) = members r ∖ range a b;
  contains_members x r : r_contains x r = bool_decide (x ∈ members r);
  cardinality_members r : r_cardinality r = Z.of_nat (size (members r));
  members_runOptimize r : members (r_runOptimize r) = members r;
  members_and r s : members (r_and r s) = members r ∩ members s;
  members_or r s : members (r_or r s) = members r ∪ members s;
  eq_members r s : r_eq r s = bool_decide (members r = members s);
  size_written r : r_getSizeInBytes r = Z.of_nat (length (r_write r));
  read_written r rest : exists r', r_read (r_write r ++ rest) = Ok r' /\ members r' = members r;
}.

Record Bitmask (R : Type) := mkBitmask { roaring_ : R; count_ : Z; all_true_flag_ : bool }.
Arguments mkBitmask {R} _ _ _.
Arguments roaring_ {R} _.
Arguments count_ {R} _.
Arguments all_true_flag_ {R} _.

Module Bitmask.
Section bitmask.
Context {R : Type} `{Roaring R}.
Implicit Types (b : Bitmask R) (row_index start stop : Z).

Definition make (count : Z) : Bitmask R := mkBitmask r_empty count true.

Definition IsAllTrue b : bool := if all_true_flag_ b then true else r_cardinality (roaring_ b) =? count_ b.

Definition IsTrue row_index b : bool :=
  if count_ b <=? row_index then false
  else if all_true_flag_ b then true
  else r_contains row_index (roaring_ b).

Definition TryRemoveAllTrueFlag b : Bitmask R :=
  if all_true_flag_ b then mkBitmask (r_addRange 0 (count_ b) (roaring_ b)) (count_ b) false else b.

Definition SetTrue row_index b : res (Bitmask R) :=
  check? row_index <? count_ b else Unrecoverable in
  if all_true_flag_ b then Ok b
  else Ok (mkBitmask (r_add row_index (roaring_ b)) (count_ b) (all_true_flag_ b)).

Definition SetFalse row_index b : res (Bitmask R) :=
  check? row_index <? count_ b else Unrecoverable in
  let b := TryRemoveAllTrueFlag b in
  Ok (mkBitmask (r_remove row_index (roaring_ b)) (count_ b) (all_true_flag_ b)).

Definition Set_ row_index (valid : bool) b : res (Bitmask R) :=
  if valid then SetTrue row_index b else SetFalse row_index b.

Definition SetTrueRange start stop b : res (Bitmask R) :=
  check? (start <? stop) && (stop <=? count_ b) else Unrecoverable in
  if all_true_flag_ b then Ok b
  else Ok (mkBitmask (r_addRange start stop (roaring_ b)) (count_ b) (all_true_flag_ b)).

Definition SetFalseRange start stop b : res (Bitmask R) :=
  check? (start <? stop) && (stop <=? count_ b) else Unrecoverable in
  let b := TryRemoveAllTrueFlag b in
  Ok (mkBitmask (r_removeRange start stop (roaring_ b)) (count_ b) (all_true_flag_ b)).

Definition SetAllTrue b : Bitmask R := mkBitmask r_empty (count_ b) true.
Definition SetAllFalse b : Bitmask R := mkBitmask r_empty (count_ b) false.

Definition RunOptimize b : Bitmask R :=
  if all_true_flag_ b then b
  else
    let b := mkBitmask (r_runOptimize (roaring_ b)) (count_ b) (all_true_flag_ b) in
    if r_cardinality (roaring_ b) =? count_ b then SetAllTrue b else b.

Definition CountTrue b : Z := if all_true_flag_ b then count_ b else u32 (r_cardinality (roaring_ b)).
Definition CountFalse b : Z := if all_true_flag_ b then 0 else u32 (count_ b - CountTrue b).

Definition MergeAnd other b : res (Bitmask R) :=
  check? count_ b =? count_ other else Unrecoverable in
  if all_true_flag_ other then Ok b
  else if all_true_flag_ b then Ok (mkBitmask (roaring_ other) (count_ b) false)
  else Ok (mkBitmask (r_and (roaring_ b) (roaring_ other)) (count_ b) (all_true_flag_ b)).

Definition MergeOr other b : res (Bitmask R) :=
  check? count_ b =? count_ other else Unrecoverable in
  if all_true_flag_ b then Ok b
  else if all_true_flag_ other then Ok (SetAllTrue b)
  else Ok (mkBitmask (r_or (roaring_ b) (roaring_ other)) (count_ b) (all_true_flag_ b)).

Definition eqb b other : bool :=
  if negb (count_ b =? count_ other) then false
  else if negb (CountTrue b =? CountTrue other) then false
  else if CountTrue b =? count_ b then true
  else r_eq (roaring_ b) (roaring_ other).

(** [GetSizeInBytes] optimises the bitmap first; [WriteAdv] does not. *)
Definition GetSizeInBytes b : Z * Bitmask R :=
  let b := RunOptimize b in
  if all_true_flag_ b then (5, b) else (i32 (9 + r_getSizeInBytes (roaring_ b)), b).

Definition WriteAdv b : writer :=
  WriteBufAdv_int 4 (count_ b) +++ WriteBufAdv_int 1 (Z.b2z (all_true_flag_ b)) +++
  (if all_true_flag_ b then Ok []
   else WriteBufAdv_int 4 (i32 (r_getSizeInBytes (roaring_ b))) +++ Ok (r_write (roaring_ b))).

Definition ReadAdv (maxbytes : Z) : reader (Bitmask R) :=
  if maxbytes <? 0 then rfail Unrecoverable
  else
    read count := ReadBufAdv_u 4 in
    read all_true_flag := ReadBufAdv_u 1 in
    if negb (all_true_flag =? 0) then rret (make count)
    else
      read size := ReadBufAdv_s 4 in
      if i32 (maxbytes - 9) <? size then rfail Unrecoverable
      else fun bs =>
        let? r := r_read bs in
        check? (0 <=? size) && (Z.to_nat size <=? length bs)%nat else Undefined in
        Ok (mkBitmask r count false, drop (Z.to_nat size) bs).

(** ** The bits of a bitmask *)
Context `{!RoaringLaws R}.

Definition bits b : gset Z := if all_true_flag_ b then range 0 (count_ b) else members (roaring_ b).

Record bitmask_ok b : Prop := {
  bo_count : unsigned_range 32 (count_ b);
  bo_members : members (roaring_ b) ⊆ range 0 (count_ b);
}.

Lemma bits_range b : bitmask_ok b -> bits b ⊆ range 0 (count_ b).
Proof. intros [_ Hm]. unfold bits. destruct (all_true_flag_ b); done. Qed.

Lemma size_range n : 0 <= n -> size (range 0 n) = Z.to_nat n.
Proof.
  intros Hn. unfold range. rewrite size_list_to_set by apply NoDup_seqZ. rewrite length_seqZ. f_equal. lia.
Qed.

Lemma CountTrue_bits b : bitmask_ok b -> CountTrue b = Z.of_nat (size (bits b)).
Proof.
  intros [Hc Hm]. unfold CountTrue, bits, unsigned_range in *. destruct (all_true_flag_ b).
  - rewrite size_range by lia. lia.
  - rewrite cardinality_members. apply wrap_id. apply subseteq_size in Hm. rewrite size_range in Hm by lia.
    unfold unsigned_range. lia.
Qed.

Lemma CountFalse_bits b : bitmask_ok b -> CountFalse b = count_ b - Z.of_nat (size (bits b)).
Proof.
  intros Hb. pose proof Hb as [Hc Hm]. pose proof (subseteq_size _ _ (bits_range b Hb)) as Hs.
  unfold unsigned_range in Hc. rewrite size_range in Hs by lia.
  unfold CountFalse. rewrite CountTrue_bits by done. unfold bits in *. destruct (all_true_flag_ b).
  - rewrite size_range by lia. lia.
  - apply wrap_id. unfold unsigned_range. lia.
Qed.

Lemma full_bits b : bitmask_ok b -> CountTrue b = count_ b -> bits b = range 0 (count_ b).
Proof.
  intros Hb E. pose proof (bo_count _ Hb) as Hc. unfold unsigned_range in Hc.
  rewrite CountTrue_bits in E by done. apply set_subseteq_size_eq; [by apply bits_range|].
  rewrite size_range by lia. lia.
Qed.

Lemma IsTrue_bits x b : bitmask_ok b -> 0 <= x -> IsTrue x b = bool_decide (x ∈ bits b).
Proof.
  intros Hb Hx. unfold IsTrue. destruct (Z.leb_spec (count_ b) x).
  - symmetry. apply bool_decide_eq_false. intros Hin. apply (bits_range b Hb), elem_of_range in Hin. lia.
  - unfold bits. destruct (all_true_flag_ b); [|apply contains_members].
    symmetry. apply bool_decide_eq_true, elem_of_range. lia.
Qed.

Lemma TryRemove_ok b : bitmask_ok b ->
  bitmask_ok (TryRemoveAllTrueFlag b) /\ members (roaring_ (TryRemoveAllTrueFlag b)) = bits b.
Proof.
  intros [Hc Hm]. unfold TryRemoveAllTrueFlag, bits. destruct (all_true_flag_ b) eqn:E; [|by split].
  split; [split|]; cbn; [done|rewrite members_addRange; set_solver|].
  rewrite members_addRange. set_solver.
Qed.

Lemma TryRemove_flag b : all_true_flag_ (TryRemoveAllTrueFlag b) = false /\ count_ (TryRemoveAllTrueFlag b) = count_ b.
Proof. unfold TryRemoveAllTrueFlag. destruct (all_true_flag_ b) eqn:E; done. Qed.

(** ** A bitmask is a set of row indexes

    The calls that change a bitmask, what the source requires of them, and their effect on the
    set of bits. *)
Inductive call :=
| call_SetTrue (row_index : Z)
| call_SetFalse (row_index : Z)
| call_SetTrueRange (start stop : Z)
| call_SetFalseRange (start stop : Z)
| call_SetAllTrue
| call_SetAllFalse
| call_RunOptimize
| call_MergeAnd (other : Bitmask R)
| call_MergeOr (other : Bitmask R).

Definition exec (c : call) b : res (Bitmask R) :=
  match c with
  | call_SetTrue row_index => SetTrue row_index b
  | call_SetFalse row_index => SetFalse row_index b
  | call_SetTrueRange start stop => SetTrueRange start stop b
  | call_SetFalseRange start stop => SetFalseRange start stop b
  | call_SetAllTrue => Ok (SetAllTrue b)
  | call_SetAllFalse => Ok (SetAllFalse b)
  | call_RunOptimize => Ok (RunOptimize b)
  | call_MergeAnd other => MergeAnd other b
  | call_MergeOr other => MergeOr other b
  end.

(** Arguments of type [u32] and bitmasks built by these calls. *)
Definition call_typed (c : call) : Prop :=
  match c with
  | call_SetTrue x | call_SetFalse x => unsigned_range 32 x
  | call_SetTrueRange a z | call_SetFalseRange a z => unsigned_range 32 a /\ unsigned_range 32 z
  | call_MergeAnd o | call_MergeOr o => bitmask_ok o
  | _ => True
  end.

Definition in_range (c : call) (count : Z) : bool :=
  match c with
  | call_SetTrue x | call_SetFalse x => x <? count
  | call_SetTrueRange a z | call_SetFalseRange a z => (a <? z) && (z <=? count)
  | call_MergeAnd o | call_MergeOr o => count =? count_ o
  | _ => true
  end.

Definition effect (c : call) (count : Z) (s : gset Z) : gset Z :=
  match c with
  | call_SetTrue x => {[x]} ∪ s
  | call_SetFalse x => s ∖ {[x]}
  | call_SetTrueRange a z => range a z ∪ s
  | call_SetFalseRange a z => s ∖ range a z
  | call_SetAllTrue => range 0 count
  | call_SetAllFalse => ∅
  | call_RunOptimize => s
  | call_MergeAnd o => s ∩ bits o
  | call_MergeOr o => s ∪ bits o
  end.

Lemma range_sub a z n : 0 <= a -> z <= n -> range a z ⊆ range 0 n.
Proof. intros Ha Hz x. rewrite !elem_of_range. lia. Qed.

Lemma single_sub x n : 0 <= x < n -> {[x]} ⊆ range 0 n.
Proof. intros Hx y ->%elem_of_singleton. by apply elem_of_range. Qed.

(** An update of the CRoaring bitmap once the flag is gone. *)
Lemma update_ok b b' (s : gset Z) :
  bitmask_ok b -> count_ b' = count_ b -> all_true_flag_ b' = false -> members (roaring_ b') = s ->
  s ⊆ range 0 (count_ b) -> bitmask_ok b' /\ count_ b' = count_ b /\ bits b' = s.
Proof. intros [Hc Hm] Ec Ef <- Hs. unfold bits. rewrite Ef. split_and!; [split; by rewrite Ec|done..]. Qed.

Lemma set_all_ok b : bitmask_ok b ->
  bitmask_ok (SetAllTrue b) /\ count_ (SetAllTrue b) = count_ b /\ bits (SetAllTrue b) = range 0 (count_ b).
Proof. intros [Hc Hm]. split; [split|]; cbn; [done|rewrite members_empty; set_solver|done]. Qed.

Lemma optimize_ok b : bitmask_ok b ->
  bitmask_ok (RunOptimize b) /\ count_ (RunOptimize b) = count_ b /\ bits (RunOptimize b) = bits b.
Proof.
  intros Hb. pose proof Hb as [Hc Hm]. unfold RunOptimize. destruct (all_true_flag_ b) eqn:Ef; [done|]. cbn.
  set (b' := mkBitmask (r_runOptimize (roaring_ b)) (count_ b) false).
  assert (H' : bitmask_ok b' /\ count_ b' = count_ b /\ bits b' = bits b).
  { apply update_ok; [done..| |by apply bits_range]. unfold bits. rewrite Ef. apply members_runOptimize. }
  destruct (Z.eqb_spec (r_cardinality (r_runOptimize (roaring_ b))) (count_ b)) as [E|]; [|done].
  destruct (set_all_ok b' (proj1 H')) as (H1 & H2 & H3). split_and!; [done..|]. rewrite H3, <- (proj2 (proj2 H')).
  symmetry. apply full_bits; [apply H'|]. unfold CountTrue. cbn. rewrite E. by apply wrap_id.
Qed.

Lemma exec_ok c b : bitmask_ok b -> call_typed c ->
  if in_range c (count_ b)
  then exists b', exec c b = Ok b' /\ bitmask_ok b' /\ count_ b' = count_ b /\ bits b' = effect c (count_ b) (bits b)
  else exec c b = Err Unrecoverable.
Proof.
  intros Hb Hc. pose proof (bits_range b Hb) as Hr. pose proof (TryRemove_ok b Hb) as [Hb' Hm'].
  pose proof (TryRemove_flag b) as [Hf' Hn']. pose proof (bo_members b Hb).
  destruct c as [x|x|a z|a z| | | |o|o]; cbn in *; unfold unsigned_range in *.
  - unfold SetTrue. destruct (Z.ltb_spec x (count_ b)); [|done]. pose proof (single_sub x (count_ b) ltac:(lia)).
    destruct (all_true_flag_ b) eqn:Ef; eexists; (split; [done|]).
    + unfold bits in *. rewrite Ef. split_and!; [done..|set_solver].
    + apply update_ok; [done..| |set_solver]. unfold bits. rewrite Ef. apply members_add.
  - unfold SetFalse. destruct (Z.ltb_spec x (count_ b)); [|done]. eexists. split; [done|].
    apply update_ok; [done..| |set_solver]. cbn. now rewrite members_remove, Hm'.
  - unfold SetTrueRange. destruct (Z.ltb_spec a z), (Z.leb_spec z (count_ b)); cbn; try done.
    pose proof (range_sub a z (count_ b) ltac:(lia) ltac:(lia)).
    destruct (all_true_flag_ b) eqn:Ef; eexists; (split; [done|]).
    + unfold bits in *. rewrite Ef. split_and!; [done..|set_solver].
    + apply update_ok; [done..| |set_solver]. unfold bits. rewrite Ef. apply members_addRange.
  - unfold SetFalseRange. destruct (Z.ltb_spec a z), (Z.leb_spec z (count_ b)); cbn; try done. eexists. split; [done|].
    apply update_ok; [done..| |set_solver]. cbn. now rewrite members_removeRange, Hm'.
  - eexists. split; [done|]. by apply set_all_ok.
  - eexists. split; [done|]. apply update_ok; [done..|apply members_empty|set_solver].
  - eexists. split; [done|]. by apply optimize_ok.
  - unfold MergeAnd. destruct (Z.eqb_spec (count_ b) (count_ o)) as [E|]; [|done].
    pose proof (bits_range o Hc) as Hro. rewrite <- E in Hro.
    destruct (all_true_flag_ o) eqn:Fo; [|destruct (all_true_flag_ b) eqn:Fb]; eexists; (split; [done|]).
    + split_and!; [done..|]. unfold bits at 3. rewrite Fo, <- E. set_solver.
    + apply update_ok; [done..| |set_solver]. unfold bits in *. rewrite Fo, Fb in *. cbn. set_solver.
    + apply update_ok; [done..| |set_solver]. unfold bits in *. rewrite Fo, Fb in *. apply members_and.
  - unfold MergeOr. destruct (Z.eqb_spec (count_ b) (count_ o)) as [E|]; [|done].
    pose proof (bits_range o Hc) as Hro. rewrite <- E in Hro.
    destruct (all_true_flag_ b) eqn:Fb; [|destruct (all_true_flag_ o) eqn:Fo]; eexists; (split; [done|]).
    + split_and!; [done..|]. unfold bits in *. rewrite Fb in *. set_solver.
    + destruct (set_all_ok b Hb) as (H1 & H2 & H3). split_and!; [done..|]. rewrite H3. unfold bits in *.
      rewrite Fo, <- E in *. set_solver.
    + apply update_ok; [done..| |set_solver]. unfold bits in *. rewrite Fo, Fb in *. apply members_or.
Qed.

Lemma eqb_bits b o : bitmask_ok b -> bitmask_ok o ->
  eqb b o = bool_decide (count_ b = count_ o /\ bits b = bits o).
Proof.
  intros Hb Ho. unfold eqb. destruct (Z.eqb_spec (count_ b) (count_ o)) as [E|E]; cbn; [|now rewrite bool_decide_eq_false_2 by tauto].
  pose proof (CountTrue_bits b Hb) as Cb. pose proof (CountTrue_bits o Ho) as Co.
  destruct (Z.eqb_spec (CountTrue b) (CountTrue o)) as [E'|E']; cbn; cycle 1.
  { symmetry. apply bool_decide_eq_false. intros [_ Es]. rewrite Es in Cb. lia. }
  destruct (Z.eqb_spec (CountTrue b) (count_ b)) as [Ef|Ef].
  - symmetry. apply bool_decide_eq_true. split; [done|].
    rewrite (full_bits b), (full_bits o), E by (done || congruence). done.
  - rewrite eq_members. unfold bits, CountTrue in *.
    destruct (all_true_flag_ b), (all_true_flag_ o); try congruence.
    apply bool_decide_ext. tauto.
Qed.

Lemma IsAllTrue_bits b : bitmask_ok b -> IsAllTrue b = bool_decide (bits b = range 0 (count_ b)).
Proof.
  intros Hb. pose proof (bo_count b Hb) as Hc. unfold unsigned_range in Hc. pose proof (full_bits b Hb) as Hf.
  unfold IsAllTrue. unfold bits, CountTrue in *. destruct (all_true_flag_ b).
  - symmetry. by apply bool_decide_eq_true.
  - rewrite cardinality_members in *. destruct (Z.eqb_spec (Z.of_nat (size (members (roaring_ b)))) (count_ b)) as [E|E].
    + symmetry. apply bool_decide_eq_true, Hf. rewrite E. by apply wrap_id.
    + symmetry. apply bool_decide_eq_false. intros Es. rewrite Es, size_range in E by lia. lia.
Qed.

Fixpoint exec_all (cs : list call) b : res (Bitmask R) :=
  match cs with
  | [] => Ok b
  | c :: cs => let? b := exec c b in exec_all cs b
  end.

Lemma exec_all_ok cs b : bitmask_ok b -> Forall call_typed cs ->
  if forallb (fun c => in_range c (count_ b)) cs
  then exists b', exec_all cs b = Ok b' /\ bitmask_ok b' /\ count_ b' = count_ b /\
       bits b' = foldl (fun s c => effect c (count_ b) s) (bits b) cs
  else exec_all cs b = Err Unrecoverable.
Proof.
  intros Hb Hcs. revert b Hb. induction Hcs as [|c cs Hc Hcs IH]; intros b Hb; cbn; [by exists b|].
  pose proof (exec_ok c b Hb Hc) as H1. destruct (in_range c (count_ b)); cbn.
  - destruct H1 as (b' & -> & Hb' & Ec & Es). cbn. specialize (IH b' Hb'). rewrite Ec, Es in IH. exact IH.
  - now rewrite H1.
Qed.

Lemma new_bitmask_ok (count : Z) : unsigned_range 32 count -> bitmask_ok (make count).
Proof. intros Hc. split; cbn; [done|rewrite members_empty; set_solver]. Qed.

(** The calls that filters make. *)
Lemma SetTrue_spec b o : bitmask_ok b -> 0 <= o < count_ b -> exists b',
  SetTrue o b = Ok b' /\ bitmask_ok b' /\ count_ b' = count_ b /\ bits b' = {[o]} ∪ bits b.
Proof.
  intros Hb Ho. pose proof (bo_count b Hb) as Hc. pose proof (exec_ok (call_SetTrue o) b Hb) as He. cbn in He.
  rewrite (proj2 (Z.ltb_lt _ _)) in He by lia. apply He. unfold unsigned_range in *. lia.
Qed.
Lemma empty_bitmask n : unsigned_range 32 n -> let b := SetAllFalse (make n) in bitmask_ok b /\ count_ b = n /\ bits b = ∅.
Proof. intros Hn. pose proof (exec_ok call_SetAllFalse _ (new_bitmask_ok n Hn) I) as (b' & [= <-] & He). exact He. Qed.
Lemma MergeOr_spec b o : bitmask_ok b -> bitmask_ok o -> count_ o = count_ b -> exists b',
  MergeOr o b = Ok b' /\ bitmask_ok b' /\ count_ b' = count_ b /\ bits b' = bits b ∪ bits o.
Proof. intros Hb Ho Hc. pose proof (exec_ok (call_MergeOr o) b Hb Ho) as He. cbn in He. by rewrite (proj2 (Z.eqb_eq _ _)) in He. Qed.
Lemma MergeAnd_spec b o : bitmask_ok b -> bitmask_ok o -> count_ o = count_ b -> exists b',
  MergeAnd o b = Ok b' /\ bitmask_ok b' /\ count_ b' = count_ b /\ bits b' = bits b ∩ bits o.
Proof. intros Hb Ho Hc. pose proof (exec_ok (call_MergeAnd o) b Hb Ho) as He. cbn in He. by rewrite (proj2 (Z.eqb_eq _ _)) in He. Qed.

(** C38. A bitmask is a set of row indexes: any sequence of calls that change it, started from a
    new bitmask, raises exactly when a call names an index or a bitmask out of range, and
    otherwise the bitmask holds the set the calls describe, whichever of the flag for all bits and
    the CRoaring bitmap holds it; [IsTrue], [IsAllTrue], [CountTrue], [CountFalse] and [==]
    are the membership, fullness, sizes and equality of that set. *)
Theorem bitmask_refines_set (count : Z) (cs : list call) :
  unsigned_range 32 count -> Forall call_typed cs ->
  if forallb (fun c => in_range c count) cs
  then exists b, exec_all cs (make count) = Ok b /\
    let s := foldl (fun s c => effect c count s) (range 0 count) cs in
    (forall x, 0 <= x -> IsTrue x b = bool_decide (x ∈ s)) /\
    IsAllTrue b = bool_decide (s = range 0 count) /\
    CountTrue b = Z.of_nat (size s) /\ CountFalse b = count - Z.of_nat (size s) /\
    (forall o, bitmask_ok o -> eqb b o = bool_decide (count = count_ o /\ s = bits o))
  else exec_all cs (make count) = Err Unrecoverable.
Proof.
  intros Hcount Hcs.
  pose proof (exec_all_ok cs _ (new_bitmask_ok count Hcount) Hcs) as H1. cbn in H1. change (bits (make count)) with (range 0 count) in H1.
  destruct (forallb _ _); [|done].
  destruct H1 as (b & -> & Hb & Ec & Es). exists b. split; [done|]. cbv zeta. rewrite <- Es.
  rewrite IsAllTrue_bits, CountTrue_bits, CountFalse_bits, Ec by done.
  split_and!; [intros x Hx; by apply IsTrue_bits|done..|]. intros o Ho. rewrite eqb_bits, Ec by done. done.
Qed.
End bitmask.
End Bitmask.

(** ** CRoaring as finite sets *)
Module RoaringSet.
Fixpoint write_positive (p : positive) : bytes :=
  match p with
  | xI p => Byte.x03 :: write_positive p
  | xO p => Byte.x02 :: write_positive p
  | xH => [Byte.x01]
  end.
Fixpoint read_positive (bs : bytes) : res positive :=
  match bs with
  | Byte.x03 :: bs => let? p := read_positive bs in Ok (xI p)
  | Byte.x02 :: bs => let? p := read_positive bs in Ok (xO p)
  | Byte.x01 :: _ => Ok xH
  | _ => Err Undefined
  end.

#[export] Instance set_roaring : Roaring (gset Z) := {
  r_empty := ∅;
  r_add x r := {[x]} ∪ r;
  r_remove x r := r ∖ {[x]};
  r_addRange a b r := range a b ∪ r;
  r_removeRange a b r := r ∖ range a b;
  r_contains x r := bool_decide (x ∈ r);
  r_cardinality r := Z.of_nat (size r);
  r_runOptimize r := r;
  r_and r s := r ∩ s;
  r_or r s := r ∪ s;
  r_eq r s := bool_decide (r = s);
  r_getSizeInBytes r := Z.of_nat (length (write_positive (encode r)));
  r_write r := write_positive (encode r);
  r_read bs :=
    let? p := read_positive bs in
    match decode p with Some r => Ok r | None => Err Undefined end;
}.

Lemma read_write_positive p rest : read_positive (write_positive p ++ rest) = Ok p.
Proof. induction p as [p IH|p IH|]; cbn; [now rewrite IH..|done]. Qed.

#[export] Instance set_roaring_laws : RoaringLaws (gset Z).
Proof.
  refine {| members := fun r : gset Z => r |}; try done.
  intros r rest. exists r. cbn. rewrite read_write_positive. cbn. now rewrite decode_encode.
Defined.

Lemma bitmask_refines_set_witness :
  exists b, Bitmask.exec_all [Bitmask.call_SetFalse 1; Bitmask.call_SetTrueRange 0 2; Bitmask.call_SetFalse 2]
              (Bitmask.make (R := gset Z) 3) = Ok b /\ Bitmask.CountTrue b = 2.
Proof.
  destruct (Bitmask.bitmask_refines_set (R := gset Z) 3
    [Bitmask.call_SetFalse 1; Bitmask.call_SetTrueRange 0 2; Bitmask.call_SetFalse 2]) as (b & Hb & _ & _ & Hn & _).
  - unfold unsigned_range. lia.
  - repeat constructor; lia.
  - exists b. split; [exact Hb|]. rewrite Hn. reflexivity.
Defined.
End RoaringSet.
