(* ===== verification/BlockEntry.v ===== *)
(** * Blocks: [src/src/storage/meta/entry/block_entry.cpp]

    A block holds up to [row_capacity_] rows of a segment, stored by column. Rows are only
    appended and marked as deleted, each by the commit of a transaction, and the version of the
    block tells which rows a reader at a timestamp sees.

    The version is the data that [version_buffer_object_->Load()] returns. What the block asks of
    its other parts (the columns and the buffer object of the version) is a list of [request]s, in
    the order of the calls. The locks of the block make each operation one step. The rough filters,
    the directories and the JSON form are left out. *)
From S2P Require Import Prelude Serialize FileWorker BlockVersion Bitmask.

Module BlockEntry.
Record BlockEntry := mkBlockEntry {
  block_id_ : Z;
  block_row_count_ : Z;
  row_capacity_ : Z;
  version_ : BlockVersion;
  min_row_ts_ : Z;
  max_row_ts_ : Z;
  checkpoint_ts_ : Z;
  using_txn_id_ : Z;
  checkpoint_row_count_ : Z;
  commit_ts_ : Z;
  columns_ : list Z;
}.

(** Calls on the columns (by column id) and on the buffer object of the version. *)
Inductive request :=
| AppendWith (column_id row_count input_block_offset count : Z)
| CommitColumn (column_id txn_id commit_ts : Z)
| FlushColumn (column_id start_row_count checkpoint_row_count : Z)
| ToMmap (column_id : Z)
| SaveVersion (checkpoint_ts : Z)
| InitializeValid.

Definition DEFAULT_BLOCK_CAPACITY : Z := 8192.
Definition BLOCK_OFFSET_SHIFT : Z := 13.
Definition BLOCK_OFFSET_MASK : Z := 8191. (* 0x1FFF *)

(** The constructor with the part of [NewBlockEntry] that sets up the columns and the version. *)
Definition NewBlockEntry (block_id checkpoint_ts : Z) (columns : list Z) : BlockEntry :=
  mkBlockEntry block_id 0 DEFAULT_BLOCK_CAPACITY (BlockVersion.new DEFAULT_BLOCK_CAPACITY) 0 0 checkpoint_ts 0 0
    UNCOMMIT_TS columns.

(** The replayed block; [version] is what the version file holds. [row_capacity_] stays the
    default: the argument only goes to the file worker. *)
Definition NewReplayBlockEntry (block_id row_count min_row_ts max_row_ts commit_ts check_point_ts
    checkpoint_row_count : Z) (version : BlockVersion) : BlockEntry :=
  mkBlockEntry block_id row_count DEFAULT_BLOCK_CAPACITY version min_row_ts max_row_ts check_point_ts 0
    checkpoint_row_count commit_ts [].

Definition UpdateBlockReplay (block_entry b : BlockEntry) : BlockEntry :=
  mkBlockEntry (block_id_ b) (block_row_count_ block_entry) (row_capacity_ b) (version_ b)
    (min_row_ts_ block_entry) (max_row_ts_ block_entry) (checkpoint_ts_ block_entry) (using_txn_id_ b)
    (checkpoint_row_count_ block_entry) (commit_ts_ b) (columns_ b).

Section readers.
Implicit Types (b : BlockEntry).

Definition row_count b (check_ts : Z) : Z :=
  if max_row_ts_ b <=? check_ts then block_row_count_ b
  else BlockVersion.GetRowCount (version_ b) check_ts.

(** [while (from < stop && p(from)) from++], for at most [fuel] steps. *)
Fixpoint skip_while (p : Z -> bool) (stop : Z) (fuel : nat) (from : Z) : Z :=
  match fuel with
  | O => from
  | S fuel => if (from <? stop) && p from then skip_while p stop fuel (u16 (from + 1)) else from
  end.

Definition GetVisibleRange b (start_ts block_offset_begin : Z) : Z * Z :=
  let begin_ts := Z.min start_ts (max_row_ts_ b) in
  let block_offset_end := u16 (BlockVersion.GetRowCount (version_ b) begin_ts) in
  let fuel := Z.to_nat (block_offset_end - block_offset_begin) in
  let deleted := fun row => BlockVersion.CheckDelete (version_ b) row begin_ts in
  let block_offset_begin := skip_while deleted block_offset_end fuel block_offset_begin in
  let row_idx := skip_while (fun row => negb (deleted row)) block_offset_end fuel block_offset_begin in
  (block_offset_begin, row_idx).

Definition CheckRowVisible b (block_offset check_ts : Z) (check_append : bool) : bool :=
  if check_append && (BlockVersion.GetRowCount (version_ b) check_ts <=? block_offset) then false
  else negb (BlockVersion.CheckDelete (version_ b) block_offset check_ts).

(** [CheckRowsVisible(Vector<u32> &)]: the offsets that stay. *)
Definition CheckRowsVisible b (segment_offsets : list Z) (check_ts : Z) : list Z :=
  if check_ts <? commit_ts_ b then segment_offsets
  else filter (fun segment_offset =>
    negb (BlockVersion.CheckDelete (version_ b) (u16 (Z.land segment_offset BLOCK_OFFSET_MASK)) check_ts) = true)
    segment_offsets.

Definition CheckDeleteConflict b (block_offsets : list Z) (commit_ts : Z) : bool :=
  existsb (fun block_offset => BlockVersion.CheckDelete (version_ b) block_offset commit_ts) block_offsets.

Definition GetAvailableCapacity b : Z := row_capacity_ b - block_row_count_ b.

Context {R : Type} `{Roaring R}.

(** [for (offset = from; offset < stop; ++offset) if (p(offset)) bitmask.SetFalse(index(offset))]. *)
Fixpoint clear_rows (p : Z -> bool) (index : Z -> Z) (from : Z) (n : nat) (bitmask : Bitmask R)
    : res (Bitmask R) :=
  match n with
  | O => Ok bitmask
  | S n =>
      let? bitmask := if p from then Bitmask.SetFalse (index from) bitmask else Ok bitmask in
      clear_rows p index (from + 1) n bitmask
  end.
Definition clear_range (from stop : Z) : Bitmask R -> res (Bitmask R) :=
  clear_rows (fun _ => true) id from (Z.to_nat (stop - from)).

(** [CheckRowsVisible(Bitmask &)]. *)
Definition CheckRowsVisible_bitmask b (segment_offsets : Bitmask R) (check_ts : Z) : res (Bitmask R) :=
  if check_ts <? commit_ts_ b then Ok segment_offsets
  else
    let block_offset_end := u16 (BlockVersion.GetRowCount (version_ b) check_ts) in
    clear_rows (fun off => BlockVersion.CheckDelete (version_ b) off check_ts)
      (fun off => Z.lor (u32 (Z.shiftl (block_id_ b) BLOCK_OFFSET_SHIFT)) off) 0 (Z.to_nat block_offset_end) segment_offsets.

(** The loop of [SetDeleteBitmask]; it returns the last [read_offset]. *)
Fixpoint bitmask_loop b (query_ts : Z) (fuel : nat) (read_offset : Z) (bitmask : Bitmask R)
    : option (res (Z * Bitmask R)) :=
  match fuel with
  | O => None
  | S fuel =>
      let (row_begin, row_end) := GetVisibleRange b query_ts read_offset in
      if row_begin =? row_end then Some (Ok (read_offset, bitmask))
      else
        match clear_range read_offset row_begin bitmask with
        | Err e => Some (Err e)
        | Ok bitmask => bitmask_loop b query_ts fuel row_end bitmask
        end
  end.

Definition SetDeleteBitmask b (query_ts : Z) (fuel : nat) (bitmask : Bitmask R) : option (res (Bitmask R)) :=
  match bitmask_loop b query_ts fuel 0 bitmask with
  | None => None
  | Some r => Some (let? (read_offset, bitmask) := r in clear_range read_offset (block_row_count_ b) bitmask)
  end.
End readers.

Section writers.
Implicit Types (b : BlockEntry).

Definition AppendData (txn_id commit_ts input_block_offset append_rows : Z) b
    : res (Z * BlockEntry * list request) :=
  check? (using_txn_id_ b =? 0) || (using_txn_id_ b =? txn_id) else Unrecoverable in
  let actual_copied :=
    if row_capacity_ b <? block_row_count_ b + append_rows then u16 (row_capacity_ b - block_row_count_ b)
    else append_rows in
  let requests := map (fun c => AppendWith c (block_row_count_ b) input_block_offset actual_copied) (columns_ b) in
  let block_row_count := u16 (block_row_count_ b + actual_copied) in
  let version := BlockVersion.Append commit_ts block_row_count (version_ b) in
  check? negb ((commit_ts <? min_row_ts_ b) || (commit_ts <? max_row_ts_ b)) else Unrecoverable in
  Ok (actual_copied,
      mkBlockEntry (block_id_ b) block_row_count (row_capacity_ b) version commit_ts commit_ts
        (checkpoint_ts_ b) txn_id (checkpoint_row_count_ b) (commit_ts_ b) (columns_ b),
      requests).

Fixpoint delete_rows (commit_ts : Z) (rows : list Z) (v : BlockVersion) : res BlockVersion :=
  match rows with
  | [] => Ok v
  | block_offset :: rows => let? v := BlockVersion.Delete block_offset commit_ts v in delete_rows commit_ts rows v
  end.

Definition DeleteData (txn_id commit_ts : Z) (rows : list Z) b : res (Z * BlockEntry) :=
  check? (using_txn_id_ b =? 0) || (using_txn_id_ b =? txn_id) else Unrecoverable in
  let? version := delete_rows commit_ts rows (version_ b) in
  check? negb (negb (max_row_ts_ b =? UNCOMMIT_TS) && (commit_ts <? max_row_ts_ b)) else Unrecoverable in
  Ok (Z.of_nat (length rows),
      mkBlockEntry (block_id_ b) (block_row_count_ b) (row_capacity_ b) version (min_row_ts_ b) commit_ts
        (checkpoint_ts_ b) txn_id (checkpoint_row_count_ b) (commit_ts_ b) (columns_ b)).

(** [CheckFlush]: whether the columns and whether the version have to be flushed. *)
Definition CheckFlush (checkpoint_ts : Z) (check_commit : bool) b : bool * bool :=
  if check_commit && (checkpoint_ts <? commit_ts_ b) then (false, false)
  else (checkpoint_ts_ b <? min_row_ts_ b, checkpoint_ts_ b <? max_row_ts_ b).

Definition FlushVersionNoLock (checkpoint_ts : Z) (check_commit : bool) b : bool * list request :=
  let (flush_column, flush_version) := CheckFlush checkpoint_ts check_commit b in
  (flush_column, if flush_version then [SaveVersion checkpoint_ts] else []).

Definition CommitFlushed (commit_ts : Z) b : BlockEntry * list request :=
  let version := BlockVersion.Append commit_ts (block_row_count_ b) (version_ b) in
  let b := mkBlockEntry (block_id_ b) (block_row_count_ b) (row_capacity_ b) version commit_ts commit_ts
             (checkpoint_ts_ b) (using_txn_id_ b) (checkpoint_row_count_ b) (commit_ts_ b) (columns_ b) in
  let (_, requests) := FlushVersionNoLock commit_ts false b in
  (b, requests ++ [InitializeValid]).

Definition Committed b : bool := negb (commit_ts_ b =? UNCOMMIT_TS).

Definition CommitBlock (txn_id commit_ts : Z) b : res (BlockEntry * list request) :=
  check? (using_txn_id_ b =? 0) || (using_txn_id_ b =? txn_id) else Unrecoverable in
  check? negb (max_row_ts_ b <? min_row_ts_ b) else Unrecoverable in
  let min_row_ts := if min_row_ts_ b =? 0 then commit_ts else min_row_ts_ b in
  let max_row_ts := if max_row_ts_ b =? 0 then commit_ts else max_row_ts_ b in
  let b' := fun commit => mkBlockEntry (block_id_ b) (block_row_count_ b) (row_capacity_ b) (version_ b) min_row_ts
              max_row_ts (checkpoint_ts_ b) 0 (checkpoint_row_count_ b) commit (columns_ b) in
  if Committed b then Ok (b' (commit_ts_ b), [])
  else Ok (b' commit_ts, map (fun c => CommitColumn c txn_id commit_ts) (columns_ b)).

Definition FlushDataNoLock (start_row_count checkpoint_row_count : Z) b : list request :=
  map (fun c => FlushColumn c start_row_count checkpoint_row_count) (columns_ b).

Definition FlushForImport b : list request := FlushDataNoLock 0 (block_row_count_ b) b.

Definition TryToMmap b : bool * list request :=
  if checkpoint_row_count_ b <? row_capacity_ b then (false, []) else (true, map ToMmap (columns_ b)).

Definition Flush (checkpoint_ts : Z) b : res (BlockEntry * list request) :=
  check? negb (checkpoint_ts <? checkpoint_ts_ b) else Unrecoverable in
  let (flush, save) := FlushVersionNoLock checkpoint_ts true b in
  if flush then
    let checkpoint_row_count := u64 (BlockVersion.GetRowCount (version_ b) checkpoint_ts) in
    let data := FlushDataNoLock (checkpoint_row_count_ b) checkpoint_row_count b in
    let b := mkBlockEntry (block_id_ b) (block_row_count_ b) (row_capacity_ b) (version_ b) (min_row_ts_ b)
               (max_row_ts_ b) checkpoint_ts (using_txn_id_ b) (u16 checkpoint_row_count) (commit_ts_ b) (columns_ b) in
    Ok (b, save ++ data ++ snd (TryToMmap b))
  else Ok (b, save).

Definition IncreaseRowCount (increased_row_count : Z) b : BlockEntry :=
  mkBlockEntry (block_id_ b) (u16 (block_row_count_ b + increased_row_count)) (row_capacity_ b) (version_ b)
    (min_row_ts_ b) (max_row_ts_ b) (checkpoint_ts_ b) (using_txn_id_ b) (checkpoint_row_count_ b) (commit_ts_ b)
    (columns_ b).
End writers.
End BlockEntry.
