(* ===== verification/BlockHistory.v ===== *)
(** * What readers of a block see

    The abstract block is a list of rows, each with the commit that appended it and the commit
    that deleted it, if any. [BlockEntry] refines it over every sequence of appends, deletes and
    commits, and the readers of [BlockEntry] give the answers of the abstract block. *)
From S2P Require Import Prelude Serialize FileWorker BlockVersion Bitmask BlockEntry.
Import BlockEntry RoaringSet.

(** ** The abstract block *)
Record row := mkRow { born : Z; died : option Z }.

(** [holder] is the transaction that is writing the block, 0 for none; [newest] is the last commit. *)
Record block := mkBlock { rows : list row; room : Z; holder : Z; newest : Z }.

Definition dead_at (ts : Z) (r : row) : bool := match died r with Some d => d <=? ts | None => false end.
Definition visible_at (ts : Z) (r : row) : bool := (born r <=? ts) && negb (dead_at ts r).
Definition row_visible (s : block) (ts i : Z) : bool :=
  match rows s !! Z.to_nat i with Some r => visible_at ts r | None => false end.

(** Changes of a block, with the arguments of the calls. *)
Inductive change :=
| Appends (txn_id commit_ts input_block_offset append_rows : Z)
| Deletes (txn_id commit_ts : Z) (offsets : list Z)
| Commits (txn_id commit_ts : Z).

Definition exec (c : change) (b : BlockEntry) : res BlockEntry :=
  match c with
  | Appends txn_id commit_ts offset n => let? (_, b, _) := AppendData txn_id commit_ts offset n b in Ok b
  | Deletes txn_id commit_ts offsets => let? (_, b) := DeleteData txn_id commit_ts offsets b in Ok b
  | Commits txn_id commit_ts => let? (b, _) := CommitBlock txn_id commit_ts b in Ok b
  end.

Fixpoint kill (ts : Z) (offsets : list Z) (rs : list row) : option (list row) :=
  match offsets with
  | [] => Some rs
  | i :: offsets =>
      match rs !! Z.to_nat i with
      | Some (mkRow born None) => kill ts offsets (<[Z.to_nat i := mkRow born (Some ts)]> rs)
      | _ => None
      end
  end.

Definition may_write (s : block) (txn_id : Z) : bool := (holder s =? 0) || (holder s =? txn_id).

(** The effect of a change, when the block accepts it. *)
Definition apply_change (c : change) (s : block) : option block :=
  match c with
  | Appends txn_id ts _ n =>
      if may_write s txn_id && (newest s <=? ts) then
        let n := Z.min n (room s) in
        Some (mkBlock (rows s ++ replicate (Z.to_nat n) (mkRow ts None)) (room s - n) txn_id ts)
      else None
  | Deletes txn_id ts offsets =>
      if may_write s txn_id && (newest s <=? ts) then
        match kill ts offsets (rows s) with
        | Some rs => Some (mkBlock rs (room s) txn_id ts)
        | None => None
        end
      else None
  | Commits txn_id ts =>
      if may_write s txn_id then
        Some (mkBlock (rows s) (room s) 0 (if newest s =? 0 then ts else newest s))
      else None
  end.

(** The arguments have their C++ types, commits have timestamps, and the rows a transaction
    deletes exist and are at least one. *)
Definition commit_time (ts : Z) : Prop := 0 < ts < UNCOMMIT_TS.
Definition change_ok (c : change) (s : block) : Prop :=
  match c with
  | Appends _ ts _ n => commit_time ts /\ unsigned_range 16 n
  | Deletes _ ts offsets => commit_time ts /\ offsets <> [] /\ Forall (fun i => 0 <= i < Z.of_nat (length (rows s))) offsets
  | Commits _ ts => commit_time ts
  end.

(** ** The refinement relation *)
Record refines (b : BlockEntry) (s : block) : Prop := {
  rf_count : block_row_count_ b = Z.of_nat (length (rows s));
  rf_room : 0 <= room s /\ room s = row_capacity_ b - block_row_count_ b;
  rf_capacity : Z.of_nat (length (deleted_ (version_ b))) = row_capacity_ b /\ row_capacity_ b < 2 ^ 16;
  rf_holder : using_txn_id_ b = holder s;
  rf_newest : max_row_ts_ b = newest s /\ min_row_ts_ b <= max_row_ts_ b /\ (min_row_ts_ b = 0 -> max_row_ts_ b = 0 /\ rows s = []);
  rf_time : 0 <= newest s < UNCOMMIT_TS;
  rf_order : in_order (created_ (version_ b));
  rf_fields : Forall field_ok (created_ (version_ b));
  rf_latest : Forall (fun f => create_ts_ f <= min_row_ts_ b) (created_ (version_ b));
  rf_rows ts : 0 <= rows_at (created_ (version_ b)) ts <= Z.of_nat (length (rows s));
  rf_born i r ts : rows s !! i = Some r -> Z.of_nat i < rows_at (created_ (version_ b)) ts <-> born r <= ts;
  rf_died i : delete_at (deleted_ (version_ b)) (Z.of_nat i) = rows s !! i ≫= died;
  rf_past i r : rows s !! i = Some r -> born r <= newest s /\ forall d, died r = Some d -> d <= newest s;
}.

Section refinement.
Implicit Types (b : BlockEntry) (s : block) (ts i : Z).

Lemma check_dead b s ts i : refines b s -> 0 <= i < 2 ^ 64 ->
  BlockVersion.CheckDelete (version_ b) i ts = match rows s !! Z.to_nat i with Some r => dead_at ts r | None => false end.
Proof.
  intros Hr Hi. rewrite CheckDelete_delete_at by done. rewrite <- (Z2Nat.id i) at 1 by lia. rewrite (rf_died _ _ Hr).
  destruct (rows s !! Z.to_nat i) as [r|]; cbn; [|done]. unfold dead_at. now destruct (died r).
Qed.

Lemma row_count_at b s ts : refines b s -> BlockVersion.GetRowCount (version_ b) ts = rows_at (created_ (version_ b)) ts.
Proof. intros Hr. apply GetRowCount_rows_at; [apply Hr..]. Qed.

(** The rows born up to [ts] come first. *)
Lemma rows_born b s ts : refines b s ->
  rows_at (created_ (version_ b)) ts = Z.of_nat (length (filter (fun r => born r <= ts) (rows s))).
Proof.
  intros Hr. pose proof (rf_rows _ _ Hr ts) as Hn. set (n := rows_at (created_ (version_ b)) ts) in *.
  rewrite <- (take_drop (Z.to_nat n) (rows s)), filter_app, length_app.
  rewrite (filter_all _ (take _ _)), (filter_none _ (drop _ _)); [rewrite length_take; cbn; lia| |].
  - apply Forall_lookup. intros i r Hi. rewrite lookup_drop in Hi. pose proof (rf_born _ _ Hr _ _ ts Hi). fold n in H. lia.
  - apply Forall_lookup. intros i r [Hi Hlt]%lookup_take_Some. apply (rf_born _ _ Hr _ _ ts Hi). fold n. lia.
Qed.

Lemma visible_row b s ts i : refines b s -> 0 <= i < 2 ^ 64 ->
  CheckRowVisible b i ts true = row_visible s ts i.
Proof.
  intros Hr Hi. unfold CheckRowVisible, row_visible. rewrite (row_count_at b s) by done. cbn.
  rewrite (check_dead b s) by done.
  destruct (rows s !! Z.to_nat i) as [r|] eqn:E.
  - pose proof (rf_born _ _ Hr _ _ ts E) as Hb. rewrite Z2Nat.id in Hb by lia. unfold visible_at.
    destruct (Z.leb_spec (rows_at (created_ (version_ b)) ts) i), (Z.leb_spec (born r) ts); cbn; try done; lia.
  - apply lookup_ge_None in E. pose proof (rf_rows _ _ Hr ts). destruct (Z.leb_spec (rows_at (created_ (version_ b)) ts) i); [done|lia].
Qed.

Lemma rows_at_newest b s ts : refines b s -> newest s <= ts ->
  rows_at (created_ (version_ b)) ts = Z.of_nat (length (rows s)).
Proof.
  intros Hr Hts. rewrite (rows_born b s) by done. f_equal. rewrite filter_all; [done|].
  apply Forall_lookup. intros i r Hi. destruct (rf_past _ _ Hr _ _ Hi). lia.
Qed.

(** A reader after the last commit is one at the last commit. *)
Lemma visible_min b s ts i : refines b s -> row_visible s (Z.min ts (max_row_ts_ b)) i = row_visible s ts i.
Proof.
  intros Hr. rewrite (proj1 (rf_newest _ _ Hr)). unfold row_visible, visible_at, dead_at.
  destruct (rows s !! Z.to_nat i) as [r|] eqn:E; [|done]. destruct (rf_past _ _ Hr _ _ E) as [Hb Hd].
  destruct (died r) as [d|]; [specialize (Hd d eq_refl)|]; lia.
Qed.

(** ** The visible ranges *)
Lemma skip_while_spec (p : Z -> bool) stop fuel from :
  0 <= from -> stop < 2 ^ 16 -> stop - from <= Z.of_nat fuel ->
  let r := skip_while p stop fuel from in
  from <= r <= Z.max from stop /\ (forall i, from <= i < r -> p i = true) /\ (r < stop -> p r = false).
Proof.
  revert from. induction fuel as [|fuel IH]; intros from Hf Hs Hn; cbn -[Z.max].
  { split_and!; intros; lia. }
  destruct (Z.ltb_spec from stop); cbn [andb]; [|split_and!; intros; lia].
  destruct (p from) eqn:E; [|split_and!; [lia..|intros; lia|done]].
  rewrite wrap_id by (unfold unsigned_range; lia).
  destruct (IH (from + 1)) as (H1 & H2 & H3); [lia..|]. split_and!; [lia..| |done].
  intros i Hi. destruct (Z.eq_dec i from) as [->|]; [done|]. apply H2. lia.
Qed.

Lemma visible_born b s ts i : refines b s -> 0 <= i < rows_at (created_ (version_ b)) ts ->
  row_visible s ts i = negb (BlockVersion.CheckDelete (version_ b) i ts).
Proof.
  intros Hr Hi. pose proof (rf_rows _ _ Hr ts). pose proof (rf_count _ _ Hr). pose proof (rf_capacity _ _ Hr).
  pose proof (rf_room _ _ Hr). rewrite (check_dead b s) by (done || lia). unfold row_visible.
  destruct (rows s !! Z.to_nat i) as [r|] eqn:E; cycle 1.
  { apply lookup_ge_None in E. lia. }
  pose proof (rf_born _ _ Hr _ _ ts E). unfold visible_at. rewrite (proj2 (Z.leb_le _ _)); [done|]. lia.
Qed.

Lemma visible_unborn b s ts i : refines b s -> rows_at (created_ (version_ b)) ts <= i -> row_visible s ts i = false.
Proof.
  intros Hr Hi. pose proof (rf_rows _ _ Hr ts). unfold row_visible.
  destruct (rows s !! Z.to_nat i) as [r|] eqn:E; [|done].
  pose proof (rf_born _ _ Hr _ _ ts E). unfold visible_at. rewrite (proj2 (Z.leb_gt _ _)); [done|]. lia.
Qed.

Lemma row_bounds b s ts : refines b s ->
  0 <= rows_at (created_ (version_ b)) ts <= block_row_count_ b /\ block_row_count_ b < 2 ^ 16.
Proof.
  intros Hr. pose proof (rf_rows _ _ Hr ts). pose proof (rf_count _ _ Hr). pose proof (rf_capacity _ _ Hr).
  pose proof (rf_room _ _ Hr). lia.
Qed.

Lemma visible_range_spec b s ts from row_begin row_end : refines b s -> 0 <= from ->
  GetVisibleRange b ts from = (row_begin, row_end) ->
  from <= row_begin <= row_end /\ row_end <= Z.max from (block_row_count_ b) /\
  (forall i, from <= i < row_begin -> row_visible s ts i = false) /\
  (forall i, row_begin <= i < row_end -> row_visible s ts i = true) /\
  row_visible s ts row_end = false /\
  (row_begin = row_end -> forall i, from <= i -> row_visible s ts i = false).
Proof.
  intros Hr Hf. unfold GetVisibleRange. set (ts' := Z.min ts (max_row_ts_ b)).
  pose proof (row_bounds b s ts' Hr) as [Hn Hc]. rewrite (row_count_at b s) by done.
  rewrite wrap_id by (unfold unsigned_range; lia). set (n := rows_at (created_ (version_ b)) ts') in *.
  set (p := fun row => BlockVersion.CheckDelete (version_ b) row ts').
  pose proof (skip_while_spec p n (Z.to_nat (n - from)) from Hf ltac:(lia) ltac:(lia)) as H1. cbv zeta in H1.
  set (x := skip_while p n _ from) in *. destruct H1 as (Hx & Hx1 & Hx2).
  pose proof (skip_while_spec (fun row => negb (p row)) n (Z.to_nat (n - from)) x ltac:(lia) ltac:(lia) ltac:(lia)) as H2.
  cbv zeta in H2. set (y := skip_while _ n _ x) in *. destruct H2 as (Hy & Hy1 & Hy2). intros [= <- <-].
  assert (V : forall i, 0 <= i < n -> row_visible s ts i = negb (p i)).
  { intros i Hi. rewrite <- (visible_min b s) by done. by apply visible_born. }
  assert (U : forall i, n <= i -> row_visible s ts i = false).
  { intros i Hi. rewrite <- (visible_min b s) by done. by apply visible_unborn with b. }
  split_and!; [lia..| | | |].
  - intros i Hi. destruct (Z.lt_ge_cases i n); [rewrite V, Hx1 by lia; done|auto].
  - intros i Hi. destruct (Z.lt_ge_cases i n); [rewrite V, Hy1 by lia; done|lia].
  - destruct (Z.lt_ge_cases y n); [rewrite V by lia; auto|auto].
  - intros E i Hi. destruct (Z.lt_ge_cases x n).
    + exfalso. rewrite <- E in Hy2. rewrite Hx2 in Hy2 by lia. discriminate Hy2. done.
    + destruct (Z.lt_ge_cases i n); [|auto]. rewrite V, Hx1 by lia. done.
Qed.

(** ** The delete bitmask *)
Context {R : Type} `{RoaringLaws R}.
Implicit Types (m : Bitmask R).

Lemma clear_rows_ok (p : Z -> bool) (index : Z -> Z) from n m :
  Bitmask.bitmask_ok m ->
  (forall o, from <= o < from + Z.of_nat n -> p o = true -> 0 <= index o < count_ m) ->
  exists m', clear_rows p index from n m = Ok m' /\ Bitmask.bitmask_ok m' /\ count_ m' = count_ m /\
    forall x, x ∈ Bitmask.bits m' <->
      x ∈ Bitmask.bits m /\ ~ exists o, from <= o < from + Z.of_nat n /\ p o = true /\ x = index o.
Proof.
  revert from m. induction n as [|n IH]; intros from m Hm Hi; cbn [clear_rows].
  { exists m. split_and!; [done..|]. intros x. split; [|tauto]. intros Hx. split; [done|]. intros (o & ? & _). lia. }
  set (m1 := if p from then _ else Ok m).
  assert (H1 : exists m', m1 = Ok m' /\ Bitmask.bitmask_ok m' /\ count_ m' = count_ m /\
            forall x, x ∈ Bitmask.bits m' <-> x ∈ Bitmask.bits m /\ ~ (p from = true /\ x = index from)).
  { subst m1. destruct (p from) eqn:Ep.
    - specialize (Hi from ltac:(lia) Ep). pose proof (Bitmask.bo_count _ Hm) as Hc. unfold unsigned_range in Hc.
      pose proof (Bitmask.exec_ok (Bitmask.call_SetFalse (index from)) m Hm ltac:(cbn; unfold unsigned_range; lia)) as HS.
      cbn in HS. rewrite (proj2 (Z.ltb_lt _ _)) in HS by lia. destruct HS as (m' & E & Hm' & Ec & Eb).
      exists m'. split_and!; [done..|]. intros x. rewrite Eb, elem_of_difference, elem_of_singleton. tauto.
    - exists m. split_and!; [done..|]. intros x. split; [|tauto]. intros Hx. split; [done|]. intros [? _]. done. }
  destruct H1 as (m' & -> & Hm' & Ec & Eb). cbn [res_bind].
  destruct (IH (from + 1) m' Hm') as (m'' & E & Hm'' & Ec' & Eb').
  { intros o Ho Hp. rewrite Ec. apply Hi; [lia|done]. }
  exists m''. split_and!; [done..|congruence|]. intros x. rewrite Eb', Eb. split.
  - intros [[Hx Hn] Hn']. split; [done|]. intros (o & Ho & Hp & ->). destruct (Z.eq_dec o from) as [->|]; [tauto|].
    apply Hn'. exists o. split_and!; [lia..|done|done].
  - intros [Hx Hn]. split_and!; [done| |].
    + intros [Hp ->]. apply Hn. exists from. split_and!; [lia..|done|done].
    + intros (o & Ho & Hp & ->). apply Hn. exists o. split_and!; [lia..|done|done].
Qed.

Lemma clear_range_ok from stop m : Bitmask.bitmask_ok m -> 0 <= from -> stop <= count_ m ->
  exists m', clear_range from stop m = Ok m' /\ Bitmask.bitmask_ok m' /\ count_ m' = count_ m /\
    forall x, x ∈ Bitmask.bits m' <-> x ∈ Bitmask.bits m /\ ~ (from <= x < stop).
Proof.
  intros Hm Hf Hs. destruct (clear_rows_ok (fun _ => true) id from (Z.to_nat (stop - from)) m Hm) as (m' & E & Hm' & Ec & Eb).
  { intros o Ho _. unfold id. lia. }
  exists m'. split_and!; [done..|]. intros x. rewrite Eb. split; intros [Hx Hn]; (split; [done|]).
  - intros Hr. apply Hn. exists x. split_and!; [lia..|done|done].
  - intros (o & Ho & _ & ->). apply Hn. unfold id. lia.
Qed.

Lemma bitmask_loop_ok b s ts fuel from m : refines b s -> Bitmask.bitmask_ok m -> block_row_count_ b <= count_ m ->
  0 <= from <= block_row_count_ b -> block_row_count_ b - from < Z.of_nat fuel ->
  exists r m', bitmask_loop b ts fuel from m = Some (Ok (r, m')) /\ Bitmask.bitmask_ok m' /\ count_ m' = count_ m /\
    from <= r <= block_row_count_ b /\ (forall i, r <= i -> row_visible s ts i = false) /\
    forall x, x ∈ Bitmask.bits m' <-> x ∈ Bitmask.bits m /\ ~ (from <= x < r /\ row_visible s ts x = false).
Proof.
  intros Hr. revert from m. induction fuel as [|fuel IH]; intros from m Hm Hc Hf Hn; [lia|]. cbn [bitmask_loop].
  destruct (GetVisibleRange b ts from) as [x y] eqn:E.
  destruct (visible_range_spec b s ts from x y Hr ltac:(lia) E) as (Hxy & Hy & V1 & V2 & V3 & V4).
  destruct (Z.eqb_spec x y) as [->|Hne].
  - exists from, m. split_and!; [done..|lia|lia| |].
    + intros i Hi. apply V4; [done|lia].
    + intros z. split; [|tauto]. intros Hz. split; [done|]. intros [? _]. lia.
  - destruct (clear_range_ok from x m Hm ltac:(lia) ltac:(lia)) as (m' & -> & Hm' & Ec & Eb).
    destruct (IH y m' Hm' ltac:(lia) ltac:(lia) ltac:(lia)) as (r & m'' & -> & Hm'' & Ec' & Hr' & V5 & Eb').
    exists r, m''. split_and!; [done..|congruence|lia|lia|done|].
    intros z. rewrite Eb', Eb. split.
    + intros [[Hz Hz1] Hz2]. split; [done|]. intros [Hz3 Hv]. destruct (Z.lt_ge_cases z x); [lia|].
      destruct (Z.lt_ge_cases z y); [rewrite V2 in Hv by lia; done|]. apply Hz2. split; [lia|done].
    + intros [Hz Hn']. split_and!; [done| |]; intros Hz1; apply Hn'.
      * split; [lia|]. apply V1. lia.
      * split; [lia|tauto].
Qed.

(** The bitmask keeps exactly the visible rows. *)
Lemma SetDeleteBitmask_ok b s ts fuel m : refines b s -> Bitmask.bitmask_ok m -> block_row_count_ b <= count_ m ->
  block_row_count_ b < Z.of_nat fuel ->
  exists m', SetDeleteBitmask b ts fuel m = Some (Ok m') /\ Bitmask.bitmask_ok m' /\
    forall x, x ∈ Bitmask.bits m' <->
      x ∈ Bitmask.bits m /\ ~ (0 <= x < block_row_count_ b /\ row_visible s ts x = false).
Proof.
  intros Hr Hm Hc Hf. pose proof (row_bounds b s ts Hr) as [Hn _]. unfold SetDeleteBitmask.
  destruct (bitmask_loop_ok b s ts fuel 0 m Hr Hm Hc ltac:(lia) ltac:(lia)) as (r & m1 & -> & Hm1 & Ec & Hr1 & V & Eb).
  cbn [res_bind].
  destruct (clear_range_ok r (block_row_count_ b) m1 Hm1 ltac:(lia) ltac:(lia)) as (m' & E & Hm' & Ec' & Eb').
  exists m'. split_and!; [by f_equal|done|]. intros x. rewrite Eb', Eb. split.
  - intros [[Hx H1] H2]. split; [done|]. intros [Hx' Hv]. destruct (Z.lt_ge_cases x r); [|lia]. apply H1. split; [lia|done].
  - intros [Hx H1]. split_and!; [done| |]; intros Hx'; apply H1; [split; [lia|tauto]|].
    split; [lia|]. apply V. lia.
Qed.
End refinement.

(** ** The changes *)
Section changes.
Implicit Types (b : BlockEntry) (s : block) (v : BlockVersion) (rs : list row).

Lemma append_refines b s txn_id ts offset n : refines b s -> change_ok (Appends txn_id ts offset n) s ->
  match apply_change (Appends txn_id ts offset n) s with
  | Some s' => exists b', exec (Appends txn_id ts offset n) b = Ok b' /\ refines b' s'
  | None => exec (Appends txn_id ts offset n) b = Err Unrecoverable
  end.
Proof.
  intros Hr [Hts Hn]. pose proof (row_bounds b s ts Hr) as [_ Hc]. pose proof Hr as
    [Rcount [Rroom0 Rroom] [Rcap0 Rcap] Rholder (Rnew & Rmin & Rzero) Rtime Rorder Rfields Rlatest Rrows Rborn Rdied Rpast].
  unfold apply_change, exec, AppendData, may_write, commit_time, unsigned_range in *. rewrite Rholder.
  destruct ((holder s =? 0) || (holder s =? txn_id)); cbn [andb]; [|done].
  set (k := if row_capacity_ b <? _ then _ else _).
  assert (Hk : k = Z.min n (room s)).
  { subst k. destruct (Z.ltb_spec (row_capacity_ b) (block_row_count_ b + n)); [|lia].
    rewrite wrap_id by (unfold unsigned_range; lia). lia. }
  rewrite Hk, (wrap_id 16 (block_row_count_ b + Z.min n (room s))) by (unfold unsigned_range; lia). clear k Hk.
  set (k := Z.min n (room s)). rewrite Rnew in *.
  destruct (Z.leb_spec (newest s) ts) as [Hle|Hgt]; cycle 1.
  { rewrite (proj2 (Z.ltb_lt ts (newest s))), orb_true_r by lia. done. }
  rewrite (proj2 (Z.ltb_ge ts (newest s))), (proj2 (Z.ltb_ge ts (min_row_ts_ b))) by lia. cbn [orb negb res_bind].
  eexists. split; [reflexivity|].
  assert (Hold : Forall (fun f => create_ts_ f <= ts) (created_ (version_ b))).
  { eapply Forall_impl; [exact Rlatest|]. cbn. lia. }
  split; cbn [block_row_count_ row_capacity_ version_ min_row_ts_ max_row_ts_ using_txn_id_ rows room holder newest
              BlockVersion.Append created_ deleted_]; try done; try lia.
  - rewrite length_app, length_replicate. lia.
  - apply in_order_app. done.
  - apply Forall_app. split; [done|]. apply Forall_singleton. unfold field_ok, unsigned_range, UNCOMMIT_TS in *. cbn. lia.
  - apply Forall_app. split; [done|]. apply Forall_singleton. done.
  - intros ts'. rewrite rows_at_snoc, length_app, length_replicate. cbn. pose proof (Rrows ts').
    destruct (ts <=? ts'); lia.
  - intros i r ts' Hi. rewrite rows_at_snoc. cbn.
    apply lookup_app_Some in Hi as [Hi|[Hge Hi]].
    + pose proof (lookup_lt_Some _ _ _ Hi). destruct (Rpast _ _ Hi). pose proof (Rborn _ _ ts' Hi).
      destruct (Z.leb_spec ts ts'); lia.
    + apply lookup_replicate in Hi as [-> Hi]. cbn. pose proof (Rrows ts'). destruct (Z.leb_spec ts ts'); lia.
  - intros i. rewrite Rdied. destruct (Nat.lt_ge_cases i (length (rows s))).
    + now rewrite lookup_app_l.
    + rewrite lookup_app_r, (lookup_ge_None_2 (rows s)) by done. cbn.
      destruct (replicate _ _ !! _) as [r|] eqn:Er; [|done]. apply lookup_replicate in Er as [-> _]. done.
  - intros i r Hi. apply lookup_app_Some in Hi as [Hi|[_ Hi]].
    + destruct (Rpast _ _ Hi) as [H1 H2]. split; [lia|]. intros d Hd. specialize (H2 d Hd). lia.
    + apply lookup_replicate in Hi as [-> _]. cbn. split; [lia|done].
Qed.

(** The timestamps of a version and the deaths of the rows. *)
Definition deaths v rs : Prop := forall i, delete_at (deleted_ v) (Z.of_nat i) = rs !! i ≫= died.

Lemma delete_at_insert (deleted : list Z) (i j : nat) ts : (i < length deleted)%nat -> ts <> 0 ->
  delete_at (<[i := ts]> deleted) (Z.of_nat j) = if decide (i = j) then Some ts else delete_at deleted (Z.of_nat j).
Proof.
  intros Hi Hts. unfold delete_at. rewrite Nat2Z.id. case_decide as E.
  - subst j. rewrite list_lookup_insert_eq by done. now rewrite (proj2 (Z.eqb_neq _ _)).
  - now rewrite list_lookup_insert_ne by done.
Qed.

(** What deletes leave alone. *)
Record killed ts rs rs' : Prop := {
  kl_length : length rs' = length rs;
  kl_row i r' : rs' !! i = Some r' ->
    exists r, rs !! i = Some r /\ born r' = born r /\ (died r' = died r \/ died r' = Some ts);
}.

Lemma killed_insert ts rs i t : rs !! i = Some (mkRow t None) -> killed ts rs (<[i := mkRow t (Some ts)]> rs).
Proof.
  intros Hi. split; [apply length_insert|]. intros j r' Hj. apply list_lookup_insert_Some in Hj as [(<- & <- & _)|[Hne Hj]].
  - exists (mkRow t None). cbn. auto.
  - exists r'. auto.
Qed.

Lemma killed_trans ts r1 r2 r3 : killed ts r1 r2 -> killed ts r2 r3 -> killed ts r1 r3.
Proof.
  intros [L1 H1] [L2 H2]. split; [congruence|]. intros i r Hi. destruct (H2 _ _ Hi) as (r' & Hi' & E1 & E2).
  destruct (H1 _ _ Hi') as (r'' & Hi'' & E3 & E4). exists r''. split_and!; [done|congruence|].
  destruct E2 as [-> | E2]; [done|by right].
Qed.

Lemma delete_rows_kill ts offsets v rs : ts <> 0 -> deaths v rs -> (length rs <= length (deleted_ v))%nat ->
  Forall (fun i => 0 <= i < Z.of_nat (length rs)) offsets ->
  match kill ts offsets rs with
  | Some rs' => exists v', delete_rows ts offsets v = Ok v' /\ created_ v' = created_ v /\
                  length (deleted_ v') = length (deleted_ v) /\ deaths v' rs' /\ killed ts rs rs'
  | None => delete_rows ts offsets v = Err Unrecoverable
  end.
Proof.
  intros Hts. revert v rs. induction offsets as [|i offsets IH]; intros v rs Hd Hl Ho; cbn [kill delete_rows].
  { exists v. split_and!; [done..|]. split; [done|]. intros i r Hi. exists r. auto. }
  apply Forall_cons_1 in Ho as [Hi Ho]. unfold BlockVersion.Delete.
  pose proof (Hd (Z.to_nat i)) as Hdi. rewrite Z2Nat.id in Hdi by lia. unfold delete_at in Hdi.
  destruct (lookup_lt_is_Some_2 rs (Z.to_nat i)) as [[t0 d0] Hrow]; [lia|].
  destruct (lookup_lt_is_Some_2 (deleted_ v) (Z.to_nat i)) as [old Hold]; [lia|].
  rewrite Hrow, Hold in *. cbn in Hdi.
  destruct d0 as [d0|]; destruct (old =? 0) eqn:Eo; try discriminate Hdi; [done|]. cbn [res_bind].
  set (rs1 := <[Z.to_nat i := mkRow t0 (Some ts)]> rs).
  assert (L1 : length rs1 = length rs) by apply length_insert.
  specialize (IH (mkBlockVersion (created_ v) (<[Z.to_nat i:=ts]> (deleted_ v)) ts) rs1).
  destruct (kill ts offsets rs1) as [rs'|].
  - destruct IH as (v' & -> & Ec & El & Hd' & Hk); cbn [deleted_].
    + intros j. cbn [deleted_]. rewrite delete_at_insert by (done || lia). subst rs1. case_decide as Ej.
      * subst j. rewrite list_lookup_insert_eq by (by eapply lookup_lt_Some). done.
      * rewrite list_lookup_insert_ne by done. apply Hd.
    + rewrite length_insert. lia.
    + by rewrite L1.
    + exists v'. split_and!; [done..| |done|].
      * rewrite El. cbn. apply length_insert.
      * eapply killed_trans; [|exact Hk]. by apply killed_insert.
  - apply IH; cbn [deleted_]; [|rewrite length_insert; lia|by rewrite L1].
    intros j. cbn [deleted_]. rewrite delete_at_insert by (done || lia). subst rs1. case_decide as Ej.
    + subst j. rewrite list_lookup_insert_eq by (by eapply lookup_lt_Some). done.
    + rewrite list_lookup_insert_ne by done. apply Hd.
Qed.

Lemma delete_refines b s txn_id ts offsets : refines b s -> change_ok (Deletes txn_id ts offsets) s ->
  match apply_change (Deletes txn_id ts offsets) s with
  | Some s' => exists b', exec (Deletes txn_id ts offsets) b = Ok b' /\ refines b' s'
  | None => exec (Deletes txn_id ts offsets) b = Err Unrecoverable
  end.
Proof.
  intros Hr (Hts & Hne & Ho). pose proof Hr as
    [Rcount [Rroom0 Rroom] [Rcap0 Rcap] Rholder (Rnew & Rmin & Rzero) Rtime Rorder Rfields Rlatest Rrows Rborn Rdied Rpast].
  unfold apply_change, exec, DeleteData, may_write, commit_time in *. rewrite Rholder.
  destruct ((holder s =? 0) || (holder s =? txn_id)); cbn [andb]; [|done].
  pose proof (delete_rows_kill ts offsets (version_ b) (rows s) ltac:(lia) Rdied ltac:(lia) Ho) as Hk.
  destruct (kill ts offsets (rows s)) as [rs|]; [|rewrite Hk; now destruct (newest s <=? ts)].
  destruct Hk as (v & -> & Ec & El & Hd & [Lk Hk]). cbn [res_bind]. rewrite Rnew in *.
  rewrite (proj2 (Z.eqb_neq (newest s) UNCOMMIT_TS)) by lia. cbn [negb andb].
  destruct (Z.leb_spec (newest s) ts) as [Hle|Hgt]; cycle 1.
  { rewrite (proj2 (Z.ltb_lt ts (newest s))) by lia. done. }
  rewrite (proj2 (Z.ltb_ge ts (newest s))) by lia. cbn [negb res_bind]. eexists. split; [reflexivity|].
  split; cbn [block_row_count_ row_capacity_ version_ min_row_ts_ max_row_ts_ using_txn_id_ rows room holder newest];
    rewrite ?Ec, ?El, ?Lk; try done; try lia.
  - split_and!; [done|lia|]. intros Hz. exfalso. destruct (Rzero Hz) as [_ E]. rewrite E in Ho.
    destruct offsets as [|i l]; [done|]. apply Forall_cons_1 in Ho as [Hi _]. cbn in Hi. lia.
  - intros i r ts' Hi. destruct (Hk _ _ Hi) as (r' & Hi' & -> & _). by apply Rborn.
  - intros i r Hi. destruct (Hk _ _ Hi) as (r' & Hi' & -> & Hdied). destruct (Rpast _ _ Hi') as [H1 H2].
    split; [lia|]. intros d Ed. destruct Hdied as [E|E]; rewrite E in Ed; [specialize (H2 d Ed); lia|].
    injection Ed as ->. lia.
Qed.

Lemma commit_refines b s txn_id ts : refines b s -> change_ok (Commits txn_id ts) s ->
  match apply_change (Commits txn_id ts) s with
  | Some s' => exists b', exec (Commits txn_id ts) b = Ok b' /\ refines b' s'
  | None => exec (Commits txn_id ts) b = Err Unrecoverable
  end.
Proof.
  intros Hr Hts. pose proof Hr as
    [Rcount [Rroom0 Rroom] [Rcap0 Rcap] Rholder (Rnew & Rmin & Rzero) Rtime Rorder Rfields Rlatest Rrows Rborn Rdied Rpast].
  unfold apply_change, exec, CommitBlock, may_write, change_ok, commit_time in *. rewrite Rholder.
  destruct ((holder s =? 0) || (holder s =? txn_id)); [|done].
  rewrite (proj2 (Z.ltb_ge (max_row_ts_ b) (min_row_ts_ b))) by lia. cbn [negb].
  assert (H' : forall commit, refines (mkBlockEntry (block_id_ b) (block_row_count_ b) (row_capacity_ b) (version_ b)
    (if min_row_ts_ b =? 0 then ts else min_row_ts_ b) (if max_row_ts_ b =? 0 then ts else max_row_ts_ b)
    (checkpoint_ts_ b) 0 (checkpoint_row_count_ b) commit (columns_ b)) (mkBlock (rows s) (room s) 0 (if newest s =? 0 then ts else newest s))).
  { intros commit. rewrite Rnew in *.
    assert (Hle : newest s <= (if newest s =? 0 then ts else newest s)) by (destruct (Z.eqb_spec (newest s) 0); lia).
    split; cbn [block_row_count_ row_capacity_ version_ min_row_ts_ max_row_ts_ using_txn_id_ rows room holder newest]; try done.
    - destruct (Z.eqb_spec (min_row_ts_ b) 0) as [Ez|], (Z.eqb_spec (newest s) 0); 
        try (split_and!; [done|lia|lia]).
    - destruct (Z.eqb_spec (newest s) 0); lia.
    - eapply Forall_impl; [exact Rlatest|]. cbn. intros f Hf. destruct (Z.eqb_spec (min_row_ts_ b) 0); lia.
    - intros i r Hi. destruct (Rpast _ _ Hi) as [H1 H2]. split; [lia|]. intros d Hd. specialize (H2 d Hd). lia. }
  destruct (Committed b); cbn [res_bind]; eexists; (split; [reflexivity|apply H']).
Qed.

Lemma change_refines c b s : refines b s -> change_ok c s ->
  match apply_change c s with
  | Some s' => exists b', exec c b = Ok b' /\ refines b' s'
  | None => exec c b = Err Unrecoverable
  end.
Proof. intros Hr Hc. destruct c; [by apply append_refines|by apply delete_refines|by apply commit_refines]. Qed.

(** ** Histories *)
Fixpoint exec_all (cs : list change) b : res BlockEntry :=
  match cs with
  | [] => Ok b
  | c :: cs => let? b := exec c b in exec_all cs b
  end.
Fixpoint apply_all (cs : list change) s : option block :=
  match cs with
  | [] => Some s
  | c :: cs => match apply_change c s with Some s => apply_all cs s | None => None end
  end.
Fixpoint history_ok (cs : list change) s : Prop :=
  match cs with
  | [] => True
  | c :: cs => change_ok c s /\ match apply_change c s with Some s => history_ok cs s | None => True end
  end.

Definition new_block : block := mkBlock [] DEFAULT_BLOCK_CAPACITY 0 0.

Lemma new_refines block_id checkpoint_ts columns : refines (NewBlockEntry block_id checkpoint_ts columns) new_block.
Proof.
  split; cbn -[replicate]; try done; try lia.
  intros i. unfold delete_at. rewrite Nat2Z.id. destruct (replicate _ 0 !! i) as [d|] eqn:E; [|done].
  apply lookup_replicate in E as [-> _]. done.
Qed.

Lemma history_refines cs b s : refines b s -> history_ok cs s ->
  match apply_all cs s with
  | Some s' => exists b', exec_all cs b = Ok b' /\ refines b' s'
  | None => exec_all cs b = Err Unrecoverable
  end.
Proof.
  revert b s. induction cs as [|c cs IH]; intros b s Hr Hh; cbn; [by exists b|].
  destruct Hh as [Hc Hh]. pose proof (change_refines c b s Hr Hc) as H1. destruct (apply_change c s) as [s'|].
  - destruct H1 as (b' & -> & Hr'). by apply IH.
  - by rewrite H1.
Qed.

(** C6. For every sequence of appends, deletes and commits on a new block: the block raises exactly
    when the abstract block refuses a change (another transaction is writing it, the commit is
    older than the last one, or a row is deleted twice), and otherwise every reader at every
    timestamp [ts] gets the answer of the abstract block: the number of rows appended up to [ts],
    whether a row was appended up to [ts] and not deleted up to [ts], whether a row was deleted up
    to [ts], and the next range of visible rows from an offset on. *)
Theorem block_history_visibility block_id checkpoint_ts columns (cs : list change) :
  history_ok cs new_block ->
  match apply_all cs new_block with
  | None => exec_all cs (NewBlockEntry block_id checkpoint_ts columns) = Err Unrecoverable
  | Some s =>
      exists b, exec_all cs (NewBlockEntry block_id checkpoint_ts columns) = Ok b /\
        block_row_count_ b = Z.of_nat (length (rows s)) /\ GetAvailableCapacity b = room s /\
        forall ts,
          row_count b ts = Z.of_nat (length (filter (fun r => born r <= ts) (rows s))) /\
          forall i, 0 <= i < 2 ^ 16 ->
            CheckRowVisible b i ts true = row_visible s ts i /\
            CheckDeleteConflict b [i] ts = match rows s !! Z.to_nat i with Some r => dead_at ts r | None => false end /\
            forall row_begin row_end, GetVisibleRange b ts i = (row_begin, row_end) ->
              (forall k, i <= k < row_begin -> row_visible s ts k = false) /\
              (forall k, row_begin <= k < row_end -> row_visible s ts k = true) /\
              row_visible s ts row_end = false /\
              (row_begin = row_end -> forall k, i <= k -> row_visible s ts k = false)
  end.
Proof.
  intros Hh. pose proof (history_refines cs _ _ (new_refines block_id checkpoint_ts columns) Hh) as H1.
  destruct (apply_all cs new_block) as [s|]; [|done]. destruct H1 as (b & -> & Hr).
  exists b. split; [done|]. split; [apply Hr|]. split; [symmetry; apply (proj2 (rf_room _ _ Hr))|]. intros ts. split.
  - rewrite <- (rows_born b s) by done. unfold row_count. rewrite (proj1 (rf_newest _ _ Hr)).
    destruct (Z.leb_spec (newest s) ts); [|by apply row_count_at with s].
    rewrite (rows_at_newest b s) by done. apply Hr.
  - intros i Hi. split_and!.
    + apply visible_row; [done|lia].
    + unfold CheckDeleteConflict. cbn. rewrite orb_false_r. apply check_dead; [done|lia].
    + intros x y E. pose proof (visible_range_spec b s ts i x y Hr ltac:(lia) E). tauto.
Qed.

Definition demo_history : list change :=
  [Appends 1 10 0 3; Commits 1 10; Deletes 2 20 [1]; Commits 2 20; Appends 3 30 0 2].

Lemma demo_changes_ok : history_ok demo_history new_block.
Proof.
  cbn. unfold commit_time, unsigned_range, UNCOMMIT_TS. repeat first [split|constructor]; cbn; try lia; try done.
Qed.

Lemma block_history_visibility_witness :
  exists b, exec_all demo_history (NewBlockEntry 0 0 [0; 1]) = Ok b /\
    map (fun i => CheckRowVisible b i 20 true) [0; 1; 2; 3] = [true; false; true; false].
Proof.
  destruct (block_history_visibility 0 0 [0; 1] demo_history demo_changes_ok) as (b & E & _ & _ & Hts).
  exists b. split; [exact E|]. destruct (Hts 20) as [_ Hi]. cbn [map].
  rewrite (proj1 (Hi 0 ltac:(lia))), (proj1 (Hi 1 ltac:(lia))), (proj1 (Hi 2 ltac:(lia))), (proj1 (Hi 3 ltac:(lia))).
  reflexivity.
Defined.
End changes.

(** ** The bitmask of a block *)

(** On a block with any history, [SetDeleteBitmask] returns: one turn of its loop per visible
    range is enough, so [block_row_count_ + 1] turns are. It clears exactly the rows of the block
    that a reader at [query_ts] does not see, deleted or appended later, and leaves every other bit. *)
Theorem delete_bitmask_keeps_visible_rows {R : Type} `{RoaringLaws R} block_id checkpoint_ts columns
    (cs : list change) (s : block) (b : BlockEntry) (query_ts : Z) (bitmask : Bitmask R) :
  history_ok cs new_block -> apply_all cs new_block = Some s ->
  exec_all cs (NewBlockEntry block_id checkpoint_ts columns) = Ok b ->
  Bitmask.bitmask_ok bitmask -> block_row_count_ b <= count_ bitmask ->
  exists bitmask',
    SetDeleteBitmask b query_ts (S (Z.to_nat (block_row_count_ b))) bitmask = Some (Ok bitmask') /\
    forall x, 0 <= x ->
      Bitmask.IsTrue x bitmask' =
      Bitmask.IsTrue x bitmask && ((block_row_count_ b <=? x) || row_visible s query_ts x).
Proof.
  intros Hh Es Eb Hm Hc. pose proof (history_refines cs _ _ (new_refines block_id checkpoint_ts columns) Hh) as H1.
  rewrite Es in H1. destruct H1 as (b' & Eb' & Hr). rewrite Eb in Eb'. injection Eb' as <-.
  destruct (SetDeleteBitmask_ok b s query_ts (S (Z.to_nat (block_row_count_ b))) bitmask Hr Hm Hc ltac:(lia)) as (m' & E & Hm' & Hb).
  exists m'. split; [done|]. intros x Hx. rewrite !Bitmask.IsTrue_bits by done.
  destruct (bool_decide (x ∈ Bitmask.bits m')) eqn:E1.
  - apply bool_decide_eq_true, Hb in E1 as [Hin Hn]. rewrite bool_decide_eq_true_2 by done. cbn [andb].
    destruct (Z.leb_spec (block_row_count_ b) x); [done|]. destruct (row_visible s query_ts x); [done|]. exfalso. apply Hn. lia.
  - apply bool_decide_eq_false in E1. rewrite Hb in E1. symmetry. apply andb_false_iff.
    destruct (bool_decide (x ∈ Bitmask.bits bitmask)) eqn:E2; [right|by left]. apply bool_decide_eq_true in E2.
    destruct (Z.leb_spec (block_row_count_ b) x); destruct (row_visible s query_ts x) eqn:E3; try done;
      exfalso; apply E1; (split; [done|]); intros [? ?]; (lia || congruence).
Qed.

Definition demo_state : block :=
  mkBlock [mkRow 10 None; mkRow 10 (Some 20); mkRow 10 None; mkRow 30 None; mkRow 30 None] 8187 3 30.

Lemma delete_bitmask_keeps_visible_rows_witness :
  exists b bitmask', exec_all demo_history (NewBlockEntry 0 0 [0]) = Ok b /\
    SetDeleteBitmask b 20 (S (Z.to_nat (block_row_count_ b))) (Bitmask.make (R := gset Z) 8) = Some (Ok bitmask') /\
    map (fun x => Bitmask.IsTrue x bitmask') [0; 1; 2; 3; 4; 5] = [true; false; true; false; false; true].
Proof.
  pose proof demo_changes_ok as Hh. assert (Es : apply_all demo_history new_block = Some demo_state) by reflexivity.
  pose proof (history_refines demo_history _ _ (new_refines 0 0 [0]) Hh) as H1. rewrite Es in H1.
  destruct H1 as (b & Eb & Hr). pose proof (rf_count _ _ Hr) as Hn. cbn in Hn. exists b.
  destruct (delete_bitmask_keeps_visible_rows (R := gset Z) 0 0 [0] demo_history demo_state b 20 (Bitmask.make 8) Hh
    Es Eb) as (bitmask' & E & Hx).
  - apply Bitmask.new_bitmask_ok. unfold unsigned_range. lia.
  - rewrite Hn. discriminate.
  - exists bitmask'. split_and!; [exact Eb|exact E|]. clear E Eb Hr. rewrite Hn in Hx. cbn [map].
    rewrite !Hx by lia. reflexivity.
Defined.
