(* ===== verification/BlockFlush.v ===== *)
(** * Checkpoints of a block

    A checkpoint at [ts] saves the version of a block and asks every column to write the rows it
    gained since the checkpoint before, up to the rows visible at [ts]. *)
From S2P Require Import Prelude Serialize FileWorker BlockVersion Bitmask BlockEntry BlockHistory.
Import BlockEntry.

(** ** Histories with checkpoints *)
Inductive event :=
| Changed (c : change)
| Flushed (checkpoint_ts : Z).

(** A run keeps the block and the requests of its checkpoints. *)
Definition exec_event (e : event) (st : BlockEntry * list request) : res (BlockEntry * list request) :=
  let (b, requests) := st in
  match e with
  | Changed c => let? b := exec c b in Ok (b, requests)
  | Flushed ts => let? (b, more) := Flush ts b in Ok (b, requests ++ more)
  end.
Fixpoint exec_events (es : list event) (st : BlockEntry * list request) : res (BlockEntry * list request) :=
  match es with
  | [] => Ok st
  | e :: es => let? st := exec_event e st in exec_events es st
  end.

(** The abstract block with the timestamp of the last checkpoint and the rows written by it. *)
Record disk_block := mkDiskBlock { memory : block; committed : Z; last_checkpoint : Z; written : Z }.

Definition commit_of (c : change) : Z :=
  match c with Appends _ ts _ _ | Deletes _ ts _ | Commits _ ts => ts end.

Definition rows_up_to (s : block) (ts : Z) : Z := Z.of_nat (length (filter (fun r => born r <= ts) (rows s))).

(** A checkpoint writes the rows of a block that was committed, when rows were appended since the
    last checkpoint that wrote some. *)
Definition apply_event (e : event) (d : disk_block) : option disk_block :=
  match e with
  | Changed c =>
      match apply_change c (memory d) with
      | Some s =>
          let committed := match c with
                           | Commits _ ts => if committed d =? UNCOMMIT_TS then ts else committed d
                           | _ => committed d
                           end in
          Some (mkDiskBlock s committed (last_checkpoint d) (written d))
      | None => None
      end
  | Flushed ts =>
      if ts <? committed d then Some d
      else Some (mkDiskBlock (memory d) (committed d) ts (rows_up_to (memory d) ts))
  end.

(** Commits come after the checkpoints before them. *)
Definition event_ok (e : event) (d : disk_block) : Prop :=
  match e with
  | Changed c => change_ok c (memory d) /\ last_checkpoint d < commit_of c
  | Flushed ts => last_checkpoint d <= ts < UNCOMMIT_TS
  end.
Fixpoint events_ok (es : list event) (d : disk_block) : Prop :=
  match es with
  | [] => True
  | e :: es => event_ok e d /\ match apply_event e d with Some d => events_ok es d | None => True end
  end.
Fixpoint apply_events (es : list event) (d : disk_block) : option disk_block :=
  match es with
  | [] => Some d
  | e :: es => match apply_event e d with Some d => apply_events es d | None => None end
  end.

(** The row ranges a column was asked to write, and ranges that follow each other from [from] to [stop]. *)
Definition column_writes (column_id : Z) (requests : list request) : list (Z * Z) :=
  omap (fun r => match r with
                 | FlushColumn c start stop => if c =? column_id then Some (start, stop) else None
                 | _ => None
                 end) requests.
Fixpoint consecutive (from : Z) (l : list (Z * Z)) (stop : Z) : Prop :=
  match l with
  | [] => from = stop
  | (x, y) :: l => from = x /\ x <= y /\ consecutive y l stop
  end.

Lemma consecutive_app from l1 mid l2 stop :
  consecutive from l1 mid -> consecutive mid l2 stop -> consecutive from (l1 ++ l2) stop.
Proof.
  revert from. induction l1 as [|[x y] l1 IH]; intros from; cbn; [by intros ->|].
  intros (-> & Hxy & H1) H2. split_and!; [done..|]. by apply IH.
Qed.

Lemma column_writes_app c l1 l2 : column_writes c (l1 ++ l2) = column_writes c l1 ++ column_writes c l2.
Proof. apply omap_app. Qed.

(** ** The invariant *)
Record on_disk (columns : list Z) (st : BlockEntry * list request) (d : disk_block) : Prop := {
  od_columns : columns_ st.1 = columns;
  od_refines : refines st.1 (memory d);
  od_commit : commit_ts_ st.1 = committed d;
  od_rows : checkpoint_row_count_ st.1 = written d /\ written d = rows_up_to (memory d) (last_checkpoint d);
  od_order : 0 <= checkpoint_ts_ st.1 <= last_checkpoint d;
  od_seen : rows_up_to (memory d) (checkpoint_ts_ st.1) = written d;
  od_writes c : c ∈ columns -> consecutive 0 (column_writes c st.2) (written d);
}.

Section flushes.
Context (columns : list Z) (columns_distinct : NoDup columns).
Implicit Types (b : BlockEntry) (s : block) (d : disk_block) (rs : list request).

(** What a change leaves alone. *)
Lemma change_frame c b b' x : exec c b = Ok b' -> x < commit_of c ->
  rows_at (created_ (version_ b')) x = rows_at (created_ (version_ b)) x /\
  checkpoint_ts_ b' = checkpoint_ts_ b /\ checkpoint_row_count_ b' = checkpoint_row_count_ b /\
  columns_ b' = columns_ b /\
  commit_ts_ b' = match c with
                  | Commits _ ts => if commit_ts_ b =? UNCOMMIT_TS then ts else commit_ts_ b
                  | _ => commit_ts_ b
                  end.
Proof.
  destruct c as [t ts o n|t ts os|t ts]; cbn [exec commit_of]; unfold AppendData, DeleteData, CommitBlock, Committed;
    cbv zeta; intros E Hx.
  - destruct ((using_txn_id_ b =? 0) || _); [|discriminate E]. destruct (negb ((ts <? min_row_ts_ b) || _)); [|discriminate E].
    cbn in E. injection E as <-. cbn -[rows_at]. rewrite rows_at_snoc. cbn -[rows_at].
    rewrite (proj2 (Z.leb_gt ts x)) by done. done.
  - destruct (_ || _); [|discriminate E]. cbn in E.
    destruct (delete_rows ts os (version_ b)) as [v|] eqn:Ev; [|discriminate E]. cbn in E.
    destruct (negb _); [|discriminate E]. injection E as <-. cbn. split; [|done]. f_equal.
    clear Hx. revert Ev. generalize (version_ b). induction os as [|i os IH]; intros v0 Ev; cbn in Ev; [by injection Ev as ->|].
    destruct (BlockVersion.Delete i ts v0) as [v1|] eqn:E1; [|discriminate Ev]. cbn in Ev. rewrite (IH _ Ev).
    unfold BlockVersion.Delete in E1. destruct (deleted_ v0 !! _); [|discriminate E1].
    destruct (_ =? 0); [|discriminate E1]. by injection E1 as <-.
  - destruct (_ || _); [|discriminate E]. destruct (negb (max_row_ts_ b <? _)); [|discriminate E].
    destruct (commit_ts_ b =? UNCOMMIT_TS) eqn:Ec; cbn in E; injection E as <-; done.
Qed.

Lemma rows_up_to_at b s ts : refines b s -> rows_up_to s ts = rows_at (created_ (version_ b)) ts.
Proof. intros Hr. symmetry. by apply rows_born. Qed.

Lemma rows_up_to_mono s ts ts' : ts <= ts' -> rows_up_to s ts <= rows_up_to s ts'.
Proof.
  intros Hts. unfold rows_up_to. induction (rows s) as [|r l IH]; [done|].
  rewrite !filter_cons. destruct (decide (born r <= ts)), (decide (born r <= ts')); cbn [length]; lia.
Qed.

Lemma change_on_disk c st d : on_disk columns st d -> event_ok (Changed c) d ->
  match apply_event (Changed c) d with
  | Some d' => exists st', exec_event (Changed c) st = Ok st' /\ on_disk columns st' d'
  | None => exec_event (Changed c) st = Err Unrecoverable
  end.
Proof.
  destruct st as [b rs]. intros [Hcols Hr Hc [Hn Hw] Ho Hs Hcol] [Hok Hlt]. cbn in *.
  pose proof (change_refines c b _ Hr Hok) as H1. destruct (apply_change c (memory d)) as [s'|]; [|by rewrite H1].
  destruct H1 as (b' & E & Hr'). rewrite E. eexists. split; [reflexivity|].
  destruct (change_frame c b b' (last_checkpoint d) E Hlt) as (F1 & F2 & F3 & F4 & F5).
  destruct (change_frame c b b' (checkpoint_ts_ b) E ltac:(lia)) as (F6 & _).
  rewrite (rows_up_to_at b) in Hw, Hs by done.
  split; cbn; rewrite ?F2, ?F3, ?F4; try done.
  - rewrite F5, Hc. done.
  - rewrite (rows_up_to_at b') by done. rewrite F1. done.
  - rewrite (rows_up_to_at b') by done. rewrite F6. done.
Qed.

Lemma column_writes_flush c start stop l : c ∈ l -> NoDup l ->
  column_writes c (map (fun c => FlushColumn c start stop) l) = [(start, stop)].
Proof.
  intros Hc. induction 1 as [|a l Ha Hl IH]; [by apply elem_of_nil in Hc|]. cbn.
  destruct (Z.eqb_spec a c) as [->|Hne].
  - f_equal. clear IH Hc Hl. induction l as [|a l IH]; [done|]. cbn. apply not_elem_of_cons in Ha as [Hac Ha].
    rewrite (proj2 (Z.eqb_neq a c)) by done. by apply IH.
  - apply IH. apply elem_of_cons in Hc as [|]; [congruence|done].
Qed.

Lemma column_writes_mmap c l : column_writes c (map ToMmap l) = [].
Proof. by induction l. Qed.

Lemma flush_on_disk ts st d : on_disk columns st d -> event_ok (Flushed ts) d ->
  match apply_event (Flushed ts) d with
  | Some d' => exists st', exec_event (Flushed ts) st = Ok st' /\ on_disk columns st' d'
  | None => exec_event (Flushed ts) st = Err Unrecoverable
  end.
Proof.
  destruct st as [b rs]. intros Hd [Hle Hmax]. pose proof Hd as [Hcols Hr Hc [Hn Hw] Ho Hs Hcol]. cbn -[rows_up_to] in *.
  unfold Flush, FlushVersionNoLock, CheckFlush. rewrite (proj2 (Z.ltb_ge ts (checkpoint_ts_ b))) by lia.
  rewrite Hc. cbn [negb andb]. destruct (ts <? committed d).
  { cbn. eexists. split; [reflexivity|]. by rewrite app_nil_r. }
  pose proof (row_bounds b _ ts Hr) as [Hb Hb']. rewrite (row_count_at b (memory d)) by done.
  rewrite !wrap_id by (rewrite ?wrap_id; unfold unsigned_range; lia). rewrite <- (rows_up_to_at b (memory d)) by done.
  assert (Hold : forall c more, column_writes c more = [] -> c ∈ columns ->
            consecutive 0 (column_writes c (rs ++ more)) (written d)).
  { intros c more E Hin. rewrite column_writes_app, E, app_nil_r. by apply Hcol. }
  destruct (Z.ltb_spec (checkpoint_ts_ b) (min_row_ts_ b)) as [Hf|Hf]; cbn [res_bind].
  - eexists. split; [reflexivity|].
    pose proof (rows_up_to_mono (memory d) (last_checkpoint d) ts Hle).
    split; cbn -[rows_up_to TryToMmap column_writes FlushDataNoLock]; try done; try lia.
    + destruct Hr. split; done.
    + intros c Hin. rewrite !column_writes_app. eapply consecutive_app; [by apply Hcol|].
      unfold FlushDataNoLock. rewrite Hcols, column_writes_flush by done.
      replace (column_writes c (if _ : bool then _ else _)) with (@nil (Z * Z)) by (now destruct (checkpoint_ts_ b <? max_row_ts_ b)).
      replace (column_writes c (snd (TryToMmap _))) with (@nil (Z * Z)); [cbn -[rows_up_to]; split_and!; lia|].
      unfold TryToMmap. destruct (_ <? _); cbn [snd]; [done|]. by rewrite column_writes_mmap.
  - eexists. split; [reflexivity|].
    assert (E : rows_up_to (memory d) ts = written d).
    { rewrite <- Hs, !(rows_up_to_at b) by done. pose proof (rf_latest _ _ Hr) as Hl.
      apply rows_at_all; (eapply Forall_impl; [exact Hl|]); cbn; lia. }
    rewrite E. split; cbn -[rows_up_to]; try done; try lia.
    intros c. apply Hold. now destruct (checkpoint_ts_ b <? max_row_ts_ b).
Qed.

Lemma events_on_disk es st d : on_disk columns st d -> events_ok es d ->
  match apply_events es d with
  | Some d' => exists st', exec_events es st = Ok st' /\ on_disk columns st' d'
  | None => exec_events es st = Err Unrecoverable
  end.
Proof.
  revert st d. induction es as [|e es IH]; intros st d Hd Hok; cbn [apply_events exec_events]; [by exists st|].
  destruct Hok as [He Hok].
  assert (H1 : match apply_event e d with
               | Some d' => exists st', exec_event e st = Ok st' /\ on_disk columns st' d'
               | None => exec_event e st = Err Unrecoverable
               end) by (destruct e; [by apply change_on_disk|by apply flush_on_disk]).
  destruct (apply_event e d) as [d'|]; [|by rewrite H1].
  destruct H1 as (st' & -> & Hd'). by apply IH.
Qed.

Definition new_disk_block : disk_block := mkDiskBlock new_block UNCOMMIT_TS 0 0.

Lemma new_on_disk block_id : on_disk columns (NewBlockEntry block_id 0 columns, []) new_disk_block.
Proof. split; try done. apply new_refines. Qed.

(** C22. For every sequence of changes of a new block and of checkpoints, where commits come after
    the checkpoints before them, the ranges of rows that a column was asked to write follow each
    other without gap or overlap from row 0, and end at the number of rows that the last
    checkpoint after the commit of the block may see; [checkpoint_row_count_] is that number. *)
Theorem checkpoints_write_each_row_once block_id (es : list event) :
  events_ok es new_disk_block ->
  match apply_events es new_disk_block with
  | None => exec_events es (NewBlockEntry block_id 0 columns, []) = Err Unrecoverable
  | Some d =>
      exists b requests, exec_events es (NewBlockEntry block_id 0 columns, []) = Ok (b, requests) /\
        checkpoint_row_count_ b = rows_up_to (memory d) (last_checkpoint d) /\
        forall c, c ∈ columns ->
          consecutive 0 (column_writes c requests) (checkpoint_row_count_ b)
  end.
Proof.
  intros Hok. pose proof (events_on_disk es _ _ (new_on_disk block_id) Hok) as H1.
  destruct (apply_events es new_disk_block) as [d|]; [|done].
  destruct H1 as ([b rs] & E & [_ _ _ [Hn Hw] _ _ Hcol]). exists b, rs. cbn -[rows_up_to] in *.
  rewrite Hn. by split_and!.
Qed.
End flushes.

Definition demo_events : list event :=
  [Changed (Appends 1 10 0 3); Flushed 9; Changed (Commits 1 10); Flushed 15; Changed (Appends 2 20 0 4);
   Changed (Commits 2 20); Changed (Appends 3 30 0 1); Flushed 25].
Definition demo_disk : disk_block :=
  mkDiskBlock (mkBlock (replicate 3 (mkRow 10 None) ++ replicate 4 (mkRow 20 None) ++ [mkRow 30 None]) 8184 3 30) 10 25 7.

Lemma checkpoints_write_each_row_once_witness :
  exists b requests, exec_events demo_events (NewBlockEntry 0 0 [5; 7], []) = Ok (b, requests) /\
    checkpoint_row_count_ b = 7 /\ consecutive 0 (column_writes 7 requests) 7.
Proof.
  assert (Hok : events_ok demo_events new_disk_block).
  { cbn. unfold commit_time, unsigned_range, UNCOMMIT_TS. repeat first [split|constructor]; cbn; try lia; try done. }
  pose proof (checkpoints_write_each_row_once [5; 7] ltac:(repeat constructor; set_solver) 0 demo_events Hok) as H.
  assert (E : apply_events demo_events new_disk_block = Some demo_disk) by reflexivity.
  rewrite E in H. destruct H as (b & requests & Hb & Hn & Hc). exists b, requests.
  change (rows_up_to (memory demo_disk) (last_checkpoint demo_disk)) with 7 in Hn. rewrite Hn in Hc.
  split_and!; [exact Hb|exact Hn|]. apply Hc. right. left.
Defined.
