(* ===== verification/SegmentEntry.v ===== *)
(** * Segments: [src/src/storage/meta/entry/segment_entry.cpp]

    A segment is a list of blocks that are filled one after the other, so that a row is known by
    its offset in the segment: the number of its block times the capacity of a block plus its
    offset in the block. The status of a segment decides who may write it: appends go to unsealed
    segments only, a sealed segment can be compacted, and a segment whose compaction is about to
    commit takes no more deletes.

    The calls to other components (the store of the transaction, the state of a running
    compaction) are [request]s. [block_entries_] has no null pointers: the replay functions that
    may leave gaps are left out, and so are the rough filter, the directories and the JSON form. *)
From stdpp Require Import sorting.
From S2P Require Import Prelude Serialize FileWorker BlockVersion Bitmask BlockEntry.
Import BlockEntry(BlockEntry, DEFAULT_BLOCK_CAPACITY, BLOCK_OFFSET_SHIFT).

Module SegmentEntry.
Inductive SegmentStatus := kUnsealed | kSealed | kCompacting | kNoDelete | kDeprecated.

#[export] Instance SegmentStatus_eq_dec : EqDecision SegmentStatus.
Proof. solve_decision. Defined.

Record SegmentEntry := mkSegmentEntry {
  segment_id_ : Z;
  row_capacity_ : Z;
  columns_ : list Z; (* the column ids of the table, [column_count_] of them *)
  row_count_ : Z;
  actual_row_count_ : Z;
  min_row_ts_ : Z;
  max_row_ts_ : Z;
  first_delete_ts_ : Z;
  deprecate_ts_ : Z;
  commit_ts_ : Z;
  block_entries_ : list BlockEntry;
  compact_state_data_ : option Z; (* which compaction *)
  status_ : SegmentStatus;
  delete_txns_ : gset Z;
}.

Inductive request :=
| AddBlockStore (block_id : Z)
| AddToDelete (compact_state_data commit_ts segment_id : Z) (segment_offsets : list Z)
| CommitColumn (column_id txn_id commit_ts : Z)
| CleanupBlock (block_id : Z)
| BlockRequest (block_id : Z) (r : BlockEntry.request).

Definition DEFAULT_SEGMENT_CAPACITY : Z := 1024 * 8192.

Definition NewSegmentEntry (segment_id : Z) (columns : list Z) : SegmentEntry :=
  mkSegmentEntry segment_id DEFAULT_SEGMENT_CAPACITY columns 0 0 UNCOMMIT_TS 0 UNCOMMIT_TS UNCOMMIT_TS UNCOMMIT_TS []
    None kUnsealed ∅.

Definition NewReplaySegmentEntry (segment_id : Z) (status : SegmentStatus) (columns : list Z)
    (row_count actual_row_count row_capacity min_row_ts max_row_ts commit_ts first_delete_ts deprecate_ts : Z)
    : SegmentEntry :=
  mkSegmentEntry segment_id row_capacity columns row_count actual_row_count min_row_ts max_row_ts first_delete_ts
    deprecate_ts commit_ts [] None status ∅.

Section setters.
Implicit Types (sg : SegmentEntry).
Definition set_status (s : SegmentStatus) sg : SegmentEntry :=
  mkSegmentEntry (segment_id_ sg) (row_capacity_ sg) (columns_ sg) (row_count_ sg) (actual_row_count_ sg) (min_row_ts_ sg)
    (max_row_ts_ sg) (first_delete_ts_ sg) (deprecate_ts_ sg) (commit_ts_ sg) (block_entries_ sg) (compact_state_data_ sg) s
    (delete_txns_ sg).
Definition set_blocks (l : list BlockEntry) sg : SegmentEntry :=
  mkSegmentEntry (segment_id_ sg) (row_capacity_ sg) (columns_ sg) (row_count_ sg) (actual_row_count_ sg) (min_row_ts_ sg)
    (max_row_ts_ sg) (first_delete_ts_ sg) (deprecate_ts_ sg) (commit_ts_ sg) l (compact_state_data_ sg) (status_ sg)
    (delete_txns_ sg).
Definition set_rows (n actual : Z) sg : SegmentEntry :=
  mkSegmentEntry (segment_id_ sg) (row_capacity_ sg) (columns_ sg) n actual (min_row_ts_ sg)
    (max_row_ts_ sg) (first_delete_ts_ sg) (deprecate_ts_ sg) (commit_ts_ sg) (block_entries_ sg) (compact_state_data_ sg)
    (status_ sg) (delete_txns_ sg).
Definition set_compact (c : option Z) sg : SegmentEntry :=
  mkSegmentEntry (segment_id_ sg) (row_capacity_ sg) (columns_ sg) (row_count_ sg) (actual_row_count_ sg) (min_row_ts_ sg)
    (max_row_ts_ sg) (first_delete_ts_ sg) (deprecate_ts_ sg) (commit_ts_ sg) (block_entries_ sg) c (status_ sg)
    (delete_txns_ sg).
Definition set_deprecate_ts (ts : Z) sg : SegmentEntry :=
  mkSegmentEntry (segment_id_ sg) (row_capacity_ sg) (columns_ sg) (row_count_ sg) (actual_row_count_ sg) (min_row_ts_ sg)
    (max_row_ts_ sg) (first_delete_ts_ sg) ts (commit_ts_ sg) (block_entries_ sg) (compact_state_data_ sg) (status_ sg)
    (delete_txns_ sg).
Definition set_delete_txns (t : gset Z) sg : SegmentEntry :=
  mkSegmentEntry (segment_id_ sg) (row_capacity_ sg) (columns_ sg) (row_count_ sg) (actual_row_count_ sg) (min_row_ts_ sg)
    (max_row_ts_ sg) (first_delete_ts_ sg) (deprecate_ts_ sg) (commit_ts_ sg) (block_entries_ sg) (compact_state_data_ sg)
    (status_ sg) t.
Definition set_times (min_ts max_ts first_delete commit : Z) sg : SegmentEntry :=
  mkSegmentEntry (segment_id_ sg) (row_capacity_ sg) (columns_ sg) (row_count_ sg) (actual_row_count_ sg) min_ts
    max_ts first_delete (deprecate_ts_ sg) commit (block_entries_ sg) (compact_state_data_ sg) (status_ sg)
    (delete_txns_ sg).
End setters.

(** [UpdateSegmentReplay]; [first_delete_ts_] is not taken over. *)
Definition UpdateSegmentReplay (segment_entry sg : SegmentEntry) : SegmentEntry :=
  mkSegmentEntry (segment_id_ sg) (row_capacity_ sg) (columns_ sg) (row_count_ segment_entry)
    (actual_row_count_ segment_entry) (min_row_ts_ segment_entry) (max_row_ts_ segment_entry) (first_delete_ts_ sg)
    (deprecate_ts_ segment_entry) (commit_ts_ sg) (block_entries_ sg) (compact_state_data_ sg) (status_ segment_entry)
    (delete_txns_ sg).

(** ** The status *)
Section status.
Implicit Types (sg : SegmentEntry).

Definition SetSealed sg : bool * SegmentEntry :=
  match status_ sg with
  | kUnsealed => (true, set_status kSealed sg)
  | _ => (false, sg)
  end.

(** The pointer is null when a compaction is replayed from the log. *)
Definition TrySetCompacting (compact_state_data : option Z) sg : bool * SegmentEntry :=
  match status_ sg with
  | kSealed => (true, set_status kCompacting (set_compact compact_state_data sg))
  | _ => (false, sg)
  end.

Definition SetNoDelete sg : res (bool * SegmentEntry) :=
  match status_ sg with
  | kCompacting | kNoDelete =>
      let sg := set_status kNoDelete sg in
      if bool_decide (delete_txns_ sg = ∅) then Ok (true, set_compact None sg) else Ok (false, sg)
  | _ => Err Unrecoverable
  end.

Definition SetDeprecated (deprecate_ts : Z) sg : res SegmentEntry :=
  match status_ sg with
  | kNoDelete => Ok (set_deprecate_ts deprecate_ts (set_status kDeprecated sg))
  | _ => Err Unrecoverable
  end.

Definition RollbackCompact sg : res SegmentEntry :=
  match status_ sg with
  | kNoDelete => Ok (set_deprecate_ts UNCOMMIT_TS (set_status kSealed sg))
  | _ => Err Unrecoverable
  end.

Definition takes_deletes sg : bool := match status_ sg with kDeprecated | kNoDelete => false | _ => true end.

(** The segments are locked one after the other; either all of them take deletes and the
    transaction is registered in each, or none is changed. *)
Definition CheckDeleteConflict (segments : list SegmentEntry) (txn_id : Z) : bool * list SegmentEntry :=
  if forallb takes_deletes segments
  then (false, map (fun sg => set_delete_txns ({[txn_id]} ∪ delete_txns_ sg) sg) segments)
  else (true, segments).

Definition GetSaveStatus sg (ts : Z) : SegmentStatus :=
  match status_ sg with
  | kUnsealed | kSealed => status_ sg
  | kCompacting | kNoDelete => kSealed
  | kDeprecated => if deprecate_ts_ sg <=? ts then kDeprecated else kSealed
  end.

Definition CheckDeprecate sg (check_ts : Z) : bool :=
  bool_decide (status_ sg = kDeprecated) && (deprecate_ts_ sg <? check_ts).

Definition CheckAnyDelete sg (check_ts : Z) : bool := first_delete_ts_ sg <? check_ts.
End status.

(** ** Readers *)
Section readers.
Implicit Types (sg : SegmentEntry).

Definition GetBlockEntryByID (block_id : Z) sg : option BlockEntry := block_entries_ sg !! Z.to_nat block_id.

Definition CheckRowVisible sg (segment_offset check_ts : Z) (check_append : bool) : bool :=
  let block_id := u16 (segment_offset / DEFAULT_BLOCK_CAPACITY) in
  let block_offset := u16 (segment_offset mod DEFAULT_BLOCK_CAPACITY) in
  match GetBlockEntryByID block_id sg with
  | None => false
  | Some b => if check_ts <? BlockEntry.commit_ts_ b then false
              else BlockEntry.CheckRowVisible b block_offset check_ts check_append
  end.

(** The keys of [block_offsets_map], in the order of the map. *)
Definition block_of (segment_offset : Z) : Z := u16 (Z.shiftr segment_offset BLOCK_OFFSET_SHIFT).
Definition block_ids (segment_offsets : list Z) : list Z := merge_sort Z.le (remove_dups (map block_of segment_offsets)).

Definition CheckRowsVisible sg (segment_offsets : list Z) (check_ts : Z) : list Z :=
  if check_ts <=? first_delete_ts_ sg then segment_offsets
  else
    flat_map (fun block_id =>
      let block_offsets := filter (fun o => block_of o = block_id) segment_offsets in
      match GetBlockEntryByID block_id sg with
      | None => []
      | Some b => if check_ts <? BlockEntry.commit_ts_ b then []
                  else BlockEntry.CheckRowsVisible b block_offsets check_ts
      end) (block_ids segment_offsets).

Fixpoint clear_blocks {R : Type} `{Roaring R} (blocks : list BlockEntry) (check_ts : Z) (bitmask : Bitmask R)
    : res (Bitmask R) :=
  match blocks with
  | [] => Ok bitmask
  | b :: blocks =>
      let? bitmask := BlockEntry.CheckRowsVisible_bitmask b bitmask check_ts in clear_blocks blocks check_ts bitmask
  end.
Definition CheckRowsVisible_bitmask {R : Type} `{Roaring R} sg (segment_offsets : Bitmask R) (check_ts : Z)
    : res (Bitmask R) :=
  if check_ts <=? first_delete_ts_ sg then Ok segment_offsets
  else clear_blocks (block_entries_ sg) check_ts segment_offsets.

Definition row_count sg (check_ts : Z) : Z :=
  if bool_decide (status_ sg = kDeprecated) && (deprecate_ts_ sg <? check_ts) then 0
  else if bool_decide (status_ sg = kSealed) then row_count_ sg
  else foldl (fun n b => u64 (n + BlockEntry.row_count b check_ts)) 0 (block_entries_ sg).
End readers.

(** ** Appends: [AppendState], [AppendRange] of [data_access_state.cppm] *)
Record AppendRange := mkAppendRange { range_segment_id_ : Z; range_block_id_ : Z; start_offset_ : Z; range_row_count_ : Z }.

(** [blocks_] holds the row counts of the input blocks. *)
Record AppendState := mkAppendState {
  blocks_ : list Z;
  current_count_ : Z;
  current_block_ : Z;
  current_block_offset_ : Z;
  append_ranges_ : list AppendRange;
}.

Section appends.
Implicit Types (sg : SegmentEntry) (st : AppendState).

Definition IncreaseRowCount (n : Z) sg : SegmentEntry :=
  set_rows (u64 (row_count_ sg + n)) (u64 (actual_row_count_ sg + n)) sg.

Definition DecreaseRemainRow (n : Z) sg : res SegmentEntry :=
  check? negb (actual_row_count_ sg <? n) else Unrecoverable in
  Ok (set_rows (row_count_ sg) (u64 (actual_row_count_ sg - n)) sg).

(** A new block when there is none or the last one is full. *)
Definition last_block sg : SegmentEntry :=
  match last (block_entries_ sg) with
  | Some b => if 0 <? BlockEntry.GetAvailableCapacity b then sg
              else set_blocks (block_entries_ sg ++
                     [BlockEntry.NewBlockEntry (u16 (Z.of_nat (length (block_entries_ sg)))) 0 (columns_ sg)]) sg
  | None => set_blocks [BlockEntry.NewBlockEntry 0 0 (columns_ sg)] sg
  end.

Definition set_last (b : BlockEntry) (l : list BlockEntry) : list BlockEntry := <[pred (length l) := b]> l.

(** One turn of the inner loop: what is left to append and whether the segment is full. *)
Definition append_turn (txn_id commit_ts to_append_rows : Z) sg st
    : res (Z * bool * SegmentEntry * AppendState * list request) :=
  let sg := last_block sg in
  match last (block_entries_ sg) with
  | None => Err Undefined
  | Some b =>
      let? (actual_appended, b', requests) :=
        BlockEntry.AppendData txn_id commit_ts (current_block_offset_ st) to_append_rows b in
      check? negb (to_append_rows <? actual_appended) else Unrecoverable in
      let range := mkAppendRange (segment_id_ sg) (BlockEntry.block_id_ b) (BlockEntry.block_row_count_ b) actual_appended in
      let st := mkAppendState (blocks_ st) (u64 (current_count_ st + actual_appended)) (current_block_ st)
                  (u16 (current_block_offset_ st + actual_appended)) (append_ranges_ st ++ [range]) in
      let sg := IncreaseRowCount actual_appended (set_blocks (set_last b' (block_entries_ sg)) sg) in
      let left := u16 (to_append_rows - actual_appended) in
      if row_count_ sg =? row_capacity_ sg then
        Ok (left, true, sg, st, map (BlockRequest (BlockEntry.block_id_ b)) requests)
      else
        check? negb (row_capacity_ sg <? row_count_ sg) else Unrecoverable in
        Ok (left, false, sg, st, map (BlockRequest (BlockEntry.block_id_ b)) requests)
  end.

(** [while (to_append_rows > 0)]; the block of each turn is added to [mut_blocks] when it differs
    from the last one there. *)
Fixpoint append_rows_loop (fuel : nat) (txn_id commit_ts to_append_rows : Z) sg st (mut_blocks : list Z)
    : option (res (Z * SegmentEntry * AppendState * list Z * list request)) :=
  if to_append_rows =? 0 then Some (Ok (to_append_rows, sg, st, mut_blocks, []))
  else
    match fuel with
    | O => None
    | S fuel =>
        match append_turn txn_id commit_ts to_append_rows sg st with
        | Err e => Some (Err e)
        | Ok (left, full, sg, st, requests) =>
            let block_id := match last (append_ranges_ st) with Some r => range_block_id_ r | None => 0 end in
            let mut_blocks := if bool_decide (last mut_blocks = Some block_id) then mut_blocks else mut_blocks ++ [block_id] in
            if full then Some (Ok (left, sg, st, mut_blocks, requests))
            else
              match append_rows_loop fuel txn_id commit_ts left sg st mut_blocks with
              | Some (Ok (left, sg, st, mut_blocks, more)) => Some (Ok (left, sg, st, mut_blocks, requests ++ more))
              | r => r
              end
        end
    end.

Fixpoint append_blocks_loop (fuel : nat) (txn_id commit_ts : Z) sg st (mut_blocks : list Z)
    : option (res (SegmentEntry * AppendState * list Z * list request)) :=
  if (current_block_ st <? Z.of_nat (length (blocks_ st))) && (row_count_ sg <? row_capacity_ sg) then
    match fuel with
    | O => None
    | S fuel =>
        let input_rows := default 0 (blocks_ st !! Z.to_nat (current_block_ st)) in
        let to_append_rows := u16 (input_rows - current_block_offset_ st) in
        match append_rows_loop (Z.to_nat to_append_rows) txn_id commit_ts to_append_rows sg st mut_blocks with
        | None => None
        | Some (Err e) => Some (Err e)
        | Some (Ok (left, sg, st, mut_blocks, requests)) =>
            let st := if left =? 0
                      then mkAppendState (blocks_ st) (current_count_ st) (current_block_ st + 1) 0 (append_ranges_ st)
                      else st in
            match append_blocks_loop fuel txn_id commit_ts sg st mut_blocks with
            | Some (Ok (sg, st, mut_blocks, more)) => Some (Ok (sg, st, mut_blocks, requests ++ more))
            | r => r
            end
        end
    end
  else Some (Ok (sg, st, mut_blocks, [])).

(** The result is [total_copied], which the loops add up as [current_count_] does. *)
Definition AppendData (txn_id commit_ts : Z) sg st : option (res (Z * SegmentEntry * AppendState * list request)) :=
  if negb (bool_decide (status_ sg = kUnsealed)) then Some (Err Unrecoverable)
  else if row_capacity_ sg <=? row_count_ sg then Some (Err Unrecoverable)
  else
    match append_blocks_loop (S (length (blocks_ st))) txn_id commit_ts sg st [] with
    | None => None
    | Some (Err e) => Some (Err e)
    | Some (Ok (sg, st', mut_blocks, requests)) =>
        Some (Ok (u64 (current_count_ st' - current_count_ st), sg, st', requests ++ map AddBlockStore mut_blocks))
    end.

Definition AppendBlockEntry (b : BlockEntry) sg : SegmentEntry :=
  let sg := IncreaseRowCount (BlockEntry.block_row_count_ b) sg in
  set_blocks (block_entries_ sg ++ [b]) sg.
End appends.

(** ** Deletes, commits and rollbacks *)
Section commits.
Implicit Types (sg : SegmentEntry).

(** [block_row_hashmap] in the order of its iteration. [at] throws when there is no such block. *)
Fixpoint delete_blocks (txn_id commit_ts : Z) (block_row_hashmap : list (Z * list Z)) sg
    : res (Z * SegmentEntry * list request) :=
  match block_row_hashmap with
  | [] => Ok (0, sg, [])
  | (block_id, delete_rows) :: more =>
      match block_entries_ sg !! Z.to_nat block_id with
      | None => Err LengthErr
      | Some b =>
          let? (n, b') := BlockEntry.DeleteData txn_id commit_ts delete_rows b in
          check? negb (BlockEntry.row_capacity_ b' <? Z.of_nat (length delete_rows)) else Unrecoverable in
          let sg := set_blocks (<[Z.to_nat block_id := b']> (block_entries_ sg)) sg in
          let? (delete_row_n, sg, requests) := delete_blocks txn_id commit_ts more sg in
          Ok (u64 (n + delete_row_n), sg, AddBlockStore block_id :: requests)
      end
  end.

Definition DeleteData (txn_id commit_ts : Z) (block_row_hashmap : list (Z * list Z)) sg
    : res (Z * SegmentEntry * list request) :=
  let? (delete_row_n, sg, requests) := delete_blocks txn_id commit_ts block_row_hashmap sg in
  let? sg := DecreaseRemainRow delete_row_n sg in
  Ok (delete_row_n, sg, requests).

Definition CommitFlushed (commit_ts : Z) sg : SegmentEntry * list request :=
  let blocks := map (BlockEntry.CommitFlushed commit_ts) (block_entries_ sg) in
  (set_blocks (map fst blocks) sg,
   flat_map (fun '(b, rs) => map (BlockRequest (BlockEntry.block_id_ b)) rs) blocks).

(** The part of [CommitSegment] for the deletes of the transaction in this segment. *)
Definition commit_deletes (txn_id commit_ts : Z) (block_row_hashmap : list (Z * list Z)) sg
    : res (SegmentEntry * list request) :=
  let first := if bool_decide (block_row_hashmap <> []) && (first_delete_ts_ sg =? UNCOMMIT_TS)
               then commit_ts else first_delete_ts_ sg in
  let sg := set_times (min_row_ts_ sg) (max_row_ts_ sg) first (commit_ts_ sg) sg in
  let sg := set_delete_txns (delete_txns_ sg ∖ {[txn_id]}) sg in
  match compact_state_data_ sg with
  | None => Ok (sg, [])
  | Some data =>
      check? bool_decide (status_ sg = kCompacting \/ status_ sg = kNoDelete) else Unrecoverable in
      let segment_offsets := flat_map (fun '(block_id, block_offsets) =>
        map (fun o => u32 (block_id * DEFAULT_BLOCK_CAPACITY + o)) block_offsets) block_row_hashmap in
      Ok (sg, [AddToDelete data commit_ts (segment_id_ sg) segment_offsets])
  end.

(** [segment_store.block_entries_], by block id. *)
Fixpoint commit_blocks (txn_id commit_ts : Z) (store_blocks : list Z) (blocks : list BlockEntry)
    : res (list BlockEntry * list request) :=
  match store_blocks with
  | [] => Ok (blocks, [])
  | block_id :: more =>
      match blocks !! Z.to_nat block_id with
      | None => Err Undefined
      | Some b =>
          let? (b', rs) := BlockEntry.CommitBlock txn_id commit_ts b in
          let? (blocks, requests) := commit_blocks txn_id commit_ts more (<[Z.to_nat block_id := b']> blocks) in
          Ok (blocks, map (BlockRequest block_id) rs ++ requests)
      end
  end.

Definition CommitSegment (txn_id commit_ts : Z) (store_blocks store_columns : list Z)
    (deletes : option (list (Z * list Z))) sg : res (SegmentEntry * list request) :=
  if bool_decide (status_ sg = kDeprecated) then Ok (sg, [])
  else
    let? (sg, to_delete) := match deletes with
                            | None => Ok (sg, [])
                            | Some block_row_hashmap => commit_deletes txn_id commit_ts block_row_hashmap sg
                            end in
    check? negb (commit_ts <? max_row_ts_ sg) else Unrecoverable in
    let commit := if commit_ts_ sg =? UNCOMMIT_TS then commit_ts else commit_ts_ sg in
    let sg := set_times (Z.min (min_row_ts_ sg) commit_ts) commit_ts (first_delete_ts_ sg) commit sg in
    let? (blocks, requests) := commit_blocks txn_id commit_ts store_blocks (block_entries_ sg) in
    Ok (set_blocks blocks sg,
        to_delete ++ requests ++ map (fun c => CommitColumn c txn_id commit_ts) store_columns).

(** The blocks of the transaction, the last ones first; the ones that were not committed go. *)
Fixpoint rollback_loop (rollback_blocks : list Z) (blocks : list BlockEntry) : res (list BlockEntry * list request) :=
  match rollback_blocks with
  | [] => Ok (blocks, [])
  | block_id :: more =>
      match blocks !! Z.to_nat block_id with
      | None => Err Undefined
      | Some b =>
          if BlockEntry.Committed b then rollback_loop more blocks
          else
            check? bool_decide ((BlockEntry.block_id_ <$> last blocks) = Some (BlockEntry.block_id_ b)) else Unrecoverable in
            let? (blocks, requests) := rollback_loop more (take (pred (length blocks)) blocks) in
            Ok (blocks, CleanupBlock (BlockEntry.block_id_ b) :: requests)
      end
  end.
Definition RollbackBlocks (store_blocks : list Z) sg : res (SegmentEntry * list request) :=
  let? (blocks, requests) := rollback_loop (merge_sort Z.ge store_blocks) (block_entries_ sg) in
  Ok (set_blocks blocks sg, requests).
End commits.
End SegmentEntry.
