(* ===== verification/SegmentHistory.v ===== *)
(** * The rows of a segment

    The abstract segment is the list of the rows of its blocks, one after the other: the row at
    offset [8192 * i + o] is row [o] of block [i]. *)
From stdpp Require Import sorting.
From S2P Require Import Prelude Serialize FileWorker BlockVersion Bitmask BlockEntry BlockHistory BlockFlush SegmentEntry.
Import BlockEntry(BlockEntry, DEFAULT_BLOCK_CAPACITY, block_row_count_, GetAvailableCapacity, block_id_).
Import SegmentEntry.

Definition seg_rows (ss : list block) : list row := concat (map rows ss).

(** Every block but the last is full. *)
Fixpoint full_but_last (ss : list block) : Prop :=
  match ss with
  | [] => True
  | s :: ss => (ss = [] \/ room s = 0) /\ full_but_last ss
  end.

Definition block_fits (b : BlockEntry) (s : block) : Prop :=
  refines b s /\ BlockEntry.row_capacity_ b = DEFAULT_BLOCK_CAPACITY.

(** The live rows. *)
Definition live_rows (rs : list row) : Z := Z.of_nat (length (filter (fun r => died r = None) rs)).

Record seg_ok (sg : SegmentEntry) (ss : list block) : Prop := {
  so_blocks : Forall2 block_fits (block_entries_ sg) ss;
  so_ids i b : block_entries_ sg !! i = Some b -> block_id_ b = Z.of_nat i;
  so_full : full_but_last ss;
  so_count : row_count_ sg = Z.of_nat (length (seg_rows ss));
  so_live : actual_row_count_ sg = live_rows (seg_rows ss);
  so_capacity : exists k, row_capacity_ sg = DEFAULT_BLOCK_CAPACITY * k /\ 0 <= k <= 1024;
  so_bound : row_count_ sg <= row_capacity_ sg;
}.

Section rows.
Implicit Types (sg : SegmentEntry) (ss : list block) (s : block) (b : BlockEntry).

Lemma full_but_last_snoc ss s : full_but_last (ss ++ [s]) <-> Forall (fun s => room s = 0) ss.
Proof.
  induction ss as [|s0 ss IH]; cbn; [split; auto|]. rewrite IH, Forall_cons. split.
  - intros [[E|E] H]; [destruct ss; discriminate E|done].
  - intros [E H]. auto.
Qed.

Lemma seg_rows_snoc ss s : seg_rows (ss ++ [s]) = seg_rows ss ++ rows s.
Proof. unfold seg_rows. rewrite map_app, concat_app. cbn. by rewrite app_nil_r. Qed.

Lemma fits_length b s : block_fits b s ->
  Z.of_nat (length (rows s)) = DEFAULT_BLOCK_CAPACITY - room s /\ 0 <= room s /\ GetAvailableCapacity b = room s.
Proof.
  intros [Hr Hc]. pose proof (rf_count _ _ Hr). destruct (rf_room _ _ Hr) as [H0 H1]. unfold GetAvailableCapacity. lia.
Qed.

Lemma full_length bs ss : Forall2 block_fits bs ss -> Forall (fun s => room s = 0) ss ->
  Z.of_nat (length (seg_rows ss)) = DEFAULT_BLOCK_CAPACITY * Z.of_nat (length bs).
Proof.
  induction 1 as [|b s bs ss Hf Hbs IH]; intros Hr; [done|]. apply Forall_cons_1 in Hr as [Hs Hr].
  destruct (fits_length _ _ Hf) as (E & _ & _). specialize (IH Hr). unfold seg_rows in *. cbn [map concat length].
  rewrite length_app. lia.
Qed.

Lemma blocks_snoc bs ss b : Forall2 block_fits (bs ++ [b]) ss ->
  exists ss' s, ss = ss' ++ [s] /\ Forall2 block_fits bs ss' /\ block_fits b s.
Proof.
  intros H. apply Forall2_app_inv_l in H as (ss' & l & H1 & H2 & ->).
  inversion H2 as [|? s ? ? Hb Hl]; subst. inversion Hl; subst. by exists ss', s.
Qed.

(** The rows of a segment, by block and by offset. *)
Lemma seg_rows_lookup bs ss i o s : Forall2 block_fits bs ss -> full_but_last ss -> ss !! i = Some s ->
  0 <= o < DEFAULT_BLOCK_CAPACITY ->
  seg_rows ss !! Z.to_nat (DEFAULT_BLOCK_CAPACITY * Z.of_nat i + o) = rows s !! Z.to_nat o.
Proof.
  intros H. revert i. induction H as [|b s0 bs ss Hf Hbs IH]; intros i Hfull Hs Ho; [done|].
  destruct (fits_length _ _ Hf) as (E & H0 & _). unfold seg_rows in *. cbn [map concat]. destruct Hfull as [Hl Hfull].
  destruct i as [|i]; cbn in Hs.
  - injection Hs as <-. rewrite Z.mul_0_r, Z.add_0_l.
    destruct (Nat.lt_ge_cases (Z.to_nat o) (length (rows s0))); [by rewrite lookup_app_l|].
    destruct Hl as [-> | Hl]; [cbn; by rewrite app_nil_r|]. lia.
  - destruct Hl as [-> | Hl]; [done|]. rewrite lookup_app_r by lia. rewrite <- (IH i) by done.
    f_equal. lia.
Qed.

Lemma seg_rows_lookup_ge ss bs i o : Forall2 block_fits bs ss -> 0 <= o -> ss !! i = None ->
  seg_rows ss !! Z.to_nat (DEFAULT_BLOCK_CAPACITY * Z.of_nat i + o) = None.
Proof.
  intros H Ho Hs. apply lookup_ge_None in Hs. apply lookup_ge_None.
  assert (Hl : Z.of_nat (length (seg_rows ss)) <= DEFAULT_BLOCK_CAPACITY * Z.of_nat (length ss)).
  { clear Hs. induction H as [|b s bs ss Hf Hbs IH]; [done|]. destruct (fits_length _ _ Hf) as (E & H0 & _).
    unfold seg_rows in *. cbn [map concat length]. rewrite length_app. lia. }
  unfold DEFAULT_BLOCK_CAPACITY in *. lia.
Qed.
End rows.

(** ** Appends *)
Definition writable (txn_id ts : Z) (ss : list block) : Prop :=
  forall s, last ss = Some s -> may_write s txn_id = true /\ newest s <= ts.

(** What [AppendData] leaves alone. *)
Definition same_segment (sg sg' : SegmentEntry) : Prop :=
  segment_id_ sg' = segment_id_ sg /\ row_capacity_ sg' = row_capacity_ sg /\ columns_ sg' = columns_ sg /\
  status_ sg' = status_ sg /\ first_delete_ts_ sg' = first_delete_ts_ sg.

Section append.
Implicit Types (sg : SegmentEntry) (ss : list block) (s : block) (b : BlockEntry) (st : AppendState).
Context (txn_id ts : Z) (Hts : commit_time ts).

Lemma ids_snoc (bs : list BlockEntry) b :
  (forall i c, bs !! i = Some c -> block_id_ c = Z.of_nat i) -> block_id_ b = Z.of_nat (length bs) ->
  forall i c, (bs ++ [b]) !! i = Some c -> block_id_ c = Z.of_nat i.
Proof. intros H Hb i c [[_ Hi]|[-> <-]]%lookup_snoc_Some; auto. Qed.

Lemma new_fits block_id cols : block_fits (BlockEntry.NewBlockEntry block_id 0 cols) new_block.
Proof. split; [apply new_refines|done]. Qed.

(** The segment has a last block with room. *)
Lemma last_block_ok sg ss : seg_ok sg ss -> row_count_ sg < row_capacity_ sg -> writable txn_id ts ss ->
  exists bs b ss' s, block_entries_ (last_block sg) = bs ++ [b] /\ seg_ok (last_block sg) (ss' ++ [s]) /\
    seg_rows (ss' ++ [s]) = seg_rows ss /\ Forall2 block_fits bs ss' /\ block_fits b s /\ 0 < room s /\
    may_write s txn_id = true /\ newest s <= ts /\ same_segment sg (last_block sg) /\
    row_count_ (last_block sg) = row_count_ sg.
Proof.
  intros Hok Hroom Hw. pose proof Hok as [Hbs Hids Hfull Hcount Hlive (k & Hk & Hk') Hbound].
  unfold last_block, commit_time in *.
  assert (Hnew : forall id, Forall (fun s => room s = 0) ss -> id = Z.of_nat (length (block_entries_ sg)) ->
    let sg' := set_blocks (block_entries_ sg ++ [BlockEntry.NewBlockEntry id 0 (columns_ sg)]) sg in
    exists bs b ss' s, block_entries_ sg' = bs ++ [b] /\ seg_ok sg' (ss' ++ [s]) /\ seg_rows (ss' ++ [s]) = seg_rows ss /\
      Forall2 block_fits bs ss' /\ block_fits b s /\ 0 < room s /\ may_write s txn_id = true /\ newest s <= ts /\
      same_segment sg sg' /\ row_count_ sg' = row_count_ sg).
  { intros id Hss Hid sg'.
    exists (block_entries_ sg), (BlockEntry.NewBlockEntry id 0 (columns_ sg)), ss, new_block.
    assert (E : seg_rows (ss ++ [new_block]) = seg_rows ss) by (rewrite seg_rows_snoc; apply app_nil_r).
    split_and!; try done; [|by apply new_fits|cbn; lia].
    split; cbn; rewrite ?E; try done; [|by apply ids_snoc|by apply full_but_last_snoc|by exists k].
    apply Forall2_app; [done|]. constructor; [apply new_fits|constructor]. }
  destruct (last (block_entries_ sg)) as [b|] eqn:El.
  - apply last_Some in El as [bs Eb]. rewrite Eb in Hbs. apply blocks_snoc in Hbs as (ss' & s & -> & Hbs & Hb).
    pose proof (proj1 (full_but_last_snoc ss' s) Hfull) as Hz. destruct (fits_length _ _ Hb) as (Hl & H0 & ->).
    destruct (Hw s (last_snoc _ _)) as [Hw1 Hw2].
    destruct (Z.ltb_spec 0 (room s)).
    + exists bs, b, ss', s. split_and!; try done.
    + assert (Hall : Forall (fun s => room s = 0) (ss' ++ [s])) by (apply Forall_app; split; [done|apply Forall_singleton; lia]).
      pose proof (so_blocks _ _ Hok) as Hbs'. pose proof (full_length _ _ Hbs' Hall) as Hlen.
      apply Hnew; [done|]. apply wrap_id. unfold unsigned_range, DEFAULT_BLOCK_CAPACITY in *. lia.
  - apply last_None in El. rewrite El in Hbs. inversion Hbs; subst. rewrite El in Hnew. by apply Hnew.
Qed.

Lemma live_rows_app l1 l2 : live_rows (l1 ++ l2) = live_rows l1 + live_rows l2.
Proof. unfold live_rows. rewrite filter_app, length_app. lia. Qed.

Lemma live_rows_new n : live_rows (replicate n (mkRow ts None)) = Z.of_nat n.
Proof. unfold live_rows. rewrite filter_all; [by rewrite length_replicate|]. apply Forall_replicate. done. Qed.

Lemma live_rows_le l : 0 <= live_rows l <= Z.of_nat (length l).
Proof. unfold live_rows. pose proof (length_filter (fun r => died r = None) l). lia. Qed.

(** The interval of segment offsets of an append range. *)
Definition interval (r : AppendRange) : Z * Z :=
  (DEFAULT_BLOCK_CAPACITY * range_block_id_ r + start_offset_ r,
   DEFAULT_BLOCK_CAPACITY * range_block_id_ r + start_offset_ r + range_row_count_ r).

Definition advanced st (n : Z) (ranges : list AppendRange) : AppendState :=
  mkAppendState (blocks_ st) (current_count_ st + n) (current_block_ st) (current_block_offset_ st + n)
    (append_ranges_ st ++ ranges).

(** [k] rows were appended to the segment. *)
Record appended (k : Z) (ranges : list AppendRange) sg ss sg' ss' : Prop := {
  ap_ok : seg_ok sg' ss';
  ap_rows : seg_rows ss' = seg_rows ss ++ replicate (Z.to_nat k) (mkRow ts None);
  ap_same : same_segment sg sg';
  ap_count : row_count_ sg' = row_count_ sg + k;
  ap_writable : writable txn_id ts ss';
  ap_ranges : consecutive (row_count_ sg) (map interval ranges) (row_count_ sg');
}.

Lemma AppendData_block b s offset n : block_fits b s -> may_write s txn_id = true -> newest s <= ts -> unsigned_range 16 n ->
  exists b' requests, let k := Z.min n (room s) in
    BlockEntry.AppendData txn_id ts offset n b = Ok (k, b', requests) /\
    block_fits b' (mkBlock (rows s ++ replicate (Z.to_nat k) (mkRow ts None)) (room s - k) txn_id ts) /\
    block_id_ b' = block_id_ b.
Proof.
  intros [Hr Hc] Hw Hn Hsize. pose proof (append_refines b s txn_id ts offset n Hr (conj Hts Hsize)) as H1.
  cbn [apply_change exec] in H1. rewrite Hw, (proj2 (Z.leb_le _ _)) in H1 by done. cbn [andb] in H1.
  destruct H1 as (b' & E & Hr').
  destruct (BlockEntry.AppendData txn_id ts offset n b) as [[[k b1] requests]|] eqn:EA; [|discriminate E].
  injection E as ->. cbn. exists b', requests.
  pose proof (row_bounds b s ts Hr) as [_ Hrow]. pose proof (rf_room _ _ Hr) as [H0 H2]. pose proof (rf_count _ _ Hr).
  pose proof (rf_capacity _ _ Hr) as [_ Hcap]. unfold unsigned_range in Hsize.
  unfold BlockEntry.AppendData in EA. destruct (_ || _) in EA; [|discriminate EA]. destruct (negb _) in EA; [|discriminate EA].
  injection EA as Ek Eb _. split_and!.
  - do 3 f_equal. rewrite <- Ek. destruct (Z.ltb_spec (BlockEntry.row_capacity_ b) (block_row_count_ b + n)); [|lia].
    rewrite wrap_id by (unfold unsigned_range; lia). lia.
  - split; [exact Hr'|]. by rewrite <- Eb.
  - by rewrite <- Eb.
Qed.

Lemma set_last_snoc b' bs b : set_last b' (bs ++ [b]) = bs ++ [b'].
Proof.
  unfold set_last. rewrite length_app, Nat.add_1_r. cbn [pred].
  rewrite insert_app_r_alt by done. by rewrite Nat.sub_diag.
Qed.

Lemma same_segment_trans sg1 sg2 sg3 : same_segment sg1 sg2 -> same_segment sg2 sg3 -> same_segment sg1 sg3.
Proof. unfold same_segment. intros (-> & -> & -> & -> & ->) (-> & -> & -> & -> & ->). done. Qed.

(** Appending [k] rows to the last block. *)
Lemma grow_ok sg bs b b' ss s k r :
  seg_ok sg (ss ++ [s]) -> block_entries_ sg = bs ++ [b] -> Forall2 block_fits bs ss -> block_fits b s ->
  block_fits b' (mkBlock (rows s ++ replicate (Z.to_nat k) (mkRow ts None)) (room s - k) txn_id ts) ->
  block_id_ b' = block_id_ b -> 0 < room s -> 0 <= k <= room s -> row_count_ sg < row_capacity_ sg ->
  interval r = (row_count_ sg, row_count_ sg + k) ->
  appended k [r] sg (ss ++ [s]) (IncreaseRowCount k (set_blocks (bs ++ [b']) sg))
    (ss ++ [mkBlock (rows s ++ replicate (Z.to_nat k) (mkRow ts None)) (room s - k) txn_id ts]).
Proof.
  intros Hok Eb Hbs Hb Hb' Hid Hroom Hk Hlt Hr. set (s' := mkBlock _ _ _ _).
  pose proof Hok as [_ Hids Hfull Hcount Hlive (c & Hc & Hc') Hbound].
  pose proof (live_rows_le (seg_rows (ss ++ [s]))) as Hll.
  destruct (fits_length _ _ Hb) as (Hl & H0 & _). pose proof (proj1 (full_but_last_snoc _ _) Hfull) as Hz.
  pose proof (full_length _ _ Hbs Hz) as Hlen.
  assert (Er : seg_rows (ss ++ [s']) = seg_rows (ss ++ [s]) ++ replicate (Z.to_nat k) (mkRow ts None)).
  { rewrite !seg_rows_snoc. cbn. by rewrite app_assoc. }
  assert (Hsmall : row_count_ sg + k <= row_capacity_ sg).
  { rewrite Hcount, seg_rows_snoc, length_app in *. unfold DEFAULT_BLOCK_CAPACITY in *. lia. }
  assert (Ec : u64 (row_count_ sg + k) = row_count_ sg + k).
  { apply wrap_id. unfold unsigned_range, DEFAULT_BLOCK_CAPACITY in *. lia. }
  assert (Ea : u64 (actual_row_count_ sg + k) = actual_row_count_ sg + k).
  { apply wrap_id. unfold unsigned_range, DEFAULT_BLOCK_CAPACITY in *. lia. }
  split; cbn [row_count_ IncreaseRowCount set_blocks set_rows]; rewrite ?Ec; try done.
  - split; cbn [block_entries_ row_count_ actual_row_count_ row_capacity_ IncreaseRowCount set_blocks set_rows];
      rewrite ?Ec, ?Ea; try done.
    + apply Forall2_app; [done|]. by constructor.
    + rewrite Eb in Hids. apply ids_snoc.
      * intros i d Hi. apply Hids. by apply lookup_app_l_Some.
      * rewrite Hid. apply Hids. by apply list_lookup_middle.
    + by apply full_but_last_snoc.
    + rewrite Er, length_app, length_replicate. lia.
    + rewrite Er, live_rows_app, live_rows_new. lia.
    + by exists c.
  - intros s1. rewrite last_snoc. intros [= <-]. subst s'. unfold may_write. cbn. rewrite Z.eqb_refl, orb_true_r.
    split; [done|lia].
  - cbn [map]. rewrite Hr. cbn. split_and!; [done|lia|done].
Qed.

Lemma append_turn_ok sg ss st n :
  seg_ok sg ss -> row_count_ sg < row_capacity_ sg -> writable txn_id ts ss -> 0 < n ->
  0 <= current_block_offset_ st -> current_block_offset_ st + n < 2 ^ 16 ->
  0 <= current_count_ st -> current_count_ st + n < 2 ^ 64 ->
  exists k r sg' ss' requests,
    append_turn txn_id ts n sg st =
      Ok (n - k, row_count_ sg' =? row_capacity_ sg', sg', advanced st k [r], requests) /\
    1 <= k <= n /\ appended k [r] sg ss sg' ss'.
Proof.
  intros Hok Hlt Hw Hn Ho Hn' Hcc Hcc'.
  destruct (last_block_ok sg ss Hok Hlt Hw) as (bs & b & ss1 & s & Eb & Hok1 & Er & Hbs & Hb & Hroom & Hw1 & Hw2 & Hsame & Ec).
  unfold append_turn. rewrite Eb, last_snoc.
  destruct (AppendData_block b s (current_block_offset_ st) n Hb Hw1 Hw2) as (b' & rs & EA & Hb' & Hid).
  { unfold unsigned_range. lia. }
  set (k := Z.min n (room s)) in *. rewrite EA. cbn [res_bind].
  rewrite (proj2 (Z.ltb_ge n k)) by lia. cbn [negb].
  set (r := mkAppendRange _ _ _ _). set (sg1 := last_block sg) in *.
  rewrite set_last_snoc.
  assert (Hr : interval r = (row_count_ sg1, row_count_ sg1 + k)).
  { subst r. unfold interval. cbn. pose proof (so_ids _ _ Hok1 (length bs) b) as Hids. rewrite Eb in Hids.
    rewrite Hids by (by apply list_lookup_middle). pose proof (so_full _ _ Hok1) as Hf. apply full_but_last_snoc in Hf.
    pose proof (full_length _ _ Hbs Hf). pose proof (so_count _ _ Hok1) as Hcnt. rewrite seg_rows_snoc, length_app in Hcnt.
    pose proof (rf_count _ _ (proj1 Hb)). f_equal; lia. }
  assert (Hap : appended k [r] sg1 (ss1 ++ [s]) (IncreaseRowCount k (set_blocks (bs ++ [b']) sg1))
      (ss1 ++ [mkBlock (rows s ++ replicate (Z.to_nat k) (mkRow ts None)) (room s - k) txn_id ts])).
  { apply grow_ok with b; try done; [lia|]. destruct Hsame as (_ & -> & _). lia. }
  set (sg2 := IncreaseRowCount k (set_blocks (bs ++ [b']) sg1)) in *. 
  set (ss2 := ss1 ++ [mkBlock _ _ _ _]) in *.
  assert (Hap' : appended k [r] sg ss sg2 ss2).
  { destruct Hap as [H1 H2 H3 H4 H5 H6]. rewrite Er in H2. rewrite Ec in H4, H6. split; done. }
  exists k, r, sg2, ss2, (map (BlockRequest (block_id_ b)) rs). split; [|split; [lia|done]].
  rewrite (wrap_id 64 (current_count_ st + k)), (wrap_id 16 (current_block_offset_ st + k)), (wrap_id 16 (n - k))
    by (unfold unsigned_range; lia).
  pose proof (so_bound _ _ (ap_ok _ _ _ _ _ _ Hap')).
  destruct (row_count_ sg2 =? row_capacity_ sg2); [done|]. rewrite (proj2 (Z.ltb_ge _ _)) by done. done.
Qed.

Lemma advanced_0 st : advanced st 0 [] = st.
Proof. destruct st. unfold advanced. cbn. by rewrite !Z.add_0_r, app_nil_r. Qed.

Lemma advanced_advanced st k1 k2 r1 r2 : advanced (advanced st k1 r1) k2 r2 = advanced st (k1 + k2) (r1 ++ r2).
Proof. unfold advanced. cbn. by rewrite !Z.add_assoc, app_assoc. Qed.

Lemma appended_refl sg ss : seg_ok sg ss -> writable txn_id ts ss -> appended 0 [] sg ss sg ss.
Proof. intros Hok Hw. split; cbn; rewrite ?app_nil_r, ?Z.add_0_r; try done. Qed.

Lemma appended_trans k1 k2 r1 r2 sg ss sg1 ss1 sg2 ss2 : 0 <= k1 -> 0 <= k2 ->
  appended k1 r1 sg ss sg1 ss1 -> appended k2 r2 sg1 ss1 sg2 ss2 -> appended (k1 + k2) (r1 ++ r2) sg ss sg2 ss2.
Proof.
  intros H1 H2 [Ho1 Hr1 Hs1 Hc1 Hw1 Hi1] [Ho2 Hr2 Hs2 Hc2 Hw2 Hi2]. split; try done.
  - rewrite Hr2, Hr1, Z2Nat.inj_add, replicate_add, app_assoc by done. done.
  - by apply same_segment_trans with sg1.
  - lia.
  - rewrite map_app. by eapply consecutive_app.
Qed.

Lemma append_rows_loop_ok fuel sg ss st n mut_blocks :
  seg_ok sg ss -> row_count_ sg < row_capacity_ sg \/ n = 0 -> writable txn_id ts ss -> 0 <= n <= Z.of_nat fuel ->
  0 <= current_block_offset_ st -> current_block_offset_ st + n < 2 ^ 16 ->
  0 <= current_count_ st -> current_count_ st + n < 2 ^ 64 ->
  exists k ranges sg' ss' mut_blocks' requests,
    append_rows_loop fuel txn_id ts n sg st mut_blocks =
      Some (Ok (n - k, sg', advanced st k ranges, mut_blocks', requests)) /\
    k = Z.min n (row_capacity_ sg - row_count_ sg) /\ appended k ranges sg ss sg' ss'.
Proof.
  revert sg ss st n mut_blocks.
  induction fuel as [|fuel IH]; intros sg ss st n mut Hok Hlt Hw Hn Ho Hn' Hc Hc'; cbn [append_rows_loop].
  { replace n with 0 by lia. exists 0, [], sg, ss, mut, []. pose proof (so_bound _ _ Hok).
    split_and!; [by rewrite advanced_0|lia|by apply appended_refl]. }
  destruct (Z.eqb_spec n 0) as [->|Hn0].
  { exists 0, [], sg, ss, mut, []. pose proof (so_bound _ _ Hok).
    split_and!; [by rewrite advanced_0|lia|by apply appended_refl]. }
  destruct (append_turn_ok sg ss st n Hok ltac:(lia) Hw ltac:(lia) Ho Hn' Hc Hc') as (k & r & sg1 & ss1 & rs & -> & Hk & Ha).
  pose proof Ha as [Ho1 _ (_ & Ecap & _) Ec1 Hw1 _]. pose proof (so_bound _ _ Ho1) as Hb1.
  cbv beta iota zeta. set (mut' := if bool_decide _ then mut else _).
  destruct (Z.eqb_spec (row_count_ sg1) (row_capacity_ sg1)) as [Hf|Hf].
  - exists k, [r], sg1, ss1, mut', rs. split_and!; [done|lia|done].
  - destruct (IH sg1 ss1 (advanced st k [r]) (n - k) mut' Ho1 ltac:(lia) Hw1) as
      (k2 & ranges & sg2 & ss2 & mut2 & rs2 & -> & Hk2 & Ha2); [lia|cbn; lia..|].
    exists (k + k2), ([r] ++ ranges), sg2, ss2, mut2, (rs ++ rs2). split_and!.
    + rewrite advanced_advanced. do 6 f_equal. lia.
    + lia.
    + apply appended_trans with sg1 ss1; (done || lia).
Qed.

(** The input rows that were not appended yet. *)
Definition remaining st : Z :=
  foldr Z.add 0 (drop (Z.to_nat (current_block_ st)) (blocks_ st)) - current_block_offset_ st.

Record input_ok st : Prop := {
  io_sizes : Forall (fun n => 0 <= n < 2 ^ 16) (blocks_ st);
  io_block : 0 <= current_block_ st <= Z.of_nat (length (blocks_ st));
  io_offset : 0 <= current_block_offset_ st <= default 0 (blocks_ st !! Z.to_nat (current_block_ st));
  io_count : 0 <= current_count_ st /\ current_count_ st + remaining st < 2 ^ 64;
}.

Lemma remaining_nonneg l : Forall (fun n => 0 <= n < 2 ^ 16) l -> 0 <= foldr Z.add 0 l.
Proof. induction 1; cbn; lia. Qed.

Lemma append_blocks_loop_ok fuel sg ss st mut_blocks :
  seg_ok sg ss -> writable txn_id ts ss -> input_ok st ->
  Z.of_nat (length (blocks_ st)) - current_block_ st < Z.of_nat fuel ->
  exists k ranges sg' ss' st' mut_blocks' requests,
    append_blocks_loop fuel txn_id ts sg st mut_blocks = Some (Ok (sg', st', mut_blocks', requests)) /\
    k = Z.min (remaining st) (row_capacity_ sg - row_count_ sg) /\ appended k ranges sg ss sg' ss' /\
    input_ok st' /\ blocks_ st' = blocks_ st /\ remaining st' = remaining st - k /\
    current_count_ st' = current_count_ st + k /\ append_ranges_ st' = append_ranges_ st ++ ranges.
Proof.
  revert sg ss st mut_blocks. induction fuel as [|fuel IH]; intros sg ss st mut Hok Hw Hio Hf.
  { pose proof (io_block _ Hio). lia. }
  pose proof Hio as [Hsz Hcb Hco [Hcc Hcc']]. pose proof (so_bound _ _ Hok) as Hbound. cbn [append_blocks_loop].
  assert (Hrest : forall j, 0 <= foldr Z.add 0 (drop j (blocks_ st))) by (intros j; apply remaining_nonneg; by apply Forall_drop).
  destruct (Z.ltb_spec (current_block_ st) (Z.of_nat (length (blocks_ st)))) as [Hlt|Hge]; cbn [andb]; cycle 1.
  { assert (Hr0 : remaining st = 0).
    { unfold remaining in *. rewrite lookup_ge_None_2 in Hco by lia. cbn in Hco. rewrite drop_ge by lia. cbn. lia. }
    exists 0, [], sg, ss, st, mut, []. rewrite app_nil_r. split_and!; try done; try lia. by apply appended_refl. }
  destruct (lookup_lt_is_Some_2 (blocks_ st) (Z.to_nat (current_block_ st))) as [n Hn]; [lia|]. rewrite Hn in *. cbn [from_option] in *. unfold id in *.
  pose proof (proj1 (Forall_lookup _ _) Hsz _ _ Hn) as Hnr. cbn in Hnr, Hco.
  assert (Hrem : remaining st = n - current_block_offset_ st + foldr Z.add 0 (drop (S (Z.to_nat (current_block_ st))) (blocks_ st))).
  { unfold remaining. rewrite (drop_S _ _ _ Hn). cbn. lia. }
  pose proof (Hrest (S (Z.to_nat (current_block_ st)))).
  destruct (Z.ltb_spec (row_count_ sg) (row_capacity_ sg)) as [Hroom|Hfull]; cycle 1.
  { exists 0, [], sg, ss, st, mut, []. rewrite app_nil_r. split_and!; try done; try lia. by apply appended_refl. }
  cbv zeta. rewrite (wrap_id 16 (n - current_block_offset_ st)) by (unfold unsigned_range; lia).
  set (m := n - current_block_offset_ st) in *.
  destruct (append_rows_loop_ok (Z.to_nat m) sg ss st m mut Hok ltac:(lia) Hw) as
    (k & ranges & sg1 & ss1 & mut1 & rs & -> & Hk & Ha); [lia..|].
  pose proof Ha as [Ho1 _ (_ & Ecap & _) Ec1 Hw1 _].
  set (st1 := if m - k =? 0 then _ else _).
  assert (H1 : input_ok st1 /\ blocks_ st1 = blocks_ st /\ remaining st1 = remaining st - k /\
    current_count_ st1 = current_count_ st + k /\ append_ranges_ st1 = append_ranges_ st ++ ranges /\
    current_block_ st1 = (if m - k =? 0 then current_block_ st + 1 else current_block_ st)).
  { assert (Er : remaining st1 = remaining st - k).
    { subst st1. unfold remaining in *. destruct (Z.eqb_spec (m - k) 0); cbn; [|lia].
      replace (Z.to_nat (current_block_ st + 1)) with (S (Z.to_nat (current_block_ st))) by lia. lia. }
    split_and!; [|subst st1; destruct (m - k =? 0); done|done|subst st1; destruct (m - k =? 0); done..].
    split; [..|rewrite Er]; subst st1; destruct (Z.eqb_spec (m - k) 0); cbn; try done; try lia.
    - destruct (blocks_ st !! Z.to_nat (current_block_ st + 1)) as [n'|] eqn:E'; [|done]. pose proof (proj1 (Forall_lookup _ _) Hsz _ _ E') as Hn2.
      cbn in Hn2 |- *. unfold id. lia.
    - rewrite Hn. cbn. unfold id. lia. }
  destruct H1 as (Hio1 & Eb1 & Er1 & Ecc1 & Ear1 & Ecb1).
  destruct (Z.eqb_spec (m - k) 0) as [Hz|Hz].
  - destruct (IH sg1 ss1 st1 mut1 Ho1 Hw1 Hio1) as (k2 & ranges2 & sg2 & ss2 & st2 & mut2 & rs2 & -> & Hk2 & Ha2 & Hio2 & E2 & R2 & C2 & A2).
    { rewrite Eb1, Ecb1. lia. }
    exists (k + k2), (ranges ++ ranges2), sg2, ss2, st2, mut2, (rs ++ rs2).
    split_and!; try done; try lia.
    + apply appended_trans with sg1 ss1; (done || lia).
    + rewrite A2, Ear1. by rewrite app_assoc.
  - assert (Hfull : row_count_ sg1 = row_capacity_ sg1) by lia.
    destruct fuel as [|fuel]; cbn [append_blocks_loop]; rewrite (proj2 (Z.ltb_ge (row_count_ sg1) _)), andb_false_r by lia.
    all: exists k, ranges, sg1, ss1, st1, mut1, (rs ++ []); split_and!; try done; lia.
Qed.

(** C13. [AppendData] on an unsealed segment with room returns (its loops take at most one turn per
    input block and one per row): it appends as many of the remaining input rows as the segment
    has room for, fills the last block before it opens the next one, and keeps the invariant of
    the segment (full blocks before the last one, block ids, row counts). The rows follow the old
    ones with the commit timestamp of the append, the append ranges it records cover exactly the
    new offsets in order, and the append state knows what is left. *)
Theorem segment_append_fills_blocks sg ss st :
  seg_ok sg ss -> status_ sg = kUnsealed -> row_count_ sg < row_capacity_ sg -> writable txn_id ts ss -> input_ok st ->
  exists k ranges sg' ss' st' requests,
    AppendData txn_id ts sg st = Some (Ok (k, sg', st', requests)) /\
    k = Z.min (remaining st) (row_capacity_ sg - row_count_ sg) /\
    seg_ok sg' ss' /\ seg_rows ss' = seg_rows ss ++ replicate (Z.to_nat k) (mkRow ts None) /\
    row_count_ sg' = row_count_ sg + k /\
    append_ranges_ st' = append_ranges_ st ++ ranges /\
    consecutive (row_count_ sg) (map interval ranges) (row_count_ sg') /\
    input_ok st' /\ remaining st' = remaining st - k /\ current_count_ st' = current_count_ st + k.
Proof.
  intros Hok Hst Hroom Hw Hio. pose proof Hio as [Hsz Hcb Hco Hcc].
  unfold AppendData. rewrite bool_decide_eq_true_2 by done. rewrite (proj2 (Z.leb_gt _ _)) by done. cbn [negb].
  destruct (append_blocks_loop_ok (S (length (blocks_ st))) sg ss st [] Hok Hw Hio ltac:(lia)) as
    (k & ranges & sg' & ss' & st' & mut & rs & -> & Hk & [Ho Hr _ Hc _ Hi] & Hio' & _ & Hrem & Hcnt & Har).
  pose proof (io_count _ Hio') as [_ Hcc2]. pose proof (io_count _ Hio) as [Hcc3 Hcc4].
  assert (Hge : 0 <= remaining st).
  { unfold remaining. destruct (blocks_ st !! Z.to_nat (current_block_ st)) as [n|] eqn:En; cbn in Hco; unfold id in Hco.
    - rewrite (drop_S _ _ _ En). cbn. pose proof (remaining_nonneg (drop (S (Z.to_nat (current_block_ st))) (blocks_ st))
        (Forall_drop _ _ _ Hsz)). lia.
    - apply lookup_ge_None in En. rewrite drop_ge by lia. cbn. lia. }
  exists k, ranges, sg', ss', st', (rs ++ map AddBlockStore mut). split_and!; try done.
  rewrite Hcnt. replace (current_count_ st + k - current_count_ st) with k by lia.
  rewrite wrap_id by (unfold unsigned_range; lia). done.
Qed.
End append.

Lemma new_segment_ok segment_id columns : seg_ok (NewSegmentEntry segment_id columns) [].
Proof. split; cbn; try done. exists 1024. done. Qed.

Lemma segment_append_fills_blocks_witness :
  exists k ranges sg' ss' st' requests,
    AppendData 1 10 (NewSegmentEntry 0 [0]) (mkAppendState [8000; 500; 0; 7] 0 0 0 []) = Some (Ok (k, sg', st', requests)) /\
    k = 8507 /\ length (seg_rows ss') = 8507%nat /\ append_ranges_ st' = ranges /\
    consecutive 0 (map interval ranges) 8507.
Proof.
  destruct (segment_append_fills_blocks 1 10 ltac:(unfold commit_time, UNCOMMIT_TS; lia) (NewSegmentEntry 0 [0]) []
    (mkAppendState [8000; 500; 0; 7] 0 0 0 [])) as
    (k & ranges & sg' & ss' & st' & requests & E & Hk & _ & Hr & Hc & Ha & Hi & _).
  - apply new_segment_ok.
  - reflexivity.
  - reflexivity.
  - intros s Hs. discriminate Hs.
  - split; cbn; [|lia|vm_compute; split; discriminate|vm_compute; split; [discriminate|reflexivity]].
    repeat (apply Forall_cons_2; [lia|]). apply Forall_nil_2.
  - assert (Ek : k = 8507) by (rewrite Hk; reflexivity). clear Hk.
    subst k. exists 8507, ranges, sg', ss', st', requests. split_and!; [exact E|done| |exact Ha|].
    + rewrite Hr, length_app, length_replicate. reflexivity.
    + rewrite Hc in Hi. exact Hi.
Defined.
