(* ===== verification/SegmentVisibility.v ===== *)
(** * What readers of a segment see

    One row is asked for with [CheckRowVisible]; index scans filter their candidates in bulk with
    [CheckRowsVisible], which skips the filter when no delete came before the timestamp. *)
From stdpp Require Import sorting.
From S2P Require Import Prelude Serialize FileWorker BlockVersion Bitmask BlockEntry BlockHistory BlockFlush SegmentEntry SegmentHistory.
Import BlockEntry(BlockEntry, DEFAULT_BLOCK_CAPACITY, block_row_count_, GetAvailableCapacity, block_id_).
Import SegmentEntry.

Section visibility.
Implicit Types (sg : SegmentEntry) (ss : list block) (s : block) (b : BlockEntry) (ts o : Z).

(** Offsets of rows: a segment has at most 65536 blocks. *)
Definition offset_ok o : Prop := 0 <= o < 2 ^ 29.

Lemma offset_split o : offset_ok o ->
  0 <= o / DEFAULT_BLOCK_CAPACITY < 2 ^ 16 /\ 0 <= o mod DEFAULT_BLOCK_CAPACITY < DEFAULT_BLOCK_CAPACITY /\
  o = DEFAULT_BLOCK_CAPACITY * (o / DEFAULT_BLOCK_CAPACITY) + o mod DEFAULT_BLOCK_CAPACITY.
Proof.
  unfold offset_ok, DEFAULT_BLOCK_CAPACITY. intros Ho. pose proof (Z.div_mod o 8192 ltac:(lia)).
  pose proof (Z.mod_pos_bound o 8192 ltac:(lia)). lia.
Qed.

Lemma block_of_div o : offset_ok o -> block_of o = o / DEFAULT_BLOCK_CAPACITY.
Proof.
  intros Ho. unfold block_of, BlockEntry.BLOCK_OFFSET_SHIFT. rewrite Z.shiftr_div_pow2 by lia.
  apply wrap_id, offset_split, Ho.
Qed.

Lemma offset_in_block o : offset_ok o -> u16 (Z.land o BlockEntry.BLOCK_OFFSET_MASK) = o mod DEFAULT_BLOCK_CAPACITY.
Proof.
  intros Ho. change BlockEntry.BLOCK_OFFSET_MASK with (Z.ones 13). rewrite Z.land_ones by lia.
  change (2 ^ 13) with DEFAULT_BLOCK_CAPACITY. destruct (offset_split o Ho) as (_ & H & _).
  apply wrap_id. unfold unsigned_range, DEFAULT_BLOCK_CAPACITY in *. lia.
Qed.

(** The block of a row was committed up to [ts]. *)
Definition block_committed sg ts o : bool :=
  match GetBlockEntryByID (o / DEFAULT_BLOCK_CAPACITY) sg with
  | Some b => BlockEntry.commit_ts_ b <=? ts
  | None => false
  end.

Definition seg_row_visible ss ts o : bool :=
  match seg_rows ss !! Z.to_nat o with Some r => visible_at ts r | None => false end.

Lemma CheckRowVisible_rows sg ss ts o : seg_ok sg ss -> offset_ok o ->
  CheckRowVisible sg o ts true = block_committed sg ts o && seg_row_visible ss ts o.
Proof.
  intros Hok Ho. destruct (offset_split o Ho) as (Hd & Hm & E).
  unfold CheckRowVisible, block_committed, seg_row_visible, GetBlockEntryByID.
  rewrite !wrap_id by (unfold unsigned_range, DEFAULT_BLOCK_CAPACITY in *; lia).
  set (i := o / DEFAULT_BLOCK_CAPACITY) in *. set (j := o mod DEFAULT_BLOCK_CAPACITY) in *.
  replace i with (Z.of_nat (Z.to_nat i)) in E by lia. rewrite E. clear E.
  destruct (block_entries_ sg !! Z.to_nat i) as [b|] eqn:Eb; [|done].
  destruct (Forall2_lookup_l _ _ _ _ _ (so_blocks _ _ Hok) Eb) as (s & Es & [Hr Hc]).
  rewrite (seg_rows_lookup _ _ _ _ _ (so_blocks _ _ Hok) (so_full _ _ Hok) Es Hm).
  destruct (Z.ltb_spec ts (BlockEntry.commit_ts_ b)), (Z.leb_spec (BlockEntry.commit_ts_ b) ts); try done; try lia.
  rewrite (visible_row b s) by (done || unfold DEFAULT_BLOCK_CAPACITY in *; lia). done.
Qed.

(** Grouping a list by a key and joining the groups keeps its elements. *)
Lemma flat_map_app_perm (f g : Z -> list Z) ks : flat_map (fun k => f k ++ g k) ks ≡ₚ flat_map f ks ++ flat_map g ks.
Proof. induction ks as [|k ks IH]; cbn; [done|]. rewrite IH. solve_Permutation. Qed.

Lemma flat_map_single (x k0 : Z) ks : NoDup ks -> k0 ∈ ks -> flat_map (fun k => if decide (k0 = k) then [x] else []) ks = [x].
Proof.
  induction 1 as [|k ks Hk Hnd IH]; intros Hin; [by apply elem_of_nil in Hin|]. cbn. case_decide as E.
  - subst k0. cbn. f_equal. clear IH Hin Hnd. induction ks as [|k' ks IH]; [done|]. cbn.
    apply not_elem_of_cons in Hk as [Hne Hk]. rewrite decide_False by done. by apply IH.
  - apply elem_of_cons in Hin as [|Hin]; [done|]. by apply IH.
Qed.

Lemma groups_perm (key : Z -> Z) (ks l : list Z) :
  NoDup ks -> Forall (fun x => key x ∈ ks) l -> flat_map (fun k => filter (fun x => key x = k) l) ks ≡ₚ l.
Proof.
  intros Hnd. induction 1 as [|x l Hx Hl IH].
  { induction ks as [|k ks IHks]; [done|]. cbn. apply IHks. by inversion Hnd. }
  rewrite (flat_map_ext _ (fun k => (if decide (key x = k) then [x] else []) ++ filter (fun x => key x = k) l)).
  - rewrite flat_map_app_perm, flat_map_single by done. cbn. by rewrite IH.
  - intros k. rewrite filter_cons. by case_decide.
Qed.

Lemma filter_swap (P Q : Z -> Prop) `{!forall x, Decision (P x), !forall x, Decision (Q x)} (l : list Z) :
  filter P (filter Q l) = filter Q (filter P l).
Proof.
  induction l as [|x l IH]; [done|]. rewrite !filter_cons. repeat case_decide; rewrite ?filter_cons; repeat case_decide;
    (done || by f_equal).
Qed.

Lemma filter_iff_on (P Q : Z -> Prop) `{!forall x, Decision (P x), !forall x, Decision (Q x)} (l : list Z) :
  Forall (fun x => P x <-> Q x) l -> filter P l = filter Q l.
Proof. induction 1 as [|x l Hx _ IH]; [done|]. rewrite !filter_cons, IH. repeat case_decide; tauto. Qed.

(** The offsets of one block that the block keeps. *)
Lemma block_group sg ts k l : Forall offset_ok l ->
  match GetBlockEntryByID k sg with
  | None => []
  | Some b => if ts <? BlockEntry.commit_ts_ b then []
              else BlockEntry.CheckRowsVisible b (filter (fun o => block_of o = k) l) ts
  end = filter (fun o => block_of o = k) (filter (fun o => CheckRowVisible sg o ts false = true) l).
Proof.
  intros Hl. rewrite (filter_swap (fun o => block_of o = k)).
  assert (V : forall o, o ∈ filter (fun o => block_of o = k) l -> CheckRowVisible sg o ts false =
    match GetBlockEntryByID k sg with
    | None => false
    | Some b => if ts <? BlockEntry.commit_ts_ b then false
                else negb (BlockVersion.CheckDelete (BlockEntry.version_ b) (u16 (Z.land o BlockEntry.BLOCK_OFFSET_MASK)) ts)
    end).
  { intros o [Hk Ho]%list_elem_of_filter. rewrite Forall_forall in Hl. specialize (Hl o Ho).
    unfold CheckRowVisible. rewrite <- Hk, block_of_div, offset_in_block by done.
    destruct (offset_split o Hl) as (Hd & Hm & _).
    rewrite !wrap_id by (unfold unsigned_range, DEFAULT_BLOCK_CAPACITY in *; lia).
    destruct (GetBlockEntryByID _ sg) as [b|]; [|done]. by destruct (ts <? _). }
  set (group := filter (fun o => block_of o = k) l) in *.
  destruct (GetBlockEntryByID k sg) as [b|]; [unfold BlockEntry.CheckRowsVisible; destruct (ts <? _)|].
  - symmetry. apply filter_none, Forall_forall. intros o Ho. rewrite V by done. done.
  - apply filter_iff_on, Forall_forall. intros o Ho. by rewrite V.
  - symmetry. apply filter_none, Forall_forall. intros o Ho. rewrite V by done. done.
Qed.

Lemma CheckRowsVisible_perm sg ts l : Forall offset_ok l -> first_delete_ts_ sg < ts ->
  CheckRowsVisible sg l ts ≡ₚ filter (fun o => CheckRowVisible sg o ts false = true) l.
Proof.
  intros Hl Hts. unfold CheckRowsVisible. rewrite (proj2 (Z.leb_gt _ _)) by done.
  rewrite (flat_map_ext _ _ (fun k => block_group sg ts k l Hl)). apply groups_perm.
  - unfold block_ids. rewrite merge_sort_Permutation. apply NoDup_remove_dups.
  - apply Forall_forall. intros o [_ Ho]%list_elem_of_filter. unfold block_ids.
    rewrite merge_sort_Permutation, elem_of_remove_dups. apply list_elem_of_fmap. by exists o.
Qed.

(** C36. Two separate facts on the readers of a segment. One row: [CheckRowVisible] with [check_append] holds exactly when
    the block of the row was committed up to [ts] and the row was appended and not deleted up to
    [ts]. In bulk: once a delete came before [ts], [CheckRowsVisible] keeps exactly the offsets that
    [CheckRowVisible] without [check_append] accepts, each as often as it was given. The bulk reader
    asks only about deletes: it also keeps rows that were appended after [ts], which the check of one
    row with [check_append] refuses. *)
Theorem segment_readers_agree sg ss ts (segment_offsets : list Z) :
  seg_ok sg ss -> Forall offset_ok segment_offsets ->
  (forall o, o ∈ segment_offsets ->
    CheckRowVisible sg o ts true = block_committed sg ts o && seg_row_visible ss ts o) /\
  (first_delete_ts_ sg < ts ->
    CheckRowsVisible sg segment_offsets ts ≡ₚ
    filter (fun o => CheckRowVisible sg o ts false = true) segment_offsets).
Proof.
  intros Hok Hl. split; [|by apply CheckRowsVisible_perm].
  intros o Ho. apply CheckRowVisible_rows; [done|]. by eapply Forall_forall in Hl.
Qed.
End visibility.

Definition demo_block : BlockEntry :=
  match exec_all demo_history (BlockEntry.NewBlockEntry 0 0 [0]) with Ok b => b | Err _ => BlockEntry.NewBlockEntry 0 0 [] end.
Definition demo_segment : SegmentEntry :=
  mkSegmentEntry 0 DEFAULT_SEGMENT_CAPACITY [0] 5 4 10 30 20 UNCOMMIT_TS 10 [demo_block] None kUnsealed ∅.

Lemma demo_block_fits : block_fits demo_block demo_state.
Proof.
  assert (E : exec_all demo_history (BlockEntry.NewBlockEntry 0 0 [0]) = Ok demo_block) by (vm_compute; reflexivity).
  pose proof (history_refines demo_history _ _ (new_refines 0 0 [0]) demo_changes_ok) as H.
  change (apply_all demo_history new_block) with (Some demo_state) in H. destruct H as (b & Eb & Hr).
  rewrite E in Eb. injection Eb as <-. split; [done|]. vm_compute. reflexivity.
Qed.

Lemma demo_segment_ok : seg_ok demo_segment [demo_state].
Proof.
  assert (Hid : block_id_ demo_block = 0) by (vm_compute; reflexivity).
  pose proof demo_block_fits as Hb. unfold demo_segment. generalize dependent demo_block. intros b Hid Hb.
  split; cbn; try done.
  - by constructor.
  - intros [|i] c E; [|destruct i; discriminate E]. by injection E as <-.
  - auto.
  - by exists 1024.
Qed.

Lemma segment_readers_agree_witness :
  CheckRowsVisible demo_segment [4; 1; 0] 25 ≡ₚ
  filter (fun o => CheckRowVisible demo_segment o 25 false = true) [4; 1; 0].
Proof.
  apply (segment_readers_agree demo_segment [demo_state] 25 [4; 1; 0] demo_segment_ok).
  - repeat (apply Forall_cons_2; [unfold offset_ok; lia|]). apply Forall_nil_2.
  - reflexivity.
Defined.

(** ** Replay of a segment

    [UpdateSegmentReplay] keeps the first delete of the segment it updates. *)

(** When a segment that had no delete at the last full checkpoint is updated from the delta log,
    the bulk filter of index scans stays off, whatever the first delete of the replayed operation
    is: rows that [CheckRowVisible] rejects as deleted are all kept. The segment that is built from
    the same operation alone has the first delete, and filters such a row. *)
Theorem replayed_update_disables_filter (sg replayed : SegmentEntry) (ts o : Z) (segment_offsets : list Z) :
  first_delete_ts_ sg = UNCOMMIT_TS -> first_delete_ts_ replayed < ts <= UNCOMMIT_TS ->
  Forall offset_ok segment_offsets -> o ∈ segment_offsets ->
  let updated := UpdateSegmentReplay replayed sg in
  let expected := set_times (min_row_ts_ updated) (max_row_ts_ updated) (first_delete_ts_ replayed) (commit_ts_ updated) updated in
  CheckRowVisible updated o ts false = false ->
  o ∈ CheckRowsVisible updated segment_offsets ts /\ ~ o ∈ CheckRowsVisible expected segment_offsets ts.
Proof.
  intros Hf Hts Hl Ho updated expected Hv. split.
  - unfold CheckRowsVisible. cbn. rewrite Hf, (proj2 (Z.leb_le _ _)) by lia. done.
  - rewrite CheckRowsVisible_perm by (done || cbn; lia). intros [Hv' _]%list_elem_of_filter.
    change (CheckRowVisible expected o ts false) with (CheckRowVisible updated o ts false) in Hv'. congruence.
Qed.

Definition demo_replayed : SegmentEntry :=
  NewReplaySegmentEntry 0 kUnsealed [0] 5 4 DEFAULT_SEGMENT_CAPACITY 10 30 10 20 UNCOMMIT_TS.
Definition demo_checkpointed : SegmentEntry :=
  mkSegmentEntry 0 DEFAULT_SEGMENT_CAPACITY [0] 3 3 10 10 UNCOMMIT_TS UNCOMMIT_TS 10
    [BlockEntry.mkBlockEntry 0 3 8192 (mkBlockVersion [mkCreateField 10 3] [0; 20; 0] 20) 10 20 15 0 3 10 [0]] None kUnsealed ∅.

Lemma replayed_update_disables_filter_witness :
  1 ∈ CheckRowsVisible (UpdateSegmentReplay demo_replayed demo_checkpointed) [0; 1; 2] 25.
Proof.
  apply (replayed_update_disables_filter demo_checkpointed demo_replayed 25 1 [0; 1; 2]).
  - reflexivity.
  - cbn. unfold UNCOMMIT_TS. lia.
  - repeat (apply Forall_cons_2; [unfold offset_ok; lia|]). apply Forall_nil_2.
  - right. left.
  - vm_compute. reflexivity.
Defined.
