(* ===== verification/SegmentStatus.v ===== *)
(** * Compaction and the deletes that run beside it

    While a segment is compacted, transactions go on deleting its rows. A transaction registers
    with [CheckDeleteConflict] before its deletes commit, and [SetNoDelete] closes the segment
    once every registered transaction has committed; the compaction then deletes the collected
    rows from the new segment. *)
From S2P Require Import Prelude Serialize FileWorker BlockVersion Bitmask BlockEntry BlockHistory BlockFlush SegmentEntry SegmentHistory.
Import BlockEntry(BlockEntry, DEFAULT_BLOCK_CAPACITY).
Import SegmentEntry.

Inductive seg_event :=
| Registers (txn_id : Z)
| Deleted (txn_id commit_ts : Z) (store_blocks store_columns : list Z) (block_row_hashmap : list (Z * list Z))
| Closes.

(** A transaction whose registration meets a conflict is aborted. *)
Definition exec_event (e : seg_event) (sg : SegmentEntry) : res (SegmentEntry * list request) :=
  match e with
  | Registers txn_id =>
      match CheckDeleteConflict [sg] txn_id with
      | (false, [sg']) => Ok (sg', [])
      | _ => Ok (sg, [])
      end
  | Deleted txn_id commit_ts store_blocks store_columns rows =>
      CommitSegment txn_id commit_ts store_blocks store_columns (Some rows) sg
  | Closes => let? (_, sg) := SetNoDelete sg in Ok (sg, [])
  end.
Fixpoint exec_events (es : list seg_event) (sg : SegmentEntry) : res (SegmentEntry * list request) :=
  match es with
  | [] => Ok (sg, [])
  | e :: es =>
      let? (sg, requests) := exec_event e sg in
      let? (sg, more) := exec_events es sg in
      Ok (sg, requests ++ more)
  end.

(** Only registered transactions delete. *)
Definition event_allowed (e : seg_event) (sg : SegmentEntry) : Prop :=
  match e with Deleted txn_id _ _ _ _ => txn_id ∈ delete_txns_ sg | _ => True end.
Fixpoint allowed (es : list seg_event) (sg : SegmentEntry) : Prop :=
  match es with
  | [] => True
  | e :: es => event_allowed e sg /\ match exec_event e sg with Ok (sg, _) => allowed es sg | Err _ => True end
  end.

Definition row_offsets (block_row_hashmap : list (Z * list Z)) : list Z :=
  flat_map (fun '(block_id, offsets) => map (fun o => u32 (block_id * DEFAULT_BLOCK_CAPACITY + o)) offsets) block_row_hashmap.

(** The deletes of a history, and the ones that the compaction was told about. *)
Definition deletes_of (es : list seg_event) : list (Z * list Z) :=
  omap (fun e => match e with Deleted _ ts _ _ rows => Some (ts, row_offsets rows) | _ => None end) es.
Definition told (requests : list request) : list (Z * list Z) :=
  omap (fun r => match r with AddToDelete _ ts _ offsets => Some (ts, offsets) | _ => None end) requests.

(** The segment is being compacted for [data], or closed with no transaction left. *)
Definition compacting (data : Z) (sg : SegmentEntry) : Prop :=
  compact_state_data_ sg = Some data /\ (status_ sg = kCompacting \/ status_ sg = kNoDelete).
Definition closed (sg : SegmentEntry) : Prop :=
  compact_state_data_ sg = None /\ status_ sg = kNoDelete /\ delete_txns_ sg = ∅.

Section compaction.
Implicit Types (sg : SegmentEntry) (es : list seg_event).
Context (data : Z).

Lemma told_app l1 l2 : told (l1 ++ l2) = told l1 ++ told l2.
Proof. apply omap_app. Qed.

Lemma told_none {A : Type} (f : A -> request) (l : list A) : (forall x, told [f x] = []) -> told (map f l) = [].
Proof.
  intros Hf. induction l as [|x l IH]; [done|]. cbn [map]. change (f x :: map f l) with ([f x] ++ map f l).
  by rewrite told_app, Hf, IH.
Qed.

Lemma commit_blocks_told txn_id ts ids blocks blocks' requests :
  commit_blocks txn_id ts ids blocks = Ok (blocks', requests) -> told requests = [].
Proof.
  revert blocks blocks' requests. induction ids as [|i ids IH]; intros blocks blocks' requests; cbn; [by intros [= _ <-]|].
  destruct (blocks !! Z.to_nat i) as [b|]; [|done].
  destruct (BlockEntry.CommitBlock txn_id ts b) as [[b' rs]|]; cbn; [|done].
  destruct (commit_blocks txn_id ts ids _) as [[bs more]|] eqn:E; cbn; [|done]. intros [= _ <-].
  rewrite told_app, (IH _ _ _ E), app_nil_r. by apply told_none.
Qed.

Lemma deleted_step txn_id ts bs cols rows sg sg' requests : compacting data sg ->
  exec_event (Deleted txn_id ts bs cols rows) sg = Ok (sg', requests) ->
  compacting data sg' /\ delete_txns_ sg' = delete_txns_ sg ∖ {[txn_id]} /\ told requests = [(ts, row_offsets rows)].
Proof.
  intros [Hd Hs]. cbn -[told]. unfold CommitSegment, commit_deletes.
  rewrite bool_decide_eq_false_2 by (destruct Hs; congruence). cbn -[told]. rewrite Hd.
  rewrite bool_decide_eq_true_2 by done. cbn -[told].
  destruct (negb _); [|done]. cbn -[told].
  destruct (commit_blocks _ _ _ _) as [[blocks rs]|] eqn:E; cbn -[told]; [|done]. intros [= <- <-]. split_and!; [done..|].
  transitivity ((ts, row_offsets rows) :: told (rs ++ map (fun c => CommitColumn c txn_id ts) cols)); [done|].
  rewrite !told_app, (commit_blocks_told _ _ _ _ _ _ E), told_none by done. done.
Qed.

Lemma registers_step txn_id sg sg' requests : compacting data sg \/ closed sg ->
  exec_event (Registers txn_id) sg = Ok (sg', requests) ->
  requests = [] /\ (compacting data sg' \/ closed sg') /\ (closed sg -> sg' = sg).
Proof.
  intros Hc. cbn. unfold CheckDeleteConflict. cbn. unfold takes_deletes.
  destruct (status_ sg) eqn:Es; cbn; intros [= <- <-]; split_and!; try done.
  all: destruct Hc as [[Hd [Hs|Hs]]|(Hd & Hs & He)]; try congruence.
  all: try (left; split; cbn; auto; fail).
  all: intros (_ & Hs' & _); congruence.
Qed.

Lemma closes_step sg sg' requests : compacting data sg \/ closed sg ->
  exec_event Closes sg = Ok (sg', requests) ->
  requests = [] /\ (compacting data sg' \/ closed sg') /\ (closed sg -> closed sg') /\ delete_txns_ sg' = delete_txns_ sg.
Proof.
  intros Hc. cbn. unfold SetNoDelete. destruct (status_ sg) eqn:Es; try done; cbn.
  all: destruct (bool_decide_reflect (delete_txns_ sg = ∅)) as [He|He]; cbn; intros [= <- <-]; split_and!; try done.
  all: try (by right). all: try (intros (_ & _ & ?); done).
  all: destruct Hc as [[Hd Hs]|(Hd & Hs & He')]; try congruence; left; split; cbn; auto.
Qed.

Lemma compaction_run es sg sg' requests : compacting data sg \/ closed sg -> allowed es sg ->
  exec_events es sg = Ok (sg', requests) -> (compacting data sg' \/ closed sg') /\ told requests = deletes_of es.
Proof.
  revert sg requests. induction es as [|e es IH]; intros sg requests Hc Ha; cbn [exec_events].
  { by intros [= <- <-]. }
  destruct Ha as [Ha1 Ha]. destruct (exec_event e sg) as [[sg1 r1]|] eqn:E; cbn -[told deletes_of]; [|done].
  destruct (exec_events es sg1) as [[sg2 r2]|] eqn:E2; cbn -[told deletes_of]; [|done]. intros [= <- <-]. rewrite told_app.
  destruct e as [t|t ts bs cols rows|].
  - destruct (registers_step t sg sg1 r1 Hc E) as (-> & Hc1 & _). by apply (IH sg1).
  - assert (Hcc : compacting data sg).
    { destruct Hc as [Hc|(_ & _ & He)]; [done|]. cbn in Ha1. rewrite He in Ha1. by apply elem_of_empty in Ha1. }
    destruct (deleted_step t ts bs cols rows sg sg1 r1 Hcc E) as (Hc1 & _ & ->).
    destruct (IH sg1 r2 (or_introl Hc1) Ha E2) as [Hc2 ->]. done.
  - destruct (closes_step sg sg1 r1 Hc E) as (-> & Hc1 & _). by apply (IH sg1).
Qed.

(** C14. No delete is lost by a compaction: from the moment a sealed segment is taken for a
    compaction, whatever transactions register, delete and commit, and however often closing the
    segment is tried, the compaction is told of exactly the deletes that committed, in their
    order; and once the segment is closed, no registered transaction is left and every further
    transaction that wants to delete from it meets a conflict. *)
Theorem compaction_collects_deletes es sg sg1 sg2 requests :
  TrySetCompacting (Some data) sg = (true, sg1) -> allowed es sg1 -> exec_events es sg1 = Ok (sg2, requests) ->
  told requests = deletes_of es /\
  forall sg3, SetNoDelete sg2 = Ok (true, sg3) ->
    delete_txns_ sg3 = ∅ /\ forall txn_id, CheckDeleteConflict [sg3] txn_id = (true, [sg3]).
Proof.
  intros Ht Ha He.
  assert (Hc : compacting data sg1).
  { unfold TrySetCompacting in Ht. destruct (status_ sg); try discriminate Ht. injection Ht as <-. split; cbn; auto. }
  destruct (compaction_run es sg1 sg2 requests (or_introl Hc) Ha He) as [Hc2 Htold]. split; [done|].
  intros sg3 Hn. unfold SetNoDelete in Hn. destruct (status_ sg2); try discriminate Hn; cbn in Hn.
  all: destruct (bool_decide_reflect (delete_txns_ sg2 = ∅)) as [Hempty|]; [|discriminate Hn]; injection Hn as <-; by split.
Qed.
End compaction.

(** [RollbackCompact] does not drop the state of the compaction: when the segment was waiting for a
    transaction to commit, the commit raises after the rollback. *)
Theorem rollback_keeps_compaction data sg txn_id ts bs cols rows sg1 :
  status_ sg = kNoDelete -> compact_state_data_ sg = Some data -> RollbackCompact sg = Ok sg1 ->
  CommitSegment txn_id ts bs cols (Some rows) sg1 = Err Unrecoverable.
Proof.
  intros Hs Hd. unfold RollbackCompact. rewrite Hs. intros [= <-]. unfold CommitSegment, commit_deletes. cbn.
  by rewrite Hd.
Qed.

Definition demo_segment : SegmentEntry :=
  mkSegmentEntry 3 8192 [0] 2 2 10 10 UNCOMMIT_TS UNCOMMIT_TS 10
    [BlockEntry.mkBlockEntry 0 2 2 (mkBlockVersion [mkCreateField 10 2] [0; 0] 10) 10 10 0 0 0 10 [0]]
    None kSealed ∅.

Definition demo_compacting : SegmentEntry := snd (TrySetCompacting (Some 7) demo_segment).
Definition demo_events : list seg_event := [Registers 5; Closes; Deleted 5 20 [0] [] [(0, [1])]; Closes].
Definition demo_result : SegmentEntry * list request :=
  match exec_events demo_events demo_compacting with Ok r => r | Err _ => (demo_segment, []) end.

Lemma demo_run : exec_events demo_events demo_compacting = Ok (fst demo_result, snd demo_result).
Proof. vm_compute. reflexivity. Qed.

Lemma demo_allowed : allowed demo_events demo_compacting.
Proof. repeat (split; [done|]). vm_compute. done. Qed.

Lemma compaction_collects_deletes_witness :
  exec_events demo_events demo_compacting = Ok (fst demo_result, snd demo_result) /\
  told (snd demo_result) = deletes_of demo_events.
Proof.
  split; [exact demo_run|].
  exact (proj1 (compaction_collects_deletes 7 demo_events demo_segment demo_compacting (fst demo_result) (snd demo_result)
    eq_refl demo_allowed demo_run)).
Defined.
