(* ===== verification/Compaction.v ===== *)
(** * Choosing segments to compact: [src/src/storage/compaction/DBT_compaction_alg.cpp]

    The segments of a table are kept in layers by their number of rows. A layer with enough
    segments gives its smallest ones to a compaction, which later commits or is rolled back.

    A segment is its id; [rows] is the number of its rows at the time of a call, and [iteration]
    the order in which that call visits a hash map. Two things are parameters: the quotient of two
    floating-point logarithms that selects a layer ([log_quotient]) and the arrangement
    [std::nth_element] leaves ([nth_element]). *)
From stdpp Require Import sorting.
From S2P Require Import Prelude.

Class CompactionEnv := {
  log_quotient : Z -> Z -> Z;
  nth_element : nat -> list (Z * Z) -> list (Z * Z);
}.

(** [nth_element] permutes its range such that the first
    [n] elements are not greater than the others. *)
Class CompactionEnvLaws `{CompactionEnv} : Prop := {
  nth_element_perm n l : nth_element n l ≡ₚ l;
  nth_element_order n l x y : x ∈ take n (nth_element n l) -> y ∈ drop n (nth_element n l) -> x.2 <= y.2;
}.

(** ** [SegmentLayer] *)
Record SegmentLayer := mkSegmentLayer {
  segments_ : gset Z;
  compacting_segments_map_ : gmap Z (list Z);
}.

Module SegmentLayer.
Section layer.
Context `{CompactionEnv}.
Implicit Types (l : SegmentLayer) (segment_id txn_id : Z).

Definition empty : SegmentLayer := mkSegmentLayer ∅ ∅.

Definition AddSegment segment_id l : res SegmentLayer :=
  if decide (segment_id ∈ segments_ l) then Err Unrecoverable
  else Ok (mkSegmentLayer ({[segment_id]} ∪ segments_ l) (compacting_segments_map_ l)).

Definition RemoveSegment segment_id l : res SegmentLayer :=
  if decide (segment_id ∈ segments_ l)
  then Ok (mkSegmentLayer (segments_ l ∖ {[segment_id]}) (compacting_segments_map_ l))
  else Err Unrecoverable.

Definition LayerSize l : Z := Z.of_nat (size (segments_ l)).

(** The first [M] segments that [nth_element] leaves; none when they have too many rows together. *)
Definition PickCompacting (iteration : gset Z -> list Z) (rows : Z -> Z) txn_id (M max_capacity : Z) l : res (list Z * SegmentLayer) :=
  check? negb (LayerSize l <? M) else Unrecoverable in
  let segments := map (fun id => (id, rows id)) (iteration (segments_ l)) in
  let first := take (Z.to_nat M) (nth_element (Z.to_nat M) segments) in
  let ret := map fst first in
  let total_row_cnt := foldl (fun n s => u64 (n + s.2)) 0 first in
  if max_capacity <? total_row_cnt then Ok ([], l)
  else
    match compacting_segments_map_ l !! txn_id with
    | Some _ => Err Unrecoverable
    | None => Ok (ret, mkSegmentLayer (segments_ l ∖ list_to_set ret) (<[txn_id := ret]> (compacting_segments_map_ l)))
    end.

Definition CommitCompact txn_id l : res SegmentLayer :=
  match compacting_segments_map_ l !! txn_id with
  | None => Err Unrecoverable
  | Some _ => Ok (mkSegmentLayer (segments_ l) (delete txn_id (compacting_segments_map_ l)))
  end.

Fixpoint add_segments (ids : list Z) l : res SegmentLayer :=
  match ids with
  | [] => Ok l
  | id :: ids => let? l := AddSegment id l in add_segments ids l
  end.
Definition RollbackCompact txn_id l : res SegmentLayer :=
  match compacting_segments_map_ l !! txn_id with
  | None => Err Unrecoverable
  | Some ids =>
      let? l := add_segments ids l in
      Ok (mkSegmentLayer (segments_ l) (delete txn_id (compacting_segments_map_ l)))
  end.

Definition FindSegment segment_id l : bool := bool_decide (segment_id ∈ segments_ l).
End layer.
End SegmentLayer.

(** ** [DBTCompactionAlg] *)
Inductive CompactionStatus := kDisable | kEnable | kRunning.

#[export] Instance CompactionStatus_eq_dec : EqDecision CompactionStatus.
Proof. solve_decision. Defined.

Record DBTConfig := mkDBTConfig { m_ : Z; c_ : Z; s_ : Z }.

Record DBTCompactionAlg := mkDBTCompactionAlg {
  config_ : DBTConfig;
  max_segment_capacity_ : Z;
  status_ : CompactionStatus;
  segment_layers_ : list SegmentLayer;
  running_task_n_ : Z;
  txn_2_layer_ : gmap Z Z;
}.

Module DBTConfig.
Definition make (m c s : Z) : res DBTConfig :=
  check? negb ((m <=? 0) || (c <? m) || (s <=? 0)) else Unrecoverable in Ok (mkDBTConfig m c s).

Definition CalculateLayer `{CompactionEnv} (config : DBTConfig) (row_cnt : Z) : Z :=
  Z.max 0 (log_quotient (row_cnt / s_ config) (c_ config)).
End DBTConfig.

Module DBTCompactionAlg.
Section alg.
Context `{CompactionEnv}.
Implicit Types (a : DBTCompactionAlg) (rows : Z -> Z).

Definition make (config : DBTConfig) (max_segment_capacity : Z) : DBTCompactionAlg :=
  mkDBTCompactionAlg config max_segment_capacity kDisable [] 0 ∅.

Definition set_layers (layers : list SegmentLayer) a : DBTCompactionAlg :=
  mkDBTCompactionAlg (config_ a) (max_segment_capacity_ a) (status_ a) layers (running_task_n_ a) (txn_2_layer_ a).
Definition set_tasks (status : CompactionStatus) (n : Z) (t : gmap Z Z) a : DBTCompactionAlg :=
  mkDBTCompactionAlg (config_ a) (max_segment_capacity_ a) status (segment_layers_ a) n t.

(** The loop over the layers, from the last one down; [n] layers are left. *)
Fixpoint check_layers iteration rows (txn_id : Z) (n : nat) a : res (list Z * DBTCompactionAlg) :=
  match n with
  | O => Ok ([], a)
  | S layer =>
      match segment_layers_ a !! layer with
      | None => Err Undefined
      | Some l =>
          if m_ (config_ a) <=? SegmentLayer.LayerSize l then
            let? (compact_segments, l') :=
              SegmentLayer.PickCompacting iteration rows txn_id (m_ (config_ a)) (max_segment_capacity_ a) l in
            match compact_segments with
            | [] => check_layers iteration rows txn_id layer a
            | _ =>
                let n := running_task_n_ a + 1 in
                let txn_2_layer := match txn_2_layer_ a !! txn_id with
                                   | Some _ => txn_2_layer_ a
                                   | None => <[txn_id := Z.of_nat layer]> (txn_2_layer_ a)
                                   end in
                Ok (compact_segments,
                    set_tasks (if n =? 1 then kRunning else status_ a) n txn_2_layer
                      (set_layers (<[layer := l']> (segment_layers_ a)) a))
            end
          else check_layers iteration rows txn_id layer a
      end
  end.

Definition CheckCompaction iteration rows (txn_id : Z) a : res (list Z * DBTCompactionAlg) :=
  if decide (status_ a = kDisable) then Ok ([], a)
  else check_layers iteration rows txn_id (length (segment_layers_ a)) a.

Definition AddSegmentInner rows (segment_id : Z) a : res DBTCompactionAlg :=
  let layer := Z.to_nat (DBTConfig.CalculateLayer (config_ a) (u32 (rows segment_id))) in
  let layers := segment_layers_ a ++ replicate (S layer - length (segment_layers_ a)) SegmentLayer.empty in
  match layers !! layer with
  | None => Err Undefined
  | Some l => let? l := SegmentLayer.AddSegment segment_id l in Ok (set_layers (<[layer := l]> layers) a)
  end.

Definition AddSegment rows (segment_id : Z) a : res DBTCompactionAlg := AddSegmentInner rows segment_id a.

Fixpoint find_layer (segment_id : Z) (layer : nat) (layers : list SegmentLayer) : option nat :=
  match layers with
  | [] => None
  | l :: layers => if SegmentLayer.FindSegment segment_id l then Some layer else find_layer segment_id (S layer) layers
  end.
Definition FindSegmentAndLayer (segment_id : Z) a : option nat := find_layer segment_id 0 (segment_layers_ a).

Definition DeleteInSegment rows (segment_id : Z) a : res DBTCompactionAlg :=
  match FindSegmentAndLayer segment_id a with
  | None => Ok a
  | Some old_layer =>
      let new_layer := Z.to_nat (DBTConfig.CalculateLayer (config_ a) (u32 (rows segment_id))) in
      if (new_layer =? old_layer)%nat then Ok a
      else
        check? negb (old_layer <? new_layer)%nat else Unrecoverable in
        match segment_layers_ a !! old_layer, segment_layers_ a !! new_layer with
        | Some l_old, Some l_new =>
            let? l_old := SegmentLayer.RemoveSegment segment_id l_old in
            let? l_new := SegmentLayer.AddSegment segment_id l_new in
            Ok (set_layers (<[new_layer := l_new]> (<[old_layer := l_old]> (segment_layers_ a))) a)
        | _, _ => Err Undefined
        end
  end.

(** The end of [CommitCompact] and [RollbackCompact]: one task less. *)
Definition task_done (txn_id : Z) a : DBTCompactionAlg :=
  let n := running_task_n_ a - 1 in
  set_tasks (if n =? 0 then kEnable else status_ a) n (delete txn_id (txn_2_layer_ a)) a.

Definition finish (f : SegmentLayer -> res SegmentLayer) (txn_id : Z) a : res DBTCompactionAlg :=
  check? bool_decide (status_ a = kRunning) else Unrecoverable in
  match txn_2_layer_ a !! txn_id with
  | None => Err Unrecoverable
  | Some layer =>
      match segment_layers_ a !! Z.to_nat layer with
      | None => Err Undefined
      | Some l =>
          let? l := f l in
          Ok (task_done txn_id (set_layers (<[Z.to_nat layer := l]> (segment_layers_ a)) a))
      end
  end.

Definition CommitCompact (commit_txn_id : Z) : DBTCompactionAlg -> res DBTCompactionAlg :=
  finish (SegmentLayer.CommitCompact commit_txn_id) commit_txn_id.
Definition RollbackCompact (rollback_txn_id : Z) : DBTCompactionAlg -> res DBTCompactionAlg :=
  finish (SegmentLayer.RollbackCompact rollback_txn_id) rollback_txn_id.

Fixpoint add_all rows (ids : list Z) a : res DBTCompactionAlg :=
  match ids with
  | [] => Ok a
  | id :: ids => let? a := AddSegmentInner rows id a in add_all rows ids a
  end.
Definition Enable rows (ids : list Z) a : res DBTCompactionAlg :=
  let? a := add_all rows ids a in
  check? running_task_n_ a =? 0 else Unrecoverable in
  Ok (set_tasks kEnable (running_task_n_ a) (txn_2_layer_ a) a).

(** [Disable] waits until no compaction runs: [None] is a call that waits. *)
Definition Disable a : option DBTCompactionAlg :=
  if decide (status_ a = kEnable)
  then Some (set_tasks kDisable (running_task_n_ a) (txn_2_layer_ a) (set_layers [] a))
  else None.
End alg.
End DBTCompactionAlg.
