(* ===== verification/CompactionHistory.v ===== *)
(** * The schedule of compactions

    What the layers hold together is a set of idle segments and, for each running compaction, the
    segments it was given. Every call moves segments between them; no segment is lost, known
    twice, or given to two compactions. *)
From stdpp Require Import sorting.
From S2P Require Import Prelude Compaction.

Section schedule.
Context `{CompactionEnvLaws}.
Implicit Types (a : DBTCompactionAlg) (l : SegmentLayer) (layers : list SegmentLayer) (ids : list Z).

Definition idle_of layers : list Z := flat_map (fun l => elements (segments_ l)) layers.
Definition running_of layers : list (Z * list Z) := flat_map (fun l => map_to_list (compacting_segments_map_ l)) layers.

(** The abstract schedule. *)
Record schedule := mkSchedule { idle : list Z; running : list (Z * list Z) }.
Definition schedule_of a : schedule := mkSchedule (idle_of (segment_layers_ a)) (running_of (segment_layers_ a)).
Definition known (s : schedule) : list Z := idle s ++ flat_map snd (running s).

(** The compactions of layer [n]. *)
Definition compactions layers (n : nat) : gmap Z (list Z) :=
  match layers !! n with Some l => compacting_segments_map_ l | None => ∅ end.

Definition txns_ok (txns : gmap Z Z) layers : Prop :=
  forall t i, txns !! t = Some i <-> exists n, i = Z.of_nat n /\ is_Some (compactions layers n !! t).

Record alg_ok a : Prop := {
  ao_known : NoDup (known (schedule_of a));
  ao_txns : txns_ok (txn_2_layer_ a) (segment_layers_ a);
  ao_tasks : running_task_n_ a = Z.of_nat (length (running_of (segment_layers_ a)));
  ao_status : status_ a = kRunning <-> 0 < running_task_n_ a;
  ao_config : 0 < m_ (config_ a);
}.

(** ** Layers *)
Lemma flat_map_insert {A : Type} (f : SegmentLayer -> list A) layers i l l' : layers !! i = Some l ->
  flat_map f (<[i := l']> layers) ++ f l ≡ₚ flat_map f layers ++ f l'.
Proof.
  revert i. induction layers as [|l0 layers IH]; intros [|i] E; cbn in *; [done|done| |].
  - injection E as ->. solve_Permutation.
  - rewrite <- !(assoc_L (++)), (IH i E). done.
Qed.

Lemma flat_map_insert_same {A : Type} (f : SegmentLayer -> list A) layers i l l' : layers !! i = Some l -> f l' ≡ₚ f l ->
  flat_map f (<[i := l']> layers) ≡ₚ flat_map f layers.
Proof.
  intros E Ef. pose proof (flat_map_insert f layers i l l' E) as Hp. rewrite Ef in Hp.
  by apply (Permutation_app_inv_r (f l)).
Qed.

Lemma flat_map_insert_add {A : Type} (f : SegmentLayer -> list A) layers i l l' new : layers !! i = Some l ->
  f l' ≡ₚ new ++ f l -> flat_map f (<[i := l']> layers) ≡ₚ new ++ flat_map f layers.
Proof.
  intros E Ef. pose proof (flat_map_insert f layers i l l' E) as Hp. rewrite Ef in Hp.
  apply (Permutation_app_inv_r (f l)). rewrite Hp. solve_Permutation.
Qed.

Lemma flat_map_insert_drop {A : Type} (f : SegmentLayer -> list A) layers i l l' old : layers !! i = Some l ->
  f l ≡ₚ old ++ f l' -> flat_map f layers ≡ₚ old ++ flat_map f (<[i := l']> layers).
Proof.
  intros E Ef. pose proof (flat_map_insert f layers i l l' E) as Hp. rewrite Ef in Hp.
  apply (Permutation_app_inv_r (f l')). rewrite <- Hp. solve_Permutation.
Qed.

Lemma idle_elem layers x : x ∈ idle_of layers <-> exists i l, layers !! i = Some l /\ x ∈ segments_ l.
Proof.
  unfold idle_of. rewrite list_elem_of_In, in_flat_map. setoid_rewrite <- list_elem_of_In.
  setoid_rewrite elem_of_elements. split.
  - intros (l & [i Hi]%list_elem_of_lookup_1 & Hx). by exists i, l.
  - intros (i & l & Hi & Hx). exists l. split; [by eapply list_elem_of_lookup_2|done].
Qed.

Lemma running_elem layers t ids : (t, ids) ∈ running_of layers <->
  exists i l, layers !! i = Some l /\ compacting_segments_map_ l !! t = Some ids.
Proof.
  unfold running_of. rewrite list_elem_of_In, in_flat_map. setoid_rewrite <- list_elem_of_In.
  setoid_rewrite elem_of_map_to_list. split.
  - intros (l & [i Hi]%list_elem_of_lookup_1 & Hx). by exists i, l.
  - intros (i & l & Hi & Hx). exists l. split; [by eapply list_elem_of_lookup_2|done].
Qed.

Lemma elements_difference_list (X : gset Z) ids : NoDup ids -> list_to_set ids ⊆ X ->
  elements X ≡ₚ ids ++ elements (X ∖ list_to_set ids).
Proof.
  intros Hn Hs. rewrite (union_difference_L (list_to_set ids) X Hs) at 1.
  rewrite elements_disj_union by set_solver. by rewrite elements_list_to_set.
Qed.

Lemma add_segments_ok ids l : NoDup ids -> Forall (fun x => x ∉ segments_ l) ids ->
  exists l', SegmentLayer.add_segments ids l = Ok l' /\ elements (segments_ l') ≡ₚ ids ++ elements (segments_ l) /\
    compacting_segments_map_ l' = compacting_segments_map_ l.
Proof.
  intros Hn. revert l. induction Hn as [|x ids Hx Hn IH]; intros l Hf; cbn; [by exists l|].
  apply Forall_cons_1 in Hf as [Hxl Hf]. unfold SegmentLayer.AddSegment. rewrite decide_False by done. cbn.
  destruct (IH (mkSegmentLayer ({[x]} ∪ segments_ l) (compacting_segments_map_ l))) as (l' & -> & Hp & Hc).
  { apply Forall_forall. intros y Hy. cbn. rewrite elem_of_union, elem_of_singleton. intros [->|Hyl]; [done|].
    rewrite Forall_forall in Hf. by apply (Hf y). }
  exists l'. split_and!; [done| |done]. rewrite Hp. cbn [segments_]. rewrite elements_union_singleton by done.
  solve_Permutation.
Qed.

Lemma find_layer_Some segment_id n layers i : DBTCompactionAlg.find_layer segment_id n layers = Some i ->
  exists l, (n <= i)%nat /\ layers !! (i - n)%nat = Some l /\ segment_id ∈ segments_ l.
Proof.
  revert n. induction layers as [|l layers IH]; intros n E; cbn in E; [done|].
  unfold SegmentLayer.FindSegment in E. destruct (bool_decide_reflect (segment_id ∈ segments_ l)) as [Hin|].
  - injection E as <-. exists l. rewrite Nat.sub_diag. done.
  - destruct (IH _ E) as (l' & Hle & Hl & Hin). exists l'. split_and!; [lia| |done].
    replace (i - n)%nat with (S (i - S n)) by lia. done.
Qed.

(** ** Picking *)

(** The number of rows of a list of segments, and the [m] smallest of the segments of a layer. *)
Definition total_rows (rows : Z -> Z) ids : Z := foldl (fun n id => u64 (n + rows id)) 0 ids.

Record smallest (rows : Z -> Z) (m : Z) l (picked : list Z) : Prop := {
  sm_count : Z.of_nat (length picked) = m;
  sm_from : Forall (fun x => x ∈ segments_ l) picked;
  sm_order x y : x ∈ picked -> y ∈ segments_ l -> y ∉ picked -> rows x <= rows y;
}.

(** A layer gives no segments: it has too few, or its smallest do not fit into one segment. *)
Definition blocked (rows : Z -> Z) (m max_capacity : Z) l : Prop :=
  SegmentLayer.LayerSize l < m \/ exists p, smallest rows m l p /\ max_capacity < total_rows rows p.

(** An iteration visits every segment once. *)
Definition visits_all (iteration : gset Z -> list Z) : Prop := forall X, iteration X ≡ₚ elements X.

Lemma total_rows_map rows (l : list (Z * Z)) n : Forall (fun s => s.2 = rows s.1) l ->
  foldl (fun n s => u64 (n + s.2)) n l = foldl (fun n id => u64 (n + rows id)) n (map fst l).
Proof. intros Hl. revert n. induction Hl as [|s l Hs _ IH]; intros n; cbn; [done|]. by rewrite IH, Hs. Qed.

Lemma pick_ok iteration rows t M max_capacity l : visits_all iteration -> 0 < M -> M <= SegmentLayer.LayerSize l -> compacting_segments_map_ l !! t = None ->
  exists picked l', SegmentLayer.PickCompacting iteration rows t M max_capacity l = Ok (picked, l') /\
    (picked = [] /\ l' = l /\ blocked rows M max_capacity l \/
     smallest rows M l picked /\ total_rows rows picked <= max_capacity /\ NoDup picked /\ elements (segments_ l) ≡ₚ picked ++ elements (segments_ l') /\
     compacting_segments_map_ l' = <[t := picked]> (compacting_segments_map_ l)).
Proof.
  intros Hit HM Hsize Ht. unfold SegmentLayer.PickCompacting. rewrite (proj2 (Z.ltb_ge _ _)) by done. cbn [negb].
  set (segs := map (fun id => (id, rows id)) (iteration (segments_ l))). set (arr := nth_element (Z.to_nat M) segs).
  set (first := take (Z.to_nat M) arr).
  assert (Harr : arr ≡ₚ segs) by apply nth_element_perm.
  assert (Hids : map fst arr ≡ₚ elements (segments_ l)).
  { rewrite Harr. subst segs. rewrite map_map. cbn. rewrite map_id. apply Hit. }
  assert (Hrow : forall x, x ∈ arr -> x.2 = rows x.1).
  { intros x. rewrite Harr. subst segs. intros (id & -> & _)%list_elem_of_fmap. done. }
  assert (Hlen : length (map fst arr) = size (segments_ l)) by (rewrite Hids; done). rewrite length_map in Hlen.
  assert (Hsplit : map fst first ++ map fst (drop (Z.to_nat M) arr) ≡ₚ elements (segments_ l)).
  { rewrite <- map_app. subst first. by rewrite take_drop. }
  assert (Hnd : NoDup (map fst first ++ map fst (drop (Z.to_nat M) arr))) by (rewrite Hsplit; apply NoDup_elements).
  apply NoDup_app in Hnd as (Hnd & Hdis & _).
  assert (Hsub : Forall (fun x => x ∈ segments_ l) (map fst first)).
  { apply Forall_forall. intros x Hx. rewrite <- elem_of_elements, <- Hsplit. apply elem_of_app. by left. }
  rewrite (total_rows_map rows); cycle 1.
  { apply Forall_forall. intros x Hx. apply Hrow. rewrite <- (take_drop (Z.to_nat M) arr). apply elem_of_app. by left. }
  assert (Hsm : smallest rows M l (map fst first)).
  { split; [|done|].
    - rewrite length_map. subst first. rewrite length_take. unfold SegmentLayer.LayerSize in Hsize. lia.
    - intros x y (sx & -> & Hx)%list_elem_of_fmap Hy Hny. rewrite <- elem_of_elements, <- Hsplit in Hy.
      apply elem_of_app in Hy as [Hy|(sy & -> & Hy)%list_elem_of_fmap]; [done|].
      rewrite <- (Hrow sx), <- (Hrow sy).
      + by apply (nth_element_order (Z.to_nat M) segs).
      + rewrite <- (take_drop (Z.to_nat M) arr). apply elem_of_app. by right.
      + rewrite <- (take_drop (Z.to_nat M) arr). apply elem_of_app. by left. }
  fold (total_rows rows (map fst first)).
  destruct (Z.ltb_spec max_capacity (total_rows rows (map fst first))) as [Hbig|Hfit].
  { exists [], l. split; [done|]. left. split_and!; [done..|]. right. eauto. }
  rewrite Ht. eexists _, _. split; [done|]. right. split_and!; cbn; [done..| |done].
  apply elements_difference_list; [done|]. intros x Hx%elem_of_list_to_set. rewrite Forall_forall in Hsub. by apply Hsub.
Qed.

(** ** The table of transactions *)
Lemma compactions_insert layers i l' n : (i < length layers)%nat ->
  compactions (<[i := l']> layers) n = if decide (i = n) then compacting_segments_map_ l' else compactions layers n.
Proof.
  intros Hi. unfold compactions. case_decide as E; [subst n; by rewrite list_lookup_insert_eq|by rewrite list_lookup_insert_ne].
Qed.

Lemma txns_ok_ext txns layers layers' : (forall n, compactions layers' n = compactions layers n) ->
  txns_ok txns layers -> txns_ok txns layers'.
Proof. intros E Hok t i. rewrite (Hok t i). by setoid_rewrite E. Qed.

Lemma txns_ok_start txns layers i l l' t ids : txns_ok txns layers -> layers !! i = Some l -> txns !! t = None ->
  compacting_segments_map_ l' = <[t := ids]> (compacting_segments_map_ l) ->
  txns_ok (<[t := Z.of_nat i]> txns) (<[i := l']> layers).
Proof.
  intros Hok Hl Ht El t' j. pose proof (lookup_lt_Some _ _ _ Hl) as Hi. 
  setoid_rewrite (fun n => compactions_insert layers i l' n Hi). rewrite El.
  destruct (decide (t = t')) as [<-|Hne].
  - rewrite lookup_insert_eq. split.
    + intros [= <-]. exists i. rewrite decide_True by done. rewrite lookup_insert_eq. eauto.
    + intros (n & -> & Hs). case_decide as E; [by subst|]. exfalso.
      assert (txns !! t = Some (Z.of_nat n)) by (apply Hok; eauto). congruence.
  - rewrite lookup_insert_ne, (Hok t' j) by done. split; intros (n & -> & Hs); exists n; (split; [done|]); case_decide as E; try done.
    + subst n. unfold compactions in Hs. rewrite Hl in Hs. by rewrite lookup_insert_ne.
    + subst n. unfold compactions. rewrite Hl. by rewrite lookup_insert_ne in Hs.
Qed.

Lemma txns_ok_finish txns layers i l l' t : txns_ok txns layers -> layers !! i = Some l -> txns !! t = Some (Z.of_nat i) ->
  compacting_segments_map_ l' = delete t (compacting_segments_map_ l) ->
  txns_ok (delete t txns) (<[i := l']> layers).
Proof.
  intros Hok Hl Ht El t' j. pose proof (lookup_lt_Some _ _ _ Hl) as Hi. 
  setoid_rewrite (fun n => compactions_insert layers i l' n Hi). rewrite El.
  destruct (decide (t = t')) as [<-|Hne].
  - rewrite lookup_delete_eq. split; [done|]. intros (n & -> & Hs). exfalso. case_decide as E.
    + rewrite lookup_delete_eq in Hs. by destruct Hs.
    + assert (txns !! t = Some (Z.of_nat n)) by (apply Hok; eauto). by simplify_eq.
  - rewrite lookup_delete_ne, (Hok t' j) by done. split; intros (n & -> & Hs); exists n; (split; [done|]); case_decide as E; try done.
    + subst n. unfold compactions in Hs. rewrite Hl in Hs. by rewrite lookup_delete_ne.
    + subst n. unfold compactions. rewrite Hl. by rewrite lookup_delete_ne in Hs.
Qed.

(** ** The calls *)
Lemma known_perm s s' : idle s ≡ₚ idle s' -> running s ≡ₚ running s' -> known s ≡ₚ known s'.
Proof. intros E1 E2. unfold known. by rewrite E1, E2. Qed.

Lemma add_ok rows x a : alg_ok a -> x ∉ known (schedule_of a) ->
  exists a', DBTCompactionAlg.AddSegmentInner rows x a = Ok a' /\ alg_ok a' /\
    idle (schedule_of a') ≡ₚ x :: idle (schedule_of a) /\ running (schedule_of a') ≡ₚ running (schedule_of a) /\
    status_ a' = status_ a /\ running_task_n_ a' = running_task_n_ a.
Proof.
  intros Hok Hx. pose proof Hok as [Hk Ht Hn Hs Hm]. unfold DBTCompactionAlg.AddSegmentInner.
  set (n := Z.to_nat (DBTConfig.CalculateLayer _ _)). set (layers := segment_layers_ a ++ _).
  assert (Hlt : (n < length layers)%nat) by (subst layers; rewrite length_app, length_replicate; lia).
  destruct (lookup_lt_is_Some_2 layers n Hlt) as [l Hl]. rewrite Hl.
  assert (Hempty : forall A (f : SegmentLayer -> list A), f SegmentLayer.empty = [] -> flat_map f layers = flat_map f (segment_layers_ a)).
  { intros A f Ef. subst layers. rewrite flat_map_app. set (k := (S n - _)%nat). clearbody k. clear -Ef.
    replace (flat_map f (replicate k SegmentLayer.empty)) with (@nil A); [apply app_nil_r|].
    induction k as [|k IH]; cbn; [done|]. by rewrite Ef, <- IH. }
  assert (Hi : idle_of layers = idle (schedule_of a)) by (by apply Hempty).
  assert (Hr : running_of layers = running (schedule_of a)) by (by apply Hempty).
  assert (Hxl : x ∉ segments_ l).
  { intros Hin. apply Hx, elem_of_app. left. rewrite <- Hi. apply idle_elem. eauto. }
  unfold SegmentLayer.AddSegment. rewrite decide_False by done. cbn [res_bind].
  set (l' := mkSegmentLayer _ _). eexists. split; [reflexivity|].
  assert (Ei : idle_of (<[n := l']> layers) ≡ₚ x :: idle (schedule_of a)).
  { rewrite <- Hi. apply (flat_map_insert_add _ layers n l l' [x]); [done|]. subst l'. cbn. by rewrite elements_union_singleton. }
  assert (Er : running_of (<[n := l']> layers) ≡ₚ running (schedule_of a)).
  { rewrite <- Hr. by apply (flat_map_insert_same _ layers n l l'). }
  split_and!; [|exact Ei|exact Er|done|done]. split; cbn; try done.
  - change (known _) with (idle_of (<[n := l']> layers) ++ flat_map snd (running_of (<[n := l']> layers))).
    rewrite Ei, Er. by apply NoDup_cons.
  - eapply txns_ok_ext; [|exact Ht]. intros j. rewrite compactions_insert by done. case_decide as E.
    + subst j. subst l'. cbn. unfold compactions. destruct (segment_layers_ a !! n) as [l0|] eqn:E0.
      * assert (layers !! n = Some l0) by (by apply lookup_app_l_Some). congruence.
      * apply lookup_ge_None in E0. subst layers. rewrite lookup_app_r in Hl by done.
        apply lookup_replicate in Hl as [-> _]. done.
    + unfold compactions, layers. destruct (segment_layers_ a !! j) as [l0|] eqn:E0; [by rewrite (lookup_app_l_Some _ _ _ _ E0)|].
      apply lookup_ge_None in E0. rewrite lookup_app_r by done. destruct (replicate _ _ !! _) as [l0|] eqn:E1; [|done].
      apply lookup_replicate in E1 as [-> _]. done.
  - rewrite Er. done.
Qed.

Lemma layer_compaction a t i : alg_ok a -> txn_2_layer_ a !! t = Some i ->
  exists n l ids, i = Z.of_nat n /\ segment_layers_ a !! n = Some l /\ compacting_segments_map_ l !! t = Some ids.
Proof.
  intros Hok Ht. apply (ao_txns _ Hok) in Ht as (n & -> & ids & Hids). unfold compactions in Hids.
  destruct (segment_layers_ a !! n) as [l|] eqn:E; [|by rewrite lookup_empty in Hids]. by exists n, l, ids.
Qed.

(** The layers from [i] on, below layer [n], give no segments. *)
Definition all_blocked (rows : Z -> Z) a (i n : nat) : Prop :=
  forall j l, (i <= j < n)%nat -> segment_layers_ a !! j = Some l ->
    blocked rows (m_ (config_ a)) (max_segment_capacity_ a) l.

Lemma all_blocked_S rows a i n l : segment_layers_ a !! n = Some l ->
  blocked rows (m_ (config_ a)) (max_segment_capacity_ a) l -> all_blocked rows a i n -> all_blocked rows a i (S n).
Proof.
  intros Hl Hb Ha j l' Hj Hl'. destruct (decide (j = n)) as [->|]; [by simplify_eq|]. apply (Ha j); [lia|done].
Qed.

(** The segments that a compaction gets. *)
Definition picks (rows : Z -> Z) a (n : nat) (picked : list Z) : Prop :=
  exists i l, segment_layers_ a !! i = Some l /\ smallest rows (m_ (config_ a)) l picked /\
    total_rows rows picked <= max_segment_capacity_ a /\ all_blocked rows a (S i) n.

Definition check_result (rows : Z -> Z) (t : Z) (n : nat) a (picked : list Z) (a' : DBTCompactionAlg) : Prop :=
  picked = [] /\ a' = a /\ all_blocked rows a 0 n \/
  picks rows a n picked /\ idle (schedule_of a) ≡ₚ picked ++ idle (schedule_of a') /\
  running (schedule_of a') ≡ₚ (t, picked) :: running (schedule_of a) /\ status_ a' = kRunning.

Lemma check_result_S rows t n a picked a' l : segment_layers_ a !! n = Some l ->
  blocked rows (m_ (config_ a)) (max_segment_capacity_ a) l ->
  check_result rows t n a picked a' -> check_result rows t (S n) a picked a'.
Proof.
  intros Hl Hb [(-> & -> & Ha)|((i & l' & Hi & Hsm & Hfit & Ha) & Hrest)].
  - left. split_and!; [done..|]. by apply all_blocked_S with l.
  - right. split; [|done]. exists i, l'. split_and!; [done..|]. by apply all_blocked_S with l.
Qed.

Lemma check_layers_ok iteration rows t n a : visits_all iteration -> alg_ok a -> (n <= length (segment_layers_ a))%nat ->
  txn_2_layer_ a !! t = None -> status_ a <> kDisable ->
  exists picked a', DBTCompactionAlg.check_layers iteration rows t n a = Ok (picked, a') /\ alg_ok a' /\
    check_result rows t n a picked a'.
Proof.
  intros Hit Hok Hn Ht Hst. induction n as [|n IH]; cbn [DBTCompactionAlg.check_layers].
  { exists [], a. split_and!; [done..|]. left. split_and!; [done..|]. intros j l Hj. lia. }
  pose proof Hok as [Hk Htx Hrun Hs Hm].
  destruct (lookup_lt_is_Some_2 (segment_layers_ a) n) as [l Hl]; [lia|]. rewrite Hl.
  assert (Hskip : blocked rows (m_ (config_ a)) (max_segment_capacity_ a) l ->
    exists picked a', DBTCompactionAlg.check_layers iteration rows t n a = Ok (picked, a') /\ alg_ok a' /\
      check_result rows t (S n) a picked a').
  { intros Hb. destruct IH as (picked & a' & E & Hok' & Hres); [lia|]. exists picked, a'. split_and!; [done..|].
    by apply check_result_S with l. }
  destruct (Z.leb_spec (m_ (config_ a)) (SegmentLayer.LayerSize l)) as [Hsz|Hsz]; [|by apply Hskip; left].
  assert (Hc : compacting_segments_map_ l !! t = None).
  { destruct (compacting_segments_map_ l !! t) as [ids|] eqn:E; [|done].
    assert (txn_2_layer_ a !! t = Some (Z.of_nat n)); [|congruence].
    apply Htx. exists n. unfold compactions. rewrite Hl, E. eauto. }
  destruct (pick_ok iteration rows t (m_ (config_ a)) (max_segment_capacity_ a) l Hit Hm Hsz Hc) as (picked & l' & -> & [(-> & -> & Hb)|(Hp & Hfit & Hnd & He & Em)]);
    cbn [res_bind]; [by apply Hskip|].
  destruct picked as [|x picked]; [destruct Hp as [Hp _ _]; cbn in Hp; lia|]. set (ids := x :: picked) in *. rewrite Ht.
  eexists _, _. split; [reflexivity|].
  assert (Ei : idle_of (segment_layers_ a) ≡ₚ ids ++ idle_of (<[n := l']> (segment_layers_ a))) by (by apply flat_map_insert_drop with l).
  assert (Er : running_of (<[n := l']> (segment_layers_ a)) ≡ₚ (t, ids) :: running_of (segment_layers_ a)).
  { apply (flat_map_insert_add _ _ n l l' [(t, ids)]); [done|]. rewrite Em. by rewrite map_to_list_insert. }
  assert (Hpos : 0 <= running_task_n_ a) by lia.
  assert (Est : (if running_task_n_ a + 1 =? 1 then kRunning else status_ a) = kRunning).
  { destruct (Z.eqb_spec (running_task_n_ a + 1) 1); [done|]. apply Hs. lia. }
  split; [|right; split_and!; [exists n, l; split_and!; [done..|intros j ? Hj; lia]|exact Ei|exact Er|exact Est]]. split; cbn -[Z.add].
  - change (known _) with (idle_of (<[n := l']> (segment_layers_ a)) ++ flat_map snd (running_of (<[n := l']> (segment_layers_ a)))).
    rewrite Er. cbn [flat_map snd]. unfold known in Hk. cbn [idle running schedule_of] in Hk. rewrite Ei in Hk.
    eapply NoDup_Permutation_proper; [|exact Hk]. solve_Permutation.
  - by apply txns_ok_start with l ids.
  - rewrite Er. cbn [length]. lia.
  - rewrite Est. split; [lia|done].
  - done.
Qed.

(** The end of a compaction; [back] are the segments that become idle again. *)
Lemma finish_ok f t back a : alg_ok a -> 
  (forall l ids, compacting_segments_map_ l !! t = Some ids -> NoDup (elements (segments_ l) ++ ids) ->
    exists l', f l = Ok l' /\ elements (segments_ l') ≡ₚ back ids ++ elements (segments_ l) /\
      compacting_segments_map_ l' = delete t (compacting_segments_map_ l)) ->
  (forall ids, exists rest, ids ≡ₚ back ids ++ rest) ->
  forall i, txn_2_layer_ a !! t = Some i ->
  exists ids a', DBTCompactionAlg.finish f t a = Ok a' /\ alg_ok a' /\
    running (schedule_of a) ≡ₚ (t, ids) :: running (schedule_of a') /\
    idle (schedule_of a') ≡ₚ back ids ++ idle (schedule_of a).
Proof.
  intros Hok Hf Hback i Ht. pose proof Hok as [Hk Htx Hrun Hs Hm].
  destruct (layer_compaction a t i Hok Ht) as (n & l & ids & -> & Hl & Hids).
  assert (Hin : (t, ids) ∈ running_of (segment_layers_ a)) by (apply running_elem; by exists n, l).
  assert (Hpos : 0 < running_task_n_ a).
  { rewrite Hrun. destruct (running_of (segment_layers_ a)); [by apply elem_of_nil in Hin|cbn; lia]. }
  unfold DBTCompactionAlg.finish. rewrite bool_decide_eq_true_2 by (by apply Hs). rewrite Ht, Nat2Z.id, Hl.
  assert (Hdis : NoDup (elements (segments_ l) ++ ids)).
  { unfold known in Hk. cbn [idle running schedule_of] in Hk. apply elem_of_Permutation in Hin as [R HR]. rewrite HR in Hk.
    cbn [flat_map snd] in Hk. apply NoDup_app in Hk as (_ & Hd & Hb). apply NoDup_app in Hb as (Hb & _ & _).
    apply NoDup_app. split_and!; [apply NoDup_elements| |done]. intros x Hx Hx'. apply (Hd x).
    - apply idle_elem. exists n, l. split; [done|]. by apply elem_of_elements.
    - apply elem_of_app. by left. }
  destruct (Hf l ids Hids Hdis) as (l' & -> & He & Em). cbn [res_bind].
  assert (Ei : idle_of (<[n := l']> (segment_layers_ a)) ≡ₚ back ids ++ idle_of (segment_layers_ a)) by (by apply flat_map_insert_add with l).
  assert (Er : running_of (segment_layers_ a) ≡ₚ (t, ids) :: running_of (<[n := l']> (segment_layers_ a))).
  { apply (flat_map_insert_drop _ _ n l l' [(t, ids)]); [done|]. rewrite Em. cbn. symmetry. by apply map_to_list_delete. }
  eexists ids, _. split; [reflexivity|]. split; [|split; [exact Er|exact Ei]].
  rewrite Er in Hrun. cbn [length] in Hrun. split; cbn -[Z.sub running_of idle_of]; try done.
  - change (known _) with (idle_of (<[n := l']> (segment_layers_ a)) ++ flat_map snd (running_of (<[n := l']> (segment_layers_ a)))).
    rewrite Ei. unfold known in Hk. cbn [idle running schedule_of] in Hk. rewrite Er in Hk. cbn [flat_map snd] in Hk.
    destruct (Hback ids) as [rest Hrest]. rewrite Hrest in Hk at 1.
    match type of Hk with NoDup ?L => assert (Hp : L ≡ₚ rest ++ ((back ids ++ idle_of (segment_layers_ a)) ++
      flat_map snd (running_of (<[n:=l']> (segment_layers_ a))))) by solve_Permutation end.
    rewrite Hp in Hk. by apply NoDup_app in Hk as (_ & _ & ?).
  - by apply txns_ok_finish with l.
  - lia.
  - destruct (Z.eqb_spec (running_task_n_ a - 1) 0); [split; [done|lia]|]. split; [lia|]. intros _. apply Hs. lia.
Qed.

Lemma idle_unique layers i j l l' x : NoDup (idle_of layers) -> layers !! i = Some l -> layers !! j = Some l' ->
  x ∈ segments_ l -> x ∈ segments_ l' -> i = j.
Proof.
  revert i j. induction layers as [|l0 layers IH]; intros i j Hn Hi Hj Hx Hx'; [done|]. cbn in Hn.
  apply NoDup_app in Hn as (_ & Hd & Hn).
  destruct i as [|i], j as [|j]; cbn in Hi, Hj; [done|..|f_equal; by apply IH].
  - injection Hi as ->. exfalso. apply (Hd x); [by apply elem_of_elements|]. apply idle_elem. by exists j, l'.
  - injection Hj as ->. exfalso. apply (Hd x); [by apply elem_of_elements|]. apply idle_elem. by exists i, l.
Qed.

Definition new_layer (rows : Z -> Z) (x : Z) a : nat := Z.to_nat (DBTConfig.CalculateLayer (config_ a) (u32 (rows x))).

Lemma delete_in_ok rows x a : alg_ok a ->
  (forall i, DBTCompactionAlg.FindSegmentAndLayer x a = Some i -> (new_layer rows x a <= i)%nat) ->
  exists a', DBTCompactionAlg.DeleteInSegment rows x a = Ok a' /\ alg_ok a' /\
    idle (schedule_of a') ≡ₚ idle (schedule_of a) /\ running (schedule_of a') ≡ₚ running (schedule_of a).
Proof.
  intros Hok Hle. pose proof Hok as [Hk Ht Hn Hs Hm]. unfold DBTCompactionAlg.DeleteInSegment. fold (new_layer rows x a).
  destruct (DBTCompactionAlg.FindSegmentAndLayer x a) as [i|] eqn:Ef; [|by exists a]. specialize (Hle i eq_refl).
  destruct (find_layer_Some _ _ _ _ Ef) as (l & _ & Hl & Hx). rewrite Nat.sub_0_r in Hl.
  set (n := new_layer rows x a) in *. destruct (Nat.eqb_spec n i) as [|Hne]; [by exists a|].
  rewrite (proj2 (Nat.ltb_ge i n)) by lia. cbn [negb]. pose proof (lookup_lt_Some _ _ _ Hl) as Hlen.
  destruct (lookup_lt_is_Some_2 (segment_layers_ a) n) as [l2 Hl2]; [lia|]. rewrite Hl, Hl2.
  assert (Hx2 : x ∉ segments_ l2).
  { intros Hx2. unfold known in Hk. apply NoDup_app in Hk as (Hk & _). apply Hne. by apply (idle_unique _ n i l2 l x Hk). }
  unfold SegmentLayer.RemoveSegment, SegmentLayer.AddSegment. rewrite decide_True, decide_False by done. cbn [res_bind].
  set (l' := mkSegmentLayer (segments_ l ∖ _) _). set (l2' := mkSegmentLayer ({[x]} ∪ _) _).
  assert (Hl2' : <[i := l']> (segment_layers_ a) !! n = Some l2) by (by rewrite list_lookup_insert_ne).
  assert (Ei : idle_of (<[n := l2']> (<[i := l']> (segment_layers_ a))) ≡ₚ idle_of (segment_layers_ a)).
  { unfold idle_of at 2. rewrite (flat_map_insert_drop (fun l => elements (segments_ l)) (segment_layers_ a) i l l' [x] Hl).
    - apply (flat_map_insert_add _ _ n l2 l2' [x] Hl2'). subst l2'. cbn. by rewrite elements_union_singleton.
    - subst l'. cbn [segments_]. rewrite (elements_difference_list (segments_ l) [x]); [|by apply NoDup_singleton|set_solver].
      cbn. by rewrite union_empty_r_L. }
  assert (Er : running_of (<[n := l2']> (<[i := l']> (segment_layers_ a))) ≡ₚ running_of (segment_layers_ a)).
  { unfold running_of. rewrite (flat_map_insert_same _ _ n l2 l2' Hl2') by done. by apply (flat_map_insert_same _ _ i l l'). }
  eexists. split; [reflexivity|]. split; [|split; [exact Ei|exact Er]]. split; cbn -[running_of idle_of]; try done.
  - unfold known in *. cbn -[running_of idle_of]. by rewrite Ei, Er.
  - eapply txns_ok_ext; [|exact Ht]. intros j. rewrite !compactions_insert by (rewrite ?length_insert; done || lia).
    unfold compactions. repeat case_decide; subst; rewrite ?Hl, ?Hl2; done.
  - by rewrite Er.
Qed.

Lemma add_all_ok rows ids a : alg_ok a -> NoDup ids -> Forall (fun x => x ∉ known (schedule_of a)) ids ->
  exists a', DBTCompactionAlg.add_all rows ids a = Ok a' /\ alg_ok a' /\
    idle (schedule_of a') ≡ₚ ids ++ idle (schedule_of a) /\ running (schedule_of a') ≡ₚ running (schedule_of a) /\
    running_task_n_ a' = running_task_n_ a.
Proof.
  intros Hok Hn. revert a Hok. induction Hn as [|x ids Hx Hn IH]; intros a Hok Hf; cbn [DBTCompactionAlg.add_all].
  { by exists a. }
  apply Forall_cons_1 in Hf as [Hxk Hf].
  destruct (add_ok rows x a Hok Hxk) as (a1 & -> & Hok1 & Ei & Er & _ & En). cbn [res_bind].
  destruct (IH a1 Hok1) as (a2 & -> & Hok2 & Ei2 & Er2 & En2).
  { apply Forall_forall. intros y Hy. unfold known. rewrite Ei, Er. cbn. rewrite elem_of_cons. intros [->|Hyk]; [done|].
    rewrite Forall_forall in Hf. by apply (Hf y). }
  exists a2. split_and!; [done..| | |congruence].
  - rewrite Ei2, Ei. solve_Permutation.
  - by rewrite Er2.
Qed.

(** ** Histories of calls *)
Inductive call :=
| CAdd (rows : Z -> Z) (segment_id : Z)
| CCheck (iteration : gset Z -> list Z) (rows : Z -> Z) (txn_id : Z)
| CDelete (rows : Z -> Z) (segment_id : Z)
| CCommit (txn_id : Z)
| CRollback (txn_id : Z)
| CEnable (rows : Z -> Z) ids
| CDisable.

(** [None] is a call that waits; the list holds the segments that [CheckCompaction] gives away. *)
Definition exec (c : call) a : option (res (list Z * DBTCompactionAlg)) :=
  match c with
  | CAdd rows x => Some (let? a := DBTCompactionAlg.AddSegment rows x a in Ok ([], a))
  | CCheck iteration rows t => Some (DBTCompactionAlg.CheckCompaction iteration rows t a)
  | CDelete rows x => Some (let? a := DBTCompactionAlg.DeleteInSegment rows x a in Ok ([], a))
  | CCommit t => Some (let? a := DBTCompactionAlg.CommitCompact t a in Ok ([], a))
  | CRollback t => Some (let? a := DBTCompactionAlg.RollbackCompact t a in Ok ([], a))
  | CEnable rows ids => Some (let? a := DBTCompactionAlg.Enable rows ids a in Ok ([], a))
  | CDisable => match DBTCompactionAlg.Disable a with Some a => Some (Ok ([], a)) | None => None end
  end.

(** What the callers respect: segments are new when they are added, a transaction runs one
    compaction and ends it once, deletes do not move a segment to a higher layer, and compactions
    are enabled while none runs. *)
Definition allowed (c : call) a : Prop :=
  let s := schedule_of a in
  match c with
  | CAdd _ x => x ∉ known s
  | CCheck iteration _ t => visits_all iteration /\ t ∉ (running s).*1
  | CDelete rows x => forall i, DBTCompactionAlg.FindSegmentAndLayer x a = Some i -> (new_layer rows x a <= i)%nat
  | CCommit t | CRollback t => t ∈ (running s).*1
  | CEnable _ ids => NoDup ids /\ Forall (fun x => x ∉ known s) ids /\ running s = []
  | CDisable => status_ a <> kDisable /\ running s = []
  end.

(** The effect of a call on the schedule. *)
Definition effect (c : call) a (picked : list Z) (a' : DBTCompactionAlg) : Prop :=
  let s := schedule_of a in
  let s' := schedule_of a' in
  match c with
  | CAdd _ x => idle s' ≡ₚ x :: idle s /\ running s' ≡ₚ running s
  | CCheck _ rows t =>
      status_ a = kDisable /\ picked = [] /\ a' = a \/
      status_ a <> kDisable /\ check_result rows t (length (segment_layers_ a)) a picked a'
  | CDelete _ _ => idle s' ≡ₚ idle s /\ running s' ≡ₚ running s
  | CCommit t => exists ids, running s ≡ₚ (t, ids) :: running s' /\ idle s' ≡ₚ idle s
  | CRollback t => exists ids, running s ≡ₚ (t, ids) :: running s' /\ idle s' ≡ₚ ids ++ idle s
  | CEnable _ ids => idle s' ≡ₚ ids ++ idle s /\ running s' = [] /\ status_ a' = kEnable
  | CDisable => idle s' = [] /\ running s' = [] /\ status_ a' = kDisable
  end.

Lemma txn_known a t : alg_ok a -> t ∈ (running (schedule_of a)).*1 <-> is_Some (txn_2_layer_ a !! t).
Proof.
  intros Hok. rewrite list_elem_of_fmap. split.
  - intros ([t' ids] & -> & Hin). apply running_elem in Hin as (i & l & Hl & Hids). cbn.
    exists (Z.of_nat i). apply (ao_txns _ Hok). exists i. unfold compactions. rewrite Hl, Hids. eauto.
  - intros [i Hi]. destruct (layer_compaction a t i Hok Hi) as (n & l & ids & _ & Hl & Hids).
    exists (t, ids). split; [done|]. apply running_elem. by exists n, l.
Qed.

Lemma no_tasks a : alg_ok a -> running_task_n_ a = 0 -> running (schedule_of a) = [].
Proof. intros Hok E. pose proof (ao_tasks _ Hok) as Hn. apply length_zero_iff_nil. unfold schedule_of. cbn -[running_of]. lia. Qed.

Lemma running_nil_tasks a : alg_ok a -> running (schedule_of a) = [] -> running_task_n_ a = 0.
Proof. intros Hok E. pose proof (ao_tasks _ Hok) as Hn. unfold schedule_of in E. cbn -[running_of] in E. by rewrite E in Hn. Qed.

Lemma commit_ok t a : alg_ok a -> is_Some (txn_2_layer_ a !! t) ->
  exists ids a', DBTCompactionAlg.CommitCompact t a = Ok a' /\ alg_ok a' /\
    running (schedule_of a) ≡ₚ (t, ids) :: running (schedule_of a') /\ idle (schedule_of a') ≡ₚ idle (schedule_of a).
Proof.
  intros Hok [i Ht]. apply (finish_ok (SegmentLayer.CommitCompact t) t (fun _ => []) a Hok) with (i := i); [|intros ids; by exists ids|done].
  intros l ids Hids _. unfold SegmentLayer.CommitCompact. rewrite Hids. by eexists.
Qed.

Lemma rollback_ok t a : alg_ok a -> is_Some (txn_2_layer_ a !! t) ->
  exists ids a', DBTCompactionAlg.RollbackCompact t a = Ok a' /\ alg_ok a' /\
    running (schedule_of a) ≡ₚ (t, ids) :: running (schedule_of a') /\ idle (schedule_of a') ≡ₚ ids ++ idle (schedule_of a).
Proof.
  intros Hok [i Ht]. apply (finish_ok (SegmentLayer.RollbackCompact t) t (fun ids => ids) a Hok) with (i := i); [|intros ids; exists []; by rewrite app_nil_r|done].
  intros l ids Hids Hnd. unfold SegmentLayer.RollbackCompact. rewrite Hids. apply NoDup_app in Hnd as (_ & Hd & Hnd).
  destruct (add_segments_ok ids l Hnd) as (l' & -> & Hp & Hc).
  { apply Forall_forall. intros x Hx Hxl. apply (Hd x); [by apply elem_of_elements|done]. }
  cbn [res_bind]. eexists. split; [done|]. cbn. by rewrite Hc.
Qed.

Lemma enable_ok rows ids a : alg_ok a -> NoDup ids -> Forall (fun x => x ∉ known (schedule_of a)) ids ->
  running (schedule_of a) = [] ->
  exists a', DBTCompactionAlg.Enable rows ids a = Ok a' /\ alg_ok a' /\
    idle (schedule_of a') ≡ₚ ids ++ idle (schedule_of a) /\ running (schedule_of a') = [] /\ status_ a' = kEnable.
Proof.
  intros Hok Hn Hf Hr. pose proof (running_nil_tasks _ Hok Hr) as E0. unfold DBTCompactionAlg.Enable.
  destruct (add_all_ok rows ids a Hok Hn Hf) as (a1 & -> & Hok1 & Ei & Er & En). cbn [res_bind]. rewrite En, E0. cbn [Z.eqb].
  eexists. split; [reflexivity|]. rewrite Hr in Er. apply Permutation_nil_r in Er.
  split; [|by split_and!]. destruct Hok1 as [Hk Ht Hrun Hs Hm]. split; cbn -[running_of]; try done; lia.
Qed.

Lemma disable_ok a : alg_ok a -> status_ a <> kDisable -> running (schedule_of a) = [] ->
  exists a', DBTCompactionAlg.Disable a = Some a' /\ alg_ok a' /\
    idle (schedule_of a') = [] /\ running (schedule_of a') = [] /\ status_ a' = kDisable.
Proof.
  intros Hok Hst Hr. pose proof (running_nil_tasks _ Hok Hr) as E0. pose proof Hok as [Hk Ht Hrun Hs Hm].
  unfold DBTCompactionAlg.Disable. rewrite decide_True; cycle 1.
  { destruct (status_ a); [done|done|]. exfalso. assert (0 < running_task_n_ a) by (by apply Hs). lia. }
  eexists. split; [reflexivity|]. split; [|done]. split; cbn; [apply NoDup_nil_2| |done|split; [done|lia]|done].
  intros t i. split.
  - intros E. exfalso. assert (t ∈ (running (schedule_of a)).*1) by (apply txn_known; [done|by eexists]).
    rewrite Hr in *. by eapply elem_of_nil.
  - intros (n & _ & Hn). unfold compactions in Hn. cbn in Hn. by destruct n, Hn.
Qed.

(** An allowed call does not wait, does not raise, and has its effect. *)
Lemma call_exec_ok c a : alg_ok a -> allowed c a ->
  exists picked a', exec c a = Some (Ok (picked, a')) /\ alg_ok a' /\ effect c a picked a'.
Proof.
  intros Hok Hal. destruct c as [rows x|iteration rows t|rows x|t|t|rows ids|]; cbn [exec allowed effect] in *.
  - destruct (add_ok rows x a Hok Hal) as (a' & E & Hok' & Ei & Er & _). unfold DBTCompactionAlg.AddSegment. rewrite E. by eauto 6.
  - destruct Hal as [Hit Hal]. unfold DBTCompactionAlg.CheckCompaction. case_decide as Hst; [by exists [], a; auto 6|].
    assert (Ht : txn_2_layer_ a !! t = None).
    { apply eq_None_not_Some. intros Hs. apply Hal. by apply txn_known. }
    destruct (check_layers_ok iteration rows t _ a Hit Hok (le_n _) Ht Hst) as (picked & a' & -> & Hok' & Hres). by eauto 8.
  - destruct (delete_in_ok rows x a Hok Hal) as (a' & -> & Hok' & Hr). by eauto.
  - destruct (commit_ok t a Hok) as (ids & a' & -> & Hok' & Hr); [by apply txn_known|]. by eauto 6.
  - destruct (rollback_ok t a Hok) as (ids & a' & -> & Hok' & Hr); [by apply txn_known|]. by eauto 6.
  - destruct Hal as (Hn & Hf & Hr). destruct (enable_ok rows ids a Hok Hn Hf Hr) as (a' & -> & Hok' & He). by eauto.
  - destruct Hal as [Hst Hr]. destruct (disable_ok a Hok Hst Hr) as (a' & -> & Hok' & He). by eauto.
Qed.

(** The states that allowed calls lead to. *)
Inductive reachable (config : DBTConfig) (max_segment_capacity : Z) : DBTCompactionAlg -> Prop :=
| reachable_make : reachable config max_segment_capacity (DBTCompactionAlg.make config max_segment_capacity)
| reachable_call c a picked a' : reachable config max_segment_capacity a -> allowed c a ->
    exec c a = Some (Ok (picked, a')) -> reachable config max_segment_capacity a'.

Lemma reachable_ok m c s config max_capacity a : DBTConfig.make m c s = Ok config ->
  reachable config max_capacity a -> alg_ok a.
Proof.
  intros Hc. induction 1 as [|k a picked a' _ IH Hal E].
  - unfold DBTConfig.make in Hc. destruct (negb _) eqn:En; [|done]. injection Hc as <-.
    split; cbn; [apply NoDup_nil_2| |done|split; [done|lia]|].
    + intros t i. split; [done|]. intros (n & _ & Hn). unfold compactions in Hn. cbn in Hn. by destruct n, Hn.
    + destruct (Z.leb_spec m 0); [done|lia].
  - destruct (call_exec_ok k a IH Hal) as (p & a'' & E' & Hok & _). congruence.
Qed.

(** C37. In every state that allowed calls lead to, an allowed call neither raises nor waits, has its
    effect on the schedule, and leaves every segment known once: idle or in one compaction. The
    number of running compactions is counted right, and the algorithm is in the running state
    exactly while there are some. *)
Theorem compaction_schedule m c s config max_capacity a k :
  DBTConfig.make m c s = Ok config -> reachable config max_capacity a -> allowed k a ->
  exists picked a', exec k a = Some (Ok (picked, a')) /\ effect k a picked a' /\
    NoDup (known (schedule_of a')) /\ running_task_n_ a' = Z.of_nat (length (running (schedule_of a'))) /\
    (status_ a' = kRunning <-> running (schedule_of a') <> []).
Proof.
  intros Hc Hr Hal. pose proof (reachable_ok _ _ _ _ _ _ Hc Hr) as Hok.
  destruct (call_exec_ok k a Hok Hal) as (picked & a' & E & Hok' & He). exists picked, a'. split_and!; [done..| | |].
  - apply (ao_known _ Hok').
  - apply (ao_tasks _ Hok').
  - rewrite (ao_status _ Hok'). split.
    + intros Hpos E0. pose proof (running_nil_tasks _ Hok' E0). lia.
    + intros Hne. destruct (decide (running_task_n_ a' = 0)) as [E0|]; [by apply no_tasks in E0|].
      pose proof (ao_tasks _ Hok'). lia.
Qed.
End schedule.

(** ** An instance *)

(** [nth_element] by sorting, and a logarithm of integers. *)
Definition by_rows (x y : Z * Z) : Prop := x.2 <= y.2.

#[local] Instance by_rows_dec x y : Decision (by_rows x y) := Z.le_dec x.2 y.2.
#[local] Instance by_rows_total : Total by_rows.
Proof. intros x y. unfold by_rows. lia. Qed.
#[local] Instance by_rows_trans : Transitive by_rows.
Proof. intros x y z. unfold by_rows. lia. Qed.

#[local] Instance sorting_env : CompactionEnv := {|
  log_quotient := fun x c => Z.log2 x / Z.log2 c;
  nth_element := fun _ l => merge_sort by_rows l;
|}.

Lemma sorted_take_drop n (l : list (Z * Z)) x y : StronglySorted by_rows l -> x ∈ take n l -> y ∈ drop n l -> x.2 <= y.2.
Proof.
  intros Hl. revert n. induction Hl as [|z l Hl IH Hz]; intros [|n] Hx Hy; cbn in *; try by apply elem_of_nil in Hx.
  apply elem_of_cons in Hx as [->|Hx]; [|by eapply IH]. rewrite Forall_forall in Hz. apply (Hz y).
  rewrite <- (take_drop n l). apply elem_of_app. by right.
Qed.

#[local] Instance sorting_env_laws : CompactionEnvLaws.
Proof.
  split; cbn; [intros _; apply merge_sort_Permutation|]. intros n l x y. apply sorted_take_drop.
  apply Sorted_StronglySorted; [apply _|]. apply Sorted_merge_sort. apply _.
Qed.

Definition demo_config : DBTConfig := mkDBTConfig 2 2 4.
Definition demo_rows (x : Z) : Z := 10 * x.
(** Four segments; a check for transaction 7 gets the two of the highest layer that has two. *)
Definition demo_calls : list call := [CEnable demo_rows [3; 1; 2]; CAdd demo_rows 4].

Fixpoint exec_calls (cs : list call) (a : DBTCompactionAlg) : DBTCompactionAlg :=
  match cs with
  | [] => a
  | c :: cs => match exec c a with Some (Ok (_, a)) => exec_calls cs a | _ => a end
  end.
Definition demo_state : DBTCompactionAlg := exec_calls demo_calls (DBTCompactionAlg.make demo_config 1000).

Lemma demo_reachable : reachable demo_config 1000 demo_state.
Proof.
  eapply (reachable_call _ _ (CAdd demo_rows 4)); [eapply (reachable_call _ _ (CEnable demo_rows [3; 1; 2]))|..];
    [apply reachable_make| |vm_compute; reflexivity| |vm_compute; reflexivity].
  - cbn [allowed]. split_and!; [by apply (bool_decide_unpack _); vm_compute| |done].
    apply (bool_decide_unpack _). by vm_compute.
  - cbn [allowed]. apply (bool_decide_unpack _). by vm_compute.
Qed.

Lemma compaction_schedule_witness :
  exists picked a', exec (CCheck elements demo_rows 7) demo_state = Some (Ok (picked, a')) /\
    effect (CCheck elements demo_rows 7) demo_state picked a' /\ NoDup (known (schedule_of a')) /\
    running_task_n_ a' = Z.of_nat (length (running (schedule_of a'))) /\
    (status_ a' = kRunning <-> running (schedule_of a') <> []).
Proof.
  apply (compaction_schedule 2 2 4 demo_config 1000 demo_state (CCheck elements demo_rows 7)).
  - reflexivity.
  - exact demo_reachable.
  - split; [by intros X|]. apply (bool_decide_unpack _). by vm_compute.
Defined.
