(* ===== verification/TxnContext.v ===== *)
(** * The life cycle of a transaction: [src/src/storage/txn/txn.cpp], [txn_context.cppm], [txn_state.cppm]

    The state of a transaction and the methods that change it. The store of a transaction and its
    log entry are left out here. *)
From S2P Require Import Prelude.

Definition UNCOMMIT_TS : Z := 2 ^ 64 - 1.

Inductive TxnState := kNotStarted | kStarted | kCommitting | kCommitted | kRollbacking | kRollbacked | kInvalidState.
Inductive TransactionType := kCheckpoint | kRead | kNormal.

#[export] Instance TxnState_eq_dec : EqDecision TxnState.
Proof. solve_decision. Defined.
#[export] Instance TransactionType_eq_dec : EqDecision TransactionType.
Proof. solve_decision. Defined.

Module TxnContext.
Record TxnContext := mkTxnContext {
  txn_id_ : Z;
  begin_ts_ : Z;
  commit_ts_ : Z;
  state_ : TxnState;
  txn_type_ : TransactionType;
  is_write_transaction_ : bool;
}.

Implicit Types (x : TxnContext) (ts : Z).

Definition make (txn_id begin_ts : Z) (txn_type : TransactionType) : TxnContext :=
  mkTxnContext txn_id begin_ts 0 kStarted txn_type false.

Definition set_state s x : TxnContext :=
  mkTxnContext (txn_id_ x) (begin_ts_ x) (commit_ts_ x) s (txn_type_ x) (is_write_transaction_ x).
Definition set_commit_ts ts x : TxnContext :=
  mkTxnContext (txn_id_ x) (begin_ts_ x) ts (state_ x) (txn_type_ x) (is_write_transaction_ x).
Definition set_write w x : TxnContext :=
  mkTxnContext (txn_id_ x) (begin_ts_ x) (commit_ts_ x) (state_ x) (txn_type_ x) w.

Definition NewReplayTxn (txn_id begin_ts : Z) (txn_type : TransactionType) : TxnContext :=
  set_state kCommitted (set_commit_ts begin_ts (make txn_id begin_ts txn_type)).

Definition SetTxnRollbacking rollback_ts x : res TxnContext :=
  check? negb (negb (bool_decide (state_ x = kCommitting)) && negb (bool_decide (state_ x = kStarted))) else Unrecoverable in
  Ok (set_commit_ts rollback_ts (set_state kRollbacking x)).
Definition SetTxnRollbacked x : TxnContext := set_state kRollbacked x.
Definition SetTxnRead x : TxnContext := set_write false x.
Definition SetTxnWrite x : TxnContext := set_write true x.
Definition SetTxnCommitted x : res TxnContext :=
  check? bool_decide (state_ x = kCommitting) else Unrecoverable in Ok (set_state kCommitted x).
Definition SetTxnCommitting commit_ts x : res TxnContext :=
  check? bool_decide (state_ x = kStarted) else Unrecoverable in
  Ok (set_commit_ts commit_ts (set_state kCommitting x)).
End TxnContext.
