(* ===== verification/EntryList.v ===== *)
(** * Versioned catalog entries: [src/src/storage/meta/entry/entry_list.cppm], [base_entry.cppm]

    Databases, tables and indexes are kept as lists of versions, the newest first. A version is
    uncommitted until its transaction commits; a deletion is a version too. What distinguishes the
    three instances of the template is the class [EntryKind]. *)
From S2P Require Import Prelude TxnContext.

Module ErrorCode.
Inductive t :=
| kOk | kIgnore | kTxnConflict | kDuplicateDatabaseName | kDuplicateTableName | kDuplicateIndexName
| kDBNotExist | kTableNotExist | kIndexNotExist | kInvalidEntry | kNotFoundEntry | kDuplicateEntry
| kColumnCountMismatch | kDataTypeMismatch | kTxnRollback.
End ErrorCode.
Abbreviation Status := ErrorCode.t.
Import ErrorCode.

#[export] Instance Status_eq_dec : EqDecision Status.
Proof. solve_decision. Defined.

Inductive ConflictType := kInvalidConflict | kIgnoreConflict | kError | kReplace.
Inductive FindResult := kFound | kNotFound | kUncommitted | kUncommittedDelete | kConflict.

#[export] Instance ConflictType_eq_dec : EqDecision ConflictType.
Proof. solve_decision. Defined.
#[export] Instance FindResult_eq_dec : EqDecision FindResult.
Proof. solve_decision. Defined.

(** ** Entries *)
Record BaseEntry (V : Type) := mkBaseEntry {
  txn_id_ : Z;
  begin_ts_ : Z;
  commit_ts_ : Z;
  deleted_ : bool;
  value_ : V;
}.
Arguments mkBaseEntry {V} _ _ _ _ _.
Arguments txn_id_ {V} _.
Arguments begin_ts_ {V} _.
Arguments commit_ts_ {V} _.
Arguments deleted_ {V} _.
Arguments value_ {V} _.

(** What the instances of the template add: their error codes, and what a deletion takes over from
    the newest version. *)
Class EntryKind (V : Type) := {
  duplicate_code : Status;
  not_exist_code : Status;
  on_drop : V -> V -> V;
}.

Definition DBEntryKind {V : Type} : EntryKind V :=
  {| duplicate_code := kDuplicateDatabaseName; not_exist_code := kDBNotExist; on_drop := fun drop_entry _ => drop_entry |}.
Definition TableEntryKind {V : Type} : EntryKind V :=
  {| duplicate_code := kDuplicateTableName; not_exist_code := kTableNotExist; on_drop := fun drop_entry _ => drop_entry |}.
(** An index entry is its index type and the rest. *)
Definition TableIndexEntryKind {V : Type} : EntryKind (Z * V) :=
  {| duplicate_code := kDuplicateIndexName; not_exist_code := kIndexNotExist;
     on_drop := fun drop_entry front => (front.1, drop_entry.2) |}.

Module BaseEntry.
Section entry.
Context {V : Type}.
Implicit Types (e : BaseEntry V).

(** A new version of a transaction. *)
Definition NewEntry (is_delete : bool) (v : V) (txn_id begin_ts : Z) : BaseEntry V :=
  mkBaseEntry txn_id begin_ts UNCOMMIT_TS is_delete v.
Definition ReplayEntry (is_delete : bool) (v : V) (txn_id begin_ts commit_ts : Z) : BaseEntry V :=
  mkBaseEntry txn_id begin_ts commit_ts is_delete v.

Definition Committed e : bool := negb (commit_ts_ e =? UNCOMMIT_TS).
Definition Deleted e : bool := deleted_ e.
Definition Commit (commit_ts : Z) e : BaseEntry V :=
  if commit_ts_ e =? UNCOMMIT_TS
  then mkBaseEntry (txn_id_ e) (begin_ts_ e) commit_ts (deleted_ e) (value_ e) else e.

(** [check_if_committing] is [TxnManager::CheckIfCommitting], absent during replay. *)
Definition CheckVisible (check_if_committing : option (Z -> Z -> bool)) (txn_id begin_ts : Z) e : res bool :=
  if txn_id_ e =? 0 then Ok (commit_ts_ e <=? begin_ts)
  else if (commit_ts_ e <=? begin_ts) || (txn_id_ e =? txn_id) then Ok true
  else match check_if_committing with
       | None => Err Unrecoverable
       | Some f => Ok (f (txn_id_ e) begin_ts)
       end.
End entry.
End BaseEntry.

(** ** Lists of versions *)
Module EntryList.
Section list.
Context {V : Type} `{EntryKind V}.
Implicit Types (e : BaseEntry V) (l : list (BaseEntry V)) (txn_mgr : option (Z -> TxnState)).

(** Versions of transactions that roll back are skipped; the first other version decides. *)
Fixpoint FindEntryNoLock txn_mgr (txn_id begin_ts : Z) l : res FindResult :=
  match l with
  | [] => Ok kNotFound
  | e :: l =>
      if BaseEntry.Committed e then
        if commit_ts_ e <=? begin_ts then Ok (if BaseEntry.Deleted e then kNotFound else kFound) else Ok kConflict
      else
        match txn_mgr with
        | None => Err Unrecoverable
        | Some GetTxnState =>
            match GetTxnState (txn_id_ e) with
            | kStarted =>
                if txn_id_ e =? txn_id then Ok (if BaseEntry.Deleted e then kUncommittedDelete else kUncommitted)
                else Ok kConflict
            | kCommitting | kCommitted => Ok kConflict
            | kRollbacking | kRollbacked => FindEntryNoLock txn_mgr txn_id begin_ts l
            | _ => Err Unrecoverable
            end
        end
  end.

Definition FindEntryReplay l : FindResult :=
  match l with
  | [] => kNotFound
  | e :: _ => if deleted_ e then kNotFound else kFound
  end.

Definition AddEntry (init_func : Z -> Z -> BaseEntry V) (txn_id begin_ts : Z) txn_mgr (conflict_type : ConflictType)
    (add_if_found : bool) l : res (option (BaseEntry V) * Status * list (BaseEntry V)) :=
  let? find_res := FindEntryNoLock txn_mgr txn_id begin_ts l in
  let find_res := if add_if_found && bool_decide (find_res = kFound) then kNotFound else find_res in
  match find_res with
  | kUncommittedDelete | kNotFound => let entry := init_func txn_id begin_ts in Ok (Some entry, kOk, entry :: l)
  | kUncommitted | kFound =>
      match conflict_type with
      | kIgnoreConflict => Ok (None, kIgnore, l)
      | _ => Ok (None, duplicate_code, l)
      end
  | kConflict => Ok (None, kTxnConflict, l)
  end.

Definition set_value (v : V) e : BaseEntry V :=
  mkBaseEntry (txn_id_ e) (begin_ts_ e) (commit_ts_ e) (deleted_ e) v.

Definition DropEntry (init_func : Z -> Z -> BaseEntry V) (txn_id begin_ts : Z) txn_mgr (conflict_type : ConflictType)
    l : res (option (BaseEntry V) * Status * list (BaseEntry V)) :=
  let? find_res := FindEntryNoLock txn_mgr txn_id begin_ts l in
  match find_res with
  | kUncommittedDelete | kNotFound =>
      match conflict_type with
      | kIgnoreConflict => Ok (None, kIgnore, l)
      | _ => Ok (None, not_exist_code, l)
      end
  | kUncommitted =>
      match l with
      | [] => Err Undefined
      | uncommitted_entry :: l => Ok (Some uncommitted_entry, kOk, l)
      end
  | kFound =>
      match l with
      | [] => Err Undefined
      | front :: _ =>
          let drop_entry := init_func txn_id begin_ts in
          let drop_entry := set_value (on_drop (value_ drop_entry) (value_ front)) drop_entry in
          Ok (Some drop_entry, kOk, drop_entry :: l)
      end
  | kConflict => Ok (None, kTxnConflict, l)
  end.

Fixpoint GetEntryInner1NoLock (txn_id begin_ts : Z) l : option (BaseEntry V) * FindResult :=
  match l with
  | [] => (None, kNotFound)
  | e :: l =>
      let found := if BaseEntry.Deleted e then (None, kNotFound) else (Some e, kFound) in
      if BaseEntry.Committed e then
        if commit_ts_ e <=? begin_ts then found else GetEntryInner1NoLock txn_id begin_ts l
      else if txn_id =? txn_id_ e then found else GetEntryInner1NoLock txn_id begin_ts l
  end.
Definition GetEntryInner2NoLock (entry_ptr : option (BaseEntry V)) (find_res : FindResult)
    : res (option (BaseEntry V) * Status) :=
  match find_res with
  | kNotFound => Ok (None, not_exist_code)
  | kFound => Ok (entry_ptr, kOk)
  | _ => Err Unrecoverable
  end.
Definition GetEntry (txn_id begin_ts : Z) l : res (option (BaseEntry V) * Status) :=
  let '(entry_ptr, find_res) := GetEntryInner1NoLock txn_id begin_ts l in
  GetEntryInner2NoLock entry_ptr find_res.

(** *** Replay *)
Definition AddEntryReplay (init_func : Z -> Z -> BaseEntry V) (txn_id begin_ts : Z) l
    : option (BaseEntry V) * Status * list (BaseEntry V) :=
  match FindEntryReplay l with
  | kNotFound | kFound => let entry := init_func txn_id begin_ts in (Some entry, kOk, entry :: l)
  | _ => (None, kInvalidEntry, l)
  end.
Definition ApplySnapshot (restore_entry_func : Z -> Z -> BaseEntry V) (txn_id begin_ts : Z) l
    : option (BaseEntry V) * Status * list (BaseEntry V) :=
  match FindEntryReplay l with
  | kNotFound => let entry := restore_entry_func txn_id begin_ts in (Some entry, kOk, entry :: l)
  | kFound => (None, kDuplicateEntry, l)
  | _ => (None, kInvalidEntry, l)
  end.
Definition UpdateEntryReplay (update_func : BaseEntry V -> Z -> Z -> BaseEntry V) (txn_id begin_ts : Z) l
    : Status * list (BaseEntry V) :=
  match FindEntryReplay l with
  | kNotFound => (kNotFoundEntry, l)
  | kFound => match l with
              | [] => (kNotFoundEntry, l)
              | src :: l => (kOk, update_func src txn_id begin_ts :: l)
              end
  | _ => (kInvalidEntry, l)
  end.
Definition DropEntryReplay (init_entry : Z -> Z -> BaseEntry V) (txn_id begin_ts : Z) l
    : option (BaseEntry V) * Status * list (BaseEntry V) :=
  match FindEntryReplay l with
  | kNotFound => (None, kNotFoundEntry, l)
  | kFound => let dropped_entry := init_entry txn_id begin_ts in (Some dropped_entry, kOk, dropped_entry :: l)
  | _ => (None, kInvalidEntry, l)
  end.
Definition GetEntryReplay l : option (BaseEntry V) * Status :=
  match l with
  | e :: _ => if deleted_ e then (None, kNotFoundEntry) else (Some e, kOk)
  | [] => (None, kNotFoundEntry)
  end.

(** *** Rollback and cleanup *)

(** [std::remove_if] moves the pointers that stay to the front; behind them stand the pointers of
    the positions that were not moved from, and null where they were. *)
Definition DeleteEntry (txn_id : Z) l : list (option (BaseEntry V)) * list (BaseEntry V) :=
  let removed e := txn_id_ e =? txn_id in
  let kept := List.filter (fun e => negb (removed e)) l in
  (drop (length kept) (map (fun e => if removed e then Some e else None) l), kept).

(** The versions behind the newest one that everybody sees, with the flags of the entries handed
    to the scanner. *)
Fixpoint pick_rest (dropped : bool) l : list (BaseEntry V * bool) * list (BaseEntry V) :=
  match l with
  | [] => ([], [])
  | e :: l =>
      if BaseEntry.Committed e then
        if deleted_ e then pick_rest true l
        else let '(picked, l) := pick_rest false l in ((e, dropped) :: picked, l)
      else let '(picked, l) := pick_rest dropped l in (picked, e :: l)
  end.
(** The entries for the scanner, the entry that is searched further, and the list. *)
Fixpoint pick_from (visible_ts : Z) l : list (BaseEntry V * bool) * option (BaseEntry V) * list (BaseEntry V) :=
  match l with
  | [] => ([], None, [])
  | e :: l =>
      if commit_ts_ e <? visible_ts then
        if deleted_ e then let '(picked, l) := pick_rest true l in (picked, None, l)
        else let '(picked, l) := pick_rest false l in (picked, Some e, e :: l)
      else let '(picked, sub, l) := pick_from visible_ts l in (picked, sub, e :: l)
  end.
Definition PickCleanup (visible_ts : Z) l
    : bool * list (BaseEntry V * bool) * option (BaseEntry V) * list (BaseEntry V) :=
  let '(picked, sub, l) := pick_from visible_ts l in
  (match l with [] => true | _ => false end, picked, sub, l).

Definition Iterate (visible_ts : Z) l : list (BaseEntry V) :=
  List.filter (fun e => (commit_ts_ e <? visible_ts) && negb (BaseEntry.Deleted e)) l.
Definition GetCandidateEntry (max_commit_ts : Z) l : list (BaseEntry V) :=
  List.filter (fun e => commit_ts_ e <=? max_commit_ts) l.

(** The list's own sort, which is stable: newest first. *)
Fixpoint insert_by_ts e l : list (BaseEntry V) :=
  match l with
  | [] => [e]
  | e' :: l => if commit_ts_ e' <? commit_ts_ e then e :: e' :: l else e' :: insert_by_ts e l
  end.
Definition SortEntryListByTS l : list (BaseEntry V) := foldl (fun acc e => insert_by_ts e acc) [] l.

(** The commit of all versions of a transaction in this list ([TxnStore::CommitBottom]). *)
Definition commit_entries (txn_id commit_ts : Z) l : list (BaseEntry V) :=
  map (fun e => if txn_id_ e =? txn_id then BaseEntry.Commit commit_ts e else e) l.
End list.
End EntryList.
