(* ===== verification/EntryHistory.v ===== *)
(** * Histories of a versioned entry

    The abstract state of a list of versions is a history of commits, which is never cut, and the
    changes of at most one transaction. Under the protocol of transactions, the list answers every
    call as the abstract state does, whatever is left behind by transactions that roll back and
    whatever the cleanup has removed. *)
From S2P Require Import Prelude TxnContext EntryList.
Import ErrorCode.

Section history.
Context {V : Type} `{K : EntryKind V}.
(** The begin timestamp of a transaction. *)
Variable begins : Z -> Z.
Implicit Types (e : BaseEntry V) (l : list (BaseEntry V)) (t ts : Z).

(** ** The abstract state *)

(** A committed version: its timestamp, and its value unless it is a deletion. *)
Abbreviation version := (Z * option V)%type.

Record cell := mkCell { versions : list version; pending : list (Z * option V) }.

Definition cell0 : cell := mkCell [] [].

Fixpoint version_at ts (vs : list version) : option V :=
  match vs with
  | [] => None
  | (c, x) :: vs => if c <=? ts then x else version_at ts vs
  end.

(** What a transaction sees: its own last change, or the snapshot of its begin. *)
Definition sees t (c : cell) : option V :=
  match pending c with
  | (t', x) :: _ => if t' =? t then x else version_at (begins t) (versions c)
  | [] => version_at (begins t) (versions c)
  end.

(** What a change of a transaction meets. *)
Definition meets t (c : cell) : FindResult :=
  match pending c with
  | (t', x) :: _ => if t' =? t then match x with Some _ => kUncommitted | None => kUncommittedDelete end else kConflict
  | [] => match versions c with
          | (ts, x) :: _ => if ts <=? begins t then match x with Some _ => kFound | None => kNotFound end else kConflict
          | [] => kNotFound
          end
  end.

Definition conflict_status (ct : ConflictType) (code : Status) : Status :=
  match ct with kIgnoreConflict => kIgnore | _ => code end.

Definition spec_add t ct (add_if_found : bool) v (c : cell) : Status * cell :=
  let push := (kOk, mkCell (versions c) ((t, Some v) :: pending c)) in
  match meets t c with
  | kNotFound | kUncommittedDelete => push
  | kFound => if add_if_found then push else (conflict_status ct duplicate_code, c)
  | kUncommitted => (conflict_status ct duplicate_code, c)
  | kConflict => (kTxnConflict, c)
  end.

Definition spec_drop t ct (c : cell) : Status * cell :=
  match meets t c with
  | kFound => (kOk, mkCell (versions c) ((t, None) :: pending c))
  | kUncommitted => (kOk, mkCell (versions c) (tail (pending c)))
  | kNotFound | kUncommittedDelete => (conflict_status ct not_exist_code, c)
  | kConflict => (kTxnConflict, c)
  end.

Definition owner (c : cell) : option Z := match pending c with (t, _) :: _ => Some t | [] => None end.

Definition spec_commit t ts (c : cell) : cell :=
  if decide (owner c = Some t) then mkCell (map (fun p => (ts, p.2)) (pending c) ++ versions c) [] else c.
Definition spec_rollback t (c : cell) : cell :=
  if decide (owner c = Some t) then mkCell (versions c) [] else c.

(** ** Events *)
Inductive event :=
| EStart t
| EAdd t (ct : ConflictType) (add_if_found : bool) (v : V)
| EDrop t (ct : ConflictType) (v : V)
| EGet t
| EReadOnly t
| ECommitting t
| ECommit t ts
| ERollback t
| EErase t
| EForget t
| EClean ts.

(** The transactions the manager knows, the last id and commit timestamp, and how far the cleanup
    has come. *)
Record env := mkEnv { states : gmap Z TxnState; last_txn : Z; last_commit : Z; horizon : Z }.
Definition env0 : env := mkEnv ∅ 0 0 0.

Definition GetTxnState (E : env) t : TxnState := match states E !! t with Some s => s | None => kCommitted end.

Definition set_state t s (E : env) : env := mkEnv (<[t := s]> (states E)) (last_txn E) (last_commit E) (horizon E).

Definition env_step (ev : event) (E : env) : env :=
  match ev with
  | EStart t => mkEnv (<[t := kStarted]> (states E)) t (last_commit E) (horizon E)
  | EReadOnly t => set_state t kCommitted E
  | ECommitting t => set_state t kCommitting E
  | ECommit t ts => mkEnv (<[t := kCommitted]> (states E)) (last_txn E) ts (horizon E)
  | ERollback t => set_state t kRollbacking E
  | EErase t => set_state t kRollbacked E
  | EForget t => mkEnv (delete t (states E)) (last_txn E) (last_commit E) (horizon E)
  | EClean ts => mkEnv (states E) (last_txn E) (last_commit E) (Z.max (horizon E) (ts - 1))
  | _ => E
  end.

(** The protocol: ids are new, a transaction that ends as a reader has changed nothing, commits
    come in the order of their timestamps, the cleanup stays behind the begin of every transaction. *)
Definition allowed_event (ev : event) (E : env) (c : cell) : Prop :=
  match ev with
  | EStart t => last_txn E < t /\ horizon E <= begins t
  | EAdd t _ _ _ | EDrop t _ _ | EGet t | ECommitting t => states E !! t = Some kStarted
  | EReadOnly t => states E !! t = Some kStarted /\ owner c <> Some t
  | ECommit t ts => states E !! t = Some kCommitting /\ last_commit E < ts < UNCOMMIT_TS
  | ERollback t => states E !! t = Some kStarted \/ states E !! t = Some kCommitting
  | EErase t => states E !! t = Some kRollbacking
  | EForget t => states E !! t = Some kCommitted \/ states E !! t = Some kRollbacked
  | EClean ts => ts <= UNCOMMIT_TS /\ map_Forall (fun t _ => ts - 1 <= begins t) (states E)
  end.

(** The answer of a call: its status and the value it returns. *)
Abbreviation answer := (option (Status * option V))%type.

Definition value_of (e : option (BaseEntry V)) : option V := match e with Some e => Some (value_ e) | None => None end.

Definition exec_event (ev : event) (E : env) l : res (answer * list (BaseEntry V)) :=
  match ev with
  | EAdd t ct add_if_found v =>
      let? (_, s, l) := EntryList.AddEntry (BaseEntry.NewEntry false v) t (begins t) (Some (GetTxnState E)) ct add_if_found l in
      Ok (Some (s, None), l)
  | EDrop t ct v =>
      let? (_, s, l) := EntryList.DropEntry (BaseEntry.NewEntry true v) t (begins t) (Some (GetTxnState E)) ct l in
      Ok (Some (s, None), l)
  | EGet t => let? (e, s) := EntryList.GetEntry t (begins t) l in Ok (Some (s, value_of e), l)
  | ECommit t ts => Ok (None, EntryList.commit_entries t ts l)
  | EErase t => Ok (None, (EntryList.DeleteEntry t l).2)
  | EClean ts => Ok (None, (EntryList.PickCleanup ts l).2)
  | _ => Ok (None, l)
  end.

Definition spec_event (ev : event) (c : cell) : answer * cell :=
  match ev with
  | EAdd t ct add_if_found v => let '(s, c) := spec_add t ct add_if_found v c in (Some (s, None), c)
  | EDrop t ct _ => let '(s, c) := spec_drop t ct c in (Some (s, None), c)
  | EGet t => (Some (match sees t c with Some v => (kOk, Some v) | None => (not_exist_code, None) end), c)
  | ECommit t ts => (None, spec_commit t ts c)
  | ERollback t => (None, spec_rollback t c)
  | _ => (None, c)
  end.

Fixpoint allowed_events (evs : list event) (E : env) (c : cell) : Prop :=
  match evs with
  | [] => True
  | ev :: evs => allowed_event ev E c /\ allowed_events evs (env_step ev E) (spec_event ev c).2
  end.

#[export] Instance allowed_event_dec ev E c : Decision (allowed_event ev E c).
Proof. destruct ev; cbn; apply _. Defined.
#[export] Instance allowed_events_dec evs E c : Decision (allowed_events evs E c).
Proof. revert E c. induction evs as [|ev evs IH]; intros E c; cbn; [apply _|]. apply and_dec; [apply _|apply IH]. Defined.

Fixpoint exec_events (evs : list event) (E : env) l : res (list answer * list (BaseEntry V)) :=
  match evs with
  | [] => Ok ([], l)
  | ev :: evs =>
      let? (out, l) := exec_event ev E l in
      let? (outs, l) := exec_events evs (env_step ev E) l in
      Ok (out :: outs, l)
  end.
Fixpoint spec_events (evs : list event) (c : cell) : list answer :=
  match evs with
  | [] => []
  | ev :: evs => let '(out, c) := spec_event ev c in out :: spec_events evs c
  end.

(** ** The simulation relation *)
Definition rolled (E : env) t : bool :=
  match GetTxnState E t with kRollbacking | kRollbacked => true | _ => false end.

(** The versions that count. *)
Definition is_live (E : env) e : bool := BaseEntry.Committed e || negb (rolled E (txn_id_ e)).
Definition live (E : env) l : list (BaseEntry V) := List.filter (is_live E) l.

Definition contents e : option V := if deleted_ e then None else Some (value_ e).
Definition as_version e : version := (commit_ts_ e, contents e).

Definition kept (v : version) : list version := match v.2 with Some _ => [v] | None => [] end.

(** [C] is the history [H] without what a transaction that began at [h] or later cannot see. *)
Definition pruned (h : Z) (C H : list version) : Prop :=
  C = H \/ exists P v T, H = P ++ v :: T /\ v.1 <= h /\ C = P ++ kept v.

Definition working (E : env) t : Prop := GetTxnState E t = kStarted \/ GetTxnState E t = kCommitting.

(** [own] are the changes of the transaction that works on the entry. *)
Record rel (E : env) (own rest : list (BaseEntry V)) (c : cell) : Prop := {
  rl_own : forall e, e ∈ own -> working E (txn_id_ e) /\ BaseEntry.Committed e = false /\ owner c = Some (txn_id_ e);
  rl_pending : pending c = map (fun e => (txn_id_ e, contents e)) own;
  rl_rest : Forall (fun e => BaseEntry.Committed e = true) (live E rest);
  rl_versions : pruned (horizon E) (map as_version (live E rest)) (versions c);
  rl_known : forall e, e ∈ own ++ rest -> BaseEntry.Committed e = false ->
    working E (txn_id_ e) \/ GetTxnState E (txn_id_ e) = kRollbacking;
  rl_settled : forall e, e ∈ own ++ rest -> BaseEntry.Committed e = true -> GetTxnState E (txn_id_ e) = kCommitted;
  rl_ids : forall e, e ∈ own ++ rest -> txn_id_ e <= last_txn E;
}.

Record env_ok (E : env) : Prop := {
  eo_ids : forall t s, states E !! t = Some s -> t <= last_txn E;
  eo_begins : forall t s, states E !! t = Some s -> horizon E <= begins t;
}.

(** ** What the list answers *)
Lemma live_cons E e l : live E (e :: l) = if is_live E e then e :: live E l else live E l.
Proof. done. Qed.

Lemma live_elem E e l : e ∈ live E l <-> e ∈ l /\ is_live E e = true.
Proof. unfold live. rewrite !list_elem_of_In. apply filter_In. Qed.

Lemma find_live E t b l : EntryList.FindEntryNoLock (Some (GetTxnState E)) t b l =
  EntryList.FindEntryNoLock (Some (GetTxnState E)) t b (live E l).
Proof.
  induction l as [|e l IH]; [done|]. rewrite live_cons. unfold is_live. cbn [EntryList.FindEntryNoLock].
  destruct (BaseEntry.Committed e) eqn:Ec; cbn [orb EntryList.FindEntryNoLock]; rewrite ?Ec; [done|].
  unfold rolled. destruct (GetTxnState E (txn_id_ e)) eqn:Es; cbn [negb EntryList.FindEntryNoLock]; rewrite ?Ec, ?Es; done.
Qed.

Lemma get_live E t b l : rolled E t = false ->
  EntryList.GetEntryInner1NoLock t b l = EntryList.GetEntryInner1NoLock t b (live E l).
Proof.
  intros Ht. induction l as [|e l IH]; [done|]. rewrite live_cons. unfold is_live. cbn [EntryList.GetEntryInner1NoLock].
  destruct (BaseEntry.Committed e) eqn:Ec; cbn [orb EntryList.GetEntryInner1NoLock]; rewrite ?Ec, IH; [done|].
  destruct (rolled E (txn_id_ e)) eqn:Er; cbn [negb EntryList.GetEntryInner1NoLock]; rewrite ?Ec; [|done].
  rewrite (proj2 (Z.eqb_neq _ _)); [done|]. intros ->. congruence.
Qed.

(** The answer of a list of committed versions to a change. *)
Definition newest_meets (b : Z) (vs : list version) : FindResult :=
  match vs with
  | (ts, x) :: _ => if ts <=? b then match x with Some _ => kFound | None => kNotFound end else kConflict
  | [] => kNotFound
  end.

Lemma find_committed st t b l : Forall (fun e => BaseEntry.Committed e = true) l ->
  EntryList.FindEntryNoLock st t b l = Ok (newest_meets b (map as_version l)).
Proof.
  intros [|e l' He _]; [done|]. cbn [EntryList.FindEntryNoLock map newest_meets as_version]. rewrite He.
  unfold contents, BaseEntry.Deleted. destruct (commit_ts_ e <=? b); [|done]. by destruct (deleted_ e).
Qed.

Lemma get_committed t b l : Forall (fun e => BaseEntry.Committed e = true) l ->
  exists o, EntryList.GetEntryInner1NoLock t b l = (o, match o with Some _ => kFound | None => kNotFound end) /\
    value_of o = version_at b (map as_version l).
Proof.
  induction 1 as [|e l He _ (e' & IH & Hv)]; [by exists None|].
  cbn [EntryList.GetEntryInner1NoLock map version_at as_version]. rewrite He. destruct (commit_ts_ e <=? b).
  - unfold contents, BaseEntry.Deleted. destruct (deleted_ e); [by exists None|by exists (Some e)].
  - by exists e'.
Qed.

Lemma pruned_meets h b C H : pruned h C H -> h <= b -> newest_meets b C = newest_meets b H.
Proof.
  intros [->|([|w P] & [ts x] & T & -> & Hv & ->)] Hb; cbn in *; [done|..|by destruct w].
  rewrite (proj2 (Z.leb_le ts b)) by lia. destruct x; cbn; [|done]. by rewrite (proj2 (Z.leb_le ts b)) by lia.
Qed.

Lemma pruned_at h b C H : pruned h C H -> h <= b -> version_at b C = version_at b H.
Proof.
  intros [->|(P & [ts x] & T & -> & Hv & ->)] Hb; [done|]. cbn in Hv.
  induction P as [|[ts' x'] P IH]; cbn; [|by rewrite IH].
  rewrite (proj2 (Z.leb_le ts b)) by lia. destruct x; cbn; [|done]. by rewrite (proj2 (Z.leb_le ts b)) by lia.
Qed.

Lemma rolled_working E t : working E t -> rolled E t = false.
Proof. unfold rolled. by intros [->| ->]. Qed.

Lemma started_state E t s : states E !! t = Some s -> GetTxnState E t = s.
Proof. unfold GetTxnState. by intros ->. Qed.

Lemma rel_rest_find E own rest c t : rel E own rest c -> env_ok E -> states E !! t = Some kStarted -> own = [] ->
  EntryList.FindEntryNoLock (Some (GetTxnState E)) t (begins t) rest = Ok (newest_meets (begins t) (versions c)).
Proof.
  intros Hr He Ht ->. rewrite find_live, find_committed by apply (rl_rest _ _ _ _ Hr). f_equal.
  eapply pruned_meets; [apply (rl_versions _ _ _ _ Hr)|]. by eapply eo_begins.
Qed.

Lemma find_meets E own rest c t : rel E own rest c -> env_ok E -> states E !! t = Some kStarted ->
  EntryList.FindEntryNoLock (Some (GetTxnState E)) t (begins t) (own ++ rest) = Ok (meets t c).
Proof.
  intros Hr He Ht. unfold meets. rewrite (rl_pending _ _ _ _ Hr). destruct own as [|e own].
  { apply (rel_rest_find E [] rest c t Hr He Ht eq_refl). }
  destruct (rl_own _ _ _ _ Hr e) as (Hw & Hc & _); [by left|]. cbn [app EntryList.FindEntryNoLock map].
  rewrite Hc. unfold contents, BaseEntry.Deleted.
  destruct (Z.eqb_spec (txn_id_ e) t) as [->|].
  - unfold GetTxnState at 1. rewrite Ht. by destruct (deleted_ e).
  - destruct Hw as [->| ->]; done.
Qed.

Lemma get_sees E own rest c t : rel E own rest c -> env_ok E -> states E !! t = Some kStarted ->
  exists o, EntryList.GetEntryInner1NoLock t (begins t) (own ++ rest) = (o, match o with Some _ => kFound | None => kNotFound end) /\
    value_of o = sees t c.
Proof.
  intros Hr He Ht. 
  assert (Hrest : exists o, EntryList.GetEntryInner1NoLock t (begins t) rest =
    (o, match o with Some _ => kFound | None => kNotFound end) /\ value_of o = version_at (begins t) (versions c)).
  { rewrite (get_live E); [|by apply rolled_working; left; apply started_state].
    destruct (get_committed t (begins t) _ (rl_rest _ _ _ _ Hr)) as (e & -> & Hv). exists e. split; [done|]. rewrite Hv.
    eapply pruned_at; [apply (rl_versions _ _ _ _ Hr)|]. by eapply eo_begins. }
  unfold sees. rewrite (rl_pending _ _ _ _ Hr). destruct own as [|e own]; [done|]. cbn [map].
  pose proof (rl_own _ _ _ _ Hr) as Ho. destruct (Ho e) as (_ & Hc & Howner); [by left|].
  destruct (Z.eqb_spec (txn_id_ e) t) as [Heq|Hne].
  - cbn [app EntryList.GetEntryInner1NoLock]. rewrite Hc, Heq, Z.eqb_refl. unfold contents, BaseEntry.Deleted.
    destruct (deleted_ e); [by exists None|by exists (Some e)].
  - assert (Hskip : EntryList.GetEntryInner1NoLock t (begins t) ((e :: own) ++ rest) = EntryList.GetEntryInner1NoLock t (begins t) rest);
      [|by rewrite Hskip].
    assert (Ho' : forall e', e' ∈ e :: own -> BaseEntry.Committed e' = false /\ t <> txn_id_ e').
    { intros e' He'. destruct (Ho e' He') as (_ & Hc' & Ho'). split; [done|]. congruence. }
    clear -Ho'. generalize dependent Ho'. generalize (e :: own). intros o. induction o as [|e' o IH]; intros Ho; [done|].
    destruct (Ho e') as [Hc Hne]; [by left|]. cbn [app EntryList.GetEntryInner1NoLock]. rewrite Hc.
    rewrite (proj2 (Z.eqb_neq t _)) by done. apply IH. intros x Hx. apply Ho. by right.
Qed.

(** ** The steps *)
Lemma pruned_mono h h' C W : pruned h C W -> h <= h' -> pruned h' C W.
Proof. intros [->|(P & v & T & -> & Hv & ->)] Hh; [by left|right]. exists P, v, T. split_and!; [done|lia|done]. Qed.

Lemma live_ext E E' l : (forall e, e ∈ l -> GetTxnState E' (txn_id_ e) = GetTxnState E (txn_id_ e)) -> live E' l = live E l.
Proof.
  intros He. apply filter_ext_in. intros e Hin. unfold is_live, rolled. rewrite He; [done|]. by apply list_elem_of_In.
Qed.

(** A change of the environment that keeps what the list needs to know of its transactions. *)
Definition same (E E' : env) t : Prop := GetTxnState E' t = GetTxnState E t \/ working E t /\ working E' t.

Lemma same_rolled E E' t : same E E' t -> rolled E' t = rolled E t.
Proof. intros [He|[H1 H2]]; [unfold rolled; by rewrite He|by rewrite !rolled_working]. Qed.

Lemma rel_env E E' own rest c : rel E own rest c -> (forall e, e ∈ own ++ rest -> same E E' (txn_id_ e)) ->
  horizon E <= horizon E' -> last_txn E <= last_txn E' -> rel E' own rest c.
Proof.
  intros [Ho Hp Hr Hv Hk Hs Hi] He Hh Ht.
  assert (Hl : live E' rest = live E rest).
  { apply filter_ext_in. intros e Hin%list_elem_of_In. unfold is_live. rewrite (same_rolled E E'); [done|].
    apply He, elem_of_app. by right. }
  assert (Hw : forall e, e ∈ own ++ rest -> working E (txn_id_ e) -> working E' (txn_id_ e)).
  { intros e Hin Hw. unfold working. destruct (He e Hin) as [->|[_ ?]]; done. }
  split.
  - intros e Hin. destruct (Ho e Hin) as (Hwe & Hc & Hown). split_and!; [|done..]. apply Hw; [|done]. apply elem_of_app. by left.
  - done.
  - by rewrite Hl.
  - rewrite Hl. by apply (pruned_mono (horizon E)).
  - intros e Hin Hc. destruct (Hk e Hin Hc) as [Hwe|Hroll]; [left; by apply Hw|]. right.
    destruct (He e Hin) as [->|[[Hx|Hx] _]]; [done|congruence..].
  - intros e Hin Hc. pose proof (Hs e Hin Hc) as Hx. destruct (He e Hin) as [->|[[Hy|Hy] _]]; [done|congruence..].
  - intros e Hin. specialize (Hi e Hin). lia.
Qed.

Lemma GetTxnState_set E t s t' : GetTxnState (set_state t s E) t' = if decide (t = t') then s else GetTxnState E t'.
Proof.
  unfold GetTxnState, set_state. cbn. case_decide as E1; [subst; by rewrite lookup_insert_eq|by rewrite lookup_insert_ne].
Qed.

(** A new change of the transaction that works on the entry. *)
Lemma rel_push E own rest c e : rel E own rest c -> states E !! txn_id_ e = Some kStarted -> txn_id_ e <= last_txn E ->
  BaseEntry.Committed e = false -> match owner c with Some t => t = txn_id_ e | None => True end ->
  rel E (e :: own) rest (mkCell (versions c) ((txn_id_ e, contents e) :: pending c)).
Proof.
  intros [Ho Hp Hr Hv Hk Hs Hi] Ht Hid Hc Hown. apply started_state in Ht.
  split; cbn [pending versions owner]; try done.
  - intros x [->|Hx]%elem_of_cons; [split_and!; [by left|done..]|]. destruct (Ho x Hx) as (Hw & Hcx & Hox).
    split_and!; [done..|]. rewrite Hox in Hown. congruence.
  - by rewrite Hp.
  - intros x [->|Hx]%elem_of_cons Hcx; [by left; left|by apply Hk].
  - intros x [->|Hx]%elem_of_cons Hcx; [congruence|by apply Hs].
  - intros x [->|Hx]%elem_of_cons; [done|by apply Hi].
Qed.

Lemma rel_pop E e own rest c : rel E (e :: own) rest c -> rel E own rest (mkCell (versions c) (tail (pending c))).
Proof.
  intros [Ho Hp Hr Hv Hk Hs Hi]. assert (He : forall x, x ∈ own ++ rest -> x ∈ (e :: own) ++ rest) by (intros; by right).
  split; cbn [pending versions]; auto.
  - intros x Hx. destruct (Ho x) as (Hw & Hc & Hox); [by right|]. split_and!; [done..|]. rewrite Hp.
    destruct own as [|e' own]; [by apply elem_of_nil in Hx|]. cbn. destruct (Ho e') as (_ & _ & He'); [right; by left|].
    congruence.
  - by rewrite Hp.
Qed.

Lemma owner_own E own rest c t : rel E own rest c -> owner c <> Some t -> forall e, e ∈ own -> txn_id_ e <> t.
Proof. intros Hr Hne e He <-. apply Hne. by apply (rl_own _ _ _ _ Hr e). Qed.

(** Only the own changes belong to a transaction that works. *)
Lemma rest_not_working E own rest c e : rel E own rest c -> e ∈ rest -> ~ working E (txn_id_ e).
Proof.
  intros Hr He Hw. destruct (BaseEntry.Committed e) eqn:Ec.
  - pose proof (rl_settled _ _ _ _ Hr e) as Hs. unfold working in Hw. rewrite Hs in Hw; [by destruct Hw|apply elem_of_app; by right|done].
  - pose proof (rl_rest _ _ _ _ Hr) as Hl. rewrite Forall_forall in Hl.
    assert (is_live E e = true) by (unfold is_live; rewrite Ec, (rolled_working _ _ Hw); done).
    rewrite Hl in Ec; [done|]. by apply live_elem.
Qed.

Lemma working_ids E own rest c t : rel E own rest c -> working E t -> owner c <> Some t ->
  forall e, e ∈ own ++ rest -> txn_id_ e <> t.
Proof.
  intros Hr Hw Ho e [He|He]%elem_of_app Heq; [by apply (owner_own E own rest c t Hr Ho e)|].
  subst t. by apply (rest_not_working E own rest c e).
Qed.

Lemma owner_all E own rest c t : rel E own rest c -> owner c = Some t -> forall e, e ∈ own -> txn_id_ e = t.
Proof. intros Hr Ho e He. destruct (rl_own _ _ _ _ Hr e He) as (_ & _ & Hx). congruence. Qed.

Lemma pruned_app h P C W : pruned h C W -> pruned h (P ++ C) (P ++ W).
Proof.
  intros [->|(Q & v & T & -> & Hv & ->)]; [by left|right]. exists (P ++ Q), v, T. by rewrite <- !(assoc_L (++)).
Qed.

Lemma commit_entries_other t ts l : (forall e, e ∈ l -> txn_id_ e <> t) -> EntryList.commit_entries t ts l = l.
Proof.
  intros He. unfold EntryList.commit_entries. rewrite <- (map_id l) at 2. apply map_ext_in. intros e Hin%list_elem_of_In.
  by rewrite (proj2 (Z.eqb_neq _ _)) by (by apply He).
Qed.

Lemma commit_Committed ts e : ts < UNCOMMIT_TS -> BaseEntry.Committed e = false ->
  BaseEntry.Commit ts e = mkBaseEntry (txn_id_ e) (begin_ts_ e) ts (deleted_ e) (value_ e) /\
  BaseEntry.Committed (BaseEntry.Commit ts e) = true.
Proof.
  intros Hts Hc. unfold BaseEntry.Committed, BaseEntry.Commit in *. apply negb_false_iff in Hc. rewrite Hc. cbn. split; [done|].
  rewrite (proj2 (Z.eqb_neq _ _)); [done|lia].
Qed.

(** The changes of a transaction become committed versions. *)
Lemma commit_own E own rest c t ts : rel E own rest c -> owner c = Some t -> ts < UNCOMMIT_TS ->
  Forall (fun e => BaseEntry.Committed e = true /\ txn_id_ e = t) (EntryList.commit_entries t ts own) /\
  map as_version (EntryList.commit_entries t ts own) = map (fun p => (ts, p.2)) (pending c).
Proof.
  intros Hr Ho Hts. pose proof (owner_all _ _ _ _ _ Hr Ho) as Hid. rewrite (rl_pending _ _ _ _ Hr).
  assert (Hc : forall e, e ∈ own -> BaseEntry.Committed e = false) by (intros e He; by apply (rl_own _ _ _ _ Hr)).
  clear -Hid Hc Hts. induction own as [|e own IH]; [done|].
  assert (He : txn_id_ e = t) by (apply Hid; by left). destruct (commit_Committed ts e Hts) as [Ec Ec']; [apply Hc; by left|].
  destruct IH as [IH1 IH2]; [by intros; apply Hid; right|by intros; apply Hc; right|].
  cbn [EntryList.commit_entries map]. fold (EntryList.commit_entries t ts own). rewrite He, Z.eqb_refl. split.
  - constructor; [|done]. split; [done|]. by rewrite Ec.
  - f_equal; [|done]. by rewrite Ec.
Qed.

Lemma rel_commit E own rest c t ts : rel E own rest c -> states E !! t = Some kCommitting -> ts < UNCOMMIT_TS ->
  exists own' rest', EntryList.commit_entries t ts (own ++ rest) = own' ++ rest' /\
    rel (env_step (ECommit t ts) E) own' rest' (spec_commit t ts c).
Proof.
  intros Hr Ht Hts. assert (Hw : working E t) by (right; by apply started_state). unfold spec_commit.
  assert (Hst : forall t', GetTxnState (env_step (ECommit t ts) E) t' = if decide (t = t') then kCommitted else GetTxnState E t')
    by (intros t'; apply (GetTxnState_set E t kCommitted)).
  case_decide as Ho; cycle 1.
  { pose proof (working_ids _ _ _ _ _ Hr Hw Ho) as Hids. exists own, rest. split; [by apply commit_entries_other|].
    apply (rel_env E); [done| |cbn; lia|cbn; lia]. intros e He. left. rewrite Hst, decide_False; [done|]. intros ->. by apply (Hids e). }
  assert (Hrest : forall e, e ∈ rest -> txn_id_ e <> t) by (intros e He <-; by apply (rest_not_working _ _ _ _ _ Hr He)).
  destruct (commit_own _ _ _ _ _ ts Hr Ho Hts) as [Hown Hvs].
  exists [], (EntryList.commit_entries t ts own ++ rest). split.
  { unfold EntryList.commit_entries at 1. rewrite map_app. cbn [app]. f_equal. by apply commit_entries_other. }
  set (E' := env_step _ E) in *. set (own' := EntryList.commit_entries t ts own) in *.
  assert (Hlive : live E' (own' ++ rest) = own' ++ live E rest).
  { unfold live at 1. rewrite List.filter_app. f_equal.
    - apply forallb_filter_id, forallb_forall. intros e He%list_elem_of_In. rewrite Forall_forall in Hown.
      unfold is_live. by rewrite (proj1 (Hown e He)).
    - apply live_ext. intros e He. rewrite Hst, decide_False; [done|]. intros ->. by apply (Hrest e). }
  destruct Hr as [_ Hp Hl Hv Hk Hs Hi]. split; cbn [app].
  - intros e He%elem_of_nil. done.
  - done.
  - rewrite Hlive. apply Forall_app. split; [|done]. eapply Forall_impl; [exact Hown|]. by intros e [He _].
  - rewrite Hlive, map_app, Hvs. by apply pruned_app.
  - intros e [He|He]%elem_of_app Hc; [rewrite Forall_forall in Hown; destruct (Hown e He); congruence|].
    unfold working. rewrite Hst, decide_False; [apply Hk; [apply elem_of_app; by right|done]|]. intros ->. by apply (Hrest e).
  - intros e [He|He]%elem_of_app Hc.
    + rewrite Forall_forall in Hown. destruct (Hown e He) as [_ ->]. by rewrite Hst, decide_True.
    + rewrite Hst. case_decide; [done|]. apply Hs; [apply elem_of_app; by right|done].
  - intros e [He|He]%elem_of_app; [|apply Hi, elem_of_app; by right].
    rewrite Forall_forall in Hown. destruct (Hown e He) as [_ ->]. cbn.
    unfold owner in Ho. rewrite Hp in Ho. destruct own as [|e0 own]; [done|]. cbn in Ho. injection Ho as <-. apply Hi. by left.
Qed.

Lemma rel_rollback E own rest c t : rel E own rest c -> working E t ->
  exists own' rest', own ++ rest = own' ++ rest' /\ rel (set_state t kRollbacking E) own' rest' (spec_rollback t c).
Proof.
  intros Hr Hw. unfold spec_rollback. case_decide as Ho; cycle 1.
  { pose proof (working_ids _ _ _ _ _ Hr Hw Ho) as Hids. exists own, rest. split; [done|].
    apply (rel_env E); [done| |cbn; lia|cbn; lia]. intros e He. left. rewrite GetTxnState_set, decide_False; [done|].
    intros ->. by apply (Hids e). }
  pose proof (owner_all _ _ _ _ _ Hr Ho) as Hid.
  assert (Hrest : forall e, e ∈ rest -> txn_id_ e <> t) by (intros e He <-; by apply (rest_not_working _ _ _ _ _ Hr He)).
  exists [], (own ++ rest). split; [done|]. set (E' := set_state _ _ E).
  assert (Hlive : live E' (own ++ rest) = live E rest).
  { unfold live at 1. rewrite List.filter_app. rewrite <- (app_nil_l (live E rest)). f_equal.
    - assert (Hn : forall e, e ∈ own -> is_live E' e = false).
      { intros e He. unfold is_live, rolled. rewrite (Hid e He). subst E'. rewrite GetTxnState_set, decide_True by done.
        by rewrite (proj1 (proj2 (rl_own _ _ _ _ Hr e He))). }
      clear -Hn. induction own as [|e own IH]; [done|]. cbn. rewrite Hn by (by left). apply IH. intros x Hx. apply Hn. by right.
    - apply live_ext. intros e He. subst E'. rewrite GetTxnState_set, decide_False; [done|]. intros ->. by apply (Hrest e). }
  destruct Hr as [Hown Hp Hl Hv Hk Hs Hi]. split; cbn [app pending versions]; try done; rewrite ?Hlive; try done.
  - intros e He%elem_of_nil. done.
  - intros e He Hc. unfold working. subst E'. rewrite GetTxnState_set. case_decide; [by right|]. by apply Hk.
  - intros e He Hc. subst E'. rewrite GetTxnState_set. case_decide as Heq; [|by apply Hs]. exfalso.
    apply elem_of_app in He as [He|He]; [|by apply (Hrest e)]. destruct (Hown e He) as (_ & Hc' & _). congruence.
Qed.

Lemma rel_erase E own rest c t : rel E own rest c -> states E !! t = Some kRollbacking ->
  exists own' rest', (EntryList.DeleteEntry t (own ++ rest)).2 = own' ++ rest' /\ rel (set_state t kRollbacked E) own' rest' c.
Proof.
  intros Hr Ht%started_state. pose proof Hr as [Hown Hp Hl Hv Hk Hs Hi].
  set (other := fun e : BaseEntry V => negb (txn_id_ e =? t)).
  assert (Hother : forall e, other e = true <-> txn_id_ e <> t).
  { intros e. unfold other. rewrite negb_true_iff. apply Z.eqb_neq. }
  assert (Hown' : forall e, e ∈ own -> txn_id_ e <> t).
  { intros e He Heq. destruct (Hown e He) as ([Hw|Hw] & _); congruence. }
  exists own, (List.filter other rest). cbn [EntryList.DeleteEntry snd]. fold other. split.
  { rewrite List.filter_app. f_equal. apply forallb_filter_id, forallb_forall. intros e He%list_elem_of_In. by apply Hother, Hown'. }
  assert (Hst : forall e, txn_id_ e <> t -> GetTxnState (set_state t kRollbacked E) (txn_id_ e) = GetTxnState E (txn_id_ e)).
  { intros e He. by rewrite GetTxnState_set, decide_False. }
  assert (Hin : forall e, e ∈ own ++ List.filter other rest -> e ∈ own ++ rest /\ txn_id_ e <> t).
  { intros e [He|He]%elem_of_app; [split; [apply elem_of_app; by left|by apply Hown']|].
    apply list_elem_of_In, filter_In in He as [He Ho]. split; [|by apply Hother].
    apply elem_of_app. right. by apply list_elem_of_In. }
  assert (Hlive : live (set_state t kRollbacked E) (List.filter other rest) = live E rest).
  { rewrite (live_ext E); cycle 1.
    { intros e He. apply Hst. apply (Hin e), elem_of_app. by right. }
    assert (Hdead : forall e, e ∈ rest -> txn_id_ e = t -> is_live E e = false).
    { intros e He Heq. unfold is_live, rolled. rewrite Heq, Ht. destruct (BaseEntry.Committed e) eqn:Ec; [|done].
      rewrite <- Heq, (Hs e) in Ht; [done|apply elem_of_app; by right|done]. }
    clear -Hdead Hother. induction rest as [|e rest IH]; [done|]. cbn [List.filter].
    destruct (other e) eqn:Ho; rewrite !live_cons, IH; try done; try (intros x Hx; apply Hdead; by right).
    rewrite (Hdead e); [done|by left|]. destruct (decide (txn_id_ e = t)); [done|]. exfalso.
    assert (other e = true) by (by apply Hother). congruence. }
  split; rewrite ?Hlive; try done.
  - intros e He. destruct (Hown e He) as (Hw & Hc & Ho). split_and!; [|done..]. unfold working. rewrite Hst by (by apply Hown'). done.
  - intros e [He Hne]%Hin Hc. unfold working. rewrite Hst by done. by apply Hk.
  - intros e [He Hne]%Hin Hc. rewrite Hst by done. by apply Hs.
  - intros e [He Hne]%Hin. by apply Hi.
Qed.

(** *** The cleanup *)
Lemma pick_rest_elem dropped l e : e ∈ (EntryList.pick_rest dropped l).2 -> e ∈ l /\ BaseEntry.Committed e = false.
Proof.
  revert dropped. induction l as [|x l IH]; intros dropped He; cbn [EntryList.pick_rest] in He; [by apply elem_of_nil in He|].
  destruct (BaseEntry.Committed x) eqn:Ec.
  - destruct (deleted_ x); [destruct (IH true He); split; [by right|done]|].
    specialize (IH false). destruct (EntryList.pick_rest false l) as [p l']. destruct (IH He). split; [by right|done].
  - specialize (IH dropped). destruct (EntryList.pick_rest dropped l) as [p l']. cbn in He, IH.
    apply elem_of_cons in He as [->|He]; [split; [by left|done]|]. destruct (IH He). split; [by right|done].
Qed.

(** What the cleanup does to a history. *)
Fixpoint cut (ts : Z) (vs : list version) : list version :=
  match vs with
  | [] => []
  | v :: vs => if v.1 <? ts then kept v else v :: cut ts vs
  end.

Lemma cut_pruned ts C W h : pruned h C W -> pruned (Z.max h (ts - 1)) (cut ts C) W.
Proof.
  intros Hp. assert (Hcut : cut ts C = C \/ exists P v T, C = P ++ v :: T /\ v.1 < ts /\ cut ts C = P ++ kept v).
  { clear. induction C as [|v C IH]; [by left|]. cbn. destruct (Z.ltb_spec v.1 ts); [right; by exists [], v, C|].
    destruct IH as [->|(P & w & T & -> & Hw & ->)]; [by left|right]. by exists (v :: P), w, T. }
  destruct Hcut as [->|(P & v & T & -> & Hv & ->)]; [by apply (pruned_mono h); [|lia]|].
  destruct Hp as [<-|(Q & w & U & -> & Hw & E)]; [right; exists P, v, T; split_and!; [done|lia|done]|].
  destruct (app_eq_app _ _ _ _ E) as [X [[-> E']|[-> E']]].
  - destruct X as [|x X]; cbn in E'.
    + right. exists Q, w, U. rewrite app_nil_r in *. split_and!; [by rewrite ?app_nil_r|lia|]. f_equal.
      unfold kept in E'. destruct (w.2) eqn:Ew; [|done]. injection E' as <- _. unfold kept. by rewrite Ew.
    + unfold kept in E'. destruct (w.2); [|done]. injection E' as <- E'. by apply app_cons_not_nil in E'.
  - destruct X as [|x X]; cbn in E'.
    + right. exists P, w, U. rewrite app_nil_r. split_and!; [done|lia|]. f_equal.
      unfold kept in E'. destruct (w.2) eqn:Ew; [|done]. injection E' as -> _. unfold kept. by rewrite Ew.
    + injection E' as <- ->. right. exists P, v, (X ++ w :: U). split_and!; [by rewrite <- (assoc_L (++))|lia|done].
Qed.

Lemma pick_from_elem ts l e : e ∈ (EntryList.pick_from ts l).2 -> e ∈ l.
Proof.
  induction l as [|x l IH]; cbn [EntryList.pick_from]; [done|]. destruct (commit_ts_ x <? ts).
  - pose proof (pick_rest_elem true l e) as H1. pose proof (pick_rest_elem false l e) as H2.
    destruct (deleted_ x).
    + destruct (EntryList.pick_rest true l) as [p l']. intros He. right. by apply H1.
    + destruct (EntryList.pick_rest false l) as [p l']. intros [->|He]%elem_of_cons; [by left|]. right. by apply H2.
  - destruct (EntryList.pick_from ts l) as [[p sub] l']. cbn in *.
    intros [->|He]%elem_of_cons; [by left|right; by apply IH].
Qed.

Lemma pick_rest_live E dropped l : Forall (fun e => BaseEntry.Committed e = true) (live E l) ->
  live E (EntryList.pick_rest dropped l).2 = [].
Proof.
  intros Hl. destruct (live E (EntryList.pick_rest dropped l).2) as [|e l'] eqn:Ee; [done|exfalso].
  assert (He : e ∈ live E (EntryList.pick_rest dropped l).2) by (rewrite Ee; by left).
  apply live_elem in He as [[He Hc]%pick_rest_elem Hlive]. rewrite Forall_forall in Hl.
  rewrite (Hl e) in Hc; [done|]. by apply live_elem.
Qed.

Lemma pick_from_live E ts l : ts <= UNCOMMIT_TS -> Forall (fun e => BaseEntry.Committed e = true) (live E l) ->
  map as_version (live E (EntryList.pick_from ts l).2) = cut ts (map as_version (live E l)).
Proof.
  intros Hts. induction l as [|e l IH]; [done|]. cbn [EntryList.pick_from]. rewrite live_cons. intros Hl.
  destruct (Z.ltb_spec (commit_ts_ e) ts) as [Hlt|Hge].
  - assert (Hc : BaseEntry.Committed e = true).
    { unfold BaseEntry.Committed. rewrite (proj2 (Z.eqb_neq _ _)) by lia. done. }
    assert (Hle : is_live E e = true) by (unfold is_live; by rewrite Hc). rewrite Hle in Hl |- *. 
    apply Forall_cons_1 in Hl as [_ Hl]. cbn [map cut]. cbn [as_version fst]. rewrite (proj2 (Z.ltb_lt _ _)) by done.
    pose proof (pick_rest_live E true l Hl) as H1. pose proof (pick_rest_live E false l Hl) as H2.
    unfold kept, as_version, contents. cbn [snd]. destruct (deleted_ e) eqn:Ed.
    + destruct (EntryList.pick_rest true l) as [p l']. cbn [snd] in *. by rewrite H1.
    + destruct (EntryList.pick_rest false l) as [p l']. cbn [snd] in *. rewrite live_cons, Hle, H2. cbn. unfold as_version, contents. by rewrite Ed.
  - destruct (EntryList.pick_from ts l) as [[p sub] l'] eqn:Ep. cbn [snd] in *. rewrite live_cons.
    destruct (is_live E e); [|by apply IH]. apply Forall_cons_1 in Hl as [_ Hl]. cbn [map cut as_version fst].
    rewrite (proj2 (Z.ltb_ge _ _)) by done. f_equal. by apply IH.
Qed.

Lemma pick_from_own ts own rest : ts <= UNCOMMIT_TS -> (forall e, e ∈ own -> BaseEntry.Committed e = false) ->
  (EntryList.pick_from ts (own ++ rest)).2 = own ++ (EntryList.pick_from ts rest).2.
Proof.
  intros Hts. induction own as [|e own IH]; intros Hc; [done|]. cbn [app EntryList.pick_from].
  assert (He : commit_ts_ e = UNCOMMIT_TS).
  { specialize (Hc e ltac:(by left)). unfold BaseEntry.Committed in Hc. apply negb_false_iff, Z.eqb_eq in Hc. done. }
  rewrite (proj2 (Z.ltb_ge _ _)) by lia. rewrite <- IH by (intros; apply Hc; by right).
  by destruct (EntryList.pick_from ts (own ++ rest)) as [[p sub] l'].
Qed.

Lemma rel_clean E own rest c ts : rel E own rest c -> ts <= UNCOMMIT_TS ->
  exists rest', (EntryList.PickCleanup ts (own ++ rest)).2 = own ++ rest' /\ rel (env_step (EClean ts) E) own rest' c.
Proof.
  intros Hr Hts. exists (EntryList.pick_from ts rest).2. split.
  { unfold EntryList.PickCleanup. rewrite <- pick_from_own; [|done|intros e He; by apply (rl_own _ _ _ _ Hr)].
    by destruct (EntryList.pick_from ts (own ++ rest)) as [[p sub] l']. }
  assert (Hin : forall e, e ∈ own ++ (EntryList.pick_from ts rest).2 -> e ∈ own ++ rest).
  { intros e [He|He%pick_from_elem]%elem_of_app; apply elem_of_app; auto. }
  apply (rel_env (mkEnv (states E) (last_txn E) (last_commit E) (Z.max (horizon E) (ts - 1)))); [|by left|cbn; lia|cbn; lia].
  destruct Hr as [Hown Hp Hl Hv Hk Hs Hi]. split; [exact Hown|exact Hp|..].
  - apply Forall_forall. intros e [He Hlive]%live_elem. rewrite Forall_forall in Hl. apply Hl, live_elem.
    split; [by apply pick_from_elem in He|done].
  - change (live (mkEnv _ _ _ _)) with (live E). rewrite pick_from_live by done. cbn [horizon]. by apply cut_pruned.
  - intros e He. exact (Hk e (Hin e He)).
  - intros e He. exact (Hs e (Hin e He)).
  - intros e He. exact (Hi e (Hin e He)).
Qed.

(** ** Histories *)
Lemma env_ok_step ev E c : env_ok E -> allowed_event ev E c -> env_ok (env_step ev E).
Proof.
  intros [Hi Hb] Ha.
  assert (Hset : forall t s, is_Some (states E !! t) -> env_ok (set_state t s E)).
  { intros t s [s0 Hs0]. split; intros t' s'; cbn; (destruct (decide (t = t')) as [->|]; [intros _; by eauto|]);
      rewrite lookup_insert_ne by done; eauto. }
  destruct ev as [t|t ct a v|t ct v|t|t|t|t ts|t|t|t|ts]; cbn [env_step allowed_event] in *; try done.
  - destruct Ha as [Hlt Hh]. split; intros t' s'; cbn; (destruct (decide (t = t')) as [->|]; [done|]);
      rewrite lookup_insert_ne by done; intros Hs; [specialize (Hi t' s' Hs); lia|by eauto].
  - apply Hset. by destruct Ha; eexists.
  - apply Hset. by eexists.
  - destruct (Hset t kCommitted) as [H1 H2]; [by destruct Ha; eexists|]. by split.
  - apply Hset. destruct Ha; by eexists.
  - apply Hset. by eexists.
  - split; intros t' s'; cbn; intros [_ Hs]%lookup_delete_Some; eauto.
  - destruct Ha as [_ Ha]. split; cbn; [done|]. intros t' s' Hs. specialize (Hb t' s' Hs). specialize (Ha t' s' Hs). cbn in Ha. lia.
Qed.

Lemma forget_state E own rest c t e : rel E own rest c -> states E !! t = Some kCommitted \/ states E !! t = Some kRollbacked ->
  e ∈ own ++ rest -> GetTxnState (env_step (EForget t) E) (txn_id_ e) = GetTxnState E (txn_id_ e).
Proof.
  intros Hr Ht Hin. unfold GetTxnState at 1. cbn. destruct (decide (t = txn_id_ e)) as [->|]; [|by rewrite lookup_delete_ne].
  rewrite lookup_delete_eq. destruct Ht as [Ht|Ht]; apply started_state in Ht; [done|].
  destruct (BaseEntry.Committed e) eqn:Ec; [by rewrite (rl_settled _ _ _ _ Hr e Hin Ec) in Ht|].
  destruct (rl_known _ _ _ _ Hr e Hin Ec) as [[Hx|Hx]|Hx]; congruence.
Qed.

Lemma meets_owner t c : match meets t c with
  | kNotFound | kFound => owner c = None
  | kUncommitted | kUncommittedDelete => owner c = Some t
  | kConflict => True
  end.
Proof.
  unfold meets, owner. destruct (pending c) as [|[t' x] p].
  - destruct (versions c) as [|[ts x] vs]; [done|]. destruct (ts <=? begins t); [|done]. by destruct x.
  - destruct (Z.eqb_spec t' t) as [->|]; [|done]. by destruct x.
Qed.

Lemma new_entry_push E own rest c t d v : rel E own rest c -> env_ok E -> states E !! t = Some kStarted ->
  owner c = None \/ owner c = Some t ->
  rel E (BaseEntry.NewEntry d v t (begins t) :: own) rest
    (mkCell (versions c) ((t, if d then None else Some v) :: pending c)).
Proof.
  intros Hr He Ht Ho. apply (rel_push E own rest c (BaseEntry.NewEntry d v t (begins t))); try done.
  - by apply (eo_ids _ He t kStarted).
  - by destruct Ho as [->| ->].
Qed.

Lemma add_sim E own rest c t ct a v : rel E own rest c -> env_ok E -> states E !! t = Some kStarted ->
  exists own' rest', exec_event (EAdd t ct a v) E (own ++ rest) = Ok ((spec_event (EAdd t ct a v) c).1, own' ++ rest') /\
    rel E own' rest' (spec_event (EAdd t ct a v) c).2.
Proof.
  intros Hr He Ht. cbn [exec_event spec_event]. unfold EntryList.AddEntry, spec_add.
  rewrite (find_meets E own rest c t Hr He Ht). cbn [res_bind]. pose proof (meets_owner t c) as Ho.
  pose proof (new_entry_push E own rest c t false v Hr He Ht) as Hpush.
  destruct (meets t c); cbn [andb bool_decide]; rewrite ?andb_false_r;
    try (eexists (_ :: own), rest; split; [reflexivity|apply Hpush; auto]);
    try (exists own, rest; split; [by destruct ct|done]).
  destruct a; cbn; [eexists (_ :: own), rest; split; [reflexivity|apply Hpush; auto]|].
  exists own, rest. split; [by destruct ct|done].
Qed.

Lemma drop_sim E own rest c t ct v : rel E own rest c -> env_ok E -> states E !! t = Some kStarted ->
  exists own' rest', exec_event (EDrop t ct v) E (own ++ rest) = Ok ((spec_event (EDrop t ct v) c).1, own' ++ rest') /\
    rel E own' rest' (spec_event (EDrop t ct v) c).2.
Proof.
  intros Hr He Ht. cbn [exec_event spec_event]. unfold EntryList.DropEntry, spec_drop.
  pose proof (find_meets E own rest c t Hr He Ht) as Hf. rewrite Hf. cbn [res_bind]. pose proof (meets_owner t c) as Ho.
  destruct (meets t c); try (exists own, rest; split; [by destruct ct|done]).
  - destruct (own ++ rest) as [|front l] eqn:El; [done|]. rewrite <- El. cbn [res_bind fst snd].
    set (v' := on_drop v (value_ front)). eexists (BaseEntry.NewEntry true v' t (begins t) :: own), rest.
    split; [reflexivity|]. apply (new_entry_push E own rest c t true v' Hr He Ht). by left.
  - destruct own as [|e own]; [unfold owner in Ho; by rewrite (rl_pending _ _ _ _ Hr) in Ho|].
    exists own, rest. split; [done|]. by apply (rel_pop E e).
Qed.

(** An allowed event is answered as by the abstract state. *)
Lemma event_sim ev E own rest c : rel E own rest c -> env_ok E -> allowed_event ev E c ->
  exists own' rest', exec_event ev E (own ++ rest) = Ok ((spec_event ev c).1, own' ++ rest') /\
    rel (env_step ev E) own' rest' (spec_event ev c).2.
Proof.
  intros Hr He Ha. destruct ev as [t|t ct a v|t ct v|t|t|t|t ts|t|t|t|ts]; cbn [exec_event spec_event env_step allowed_event] in *.
  - exists own, rest. split; [done|]. apply (rel_env E); [done| |cbn; lia|cbn; lia]. intros e Hin. left.
    pose proof (rl_ids _ _ _ _ Hr e Hin). unfold GetTxnState. cbn. by rewrite lookup_insert_ne by lia.
  - apply add_sim; done.
  - apply drop_sim; done.
  - destruct (get_sees E own rest c t Hr He Ha) as (o & Ho & Hv). unfold EntryList.GetEntry. rewrite Ho.
    exists own, rest. split; [|done]. unfold EntryList.GetEntryInner2NoLock. rewrite <- Hv. by destruct o.
  - destruct Ha as [Ha Hne]. exists own, rest. split; [done|]. apply (rel_env E); [done| |cbn; lia|cbn; lia].
    intros e Hin. left. rewrite GetTxnState_set, decide_False; [done|]. intros ->.
    apply (working_ids E own rest c (txn_id_ e) Hr) with e; [left; by apply started_state|done..].
  - exists own, rest. split; [done|]. apply (rel_env E); [done| |cbn; lia|cbn; lia]. intros e Hin. unfold same, working.
    rewrite GetTxnState_set. case_decide as Heq; [|by left]. right. rewrite <- Heq, (started_state _ _ _ Ha). auto.
  - destruct Ha as (Ha & _ & Hts). apply (rel_commit E own rest c t ts) in Hr as (own' & rest' & Heq & Hr'); [|done..].
    exists own', rest'. rewrite Heq. done.
  - apply (rel_rollback E own rest c t) in Hr as (own' & rest' & Heq & Hr'); cycle 1.
    { destruct Ha as [Ha|Ha]; apply started_state in Ha; [by left|by right]. }
    exists own', rest'. by rewrite Heq.
  - apply (rel_erase E own rest c t) in Hr as (own' & rest' & Heq & Hr'); [|done]. exists own', rest'. by rewrite Heq.
  - exists own, rest. split; [done|]. apply (rel_env E); [done| |cbn; lia|cbn; lia]. intros e Hin. left.
    by apply (forget_state E own rest c).
  - destruct Ha as [Ha _]. destruct (rel_clean E own rest c ts Hr Ha) as (rest' & Heq & Hr'). exists own, rest'. by rewrite Heq.
Qed.

Lemma rel_init : rel env0 [] [] cell0.
Proof. split; cbn; try done; try (by intros e He%elem_of_nil). by left. Qed.

Lemma env_ok_init : env_ok env0.
Proof. split; cbn; intros t s; by rewrite lookup_empty. Qed.

Lemma events_sim evs E own rest c : rel E own rest c -> env_ok E -> allowed_events evs E c ->
  exists l, exec_events evs E (own ++ rest) = Ok (spec_events evs c, l).
Proof.
  revert E own rest c. induction evs as [|ev evs IH]; intros E own rest c Hr He Ha; cbn; [by eexists|].
  destruct Ha as [Ha Has]. destruct (event_sim ev E own rest c Hr He Ha) as (own' & rest' & -> & Hr'). cbn [res_bind].
  destruct (spec_event ev c) as [out c']. cbn [fst snd] in *.
  destruct (IH _ own' rest' c' Hr') as [l ->]; [by apply (env_ok_step ev E c)|done|]. by eexists.
Qed.

(** C16. Over every history of transactions that follows the protocol, a list of versions answers
    every call (add, drop and get, with their conflicts and errors) as the history of commits with
    the changes of at most one transaction does, whatever transactions that roll back leave in the
    list and whatever the cleanup removes from it. No call raises. *)
Theorem entry_list_refines_history evs : allowed_events evs env0 cell0 ->
  exists l, exec_events evs env0 [] = Ok (spec_events evs cell0, l).
Proof. intros Ha. exact (events_sim evs env0 [] [] cell0 rel_init env_ok_init Ha). Qed.

(** ** Repeatable reads *)
Definition one_owner (c : cell) : Prop := Forall (fun p => Some p.1 = owner c) (pending c).

(** Events of other transactions, with commits after the begin of [t]. *)
Definition quiet t (ev : event) : Prop :=
  match ev with
  | EStart _ | EForget _ | EClean _ | EGet _ | EReadOnly _ | ECommitting _ | EErase _ => True
  | EAdd t' _ _ _ | EDrop t' _ _ | ERollback t' => t' <> t
  | ECommit t' ts => t' <> t /\ begins t < ts
  end.

Definition after (evs : list event) (c : cell) : cell := foldl (fun c ev => (spec_event ev c).2) c evs.

Lemma spec_events_app evs1 evs2 c : spec_events (evs1 ++ evs2) c = spec_events evs1 c ++ spec_events evs2 (after evs1 c).
Proof.
  revert c. induction evs1 as [|ev evs1 IH]; intros c; cbn; [done|]. destruct (spec_event ev c) as [o c']. cbn. by rewrite IH.
Qed.

Lemma one_owner_step ev c : one_owner c -> one_owner (spec_event ev c).2.
Proof.
  unfold one_owner. intros Hc. destruct ev as [t|t ct a v|t ct v|t|t|t|t ts|t|t|t|ts]; cbn [spec_event snd]; try done.
  - unfold spec_add. pose proof (meets_owner t c) as Ho. destruct (meets t c), a; cbn; try done;
      (constructor; [done|]); (eapply Forall_impl; [exact Hc|]); intros p Hp; cbn in Hp |- *; congruence.
  - unfold spec_drop. pose proof (meets_owner t c) as Ho. destruct (meets t c); cbn; try done.
    + constructor; [done|]. eapply Forall_impl; [exact Hc|]. intros p Hp. cbn in Hp |- *. congruence.
    + unfold owner in *. destruct (pending c) as [|[t0 x] p]; [done|]. cbn. apply Forall_cons_1 in Hc as [_ Hc].
      destruct p as [|[t1 y] p]; [done|]. apply Forall_cons_1 in Hc as [Hc1 Hc]. cbn in Hc1. constructor; [done|].
      eapply Forall_impl; [exact Hc|]. intros q Hq. cbn in Hq |- *. congruence.
  - unfold spec_commit. case_decide; [constructor|done].
  - unfold spec_rollback. case_decide; [constructor|done].
Qed.

Lemma one_owner_after evs c : one_owner c -> one_owner (after evs c).
Proof. revert c. induction evs as [|ev evs IH]; intros c Hc; cbn; [done|]. by apply IH, one_owner_step. Qed.

Lemma sees_unowned t c : owner c <> Some t -> sees t c = version_at (begins t) (versions c).
Proof. unfold sees, owner. destruct (pending c) as [|[t' x] p]; [done|]. intros Hne. by destruct (Z.eqb_spec t' t); [congruence|]. Qed.

Lemma version_at_later ts c (new : list version) vs : ts < c -> Forall (fun v => v.1 = c) new ->
  version_at ts (new ++ vs) = version_at ts vs.
Proof. intros Hlt. induction 1 as [|[c' x] new Hc _ IH]; cbn in *; [done|]. rewrite (proj2 (Z.leb_gt _ _)) by lia. done. Qed.

Lemma meets_other t t' c : owner c = Some t -> t' <> t -> meets t' c = kConflict.
Proof.
  unfold owner, meets. destruct (pending c) as [|[t0 x] p]; [done|]. intros [= ->] Hne. by destruct (Z.eqb_spec t t'); [congruence|].
Qed.

Lemma sees_quiet t ev c : one_owner c -> quiet t ev -> sees t (spec_event ev c).2 = sees t c.
Proof.
  intros Hc Hq. pose proof (one_owner_step ev c Hc) as Hc'.
  destruct (decide (owner c = Some t)) as [Ho|Ho].
  - assert (Heq : (spec_event ev c).2 = c); [|by rewrite Heq].
    destruct ev as [t'|t' ct a v|t' ct v|t'|t'|t'|t' ts|t'|t'|t'|ts]; cbn [spec_event snd quiet] in *; try done.
    + unfold spec_add. by rewrite (meets_other t t').
    + unfold spec_drop. by rewrite (meets_other t t').
    + unfold spec_commit. destruct Hq. rewrite decide_False; [done|congruence].
    + unfold spec_rollback. rewrite decide_False; [done|congruence].
  - rewrite (sees_unowned t c Ho). destruct ev as [t'|t' ct a v|t' ct v|t'|t'|t'|t' ts|t'|t'|t'|ts]; cbn [spec_event snd quiet] in *;
      try (by apply sees_unowned).
    + unfold spec_add. destruct (meets t' c), a; cbn [snd]; try (by apply sees_unowned); by rewrite sees_unowned by (cbn; congruence).
    + unfold spec_drop in *. pose proof (meets_owner t' c) as Ho'.
      destruct (meets t' c); cbn [snd] in *; try (by apply sees_unowned); rewrite sees_unowned; try done; cbn; [congruence|].
      unfold one_owner, owner in *. destruct (pending c) as [|[t0 x] p]; [done|]. cbn. destruct p as [|[t1 y] p]; [done|].
      apply Forall_cons_1 in Hc as [_ [Hc1 _]%Forall_cons_1]. cbn in Hc1. congruence.
    + unfold spec_commit. destruct Hq as [Hne Hlt]. case_decide; [|by apply sees_unowned]. unfold sees. cbn.
      apply (version_at_later _ ts); [done|]. apply Forall_forall. intros v (p & -> & _)%list_elem_of_fmap. done.
    + unfold spec_rollback. case_decide; [|by apply sees_unowned]. done.
Qed.

Lemma sees_after t evs c : one_owner c -> Forall (quiet t) evs -> sees t (after evs c) = sees t c.
Proof.
  intros Hc Hq. revert c Hc. induction Hq as [|ev evs Hev _ IH]; intros c Hc; [done|].
  change (sees t (after evs (spec_event ev c).2) = sees t c). rewrite IH by (by apply one_owner_step). by apply sees_quiet.
Qed.

(** Reads repeat: a transaction gets the same answer twice when in between it changes nothing
    and the transactions that commit do so after its begin. *)
Theorem entry_reads_repeat evs1 evs2 t : allowed_events (evs1 ++ EGet t :: evs2 ++ [EGet t]) env0 cell0 -> Forall (quiet t) evs2 ->
  exists a outs1 outs2 l, exec_events (evs1 ++ EGet t :: evs2 ++ [EGet t]) env0 [] = Ok (outs1 ++ a :: outs2 ++ [a], l) /\
    length outs1 = length evs1 /\ length outs2 = length evs2.
Proof.
  intros Ha Hq. destruct (events_sim _ env0 [] [] cell0 rel_init env_ok_init Ha) as [l Hl]. cbn [app] in Hl. rewrite Hl.
  set (c1 := after evs1 cell0).
  exists (spec_event (EGet t) c1).1, (spec_events evs1 cell0), (spec_events evs2 c1), l.
  assert (Hlen : forall evs c, length (spec_events evs c) = length evs).
  { induction evs as [|ev evs IH]; intros c; cbn; [done|]. destruct (spec_event ev c). cbn. by rewrite IH. }
  split_and!; [|apply Hlen..]. do 2 f_equal. rewrite spec_events_app. fold c1. f_equal.
  cbn [spec_events spec_event fst]. f_equal. rewrite spec_events_app. f_equal. cbn [spec_events spec_event].
  rewrite (sees_after t evs2 c1); [done| |done]. by apply one_owner_after, Forall_nil.
Qed.
End history.

(** ** Instances *)

(** Transaction 1 creates a table at 4; transaction 2, begun at 5, replaces it at 6 while 3, begun
    at 5, sees the table of 4; 4 rolls back; the cleanup comes up to 6. *)
Definition demo_begins (t : Z) : Z := match t with 1 => 1 | 2 | 3 => 5 | _ => 7 end.
Definition demo_events : list (event (V := Z)) :=
  [EStart 1; EAdd 1 kError false 10; ECommitting 1; ECommit 1 4; EForget 1;
   EStart 2; EStart 3; EDrop 2 kError 0; EAdd 2 kError false 20; EGet 2; EGet 3; EDrop 3 kError 0; ECommitting 2; ECommit 2 6;
   EGet 3; EForget 2; EDrop 3 kError 0; ERollback 3; EErase 3; EForget 3;
   EStart 4; EDrop 4 kIgnoreConflict 0; ERollback 4; EStart 5; EGet 5; EClean 8; EErase 4; EGet 5].

Lemma entry_list_refines_history_witness :
  exists l, exec_events (K := TableEntryKind) demo_begins demo_events env0 [] =
    Ok (spec_events (K := TableEntryKind) demo_begins demo_events cell0, l).
Proof.
  apply (entry_list_refines_history (K := TableEntryKind) demo_begins demo_events).
  apply (bool_decide_unpack _). by vm_compute.
Defined.

(** Transaction 3 of the example reads the same table before and after 2 replaces it. *)
Lemma entry_reads_repeat_witness :
  exists a outs1 outs2 l, exec_events (K := TableEntryKind) demo_begins
    (take 10 demo_events ++ EGet 3 :: [ECommitting 2; ECommit 2 6] ++ [EGet 3]) env0 [] =
      Ok (outs1 ++ a :: outs2 ++ [a], l) /\ length outs1 = 10%nat /\ length outs2 = 2%nat.
Proof.
  apply (entry_reads_repeat (K := TableEntryKind) demo_begins (take 10 demo_events) [ECommitting 2; ECommit 2 6] 3).
  - apply (bool_decide_unpack _). by vm_compute.
  - repeat constructor; cbn; lia.
Defined.

(** ** A late commit *)
Definition late_begins (t : Z) : Z := match t with 1 => 1 | _ => 5 end.
Definition late_events : list (event (V := Z)) :=
  [EStart 1; EAdd 1 kError false 10; ECommitting 1; EStart 2; EGet 2; ECommit 1 4; EGet 2].

(** A transaction that begins while another one commits reads the entry before and after that
    commit: the first read misses a version that is older than its begin, the second sees it. *)
Theorem late_commit_changes_read :
  allowed_events (K := TableEntryKind) late_begins late_events env0 cell0 /\
  exists l, exec_events (K := TableEntryKind) late_begins late_events env0 [] =
    Ok ([None; Some (kOk, None); None; None; Some (kTableNotExist, None); None; Some (kOk, Some 10)], l).
Proof. split; [apply (bool_decide_unpack _); by vm_compute|]. eexists. vm_compute. reflexivity. Qed.
