(* ===== verification/TxnManager.v ===== *)
(** * The transaction manager: [src/src/storage/txn/txn_manager.cpp], [txn.cpp]

    Transaction ids stand for pointers to transactions. [txns_] holds the objects; [txn_map_] the
    ids of the map that owns them, while another owner may be a conflict check that runs. A
    [std::map] with timestamps as keys is a list in the order of its keys. Timestamps do not
    overflow. *)
From S2P Require Import Prelude TxnContext.

(** ** [std::map] with timestamps as keys *)
Module TsMap.
Section map.
Context {A : Type}.
Implicit Types (m : list (Z * A)) (ts : Z).

Fixpoint emplace ts (a : A) m : list (Z * A) :=
  match m with
  | [] => [(ts, a)]
  | (k, b) :: m' => if ts <? k then (ts, a) :: m else if ts =? k then m else (k, b) :: emplace ts a m'
  end.
Definition erase ts m : list (Z * A) := List.filter (fun p => negb (p.1 =? ts)) m.
Definition assign ts (a : A) m : list (Z * A) := map (fun p => if p.1 =? ts then (ts, a) else p) m.
Definition mem ts m : bool := existsb (fun p => p.1 =? ts) m.
End map.
End TsMap.

(** A transaction: its context, whether it still has its log entry, and whether the log thread is
    done with it. *)
Record Txn := mkTxn { context : TxnContext.TxnContext; wal_entry_ : bool; commit_bottom_done_ : bool }.

Record TxnManager := mkTxnManager {
  next_txn_id_ : Z;
  txns_ : gmap Z Txn;
  txn_map_ : gset Z;
  txn_context_histories_ : list Z;
  beginned_txns_ : list Z;
  committing_txns_ : list (Z * Z);
  checking_ts_ : gset Z;
  wait_conflict_ck_ : list (Z * option Z);
  current_ts_ : Z;
  max_committed_ts_ : Z;
  ckp_begin_ts_ : Z;
  is_running_ : bool;
}.

Definition DEFAULT_TXN_HISTORY_SIZE : Z := 128.

Module TxnManager.
Import TxnContext.
Implicit Types (m : TxnManager) (t ts : Z).

Definition make (next_txn_id start_ts : Z) : TxnManager :=
  mkTxnManager next_txn_id ∅ ∅ [] [] [] ∅ [] start_ts start_ts UNCOMMIT_TS false.
Definition Start m : TxnManager :=
  mkTxnManager (next_txn_id_ m) (txns_ m) (txn_map_ m) (txn_context_histories_ m) (beginned_txns_ m) (committing_txns_ m)
    (checking_ts_ m) (wait_conflict_ck_ m) (current_ts_ m) (max_committed_ts_ m) (ckp_begin_ts_ m) true.

Definition set_txns txns m : TxnManager :=
  mkTxnManager (next_txn_id_ m) txns (txn_map_ m) (txn_context_histories_ m) (beginned_txns_ m) (committing_txns_ m)
    (checking_ts_ m) (wait_conflict_ck_ m) (current_ts_ m) (max_committed_ts_ m) (ckp_begin_ts_ m) (is_running_ m).
Definition set_beginned ids m : TxnManager :=
  mkTxnManager (next_txn_id_ m) (txns_ m) (txn_map_ m) (txn_context_histories_ m) ids (committing_txns_ m)
    (checking_ts_ m) (wait_conflict_ck_ m) (current_ts_ m) (max_committed_ts_ m) (ckp_begin_ts_ m) (is_running_ m).
Definition set_checking X m : TxnManager :=
  mkTxnManager (next_txn_id_ m) (txns_ m) (txn_map_ m) (txn_context_histories_ m) (beginned_txns_ m) (committing_txns_ m)
    X (wait_conflict_ck_ m) (current_ts_ m) (max_committed_ts_ m) (ckp_begin_ts_ m) (is_running_ m).
Definition set_wait wait m : TxnManager :=
  mkTxnManager (next_txn_id_ m) (txns_ m) (txn_map_ m) (txn_context_histories_ m) (beginned_txns_ m) (committing_txns_ m)
    (checking_ts_ m) wait (current_ts_ m) (max_committed_ts_ m) (ckp_begin_ts_ m) (is_running_ m).
Definition set_ckp ts m : TxnManager :=
  mkTxnManager (next_txn_id_ m) (txns_ m) (txn_map_ m) (txn_context_histories_ m) (beginned_txns_ m) (committing_txns_ m)
    (checking_ts_ m) (wait_conflict_ck_ m) (current_ts_ m) (max_committed_ts_ m) ts (is_running_ m).

(** Access to a transaction through its pointer. *)
Definition with_txn {A : Type} t m (f : Txn -> res A) : res A :=
  match txns_ m !! t with Some x => f x | None => Err Undefined end.
Definition update_context t (f : TxnContext -> res TxnContext) m : res TxnManager :=
  with_txn t m (fun x =>
    let? c := f (context x) in
    Ok (set_txns (<[t := mkTxn c (wal_entry_ x) (commit_bottom_done_ x)]> (txns_ m)) m)).

(** [None] is the null pointer: another checkpoint runs. *)
Definition BeginTxn (txn_type : TransactionType) m : res (option Z * TxnManager) :=
  check? is_running_ m else Unrecoverable in
  let new_txn_id := next_txn_id_ m + 1 in
  let begin_ts := current_ts_ m + 1 in
  let begin ckp :=
    mkTxnManager new_txn_id (<[new_txn_id := mkTxn (TxnContext.make new_txn_id begin_ts txn_type) true false]> (txns_ m))
      ({[new_txn_id]} ∪ txn_map_ m) (txn_context_histories_ m) (beginned_txns_ m ++ [new_txn_id]) (committing_txns_ m)
      (checking_ts_ m) (wait_conflict_ck_ m) (current_ts_ m) (max_committed_ts_ m) ckp (is_running_ m) in
  if decide (txn_type = kCheckpoint) then
    if ckp_begin_ts_ m =? UNCOMMIT_TS then Ok (Some new_txn_id, begin begin_ts)
    else
      Ok (None, mkTxnManager new_txn_id (txns_ m) (txn_map_ m) (txn_context_histories_ m) (beginned_txns_ m)
                  (committing_txns_ m) (checking_ts_ m) (wait_conflict_ck_ m) (current_ts_ m) (max_committed_ts_ m)
                  (ckp_begin_ts_ m) (is_running_ m))
  else Ok (Some new_txn_id, begin (ckp_begin_ts_ m)).

Definition GetTxnState t m : TxnState :=
  if decide (t ∈ txn_map_ m)
  then match txns_ m !! t with Some x => state_ (context x) | None => kCommitted end
  else kCommitted.

Definition CheckIfCommitting t (begin_ts : Z) m : bool :=
  if decide (t ∈ txn_map_ m) then
    match txns_ m !! t with
    | Some x =>
        let state := state_ (context x) in
        if bool_decide (state <> kCommitting) && bool_decide (state <> kCommitted) then false
        else commit_ts_ (context x) <? begin_ts
    | None => true
    end
  else true.

Definition GetReadCommitTS t m : res (Z * TxnManager) :=
  let commit_ts := current_ts_ m + 1 in
  let? m := update_context t (fun c => Ok (SetTxnRead c)) m in
  Ok (commit_ts, m).

Definition GetWriteCommitTS t m : res (Z * TxnManager) :=
  let commit_ts := current_ts_ m + 2 in
  let m := mkTxnManager (next_txn_id_ m) (txns_ m) (txn_map_ m) (txn_context_histories_ m) (beginned_txns_ m)
             (TsMap.emplace commit_ts t (committing_txns_ m)) (checking_ts_ m)
             (TsMap.emplace commit_ts None (wait_conflict_ck_ m)) commit_ts (max_committed_ts_ m)
             (ckp_begin_ts_ m) (is_running_ m) in
  let? m := update_context t (fun c => Ok (SetTxnWrite c)) m in
  Ok (commit_ts, m).

(** The two locked parts of [CheckTxnConflict]: collecting the transactions to compare with, and
    the deferred end. The checks between them read the stores of these transactions. *)
Fixpoint candidates (commit_ts : Z) (committing : list (Z * Z)) m : res (list Z * Z) :=
  match committing with
  | [] => Ok ([], UNCOMMIT_TS)
  | (committing_ts, committing_txn) :: committing =>
      let? (ids, min_checking_ts) := candidates commit_ts committing m in
      if committing_ts <? commit_ts
      then with_txn committing_txn m (fun x => Ok (committing_txn :: ids, Z.min (begin_ts_ (context x)) min_checking_ts))
      else Ok (ids, min_checking_ts)
  end.
Definition check_begin t m : res (list Z * Z * TxnManager) :=
  with_txn t m (fun x =>
    let? (ids, min_checking_ts) := candidates (commit_ts_ (context x)) (committing_txns_ m) m in
    let X := if min_checking_ts =? UNCOMMIT_TS then checking_ts_ m else {[min_checking_ts]} ∪ checking_ts_ m in
    Ok (ids, min_checking_ts, set_checking X m)).
Definition check_end (min_checking_ts : Z) m : TxnManager :=
  if min_checking_ts =? UNCOMMIT_TS then m else set_checking (checking_ts_ m ∖ {[min_checking_ts]}) m.

(** The transactions at the front that have passed their conflict check. *)
Fixpoint take_ready (wait : list (Z * option Z)) : list Z * list (Z * option Z) :=
  match wait with
  | (_, Some t) :: wait => let '(txn_array, wait) := take_ready wait in (t :: txn_array, wait)
  | _ => ([], wait)
  end.

(** The list is what is submitted to the log. *)
Definition SendToWAL t m : res (list Z * TxnManager) :=
  check? is_running_ m else Unrecoverable in
  with_txn t m (fun x =>
    let commit_ts := commit_ts_ (context x) in
    match wait_conflict_ck_ m with
    | [] => Err Unrecoverable
    | (first, _) :: _ =>
        check? negb (commit_ts <? first) else Unrecoverable in
        let? wait := (if wal_entry_ x
                      then check? TsMap.mem commit_ts (wait_conflict_ck_ m) else Undefined in
                           Ok (TsMap.assign commit_ts (Some t) (wait_conflict_ck_ m))
                      else Ok (TsMap.erase commit_ts (wait_conflict_ck_ m))) in
        let '(txn_array, wait) := take_ready wait in
        Ok (txn_array, set_wait wait m)
    end).

(** Removal of a transaction that is done; the answer tells whether its delta entry is submitted. *)
Definition CleanupTxn (commit has_delta_ops : bool) t m : res (bool * TxnManager) :=
  with_txn t m (fun x =>
    if is_write_transaction_ (context x) then
      let? m := (match state_ (context x) with
                 | kCommitting => update_context t SetTxnCommitted m
                 | kRollbacking => update_context t (fun c => Ok (SetTxnRollbacked c)) m
                 | _ => Err Unrecoverable
                 end) in
      let commit_ts := commit_ts_ (context x) in
      check? TsMap.mem commit_ts (committing_txns_ m) else Unrecoverable in
      let committing := TsMap.erase commit_ts (committing_txns_ m) in
      check? bool_decide (t ∈ txn_map_ m) else Undefined in
      let histories := if DEFAULT_TXN_HISTORY_SIZE <=? Z.of_nat (length (txn_context_histories_ m))
                       then tail (txn_context_histories_ m) else txn_context_histories_ m in
      let max_committed := match committing with
                           | [] => commit_ts
                           | (first, _) :: _ => if commit_ts <? first then commit_ts else max_committed_ts_ m
                           end in
      Ok (commit && has_delta_ops,
          mkTxnManager (next_txn_id_ m) (txns_ m) (txn_map_ m ∖ {[t]}) (histories ++ [t]) (beginned_txns_ m)
            committing (checking_ts_ m) (wait_conflict_ck_ m) (current_ts_ m) max_committed (ckp_begin_ts_ m) (is_running_ m))
    else
      Ok (false,
          mkTxnManager (next_txn_id_ m) (txns_ m) (txn_map_ m ∖ {[t]}) (txn_context_histories_ m) (beginned_txns_ m)
            (committing_txns_ m) (checking_ts_ m) (wait_conflict_ck_ m) (current_ts_ m) (max_committed_ts_ m)
            (ckp_begin_ts_ m) (is_running_ m))).

Definition reset_ckp t m : res TxnManager :=
  with_txn t m (fun x => Ok (if decide (txn_type_ (context x) = kCheckpoint) then set_ckp UNCOMMIT_TS m else m)).

(** [lock] is the answer of the weak pointers. *)
Fixpoint first_alive (lock : Z -> bool) (ids : list Z) : list Z :=
  match ids with
  | [] => []
  | t :: ids' => if lock t then ids else first_alive lock ids'
  end.
Definition GetCleanupScanTS (lock : Z -> bool) (last_checkpoint_ts : Z) m : res (Z * TxnManager) :=
  let ids := first_alive lock (beginned_txns_ m) in
  let? first_uncommitted_begin_ts := (match ids with
                                      | [] => Ok (current_ts_ m)
                                      | t :: _ => with_txn t m (fun x => Ok (begin_ts_ (context x)))
                                      end) in
  let least_ts := Z.min first_uncommitted_begin_ts last_checkpoint_ts in
  let least_ts := set_fold Z.min least_ts (checking_ts_ m) in
  Ok (least_ts, set_beginned ids m).

Definition InCheckpointProcess (commit_ts : Z) m : bool * TxnManager :=
  if ckp_begin_ts_ m <? commit_ts then (true, set_ckp UNCOMMIT_TS m) else (false, m).

(** ** [Txn::Commit] and [Txn::Rollback], between the calls of the manager *)
Definition commit_read t m : res TxnManager :=
  let? (commit_ts, m) := GetReadCommitTS t m in
  let? m := update_context t (SetTxnCommitting commit_ts) m in
  update_context t SetTxnCommitted m.

Definition drop_wal_entry t m : res TxnManager :=
  with_txn t m (fun x => Ok (set_txns (<[t := mkTxn (context x) false (commit_bottom_done_ x)]> (txns_ m)) m)).
Definition bottom_done t m : res TxnManager :=
  with_txn t m (fun x => Ok (set_txns (<[t := mkTxn (context x) (wal_entry_ x) true]> (txns_ m)) m)).

Definition Rollback t m : res TxnManager :=
  with_txn t m (fun x =>
    let? (abort_ts, m) := (match state_ (context x) with
                           | kStarted => GetReadCommitTS t m
                           | kCommitting => Ok (commit_ts_ (context x), m)
                           | _ => Err Unrecoverable
                           end) in
    update_context t (SetTxnRollbacking abort_ts) m).

(** The ends of [CommitTxn] and [RollBackTxn]. *)
Definition finish (commit has_delta_ops : bool) t m : res (bool * TxnManager) :=
  let? m := reset_ckp t m in CleanupTxn commit has_delta_ops t m.

(** The end of the process: the transactions of the map are woken up. *)
Definition cancel (x : Txn) : Txn := mkTxn (SetTxnRollbacked (context x)) (wal_entry_ x) true.
Definition Stop m : TxnManager :=
  if is_running_ m then
    mkTxnManager (next_txn_id_ m) (map_imap (fun t x => Some (if decide (t ∈ txn_map_ m) then cancel x else x)) (txns_ m)) ∅
      (txn_context_histories_ m) (beginned_txns_ m) (committing_txns_ m) (checking_ts_ m) (wait_conflict_ck_ m)
      (current_ts_ m) (max_committed_ts_ m) (ckp_begin_ts_ m) false
  else m.
End TxnManager.
