(* ===== verification/TxnHistory.v ===== *)
(** * Histories of transactions

    Transactions run their steps in any interleaving. What the manager promises: no call raises;
    transactions reach the log in the order of their commit timestamps, and none that passed its
    check is held back once the earlier ones are decided; the cleanup stays behind the begin of
    every transaction that is alive; everything up to the largest committed timestamp is done. *)
From stdpp Require Import sorting.
From S2P Require Import Prelude TxnContext TxnManager.
Import TxnContext.

(** ** Threads *)

(** How far a transaction has come; the timestamp is its commit timestamp. *)
Inductive phase :=
| PRunning
| PReadDone
| PRegistered (ts : Z)
| PCommitting (ts : Z)
| PChecking (ts : Z) (candidates : list Z) (min_checking_ts : Z)
| PChecked (ts : Z) (passed : bool)
| PSent (ts : Z)
| PAborted (ts : Z)
| PBottom (ts : Z)
| PRolling (ts : option Z).

(** [wal] are the transactions submitted to the log, with their timestamps; the log thread has
    finished the first [bottoms]. *)
Record world := mkWorld { mgr : TxnManager; phases : gmap Z phase; wal : list (Z * Z); bottoms : nat }.

Implicit Types (w : world) (m : TxnManager) (t ts : Z) (ph : gmap Z phase).

Inductive action :=
| ABegin (txn_type : TransactionType)
| ACommitRead t
| ARegister t
| ASetCommitting t
| ACheck t
| AChecked t (passed : bool)
| ASend t
| AAbort t
| ABottom t
| AFinish t (has_delta_ops : bool)
| ARollback t
| ARollbackDone t
| AScan (last_checkpoint_ts : Z)
| ASwap (commit_ts : Z).

(** An object lives while the map or a running check owns it. *)
Definition held_by (t : Z) (p : phase) : Prop := match p with PChecking _ ids _ => t ∈ ids | _ => False end.
#[export] Instance held_by_dec t p : Decision (held_by t p).
Proof. destruct p; cbn; apply _. Defined.
Definition alive ph t : Prop := is_Some (ph !! t) \/ exists t' p, ph !! t' = Some p /\ held_by t p.
Definition lock ph t : bool :=
  bool_decide (is_Some (ph !! t)) || negb (bool_decide (map_Forall (fun _ p => ~ held_by t p) ph)).

(** What the log gets from [SendToWAL]. *)
Definition stamp m t : Z * Z := (match txns_ m !! t with Some x => commit_ts_ (context x) | None => 0 end, t).

Definition enter t p w m : world := mkWorld m (<[t := p]> (phases w)) (wal w) (bottoms w).
Definition leave t w m : world := mkWorld m (delete t (phases w)) (wal w) (bottoms w).
Definition submit t p w (r : list Z * TxnManager) : world :=
  mkWorld r.2 (<[t := p]> (phases w)) (wal w ++ map (stamp r.2) r.1) (bottoms w).

(** [None]: the thread is not at this point. *)
Definition exec_action (a : action) w : option (res world) :=
  let m := mgr w in
  match a with
  | ABegin txn_type =>
      Some (let? (o, m) := TxnManager.BeginTxn txn_type m in
            Ok (match o with Some t => enter t PRunning w m | None => mkWorld m (phases w) (wal w) (bottoms w) end))
  | ACommitRead t =>
      match phases w !! t with
      | Some PRunning => Some (let? m := TxnManager.commit_read t m in Ok (enter t PReadDone w m))
      | _ => None
      end
  | ARegister t =>
      match phases w !! t with
      | Some PRunning => Some (let? (ts, m) := TxnManager.GetWriteCommitTS t m in Ok (enter t (PRegistered ts) w m))
      | _ => None
      end
  | ASetCommitting t =>
      match phases w !! t with
      | Some (PRegistered ts) =>
          Some (let? m := TxnManager.update_context t (SetTxnCommitting ts) m in Ok (enter t (PCommitting ts) w m))
      | _ => None
      end
  | ACheck t =>
      match phases w !! t with
      | Some (PCommitting ts) =>
          Some (let? (ids, min_ts, m) := TxnManager.check_begin t m in Ok (enter t (PChecking ts ids min_ts) w m))
      | _ => None
      end
  | AChecked t passed =>
      match phases w !! t with
      | Some (PChecking ts _ min_ts) => Some (Ok (enter t (PChecked ts passed) w (TxnManager.check_end min_ts m)))
      | _ => None
      end
  | ASend t =>
      match phases w !! t with
      | Some (PChecked ts true) => Some (let? r := TxnManager.SendToWAL t m in Ok (submit t (PSent ts) w r))
      | _ => None
      end
  | AAbort t =>
      match phases w !! t with
      | Some (PChecked ts false) =>
          Some (let? m := TxnManager.drop_wal_entry t m in
                let? r := TxnManager.SendToWAL t m in Ok (submit t (PAborted ts) w r))
      | _ => None
      end
  | ABottom t =>
      match phases w !! t with
      | Some (PSent ts) =>
          if decide (wal w !! bottoms w = Some (ts, t)) then
            Some (let? m := TxnManager.bottom_done t m in
                  Ok (mkWorld m (<[t := PBottom ts]> (phases w)) (wal w) (S (bottoms w))))
          else None
      | _ => None
      end
  | AFinish t has_delta_ops =>
      match phases w !! t with
      | Some (PBottom _) | Some PReadDone =>
          Some (let? (_, m) := TxnManager.finish true has_delta_ops t m in Ok (leave t w m))
      | _ => None
      end
  | ARollback t =>
      match phases w !! t with
      | Some PRunning => Some (let? m := TxnManager.Rollback t m in Ok (enter t (PRolling None) w m))
      | Some (PAborted ts) => Some (let? m := TxnManager.Rollback t m in Ok (enter t (PRolling (Some ts)) w m))
      | _ => None
      end
  | ARollbackDone t =>
      match phases w !! t with
      | Some (PRolling _) => Some (let? (_, m) := TxnManager.finish false false t m in Ok (leave t w m))
      | _ => None
      end
  | AScan last_checkpoint_ts =>
      Some (let? (_, m) := TxnManager.GetCleanupScanTS (lock (phases w)) last_checkpoint_ts m in
            Ok (mkWorld m (phases w) (wal w) (bottoms w)))
  | ASwap commit_ts => Some (Ok (mkWorld (TxnManager.InCheckpointProcess commit_ts m).2 (phases w) (wal w) (bottoms w)))
  end.

Inductive reachable (next_txn_id start_ts : Z) : world -> Prop :=
| reachable_start : reachable next_txn_id start_ts (mkWorld (TxnManager.Start (TxnManager.make next_txn_id start_ts)) ∅ [] 0)
| reachable_action w a w' : reachable next_txn_id start_ts w -> exec_action a w = Some (Ok w') -> reachable next_txn_id start_ts w'.

(** ** The invariant *)

(** The commit timestamp of a phase, from its registration to its removal. *)
Definition ts_of (p : phase) : option Z :=
  match p with
  | PRegistered ts | PCommitting ts | PChecking ts _ _ | PChecked ts _ | PSent ts | PAborted ts | PBottom ts => Some ts
  | PRolling o => o
  | PRunning | PReadDone => None
  end.
(** The timestamp of a phase before the outcome of its check is known to the log. *)
Definition undecided (p : phase) : option Z :=
  match p with PRegistered ts | PCommitting ts | PChecking ts _ _ | PChecked ts _ => Some ts | _ => None end.
Definition sent (p : phase) : option Z := match p with PSent ts => Some ts | _ => None end.

Definition has ph (f : phase -> option Z) t ts : Prop := exists p, ph !! t = Some p /\ f p = Some ts.

Definition context_ok (p : phase) (x : Txn) : Prop :=
  let c := context x in
  match p with
  | PRunning => state_ c = kStarted
  | PReadDone => is_write_transaction_ c = false
  | PRegistered _ => state_ c = kStarted /\ is_write_transaction_ c = true
  | PRolling (Some ts) => state_ c = kRollbacking /\ commit_ts_ c = ts /\ is_write_transaction_ c = true
  | PRolling None => is_write_transaction_ c = false
  | PCommitting ts | PChecking ts _ _ | PChecked ts _ | PSent ts | PAborted ts | PBottom ts =>
      state_ c = kCommitting /\ commit_ts_ c = ts /\ is_write_transaction_ c = true
  end /\ (match p with PAborted _ | PRolling _ => True | _ => wal_entry_ x = true end).

Definition begin_of m t : Z := match txns_ m !! t with Some x => begin_ts_ (context x) | None => 0 end.

(** The transactions that wait for the log thread. *)
Definition queued w : list (Z * Z) := drop (bottoms w) (wal w).

Definition keys_sorted {A : Type} (l : list (Z * A)) : Prop := StronglySorted Z.lt l.*1.

(** The transactions and their objects. *)
Record objs w : Prop := {
  iv_running : is_running_ (mgr w) = true;
  iv_new : forall t, is_Some (txns_ (mgr w) !! t) -> t <= next_txn_id_ (mgr w);
  iv_map : txn_map_ (mgr w) = dom (phases w);
  iv_context : forall t p, phases w !! t = Some p -> exists x, txns_ (mgr w) !! t = Some x /\ context_ok p x;
  iv_bsorted : StronglySorted (fun t t' => begin_of (mgr w) t <= begin_of (mgr w) t') (beginned_txns_ (mgr w));
  iv_bbound : forall t, is_Some (txns_ (mgr w) !! t) -> begin_of (mgr w) t <= current_ts_ (mgr w) + 1;
  iv_bexist : Forall (fun t => is_Some (txns_ (mgr w) !! t)) (beginned_txns_ (mgr w));
  iv_alive : forall t, alive (phases w) t -> t ∈ beginned_txns_ (mgr w);
}.

(** The transactions with a commit timestamp. *)
Record commits w : Prop := {
  iv_committing : forall ts t, (ts, t) ∈ committing_txns_ (mgr w) <-> has (phases w) ts_of t ts;
  iv_csorted : keys_sorted (committing_txns_ (mgr w));
  iv_cbound : Forall (fun q => max_committed_ts_ (mgr w) < q.1 <= current_ts_ (mgr w)) (committing_txns_ (mgr w));
  iv_max : max_committed_ts_ (mgr w) <= current_ts_ (mgr w);
}.

(** The transactions on their way to the log. *)
Record queue w : Prop := {
  iv_wsorted : keys_sorted (wait_conflict_ck_ (mgr w));
  iv_wbound : Forall (fun q => q.1 <= current_ts_ (mgr w)) (wait_conflict_ck_ (mgr w));
  iv_whead : match wait_conflict_ck_ (mgr w) with (_, Some _) :: _ => False | _ => True end;
  iv_none : forall ts, (ts, None) ∈ wait_conflict_ck_ (mgr w) <-> exists t, has (phases w) undecided t ts;
  iv_some : forall ts t, (ts, Some t) ∈ wait_conflict_ck_ (mgr w) \/ (ts, t) ∈ queued w <-> has (phases w) sent t ts;
  iv_lsorted : keys_sorted (wal w);
  iv_lbound : forall q r, q ∈ wal w -> r ∈ wait_conflict_ck_ (mgr w) -> q.1 < r.1;
  iv_lcurrent : Forall (fun q => q.1 <= current_ts_ (mgr w)) (wal w);
  iv_bottoms : (bottoms w <= length (wal w))%nat;
}.

Record inv w : Prop := { iv_objs : objs w; iv_commits : commits w; iv_queue : queue w }.

(** ** Maps of timestamps *)
Section tsmap.
Context {A : Type}.
Implicit Types (l : list (Z * A)).

Lemma emplace_last ts a l : Forall (fun q => q.1 < ts) l -> TsMap.emplace ts a l = l ++ [(ts, a)].
Proof.
  induction 1 as [|[k b] l Hk _ IH]; cbn in *; [done|].
  rewrite (proj2 (Z.ltb_ge _ _)), (proj2 (Z.eqb_neq _ _)), IH by lia. done.
Qed.

Lemma keys_sorted_app l l' : keys_sorted (l ++ l') <->
  keys_sorted l /\ keys_sorted l' /\ forall q r, q ∈ l -> r ∈ l' -> q.1 < r.1.
Proof.
  unfold keys_sorted. rewrite fmap_app, StronglySorted_app. split.
  - intros (Hlt & H1 & H2). split_and!; [done..|]. intros q r Hq Hr. apply Hlt; apply list_elem_of_fmap; eauto.
  - intros (H1 & H2 & Hlt). split_and!; [|done..].
    intros k k' (q & -> & Hq)%list_elem_of_fmap (r & -> & Hr)%list_elem_of_fmap. by apply Hlt.
Qed.

Lemma keys_sorted_snoc l ts a : keys_sorted l -> Forall (fun q => q.1 < ts) l -> keys_sorted (l ++ [(ts, a)]).
Proof.
  intros Hl Hlt. apply keys_sorted_app. split_and!; [done|by repeat constructor|].
  intros q r Hq ->%list_elem_of_singleton. rewrite Forall_forall in Hlt. by apply Hlt.
Qed.

Lemma keys_sorted_drop l n q r : keys_sorted l -> l !! n = Some q -> r ∈ drop (S n) l -> q.1 < r.1.
Proof.
  intros Hl Hq Hr. rewrite <- (take_drop (S n) l) in Hl. apply keys_sorted_app in Hl as (_ & _ & Hlt). apply Hlt; [|done].
  apply (list_elem_of_lookup_2 _ n). rewrite lookup_take_lt by lia. done.
Qed.

Lemma keys_unique l k a b : keys_sorted l -> (k, a) ∈ l -> (k, b) ∈ l -> a = b.
Proof.
  induction l as [|[k' c] l IH]; intros Hs Ha Hb; [by apply elem_of_nil in Ha|].
  apply StronglySorted_inv in Hs as [Hs Hlt]. rewrite Forall_forall in Hlt.
  assert (Hne : forall d, (k', d) ∉ l).
  { intros d Hd. apply (Z.lt_irrefl k'), Hlt, list_elem_of_fmap. by exists (k', d). }
  apply elem_of_cons in Ha as [Ea|Ha]; apply elem_of_cons in Hb as [Eb|Hb]; simplify_eq; [done|by destruct (Hne b)|by destruct (Hne a)|].
  by apply IH.
Qed.

Lemma erase_elem ts l q : q ∈ TsMap.erase ts l <-> q ∈ l /\ q.1 <> ts.
Proof. unfold TsMap.erase. rewrite !list_elem_of_In, filter_In, negb_true_iff, Z.eqb_neq. done. Qed.

Lemma erase_sorted ts l : keys_sorted l -> keys_sorted (TsMap.erase ts l).
Proof.
  unfold keys_sorted. induction l as [|[k a] l IH]; intros Hs; cbn; [done|]. apply StronglySorted_inv in Hs as [Hs Hlt].
  destruct (k =? ts); cbn; [by apply IH|]. constructor; [by apply IH|]. rewrite Forall_forall in Hlt |- *.
  intros k' (q & -> & Hq)%list_elem_of_fmap. apply Hlt, list_elem_of_fmap. exists q. split; [done|]. by apply (proj1 (erase_elem ts l q)) in Hq as [? _].
Qed.

Lemma assign_keys ts a l : (TsMap.assign ts a l).*1 = l.*1.
Proof.
  unfold TsMap.assign. induction l as [|[k b] l IH]; cbn; [done|]. rewrite IH. destruct (Z.eqb_spec k ts); cbn; by subst.
Qed.

Lemma assign_elem ts a l k b : (k, b) ∈ TsMap.assign ts a l <-> k <> ts /\ (k, b) ∈ l \/ k = ts /\ b = a /\ ts ∈ l.*1.
Proof.
  unfold TsMap.assign. split.
  - intros ([k' b'] & E & Hin)%list_elem_of_fmap. cbn in E. destruct (Z.eqb_spec k' ts) as [->|]; injection E as -> ->.
    + right. split_and!; [done..|]. apply list_elem_of_fmap. by exists (ts, b').
    + by left.
  - intros [[Hne Hin]|(-> & -> & ([k' b'] & -> & Hin)%list_elem_of_fmap)].
    + apply list_elem_of_fmap. exists (k, b). split; [|done]. by rewrite (proj2 (Z.eqb_neq _ _)).
    + apply list_elem_of_fmap. exists (k', b'). split; [|done]. by rewrite Z.eqb_refl.
Qed.

Lemma mem_elem ts l : TsMap.mem ts l = true <-> ts ∈ l.*1.
Proof.
  unfold TsMap.mem. rewrite existsb_exists, list_elem_of_fmap. setoid_rewrite <- list_elem_of_In. split.
  - intros (q & Hq & <-%Z.eqb_eq). eauto.
  - intros (q & -> & Hq). exists q. by rewrite Z.eqb_refl.
Qed.
End tsmap.

(** ** Phases *)
Lemma has_insert ph f t p t' ts : has (<[t := p]> ph) f t' ts <-> t = t' /\ f p = Some ts \/ t <> t' /\ has ph f t' ts.
Proof.
  unfold has. destruct (decide (t = t')) as [<-|Hne].
  - rewrite lookup_insert_eq. split; [intros (q & [= <-] & Hf); by left|intros [[_ Hf]|[? _]]; [eauto|done]].
  - rewrite lookup_insert_ne by done. split; [by right|]. intros [[? _]|[_ ?]]; done.
Qed.

Lemma has_same ph f t p p' t' ts : ph !! t = Some p -> f p' = f p -> has (<[t := p']> ph) f t' ts <-> has ph f t' ts.
Proof.
  intros Hp Hf. rewrite has_insert, Hf. split; [|destruct (decide (t = t')) as [<-|]; auto].
  - intros [[<- ?]|[_ ?]]; [by exists p|done].
  - intros (q & Hq & ?). left. split; [done|]. congruence.
Qed.

Lemma has_delete ph f t t' ts : has (delete t ph) f t' ts <-> t <> t' /\ has ph f t' ts.
Proof.
  unfold has. destruct (decide (t = t')) as [<-|Hne].
  - rewrite lookup_delete_eq. split; [by intros (q & ? & _)|by intros [? _]].
  - rewrite lookup_delete_ne by done. split; [done|by intros [_ ?]].
Qed.

Lemma has_at ph f t p ts : ph !! t = Some p -> f p = Some ts -> has ph f t ts.
Proof. intros. by exists p. Qed.

Lemma undecided_ts ph t ts : has ph undecided t ts -> has ph ts_of t ts.
Proof. intros (p & Hp & E). exists p. split; [done|]. by destruct p. Qed.

Lemma sent_ts ph t ts : has ph sent t ts -> has ph ts_of t ts.
Proof. intros (p & Hp & E). exists p. split; [done|]. by destruct p. Qed.

Lemma ts_unique w t t' ts : commits w -> has (phases w) ts_of t ts -> has (phases w) ts_of t' ts -> t = t'.
Proof.
  intros Hi H1%(iv_committing _ Hi) H2%(iv_committing _ Hi). by apply (keys_unique _ _ _ _ (iv_csorted _ Hi) H1 H2).
Qed.

Lemma lock_alive ph t : lock ph t = true <-> alive ph t.
Proof.
  unfold lock, alive. rewrite orb_true_iff, negb_true_iff, bool_decide_eq_true, bool_decide_eq_false. split.
  - intros [?|Hn]; [by left|right]. apply map_not_Forall in Hn as (t' & p & Hp & Hh); [|apply _].
    exists t', p. split; [done|]. by apply dec_stable.
  - intros [?|(t' & p & Hp & Hh)]; [by left|right]. intros Hn. by apply (Hn t' p Hp).
Qed.

(** ** Steps that change one transaction *)

Definition begin_sorted m (l : list Z) : Prop := StronglySorted (fun t t' => begin_of m t <= begin_of m t') l.

Lemma begin_sorted_ext m m' l : (forall t, t ∈ l -> begin_of m' t = begin_of m t) -> begin_sorted m l -> begin_sorted m' l.
Proof.
  intros Hb Hl. induction Hl as [|t l _ IH Hl]; constructor; [apply IH; intros; apply Hb; by right|].
  rewrite Forall_forall in Hl |- *. intros t' Ht'. rewrite !Hb; [by apply Hl|by right|by left].
Qed.

Lemma objs_phase w t p p' x x' c wt cur mx l n : objs w -> phases w !! t = Some p -> txns_ (mgr w) !! t = Some x ->
  begin_ts_ (context x') = begin_ts_ (context x) -> context_ok p' x' ->
  (forall t', held_by t' p' -> is_Some (phases w !! t')) -> current_ts_ (mgr w) <= cur ->
  objs (mkWorld (mkTxnManager (next_txn_id_ (mgr w)) (<[t := x']> (txns_ (mgr w))) (txn_map_ (mgr w))
    (txn_context_histories_ (mgr w)) (beginned_txns_ (mgr w)) c (checking_ts_ (mgr w)) wt cur mx (ckp_begin_ts_ (mgr w))
    (is_running_ (mgr w))) (<[t := p']> (phases w)) l n).
Proof.
  intros Hi Hp Hx Ebe Hc Hh Hcur. set (w' := mkWorld _ _ _ _).
  assert (Hb : forall t', begin_of (mgr w') t' = begin_of (mgr w) t').
  { intros t'. unfold begin_of. cbn. destruct (decide (t = t')) as [<-|]; [by rewrite lookup_insert_eq, Hx|by rewrite lookup_insert_ne]. }
  assert (Hs : forall t', is_Some (txns_ (mgr w') !! t') <-> is_Some (txns_ (mgr w) !! t')).
  { intros t'. cbn. destruct (decide (t = t')) as [<-|]; [rewrite lookup_insert_eq, Hx; split; by eexists|by rewrite lookup_insert_ne]. }
  destruct Hi. split; try done.
  - intros t' Ht'%Hs. by apply iv_new0.
  - cbn. rewrite dom_insert_L, iv_map0. apply elem_of_dom_2 in Hp. set_solver.
  - intros t' q Hq. change (phases w') with (<[t := p']> (phases w)) in Hq. change (txns_ (mgr w')) with (<[t := x']> (txns_ (mgr w))).
    apply lookup_insert_Some in Hq as [(<- & <-)|(Hne & Hq)].
    + rewrite lookup_insert_eq. by eexists.
    + rewrite lookup_insert_ne by done. by apply iv_context0.
  - by apply (begin_sorted_ext (mgr w)).
  - intros t' Ht'%Hs. rewrite Hb. specialize (iv_bbound0 t' Ht'). cbn. lia.
  - eapply Forall_impl; [exact iv_bexist0|]. intros t' Ht'. by apply Hs.
  - intros t' Ha. apply iv_alive0. destruct Ha as [[q Hq]|(t2 & q & Hq & Hheld)];
      change (phases w') with (<[t := p']> (phases w)) in Hq; apply lookup_insert_Some in Hq as [(<- & <-)|(Hne & Hq)].
    + left. by eexists.
    + left. by eexists.
    + left. by apply Hh.
    + right. by exists t2, q.
Qed.

Lemma commits_phase w t p p' m l n : commits w -> phases w !! t = Some p -> ts_of p' = ts_of p ->
  committing_txns_ m = committing_txns_ (mgr w) -> max_committed_ts_ m = max_committed_ts_ (mgr w) ->
  current_ts_ m = current_ts_ (mgr w) -> commits (mkWorld m (<[t := p']> (phases w)) l n).
Proof.
  intros [Hc Hs Hb Hm] Hp Ets E1 E2 E3. split; cbn; rewrite ?E1, ?E2, ?E3; try done.
  intros ts t'. rewrite (has_same _ _ _ p) by done. apply Hc.
Qed.

Lemma queue_phase w t p p' txns : queue w -> phases w !! t = Some p -> undecided p' = undecided p -> sent p' = sent p ->
  queue (enter t p' w (TxnManager.set_txns txns (mgr w))).
Proof.
  intros Hi Hp Eun Ese. destruct Hi. split; try done.
  - intros ts. cbn. setoid_rewrite (has_same _ _ _ p); [|done..]. apply iv_none0.
  - intros ts t'. cbn. rewrite (has_same _ _ _ p) by done. apply iv_some0.
Qed.

(** A step that the map of commits and the log do not see. *)
Lemma inv_phase w t p p' x x' : inv w -> phases w !! t = Some p -> txns_ (mgr w) !! t = Some x ->
  ts_of p' = ts_of p -> undecided p' = undecided p -> sent p' = sent p ->
  begin_ts_ (context x') = begin_ts_ (context x) -> context_ok p' x' ->
  (forall t', held_by t' p' -> is_Some (phases w !! t')) ->
  inv (enter t p' w (TxnManager.set_txns (<[t := x']> (txns_ (mgr w))) (mgr w))).
Proof.
  intros [Ho Hc Hq] ????????. split; [by apply objs_phase with p x|by apply commits_phase with p|by apply queue_phase with p].
Qed.

Lemma set_txns_id t x m : txns_ m !! t = Some x -> TxnManager.set_txns (<[t := x]> (txns_ m)) m = m.
Proof. intros Hx. rewrite insert_id by done. by destruct m. Qed.

(** The histories, the timestamps of checks and the one of the checkpoint are free. *)
Definition with_free (h : list Z) (X : gset Z) (ckp : Z) m : TxnManager :=
  mkTxnManager (next_txn_id_ m) (txns_ m) (txn_map_ m) h (beginned_txns_ m) (committing_txns_ m) X (wait_conflict_ck_ m)
    (current_ts_ m) (max_committed_ts_ m) ckp (is_running_ m).

Lemma inv_free h X ckp m ph l n : inv (mkWorld m ph l n) -> inv (mkWorld (with_free h X ckp m) ph l n).
Proof. intros [[] [] []]. by split; split. Qed.

Lemma update_context_ok t f m x c : txns_ m !! t = Some x -> f (context x) = Ok c ->
  TxnManager.update_context t f m =
    Ok (TxnManager.set_txns (<[t := mkTxn c (wal_entry_ x) (commit_bottom_done_ x)]> (txns_ m)) m).
Proof. intros Hx Hf. unfold TxnManager.update_context, TxnManager.with_txn. by rewrite Hx, Hf. Qed.

Lemma set_txns_twice A B m : TxnManager.set_txns A (TxnManager.set_txns B m) = TxnManager.set_txns A m.
Proof. done. Qed.
Lemma txns_set A m : txns_ (TxnManager.set_txns A m) = A.
Proof. done. Qed.

Definition steps_ok (r : option (res world)) : Prop :=
  match r with Some r => exists w', r = Ok w' /\ inv w' | None => True end.

(** The phase of a transaction and its object. *)
Ltac at_phase Hi t :=
  cbn [exec_action];
  let Hp := fresh "Hp" in
  destruct (phases _ !! t) as [[]|] eqn:Hp; try done;
  let x := fresh "x" in let Hx := fresh "Hx" in let Hc := fresh "Hc" in
  destruct (iv_context _ (iv_objs _ Hi) _ _ Hp) as (x & Hx & Hc).

Lemma step_commit_read t w : inv w -> steps_ok (exec_action (ACommitRead t) w).
Proof.
  intros Hi. at_phase Hi t. destruct Hc as [Hs He]. cbn.
  unfold TxnManager.commit_read, TxnManager.GetReadCommitTS. erewrite update_context_ok by done. cbn [res_bind].
  erewrite update_context_ok; [|apply lookup_insert_eq|unfold SetTxnCommitting; cbn; by rewrite Hs]. cbn [res_bind].
  erewrite update_context_ok; [|apply lookup_insert_eq|done]. cbn [res_bind]. rewrite !txns_set, !set_txns_twice, !insert_insert_eq.
  eexists. split; [reflexivity|]. by apply (inv_phase w t PRunning PReadDone x).
Qed.

Lemma step_set_committing t w : inv w -> steps_ok (exec_action (ASetCommitting t) w).
Proof.
  intros Hi. at_phase Hi t. destruct Hc as [[Hs Hw] He]. cbn.
  erewrite update_context_ok; [|done|unfold SetTxnCommitting; by rewrite Hs]. cbn [res_bind].
  eexists. split; [reflexivity|]. by apply (inv_phase w t (PRegistered ts) (PCommitting ts) x).
Qed.

Lemma step_rollback t w : inv w -> steps_ok (exec_action (ARollback t) w).
Proof.
  intros Hi. at_phase Hi t; cbn; unfold TxnManager.Rollback, TxnManager.with_txn; rewrite Hx.
  - destruct Hc as [Hs He]. rewrite Hs. unfold TxnManager.GetReadCommitTS. erewrite update_context_ok by done. cbn [res_bind].
    erewrite update_context_ok; [|apply lookup_insert_eq|unfold SetTxnRollbacking; cbn; by rewrite Hs]. cbn [res_bind].
    rewrite !txns_set, !set_txns_twice, !insert_insert_eq. eexists. split; [reflexivity|]. by apply (inv_phase w t PRunning (PRolling None) x).
  - destruct Hc as [(Hs & Ht & Hw) He]. rewrite Hs. cbn [res_bind].
    erewrite update_context_ok; [|done|unfold SetTxnRollbacking; by rewrite Hs]. cbn [res_bind].
    eexists. split; [reflexivity|]. by apply (inv_phase w t (PAborted ts) (PRolling (Some ts)) x).
Qed.

(** ** The conflict check *)
Lemma candidates_ok ts m l : (forall q, q ∈ l -> is_Some (txns_ m !! q.2)) ->
  exists ids min_ts, TxnManager.candidates ts l m = Ok (ids, min_ts) /\ forall t, t ∈ ids -> t ∈ l.*2.
Proof.
  induction l as [|[ts' t'] l IH]; intros Hl; cbn [TxnManager.candidates].
  { exists [], UNCOMMIT_TS. split; [done|]. by intros t Ht%elem_of_nil. }
  destruct IH as (ids & min_ts & -> & Hids); [intros q Hq; apply Hl; by right|]. cbn [res_bind]. destruct (ts' <? ts).
  - destruct (Hl (ts', t')) as [x Hx]; [by left|]. unfold TxnManager.with_txn. cbn in Hx. rewrite Hx.
    eexists _, _. split; [done|]. intros t [->|Ht]%elem_of_cons; [by left|]. right. by apply Hids.
  - eexists _, _. split; [done|]. intros t Ht. right. by apply Hids.
Qed.

Lemma committing_known w q : commits w -> q ∈ committing_txns_ (mgr w) -> is_Some (phases w !! q.2).
Proof. destruct q as [ts t]. intros Hi (p & Hp & _)%(iv_committing _ Hi). by exists p. Qed.

Lemma phase_object w t : objs w -> is_Some (phases w !! t) -> is_Some (txns_ (mgr w) !! t).
Proof. intros Hi [p Hp]. destruct (iv_context _ Hi _ _ Hp) as (x & Hx & _). by exists x. Qed.

Lemma step_check t w : inv w -> steps_ok (exec_action (ACheck t) w).
Proof.
  intros Hi. at_phase Hi t. cbn. unfold TxnManager.check_begin, TxnManager.with_txn. rewrite Hx.
  destruct (candidates_ok (commit_ts_ (context x)) (mgr w) (committing_txns_ (mgr w))) as (ids & min_ts & -> & Hids).
  { intros q Hq. apply phase_object, committing_known; [apply Hi..|done]. }
  cbn [res_bind]. eexists. split; [reflexivity|].
  apply (inv_free (txn_context_histories_ (mgr w)) _ (ckp_begin_ts_ (mgr w)) (mgr w)).
  rewrite <- (set_txns_id t x (mgr w) Hx). apply (inv_phase w t (PCommitting ts) _ x); try done.
  cbn. intros t' (q & -> & Hq)%Hids%list_elem_of_fmap. apply (committing_known w); [apply Hi|done].
Qed.

Lemma step_checked t b w : inv w -> steps_ok (exec_action (AChecked t b) w).
Proof.
  intros Hi. at_phase Hi t. cbn. eexists. split; [reflexivity|].
  assert (Hnew : inv (enter t (PChecked ts b) w (mgr w))).
  { rewrite <- (set_txns_id t x (mgr w) Hx). by apply (inv_phase w t (PChecking ts candidates min_checking_ts) _ x). }
  unfold TxnManager.check_end. destruct (min_checking_ts =? UNCOMMIT_TS); [done|].
  by apply (inv_free (txn_context_histories_ (mgr w)) _ (ckp_begin_ts_ (mgr w)) (mgr w)).
Qed.

(** ** Registration *)
Lemma step_register t w : inv w -> steps_ok (exec_action (ARegister t) w).
Proof.
  intros Hi. at_phase Hi t. destruct Hc as [Hs He]. cbn. unfold TxnManager.GetWriteCommitTS.
  erewrite update_context_ok by done. cbn [res_bind]. eexists. split; [reflexivity|].
  set (ts := current_ts_ (mgr w) + 2). set (x' := mkTxn _ _ _).
  assert (Hts : ts = current_ts_ (mgr w) + 2) by done. clearbody ts.
  destruct Hi as [Ho Hc Hq].
  assert (Hfresh : Forall (fun q => q.1 < ts) (committing_txns_ (mgr w))).
  { eapply Forall_impl; [apply (iv_cbound _ Hc)|]. intros q. cbn. lia. }
  assert (Hwfresh : Forall (fun q => q.1 < ts) (wait_conflict_ck_ (mgr w))).
  { eapply Forall_impl; [apply (iv_wbound _ Hq)|]. intros q. cbn. lia. }
  rewrite (emplace_last ts t _ Hfresh), (emplace_last ts None _ Hwfresh). split.
  - apply objs_phase with PRunning x; try done. cbn. lia.
  - destruct Hc. split; cbn.
    + intros k t'. rewrite elem_of_app, list_elem_of_singleton, has_insert, iv_committing0. cbn. split.
      * intros [Hh|[= -> ->]]; [|by left]. right. split; [|done]. intros <-. destruct Hh as (p & Hp' & E). rewrite Hp in Hp'. by simplify_eq.
      * intros [[-> [= ->]]|[_ ?]]; auto.
    + by apply keys_sorted_snoc.
    + apply Forall_app. split; [|constructor; [|done]].
      * eapply Forall_impl; [exact iv_cbound0|]. intros q. cbn. lia.
      * cbn. lia.
    + lia.
  - destruct Hq. split; cbn; try done.
    + by apply keys_sorted_snoc.
    + apply Forall_app. split; [|constructor; [|done]]; [|cbn; lia]. eapply Forall_impl; [exact iv_wbound0|]. intros q. cbn. lia.
    + by destruct (wait_conflict_ck_ (mgr w)) as [|[k []] ?].
    + intros k. rewrite elem_of_app, list_elem_of_singleton, iv_none0. setoid_rewrite has_insert. cbn. split.
      * intros [(t' & Hh)|[= ->]]; [|by eauto]. exists t'. right. split; [|done]. intros <-.
        destruct Hh as (p & Hp' & E). rewrite Hp in Hp'. by simplify_eq.
      * intros (t' & [[-> [= ->]]|[_ ?]]); eauto.
    + intros k t'. rewrite elem_of_app, list_elem_of_singleton, has_insert. change (queued (enter _ _ _ _)) with (queued w).
      specialize (iv_some0 k t'). cbn. split.
      * intros [[Hin|[=]]|Hin]; right; (split; [|apply iv_some0; auto]); intros <-;
          destruct (proj1 iv_some0) as (p & Hp' & E); auto; rewrite Hp in Hp'; by simplify_eq.
      * intros [[_ [=]]|[_ Hh]]. apply iv_some0 in Hh as [?|?]; auto.
    + intros q r Hin [Hr| ->%list_elem_of_singleton]%elem_of_app; [by apply iv_lbound0|]. cbn.
      rewrite Forall_forall in iv_lcurrent0. specialize (iv_lcurrent0 q Hin). cbn in iv_lcurrent0. lia.
    + eapply Forall_impl; [exact iv_lcurrent0|]. intros q. cbn. lia.
Qed.

(** ** The way to the log *)

(** Transactions that are ready, as they stand in the map. *)
Definition tag (pre : list (Z * Z)) : list (Z * option Z) := map (fun q => (q.1, Some q.2)) pre.

Lemma tag_keys pre : (tag pre).*1 = pre.*1.
Proof. induction pre as [|q pre IH]; cbn; [done|]. by rewrite <- IH. Qed.

Lemma tag_some pre rest k t : (k, Some t) ∈ tag pre ++ rest <-> (k, t) ∈ pre \/ (k, Some t) ∈ rest.
Proof.
  rewrite elem_of_app. split; (intros [Hin|Hin]; [left|by right]).
  - apply list_elem_of_fmap in Hin as ([k' t2] & [= -> ->] & Hin). done.
  - apply list_elem_of_fmap. by exists (k, t).
Qed.

Lemma tag_none pre rest k : (k, None) ∈ tag pre ++ rest <-> (k, None) ∈ rest.
Proof. rewrite elem_of_app. split; [|by right]. intros [([k' t'] & [=] & _)%list_elem_of_fmap|?]; done. Qed.

Lemma take_ready_tag wait ids rest : TxnManager.take_ready wait = (ids, rest) ->
  exists pre, wait = tag pre ++ rest /\ ids = pre.*2 /\ match rest with (_, Some _) :: _ => False | _ => True end.
Proof.
  revert ids. induction wait as [|[ts [t|]] wait IH]; intros ids; cbn.
  - intros [= <- <-]. by exists [].
  - destruct (TxnManager.take_ready wait) as [ids' rest']. intros [= <- <-].
    destruct (IH ids' eq_refl) as (pre & -> & -> & Hr). by exists ((ts, t) :: pre).
  - intros [= <- <-]. by exists [].
Qed.

(** The outcome of the check of [t] arrives: [wait'] is the map after it. *)
Record decides w t ts (p' : phase) (wait' : list (Z * option Z)) : Prop := {
  de_undecided : undecided p' = None;
  de_sorted : keys_sorted wait';
  de_keys : forall k, k ∈ wait'.*1 -> k ∈ (wait_conflict_ck_ (mgr w)).*1;
  de_none : forall k, (k, None) ∈ wait' <-> (k, None) ∈ wait_conflict_ck_ (mgr w) /\ k <> ts;
  de_some : forall k t', (k, Some t') ∈ wait' <-> (k, Some t') ∈ wait_conflict_ck_ (mgr w) \/ t' = t /\ sent p' = Some k;
}.

Section submit.
Context (w : world) (t ts : Z) (b : bool) (p' : phase) (pre : list (Z * Z)) (rest : list (Z * option Z)).
Hypothesis Hc : commits w.
Hypothesis Hq : queue w.
Hypothesis Hp : phases w !! t = Some (PChecked ts b).
Hypothesis Hd : decides w t ts p' (tag pre ++ rest).
Hypothesis Hhead : match rest with (_, Some _) :: _ => False | _ => True end.

Lemma not_sent_before k : ~ has (phases w) sent t k.
Proof. intros (q & Hq' & E). rewrite Hp in Hq'. by simplify_eq. Qed.

Lemma sent_after k t' : has (<[t := p']> (phases w)) sent t' k <->
  ((k, t') ∈ pre \/ (k, Some t') ∈ rest) \/ (k, t') ∈ queued w.
Proof.
  rewrite <- tag_some, (de_some _ _ _ _ _ Hd), has_insert.
  pose proof (iv_some _ Hq k t') as Hs. pose proof (not_sent_before k) as Hn. split.
  - intros [[-> E]|[Hne Hh]]; [auto|]. apply Hs in Hh as [?|?]; auto.
  - intros [[Hin|[-> E]]|Hin]; [|by left|]; right; (split; [intros <-; apply Hn|]; apply Hs; auto).
Qed.

Lemma undecided_after k : (exists t', has (<[t := p']> (phases w)) undecided t' k) <-> (k, None) ∈ rest.
Proof.
  rewrite <- (tag_none pre), (de_none _ _ _ _ _ Hd), (iv_none _ Hq). setoid_rewrite has_insert.
  rewrite (de_undecided _ _ _ _ _ Hd). split.
  - intros (t' & [[_ [=]]|[Hne Hh]]). split; [by exists t'|]. intros ->. apply Hne.
    apply (ts_unique w t t' ts Hc); [by exists (PChecked ts b)|by apply undecided_ts].
  - intros [(t' & Hh) Hne]. exists t'. right. split; [|done]. intros <-. destruct Hh as (q & Hq' & E).
    rewrite Hp in Hq'. simplify_eq. cbn in E. congruence.
Qed.

Lemma key_waits k : k ∈ pre.*1 \/ k ∈ rest.*1 -> exists r, r ∈ wait_conflict_ck_ (mgr w) /\ r.1 = k.
Proof.
  intros Hk. assert (Hin : k ∈ (wait_conflict_ck_ (mgr w)).*1).
  { apply (de_keys _ _ _ _ _ Hd). by rewrite fmap_app, elem_of_app, tag_keys. }
  apply list_elem_of_fmap in Hin as (r & -> & Hr). by exists r.
Qed.

Lemma queue_submit txns :
  queue (mkWorld (TxnManager.set_wait rest (TxnManager.set_txns txns (mgr w))) (<[t := p']> (phases w)) (wal w ++ pre) (bottoms w)).
Proof.
  pose proof (de_sorted _ _ _ _ _ Hd) as Hsort. apply keys_sorted_app in Hsort as (Hspre & Hsrest & Hlt).
  assert (Hw : forall q, q ∈ pre -> q.1 ∈ pre.*1) by (intros q Hin; apply list_elem_of_fmap; eauto).
  assert (Hr : forall q, q ∈ rest -> q.1 ∈ rest.*1) by (intros q Hin; apply list_elem_of_fmap; eauto).
  destruct Hq. rewrite Forall_forall in iv_wbound0. split; cbn.
  - done.
  - apply Forall_forall. intros q Hin. destruct (key_waits q.1) as (r & Hin' & <-); [auto|]. by apply iv_wbound0.
  - done.
  - intros k. by rewrite undecided_after.
  - intros k t'. unfold queued. cbn. rewrite drop_app_le, elem_of_app by done. fold (queued w). rewrite sent_after. tauto.
  - apply keys_sorted_app. unfold keys_sorted in *. rewrite tag_keys in Hspre. split_and!; [done..|]. intros q r Hin Hin'.
    destruct (key_waits r.1) as (r' & Hr' & <-); [auto|]. by apply iv_lbound0.
  - intros q r [Hin|Hin]%elem_of_app Hin'.
    + destruct (key_waits r.1) as (r' & Hr' & <-); [auto|]. by apply iv_lbound0.
    + apply (Hlt (q.1, Some q.2) r); [|done]. apply list_elem_of_fmap. by exists q.
  - apply Forall_app. split; [done|]. apply Forall_forall. intros q Hin.
    destruct (key_waits q.1) as (r & Hin' & <-); [auto|]. by apply iv_wbound0.
  - rewrite length_app. lia.
Qed.
End submit.

Lemma undecided_waits w t ts b : inv w -> phases w !! t = Some (PChecked ts b) -> (ts, None) ∈ wait_conflict_ck_ (mgr w).
Proof. intros Hi Hp. apply (iv_none _ (iv_queue _ Hi)). exists t. by exists (PChecked ts b). Qed.

Lemma not_ready w t ts b k t' : inv w -> phases w !! t = Some (PChecked ts b) -> (k, Some t') ∈ wait_conflict_ck_ (mgr w) -> k <> ts.
Proof.
  intros Hi Hp Hin ->. pose proof (undecided_waits _ _ _ _ Hi Hp) as Hn.
  by pose proof (keys_unique _ _ _ _ (iv_wsorted _ (iv_queue _ Hi)) Hin Hn).
Qed.

Lemma decides_send w t ts b : inv w -> phases w !! t = Some (PChecked ts b) ->
  decides w t ts (PSent ts) (TsMap.assign ts (Some t) (wait_conflict_ck_ (mgr w))).
Proof.
  intros Hi Hp. pose proof (undecided_waits _ _ _ _ Hi Hp) as Hn. split; [done|..].
  - unfold keys_sorted. rewrite assign_keys. apply (iv_wsorted _ (iv_queue _ Hi)).
  - intros k. by rewrite assign_keys.
  - intros k. rewrite assign_elem. split; [intros [[? ?]|(_ & [=] & _)]; done|]. intros [? ?]. by left.
  - intros k t'. rewrite assign_elem. split.
    + intros [[? ?]|(-> & [= ->] & _)]; [by left|by right].
    + intros [Hin|[-> [= <-]]]; [left; split; [by eapply not_ready|done]|right]. split_and!; [done..|].
      apply list_elem_of_fmap. by exists (ts, None).
Qed.

Lemma decides_abort w t ts b : inv w -> phases w !! t = Some (PChecked ts b) ->
  decides w t ts (PAborted ts) (TsMap.erase ts (wait_conflict_ck_ (mgr w))).
Proof.
  intros Hi Hp. split; [done|..].
  - apply erase_sorted, (iv_wsorted _ (iv_queue _ Hi)).
  - intros k (q & -> & [Hq _]%erase_elem)%list_elem_of_fmap. apply list_elem_of_fmap. eauto.
  - intros k. by rewrite erase_elem.
  - intros k t'. rewrite erase_elem. split; [by intros [? _]; left|]. intros [Hin|[_ [=]]]. split; [done|].
    by apply (not_ready w t ts b k t' Hi Hp).
Qed.

(** The answer of [SendToWAL] for a map whose first key is not later. *)
Lemma SendToWAL_ok t m x ts : is_running_ m = true -> txns_ m !! t = Some x -> commit_ts_ (context x) = ts ->
  keys_sorted (wait_conflict_ck_ m) -> (ts, None) ∈ wait_conflict_ck_ m ->
  TxnManager.SendToWAL t m =
    let '(ids, rest) := TxnManager.take_ready (if wal_entry_ x then TsMap.assign ts (Some t) (wait_conflict_ck_ m)
                                               else TsMap.erase ts (wait_conflict_ck_ m)) in
    Ok (ids, TxnManager.set_wait rest m).
Proof.
  intros Hr Hx Hts Hs Hin. unfold TxnManager.SendToWAL, TxnManager.with_txn. rewrite Hr, Hx, Hts.
  assert (Hmem : TsMap.mem ts (wait_conflict_ck_ m) = true) by (apply mem_elem, list_elem_of_fmap; by exists (ts, None)).
  rewrite Hmem. destruct (wait_conflict_ck_ m) as [|[first o] wait] eqn:Ew; [by apply elem_of_nil in Hin|]. rewrite <- Ew.
  assert (Hle : first <= ts).
  { apply elem_of_cons in Hin as [[= -> _]|Hin]; [lia|]. apply StronglySorted_inv in Hs as [_ Hlt].
    rewrite Forall_forall in Hlt. apply Z.lt_le_incl, Hlt, list_elem_of_fmap. by exists (ts, None). }
  rewrite (proj2 (Z.ltb_ge _ _)) by done. cbn [negb]. by destruct (wal_entry_ x).
Qed.

(** What [SendToWAL] submits carries its timestamps. *)
Lemma stamp_ids (txns : gmap Z Txn) m ph pre : txns_ m = txns ->
  (forall t p, ph !! t = Some p -> exists x, txns !! t = Some x /\ context_ok p x) ->
  (forall q, q ∈ pre -> has ph sent q.2 q.1) -> map (stamp m) pre.*2 = pre.
Proof.
  intros Em Hc Hs. induction pre as [|[ts t] pre IH]; cbn; [done|].
  rewrite IH by (intros q Hq; apply Hs; by right). f_equal. destruct (Hs (ts, t)) as (p & Hp & E); [by left|].
  cbn [fst snd] in Hp, E. destruct p; try done. destruct (Hc _ _ Hp) as (x & Hx & [(_ & Ets & _) _]). unfold stamp. rewrite Em, Hx, Ets. cbn [sent] in E. congruence.
Qed.

Lemma submit_ok w t ts b p' x x' : inv w -> phases w !! t = Some (PChecked ts b) -> txns_ (mgr w) !! t = Some x ->
  ts_of p' = Some ts -> begin_ts_ (context x') = begin_ts_ (context x) -> commit_ts_ (context x') = ts -> context_ok p' x' ->
  (forall t', ~ held_by t' p') ->
  decides w t ts p' (if wal_entry_ x' then TsMap.assign ts (Some t) (wait_conflict_ck_ (mgr w))
                     else TsMap.erase ts (wait_conflict_ck_ (mgr w))) ->
  exists r, TxnManager.SendToWAL t (TxnManager.set_txns (<[t := x']> (txns_ (mgr w))) (mgr w)) = Ok r /\ inv (submit t p' w r).
Proof.
  intros Hi Hp Hx Ets Ebe Ect Hctx Hheld Hd. pose proof (undecided_waits _ _ _ _ Hi Hp) as Hin. pose proof Hi as [Ho Hc Hq].
  rewrite (SendToWAL_ok t _ x' ts); [|apply Ho|apply lookup_insert_eq|done|apply (iv_wsorted _ Hq)|done]. cbn [wait_conflict_ck_ TxnManager.set_txns].
  destruct (TxnManager.take_ready _) as [ids rest] eqn:Et. destruct (take_ready_tag _ _ _ Et) as (pre & E & -> & Hhead).
  rewrite E in Hd. eexists. split; [reflexivity|].
  assert (Hobj : forall l n, objs (mkWorld (TxnManager.set_wait rest (TxnManager.set_txns (<[t := x']> (txns_ (mgr w))) (mgr w)))
    (<[t := p']> (phases w)) l n)).
  { intros l n. apply objs_phase with (PChecked ts b) x; try done. intros t' Ht'. by destruct (Hheld t'). }
  unfold submit. cbn [fst snd].
  rewrite (stamp_ids (<[t := x']> (txns_ (mgr w))) _ (<[t := p']> (phases w)));
    [|done|apply (iv_context _ (Hobj [] 0%nat))|intros [k t'] Hq'; eapply sent_after; eauto].
  split; [done|apply commits_phase with (PChecked ts b); done|]. by eapply queue_submit.
Qed.

Lemma step_send t w : inv w -> steps_ok (exec_action (ASend t) w).
Proof.
  intros Hi. at_phase Hi t. destruct passed; [|done]. cbn. pose proof Hc as [(Hs & Ets & Hw) He].
  destruct (submit_ok w t ts true (PSent ts) x x Hi Hp Hx) as (r & Hr & Hinv); try done; [by intros ? []|..].
  { rewrite He. by apply decides_send with true. }
  rewrite set_txns_id in Hr by done. rewrite Hr. by eexists.
Qed.

Lemma step_abort t w : inv w -> steps_ok (exec_action (AAbort t) w).
Proof.
  intros Hi. at_phase Hi t. destruct passed; [done|]. cbn. pose proof Hc as [(Hs & Ets & Hw) He].
  unfold TxnManager.drop_wal_entry, TxnManager.with_txn. rewrite Hx. cbn [res_bind].
  destruct (submit_ok w t ts false (PAborted ts) x (mkTxn (context x) false (commit_bottom_done_ x)) Hi Hp Hx) as (r & -> & Hinv); try done; [by intros ? []|..].
  { by apply decides_abort with false. }
  by eexists.
Qed.

Lemma step_bottom t w : inv w -> steps_ok (exec_action (ABottom t) w).
Proof.
  intros Hi. at_phase Hi t. case_decide as Hl; [|done]. cbn. unfold TxnManager.bottom_done, TxnManager.with_txn. rewrite Hx.
  cbn [res_bind]. eexists. split; [reflexivity|]. destruct Hi as [Ho Hcm Hq]. split.
  - by apply objs_phase with (PSent ts) x.
  - by apply commits_phase with (PSent ts).
  - destruct Hq. split; cbn; try done.
    + intros k. setoid_rewrite (has_same _ _ _ (PSent ts)); [|done..]. apply iv_none0.
    + intros k t'. unfold queued. cbn. rewrite has_insert. cbn.
      assert (Hdrop : queued w = (ts, t) :: drop (S (bottoms w)) (wal w)) by (by apply drop_S).
      specialize (iv_some0 k t'). rewrite Hdrop, elem_of_cons in iv_some0. split.
      * intros Hin. right. split; [|apply iv_some0; tauto]. intros <-.
        assert (Hh : has (phases w) sent t k) by (apply iv_some0; tauto). destruct Hh as (p & Hp' & E).
        rewrite Hp in Hp'. simplify_eq. cbn in E. injection E as <-.
        destruct Hin as [Hin|Hin]; [|by apply (Z.lt_irrefl ts), (keys_sorted_drop _ _ _ _ iv_lsorted0 Hl Hin)].
        by apply (Z.lt_irrefl ts), (iv_lbound0 (ts, t) (ts, Some t) (list_elem_of_lookup_2 _ _ _ Hl)).
      * intros [[_ [=]]|[Hne Hh]]. apply iv_some0 in Hh as [?|[[= -> ->]|?]]; auto. done.
    + apply lookup_lt_Some in Hl. lia.
Qed.

(** ** The end of a transaction *)
Lemma objs_leave w t m l n : objs w -> is_running_ m = is_running_ (mgr w) -> next_txn_id_ m = next_txn_id_ (mgr w) ->
  txn_map_ m = txn_map_ (mgr w) ∖ {[t]} -> beginned_txns_ m = beginned_txns_ (mgr w) -> current_ts_ m = current_ts_ (mgr w) ->
  (forall t', t' <> t -> txns_ m !! t' = txns_ (mgr w) !! t') -> (forall t', is_Some (txns_ m !! t') <-> is_Some (txns_ (mgr w) !! t')) ->
  (forall t', begin_of m t' = begin_of (mgr w) t') -> objs (mkWorld m (delete t (phases w)) l n).
Proof.
  intros [] E1 E2 E3 E4 E5 Hx Hs Hb. split; cbn; rewrite ?E1, ?E2, ?E3, ?E4, ?E5; try done.
  - intros t' Ht'%Hs. by apply iv_new0.
  - rewrite iv_map0, dom_delete_L. done.
  - intros t' p Hp. apply lookup_delete_Some in Hp as [Hne Hp]. rewrite Hx by done. by apply iv_context0.
  - by apply (begin_sorted_ext (mgr w)).
  - intros t' Ht'%Hs. rewrite Hb. by apply iv_bbound0.
  - eapply Forall_impl; [exact iv_bexist0|]. intros t' Ht'. by apply Hs.
  - intros t' Ha. apply iv_alive0. destruct Ha as [[q Hq]|(t2 & q & Hq & Hheld)]; apply lookup_delete_Some in Hq as [_ Hq].
    + left. by eexists.
    + right. by exists t2, q.
Qed.

Lemma queue_leave w t p m : queue w -> phases w !! t = Some p -> undecided p = None -> sent p = None ->
  wait_conflict_ck_ m = wait_conflict_ck_ (mgr w) -> current_ts_ m = current_ts_ (mgr w) -> queue (leave t w m).
Proof.
  intros [] Hp Hu Hse E1 E2. split; cbn; rewrite ?E1, ?E2; try done.
  - intros k. rewrite iv_none0. setoid_rewrite has_delete. split; intros (t' & Hh); exists t'; [|by destruct Hh].
    split; [|done]. intros <-. destruct Hh as (q & Hq & E). congruence.
  - intros k t'. rewrite has_delete. change (queued (leave t w m)) with (queued w). rewrite iv_some0.
    split; [|by intros [_ ?]]. intros Hh. split; [|done]. intros <-. destruct Hh as (q & Hq & E). congruence.
Qed.

(** A read-only transaction. *)
Lemma commits_leave_read w t p m : commits w -> phases w !! t = Some p -> ts_of p = None ->
  committing_txns_ m = committing_txns_ (mgr w) -> max_committed_ts_ m = max_committed_ts_ (mgr w) ->
  current_ts_ m = current_ts_ (mgr w) -> commits (leave t w m).
Proof.
  intros [] Hp Ht E1 E2 E3. split; cbn; rewrite ?E1, ?E2, ?E3; try done. intros k t'. rewrite has_delete, iv_committing0.
  split; [|by intros [_ ?]]. intros Hh. split; [|done]. intros <-. destruct Hh as (q & Hq & E). congruence.
Qed.

(** A transaction with a commit timestamp; the largest committed timestamp moves up to it when
    nothing earlier is left. *)
Lemma commits_leave_write w t p ts m : commits w -> phases w !! t = Some p -> ts_of p = Some ts ->
  committing_txns_ m = TsMap.erase ts (committing_txns_ (mgr w)) -> current_ts_ m = current_ts_ (mgr w) ->
  max_committed_ts_ m = match TsMap.erase ts (committing_txns_ (mgr w)) with
                        | [] => ts
                        | (first, _) :: _ => if ts <? first then ts else max_committed_ts_ (mgr w)
                        end ->
  commits (leave t w m).
Proof.
  intros Hc Hp Ht E1 E2 E3. pose proof Hc as [Hcm Hs Hb Hm].
  assert (Hin : (ts, t) ∈ committing_txns_ (mgr w)) by (apply Hcm; by exists p).
  rewrite Forall_forall in Hb. pose proof (Hb _ Hin) as Hts. cbn in Hts. pose proof (erase_sorted ts _ Hs) as Hs'.
  split; cbn; rewrite ?E1, ?E2.
  - intros k t'. rewrite erase_elem, has_delete, Hcm. cbn. split; intros [H1 H2].
    + split; [|done]. intros <-. destruct H1 as (q & Hq & E). congruence.
    + split; [done|]. intros ->. apply H1. apply (ts_unique w t t' ts Hc); [by exists p|done].
  - done.
  - apply Forall_forall. intros q Hq. rewrite E3. pose proof Hq as [Hq' _]%erase_elem. specialize (Hb q Hq').
    destruct (TsMap.erase ts _) as [|[first t1] rest]; [by apply elem_of_nil in Hq|]. destruct (Z.ltb_spec ts first); [|lia].
    split; [|lia]. apply elem_of_cons in Hq as [->|Hq]; [done|]. apply StronglySorted_inv in Hs' as [_ Hlt].
    rewrite Forall_forall in Hlt. etransitivity; [done|]. apply Hlt, list_elem_of_fmap. eauto.
  - rewrite E3. destruct (TsMap.erase ts _) as [|[first t1] rest]; [lia|]. destruct (ts <? first); lia.
Qed.

Lemma finish_read t p x commit d w : inv w -> phases w !! t = Some p -> txns_ (mgr w) !! t = Some x -> ts_of p = None ->
  undecided p = None -> sent p = None -> is_write_transaction_ (context x) = false ->
  exists b m, TxnManager.finish commit d t (mgr w) = Ok (b, m) /\ inv (leave t w m).
Proof.
  intros Hi Hp Hx Ht Hu Hse Hw. unfold TxnManager.finish, TxnManager.reset_ckp, TxnManager.CleanupTxn, TxnManager.with_txn. rewrite Hx.
  cbn [res_bind].
  assert (Hmgr : forall c, inv (leave t w (mkTxnManager (next_txn_id_ (mgr w)) (txns_ (mgr w)) (txn_map_ (mgr w) ∖ {[t]})
    (txn_context_histories_ (mgr w)) (beginned_txns_ (mgr w)) (committing_txns_ (mgr w)) (checking_ts_ (mgr w))
    (wait_conflict_ck_ (mgr w)) (current_ts_ (mgr w)) (max_committed_ts_ (mgr w)) c (is_running_ (mgr w))))).
  { intros c. destruct Hi as [Ho Hc Hq]. split; [by apply objs_leave|by apply commits_leave_read with p|by apply queue_leave with p]. }
  case_decide; cbn; rewrite Hx, Hw; eexists _, _; (split; [reflexivity|]); apply Hmgr.
Qed.

Lemma finish_write t p ts x c commit d w : inv w -> phases w !! t = Some p -> txns_ (mgr w) !! t = Some x -> ts_of p = Some ts ->
  undecided p = None -> sent p = None -> is_write_transaction_ (context x) = true -> commit_ts_ (context x) = ts ->
  begin_ts_ c = begin_ts_ (context x) ->
  match state_ (context x) with
  | kCommitting => SetTxnCommitted (context x) = Ok c
  | kRollbacking => SetTxnRollbacked (context x) = c
  | _ => False
  end ->
  exists b m, TxnManager.finish commit d t (mgr w) = Ok (b, m) /\ inv (leave t w m).
Proof.
  intros Hi Hp Hx Ht Hu Hse Hw Hts Hbe Hst. pose proof Hi as [Ho Hc Hq].
  assert (Hin : (ts, t) ∈ committing_txns_ (mgr w)) by (apply (iv_committing _ Hc); by exists p).
  assert (Hmem : TsMap.mem ts (committing_txns_ (mgr w)) = true) by (apply mem_elem, list_elem_of_fmap; by exists (ts, t)).
  assert (Hmap : t ∈ txn_map_ (mgr w)) by (rewrite (iv_map _ Ho); by eapply elem_of_dom_2).
  set (x' := mkTxn c (wal_entry_ x) (commit_bottom_done_ x)).
  assert (Hmgr : forall h X ckp mx, mx = match TsMap.erase ts (committing_txns_ (mgr w)) with
      | [] => ts | (first, _) :: _ => if ts <? first then ts else max_committed_ts_ (mgr w) end ->
    inv (leave t w (mkTxnManager (next_txn_id_ (mgr w)) (<[t := x']> (txns_ (mgr w))) (txn_map_ (mgr w) ∖ {[t]})
      h (beginned_txns_ (mgr w)) (TsMap.erase ts (committing_txns_ (mgr w))) X
      (wait_conflict_ck_ (mgr w)) (current_ts_ (mgr w)) mx ckp (is_running_ (mgr w))))).
  { intros h X ckp mx Emx. split; [|by apply commits_leave_write with p ts|by apply queue_leave with p].
    apply objs_leave; try done; intros t'; unfold begin_of; cbn; destruct (decide (t = t')) as [<-|Hne];
      rewrite ?lookup_insert_eq, ?lookup_insert_ne, ?Hx by done; done. }
  unfold TxnManager.finish, TxnManager.reset_ckp, TxnManager.with_txn. rewrite Hx. cbn [res_bind].
  set (m0 := if decide _ then _ else _).
  assert (Hm0 : exists ckp, m0 = TxnManager.set_ckp ckp (mgr w)).
  { subst m0. case_decide; [by eexists|]. exists (ckp_begin_ts_ (mgr w)). by destruct (mgr w). }
  destruct Hm0 as [ckp ->].
  unfold TxnManager.CleanupTxn, TxnManager.with_txn. cbn [txns_ TxnManager.set_ckp]. rewrite Hx, Hw.
  assert (Hup : match state_ (context x) with
      | kCommitting => TxnManager.update_context t SetTxnCommitted (TxnManager.set_ckp ckp (mgr w))
      | kRollbacking => TxnManager.update_context t (fun c => Ok (SetTxnRollbacked c)) (TxnManager.set_ckp ckp (mgr w))
      | _ => Err Unrecoverable
      end = Ok (TxnManager.set_txns (<[t := x']> (txns_ (mgr w))) (TxnManager.set_ckp ckp (mgr w)))).
  { destruct (state_ (context x)); try done; (erewrite update_context_ok; [reflexivity|done|]); [done|by rewrite Hst]. }
  rewrite Hup. cbn [res_bind committing_txns_ txn_map_ TxnManager.set_txns TxnManager.set_ckp]. rewrite Hts, Hmem.
  rewrite bool_decide_eq_true_2 by done. eexists _, _. split; [reflexivity|]. by apply Hmgr.
Qed.

Lemma step_finish t d w : inv w -> steps_ok (exec_action (AFinish t d) w).
Proof.
  intros Hi. at_phase Hi t; cbn.
  - destruct Hc as [Hw _]. destruct (finish_read t PReadDone x true d w Hi Hp Hx) as (b & m & -> & Hinv); try done. by eexists.
  - destruct Hc as [(Hs & Ht & Hw) _].
    destruct (finish_write t (PBottom ts) ts x (set_state kCommitted (context x)) true d w Hi Hp Hx) as (b & m & -> & Hinv); try done.
    { rewrite Hs. unfold SetTxnCommitted. by rewrite Hs. }
    by eexists.
Qed.

Lemma step_rollback_done t w : inv w -> steps_ok (exec_action (ARollbackDone t) w).
Proof.
  intros Hi. at_phase Hi t; cbn. destruct ts as [ts|].
  - destruct Hc as [(Hs & Ht & Hw) _].
    destruct (finish_write t (PRolling (Some ts)) ts x (set_state kRollbacked (context x)) false false w Hi Hp Hx)
      as (b & m & -> & Hinv); try done.
    { by rewrite Hs. }
    by eexists.
  - destruct Hc as [Hw _]. destruct (finish_read t (PRolling None) x false false w Hi Hp Hx) as (b & m & -> & Hinv); try done. by eexists.
Qed.

(** ** The begin *)
Lemma new_txn w : inv w -> txns_ (mgr w) !! (next_txn_id_ (mgr w) + 1) = None /\ phases w !! (next_txn_id_ (mgr w) + 1) = None.
Proof.
  intros [Ho _ _]. assert (Hn : txns_ (mgr w) !! (next_txn_id_ (mgr w) + 1) = None).
  { apply eq_None_not_Some. intros Hs%(iv_new _ Ho). lia. }
  split; [done|]. apply eq_None_not_Some. intros Hs. destruct (phase_object _ _ Ho Hs). congruence.
Qed.

Lemma has_new ph f t p t' ts : ph !! t = None -> f p = None -> has (<[t := p]> ph) f t' ts <-> has ph f t' ts.
Proof.
  intros Hn Hf. rewrite has_insert, Hf. split; [by intros [[_ [=]]|[_ ?]]|]. intros Hh. right. split; [|done].
  intros <-. destruct Hh as (q & Hq & _). congruence.
Qed.

Lemma objs_begin w t x h X ckp : objs w -> phases w !! t = None -> txns_ (mgr w) !! t = None -> next_txn_id_ (mgr w) <= t ->
  begin_ts_ (context x) = current_ts_ (mgr w) + 1 -> context_ok PRunning x ->
  objs (enter t PRunning w (mkTxnManager t (<[t := x]> (txns_ (mgr w))) ({[t]} ∪ txn_map_ (mgr w)) h (beginned_txns_ (mgr w) ++ [t])
    (committing_txns_ (mgr w)) X (wait_conflict_ck_ (mgr w)) (current_ts_ (mgr w)) (max_committed_ts_ (mgr w)) ckp true)).
Proof.
  intros Hi Hp Hx Hid Hbe Hc. pose proof Hi as [Hr Hn Hm Hcx Hbs Hbb Hbx Hal]. set (w' := enter _ _ _ _).
  assert (Hb : forall t', is_Some (txns_ (mgr w) !! t') -> begin_of (mgr w') t' = begin_of (mgr w) t').
  { intros t' [y Hy]. unfold begin_of. cbn. rewrite lookup_insert_ne; [done|]. intros ->. congruence. }
  assert (Hbt : begin_of (mgr w') t = current_ts_ (mgr w) + 1) by (unfold begin_of; cbn; by rewrite lookup_insert_eq).
  assert (Hs : forall t', is_Some (txns_ (mgr w') !! t') -> t' = t \/ is_Some (txns_ (mgr w) !! t')).
  { intros t' [y Hy]. change (txns_ (mgr w')) with (<[t := x]> (txns_ (mgr w))) in Hy.
    apply lookup_insert_Some in Hy as [[-> _]|[_ Hy]]; [by left|right; by eexists]. }
  rewrite Forall_forall in Hbx. split; [done|..].
  - intros t' [->|Ht'%Hn]%Hs; cbn; lia.
  - cbn. by rewrite dom_insert_L, Hm.
  - intros t' q Hq. change (phases w') with (<[t := PRunning]> (phases w)) in Hq. change (txns_ (mgr w')) with (<[t := x]> (txns_ (mgr w))).
    apply lookup_insert_Some in Hq as [(<- & <-)|(Hne & Hq)]; [rewrite lookup_insert_eq; by eexists|].
    rewrite lookup_insert_ne by done. by apply Hcx.
  - change (begin_sorted (mgr w') (beginned_txns_ (mgr w) ++ [t])). apply StronglySorted_app_2.
    + intros t1 t2 H1 ->%list_elem_of_singleton. rewrite Hbt, Hb by (by apply Hbx). by apply Hbb, Hbx.
    + apply (begin_sorted_ext (mgr w)); [|done]. intros t' Ht'. by apply Hb, Hbx.
    + by repeat constructor.
  - intros t' [->|Ht']%Hs; [rewrite Hbt; cbn; lia|]. rewrite Hb by done. by apply Hbb.
  - cbn. apply Forall_app. split; [|constructor; [rewrite lookup_insert_eq; by eexists|done]]. apply Forall_forall. intros t' Ht'.
    destruct (decide (t = t')) as [->|]; [rewrite lookup_insert_eq; by eexists|]. rewrite lookup_insert_ne by done. by apply Hbx.
  - intros t' Ha. change (beginned_txns_ (mgr w')) with (beginned_txns_ (mgr w) ++ [t]). apply elem_of_app.
    destruct Ha as [[q Hq]|(t2 & q & Hq & Hheld)]; change (phases w') with (<[t := PRunning]> (phases w)) in Hq;
      apply lookup_insert_Some in Hq as [(<- & <-)|(Hne & Hq)].
    + right. by left.
    + left. apply Hal. left. by eexists.
    + done.
    + left. apply Hal. right. by exists t2, q.
Qed.

Lemma step_begin ty w : inv w -> steps_ok (exec_action (ABegin ty) w).
Proof.
  intros Hi. destruct (new_txn w Hi) as [Hx Hp]. pose proof Hi as [Ho Hc Hq]. cbn [exec_action].
  unfold TxnManager.BeginTxn. rewrite (iv_running _ Ho). cbn [steps_ok].
  assert (Hnew : forall ckp, inv (enter (next_txn_id_ (mgr w) + 1) PRunning w (mkTxnManager (next_txn_id_ (mgr w) + 1)
    (<[next_txn_id_ (mgr w) + 1 := mkTxn (TxnContext.make (next_txn_id_ (mgr w) + 1) (current_ts_ (mgr w) + 1) ty) true false]> (txns_ (mgr w)))
    ({[next_txn_id_ (mgr w) + 1]} ∪ txn_map_ (mgr w)) (txn_context_histories_ (mgr w)) (beginned_txns_ (mgr w) ++ [next_txn_id_ (mgr w) + 1])
    (committing_txns_ (mgr w)) (checking_ts_ (mgr w)) (wait_conflict_ck_ (mgr w)) (current_ts_ (mgr w)) (max_committed_ts_ (mgr w)) ckp true))).
  { intros ckp. split; [apply objs_begin; try done; cbn; try lia|destruct Hc; split; cbn; try done|destruct Hq; split; cbn; try done].
    - intros k t'. by rewrite has_new.
    - intros k. setoid_rewrite has_new; done.
    - intros k t'. rewrite has_new by done. apply iv_some0. }
  case_decide; [destruct (ckp_begin_ts_ (mgr w) =? UNCOMMIT_TS)|]; cbn [res_bind]; eexists; (split; [reflexivity|]).
  - apply Hnew.
  - destruct Ho, Hc, Hq. split; split; try done. cbn. intros t' Ht'%iv_new0. lia.
  - apply Hnew.
Qed.

(** ** The cleanup *)
Lemma first_alive_split f ids : exists dead, ids = dead ++ TxnManager.first_alive f ids /\ Forall (fun t => f t = false) dead /\
  match TxnManager.first_alive f ids with t :: _ => f t = true | [] => True end.
Proof.
  induction ids as [|t ids (dead & IH & Hd & Hh)]; cbn; [by exists []|]. destruct (f t) eqn:Ef; [by exists []|].
  exists (t :: dead). cbn. split_and!; [by rewrite <- IH|by constructor|done].
Qed.

Lemma alive_beginned w t : objs w -> alive (phases w) t -> t ∈ TxnManager.first_alive (lock (phases w)) (beginned_txns_ (mgr w)).
Proof.
  intros Hi Ha. pose proof (iv_alive _ Hi t Ha) as Hin. destruct (first_alive_split (lock (phases w)) (beginned_txns_ (mgr w))) as (dead & E & Hd & _).
  rewrite E in Hin. apply elem_of_app in Hin as [Hin|?]; [|done]. rewrite Forall_forall in Hd. specialize (Hd t Hin).
  apply lock_alive in Ha. congruence.
Qed.

Lemma set_fold_min_le (X : gset Z) a : set_fold Z.min a X <= a.
Proof.
  apply (set_fold_ind_L (fun r _ => r <= a)); [done|]. intros x Y r _ Hr. lia.
Qed.

(** The timestamp of the cleanup, and the transactions that are alive. *)
Lemma scan_bound w last : inv w -> exists ts m, TxnManager.GetCleanupScanTS (lock (phases w)) last (mgr w) = Ok (ts, m) /\
  inv (mkWorld m (phases w) (wal w) (bottoms w)) /\ ts <= last /\ ts <= current_ts_ (mgr w) + 1 /\
  forall t, alive (phases w) t -> ts <= begin_of (mgr w) t.
Proof.
  intros Hi. pose proof Hi as [Ho Hc Hq]. unfold TxnManager.GetCleanupScanTS.
  destruct (first_alive_split (lock (phases w)) (beginned_txns_ (mgr w))) as (dead & E & _ & _).
  pose proof (alive_beginned w) as Ha. set (ids := TxnManager.first_alive _ _) in *.
  pose proof (iv_bexist _ Ho) as Hbx. pose proof (iv_bsorted _ Ho) as Hbs. rewrite E in Hbx, Hbs.
  apply Forall_app in Hbx as [_ Hbx]. apply StronglySorted_app in Hbs as (_ & _ & Hbs).
  assert (Hinv : inv (mkWorld (TxnManager.set_beginned ids (mgr w)) (phases w) (wal w) (bottoms w))).
  { destruct Ho, Hc, Hq. split; split; try done. intros t Ht. by apply Ha. }
  assert (Hfirst : exists b, match ids with [] => Ok (current_ts_ (mgr w)) | t :: _ => TxnManager.with_txn t (mgr w) (fun x => Ok (begin_ts_ (context x))) end = Ok b /\
    b <= current_ts_ (mgr w) + 1 /\ forall t, alive (phases w) t -> b <= begin_of (mgr w) t).
  { destruct ids as [|t ids']; [exists (current_ts_ (mgr w)); split_and!; [done|lia|]; intros t Ht; by apply Ha, elem_of_nil in Ht|].
    apply Forall_cons_1 in Hbx as [[x Hx] _]. unfold TxnManager.with_txn. rewrite Hx. exists (begin_ts_ (context x)).
    assert (Hb : begin_of (mgr w) t = begin_ts_ (context x)) by (unfold begin_of; by rewrite Hx). split_and!; [done|..].
    - rewrite <- Hb. apply (iv_bbound _ Ho). by eexists.
    - intros t' Ht'%(Ha t' Ho). rewrite <- Hb. apply elem_of_cons in Ht' as [->|Ht']; [done|].
      apply StronglySorted_inv in Hbs as [_ Hbs]. rewrite Forall_forall in Hbs. by apply Hbs. }
  destruct Hfirst as (b & -> & Hb1 & Hb2). cbn [res_bind]. eexists _, _. split; [reflexivity|].
  pose proof (set_fold_min_le (checking_ts_ (mgr w)) (Z.min b last)) as Hle.
  split_and!; [done|lia|lia|]. intros t Ht. specialize (Hb2 t Ht). lia.
Qed.

(** ** Reachable states *)
Lemma action_ok a w : inv w -> steps_ok (exec_action a w).
Proof.
  intros Hi. destruct a.
  - by apply step_begin.
  - by apply step_commit_read.
  - by apply step_register.
  - by apply step_set_committing.
  - by apply step_check.
  - by apply step_checked.
  - by apply step_send.
  - by apply step_abort.
  - by apply step_bottom.
  - by apply step_finish.
  - by apply step_rollback.
  - by apply step_rollback_done.
  - destruct (scan_bound w last_checkpoint_ts Hi) as (ts & m & Hs & Hinv & _). cbn. rewrite Hs. by eexists.
  - cbn. eexists. split; [reflexivity|]. unfold TxnManager.InCheckpointProcess.
    destruct (ckp_begin_ts_ (mgr w) <? commit_ts); cbn [snd]; [|by destruct w].
    apply (inv_free (txn_context_histories_ (mgr w)) (checking_ts_ (mgr w)) _ (mgr w)). by destruct w.
Qed.

Lemma inv_start next_txn_id start_ts : inv (mkWorld (TxnManager.Start (TxnManager.make next_txn_id start_ts)) ∅ [] 0).
Proof.
  assert (Hn : forall f t ts, ~ has ∅ f t ts) by (by intros f t ts (p & Hp & _)).
  split; split; cbn; try done; try (by constructor).
  - intros t [x Hx]. done.
  - intros t [x Hx]. done.
  - intros t [[p Hp]|(t' & p & Hp & _)]; done.
  - intros ts t. split; [by intros ?%elem_of_nil|by intros ?%Hn].
  - intros ts. split; [by intros ?%elem_of_nil|by intros (t & ?%Hn)].
  - intros ts t. split; [by intros [?%elem_of_nil|?%elem_of_nil]|by intros ?%Hn].
  - intros q r ?%elem_of_nil. done.
Qed.

Lemma reachable_inv next_txn_id start_ts w : reachable next_txn_id start_ts w -> inv w.
Proof.
  induction 1 as [|w a w' _ IH E]; [apply inv_start|]. pose proof (action_ok a w IH) as Hs. rewrite E in Hs.
  destruct Hs as (w2 & [= <-] & Hi). done.
Qed.

Lemma ready_or_blocked w t ts : inv w -> has (phases w) sent t ts ->
  (ts, t) ∈ wal w \/ exists t' ts', has (phases w) undecided t' ts' /\ ts' < ts.
Proof.
  intros [_ _ Hq] [Hin|Hin]%(iv_some _ Hq).
  - right. pose proof (iv_wsorted _ Hq) as Hs. pose proof (iv_whead _ Hq) as Hh. pose proof (iv_none _ Hq) as Hn.
    destruct (wait_conflict_ck_ (mgr w)) as [|[ts' [t'|]] wait]; [by apply elem_of_nil in Hin|done|].
    destruct (proj1 (Hn ts')) as (t' & Ht'); [by left|]. exists t', ts'. split; [done|].
    apply elem_of_cons in Hin as [[=]|Hin]. apply StronglySorted_inv in Hs as [_ Hlt]. rewrite Forall_forall in Hlt.
    apply Hlt, list_elem_of_fmap. by exists (ts, Some t).
  - left. unfold queued in Hin. rewrite <- (take_drop (bottoms w) (wal w)). apply elem_of_app. by right.
Qed.

(** C7. In every interleaving of transactions, no call of the manager raises, the transactions
    reach the log in the order of their commit timestamps, and one that passed its conflict check
    has reached it unless an earlier one is not decided yet. *)
Theorem transactions_reach_log_in_order next_txn_id start_ts w a r :
  reachable next_txn_id start_ts w -> exec_action a w = Some r ->
  exists w', r = Ok w' /\ StronglySorted Z.lt (wal w').*1 /\
    forall t ts, phases w' !! t = Some (PSent ts) ->
      (ts, t) ∈ wal w' \/ exists t' ts' p, phases w' !! t' = Some p /\ undecided p = Some ts' /\ ts' < ts.
Proof.
  intros Hr E. pose proof (action_ok a w (reachable_inv _ _ _ Hr)) as Hs. rewrite E in Hs. destruct Hs as (w' & -> & Hi).
  exists w'. split_and!; [done|apply (iv_lsorted _ (iv_queue _ Hi))|]. intros t ts Hp.
  destruct (ready_or_blocked w' t ts Hi) as [?|(t' & ts' & (p & Hp' & Hu) & Hlt)]; [by exists (PSent ts)|by left|right].
  by exists t', ts', p.
Qed.

(** C20. The timestamp up to which old versions are cleaned up is not later than the begin of any
    transaction that is alive, in the map or held by a running conflict check, nor than the begin
    that the next transaction will get. *)
Theorem cleanup_behind_transactions next_txn_id start_ts w last_checkpoint_ts :
  reachable next_txn_id start_ts w ->
  exists ts m, TxnManager.GetCleanupScanTS (lock (phases w)) last_checkpoint_ts (mgr w) = Ok (ts, m) /\
    ts <= last_checkpoint_ts /\ ts <= current_ts_ m + 1 /\
    forall t, alive (phases w) t -> exists x, txns_ m !! t = Some x /\ ts <= begin_ts_ (context x).
Proof.
  intros Hr. pose proof (reachable_inv _ _ _ Hr) as Hi.
  destruct (scan_bound w last_checkpoint_ts Hi) as (ts & m & E & _ & H1 & H2 & H3). exists ts, m. rewrite E.
  unfold TxnManager.GetCleanupScanTS in E. apply res_bind_Ok in E as (b & _ & [= _ <-]).
  split_and!; [done..|]. intros t Ht. pose proof (iv_alive _ (iv_objs _ Hi) t Ht) as Hin.
  pose proof (iv_bexist _ (iv_objs _ Hi)) as Hx. rewrite Forall_forall in Hx. destruct (Hx t Hin) as [x Hx'].
  exists x. split; [done|]. specialize (H3 t Ht). unfold begin_of in H3. by rewrite Hx' in H3.
Qed.

(** Every transaction whose commit timestamp is not above the largest committed timestamp has
    left the manager. *)
Theorem committed_watermark next_txn_id start_ts w t p ts :
  reachable next_txn_id start_ts w -> phases w !! t = Some p -> ts_of p = Some ts ->
  max_committed_ts_ (mgr w) < ts <= current_ts_ (mgr w).
Proof.
  intros Hr Hp Ht. pose proof (iv_commits _ (reachable_inv _ _ _ Hr)) as Hc.
  assert (Hin : (ts, t) ∈ committing_txns_ (mgr w)) by (apply (iv_committing _ Hc); by exists p).
  pose proof (iv_cbound _ Hc) as Hb. rewrite Forall_forall in Hb. exact (Hb _ Hin).
Qed.

(** ** An instance *)
Fixpoint exec_actions (acts : list action) w : option world :=
  match acts with
  | [] => Some w
  | a :: acts => match exec_action a w with Some (Ok w) => exec_actions acts w | _ => None end
  end.

Lemma exec_actions_reachable next_txn_id start_ts acts w w' :
  reachable next_txn_id start_ts w -> exec_actions acts w = Some w' -> reachable next_txn_id start_ts w'.
Proof.
  revert w. induction acts as [|a acts IH]; intros w Hr E; cbn in E; [by injection E as <-|].
  destruct (exec_action a w) as [[w1|]|] eqn:Ea; try done. apply (IH w1); [|done]. by apply (reachable_action _ _ w a).
Qed.

Definition demo_start : world := mkWorld (TxnManager.Start (TxnManager.make 0 2)) ∅ [] 0.
(** Transactions 1 and 2 register at 4 and 6; 2 passes its check first and waits for 1. *)
Definition demo_actions : list action :=
  [ABegin kNormal; ABegin kNormal; ARegister 1; ASetCommitting 1; ABegin kRead; ARegister 2; ASetCommitting 2; ACheck 1; ACheck 2;
   AChecked 2 true; ASend 2; AChecked 1 true].
Definition demo_world : world := match exec_actions demo_actions demo_start with Some w => w | None => demo_start end.

Lemma demo_world_reachable : reachable 0 2 demo_world.
Proof. apply (exec_actions_reachable 0 2 demo_actions demo_start); [apply reachable_start|by vm_compute]. Qed.

Lemma transactions_reach_log_in_order_witness : exists r w',
  exec_action (ASend 1) demo_world = Some r /\ r = Ok w' /\ StronglySorted Z.lt (wal w').*1 /\
    forall t ts, phases w' !! t = Some (PSent ts) ->
      (ts, t) ∈ wal w' \/ exists t' ts' p, phases w' !! t' = Some p /\ undecided p = Some ts' /\ ts' < ts.
Proof.
  eexists _. destruct (transactions_reach_log_in_order 0 2 demo_world (ASend 1) _ demo_world_reachable eq_refl) as (w' & E & H1 & H2).
  exists w'. split; [reflexivity|]. split; [exact E|]. split; [exact H1|exact H2].
Defined.

Lemma cleanup_behind_transactions_witness :
  exists ts m, TxnManager.GetCleanupScanTS (lock (phases demo_world)) 100 (mgr demo_world) = Ok (ts, m) /\
    ts <= 100 /\ ts <= current_ts_ m + 1 /\
    forall t, alive (phases demo_world) t -> exists x, txns_ m !! t = Some x /\ ts <= begin_ts_ (context x).
Proof. exact (cleanup_behind_transactions 0 2 demo_world 100 demo_world_reachable). Defined.

Lemma committed_watermark_witness : max_committed_ts_ (mgr demo_world) < 4 <= current_ts_ (mgr demo_world).
Proof.
  apply (committed_watermark 0 2 demo_world 1 (PChecked 4 true) 4 demo_world_reachable).
  - by vm_compute.
  - reflexivity.
Defined.
