(* ===== verification/CatalogHistory.v ===== *)
(** * Transactions and versioned entries together

    The lists of versions rely on a protocol ([allowed_event] of [EntryHistory]): commits come in
    the order of their timestamps, the cleanup stays behind every transaction. The transaction
    manager provides it: in every interleaving of transactions, with calls on an entry by
    transactions that run and cleanups up to the timestamp the manager gives, the events that the
    list of versions sees are allowed. *)
From stdpp Require Import sorting.
From S2P Require Import Prelude TxnContext TxnManager TxnHistory EntryList EntryHistory.

Section catalog.
Context {V : Type} `{K : EntryKind V}.
(** The begin timestamps that the manager gives. *)
Variable begins : Z -> Z.
Implicit Types (w : world) (t ts : Z) (evs : list (event (V := V))).

(** What a list of versions sees of a step of a transaction. *)
Definition events_of (a : action) w : list (event (V := V)) :=
  match a with
  | ABegin ty => match TxnManager.BeginTxn ty (mgr w) with Ok (Some t, _) => [EStart t] | _ => [] end
  | ACommitRead t => [EReadOnly t]
  | ASetCommitting t => [ECommitting t]
  | ABottom t => match phases w !! t with Some (PSent ts) => [ECommit t ts] | _ => [] end
  | AFinish t _ => [EForget t]
  | ARollback t => [ERollback t]
  | ARollbackDone t => [EErase t; EForget t]
  | _ => []
  end.

(** The last timestamp that the manager gave for a cleanup. *)
Definition scan_of (a : action) w (scan : Z) : Z :=
  match a with
  | AScan last => match TxnManager.GetCleanupScanTS (lock (phases w)) last (mgr w) with Ok (ts, _) => ts | _ => scan end
  | _ => scan
  end.

Definition caller (ev : event (V := V)) : option Z :=
  match ev with EAdd t _ _ _ | EDrop t _ _ | EGet t => Some t | _ => None end.

(** What a transaction relies on when it ends as a reader, and the meaning of [begins]. *)
Definition step_fits (a : action) w (c : cell (V := V)) : Prop :=
  match a with
  | ABegin ty => match TxnManager.BeginTxn ty (mgr w) with
                 | Ok (Some t, m) => begins t = begin_of m t
                 | _ => True
                 end
  | ACommitRead t => owner c <> Some t
  | _ => True
  end.

(** Runs of the system with one entry: its events, the state of the manager, the last timestamp
    for a cleanup. *)
Inductive run (next_txn_id start_ts : Z) : list (event (V := V)) -> world -> Z -> Prop :=
| run_start : run next_txn_id start_ts [] (mkWorld (TxnManager.Start (TxnManager.make next_txn_id start_ts)) ∅ [] 0) 0
| run_act evs w scan a w' : run next_txn_id start_ts evs w scan -> step_fits a w (after begins evs cell0) ->
    exec_action a w = Some (Ok w') -> run next_txn_id start_ts (evs ++ events_of a w) w' (scan_of a w scan)
| run_call evs w scan ev t : run next_txn_id start_ts evs w scan -> caller ev = Some t -> phases w !! t = Some PRunning ->
    run next_txn_id start_ts (evs ++ [ev]) w scan
| run_clean evs w scan ts : run next_txn_id start_ts evs w scan -> ts <= scan + 1 -> ts <= UNCOMMIT_TS ->
    run next_txn_id start_ts (evs ++ [EClean ts]) w scan.

(** ** What a step leaves unchanged *)
Record extends (m m' : TxnManager) : Prop := {
  ex_next : next_txn_id_ m' = next_txn_id_ m;
  ex_current : current_ts_ m <= current_ts_ m';
  ex_known : forall t, is_Some (txns_ m' !! t) <-> is_Some (txns_ m !! t);
  ex_begin : forall t, begin_of m' t = begin_of m t;
}.

Lemma extends_refl m : extends m m.
Proof. by split. Qed.
Lemma extends_trans m1 m2 m3 : extends m1 m2 -> extends m2 m3 -> extends m1 m3.
Proof.
  intros [A1 A2 A3 A4] [B1 B2 B3 B4]. split; [congruence|lia| |].
  - intros t. by rewrite B3, A3.
  - intros t. by rewrite B4, A4.
Qed.

(** The fields that [extends] is about. *)
Lemma extends_fields m m' : next_txn_id_ m' = next_txn_id_ m -> current_ts_ m <= current_ts_ m' -> txns_ m' = txns_ m -> extends m m'.
Proof. intros E1 E2 E3. split; try done; intros t; unfold begin_of; by rewrite E3. Qed.

Lemma extends_txn t x x' m : txns_ m !! t = Some x -> TxnContext.begin_ts_ (context x') = TxnContext.begin_ts_ (context x) ->
  extends m (TxnManager.set_txns (<[t := x']> (txns_ m)) m).
Proof.
  intros Hx Hb. split; try done; intros t'; unfold begin_of; cbn; destruct (decide (t = t')) as [<-|];
    rewrite ?lookup_insert_eq, ?lookup_insert_ne, ?Hx by done; done.
Qed.

Lemma extends_update t f m m' : TxnManager.update_context t f m = Ok m' ->
  (forall c c', f c = Ok c' -> TxnContext.begin_ts_ c' = TxnContext.begin_ts_ c) -> extends m m'.
Proof.
  unfold TxnManager.update_context, TxnManager.with_txn. intros E Hf. destruct (txns_ m !! t) as [x|] eqn:Hx; [|done].
  res_inv. subst m'. apply (extends_txn t x); [done|]. by apply Hf.
Qed.

Lemma committing_begin ts c c' : TxnContext.SetTxnCommitting ts c = Ok c' -> TxnContext.begin_ts_ c' = TxnContext.begin_ts_ c.
Proof. unfold TxnContext.SetTxnCommitting. case_bool_decide; [|done]. by intros [= <-]. Qed.
Lemma committed_begin c c' : TxnContext.SetTxnCommitted c = Ok c' -> TxnContext.begin_ts_ c' = TxnContext.begin_ts_ c.
Proof. unfold TxnContext.SetTxnCommitted. case_bool_decide; [|done]. by intros [= <-]. Qed.
Lemma rollbacking_begin ts c c' : TxnContext.SetTxnRollbacking ts c = Ok c' -> TxnContext.begin_ts_ c' = TxnContext.begin_ts_ c.
Proof. unfold TxnContext.SetTxnRollbacking. destruct (negb _); [|done]. by intros [= <-]. Qed.

#[local] Hint Resolve committing_begin committed_begin rollbacking_begin : infinity.

Ltac solve_extends :=
  first [ eapply extends_update; [eassumption|]; intros ? ? Hf; cbv beta in Hf; first [by injection Hf as <-|eauto with infinity]
        | by apply extends_fields
        | by apply extends_fields; cbn; lia
        | apply extends_refl ].

Lemma extends_with_txn {A : Type} t m (f : Txn -> res A) a : TxnManager.with_txn t m f = Ok a -> exists x, txns_ m !! t = Some x /\ f x = Ok a.
Proof. unfold TxnManager.with_txn. destruct (txns_ m !! t) as [x|]; [|done]. by exists x. Qed.

Lemma read_ts_extends t m ts m' : TxnManager.GetReadCommitTS t m = Ok (ts, m') -> extends m m'.
Proof. unfold TxnManager.GetReadCommitTS. intros E. res_inv. simplify_eq. solve_extends. Qed.

Lemma commit_read_extends t m m' : TxnManager.commit_read t m = Ok m' -> extends m m'.
Proof.
  unfold TxnManager.commit_read. intros E. apply res_bind_Ok in E as ([ts m1] & E1 & E). res_inv.
  eapply extends_trans; [by eapply read_ts_extends|]. eapply extends_trans; solve_extends.
Qed.

Lemma write_ts_extends t m ts m' : TxnManager.GetWriteCommitTS t m = Ok (ts, m') ->
  extends m m' /\ ts = current_ts_ m + 2 /\ current_ts_ m' = ts.
Proof.
  unfold TxnManager.GetWriteCommitTS. intros E. res_inv. simplify_eq. split; [|split; [done|]].
  - eapply extends_trans; [|solve_extends]. apply extends_fields; cbn; [done|lia|done].
  - unfold TxnManager.update_context in *. match goal with H : TxnManager.with_txn _ _ _ = _ |- _ => apply extends_with_txn in H as (x & _ & Hx) end.
    res_inv. by simplify_eq.
Qed.

Lemma check_begin_extends t m ids ts m' : TxnManager.check_begin t m = Ok (ids, ts, m') -> extends m m'.
Proof.
  unfold TxnManager.check_begin. intros (x & _ & E)%extends_with_txn. apply res_bind_Ok in E as ([i k] & _ & E). injection E as _ _ <-.
  by apply extends_fields.
Qed.

Lemma check_end_extends ts m : extends m (TxnManager.check_end ts m).
Proof. unfold TxnManager.check_end. destruct (ts =? UNCOMMIT_TS); solve_extends. Qed.

Lemma send_extends t m ids m' : TxnManager.SendToWAL t m = Ok (ids, m') -> extends m m'.
Proof.
  unfold TxnManager.SendToWAL. destruct (is_running_ m); [|done]. intros (x & _ & E)%extends_with_txn.
  destruct (wait_conflict_ck_ m) as [|[first o] wait]; [done|]. destruct (negb _); [|done]. apply res_bind_Ok in E as (wait' & _ & E).
  destruct (TxnManager.take_ready wait') as [ids' rest]. injection E as _ <-. by apply extends_fields.
Qed.

Lemma txn_extends t m m' f : TxnManager.with_txn t m (fun x => Ok (TxnManager.set_txns (<[t := f x]> (txns_ m)) m)) = Ok m' ->
  (forall x, TxnContext.begin_ts_ (context (f x)) = TxnContext.begin_ts_ (context x)) -> extends m m'.
Proof. intros (x & Hx & [= <-])%extends_with_txn Hf. by apply (extends_txn t x). Qed.

Lemma rollback_extends t m m' : TxnManager.Rollback t m = Ok m' -> extends m m'.
Proof.
  unfold TxnManager.Rollback. intros (x & _ & E)%extends_with_txn. apply res_bind_Ok in E as ([ts m1] & E1 & E).
  assert (extends m m1).
  { destruct (TxnContext.state_ (context x)); try done; [by eapply read_ts_extends|]. injection E1 as _ <-. apply extends_refl. }
  eapply extends_trans; [done|]. solve_extends.
Qed.

Lemma cleanup_extends c d t m b m' : TxnManager.CleanupTxn c d t m = Ok (b, m') -> extends m m'.
Proof.
  unfold TxnManager.CleanupTxn. intros (x & _ & E)%extends_with_txn.
  destruct (TxnContext.is_write_transaction_ (context x)); [|injection E as _ <-; by apply extends_fields].
  apply res_bind_Ok in E as (m1 & E1 & E).
  assert (extends m m1) by (destruct (TxnContext.state_ (context x)); try done; solve_extends).
  destruct (TsMap.mem _ _); [|done]. destruct (bool_decide _); [|done]. injection E as _ <-.
  eapply extends_trans; [done|]. by apply extends_fields.
Qed.

Lemma finish_extends c d t m b m' : TxnManager.finish c d t m = Ok (b, m') -> extends m m'.
Proof.
  unfold TxnManager.finish, TxnManager.reset_ckp. intros E. apply res_bind_Ok in E as (m1 & (x & _ & [= <-])%extends_with_txn & E).
  eapply extends_trans; [|by eapply cleanup_extends]. case_decide; solve_extends.
Qed.

Lemma scan_extends f l m ts m' : TxnManager.GetCleanupScanTS f l m = Ok (ts, m') -> extends m m'.
Proof. unfold TxnManager.GetCleanupScanTS. intros E. apply res_bind_Ok in E as (b & _ & [= _ <-]). by apply extends_fields. Qed.

(** The manager call of a step and what it leaves. *)
Ltac step_call E :=
  injection E as E; apply res_bind_Ok in E as (?r & ?Er & E);
  repeat match goal with r : (_ * _)%type |- _ => destruct r end; injection E as <-; cbn [mgr enter leave submit fst snd].

(** Every step but the begin of a transaction. *)
Lemma action_extends a w w' : exec_action a w = Some (Ok w') -> (forall ty, a <> ABegin ty) -> extends (mgr w) (mgr w').
Proof.
  intros E Hne. destruct a as [ty|t|t|t|t|t b|t|t|t|t d|t|t|l|ts]; cbn [exec_action] in E; [by destruct (Hne ty)|..].
  - destruct (phases w !! t) as [[]|]; try done. step_call E. by eapply commit_read_extends.
  - destruct (phases w !! t) as [[]|]; try done. step_call E. by eapply write_ts_extends.
  - destruct (phases w !! t) as [[]|]; try done. step_call E. solve_extends.
  - destruct (phases w !! t) as [[]|]; try done. step_call E. by eapply check_begin_extends.
  - destruct (phases w !! t) as [[]|]; try done. injection E as <-. apply check_end_extends.
  - destruct (phases w !! t) as [[| | | | |ts []| | | |]|]; try done. step_call E. by eapply send_extends.
  - destruct (phases w !! t) as [[| | | | |ts []| | | |]|]; try done. injection E as E. apply res_bind_Ok in E as (m1 & E1 & E).
    apply res_bind_Ok in E as ([ids m2] & E2 & E). injection E as <-. cbn [mgr submit snd].
    eapply extends_trans; [|by eapply send_extends]. by eapply (txn_extends t _ _ (fun x => mkTxn (context x) false _)).
  - destruct (phases w !! t) as [[]|]; try done. case_decide; [|done]. step_call E.
    by eapply (txn_extends t _ _ (fun x => mkTxn (context x) (wal_entry_ x) true)).
  - destruct (phases w !! t) as [[]|]; try done; step_call E; by eapply finish_extends.
  - destruct (phases w !! t) as [[]|]; try done; step_call E; by eapply rollback_extends.
  - destruct (phases w !! t) as [[]|]; try done. step_call E. by eapply finish_extends.
  - step_call E. by eapply scan_extends.
  - injection E as <-. cbn. unfold TxnManager.InCheckpointProcess. destruct (_ <? ts); solve_extends.
Qed.

(** ** The simulation *)
Definition state_of (p : phase) : TxnState :=
  match p with
  | PRunning | PRegistered _ => kStarted
  | PReadDone | PBottom _ => kCommitted
  | PRolling _ => kRollbacking
  | _ => kCommitting
  end.

Definition on_the_way (p : phase) ts : Prop := undecided p = Some ts \/ sent p = Some ts.

Record sim (E : env) w (scan : Z) : Prop := {
  si_states : forall t, states E !! t = state_of <$> phases w !! t;
  si_last : last_txn E <= next_txn_id_ (mgr w);
  si_commit : forall t p ts, phases w !! t = Some p -> on_the_way p ts -> last_commit E < ts;
  si_current : last_commit E <= current_ts_ (mgr w);
  si_begin : forall t, is_Some (txns_ (mgr w) !! t) -> begins t = begin_of (mgr w) t;
  si_bound : horizon E <= current_ts_ (mgr w) + 1 /\ scan <= current_ts_ (mgr w) + 1;
  si_behind : forall t, is_Some (phases w !! t) -> horizon E <= begins t /\ scan <= begins t;
}.

Definition env_after evs (E : env) : env := foldl (fun E ev => env_step ev E) E evs.

Lemma allowed_events_app evs1 evs2 E (c : cell) : allowed_events begins (evs1 ++ evs2) E c <->
  allowed_events begins evs1 E c /\ allowed_events begins evs2 (env_after evs1 E) (after begins evs1 c).
Proof. revert E c. induction evs1 as [|ev evs1 IH]; intros E c; cbn; [tauto|]. rewrite IH. tauto. Qed.

Lemma sim_enter E E' w w' scan t p p' : sim E w scan -> extends (mgr w) (mgr w') -> phases w !! t = Some p ->
  phases w' = <[t := p']> (phases w) ->
  (forall t', states E' !! t' = if decide (t = t') then Some (state_of p') else states E !! t') ->
  last_txn E' = last_txn E -> last_commit E' = last_commit E -> horizon E' = horizon E ->
  (forall ts, on_the_way p' ts -> last_commit E < ts) -> sim E' w' scan.
Proof.
  intros [Hs Hl Hc Hcu Hb Hbd Hbe] [X1 X2 X3 X4] Hp Hph Hst E1 E2 E3 Hway. split; rewrite ?Hph, ?E1, ?E2, ?E3.
  - intros t'. rewrite Hst. case_decide as Heq; [subst; by rewrite lookup_insert_eq|by rewrite lookup_insert_ne].
  - by rewrite X1.
  - intros t' q ts [[<- <-]|[_ Hq]]%lookup_insert_Some Hw; [by apply Hway|by apply (Hc t' q)].
  - lia.
  - intros t' Ht'%X3. rewrite X4. by apply Hb.
  - lia.
  - intros t' [q Hq]. apply Hbe. apply lookup_insert_Some in Hq as [[<- _]|[_ Hq]]; by eexists.
Qed.

Lemma sim_same E w w' scan t p p' : sim E w scan -> extends (mgr w) (mgr w') -> phases w !! t = Some p ->
  phases w' = <[t := p']> (phases w) -> state_of p' = state_of p -> (forall ts, on_the_way p' ts -> last_commit E < ts) -> sim E w' scan.
Proof.
  intros Hs Hx Hp Hph Hst Hway. apply (sim_enter E E w w' scan t p p'); try done. intros t'. case_decide as Heq; [|done].
  subst t'. by rewrite (si_states _ _ _ Hs), Hp, Hst.
Qed.

Lemma sim_leave E E' w w' scan t : sim E w scan -> extends (mgr w) (mgr w') -> phases w' = delete t (phases w) ->
  states E' = delete t (states E) -> last_txn E' = last_txn E -> last_commit E' = last_commit E -> horizon E' = horizon E -> sim E' w' scan.
Proof.
  intros [Hs Hl Hc Hcu Hb Hbd Hbe] [X1 X2 X3 X4] Hph Hst E1 E2 E3. split; rewrite ?Hph, ?Hst, ?E1, ?E2, ?E3.
  - intros t'. destruct (decide (t = t')) as [<-|]; [by rewrite !lookup_delete_eq|by rewrite !lookup_delete_ne].
  - by rewrite X1.
  - intros t' q ts [_ Hq]%lookup_delete_Some Hw. by apply (Hc t' q).
  - lia.
  - intros t' Ht'%X3. rewrite X4. by apply Hb.
  - lia.
  - intros t' [q Hq]. apply Hbe. apply lookup_delete_Some in Hq as [_ Hq]. by eexists.
Qed.

Lemma sim_idle E w w' scan : sim E w scan -> extends (mgr w) (mgr w') -> phases w' = phases w -> sim E w' scan.
Proof.
  intros [Hs Hl Hc Hcu Hb Hbd Hbe] [X1 X2 X3 X4] Hph. split; rewrite ?Hph; try done; try lia.
  intros t' Ht'%X3. rewrite X4. by apply Hb.
Qed.

(** The log thread takes the earliest transaction on the way. *)
Lemma bottom_first w t ts t' p ts' : inv w -> phases w !! t = Some (PSent ts) -> wal w !! bottoms w = Some (ts, t) ->
  phases w !! t' = Some p -> on_the_way p ts' -> t' <> t -> ts < ts'.
Proof.
  intros [_ _ Hq] Hp Hl Hp' Hway Hne. pose proof (list_elem_of_lookup_2 _ _ _ Hl) as Hin. destruct Hway as [Hu|Hse].
  - apply (iv_lbound _ Hq (ts, t) (ts', None) Hin). apply (iv_none _ Hq). exists t'. by exists p.
  - assert (Hs : has (phases w) sent t' ts') by (by exists p). apply (iv_some _ Hq) in Hs as [Hs|Hs].
    + apply (iv_lbound _ Hq (ts, t) (ts', Some t') Hin Hs).
    + unfold queued in Hs. rewrite (drop_S _ _ _ Hl) in Hs. apply elem_of_cons in Hs as [[= _ ->]|Hs]; [done|].
      by apply (keys_sorted_drop _ _ _ _ (iv_lsorted _ Hq) Hl Hs).
Qed.

Lemma sim_bottom E w w' scan t ts : inv w -> sim E w scan -> phases w !! t = Some (PSent ts) -> wal w !! bottoms w = Some (ts, t) ->
  extends (mgr w) (mgr w') -> phases w' = <[t := PBottom ts]> (phases w) -> ts <= current_ts_ (mgr w) ->
  sim (env_step (ECommit (V := V) t ts) E) w' scan.
Proof.
  intros Hi [Hs Hl Hc Hcu Hb Hbd Hbe] Hp Hwal [X1 X2 X3 X4] Hph Hts. split; rewrite ?Hph; cbn.
  - intros t'. destruct (decide (t = t')) as [<-|]; [by rewrite !lookup_insert_eq|by rewrite !lookup_insert_ne].
  - by rewrite X1.
  - intros t' q ts' [[<- <-]|[Hne Hq]]%lookup_insert_Some Hw; [by destruct Hw|].
    by apply (bottom_first w t ts t' q ts' Hi).
  - lia.
  - intros t' Ht'%X3. rewrite X4. by apply Hb.
  - lia.
  - intros t' [q Hq]. apply Hbe. apply lookup_insert_Some in Hq as [[<- _]|[_ Hq]]; by eexists.
Qed.

Lemma begin_shape ty m o m' : TxnManager.BeginTxn ty m = Ok (o, m') ->
  next_txn_id_ m' = next_txn_id_ m + 1 /\ current_ts_ m' = current_ts_ m /\
  match o with
  | Some t => t = next_txn_id_ m + 1 /\ exists x, txns_ m' = <[t := x]> (txns_ m) /\ TxnContext.begin_ts_ (context x) = current_ts_ m + 1
  | None => txns_ m' = txns_ m
  end.
Proof.
  unfold TxnManager.BeginTxn. destruct (is_running_ m); [|done].
  case_decide; [destruct (_ =? _)|]; intros [= <- <-]; cbn; (split; [done|]); (split; [done|]); try done; (split; [done|]); by eexists.
Qed.

Lemma sim_begin E w scan ty o m : inv w -> sim E w scan -> TxnManager.BeginTxn ty (mgr w) = Ok (o, m) ->
  match o with Some t => begins t = begin_of m t | None => True end ->
  match o with
  | Some t => allowed_event begins (EStart (V := V) t) E cell0 /\ sim (env_step (EStart (V := V) t) E) (enter t PRunning w m) scan
  | None => sim E (mkWorld m (phases w) (wal w) (bottoms w)) scan
  end.
Proof.
  intros Hi Hsim Hb Hfit. destruct (begin_shape _ _ _ _ Hb) as (Hn & Hc & Hshape). destruct (new_txn w Hi) as [Hx Hp].
  destruct Hsim as [Hs Hl Hcm Hcu Hbe Hbd Hbh]. destruct o as [t|]; [destruct Hshape as (-> & x & Ht & Hbt)|].
  - set (t := next_txn_id_ (mgr w) + 1) in *. assert (Hbt' : begins t = current_ts_ (mgr w) + 1).
    { rewrite Hfit. unfold begin_of. by rewrite Ht, lookup_insert_eq. }
    split; [cbn; split; [lia|lia]|]. split; cbn; rewrite ?Hn, ?Hc; try done; try lia.
    + intros t'. destruct (decide (t = t')) as [<-|]; [by rewrite !lookup_insert_eq|by rewrite !lookup_insert_ne].
    + intros t' q ts [[<- <-]|[_ Hq]]%lookup_insert_Some Hw; [by destruct Hw|by apply (Hcm t' q)].
    + intros t' Ht'. destruct (decide (t = t')) as [<-|Hne]; [done|]. unfold begin_of in *. rewrite Ht, lookup_insert_ne in * by done.
      by apply Hbe.
    + intros t' [q Hq]. destruct (decide (t = t')) as [<-|Hne]; [lia|]. rewrite lookup_insert_ne in Hq by done. apply Hbh. by eexists.
  - split; cbn; rewrite ?Hn, ?Hc; try done; try lia. intros t' Ht'. unfold begin_of in *. rewrite Hshape in *. by apply Hbe.
Qed.

(** Every step of a transaction gives allowed events. *)
Lemma step_sim a E w w' scan c : inv w -> sim E w scan -> step_fits a w c -> exec_action a w = Some (Ok w') ->
  current_ts_ (mgr w) < UNCOMMIT_TS ->
  allowed_events begins (events_of a w) E c /\ sim (env_after (events_of a w) E) w' (scan_of a w scan).
Proof.
  intros Hi Hs Hfit E0 Hcur. pose proof (fun Hne => action_extends a w w' E0 Hne) as Hx.
  assert (Hst : forall t p, phases w !! t = Some p -> states E !! t = Some (state_of p)).
  { intros t p Hp. by rewrite (si_states _ _ _ Hs), Hp. }
  destruct a as [ty|t|t|t|t|t b|t|t|t|t d|t|t|l|ts]; cbn [events_of scan_of exec_action step_fits] in *; try specialize (Hx ltac:(done)).
  - destruct (TxnManager.BeginTxn ty (mgr w)) as [[o m]|] eqn:Hb; [|done]. cbv [res_bind] in E0. injection E0 as <-.
    pose proof (sim_begin E w scan ty o m Hi Hs Hb) as Hsim. destruct o as [t|]; [|split; [done|]; by apply Hsim].
    destruct (Hsim Hfit) as [Ha Hsim']. split; [by split|done].
  - destruct (phases w !! t) as [[]|] eqn:Hp; try done. step_call E0. split; [split; [split; [by apply (Hst t PRunning)|done]|done]|].
    apply (sim_enter E _ w _ scan t PRunning PReadDone); try done; [|by intros ts []].
    intros t'. cbn. case_decide; [subst; by rewrite lookup_insert_eq|by rewrite lookup_insert_ne].
  - destruct (phases w !! t) as [[]|] eqn:Hp; try done. step_call E0. split; [done|].
    destruct (write_ts_extends _ _ _ _ Er) as (_ & Hts & _).
    apply (sim_same E w _ scan t PRunning (PRegistered z)); try done. intros ts [[= <-]|[=]].
    pose proof (si_current _ _ _ Hs). lia.
  - destruct (phases w !! t) as [[]|] eqn:Hp; try done. step_call E0. split; [split; [by apply (Hst t (PRegistered ts))|done]|].
    apply (sim_enter E _ w _ scan t (PRegistered ts) (PCommitting ts)); try done.
    + intros t'. cbn. case_decide; [subst; by rewrite lookup_insert_eq|by rewrite lookup_insert_ne].
    + intros k Hk. by apply (si_commit _ _ _ Hs t (PRegistered ts)).
  - destruct (phases w !! t) as [[]|] eqn:Hp; try done. step_call E0. split; [done|].
    apply (sim_same E w _ scan t (PCommitting ts) (PChecking ts l z)); try done. intros k Hk. by apply (si_commit _ _ _ Hs t (PCommitting ts)).
  - destruct (phases w !! t) as [[]|] eqn:Hp; try done. injection E0 as <-. split; [done|].
    eapply (sim_same E w _ scan t _ (PChecked ts b)); try done. intros k Hk. by eapply (si_commit _ _ _ Hs t).
  - destruct (phases w !! t) as [[| | | | |ts []| | | |]|] eqn:Hp; try done. step_call E0. split; [done|].
    eapply (sim_same E w _ scan t _ (PSent ts)); try done. intros k [[=]|[= <-]]. eapply (si_commit _ _ _ Hs t); [done|by left].
  - destruct (phases w !! t) as [[| | | | |ts []| | | |]|] eqn:Hp; try done. injection E0 as E0.
    apply res_bind_Ok in E0 as (m1 & E1 & E0). apply res_bind_Ok in E0 as ([ids m2] & E2 & E0). injection E0 as <-. split; [done|].
    eapply (sim_same E w _ scan t _ (PAborted ts)); try done. by intros k [[=]|[=]].
  - destruct (phases w !! t) as [[]|] eqn:Hp; try done. case_decide as Hwal; [|done]. step_call E0.
    assert (Hle : ts <= current_ts_ (mgr w)).
    { pose proof (iv_lcurrent _ (iv_queue _ Hi)) as Hl. rewrite Forall_forall in Hl. apply (Hl (ts, t)). by eapply list_elem_of_lookup_2. }
    split.
    + split; [|done]. cbn. split; [by apply (Hst t (PSent ts))|]. split; [|lia]. eapply (si_commit _ _ _ Hs t); [done|by right].
    + by apply (sim_bottom E w).
  - assert (Hd : exists p, phases w !! t = Some p /\ state_of p = kCommitted /\ phases w' = delete t (phases w)).
    { destruct (phases w !! t) as [[]|] eqn:Hp; try done; step_call E0; by eexists. }
    destruct Hd as (p & Hp & Hsp & Hph). split; [split; [left; rewrite (Hst t p Hp); by f_equal|done]|].
    by apply (sim_leave E _ w w' scan t).
  - assert (Hd : exists p q, phases w !! t = Some p /\ (state_of p = kStarted \/ state_of p = kCommitting) /\
      phases w' = <[t := PRolling q]> (phases w)).
    { destruct (phases w !! t) as [[]|] eqn:Hp; try done; step_call E0; by eexists _, _; eauto. }
    destruct Hd as (p & q & Hp & Hsp & Hph). split.
    { split; [|done]. cbn. rewrite (Hst t p Hp). by destruct Hsp as [->| ->]; [left|right]. }
    apply (sim_enter E _ w w' scan t p (PRolling q)); try done; [|by intros k []].
    intros t'. cbn. case_decide; [subst; by rewrite lookup_insert_eq|by rewrite lookup_insert_ne].
  - destruct (phases w !! t) as [[]|] eqn:Hp; try done. step_call E0. split.
    { split; [by apply (Hst t (PRolling ts))|]. split; [|done]. right. cbn. by rewrite lookup_insert_eq. }
    apply (sim_leave E _ w _ scan t); try done. cbn. by rewrite delete_insert_eq.
  - split; [done|]. destruct (scan_bound w l Hi) as (ts & m & Hsc & _ & _ & Hb & Ha). rewrite Hsc in E0 |- *. cbv [res_bind] in E0.
    injection E0 as <-. apply (sim_idle E w); [|by eapply scan_extends|done]. destruct Hs. split; try done; [lia|].
    intros t' Ht'. split; [by apply si_behind0|]. rewrite si_begin0; [apply Ha; by left|]. apply phase_object; [apply Hi|done].
  - injection E0 as <-. split; [done|]. by apply (sim_idle E w).
Qed.

Lemma run_current a w w' : exec_action a w = Some (Ok w') -> current_ts_ (mgr w) <= current_ts_ (mgr w').
Proof.
  intros E. destruct a as [ty| | | | | | | | | | | | |]; try (apply (action_extends _ _ _ E); done).
  cbn [exec_action] in E. injection E as E. apply res_bind_Ok in E as ([o m] & Hb & E). injection E as <-.
  destruct (begin_shape _ _ _ _ Hb) as (_ & Hc & _). destruct o; cbn; lia.
Qed.

Lemma run_inv next_txn_id start_ts evs w scan : run next_txn_id start_ts evs w scan -> inv w.
Proof.
  induction 1 as [|evs w scan a w' _ IH _ E| |]; [apply inv_start| |done|done].
  pose proof (action_ok a w IH) as Hs. rewrite E in Hs. destruct Hs as (w2 & [= <-] & Hi). done.
Qed.

Lemma sim_start next_txn_id start_ts : 0 <= next_txn_id -> 0 <= start_ts ->
  sim env0 (mkWorld (TxnManager.Start (TxnManager.make next_txn_id start_ts)) ∅ [] 0) 0.
Proof.
  intros Hn Hs. split; cbn; try done; try lia.
  - intros t. by rewrite !lookup_empty.
  - intros t [x Hx]. by rewrite lookup_empty in Hx.
Qed.

Lemma call_step ev t E w scan c : sim E w scan -> caller ev = Some t -> phases w !! t = Some PRunning ->
  allowed_event begins ev E c /\ env_step ev E = E.
Proof.
  intros Hs Hc Hp. assert (Hst : states E !! t = Some kStarted) by (by rewrite (si_states _ _ _ Hs), Hp).
  destruct ev; try done; injection Hc as ->; done.
Qed.

Lemma clean_step ts E w scan c : sim E w scan -> ts <= scan + 1 -> ts <= UNCOMMIT_TS ->
  allowed_event begins (EClean (V := V) ts) E c /\ sim (env_step (EClean (V := V) ts) E) w scan.
Proof.
  intros [Hs Hl Hc Hcu Hb Hbd Hbe] Hts Hu. split.
  - split; [done|]. intros t s Hst. cbn. rewrite Hs in Hst. apply fmap_Some in Hst as (p & Hp & _).
    destruct (Hbe t) as [_ H2]; [by eexists|]. lia.
  - split; cbn; try done; [lia|]. intros t Ht. destruct (Hbe t Ht). lia.
Qed.

Lemma run_sim next_txn_id start_ts evs w scan : 0 <= next_txn_id -> 0 <= start_ts ->
  run next_txn_id start_ts evs w scan -> current_ts_ (mgr w) < UNCOMMIT_TS ->
  allowed_events begins evs env0 cell0 /\ sim (env_after evs env0) w scan.
Proof.
  intros Hn Hst. induction 1 as [|evs w scan a w' Hr IH Hf E|evs w scan ev t Hr IH Hc Hp|evs w scan ts Hr IH Hts Hu]; intros Hcur.
  - split; [done|]. by apply sim_start.
  - pose proof (run_current _ _ _ E) as Hle. destruct IH as [Ha Hs]; [lia|].
    destruct (step_sim a _ w w' scan _ (run_inv _ _ _ _ _ Hr) Hs Hf E) as [Ha' Hs']; [lia|].
    unfold env_after in *. rewrite foldl_app. split; [by apply allowed_events_app|done].
  - destruct (IH Hcur) as [Ha Hs]. destruct (call_step ev t _ w scan (after begins evs cell0) Hs Hc Hp) as [Ha' Heq].
    unfold env_after in *. rewrite foldl_app. cbn. rewrite Heq. split; [|done]. by apply allowed_events_app.
  - destruct (IH Hcur) as [Ha Hs]. destruct (clean_step ts _ w scan (after begins evs cell0) Hs Hts Hu) as [Ha' Hs'].
    unfold env_after in *. rewrite foldl_app. split; [by apply allowed_events_app|done].
Qed.

(** C4. Transactions and a versioned entry together: in every run of the transaction manager, with
    calls on the entry by transactions that run and cleanups up to the timestamps the manager
    gives, no call raises, and every call is answered from the history of commits and the changes
    of at most one transaction. *)
Theorem catalog_entry_serves_transactions next_txn_id start_ts evs w scan : 0 <= next_txn_id -> 0 <= start_ts ->
  run next_txn_id start_ts evs w scan -> current_ts_ (mgr w) < UNCOMMIT_TS ->
  exists l, exec_events begins evs env0 [] = Ok (spec_events begins evs cell0, l).
Proof.
  intros Hn Hs Hr Hc. destruct (run_sim _ _ _ _ _ Hn Hs Hr Hc) as [Ha _].
  exact (events_sim begins evs env0 [] [] cell0 rel_init (env_ok_init begins) Ha).
Qed.

(** A schedule: steps of the manager, calls on the entry, cleanups. *)
#[export] Instance step_fits_dec a w c : Decision (step_fits a w c).
Proof.
  destruct a; cbn; try apply _. destruct (TxnManager.BeginTxn _ _) as [[[] ]|]; apply _.
Defined.

Definition exec_call (x : action + event (V := V)) (st : list (event (V := V)) * world * Z) : option (list (event (V := V)) * world * Z) :=
  let '(evs, w, scan) := st in
  match x with
  | inl a => if decide (step_fits a w (after begins evs cell0)) then
               match exec_action a w with Some (Ok w') => Some (evs ++ events_of a w, w', scan_of a w scan) | _ => None end
             else None
  | inr (EClean ts) => if decide (ts <= scan + 1 /\ ts <= UNCOMMIT_TS) then Some (evs ++ [EClean ts], w, scan) else None
  | inr ev => match caller ev with
              | Some t => match phases w !! t with Some PRunning => Some (evs ++ [ev], w, scan) | _ => None end
              | None => None
              end
  end.

Fixpoint exec_calls (xs : list (action + event (V := V))) st :=
  match xs with [] => Some st | x :: xs => exec_call x st ≫= exec_calls xs end.

Lemma exec_call_run next_txn_id start_ts x evs w scan evs' w' scan' : run next_txn_id start_ts evs w scan ->
  exec_call x (evs, w, scan) = Some (evs', w', scan') -> run next_txn_id start_ts evs' w' scan'.
Proof.
  intros Hr E. destruct x as [a|ev]; cbn in E.
  - case_decide; [|done]. destruct (exec_action a w) as [[w1|e]|] eqn:Ha; [|done|done]. injection E as <- <- <-. by apply run_act.
  - destruct ev; try done; cbn in E; try (case_match; [|done]; case_match; try done; injection E as <- <- <-; by eapply run_call).
    case_decide as Hd; [|done]. injection E as <- <- <-. destruct Hd. by apply run_clean.
Qed.

Lemma exec_calls_run next_txn_id start_ts xs evs w scan evs' w' scan' : run next_txn_id start_ts evs w scan ->
  exec_calls xs (evs, w, scan) = Some (evs', w', scan') -> run next_txn_id start_ts evs' w' scan'.
Proof.
  revert evs w scan. induction xs as [|x xs IH]; cbn [exec_calls]; intros evs w scan Hr E; [by injection E as <- <- <-|].
  apply bind_Some in E as ([[evs1 w1] scan1] & Hx & E).
  apply (IH evs1 w1 scan1); [by eapply exec_call_run|done].
Qed.
End catalog.

(** ** A run: three transactions, one of which commits, one only reads and one rolls back *)
Definition demo_begin_ts (t : Z) : Z := if t =? 1 then 3 else 5.
Definition demo_calls : list (action + event (V := Z)) :=
  [inl (ABegin kNormal); inr (EAdd 1 kError false 7); inl (ARegister 1); inl (ASetCommitting 1); inl (ACheck 1);
   inl (AChecked 1 true); inl (ASend 1); inl (ABegin kNormal); inl (ABottom 1); inl (AFinish 1 true);
   inl (ABegin kNormal); inr (EGet 3); inr (EDrop 3 kError 0); inl (AScan 100); inr (EClean 5); inl (ARollback 3); inl (ARollbackDone 3);
   inr (EGet 2); inl (ACommitRead 2); inl (AFinish 2 true)].
Definition demo_run : option (list (event (V := Z)) * world * Z) :=
  exec_calls (K := TableEntryKind) demo_begin_ts demo_calls ([], demo_start, 0).

Lemma catalog_entry_serves_transactions_witness : exists evs w scan l, demo_run = Some (evs, w, scan) /\
  exec_events (K := TableEntryKind) demo_begin_ts evs env0 [] = Ok (spec_events (K := TableEntryKind) demo_begin_ts evs cell0, l).
Proof.
  assert (Hr : exists evs w scan, demo_run = Some (evs, w, scan) /\ current_ts_ (mgr w) < UNCOMMIT_TS).
  { unfold demo_run. eexists _, _, _. split; [vm_compute; reflexivity|reflexivity]. }
  destruct Hr as (evs & w & scan & Hr & Hc). exists evs, w, scan.
  destruct (catalog_entry_serves_transactions (K := TableEntryKind) demo_begin_ts 0 2 evs w scan) as [l Hl]; [done|done| |done|].
  - apply (exec_calls_run (K := TableEntryKind) demo_begin_ts 0 2 demo_calls [] demo_start 0); [apply run_start|exact Hr].
  - exists l. by split.
Defined.
