(* ===== verification/TxnTableStore.v ===== *)
(** * The changes of a transaction to a table: [src/src/storage/txn/txn_store.cpp]

    A transaction collects what it appends to a table, the rows it deletes, the segments it
    imports or compacts and the indexes it creates; the table changes when the transaction commits.
    A row is a value of any type. Pointers to segments, blocks and columns are their ids, the ones
    to index entries are numbers with the name of the index beside them. *)
From S2P Require Import Prelude Serialize DataType EntryList FileWorker BlockVersion Bitmask BlockEntry SegmentEntry.
Import ErrorCode.
Import BlockEntry(DEFAULT_BLOCK_CAPACITY).
Import SegmentEntry(SegmentEntry, AppendState, mkAppendState, block_entries_, segment_id_).

(** ** Data blocks: the parts of [data_block.cpp] that stores use

    A block of a store is finalized after each append, so [row_count] never raises. *)
Record DataBlock (R : Type) := mkDataBlock { column_types_ : list DataType; rows_ : list R; capacity_ : Z }.
Arguments mkDataBlock {R} _ _ _.
Arguments column_types_ {R} _.
Arguments rows_ {R} _.
Arguments capacity_ {R} _.

Module DataBlock.
Section block.
Context {R : Type}.
Implicit Types (b other : DataBlock R).

Definition DEFAULT_VECTOR_SIZE : Z := DEFAULT_BLOCK_CAPACITY.

Definition Init (types : list DataType) : res (DataBlock R) :=
  check? negb (length types =? 0)%nat else Unrecoverable in Ok (mkDataBlock types [] DEFAULT_VECTOR_SIZE).

Definition column_count b : Z := Z.of_nat (length (column_types_ b)).
Definition row_count b : Z := u16 (Z.of_nat (length (rows_ b))).

Definition AppendWith other (from count : Z) b : res (DataBlock R) :=
  check? column_count other =? column_count b else Unrecoverable in
  check? negb (capacity_ b <? Z.of_nat (length (rows_ b)) + count) else Unrecoverable in
  check? from + count <=? Z.of_nat (length (rows_ other)) else Undefined in
  Ok (mkDataBlock (column_types_ b) (rows_ b ++ take (Z.to_nat count) (drop (Z.to_nat from) (rows_ other))) (capacity_ b)).
End block.
End DataBlock.

(** ** Stores *)

(** [TxnSegmentStore], without its pointer to the segment, which is its key: blocks and columns. *)
Record TxnSegmentStore := mkTxnSegmentStore { store_blocks_ : gset Z; block_column_entries_ : list Z }.

Inductive IndexStoreStatus := kIndexNone | kOptimizing.

Record TxnIndexStore := mkTxnIndexStore {
  table_index_entry_ : Z;
  index_entry_map_ : gmap Z Z;
  chunk_index_entries_ : gmap string Z;
  optimize_data_ : list (Z * Z * list Z);
  index_status_ : IndexStoreStatus;
}.

Inductive CompactStatementType := kManual | kAuto | kInvalidCompact.

#[export] Instance CompactStatementType_eq_dec : EqDecision CompactStatementType.
Proof. solve_decision. Defined.

(** The new segment with its store, and the old ones. *)
Record TxnCompactStore := mkTxnCompactStore {
  compact_data_ : list (Z * TxnSegmentStore * list Z);
  compact_type_ : CompactStatementType;
}.

(** [DeleteState]: block offsets by segment and block, in the order of the calls. *)
Abbreviation DeleteState := (gmap Z (gmap Z (list Z))).

Inductive TxnStoreStatus := kStoreNone | kStoreCreatingIndex | kStoreCompacting.

#[export] Instance TxnStoreStatus_eq_dec : EqDecision TxnStoreStatus.
Proof. solve_decision. Defined.

Record TxnTableStore (R : Type) := mkTxnTableStore {
  table_entry_ : Z;
  txn_segments_store_ : gmap Z TxnSegmentStore;
  flushed_segments_ : list Z;
  set_sealed_segments_ : gset Z;
  ptr_seq_n_ : Z;
  txn_indexes_ : gmap Z (string * Z);
  txn_indexes_store_ : gmap string TxnIndexStore;
  compact_state_ : TxnCompactStore;
  blocks_ : list (DataBlock R);
  append_state_ : option AppendState;
  delete_state_ : DeleteState;
  current_block_id_ : Z;
  added_txn_num_ : bool;
  has_update_ : bool;
  store_status_ : TxnStoreStatus;
}.
Arguments mkTxnTableStore {R} _ _ _ _ _ _ _ _ _ _ _ _ _ _ _.
Arguments table_entry_ {R} _.
Arguments txn_segments_store_ {R} _.
Arguments flushed_segments_ {R} _.
Arguments set_sealed_segments_ {R} _.
Arguments ptr_seq_n_ {R} _.
Arguments txn_indexes_ {R} _.
Arguments txn_indexes_store_ {R} _.
Arguments compact_state_ {R} _.
Arguments blocks_ {R} _.
Arguments append_state_ {R} _.
Arguments delete_state_ {R} _.
Arguments current_block_id_ {R} _.
Arguments added_txn_num_ {R} _.
Arguments has_update_ {R} _.
Arguments store_status_ {R} _.

Module TxnSegmentStore.
Definition empty : TxnSegmentStore := mkTxnSegmentStore ∅ [].
Definition AddSegmentStore (sg : SegmentEntry) : TxnSegmentStore :=
  mkTxnSegmentStore (list_to_set (map BlockEntry.block_id_ (block_entries_ sg))) [].
End TxnSegmentStore.

Module TxnIndexStore.
Definition make (table_index_entry : Z) : TxnIndexStore := mkTxnIndexStore table_index_entry ∅ ∅ [] kIndexNone.

Definition AddSegmentOptimizing (segment_id segment_index_entry : Z) (s : TxnIndexStore) : TxnIndexStore :=
  mkTxnIndexStore (table_index_entry_ s)
    (match index_entry_map_ s !! segment_id with Some _ => index_entry_map_ s | None => <[segment_id := segment_index_entry]> (index_entry_map_ s) end)
    (chunk_index_entries_ s) (optimize_data_ s) kOptimizing.

(** The index entries that are reset, when there are some. *)
Definition TryRevert (s : TxnIndexStore) : bool * list Z * TxnIndexStore :=
  match index_status_ s with
  | kIndexNone => (false, [], s)
  | kOptimizing =>
      (true, map snd (map_to_list (index_entry_map_ s)),
       mkTxnIndexStore (table_index_entry_ s) (index_entry_map_ s) (chunk_index_entries_ s) (optimize_data_ s) kIndexNone)
  end.
End TxnIndexStore.

Module TxnTableStore.
Section store.
Context {R : Type}.
Implicit Types (s : TxnTableStore R).

(** [ptr_seq_n_] has no initializer: its first value is whatever the memory holds. *)
Definition make (ptr_seq_n table_entry : Z) : TxnTableStore R :=
  mkTxnTableStore table_entry ∅ [] ∅ ptr_seq_n ∅ ∅ (mkTxnCompactStore [] kInvalidCompact) [] None ∅ 0 false false kStoreNone.

Definition set_segments x s : TxnTableStore R :=
  mkTxnTableStore (table_entry_ s) x (flushed_segments_ s) (set_sealed_segments_ s) (ptr_seq_n_ s) (txn_indexes_ s)
    (txn_indexes_store_ s) (compact_state_ s) (blocks_ s) (append_state_ s) (delete_state_ s) (current_block_id_ s)
    (added_txn_num_ s) true (store_status_ s).
Definition set_indexes seq indexes stores s : TxnTableStore R :=
  mkTxnTableStore (table_entry_ s) (txn_segments_store_ s) (flushed_segments_ s) (set_sealed_segments_ s) seq indexes
    stores (compact_state_ s) (blocks_ s) (append_state_ s) (delete_state_ s) (current_block_id_ s)
    (added_txn_num_ s) true (store_status_ s).
Definition set_blocks blocks current s : TxnTableStore R :=
  mkTxnTableStore (table_entry_ s) (txn_segments_store_ s) (flushed_segments_ s) (set_sealed_segments_ s) (ptr_seq_n_ s) (txn_indexes_ s)
    (txn_indexes_store_ s) (compact_state_ s) blocks (append_state_ s) (delete_state_ s) current
    (added_txn_num_ s) true (store_status_ s).
Definition set_append_state st s : TxnTableStore R :=
  mkTxnTableStore (table_entry_ s) (txn_segments_store_ s) (flushed_segments_ s) (set_sealed_segments_ s) (ptr_seq_n_ s) (txn_indexes_ s)
    (txn_indexes_store_ s) (compact_state_ s) (blocks_ s) st (delete_state_ s) (current_block_id_ s)
    (added_txn_num_ s) (has_update_ s) (store_status_ s).
Definition set_compact c s : TxnTableStore R :=
  mkTxnTableStore (table_entry_ s) (txn_segments_store_ s) (flushed_segments_ s) (set_sealed_segments_ s) (ptr_seq_n_ s) (txn_indexes_ s)
    (txn_indexes_store_ s) c (blocks_ s) (append_state_ s) (delete_state_ s) (current_block_id_ s)
    (added_txn_num_ s) (has_update_ s) (store_status_ s).
Definition set_status added status s : TxnTableStore R :=
  mkTxnTableStore (table_entry_ s) (txn_segments_store_ s) (flushed_segments_ s) (set_sealed_segments_ s) (ptr_seq_n_ s) (txn_indexes_ s)
    (txn_indexes_store_ s) (compact_state_ s) (blocks_ s) (append_state_ s) (delete_state_ s) (current_block_id_ s)
    added (has_update_ s) status.

Definition set_has_update s : TxnTableStore R :=
  mkTxnTableStore (table_entry_ s) (txn_segments_store_ s) (flushed_segments_ s) (set_sealed_segments_ s) (ptr_seq_n_ s) (txn_indexes_ s)
    (txn_indexes_store_ s) (compact_state_ s) (blocks_ s) (append_state_ s) (delete_state_ s) (current_block_id_ s)
    (added_txn_num_ s) true (store_status_ s).
Definition clear_blocks s : TxnTableStore R :=
  mkTxnTableStore (table_entry_ s) (txn_segments_store_ s) (flushed_segments_ s) (set_sealed_segments_ s) (ptr_seq_n_ s) (txn_indexes_ s)
    (txn_indexes_store_ s) (compact_state_ s) [] (append_state_ s) (delete_state_ s) (current_block_id_ s)
    (added_txn_num_ s) (has_update_ s) (store_status_ s).

(** *** Rows *)

(** The types are compared column by column; the check of the counts comes first. *)
Fixpoint same_types (l1 l2 : list DataType) : bool :=
  match l1, l2 with
  | [], _ => true
  | t1 :: l1, t2 :: l2 => DataType.op_eq t1 t2 && same_types l1 l2
  | _ :: _, [] => false
  end.

Definition Append (column_types : list DataType) (input_block : DataBlock R) s : res (Status * TxnTableStore R) :=
  if negb (DataBlock.column_count input_block =? Z.of_nat (length column_types)) then Ok (kColumnCountMismatch, s)
  else if negb (same_types column_types (column_types_ input_block)) then Ok (kDataTypeMismatch, s)
  else
    let? (blocks, id) := (match blocks_ s with
                          | [] => let? b := DataBlock.Init column_types in Ok ([b], 0)
                          | blocks => Ok (blocks, current_block_id_ s)
                          end) in
    match blocks !! Z.to_nat id with
    | None => Err Undefined
    | Some current_block =>
        let n := DataBlock.row_count current_block in
        let input_rows := DataBlock.row_count input_block in
        if capacity_ current_block <? n + input_rows then
          let to_append := u64 (capacity_ current_block - n) in
          let? current_block := DataBlock.AppendWith input_block 0 to_append current_block in
          let? new_block := DataBlock.Init column_types in
          let? new_block := DataBlock.AppendWith input_block to_append (u64 (input_rows - to_append)) new_block in
          Ok (kOk, set_blocks (<[Z.to_nat id := current_block]> blocks ++ [new_block]) (id + 1) s)
        else
          let? current_block := DataBlock.AppendWith input_block 0 input_rows current_block in
          Ok (kOk, set_blocks (<[Z.to_nat id := current_block]> blocks) id s)
    end.

(** Row ids are pairs of a segment and an offset in it. *)
Fixpoint delete_rows (row_ids : list (Z * Z)) (rows : DeleteState) : res DeleteState :=
  match row_ids with
  | [] => Ok rows
  | (segment_id, segment_offset) :: row_ids =>
      let block_id := u16 (segment_offset / DEFAULT_BLOCK_CAPACITY) in
      let block_offset := u16 (segment_offset mod DEFAULT_BLOCK_CAPACITY) in
      let seg_map := default ∅ (rows !! segment_id) in
      let block_vec := default [] (seg_map !! block_id) ++ [block_offset] in
      check? negb (DEFAULT_BLOCK_CAPACITY <? Z.of_nat (length block_vec)) else Unrecoverable in
      delete_rows row_ids (<[segment_id := <[block_id := block_vec]> seg_map]> rows)
  end.
Definition Delete (row_ids : list (Z * Z)) s : res (Status * TxnTableStore R) :=
  let? rows := delete_rows row_ids (delete_state_ s) in
  Ok (kOk,
      mkTxnTableStore (table_entry_ s) (txn_segments_store_ s) (flushed_segments_ s) (set_sealed_segments_ s) (ptr_seq_n_ s) (txn_indexes_ s)
        (txn_indexes_store_ s) (compact_state_ s) (blocks_ s) (append_state_ s) rows (current_block_id_ s)
        (added_txn_num_ s) true (store_status_ s)).

(** *** Indexes *)

(** An entry is its pointer and its name. *)
Definition AddIndexStore (ptr : Z) (index_name : string) s : TxnTableStore R :=
  set_indexes (ptr_seq_n_ s + 1)
    (match txn_indexes_ s !! ptr with Some _ => txn_indexes_ s | None => <[ptr := (index_name, ptr_seq_n_ s)]> (txn_indexes_ s) end)
    (txn_indexes_store_ s) s.

Definition GetIndexStore (ptr : Z) (index_name : string) s : TxnIndexStore * TxnTableStore R :=
  match txn_indexes_store_ s !! index_name with
  | Some index_store => (index_store, s)
  | None => let index_store := TxnIndexStore.make ptr in
            (index_store, set_indexes (ptr_seq_n_ s) (txn_indexes_ s) (<[index_name := index_store]> (txn_indexes_store_ s)) s)
  end.

Definition put_index_store (index_name : string) (x : TxnIndexStore) s : TxnTableStore R :=
  set_indexes (ptr_seq_n_ s) (txn_indexes_ s) (<[index_name := x]> (txn_indexes_store_ s)) s.

(** The segment indexes, by segment. *)
Fixpoint add_segment_indexes (entries : list (Z * Z)) (m : gmap Z Z) : res (gmap Z Z) :=
  match entries with
  | [] => Ok m
  | (segment_id, entry) :: entries =>
      match m !! segment_id with
      | Some _ => Err Unrecoverable
      | None => add_segment_indexes entries (<[segment_id := entry]> m)
      end
  end.
Definition AddSegmentIndexesStore (ptr : Z) (index_name : string) (entries : list (Z * Z)) s : res (TxnTableStore R) :=
  let '(x, s) := GetIndexStore ptr index_name s in
  let? m := add_segment_indexes entries (index_entry_map_ x) in
  Ok (put_index_store index_name
        (mkTxnIndexStore (table_index_entry_ x) m (chunk_index_entries_ x) (optimize_data_ x) (index_status_ x)) s).

Definition emplace {K V : Type} `{Countable K} (k : K) (v : V) (m : gmap K V) : gmap K V :=
  match m !! k with Some _ => m | None => <[k := v]> m end.

(** A chunk: its segment, the index entry of that segment, its name and its pointer. *)
Definition AddChunkIndexStore (ptr : Z) (index_name : string) (segment_id segment_index_entry : Z) (encode : string)
    (chunk : Z) s : TxnTableStore R :=
  let '(x, s) := GetIndexStore ptr index_name s in
  put_index_store index_name
    (mkTxnIndexStore (table_index_entry_ x) (emplace segment_id segment_index_entry (index_entry_map_ x))
       (emplace encode chunk (chunk_index_entries_ x)) (optimize_data_ x) (index_status_ x)) s.

Definition DropIndexStore (ptr : Z) (index_name : string) s : TxnTableStore R :=
  match txn_indexes_ s !! ptr with
  | Some _ => set_indexes (ptr_seq_n_ s) (delete ptr (txn_indexes_ s)) (delete index_name (txn_indexes_store_ s)) s
  | None => set_indexes (ptr_seq_n_ s + 1) (<[ptr := (index_name, ptr_seq_n_ s)]> (txn_indexes_ s)) (txn_indexes_store_ s) s
  end.

(** *** Segments *)
Definition AddSegmentStore (sg : SegmentEntry) s : res (TxnTableStore R) :=
  match txn_segments_store_ s !! segment_id_ sg with
  | Some _ => Err Unrecoverable
  | None => Ok (set_segments (<[segment_id_ sg := TxnSegmentStore.AddSegmentStore sg]> (txn_segments_store_ s)) s)
  end.

Definition AddBlockStore (segment_id block_id : Z) s : TxnTableStore R :=
  let x := default TxnSegmentStore.empty (txn_segments_store_ s !! segment_id) in
  set_segments (<[segment_id := mkTxnSegmentStore ({[block_id]} ∪ store_blocks_ x) (block_column_entries_ x)]> (txn_segments_store_ s)) s.

Definition AddBlockColumnStore (segment_id column_id : Z) s : TxnTableStore R :=
  let x := default TxnSegmentStore.empty (txn_segments_store_ s !! segment_id) in
  set_segments (<[segment_id := mkTxnSegmentStore (store_blocks_ x) (block_column_entries_ x ++ [column_id])]> (txn_segments_store_ s)) s.

Definition AddSealedSegment (segment_id : Z) s : TxnTableStore R :=
  mkTxnTableStore (table_entry_ s) (txn_segments_store_ s) (flushed_segments_ s) ({[segment_id]} ∪ set_sealed_segments_ s) (ptr_seq_n_ s)
    (txn_indexes_ s) (txn_indexes_store_ s) (compact_state_ s) (blocks_ s) (append_state_ s) (delete_state_ s) (current_block_id_ s)
    (added_txn_num_ s) true (store_status_ s).

Definition add_flushed (segment_id : Z) s : TxnTableStore R :=
  mkTxnTableStore (table_entry_ s) (txn_segments_store_ s) (flushed_segments_ s ++ [segment_id]) (set_sealed_segments_ s) (ptr_seq_n_ s)
    (txn_indexes_ s) (txn_indexes_store_ s) (compact_state_ s) (blocks_ s) (append_state_ s) (delete_state_ s) (current_block_id_ s)
    (added_txn_num_ s) true (store_status_ s).

Definition SetCompactType (type : CompactStatementType) s : TxnTableStore R :=
  set_compact (mkTxnCompactStore (compact_data_ (compact_state_ s)) type) s.

Definition AddWriteTxnNum s : TxnTableStore R := set_status true (store_status_ s) s.
Definition SetCompacting s : TxnTableStore R := set_status (added_txn_num_ s) kStoreCompacting s.
Definition SetCreatingIndex s : TxnTableStore R := set_status (added_txn_num_ s) kStoreCreatingIndex s.
End store.
End TxnTableStore.
