(* ===== verification/TableEntry.v ===== *)
(** * Tables: [src/src/storage/meta/entry/table_entry.cpp]

    A table is a map of segments. New rows go to its unsealed segment, which is sealed and
    followed by a new one when it is full; transactions import and compact whole segments.

    A segment object is known by its segment id: [unsealed_segment_] and the stores of transactions
    name objects of [segment_map_]. Two objects with one id are an error of the model ([Undefined]).
    Hash maps are visited in the order of [map_to_list]. The indexes of the table are left out: what
    they are told is in the requests. *)
From stdpp Require Import sorting.
From S2P Require Import Prelude Serialize DataType EntryList FileWorker BlockVersion Bitmask BlockEntry SegmentEntry Compaction TxnTableStore.
Import ErrorCode.
Import SegmentEntry(SegmentEntry, AppendState, mkAppendState, segment_id_).

Inductive TableStatus := kTableNone | kTableCreatingIndex | kTableCompacting.

#[export] Instance TableStatus_eq_dec : EqDecision TableStatus.
Proof. solve_decision. Defined.

Record TableEntry := mkTableEntry {
  table_deleted_ : bool;
  columns_ : list Z;
  row_count_ : Z;
  segment_map_ : gmap Z SegmentEntry;
  unsealed_segment_ : option Z;
  unsealed_id_ : Z;
  next_segment_id_ : Z;
  max_commit_ts_ : Z;
  compaction_alg_ : option DBTCompactionAlg;
  table_status_ : TableStatus;
  locked_ : bool;
  wait_lock_ : bool;
  write_txn_num_ : Z;
}.

(** What the segments ask of other components, with their ids. *)
Abbreviation requests := (list (Z * SegmentEntry.request)).

Module TableEntry.
Section setters.
Implicit Types (te : TableEntry).
Definition set_row_count n te : TableEntry :=
  mkTableEntry (table_deleted_ te) (columns_ te) n (segment_map_ te) (unsealed_segment_ te) (unsealed_id_ te) (next_segment_id_ te)
    (max_commit_ts_ te) (compaction_alg_ te) (table_status_ te) (locked_ te) (wait_lock_ te) (write_txn_num_ te).
Definition set_segment_map m te : TableEntry :=
  mkTableEntry (table_deleted_ te) (columns_ te) (row_count_ te) m (unsealed_segment_ te) (unsealed_id_ te) (next_segment_id_ te)
    (max_commit_ts_ te) (compaction_alg_ te) (table_status_ te) (locked_ te) (wait_lock_ te) (write_txn_num_ te).
Definition set_segment (sg : SegmentEntry) te : TableEntry := set_segment_map (<[segment_id_ sg := sg]> (segment_map_ te)) te.
Definition set_unsealed p id te : TableEntry :=
  mkTableEntry (table_deleted_ te) (columns_ te) (row_count_ te) (segment_map_ te) p id (next_segment_id_ te)
    (max_commit_ts_ te) (compaction_alg_ te) (table_status_ te) (locked_ te) (wait_lock_ te) (write_txn_num_ te).
Definition set_next n te : TableEntry :=
  mkTableEntry (table_deleted_ te) (columns_ te) (row_count_ te) (segment_map_ te) (unsealed_segment_ te) (unsealed_id_ te) n
    (max_commit_ts_ te) (compaction_alg_ te) (table_status_ te) (locked_ te) (wait_lock_ te) (write_txn_num_ te).
Definition set_max_commit ts te : TableEntry :=
  mkTableEntry (table_deleted_ te) (columns_ te) (row_count_ te) (segment_map_ te) (unsealed_segment_ te) (unsealed_id_ te) (next_segment_id_ te)
    ts (compaction_alg_ te) (table_status_ te) (locked_ te) (wait_lock_ te) (write_txn_num_ te).
Definition set_alg a te : TableEntry :=
  mkTableEntry (table_deleted_ te) (columns_ te) (row_count_ te) (segment_map_ te) (unsealed_segment_ te) (unsealed_id_ te) (next_segment_id_ te)
    (max_commit_ts_ te) a (table_status_ te) (locked_ te) (wait_lock_ te) (write_txn_num_ te).
Definition set_table_status status te : TableEntry :=
  mkTableEntry (table_deleted_ te) (columns_ te) (row_count_ te) (segment_map_ te) (unsealed_segment_ te) (unsealed_id_ te) (next_segment_id_ te)
    (max_commit_ts_ te) (compaction_alg_ te) status (locked_ te) (wait_lock_ te) (write_txn_num_ te).
Definition set_lock locked wait writers te : TableEntry :=
  mkTableEntry (table_deleted_ te) (columns_ te) (row_count_ te) (segment_map_ te) (unsealed_segment_ te) (unsealed_id_ te) (next_segment_id_ te)
    (max_commit_ts_ te) (compaction_alg_ te) (table_status_ te) locked wait writers.
End setters.

(** ** Construction and replay *)
Section table.
Context `{CompactionEnv}.
Implicit Types (te : TableEntry).

Definition INVALID_SEGMENT_ID : Z := 2 ^ 32 - 1.

(** The rows of a segment, as the compaction algorithm asks for them. *)
Definition actual_rows te (segment_id : Z) : Z :=
  match segment_map_ te !! segment_id with Some sg => SegmentEntry.actual_row_count_ sg | None => 0 end.

Definition no_rows (segment_id : Z) : Z := 0.
Definition NewTableEntry (config : DBTConfig) (is_delete : bool) (columns : list Z) (unsealed_id next_segment_id : Z) : res TableEntry :=
  let? alg := (if is_delete then Ok None
               else let? a := DBTCompactionAlg.Enable no_rows [] (DBTCompactionAlg.make config SegmentEntry.DEFAULT_SEGMENT_CAPACITY) in
                    Ok (Some a)) in
  Ok (mkTableEntry is_delete columns 0 ∅ None unsealed_id next_segment_id 0 alg kTableNone false false 0).

Definition GetNextSegmentID te : Z * TableEntry := (next_segment_id_ te, set_next (u32 (next_segment_id_ te + 1)) te).

Definition AddSegmentReplayWal (sg : SegmentEntry) te : TableEntry :=
  set_next (u32 (next_segment_id_ te + 1)) (set_segment sg te).
Definition AddSegmentReplayWalImport (sg : SegmentEntry) te : TableEntry :=
  let te := AddSegmentReplayWal sg te in
  set_row_count (u64 (row_count_ te + SegmentEntry.actual_row_count_ sg)) te.
Definition AddSegmentReplayWalCompact (sg : SegmentEntry) te : TableEntry := AddSegmentReplayWal sg te.

Definition AddSegmentReplay (sg : SegmentEntry) te : res TableEntry :=
  match segment_map_ te !! segment_id_ sg with
  | Some _ => Err Unrecoverable
  | None =>
      let te := set_segment sg te in
      Ok (if segment_id_ sg =? unsealed_id_ te then set_unsealed (Some (segment_id_ sg)) (unsealed_id_ te) te else te)
  end.

Definition UpdateSegmentReplay (new_segment : SegmentEntry) te : res TableEntry :=
  match segment_map_ te !! segment_id_ new_segment with
  | None => Err Unrecoverable
  | Some sg => Ok (set_segment (SegmentEntry.UpdateSegmentReplay new_segment sg) te)
  end.

(** The part about the segments of [UpdateEntryReplay]. *)
Definition UpdateEntryReplay (other te : TableEntry) : TableEntry :=
  mkTableEntry (table_deleted_ te) (columns_ other) (row_count_ other) (segment_map_ te) (unsealed_segment_ te) (unsealed_id_ other)
    (next_segment_id_ other) (max_commit_ts_ te) (compaction_alg_ te) (table_status_ te) (locked_ te) (wait_lock_ te) (write_txn_num_ te).

(** ** Readers *)
Definition GetSegmentEntry (segment_id : Z) te : option SegmentEntry := segment_map_ te !! segment_id.

Definition GetSegmentByID (segment_id ts : Z) te : option SegmentEntry :=
  match segment_map_ te !! segment_id with
  | None => None
  | Some sg => if ts <? SegmentEntry.min_row_ts_ sg then None else Some sg
  end.

Definition CheckAnyDelete (check_ts : Z) te : bool :=
  existsb (fun p => SegmentEntry.CheckAnyDelete p.2 check_ts) (map_to_list (segment_map_ te)).

(** [Import] and [AddCompactNew] insert a segment the same way. *)
Definition AddCompactNew (sg : SegmentEntry) te : res TableEntry :=
  match segment_map_ te !! segment_id_ sg with
  | Some _ => Err Unrecoverable
  | None => Ok (set_segment sg te)
  end.
Definition Import (sg : SegmentEntry) te : res TableEntry := AddCompactNew sg te.

(** ** Appends *)
Section writes.
Context {R : Type}.
Implicit Types (s : TxnTableStore R) (st : AppendState).

Definition total_count st : Z := foldl (fun n k => u64 (n + k)) 0 (SegmentEntry.blocks_ st).
Definition Finished st : bool := SegmentEntry.current_count_ st =? total_count st.

Definition Room (sg : SegmentEntry) : Z := i32 (SegmentEntry.row_capacity_ sg - SegmentEntry.row_count_ sg).

(** The locked part of a turn of [AppendData]: the segment to append to. *)
Definition open_segment te s : res (SegmentEntry * TableEntry * TxnTableStore R) :=
  let next s :=
    let new_segment_id := next_segment_id_ te in
    match segment_map_ te !! new_segment_id with
    | Some _ => Err Undefined
    | None =>
        let sg := SegmentEntry.NewSegmentEntry new_segment_id (columns_ te) in
        Ok (sg, set_segment sg (set_unsealed (Some new_segment_id) new_segment_id (set_next (u32 (new_segment_id + 1)) te)), s)
    end in
  match unsealed_segment_ te with
  | None => next s
  | Some id =>
      match segment_map_ te !! id with
      | None => Err Undefined
      | Some sg => if Room sg <=? 0 then next (TxnTableStore.AddSealedSegment id s) else Ok (sg, te, s)
      end
  end.

(** The requests of a segment that the store of the transaction takes. *)
Definition store_requests (segment_id : Z) (rs : list SegmentEntry.request) s : TxnTableStore R :=
  foldl (fun s r => match r with
                    | SegmentEntry.AddBlockStore block_id => TxnTableStore.AddBlockStore segment_id block_id s
                    | _ => s
                    end) s rs.

Fixpoint append_loop (fuel : nat) (txn_id commit_ts : Z) te s st
    : option (res (Z * TableEntry * TxnTableStore R * AppendState * requests)) :=
  if Finished st then Some (Ok (0, te, s, st, []))
  else
    match fuel with
    | O => None
    | S fuel =>
        match open_segment te s with
        | Err e => Some (Err e)
        | Ok (sg, te, s) =>
            match SegmentEntry.AppendData txn_id commit_ts sg st with
            | None => None
            | Some (Err e) => Some (Err e)
            | Some (Ok (actual_appended, sg, st, rs)) =>
                match append_loop fuel txn_id commit_ts (set_segment sg te) (store_requests (segment_id_ sg) rs s) st with
                | Some (Ok (n, te, s, st, more)) => Some (Ok (u64 (actual_appended + n), te, s, st, map (pair (segment_id_ sg)) rs ++ more))
                | r => r
                end
            end
        end
    end.

Definition imported_rows (flushed : list Z) te : res Z :=
  foldl (fun n id => let? n := n in
                     match segment_map_ te !! id with
                     | None => Err Undefined
                     | Some sg => Ok (u64 (n + SegmentEntry.row_count_ sg))
                     end) (Ok (row_count_ te)) flushed.

(** Each turn appends a row at least, so the rows that are left are enough fuel. *)
Definition AppendData (txn_id commit_ts : Z) te s : option (res (TableEntry * TxnTableStore R * requests)) :=
  if table_deleted_ te then Some (Err Unrecoverable)
  else
    match append_state_ s with
    | None => Some (Err Undefined)
    | Some st =>
        if Finished st then
          match SegmentEntry.blocks_ st with
          | [] => Some (let? n := imported_rows (flushed_segments_ s) te in Ok (set_row_count n te, s, []))
          | _ => Some (Ok (te, s, []))
          end
        else
          match append_loop (Z.to_nat (total_count st)) txn_id commit_ts te s st with
          | None => None
          | Some r => Some (let? (n, te, s, st, rs) := r in
                            Ok (set_row_count (u64 (row_count_ te + n)) te, TxnTableStore.set_append_state (Some st) s, rs))
          end
    end.

(** ** Deletes *)
Fixpoint delete_segments (txn_id commit_ts : Z) (rows : list (Z * gmap Z (list Z))) te s
    : res (bool * Z * TableEntry * TxnTableStore R * requests) :=
  match rows with
  | [] => Ok (true, 0, te, s, [])
  | (segment_id, block_row_hashmap) :: rows =>
      match GetSegmentByID segment_id commit_ts te with
      | None => Ok (false, 0, te, s, [])
      | Some sg =>
          let? (delete_row_n, sg, rs) := SegmentEntry.DeleteData txn_id commit_ts (map_to_list block_row_hashmap) sg in
          let? (ok, n, te, s, more) := delete_segments txn_id commit_ts rows (set_segment sg te) (store_requests segment_id rs s) in
          Ok (ok, u64 (delete_row_n + n), te, s, map (pair segment_id) rs ++ more)
      end
  end.

(** A segment that does not exist ends the loop with a status, before the row count is changed. *)
Definition Delete (txn_id commit_ts : Z) (delete_state : DeleteState) te s
    : res (Status * TableEntry * TxnTableStore R * requests) :=
  let? (ok, n, te, s, rs) := delete_segments txn_id commit_ts (map_to_list delete_state) te s in
  if ok then Ok (kOk, set_row_count (u64 (row_count_ te - n)) te, s, rs) else Ok (kTableNotExist, te, s, rs).
End writes.

Definition CheckDeleteConflict (delete_row_ids : list (Z * Z)) (txn_id : Z) te : res (bool * TableEntry) :=
  let ids := remove_dups (map fst delete_row_ids) in
  match mapM (fun id => segment_map_ te !! id) ids with
  | None => Err LengthErr
  | Some segments =>
      let '(conflict, segments) := SegmentEntry.CheckDeleteConflict segments txn_id in
      Ok (conflict, foldl (fun te sg => set_segment sg te) te segments)
  end.

(** ** Commits and rollbacks *)
Definition commit_segment (txn_id commit_ts : Z) (store : TxnSegmentStore) (deletes : option (list (Z * list Z))) (segment_id : Z) te
    : res (TableEntry * requests) :=
  match segment_map_ te !! segment_id with
  | None => Err Undefined
  | Some sg =>
      let? (sg, rs) := SegmentEntry.CommitSegment txn_id commit_ts (elements (store_blocks_ store)) (block_column_entries_ store) deletes sg in
      Ok (set_segment sg te, map (pair segment_id) rs)
  end.

Fixpoint commit_segments (txn_id commit_ts : Z) (stores : list (Z * TxnSegmentStore)) (delete_state : DeleteState) te
    : res (TableEntry * requests) :=
  match stores with
  | [] => Ok (te, [])
  | (segment_id, store) :: stores =>
      let? (te, rs) := commit_segment txn_id commit_ts store (map_to_list <$> delete_state !! segment_id) segment_id te in
      let? (te, more) := commit_segments txn_id commit_ts stores delete_state te in
      Ok (te, rs ++ more)
  end.
Definition CommitWrite (txn_id commit_ts : Z) (segment_stores : gmap Z TxnSegmentStore) (delete_state : DeleteState) te
    : res (TableEntry * requests) :=
  let? (te, rs) := commit_segments txn_id commit_ts (map_to_list segment_stores) delete_state te in
  Ok (set_max_commit (Z.max (max_commit_ts_ te) commit_ts) te, rs).

(** A change of segments by their ids. *)
Fixpoint change_segments (f : SegmentEntry -> res SegmentEntry) (ids : list Z) te : res TableEntry :=
  match ids with
  | [] => Ok te
  | id :: ids =>
      match segment_map_ te !! id with
      | None => Err Undefined
      | Some sg => let? sg := f sg in change_segments f ids (set_segment sg te)
      end
  end.

Fixpoint commit_compacted (txn_id commit_ts : Z) (data : list (Z * TxnSegmentStore * list Z)) te : res (TableEntry * requests) :=
  match data with
  | [] => Ok (te, [])
  | (new_segment, store, old_segments) :: data =>
      let? (te, rs) := commit_segment txn_id commit_ts store None new_segment te in
      let? te := change_segments (SegmentEntry.SetDeprecated commit_ts) old_segments te in
      let? (te, more) := commit_compacted txn_id commit_ts data te in
      Ok (te, rs ++ more)
  end.

Definition with_alg (f : DBTCompactionAlg -> res DBTCompactionAlg) te : res TableEntry :=
  match compaction_alg_ te with
  | None => Ok te
  | Some a => let? a := f a in Ok (set_alg (Some a) te)
  end.

Definition CommitCompact (txn_id commit_ts : Z) (compact_store : TxnCompactStore) te : res (TableEntry * requests) :=
  if decide (compact_type_ compact_store = kInvalidCompact) then Ok (te, [])
  else
    let? (te, rs) := commit_compacted txn_id commit_ts (compact_data_ compact_store) te in
    let te := set_max_commit (Z.max (max_commit_ts_ te) commit_ts) te in
    let? te := (match compact_type_ compact_store with
                | kAuto => with_alg (DBTCompactionAlg.CommitCompact txn_id) te
                | kManual => with_alg (DBTCompactionAlg.Enable (actual_rows te) []) te
                | kInvalidCompact => Ok te
                end) in
    Ok (te, rs).

Fixpoint rollback_compacted (data : list (Z * TxnSegmentStore * list Z)) te : res (TableEntry * requests) :=
  match data with
  | [] => Ok (te, [])
  | (new_segment, store, old_segments) :: data =>
      match segment_map_ te !! new_segment with
      | None => Err Undefined
      | Some sg =>
          let? (sg, rs) := SegmentEntry.RollbackBlocks (elements (store_blocks_ store)) sg in
          check? SegmentEntry.commit_ts_ sg =? UNCOMMIT_TS else Unrecoverable in
          let te := set_segment_map (delete new_segment (segment_map_ te)) te in
          let? te := change_segments SegmentEntry.RollbackCompact old_segments te in
          let? (te, more) := rollback_compacted data te in
          Ok (te, map (pair new_segment) rs ++ more)
      end
  end.

Definition RollbackCompact (txn_id : Z) (compact_store : TxnCompactStore) te : res (TableEntry * requests) :=
  let? (te, rs) := rollback_compacted (compact_data_ compact_store) te in
  let? te := (match compact_type_ compact_store with
              | kAuto => with_alg (DBTCompactionAlg.RollbackCompact txn_id) te
              | kManual => with_alg (DBTCompactionAlg.Enable (actual_rows te) (flat_map snd (compact_data_ compact_store))) te
              | kInvalidCompact => Ok te
              end) in
  Ok (te, rs).

(** Segments, one after the other; the ones that were not committed go. *)
Fixpoint RollbackWrite (segment_stores : list (Z * TxnSegmentStore)) te : res (TableEntry * requests) :=
  match segment_stores with
  | [] => Ok (te, [])
  | (segment_id, store) :: segment_stores =>
      match segment_map_ te !! segment_id with
      | None => Err Undefined
      | Some sg =>
          let? (sg, rs) := SegmentEntry.RollbackBlocks (elements (store_blocks_ store)) sg in
          let te := if SegmentEntry.commit_ts_ sg =? UNCOMMIT_TS
                    then set_segment_map (delete segment_id (segment_map_ te)) te else set_segment sg te in
          let? (te, more) := RollbackWrite segment_stores te in
          Ok (te, map (pair segment_id) rs ++ more)
      end
  end.

(** ** Compaction and cleanup *)
Definition AddSegmentToCompactionAlg (segment_id : Z) te : res TableEntry :=
  match compaction_alg_ te, segment_map_ te !! segment_id with
  | None, _ => Ok te
  | Some _, None => Err Undefined
  | Some a, Some sg =>
      check? negb (SegmentEntry.CheckDeprecate sg UNCOMMIT_TS) else Unrecoverable in
      let? a := DBTCompactionAlg.AddSegment (actual_rows te) segment_id a in Ok (set_alg (Some a) te)
  end.
Definition AddDeleteToCompactionAlg (segment_id : Z) te : res TableEntry :=
  with_alg (DBTCompactionAlg.DeleteInSegment (actual_rows te) segment_id) te.

(** Segments by increasing id. *)
Definition InitCompactionAlg (system_start_ts : Z) te : res TableEntry :=
  match compaction_alg_ te with
  | None => Err Undefined
  | Some a =>
      let active id := match segment_map_ te !! id with
                       | Some sg => negb (SegmentEntry.CheckDeprecate sg system_start_ts)
                       | None => false
                       end in
      let ids := List.filter active (merge_sort Z.le (elements (dom (segment_map_ te)))) in
      let? a := DBTCompactionAlg.add_all (actual_rows te) ids a in Ok (set_alg (Some a) te)
  end.

Definition CheckCompaction iteration (txn_id : Z) te : res (list Z * TableEntry) :=
  match compaction_alg_ te with
  | None => Ok ([], te)
  | Some a => let? (ids, a) := DBTCompactionAlg.CheckCompaction iteration (actual_rows te) txn_id a in Ok (ids, set_alg (Some a) te)
  end.

(** [None] is a call that waits. *)
Definition CompactPrepare te : option (bool * TableEntry) :=
  match compaction_alg_ te with
  | None => Some (false, te)
  | Some a => match DBTCompactionAlg.Disable a with Some a => Some (true, set_alg (Some a) te) | None => None end
  end.

Definition PickCleanup (visible_ts : Z) te : list (Z * SegmentEntry) * TableEntry :=
  let deprecated (p : Z * SegmentEntry) := SegmentEntry.CheckDeprecate p.2 visible_ts = true in
  (map_to_list (filter deprecated (segment_map_ te)),
   set_segment_map (filter (fun p => ~ deprecated p) (segment_map_ te)) te).

(** ** Locks and the status *)
Definition AddWriteTxnNum te : Status * TableEntry :=
  if locked_ te || wait_lock_ te then (kTxnRollback, te)
  else (kOk, set_lock (locked_ te) (wait_lock_ te) (u64 (write_txn_num_ te + 1)) te).
(** The answer tells whether a waiting thread is notified. *)
Definition DecWriteTxnNum te : res (bool * TableEntry) :=
  check? negb (write_txn_num_ te =? 0) else Unrecoverable in
  let n := write_txn_num_ te - 1 in
  Ok ((n =? 0) && wait_lock_ te, set_lock (locked_ te) (wait_lock_ te) n te).
(** [SetLocked] up to its wait, with whether it waits; [locked_after_wait] is the rest. *)
Definition SetLocked te : bool * TableEntry :=
  if locked_ te then (false, te)
  else if 0 <? write_txn_num_ te then (true, set_lock false true (write_txn_num_ te) te)
  else (false, set_lock true (wait_lock_ te) (write_txn_num_ te) te).
Definition locked_after_wait te : option TableEntry :=
  if write_txn_num_ te =? 0 then Some (set_lock true false 0 te) else None.
Definition SetUnlock te : TableEntry := if locked_ te then set_lock false (wait_lock_ te) (write_txn_num_ te) te else te.

Definition SetCompact te : bool * TableEntry :=
  if decide (table_status_ te = kTableCreatingIndex) then (false, te) else (true, set_table_status kTableCompacting te).
Definition SetCreatingIndex te : bool * TableEntry :=
  if decide (table_status_ te = kTableCompacting) then (false, te) else (true, set_table_status kTableCreatingIndex te).
Definition SetCompactDone te : res TableEntry :=
  check? bool_decide (table_status_ te <> kTableCreatingIndex) else Unrecoverable in Ok (set_table_status kTableNone te).
Definition SetCreateIndexDone te : res TableEntry :=
  check? bool_decide (table_status_ te <> kTableCompacting) else Unrecoverable in Ok (set_table_status kTableNone te).
End table.
End TableEntry.
