(* ===== verification/TxnStore.v ===== *)
(** * Committing and checking the changes of a transaction: [src/src/storage/txn/txn_store.cpp]

    [PrepareCommit] and [Commit] carry the changes of a [TxnTableStore] into its table;
    [CheckConflict] compares them with the table and with the changes of another transaction. *)
From stdpp Require Import sorting.
From S2P Require Import Prelude Serialize DataType EntryList FileWorker BlockVersion Bitmask BlockEntry SegmentEntry Compaction TxnTableStore TableEntry.
Import ErrorCode.
Import SegmentEntry(SegmentEntry, AppendState, mkAppendState, segment_id_).

Module TableStore.
Section store.
Context `{CompactionEnv} {R : Type}.
Implicit Types (s other : TxnTableStore R) (te : TableEntry).

(** ** The calls that change the table at once *)
Definition Import (sg : SegmentEntry) te s : res (Status * TableEntry * TxnTableStore R) :=
  let? s := TxnTableStore.AddSegmentStore sg s in
  let s := TxnTableStore.AddSealedSegment (segment_id_ sg) s in
  let s := TxnTableStore.add_flushed (segment_id_ sg) s in
  let? te := TableEntry.Import sg te in
  Ok (kOk, te, s).

Fixpoint compact_loop (segment_data : list (SegmentEntry * list Z)) te s : res (TableEntry * TxnTableStore R) :=
  match segment_data with
  | [] => Ok (te, s)
  | (new_segment, old_segments) :: segment_data =>
      let c := compact_state_ s in
      let s := TxnTableStore.set_compact
                 (mkTxnCompactStore (compact_data_ c ++ [(segment_id_ new_segment, TxnSegmentStore.AddSegmentStore new_segment, old_segments)])
                    (compact_type_ c)) s in
      let s := TxnTableStore.set_segments
                 (foldl (fun m id => TxnTableStore.emplace id TxnSegmentStore.empty m) (txn_segments_store_ s) old_segments) s in
      let? s := TxnTableStore.AddSegmentStore new_segment s in
      let s := TxnTableStore.AddSealedSegment (segment_id_ new_segment) s in
      let s := TxnTableStore.add_flushed (segment_id_ new_segment) s in
      let? te := TableEntry.AddCompactNew new_segment te in
      compact_loop segment_data te s
  end.
Definition Compact (segment_data : list (SegmentEntry * list Z)) (type : CompactStatementType) te s
    : res (Status * TableEntry * TxnTableStore R) :=
  check? bool_decide (compact_type_ (compact_state_ s) = type) else Unrecoverable in
  let? (te, s) := compact_loop segment_data te s in
  Ok (kOk, te, TxnTableStore.set_has_update s).

(** ** The commit *)

(** The segments that were written to files get their commit timestamp; [segment_infos] are the ids
    of the segments in the log entry. *)
Fixpoint flush_segments (commit_ts : Z) (segment_infos flushed : list Z) te : res (TableEntry * requests) :=
  match flushed with
  | [] => Ok (te, [])
  | id :: flushed =>
      check? bool_decide (id ∈ segment_infos) else Unrecoverable in
      match segment_map_ te !! id with
      | None => Err Undefined
      | Some sg =>
          let '(sg, rs) := SegmentEntry.CommitFlushed commit_ts sg in
          let? (te, more) := flush_segments commit_ts segment_infos flushed (TableEntry.set_segment sg te) in
          Ok (te, map (pair id) rs ++ more)
      end
  end.
Definition PrepareCommit1 (commit_ts : Z) (segment_infos : list Z) te s : res (TableEntry * requests) :=
  flush_segments commit_ts segment_infos (flushed_segments_ s) te.

Definition append_state_of (blocks : list (DataBlock R)) : AppendState := mkAppendState (map DataBlock.row_count blocks) 0 0 0 [].

Definition seal (sg : SegmentEntry) : res SegmentEntry :=
  let '(ok, sg) := SegmentEntry.SetSealed sg in check? ok else Unrecoverable in Ok sg.

(** The status that [Delete] returns is dropped. *)
Definition PrepareCommit (txn_id commit_ts : Z) te s : option (res (TableEntry * TxnTableStore R * requests)) :=
  let s := TxnTableStore.set_append_state (Some (append_state_of (blocks_ s))) s in
  match TableEntry.AppendData txn_id commit_ts te s with
  | None => None
  | Some r => Some (
      let? (te, s, rs1) := r in
      let? (te, rs2) := (if decide (compact_type_ (compact_state_ s) = kInvalidCompact) then Ok (te, [])
                         else TableEntry.CommitCompact txn_id commit_ts (compact_state_ s) te) in
      let? (_, te, s, rs3) := TableEntry.Delete txn_id commit_ts (delete_state_ s) te s in
      let? te := TableEntry.change_segments seal (elements (set_sealed_segments_ s)) te in
      Ok (te, s, rs1 ++ rs2 ++ rs3))
  end.

(** The part of [Commit] for the rows. *)
Definition Commit (txn_id commit_ts : Z) te s : res (TableEntry * requests) :=
  TableEntry.CommitWrite txn_id commit_ts (txn_segments_store_ s) (delete_state_ s) te.

Fixpoint add_sealed (ids : list Z) te : res TableEntry :=
  match ids with
  | [] => Ok te
  | id :: ids => let? te := TableEntry.AddSegmentToCompactionAlg id te in add_sealed ids te
  end.
Fixpoint add_deletes (ids : list Z) te : res TableEntry :=
  match ids with
  | [] => Ok te
  | id :: ids => let? te := TableEntry.AddDeleteToCompactionAlg id te in add_deletes ids te
  end.
Definition MaintainCompactionAlg te s : res (TableEntry * TxnTableStore R) :=
  let? te := add_sealed (elements (set_sealed_segments_ s)) te in
  let? te := add_deletes (elements (dom (delete_state_ s))) te in
  Ok (te, TxnTableStore.set_has_update s).

(** [Rollback] without the indexes: rows that were appended cannot be taken back. *)
Definition Rollback (txn_id : Z) te s : res (TableEntry * TxnTableStore R * requests) :=
  match append_state_ s with
  | Some _ => Err Unrecoverable
  | None =>
      let? (te, rs) := TableEntry.RollbackCompact txn_id (compact_state_ s) te in
      Ok (te, TxnTableStore.clear_blocks s, rs)
  end.

Definition TryRevert te s : res (TableEntry * TxnTableStore R) :=
  let? te := (match store_status_ s with
              | kStoreCompacting => TableEntry.SetCompactDone te
              | kStoreCreatingIndex => TableEntry.SetCreateIndexDone te
              | kStoreNone => Ok te
              end) in
  let? te := (if added_txn_num_ s then let? (_, te) := TableEntry.DecWriteTxnNum te in Ok te else Ok te) in
  Ok (te, TxnTableStore.set_status false kStoreNone s).

(** ** Conflicts with the table *)

(** [get_index] is the answer of the catalog for an index at the commit timestamp. *)
Definition index_conflict (get_index : string -> option Z) s : bool :=
  existsb (fun '(index_name, index_store) => negb (bool_decide (get_index index_name = Some (table_index_entry_ index_store))))
    (map_to_list (txn_indexes_store_ s)).

Definition delete_conflict (commit_ts : Z) te s : bool :=
  existsb (fun '(segment_id, block_map) =>
    match TableEntry.GetSegmentEntry segment_id te with
    | None => false
    | Some sg => existsb (fun '(block_id, block_offsets) =>
        match SegmentEntry.GetBlockEntryByID block_id sg with
        | None => false
        | Some b => BlockEntry.CheckDeleteConflict b block_offsets commit_ts
        end) (map_to_list block_map)
    end) (map_to_list (delete_state_ s)).

Definition CheckConflict (get_index : string -> option Z) (commit_ts : Z) te s : bool :=
  index_conflict get_index s || delete_conflict commit_ts te s.

(** ** Conflicts with another transaction *)
Definition index_names (indexes : gmap Z (string * Z)) : gset string := list_to_set (map (fun p => p.2.1) (map_to_list indexes)).

Definition indexes_conflict other s : bool :=
  let other_set := index_names (txn_indexes_ other) in
  existsb (fun p => bool_decide (p.2.1 ∈ other_set)) (map_to_list (txn_indexes_ s)) ||
  existsb (fun '(index_name, index_store) =>
    bool_decide (index_name ∈ other_set) ||
    match txn_indexes_store_ other !! index_name with
    | None => false
    | Some other_store =>
        existsb (fun p => bool_decide (p.1 ∈ dom (index_entry_map_ other_store))) (map_to_list (index_entry_map_ index_store))
    end) (map_to_list (txn_indexes_store_ s)).

(** The loop over the offsets of one block: [j] moves over the other ones and never back. *)
Fixpoint skip_smaller (block_offset : Z) (other_offsets : list Z) : list Z :=
  match other_offsets with
  | o :: rest => if o <? block_offset then skip_smaller block_offset rest else other_offsets
  | [] => []
  end.
Fixpoint offsets_conflict (block_offsets other_offsets : list Z) : bool :=
  match block_offsets with
  | [] => false
  | block_offset :: block_offsets =>
      match skip_smaller block_offset other_offsets with
      | [] => false
      | o :: rest => if o =? block_offset then true else offsets_conflict block_offsets (o :: rest)
      end
  end.

Definition rows_conflict (other_rows rows : DeleteState) : bool :=
  existsb (fun '(segment_id, block_map) =>
    match other_rows !! segment_id with
    | None => false
    | Some other_map => existsb (fun '(block_id, block_offsets) =>
        match other_map !! block_id with
        | None => false
        | Some other_offsets => offsets_conflict block_offsets other_offsets
        end) (map_to_list block_map)
    end) (map_to_list rows).

(** Whether there is a reason; its text is left out. *)
Definition CheckConflict_store other s : bool :=
  indexes_conflict other s || rows_conflict (delete_state_ other) (delete_state_ s).
End store.
End TableStore.

(** ** [TxnStore]: the changes of a transaction to databases and tables *)
Record TxnStore (R : Type) := mkTxnStore {
  store_seq_n_ : Z;
  txn_dbs_ : gmap Z Z;
  txn_tables_ : gmap Z (string * Z);
  txn_tables_store_ : gmap string (TxnTableStore R);
}.
Arguments mkTxnStore {R} _ _ _ _.
Arguments store_seq_n_ {R} _.
Arguments txn_dbs_ {R} _.
Arguments txn_tables_ {R} _.
Arguments txn_tables_store_ {R} _.

Module TxnStore.
Definition seq_le {A : Type} (p q : A * Z) : Prop := p.2 <= q.2.
#[export] Instance seq_le_dec {A : Type} (p q : A * Z) : Decision (seq_le p q).
Proof. unfold seq_le. apply _. Defined.

Section store.
Context `{CompactionEnv} {R : Type}.
Implicit Types (x other : TxnStore R).

Definition make : TxnStore R := mkTxnStore 0 ∅ ∅ ∅.

Definition AddDBStore (db_entry : Z) x : TxnStore R :=
  mkTxnStore (store_seq_n_ x + 1) (TxnTableStore.emplace db_entry (store_seq_n_ x) (txn_dbs_ x)) (txn_tables_ x) (txn_tables_store_ x).
Definition DropDBStore (db_entry : Z) x : TxnStore R :=
  match txn_dbs_ x !! db_entry with
  | Some _ => mkTxnStore (store_seq_n_ x) (delete db_entry (txn_dbs_ x)) (txn_tables_ x) (txn_tables_store_ x)
  | None => AddDBStore db_entry x
  end.

(** A table is its entry and its name. *)
Definition AddTableStore (table_entry : Z) (table_name : string) x : TxnStore R :=
  mkTxnStore (store_seq_n_ x + 1) (txn_dbs_ x) (TxnTableStore.emplace table_entry (table_name, store_seq_n_ x) (txn_tables_ x))
    (txn_tables_store_ x).
Definition DropTableStore (table_entry : Z) (table_name : string) x : TxnStore R :=
  match txn_tables_ x !! table_entry with
  | Some _ => mkTxnStore (store_seq_n_ x) (txn_dbs_ x) (delete table_entry (txn_tables_ x)) (delete table_name (txn_tables_store_ x))
  | None => AddTableStore table_entry table_name x
  end.

Definition GetTxnTableStore (ptr_seq_n table_entry : Z) (table_name : string) x : TxnTableStore R * TxnStore R :=
  match txn_tables_store_ x !! table_name with
  | Some s => (s, x)
  | None =>
      let s := TxnTableStore.make ptr_seq_n table_entry in
      (s, mkTxnStore (store_seq_n_ x) (txn_dbs_ x) (txn_tables_ x) (<[table_name := s]> (txn_tables_store_ x)))
  end.
Definition GetExistTxnTableStore (table_name : string) x : res (TxnTableStore R) :=
  match txn_tables_store_ x !! table_name with Some s => Ok s | None => Err Unrecoverable end.

(** The operations of a commit on databases and tables come in the order of the calls. *)
Definition by_seq {A : Type} (l : list (A * Z)) : list A := map fst (merge_sort seq_le l).
Definition db_operations x : list Z := by_seq (map_to_list (txn_dbs_ x)).
Definition table_operations x : list Z := by_seq (map (fun p => (p.1, p.2.2)) (map_to_list (txn_tables_ x))).

(** [get_table] is the answer of the catalog for a table at the commit timestamp, [table] the object. *)
Definition CheckConflict (get_table : string -> option Z) (get_index : string -> string -> option Z) (table : Z -> TableEntry)
    (commit_ts : Z) x : bool :=
  existsb (fun '(table_name, s) =>
    negb (bool_decide (get_table table_name = Some (table_entry_ s))) ||
    TableStore.CheckConflict (get_index table_name) commit_ts (table (table_entry_ s)) s) (map_to_list (txn_tables_store_ x)).

Definition CheckConflict_txn other x : bool :=
  existsb (fun '(table_name, s) =>
    existsb (fun p => bool_decide (table_name = p.2.1)) (map_to_list (txn_tables_ other)) ||
    match txn_tables_store_ other !! table_name with
    | None => false
    | Some other_store => TableStore.CheckConflict_store other_store s
    end) (map_to_list (txn_tables_store_ x)).

Definition ReadOnly x : bool :=
  bool_decide (txn_dbs_ x = ∅) && bool_decide (txn_tables_ x = ∅) &&
  forallb (fun p => negb (has_update_ p.2)) (map_to_list (txn_tables_store_ x)).

Definition put_store (table_name : string) (s : TxnTableStore R) x : TxnStore R :=
  mkTxnStore (store_seq_n_ x) (txn_dbs_ x) (txn_tables_ x) (<[table_name := s]> (txn_tables_store_ x)).
Definition SetCompacting (ptr_seq_n table_entry : Z) (table_name : string) x : TxnStore R :=
  let '(s, x) := GetTxnTableStore ptr_seq_n table_entry table_name x in put_store table_name (TxnTableStore.SetCompacting s) x.
Definition SetCreatingIndex (ptr_seq_n table_entry : Z) (table_name : string) x : TxnStore R :=
  let '(s, x) := GetTxnTableStore ptr_seq_n table_entry table_name x in put_store table_name (TxnTableStore.SetCreatingIndex s) x.

(** *** All tables of a transaction; [tables] are the objects by their pointers *)
Definition tables := gmap Z TableEntry.

Fixpoint prepare_tables1 (commit_ts : Z) (segment_infos : list Z) (stores : list (string * TxnTableStore R)) (ts : tables) : res tables :=
  match stores with
  | [] => Ok ts
  | (_, s) :: stores =>
      match ts !! table_entry_ s with
      | None => Err Undefined
      | Some te =>
          let? (te, _) := TableStore.PrepareCommit1 commit_ts segment_infos te s in
          prepare_tables1 commit_ts segment_infos stores (<[table_entry_ s := te]> ts)
      end
  end.
Definition PrepareCommit1 (commit_ts : Z) (segment_infos : list Z) x (ts : tables) : res tables :=
  prepare_tables1 commit_ts segment_infos (map_to_list (txn_tables_store_ x)) ts.

Fixpoint prepare_tables (txn_id commit_ts : Z) (stores : list (string * TxnTableStore R)) x (ts : tables) : option (res (TxnStore R * tables)) :=
  match stores with
  | [] => Some (Ok (x, ts))
  | (table_name, s) :: stores =>
      match ts !! table_entry_ s with
      | None => Some (Err Undefined)
      | Some te =>
          match TableStore.PrepareCommit txn_id commit_ts te s with
          | None => None
          | Some (Err e) => Some (Err e)
          | Some (Ok (te, s', _)) => prepare_tables txn_id commit_ts stores (put_store table_name s' x) (<[table_entry_ s := te]> ts)
          end
      end
  end.
Definition PrepareCommit (txn_id commit_ts : Z) x (ts : tables) : option (res (TxnStore R * tables)) :=
  prepare_tables txn_id commit_ts (map_to_list (txn_tables_store_ x)) x ts.

Fixpoint commit_tables (txn_id commit_ts : Z) (stores : list (string * TxnTableStore R)) (ts : tables) : res tables :=
  match stores with
  | [] => Ok ts
  | (_, s) :: stores =>
      match ts !! table_entry_ s with
      | None => Err Undefined
      | Some te =>
          let? (te, _) := TableStore.Commit txn_id commit_ts te s in
          commit_tables txn_id commit_ts stores (<[table_entry_ s := te]> ts)
      end
  end.
(** The tables, and the entries of databases and tables that are committed to the catalog after them. *)
Definition CommitBottom (txn_id commit_ts : Z) x (ts : tables) : res (tables * list Z * list Z) :=
  let? ts := commit_tables txn_id commit_ts (map_to_list (txn_tables_store_ x)) ts in
  Ok (ts, map fst (map_to_list (txn_dbs_ x)), map fst (map_to_list (txn_tables_ x))).

Fixpoint maintain_tables (stores : list (string * TxnTableStore R)) x (ts : tables) : res (TxnStore R * tables) :=
  match stores with
  | [] => Ok (x, ts)
  | (table_name, s) :: stores =>
      match ts !! table_entry_ s with
      | None => Err Undefined
      | Some te =>
          let? (te, s') := TableStore.MaintainCompactionAlg te s in
          maintain_tables stores (put_store table_name s' x) (<[table_entry_ s := te]> ts)
      end
  end.
Definition MaintainCompactionAlg x (ts : tables) : res (TxnStore R * tables) :=
  maintain_tables (map_to_list (txn_tables_store_ x)) x ts.

Fixpoint revert_tables (stores : list (string * TxnTableStore R)) x (ts : tables) : res (TxnStore R * tables) :=
  match stores with
  | [] => Ok (x, ts)
  | (table_name, s) :: stores =>
      match ts !! table_entry_ s with
      | None => Err Undefined
      | Some te =>
          let? (te, s') := TableStore.TryRevert te s in
          revert_tables stores (put_store table_name s' x) (<[table_entry_ s := te]> ts)
      end
  end.
Definition RevertTableStatus x (ts : tables) : res (TxnStore R * tables) := revert_tables (map_to_list (txn_tables_store_ x)) x ts.
End store.
End TxnStore.
