(* ===== verification/TxnStoreHistory.v ===== *)
(** * What a transaction collects for a table

    The store after appends and deletes holds the rows in the order of the calls, cut into data
    blocks, and the deleted rows by segment and block. *)
From S2P Require Import Prelude Serialize DataType EntryList FileWorker BlockVersion Bitmask BlockEntry SegmentEntry SegmentVisibility TxnTableStore.
Import ErrorCode.
Import BlockEntry(DEFAULT_BLOCK_CAPACITY).

Section collected.
Context {R : Type} (types : list DataType).
Implicit Types (s : TxnTableStore R) (b : DataBlock R) (added : list R) (dels : list (Z * Z)).

(** The calls of a transaction that inserts and deletes: the rows it added, the row ids it deleted. *)
Inductive collected : TxnTableStore R -> list R -> list (Z * Z) -> Prop :=
| collected_make ptr_seq_n table_entry : collected (TxnTableStore.make ptr_seq_n table_entry) [] []
| collected_append s b s' added dels : collected s added dels -> Z.of_nat (length (rows_ b)) <= DEFAULT_BLOCK_CAPACITY ->
    TxnTableStore.Append types b s = Ok (kOk, s') -> collected s' (added ++ rows_ b) dels
| collected_delete s row_ids s' added dels : collected s added dels ->
    TxnTableStore.Delete row_ids s = Ok (kOk, s') -> collected s' added (dels ++ row_ids).

(** ** Rows *)
Definition rows_of s : list R := concat (map rows_ (blocks_ s)).

Record block_ok b : Prop := {
  bo_types : column_types_ b = types;
  bo_capacity : capacity_ b = DEFAULT_BLOCK_CAPACITY;
  bo_rows : Z.of_nat (length (rows_ b)) <= DEFAULT_BLOCK_CAPACITY;
}.

(** The store has blocks, and the last one is the current one; segments and compactions are not in it yet. *)
Record dml_store s : Prop := {
  ds_blocks : Forall block_ok (blocks_ s);
  ds_current : blocks_ s <> [] -> current_block_id_ s = Z.of_nat (length (blocks_ s)) - 1;
  ds_full : Forall (fun b => Z.of_nat (length (rows_ b)) = DEFAULT_BLOCK_CAPACITY) (removelast (blocks_ s));
  ds_segments : txn_segments_store_ s = ∅;
  ds_sealed : set_sealed_segments_ s = ∅;
  ds_flushed : flushed_segments_ s = [];
  ds_compact : compact_type_ (compact_state_ s) = kInvalidCompact;
}.

Lemma row_count_ok b : Z.of_nat (length (rows_ b)) <= DEFAULT_BLOCK_CAPACITY -> DataBlock.row_count b = Z.of_nat (length (rows_ b)).
Proof. intros H. apply wrap_id. unfold unsigned_range, DEFAULT_BLOCK_CAPACITY in *. lia. Qed.

Lemma AppendWith_Ok other from count b b' : DataBlock.AppendWith other from count b = Ok b' -> 0 <= from -> 0 <= count -> block_ok b ->
  block_ok b' /\ rows_ b' = rows_ b ++ take (Z.to_nat count) (drop (Z.to_nat from) (rows_ other)).
Proof.
  unfold DataBlock.AppendWith. intros E Hf Hc [H1 H2 H3].
  destruct (_ =? _); [|done]. destruct (negb _) eqn:E1; [|done]. destruct (_ <=? _) eqn:E2; [|done]. injection E as <-. split; [|done].
  apply negb_true_iff, Z.ltb_ge in E1. split; cbn; [done|done|]. rewrite length_app, length_take, length_drop. apply Z.leb_le in E2. lia.
Qed.

Lemma concat_set_last (bs : list (DataBlock R)) b' : concat (map rows_ (bs ++ [b'])) = concat (map rows_ bs) ++ rows_ b'.
Proof. rewrite map_app, concat_app. cbn. by rewrite app_nil_r. Qed.

(** Rows are added at the end, whether or not they fit into the current block. *)
Lemma Append_ok s s' b : dml_store s -> Z.of_nat (length (rows_ b)) <= DEFAULT_BLOCK_CAPACITY -> TxnTableStore.Append types b s = Ok (kOk, s') ->
  dml_store s' /\ rows_of s' = rows_of s ++ rows_ b /\ delete_state_ s' = delete_state_ s.
Proof.
  intros Hs Hb E. unfold TxnTableStore.Append in E. destruct (negb _); [done|]. destruct (negb _); [done|].
  apply res_bind_Ok in E as ([blocks id] & E0 & E).
  assert (Hcur : exists bs c, blocks = bs ++ [c] /\ id = Z.of_nat (length bs) /\ Forall block_ok blocks /\
    Forall (fun b => Z.of_nat (length (rows_ b)) = DEFAULT_BLOCK_CAPACITY) bs /\ concat (map rows_ blocks) = rows_of s).
  { unfold rows_of. pose proof (ds_current s Hs) as Hc. pose proof (ds_blocks s Hs) as Hf. pose proof (ds_full s Hs) as Hfull. destruct (blocks_ s) as [|b0 bs0] eqn:Eb.
    - apply res_bind_Ok in E0 as (c & Ec & E0). injection E0 as <- <-. unfold DataBlock.Init in Ec. destruct (negb _); [|done]. injection Ec as <-.
      exists [], (mkDataBlock types [] DataBlock.DEFAULT_VECTOR_SIZE). split_and!; try done. apply Forall_singleton. by split.
    - injection E0 as <- <-. destruct (exists_last (l := b0 :: bs0)) as (bs & c & Ebs); [done|]. rewrite Ebs in *. exists bs, c.
      rewrite removelast_last in Hfull. split_and!; try done. rewrite Hc, length_app by (by destruct bs). cbn. lia. }
  destruct Hcur as (bs & c & -> & -> & Hf & Hfull & Erows). rewrite Nat2Z.id, list_lookup_middle in E by done.
  apply Forall_app in Hf as [Hf Hc]. rewrite Forall_singleton in Hc. pose proof (bo_rows c Hc) as Hcr. rewrite !row_count_ok in E by done.
  rewrite (bo_capacity c Hc) in E. rewrite concat_set_last in Erows. destruct Hs as [_ _ _ Hs1 Hs2 Hs3 Hs4].
  destruct (Z.ltb_spec DEFAULT_BLOCK_CAPACITY (Z.of_nat (length (rows_ c)) + Z.of_nat (length (rows_ b)))) as [Hbig|Hfit].
  - rewrite (wrap_id 64 (DEFAULT_BLOCK_CAPACITY - _)) in E by (unfold unsigned_range, DEFAULT_BLOCK_CAPACITY in *; lia).
    rewrite (wrap_id 64 (Z.of_nat (length (rows_ b)) - _)) in E by (unfold unsigned_range, DEFAULT_BLOCK_CAPACITY in *; lia).
    apply res_bind_Ok in E as (c' & E1 & E). apply res_bind_Ok in E as (n & En & E). apply res_bind_Ok in E as (n' & E2 & E). injection E as <-.
    unfold DataBlock.Init in En. destruct (negb _); [|done]. injection En as <-.
    apply AppendWith_Ok in E1 as [Hc' R1]; [|lia|lia|done]. apply AppendWith_Ok in E2 as [Hn' R2]; [|lia|lia|by split].
    rewrite insert_app_r_alt, Nat.sub_diag by done. cbn [list_insert insert]. split_and!; [|unfold rows_of at 1; cbn [blocks_ TxnTableStore.set_blocks]|done].
    + split; cbn; try done.
      * repeat apply Forall_app_2; try done; by apply Forall_singleton.
      * intros _. rewrite !length_app. cbn. lia.
      * rewrite removelast_last. apply Forall_app_2; [done|]. apply Forall_singleton. rewrite R1, length_app, length_take, length_drop. lia.
    + rewrite !concat_set_last, R1, R2, <- Erows. cbn [rows_ app]. rewrite drop_0, <- !app_assoc. f_equal. f_equal.
      rewrite (take_ge (drop _ _)) by (rewrite length_drop; lia). by rewrite take_drop.
  - apply res_bind_Ok in E as (c' & E1 & E). injection E as <-. apply AppendWith_Ok in E1 as [Hc' R1]; [|lia|lia|done].
    rewrite insert_app_r_alt, Nat.sub_diag by done. cbn [list_insert insert]. split_and!; [|unfold rows_of at 1; cbn [blocks_ TxnTableStore.set_blocks]|done].
    + split; cbn; try done.
      * repeat apply Forall_app_2; try done; by apply Forall_singleton.
      * intros _. rewrite !length_app. cbn. lia.
      * by rewrite removelast_last.
    + rewrite concat_set_last, R1, <- Erows, drop_0, take_ge by lia. by rewrite <- app_assoc.
Qed.

(** ** Deletes *)
Definition block_of_row (o : Z) : Z := u16 (o / DEFAULT_BLOCK_CAPACITY).
Definition offset_of_row (o : Z) : Z := u16 (o mod DEFAULT_BLOCK_CAPACITY).

(** The offsets that the row ids give for a block. *)
Definition slice dels (id k : Z) : list Z :=
  omap (fun p : Z * Z => if decide (p.1 = id /\ block_of_row p.2 = k) then Some (offset_of_row p.2) else None) dels.

Record groups (D : DeleteState) dels : Prop := {
  gr_slices id k : D !! id ≫= (fun m => m !! k) = match slice dels id k with [] => None | l => Some l end;
  gr_used id m : D !! id = Some m -> m <> ∅;
}.

Lemma slice_snoc dels id o id' k : slice (dels ++ [(id, o)]) id' k =
  slice dels id' k ++ (if decide (id = id' /\ block_of_row o = k) then [offset_of_row o] else []).
Proof. unfold slice. rewrite omap_app. cbn. by case_decide. Qed.

Lemma groups_snoc D dels id o : groups D dels ->
  let m := default ∅ (D !! id) in
  groups (<[id := <[block_of_row o := default [] (m !! block_of_row o) ++ [offset_of_row o]]> m]> D) (dels ++ [(id, o)]).
Proof.
  intros [Hs Hu] m. assert (Em : forall k, m !! k = D !! id ≫= fun m => m !! k) by (intros k; subst m; by destruct (D !! id)).
  split.
  - intros id' k. rewrite slice_snoc. destruct (decide (id = id')) as [<-|Hne].
    + rewrite lookup_insert_eq. cbn. destruct (decide (block_of_row o = k)) as [<-|Hk].
      * rewrite lookup_insert_eq, decide_True by done. rewrite Em, Hs. by destruct (slice dels id _).
      * rewrite lookup_insert_ne, decide_False, app_nil_r by naive_solver. by rewrite Em.
    + rewrite lookup_insert_ne, decide_False, app_nil_r by naive_solver. apply Hs.
  - intros id' m'. destruct (decide (id = id')) as [<-|Hne].
    + rewrite lookup_insert_eq. intros [= <-]. apply insert_non_empty.
    + rewrite lookup_insert_ne by done. apply Hu.
Qed.

Lemma delete_rows_ok row_ids D D' dels : TxnTableStore.delete_rows row_ids D = Ok D' -> groups D dels -> groups D' (dels ++ row_ids).
Proof.
  revert D dels. induction row_ids as [|[id o] row_ids IH]; intros D dels E Hg; cbn [TxnTableStore.delete_rows] in E.
  - injection E as <-. by rewrite app_nil_r.
  - cbv zeta in E. destruct (negb _); [|done]. rewrite cons_middle, app_assoc. apply (IH _ _ E). by apply groups_snoc.
Qed.

(** The row ids of a store can be read back from its groups. *)
Lemma slice_elem dels id k x : x ∈ slice dels id k <-> exists o, (id, o) ∈ dels /\ block_of_row o = k /\ offset_of_row o = x.
Proof.
  unfold slice. rewrite list_elem_of_omap. split.
  - intros ([id' o] & Hin & E). case_decide as Hd; [|done]. cbn in *. destruct Hd as [<- Hk]. injection E as E. by exists o.
  - intros (o & Hin & Hk & Hx). exists (id, o). split; [done|]. rewrite decide_True by done. cbn. by rewrite Hx.
Qed.

Lemma row_split o : offset_ok o -> block_of_row o = o / DEFAULT_BLOCK_CAPACITY /\ offset_of_row o = o mod DEFAULT_BLOCK_CAPACITY.
Proof.
  intros Ho. destruct (offset_split o Ho) as (H1 & H2 & _). unfold block_of_row, offset_of_row.
  rewrite !wrap_id by (unfold unsigned_range, DEFAULT_BLOCK_CAPACITY in *; lia). done.
Qed.

Lemma row_of_block o o' : offset_ok o -> offset_ok o' -> block_of_row o = block_of_row o' -> offset_of_row o = offset_of_row o' -> o = o'.
Proof.
  intros Ho Ho'. destruct (row_split o Ho) as [-> ->], (row_split o' Ho') as [-> ->].
  destruct (offset_split o Ho) as (_ & _ & E), (offset_split o' Ho') as (_ & _ & E'). congruence.
Qed.

Lemma slice_nodup dels id k : NoDup dels -> Forall (fun p => offset_ok p.2) dels -> NoDup (slice dels id k).
Proof.
  induction dels as [|[id' o] dels IH]; intros Hnd Ho; [constructor|]. apply NoDup_cons in Hnd as [Hin Hnd]. apply Forall_cons_1 in Ho as [Ho0 Ho].
  unfold slice. cbn [omap list_omap]. fold (slice dels id k). case_decide as Hd; [|by apply IH]. destruct Hd as [E Hk]. cbn in E, Hk. subst id'.
  constructor; [|by apply IH]. intros (o' & Hin' & Hk' & Ho')%slice_elem. rewrite Forall_forall in Ho. specialize (Ho _ Hin'). cbn in Ho0, Ho.
  apply Hin. rewrite (row_of_block o o'); try done; cbn in *; congruence.
Qed.

(** The invariant of collected stores. *)
Lemma collected_ok s added dels : collected s added dels -> dml_store s /\ rows_of s = added /\ groups (delete_state_ s) dels.
Proof.
  induction 1 as [p t|s b s' added dels _ (H1 & H2 & H3) Hb E|s row_ids s' added dels _ (H1 & H2 & H3) E].
  - split_and!; [by split|done|]. split; [|done]. intros id k. cbn. by rewrite lookup_empty.
  - destruct (Append_ok _ _ _ H1 Hb E) as (H1' & -> & ->). by rewrite H2.
  - unfold TxnTableStore.Delete in E. apply res_bind_Ok in E as (D & E1 & E). injection E as <-. split_and!.
    + destruct H1. by split.
    + done.
    + by eapply delete_rows_ok.
Qed.

(** C23. Whatever a transaction inserts and deletes, its store is well typed: every data block has the
    column types of the table and at most 8192 rows, all but the last one are full, and together they
    hold the inserted rows in the order of the calls, none lost at a block boundary. A row id is among
    the deletes of a block exactly when a call named it. *)
Theorem store_blocks_typed s added dels : collected s added dels ->
  Forall block_ok (blocks_ s) /\
  Forall (fun b => Z.of_nat (length (rows_ b)) = DEFAULT_BLOCK_CAPACITY) (removelast (blocks_ s)) /\
  concat (map rows_ (blocks_ s)) = added /\
  (Forall (fun p => offset_ok p.2) dels -> forall id o, offset_ok o ->
    (id, o) ∈ dels <-> exists m offsets, delete_state_ s !! id = Some m /\ m !! (o / DEFAULT_BLOCK_CAPACITY) = Some offsets /\
      o mod DEFAULT_BLOCK_CAPACITY ∈ offsets).
Proof.
  intros (Hs & Hrows & [Hg _])%collected_ok. split_and!; [apply Hs|apply Hs|done|]. intros Hall id o Ho.
  destruct (row_split o Ho) as [Eb Eo]. specialize (Hg id (o / DEFAULT_BLOCK_CAPACITY)).
  assert (Hin : (id, o) ∈ dels <-> o mod DEFAULT_BLOCK_CAPACITY ∈ slice dels id (o / DEFAULT_BLOCK_CAPACITY)).
  { rewrite slice_elem. split; [intros H; by exists o|]. intros (o' & H & E1 & E2). rewrite Forall_forall in Hall. specialize (Hall _ H). cbn in Hall.
    rewrite (row_of_block o o'); try done; congruence. }
  rewrite Hin. split.
  - intros H. destruct (slice dels id _) as [|x l] eqn:E; [by apply elem_of_nil in H|]. destruct (delete_state_ s !! id) as [m|]; [|done].
    cbn in Hg. by exists m, (x :: l).
  - intros (m & offs & Hm & Hk & H). rewrite Hm in Hg. cbn in Hg. rewrite Hk in Hg. destruct (slice dels id _); [done|]. by injection Hg as <-.
Qed.
End collected.

(** Two inserts across the end of a block. *)
Definition demo_column : list DataType := [mkDataType 3 None].
Definition demo_first : DataBlock Z := mkDataBlock demo_column (repeat 7 (Z.to_nat 8190)) DEFAULT_BLOCK_CAPACITY.
Definition demo_second : DataBlock Z := mkDataBlock demo_column [1; 2; 3; 4; 5] DEFAULT_BLOCK_CAPACITY.
Definition demo_calls (l : list (DataBlock Z)) (s : TxnTableStore Z) : TxnTableStore Z :=
  foldl (fun s b => match TxnTableStore.Append demo_column b s with Ok (_, s) => s | Err _ => s end) s l.

Lemma store_blocks_typed_witness :
  concat (map rows_ (blocks_ (demo_calls [demo_first; demo_second] (TxnTableStore.make 0 1)))) = repeat 7 (Z.to_nat 8190) ++ [1; 2; 3; 4; 5].
Proof.
  apply (store_blocks_typed demo_column _ _ []).
  apply (collected_append demo_column (demo_calls [demo_first] (TxnTableStore.make 0 1)) demo_second _ (repeat 7 (Z.to_nat 8190)) []);
    [|vm_compute; congruence|vm_compute; reflexivity].
  apply (collected_append demo_column (TxnTableStore.make 0 1) demo_first _ [] []); [apply collected_make|vm_compute; congruence|vm_compute; reflexivity].
Defined.
