(* ===== verification/SegmentWrites.v ===== *)
(** * Deletes and commits in a segment

    What [DeleteData] and [CommitSegment] do to the rows of a segment, block by block. *)
From stdpp Require Import sorting.
From S2P Require Import Prelude Serialize FileWorker BlockVersion Bitmask BlockEntry BlockHistory BlockFlush SegmentEntry SegmentHistory.
Import BlockEntry(BlockEntry, DEFAULT_BLOCK_CAPACITY, block_row_count_, block_id_).
Import SegmentEntry.

(** The blocks after deletes and after the commit of blocks. *)
Fixpoint kill_blocks (txn_id ts : Z) (m : list (Z * list Z)) (ss : list block) : option (list block) :=
  match m with
  | [] => Some ss
  | (block_id, offsets) :: m =>
      match ss !! Z.to_nat block_id with
      | Some s => match kill ts offsets (rows s) with
                  | Some rs => kill_blocks txn_id ts m (<[Z.to_nat block_id := mkBlock rs (room s) txn_id ts]> ss)
                  | None => None
                  end
      | None => None
      end
  end.

Definition commit_block (ts : Z) (s : block) : block := mkBlock (rows s) (room s) 0 (if newest s =? 0 then ts else newest s).
Definition commit_ids (ts : Z) (ids : list Z) (ss : list block) : list block :=
  foldl (fun ss id => alter (commit_block ts) (Z.to_nat id) ss) ss ids.

Definition writes (txn_id ts : Z) (s : block) : Prop := may_write s txn_id = true /\ newest s <= ts.

Definition entries_ok (m : list (Z * list Z)) : Prop :=
  Forall (fun p => 0 <= p.1 /\ p.2 <> [] /\ Forall (fun o => 0 <= o) p.2) m.

(** The segment with the live rows counted. *)
Definition recount (sg : SegmentEntry) (ss : list block) : SegmentEntry := set_rows (row_count_ sg) (live_rows (seg_rows ss)) sg.

(** Fields that deletes leave alone. *)
Definition same_but_blocks (sg sg' : SegmentEntry) : Prop :=
  segment_id_ sg' = segment_id_ sg /\ row_capacity_ sg' = row_capacity_ sg /\ columns_ sg' = columns_ sg /\
  status_ sg' = status_ sg /\ first_delete_ts_ sg' = first_delete_ts_ sg /\ row_count_ sg' = row_count_ sg /\
  min_row_ts_ sg' = min_row_ts_ sg /\ max_row_ts_ sg' = max_row_ts_ sg /\ commit_ts_ sg' = commit_ts_ sg /\
  compact_state_data_ sg' = compact_state_data_ sg /\ delete_txns_ sg' = delete_txns_ sg /\ deprecate_ts_ sg' = deprecate_ts_ sg.

Lemma alter_insert {A : Type} (f : A -> A) (l : list A) i x : l !! i = Some x -> alter f i l = <[i := f x]> l.
Proof.
  intros Hx. apply list_eq. intros j. destruct (decide (i = j)) as [<-|].
  - by rewrite list_lookup_alter_eq, Hx, list_lookup_insert_eq by (by eapply lookup_lt_Some).
  - by rewrite list_lookup_alter_ne, list_lookup_insert_ne.
Qed.
Lemma alter_none {A : Type} (f : A -> A) (l : list A) i : l !! i = None -> alter f i l = l.
Proof.
  intros Hx. apply list_eq. intros j. destruct (decide (i = j)) as [<-|]; [by rewrite list_lookup_alter_eq, Hx|by rewrite list_lookup_alter_ne].
Qed.

Section rows.
Implicit Types (sg : SegmentEntry) (ss : list block) (s : block) (b : BlockEntry) (rs : list row).

Lemma live_insert rs i r r' : rs !! i = Some r ->
  live_rows (<[i := r']> rs) = live_rows rs - live_rows [r] + live_rows [r'].
Proof.
  intros Hi. assert (E : live_rows rs = live_rows (take i rs ++ [r] ++ drop (S i) rs)) by (f_equal; symmetry; by apply take_drop_middle).
  rewrite E, (insert_take_drop rs i r') by (by eapply lookup_lt_Some).
  rewrite (cons_middle r'), !live_rows_app. lia.
Qed.

Lemma kill_live ts offsets rs rs' : kill ts offsets rs = Some rs' ->
  live_rows rs' = live_rows rs - Z.of_nat (length offsets) /\ length rs' = length rs.
Proof.
  revert rs. induction offsets as [|i offsets IH]; intros rs E; cbn in E.
  - injection E as <-. cbn. lia.
  - destruct (rs !! Z.to_nat i) as [[t [d|]]|] eqn:Hi; [done| |done]. apply IH in E as [E1 E2].
    rewrite (live_insert _ _ _ _ Hi) in E1. rewrite length_insert in E2. cbn [length].
    assert (H1 : live_rows [mkRow t None] = 1) by done. assert (H2 : live_rows [mkRow t (Some ts)] = 0) by done. lia.
Qed.

Lemma kill_range ts offsets rs rs' : kill ts offsets rs = Some rs' -> Forall (fun o => 0 <= o) offsets ->
  Forall (fun i => 0 <= i < Z.of_nat (length rs)) offsets.
Proof.
  revert rs. induction offsets as [|i offsets IH]; intros rs E H; cbn in E; [done|]. apply Forall_cons_1 in H as [H0 H].
  destruct (rs !! Z.to_nat i) as [[t [d|]]|] eqn:Hi; [done| |done]. apply lookup_lt_Some in Hi as Hl.
  constructor; [lia|]. specialize (IH _ E H). by rewrite length_insert in IH.
Qed.

Lemma seg_rows_split ss i s : ss !! i = Some s -> seg_rows ss = seg_rows (take i ss) ++ rows s ++ seg_rows (drop (S i) ss).
Proof.
  intros Hi. unfold seg_rows. rewrite <- (take_drop_middle ss i s Hi) at 1. by rewrite map_app, concat_app.
Qed.

Lemma seg_rows_insert ss i s s' : ss !! i = Some s ->
  seg_rows (<[i := s']> ss) = seg_rows (take i ss) ++ rows s' ++ seg_rows (drop (S i) ss).
Proof.
  intros Hi. rewrite (insert_take_drop ss i s') by (by eapply lookup_lt_Some). unfold seg_rows. by rewrite map_app, concat_app.
Qed.

Lemma full_insert ss i s s' : ss !! i = Some s -> room s' = room s -> full_but_last ss -> full_but_last (<[i := s']> ss).
Proof.
  revert i. induction ss as [|s0 ss IH]; intros [|i] Hi Hr Hf; try done; cbn in *.
  - injection Hi as ->. by rewrite Hr.
  - destruct Hf as [Hf Hf']. split; [|by apply IH]. destruct Hf as [-> |Hf]; [done|by right].
Qed.

(** Replacing a block by one with as many rows and as much room. *)
Lemma replace_block sg ss i b b' s s' : seg_ok sg ss -> block_entries_ sg !! i = Some b -> ss !! i = Some s ->
  block_fits b' s' -> block_id_ b' = block_id_ b -> room s' = room s -> length (rows s') = length (rows s) ->
  let sg' := set_blocks (<[i := b']> (block_entries_ sg)) sg in
  let ss' := <[i := s']> ss in
  seg_ok (recount sg' ss') ss' /\ live_rows (seg_rows ss') = live_rows (seg_rows ss) - live_rows (rows s) + live_rows (rows s').
Proof.
  intros [Hbs Hids Hfull Hcount Hlive Hcap Hbound] Hb Hs Hf Hid Hroom Hlen sg' ss'. subst sg' ss'. split.
  - split; cbn; try done.
    + by apply Forall2_insert.
    + intros j c Hj. destruct (decide (i = j)) as [<-|]; [|rewrite list_lookup_insert_ne in Hj by done; by apply Hids].
      rewrite list_lookup_insert_eq in Hj by (by eapply lookup_lt_Some). injection Hj as <-. rewrite Hid. by apply Hids.
    + by eapply full_insert.
    + rewrite Hcount, (seg_rows_split ss i s Hs), (seg_rows_insert ss i s s' Hs), !length_app. lia.
  - rewrite (seg_rows_split ss i s Hs) at 1. rewrite (seg_rows_insert ss i s s' Hs), !live_rows_app. lia.
Qed.

Lemma DeleteData_ok txn_id ts offsets b s rs : commit_time ts -> block_fits b s -> writes txn_id ts s -> offsets <> [] ->
  Forall (fun o => 0 <= o) offsets -> kill ts offsets (rows s) = Some rs ->
  exists b', BlockEntry.DeleteData txn_id ts offsets b = Ok (Z.of_nat (length offsets), b') /\
    block_fits b' (mkBlock rs (room s) txn_id ts) /\ block_id_ b' = block_id_ b /\ BlockEntry.commit_ts_ b' = BlockEntry.commit_ts_ b.
Proof.
  intros Hts [Hr Hc] [Hw Hn] Hne Ho Hk.
  pose proof (delete_refines b s txn_id ts offsets Hr (conj Hts (conj Hne (kill_range _ _ _ _ Hk Ho)))) as H.
  cbn [apply_change] in H. rewrite Hw, (proj2 (Z.leb_le _ _) Hn), Hk in H. cbn [andb] in H. destruct H as (b' & E & Hr').
  unfold exec in E. apply res_bind_Ok in E as ([n b1] & E & E1). injection E1 as <-. exists b1.
  unfold BlockEntry.DeleteData in *. destruct (_ || _); [|done]. apply res_bind_Ok in E as (v & Ev & E). rewrite Ev. cbn [res_bind].
  destruct (negb _); [|done]. injection E as <- <-. split; [done|]. split; [by split|done].
Qed.
End rows.

(** ** Deletes *)
Section deletes.
Context (txn_id ts : Z) (Hts : commit_time ts).
Implicit Types (sg : SegmentEntry) (ss : list block) (m : list (Z * list Z)).

Lemma rows_of_block ss i s : ss !! i = Some s -> 0 <= live_rows (rows s) <= live_rows (seg_rows ss).
Proof.
  intros Hi. rewrite (seg_rows_split ss i s Hi), !live_rows_app.
  pose proof (live_rows_le (rows s)). pose proof (live_rows_le (seg_rows (take i ss))). pose proof (live_rows_le (seg_rows (drop (S i) ss))). lia.
Qed.

Lemma kill_blocks_live m ss ss' : kill_blocks txn_id ts m ss = Some ss' ->
  live_rows (seg_rows ss') = live_rows (seg_rows ss) - foldr (fun p n => Z.of_nat (length p.2) + n) 0 m /\ length ss' = length ss.
Proof.
  revert ss. induction m as [|[k offs] m IH]; intros ss E; cbn in *; [injection E as <-; lia|].
  destruct (ss !! Z.to_nat k) as [s|] eqn:Hs; [|done]. destruct (kill ts offs (rows s)) as [rs|] eqn:Hk; [|done].
  apply IH in E as [E1 E2]. rewrite length_insert in E2. split; [|done]. destruct (kill_live _ _ _ _ Hk) as [Hl _].
  rewrite E1, (seg_rows_insert _ _ _ _ Hs), (seg_rows_split ss _ _ Hs), !live_rows_app. cbn. lia.
Qed.

Lemma kill_blocks_other m ss ss' i : kill_blocks txn_id ts m ss = Some ss' -> Forall (fun p => 0 <= p.1) m -> Z.of_nat i ∉ m.*1 ->
  ss' !! i = ss !! i.
Proof.
  revert ss. induction m as [|[k offs] m IH]; intros ss E Hp Hi; cbn in *; [by injection E as <-|].
  apply Forall_cons_1 in Hp as [Hk Hp]. cbn in Hk.
  destruct (ss !! Z.to_nat k) as [s|]; [|done]. destruct (kill ts offs (rows s)) as [rs|]; [|done].
  apply not_elem_of_cons in Hi as [Hi1 Hi2]. rewrite (IH _ E Hp Hi2). apply list_lookup_insert_ne. lia.
Qed.

Lemma kill_blocks_writes m ss ss' : kill_blocks txn_id ts m ss = Some ss' -> Forall (writes txn_id ts) ss -> Forall (writes txn_id ts) ss'.
Proof.
  revert ss. induction m as [|[k offs] m IH]; intros ss E Hw; cbn in *; [by injection E as <-|].
  destruct (ss !! Z.to_nat k) as [s|] eqn:Hs; [|done]. destruct (kill ts offs (rows s)) as [rs|]; [|done].
  apply (IH _ E). apply Forall_insert; [done|]. split; cbn; [|lia]. unfold may_write. cbn. rewrite Z.eqb_refl. apply orb_true_r.
Qed.

Lemma same_but_blocks_refl sg : same_but_blocks sg sg.
Proof. by repeat split. Qed.
Lemma same_but_blocks_trans sg1 sg2 sg3 : same_but_blocks sg1 sg2 -> same_but_blocks sg2 sg3 -> same_but_blocks sg1 sg3.
Proof. unfold same_but_blocks. intros H1 H2. decompose [and] H1. decompose [and] H2. repeat split; congruence. Qed.

Lemma recount_recount sg ss ss' : recount (recount sg ss) ss' = recount sg ss'.
Proof. done. Qed.

Lemma delete_blocks_ok m sg ss ss' : seg_ok (recount sg ss) ss -> Forall (writes txn_id ts) ss -> entries_ok m ->
  kill_blocks txn_id ts m ss = Some ss' ->
  exists sg', delete_blocks txn_id ts m sg =
      Ok (live_rows (seg_rows ss) - live_rows (seg_rows ss'), sg', map (fun p => AddBlockStore p.1) m) /\
    seg_ok (recount sg' ss') ss' /\ same_but_blocks sg sg' /\ actual_row_count_ sg' = actual_row_count_ sg /\
    map BlockEntry.commit_ts_ (block_entries_ sg') = map BlockEntry.commit_ts_ (block_entries_ sg).
Proof.
  revert sg ss. induction m as [|[k offs] m IH]; intros sg ss Hok Hw Hm Hk; cbn [delete_blocks map] in *.
  { injection Hk as <-. rewrite Z.sub_diag. exists sg. by split_and!. }
  apply Forall_cons_1 in Hm as [(Hk0 & Hne & Ho) Hm]. cbn [fst snd] in *. pose proof (kill_blocks_live _ _ _ Hk) as [Hl _]. cbn in Hk, Hl.
  destruct (ss !! Z.to_nat k) as [s|] eqn:Hs; [|done]. destruct (kill ts offs (rows s)) as [rs|] eqn:Hkill; [|done].
  pose proof (Forall2_lookup_r _ _ _ _ _ (so_blocks _ _ Hok) Hs) as (b & Hb & Hf). cbn in Hb. rewrite Hb.
  pose proof (proj1 (Forall_lookup _ _) Hw _ _ Hs) as Hws.
  destruct (DeleteData_ok txn_id ts offs b s rs Hts Hf Hws Hne Ho Hkill) as (b' & -> & Hf' & Hid & Hc). cbn [res_bind].
  destruct (kill_live _ _ _ _ Hkill) as [Hlive Hlen]. pose proof (rows_of_block _ _ _ Hs) as Hrs.
  pose proof (live_rows_le rs) as Hrs'. pose proof (live_rows_le (rows s)) as Hrs2. destruct (fits_length _ _ Hf) as (Hfl & Hfr & _).
  rewrite (proj2 Hf'), (proj2 (Z.ltb_ge _ _)) by lia. cbn [negb].
  destruct (replace_block (recount sg ss) ss (Z.to_nat k) b b' s (mkBlock rs (room s) txn_id ts) Hok Hb Hs Hf' Hid eq_refl Hlen) as [Hok1 Hlive1].
  set (sg1 := set_blocks (<[Z.to_nat k := b']> (block_entries_ sg)) sg).
  assert (Hw1 : Forall (writes txn_id ts) (<[Z.to_nat k := mkBlock rs (room s) txn_id ts]> ss)).
  { apply Forall_insert; [done|]. split; cbn; [|lia]. unfold may_write. cbn. rewrite Z.eqb_refl. apply orb_true_r. }
  destruct (IH sg1 _ Hok1 Hw1 Hm Hk) as (sg' & -> & Hok' & Hsame & Hact & Hcts). cbn [res_bind rows] in *.
  pose proof (live_rows_le (seg_rows ss')). pose proof (live_rows_le (seg_rows ss)).
  pose proof (so_bound _ _ Hok) as Hbd. destruct (so_capacity _ _ Hok) as (c & Hc1 & Hc2). pose proof (so_count _ _ Hok) as Hcnt. cbn in Hbd, Hc1, Hcnt.
  assert (0 <= foldr (fun p n => Z.of_nat (length p.2) + n) 0 m) by (clear; induction m; cbn; lia).
  unfold DEFAULT_BLOCK_CAPACITY in *.
  rewrite wrap_id by (unfold unsigned_range; lia).
  exists sg'. split_and!; try done.
  - do 3 f_equal. lia.
  - rewrite Hcts. change (BlockEntry.commit_ts_ <$> <[Z.to_nat k := b']> (block_entries_ sg) = BlockEntry.commit_ts_ <$> block_entries_ sg).
    rewrite list_fmap_insert, Hc. apply list_insert_id. by rewrite list_lookup_fmap, Hb.
Qed.

Lemma seg_ok_recount sg ss : seg_ok sg ss -> recount sg ss = sg.
Proof. intros H. unfold recount. rewrite <- (so_live _ _ H). by destruct sg. Qed.

Lemma DeleteData_seg m sg ss ss' : seg_ok sg ss -> Forall (writes txn_id ts) ss -> entries_ok m ->
  kill_blocks txn_id ts m ss = Some ss' ->
  exists sg', DeleteData txn_id ts m sg =
      Ok (live_rows (seg_rows ss) - live_rows (seg_rows ss'), sg', map (fun p => AddBlockStore p.1) m) /\
    seg_ok sg' ss' /\ same_but_blocks sg sg' /\
    map BlockEntry.commit_ts_ (block_entries_ sg') = map BlockEntry.commit_ts_ (block_entries_ sg).
Proof.
  intros Hok Hw Hm Hk. destruct (delete_blocks_ok m sg ss ss') as (sg1 & E & Hok1 & Hsame & Hact & Hcts); try done.
  { by rewrite seg_ok_recount. }
  unfold DeleteData. rewrite E. cbn [res_bind]. unfold DecreaseRemainRow. rewrite Hact, (so_live _ _ Hok).
  pose proof (live_rows_le (seg_rows ss')) as Hl'. pose proof (live_rows_le (seg_rows ss)) as Hl. rewrite (proj2 (Z.ltb_ge _ _)) by lia. cbn [negb res_bind].
  pose proof (so_bound _ _ Hok) as Hbd. destruct (so_capacity _ _ Hok) as (c & Hc1 & Hc2). pose proof (so_count _ _ Hok) as Hcnt.
  pose proof (so_count _ _ Hok1) as Hcnt1. pose proof (so_bound _ _ Hok1) as Hbd1. cbn in Hcnt1, Hbd1. unfold DEFAULT_BLOCK_CAPACITY in *.
  replace (live_rows (seg_rows ss) - (live_rows (seg_rows ss) - live_rows (seg_rows ss'))) with (live_rows (seg_rows ss')) by lia.
  unfold same_but_blocks in Hsame. decompose [and] Hsame.
  rewrite wrap_id by (unfold unsigned_range; lia). eexists. split; [done|]. split; [exact Hok1|]. split; [|done]. by split_and!.
Qed.
End deletes.

(** ** Commits *)
Section commits.
Context (txn_id ts : Z) (Hts : commit_time ts).
Implicit Types (sg : SegmentEntry) (ss : list block) (s : block) (b : BlockEntry) (ids : list Z).

Lemma commit_block_writes s : may_write (commit_block ts s) txn_id = true.
Proof. done. Qed.

Lemma CommitBlock_ok b s : block_fits b s -> may_write s txn_id = true ->
  exists b' rs, BlockEntry.CommitBlock txn_id ts b = Ok (b', rs) /\ block_fits b' (commit_block ts s) /\ block_id_ b' = block_id_ b /\
    BlockEntry.commit_ts_ b' = (if BlockEntry.Committed b then BlockEntry.commit_ts_ b else ts).
Proof.
  intros [Hr Hc] Hw. pose proof (commit_refines b s txn_id ts Hr Hts) as H. cbn [apply_change] in H. rewrite Hw in H.
  destruct H as (b' & E & Hr'). unfold exec in E. apply res_bind_Ok in E as ([b1 rs] & E & E1). injection E1 as <-. exists b1, rs.
  split; [done|]. unfold BlockEntry.CommitBlock in E. destruct (_ || _); [|done]. destruct (negb (_ <? _)); [|done].
  destruct (BlockEntry.Committed b); injection E as <- <-; by split_and!.
Qed.

Definition ids_ok ids ss : Prop := Forall (fun id => 0 <= id /\ exists s, ss !! Z.to_nat id = Some s /\ may_write s txn_id = true) ids.

Lemma ids_ok_alter ids ss i : ids_ok ids ss -> ids_ok ids (alter (commit_block ts) i ss).
Proof.
  intros H. eapply Forall_impl; [exact H|]. intros id (H0 & s & Hs & Hw). split; [done|]. destruct (decide (i = Z.to_nat id)) as [->|].
  - exists (commit_block ts s). split; [|done]. by rewrite list_lookup_alter_eq, Hs.
  - exists s. by rewrite list_lookup_alter_ne.
Qed.

Definition committed_by (ids : list Z) (blocks blocks' : list BlockEntry) : Prop := forall i b', blocks' !! i = Some b' ->
  exists b, blocks !! i = Some b /\ block_id_ b' = block_id_ b /\
    BlockEntry.commit_ts_ b' = (if bool_decide (Z.of_nat i ∈ ids) && negb (BlockEntry.Committed b) then ts else BlockEntry.commit_ts_ b).

Lemma commit_blocks_ok ids blocks ss : Forall2 block_fits blocks ss -> ids_ok ids ss ->
  exists blocks' rs, commit_blocks txn_id ts ids blocks = Ok (blocks', rs) /\ Forall2 block_fits blocks' (commit_ids ts ids ss) /\
    committed_by ids blocks blocks'.
Proof.
  revert blocks ss. induction ids as [|id ids IH]; intros blocks ss Hf Hids; cbn [commit_blocks].
  { exists blocks, []. split_and!; try done. intros i b Hi. exists b. by split_and!. }
  apply Forall_cons_1 in Hids as [(H0 & s & Hs & Hw) Hids]. destruct (Forall2_lookup_r _ _ _ _ _ Hf Hs) as (b & Hb & Hfb). rewrite Hb.
  destruct (CommitBlock_ok b s Hfb Hw) as (b' & rs & -> & Hfb' & Hid & Hc). cbn [res_bind].
  assert (Ess : alter (commit_block ts) (Z.to_nat id) ss = <[Z.to_nat id := commit_block ts s]> ss) by (by apply alter_insert).
  destruct (IH (<[Z.to_nat id := b']> blocks) (alter (commit_block ts) (Z.to_nat id) ss)) as (blocks' & rs' & -> & Hf' & Hcb).
  { rewrite Ess. by apply Forall2_insert. }
  { by apply ids_ok_alter. }
  cbn [res_bind]. eexists blocks', _. split; [done|]. split; [done|]. intros i c Hi. destruct (Hcb i c Hi) as (b1 & Hb1 & Hid1 & Hc1).
  destruct (decide (Z.to_nat id = i)) as [<-|Hne].
  - rewrite list_lookup_insert_eq in Hb1 by (by eapply lookup_lt_Some). injection Hb1 as <-. exists b. split; [done|]. split; [congruence|].
    rewrite Z2Nat.id in * by done. rewrite Hc1, Hc. rewrite (bool_decide_eq_true_2 (id ∈ id :: ids)) by (by left). cbn [andb].
    unfold BlockEntry.Committed in *. rewrite Hc. unfold commit_time in Hts.
    destruct (Z.eqb_spec (BlockEntry.commit_ts_ b) UNCOMMIT_TS) as [E|E]; cbn [negb].
    + rewrite (proj2 (Z.eqb_neq ts UNCOMMIT_TS)) by lia. cbn. by rewrite andb_false_r.
    + rewrite (proj2 (Z.eqb_neq _ _) E). cbn. by rewrite andb_false_r.
  - rewrite list_lookup_insert_ne in Hb1 by done. exists b1. split_and!; try done. rewrite Hc1.
    rewrite (bool_decide_ext (Z.of_nat i ∈ id :: ids) (Z.of_nat i ∈ ids)); [done|]. rewrite elem_of_cons. split; [|by right]. intros [E|E]; [lia|done].
Qed.

Lemma commit_ids_rows ids ss : map rows (commit_ids ts ids ss) = map rows ss.
Proof.
  revert ss. induction ids as [|id ids IH]; intros ss; [done|]. cbn. etransitivity; [apply IH|]. apply list_eq. intros i.
  rewrite !list_lookup_fmap. destruct (decide (Z.to_nat id = i)) as [<-|].
  - rewrite list_lookup_alter_eq. by destruct (ss !! Z.to_nat id).
  - by rewrite list_lookup_alter_ne.
Qed.

Lemma commit_ids_lookup ids ss i s' : commit_ids ts ids ss !! i = Some s' ->
  exists s, ss !! i = Some s /\ rows s' = rows s /\ room s' = room s /\
    (Z.of_nat i ∈ ids -> holder s' = 0) /\ (holder s = 0 -> holder s' = 0) /\ (newest s <= ts -> newest s' <= ts).
Proof.
  revert ss. induction ids as [|id ids IH]; intros ss Hi; cbn in Hi.
  { exists s'. split_and!; try done. by intros ?%elem_of_nil. }
  destruct (IH _ Hi) as (s1 & Hs1 & Hr & Hroom & H1 & H2 & H3). destruct (decide (Z.to_nat id = i)) as [<-|Hne].
  - rewrite list_lookup_alter_eq in Hs1. apply fmap_Some in Hs1 as (s & Hs & ->). exists s. cbn in *. split_and!; auto.
    intros Hn. apply H3. destruct (newest s =? 0); lia.
  - rewrite list_lookup_alter_ne in Hs1 by done. exists s1. split_and!; auto. intros [E|E]%elem_of_cons; [lia|auto].
Qed.

Lemma commit_ids_full ids ss : full_but_last ss -> full_but_last (commit_ids ts ids ss).
Proof.
  revert ss. induction ids as [|id ids IH]; intros ss H; [done|]. cbn. apply IH. destruct (ss !! Z.to_nat id) as [s|] eqn:Hs.
  - rewrite (alter_insert _ _ _ s) by done. by eapply full_insert.
  - by rewrite alter_none.
Qed.

(** A compaction that runs or has closed the segment. *)
Definition compact_consistent sg : Prop :=
  compact_state_data_ sg <> None -> status_ sg = kCompacting \/ status_ sg = kNoDelete.

Lemma CommitSegment_ok ids cols deletes sg ss : seg_ok sg ss -> ids_ok ids ss -> status_ sg <> kDeprecated -> compact_consistent sg ->
  max_row_ts_ sg <= ts ->
  exists sg' rs, CommitSegment txn_id ts ids cols deletes sg = Ok (sg', rs) /\ seg_ok sg' (commit_ids ts ids ss) /\
    segment_id_ sg' = segment_id_ sg /\ columns_ sg' = columns_ sg /\ row_capacity_ sg' = row_capacity_ sg /\ status_ sg' = status_ sg /\
    compact_consistent sg' /\ max_row_ts_ sg' = ts /\ min_row_ts_ sg' = Z.min (min_row_ts_ sg) ts /\
    committed_by ids (block_entries_ sg) (block_entries_ sg').
Proof.
  intros Hok Hids Hst Hcc Hmax. unfold CommitSegment. rewrite bool_decide_eq_false_2 by done.
  assert (Hd : exists sg1 rs, match deletes with None => Ok (sg, []) | Some m => commit_deletes txn_id ts m sg end = Ok (sg1, rs) /\
    seg_ok sg1 ss /\ segment_id_ sg1 = segment_id_ sg /\ columns_ sg1 = columns_ sg /\ row_capacity_ sg1 = row_capacity_ sg /\
    status_ sg1 = status_ sg /\ compact_state_data_ sg1 = compact_state_data_ sg /\ max_row_ts_ sg1 = max_row_ts_ sg /\
    min_row_ts_ sg1 = min_row_ts_ sg /\ block_entries_ sg1 = block_entries_ sg).
  { destruct deletes as [m|]; [|by exists sg, []]. unfold commit_deletes. cbn.
    assert (Hsame : forall first txns, seg_ok (set_delete_txns txns (set_times (min_row_ts_ sg) (max_row_ts_ sg) first (commit_ts_ sg) sg)) ss)
      by (intros; destruct Hok; by split).
    destruct (compact_state_data_ sg) as [d|] eqn:Ed; cbn.
    - rewrite bool_decide_eq_true_2 by (apply Hcc; by rewrite Ed). eexists _, _. split; [done|]. by split_and!.
    - eexists _, _. split; [done|]. by split_and!. }
  destruct Hd as (sg1 & rs1 & -> & Hok1 & E1 & E2 & E3 & E4 & E5 & E6 & E7 & E8). cbn [res_bind].
  rewrite (proj2 (Z.ltb_ge _ _)) by lia. cbn [negb].
  destruct (commit_blocks_ok ids (block_entries_ sg1) ss (so_blocks _ _ Hok1) Hids) as (blocks' & rs & E & Hf & Hcb). cbn [block_entries_ set_times]. rewrite E. cbn [res_bind].
  eexists _, _. split; [done|]. cbn. rewrite E8 in *. split_and!; try congruence; try done.
  - destruct Hok1 as [Hbs Hbi Hfull Hcount Hlive Hcap Hbound]. unfold seg_rows in *.
    split; cbn; unfold seg_rows; rewrite ?commit_ids_rows; try done; [|by apply commit_ids_full].
    intros i b Hi. destruct (Hcb i b Hi) as (b0 & Hb0 & -> & _). rewrite E8 in Hbi. by apply Hbi.
  - unfold compact_consistent. cbn. by rewrite E5, E4.
Qed.
End commits.

(** ** The blocks that an append touches *)
Section touched.
Context (txn_id ts : Z).
Implicit Types (sg : SegmentEntry) (b : BlockEntry) (bs : list BlockEntry) (mut : list Z) (st : AppendState).

(** Blocks are as before, or the transaction holds them and they are in the list. *)
Record grown mut bs bs' : Prop := {
  gr_blocks i b' : bs' !! i = Some b' -> bs !! i = Some b' \/
    (Z.of_nat i ∈ mut /\ BlockEntry.using_txn_id_ b' = txn_id /\ BlockEntry.max_row_ts_ b' = ts /\
     BlockEntry.commit_ts_ b' = match bs !! i with Some b => BlockEntry.commit_ts_ b | None => UNCOMMIT_TS end);
  gr_length : (length bs <= length bs')%nat;
  gr_ids : Forall (fun k => 0 <= k < Z.of_nat (length bs')) mut;
}.

Definition ids_by_index bs : Prop := forall i b, bs !! i = Some b -> block_id_ b = Z.of_nat i.

Lemma grown_refl mut bs : Forall (fun k => 0 <= k < Z.of_nat (length bs)) mut -> grown mut bs bs.
Proof. intros H. split; try done. intros i b Hb. by left. Qed.

Lemma grown_trans mut1 mut2 bs1 bs2 bs3 : mut1 ⊆ mut2 -> grown mut1 bs1 bs2 -> grown mut2 bs2 bs3 -> grown mut2 bs1 bs3.
Proof.
  intros Hm [H1 L1 I1] [H2 L2 I2]. split; [|lia|done]. intros i b3 H3. destruct (H2 i b3 H3) as [Hb2|(Hi & Hu & Hx & Hc)].
  - destruct (H1 i b3 Hb2) as [Hb1|(Hi & Hr)]; [by left|right]. split; [by apply Hm|done].
  - right. split_and!; try done. rewrite Hc. destruct (bs2 !! i) as [b2|] eqn:Hb2.
    + destruct (H1 i b2 Hb2) as [-> |(_ & _ & _ & Hc2)]; [done|]. by rewrite Hc2.
    + destruct (bs1 !! i) as [b1|] eqn:Hb1; [|done]. apply lookup_lt_Some in Hb1. apply lookup_ge_None in Hb2. lia.
Qed.

(** Fields that appends leave alone. *)
Definition same_frame sg sg' : Prop :=
  segment_id_ sg' = segment_id_ sg /\ status_ sg' = status_ sg /\ min_row_ts_ sg' = min_row_ts_ sg /\ max_row_ts_ sg' = max_row_ts_ sg /\
  commit_ts_ sg' = commit_ts_ sg /\ compact_state_data_ sg' = compact_state_data_ sg /\ columns_ sg' = columns_ sg.

Lemma same_frame_trans sg1 sg2 sg3 : same_frame sg1 sg2 -> same_frame sg2 sg3 -> same_frame sg1 sg3.
Proof. unfold same_frame. intros H1 H2. decompose [and] H1. decompose [and] H2. split_and!; congruence. Qed.

Lemma last_block_grown sg : ids_by_index (block_entries_ sg) -> Z.of_nat (length (block_entries_ sg)) < 2 ^ 16 ->
  exists bs b, block_entries_ (last_block sg) = bs ++ [b] /\ ids_by_index (bs ++ [b]) /\ same_frame sg (last_block sg) /\
    (block_entries_ sg = bs ++ [b] \/ block_entries_ sg = bs /\ BlockEntry.commit_ts_ b = UNCOMMIT_TS).
Proof.
  intros Hids Hlen. unfold last_block. destruct (last (block_entries_ sg)) as [b|] eqn:El.
  - apply last_Some in El as [bs E]. destruct (0 <? _).
    + exists bs, b. rewrite E in *. split_and!; try done. by left.
    + eexists _, _. split; [done|]. split_and!; [|done..|by right]. intros i c. apply ids_snoc; [done|]. cbn. apply wrap_id. unfold unsigned_range. lia.
  - apply last_None in El. exists [], (BlockEntry.NewBlockEntry 0 0 (columns_ sg)). rewrite El in *. split_and!; try done; [|by right].
    intros [|[|i]] b Hb; [by injection Hb as <-|done|done].
Qed.

Definition last_id st : Z := match last (append_ranges_ st) with Some r => range_block_id_ r | None => 0 end.

Lemma append_turn_length n sg st left full sg' st' rs : append_turn txn_id ts n sg st = Ok (left, full, sg', st', rs) ->
  (length (block_entries_ sg) <= length (block_entries_ sg'))%nat.
Proof.
  intros E. unfold append_turn in E.
  assert (H0 : (length (block_entries_ sg) <= length (block_entries_ (last_block sg)))%nat).
  { clear E. unfold last_block. destruct (last (block_entries_ sg)) as [b|] eqn:El; [case_match; cbn; rewrite ?length_app; lia|].
    apply last_None in El. rewrite El. cbn. lia. }
  destruct (last (block_entries_ (last_block sg))) as [b|]; [|done]. apply res_bind_Ok in E as ([[k b'] rs'] & E & E1).
  destruct (negb (n <? k)); [|done]. case_match; [|case_match; [|done]]; injection E1 as _ _ <- _ _; cbn; unfold set_last; by rewrite length_insert.
Qed.

Lemma append_turn_grown n sg st left full sg' st' rs mut : append_turn txn_id ts n sg st = Ok (left, full, sg', st', rs) ->
  ids_by_index (block_entries_ sg) -> Z.of_nat (length (block_entries_ sg')) < 2 ^ 16 -> last_id st' ∈ mut ->
  Forall (fun k => 0 <= k < Z.of_nat (length (block_entries_ sg)) \/ k = last_id st') mut ->
  ids_by_index (block_entries_ sg') /\ grown mut (block_entries_ sg) (block_entries_ sg') /\ same_frame sg sg'.
Proof.
  intros E Hids Hlen Hmut Hall.
  assert (Hlen0 : Z.of_nat (length (block_entries_ sg)) < 2 ^ 16) by (pose proof (append_turn_length _ _ _ _ _ _ _ _ E); lia).
  destruct (last_block_grown sg Hids Hlen0) as (bs & b & Eb & Hids1 & Hframe & Hold).
  unfold append_turn in E. rewrite Eb, last_snoc in E. apply res_bind_Ok in E as ([[k b'] rs'] & EA & E).
  destruct (negb (n <? k)); [|done]. cbv zeta in E. rewrite set_last_snoc in E.
  assert (Esg : sg' = IncreaseRowCount k (set_blocks (bs ++ [b']) (last_block sg)) /\ last_id st' = block_id_ b).
  { case_match; [|case_match; [|done]]; injection E as _ _ <- <- _; unfold last_id; cbn; by rewrite last_snoc. }
  destruct Esg as [-> Eid]. cbn [block_entries_ IncreaseRowCount set_rows set_blocks].
  assert (Hb' : block_id_ b' = block_id_ b /\ BlockEntry.using_txn_id_ b' = txn_id /\ BlockEntry.max_row_ts_ b' = ts /\
    BlockEntry.commit_ts_ b' = BlockEntry.commit_ts_ b).
  { unfold BlockEntry.AppendData in EA. destruct (_ || _) in EA; [|done]. destruct (negb _) in EA; [|done]. by injection EA as _ <- _. }
  destruct Hb' as (Hid & Hu & Hx & Hc). assert (Hbid : block_id_ b = Z.of_nat (length bs)) by (apply Hids1; by apply list_lookup_middle).
  split; [|split].
  - intros i c. apply ids_snoc; [|by rewrite Hid]. intros j d Hj. apply Hids1. by apply lookup_app_l_Some.
  - split.
    + intros i c [[Hi Hj]|[-> <-]]%lookup_snoc_Some.
      * left. destruct Hold as [-> |[-> _]]; [by apply lookup_app_l_Some|done].
      * right. rewrite <- Hbid, <- Eid. split_and!; try done. rewrite Hc.
        destruct Hold as [-> |[-> Hun]]; [by rewrite list_lookup_middle|]. by rewrite lookup_ge_None_2.
    + rewrite length_app. cbn. destruct Hold as [-> |[-> _]]; rewrite ?length_app; cbn; lia.
    + eapply Forall_impl; [exact Hall|]. intros q Hq. cbn in Hq |- *. rewrite length_app. cbn.
      destruct Hold as [E1|[E1 _]]; rewrite E1, ?length_app in Hq; cbn in Hq; lia.
  - destruct Hframe as (H1 & H2 & H3 & H4 & H5 & H6 & H7). by split_and!.
Qed.

Lemma append_rows_loop_length fuel n sg st mut left sg' st' mut' rs :
  append_rows_loop fuel txn_id ts n sg st mut = Some (Ok (left, sg', st', mut', rs)) ->
  (length (block_entries_ sg) <= length (block_entries_ sg'))%nat.
Proof.
  revert n sg st mut rs. induction fuel as [|fuel IH]; intros n sg st mut rs E; cbn [append_rows_loop] in E.
  - destruct (n =? 0); [|done]. by injection E as _ <- _ _ _.
  - destruct (n =? 0); [by injection E as _ <- _ _ _|].
    destruct (append_turn txn_id ts n sg st) as [[[[[l f] sg1] st1] rs1]|] eqn:Et; [|done]. apply append_turn_length in Et. cbv zeta in E.
    destruct f; [by injection E as _ <- _ _ _|].
    destruct (append_rows_loop fuel _ _ _ _ _ _) as [[[[[[l2 sg2] st2] mut2] rs2]|]|] eqn:El; [|done|done]. injection E as <- <- <- <- <-.
    apply IH in El. lia.
Qed.

Lemma append_rows_loop_grown fuel n sg st mut left sg' st' mut' rs :
  append_rows_loop fuel txn_id ts n sg st mut = Some (Ok (left, sg', st', mut', rs)) ->
  ids_by_index (block_entries_ sg) -> Z.of_nat (length (block_entries_ sg')) < 2 ^ 16 ->
  Forall (fun k => 0 <= k < Z.of_nat (length (block_entries_ sg))) mut ->
  mut ⊆ mut' /\ ids_by_index (block_entries_ sg') /\ grown mut' (block_entries_ sg) (block_entries_ sg') /\ same_frame sg sg'.
Proof.
  assert (Hdone : forall mut bs, Forall (fun k => 0 <= k < Z.of_nat (length bs)) mut -> ids_by_index bs ->
    mut ⊆ mut /\ ids_by_index bs /\ grown mut bs bs) by (intros; split_and!; [done|done|by apply grown_refl]).
  revert n sg st mut rs. induction fuel as [|fuel IH]; intros n sg st mut rs E Hids Hlen Hmut; cbn [append_rows_loop] in E.
  - destruct (n =? 0); [|done]. injection E as _ <- _ <- _. destruct (Hdone mut _ Hmut Hids) as (? & ? & ?). by split_and!.
  - destruct (n =? 0); [injection E as _ <- _ <- _; destruct (Hdone mut _ Hmut Hids) as (? & ? & ?); by split_and!|].
    destruct (append_turn txn_id ts n sg st) as [[[[[l f] sg1] st1] rs1]|] eqn:Et; [|done]. cbv zeta in E. fold (last_id st1) in E.
    set (mut1 := if bool_decide (last mut = Some (last_id st1)) then mut else mut ++ [last_id st1]) in E.
    assert (Hsub : mut ⊆ mut1) by (subst mut1; case_bool_decide; [done|by apply list_subseteq_app_l]).
    assert (Hin : last_id st1 ∈ mut1).
    { subst mut1. case_bool_decide as Hl; [apply last_Some in Hl as [l' ->]|]; apply elem_of_app; right; by apply list_elem_of_singleton. }
    assert (Hall : Forall (fun k => 0 <= k < Z.of_nat (length (block_entries_ sg)) \/ k = last_id st1) mut1).
    { assert (H1 : Forall (fun k => 0 <= k < Z.of_nat (length (block_entries_ sg)) \/ k = last_id st1) mut) by (eapply Forall_impl; [exact Hmut|]; auto).
      subst mut1. case_bool_decide; [done|]. apply Forall_app. split; [done|]. apply Forall_singleton. by right. }
    assert (Hturn : Z.of_nat (length (block_entries_ sg1)) < 2 ^ 16 ->
      ids_by_index (block_entries_ sg1) /\ grown mut1 (block_entries_ sg) (block_entries_ sg1) /\ same_frame sg sg1)
      by (intros; by eapply append_turn_grown).
    destruct f.
    + injection E as _ <- _ <- _. destruct (Hturn Hlen) as (H1 & H2 & H3). by split_and!.
    + destruct (append_rows_loop fuel _ _ _ _ _ _) as [[[[[[l2 sg2] st2] mut2] rs2]|]|] eqn:El; [|done|done]. injection E as <- <- <- <- <-.
      pose proof (append_rows_loop_length _ _ _ _ _ _ _ _ _ _ El). destruct Hturn as (H1 & H2 & H3); [lia|].
      destruct (IH _ _ _ _ _ El H1 Hlen (gr_ids _ _ _ H2)) as (H4 & H5 & H6 & H7). split_and!; try done.
      * by etransitivity.
      * by eapply grown_trans.
      * by eapply same_frame_trans.
Qed.

Lemma append_blocks_loop_length fuel sg st mut sg' st' mut' rs :
  append_blocks_loop fuel txn_id ts sg st mut = Some (Ok (sg', st', mut', rs)) ->
  (length (block_entries_ sg) <= length (block_entries_ sg'))%nat.
Proof.
  revert sg st mut rs. induction fuel as [|fuel IH]; intros sg st mut rs E; cbn [append_blocks_loop] in E;
    (case_match; [|by injection E as <- _ _ _]); [done|].
  destruct (append_rows_loop _ _ _ _ _ _ _) as [[[[[[l sg1] st1] mut1] rs1]|]|] eqn:El; [|done|done]. cbv zeta in E.
  destruct (append_blocks_loop fuel _ _ _ _ _) as [[[[[sg2 st2] mut2] rs2]|]|] eqn:Eb; [|done|done]. injection E as <- <- <- <-.
  apply append_rows_loop_length in El. apply IH in Eb. lia.
Qed.

Lemma append_blocks_loop_grown fuel sg st mut sg' st' mut' rs :
  append_blocks_loop fuel txn_id ts sg st mut = Some (Ok (sg', st', mut', rs)) ->
  ids_by_index (block_entries_ sg) -> Z.of_nat (length (block_entries_ sg')) < 2 ^ 16 ->
  Forall (fun k => 0 <= k < Z.of_nat (length (block_entries_ sg))) mut ->
  mut ⊆ mut' /\ ids_by_index (block_entries_ sg') /\ grown mut' (block_entries_ sg) (block_entries_ sg') /\ same_frame sg sg'.
Proof.
  revert sg st mut rs. induction fuel as [|fuel IH]; intros sg st mut rs E Hids Hlen Hmut; cbn [append_blocks_loop] in E;
    (case_match; [|injection E as <- _ <- _; split_and!; try done; by apply grown_refl]); [done|].
  destruct (append_rows_loop _ _ _ _ _ _ _) as [[[[[[l sg1] st1] mut1] rs1]|]|] eqn:El; [|done|done]. cbv zeta in E.
  destruct (append_blocks_loop fuel _ _ _ _ _) as [[[[[sg2 st2] mut2] rs2]|]|] eqn:Eb; [|done|done]. injection E as <- <- <- <-.
  pose proof (append_blocks_loop_length _ _ _ _ _ _ _ _ Eb).
  destruct (append_rows_loop_grown _ _ _ _ _ _ _ _ _ _ El Hids) as (H1 & H2 & H3 & H4); [lia|done|].
  destruct (IH _ _ _ _ Eb H2 Hlen (gr_ids _ _ _ H3)) as (H5 & H6 & H7 & H8). split_and!; try done.
  - by etransitivity.
  - by eapply grown_trans.
  - by eapply same_frame_trans.
Qed.
End touched.
