(* ===== verification/TableHistory.v ===== *)
(** * The rows of a table under transactions

    A transaction that commits appends rows and deletes rows of a table in one step, as seen by
    readers: before its commit timestamp nothing has changed, from it on everything has. *)
From stdpp Require Import sorting.
From S2P Require Import Prelude Serialize DataType EntryList FileWorker BlockVersion Bitmask BlockEntry BlockHistory BlockFlush SegmentEntry SegmentHistory SegmentVisibility SegmentWrites Compaction TxnTableStore TableEntry TxnStore.
Import BlockEntry(BlockEntry, DEFAULT_BLOCK_CAPACITY, block_row_count_, block_id_).
Import SegmentEntry.

(** ** Segments between transactions and during a commit *)
Record seg_idle (ts0 : Z) (sg : SegmentEntry) (ss : list block) : Prop := {
  sd_ok : seg_ok sg ss;
  sd_free : Forall (fun s => holder s = 0 /\ newest s <= ts0) ss;
  sd_commit i b : block_entries_ sg !! i = Some b -> BlockEntry.commit_ts_ b <= ts0;
  sd_rows i b s r : block_entries_ sg !! i = Some b -> ss !! i = Some s -> r ∈ rows s ->
    BlockEntry.commit_ts_ b <= born r /\ min_row_ts_ sg <= born r;
  sd_times : max_row_ts_ sg <= ts0 /\ min_row_ts_ sg <= ts0;
  sd_status : status_ sg <> kDeprecated /\ compact_consistent sg;
}.

(** [stored] are the blocks in the store of the transaction. *)
Record seg_mid (txn_id ts : Z) (stored : gset Z) (sg : SegmentEntry) (ss : list block) : Prop := {
  md_ok : seg_ok sg ss;
  md_writes : Forall (writes txn_id ts) ss;
  md_held i s : ss !! i = Some s -> holder s = 0 \/ Z.of_nat i ∈ stored;
  md_stored k : k ∈ stored -> 0 <= k < Z.of_nat (length ss);
  md_commit i b : block_entries_ sg !! i = Some b ->
    BlockEntry.commit_ts_ b <= ts \/ (BlockEntry.commit_ts_ b = UNCOMMIT_TS /\ Z.of_nat i ∈ stored);
  md_rows i b s r : block_entries_ sg !! i = Some b -> ss !! i = Some s -> r ∈ rows s ->
    (BlockEntry.commit_ts_ b <= born r /\ min_row_ts_ sg <= born r) \/ born r = ts;
  md_max : max_row_ts_ sg <= ts;
  md_status : status_ sg <> kDeprecated /\ compact_consistent sg;
}.

(** A segment that readers find after the commit. *)
Definition listed (ts : Z) (stored : gset Z) (sg : SegmentEntry) : Prop := min_row_ts_ sg <= ts \/ stored <> ∅.

Section segments.
Context (txn_id ts : Z) (Hts : commit_time ts).
Implicit Types (sg : SegmentEntry) (ss : list block) (s : block) (b : BlockEntry) (r : row) (stored : gset Z).

Lemma idle_mid ts0 sg ss : seg_idle ts0 sg ss -> ts0 <= ts -> seg_mid txn_id ts ∅ sg ss /\ listed ts ∅ sg.
Proof.
  intros [Hok Hfree Hc Hr [Hmax Hmin] Hst] Hle. rewrite Forall_lookup in Hfree. split; [|left; lia]. split; try done.
  - apply Forall_lookup. intros i s Hs. destruct (Hfree i s Hs) as [H0 Hn]. split; [|lia]. unfold may_write. by rewrite H0.
  - intros i s Hs. left. by apply (Hfree i s).
  - intros i b Hb. left. specialize (Hc i b Hb). lia.
  - intros i b s r Hb Hs Hin. left. by eapply Hr.
  - lia.
Qed.

Lemma mid_idle sg ss : seg_mid txn_id ts ∅ sg ss -> listed ts ∅ sg -> seg_idle ts sg ss.
Proof.
  intros [Hok Hw Hh _ Hc Hr Hmax Hst] Hmin. rewrite Forall_lookup in Hw. assert (Hc' : forall i b, block_entries_ sg !! i = Some b -> BlockEntry.commit_ts_ b <= ts).
  { intros i b Hb. destruct (Hc i b Hb) as [H0|(_ & Hx)]; [done|]. by apply not_elem_of_empty in Hx. }
  split; try done.
  - apply Forall_lookup. intros i s Hs. destruct (Hh i s Hs) as [H0|Hx]; [|by apply not_elem_of_empty in Hx]. split; [done|]. by apply (Hw i s).
  - intros i b s r Hb Hs Hin. destruct (Hr i b s r Hb Hs Hin) as [| ->]; [done|]. destruct Hmin as [|[]]; [|done]. split; [by eapply Hc'|done].
  - split; [done|]. by destruct Hmin.
Qed.

Lemma fits_state b s : block_fits b s -> holder s = BlockEntry.using_txn_id_ b /\ newest s = BlockEntry.max_row_ts_ b.
Proof. intros [Hr _]. destruct (rf_newest _ _ Hr) as [-> _]. by rewrite (rf_holder _ _ Hr). Qed.

Lemma rows_in_segment sg ss i s r : seg_ok sg ss -> ss !! i = Some s -> r ∈ rows s ->
  exists o, 0 <= o < DEFAULT_BLOCK_CAPACITY /\ rows s !! Z.to_nat o = Some r /\
    seg_rows ss !! Z.to_nat (DEFAULT_BLOCK_CAPACITY * Z.of_nat i + o) = Some r.
Proof.
  intros Hok Hs [o Ho]%list_elem_of_lookup. destruct (Forall2_lookup_r _ _ _ _ _ (so_blocks _ _ Hok) Hs) as (b & _ & Hf).
  destruct (fits_length _ _ Hf) as (Hl & Hr & _). apply lookup_lt_Some in Ho as Hlt. exists (Z.of_nat o).
  assert (Hb : 0 <= Z.of_nat o < DEFAULT_BLOCK_CAPACITY) by lia. split; [done|]. rewrite Nat2Z.id. split; [done|].
  rewrite (seg_rows_lookup _ _ _ _ _ (so_blocks _ _ Hok) (so_full _ _ Hok) Hs Hb). by rewrite Nat2Z.id.
Qed.

Lemma segment_block sg ss i o r : seg_ok sg ss -> 0 <= o < DEFAULT_BLOCK_CAPACITY ->
  seg_rows ss !! Z.to_nat (DEFAULT_BLOCK_CAPACITY * Z.of_nat i + o) = Some r -> exists s, ss !! i = Some s /\ rows s !! Z.to_nat o = Some r.
Proof.
  intros Hok Ho Hr. destruct (ss !! i) as [s|] eqn:Hs.
  - exists s. split; [done|]. by rewrite (seg_rows_lookup _ _ _ _ _ (so_blocks _ _ Hok) (so_full _ _ Hok) Hs Ho) in Hr.
  - rewrite (seg_rows_lookup_ge _ _ _ _ (so_blocks _ _ Hok)) in Hr; [done|lia|done].
Qed.

Lemma seg_rows_count bs ss : Forall2 block_fits bs ss -> Z.of_nat (length (seg_rows ss)) = foldr (fun b n => block_row_count_ b + n) 0 bs.
Proof.
  induction 1 as [|b s bs ss Hf _ IH]; [done|]. unfold seg_rows in *. cbn. rewrite length_app, <- (IH).
  pose proof (rf_count _ _ (proj1 Hf)). lia.
Qed.

(** *** Appends *)
Definition no_store (rs : list request) : Prop := Forall (fun q : request => match q with AddBlockStore _ => False | _ => True end) rs.

Lemma append_turn_store n sg st left full sg' st' rs : append_turn txn_id ts n sg st = Ok (left, full, sg', st', rs) -> no_store rs.
Proof.
  unfold append_turn. intros E. case_match; [|done]. apply res_bind_Ok in E as ([[k b'] rs'] & _ & E). case_match; [|done]. cbv zeta in E.
  assert (H' : forall id, no_store (map (BlockRequest id) rs')) by (intros id; apply Forall_map, Forall_true; done).
  case_match; [|case_match; [|done]]; injection E as _ _ _ _ <-; apply H'.
Qed.

Lemma append_rows_loop_store fuel n sg st mut left sg' st' mut' rs :
  append_rows_loop fuel txn_id ts n sg st mut = Some (Ok (left, sg', st', mut', rs)) -> no_store rs.
Proof.
  revert n sg st mut rs. induction fuel as [|fuel IH]; intros n sg st mut rs E; cbn [append_rows_loop] in E.
  - destruct (n =? 0); [|done]. injection E as _ _ _ _ <-. constructor.
  - destruct (n =? 0); [injection E as _ _ _ _ <-; constructor|].
    destruct (append_turn txn_id ts n sg st) as [[[[[l f] sg1] st1] rs1]|] eqn:Et; [|done]. apply append_turn_store in Et. cbv zeta in E.
    destruct f; [by injection E as _ _ _ _ <-|].
    destruct (append_rows_loop fuel _ _ _ _ _ _) as [[[[[[l2 sg2] st2] mut2] rs2]|]|] eqn:El; [|done|done]. injection E as <- <- <- <- <-.
    apply Forall_app. split; [done|]. by eapply IH.
Qed.

Lemma append_blocks_loop_store fuel sg st mut sg' st' mut' rs :
  append_blocks_loop fuel txn_id ts sg st mut = Some (Ok (sg', st', mut', rs)) -> no_store rs.
Proof.
  revert sg st mut rs. induction fuel as [|fuel IH]; intros sg st mut rs E; cbn [append_blocks_loop] in E;
    (case_match; [|injection E as _ _ _ <-; constructor]); [done|].
  destruct (append_rows_loop _ _ _ _ _ _ _) as [[[[[[l sg1] st1] mut1] rs1]|]|] eqn:El; [|done|done]. cbv zeta in E.
  destruct (append_blocks_loop fuel _ _ _ _ _) as [[[[[sg2 st2] mut2] rs2]|]|] eqn:Eb; [|done|done]. injection E as <- <- <- <-.
  apply Forall_app. split; [by eapply append_rows_loop_store|by eapply IH].
Qed.

Lemma blocks_bound sg ss : seg_ok sg ss -> Z.of_nat (length (block_entries_ sg)) < 2 ^ 16.
Proof.
  intros Hok. destruct (so_capacity _ _ Hok) as (k & Hk & Hk'). pose proof (so_bound _ _ Hok) as Hb. pose proof (so_count _ _ Hok) as Hc.
  pose proof (so_blocks _ _ Hok) as Hf. pose proof (so_full _ _ Hok) as Hfull.
  destruct (last ss) as [s|] eqn:El; [|apply last_None in El; subst; inversion Hf; cbn; lia].
  apply last_Some in El as [ss' ->]. apply full_but_last_snoc in Hfull.
  apply Forall2_app_inv_r in Hf as (bs & bs' & Hf1 & Hf2 & E). pose proof (full_length _ _ Hf1 Hfull) as Hl.
  rewrite seg_rows_snoc, length_app in Hc. apply Forall2_length in Hf2. cbn in Hf2.
  rewrite E, length_app. unfold DEFAULT_BLOCK_CAPACITY in *. lia.
Qed.

Lemma remaining_ge0 st : input_ok st -> 0 <= remaining st.
Proof.
  intros [Hsz Hcb Hco _]. unfold remaining. destruct (blocks_ st !! Z.to_nat (current_block_ st)) as [n|] eqn:En; cbn in Hco; unfold id in Hco.
  - rewrite (drop_S _ _ _ En). cbn. pose proof (remaining_nonneg _ (Forall_drop _ (S (Z.to_nat (current_block_ st))) _ Hsz)). lia.
  - apply lookup_ge_None in En. rewrite drop_ge by lia. cbn. lia.
Qed.

Lemma mid_writable stored sg ss : seg_mid txn_id ts stored sg ss -> writable txn_id ts ss.
Proof. intros Hm s [ss' ->]%last_Some. pose proof (md_writes _ _ _ _ _ Hm) as H. apply Forall_app in H as [_ H]. by apply Forall_cons_1 in H as [H _]. Qed.

Lemma grown_mid stored sg ss sg' ss' mut k : seg_mid txn_id ts stored sg ss -> seg_ok sg' ss' ->
  seg_rows ss' = seg_rows ss ++ replicate k (mkRow ts None) -> grown txn_id ts mut (block_entries_ sg) (block_entries_ sg') ->
  same_frame sg sg' -> seg_mid txn_id ts (list_to_set mut ∪ stored) sg' ss'.
Proof.
  intros Hm Hok' Hrows [Hg Hlen Hids] (_ & Est & Emin & Emax & _ & Ecomp & _).
  pose proof Hm as [Hok Hw Hh Hst Hc Hr Hmax [Hdep Hcc]]. rewrite Forall_lookup in Hw.
  pose proof (Forall2_length _ _ _ (so_blocks _ _ Hok)) as L. pose proof (Forall2_length _ _ _ (so_blocks _ _ Hok')) as L'.
  assert (Hstate : forall i s', ss' !! i = Some s' -> (exists s, ss !! i = Some s /\ holder s' = holder s /\ newest s' = newest s) \/
    (Z.of_nat i ∈ mut /\ holder s' = txn_id /\ newest s' = ts)).
  { intros i s' Hs'. destruct (Forall2_lookup_r _ _ _ _ _ (so_blocks _ _ Hok') Hs') as (b' & Hb' & Hf').
    destruct (fits_state _ _ Hf') as [H1 H2]. destruct (Hg i b' Hb') as [Hb|(Hi & Hu & Hx & _)].
    - left. destruct (Forall2_lookup_l _ _ _ _ _ (so_blocks _ _ Hok) Hb) as (s & Hs & Hf). destruct (fits_state _ _ Hf) as [H3 H4]. exists s. rewrite H1, H2, H3, H4. done.
    - right. rewrite H1, H2. done. }
  assert (Hcommit : forall i b', block_entries_ sg' !! i = Some b' -> 
    match block_entries_ sg !! i with Some b => BlockEntry.commit_ts_ b' = BlockEntry.commit_ts_ b | None => BlockEntry.commit_ts_ b' = UNCOMMIT_TS /\ Z.of_nat i ∈ mut end).
  { intros i b' Hb'. destruct (Hg i b' Hb') as [-> |(Hi & _ & _ & Hcb)]; [done|]. by destruct (block_entries_ sg !! i). }
  split; try done.
  - apply Forall_lookup. intros i s' Hs'. destruct (Hstate i s' Hs') as [(s & Hs & E1 & E2)|(_ & E1 & E2)].
    + destruct (Hw i s Hs) as [Hw1 Hw2]. unfold writes, may_write in *. by rewrite E1, E2.
    + unfold writes, may_write. rewrite E1, E2, Z.eqb_refl, orb_true_r. split; [done|lia].
  - intros i s' Hs'. destruct (Hstate i s' Hs') as [(s & Hs & E1 & E2)|(Hi & _)].
    + destruct (Hh i s Hs); [left; congruence|right; by apply elem_of_union_r].
    + right. apply elem_of_union_l. by apply elem_of_list_to_set.
  - intros q [Hq|Hq]%elem_of_union.
    + apply elem_of_list_to_set in Hq. rewrite Forall_forall in Hids. specialize (Hids q Hq). cbn in Hids. lia.
    + specialize (Hst q Hq). lia.
  - intros i b' Hb'. specialize (Hcommit i b' Hb'). destruct (block_entries_ sg !! i) as [b|] eqn:Hb.
    + rewrite Hcommit. destruct (Hc i b Hb) as [|[? ?]]; [by left|right]. split; [done|]. by apply elem_of_union_r.
    + right. destruct Hcommit. split; [done|]. apply elem_of_union_l. by apply elem_of_list_to_set.
  - intros i b' s' r Hb' Hs' Hin. destruct (rows_in_segment _ _ _ _ _ Hok' Hs' Hin) as (o & Ho & _ & Hpos). rewrite Hrows in Hpos.
    apply lookup_app_Some in Hpos as [Hpos|[_ Hpos]].
    + destruct (segment_block _ _ _ _ _ Hok Ho Hpos) as (s & Hs & Hos). destruct (Forall2_lookup_r _ _ _ _ _ (so_blocks _ _ Hok) Hs) as (b & Hb & _).
      specialize (Hcommit i b' Hb'). rewrite Hb in Hcommit. rewrite Hcommit, Emin. eapply Hr; [done|done|]. by eapply list_elem_of_lookup_2.
    + apply lookup_replicate in Hpos as [-> _]. by right.
  - by rewrite Emax.
  - unfold compact_consistent. by rewrite Ecomp, Est.
Qed.

Lemma AppendData_mid stored sg ss st : seg_mid txn_id ts stored sg ss -> status_ sg = kUnsealed -> row_count_ sg < row_capacity_ sg ->
  input_ok st ->
  exists k sg' ss' st' rs mut, AppendData txn_id ts sg st = Some (Ok (k, sg', st', rs ++ map AddBlockStore mut)) /\ no_store rs /\
    k = Z.min (remaining st) (row_capacity_ sg - row_count_ sg) /\ (0 < k -> mut <> []) /\
    seg_mid txn_id ts (list_to_set mut ∪ stored) sg' ss' /\ seg_rows ss' = seg_rows ss ++ replicate (Z.to_nat k) (mkRow ts None) /\
    input_ok st' /\ blocks_ st' = blocks_ st /\ remaining st' = remaining st - k /\ current_count_ st' = current_count_ st + k /\
    same_frame sg sg' /\ row_count_ sg' = row_count_ sg + k /\ row_capacity_ sg' = row_capacity_ sg.
Proof.
  intros Hm Hst Hroom Hio. pose proof (md_ok _ _ _ _ _ Hm) as Hok. unfold AppendData.
  rewrite bool_decide_eq_true_2 by done. rewrite (proj2 (Z.leb_gt _ _)) by done. cbn [negb].
  destruct (append_blocks_loop_ok txn_id ts Hts (S (length (blocks_ st))) sg ss st [] Hok (mid_writable _ _ _ Hm) Hio) as
    (k & ranges & sg' & ss' & st' & mut & rs & E & Hk & Ha & Hio' & Ebl & Hrem & Hcnt & Har).
  { pose proof (io_block _ Hio). lia. }
  rewrite E. destruct Ha as [Hok' Hr Hsame Hc _ _].
  destruct (append_blocks_loop_grown _ _ _ _ _ _ _ _ _ _ E (so_ids _ _ Hok) (blocks_bound _ _ Hok')) as (_ & _ & Hg & Hframe); [constructor|].
  pose proof (remaining_ge0 st Hio) as Hge. pose proof (io_count _ Hio) as [Hcc1 Hcc2]. pose proof (so_bound _ _ Hok).
  exists k, sg', ss', st', rs, mut. split; [|split_and!; try done].
  - rewrite Hcnt. replace (current_count_ st + k - current_count_ st) with k by lia. rewrite wrap_id by (unfold unsigned_range; lia). done.
  - by eapply append_blocks_loop_store.
  - intros Hk0 ->. assert (Eb : block_entries_ sg' = block_entries_ sg).
    { apply list_eq_same_length with (length (block_entries_ sg')); [|done|].
      - apply Nat.le_antisymm; [by apply Hg|]. destruct (Nat.le_gt_cases (length (block_entries_ sg')) (length (block_entries_ sg))) as [|Hgt]; [done|].
        destruct (lookup_lt_is_Some_2 (block_entries_ sg') (length (block_entries_ sg)) Hgt) as [b Hb].
        destruct (gr_blocks _ _ _ _ _ Hg _ _ Hb) as [Hb'|[Hx _]]; [apply lookup_lt_Some in Hb'; lia|by apply elem_of_nil in Hx].
      - intros i b b' _ Hb Hb'. destruct (gr_blocks _ _ _ _ _ Hg _ _ Hb) as [Hb2|[Hx _]]; [congruence|by apply elem_of_nil in Hx]. }
    pose proof (so_blocks _ _ Hok') as Hf. rewrite Eb in Hf. pose proof (seg_rows_count _ _ Hf) as E1.
    pose proof (seg_rows_count _ _ (so_blocks _ _ Hok)) as E2. rewrite Hr, length_app, length_replicate in E1. lia.
  - by eapply grown_mid.
  - by destruct Hsame as (_ & ? & _).
Qed.

(** *** Deletes *)
Lemma block_commits sg sg' i b' : map BlockEntry.commit_ts_ (block_entries_ sg') = map BlockEntry.commit_ts_ (block_entries_ sg) ->
  block_entries_ sg' !! i = Some b' -> exists b, block_entries_ sg !! i = Some b /\ BlockEntry.commit_ts_ b' = BlockEntry.commit_ts_ b.
Proof.
  intros E Hb. assert (H : (BlockEntry.commit_ts_ <$> block_entries_ sg') !! i = Some (BlockEntry.commit_ts_ b')) by (by rewrite list_lookup_fmap, Hb).
  change (BlockEntry.commit_ts_ <$> block_entries_ sg' = BlockEntry.commit_ts_ <$> block_entries_ sg) in E. rewrite E, list_lookup_fmap in H.
  apply fmap_Some in H as (b & Hb0 & ->). by exists b.
Qed.

Lemma kill_born rs offsets rs' r' : kill ts offsets rs = Some rs' -> r' ∈ rs' -> exists r, r ∈ rs /\ born r' = born r.
Proof.
  revert rs. induction offsets as [|o offsets IH]; intros rs E Hin; cbn in E; [injection E as <-; by exists r'|].
  destruct (rs !! Z.to_nat o) as [[t [d|]]|] eqn:Ho; [done| |done]. destruct (IH _ E Hin) as (r1 & [j Hj]%list_elem_of_lookup & ->).
  apply list_lookup_insert_Some in Hj as [(<- & <- & _)|(_ & Hj)].
  - exists (mkRow t None). split; [by eapply list_elem_of_lookup_2|done].
  - exists r1. split; [by eapply list_elem_of_lookup_2|done].
Qed.

Lemma kill_blocks_born m ss ss' i s' r' : kill_blocks txn_id ts m ss = Some ss' -> ss' !! i = Some s' -> r' ∈ rows s' ->
  exists s r, ss !! i = Some s /\ r ∈ rows s /\ born r' = born r.
Proof.
  revert ss. induction m as [|[k offs] m IH]; intros ss E Hs' Hin; cbn in E; [injection E as <-; by exists s', r'|].
  destruct (ss !! Z.to_nat k) as [s0|] eqn:Hs0; [|done]. destruct (kill ts offs (rows s0)) as [rs|] eqn:Hk; [|done].
  destruct (IH _ E Hs' Hin) as (s1 & r1 & Hs1 & Hin1 & ->). apply list_lookup_insert_Some in Hs1 as [(<- & <- & _)|(_ & Hs1)].
  - destruct (kill_born _ _ _ _ Hk Hin1) as (r & Hr & ->). by exists s0, r.
  - by exists s1, r1.
Qed.

Lemma DeleteData_mid stored sg ss ss' m : seg_mid txn_id ts stored sg ss -> entries_ok m -> kill_blocks txn_id ts m ss = Some ss' ->
  exists sg', DeleteData txn_id ts m sg = Ok (live_rows (seg_rows ss) - live_rows (seg_rows ss'), sg', map (fun p => AddBlockStore p.1) m) /\
    seg_mid txn_id ts (list_to_set m.*1 ∪ stored) sg' ss' /\ same_but_blocks sg sg'.
Proof.
  intros Hm He Hk. pose proof Hm as [Hok Hw Hh Hst Hc Hr Hmax [Hdep Hcc]].
  destruct (DeleteData_seg txn_id ts Hts m sg ss ss' Hok Hw He Hk) as (sg' & E & Hok' & Hsame & Hcts). exists sg'. split; [done|]. split; [|done].
  destruct (kill_blocks_live _ _ _ _ _ Hk) as [_ Hlen]. assert (Hpos : Forall (fun p => 0 <= p.1) m) by (eapply Forall_impl; [exact He|]; by intros p (H & _)).
  destruct Hsame as (_ & _ & _ & Est & _ & _ & Emin & Emax & _ & Ecomp & _). split; try done.
  - by eapply kill_blocks_writes.
  - intros i s' Hs'. destruct (decide (Z.of_nat i ∈ m.*1)) as [Hi|Hi]; [right; apply elem_of_union_l; by apply elem_of_list_to_set|].
    rewrite (kill_blocks_other _ _ _ _ _ _ Hk Hpos Hi) in Hs'. destruct (Hh i s' Hs'); [by left|right; by apply elem_of_union_r].
  - intros q [Hq|Hq]%elem_of_union; [|specialize (Hst q Hq); lia]. apply elem_of_list_to_set in Hq.
    apply list_elem_of_fmap in Hq as ([q' offs] & -> & Hin). clear - Hk Hin Hpos Hlen. rewrite Hlen. clear Hlen.
    revert ss Hk. induction m as [|[k0 offs0] m IH]; intros ss Hk; [by apply elem_of_nil in Hin|]. cbn in Hk.
    apply Forall_cons_1 in Hpos as [H0 Hpos]. cbn in H0. destruct (ss !! Z.to_nat k0) as [s0|] eqn:Hs0; [|done]. destruct (kill ts offs0 (rows s0)) as [rs|]; [|done].
    apply elem_of_cons in Hin as [[= <- <-]|Hin]; [apply lookup_lt_Some in Hs0; cbn; lia|].
    specialize (IH Hpos Hin _ Hk). by rewrite length_insert in IH.
  - intros i b' Hb'. destruct (block_commits _ _ _ _ Hcts Hb') as (b & Hb & ->). destruct (Hc i b Hb) as [|[? ?]]; [by left|right].
    split; [done|]. by apply elem_of_union_r.
  - intros i b' s' r' Hb' Hs' Hin. destruct (block_commits _ _ _ _ Hcts Hb') as (b & Hb & ->).
    destruct (kill_blocks_born _ _ _ _ _ _ Hk Hs' Hin) as (s & r & Hs & Hin' & ->). rewrite Emin. by eapply Hr.
  - by rewrite Emax.
  - unfold compact_consistent. by rewrite Ecomp, Est.
Qed.

(** *** Commits *)
Lemma CommitSegment_mid stored sg ss cols deletes : seg_mid txn_id ts stored sg ss ->
  exists sg' rs ss', CommitSegment txn_id ts (elements stored) cols deletes sg = Ok (sg', rs) /\
    seg_mid txn_id ts ∅ sg' ss' /\ listed ts ∅ sg' /\ seg_rows ss' = seg_rows ss /\ segment_id_ sg' = segment_id_ sg /\ status_ sg' = status_ sg /\
    actual_row_count_ sg' = actual_row_count_ sg.
Proof.
  intros Hm. pose proof Hm as [Hok Hw Hh Hst Hc Hr Hmax [Hdep Hcc]]. rewrite Forall_lookup in Hw.
  assert (Hids : ids_ok txn_id (elements stored) ss).
  { apply Forall_forall. intros k Hk%elem_of_elements. destruct (Hst k Hk). destruct (lookup_lt_is_Some_2 ss (Z.to_nat k)) as [s Hs]; [lia|].
    split; [done|]. exists s. split; [done|]. by destruct (Hw _ _ Hs). }
  destruct (CommitSegment_ok txn_id ts Hts (elements stored) cols deletes sg ss Hok Hids Hdep Hcc Hmax) as
    (sg' & rs & E & Hok' & Hid & _ & _ & Est & Hcc' & Emax & Emin & Hcb).
  assert (Erows : seg_rows (commit_ids ts (elements stored) ss) = seg_rows ss) by (unfold seg_rows; by rewrite commit_ids_rows).
  exists sg', rs, (commit_ids ts (elements stored) ss). split; [done|]. split_and!; try done.
  - split; try done.
    + apply Forall_lookup. intros i s' Hs'. destruct (commit_ids_lookup ts _ _ _ _ Hs') as (s & Hs & _ & _ & H1 & H2 & H3).
      destruct (Hw i s Hs) as [Hw1 Hw2]. split; [|by apply H3]. unfold may_write.
      destruct (Hh i s Hs) as [H0|Hi]; [by rewrite (H2 H0)|]. by rewrite H1 by (by apply elem_of_elements).
    + intros i s' Hs'. left. destruct (commit_ids_lookup ts _ _ _ _ Hs') as (s & Hs & _ & _ & H1 & H2 & _).
      destruct (Hh i s Hs) as [H0|Hi]; [by apply H2|]. apply H1. by apply elem_of_elements.
    + intros i b' Hb'. left. destruct (Hcb i b' Hb') as (b & Hb & _ & ->). unfold BlockEntry.Committed.
      destruct (Hc i b Hb) as [Hle|[Hu Hi]].
      * destruct (_ && _); lia.
      * rewrite bool_decide_eq_true_2 by (by apply elem_of_elements). rewrite Hu, Z.eqb_refl. cbn. lia.
    + intros i b' s' r Hb' Hs' Hin. destruct (Hcb i b' Hb') as (b & Hb & _ & ->).
      destruct (commit_ids_lookup ts _ _ _ _ Hs') as (s & Hs & Er & _). rewrite Er in Hin.
      destruct (Hr i b s r Hb Hs Hin) as [[Hle Hle']|]; [|by right]. destruct (_ && _) eqn:Eb; [|left; split; [done|lia]].
      apply andb_true_iff in Eb as [_ Eb]. apply negb_true_iff, negb_false_iff, Z.eqb_eq in Eb. exfalso.
      destruct (Forall2_lookup_l _ _ _ _ _ (so_blocks _ _ Hok) Hb) as (s2 & Hs2 & [Href _]). rewrite Hs in Hs2. injection Hs2 as <-.
      apply list_elem_of_lookup in Hin as [j Hj]. destruct (rf_past _ _ Href _ _ Hj) as [Hp _]. pose proof (rf_time _ _ Href). lia.
    + lia.
    + by rewrite Est.
  - left. lia.
  - rewrite (so_live _ _ Hok'), (so_live _ _ Hok). by rewrite Erows.
Qed.
End segments.

(** ** Tables *)
Definition live_of (ss : list block) : Z := live_rows (seg_rows ss).

(** The sum over the segments of a table. *)
Definition total (S : gmap Z (list block)) : Z := map_fold (fun _ ss n => live_of ss + n) 0 S.

Lemma total_new S id ss : S !! id = None -> total (<[id := ss]> S) = live_of ss + total S.
Proof. intros H. unfold total. rewrite map_fold_insert_L; [done|intros; lia|done]. Qed.

Lemma total_update S id ss ss' : S !! id = Some ss -> total (<[id := ss']> S) = total S - live_of ss + live_of ss'.
Proof.
  intros H. rewrite <- insert_delete_eq, total_new by apply lookup_delete_eq.
  assert (E : total S = live_of ss + total (delete id S)); [|lia].
  rewrite <- (total_new (delete id S) id ss) by apply lookup_delete_eq. by rewrite insert_delete_eq, insert_id.
Qed.

Lemma total_ge0 S : 0 <= total S.
Proof.
  induction S as [|id ss S Hn IH] using map_ind; [done|]. rewrite total_new by done. unfold live_of. pose proof (live_rows_le (seg_rows ss)). lia.
Qed.

Definition row_at (S : gmap Z (list block)) (id : Z) (i : nat) : option row := S !! id ≫= fun ss => seg_rows ss !! i.

(** Rows are kept, and new ones are born at [ts]. *)
Record extends_by (ts : Z) (S S' : gmap Z (list block)) : Prop := {
  ex_old id i r : row_at S id i = Some r -> row_at S' id i = Some r;
  ex_new id i r : row_at S' id i = Some r -> row_at S id i = None -> r = mkRow ts None;
}.

Lemma extends_by_refl ts S : extends_by ts S S.
Proof. split; [done|]. intros id i r H1 H2. congruence. Qed.
Lemma extends_by_trans ts S1 S2 S3 : extends_by ts S1 S2 -> extends_by ts S2 S3 -> extends_by ts S1 S3.
Proof.
  intros [O1 N1] [O2 N2]. split; [auto|]. intros id i r H3 H1. destruct (row_at S2 id i) as [r2|] eqn:H2; [|by eapply N2].
  pose proof (O2 _ _ _ H2). assert (r2 = r) as -> by congruence. by eapply N1.
Qed.
Lemma extends_by_append ts S id ss ss' k : S !! id = Some ss -> seg_rows ss' = seg_rows ss ++ replicate k (mkRow ts None) ->
  extends_by ts S (<[id := ss']> S).
Proof.
  intros Hs Hr. split; unfold row_at.
  - intros id' i r H. destruct (decide (id = id')) as [<-|]; [|by rewrite lookup_insert_ne]. rewrite lookup_insert_eq. cbn. rewrite Hs in H. cbn in H.
    rewrite Hr. by apply lookup_app_l_Some.
  - intros id' i r H1 H2. destruct (decide (id = id')) as [<-|]; [|rewrite lookup_insert_ne in H1 by done; congruence].
    rewrite lookup_insert_eq in H1. rewrite Hs in H2. cbn in H1, H2. rewrite Hr in H1. apply lookup_app_Some in H1 as [H1|[_ H1]]; [congruence|].
    by apply lookup_replicate in H1 as [-> _].
Qed.
Lemma extends_by_new ts S id : S !! id = None -> extends_by ts S (<[id := []]> S).
Proof.
  intros Hs. split; unfold row_at; intros id' i r.
  - intros H. destruct (decide (id = id')) as [<-|]; [by rewrite Hs in H|by rewrite lookup_insert_ne].
  - destruct (decide (id = id')) as [<-|]; [by rewrite lookup_insert_eq|rewrite lookup_insert_ne by done; congruence].
Qed.

Section tables.
Context {R : Type} (txn_id ts : Z) (Hts : commit_time ts).
Implicit Types (te : TableEntry) (s : TxnTableStore R) (S : gmap Z (list block)) (sg : SegmentEntry) (ss : list block).

Definition stored_of s (id : Z) : gset Z := from_option store_blocks_ ∅ (txn_segments_store_ s !! id).

(** The other fields of a store. *)
Definition same_rest s s' : Prop :=
  delete_state_ s' = delete_state_ s /\ compact_state_ s' = compact_state_ s /\ flushed_segments_ s' = flushed_segments_ s /\
  TxnTableStore.blocks_ s' = TxnTableStore.blocks_ s.

(** A table while a transaction commits; [skip] is a segment that was opened and has no rows yet. *)
Record table_mid (skip : option Z) te s S : Prop := {
  tm_segs : map_Forall2 (fun id sg ss => segment_id_ sg = id /\ seg_mid txn_id ts (stored_of s id) sg ss /\
    (skip = Some id \/ listed ts (stored_of s id) sg)) (segment_map_ te) S;
  tm_ids id : is_Some (segment_map_ te !! id) -> 0 <= id < next_segment_id_ te;
  tm_stores id : is_Some (txn_segments_store_ s !! id) -> is_Some (segment_map_ te !! id);
  tm_unsealed u : unsealed_segment_ te = Some u -> u ∉ set_sealed_segments_ s /\
    exists sg, segment_map_ te !! u = Some sg /\ status_ sg = kUnsealed;
  tm_sealed id : id ∈ set_sealed_segments_ s -> exists sg, segment_map_ te !! id = Some sg /\ status_ sg = kUnsealed;
  tm_next : 0 <= next_segment_id_ te;
}.

Lemma mid_lookup skip te s S id sg : table_mid skip te s S -> segment_map_ te !! id = Some sg ->
  exists ss, S !! id = Some ss /\ segment_id_ sg = id /\ seg_mid txn_id ts (stored_of s id) sg ss /\ (skip = Some id \/ listed ts (stored_of s id) sg).
Proof.
  intros Hm Hsg. pose proof (tm_segs _ _ _ _ Hm id) as H. rewrite Hsg in H. inversion H as [? ss Hp E1 E2|]. exists ss. by split.
Qed.

(** Replacing a segment. *)
Lemma mid_update skip te s s' S id sg sg' ss' : table_mid skip te s S -> segment_map_ te !! id = Some sg ->
  segment_id_ sg' = id -> status_ sg' = status_ sg -> seg_mid txn_id ts (stored_of s' id) sg' ss' -> listed ts (stored_of s' id) sg' ->
  (forall id', id' <> id -> txn_segments_store_ s' !! id' = txn_segments_store_ s !! id' /\ skip <> Some id') ->
  set_sealed_segments_ s' = set_sealed_segments_ s ->
  table_mid None (TableEntry.set_segment sg' te) s' (<[id := ss']> S).
Proof.
  intros Hm Hsg Hid Hst Hmid Hlist Hother Hseal. pose proof Hm as [Hsegs Hids Hstores Hun Hsealed Hnext].
  assert (Hst' : forall u, (exists sg0, segment_map_ te !! u = Some sg0 /\ status_ sg0 = kUnsealed) ->
    exists sg0, <[id := sg']> (segment_map_ te) !! u = Some sg0 /\ status_ sg0 = kUnsealed).
  { intros u (sg0 & H0 & H1). destruct (decide (id = u)) as [<-|].
    - exists sg'. rewrite lookup_insert_eq. split; [done|]. congruence.
    - exists sg0. by rewrite lookup_insert_ne. }
  unfold TableEntry.set_segment. rewrite Hid. split; cbn; rewrite ?Hseal; try done.
  - intros id'. destruct (decide (id = id')) as [<-|Hne].
    + rewrite !lookup_insert_eq. constructor. split_and!; [done|done|by right].
    + rewrite !lookup_insert_ne by done. specialize (Hsegs id'). destruct (Hother id' ltac:(done)) as [E1 E2].
      destruct Hsegs as [sg0 ss0 (H1 & H2 & H3)|]; constructor. unfold stored_of in *. rewrite E1. split_and!; [done|done|].
      destruct H3 as [|]; [done|by right].
  - intros id' [x Hx]. destruct (decide (id = id')) as [<-|]; [apply Hids; by exists sg|]. rewrite lookup_insert_ne in Hx by done. apply Hids. by exists x.
  - intros id' Hx. destruct (decide (id = id')) as [<-|]; [rewrite lookup_insert_eq; by eexists|]. rewrite lookup_insert_ne by done.
    apply Hstores. by rewrite <- (proj1 (Hother id' ltac:(done))).
  - intros u Hu. destruct (Hun u Hu) as [H1 H2]. split; [done|]. by apply Hst'.
  - intros id' Hx. apply Hst'. by apply Hsealed.
Qed.

Lemma add_blocks_ok id mut s s' : foldl (fun s k => TxnTableStore.AddBlockStore id k s) s mut = s' ->
  stored_of s' id = list_to_set mut ∪ stored_of s id /\ (forall id', id' <> id -> txn_segments_store_ s' !! id' = txn_segments_store_ s !! id') /\
  set_sealed_segments_ s' = set_sealed_segments_ s /\ same_rest s s'.
Proof.
  clear Hts. revert s. induction mut as [|k mut IH]; intros s E; cbn in E.
  { subst s'. split_and!; try done. set_solver. }
  destruct (IH (TxnTableStore.AddBlockStore id k s) E) as (E1 & E2 & E3 & E4). split_and!.
  - rewrite E1. unfold stored_of at 1, TxnTableStore.AddBlockStore. cbn. rewrite lookup_insert_eq. cbn. unfold stored_of.
    destruct (txn_segments_store_ s !! id) as [x|]; cbn; set_solver.
  - intros id' Hne. rewrite E2 by done. unfold TxnTableStore.AddBlockStore. cbn. by rewrite lookup_insert_ne.
  - by rewrite E3.
  - exact E4.
Qed.

Lemma store_requests_ok id rs mut s : no_store rs ->
  TableEntry.store_requests id (rs ++ map AddBlockStore mut) s = foldl (fun s k => TxnTableStore.AddBlockStore id k s) s mut.
Proof.
  intros Hrs. unfold TableEntry.store_requests. rewrite foldl_app.
  assert (E : forall s, foldl (fun s r => match r with AddBlockStore b => TxnTableStore.AddBlockStore id b s | _ => s end) s rs = s).
  { induction Hrs as [|r rs Hr Hrs IH]; intros s0; [done|]. cbn. rewrite IH. by destruct r. }
  rewrite E. clear. revert s. induction mut as [|k mut IH]; intros s; [done|]. cbn. apply IH.
Qed.

(** *** Appends *)

(** What else a table keeps. *)
Definition same_table te te' : Prop :=
  TableEntry.row_count_ te' = TableEntry.row_count_ te /\ max_commit_ts_ te' = max_commit_ts_ te /\ table_deleted_ te' = table_deleted_ te /\
  compaction_alg_ te' = compaction_alg_ te.

(** Segments that a reader finds at [ts] stay so. *)
Definition keeps_found te te' : Prop := forall id sg, segment_map_ te !! id = Some sg -> min_row_ts_ sg <= ts ->
  exists sg', segment_map_ te' !! id = Some sg' /\ min_row_ts_ sg' <= ts.

Lemma keeps_found_trans te1 te2 te3 : keeps_found te1 te2 -> keeps_found te2 te3 -> keeps_found te1 te3.
Proof. intros H1 H2 id sg Hs Hm. destruct (H1 id sg Hs Hm) as (sg2 & Hs2 & Hm2). eauto. Qed.

Lemma keeps_found_segment te id sg sg' : segment_map_ te !! id = Some sg -> segment_id_ sg' = id -> min_row_ts_ sg' <= min_row_ts_ sg ->
  keeps_found te (TableEntry.set_segment sg' te).
Proof.
  intros Hsg Hid Hmin id0 sg0 H0 Hm0. unfold TableEntry.set_segment. rewrite Hid. cbn. destruct (decide (id = id0)) as [<-|].
  - exists sg'. rewrite lookup_insert_eq. split; [done|]. assert (sg0 = sg) as -> by congruence. lia.
  - exists sg0. by rewrite lookup_insert_ne.
Qed.

Lemma new_segment_mid id cols : seg_mid txn_id ts ∅ (NewSegmentEntry id cols) [].
Proof.
  split; try done; [apply new_segment_ok|cbn; unfold commit_time in Hts; lia|split; [done|by intros []]].
Qed.

Lemma room_room sg ss : seg_ok sg ss -> TableEntry.Room sg = row_capacity_ sg - row_count_ sg /\ 0 <= row_capacity_ sg - row_count_ sg.
Proof.
  intros Hok. pose proof (so_bound _ _ Hok). destruct (so_capacity _ _ Hok) as (k & Hk & Hk'). pose proof (so_count _ _ Hok). split; [|lia].
  unfold TableEntry.Room. apply swrap_id; [lia|]. unfold signed_range, DEFAULT_BLOCK_CAPACITY in *. lia.
Qed.

Lemma open_segment_ok te s S : table_mid None te s S -> next_segment_id_ te + 1 < 2 ^ 32 ->
  exists sg te' s' S' ss, TableEntry.open_segment te s = Ok (sg, te', s') /\ table_mid (Some (segment_id_ sg)) te' s' S' /\
    segment_map_ te' !! segment_id_ sg = Some sg /\ S' !! segment_id_ sg = Some ss /\ status_ sg = kUnsealed /\ row_count_ sg < row_capacity_ sg /\
    extends_by ts S S' /\ total S' = total S /\ same_rest s s' /\ txn_segments_store_ s' = txn_segments_store_ s /\ same_table te te' /\ keeps_found te te' /\
    next_segment_id_ te <= next_segment_id_ te' <= next_segment_id_ te + 1.
Proof.
  intros Hm Hnext. pose proof Hm as [Hsegs Hids Hstores Hun Hsealed Hn0].
  assert (Hnew : forall s0, txn_segments_store_ s0 = txn_segments_store_ s -> same_rest s s0 ->
    (forall id, id ∈ set_sealed_segments_ s0 -> exists sg, segment_map_ te !! id = Some sg /\ status_ sg = kUnsealed) ->
    let new := next_segment_id_ te in let sg := NewSegmentEntry new (TableEntry.columns_ te) in
    let te' := TableEntry.set_segment sg (TableEntry.set_unsealed (Some new) new (TableEntry.set_next (u32 (new + 1)) te)) in
    segment_map_ te !! new = None /\ table_mid (Some new) te' s0 (<[new := []]> S) /\ extends_by ts S (<[new := []]> S) /\
    total (<[new := []]> S) = total S /\ keeps_found te te' /\ next_segment_id_ te' = new + 1).
  { intros s0 Es Hrest Hse new sg te'. assert (Hno : segment_map_ te !! new = None).
    { destruct (segment_map_ te !! new) as [x|] eqn:E; [|done]. specialize (Hids new ltac:(by rewrite E)). lia. }
    assert (Hno' : S !! new = None) by (specialize (Hsegs new); rewrite Hno in Hsegs; by inversion Hsegs).
    assert (Hsn : stored_of s0 new = ∅).
    { unfold stored_of. rewrite Es. destruct (txn_segments_store_ s !! new) as [x|] eqn:E; [|done]. destruct (Hstores new) as [y Hy]; [by rewrite E|congruence]. }
    assert (Enext : u32 (new + 1) = new + 1) by (apply wrap_id; unfold unsigned_range; lia).
    split_and!; try done.
    - subst te'. unfold TableEntry.set_segment. split; cbn; rewrite ?Enext.
      + intros id. destruct (decide (new = id)) as [<-|Hne].
        * rewrite !lookup_insert_eq. constructor. rewrite Hsn. split_and!; [done|apply new_segment_mid|by left].
        * rewrite !lookup_insert_ne by done. unfold stored_of. rewrite Es. specialize (Hsegs id).
          destruct Hsegs as [sg0 ss0 (H1 & H2 & H3)|]; constructor. split_and!; [done|done|]. destruct H3; [done|by right].
      + intros id [x Hx]. destruct (decide (new = id)) as [<-|]; [lia|]. rewrite lookup_insert_ne in Hx by done. specialize (Hids id ltac:(by exists x)). lia.
      + intros id Hx. rewrite Es in Hx. specialize (Hstores id Hx). destruct (decide (new = id)) as [<-|]; [by rewrite lookup_insert_eq|by rewrite lookup_insert_ne].
      + intros u [= <-]. split; [|exists sg; by rewrite lookup_insert_eq]. intros Hx. destruct (Hse _ Hx) as (y & Hy & _). congruence.
      + intros id Hx. destruct (Hse _ Hx) as (y & Hy & Hys). exists y. rewrite lookup_insert_ne; [done|congruence].
      + lia.
    - by apply extends_by_new.
    - rewrite total_new by done. change (live_of []) with 0. lia.
    - intros id sg0 H0 Hmin. exists sg0. split; [|done]. subst te'. cbn. rewrite lookup_insert_ne; [done|congruence]. }
  unfold TableEntry.open_segment. destruct (unsealed_segment_ te) as [u|] eqn:Eu.
  - destruct (Hun u eq_refl) as (Hnot & sg & Hsg & Hst). rewrite Hsg. destruct (mid_lookup _ _ _ _ _ _ Hm Hsg) as (ss & Hss & Hid & Hmid & Hl).
    destruct (room_room _ _ (md_ok _ _ _ _ _ Hmid)) as [-> Hr]. destruct (Z.leb_spec (row_capacity_ sg - row_count_ sg) 0) as [Hfull|Hroom].
    + destruct (Hnew (TxnTableStore.AddSealedSegment u s)) as (E & H1 & H2 & H3 & H4 & H5); [done|done| |].
      { cbn [TxnTableStore.AddSealedSegment set_sealed_segments_]. intros id [->%elem_of_singleton|Hx]%elem_of_union; [by exists sg|by apply Hsealed]. }
      rewrite E. eexists _, _, _, _, []. split; [done|]. cbn [segment_id_ NewSegmentEntry]. split; [exact H1|].
      cbn [segment_map_ TableEntry.set_segment TableEntry.set_segment_map segment_id_ NewSegmentEntry]. rewrite !lookup_insert_eq.
      split_and!; try done; rewrite H5; lia.
    + exists sg, te, s, S, ss. split; [done|]. rewrite Hid. split_and!; try done; try lia.
      * split; try done; [|intros u0 Hu0; apply Hun; congruence].
        eapply map_Forall2_impl; [exact Hsegs|]. intros id sg0 ss0 (H1 & H2 & [H3|H3]); [done|]. split_and!; [done|done|by right].
      * apply extends_by_refl.
      * intros id sg0 H0 H1. by exists sg0.
  - destruct (Hnew s) as (E & H1 & H2 & H3 & H4 & H5); [done|done|done|].
    rewrite E. eexists _, _, _, _, []. split; [done|]. cbn [segment_id_ NewSegmentEntry]. split; [exact H1|].
    cbn [segment_map_ TableEntry.set_segment TableEntry.set_segment_map segment_id_ NewSegmentEntry]. rewrite !lookup_insert_eq.
    split_and!; try done; rewrite H5; lia.
Qed.

Lemma same_rest_trans s1 s2 s3 : same_rest s1 s2 -> same_rest s2 s3 -> same_rest s1 s3.
Proof. intros (A1 & A2 & A3 & A4) (B1 & B2 & B3 & B4). split_and!; congruence. Qed.
Lemma same_table_trans te1 te2 te3 : same_table te1 te2 -> same_table te2 te3 -> same_table te1 te3.
Proof. intros (A1 & A2 & A3 & A4) (B1 & B2 & B3 & B4). split_and!; congruence. Qed.

Lemma finished_iff st : current_count_ st + remaining st = TableEntry.total_count st -> TableEntry.Finished st = (remaining st =? 0).
Proof.
  intros E. unfold TableEntry.Finished. rewrite <- E. destruct (Z.eqb_spec (remaining st) 0) as [->|]; [apply Z.eqb_eq; lia|apply Z.eqb_neq; lia].
Qed.

Lemma append_loop_ok fuel te s st S : table_mid None te s S -> input_ok st -> current_count_ st + remaining st = TableEntry.total_count st ->
  remaining st <= Z.of_nat fuel -> next_segment_id_ te + remaining st < 2 ^ 32 ->
  exists te' s' st' S' rs, TableEntry.append_loop fuel txn_id ts te s st = Some (Ok (remaining st, te', s', st', rs)) /\
    table_mid None te' s' S' /\ extends_by ts S S' /\ total S' = total S + remaining st /\ same_rest s s' /\ same_table te te' /\ keeps_found te te' /\
    next_segment_id_ te <= next_segment_id_ te' <= next_segment_id_ te + remaining st.
Proof.
  revert te s st S. induction fuel as [|fuel IH]; intros te s st S Hm Hio Hcount Hfuel Hnext; pose proof (remaining_ge0 st Hio) as Hge;
    cbn [TableEntry.append_loop]; rewrite (finished_iff st Hcount); destruct (Z.eqb_spec (remaining st) 0) as [E0|E0].
  1,3: exists te, s, st, S, []; rewrite E0; split_and!; try done; try lia; [apply extends_by_refl|intros id sg Hs Hmin; by exists sg].
  { lia. }
  destruct (open_segment_ok te s S Hm ltac:(lia)) as (sg & te1 & s1 & S1 & ss & -> & Hm1 & Hsg & Hss & Hst & Hroom & Hex1 & Ht1 & Hr1 & Es1 & Hsame1 & Hk1 & Hn1).
  destruct (mid_lookup _ _ _ _ _ _ Hm1 Hsg) as (ss1 & Hss1 & _ & Hmid & _). assert (ss1 = ss) as -> by congruence.
  destruct (AppendData_mid txn_id ts Hts _ sg ss st Hmid Hst Hroom Hio) as
    (k & sg' & ss' & st' & rs & mut & -> & Hno & Hk & Hmut & Hmid' & Hrows & Hio' & Ebl & Hrem & Hcur & Hframe & Hrc & Hcap).
  assert (Hk1' : 1 <= k <= remaining st) by lia. destruct Hframe as (Eid & Est & Emin & _).
  set (s2 := TableEntry.store_requests (segment_id_ sg') (rs ++ map AddBlockStore mut) s1).
  destruct (add_blocks_ok (segment_id_ sg') mut s1 s2) as (Est2 & Eother & Eseal & Hr2).
  { subst s2. by rewrite store_requests_ok. }
  rewrite Eid in Est2, Eother.
  assert (Hm2 : table_mid None (TableEntry.set_segment sg' te1) s2 (<[segment_id_ sg := ss']> S1)).
  { eapply mid_update; try done; rewrite ?Est2; try done.
    - right. destruct mut as [|q mut]; [by specialize (Hmut ltac:(lia))|]. cbn. intros E. apply (not_elem_of_empty (C := gset Z) q). rewrite <- E. set_solver.
    - intros id' Hne. split; [by apply Eother|congruence]. }
  destruct (IH (TableEntry.set_segment sg' te1) s2 st' (<[segment_id_ sg := ss']> S1) Hm2 Hio') as
    (te3 & s3 & st3 & S3 & rs3 & -> & Hm3 & Hex3 & Ht3 & Hr3 & Hsame3 & Hk3 & Hn3).
  { unfold TableEntry.total_count. rewrite Ebl. fold (TableEntry.total_count st). lia. }
  { lia. }
  { cbn. lia. }
  pose proof (io_count _ Hio) as [Hc1 Hc2]. eexists te3, s3, st3, S3, _. split_and!.
  - rewrite Hrem. replace (k + (remaining st - k)) with (remaining st) by lia. rewrite wrap_id by (unfold unsigned_range; lia). done.
  - done.
  - eapply extends_by_trans; [exact Hex1|]. eapply extends_by_trans; [|exact Hex3]. by eapply extends_by_append.
  - rewrite Ht3, (total_update _ _ _ _ Hss), Ht1, Hrem. unfold live_of. rewrite Hrows, live_rows_app, live_rows_new. lia.
  - eapply same_rest_trans; [exact Hr1|]. by eapply same_rest_trans.
  - eapply same_table_trans; [exact Hsame1|]. done.
  - eapply keeps_found_trans; [exact Hk1|]. eapply keeps_found_trans; [|exact Hk3]. eapply keeps_found_segment; [exact Hsg|done|lia].
  - cbn in Hn3. lia.
  - cbn in Hn3. lia.
Qed.
End tables.
