(* ===== verification/TableCommit.v ===== *)
(** * Transactions on a table

    [PrepareCommit] and [Commit] of the changes that a transaction collected in its store. *)
From stdpp Require Import sorting.
From S2P Require Import Prelude Serialize DataType EntryList FileWorker BlockVersion Bitmask BlockEntry BlockHistory BlockFlush SegmentEntry SegmentHistory SegmentVisibility SegmentWrites Compaction TxnTableStore TableEntry TxnStore TxnStoreHistory TableHistory.
Import BlockEntry(BlockEntry, DEFAULT_BLOCK_CAPACITY, block_row_count_, block_id_).
Import SegmentEntry.

(** ** Deleted rows *)
Definition die (ts : Z) (dies : bool) (r : row) : row := if dies then mkRow (born r) (Some ts) else r.

(** The rows of a segment at the offsets of its blocks. *)
Definition doomed_in (m : list (Z * list Z)) (o : Z) : bool :=
  existsb (fun '(k, offsets) => (k =? o / DEFAULT_BLOCK_CAPACITY) && bool_decide (o mod DEFAULT_BLOCK_CAPACITY ∈ offsets)) m.
Definition doomed (l : list (Z * gmap Z (list Z))) (id o : Z) : bool :=
  existsb (fun '(id', m) => (id' =? id) && doomed_in (map_to_list m) o) l.

Definition alive (r : option row) : Prop := exists t, r = Some (mkRow t None).

Lemma doomed_in_cons k offsets m o : doomed_in ((k, offsets) :: m) o =
  (k =? o / DEFAULT_BLOCK_CAPACITY) && bool_decide (o mod DEFAULT_BLOCK_CAPACITY ∈ offsets) || doomed_in m o.
Proof. done. Qed.

Lemma position_split o : 0 <= o -> 0 <= o / DEFAULT_BLOCK_CAPACITY /\ 0 <= o mod DEFAULT_BLOCK_CAPACITY < DEFAULT_BLOCK_CAPACITY /\
  DEFAULT_BLOCK_CAPACITY * (o / DEFAULT_BLOCK_CAPACITY) + o mod DEFAULT_BLOCK_CAPACITY = o.
Proof.
  unfold DEFAULT_BLOCK_CAPACITY. pose proof (Z.div_mod o 8192). pose proof (Z.mod_pos_bound o 8192). pose proof (Z.div_pos o 8192). lia.
Qed.

Section kills.
Context (txn_id ts : Z).
Implicit Types (sg : SegmentEntry) (ss : list block) (s : block) (rs : list row) (m : list (Z * list Z)).

Lemma die_die b1 b2 r : die ts b2 (die ts b1 r) = die ts (b1 || b2) r.
Proof. by destruct b1, b2. Qed.

Lemma kill_some offsets rs : NoDup offsets -> Forall (fun o => 0 <= o /\ alive (rs !! Z.to_nat o)) offsets ->
  exists rs', kill ts offsets rs = Some rs' /\ forall i, rs' !! i = die ts (bool_decide (Z.of_nat i ∈ offsets)) <$> rs !! i.
Proof.
  intros Hnd. revert rs. induction Hnd as [|o offsets Ho Hnd IH]; intros rs Hl; cbn [kill].
  { exists rs. split; [done|]. intros i. by destruct (rs !! i). }
  apply Forall_cons_1 in Hl as [(H0 & t & Ht) Hl]. rewrite Ht. destruct (IH (<[Z.to_nat o := mkRow t (Some ts)]> rs)) as (rs' & E & Hi).
  { apply Forall_forall. intros o' Ho'. rewrite Forall_forall in Hl. destruct (Hl o' Ho') as [H1 H2]. split; [done|].
    rewrite list_lookup_insert_ne; [done|]. intros E. assert (o = o') as -> by lia. done. }
  exists rs'. split; [done|]. intros i. rewrite Hi. destruct (decide (Z.to_nat o = i)) as [<-|Hne].
  - rewrite list_lookup_insert_eq by (by eapply lookup_lt_Some). rewrite Ht. cbn. rewrite (bool_decide_eq_true_2 (_ ∈ o :: _)) by (rewrite Z2Nat.id by lia; left).
    unfold die at 2. cbn. by case_bool_decide.
  - rewrite list_lookup_insert_ne by done. f_equal. f_equal. apply bool_decide_ext. rewrite elem_of_cons. split; [by right|].
    intros [E0|]; [lia|done].
Qed.

(** Where a position of a segment is. *)
Lemma seg_rows_at sg ss i o : seg_ok sg ss -> 0 <= o < DEFAULT_BLOCK_CAPACITY ->
  seg_rows ss !! Z.to_nat (DEFAULT_BLOCK_CAPACITY * Z.of_nat i + o) = ss !! i ≫= fun s => rows s !! Z.to_nat o.
Proof.
  intros Hok Ho. destruct (ss !! i) as [s|] eqn:Hs; cbn.
  - by apply (seg_rows_lookup _ _ _ _ _ (so_blocks _ _ Hok) (so_full _ _ Hok) Hs Ho).
  - apply (seg_rows_lookup_ge _ _ _ _ (so_blocks _ _ Hok)); [lia|done].
Qed.

Definition entry_alive ss (p : Z * list Z) : Prop := 0 <= p.1 /\ p.2 <> [] /\ NoDup p.2 /\
  Forall (fun o => 0 <= o < DEFAULT_BLOCK_CAPACITY /\ alive (ss !! Z.to_nat p.1 ≫= fun s => rows s !! Z.to_nat o)) p.2.

Lemma kill_blocks_some m ss : NoDup m.*1 -> Forall (entry_alive ss) m ->
  exists ss', kill_blocks txn_id ts m ss = Some ss' /\ forall i o, 0 <= o < DEFAULT_BLOCK_CAPACITY ->
    (ss' !! i ≫= fun s => rows s !! Z.to_nat o) =
    die ts (doomed_in m (DEFAULT_BLOCK_CAPACITY * Z.of_nat i + o)) <$> (ss !! i ≫= fun s => rows s !! Z.to_nat o).
Proof.
  revert ss. induction m as [|[k offs] m IH]; intros ss Hnd Hm; cbn [kill_blocks].
  { exists ss. split; [done|]. intros i o _. cbn. by destruct (_ ≫= _). }
  apply NoDup_cons in Hnd as [Hk Hnd]. apply Forall_cons_1 in Hm as [(Hk0 & Hne & Hnd' & Hal) Hm]. cbn [fst snd] in *.
  destruct (ss !! Z.to_nat k) as [s|] eqn:Hs.
  2:{ destruct offs as [|o offs]; [done|]. apply Forall_cons_1 in Hal as [(_ & t & Ht) _]. done. }
  destruct (kill_some offs (rows s) Hnd') as (rs & -> & Hrs).
  { eapply Forall_impl; [exact Hal|]. intros o [Ho Hx]. split; [lia|done]. }
  destruct (IH (<[Z.to_nat k := mkBlock rs (room s) txn_id ts]> ss) Hnd) as (ss' & E & Hss').
  { apply Forall_forall. intros [k' offs'] Hin. rewrite Forall_forall in Hm. destruct (Hm _ Hin) as (H1 & H2 & H3 & H4). split_and!; try done. cbn in *.
    eapply Forall_impl; [exact H4|]. intros o [Ho Hx]. split; [done|]. rewrite list_lookup_insert_ne; [done|].
    intros E. assert (k' = k) as -> by lia. apply Hk. by apply (list_elem_of_fmap_2 fst m (k, offs')). }
  exists ss'. split; [done|]. intros i o Ho. rewrite Hss', doomed_in_cons by done.
  assert (Hdiv : (DEFAULT_BLOCK_CAPACITY * Z.of_nat i + o) / DEFAULT_BLOCK_CAPACITY = Z.of_nat i) by (rewrite Z.mul_comm, Z.div_add_l, Z.div_small by lia; lia).
  assert (Hmod : (DEFAULT_BLOCK_CAPACITY * Z.of_nat i + o) mod DEFAULT_BLOCK_CAPACITY = o) by (rewrite Z.add_comm, Z.mul_comm, Z_mod_plus_full; by apply Z.mod_small).
  rewrite Hdiv, Hmod. destruct (decide (Z.to_nat k = i)) as [<-|Hne'].
  - rewrite list_lookup_insert_eq by (by eapply lookup_lt_Some). rewrite Hs. cbn. rewrite Hrs, !Z2Nat.id by lia. rewrite Z.eqb_refl. cbn.
    destruct (rows s !! Z.to_nat o) as [r|]; [|done]. cbn. by rewrite die_die.
  - rewrite list_lookup_insert_ne by done. rewrite (proj2 (Z.eqb_neq k _)) by lia. done.
Qed.

Lemma seg_rows_kill sg sg' ss ss' m : seg_ok sg ss -> seg_ok sg' ss' ->
  (forall i o, 0 <= o < DEFAULT_BLOCK_CAPACITY -> (ss' !! i ≫= fun s => rows s !! Z.to_nat o) =
    die ts (doomed_in m (DEFAULT_BLOCK_CAPACITY * Z.of_nat i + o)) <$> (ss !! i ≫= fun s => rows s !! Z.to_nat o)) ->
  forall p, seg_rows ss' !! p = die ts (doomed_in m (Z.of_nat p)) <$> seg_rows ss !! p.
Proof.
  intros Hok Hok' H p. pose proof (H (Z.to_nat (Z.of_nat p / DEFAULT_BLOCK_CAPACITY)) (Z.of_nat p mod DEFAULT_BLOCK_CAPACITY)) as E.
  destruct (position_split (Z.of_nat p) ltac:(lia)) as (H1 & H2 & H3). specialize (E H2).
  rewrite <- (seg_rows_at sg ss _ _ Hok H2), <- (seg_rows_at sg' ss' _ _ Hok' H2) in E. rewrite Z2Nat.id, H3, Nat2Z.id in E by done. done.
Qed.
End kills.

(** ** A table between transactions *)
Record table_idle (ts0 : Z) (te : TableEntry) (S : gmap Z (list block)) : Prop := {
  ti_segs : map_Forall2 (fun id sg ss => segment_id_ sg = id /\ seg_idle ts0 sg ss) (segment_map_ te) S;
  ti_ids id : is_Some (segment_map_ te !! id) -> 0 <= id < next_segment_id_ te;
  ti_unsealed u : unsealed_segment_ te = Some u -> exists sg, segment_map_ te !! u = Some sg /\ status_ sg = kUnsealed;
  ti_next : 0 <= next_segment_id_ te;
  ti_count : TableEntry.row_count_ te = total S;
  ti_deleted : table_deleted_ te = false;
}.

(** What a reader at [ts] gets for a row id. *)
Definition reads (te : TableEntry) (ts id o : Z) : bool :=
  match TableEntry.GetSegmentByID id ts te with Some sg => CheckRowVisible sg o ts true | None => false end.

Definition row_visible (S : gmap Z (list block)) (ts id o : Z) : bool :=
  match row_at S id (Z.to_nat o) with Some r => visible_at ts r | None => false end.

Lemma idle_segment_reads ts0 sg ss ts o : seg_idle ts0 sg ss -> offset_ok o ->
  (if ts <? min_row_ts_ sg then false else CheckRowVisible sg o ts true) = seg_row_visible ss ts o.
Proof.
  intros Hi Ho. pose proof (sd_ok _ _ _ Hi) as Hok. rewrite (CheckRowVisible_rows sg ss) by done. unfold block_committed, seg_row_visible.
  destruct (offset_split o Ho) as (Hd & Hm & E). pose proof (seg_rows_at sg ss (Z.to_nat (o / DEFAULT_BLOCK_CAPACITY)) _ Hok Hm) as Hr.
  rewrite Z2Nat.id, <- E in Hr by lia. rewrite Hr. unfold GetBlockEntryByID.
  destruct (ss !! Z.to_nat (o / DEFAULT_BLOCK_CAPACITY)) as [s|] eqn:Hs; cbn; [|rewrite andb_false_r; by destruct (ts <? _)].
  destruct (rows s !! Z.to_nat (o mod DEFAULT_BLOCK_CAPACITY)) as [r|] eqn:Hrow; [|rewrite andb_false_r; by destruct (ts <? _)].
  destruct (Forall2_lookup_r _ _ _ _ _ (so_blocks _ _ Hok) Hs) as (b & Hb & _). rewrite Hb.
  destruct (sd_rows _ _ _ Hi _ _ _ _ Hb Hs (list_elem_of_lookup_2 _ _ _ Hrow)) as [H1 H2]. unfold visible_at.
  destruct (Z.leb_spec (born r) ts); [|rewrite !andb_false_r; by destruct (ts <? _)].
  rewrite (proj2 (Z.ltb_ge _ _)) by lia. by rewrite (proj2 (Z.leb_le _ _)) by lia.
Qed.

Lemma idle_reads ts0 te S ts id o : table_idle ts0 te S -> offset_ok o -> reads te ts id o = row_visible S ts id o.
Proof.
  intros Hi Ho. unfold reads, TableEntry.GetSegmentByID, row_visible, row_at. pose proof (ti_segs _ _ _ Hi id) as H.
  destruct (segment_map_ te !! id) as [sg|]; inversion H as [? ss [_ Hs] E1 E2|E1 E2]; [|done]. cbn.
  pose proof (idle_segment_reads _ _ _ ts o Hs Ho) as E. unfold seg_row_visible in E. rewrite <- E. by destruct (ts <? _).
Qed.

(** ** The steps of a commit *)
Section commit.
Context {R : Type} (txn_id ts : Z) (Hts : commit_time ts).
Implicit Types (te : TableEntry) (s : TxnTableStore R) (S : gmap Z (list block)) (sg : SegmentEntry) (ss : list block).

Lemma idle_table_mid ts0 te s S : table_idle ts0 te S -> ts0 <= ts -> txn_segments_store_ s = ∅ -> set_sealed_segments_ s = ∅ ->
  table_mid txn_id ts None te s S.
Proof.
  intros [Hsegs Hids Hun Hn _ _] Hle E1 E2. assert (Hst : forall id, stored_of s id = ∅) by (intros id; unfold stored_of; by rewrite E1).
  split; try done.
  - eapply map_Forall2_impl; [exact Hsegs|]. intros id sg ss [Hid Hsi]. rewrite Hst. destruct (idle_mid txn_id ts _ _ _ Hsi Hle) as [H1 H2].
    split_and!; [done|done|by right].
  - intros id. rewrite E1, lookup_empty. by intros [].
  - intros u Hu. rewrite E2. split; [apply not_elem_of_empty|by apply Hun].
  - intros id. rewrite E2. by intros ?%not_elem_of_empty.
Qed.

(** *** Deletes *)
Definition deletable te S (p : Z * gmap Z (list Z)) : Prop :=
  (exists sg, segment_map_ te !! p.1 = Some sg /\ min_row_ts_ sg <= ts) /\
  forall k offsets, p.2 !! k = Some offsets -> 0 <= k /\ offsets <> [] /\ NoDup offsets /\
    Forall (fun o => 0 <= o < DEFAULT_BLOCK_CAPACITY /\ alive (row_at S p.1 (Z.to_nat (DEFAULT_BLOCK_CAPACITY * k + o)))) offsets.

Definition kills (l : list (Z * gmap Z (list Z))) S S' : Prop :=
  dom S' = dom S /\ forall id i, row_at S' id i = die ts (doomed l id (Z.of_nat i)) <$> row_at S id i.

Lemma deletable_entries te S id m sg ss : deletable te S (id, m) -> S !! id = Some ss -> seg_ok sg ss ->
  Forall (entry_alive ss) (map_to_list m) /\ entries_ok (map_to_list m).
Proof.
  intros [_ Hd] Hs Hok. cbn in Hd.
  assert (H : Forall (entry_alive ss) (map_to_list m)).
  { apply Forall_forall. intros [k offs] Hin%elem_of_map_to_list. destruct (Hd k offs Hin) as (H0 & Hne & Hnd & Hal). split_and!; try done.
    eapply Forall_impl; [exact Hal|]. cbn. intros o [Ho Hx]. split; [done|]. unfold row_at in Hx. rewrite Hs in Hx. cbn in Hx.
    rewrite <- (seg_rows_at sg ss _ _ Hok Ho), Z2Nat.id by done. done. }
  split; [done|]. eapply Forall_impl; [exact H|]. intros [k offs] (H0 & Hne & Hnd & Hal). split_and!; try done.
  eapply Forall_impl; [exact Hal|]. intros o [? _]. cbn. lia.
Qed.

Lemma delete_segments_ok l te s S : table_mid txn_id ts None te s S -> NoDup l.*1 -> Forall (deletable te S) l -> total S < 2 ^ 64 ->
  exists te' s' S' rs, TableEntry.delete_segments txn_id ts l te s = Ok (true, total S - total S', te', s', rs) /\
    table_mid txn_id ts None te' s' S' /\ kills l S S' /\ total S' <= total S /\ same_rest s s' /\ same_table te te' /\
    next_segment_id_ te' = next_segment_id_ te.
Proof.
  revert te s S. induction l as [|[id m] l IH]; intros te s S Hm Hnd Hl Hb; cbn [TableEntry.delete_segments].
  { rewrite <- (Z.sub_diag (total S)). exists te, s, S, []. split_and!; try done. split; [done|]. intros id i. cbn. by destruct (row_at S id i). }
  apply NoDup_cons in Hnd as [Hid Hnd]. apply Forall_cons_1 in Hl as [Hd Hl]. pose proof Hd as [(sg & Hsg & Hmin) _]. cbn [fst] in Hsg.
  unfold TableEntry.GetSegmentByID. rewrite Hsg, (proj2 (Z.ltb_ge _ _)) by done.
  destruct (mid_lookup _ _ _ _ _ _ _ _ Hm Hsg) as (ss & Hss & Eid & Hmid & _). pose proof (md_ok _ _ _ _ _ Hmid) as Hok.
  destruct (deletable_entries _ _ _ _ _ _ Hd Hss Hok) as [Hal Hent].
  destruct (kill_blocks_some txn_id ts (map_to_list m) ss (NoDup_fst_map_to_list m) Hal) as (ss' & Hk & Hrows).
  destruct (DeleteData_mid txn_id ts Hts _ _ _ _ _ Hmid Hent Hk) as (sg' & -> & Hmid' & Hsame). cbn [res_bind].
  destruct Hsame as (Eid' & _ & _ & Est & _ & _ & Emin & _). rewrite Eid in Eid'.
  set (rs := map (fun p => AddBlockStore p.1) (map_to_list m)).
  destruct (add_blocks_ok id (map_to_list m).*1 s (TableEntry.store_requests id rs s)) as (Est2 & Eother & Eseal & Hr2).
  { rewrite <- (store_requests_ok id []) by constructor. subst rs. f_equal. cbn. by rewrite <- list_fmap_compose. }
  pose proof (seg_rows_kill ts _ _ _ _ _ Hok (md_ok _ _ _ _ _ Hmid') Hrows) as Hrow.
  assert (Hm2 : table_mid txn_id ts None (TableEntry.set_segment sg' te) (TableEntry.store_requests id rs s) (<[id := ss']> S)).
  { eapply mid_update; try done; rewrite ?Est2; try done; [left; lia|]. intros id' Hne. split; [by apply Eother|done]. }
  pose proof (kill_blocks_live _ _ _ _ _ Hk) as [Hlive _].
  assert (Hlt : live_of ss' <= live_of ss /\ 0 <= live_of ss').
  { unfold live_of. pose proof (live_rows_le (seg_rows ss')). assert (0 <= foldr (fun p n => Z.of_nat (length p.2) + n) 0 (map_to_list m))
      by (clear; induction (map_to_list m); cbn; lia). lia. }
  pose proof (total_update _ _ _ ss' Hss) as Ht.
  destruct (IH (TableEntry.set_segment sg' te) (TableEntry.store_requests id rs s) (<[id := ss']> S) Hm2 Hnd) as
    (te3 & s3 & S3 & rs3 & -> & Hm3 & [Hd3 Hk3] & Ht3 & Hr3 & Hsame3 & Hn3).
  { apply Forall_forall. intros [id' m'] Hin. rewrite Forall_forall in Hl. destruct (Hl _ Hin) as [(sg0 & Hsg0 & Hmin0) Hx]. cbn in *.
    assert (id <> id') by (intros ->; apply Hid; by apply (list_elem_of_fmap_2 fst l (id', m'))).
    split; cbn; [exists sg0; rewrite Eid', lookup_insert_ne by done; done|].
    unfold row_at in *. by rewrite lookup_insert_ne. }
  { lia. }
  cbn [res_bind]. pose proof (total_ge0 S3). eexists te3, s3, S3, _. split_and!; try done.
  - do 3 f_equal. rewrite wrap_id; [|unfold unsigned_range]; fold (live_of ss) (live_of ss'); do 4 f_equal; lia.
  - split; [rewrite Hd3; apply dom_insert_lookup_L; by rewrite Hss|]. intros id' i. rewrite Hk3. unfold row_at at 1 2. cbn [doomed existsb]. fold (doomed l id' (Z.of_nat i)). destruct (decide (id = id')) as [<-|Hne].
    + rewrite lookup_insert_eq, Hss, Z.eqb_refl. cbn. rewrite Hrow. destruct (seg_rows ss !! i) as [r|]; [|done]. cbn. by rewrite die_die.
    + rewrite lookup_insert_ne by done. by rewrite (proj2 (Z.eqb_neq _ _)).
  - lia.
  - by eapply same_rest_trans.
Qed.

(** *** Sealing *)
Lemma seal_segments ids te : NoDup ids ->
  (forall id, id ∈ ids -> exists sg, segment_map_ te !! id = Some sg /\ segment_id_ sg = id /\ status_ sg = kUnsealed) ->
  exists te', TableEntry.change_segments TableStore.seal ids te = Ok te' /\ te' = TableEntry.set_segment_map (segment_map_ te') te /\
    forall id, segment_map_ te' !! id = (fun sg => if bool_decide (id ∈ ids) then set_status kSealed sg else sg) <$> segment_map_ te !! id.
Proof.
  intros Hnd. revert te. induction Hnd as [|id ids Hid Hnd IH]; intros te Hall; cbn [TableEntry.change_segments].
  { exists te. split_and!; [done|by destruct te|]. intros id. by destruct (segment_map_ te !! id). }
  destruct (Hall id ltac:(left)) as (sg & Hsg & Eid & Est). rewrite Hsg.
  assert (Es : TableStore.seal sg = Ok (set_status kSealed sg)) by (unfold TableStore.seal, SetSealed; by rewrite Est). rewrite Es. cbn [res_bind].
  destruct (IH (TableEntry.set_segment (set_status kSealed sg) te)) as (te' & -> & E & Hte').
  { intros id' Hin. destruct (Hall id' ltac:(by right)) as (sg' & H1 & H2 & H3). exists sg'. cbn. rewrite Eid, lookup_insert_ne by (intros ->; done). done. }
  exists te'. split; [done|]. split; [by rewrite E|]. intros id'. rewrite Hte'. cbn. rewrite Eid. destruct (decide (id = id')) as [<-|Hne].
  - rewrite lookup_insert_eq, Hsg. cbn. rewrite bool_decide_eq_false_2, bool_decide_eq_true_2 by (done || left). done.
  - rewrite lookup_insert_ne by done. destruct (segment_map_ te !! id') as [sg'|]; [|done]. cbn. f_equal.
    assert (E' : bool_decide (id' ∈ id :: ids) = bool_decide (id' ∈ ids)).
    { apply bool_decide_ext. rewrite elem_of_cons. split; [intros [->|]; done|by right]. }
    by rewrite E'.
Qed.

Lemma sealed_mid stored sg ss : seg_mid txn_id ts stored sg ss -> status_ sg = kUnsealed -> seg_mid txn_id ts stored (set_status kSealed sg) ss.
Proof.
  intros [Hok Hw Hh Hst Hc Hr Hmax [Hdep Hcc]] E. split; try done.
  - destruct Hok. by split.
  - split; [done|]. intros H. destruct (Hcc H); congruence.
Qed.

(** *** The commit of the segments *)
Definition seg_pending (stored : Z -> gset Z) (id : Z) sg ss : Prop :=
  segment_id_ sg = id /\ seg_mid txn_id ts (stored id) sg ss /\ listed ts (stored id) sg.
Definition seg_done (id : Z) sg ss : Prop := segment_id_ sg = id /\ seg_idle ts sg ss.

Definition pending_of (l : list (Z * TxnSegmentStore)) (id : Z) : gset Z :=
  from_option store_blocks_ ∅ ((list_to_map l : gmap Z TxnSegmentStore) !! id).

Lemma pending_cons id x l id' : id ∉ l.*1 ->
  pending_of ((id, x) :: l) id = store_blocks_ x /\ pending_of l id = ∅ /\ (id <> id' -> pending_of ((id, x) :: l) id' = pending_of l id').
Proof.
  intros Hid. unfold pending_of. cbn. rewrite lookup_insert_eq. split_and!; [done| |].
  - by rewrite not_elem_of_list_to_map_1.
  - intros Hne. by rewrite lookup_insert_ne.
Qed.

Lemma commit_segments_ok l dels te S : NoDup l.*1 -> map_Forall2 (seg_pending (pending_of l)) (segment_map_ te) S ->
  (forall id, id ∈ l.*1 -> is_Some (segment_map_ te !! id)) ->
  exists te' rs S', TableEntry.commit_segments txn_id ts l dels te = Ok (te', rs) /\ map_Forall2 seg_done (segment_map_ te') S' /\
    te' = TableEntry.set_segment_map (segment_map_ te') te /\ (forall id, seg_rows <$> S' !! id = seg_rows <$> S !! id) /\
    (forall id, status_ <$> segment_map_ te' !! id = status_ <$> segment_map_ te !! id).
Proof.
  revert te S. induction l as [|[id x] l IH]; intros te S Hnd Hsegs Hin; cbn [TableEntry.commit_segments].
  { exists te, [], S. split_and!; try done; [|by destruct te]. eapply map_Forall2_impl; [exact Hsegs|]. intros id sg ss (H1 & H2 & H3).
    split; [done|]. by eapply mid_idle. }
  apply NoDup_cons in Hnd as [Hid Hnd]. destruct (Hin id ltac:(left)) as [sg Hsg]. unfold TableEntry.commit_segment. rewrite Hsg.
  pose proof (Hsegs id) as H. rewrite Hsg in H. inversion H as [? ss (Eid & Hmid & _) E1 E2|]. symmetry in E2. clear H.
  destruct (pending_cons id x l id Hid) as (Ep & Ep0 & _). rewrite Ep in Hmid.
  destruct (CommitSegment_mid txn_id ts Hts _ _ _ (block_column_entries_ x) (map_to_list <$> dels !! id) Hmid) as
    (sg' & rs & ss' & -> & Hmid' & Hl' & Hrows & Eid' & Est & _). cbn [res_bind]. rewrite Eid in Eid'.
  destruct (IH (TableEntry.set_segment sg' te) (<[id := ss']> S) Hnd) as (te' & rs' & S' & -> & Hd & Ete & Hrows' & Hst').
  { cbn. rewrite Eid'. intros id'. destruct (decide (id = id')) as [<-|Hne].
    - rewrite !lookup_insert_eq. constructor. split; [done|]. by rewrite Ep0.
    - rewrite !lookup_insert_ne by done. specialize (Hsegs id'). destruct (pending_cons id x l id' Hid) as (_ & _ & Eo).
      destruct Hsegs as [sg0 ss0 (H1 & H2 & H3)|]; constructor. by rewrite Eo in H2, H3. }
  { intros id' Hi. cbn. rewrite Eid'. destruct (decide (id = id')) as [<-|]; [by rewrite lookup_insert_eq|]. rewrite lookup_insert_ne by done. apply Hin. by right. }
  cbn [res_bind]. exists te', (map (pair id) rs ++ rs'), S'. split_and!; try done.
  - intros id'. rewrite Hrows'. destruct (decide (id = id')) as [<-|]; [|by rewrite lookup_insert_ne]. rewrite lookup_insert_eq, E2. cbn. by rewrite Hrows.
  - intros id'. rewrite Hst'. cbn. rewrite Eid'. destruct (decide (id = id')) as [<-|]; [|by rewrite lookup_insert_ne].
    rewrite lookup_insert_eq, Hsg. cbn. by rewrite Est.
Qed.
End commit.

(** ** Counting deleted rows *)
Section counting.
Context (ts : Z).
Implicit Types (F : gmap Z (list row)) (dels : list (Z * Z)).

Definition live_total F : Z := map_fold (fun _ rs n => live_rows rs + n) 0 F.

Lemma total_live (S : gmap Z (list block)) : total S = live_total (seg_rows <$> S).
Proof. unfold total, live_total. by rewrite map_fold_fmap. Qed.

Lemma live_total_update F id rs rs' : F !! id = Some rs -> live_total (<[id := rs']> F) = live_total F - live_rows rs + live_rows rs'.
Proof.
  intros H. assert (Hnew : forall F rs, F !! id = None -> live_total (<[id := rs]> F) = live_rows rs + live_total F).
  { intros F0 rs0 H0. unfold live_total. rewrite map_fold_insert_L; [done|intros; lia|done]. }
  rewrite <- insert_delete_eq, Hnew by apply lookup_delete_eq.
  assert (E : live_total F = live_rows rs + live_total (delete id F)); [|lia].
  rewrite <- (Hnew (delete id F) rs) by apply lookup_delete_eq. by rewrite insert_delete_eq, insert_id.
Qed.

Lemma live_total_dies dels F F' : NoDup dels -> dom F' = dom F ->
  (forall id o, (id, o) ∈ dels -> 0 <= o /\ alive (F !! id ≫= fun rs => rs !! Z.to_nat o)) ->
  (forall id i, (F' !! id ≫= fun rs => rs !! i) = die ts (bool_decide ((id, Z.of_nat i) ∈ dels)) <$> (F !! id ≫= fun rs => rs !! i)) ->
  live_total F' = live_total F - Z.of_nat (length dels).
Proof.
  intros Hnd. revert F. induction Hnd as [|[id o] dels Hin Hnd IH]; intros F Hdom Hal Hdie.
  - cbn. rewrite Z.sub_0_r. f_equal. apply map_eq. intros id. destruct (F !! id) as [rs|] eqn:E.
    + assert (Hid : id ∈ dom F') by (rewrite Hdom; by eapply elem_of_dom_2). apply elem_of_dom in Hid as [rs' E']. rewrite E'. f_equal.
      apply list_eq. intros i. specialize (Hdie id i). rewrite E, E' in Hdie. cbn in Hdie. rewrite Hdie. by destruct (rs !! i).
    + apply not_elem_of_dom. rewrite Hdom. by apply not_elem_of_dom.
  - destruct (Hal id o ltac:(left)) as (H0 & t & Ht). destruct (F !! id) as [rs|] eqn:E; [|done]. cbn in Ht.
    set (F1 := <[id := <[Z.to_nat o := mkRow t (Some ts)]> rs]> F).
    assert (HF1 : forall id' i, (id', i) <> (id, Z.to_nat o) -> (F1 !! id' ≫= fun rs => rs !! i) = F !! id' ≫= fun rs => rs !! i).
    { intros id' i Hne. subst F1. destruct (decide (id = id')) as [<-|]; [|by rewrite lookup_insert_ne].
      rewrite lookup_insert_eq, E. cbn. apply list_lookup_insert_ne. congruence. }
    assert (HF1' : (F1 !! id ≫= fun rs => rs !! Z.to_nat o) = Some (mkRow t (Some ts))).
    { subst F1. rewrite lookup_insert_eq. cbn. rewrite list_lookup_insert_eq; [done|]. by eapply lookup_lt_Some. }
    rewrite (IH F1).
    + subst F1. rewrite (live_total_update _ _ _ _ E), (live_insert _ _ _ _ Ht). cbn [length].
      assert (live_rows [mkRow t None] = 1) by done. assert (live_rows [mkRow t (Some ts)] = 0) by done. lia.
    + rewrite Hdom. subst F1. symmetry. apply dom_insert_lookup_L. by rewrite E.
    + intros id' o' Hin'. destruct (Hal id' o' ltac:(by right)) as [H1 H2]. split; [done|]. rewrite HF1; [done|].
      intros [= -> E']. apply Hin. assert (o' = o) as -> by lia. done.
    + intros id' i. rewrite Hdie. destruct (decide ((id', i) = (id, Z.to_nat o))) as [[= -> ->]|Hne].
      * rewrite HF1', E. cbn. rewrite Ht, Z2Nat.id, bool_decide_eq_true_2 by (done || left). cbn. unfold die. cbn. by case_bool_decide.
      * rewrite HF1 by done. f_equal. f_equal. apply bool_decide_ext. rewrite elem_of_cons. split; [|by right].
        intros [[= -> <-]|]; [|done]. by rewrite Nat2Z.id in Hne.
Qed.
End counting.

Lemma total_ext (S S' : gmap Z (list block)) : (forall id, seg_rows <$> S' !! id = seg_rows <$> S !! id) -> total S' = total S.
Proof. intros H. rewrite !total_live. f_equal. apply map_eq. intros id. by rewrite !lookup_fmap. Qed.

Lemma row_at_ext (S S' : gmap Z (list block)) : (forall id, seg_rows <$> S' !! id = seg_rows <$> S !! id) -> forall id i, row_at S' id i = row_at S id i.
Proof.
  intros H id i. unfold row_at. specialize (H id). destruct (S' !! id), (S !! id); cbn in H |- *; congruence.
Qed.

(** ** The row ids of a store *)
Lemma doomed_in_groups (m : gmap Z (list Z)) o :
  doomed_in (map_to_list m) o = match m !! (o / DEFAULT_BLOCK_CAPACITY) with Some l => bool_decide (o mod DEFAULT_BLOCK_CAPACITY ∈ l) | None => false end.
Proof.
  apply Bool.eq_iff_eq_true. unfold doomed_in. rewrite existsb_exists. split.
  - intros ([k offs] & Hin & [Hk%Z.eqb_eq Ho]%andb_true_iff). apply list_elem_of_In, elem_of_map_to_list in Hin. by rewrite <- Hk, Hin.
  - destruct (m !! _) as [l|] eqn:E; [|done]. intros Ho. exists (o / DEFAULT_BLOCK_CAPACITY, l). split.
    + by apply list_elem_of_In, elem_of_map_to_list.
    + by rewrite Z.eqb_refl.
Qed.

Lemma doomed_groups (D : DeleteState) dels id o : groups D dels -> Forall (fun p => offset_ok p.2) dels -> offset_ok o ->
  doomed (map_to_list D) id o = bool_decide ((id, o) ∈ dels).
Proof.
  intros [Hs _] Hoff Ho. destruct (row_split o Ho) as [Eb Eo].
  assert (E : doomed (map_to_list D) id o = match D !! id with Some m => doomed_in (map_to_list m) o | None => false end).
  { apply Bool.eq_iff_eq_true. unfold doomed. rewrite existsb_exists. split.
    - intros ([id' m] & Hin & [Hk%Z.eqb_eq Hd]%andb_true_iff). apply list_elem_of_In, elem_of_map_to_list in Hin. by rewrite <- Hk, Hin.
    - destruct (D !! id) as [m|] eqn:E; [|done]. intros Hd. exists (id, m). split; [by apply list_elem_of_In, elem_of_map_to_list|by rewrite Z.eqb_refl]. }
  rewrite E. clear E. specialize (Hs id (o / DEFAULT_BLOCK_CAPACITY)). rewrite <- Eb in Hs.
  assert (Hsl : o mod DEFAULT_BLOCK_CAPACITY ∈ slice dels id (block_of_row o) <-> (id, o) ∈ dels).
  { rewrite slice_elem. split; [|intros H; exists o; by rewrite Eo]. intros (o' & Hin & H1 & H2). rewrite Forall_forall in Hoff.
    specialize (Hoff _ Hin). cbn in Hoff. rewrite (row_of_block o o'); try done. congruence. }
  apply Bool.eq_iff_eq_true. rewrite bool_decide_eq_true, <- Hsl. destruct (D !! id) as [m|]; cbn in Hs.
  - rewrite doomed_in_groups, <- Eb, Hs. destruct (slice dels id _); [split; [done|by intros ?%elem_of_nil]|apply bool_decide_eq_true].
  - split; [done|]. destruct (slice dels id _); [by intros ?%elem_of_nil|done].
Qed.

Section transactions.
Context `{CompactionEnv} {R : Type} (txn_id ts : Z) (Hts : commit_time ts).
Implicit Types (te : TableEntry) (s : TxnTableStore R) (S : gmap Z (list block)) (sg : SegmentEntry) (ss : list block) (added : list R) (dels : list (Z * Z)).

Lemma row_offset sg ss i r : seg_ok sg ss -> seg_rows ss !! i = Some r -> offset_ok (Z.of_nat i).
Proof.
  intros Hok Hr. apply lookup_lt_Some in Hr. pose proof (so_count _ _ Hok). pose proof (so_bound _ _ Hok).
  destruct (so_capacity _ _ Hok) as (k & Hk & Hk'). unfold offset_ok, DEFAULT_BLOCK_CAPACITY in *. lia.
Qed.

Lemma mid_offset skip te s S id i r : table_mid txn_id ts skip te s S -> row_at S id i = Some r -> offset_ok (Z.of_nat i) /\ is_Some (segment_map_ te !! id).
Proof.
  intros Hm Hr. unfold row_at in Hr. destruct (S !! id) as [ss|] eqn:Hs; [|done]. cbn in Hr.
  pose proof (tm_segs _ _ _ _ _ _ Hm id) as Hx. rewrite Hs in Hx. inversion Hx as [sg ss' (_ & Hmid & _) E1 E2|]. split; [|done].
  eapply row_offset; [|exact Hr]. by eapply md_ok.
Qed.

(** The rows of a store, as the input of [AppendData]. *)
Lemma sum_rows (blocks : list (DataBlock R)) types : Forall (block_ok types) blocks ->
  foldr Z.add 0 (map DataBlock.row_count blocks) = Z.of_nat (length (concat (map rows_ blocks))).
Proof.
  induction 1 as [|b bs Hb _ IH]; [done|]. cbn. rewrite length_app, IH, row_count_ok by (by eapply bo_rows). lia.
Qed.

Lemma total_count_sum l : Forall (fun n => 0 <= n < 2 ^ 16) l -> foldr Z.add 0 l < 2 ^ 64 -> foldl (fun n k => u64 (n + k)) 0 l = foldr Z.add 0 l.
Proof.
  intros Hl. assert (Hgen : forall l n, Forall (fun n => 0 <= n < 2 ^ 16) l -> 0 <= n -> n + foldr Z.add 0 l < 2 ^ 64 ->
    foldl (fun n k => u64 (n + k)) n l = n + foldr Z.add 0 l).
  { clear. induction l as [|k l IH]; intros n Hl Hn Hb; cbn in *; [lia|]. apply Forall_cons_1 in Hl as [Hk Hl]. pose proof (remaining_nonneg l Hl).
    rewrite wrap_id by (unfold unsigned_range; lia). rewrite IH by (done || lia). lia. }
  intros Hb. by rewrite Hgen.
Qed.

Lemma append_state_ok (blocks : list (DataBlock R)) types : Forall (block_ok types) blocks ->
  let n := Z.of_nat (length (concat (map rows_ blocks))) in let st := TableStore.append_state_of blocks in n < 2 ^ 64 ->
  input_ok st /\ remaining st = n /\ TableEntry.total_count st = n /\ current_count_ st = 0 /\ (blocks = [] -> n = 0).
Proof.
  intros Hb n st Hn. pose proof (sum_rows _ _ Hb) as Hsum. fold n in Hsum.
  assert (Hsz : Forall (fun n => 0 <= n < 2 ^ 16) (map DataBlock.row_count blocks)).
  { apply Forall_map. eapply Forall_impl; [exact Hb|]. intros b Hbo. cbn. rewrite row_count_ok by (by eapply bo_rows).
    pose proof (bo_rows _ _ Hbo). unfold DEFAULT_BLOCK_CAPACITY in *. lia. }
  assert (Hrem : remaining st = n) by (unfold remaining; cbn; rewrite drop_0; lia).
  split_and!; try done.
  - split; cbn; try done; [lia| |].
    + split; [done|]. destruct blocks as [|b bs]; [done|]. apply Forall_cons_1 in Hsz as [Hx _]. exact (proj1 Hx).
    + rewrite Hrem. lia.
  - unfold TableEntry.total_count. cbn. rewrite total_count_sum by (done || lia). lia.
  - intros ->. done.
Qed.

Lemma mid_store skip te s s' S : table_mid txn_id ts skip te s S -> txn_segments_store_ s' = txn_segments_store_ s ->
  set_sealed_segments_ s' = set_sealed_segments_ s -> table_mid txn_id ts skip te s' S.
Proof. intros [H1 H2 H3 H4 H5 H6] E1 E2. split; unfold stored_of in *; rewrite ?E1, ?E2; done. Qed.

Lemma mid_row_count skip te s S n : table_mid txn_id ts skip te s S -> table_mid txn_id ts skip (TableEntry.set_row_count n te) s S.
Proof. intros [H1 H2 H3 H4 H5 H6]. by split. Qed.

Lemma AppendData_table types te s S : table_mid txn_id ts None te s S -> dml_store types s -> table_deleted_ te = false ->
  let n := Z.of_nat (length (rows_of s)) in 0 <= TableEntry.row_count_ te -> TableEntry.row_count_ te + n < 2 ^ 64 -> next_segment_id_ te + n < 2 ^ 32 ->
  exists te' s' S' rs, TableEntry.AppendData txn_id ts te (TxnTableStore.set_append_state (Some (TableStore.append_state_of (TxnTableStore.blocks_ s))) s) =
      Some (Ok (te', s', rs)) /\
    table_mid txn_id ts None te' s' S' /\ extends_by ts S S' /\ total S' = total S + n /\ same_rest s s' /\ keeps_found ts te te' /\
    TableEntry.row_count_ te' = TableEntry.row_count_ te + n /\ table_deleted_ te' = false /\ next_segment_id_ te' <= next_segment_id_ te + n.
Proof.
  intros Hm [Hb _ _ _ _ Hfl _] Hdel n Hrc Hbound Hnext. set (s0 := TxnTableStore.set_append_state _ s).
  assert (Hm0 : table_mid txn_id ts None te s0 S) by (by eapply mid_store).
  destruct (append_state_ok _ _ Hb) as (Hio & Hrem & Htc & Hcc & Hnil); [unfold n, rows_of in *; lia|]. fold (rows_of s) in Hrem, Htc, Hnil. fold n in Hrem, Htc, Hnil.
  set (st := TableStore.append_state_of (TxnTableStore.blocks_ s)) in *.
  assert (Hf : TableEntry.Finished st = (n =? 0)) by (rewrite finished_iff; [by rewrite Hrem|lia]).
  unfold TableEntry.AppendData. rewrite Hdel. cbn [append_state_ s0 TxnTableStore.set_append_state]. rewrite Hf, Htc.
  destruct (Z.eqb_spec n 0) as [E0|E0].
  - rewrite E0, !Z.add_0_r. assert (Hsame : keeps_found ts te te) by (intros id sg Hs Hmin; by exists sg).
    change (SegmentEntry.blocks_ st) with (map (@DataBlock.row_count R) (TxnTableStore.blocks_ s)).
    destruct (TxnTableStore.blocks_ s) as [|b bs] eqn:Eb; cbn [map].
    + cbn [flushed_segments_ TxnTableStore.set_append_state s0]. rewrite Hfl. cbn.
      eexists _, _, S, _. split; [done|]. split_and!; try done; [by apply mid_row_count|apply extends_by_refl].
    + eexists _, _, S, _. split; [done|]. split_and!; try done. apply extends_by_refl.
  - destruct (append_loop_ok txn_id ts Hts (Z.to_nat n) te s0 st S Hm0 Hio) as (te' & s' & st' & S' & rs & E & Hm' & Hex & Ht & Hrest & Hst & Hk & Hn).
    { rewrite Htc, Hcc, Hrem. done. }
    { lia. }
    { lia. }
    rewrite E. cbn [res_bind]. rewrite Hrem. destruct Hst as (E1 & _ & E3 & _). rewrite E1.
    eexists _, _, S', _. split; [done|]. split_and!; try done.
    + apply mid_row_count. by eapply mid_store.
    + lia.
    + cbn. apply wrap_id. unfold unsigned_range. lia.
    + cbn. congruence.
    + cbn. lia.
Qed.

Lemma groups_deletable (D : DeleteState) dels te S : groups D dels -> NoDup dels ->
  (forall id o, (id, o) ∈ dels -> offset_ok o /\ alive (row_at S id (Z.to_nat o)) /\ exists sg, segment_map_ te !! id = Some sg /\ min_row_ts_ sg <= ts) ->
  Forall (deletable ts te S) (map_to_list D).
Proof.
  intros [Hs Hu] Hnd Hall. assert (Hoff : Forall (fun p => offset_ok p.2) dels).
  { apply Forall_forall. intros [id o] Hin. by destruct (Hall id o Hin). }
  apply Forall_forall. intros [id m] Hin%elem_of_map_to_list.
  assert (Hk : forall k offs, m !! k = Some offs -> offs = slice dels id k /\ offs <> []).
  { intros k offs E. specialize (Hs id k). rewrite Hin in Hs. cbn in Hs. rewrite E in Hs. destruct (slice dels id k); [done|]. by injection Hs as ->. }
  split; cbn.
  - destruct (map_choose m (Hu id m Hin)) as (k & offs & E). destruct (Hk k offs E) as [-> Hne]. destruct (slice dels id k) as [|x l] eqn:Es; [done|].
    assert (Hx : x ∈ slice dels id k) by (rewrite Es; left). apply slice_elem in Hx as (o & Ho & _). by destruct (Hall id o Ho) as (_ & _ & Hx).
  - intros k offs E. destruct (Hk k offs E) as [-> Hne].
    assert (Hel : forall x, x ∈ slice dels id k -> exists o, (id, o) ∈ dels /\ o / DEFAULT_BLOCK_CAPACITY = k /\ o mod DEFAULT_BLOCK_CAPACITY = x).
    { intros x (o & Ho & <- & <-)%slice_elem. exists o. destruct (Hall id o Ho) as (Hok & _). by destruct (row_split o Hok) as [-> ->]. }
    split_and!; [|done|by apply slice_nodup|].
    + destruct (slice dels id k) as [|x l]; [done|]. destruct (Hel x ltac:(left)) as (o & Ho & <- & _). destruct (Hall id o Ho) as (Hok & _).
      by destruct (offset_split o Hok) as ([? _] & _).
    + apply Forall_forall. intros x (o & Ho & <- & <-)%Hel. destruct (Hall id o Ho) as (Hok & Hal & _).
      destruct (offset_split o Hok) as (_ & Hm & <-). done.
Qed.

(** The table between [PrepareCommit] and [Commit]. *)
Record prepared te s S : Prop := {
  pr_segs : map_Forall2 (seg_pending txn_id ts (stored_of s)) (segment_map_ te) S;
  pr_ids id : is_Some (segment_map_ te !! id) -> 0 <= id < next_segment_id_ te;
  pr_stores id : is_Some (txn_segments_store_ s !! id) -> is_Some (segment_map_ te !! id);
  pr_unsealed u : unsealed_segment_ te = Some u -> exists sg, segment_map_ te !! u = Some sg /\ status_ sg = kUnsealed;
  pr_next : 0 <= next_segment_id_ te;
  pr_count : TableEntry.row_count_ te = total S;
  pr_deleted : table_deleted_ te = false;
}.

Lemma seal_prepared te s S : table_mid txn_id ts None te s S -> TableEntry.row_count_ te = total S -> table_deleted_ te = false ->
  exists te', TableEntry.change_segments TableStore.seal (elements (set_sealed_segments_ s)) te = Ok te' /\ prepared te' s S /\
    next_segment_id_ te' = next_segment_id_ te.
Proof.
  intros [Hsegs Hids Hstores Hun Hsealed Hn] Hc Hd.
  assert (Hall : forall id, id ∈ elements (set_sealed_segments_ s) -> exists sg, segment_map_ te !! id = Some sg /\ segment_id_ sg = id /\ status_ sg = kUnsealed).
  { intros id (sg & Hsg & Hst)%elem_of_elements%Hsealed. exists sg. specialize (Hsegs id). rewrite Hsg in Hsegs. inversion Hsegs as [? ss (E & _)|]. done. }
  destruct (seal_segments _ te (NoDup_elements _) Hall) as (te' & -> & E & Hte'). exists te'. split; [done|]. split; [|by rewrite E]. rewrite E.
  assert (Hsome : forall id, is_Some (segment_map_ te' !! id) <-> is_Some (segment_map_ te !! id)) by (intros id; rewrite Hte'; apply fmap_is_Some).
  split; cbn; try done.
  - intros id. rewrite Hte'. specialize (Hsegs id). destruct (segment_map_ te !! id) as [sg|] eqn:Hsg; inversion Hsegs as [? ss (H1 & H2 & H3)|]; constructor.
    case_bool_decide as Hb; [|by destruct H3].
    destruct (Hall id Hb) as (sg0 & Hsg0 & _ & Hst). assert (sg0 = sg) as -> by congruence. split; [done|]. split; [by apply sealed_mid|by destruct H3].
  - intros id ?%Hsome. by apply Hids.
  - intros id ?%Hstores. by apply Hsome.
  - intros u Hu. destruct (Hun u Hu) as (Hnot & sg & Hsg & Hst). exists sg. rewrite Hte', Hsg. cbn.
    rewrite bool_decide_eq_false_2; [done|]. by rewrite elem_of_elements.
Qed.

Lemma Commit_ok te s S : prepared te s S ->
  exists te' rs S', TableStore.Commit txn_id ts te s = Ok (te', rs) /\ table_idle ts te' S' /\
    (forall id, seg_rows <$> S' !! id = seg_rows <$> S !! id) /\ TableEntry.row_count_ te' = TableEntry.row_count_ te /\
    next_segment_id_ te' = next_segment_id_ te.
Proof.
  intros [Hsegs Hids Hstores Hun Hn Hc Hd]. unfold TableStore.Commit, TableEntry.CommitWrite.
  assert (Hp : forall id, pending_of (map_to_list (txn_segments_store_ s)) id = stored_of s id) by (intros id; unfold pending_of; by rewrite list_to_map_to_list).
  destruct (commit_segments_ok txn_id ts Hts (map_to_list (txn_segments_store_ s)) (delete_state_ s) te S) as (te' & rs & S' & -> & Hdone & E & Hrows & Hst).
  - apply NoDup_fst_map_to_list.
  - eapply map_Forall2_impl; [exact Hsegs|]. intros id sg ss. unfold seg_pending. by rewrite Hp.
  - intros id ([id' x] & -> & Hin%elem_of_map_to_list)%list_elem_of_fmap. apply Hstores. by exists x.
  - cbn [res_bind]. eexists _, _, S'. split; [done|]. split_and!; [|done|by rewrite E|by rewrite E].
    assert (Hsome : forall id, is_Some (segment_map_ te' !! id) <-> is_Some (segment_map_ te !! id)).
    { intros id. specialize (Hst id). rewrite <- (fmap_is_Some status_), Hst, fmap_is_Some. done. }
    rewrite E. split; cbn; try done.
    + intros id ?%Hsome. by apply Hids.
    + intros u Hu. destruct (Hun u Hu) as (sg & Hsg & Hs). specialize (Hst u). rewrite Hsg in Hst. cbn in Hst.
      apply fmap_Some in Hst as (sg' & Hsg' & E'). exists sg'. split; [done|]. congruence.
    + by rewrite (total_ext S S').
Qed.

Lemma PrepareCommit_ok types ts0 te s S dels : table_idle ts0 te S -> ts0 <= ts -> dml_store types s -> groups (delete_state_ s) dels -> NoDup dels ->
  (forall id o, (id, o) ∈ dels -> 0 <= o /\ alive (row_at S id (Z.to_nat o))) ->
  let n := Z.of_nat (length (rows_of s)) in TableEntry.row_count_ te + n < 2 ^ 64 -> next_segment_id_ te + n < 2 ^ 32 ->
  exists te' s' rs S1 S2, TableStore.PrepareCommit txn_id ts te s = Some (Ok (te', s', rs)) /\ prepared te' s' S2 /\ extends_by ts S S1 /\
    (forall id i, row_at S2 id i = die ts (bool_decide ((id, Z.of_nat i) ∈ dels)) <$> row_at S1 id i) /\
    TableEntry.row_count_ te' = TableEntry.row_count_ te + n - Z.of_nat (length dels) /\ next_segment_id_ te' <= next_segment_id_ te + n.
Proof.
  intros Hidle Hle Hs Hg Hnd Hal n Hbound Hnext. pose proof (ds_segments _ _ Hs) as Es. pose proof (ds_sealed _ _ Hs) as Ese.
  pose proof (idle_table_mid txn_id ts _ _ _ _ Hidle Hle Es Ese) as Hm. pose proof (ti_count _ _ _ Hidle) as Hc. pose proof (total_ge0 S) as Hge.
  unfold TableStore.PrepareCommit.
  destruct (AppendData_table types te s S Hm Hs (ti_deleted _ _ _ Hidle)) as (te1 & s1 & S1 & rs1 & -> & Hm1 & Hex & Ht1 & Hrest & Hk & Hrc & Hd1 & Hnx); [lia..|]. fold n in Ht1, Hrc, Hnx.
  destruct Hrest as (Ed & Ecomp & _ & _). cbn [res_bind]. rewrite Ecomp, (decide_True _ _ (ds_compact _ _ Hs)). cbn [res_bind]. unfold TableEntry.Delete. rewrite Ed.
  assert (Hal1 : forall id o, (id, o) ∈ dels -> offset_ok o /\ alive (row_at S1 id (Z.to_nat o)) /\ exists sg, segment_map_ te1 !! id = Some sg /\ min_row_ts_ sg <= ts).
  { intros id o Hin. destruct (Hal id o Hin) as (H0 & t & Hr). destruct (mid_offset _ _ _ _ _ _ _ Hm Hr) as [Ho [sg Hsg]]. rewrite Z2Nat.id in Ho by done.
    split_and!; [done|exists t; by apply (ex_old _ _ _ Hex)|]. destruct (Hk id sg Hsg) as (sg' & Hsg' & Hmin); [|by exists sg'].
    pose proof (ti_segs _ _ _ Hidle id) as Hx. rewrite Hsg in Hx. inversion Hx as [? ss [_ Hsi]|]. pose proof (sd_times _ _ _ Hsi). lia. }
  destruct (delete_segments_ok txn_id ts Hts (map_to_list (delete_state_ s)) te1 s1 S1 Hm1 (NoDup_fst_map_to_list _)) as
    (te2 & s2 & S2 & rs2 & -> & Hm2 & [Hdom Hkill] & Ht2 & _ & Hst2 & Hn2).
  { by eapply groups_deletable. }
  { lia. }
  assert (Hoff : Forall (fun p => offset_ok p.2) dels) by (apply Forall_forall; intros [id o] Hin; by destruct (Hal1 id o Hin)).
  assert (Hkill' : forall id i, row_at S2 id i = die ts (bool_decide ((id, Z.of_nat i) ∈ dels)) <$> row_at S1 id i).
  { intros id i. rewrite Hkill. destruct (row_at S1 id i) as [r|] eqn:Hr; [|done]. cbn. f_equal. f_equal. apply doomed_groups; [done|done|].
    by destruct (mid_offset _ _ _ _ _ _ _ Hm1 Hr). }
  assert (Htot : total S2 = total S1 - Z.of_nat (length dels)).
  { assert (Hra : forall S id i, ((seg_rows <$> S) !! id ≫= fun rs => rs !! i) = row_at S id i)
      by (intros S0 id i; unfold row_at; rewrite lookup_fmap; by destruct (S0 !! id)).
    rewrite !total_live. apply (live_total_dies ts); [done|by rewrite !dom_fmap_L| |].
    - intros id o Hin. rewrite Hra. destruct (Hal1 id o Hin) as ([? _] & ? & _). done.
    - intros id i. by rewrite !Hra. }
  pose proof (total_ge0 S2). cbn [res_bind]. destruct Hst2 as (Erc & _ & Ed2 & _). rewrite Erc, wrap_id by (unfold unsigned_range; lia).
  destruct (seal_prepared (TableEntry.set_row_count (TableEntry.row_count_ te1 - (total S1 - total S2)) te2) s2 S2) as (te3 & E3 & Hp & Hn3).
  { by apply mid_row_count. }
  { cbn. lia. }
  { cbn. congruence. }
  rewrite E3. cbn [res_bind]. eexists te3, s2, _, S1, S2. split_and!; try done; [rewrite (pr_count _ _ _ Hp); lia|]. rewrite Hn3. cbn. lia.
Qed.
End transactions.

(** ** Transactions *)
Section theorem.
Context `{CompactionEnv} {R : Type}.
Implicit Types (te : TableEntry) (s : TxnTableStore R) (S : gmap Z (list block)).

Lemma before_commit ts ts' (r : row) dies : ts' < ts -> (dies = true -> died r = None) -> visible_at ts' (die ts dies r) = visible_at ts' r.
Proof.
  intros Hlt Hd. destruct dies; [|done]. unfold visible_at, dead_at, die. cbn. rewrite Hd by done. by rewrite (proj2 (Z.leb_gt ts ts')).
Qed.
Lemma after_commit ts ts' (r : row) dies : ts <= ts' -> visible_at ts' (die ts dies r) = negb dies && visible_at ts' r.
Proof.
  intros Hle. destruct dies; [|done]. unfold visible_at, dead_at, die. cbn. rewrite (proj2 (Z.leb_le ts ts')) by done. by rewrite andb_false_r.
Qed.

Lemma new_table_idle config columns te unsealed_id next : 0 <= next -> TableEntry.NewTableEntry config false columns unsealed_id next = Ok te -> table_idle 0 te ∅.
Proof.
  intros Hn E. unfold TableEntry.NewTableEntry in E. apply res_bind_Ok in E as (a & _ & E). injection E as <-.
  split; cbn; try done; [apply map_Forall2_empty|]. intros id. rewrite lookup_empty. by intros [].
Qed.

(** Both phases of a commit, on the rows. *)
Lemma commit_step types txn_id ts0 ts te S s (added : list R) (dels : list (Z * Z)) :
  commit_time ts -> ts0 <= ts -> table_idle ts0 te S -> collected types s added dels -> NoDup dels ->
  (forall id o, (id, o) ∈ dels -> 0 <= o /\ alive (row_at S id (Z.to_nat o))) ->
  let n := Z.of_nat (length added) in TableEntry.row_count_ te + n < 2 ^ 64 -> next_segment_id_ te + n < 2 ^ 32 ->
  exists te1 s1 rs1 te2 rs2 S1 S2,
    TableStore.PrepareCommit txn_id ts te s = Some (Ok (te1, s1, rs1)) /\ TableStore.Commit txn_id ts te1 s1 = Ok (te2, rs2) /\
    table_idle ts te2 S2 /\ TableEntry.row_count_ te2 = TableEntry.row_count_ te + n - Z.of_nat (length dels) /\
    next_segment_id_ te2 <= next_segment_id_ te + n /\ extends_by ts S S1 /\
    forall id i, row_at S2 id i = die ts (bool_decide ((id, Z.of_nat i) ∈ dels)) <$> row_at S1 id i.
Proof.
  intros Hts Hle Hidle Hcol Hnd Hal n Hb1 Hb2. destruct (collected_ok _ _ _ _ Hcol) as (Hs & Hrows & Hg). subst added.
  destruct (PrepareCommit_ok txn_id ts Hts types ts0 te s S dels Hidle Hle Hs Hg Hnd Hal Hb1 Hb2) as (te1 & s1 & rs1 & S1 & S1' & E1 & Hp & Hex & Hk & Hrc & Hnx).
  destruct (Commit_ok txn_id ts Hts _ _ _ Hp) as (te2 & rs2 & S2 & E2 & Hidle2 & Hr2 & Hrc2 & Hnx2).
  exists te1, s1, rs1, te2, rs2, S1, S2. split_and!; try done; [rewrite Hrc2; exact Hrc|rewrite Hnx2; exact Hnx|]. intros id i. by rewrite (row_at_ext _ _ Hr2).
Qed.

(** C5. A transaction that inserts and deletes takes effect in one step: both phases of its commit
    succeed when the rows it deletes are live and named once, readers before its commit timestamp
    see what they saw, readers from it on see the old rows less the deleted ones plus the new ones,
    which take row ids that no row had, and the row count of the table follows. The table is again
    as between transactions, so the next one can start from it. *)
Theorem table_commit_atomic (types : list DataType) txn_id ts0 ts te S s (added : list R) (dels : list (Z * Z)) :
  commit_time ts -> ts0 <= ts -> table_idle ts0 te S -> collected types s added dels -> NoDup dels ->
  (forall id o, (id, o) ∈ dels -> 0 <= o /\ alive (row_at S id (Z.to_nat o))) ->
  let n := Z.of_nat (length added) in TableEntry.row_count_ te + n < 2 ^ 64 -> next_segment_id_ te + n < 2 ^ 32 ->
  exists te1 s1 rs1 te2 rs2 S2,
    TableStore.PrepareCommit txn_id ts te s = Some (Ok (te1, s1, rs1)) /\ TableStore.Commit txn_id ts te1 s1 = Ok (te2, rs2) /\
    table_idle ts te2 S2 /\ TableEntry.row_count_ te2 = TableEntry.row_count_ te + n - Z.of_nat (length dels) /\
    (forall ts' id o, offset_ok o -> ts' < ts -> reads te2 ts' id o = reads te ts' id o) /\
    (forall ts' id o, offset_ok o -> ts <= ts' -> reads te2 ts' id o = true <->
      (reads te ts' id o = true /\ (id, o) ∉ dels) \/ (is_Some (row_at S2 id (Z.to_nat o)) /\ row_at S id (Z.to_nat o) = None)).
Proof.
  intros Hts Hle Hidle Hcol Hnd Hal n Hb1 Hb2.
  destruct (commit_step types txn_id ts0 ts te S s added dels) as (te1 & s1 & rs1 & te2 & rs2 & S1 & S2 & E1 & E2 & Hidle2 & Hrc & _ & Hex & Hk); try done.
  exists te1, s1, rs1, te2, rs2, S2. split_and!; try done.
  - intros ts' id o Ho Hlt. rewrite (idle_reads _ _ _ _ _ _ Hidle2 Ho), (idle_reads _ _ _ _ _ _ Hidle Ho). unfold row_visible.
    rewrite Hk, Z2Nat.id by (by destruct Ho). destruct (row_at S id (Z.to_nat o)) as [r|] eqn:Er.
    + rewrite (ex_old _ _ _ Hex _ _ _ Er). cbn. apply before_commit; [done|]. intros Hin%bool_decide_eq_true.
      destruct (Hal id o Hin) as (_ & t & Ht). rewrite Er in Ht. by injection Ht as ->.
    + destruct (row_at S1 id (Z.to_nat o)) as [r|] eqn:Er1; [|done]. rewrite (ex_new _ _ _ Hex _ _ _ Er1 Er). cbn.
      rewrite before_commit by done. unfold visible_at. cbn. by rewrite (proj2 (Z.leb_gt _ _)).
  - intros ts' id o Ho Hge. rewrite (idle_reads _ _ _ _ _ _ Hidle2 Ho), (idle_reads _ _ _ _ _ _ Hidle Ho). unfold row_visible.
    rewrite Hk, Z2Nat.id by (by destruct Ho). destruct (row_at S id (Z.to_nat o)) as [r|] eqn:Er.
    + rewrite (ex_old _ _ _ Hex _ _ _ Er). cbn. rewrite after_commit, andb_true_iff, negb_true_iff, bool_decide_eq_false by done. naive_solver.
    + destruct (row_at S1 id (Z.to_nat o)) as [r|] eqn:Er1; [|cbn; naive_solver]. rewrite (ex_new _ _ _ Hex _ _ _ Er1 Er). cbn.
      rewrite bool_decide_eq_false_2; [|intros Hin; destruct (Hal id o Hin) as (_ & t & Ht); congruence].
      unfold visible_at. cbn. rewrite (proj2 (Z.leb_le _ _)) by done. naive_solver.
Qed.
End theorem.

(** A table with three rows, one of them deleted. *)
Definition demo_rows_history : list change := [Appends 1 10 0 3; Commits 1 10; Deletes 2 20 [1]; Commits 2 20].
Definition demo_rows_state : block := mkBlock [mkRow 10 None; mkRow 10 (Some 20); mkRow 10 None] 8189 0 20.
Definition demo_rows_block : BlockEntry :=
  match exec_all demo_rows_history (BlockEntry.NewBlockEntry 0 0 [0]) with Ok b => b | Err _ => BlockEntry.NewBlockEntry 0 0 [] end.
Definition demo_rows_segment : SegmentEntry :=
  mkSegmentEntry 0 DEFAULT_SEGMENT_CAPACITY [0] 3 2 10 20 20 UNCOMMIT_TS 10 [demo_rows_block] None kUnsealed ∅.
Definition demo_table : TableEntry := mkTableEntry false [0] 2 {[0 := demo_rows_segment]} (Some 0) 0 1 20 None kTableNone false false 0.

Lemma demo_rows_fits : block_fits demo_rows_block demo_rows_state /\ block_id_ demo_rows_block = 0 /\ BlockEntry.commit_ts_ demo_rows_block = 10.
Proof.
  assert (E : exec_all demo_rows_history (BlockEntry.NewBlockEntry 0 0 [0]) = Ok demo_rows_block) by (vm_compute; reflexivity).
  assert (Hh : history_ok demo_rows_history new_block).
  { cbn. unfold commit_time, unsigned_range, UNCOMMIT_TS. repeat first [split|constructor]; cbn; try lia; try done. }
  pose proof (history_refines demo_rows_history _ _ (new_refines 0 0 [0]) Hh) as H.
  change (apply_all demo_rows_history new_block) with (Some demo_rows_state) in H. destruct H as (b & Eb & Hr).
  rewrite E in Eb. injection Eb as <-. split; [split; [done|]|]; vm_compute; auto.
Qed.

Lemma demo_table_idle : table_idle 20 demo_table {[0 := [demo_rows_state]]}.
Proof.
  destruct demo_rows_fits as (Hf & Hid & Hc). unfold demo_table, demo_rows_segment. generalize dependent demo_rows_block. intros b Hf Hid Hc.
  split; cbn; try done.
  - intros id. destruct (decide (0 = id)) as [<-|]; [|rewrite !lookup_singleton_ne by done; constructor].
    rewrite !lookup_singleton_eq. constructor. split; [done|]. split; cbn; try done.
    + split; cbn; try done; [by constructor| |auto|by exists 1024].
      intros [|i] c E; [|destruct i; discriminate E]. by injection E as <-.
    + by repeat constructor.
    + intros [|i] c E; [|destruct i; discriminate E]. injection E as <-. lia.
    + intros [|i] c s r E Es Hin; [|destruct i; discriminate E]. injection E as <-. injection Es as <-.
      cbn in Hin. rewrite !elem_of_cons in Hin. destruct Hin as [-> |[-> |[-> |Hin]]]; [cbn; lia..|by apply elem_of_nil in Hin].
    + split; [done|]. by intros [].
  - intros id [sg Hsg]. apply lookup_singleton_Some in Hsg as [<- _]. lia.
  - intros u [= <-]. rewrite lookup_singleton_eq. by eexists.
Qed.

#[local] Instance demo_env : CompactionEnv := {| log_quotient := fun x c => Z.log2 x / Z.log2 c; nth_element := fun _ l => l |}.

Definition demo_types : list DataType := [mkDataType 3 None].
Definition demo_insert : DataBlock Z := mkDataBlock demo_types [7; 8] DataBlock.DEFAULT_VECTOR_SIZE.
Definition demo_appended : TxnTableStore Z :=
  match TxnTableStore.Append demo_types demo_insert (TxnTableStore.make 0 1) with Ok (_, s) => s | Err _ => TxnTableStore.make 0 1 end.
Definition demo_store : TxnTableStore Z :=
  match TxnTableStore.Delete [(0, 2)] demo_appended with Ok (_, s) => s | Err _ => demo_appended end.

Lemma demo_collected : collected demo_types demo_store [7; 8] [(0, 2)].
Proof.
  apply (collected_delete demo_types demo_appended [(0, 2)] demo_store [7; 8] []); [|vm_compute; reflexivity].
  apply (collected_append demo_types (TxnTableStore.make 0 1) demo_insert demo_appended [] []); [apply collected_make|vm_compute; congruence|vm_compute; reflexivity].
Qed.

Lemma table_commit_atomic_witness :
  exists te1 s1 rs1 te2 rs2,
    TableStore.PrepareCommit 3 30 demo_table demo_store = Some (Ok (te1, s1, rs1)) /\ TableStore.Commit 3 30 te1 s1 = Ok (te2, rs2) /\
    TableEntry.row_count_ te2 = 3 /\ reads te2 29 0 2 = true /\ reads te2 30 0 2 = false.
Proof.
  destruct (table_commit_atomic demo_types 3 20 30 demo_table {[0 := [demo_rows_state]]} demo_store [7; 8] [(0, 2)]) as
    (te1 & s1 & rs1 & te2 & rs2 & S2 & E1 & E2 & _ & Hrc & Hbefore & Hafter).
  - unfold commit_time, UNCOMMIT_TS. lia.
  - lia.
  - exact demo_table_idle.
  - exact demo_collected.
  - apply NoDup_singleton.
  - intros id o [= -> ->]%list_elem_of_singleton. split; [lia|]. exists 10. reflexivity.
  - reflexivity.
  - reflexivity.
  - exists te1, s1, rs1, te2, rs2. split_and!; [exact E1|exact E2|exact Hrc| |].
    + rewrite Hbefore by (unfold offset_ok; lia). vm_compute. reflexivity.
    + destruct (reads te2 30 0 2) eqn:E; [|reflexivity]. apply Hafter in E; [|unfold offset_ok; lia|lia].
      exfalso. destruct E as [[_ Hn]|[_ Hn]]; [|discriminate Hn]. apply Hn. by apply list_elem_of_singleton.
Defined.
