(* ===== verification/TxnConflict.v ===== *)
(** * Conflicts of concurrent transactions

    [CheckConflict] compares the deletes of two transactions block by block with a merge of their
    offsets. Transactions that pass it commit one after the other; the merge is exact when the
    offsets come in increasing order. *)
From stdpp Require Import sorting.
From S2P Require Import Prelude Serialize DataType EntryList FileWorker BlockVersion Bitmask BlockEntry BlockHistory BlockFlush SegmentEntry SegmentHistory SegmentVisibility SegmentWrites Compaction TxnTableStore TableEntry TxnStore TxnStoreHistory TableHistory TableCommit.
Import BlockEntry(BlockEntry, DEFAULT_BLOCK_CAPACITY).
Import SegmentEntry.
Import TableStore.

(** ** The merge *)
Section merge.
Implicit Types (l other : list Z).

Lemma skip_smaller_elem o other x : StronglySorted Z.le other -> o <= x -> x ∈ skip_smaller o other <-> x ∈ other.
Proof.
  intros Hs Hx. induction Hs as [|y other Hs IH Hy]; [done|]. cbn. destruct (Z.ltb_spec y o); [|done]. rewrite IH, elem_of_cons.
  split; [by right|]. intros [->|]; [lia|done].
Qed.

Lemma skip_smaller_sorted o other : StronglySorted Z.le other -> StronglySorted Z.le (skip_smaller o other).
Proof. induction 1 as [|y other Hs IH Hy]; [constructor|]. cbn. destruct (y <? o); [done|]. by constructor. Qed.

Lemma skip_smaller_head o other y rest : skip_smaller o other = y :: rest -> o <= y.
Proof. induction other as [|z other IH]; [done|]. cbn. destruct (Z.ltb_spec z o); [done|]. intros [= <- _]. lia. Qed.

Lemma offsets_conflict_sorted l other : StronglySorted Z.le l -> StronglySorted Z.le other ->
  offsets_conflict l other = true <-> exists x, x ∈ l /\ x ∈ other.
Proof.
  intros Hl. revert other. induction Hl as [|o l Hl IH Ho]; intros other Hs; cbn [offsets_conflict].
  { split; [done|]. by intros (x & ?%elem_of_nil & _). }
  rewrite Forall_forall in Ho. pose proof (skip_smaller_sorted o other Hs) as Hss. pose proof (skip_smaller_elem o other) as Hel.
  destruct (skip_smaller o other) as [|y rest] eqn:E.
  - split; [done|]. intros (x & Hx & Hx'). assert (o <= x) by (apply elem_of_cons in Hx as [->|Hx]; [lia|by apply Ho]).
    apply Hel in Hx'; [|done|done]. by apply elem_of_nil in Hx'.
  - apply skip_smaller_head in E as Hy. destruct (Z.eqb_spec y o) as [->|Hne].
    + split; [|done]. intros _. exists o. split; [left|]. apply (Hel o Hs); [lia|left].
    + rewrite (IH _ Hss). split; intros (x & Hx & Hx').
      * exists x. split; [by right|]. by apply (Hel x Hs); [apply Ho|].
      * assert (o <= x) by (apply elem_of_cons in Hx as [->|Hx]; [lia|by apply Ho]). apply Hel in Hx' as Hx2; [|done|done].
        apply elem_of_cons in Hx as [->|Hx]; [|by exists x]. exfalso. inversion Hss as [|? ? _ Hrest]. subst.
        rewrite Forall_forall in Hrest. apply elem_of_cons in Hx2 as [->|Hx2]; [done|]. specialize (Hrest _ Hx2). lia.
Qed.
End merge.

(** ** The rows of two transactions *)
Section rows.
Implicit Types (dels : list (Z * Z)).

(** Row ids of a segment come in increasing order. *)
Definition ascending dels : Prop := StronglySorted (fun p q => p.1 = q.1 -> p.2 <= q.2) dels.

Lemma slice_sorted dels id k : ascending dels -> Forall (fun p => offset_ok p.2) dels -> StronglySorted Z.le (slice dels id k).
Proof.
  induction 1 as [|[id' o] dels Hs IH Ho]; intros Hoff; [constructor|]. apply Forall_cons_1 in Hoff as [Ho0 Hoff]. cbn in Ho0.
  unfold slice. cbn [omap list_omap]. fold (slice dels id k). case_decide as Hd; [|by apply IH]. destruct Hd as [E Hk]. cbn in E, Hk. subst id'.
  constructor; [by apply IH|]. apply Forall_forall. intros x (o' & Hin & Hk' & <-)%slice_elem. rewrite Forall_forall in Ho, Hoff.
  specialize (Ho _ Hin eq_refl). specialize (Hoff _ Hin). cbn in Ho, Hoff |- *.
  destruct (row_split o Ho0) as [Eb Eo], (row_split o' Hoff) as [Eb' Eo']. rewrite Eo, Eo'.
  destruct (offset_split o Ho0) as (_ & _ & H1), (offset_split o' Hoff) as (_ & _ & H2). rewrite Eb in Hk. rewrite Eb' in Hk'. lia.
Qed.

Lemma rows_conflict_exact (D1 D2 : DeleteState) d1 d2 : groups D1 d1 -> groups D2 d2 ->
  Forall (fun p => offset_ok p.2) d1 -> Forall (fun p => offset_ok p.2) d2 -> ascending d1 -> ascending d2 ->
  rows_conflict D1 D2 = true <-> exists p, p ∈ d1 /\ p ∈ d2.
Proof.
  intros [Hg1 _] [Hg2 _] Ho1 Ho2 Ha1 Ha2.
  assert (Hslice : forall (D : DeleteState) d id m k l, (forall id k, D !! id ≫= (fun m => m !! k) = match slice d id k with [] => None | l => Some l end) ->
    D !! id = Some m -> m !! k = Some l -> l = slice d id k).
  { intros D d id m k l Hg Hm Hl. specialize (Hg id k). rewrite Hm in Hg. cbn in Hg. rewrite Hl in Hg. destruct (slice d id k); [done|]. by injection Hg. }
  unfold rows_conflict. rewrite existsb_exists. split.
  - intros ([id m] & Hin & E). apply list_elem_of_In, elem_of_map_to_list in Hin. destruct (D1 !! id) as [m1|] eqn:E1; [|done].
    apply existsb_exists in E as ([k l] & Hin' & E). apply list_elem_of_In, elem_of_map_to_list in Hin'. destruct (m1 !! k) as [l1|] eqn:El; [|done].
    apply (Hslice _ _ _ _ _ _ Hg2 Hin) in Hin' as ->. apply (Hslice _ _ _ _ _ _ Hg1 E1) in El as ->.
    apply offsets_conflict_sorted in E as (x & (o & Hd2 & Hk & Hx)%slice_elem & (o' & Hd1 & Hk' & Hx')%slice_elem); [|by apply slice_sorted..].
    rewrite Forall_forall in Ho1, Ho2. pose proof (Ho1 _ Hd1). pose proof (Ho2 _ Hd2). exists (id, o). split; [|done].
    rewrite (row_of_block o o'); try done; congruence.
  - intros ([id o] & H1 & H2). set (k := block_of_row o).
    assert (Hx1 : offset_of_row o ∈ slice d1 id k) by (apply slice_elem; by exists o).
    assert (Hx2 : offset_of_row o ∈ slice d2 id k) by (apply slice_elem; by exists o).
    pose proof (Hg1 id k) as E1. pose proof (Hg2 id k) as E2.
    destruct (D2 !! id) as [m2|] eqn:Em2; [|cbn in E2; destruct (slice d2 id k); [by apply elem_of_nil in Hx2|done]].
    destruct (D1 !! id) as [m1|] eqn:Em1; [|cbn in E1; destruct (slice d1 id k); [by apply elem_of_nil in Hx1|done]].
    cbn in E1, E2. assert (El1 : m1 !! k = Some (slice d1 id k)) by (destruct (slice d1 id k); [by apply elem_of_nil in Hx1|done]).
    assert (El2 : m2 !! k = Some (slice d2 id k)) by (destruct (slice d2 id k); [by apply elem_of_nil in Hx2|done]).
    exists (id, m2). split; [by apply list_elem_of_In, elem_of_map_to_list|]. rewrite Em1. apply existsb_exists. exists (k, slice d2 id k).
    split; [by apply list_elem_of_In, elem_of_map_to_list|]. rewrite El1. apply offsets_conflict_sorted; [by apply slice_sorted..|]. by exists (offset_of_row o).
Qed.
End rows.

(** ** Transactions that pass the check *)

(** A transaction that is about to commit: its store, with the rows it inserted and deleted. *)
Record work (R : Type) := mkWork { w_txn_id : Z; w_commit_ts : Z; w_store : TxnTableStore R; w_added : list R; w_dels : list (Z * Z) }.
Arguments mkWork {R} _ _ _ _ _.
Arguments w_txn_id {R} _.
Arguments w_commit_ts {R} _.
Arguments w_store {R} _.
Arguments w_added {R} _.
Arguments w_dels {R} _.

Section concurrent.
Context `{CompactionEnv} {R : Type} (types : list DataType).
Implicit Types (te : TableEntry) (S : gmap Z (list block)) (w : work R) (l : list (work R)).

(** The commits, in the order of their timestamps. *)
Fixpoint commit_all l te : option (res TableEntry) :=
  match l with
  | [] => Some (Ok te)
  | w :: l =>
      match PrepareCommit (w_txn_id w) (w_commit_ts w) te (w_store w) with
      | None => None
      | Some (Err e) => Some (Err e)
      | Some (Ok (te, s, _)) =>
          match Commit (w_txn_id w) (w_commit_ts w) te s with
          | Err e => Some (Err e)
          | Ok (te, _) => commit_all l te
          end
      end
  end.

Record work_ok S w : Prop := {
  wo_store : collected types (w_store w) (w_added w) (w_dels w);
  wo_once : NoDup (w_dels w);
  wo_ascending : ascending (w_dels w);
  wo_live id o : (id, o) ∈ w_dels w -> offset_ok o /\ alive (row_at S id (Z.to_nat o));
  wo_time : commit_time (w_commit_ts w);
}.

(** The later transaction was checked against the earlier one. *)
Definition checked w1 w2 : Prop := w_commit_ts w1 <= w_commit_ts w2 /\ CheckConflict_store (w_store w1) (w_store w2) = false.

Definition added_rows l : Z := foldr (fun w n => Z.of_nat (length (w_added w)) + n) 0 l.
Definition deleted_rows l : Z := foldr (fun w n => Z.of_nat (length (w_dels w)) + n) 0 l.

Lemma checked_disjoint S w1 w2 p : work_ok S w1 -> work_ok S w2 -> checked w1 w2 -> p ∈ w_dels w2 -> p ∉ w_dels w1.
Proof.
  intros [C1 _ A1 L1 _] [C2 _ A2 L2 _] [_ E] H2 H1. unfold CheckConflict_store in E. apply orb_false_iff in E as [_ E].
  destruct (collected_ok _ _ _ _ C1) as (_ & _ & G1). destruct (collected_ok _ _ _ _ C2) as (_ & _ & G2).
  assert (Hoff : forall w, (forall id o, (id, o) ∈ w_dels w -> offset_ok o /\ alive (row_at S id (Z.to_nat o))) -> Forall (fun p => offset_ok p.2) (w_dels w)).
  { intros w Hw. apply Forall_forall. intros [id o] Hin. by destruct (Hw id o Hin). }
  assert (rows_conflict (delete_state_ (w_store w1)) (delete_state_ (w_store w2)) = true); [|congruence].
  apply (rows_conflict_exact _ _ _ _ G1 G2); try done; [by apply Hoff..|]. by exists p.
Qed.

(** One commit, on the rows that were there. *)
Lemma commit_old_rows ts0 te S w : table_idle ts0 te S -> work_ok S w -> ts0 <= w_commit_ts w ->
  TableEntry.row_count_ te + Z.of_nat (length (w_added w)) < 2 ^ 64 -> next_segment_id_ te + Z.of_nat (length (w_added w)) < 2 ^ 32 ->
  exists te' S', (forall l, commit_all (w :: l) te = commit_all l te') /\ table_idle (w_commit_ts w) te' S' /\
    TableEntry.row_count_ te' = TableEntry.row_count_ te + Z.of_nat (length (w_added w)) - Z.of_nat (length (w_dels w)) /\
    next_segment_id_ te' <= next_segment_id_ te + Z.of_nat (length (w_added w)) /\
    (forall id i r, row_at S id i = Some r -> row_at S' id i = Some (die (w_commit_ts w) (bool_decide ((id, Z.of_nat i) ∈ w_dels w)) r)).
Proof.
  intros Hidle [C Hnd _ Hl Hts] Hle Hb1 Hb2.
  destruct (commit_step types (w_txn_id w) ts0 (w_commit_ts w) te S (w_store w) (w_added w) (w_dels w)) as
    (te1 & s1 & rs1 & te2 & rs2 & S1 & S2 & E1 & E2 & Hidle2 & Hrc & Hnx & Hex & Hk); try done.
  { intros id o Hin. destruct (Hl id o Hin) as [[? _] ?]. done. }
  exists te2, S2. split_and!; try done.
  - intros l. cbn [commit_all]. by rewrite E1, E2.
  - intros id i r Hr. rewrite Hk, (ex_old _ _ _ Hex _ _ _ Hr). done.
Qed.

(** C10. Take transactions on a table that started together, each of which deletes rows that were live then,
    each row once and the rows of a segment in increasing order, the order that the check of conflicts relies
    on. When each was checked against the ones with smaller commit timestamps, all commit: no
    delete meets a row that is gone. A reader at any timestamp sees, of the rows that were there, the ones
    that no transaction up to its timestamp deleted, and the row count adds up. *)
Theorem checked_transactions_commit ts0 te S l : table_idle ts0 te S -> Forall (work_ok S) l ->
  Forall (fun w => ts0 <= w_commit_ts w) l -> ForallOrdPairs checked l ->
  TableEntry.row_count_ te + added_rows l < 2 ^ 64 -> next_segment_id_ te + added_rows l < 2 ^ 32 ->
  exists te', commit_all l te = Some (Ok te') /\ TableEntry.row_count_ te' = TableEntry.row_count_ te + added_rows l - deleted_rows l /\
    forall ts id o, offset_ok o -> is_Some (row_at S id (Z.to_nat o)) ->
      reads te' ts id o = reads te ts id o && negb (existsb (fun w => (w_commit_ts w <=? ts) && bool_decide ((id, o) ∈ w_dels w)) l).
Proof.
  intros Hidle Hw Hts Hch. revert ts0 te S Hidle Hw Hts. induction Hch as [|w l Hd Hch IH]; intros ts0 te S Hidle Hw Hts Hb1 Hb2.
  { exists te. split; [done|]. cbn in *. split; [lia|]. intros. by rewrite andb_true_r. }
  apply Forall_cons_1 in Hw as [Hw0 Hw]. apply Forall_cons_1 in Hts as [Hts0 Hts]. cbn [added_rows deleted_rows foldr] in *.
  fold (added_rows l) in *. fold (deleted_rows l) in *. assert (Hge : 0 <= added_rows l) by (clear; unfold added_rows; induction l; cbn; lia).
  destruct (commit_old_rows _ _ _ _ Hidle Hw0 Hts0) as (te1 & S1 & E & Hidle1 & Hrc & Hnx & Hrow); [lia..|].
  destruct (IH (w_commit_ts w) te1 S1 Hidle1) as (te' & E' & Hrc' & Hreads).
  - rewrite Forall_forall in Hw, Hd |- *. intros w' Hin. pose proof (Hw w' Hin) as Hw'. specialize (Hd w' Hin). pose proof Hw' as [C Hnd Ha Hl Ht].
    split; try done. intros id o Ho. destruct (Hl id o Ho) as [Hok (t & Hr)]. split; [done|]. exists t. rewrite (Hrow _ _ _ Hr).
    rewrite Z2Nat.id by (by destruct Hok). by rewrite bool_decide_eq_false_2 by (by eapply checked_disjoint).
  - rewrite Forall_forall in Hd |- *. intros w' Hin. by destruct (Hd w' Hin).
  - lia.
  - lia.
  - exists te'. rewrite E. split; [done|]. split; [lia|]. intros ts id o Ho [r Hr].
    rewrite Hreads by (try done; rewrite (Hrow _ _ _ Hr); done). cbn [existsb]. rewrite negb_orb, andb_assoc. f_equal.
    rewrite (idle_reads _ _ _ _ _ _ Hidle1 Ho), (idle_reads _ _ _ _ _ _ Hidle Ho). unfold row_visible.
    rewrite (Hrow _ _ _ Hr), Hr, Z2Nat.id by (by destruct Ho). destruct (Z.leb_spec (w_commit_ts w) ts).
    + rewrite after_commit by done. apply andb_comm.
    + rewrite before_commit; [by rewrite andb_true_r|done|]. intros Hin%bool_decide_eq_true. destruct (wo_live _ _ Hw0 id o Hin) as [_ (t & Ht)]. rewrite Hr in Ht. by injection Ht as ->.
Qed.
End concurrent.

(** ** Deletes out of order *)
Section unordered.
Context `{CompactionEnv} {R : Type}.
Implicit Types (te : TableEntry) (S : gmap Z (list block)) (s : TxnTableStore R).

(** A delete of a row that is gone. *)
Lemma delete_gone txn_id ts ts0 te S id o r s : table_idle ts0 te S -> ts0 <= ts -> commit_time ts -> offset_ok o ->
  row_at S id (Z.to_nat o) = Some r -> died r <> None ->
  TableEntry.Delete txn_id ts {[id := {[o / DEFAULT_BLOCK_CAPACITY := [o mod DEFAULT_BLOCK_CAPACITY]]}]} te s = Err Unrecoverable.
Proof.
  intros Hidle Hle Hts Ho Hr Hd. unfold TableEntry.Delete. rewrite map_to_list_singleton. cbn [TableEntry.delete_segments].
  unfold row_at in Hr. pose proof (ti_segs _ _ _ Hidle id) as Hx. destruct (S !! id) as [ss|]; [|done]. cbn in Hr.
  inversion Hx as [sg ? [_ Hsi] E1 E2|]. subst. unfold TableEntry.GetSegmentByID. rewrite <- E1. destruct Hsi as [Hok Hfree _ _ [_ Hmin] _].
  rewrite (proj2 (Z.ltb_ge _ _)) by lia. rewrite map_to_list_singleton. unfold DeleteData. cbn [delete_blocks].
  destruct (offset_split o Ho) as (Hk & Hm & Esplit). pose proof (seg_rows_at sg ss (Z.to_nat (o / DEFAULT_BLOCK_CAPACITY)) _ Hok Hm) as Hat.
  rewrite Z2Nat.id, <- Esplit, Hr in Hat by lia. destruct (ss !! Z.to_nat (o / DEFAULT_BLOCK_CAPACITY)) as [b0|] eqn:Hb0; [|done]. cbn in Hat.
  destruct (Forall2_lookup_r _ _ _ _ _ (so_blocks _ _ Hok) Hb0) as (b & Hb & [Href _]). rewrite Hb.
  assert (Hrange : Forall (fun i => 0 <= i < Z.of_nat (length (rows b0))) [o mod DEFAULT_BLOCK_CAPACITY]).
  { apply Forall_singleton. symmetry in Hat. apply lookup_lt_Some in Hat. lia. }
  assert (Hch : change_ok (Deletes txn_id ts [o mod DEFAULT_BLOCK_CAPACITY]) b0) by (by split_and!).
  pose proof (delete_refines b b0 txn_id ts [o mod DEFAULT_BLOCK_CAPACITY] Href Hch) as Hdel.
  unfold apply_change in Hdel. cbn [kill] in Hdel. rewrite <- Hat in Hdel. destruct r as [t [d|]]; [|done].
  assert (Herr : exec (Deletes txn_id ts [o mod DEFAULT_BLOCK_CAPACITY]) b = Err Unrecoverable) by (by destruct (_ && _)). clear Hdel. cbn [exec] in Herr.
  destruct (BlockEntry.DeleteData txn_id ts [o mod DEFAULT_BLOCK_CAPACITY] b) as [[n b']|e]; [done|]. cbn in Herr |- *. congruence.
Qed.

(** A store with deletes alone. *)
Record deletes_only (D : DeleteState) s : Prop := {
  do_state : delete_state_ s = D;
  do_indexes : txn_indexes_ s = ∅;
  do_index_stores : txn_indexes_store_ s = ∅;
  do_blocks : TxnTableStore.blocks_ s = [];
  do_flushed : flushed_segments_ s = [];
  do_compact : compact_type_ (compact_state_ s) = kInvalidCompact;
}.

Lemma Delete_only row_ids ptr table_entry s : TxnTableStore.Delete row_ids (TxnTableStore.make ptr table_entry) = Ok (ErrorCode.kOk, s) ->
  exists D, TxnTableStore.delete_rows row_ids ∅ = Ok D /\ deletes_only D s.
Proof. unfold TxnTableStore.Delete. intros (D & E & E')%res_bind_Ok. injection E' as <-. exists D. split; [done|]. by split. Qed.

Lemma prepare_gone txn_id ts ts0 te S id o r s : table_idle ts0 te S -> ts0 <= ts -> commit_time ts -> offset_ok o ->
  row_at S id (Z.to_nat o) = Some r -> died r <> None ->
  deletes_only {[id := {[o / DEFAULT_BLOCK_CAPACITY := [o mod DEFAULT_BLOCK_CAPACITY]]}]} s ->
  PrepareCommit txn_id ts te s = Some (Err Unrecoverable).
Proof.
  intros Hidle Hle Hts Ho Hr Hd [Es _ _ Eb Ef Ec]. unfold PrepareCommit, TableEntry.AppendData. rewrite (ti_deleted _ _ _ Hidle), Eb.
  cbn [append_state_ TxnTableStore.set_append_state flushed_segments_]. rewrite Ef. cbn -[decide].
  change (TableEntry.Finished (append_state_of [])) with true. cbn -[decide]. rewrite (decide_True _ _ Ec). cbn [res_bind]. assert (Ete : TableEntry.set_row_count (TableEntry.row_count_ te) te = te) by (by destruct te). rewrite Ete.
  rewrite Es. by erewrite (delete_gone txn_id ts ts0 te S id o r) by done.
Qed.

(** Live rows are no conflict with the table. *)
Lemma live_no_conflict ts0 te S ts id o s : table_idle ts0 te S -> offset_ok o -> alive (row_at S id (Z.to_nat o)) ->
  deletes_only {[id := {[o / DEFAULT_BLOCK_CAPACITY := [o mod DEFAULT_BLOCK_CAPACITY]]}]} s ->
  CheckConflict (fun _ => None) ts te s = false.
Proof.
  intros Hidle Ho (t & Hr) [Es _ Ei _ _ _]. unfold CheckConflict, index_conflict, delete_conflict. rewrite Ei, Es, map_to_list_empty, map_to_list_singleton.
  cbn [existsb orb]. unfold row_at in Hr. pose proof (ti_segs _ _ _ Hidle id) as Hx. destruct (S !! id) as [ss|]; [|done]. cbn in Hr.
  inversion Hx as [sg ? [_ Hsi] E1 E2|]. subst. unfold TableEntry.GetSegmentEntry. rewrite <- E1, map_to_list_singleton. cbn [existsb orb]. rewrite !orb_false_r.
  pose proof (sd_ok _ _ _ Hsi) as Hok. destruct (offset_split o Ho) as (Hk & Hm & Esplit).
  pose proof (seg_rows_at sg ss (Z.to_nat (o / DEFAULT_BLOCK_CAPACITY)) _ Hok Hm) as Hat.
  rewrite Z2Nat.id, <- Esplit, Hr in Hat by lia. unfold GetBlockEntryByID.
  destruct (ss !! Z.to_nat (o / DEFAULT_BLOCK_CAPACITY)) as [b0|] eqn:Hb0; [|done]. cbn in Hat.
  destruct (Forall2_lookup_r _ _ _ _ _ (so_blocks _ _ Hok) Hb0) as (b & Hb & [Href _]). rewrite Hb.
  unfold BlockEntry.CheckDeleteConflict. cbn [existsb]. rewrite orb_false_r, (check_dead b b0) by (done || unfold DEFAULT_BLOCK_CAPACITY in *; lia). by rewrite <- Hat.
Qed.

(** Nothing puts the offsets of a transaction in order, and the merge does not see a common row
    that comes out of order: when one transaction deletes two rows of a block, the later one first,
    and another one deletes the earlier row, both pass the checks, against the table and against each
    other, and the second commit ends in an unrecoverable error, after it was written to the log. *)
Theorem unordered_deletes_slip (ptr1 ptr2 table_entry txn1 txn2 ts0 ts1 ts2 id o o' : Z) te S s1 s2 :
  table_idle ts0 te S -> ts0 <= ts1 -> ts1 <= ts2 -> commit_time ts1 -> commit_time ts2 -> offset_ok o' -> 0 <= o < o' ->
  o / DEFAULT_BLOCK_CAPACITY = o' / DEFAULT_BLOCK_CAPACITY ->
  alive (row_at S id (Z.to_nat o)) -> alive (row_at S id (Z.to_nat o')) ->
  TableEntry.row_count_ te < 2 ^ 64 -> next_segment_id_ te < 2 ^ 32 ->
  TxnTableStore.Delete [(id, o'); (id, o)] (TxnTableStore.make ptr1 table_entry) = Ok (ErrorCode.kOk, s1) ->
  TxnTableStore.Delete [(id, o)] (TxnTableStore.make ptr2 table_entry) = Ok (ErrorCode.kOk, s2) ->
  CheckConflict (fun _ => None) ts2 te s2 = false /\ CheckConflict_store s1 s2 = false /\
  commit_all [mkWork txn1 ts1 s1 [] [(id, o'); (id, o)]; mkWork txn2 ts2 s2 [] [(id, o)]] te = Some (Err Unrecoverable).
Proof.
  intros Hidle Ht1 Ht2 Hc1 Hc2 Ho' Hlt Hblk Hal Hal' Hb1 Hb2 E1 E2. assert (Ho : offset_ok o) by (unfold offset_ok in *; lia).
  pose proof (collected_delete [] _ _ _ [] [] (collected_make [] ptr1 table_entry) E1) as C1. cbn [app] in C1.
  apply Delete_only in E1 as (D1 & E1 & H1). apply Delete_only in E2 as (D2 & E2 & H2).
  destruct (row_split o Ho) as [Eb Eo], (row_split o' Ho') as [Eb' Eo']. unfold block_of_row, offset_of_row in Eb, Eo, Eb', Eo'.
  cbn [TxnTableStore.delete_rows] in E1, E2. rewrite Eb, Eo in E2. rewrite Eb, Eo, Eb', Eo', <- Hblk in E1.
  rewrite lookup_empty in E1, E2. cbn in E1, E2. rewrite !lookup_empty in E1, E2. cbn in E1, E2.
  rewrite lookup_insert_eq in E1. cbn in E1. rewrite lookup_insert_eq in E1. cbn in E1. rewrite !insert_insert_eq in E1.
  injection E1 as <-. injection E2 as <-.
  change (deletes_only {[id := {[o / DEFAULT_BLOCK_CAPACITY := [o' mod DEFAULT_BLOCK_CAPACITY; o mod DEFAULT_BLOCK_CAPACITY]]}]} s1) in H1.
  change (deletes_only {[id := {[o / DEFAULT_BLOCK_CAPACITY := [o mod DEFAULT_BLOCK_CAPACITY]]}]} s2) in H2. split_and!.
  - by eapply live_no_conflict.
  - unfold CheckConflict_store, indexes_conflict, rows_conflict.
    rewrite (do_indexes _ _ H2), (do_index_stores _ _ H2), (do_state _ _ H1), (do_state _ _ H2), !map_to_list_empty, map_to_list_singleton. cbn [existsb orb].
    rewrite lookup_singleton_eq, map_to_list_singleton. cbn [existsb orb]. rewrite lookup_singleton_eq. cbn [offsets_conflict skip_smaller].
    destruct (offset_split o Ho) as (_ & _ & Es), (offset_split o' Ho') as (_ & _ & Es').
    rewrite (proj2 (Z.ltb_ge _ _)), (proj2 (Z.eqb_neq _ _)) by lia. done.
  - destruct (commit_step [] txn1 ts0 ts1 te S s1 [] [(id, o'); (id, o)]) as
      (te1 & s' & rs1 & te2 & rs2 & S1 & S2 & P1 & P2 & Hidle2 & _ & _ & Hex & Hk); try done; [| |cbn; lia..|].
    { apply NoDup_cons. split; [|apply NoDup_singleton]. intros [= E]%list_elem_of_singleton. lia. }
    { intros id0 o0 Hin. rewrite !elem_of_cons in Hin. destruct Hin as [[= -> ->]|[[= -> ->]|Hin]]; [| |by apply elem_of_nil in Hin]; split; try done; lia. }
    cbn [commit_all w_txn_id w_commit_ts w_store]. rewrite P1, P2. destruct Hal as (t & Hr).
    rewrite (prepare_gone txn2 ts2 ts1 te2 S2 id o (mkRow t (Some ts1)) s2); try done.
    rewrite Hk, (ex_old _ _ _ Hex _ _ _ Hr), Z2Nat.id by lia. cbn. rewrite bool_decide_eq_true_2; [done|]. right. left.
Qed.
End unordered.

#[local] Instance demo_env : CompactionEnv := {| log_quotient := fun x c => Z.log2 x / Z.log2 c; nth_element := fun _ l => l |}.

Definition demo_deletes (row_ids : list (Z * Z)) : TxnTableStore Z :=
  match TxnTableStore.Delete row_ids (TxnTableStore.make 0 1) with Ok (_, s) => s | Err _ => TxnTableStore.make 0 1 end.

Lemma checked_transactions_commit_witness :
  exists te, commit_all [mkWork 3 30 demo_store [7; 8] [(0, 2)]; mkWork 4 40 (demo_deletes [(0, 0)]) [] [(0, 0)]] demo_table = Some (Ok te) /\
    TableEntry.row_count_ te = 2 /\ reads te 29 0 0 = true /\ reads te 39 0 0 = true /\ reads te 39 0 2 = false /\ reads te 40 0 0 = false.
Proof.
  destruct (checked_transactions_commit demo_types 20 demo_table {[0 := [demo_rows_state]]}
    [mkWork 3 30 demo_store [7; 8] [(0, 2)]; mkWork 4 40 (demo_deletes [(0, 0)]) [] [(0, 0)]]) as (te & E & Hrc & Hr).
  - exact demo_table_idle.
  - apply Forall_cons_2; [|apply Forall_cons_2; [|apply Forall_nil_2]]; split; cbn; try (apply NoDup_singleton);
      try (by repeat constructor); try (intros id o [= -> ->]%list_elem_of_singleton; split; [unfold offset_ok; lia|exists 10; reflexivity]);
      try (unfold commit_time, UNCOMMIT_TS; lia).
    + exact demo_collected.
    + apply (collected_delete demo_types (TxnTableStore.make 0 1) [(0, 0)] (demo_deletes [(0, 0)]) [] []); [apply collected_make|vm_compute; reflexivity].
  - repeat constructor; cbn; lia.
  - repeat constructor; cbn; try lia.
  - vm_compute. reflexivity.
  - vm_compute. reflexivity.
  - exists te. split; [exact E|]. split; [rewrite Hrc; vm_compute; reflexivity|].
    assert (H0 : is_Some (row_at {[0 := [demo_rows_state]]} 0 (Z.to_nat 0))) by (vm_compute; by eexists).
    assert (H2 : is_Some (row_at {[0 := [demo_rows_state]]} 0 (Z.to_nat 2))) by (vm_compute; by eexists).
    assert (Ho : offset_ok 0 /\ offset_ok 2) by (unfold offset_ok; lia). destruct Ho as [Ho0 Ho2].
    rewrite (Hr 29 0 0 Ho0 H0), (Hr 39 0 0 Ho0 H0), (Hr 39 0 2 Ho2 H2), (Hr 40 0 0 Ho0 H0). vm_compute. auto.
Defined.

Lemma unordered_deletes_slip_witness :
  CheckConflict_store (demo_deletes [(0, 2); (0, 0)]) (demo_deletes [(0, 0)]) = false /\
  commit_all [mkWork 3 30 (demo_deletes [(0, 2); (0, 0)]) [] [(0, 2); (0, 0)]; mkWork 4 40 (demo_deletes [(0, 0)]) [] [(0, 0)]] demo_table =
    Some (Err Unrecoverable).
Proof.
  destruct (unordered_deletes_slip 0 0 1 3 4 20 30 40 0 0 2 demo_table {[0 := [demo_rows_state]]} (demo_deletes [(0, 2); (0, 0)]) (demo_deletes [(0, 0)]))
    as (_ & H1 & H2); try (unfold offset_ok, commit_time, UNCOMMIT_TS; lia); try (vm_compute; reflexivity).
  - exact demo_table_idle.
  - exists 10. reflexivity.
  - exists 10. reflexivity.
  - split; [exact H1|exact H2].
Defined.
