(* ===== verification/TableCompaction.v ===== *)
(** * The row count of a table under compaction

    A compaction hands its new segments to the table as an import does, and the commit of an import
    adds the rows of its segments to the row count. *)
From S2P Require Import Prelude Serialize DataType EntryList FileWorker BlockVersion Bitmask BlockEntry BlockHistory SegmentEntry Compaction TxnTableStore TableEntry TxnStore.
Import SegmentEntry(SegmentEntry, segment_id_).
Import TableStore.

Section counts.
Context `{CompactionEnv} {R : Type}.
Implicit Types (te : TableEntry) (s : TxnTableStore R) (sg : SegmentEntry) (data : list (SegmentEntry * list Z)).

(** *** Calls that leave the row count alone *)
Lemma change_segments_count f ids te te' : TableEntry.change_segments f ids te = Ok te' -> TableEntry.row_count_ te' = TableEntry.row_count_ te.
Proof.
  revert te. induction ids as [|id ids IH]; intros te E; cbn in E; [by injection E as <-|].
  destruct (segment_map_ te !! id) as [sg|]; [|done]. apply res_bind_Ok in E as (sg' & _ & E). by rewrite (IH _ E).
Qed.

Lemma commit_segment_count txn_id ts store deletes id te te' rs : TableEntry.commit_segment txn_id ts store deletes id te = Ok (te', rs) ->
  TableEntry.row_count_ te' = TableEntry.row_count_ te.
Proof.
  unfold TableEntry.commit_segment. destruct (segment_map_ te !! id) as [sg|]; [|done]. intros ([sg' rs'] & _ & E)%res_bind_Ok. by injection E as <- _.
Qed.

Lemma commit_compacted_count txn_id ts compacted te te' rs : TableEntry.commit_compacted txn_id ts compacted te = Ok (te', rs) ->
  TableEntry.row_count_ te' = TableEntry.row_count_ te.
Proof.
  revert te te' rs. induction compacted as [|[[new store] old] compacted IH]; intros te te' rs E; cbn in E; [by injection E as <- _|].
  apply res_bind_Ok in E as ([te1 rs1] & E1 & E). apply res_bind_Ok in E as (te2 & E2 & E). apply res_bind_Ok in E as ([te3 rs3] & E3 & E).
  injection E as <- _. by rewrite (IH _ _ _ E3), (change_segments_count _ _ _ _ E2), (commit_segment_count _ _ _ _ _ _ _ _ E1).
Qed.

Lemma with_alg_count f te te' : TableEntry.with_alg f te = Ok te' -> TableEntry.row_count_ te' = TableEntry.row_count_ te.
Proof.
  unfold TableEntry.with_alg. destruct (compaction_alg_ te) as [a|]; [|by intros [= <-]]. intros (a' & _ & E)%res_bind_Ok. by injection E as <-.
Qed.

Lemma CommitCompact_count txn_id ts c te te' rs : TableEntry.CommitCompact txn_id ts c te = Ok (te', rs) ->
  TableEntry.row_count_ te' = TableEntry.row_count_ te.
Proof.
  unfold TableEntry.CommitCompact. case_decide; [by intros [= <- _]|]. intros ([te1 rs1] & E1 & E)%res_bind_Ok.
  apply res_bind_Ok in E as (te2 & E2 & E). injection E as <- _. apply commit_compacted_count in E1. rewrite <- E1.
  destruct (compact_type_ c); [by apply with_alg_count in E2 as ->..|]. by injection E2 as <-.
Qed.

(** *** What a compaction leaves in its store *)
Definition new_rows data : Z := foldr (fun p n => SegmentEntry.row_count_ p.1 + n) 0 data.

Lemma AddSegmentStore_rest sg s s' : TxnTableStore.AddSegmentStore sg s = Ok s' ->
  TxnTableStore.blocks_ s' = TxnTableStore.blocks_ s /\ delete_state_ s' = delete_state_ s /\ flushed_segments_ s' = flushed_segments_ s /\
  compact_state_ s' = compact_state_ s.
Proof. unfold TxnTableStore.AddSegmentStore. case_match; [done|]. by intros [= <-]. Qed.

Lemma compact_loop_store data te s te' s' : compact_loop data te s = Ok (te', s') ->
  TxnTableStore.blocks_ s' = TxnTableStore.blocks_ s /\ delete_state_ s' = delete_state_ s /\
  compact_type_ (compact_state_ s') = compact_type_ (compact_state_ s) /\
  flushed_segments_ s' = flushed_segments_ s ++ map (fun p => segment_id_ p.1) data /\
  TableEntry.row_count_ te' = TableEntry.row_count_ te /\ table_deleted_ te' = table_deleted_ te /\
  (forall id sg, segment_map_ te !! id = Some sg -> segment_map_ te' !! id = Some sg) /\
  Forall (fun p => segment_map_ te' !! segment_id_ p.1 = Some p.1) data.
Proof.
  revert te s. induction data as [|[new old] data IH]; intros te s E; cbn [compact_loop] in E.
  { injection E as <- <-. rewrite app_nil_r. by split_and!. }
  apply res_bind_Ok in E as (s1 & E1 & E). apply res_bind_Ok in E as (te1 & E2 & E).
  apply AddSegmentStore_rest in E1 as (A1 & A2 & A3 & A4). unfold TableEntry.AddCompactNew in E2.
  destruct (segment_map_ te !! segment_id_ new) eqn:En; [done|]. injection E2 as <-.
  destruct (IH _ _ E) as (B1 & B2 & B3 & B4 & B5 & B6 & B7 & B8). cbn in *. split_and!.
  - congruence.
  - congruence.
  - by rewrite B3, A4.
  - rewrite B4, A3. by rewrite <- app_assoc.
  - done.
  - done.
  - intros id sg Hsg. apply B7. rewrite lookup_insert_ne; [done|congruence].
  - constructor; [|done]. cbn. apply B7. by rewrite lookup_insert_eq.
Qed.

Lemma imported_new data te : Forall (fun p => segment_map_ te !! segment_id_ p.1 = Some p.1) data -> Forall (fun p => 0 <= SegmentEntry.row_count_ p.1) data ->
  0 <= TableEntry.row_count_ te -> TableEntry.row_count_ te + new_rows data < 2 ^ 64 ->
  TableEntry.imported_rows (map (fun p => segment_id_ p.1) data) te = Ok (TableEntry.row_count_ te + new_rows data).
Proof.
  intros Hd Hpos Hn. unfold TableEntry.imported_rows. revert Hn. generalize (TableEntry.row_count_ te). induction Hd as [|[sg old] data Hsg Hd IH]; intros n Hn Hb.
  { cbn. do 2 f_equal. lia. }
  apply Forall_cons_1 in Hpos as [Hp Hpos]. cbn in *. rewrite Hsg. assert (0 <= new_rows data) by (clear - Hpos; unfold new_rows; induction Hpos; cbn; lia).
  fold (new_rows data) in *. rewrite wrap_id by (unfold unsigned_range; lia). rewrite (IH Hpos) by lia. f_equal. lia.
Qed.

(** A compaction replaces segments by new ones with the same live rows, and its commit adds the
    rows of the new segments to the row count of the table, on top of the rows that were counted
    already: nothing takes the old segments out of the count. *)
Theorem compaction_inflates_row_count data type te0 te te' ptr_seq_n table_entry txn_id ts (s s' : TxnTableStore R) rs :
  type <> kInvalidCompact -> table_deleted_ te0 = false -> 0 <= TableEntry.row_count_ te0 -> Forall (fun p => 0 <= SegmentEntry.row_count_ p.1) data ->
  TableEntry.row_count_ te0 + new_rows data < 2 ^ 64 ->
  Compact data type te0 (TxnTableStore.SetCompactType type (TxnTableStore.make ptr_seq_n table_entry)) = Ok (ErrorCode.kOk, te, s) ->
  PrepareCommit txn_id ts te s = Some (Ok (te', s', rs)) ->
  TableEntry.row_count_ te' = TableEntry.row_count_ te0 + new_rows data.
Proof.
  intros Htype Hdel Hge Hpos Hb Ec Ep. unfold Compact in Ec. destruct (bool_decide _); [|done]. apply res_bind_Ok in Ec as ([te1 s1] & El & Ec).
  injection Ec as <- <-. destruct (compact_loop_store _ _ _ _ _ El) as (B1 & B2 & B3 & B4 & B5 & B6 & _ & B8). cbn in B1, B2, B3, B4.
  unfold PrepareCommit, TableEntry.AppendData in Ep. cbn [TxnTableStore.blocks_ TxnTableStore.set_has_update append_state_ TxnTableStore.set_append_state flushed_segments_] in Ep.
  rewrite B6, Hdel, B1, B4 in Ep. change (TableEntry.Finished (append_state_of [])) with true in Ep. cbn [map SegmentEntry.blocks_ append_state_of] in Ep.
  rewrite imported_new in Ep by (rewrite ?B5; done). rewrite B5 in Ep. cbn [res_bind] in Ep. injection Ep as Ep.
  apply res_bind_Ok in Ep as ([te2 rs2] & E2 & Ep). apply res_bind_Ok in Ep as ([[[st te3] s3] rs3] & E3 & Ep). apply res_bind_Ok in Ep as (te4 & E4 & Ep).
  injection Ep as <- _ _. apply change_segments_count in E4. rewrite E4.
  assert (Hc2 : TableEntry.row_count_ te2 = TableEntry.row_count_ te0 + new_rows data).
  { case_decide; [by injection E2 as <- _|]. apply CommitCompact_count in E2. done. }
  cbn [delete_state_ TxnTableStore.set_append_state TxnTableStore.set_has_update] in E3. rewrite B2 in E3. unfold TableEntry.Delete in E3.
  rewrite map_to_list_empty in E3. cbn in E3. injection E3 as _ <- _ _. cbn. rewrite Hc2, Z.sub_0_r. apply wrap_id. unfold unsigned_range.
  assert (0 <= new_rows data) by (clear - Hpos; unfold new_rows; induction Hpos; cbn; lia). lia.
Qed.
End counts.

#[local] Instance demo_env : CompactionEnv := {| log_quotient := fun x c => Z.log2 x / Z.log2 c; nth_element := fun _ l => l |}.

(** A table of two rows in one segment, which a compaction copies to a new one. *)
Definition demo_copied (history : list change) : BlockEntry.BlockEntry :=
  match exec_all history (BlockEntry.NewBlockEntry 0 0 [0]) with Ok b => b | Err _ => BlockEntry.NewBlockEntry 0 0 [] end.
Definition demo_old : SegmentEntry :=
  SegmentEntry.mkSegmentEntry 0 SegmentEntry.DEFAULT_SEGMENT_CAPACITY [0] 2 2 10 10 UNCOMMIT_TS UNCOMMIT_TS 10
    [demo_copied [Appends 1 10 0 2; Commits 1 10]] (Some 0) SegmentEntry.kNoDelete ∅.
Definition demo_new : SegmentEntry :=
  SegmentEntry.mkSegmentEntry 1 SegmentEntry.DEFAULT_SEGMENT_CAPACITY [0] 2 2 UNCOMMIT_TS 0 UNCOMMIT_TS UNCOMMIT_TS UNCOMMIT_TS
    [demo_copied [Appends 5 20 0 2]] None SegmentEntry.kUnsealed ∅.
Definition demo_compacting : TableEntry := mkTableEntry false [0] 2 {[0 := demo_old]} None 0 2 10 None kTableCompacting false false 0.

Definition demo_compacted : TableEntry * TxnTableStore Z :=
  match Compact [(demo_new, [0])] kManual demo_compacting (TxnTableStore.SetCompactType kManual (TxnTableStore.make 0 1)) with
  | Ok (_, te, s) => (te, s)
  | Err _ => (demo_compacting, TxnTableStore.make 0 1)
  end.
Definition demo_prepared : TableEntry * TxnTableStore Z * requests :=
  match PrepareCommit 5 20 demo_compacted.1 demo_compacted.2 with Some (Ok r) => r | _ => (demo_compacting, TxnTableStore.make 0 1, []) end.

Lemma compaction_inflates_row_count_witness :
  TableEntry.row_count_ demo_compacting = 2 /\ TableEntry.row_count_ demo_prepared.1.1 = 4.
Proof.
  split; [reflexivity|].
  rewrite (compaction_inflates_row_count [(demo_new, [0])] kManual demo_compacting demo_compacted.1 demo_prepared.1.1 0 1 5 20 demo_compacted.2 demo_prepared.1.2 demo_prepared.2);
    try (vm_compute; congruence); try (vm_compute; reflexivity).
  apply Forall_singleton. vm_compute. congruence.
Defined.
