(* ===== verification/Calendar.v ===== *)
(** * Dates and times: [src/src/parser/type/datetime]

    A date is a number of days since 1970-01-01, a time a number of seconds of a day. Integers are
    32 bits wide unless said otherwise, and a signed overflow is undefined. Characters are their
    codes; a string is the memory at its pointer, of which [length] characters belong to it: parsers
    may read the character behind them. *)
From S2P Require Import Prelude.

(** ** Intervals *)
Inductive TimeUnit := kYear | kMonth | kDay | kHour | kMinute | kSecond | kInvalidUnit.

#[export] Instance TimeUnit_eq_dec : EqDecision TimeUnit.
Proof. solve_decision. Defined.

Record IntervalType := mkIntervalType { unit : TimeUnit; interval_value : Z }.

(** ** 32-bit arithmetic *)
Definition int32 (x : Z) : res Z := if (- 2 ^ 31 <=? x) && (x <? 2 ^ 31) then Ok x else Err Undefined.

(** Access to a constant array. *)
Definition at_index (l : list Z) (i : Z) : res Z :=
  if i <? 0 then Err Undefined else match l !! Z.to_nat i with Some x => Ok x | None => Err Undefined end.

(** ** Characters *)
Definition isspace (c : Z) : bool := (c =? 32) || ((9 <=? c) && (c <=? 13)).
Definition isdigit (c : Z) : bool := (48 <=? c) && (c <=? 57).
Definition char_at (ptr : list Z) (pos : nat) : res Z := match ptr !! pos with Some c => Ok c | None => Err Undefined end.

(** The loops of the parsers; [n] is what is left of the length. *)
Fixpoint skip (p : Z -> bool) (n : nat) (ptr : list Z) (pos : nat) : res nat :=
  match n with
  | O => Ok pos
  | S n => let? c := char_at ptr pos in if p c then skip p n ptr (S pos) else Ok pos
  end.

(** The digits of a number, [None] when it exceeds [max]. *)
Fixpoint scan (n : nat) (max acc : Z) (ptr : list Z) (pos : nat) : res (option (Z * nat)) :=
  match n with
  | O => Ok (Some (acc, pos))
  | S n =>
      let? c := char_at ptr pos in
      if isdigit c then
        let acc := acc * 10 + (c - 48) in
        if max <? acc then Ok None else scan n max acc ptr (S pos)
      else Ok (Some (acc, pos))
  end.

(** [{:0w}] for integers: the sign counts for the width. *)
Fixpoint digits (fuel : nat) (n : Z) : list Z :=
  match fuel with
  | O => []
  | S fuel => if n <? 10 then [48 + n] else digits fuel (n / 10) ++ [48 + n mod 10]
  end.
Definition pad (w : nat) (l : list Z) : list Z := repeat 48 (w - length l) ++ l.
Definition format_0d (w : nat) (n : Z) : list Z :=
  if n <? 0 then 45 :: pad (w - 1) (digits 10 (- n)) else pad w (digits 10 n).

Module IntervalType.
Definition chars (s : string) : list Z := map (fun c => Z.of_nat (Ascii.nat_of_ascii c)) (String.list_ascii_of_string s).
Definition unit_name (u : TimeUnit) : option string :=
  match u with
  | kYear => Some " YEAR" | kMonth => Some " MONTH" | kDay => Some " DAY"
  | kHour => Some " HOUR" | kMinute => Some " MINUTE" | kSecond => Some " SECOND"
  | kInvalidUnit => None
  end%string.
Definition ToString (i : IntervalType) : res (list Z) :=
  match unit_name (unit i) with
  | Some name => Ok (format_0d 0 (interval_value i) ++ chars name)
  | None => Err ParserErr
  end.
Definition Reset (i : IntervalType) : IntervalType := mkIntervalType kInvalidUnit 0.
End IntervalType.

(** ** [DateType] *)
Module DateType.
Definition MIN_DATE_YEAR : Z := -1969.
Definition MIN_DATE_MONTH : Z := 1.
Definition MIN_DATE_DAY : Z := 1.
Definition MAX_DATE_YEAR : Z := 9999.
Definition MAX_DATE_MONTH : Z := 12.
Definition MAX_DATE_DAY : Z := 31.
Definition EPOCH_YEAR : Z := 1970.
Definition YEAR_LEAP : Z := 400.
Definition DAYS_PER_YEAR_LEAP : Z := 146097.
Definition DAY_HOUR : Z := 24.
Definition DAY_MINUTE : Z := DAY_HOUR * 60.
Definition DAY_SECOND : Z := DAY_MINUTE * 60.

Definition NORMAL_DAYS : list Z :=
  [0; 31; 28; 31; 30; 31; 30; 31; 31; 30; 31; 30; 31].

Definition CUMULATIVE_DAYS : list Z :=
  [0; 31; 59; 90; 120; 151; 181; 212; 243; 273; 304; 334; 365].

Definition LEAP_DAYS : list Z :=
  [0; 31; 29; 31; 30; 31; 30; 31; 31; 30; 31; 30; 31].

Definition CUMULATIVE_LEAP_DAYS : list Z :=
  [0; 31; 60; 91; 121; 152; 182; 213; 244; 274; 305; 335; 366].

Definition MONTH_PER_DAY_OF_YEAR : list Z :=
  [1; 1; 1; 1; 1; 1; 1; 1; 1; 1; 1; 1; 1; 1; 1; 1; 1; 1; 1; 1; 1; 1; 1; 1; 1; 1; 1; 1; 1; 1; 1; 2; 2; 2; 2; 2; 2; 2; 2;
   2; 2; 2; 2; 2; 2; 2; 2; 2; 2; 2; 2; 2; 2; 2; 2; 2; 2; 2; 2; 3; 3; 3; 3; 3; 3; 3; 3; 3; 3; 3; 3; 3; 3; 3; 3; 3; 3; 3;
   3; 3; 3; 3; 3; 3; 3; 3; 3; 3; 3; 3; 4; 4; 4; 4; 4; 4; 4; 4; 4; 4; 4; 4; 4; 4; 4; 4; 4; 4; 4; 4; 4; 4; 4; 4; 4; 4; 4;
   4; 4; 4; 5; 5; 5; 5; 5; 5; 5; 5; 5; 5; 5; 5; 5; 5; 5; 5; 5; 5; 5; 5; 5; 5; 5; 5; 5; 5; 5; 5; 5; 5; 5; 6; 6; 6; 6; 6;
   6; 6; 6; 6; 6; 6; 6; 6; 6; 6; 6; 6; 6; 6; 6; 6; 6; 6; 6; 6; 6; 6; 6; 6; 6; 7; 7; 7; 7; 7; 7; 7; 7; 7; 7; 7; 7; 7; 7;
   7; 7; 7; 7; 7; 7; 7; 7; 7; 7; 7; 7; 7; 7; 7; 7; 7; 8; 8; 8; 8; 8; 8; 8; 8; 8; 8; 8; 8; 8; 8; 8; 8; 8; 8; 8; 8; 8; 8;
   8; 8; 8; 8; 8; 8; 8; 8; 8; 9; 9; 9; 9; 9; 9; 9; 9; 9; 9; 9; 9; 9; 9; 9; 9; 9; 9; 9; 9; 9; 9; 9; 9; 9; 9; 9; 9; 9; 9;
   10; 10; 10; 10; 10; 10; 10; 10; 10; 10; 10; 10; 10; 10; 10; 10; 10; 10; 10; 10; 10; 10; 10; 10; 10; 10; 10; 10; 10;
   10; 10; 11; 11; 11; 11; 11; 11; 11; 11; 11; 11; 11; 11; 11; 11; 11; 11; 11; 11; 11; 11; 11; 11; 11; 11; 11; 11; 11;
   11; 11; 11; 12; 12; 12; 12; 12; 12; 12; 12; 12; 12; 12; 12; 12; 12; 12; 12; 12; 12; 12; 12; 12; 12; 12; 12; 12; 12;
   12; 12; 12; 12; 12].

Definition LEAP_MONTH_PER_DAY_OF_YEAR : list Z :=
  [1; 1; 1; 1; 1; 1; 1; 1; 1; 1; 1; 1; 1; 1; 1; 1; 1; 1; 1; 1; 1; 1; 1; 1; 1; 1; 1; 1; 1; 1; 1; 2; 2; 2; 2; 2; 2; 2; 2;
   2; 2; 2; 2; 2; 2; 2; 2; 2; 2; 2; 2; 2; 2; 2; 2; 2; 2; 2; 2; 2; 3; 3; 3; 3; 3; 3; 3; 3; 3; 3; 3; 3; 3; 3; 3; 3; 3; 3;
   3; 3; 3; 3; 3; 3; 3; 3; 3; 3; 3; 3; 3; 4; 4; 4; 4; 4; 4; 4; 4; 4; 4; 4; 4; 4; 4; 4; 4; 4; 4; 4; 4; 4; 4; 4; 4; 4; 4;
   4; 4; 4; 4; 5; 5; 5; 5; 5; 5; 5; 5; 5; 5; 5; 5; 5; 5; 5; 5; 5; 5; 5; 5; 5; 5; 5; 5; 5; 5; 5; 5; 5; 5; 5; 6; 6; 6; 6;
   6; 6; 6; 6; 6; 6; 6; 6; 6; 6; 6; 6; 6; 6; 6; 6; 6; 6; 6; 6; 6; 6; 6; 6; 6; 6; 7; 7; 7; 7; 7; 7; 7; 7; 7; 7; 7; 7; 7;
   7; 7; 7; 7; 7; 7; 7; 7; 7; 7; 7; 7; 7; 7; 7; 7; 7; 7; 8; 8; 8; 8; 8; 8; 8; 8; 8; 8; 8; 8; 8; 8; 8; 8; 8; 8; 8; 8; 8;
   8; 8; 8; 8; 8; 8; 8; 8; 8; 8; 9; 9; 9; 9; 9; 9; 9; 9; 9; 9; 9; 9; 9; 9; 9; 9; 9; 9; 9; 9; 9; 9; 9; 9; 9; 9; 9; 9; 9;
   9; 10; 10; 10; 10; 10; 10; 10; 10; 10; 10; 10; 10; 10; 10; 10; 10; 10; 10; 10; 10; 10; 10; 10; 10; 10; 10; 10; 10;
   10; 10; 10; 11; 11; 11; 11; 11; 11; 11; 11; 11; 11; 11; 11; 11; 11; 11; 11; 11; 11; 11; 11; 11; 11; 11; 11; 11; 11;
   11; 11; 11; 11; 12; 12; 12; 12; 12; 12; 12; 12; 12; 12; 12; 12; 12; 12; 12; 12; 12; 12; 12; 12; 12; 12; 12; 12; 12;
   12; 12; 12; 12; 12; 12].

Definition CUMULATIVE_YEAR_DAYS : list Z :=
  [0; 365; 730; 1096; 1461; 1826; 2191; 2557; 2922; 3287; 3652; 4018; 4383; 4748; 5113; 5479; 5844; 6209; 6574; 6940;
   7305; 7670; 8035; 8401; 8766; 9131; 9496; 9862; 10227; 10592; 10957; 11323; 11688; 12053; 12418; 12784; 13149; 13514;
   13879; 14245; 14610; 14975; 15340; 15706; 16071; 16436; 16801; 17167; 17532; 17897; 18262; 18628; 18993; 19358;
   19723; 20089; 20454; 20819; 21184; 21550; 21915; 22280; 22645; 23011; 23376; 23741; 24106; 24472; 24837; 25202;
   25567; 25933; 26298; 26663; 27028; 27394; 27759; 28124; 28489; 28855; 29220; 29585; 29950; 30316; 30681; 31046;
   31411; 31777; 32142; 32507; 32872; 33238; 33603; 33968; 34333; 34699; 35064; 35429; 35794; 36160; 36525; 36890;
   37255; 37621; 37986; 38351; 38716; 39082; 39447; 39812; 40177; 40543; 40908; 41273; 41638; 42004; 42369; 42734;
   43099; 43465; 43830; 44195; 44560; 44926; 45291; 45656; 46021; 46387; 46752; 47117; 47482; 47847; 48212; 48577;
   48942; 49308; 49673; 50038; 50403; 50769; 51134; 51499; 51864; 52230; 52595; 52960; 53325; 53691; 54056; 54421;
   54786; 55152; 55517; 55882; 56247; 56613; 56978; 57343; 57708; 58074; 58439; 58804; 59169; 59535; 59900; 60265;
   60630; 60996; 61361; 61726; 62091; 62457; 62822; 63187; 63552; 63918; 64283; 64648; 65013; 65379; 65744; 66109;
   66474; 66840; 67205; 67570; 67935; 68301; 68666; 69031; 69396; 69762; 70127; 70492; 70857; 71223; 71588; 71953;
   72318; 72684; 73049; 73414; 73779; 74145; 74510; 74875; 75240; 75606; 75971; 76336; 76701; 77067; 77432; 77797;
   78162; 78528; 78893; 79258; 79623; 79989; 80354; 80719; 81084; 81450; 81815; 82180; 82545; 82911; 83276; 83641;
   84006; 84371; 84736; 85101; 85466; 85832; 86197; 86562; 86927; 87293; 87658; 88023; 88388; 88754; 89119; 89484;
   89849; 90215; 90580; 90945; 91310; 91676; 92041; 92406; 92771; 93137; 93502; 93867; 94232; 94598; 94963; 95328;
   95693; 96059; 96424; 96789; 97154; 97520; 97885; 98250; 98615; 98981; 99346; 99711; 100076; 100442; 100807; 101172;
   101537; 101903; 102268; 102633; 102998; 103364; 103729; 104094; 104459; 104825; 105190; 105555; 105920; 106286;
   106651; 107016; 107381; 107747; 108112; 108477; 108842; 109208; 109573; 109938; 110303; 110669; 111034; 111399;
   111764; 112130; 112495; 112860; 113225; 113591; 113956; 114321; 114686; 115052; 115417; 115782; 116147; 116513;
   116878; 117243; 117608; 117974; 118339; 118704; 119069; 119435; 119800; 120165; 120530; 120895; 121260; 121625;
   121990; 122356; 122721; 123086; 123451; 123817; 124182; 124547; 124912; 125278; 125643; 126008; 126373; 126739;
   127104; 127469; 127834; 128200; 128565; 128930; 129295; 129661; 130026; 130391; 130756; 131122; 131487; 131852;
   132217; 132583; 132948; 133313; 133678; 134044; 134409; 134774; 135139; 135505; 135870; 136235; 136600; 136966;
   137331; 137696; 138061; 138427; 138792; 139157; 139522; 139888; 140253; 140618; 140983; 141349; 141714; 142079;
   142444; 142810; 143175; 143540; 143905; 144271; 144636; 145001; 145366; 145732; 146097].

(** The remainders of C++ have the sign of the dividend. *)
Definition IsLeapYear (year : Z) : bool := (Z.rem year 4 =? 0) && (negb (Z.rem year 100 =? 0) || (Z.rem year 400 =? 0)).

Definition IsDateValid (year month day : Z) : res bool :=
  if (year <? MIN_DATE_YEAR) || ((year =? MIN_DATE_YEAR) && ((month <? MIN_DATE_MONTH) || ((month =? MIN_DATE_MONTH) && (day <? MIN_DATE_DAY))))
  then Ok false
  else if (MAX_DATE_YEAR <? year) || ((year =? MAX_DATE_YEAR) && ((MAX_DATE_MONTH <? month) || ((month =? MAX_DATE_MONTH) && (MAX_DATE_DAY <? day))))
  then Ok false
  else if (month <? 1) || (12 <? month) then Ok false
  else if day <? 1 then Ok false
  else let? n := at_index (if IsLeapYear year then LEAP_DAYS else NORMAL_DAYS) month in Ok (day <=? n).

Definition YMD2Date (year month day : Z) : res (option Z) :=
  let? valid := IsDateValid year month day in
  if negb valid then Ok None
  else
    let? result := at_index (if IsLeapYear year then CUMULATIVE_LEAP_DAYS else CUMULATIVE_DAYS) (month - 1) in
    let result := result + (day - 1) in
    if year <? 1970 then
      let diff_from_base := 1970 - year in
      let year_index := 400 - Z.rem diff_from_base 400 in
      let fractions := Z.quot diff_from_base 400 in
      let? n := at_index CUMULATIVE_YEAR_DAYS year_index in
      Ok (Some (result + n - DAYS_PER_YEAR_LEAP - fractions * DAYS_PER_YEAR_LEAP))
    else if 2370 <=? year then
      let diff_from_base := year - 2370 in
      let year_index := Z.rem diff_from_base 400 in
      let fractions := Z.quot diff_from_base 400 in
      let? n := at_index CUMULATIVE_YEAR_DAYS year_index in
      Ok (Some (result + n + DAYS_PER_YEAR_LEAP + fractions * DAYS_PER_YEAR_LEAP))
    else
      let? n := at_index CUMULATIVE_YEAR_DAYS (year - 1970) in
      Ok (Some (result + n)).

(** The loops of [Date2YMD]. *)
Fixpoint raise_days (fuel : nat) (days year : Z) : option (Z * Z) :=
  if days <? 0 then
    match fuel with O => None | S fuel => raise_days fuel (days + DAYS_PER_YEAR_LEAP) (year - YEAR_LEAP) end
  else Some (days, year).
Fixpoint lower_days (fuel : nat) (days year : Z) : option (Z * Z) :=
  if DAYS_PER_YEAR_LEAP <=? days then
    match fuel with O => None | S fuel => lower_days fuel (days - DAYS_PER_YEAR_LEAP) (year + YEAR_LEAP) end
  else Some (days, year).
Fixpoint find_year (fuel : nat) (days year_offset : Z) : option (res Z) :=
  match at_index CUMULATIVE_YEAR_DAYS year_offset with
  | Err e => Some (Err e)
  | Ok n =>
      if days <? n then match fuel with O => None | S fuel => find_year fuel days (year_offset - 1) end
      else Some (Ok year_offset)
  end.

Definition month_and_day (year day : Z) : res (Z * Z) :=
  let leap := IsLeapYear year in
  let? month := at_index (if leap then LEAP_MONTH_PER_DAY_OF_YEAR else MONTH_PER_DAY_OF_YEAR) day in
  let? n := at_index (if leap then CUMULATIVE_LEAP_DAYS else CUMULATIVE_DAYS) (month - 1) in
  Ok (month, day - n + 1).

(** A turn of the first loops for every 400 years, and at most as many of the last one as its first
    guess says; the answer comes with the date, which the caller may use only when it is [true]. *)
Definition Date2YMD (days : Z) : option (res (bool * Z * Z * Z)) :=
  let fuel := S (Z.to_nat (Z.abs days / DAYS_PER_YEAR_LEAP)) in
  match raise_days fuel days EPOCH_YEAR with
  | None => None
  | Some (days, year) =>
      match lower_days fuel days year with
      | None => None
      | Some (days, year) =>
          let guess := Z.quot days 365 in
          match find_year (Z.to_nat guess) days guess with
          | None => None
          | Some r => Some (
              let? year_offset := r in
              let year := year + year_offset in
              let? n := at_index CUMULATIVE_YEAR_DAYS year_offset in
              let? (month, day) := month_and_day year (days - n) in
              let? valid := IsDateValid year month day in
              Ok (valid, year, month, day))
          end
      end
  end.

(** [ConvertFromString]: the date and the end of what was read. *)
Definition separator (c : Z) : bool := (c =? 45) || (c =? 47).
Definition ConvertFromString (ptr : list Z) (length : nat) : res (option (Z * nat)) :=
  let? pos := skip isspace length ptr 0 in
  let? c := char_at ptr pos in
  let negative_year := c =? 45 in
  let pos := if negative_year then S pos else pos in
  let? r := scan (length - pos) 9999 0 ptr pos in
  match r with
  | None => Ok None
  | Some (year, pos) =>
      let year := if negative_year then - year else year in
      let? c := char_at ptr pos in
      if negb (separator c) then Ok None
      else
        let? r := scan (length - S pos) 12 0 ptr (S pos) in
        match r with
        | None => Ok None
        | Some (month, pos) =>
            let? c := char_at ptr pos in
            if negb (separator c) then Ok None
            else
              let? r := scan (length - S pos) 31 0 ptr (S pos) in
              match r with
              | None => Ok None
              | Some (day, pos) => let? date := YMD2Date year month day in Ok (option_map (fun d => (d, pos)) date)
              end
        end
  end.

Definition FromString (ptr : list Z) (length : nat) : res (Z * nat) :=
  let? r := ConvertFromString ptr length in
  match r with Some r => Ok r | None => Err ParserErr end.

Definition ToString (value : Z) : option (res (list Z)) :=
  match Date2YMD value with
  | None => None
  | Some r => Some (let? (valid, year, month, day) := r in
                    check? valid else ParserErr in
                    Ok (format_0d 4 year ++ [45] ++ format_0d 2 month ++ [45] ++ format_0d 2 day))
  end.

(** [Add]: [None] is the answer [false], which leaves the output alone. *)
Definition add_months (year month day n : Z) : res (option Z) :=
  let? month := int32 (month + n) in
  let? (year, month) := (if 12 <? month then let? year := int32 (year + Z.quot (month - 1) 12) in Ok (year, 1 + Z.rem (month - 1) 12)
                         else if month <? 1 then let? k := int32 (month - 12) in
                                                 let? year := int32 (year + Z.quot k 12) in Ok (year, 12 + Z.rem k 12)
                         else Ok (year, month)) in
  let? last := at_index (if IsLeapYear year then LEAP_DAYS else NORMAL_DAYS) month in
  YMD2Date year month (Z.min day last).

Definition with_ymd (input : Z) (f : Z -> Z -> Z -> res (option Z)) : option (res (option Z)) :=
  match Date2YMD input with
  | None => None
  | Some r => Some (let? (valid, year, month, day) := r in if valid then f year month day else Ok None)
  end.

Definition Add (input : Z) (interval : IntervalType) : option (res (option Z)) :=
  let n := interval_value interval in
  let days k := Some (let? d := int32 (input + k) in Ok (Some d)) in
  match unit interval with
  | kYear => with_ymd input (fun year month day => let? year := int32 (year + n) in YMD2Date year month day)
  | kMonth => with_ymd input (fun year month day => add_months year month day n)
  | kDay => days n
  | kHour => days (Z.quot n DAY_HOUR)
  | kMinute => days (Z.quot n DAY_MINUTE)
  | kSecond => days (Z.quot n DAY_SECOND)
  | kInvalidUnit => Some (Err ParserErr)
  end.

Definition negate (interval : IntervalType) : res IntervalType :=
  let? n := int32 (- interval_value interval) in Ok (mkIntervalType (unit interval) n).
Definition Subtract (input : Z) (interval : IntervalType) : option (res (option Z)) :=
  match negate interval with Ok interval => Add input interval | Err e => Some (Err e) end.

Definition GetDatePart (input : Z) (u : TimeUnit) : option (res Z) :=
  match Date2YMD input with
  | None => None
  | Some r => Some (let? (valid, year, month, day) := r in
                    check? valid else ParserErr in
                    match u with kYear => Ok year | kMonth => Ok month | kDay => Ok day | _ => Err ParserErr end)
  end.

(** In 64 bits. *)
Definition GetEpochTime (value : Z) : Z := value * (24 * 60 * 60).
End DateType.

(** ** [TimeType] *)
Module TimeType.
Definition MINUTE_SECOND : Z := 60.
Definition HOUR_SECOND : Z := 60 * MINUTE_SECOND.
Definition DAY_SECOND : Z := 24 * HOUR_SECOND.

Definition IsTimeValid (hour minute second : Z) : bool :=
  (0 <=? hour) && (hour <=? 23) && (0 <=? minute) && (minute <=? 59) && (0 <=? second) && (second <=? 59).
Definition HMS2Time (hour minute second : Z) : option Z :=
  if IsTimeValid hour minute second then Some (hour * HOUR_SECOND + minute * MINUTE_SECOND + second) else None.
Definition Time2HMS (seconds : Z) : option (Z * Z * Z) :=
  if (seconds <? 0) || (DAY_SECOND <=? seconds) then None
  else let rest := Z.rem seconds HOUR_SECOND in
       Some (Z.quot seconds HOUR_SECOND, Z.quot rest MINUTE_SECOND, Z.rem rest MINUTE_SECOND).

Definition ConvertFromString (ptr : list Z) (length : nat) : res (option Z) :=
  let? pos := skip isspace length ptr 0 in
  let? r := scan (length - pos) 23 0 ptr pos in
  match r with
  | None => Ok None
  | Some (hour, pos) =>
      let? c := char_at ptr pos in
      if negb (c =? 58) then Ok None
      else
        let? r := scan (length - S pos) 59 0 ptr (S pos) in
        match r with
        | None => Ok None
        | Some (minute, pos) =>
            let? c := char_at ptr pos in
            if negb (c =? 58) then Ok None
            else
              let? r := scan (length - S pos) 59 0 ptr (S pos) in
              match r with
              | None => Ok None
              | Some (second, _) => Ok (HMS2Time hour minute second)
              end
        end
  end.

Definition FromString (ptr : list Z) (length : nat) : res Z :=
  let? r := ConvertFromString ptr length in
  match r with Some t => Ok t | None => Err ParserErr end.

Definition ToString (value : Z) : res (list Z) :=
  match Time2HMS value with
  | None => Err ParserErr
  | Some (hour, minute, second) => Ok (format_0d 2 hour ++ [58] ++ format_0d 2 minute ++ [58] ++ format_0d 2 second)
  end.

Definition seconds_of (u : TimeUnit) : option Z :=
  match u with kHour => Some HOUR_SECOND | kMinute => Some MINUTE_SECOND | kSecond => Some 1 | _ => None end.

(** The new time and the days that overflow. *)
Definition calc_overflow_days (input n product : Z) : res (Z * Z) :=
  let? k := int32 (n * product) in
  let? tot := int32 (input + k) in
  let result := Z.rem (Z.rem tot DAY_SECOND + DAY_SECOND) DAY_SECOND in
  let? d := int32 (tot - result) in
  Ok (result, Z.quot d DAY_SECOND).

(** [overflow_days] is left alone for the units of dates. *)
Definition Add_overflow (input : Z) (interval : IntervalType) (overflow_days : Z) : res (Z * Z) :=
  match unit interval with
  | kInvalidUnit => Err ParserErr
  | u => match seconds_of u with
         | Some product => calc_overflow_days input (interval_value interval) product
         | None => Ok (input, overflow_days)
         end
  end.
Definition Add (input : Z) (interval : IntervalType) : res Z :=
  match unit interval with
  | kInvalidUnit => Err ParserErr
  | u => match seconds_of u with
         | Some product =>
             let? k := int32 (interval_value interval * product) in
             let? tot := int32 (input + k) in
             Ok (Z.rem (Z.rem tot DAY_SECOND + DAY_SECOND) DAY_SECOND)
         | None => Ok input
         end
  end.
Definition Subtract (input : Z) (interval : IntervalType) : res Z :=
  let? interval := DateType.negate interval in Add input interval.
Definition Subtract_overflow (input : Z) (interval : IntervalType) (overflow_days : Z) : res (Z * Z) :=
  let? interval := DateType.negate interval in Add_overflow input interval overflow_days.

Definition GetTimePart (input : Z) (u : TimeUnit) : res Z :=
  match Time2HMS input with
  | None => Err ParserErr
  | Some (hour, minute, second) =>
      match u with kHour => Ok hour | kMinute => Ok minute | kSecond => Ok second | _ => Err ParserErr end
  end.
End TimeType.

(** ** [DateTimeType], which is [TimestampType] too *)
Record DateTimeType := mkDateTimeType { date : Z; time : Z }.

Module DateTimeType.
(** From an epoch time of 64 bits; the casts to 32 bits wrap. *)
Definition of_epoch (epoch_time : Z) : DateTimeType :=
  let TotalSecondsInDay := 24 * 60 * 60 in
  let seconds := Z.rem epoch_time TotalSecondsInDay in
  let seconds := if seconds <? 0 then seconds + TotalSecondsInDay else seconds in
  mkDateTimeType (i32 (Z.quot (epoch_time - seconds) TotalSecondsInDay)) (i32 seconds).

Definition FromString (ptr : list Z) (length : nat) : res DateTimeType :=
  let? (d, date_length) := DateType.FromString ptr length in
  let? pos := skip (fun c => c =? 32) (length - date_length) ptr date_length in
  if (pos <? length)%nat then let? t := TimeType.FromString (drop pos ptr) (length - pos) in Ok (mkDateTimeType d t)
  else Ok (mkDateTimeType d 0).

Definition ToString (dt : DateTimeType) : option (res (list Z)) :=
  match DateType.ToString (date dt) with
  | None => None
  | Some r => Some (let? d := r in let? t := TimeType.ToString (time dt) in Ok (d ++ [32] ++ t))
  end.

Definition op_lt (a b : DateTimeType) : bool := (date a <? date b) || ((date a =? date b) && (time a <? time b)).
Definition op_eq (a b : DateTimeType) : bool := (date a =? date b) && (time a =? time b).

(** The answers of [DateType::Add] are dropped. *)
Definition add_to_date (dt : DateTimeType) (interval : IntervalType) : option (res DateTimeType) :=
  match DateType.Add (date dt) interval with
  | None => None
  | Some r => Some (let? d := r in Ok (mkDateTimeType (default (date dt) d) (time dt)))
  end.
Definition Add (input : DateTimeType) (interval : IntervalType) : option (res DateTimeType) :=
  match unit interval with
  | kYear | kMonth | kDay => add_to_date input interval
  | kHour | kMinute | kSecond =>
      match TimeType.Add_overflow (time input) interval 0 with
      | Err e => Some (Err e)
      | Ok (t, overflow_days) =>
          let dt := mkDateTimeType (date input) t in
          if overflow_days =? 0 then Some (Ok dt) else add_to_date dt (mkIntervalType kDay overflow_days)
      end
  | kInvalidUnit => Some (Err ParserErr)
  end.
Definition Subtract (input : DateTimeType) (interval : IntervalType) : option (res DateTimeType) :=
  match DateType.negate interval with Ok interval => Add input interval | Err e => Some (Err e) end.

Definition GetDateTimePart (input : DateTimeType) (u : TimeUnit) : option (res Z) :=
  match u with
  | kYear | kMonth | kDay => DateType.GetDatePart (date input) u
  | kHour | kMinute | kSecond => Some (TimeType.GetTimePart (time input) u)
  | kInvalidUnit => Some (Err ParserErr)
  end.

(** The time is checked, and written, before the date. *)
Definition YMDHMS2DateTime (year month day hour minute second : Z) : res (option DateTimeType) :=
  match TimeType.HMS2Time hour minute second with
  | None => Ok None
  | Some t => let? d := DateType.YMD2Date year month day in Ok (option_map (fun d => mkDateTimeType d t) d)
  end.
Definition DateTime2YMDHMS (days seconds : Z) : option (res (option (Z * Z * Z * (Z * Z * Z)))) :=
  match TimeType.Time2HMS seconds with
  | None => Some (Ok None)
  | Some hms =>
      match DateType.Date2YMD days with
      | None => None
      | Some r => Some (let? (valid, year, month, day) := r in Ok (if valid then Some (year, month, day, hms) else None))
      end
  end.
Definition IsDateTimeValid (year month day hour minute second : Z) : res bool :=
  if TimeType.IsTimeValid hour minute second then DateType.IsDateValid year month day else Ok false.

(** In 64 bits. *)
Definition GetEpochTime (dt : DateTimeType) : Z := date dt * (24 * 60 * 60) + time dt.
End DateTimeType.
