(* ===== verification/CalendarDays.v ===== *)
(** * Dates count the days of the Gregorian calendar

    The tables and loops of [DateType] against a definition of the calendar without them. *)
From S2P Require Import Prelude Calendar.
Import DateType.

(** ** The calendar *)

(** Leap years, and the days before a year, with floors and moduli. *)
Definition leap (y : Z) : Prop := y mod 4 = 0 /\ (y mod 100 <> 0 \/ y mod 400 = 0).
#[export] Instance leap_dec y : Decision (leap y).
Proof. unfold leap. apply _. Defined.
Definition days_before (y : Z) : Z := 365 * (y - 1) + (y - 1) / 4 - (y - 1) / 100 + (y - 1) / 400.

Definition month_days (y m : Z) : Z :=
  if decide (m = 2) then (if decide (leap y) then 29 else 28)
  else if decide (m = 4 \/ m = 6 \/ m = 9 \/ m = 11) then 30 else 31.
(** The days before a month: the sum over the months before it. *)
Definition days_before_month (y m : Z) : Z := foldr (fun k n => month_days y (Z.of_nat k) + n) 0 (seq 1 (Z.to_nat (m - 1))).

Definition civil (y m d : Z) : Prop := 1 <= m <= 12 /\ 1 <= d <= month_days y m.
(** The days from 1970-01-01. *)
Definition day_number (y m d : Z) : Z := days_before y - days_before 1970 + days_before_month y m + (d - 1).

Ltac div_mod := unfold leap in *; Z.div_mod_to_equations; lia.

Lemma days_before_succ y : days_before (y + 1) = days_before y + (if decide (leap y) then 366 else 365).
Proof. unfold days_before. replace (y + 1 - 1) with y by lia. case_decide; div_mod. Qed.

Lemma days_before_period y k : days_before (y + 400 * k) = days_before y + 146097 * k.
Proof.
  unfold days_before. replace (y + 400 * k - 1) with (y - 1 + (100 * k) * 4) by lia. rewrite Z.div_add by lia.
  replace (y - 1 + 100 * k * 4) with (y - 1 + (4 * k) * 100) by lia. rewrite Z.div_add by lia.
  replace (y - 1 + 4 * k * 100) with (y - 1 + k * 400) by lia. rewrite Z.div_add by lia. lia.
Qed.

Lemma leap_period y k : leap (y + 400 * k) <-> leap y.
Proof.
  unfold leap. assert (E4 : (y + 400 * k) mod 4 = y mod 4) by (replace (400 * k) with ((100 * k) * 4) by lia; apply Z_mod_plus_full).
  assert (E100 : (y + 400 * k) mod 100 = y mod 100) by (replace (400 * k) with ((4 * k) * 100) by lia; apply Z_mod_plus_full).
  assert (E400 : (y + 400 * k) mod 400 = y mod 400) by (replace (400 * k) with (k * 400) by lia; apply Z_mod_plus_full).
  by rewrite E4, E100, E400.
Qed.

Lemma rem_zero y k : 0 < k -> Z.rem y k = 0 <-> y mod k = 0.
Proof.
  intros Hk. rewrite Z.rem_divide by lia. split; [intros [q ->]; apply Z_mod_mult|]. intros H. exists (y / k). pose proof (Z.div_mod y k). lia.
Qed.

Lemma IsLeapYear_leap y : IsLeapYear y = bool_decide (leap y).
Proof.
  unfold IsLeapYear, leap. apply Bool.eq_iff_eq_true.
  rewrite andb_true_iff, orb_true_iff, negb_true_iff, !Z.eqb_eq, Z.eqb_neq, bool_decide_eq_true, !rem_zero by lia. done.
Qed.

(** ** The tables *)
Definition covers (l : list Z) (f : nat -> Z) (n : nat) : bool := forallb (fun i => bool_decide (l !! i = Some (f i))) (seq 0 n).

Lemma covers_at l f n i : covers l f n = true -> 0 <= i < Z.of_nat n -> at_index l i = Ok (f (Z.to_nat i)).
Proof.
  unfold covers. rewrite forallb_forall. intros H Hi. specialize (H (Z.to_nat i)). rewrite in_seq in H. specialize (H ltac:(lia)).
  apply bool_decide_eq_true in H. unfold at_index. rewrite (proj2 (Z.ltb_ge _ _)) by lia. by rewrite H.
Qed.

Lemma year_table i : 0 <= i <= 400 -> at_index CUMULATIVE_YEAR_DAYS i = Ok (days_before (1970 + i) - days_before 1970).
Proof.
  intros Hi. rewrite (covers_at _ (fun i => days_before (1970 + Z.of_nat i) - days_before 1970) 401); [|vm_compute; reflexivity|lia].
  by rewrite Z2Nat.id by lia.
Qed.

Lemma leap_2000 y : leap y -> leap y <-> leap 2000.
Proof. intros H. split; [|done]. intros _. split; [done|by right]. Qed.
Lemma leap_2001 y : ~ leap y -> leap y <-> leap 2001.
Proof. intros H. split; [done|]. intros [E _]. discriminate E. Qed.

(** What depends on the year only through its length. *)
Lemma same_months y y' m : (leap y <-> leap y') -> month_days y m = month_days y' m.
Proof. intros H. unfold month_days. repeat case_decide; tauto || lia. Qed.
Lemma same_days_before y y' m : (leap y <-> leap y') -> days_before_month y m = days_before_month y' m.
Proof. intros H. unfold days_before_month. induction (seq 1 _) as [|k l IH]; [done|]. cbn. by rewrite IH, (same_months y y') by done. Qed.

Lemma month_days_table y m : 1 <= m <= 12 -> at_index (if IsLeapYear y then LEAP_DAYS else NORMAL_DAYS) m = Ok (month_days y m).
Proof.
  intros Hm. rewrite IsLeapYear_leap. case_bool_decide as Hl.
  - rewrite (same_months y 2000) by (by apply leap_2000). rewrite (covers_at _ (fun i => if (i =? 0)%nat then 0 else month_days 2000 (Z.of_nat i)) 13);
      [|vm_compute; reflexivity|lia]. rewrite Z2Nat.id by lia. by rewrite (proj2 (Nat.eqb_neq _ _)) by lia.
  - rewrite (same_months y 2001) by (by apply leap_2001).
    rewrite (covers_at _ (fun i => if (i =? 0)%nat then 0 else month_days 2001 (Z.of_nat i)) 13);
      [|vm_compute; reflexivity|lia]. rewrite Z2Nat.id by lia. by rewrite (proj2 (Nat.eqb_neq _ _)) by lia.
Qed.

Lemma cumulative_table y m : 1 <= m <= 13 ->
  at_index (if IsLeapYear y then CUMULATIVE_LEAP_DAYS else CUMULATIVE_DAYS) (m - 1) = Ok (days_before_month y m).
Proof.
  intros Hm. rewrite IsLeapYear_leap. case_bool_decide as Hl.
  - rewrite (same_days_before y 2000) by (by apply leap_2000).
    rewrite (covers_at _ (fun i => days_before_month 2000 (Z.of_nat i + 1)) 13); [|vm_compute; reflexivity|lia]. f_equal. f_equal. lia.
  - rewrite (same_days_before y 2001) by (by apply leap_2001).
    rewrite (covers_at _ (fun i => days_before_month 2001 (Z.of_nat i + 1)) 13); [|vm_compute; reflexivity|lia]. f_equal. f_equal. lia.
Qed.

Definition year_days (y : Z) : Z := if decide (leap y) then 366 else 365.

(** The month of a day of the year. *)
Definition month_fits (y : Z) (l : list Z) (n : nat) : bool :=
  forallb (fun i => match l !! i with
                    | Some m => bool_decide (1 <= m <= 12 /\ days_before_month y m <= Z.of_nat i /\ Z.of_nat i < days_before_month y m + month_days y m)
                    | None => false
                    end) (seq 0 n).

Lemma month_fits_at y l n i : month_fits y l n = true -> 0 <= i < Z.of_nat n ->
  exists m, at_index l i = Ok m /\ 1 <= m <= 12 /\ days_before_month y m <= i < days_before_month y m + month_days y m.
Proof.
  unfold month_fits. rewrite forallb_forall. intros H Hi. specialize (H (Z.to_nat i)). rewrite in_seq in H. specialize (H ltac:(lia)).
  destruct (l !! Z.to_nat i) as [m|] eqn:E; [|done]. apply bool_decide_eq_true in H. exists m. unfold at_index.
  rewrite (proj2 (Z.ltb_ge _ _)), E by lia. rewrite Z2Nat.id in H by lia. split; [done|]. lia.
Qed.

Lemma month_and_day_civil y n : 0 <= n < year_days y ->
  exists m d, month_and_day y n = Ok (m, d) /\ civil y m d /\ days_before_month y m + (d - 1) = n.
Proof.
  intros Hn. assert (H : exists m, at_index (if IsLeapYear y then LEAP_MONTH_PER_DAY_OF_YEAR else MONTH_PER_DAY_OF_YEAR) n = Ok m /\ 1 <= m <= 12 /\
    days_before_month y m <= n < days_before_month y m + month_days y m).
  { rewrite IsLeapYear_leap. unfold year_days in Hn. case_bool_decide as Hl.
    - rewrite decide_True in Hn by done. destruct (month_fits_at 2000 LEAP_MONTH_PER_DAY_OF_YEAR 366 n) as (m & E & Hm & Hb); [vm_compute; reflexivity|lia|].
      exists m. rewrite (same_days_before y 2000), (same_months y 2000) by (by apply leap_2000). done.
    - rewrite decide_False in Hn by done. destruct (month_fits_at 2001 MONTH_PER_DAY_OF_YEAR 365 n) as (m & E & Hm & Hb); [vm_compute; reflexivity|lia|].
      exists m. rewrite (same_days_before y 2001), (same_months y 2001) by (by apply leap_2001). done. }
  destruct H as (m & E & Hm & Hb). unfold month_and_day. rewrite E. cbn [res_bind]. rewrite (cumulative_table y m) by lia. cbn [res_bind].
  exists m, (n - days_before_month y m + 1). split; [done|]. split; [split; [done|lia]|lia].
Qed.

(** ** Conversions *)
#[export] Instance civil_dec y m d : Decision (civil y m d).
Proof. unfold civil. apply _. Defined.
Definition date_valid (y m d : Z) : Prop := -1969 <= y <= 9999 /\ civil y m d.
#[export] Instance date_valid_dec y m d : Decision (date_valid y m d).
Proof. unfold date_valid. apply _. Defined.

Lemma month_days_bound y m : 28 <= month_days y m <= 31.
Proof. unfold month_days. repeat case_decide; lia. Qed.

Lemma IsDateValid_ok y m d : IsDateValid y m d = Ok (bool_decide (date_valid y m d)).
Proof.
  unfold IsDateValid, MIN_DATE_YEAR, MIN_DATE_MONTH, MIN_DATE_DAY, MAX_DATE_YEAR, MAX_DATE_MONTH, MAX_DATE_DAY. unfold date_valid, civil.
  pose proof (month_days_bound y m). destruct (_ || _) eqn:E1 in |- *.
  { f_equal. symmetry. apply bool_decide_eq_false. lia. }
  destruct (_ || _) eqn:E2 in |- *.
  { f_equal. symmetry. apply bool_decide_eq_false. lia. }
  destruct (_ || _) eqn:E3 in |- *.
  { f_equal. symmetry. apply bool_decide_eq_false. lia. }
  destruct (Z.ltb_spec d 1).
  { f_equal. symmetry. apply bool_decide_eq_false. lia. }
  rewrite month_days_table by lia. cbn [res_bind]. f_equal. apply Bool.eq_iff_eq_true. rewrite bool_decide_eq_true, Z.leb_le. lia.
Qed.

Lemma YMD2Date_ok y m d : YMD2Date y m d = Ok (if decide (date_valid y m d) then Some (day_number y m d) else None).
Proof.
  unfold YMD2Date. rewrite IsDateValid_ok. cbn [res_bind]. case_bool_decide as Hv; [rewrite decide_True by done|by rewrite decide_False].
  destruct Hv as [Hy [Hm Hd]]. cbn [negb]. rewrite cumulative_table by lia. cbn [res_bind]. unfold day_number, DAYS_PER_YEAR_LEAP.
  assert (Hr : forall x, 0 <= x -> x = 400 * Z.quot x 400 + Z.rem x 400 /\ 0 <= Z.rem x 400 < 400).
  { intros x Hx. pose proof (Z.quot_rem x 400). pose proof (Z.rem_bound_pos x 400). lia. }
  destruct (Z.ltb_spec y 1970) as [H1|H1]; [|destruct (Z.leb_spec 2370 y) as [H2|H2]].
  - destruct (Hr (1970 - y) ltac:(lia)) as [E Hb]. rewrite year_table by lia. cbn [res_bind].
    pose proof (days_before_period y (1 + Z.quot (1970 - y) 400)) as P.
    replace (y + 400 * (1 + Z.quot (1970 - y) 400)) with (1970 + (400 - Z.rem (1970 - y) 400)) in P by lia. do 2 f_equal. lia.
  - destruct (Hr (y - 2370) ltac:(lia)) as [E Hb]. rewrite year_table by lia. cbn [res_bind].
    pose proof (days_before_period (1970 + Z.rem (y - 2370) 400) (1 + Z.quot (y - 2370) 400)) as P.
    replace (1970 + Z.rem (y - 2370) 400 + 400 * (1 + Z.quot (y - 2370) 400)) with y in P by lia. do 2 f_equal. lia.
  - rewrite year_table by lia. cbn [res_bind]. replace (1970 + (y - 1970)) with y by lia. do 2 f_equal. lia.
Qed.

Lemma raise_days_ok fuel days year : - days <= 146097 * Z.of_nat fuel ->
  exists k, raise_days fuel days year = Some (days + 146097 * k, year - 400 * k) /\ 0 <= days + 146097 * k /\ (0 <= k) /\ (k = 0 \/ days + 146097 * k < 146097).
Proof.
  revert days year. induction fuel as [|fuel IH]; intros days year Hf; cbn [raise_days]; unfold DAYS_PER_YEAR_LEAP, YEAR_LEAP; destruct (Z.ltb_spec days 0) as [Hn|Hn].
  - lia.
  - exists 0. split_and!; [f_equal; f_equal; lia|lia..|by left].
  - destruct (IH (days + 146097) (year - 400)) as (k & -> & H1 & H2 & H3); [lia|]. exists (k + 1). split_and!; [f_equal; f_equal; lia|lia|lia|right]. lia.
  - exists 0. split_and!; [f_equal; f_equal; lia|lia..|by left].
Qed.

Lemma lower_days_ok fuel days year : 0 <= days -> days < 146097 * (1 + Z.of_nat fuel) ->
  exists k, lower_days fuel days year = Some (days - 146097 * k, year + 400 * k) /\ 0 <= days - 146097 * k < 146097.
Proof.
  revert days year. induction fuel as [|fuel IH]; intros days year H0 Hf; cbn [lower_days]; unfold DAYS_PER_YEAR_LEAP, YEAR_LEAP; destruct (Z.leb_spec 146097 days) as [Hn|Hn].
  - lia.
  - exists 0. split; [f_equal; f_equal; lia|lia].
  - destruct (IH (days - 146097) (year + 400)) as (k & -> & H1); [lia..|]. exists (k + 1). split; [f_equal; f_equal; lia|lia].
  - exists 0. split; [f_equal; f_equal; lia|lia].
Qed.

Lemma days_before_365 i : 0 <= i -> days_before (1970 + i) - days_before 1970 >= 365 * i.
Proof.
  intros Hi. pattern i. apply natlike_ind; [rewrite Z.add_0_r; lia| |done]. intros x Hx IH. replace (1970 + Z.succ x) with (1970 + x + 1) by lia.
  rewrite days_before_succ. case_decide; lia.
Qed.

(** The loop ends in the year of the day, counted from a year like 1970. *)
Lemma find_year_ok fuel days i : 0 <= days < 146097 -> 0 <= i <= 400 -> i <= Z.of_nat fuel -> days < days_before (1970 + (i + 1)) - days_before 1970 ->
  exists j, find_year fuel days i = Some (Ok j) /\ 0 <= j <= 400 /\
    days_before (1970 + j) - days_before 1970 <= days < days_before (1970 + j) - days_before 1970 + year_days (1970 + j).
Proof.
  intros Hd. revert i. induction fuel as [|fuel IH]; intros i Hi Hf Hlt; cbn [find_year]; rewrite year_table by lia;
    destruct (Z.ltb_spec days (days_before (1970 + i) - days_before 1970)) as [Hn|Hn].
  1: assert (i = 0) as -> by lia; rewrite Z.add_0_r in Hn; lia.
  2: destruct (decide (i = 0)) as [->|]; [rewrite Z.add_0_r in Hn; lia|]; apply IH; [lia|lia|]; by replace (i - 1 + 1) with i by lia.
  all: exists i; split; [done|]; split; [done|]; unfold year_days; rewrite Z.add_assoc, days_before_succ in Hlt; lia.
Qed.

(** [Date2YMD] finds the date of every day. *)
Lemma Date2YMD_ok days : exists y m d, Date2YMD days = Some (Ok (bool_decide (date_valid y m d), y, m, d)) /\ civil y m d /\ day_number y m d = days.
Proof.
  unfold Date2YMD. set (fuel := S _). assert (Hfuel : Z.abs days < 146097 * Z.of_nat fuel).
  { subst fuel. unfold DAYS_PER_YEAR_LEAP. rewrite Nat2Z.inj_succ, Z2Nat.id by (apply Z.div_pos; lia). pose proof (Z.div_mod (Z.abs days) 146097).
    pose proof (Z.mod_pos_bound (Z.abs days) 146097). lia. }
  destruct (raise_days_ok fuel days EPOCH_YEAR) as (k1 & -> & H1 & H2 & H3); [lia|].
  destruct (lower_days_ok fuel (days + 146097 * k1) (EPOCH_YEAR - 400 * k1)) as (k2 & -> & H4); [lia|lia|].
  set (n := days + 146097 * k1 - 146097 * k2) in *. set (k := k2 - k1). assert (Ey : EPOCH_YEAR - 400 * k1 + 400 * k2 = 1970 + 400 * k) by (unfold EPOCH_YEAR; lia).
  rewrite Ey. pose proof (Z.quot_rem n 365 ltac:(lia)) as Eq. pose proof (Z.rem_bound_pos n 365 ltac:(lia) ltac:(lia)) as Hr.
  destruct (find_year_ok (Z.to_nat (Z.quot n 365)) n (Z.quot n 365)) as (j & -> & Hj & Hb); [done|lia|lia| |].
  { pose proof (days_before_365 (Z.quot n 365 + 1)). lia. }
  cbn [res_bind]. rewrite year_table by lia. cbn [res_bind].
  assert (El : leap (1970 + 400 * k + j) <-> leap (1970 + j)) by (replace (1970 + 400 * k + j) with (1970 + j + 400 * k) by lia; apply leap_period).
  destruct (month_and_day_civil (1970 + 400 * k + j) (n - (days_before (1970 + j) - days_before 1970))) as (m & d & -> & Hc & Hm).
  { unfold year_days in *. destruct (decide (leap (1970 + 400 * k + j))), (decide (leap (1970 + j))); try tauto; lia. }
  cbn [res_bind]. rewrite IsDateValid_ok. cbn [res_bind]. exists (1970 + 400 * k + j), m, d. split; [done|]. split; [done|].
  unfold day_number. replace (1970 + 400 * k + j) with (1970 + j + 400 * k) at 1 by lia. rewrite days_before_period. lia.
Qed.

(** ** Different dates are different days *)
Definition months_ordered (y : Z) : bool :=
  forallb (fun m => bool_decide (0 <= days_before_month y m /\ days_before_month y m + month_days y m <= (if decide (leap y) then 366 else 365)) &&
    forallb (fun m' => bool_decide (m < m' -> days_before_month y m + month_days y m <= days_before_month y m')) [1; 2; 3; 4; 5; 6; 7; 8; 9; 10; 11; 12])
    [1; 2; 3; 4; 5; 6; 7; 8; 9; 10; 11; 12].

Lemma month_in m : 1 <= m <= 12 -> In m [1; 2; 3; 4; 5; 6; 7; 8; 9; 10; 11; 12].
Proof. intros H. cbn. lia. Qed.

Lemma months_order y m : 1 <= m <= 12 -> 0 <= days_before_month y m /\ days_before_month y m + month_days y m <= year_days y /\
  forall m', 1 <= m' <= 12 -> m < m' -> days_before_month y m + month_days y m <= days_before_month y m'.
Proof.
  intros Hm. assert (H : forall y0, months_ordered y0 = true -> (leap y <-> leap y0) -> 0 <= days_before_month y m /\
    days_before_month y m + month_days y m <= year_days y /\ forall m', 1 <= m' <= 12 -> m < m' -> days_before_month y m + month_days y m <= days_before_month y m').
  { intros y0 H El. unfold months_ordered in H. rewrite forallb_forall in H. specialize (H m (month_in m Hm)). apply andb_true_iff in H as [H1 H2].
    apply bool_decide_eq_true in H1. rewrite forallb_forall in H2. rewrite (same_days_before y y0), (same_months y y0) by done.
    split; [lia|]. split; [unfold year_days; repeat case_decide; tauto || lia|]. intros m' Hm' Hlt. rewrite (same_days_before y y0) by done.
    specialize (H2 m' (month_in m' Hm')). apply bool_decide_eq_true in H2. by apply H2. }
  destruct (decide (leap y)); [apply (H 2000)|apply (H 2001)]; (vm_compute; reflexivity) || (by apply leap_2000) || (by apply leap_2001).
Qed.

Lemma days_before_mono y y' : y < y' -> days_before y + year_days y <= days_before y'.
Proof.
  intros Hlt. assert (H : forall k, 0 <= k -> days_before (y + 1) <= days_before (y + 1 + k)).
  { intros k Hk. pattern k. apply natlike_ind; [rewrite Z.add_0_r; lia| |done]. intros x Hx IH. replace (y + 1 + Z.succ x) with (y + 1 + x + 1) by lia.
    rewrite (days_before_succ (y + 1 + x)). case_decide; lia. }
  specialize (H (y' - y - 1) ltac:(lia)). replace (y + 1 + (y' - y - 1)) with y' in H by lia. rewrite days_before_succ in H. done.
Qed.

Lemma day_number_lt y m d y' m' d' : civil y m d -> civil y' m' d' -> (y < y' \/ y = y' /\ (m < m' \/ m = m' /\ d < d')) -> day_number y m d < day_number y' m' d'.
Proof.
  intros [Hm Hd] [Hm' Hd'] H. unfold day_number. destruct (months_order y m Hm) as (M1 & M2 & M3). destruct (months_order y' m' Hm') as (M1' & _).
  destruct H as [Hy|[<- [Hlt|[<- Hlt]]]].
  - pose proof (days_before_mono y y' Hy). lia.
  - specialize (M3 m' Hm' Hlt). lia.
  - lia.
Qed.

Lemma day_number_inj y m d y' m' d' : civil y m d -> civil y' m' d' -> day_number y m d = day_number y' m' d' -> (y, m, d) = (y', m', d').
Proof.
  intros H H' E. destruct (decide (y = y')) as [<-|Hy]; [destruct (decide (m = m')) as [<-|Hm]; [destruct (decide (d = d')) as [<-|Hd]; [done|]|]|]; exfalso.
  - destruct (Z.lt_ge_cases d d'); [pose proof (day_number_lt y m d y m d' H H')|pose proof (day_number_lt y m d' y m d H' H)]; lia.
  - destruct (Z.lt_ge_cases m m'); [pose proof (day_number_lt y m d y m' d' H H')|pose proof (day_number_lt y m' d' y m d H' H)]; lia.
  - destruct (Z.lt_ge_cases y y'); [pose proof (day_number_lt y m d y' m' d' H H')|pose proof (day_number_lt y' m' d' y m d H' H)]; lia.
Qed.

Lemma Date2YMD_day y m d : civil y m d -> Date2YMD (day_number y m d) = Some (Ok (bool_decide (date_valid y m d), y, m, d)).
Proof.
  intros Hc. destruct (Date2YMD_ok (day_number y m d)) as (y' & m' & d' & -> & Hc' & E). by apply day_number_inj in E as [= -> -> ->].
Qed.

Definition MIN_DAY : Z := day_number (-1969) 1 1.
Definition MAX_DAY : Z := day_number 9999 12 31.

Lemma date_valid_range y m d : civil y m d -> date_valid y m d <-> MIN_DAY <= day_number y m d <= MAX_DAY.
Proof.
  intros Hc. assert (Hmin : civil (-1969) 1 1) by (vm_compute; intuition congruence). assert (Hmax : civil 9999 12 31) by (vm_compute; intuition congruence).
  pose proof Hc as [Hm Hd]. pose proof (month_days_bound y m). unfold MIN_DAY, MAX_DAY. split.
  - intros [Hy _]. split.
    + destruct (decide ((y, m, d) = (-1969, 1, 1))) as [[= -> -> ->]|Hne]; [lia|]. pose proof (day_number_lt _ _ _ y m d Hmin Hc).
      assert (y <> -1969 \/ m <> 1 \/ d <> 1) by (destruct (decide (y = -1969)) as [->|], (decide (m = 1)) as [->|], (decide (d = 1)) as [->|]; auto; done). lia.
    + destruct (decide ((y, m, d) = (9999, 12, 31))) as [[= -> -> ->]|Hne]; [lia|]. pose proof (day_number_lt y m d _ _ _ Hc Hmax).
      assert (y <> 9999 \/ m <> 12 \/ d <> 31) by (destruct (decide (y = 9999)) as [->|], (decide (m = 12)) as [->|], (decide (d = 31)) as [->|]; auto; done). lia.
  - intros Hr. split; [|done]. destruct (Z.lt_ge_cases y (-1969)); [pose proof (day_number_lt y m d _ _ _ Hc Hmin); lia|].
    destruct (Z.lt_ge_cases 9999 y); [pose proof (day_number_lt _ _ _ y m d Hmax Hc); lia|lia].
Qed.

(** C24. Dates count the days of the Gregorian calendar: a year, month and day is accepted exactly
    when it is a day of the calendar from year -1969 to 9999, and gives the number of days since
    1970-01-01; every number gives back the day it counts, and is found valid exactly in the range of
    the calendar. The loops of the conversion end for every number. *)
Theorem date_counts_days : (forall y m d, YMD2Date y m d = Ok (if decide (date_valid y m d) then Some (day_number y m d) else None)) /\
  (forall y m d, date_valid y m d -> Date2YMD (day_number y m d) = Some (Ok (true, y, m, d))) /\
  (forall days, exists y m d, civil y m d /\ day_number y m d = days /\
    Date2YMD days = Some (Ok (bool_decide (MIN_DAY <= days <= MAX_DAY), y, m, d))).
Proof.
  split_and!.
  - apply YMD2Date_ok.
  - intros y m d Hv. rewrite Date2YMD_day by apply Hv. by rewrite bool_decide_eq_true_2.
  - intros days. destruct (Date2YMD_ok days) as (y & m & d & E & Hc & Hn). exists y, m, d. split; [done|]. split; [done|]. rewrite E.
    do 5 f_equal. apply bool_decide_ext. rewrite <- Hn. by apply date_valid_range.
Qed.
