(* ===== verification/CalendarText.v ===== *)
(** * The text of dates and times

    What [ToString] prints, [FromString] reads. *)
From S2P Require Import Prelude Calendar CalendarDays.

Implicit Types (ptr rest after : list Z).

(** ** Numbers *)
Definition number (acc : Z) (l : list Z) : Z := foldl (fun a c => a * 10 + (c - 48)) acc l.
Definition all_digits (l : list Z) : Prop := Forall (fun c => isdigit c = true) l.

Lemma isdigit_iff c : isdigit c = true <-> 48 <= c <= 57.
Proof. unfold isdigit. rewrite andb_true_iff, !Z.leb_le. lia. Qed.

Lemma number_ge acc l : all_digits l -> 0 <= acc -> acc <= number acc l.
Proof.
  intros Hl. revert acc. induction Hl as [|c l Hc Hl IH]; intros acc Ha; [done|]. apply isdigit_iff in Hc. cbn.
  specialize (IH (acc * 10 + (c - 48)) ltac:(lia)). unfold number in IH. lia.
Qed.

Lemma digits_ok fuel n : 0 <= n < 10 ^ Z.of_nat fuel -> all_digits (digits fuel n) /\ number 0 (digits fuel n) = n /\ (0 < fuel -> digits fuel n <> [])%nat.
Proof.
  revert n. induction fuel as [|fuel IH]; intros n Hn.
  { cbn in Hn. assert (n = 0) as -> by lia. split_and!; [constructor|done|lia]. }
  cbn [digits]. rewrite Nat2Z.inj_succ, Z.pow_succ_r in Hn by lia. destruct (Z.ltb_spec n 10) as [Hlt|Hge].
  - split_and!; [repeat constructor; apply isdigit_iff; lia|cbn; lia|done].
  - pose proof (Z.div_mod n 10 ltac:(lia)) as E. pose proof (Z.mod_pos_bound n 10 ltac:(lia)) as Hm.
    destruct (IH (n / 10)) as (H1 & H2 & _); [lia|]. split_and!.
    + apply Forall_app. split; [done|]. repeat constructor. apply isdigit_iff. lia.
    + unfold number in *. rewrite foldl_app, H2. cbn. lia.
    + intros _ E'. by destruct (digits fuel (n / 10)).
Qed.

Lemma zeros_ok k l : number 0 (repeat 48 k ++ l) = number 0 l /\ (all_digits l -> all_digits (repeat 48 k ++ l)).
Proof. induction k as [|k [IH1 IH2]]; [done|]. split; [exact IH1|]. intros H. constructor; [done|by apply IH2]. Qed.

Lemma pad_ok w n : 0 <= n < 10000 -> all_digits (pad w (digits 10 n)) /\ number 0 (pad w (digits 10 n)) = n /\ pad w (digits 10 n) <> [].
Proof.
  intros Hn. destruct (digits_ok 10 n) as (H1 & H2 & H3); [lia|]. unfold pad. destruct (zeros_ok (w - length (digits 10 n)) (digits 10 n)) as [E1 E2].
  split_and!; [by apply E2|by rewrite E1|]. intros [_ E]%app_nil. apply H3 in E; [done|lia].
Qed.

(** ** Scanning *)
Lemma char_at_drop ptr pos c rest : drop pos ptr = c :: rest -> char_at ptr pos = Ok c /\ drop (S pos) ptr = rest.
Proof.
  intros E. assert (Hc : ptr !! pos = Some c) by (by rewrite <- (Nat.add_0_r pos), <- lookup_drop, E). unfold char_at. rewrite Hc. split; [done|].
  apply drop_S in Hc. congruence.
Qed.

Lemma drop_app_at ptr pos l rest : drop pos ptr = l ++ rest -> drop (pos + length l) ptr = rest.
Proof. intros E. by rewrite <- drop_drop, E, drop_app_length. Qed.

Definition ends (n : nat) (rest : list Z) : Prop := n = O \/ exists c r, rest = c :: r /\ isdigit c = false.

Lemma ends_eq n n' rest : ends n rest -> n = n' -> ends n' rest.
Proof. by intros H <-. Qed.

Lemma scan_ok l n max acc ptr pos rest : all_digits l -> drop pos ptr = l ++ rest -> ends n rest -> 0 <= acc -> number acc l <= max ->
  scan (length l + n) max acc ptr pos = Ok (Some (number acc l, (pos + length l)%nat)).
Proof.
  intros Hl. revert acc pos. induction Hl as [|c l Hc Hl IH]; intros acc pos E Hend Ha Hmax.
  - cbn in *. rewrite Nat.add_0_r. destruct Hend as [->|(c & r & -> & Hc)]; [done|]. destruct n as [|n]; [done|]. cbn [scan].
    destruct (char_at_drop _ _ _ _ E) as [-> _]. cbn [res_bind]. by rewrite Hc.
  - destruct (char_at_drop _ _ _ _ E) as [E1 E2]. cbn [length Nat.add scan]. rewrite E1. cbn [res_bind]. rewrite Hc. cbn [number foldl] in *.
    apply isdigit_iff in Hc. pose proof (number_ge (acc * 10 + (c - 48)) l Hl ltac:(lia)) as Hge. unfold number in *. rewrite (proj2 (Z.ltb_ge _ _)) by lia.
    rewrite (IH _ (S pos) E2 Hend) by lia. do 3 f_equal. lia.
Qed.

Lemma skip_none p n ptr pos c rest : drop pos ptr = c :: rest -> p c = false -> skip p n ptr pos = Ok pos.
Proof. intros E Hc. destruct n as [|n]; [done|]. cbn [skip]. destruct (char_at_drop _ _ _ _ E) as [-> _]. cbn [res_bind]. by rewrite Hc. Qed.

(** A number of the text with the character behind it. *)
Lemma scan_field w n ptr pos rest length max : 0 <= n < 10000 -> n <= max -> drop pos ptr = pad w (digits 10 n) ++ rest ->
  (pos + Datatypes.length (pad w (digits 10 n)) <= length)%nat ->
  ends (length - (pos + Datatypes.length (pad w (digits 10 n)))) rest ->
  scan (length - pos) max 0 ptr pos = Ok (Some (n, (pos + Datatypes.length (pad w (digits 10 n)))%nat)) /\
  drop (pos + Datatypes.length (pad w (digits 10 n))) ptr = rest.
Proof.
  intros Hn Hmax E Hl Hend. destruct (pad_ok w n Hn) as (Hd & Hv & _). split; [|by eapply drop_app_at].
  replace (length - pos)%nat with (Datatypes.length (pad w (digits 10 n)) + (length - (pos + Datatypes.length (pad w (digits 10 n)))))%nat by lia.
  rewrite (scan_ok _ _ _ _ _ _ rest Hd E Hend) by (rewrite ?Hv; lia). by rewrite Hv.
Qed.

Lemma first_digit w n rest : 0 <= n < 10000 -> exists c r, pad w (digits 10 n) ++ rest = c :: r /\ 48 <= c <= 57.
Proof.
  intros Hn. destruct (pad_ok w n Hn) as (Hd & _ & Hne). destruct (pad w (digits 10 n)) as [|c l]; [done|]. apply Forall_cons_1 in Hd as [Hc _].
  apply isdigit_iff in Hc. by exists c, (l ++ rest).
Qed.

Lemma isdigit_not c : c < 48 \/ 57 < c -> isdigit c = false.
Proof. intros H. apply not_true_is_false. rewrite isdigit_iff. lia. Qed.

(** The parser, with what its scans return. *)
Ltac run_parser :=
  repeat match goal with
         | H : scan ?n ?m ?a ?p ?k = _ |- context [scan ?n ?m ?a ?p ?k] => rewrite H; cbn [res_bind]
         | H : char_at ?p ?k = _ |- context [char_at ?p ?k] => rewrite H; cbn [res_bind]
         | |- context [negb (DateType.separator 45)] => change (negb (DateType.separator 45)) with false; cbv iota
         | |- context [negb (58 =? 58)] => change (negb (58 =? 58)) with false; cbv iota
         end.

(** ** Dates *)
Definition date_text (y m d : Z) : list Z := format_0d 4 y ++ [45] ++ format_0d 2 m ++ [45] ++ format_0d 2 d.

Lemma format_pos w n : 0 <= n -> format_0d w n = pad w (digits 10 n).
Proof. intros H. unfold format_0d. by rewrite (proj2 (Z.ltb_ge _ _)). Qed.

(** The text after the sign of the year. *)
Lemma read_ymd y m d (neg : bool) ptr pos length after : 0 <= y < 10000 -> 0 <= m <= 12 -> 0 <= d <= 31 ->
  let ly := pad (if neg then 3 else 4) (digits 10 y) in let lm := pad 2 (digits 10 m) in let ld := pad 2 (digits 10 d) in
  let e := (pos + Datatypes.length ly + 1 + Datatypes.length lm + 1 + Datatypes.length ld)%nat in
  drop pos ptr = ly ++ [45] ++ lm ++ [45] ++ ld ++ after -> (e <= length)%nat -> ends (length - e) after ->
  exists p1 p2, scan (length - pos) 9999 0 ptr pos = Ok (Some (y, p1)) /\ char_at ptr p1 = Ok 45 /\
    scan (length - S p1) 12 0 ptr (S p1) = Ok (Some (m, p2)) /\ char_at ptr p2 = Ok 45 /\
    scan (length - S p2) 31 0 ptr (S p2) = Ok (Some (d, e)).
Proof.
  intros Hy Hm Hd ly lm ld e E He Hend.
  assert (H45 : forall k r, ends k (45 :: r)) by (intros k r; right; exists 45, r; split; [done|by apply isdigit_not; lia]).
  destruct (scan_field (if neg then 3 else 4) y ptr pos ([45] ++ lm ++ [45] ++ ld ++ after) length 9999) as [E1 D1]; try done; try lia; [fold ly; lia|by apply H45|].
  fold ly in E1, D1. set (p1 := (pos + Datatypes.length ly)%nat) in *. destruct (char_at_drop _ _ _ _ D1) as [C1 D1'].
  destruct (scan_field 2 m ptr (S p1) ([45] ++ ld ++ after) length 12) as [E2 D2]; try done; try lia; [fold lm; lia|by apply H45|].
  fold lm in E2, D2. set (p2 := (S p1 + Datatypes.length lm)%nat) in *. destruct (char_at_drop _ _ _ _ D2) as [C2 D2'].
  assert (Ee : e = (S p2 + Datatypes.length ld)%nat) by lia.
  destruct (scan_field 2 d ptr (S p2) after length 31) as [E3 D3]; try done; try lia; [fold ld; lia|fold ld; by rewrite <- Ee|].
  fold ld in E3. rewrite <- Ee in E3. by exists p1, p2.
Qed.

Lemma date_from_text y m d after length : date_valid y m d -> (Datatypes.length (date_text y m d) <= length)%nat ->
  ends (length - Datatypes.length (date_text y m d)) after ->
  DateType.FromString (date_text y m d ++ after) length = Ok (day_number y m d, Datatypes.length (date_text y m d)).
Proof.
  intros Hv Hl Hend. pose proof Hv as [Hy [Hm Hd]]. pose proof (month_days_bound y m). unfold DateType.FromString, DateType.ConvertFromString.
  unfold date_text in *. rewrite (format_pos 2 m), (format_pos 2 d) in * by lia. unfold format_0d in *. destruct (Z.ltb_spec y 0) as [Hneg|Hpos].
  - set (ptr := (_ ++ after)). assert (E0 : drop 0 ptr = 45 :: drop 1 ptr) by done.
    rewrite (skip_none isspace length ptr 0 _ _ E0) by done. cbn [res_bind]. destruct (char_at_drop _ _ _ _ E0) as [-> _]. cbn [res_bind].
    rewrite Z.eqb_refl. rewrite !length_app in Hend, Hl. cbn [Datatypes.length Nat.sub] in Hend, Hl.
    destruct (read_ymd (- y) m d true ptr 1 length after) as (p1 & p2 & S1 & C1 & S2 & C2 & S3); try lia.
    { subst ptr. rewrite <- !app_assoc. done. }
    { eapply ends_eq; [exact Hend|lia]. }
    run_parser. rewrite Z.opp_involutive, YMD2Date_ok, decide_True by done.
    cbn [res_bind option_map]. do 2 f_equal. rewrite !length_app. cbn [Datatypes.length Nat.sub]. lia.
  - destruct (first_digit 4 y ([45] ++ pad 2 (digits 10 m) ++ [45] ++ pad 2 (digits 10 d) ++ after)) as (c & r & Ec & Hc); [lia|].
    set (ptr := (_ ++ after)). assert (E0 : drop 0 ptr = c :: r) by (rewrite <- Ec; subst ptr; rewrite <- !app_assoc; done).
    rewrite (skip_none isspace length ptr 0 _ _ E0) by (unfold isspace; lia). cbn [res_bind]. destruct (char_at_drop _ _ _ _ E0) as [-> _]. cbn [res_bind].
    rewrite (proj2 (Z.eqb_neq c 45)) by lia. rewrite !length_app in Hend, Hl. cbn [Datatypes.length Nat.sub] in Hend, Hl.
    destruct (read_ymd y m d false ptr 0 length after) as (p1 & p2 & S1 & C1 & S2 & C2 & S3); try lia.
    { rewrite E0, <- Ec. done. }
    { eapply ends_eq; [exact Hend|lia]. }
    run_parser. rewrite YMD2Date_ok, decide_True by done.
    cbn [res_bind option_map]. do 2 f_equal. rewrite !length_app. cbn [Datatypes.length Nat.sub]. lia.
Qed.

(** ** Times *)
Definition time_text (h mi s : Z) : list Z := format_0d 2 h ++ [58] ++ format_0d 2 mi ++ [58] ++ format_0d 2 s.

Lemma IsTimeValid_iff h mi s : TimeType.IsTimeValid h mi s = true <-> 0 <= h <= 23 /\ 0 <= mi <= 59 /\ 0 <= s <= 59.
Proof. unfold TimeType.IsTimeValid. rewrite !andb_true_iff, !Z.leb_le. lia. Qed.

Lemma time_from_text h mi s after : TimeType.IsTimeValid h mi s = true ->
  TimeType.FromString (time_text h mi s ++ after) (length (time_text h mi s)) = Ok (h * 3600 + mi * 60 + s).
Proof.
  intros Hv. pose proof (proj1 (IsTimeValid_iff _ _ _) Hv) as (Hh & Hmi & Hs). unfold TimeType.FromString, TimeType.ConvertFromString, time_text.
  rewrite !format_pos by lia. set (lh := pad 2 (digits 10 h)). set (lmi := pad 2 (digits 10 mi)). set (ls := pad 2 (digits 10 s)).
  set (n := length (lh ++ _)). set (ptr := (_ ++ after)). assert (En : n = (length lh + 1 + length lmi + 1 + length ls)%nat).
  { subst n. rewrite !length_app. cbn [length]. lia. }
  assert (Eptr : drop 0 ptr = lh ++ [58] ++ lmi ++ [58] ++ ls ++ after) by (subst ptr; rewrite <- !app_assoc; done).
  destruct (first_digit 2 h ([58] ++ lmi ++ [58] ++ ls ++ after)) as (c & r & Ec & Hc); [lia|]. fold lh in Ec.
  rewrite (skip_none isspace n ptr 0 c r) by (try (rewrite Eptr; done); unfold isspace; lia). cbn [res_bind].
  assert (H58 : forall k r, ends k (58 :: r)) by (intros k r0; right; exists 58, r0; split; [done|by apply isdigit_not; lia]).
  destruct (scan_field 2 h ptr 0 ([58] ++ lmi ++ [58] ++ ls ++ after) n 23) as [E1 D1]; try done; try lia; [fold lh; lia|by apply H58|].
  fold lh in E1, D1. destruct (char_at_drop _ _ _ _ D1) as [C1 D1'].
  destruct (scan_field 2 mi ptr (S (0 + length lh)) ([58] ++ ls ++ after) n 59) as [E2 D2]; try done; try lia; [fold lmi; lia|by apply H58|].
  fold lmi in E2, D2. destruct (char_at_drop _ _ _ _ D2) as [C2 D2'].
  destruct (scan_field 2 s ptr (S (S (0 + length lh) + length lmi)) after n 59) as [E3 _]; try done; try lia; [fold ls; lia|fold ls; left; lia|].
  run_parser. unfold TimeType.HMS2Time. rewrite Hv. done.
Qed.

Lemma Time2HMS_ok t : 0 <= t < 86400 -> exists h mi s, TimeType.Time2HMS t = Some (h, mi, s) /\ TimeType.IsTimeValid h mi s = true /\ h * 3600 + mi * 60 + s = t.
Proof.
  intros Ht. unfold TimeType.Time2HMS, TimeType.DAY_SECOND, TimeType.HOUR_SECOND, TimeType.MINUTE_SECOND.
  destruct (_ || _) eqn:E; [lia|]. eexists _, _, _. split; [done|]. rewrite IsTimeValid_iff.
  pose proof (Z.quot_rem t (60 * 60) ltac:(lia)). pose proof (Z.rem_bound_pos t (60 * 60) ltac:(lia) ltac:(lia)) as Hr.
  pose proof (Z.quot_rem (Z.rem t (60 * 60)) 60 ltac:(lia)). pose proof (Z.rem_bound_pos (Z.rem t (60 * 60)) 60 (proj1 Hr) ltac:(lia)). lia.
Qed.

(** ** Dates with times *)
Definition datetime_valid (dt : DateTimeType) : Prop := MIN_DAY <= date dt <= MAX_DAY /\ 0 <= time dt < 86400.

(** The parts of a date and time give it back. *)
Lemma datetime_parts dt : datetime_valid dt -> exists y m d h mi s,
  DateTimeType.DateTime2YMDHMS (date dt) (time dt) = Some (Ok (Some (y, m, d, (h, mi, s)))) /\
  DateTimeType.YMDHMS2DateTime y m d h mi s = Ok (Some dt).
Proof.
  intros [Hd Ht]. destruct (Date2YMD_ok (date dt)) as (y & m & d & E & Hc & Hn).
  assert (Hv : date_valid y m d) by (apply date_valid_range; [done|by rewrite Hn]). rewrite bool_decide_eq_true_2 in E by done.
  destruct (Time2HMS_ok (time dt) Ht) as (h & mi & s & Et & Htv & Hs). exists y, m, d, h, mi, s.
  unfold DateTimeType.DateTime2YMDHMS, DateTimeType.YMDHMS2DateTime, TimeType.HMS2Time. rewrite Et, E, Htv, YMD2Date_ok, decide_True by done. cbn [res_bind option_map].
  split; [done|]. change (h * TimeType.HOUR_SECOND + mi * TimeType.MINUTE_SECOND + s) with (h * 3600 + mi * 60 + s). rewrite Hs, Hn. by destruct dt.
Qed.

(** C25. The text of a date and time reads back: for every day of the calendar, in years before 0
    too, and every second of a day, what is printed is read as the same value, whatever the memory
    behind the text holds. *)
Theorem datetime_text_roundtrip (dt : DateTimeType) : datetime_valid dt ->
  exists text, DateTimeType.ToString dt = Some (Ok text) /\
    forall after, DateTimeType.FromString (text ++ after) (length text) = Ok dt.
Proof.
  intros [Hd Ht]. destruct (Date2YMD_ok (date dt)) as (y & m & d & E & Hc & Hn).
  assert (Hv : date_valid y m d) by (apply date_valid_range; [done|by rewrite Hn]). rewrite bool_decide_eq_true_2 in E by done.
  destruct (Time2HMS_ok (time dt) Ht) as (h & mi & s & Et & Htv & Hs).
  exists (date_text y m d ++ [32] ++ time_text h mi s). split.
  { unfold DateTimeType.ToString, DateType.ToString. rewrite E. cbn [res_bind]. unfold TimeType.ToString. by rewrite Et. }
  intros after. unfold DateTimeType.FromString. set (n := length (date_text y m d ++ _)).
  assert (En : n = (length (date_text y m d) + 1 + length (time_text h mi s))%nat) by (subst n; rewrite !length_app; cbn [length]; lia).
  rewrite <- app_assoc, (date_from_text y m d (([32] ++ time_text h mi s) ++ after) n Hv); [|lia|right; exists 32, (time_text h mi s ++ after); split; [done|by apply isdigit_not; lia]].
  cbn [res_bind]. set (ptr := date_text y m d ++ _). assert (E1 : drop (length (date_text y m d)) ptr = 32 :: time_text h mi s ++ after) by (apply drop_app_length).
  destruct (char_at_drop _ _ _ _ E1) as [C1 E2]. replace (n - length (date_text y m d))%nat with (S (length (time_text h mi s))) by lia.
  cbn [skip]. rewrite C1. cbn [res_bind]. rewrite Z.eqb_refl.
  destruct (first_digit 2 h ([58] ++ format_0d 2 mi ++ [58] ++ format_0d 2 s ++ after)) as (c & r & Ec & Hc'); [apply IsTimeValid_iff in Htv; lia|].
  rewrite (skip_none _ _ _ _ c r) by (try (rewrite E2; unfold time_text; rewrite (format_pos 2 h), <- Ec, <- !app_assoc by (apply IsTimeValid_iff in Htv; lia); done); apply Z.eqb_neq; lia).
  cbn [res_bind]. rewrite (proj2 (Nat.ltb_lt _ _)).
  2:{ assert (length (time_text h mi s) <> 0)%nat; [|lia]. unfold time_text. rewrite !length_app. cbn [length]. lia. }
  rewrite E2. replace (n - S (length (date_text y m d)))%nat with (length (time_text h mi s)) by lia.
  rewrite time_from_text by done. cbn [res_bind]. rewrite Hs, Hn. by destruct dt.
Qed.

Lemma datetime_text_roundtrip_witness :
  exists text, DateTimeType.ToString (mkDateTimeType (-719529) 86399) = Some (Ok text) /\
    DateTimeType.FromString (text ++ [0]) (length text) = Ok (mkDateTimeType (-719529) 86399).
Proof.
  destruct (datetime_text_roundtrip (mkDateTimeType (-719529) 86399)) as (text & E1 & E2).
  - split; vm_compute; split; congruence.
  - exists text. split; [exact E1|apply E2].
Defined.
