(* ===== verification/CalendarArith.v ===== *)
(** * Intervals

    Adding intervals to dates, times and both. *)
From S2P Require Import Prelude Calendar CalendarDays CalendarText.

Definition in32 (x : Z) : Prop := - 2 ^ 31 <= x < 2 ^ 31.
#[export] Instance in32_dec x : Decision (in32 x).
Proof. unfold in32. apply _. Defined.

Lemma int32_in x : int32 x = if decide (in32 x) then Ok x else Err Undefined.
Proof.
  unfold int32, in32. destruct (_ && _) eqn:E; case_decide as H; try done; exfalso; rewrite ?andb_true_iff, ?andb_false_iff, ?Z.leb_le, ?Z.ltb_lt, ?Z.leb_gt, ?Z.ltb_ge in E; lia.
Qed.

(** ** Hours, minutes and seconds *)
Lemma floor_day tot : Z.rem (Z.rem tot TimeType.DAY_SECOND + TimeType.DAY_SECOND) TimeType.DAY_SECOND = tot mod 86400 /\
  Z.quot (tot - tot mod 86400) TimeType.DAY_SECOND = tot / 86400.
Proof.
  change TimeType.DAY_SECOND with 86400. pose proof (Z.div_mod tot 86400 ltac:(lia)) as E. pose proof (Z.mod_pos_bound tot 86400 ltac:(lia)) as Hb.
  pose proof (Z.quot_rem tot 86400 ltac:(lia)) as Eq. assert (Hr : - 86400 < Z.rem tot 86400 < 86400).
  { pose proof (Z.rem_bound_abs tot 86400 ltac:(lia)). lia. }
  split.
  - rewrite Z.rem_mod_nonneg by lia. replace (Z.rem tot 86400 + 86400) with (tot + (1 - Z.quot tot 86400) * 86400) by lia. apply Z_mod_plus_full.
  - replace (tot - tot mod 86400) with (tot / 86400 * 86400) by lia. apply Z.quot_mul. lia.
Qed.

Lemma calc_overflow_days_ok input n product : let tot := input + n * product in
  in32 (n * product) -> in32 tot -> in32 (tot - tot mod 86400) ->
  TimeType.calc_overflow_days input n product = Ok (tot mod 86400, tot / 86400).
Proof.
  intros tot H1 H2 H3. unfold TimeType.calc_overflow_days. rewrite int32_in, decide_True by done. cbn [res_bind]. fold tot.
  rewrite int32_in, decide_True by done. cbn [res_bind]. destruct (floor_day tot) as [-> E]. rewrite int32_in, decide_True by done. cbn [res_bind]. by rewrite E.
Qed.

(** C26. Adding hours, minutes or seconds to a date and time moves its epoch time by that many
    seconds, forwards or backwards over any number of days, and leaves a time of the day; an
    interval whose seconds do not fit into 32 bits overflows. *)
Theorem datetime_add_elapsed (dt : DateTimeType) (u : TimeUnit) (n product : Z) :
  TimeType.seconds_of u = Some product -> 0 <= time dt < 86400 ->
  let tot := time dt + n * product in
  (~ in32 (n * product) -> DateTimeType.Add dt (mkIntervalType u n) = Some (Err Undefined)) /\
  (in32 (n * product) -> in32 tot -> in32 (tot - tot mod 86400) -> in32 (date dt + tot / 86400) ->
   exists dt', DateTimeType.Add dt (mkIntervalType u n) = Some (Ok dt') /\ 0 <= time dt' < 86400 /\
     DateTimeType.GetEpochTime dt' = DateTimeType.GetEpochTime dt + n * product).
Proof.
  intros Hu Ht tot. pose proof (Z.div_mod tot 86400 ltac:(lia)) as E. pose proof (Z.mod_pos_bound tot 86400 ltac:(lia)) as Hb.
  assert (Hadd : DateTimeType.Add dt (mkIntervalType u n) = match TimeType.calc_overflow_days (time dt) n product with
    | Err e => Some (Err e)
    | Ok (t, overflow_days) => if overflow_days =? 0 then Some (Ok (mkDateTimeType (date dt) t))
                               else DateTimeType.add_to_date (mkDateTimeType (date dt) t) (mkIntervalType kDay overflow_days)
    end) by (destruct u; try done; injection Hu as <-; done).
  split.
  - intros Hn. rewrite Hadd. unfold TimeType.calc_overflow_days. by rewrite int32_in, decide_False.
  - intros H1 H2 H3 H4. rewrite Hadd, calc_overflow_days_ok by done. fold tot. assert (Htot : tot = time dt + n * product) by done. destruct (Z.eqb_spec (tot / 86400) 0) as [E0|E0].
    + eexists. split; [done|]. unfold DateTimeType.GetEpochTime. cbn [date time]. clearbody tot. lia.
    + unfold DateTimeType.add_to_date, DateType.Add. cbn [unit interval_value date time]. rewrite int32_in, decide_True by done. cbn [res_bind default].
      eexists. split; [done|]. unfold DateTimeType.GetEpochTime. cbn [date time]. unfold id. clearbody tot. lia.
Qed.

Lemma datetime_add_elapsed_witness :
  exists dt', DateTimeType.Add (mkDateTimeType 19782 3600) (mkIntervalType kHour (-50)) = Some (Ok dt') /\
    DateTimeType.GetEpochTime dt' = DateTimeType.GetEpochTime (mkDateTimeType 19782 3600) + -50 * 3600.
Proof.
  destruct (datetime_add_elapsed (mkDateTimeType 19782 3600) kHour (-50) 3600) as [_ H]; [reflexivity|cbn; lia|].
  destruct H as (dt' & E & _ & H); try (unfold in32; vm_compute; split; congruence).
  exists dt'. split; [exact E|exact H].
Defined.

(** ** Epoch times *)
Lemma of_epoch_ok e : in32 (e / 86400) -> DateTimeType.GetEpochTime (DateTimeType.of_epoch e) = e /\ 0 <= time (DateTimeType.of_epoch e) < 86400.
Proof.
  intros H. unfold DateTimeType.of_epoch. change (24 * 60 * 60) with 86400. pose proof (Z.div_mod e 86400 ltac:(lia)) as E. pose proof (Z.mod_pos_bound e 86400 ltac:(lia)) as Hb.
  pose proof (Z.quot_rem e 86400 ltac:(lia)) as Eq. assert (Hr : - 86400 < Z.rem e 86400 < 86400) by (pose proof (Z.rem_bound_abs e 86400 ltac:(lia)); lia).
  set (s := if Z.rem e 86400 <? 0 then Z.rem e 86400 + 86400 else Z.rem e 86400). assert (Hs : 0 <= s < 86400) by (subst s; destruct (Z.ltb_spec (Z.rem e 86400) 0); lia).
  assert (Es : s = e mod 86400).
  { apply (Z.mod_unique_pos e 86400 (if Z.rem e 86400 <? 0 then Z.quot e 86400 - 1 else Z.quot e 86400)); [done|]. subst s. destruct (Z.ltb_spec (Z.rem e 86400) 0); lia. }
  rewrite Es. replace (e - e mod 86400) with (e / 86400 * 86400) by lia. rewrite Z.quot_mul by lia. unfold in32 in H.
  rewrite !swrap_id by (unfold signed_range; lia). unfold DateTimeType.GetEpochTime. cbn [date time]. lia.
Qed.

(** Times of a day are ordered as their epoch times. *)
Lemma datetime_order a b : 0 <= time a < 86400 -> 0 <= time b < 86400 ->
  DateTimeType.op_lt a b = (DateTimeType.GetEpochTime a <? DateTimeType.GetEpochTime b).
Proof.
  intros Ha Hb. unfold DateTimeType.op_lt, DateTimeType.GetEpochTime. apply Bool.eq_iff_eq_true.
  rewrite orb_true_iff, andb_true_iff, !Z.ltb_lt, Z.eqb_eq. lia.
Qed.

(** ** Months and years *)

(** A month added to a date keeps the day, or takes the last one of a shorter month. *)
Lemma date_add_months y m d n : date_valid y m d -> in32 (m + n) -> in32 (m + n - 12) ->
  let k := 12 * y + (m - 1) + n in let y' := k / 12 in let m' := k mod 12 + 1 in
  DateType.Add (day_number y m d) (mkIntervalType kMonth n) =
    Some (Ok (if decide (-1969 <= y' <= 9999) then Some (day_number y' m' (Z.min d (month_days y' m'))) else None)).
Proof.
  intros Hv H1 H2 k y' m'. pose proof Hv as [Hy [Hm Hd]]. unfold DateType.Add, DateType.with_ymd. cbn [unit interval_value].
  rewrite Date2YMD_day, bool_decide_eq_true_2 by (done || apply Hv). cbn [res_bind]. unfold DateType.add_months.
  rewrite int32_in, decide_True by done. cbn [res_bind]. pose proof (Z.div_mod k 12 ltac:(lia)) as E. pose proof (Z.mod_pos_bound k 12 ltac:(lia)) as Hb.
  assert (Hym : (if 12 <? m + n then let? year := int32 (y + Z.quot (m + n - 1) 12) in Ok (year, 1 + Z.rem (m + n - 1) 12)
    else if m + n <? 1 then let? k := int32 (m + n - 12) in let? year := int32 (y + Z.quot k 12) in Ok (year, 12 + Z.rem k 12) else Ok (y, m + n)) = Ok (y', m')).
  { subst y' m'. destruct (Z.ltb_spec 12 (m + n)) as [Hbig|Hbig]; [|destruct (Z.ltb_spec (m + n) 1) as [Hsm|Hsm]].
    - pose proof (Z.quot_rem (m + n - 1) 12 ltac:(lia)) as Eq. pose proof (Z.rem_bound_pos (m + n - 1) 12 ltac:(lia) ltac:(lia)) as Hr.
      rewrite int32_in, decide_True by (unfold in32 in *; lia). cbn [res_bind]. do 2 f_equal; lia.
    - pose proof (Z.quot_rem (m + n - 12) 12 ltac:(lia)) as Eq. pose proof (Z.rem_bound_pos_neg (m + n - 12) 12 ltac:(lia) ltac:(lia)) as Hr.
      rewrite int32_in, decide_True by done. cbn [res_bind]. rewrite int32_in, decide_True by (unfold in32 in *; lia). cbn [res_bind]. do 2 f_equal; lia.
    - do 2 f_equal; lia. }
  rewrite Hym. cbn [res_bind]. assert (Hm' : 1 <= m' <= 12) by (subst m'; lia). rewrite month_days_table by done. cbn [res_bind]. rewrite YMD2Date_ok.
  pose proof (month_days_bound y' m'). do 2 f_equal. assert (Hc : civil y' m' (Z.min d (month_days y' m'))) by (split; [done|lia]).
  unfold date_valid. destruct (decide (-1969 <= y' <= 9999)) as [Hy'|Hy'].
  - by rewrite decide_True.
  - rewrite decide_False by tauto. done.
Qed.

(** A year that has no 29 February makes the sum of a leap day and years fail: [DateType::Add]
    answers [false]. [DateTimeType::Add] drops that answer and returns the date and time it was
    given, unchanged, with the answer [true]. *)
Theorem leap_day_plus_years_unchanged (y n t : Z) : leap y -> -1969 <= y <= 9999 -> in32 (y + n) -> ~ leap (y + n) ->
  let leap_day := day_number y 2 29 in
  DateType.Add leap_day (mkIntervalType kYear n) = Some (Ok None) /\
  DateTimeType.Add (mkDateTimeType leap_day t) (mkIntervalType kYear n) = Some (Ok (mkDateTimeType leap_day t)).
Proof.
  intros Hl Hy Hin Hnl leap_day. assert (Hc : civil y 2 29).
  { split; [lia|]. unfold month_days. rewrite !decide_True by done. lia. }
  assert (E : DateType.Add leap_day (mkIntervalType kYear n) = Some (Ok None)).
  { unfold DateType.Add, DateType.with_ymd, leap_day. cbn [unit interval_value]. rewrite Date2YMD_day by done.
    rewrite bool_decide_eq_true_2 by done. cbn [res_bind]. rewrite int32_in, decide_True by done. cbn [res_bind]. rewrite YMD2Date_ok, decide_False; [done|].
    intros [_ [_ Hd]]. unfold month_days in Hd. rewrite decide_True, decide_False in Hd by done. lia. }
  split; [done|]. unfold DateTimeType.Add, DateTimeType.add_to_date. cbn [unit date]. by rewrite E.
Qed.

Lemma leap_day_plus_years_unchanged_witness :
  DateTimeType.Add (mkDateTimeType (day_number 2024 2 29) 60) (mkIntervalType kYear 1) = Some (Ok (mkDateTimeType (day_number 2024 2 29) 60)).
Proof.
  apply (leap_day_plus_years_unchanged 2024 1 60).
  - split; [reflexivity|]. left. vm_compute. congruence.
  - lia.
  - unfold in32. lia.
  - intros [H _]. vm_compute in H. discriminate H.
Defined.
