(* ===== verification/LogFile.v ===== *)
(** * Names of log and catalog files: [src/src/storage/wal/log_file.cpp]

    A file system is a map from paths to contents. The class [Directory] is
    [std::filesystem::directory_iterator], which lists the files of a directory in an order that is
    not specified; [DirectoryLaws] is all that is used of it, and [SortedDirectory] is an instance.
    Timestamps are read with [std::stoll]. A path is the directory, a slash and the name. *)
From Stdlib Require Import Ascii.
From stdpp Require Import pretty sorting.
From S2P Require Import Prelude Serialize.

(** ** [std::string] *)
Fixpoint stake (n : nat) (s : string) : string :=
  match n, s with S n, String a s => String a (stake n s) | _, _ => "" end.
Fixpoint sdrop (n : nat) (s : string) : string :=
  match n, s with S n, String a s => sdrop n s | _, _ => s end.
Definition substr (pos n : nat) (s : string) : string := stake n (sdrop pos s).

Fixpoint rfind (c : ascii) (s : string) : option nat :=
  match s with
  | "" => None
  | String a s =>
      match rfind c s with
      | Some i => Some (S i)
      | None => if decide (a = c) then Some 0%nat else None
      end
  end.

Definition is_space (a : ascii) : bool := let n := Z.of_nat (nat_of_ascii a) in (n =? 32) || ((9 <=? n) && (n <=? 13)).
Definition digit (a : ascii) : option Z :=
  let n := Z.of_nat (nat_of_ascii a) in if (48 <=? n) && (n <=? 57) then Some (n - 48) else None.
Fixpoint skip_spaces (s : string) : string :=
  match s with String a s' => if is_space a then skip_spaces s' else s | "" => "" end.
Fixpoint number (seen : option Z) (s : string) : option Z :=
  match s with
  | String a s => match digit a with Some d => number (Some (10 * default 0 seen + d)) s | None => seen end
  | "" => seen
  end.
(** [None] is an exception: there are no digits or the number is out of range. *)
Definition stoll (s : string) : option Z :=
  let s := skip_spaces s in
  let '(negative, s) := match s with
                        | String "-" s => (true, s)
                        | String "+" s => (false, s)
                        | _ => (false, s)
                        end in
  match number None s with
  | Some n => let n := if (negative : bool) then - n else n in
              if (- 2 ^ 63 <=? n) && (n <? 2 ^ 63) then Some n else None
  | None => None
  end.

(** [fmt::format] of an unsigned number. *)
Definition decimal (n : Z) : string := pretty (Z.to_N n).

(** ** Directories *)
Fixpoint no_slash (s : string) : bool :=
  match s with "" => true | String a s => negb (bool_decide (a = "/"%char)) && no_slash s end.
Definition join (dir name : string) : string := dir +:+ "/" +:+ name.

Class Directory := { ListDirectory : gmap string bytes -> string -> list string }.
Class DirectoryLaws `{D : Directory} : Prop := {
  list_nodup files dir : NoDup (ListDirectory files dir);
  list_elem files dir name :
    name ∈ ListDirectory files dir <-> no_slash name = true /\ is_Some (files !! join dir name);
}.

Fixpoint strip (prefix s : string) : option string :=
  match prefix, s with
  | "", _ => Some s
  | String a prefix, String b s => if decide (a = b) then strip prefix s else None
  | _, _ => None
  end.
Definition name_in (dir : string) (file : string * bytes) : option string :=
  match strip (dir +:+ "/") file.1 with
  | Some name => if no_slash name then Some name else None
  | None => None
  end.
Definition SortedDirectory : Directory := {| ListDirectory files dir := omap (name_in dir) (map_to_list files) |}.

Record FileInfo := mkFileInfo { path_ : string; info_ts : Z }.
#[export] Instance FileInfo_eq_dec : EqDecision FileInfo.
Proof. solve_decision. Defined.

(** The orders that [std::sort] is called with; files with equal timestamps come in any order there. *)
Definition older (lhs rhs : FileInfo) : Prop := info_ts lhs <= info_ts rhs.
Definition newer (lhs rhs : FileInfo) : Prop := info_ts rhs <= info_ts lhs.
#[export] Instance older_dec lhs rhs : Decision (older lhs rhs).
Proof. unfold older. apply _. Defined.
#[export] Instance newer_dec lhs rhs : Decision (newer lhs rhs).
Proof. unfold newer. apply _. Defined.
#[export] Instance older_total : Total older.
Proof. intros x y. unfold older. lia. Qed.
#[export] Instance newer_total : Total newer.
Proof. intros x y. unfold newer. lia. Qed.
#[export] Instance older_trans : Transitive older.
Proof. intros x y z. unfold older. lia. Qed.
#[export] Instance newer_trans : Transitive newer.
Proof. intros x y z. unfold newer. lia. Qed.

Module WalFile.
Section wal_file.
Context `{D : Directory}.

Definition WAL_FILE_TEMP_FILE : string := "wal.log".
Definition WAL_FILE_PREFIX : string := "wal.log".
Definition WalFilename (max_commit_ts : Z) : string := WAL_FILE_PREFIX +:+ "." +:+ decimal max_commit_ts.
Definition TempWalFilename : string := WAL_FILE_TEMP_FILE.

(** The timestamp of a file that was swapped out, [None] for a name that is skipped. *)
Definition wal_name (filename : string) : option Z :=
  match rfind "." filename with
  | None => None
  | Some dot_pos =>
      match stoll (sdrop (dot_pos + 1) filename) with
      | None => None
      | Some checkpoint_ts =>
          if bool_decide (substr 0 dot_pos filename = WAL_FILE_PREFIX) then Some (u64 checkpoint_ts) else None
      end
  end.

Fixpoint parse (wal_dir : string) (entries : list string) (cur_wal_info : option string) (wal_infos : list FileInfo)
    : res (option string * list FileInfo) :=
  match entries with
  | [] => Ok (cur_wal_info, wal_infos)
  | filename :: entries =>
      if bool_decide (filename = TempWalFilename) then
        match cur_wal_info with
        | Some _ => Err Unrecoverable
        | None => parse wal_dir entries (Some (join wal_dir filename)) wal_infos
        end
      else match wal_name filename with
           | Some ts => parse wal_dir entries cur_wal_info (wal_infos ++ [mkFileInfo (join wal_dir filename) ts])
           | None => parse wal_dir entries cur_wal_info wal_infos
           end
  end.
Definition ParseWalFilenames (files : gmap string bytes) (wal_dir : string) : res (option string * list FileInfo) :=
  parse wal_dir (ListDirectory files wal_dir) None [].

Definition RecycleWalFile (max_commit_ts : Z) (wal_dir : string) (files : gmap string bytes) : res (gmap string bytes) :=
  let? (_, wal_infos) := ParseWalFilenames files wal_dir in
  Ok (foldl (fun files wal_info => if info_ts wal_info <=? max_commit_ts then delete (path_ wal_info) files else files)
        files wal_infos).
End wal_file.
End WalFile.

Module CatalogFile.
Section catalog_file.
Context `{D : Directory}.

Record CatalogFilesInfo := mkCatalogFilesInfo {
  full_infos_ : list FileInfo;
  delta_infos_ : list FileInfo;
  temp_full_infos_ : list FileInfo;
  temp_delta_infos_ : list FileInfo;
}.

Definition FullCheckpointFilename (max_commit_ts : Z) : string := "FULL." +:+ decimal max_commit_ts +:+ ".json".
Definition TempFullCheckpointFilename (max_commit_ts : Z) : string := "_FULL." +:+ decimal max_commit_ts +:+ ".json".
Definition DeltaCheckpointFilename (max_commit_ts : Z) : string := "DELTA." +:+ decimal max_commit_ts.
Definition TempDeltaCheckpointFilename (max_commit_ts : Z) : string := "_DELTA." +:+ decimal max_commit_ts.

Inductive checkpoint_kind := Full | Delta | TempFull | TempDelta.

(** The timestamp of a name with the suffix [json] stands between its last two dots; without a second
    dot it is everything before the first, and the prefix is the whole name. *)
Definition json_name (filename : string) (dot_pos : nat) : option (checkpoint_kind * Z) :=
  if bool_decide (dot_pos = 0%nat) then None else
  let dot2_pos := rfind "." (substr 0 dot_pos filename) in
  let start := match dot2_pos with Some i => (i + 1)%nat | None => 0%nat end in
  match stoll (substr start (dot_pos - start) filename) with
  | None => None
  | Some checkpoint_ts =>
      let file_prefix := match dot2_pos with Some i => substr 0 i filename | None => filename end in
      if bool_decide (file_prefix = "_FULL") then Some (TempFull, u64 checkpoint_ts)
      else if bool_decide (file_prefix = "FULL") then Some (Full, u64 checkpoint_ts) else None
  end.
Definition delta_name (filename : string) (dot_pos : nat) : option (checkpoint_kind * Z) :=
  match stoll (sdrop (dot_pos + 1) filename) with
  | None => None
  | Some checkpoint_ts =>
      let file_prefix := substr 0 dot_pos filename in
      if bool_decide (file_prefix = "_DELTA") then Some (TempDelta, u64 checkpoint_ts)
      else if bool_decide (file_prefix = "DELTA") then Some (Delta, u64 checkpoint_ts) else None
  end.
Definition checkpoint_name (filename : string) : option (checkpoint_kind * Z) :=
  match rfind "." filename with
  | None => None
  | Some dot_pos => if bool_decide (sdrop (dot_pos + 1) filename = "json") then json_name filename dot_pos
                    else delta_name filename dot_pos
  end.

Definition add_file (catalog_dir : string) (infos : CatalogFilesInfo) (filename : string) : CatalogFilesInfo :=
  let '(mkCatalogFilesInfo f d tf td) := infos in
  let info ts := mkFileInfo (join catalog_dir filename) ts in
  match checkpoint_name filename with
  | None => infos
  | Some (Full, ts) => mkCatalogFilesInfo (f ++ [info ts]) d tf td
  | Some (Delta, ts) => mkCatalogFilesInfo f (d ++ [info ts]) tf td
  | Some (TempFull, ts) => mkCatalogFilesInfo f d (tf ++ [info ts]) td
  | Some (TempDelta, ts) => mkCatalogFilesInfo f d tf (td ++ [info ts])
  end.
Definition ParseCheckpointFilenames (files : gmap string bytes) (catalog_dir : string) : CatalogFilesInfo :=
  foldl (add_file catalog_dir) (mkCatalogFilesInfo [] [] [] []) (ListDirectory files catalog_dir).

(** [while (!v.empty() && p(v.front())) erase front]; at the back on the reversed list. *)
Fixpoint pop_while (p : FileInfo -> bool) (l : list FileInfo) : list FileInfo :=
  match l with
  | a :: l' => if p a then pop_while p l' else l
  | [] => []
  end.

Definition ParseValidCheckpointFilenames (files : gmap string bytes) (catalog_dir : string) (max_checkpoint_ts : Z)
    : option (FileInfo * list FileInfo) :=
  let infos := ParseCheckpointFilenames files catalog_dir in
  let full_infos := merge_sort older (full_infos_ infos) in
  let delta_infos := merge_sort older (delta_infos_ infos) in
  let too_new info := max_checkpoint_ts <? info_ts info in
  match pop_while too_new (reverse full_infos) with
  | [] => None
  | last_full_info :: _ =>
      let delta_infos := reverse (pop_while too_new (reverse delta_infos)) in
      Some (last_full_info, pop_while (fun info => info_ts info <=? info_ts last_full_info) delta_infos)
  end.

Definition RecycleCatalogFile (max_commit_ts : Z) (catalog_dir : string) (files : gmap string bytes) : res (gmap string bytes) :=
  let infos := ParseCheckpointFilenames files catalog_dir in
  let files := foldl (fun files full_info => if info_ts full_info <? max_commit_ts then delete (path_ full_info) files else files)
                 files (full_infos_ infos) in
  check? existsb (fun full_info => info_ts full_info =? max_commit_ts) (full_infos_ infos) else Unrecoverable in
  Ok (foldl (fun files delta_info => if info_ts delta_info <=? max_commit_ts then delete (path_ delta_info) files else files)
        files (delta_infos_ infos)).
End catalog_file.
End CatalogFile.

(** ** Names and numbers *)
Lemma number_pretty x acc s :
  acc = Some 0 \/ acc = None -> (0 < x)%N -> number acc (pretty_N_go x s) = number (Some (Z.of_N x)) s.
Proof.
  intros Ha. revert s. induction (N.lt_wf_0 x) as [x _ IH]; intros s Hx. rewrite pretty_N_go_step by done.
  assert (Hd : digit (pretty_N_char (x mod 10)) = Some (Z.of_N (x mod 10))).
  { generalize (N.mod_lt x 10 ltac:(done)). generalize (x mod 10)%N. intros n Hn.
    destruct n as [|p]; [done|]. do 4 (destruct p as [p|p|]; try done; try lia). }
  pose proof (N.div_mod x 10 ltac:(done)) as E. destruct (decide (0 < x / 10)%N) as [Hq|Hq].
  - rewrite IH by (try apply N.div_lt; lia). cbn [number]. rewrite Hd. f_equal. f_equal. cbn -[Z.mul Z.add N.div N.modulo]. lia.
  - assert (Hz : (x / 10 = 0)%N) by (apply N.le_0_r, N.nlt_ge, Hq). rewrite Hz in *. rewrite pretty_N_go_0. cbn [number]. rewrite Hd. f_equal. f_equal.
    destruct Ha as [-> | ->]; cbn -[Z.mul Z.add N.div N.modulo]; lia.
Qed.

Fixpoint all_digits (s : string) : bool :=
  match s with "" => true | String a s => bool_decide (is_Some (digit a)) && all_digits s end.

Lemma pretty_digits x s : all_digits s = true -> all_digits (pretty_N_go x s) = true.
Proof.
  revert s. induction (N.lt_wf_0 x) as [x _ IH]; intros s Hs. destruct (decide (0 < x)%N) as [Hx|Hx].
  - rewrite pretty_N_go_step by done. apply IH; [by apply N.div_lt|]. cbn [all_digits]. rewrite Hs, andb_true_r.
    apply bool_decide_eq_true. unfold pretty_N_char. repeat case_match; vm_compute; eauto.
  - replace x with 0%N by lia. by rewrite pretty_N_go_0.
Qed.
Lemma decimal_digits n : all_digits (decimal n) = true.
Proof. unfold decimal, pretty, pretty_N. case_decide; [done|by apply pretty_digits]. Qed.

Lemma digit_not_blank a d : digit a = Some d -> is_space a = false /\ a <> "-"%char /\ a <> "+"%char /\ a <> "."%char /\ a <> "/"%char.
Proof.
  unfold digit, is_space. intros H. destruct (_ && _) eqn:E in H; [|done]. apply andb_true_iff in E as [E1%Z.leb_le E2%Z.leb_le].
  split; [|repeat split; intros ->; by vm_compute in E1, E2]. apply orb_false_iff.
  split; [apply Z.eqb_neq; lia|]. apply andb_false_iff. right. apply Z.leb_gt. lia.
Qed.

Lemma all_digits_no c s : all_digits s = true -> c = "."%char \/ c = "/"%char -> rfind c s = None.
Proof.
  intros Hs Hc. induction s as [|a s IH]; [done|]. cbn in Hs |- *. apply andb_true_iff in Hs as [Ha Hs].
  rewrite IH by done. apply bool_decide_eq_true in Ha as [d Hd]. apply digit_not_blank in Hd. rewrite decide_False; [done|].
  intros ->. naive_solver.
Qed.
Lemma all_digits_no_slash s : all_digits s = true -> no_slash s = true.
Proof.
  induction s as [|a s IH]; [done|]. cbn. intros [Ha Hs]%andb_true_iff. rewrite IH, andb_true_r by done.
  apply bool_decide_eq_true in Ha as [d Hd]. apply digit_not_blank in Hd. apply negb_true_iff, bool_decide_eq_false. naive_solver.
Qed.

Lemma number_decimal n : 0 <= n -> number None (decimal n) = Some n.
Proof.
  intros Hn. unfold decimal, pretty, pretty_N. case_decide as H.
  - assert (n = 0) as -> by lia. done.
  - rewrite number_pretty by (auto; lia). cbn. f_equal. lia.
Qed.
Lemma stoll_decimal n : 0 <= n < 2 ^ 63 -> stoll (decimal n) = Some n.
Proof.
  intros Hn. unfold stoll. pose proof (number_decimal n ltac:(lia)) as Hd. pose proof (decimal_digits n) as Ha.
  destruct (decimal n) as [|a s] eqn:E; [done|]. rewrite <- E in Hd. cbn in Ha. apply andb_true_iff in Ha as [Ha _].
  apply bool_decide_eq_true in Ha as [d Hc]. destruct (digit_not_blank _ _ Hc) as (H1 & H2 & H3 & _).
  cbn [skip_spaces]. rewrite H1.
  assert (match String a s with String "-" s => (true, s) | String "+" s => (false, s) | _ => (false, String a s) end = (false, String a s)) as ->.
  { clear -H2 H3. destruct a as [[] [] [] [] [] [] [] []]; done. }
  rewrite <- E, Hd. replace ((_ <=? _) && _) with true; [done|]. symmetry. apply andb_true_iff. split; [apply Z.leb_le|apply Z.ltb_lt]; lia.
Qed.
Lemma decimal_inj n m : 0 <= n < 2 ^ 63 -> 0 <= m < 2 ^ 63 -> decimal n = decimal m -> n = m.
Proof. intros Hn Hm E. apply stoll_decimal in Hn, Hm. congruence. Qed.

(** ** Parts of a name *)
Lemma sapp_nil (t : string) : "" +:+ t = t.
Proof. done. Qed.
Lemma sapp_cons x (s t : string) : String x s +:+ t = String x (s +:+ t).
Proof. done. Qed.
Ltac sapp := rewrite ?sapp_cons, ?sapp_nil.

Lemma rfind_app c a b : rfind c b = None -> rfind c (a +:+ String c b) = Some (String.length a).
Proof.
  intros Hb. induction a as [|x a IH]; sapp; cbn [rfind String.length].
  - by rewrite Hb, decide_True.
  - by rewrite IH.
Qed.
Lemma stake_app a b : stake (String.length a) (a +:+ b) = a.
Proof. induction a as [|x a IH]; sapp; cbn [stake String.length]; [by destruct b|]. by rewrite IH. Qed.
Lemma sdrop_app a b n : sdrop (String.length a + n) (a +:+ b) = sdrop n b.
Proof. induction a as [|x a IH]; sapp; done. Qed.
Lemma substr_prefix a b : substr 0 (String.length a) (a +:+ b) = a.
Proof. apply (stake_app a b). Qed.
Lemma no_slash_app a b : no_slash (a +:+ b) = no_slash a && no_slash b.
Proof. induction a as [|x a IH]; sapp; cbn [no_slash]; [done|]. by rewrite IH, andb_assoc. Qed.

Lemma u64_id n : 0 <= n < 2 ^ 63 -> u64 n = n.
Proof. intros. apply wrap_id. unfold unsigned_range. lia. Qed.

Lemma wal_name_ok n : 0 <= n < 2 ^ 63 -> WalFile.wal_name (WalFile.WalFilename n) = Some n.
Proof.
  intros Hn. unfold WalFile.wal_name, WalFile.WalFilename. change ("." +:+ decimal n) with (String "." (decimal n)).
  rewrite rfind_app by (apply all_digits_no; auto using decimal_digits).
  rewrite sdrop_app. cbn [sdrop]. rewrite (stoll_decimal n Hn), substr_prefix, bool_decide_true by done. by rewrite u64_id.
Qed.
Lemma wal_name_fresh n : 0 <= n < 2 ^ 63 -> WalFile.WalFilename n <> WalFile.TempWalFilename.
Proof. intros Hn E. pose proof (wal_name_ok n Hn) as H. rewrite E in H. by vm_compute in H. Qed.
Lemma wal_name_no_slash n : no_slash (WalFile.WalFilename n) = true.
Proof. unfold WalFile.WalFilename. rewrite !no_slash_app. apply all_digits_no_slash, decimal_digits. Qed.

Lemma delta_name_ok n : 0 <= n < 2 ^ 63 ->
  CatalogFile.checkpoint_name (CatalogFile.DeltaCheckpointFilename n) = Some (CatalogFile.Delta, n).
Proof.
  intros Hn. unfold CatalogFile.checkpoint_name, CatalogFile.DeltaCheckpointFilename.
  change ("DELTA." +:+ decimal n) with ("DELTA" +:+ String "." (decimal n)).
  rewrite rfind_app by (apply all_digits_no; auto using decimal_digits). rewrite sdrop_app. cbn [sdrop].
  rewrite bool_decide_false.
  - unfold CatalogFile.delta_name. rewrite sdrop_app. cbn [sdrop]. rewrite (stoll_decimal n Hn), substr_prefix.
    cbn. by rewrite u64_id.
  - intros E. pose proof (decimal_digits n) as H. by rewrite E in H.
Qed.
Lemma json_name_ok p n : 0 <= n < 2 ^ 63 ->
  CatalogFile.checkpoint_name (p +:+ "." +:+ decimal n +:+ ".json") =
  if bool_decide (p = "_FULL") then Some (CatalogFile.TempFull, n)
  else if bool_decide (p = "FULL") then Some (CatalogFile.Full, n) else None.
Proof.
  intros Hn. unfold CatalogFile.checkpoint_name.
  rewrite <- !string_app_assoc. change ".json" with (String "." "json").
  rewrite rfind_app by done. rewrite sdrop_app. cbn [sdrop]. rewrite bool_decide_true by done.
  unfold CatalogFile.json_name. rewrite bool_decide_false by (rewrite string_app_assoc; by destruct p). rewrite substr_prefix.
  rewrite string_app_assoc. change ("." +:+ decimal n) with (String "." (decimal n)).
  rewrite rfind_app by (apply all_digits_no; auto using decimal_digits).
  assert (L : String.length (p +:+ String "." (decimal n)) = (String.length p + 1 + String.length (decimal n))%nat).
  { induction p as [|x p IH]; sapp; cbn [String.length]; lia. }
  assert (E : substr (String.length p + 1) (String.length (p +:+ String "." (decimal n)) - (String.length p + 1))
                ((p +:+ String "." (decimal n)) +:+ String "." "json") = decimal n).
  { rewrite L. replace (_ - _)%nat with (String.length (decimal n)) by lia. unfold substr. rewrite string_app_assoc, sdrop_app.
    apply stake_app. }
  rewrite E, (stoll_decimal n Hn), string_app_assoc, substr_prefix. by rewrite u64_id.
Qed.
Lemma full_name_ok n : 0 <= n < 2 ^ 63 ->
  CatalogFile.checkpoint_name (CatalogFile.FullCheckpointFilename n) = Some (CatalogFile.Full, n).
Proof. apply (json_name_ok "FULL"). Qed.
Lemma temp_full_name_ok n : 0 <= n < 2 ^ 63 ->
  CatalogFile.checkpoint_name (CatalogFile.TempFullCheckpointFilename n) = Some (CatalogFile.TempFull, n).
Proof. apply (json_name_ok "_FULL"). Qed.
Lemma full_no_slash n : no_slash (CatalogFile.FullCheckpointFilename n) = true.
Proof. unfold CatalogFile.FullCheckpointFilename. rewrite !no_slash_app. by rewrite (all_digits_no_slash _ (decimal_digits n)). Qed.
Lemma temp_full_no_slash n : no_slash (CatalogFile.TempFullCheckpointFilename n) = true.
Proof. unfold CatalogFile.TempFullCheckpointFilename. rewrite !no_slash_app. by rewrite (all_digits_no_slash _ (decimal_digits n)). Qed.
Lemma delta_no_slash n : no_slash (CatalogFile.DeltaCheckpointFilename n) = true.
Proof. unfold CatalogFile.DeltaCheckpointFilename. rewrite !no_slash_app. by rewrite (all_digits_no_slash _ (decimal_digits n)). Qed.

(** ** Paths *)
Lemma no_slash_rfind s : no_slash s = true -> rfind "/" s = None.
Proof.
  induction s as [|a s IH]; [done|]. cbn. intros [Ha Hs]%andb_true_iff. rewrite IH by done.
  apply negb_true_iff, bool_decide_eq_false in Ha. by rewrite decide_False.
Qed.
Lemma join_inj d1 n1 d2 n2 :
  no_slash n1 = true -> no_slash n2 = true -> join d1 n1 = join d2 n2 -> d1 = d2 /\ n1 = n2.
Proof.
  intros H1 H2. unfold join. change ("/" +:+ n1) with (String "/" n1). change ("/" +:+ n2) with (String "/" n2). intros E.
  pose proof (rfind_app "/" d1 n1 (no_slash_rfind _ H1)) as R1. rewrite E, rfind_app in R1 by by apply no_slash_rfind.
  injection R1 as R. split.
  - rewrite <- (stake_app d1 (String "/" n1)), E, <- R. apply stake_app.
  - change n1 with (sdrop 1 (String "/" n1)). rewrite <- (sdrop_app d1 _ 1), E, <- R. by rewrite sdrop_app.
Qed.

Lemma wal_path_inj d1 d2 t1 t2 : 0 <= t1 < 2 ^ 63 -> 0 <= t2 < 2 ^ 63 ->
  join d1 (WalFile.WalFilename t1) = join d2 (WalFile.WalFilename t2) -> t1 = t2.
Proof.
  intros H1 H2 E. apply join_inj in E as [_ E]; [|apply wal_name_no_slash..]. apply (f_equal WalFile.wal_name) in E.
  rewrite !wal_name_ok in E by done. by injection E.
Qed.
Lemma full_path_inj d1 d2 t1 t2 : 0 <= t1 < 2 ^ 63 -> 0 <= t2 < 2 ^ 63 ->
  join d1 (CatalogFile.FullCheckpointFilename t1) = join d2 (CatalogFile.FullCheckpointFilename t2) -> t1 = t2.
Proof.
  intros H1 H2 E. apply join_inj in E as [_ E]; [|apply full_no_slash..]. apply (f_equal CatalogFile.checkpoint_name) in E.
  rewrite !full_name_ok in E by done. by injection E.
Qed.
Lemma delta_path_inj d1 d2 t1 t2 : 0 <= t1 < 2 ^ 63 -> 0 <= t2 < 2 ^ 63 ->
  join d1 (CatalogFile.DeltaCheckpointFilename t1) = join d2 (CatalogFile.DeltaCheckpointFilename t2) -> t1 = t2.
Proof.
  intros H1 H2 E. apply join_inj in E as [_ E]; [|apply delta_no_slash..]. apply (f_equal CatalogFile.checkpoint_name) in E.
  rewrite !delta_name_ok in E by done. by injection E.
Qed.
Lemma full_delta_path d1 d2 t1 t2 : 0 <= t1 < 2 ^ 63 -> 0 <= t2 < 2 ^ 63 ->
  join d1 (CatalogFile.FullCheckpointFilename t1) <> join d2 (CatalogFile.DeltaCheckpointFilename t2).
Proof.
  intros H1 H2 E. apply join_inj in E as [_ E]; [|apply full_no_slash|apply delta_no_slash].
  apply (f_equal CatalogFile.checkpoint_name) in E. by rewrite full_name_ok, delta_name_ok in E by done.
Qed.

Lemma strip_spec p s t : strip p s = Some t <-> s = p +:+ t.
Proof.
  revert s. induction p as [|a p IH]; intros s; sapp; cbn [strip]; [naive_solver|].
  destruct s as [|b s]; [by split|]. case_decide; [subst; rewrite IH; naive_solver|naive_solver].
Qed.
Lemma name_in_spec dir p c n : name_in dir (p, c) = Some n <-> no_slash n = true /\ p = join dir n.
Proof.
  unfold name_in, join. cbn [fst]. destruct (strip (dir +:+ "/") p) as [t|] eqn:E.
  - apply strip_spec in E as ->. rewrite string_app_assoc. destruct (no_slash t) eqn:Ht.
    + split; [by intros [= ->]|]. intros [_ H]. f_equal. assert (H' : (dir +:+ "/") +:+ t = (dir +:+ "/") +:+ n) by by rewrite !string_app_assoc.
      apply strip_spec in H'. assert (strip (dir +:+ "/") ((dir +:+ "/") +:+ t) = Some t) by by apply strip_spec. congruence.
    + split; [done|]. intros [Hn H]. exfalso. assert (H' : (dir +:+ "/") +:+ t = (dir +:+ "/") +:+ n) by by rewrite !string_app_assoc.
      apply strip_spec in H'. assert (strip (dir +:+ "/") ((dir +:+ "/") +:+ t) = Some t) by by apply strip_spec. congruence.
  - split; [done|]. intros [_ ->]. rewrite <- string_app_assoc in E.
    assert (strip (dir +:+ "/") ((dir +:+ "/") +:+ n) = Some n) by by apply strip_spec. congruence.
Qed.

Lemma NoDup_omap {A B : Type} (f : A -> option B) (l : list A) :
  NoDup l -> (forall x y z, x ∈ l -> y ∈ l -> f x = Some z -> f y = Some z -> x = y) -> NoDup (omap f l).
Proof.
  induction 1 as [|x l Hx Hl IH]; intros Hf; cbn; [constructor|].
  assert (NoDup (omap f l)) by (apply IH; intros; eapply Hf; eauto using list_elem_of_further).
  destruct (f x) as [z|] eqn:E; [|done]. constructor; [|done]. intros (y & Hy & Ey)%list_elem_of_omap.
  rewrite (Hf x y z) in Hx; eauto using list_elem_of_here, list_elem_of_further.
Qed.

#[export] Instance SortedDirectory_laws : DirectoryLaws (D := SortedDirectory).
Proof.
  split.
  - intros files dir. apply NoDup_omap; [apply NoDup_map_to_list|]. intros [p c] [q d] n Hp Hq Ep Eq.
    apply name_in_spec in Ep as [_ ->], Eq as [_ ->]. apply elem_of_map_to_list in Hp, Hq. congruence.
  - intros files dir n. cbn. rewrite list_elem_of_omap. split.
    + intros ([p c] & Hp & [Hn ->]%name_in_spec). apply elem_of_map_to_list in Hp. eauto.
    + intros [Hn [c Hc]]. exists (join dir n, c). split; [by apply elem_of_map_to_list|by apply name_in_spec].
Qed.

(** ** Files with the names of timestamps *)
Section listing.
Context `{DL : DirectoryLaws}.
Context (cls : string -> option Z) (name : Z -> string).
Implicit Types (files : gmap string bytes) (dir : string) (l : list Z).

Definition info_of dir (ts : Z) : FileInfo := mkFileInfo (join dir (name ts)) ts.
Definition listed dir (filename : string) : option FileInfo := mkFileInfo (join dir filename) <$> cls filename.

(** The files of this kind in the directory are those of the timestamps [l]. *)
Definition canonical files dir l : Prop :=
  NoDup l /\ (forall n ts, no_slash n = true -> is_Some (files !! join dir n) -> cls n = Some ts -> n = name ts /\ ts ∈ l) /\
  (forall ts, ts ∈ l -> no_slash (name ts) = true /\ cls (name ts) = Some ts /\ is_Some (files !! join dir (name ts))).

Lemma listed_perm files dir l : canonical files dir l -> omap (listed dir) (ListDirectory files dir) ≡ₚ info_of dir <$> l.
Proof.
  intros (Hl & Hc & Hp). apply NoDup_Permutation.
  - apply NoDup_omap; [apply list_nodup|]. intros x y z Hx Hy. unfold listed.
    apply list_elem in Hx as [Hx _], Hy as [Hy _].
    intros (ts & E1 & ->)%fmap_Some (ts' & E2 & [= E])%fmap_Some. by apply join_inj in E as [_ ->].
  - apply NoDup_fmap_2_strong; [|done]. intros x y _ _ [= _ ?]. done.
  - intros x. rewrite list_elem_of_omap, list_elem_of_fmap. split.
    + intros (n & [Hn Hf]%list_elem & (ts & E & ->)%fmap_Some). destruct (Hc n ts Hn Hf E) as [-> ?]. by exists ts.
    + intros (ts & -> & Ht). destruct (Hp ts Ht) as (H1 & H2 & H3). exists (name ts). split; [by apply list_elem|].
      unfold listed. by rewrite H2.
Qed.

Lemma sorted_infos files dir l (R : relation FileInfo) `{!forall x y, Decision (R x y)} `{!Transitive R} `{!Total R} :
  (forall x y, R x y -> R y x -> info_ts x = info_ts y) ->
  canonical files dir l -> StronglySorted R (info_of dir <$> l) ->
  merge_sort R (omap (listed dir) (ListDirectory files dir)) = info_of dir <$> l.
Proof.
  intros Ha Hc Hs. apply (StronglySorted_unique_strong R).
  - intros x y Hx. rewrite merge_sort_Permutation, (listed_perm _ _ _ Hc) in Hx.
    apply list_elem_of_fmap in Hx as (ts & -> & _). intros (ts' & -> & _)%list_elem_of_fmap H1 H2.
    pose proof (Ha _ _ H1 H2) as E. cbn in E. by subst.
  - apply (StronglySorted_merge_sort R).
  - done.
  - rewrite merge_sort_Permutation. by apply listed_perm.
Qed.
End listing.

(** ** The log directory *)
Definition wal_cls (n : string) : option Z := if bool_decide (n = WalFile.TempWalFilename) then None else WalFile.wal_name n.

Section wal_directory.
Context `{DL : DirectoryLaws}.

Lemma parse_spec dir names cur infos :
  NoDup names -> (is_Some cur -> WalFile.TempWalFilename ∉ names) ->
  WalFile.parse dir names cur infos =
  Ok (if bool_decide (WalFile.TempWalFilename ∈ names) then Some (join dir WalFile.TempWalFilename) else cur,
      infos ++ omap (listed wal_cls dir) names).
Proof.
  intros Hn. revert cur infos. induction Hn as [|n names Hn _ IH]; intros cur infos Hc; [by rewrite app_nil_r|].
  cbn [WalFile.parse omap list_omap]. unfold listed at 1, wal_cls.
  destruct (decide (n = WalFile.TempWalFilename)) as [E|E].
  - subst n. rewrite (bool_decide_true (WalFile.TempWalFilename = _)) by done. destruct cur; [exfalso; apply Hc; [done|left]|]. rewrite IH by done.
    by rewrite bool_decide_false, bool_decide_true by (done || left).
  - rewrite (bool_decide_false (n = _)) by done. rewrite (bool_decide_ext (_ ∈ n :: names) (WalFile.TempWalFilename ∈ names)) by (rewrite elem_of_cons; naive_solver).
    destruct (WalFile.wal_name n) as [ts|]; cbn [fmap option_fmap option_map]; rewrite IH by (intros H ?; apply Hc; [done|by right]); [|done].
    by rewrite <- app_assoc.
Qed.

Lemma ParseWalFilenames_spec files dir :
  WalFile.ParseWalFilenames files dir =
  Ok (if bool_decide (is_Some (files !! join dir WalFile.TempWalFilename)) then Some (join dir WalFile.TempWalFilename) else None,
      omap (listed wal_cls dir) (ListDirectory files dir)).
Proof.
  unfold WalFile.ParseWalFilenames. rewrite parse_spec; [|apply list_nodup|by intros []].
  by rewrite (bool_decide_ext _ (is_Some (files !! join dir WalFile.TempWalFilename))) by (rewrite list_elem; split; [by intros []|done]).
Qed.
End wal_directory.

(** ** Deleting and choosing files *)
Lemma foldl_delete (b : FileInfo -> bool) (files : gmap string bytes) l p :
  foldl (fun files i => if b i then delete (path_ i) files else files) files l !! p =
  if bool_decide (Exists (fun i => b i = true /\ path_ i = p) l) then None else files !! p.
Proof.
  revert files. induction l as [|i l IH]; intros files; cbn [foldl].
  - rewrite bool_decide_false; [done|]. by intros ?%Exists_nil.
  - rewrite IH. destruct (decide (Exists (fun i => b i = true /\ path_ i = p) l)) as [H1|H1].
    { by rewrite !bool_decide_true by (done || by right). }
    rewrite (bool_decide_false (Exists _ l)) by done.
    destruct (b i) eqn:Eb.
    + destruct (decide (path_ i = p)) as [<-|Hp]; [by rewrite lookup_delete_eq, bool_decide_true by by left|].
      rewrite lookup_delete_ne, bool_decide_false; [done| |done]. intros [[_ ?]|?]%Exists_cons; done.
    + rewrite bool_decide_false; [done|]. intros [[? _]|?]%Exists_cons; [congruence|done].
Qed.

Lemma pop_while_filter (R : relation FileInfo) p l :
  StronglySorted R l -> (forall x y, R x y -> p y = true -> p x = true) ->
  CatalogFile.pop_while p l = filter (fun i => p i = false) l.
Proof.
  intros Hs Hp. induction Hs as [|a l Hs IH Ha]; [done|]. cbn [CatalogFile.pop_while]. rewrite filter_cons.
  destruct (p a) eqn:E; [by rewrite decide_False by congruence|]. rewrite decide_True by done. f_equal. symmetry.
  clear IH Hs. induction Ha as [|y l Hy _ IH]; [done|]. rewrite filter_cons, decide_True; [by rewrite IH|].
  destruct (p y) eqn:Ey; [|done]. rewrite (Hp a y) in E; auto.
Qed.

(** ** The catalog directory *)
Definition full_cls (n : string) : option Z :=
  match CatalogFile.checkpoint_name n with Some (CatalogFile.Full, ts) => Some ts | _ => None end.
Definition delta_cls (n : string) : option Z :=
  match CatalogFile.checkpoint_name n with Some (CatalogFile.Delta, ts) => Some ts | _ => None end.
Abbreviation canonical_wal := (canonical wal_cls WalFile.WalFilename).
Abbreviation canonical_full := (canonical full_cls CatalogFile.FullCheckpointFilename).
Abbreviation canonical_delta := (canonical delta_cls CatalogFile.DeltaCheckpointFilename).
Abbreviation wal_info := (info_of WalFile.WalFilename).
Abbreviation full_info := (info_of CatalogFile.FullCheckpointFilename).
Abbreviation delta_info := (info_of CatalogFile.DeltaCheckpointFilename).

Lemma StronglySorted_map {A B : Type} (R : relation A) (S : relation B) (f : A -> B) l :
  (forall x y, R x y -> S (f x) (f y)) -> StronglySorted R l -> StronglySorted S (f <$> l).
Proof.
  intros Hf. induction 1 as [|a l Hs IH Ha]; constructor; [done|]. apply Forall_fmap. eapply Forall_impl; [exact Ha|]. cbn. auto.
Qed.
Lemma StronglySorted_filter {A : Type} (R : relation A) (P : A -> Prop) `{!forall x, Decision (P x)} l :
  StronglySorted R l -> StronglySorted R (filter P l).
Proof.
  induction 1 as [|a l Hs IH Ha]; [constructor|]. rewrite filter_cons. case_decide; [|done]. constructor; [done|].
  rewrite Forall_forall in Ha |- *. intros x [_ Hx]%list_elem_of_filter. by apply Ha.
Qed.
Lemma split_sorted {A : Type} (f : A -> Z) (P Q : A -> Prop) `{!forall x, Decision (P x)} `{!forall x, Decision (Q x)} (l : list A) :
  (forall x, Q x <-> ~ P x) -> (forall x y, f x < f y -> P y -> P x) -> StronglySorted Z.lt (f <$> l) -> l = filter P l ++ filter Q l.
Proof.
  intros HQ HP. induction l as [|a l IH]; [done|]. cbn [fmap list_fmap]. intros [Hs Ha]%StronglySorted_inv. rewrite !filter_cons.
  destruct (decide (P a)) as [Hp|Hp].
  - rewrite decide_False by (rewrite HQ; naive_solver). cbn [app]. by rewrite <- IH.
  - assert (Hall : forall x, x ∈ l -> ~ P x).
    { intros x Hx Hpx. apply Hp, (HP a x); [|done]. rewrite Forall_forall in Ha. apply Ha, list_elem_of_fmap. eauto. }
    rewrite (decide_True (P := Q a)) by by apply HQ. rewrite filter_none by by apply Forall_forall. rewrite filter_all; [done|]. apply Forall_forall. intros x Hx. apply HQ, Hall, Hx.
Qed.
Lemma sorted_older name dir l : StronglySorted Z.lt l -> StronglySorted older (info_of name dir <$> l).
Proof. apply StronglySorted_map. intros x y ?. unfold older. cbn. lia. Qed.
Lemma sorted_newer name dir l : StronglySorted Z.lt l -> StronglySorted newer (reverse (info_of name dir <$> l)).
Proof.
  intros Hs. apply (Sorted_StronglySorted newer), (Sorted_reverse older), StronglySorted_Sorted. by apply sorted_older.
Qed.

Lemma filter_info (P : Z -> Prop) `{!forall t, Decision (P t)} name dir (l : list Z) :
  filter (fun i => P (info_ts i)) (info_of name dir <$> l) = info_of name dir <$> filter P l.
Proof. induction l as [|t l IH]; [done|]. cbn [fmap list_fmap]. rewrite !filter_cons. cbn [info_of info_ts]. case_decide; cbn; by rewrite IH. Qed.

Section catalog_directory.
Context `{DL : DirectoryLaws}.
Implicit Types (files : gmap string bytes) (dir : string).

Lemma add_files dir names f d tf td :
  let infos := foldl (CatalogFile.add_file dir) (CatalogFile.mkCatalogFilesInfo f d tf td) names in
  CatalogFile.full_infos_ infos = f ++ omap (listed full_cls dir) names /\
  CatalogFile.delta_infos_ infos = d ++ omap (listed delta_cls dir) names.
Proof.
  revert f d tf td. induction names as [|n names IH]; intros f d tf td; cbn; [by rewrite !app_nil_r|].
  unfold listed, full_cls, delta_cls in *. destruct (CatalogFile.checkpoint_name n) as [[[] ts]|]; cbn;
    match goal with |- context [foldl _ (CatalogFile.mkCatalogFilesInfo ?f ?d ?tf ?td) _] => destruct (IH f d tf td) as [-> ->] end;
    by rewrite <- ?app_assoc.
Qed.

(** The newest full file that is not too new, and the deltas behind it. *)
Definition attached (dir : string) (fulls deltas : list Z) (max_checkpoint_ts : Z) : option (FileInfo * list FileInfo) :=
  match last (filter (fun t => t <= max_checkpoint_ts) fulls) with
  | None => None
  | Some f => Some (full_info dir f, delta_info dir <$> filter (fun t => f < t <= max_checkpoint_ts) deltas)
  end.

Lemma valid_files files dir fulls deltas c :
  canonical_full files dir fulls -> canonical_delta files dir deltas ->
  StronglySorted Z.lt fulls -> StronglySorted Z.lt deltas ->
  CatalogFile.ParseValidCheckpointFilenames files dir c = attached dir fulls deltas c.
Proof.
  intros Hf Hd Sf Sd. unfold CatalogFile.ParseValidCheckpointFilenames, CatalogFile.ParseCheckpointFilenames.
  destruct (add_files dir (ListDirectory files dir) [] [] [] []) as [-> ->]. cbn [app].
  assert (Ha : forall x y, older x y -> older y x -> info_ts x = info_ts y) by (unfold older; lia).
  rewrite (sorted_infos full_cls CatalogFile.FullCheckpointFilename files dir fulls older) by auto using sorted_older.
  rewrite (sorted_infos delta_cls CatalogFile.DeltaCheckpointFilename files dir deltas older) by auto using sorted_older.
  assert (E : forall name l, StronglySorted Z.lt l -> reverse (CatalogFile.pop_while (fun i => c <? info_ts i) (reverse (info_of name dir <$> l))) =
            info_of name dir <$> filter (fun t => t <= c) l).
  { intros name l Hl. rewrite (pop_while_filter newer); [|by apply sorted_newer|].
    - rewrite <- filter_info by apply _. rewrite filter_reverse, reverse_involutive.
      apply list_filter_iff. intros i. rewrite Z.ltb_ge. done.
    - intros x y. unfold newer. rewrite !Z.ltb_lt. lia. }
  unfold attached. pose proof (E CatalogFile.FullCheckpointFilename fulls Sf) as E1. rewrite (E _ deltas Sd).
  destruct (CatalogFile.pop_while _ (reverse (_ <$> fulls))) as [|i rest].
  - destruct (filter _ fulls) as [|t ?] eqn:F; [done|]. cbn in E1. done.
  - rewrite reverse_cons in E1. destruct (last (filter _ fulls)) as [f|] eqn:L.
    + pose proof (f_equal last E1) as E2. rewrite last_snoc, fmap_last, L in E2. cbn in E2. injection E2 as ->. f_equal. f_equal.
      rewrite (pop_while_filter older).
      * cbn [info_of info_ts]. rewrite <- (filter_info (fun t => f < t <= c)), <- (filter_info (fun t => t <= c)), list_filter_filter.
        apply list_filter_iff. intros j. rewrite Z.leb_gt. done.
      * apply sorted_older, StronglySorted_filter, Sd.
      * intros x y. unfold older. rewrite !Z.leb_le. lia.
    + apply last_None in L. rewrite L in E1. by destruct (reverse rest).
Qed.
End catalog_directory.

(** ** How the directories change *)
Section changes.
Context (cls : string -> option Z) (name : Z -> string).
Implicit Types (files : gmap string bytes) (dir : string) (l : list Z).

Lemma canonical_ext files files' dir l :
  (forall n, no_slash n = true -> is_Some (cls n) -> is_Some (files' !! join dir n) <-> is_Some (files !! join dir n)) ->
  canonical cls name files dir l -> canonical cls name files' dir l.
Proof.
  intros He (Hl & Hc & Hp). split_and!; [done|..].
  - intros n ts Hn Hf Ht. apply Hc; [done| |done]. apply He; [done|by exists ts|done].
  - intros ts Ht. destruct (Hp ts Ht) as (H1 & H2 & H3). split_and!; [done..|]. apply He; [done|by exists ts|done].
Qed.

(** Another file is written. *)
Lemma canonical_insert_other files dir l p c :
  (forall n, no_slash n = true -> is_Some (cls n) -> p <> join dir n) ->
  canonical cls name files dir l -> canonical cls name (<[p := c]> files) dir l.
Proof. intros Hp. apply canonical_ext. intros n Hn Hc. rewrite lookup_insert_ne by by apply Hp. done. Qed.

(** A file of the kind is written. *)
Lemma canonical_insert files dir l l' ts c :
  no_slash (name ts) = true -> cls (name ts) = Some ts -> NoDup l' -> (forall t, t ∈ l' <-> t ∈ l \/ t = ts) ->
  canonical cls name files dir l -> canonical cls name (<[join dir (name ts) := c]> files) dir l'.
Proof.
  intros Hns Ht Hl' Hel (Hl & Hc & Hp). split_and!; [done|..].
  - intros n t Hn Hf Hct. destruct (decide (n = name ts)) as [->|Hne].
    + assert (t = ts) as -> by congruence. split; [done|]. apply Hel. by right.
    + rewrite lookup_insert_ne in Hf by by intros [_ ?]%join_inj. destruct (Hc n t Hn Hf Hct). split; [done|]. apply Hel. by left.
  - intros t [Hin| ->]%Hel; [|split_and!; [done..|]; rewrite lookup_insert_eq; eauto].
    destruct (Hp t Hin) as (H1 & H2 & H3). split_and!; [done..|]. destruct (decide (t = ts)) as [->|Hne]; [rewrite lookup_insert_eq; eauto|].
    rewrite lookup_insert_ne; [done|]. intros [_ E]%join_inj; [|done..]. rewrite E in Ht. congruence.
Qed.

(** Files are removed. *)
Lemma canonical_remove files files' dir l l' (gone : string -> Prop) `{!forall p, Decision (gone p)} :
  (forall p, files' !! p = if decide (gone p) then None else files !! p) ->
  NoDup l' -> (forall t, t ∈ l' <-> t ∈ l /\ ~ gone (join dir (name t))) ->
  canonical cls name files dir l -> canonical cls name files' dir l'.
Proof.
  intros Hg Hl' Hel (Hl & Hc & Hp). split_and!; [done|..].
  - intros n t Hn Hf Hct. rewrite Hg in Hf. case_decide as Hgn; [by destruct Hf|]. destruct (Hc n t Hn Hf Hct) as [-> ?].
    split; [done|]. by apply Hel.
  - intros t [Hin Hgn]%Hel. destruct (Hp t Hin) as (H1 & H2 & H3). split_and!; [done..|]. rewrite Hg. by rewrite decide_False.
Qed.
End changes.

Section recycling.
Context `{DL : DirectoryLaws}.
Implicit Types (files : gmap string bytes) (dir : string).

Lemma deleted_infos cls name files dir l (b : Z -> bool) (P : Z -> Prop) p :
  (forall t, b t = true <-> P t) -> canonical cls name files dir l ->
  Exists (fun i => b (info_ts i) = true /\ path_ i = p) (omap (listed cls dir) (ListDirectory files dir)) <->
  Exists (fun t => P t /\ p = join dir (name t)) l.
Proof.
  intros Hb Hc. rewrite (listed_perm _ _ _ _ _ Hc), !Exists_exists. setoid_rewrite list_elem_of_fmap. split.
  - intros (i & (t & -> & Ht) & ?%Hb & <-). by exists t.
  - intros (t & Ht & ?%Hb & ->). exists (info_of name dir t). split; [by exists t|done].
Qed.

Lemma RecycleWalFile_spec files dir l c :
  canonical_wal files dir l ->
  exists files', WalFile.RecycleWalFile c dir files = Ok files' /\
    forall p, files' !! p = if decide (Exists (fun t => t <= c /\ p = join dir (WalFile.WalFilename t)) l) then None else files !! p.
Proof.
  intros Hc. unfold WalFile.RecycleWalFile. rewrite ParseWalFilenames_spec. cbn [res_bind]. eexists. split; [reflexivity|]. intros p.
  rewrite (foldl_delete (fun i => info_ts i <=? c)).
  rewrite (bool_decide_ext _ _ (deleted_infos _ _ _ _ _ (fun t => t <=? c) (fun t => t <= c) p (fun t => Z.leb_le t c) Hc)).
  by case_bool_decide; case_decide.
Qed.

Lemma RecycleCatalogFile_found files dir fulls c files' :
  canonical_full files dir fulls -> CatalogFile.RecycleCatalogFile c dir files = Ok files' -> c ∈ fulls.
Proof.
  intros Hf. unfold CatalogFile.RecycleCatalogFile, CatalogFile.ParseCheckpointFilenames.
  destruct (add_files dir (ListDirectory files dir) [] [] [] []) as [-> _]. cbn [app].
  destruct (existsb _ _) eqn:E; [|done]. intros _. apply existsb_exists in E as (i & Hi%list_elem_of_In & Ht%Z.eqb_eq).
  rewrite (listed_perm _ _ _ _ _ Hf) in Hi. apply list_elem_of_fmap in Hi as (t & -> & Hin). cbn in Ht. by subst t.
Qed.

Lemma RecycleCatalogFile_spec files dir fulls deltas c :
  canonical_full files dir fulls -> canonical_delta files dir deltas -> c ∈ fulls ->
  exists files', CatalogFile.RecycleCatalogFile c dir files = Ok files' /\
    forall p, files' !! p = if decide (Exists (fun t => t < c /\ p = join dir (CatalogFile.FullCheckpointFilename t)) fulls \/
                                       Exists (fun t => t <= c /\ p = join dir (CatalogFile.DeltaCheckpointFilename t)) deltas)
                            then None else files !! p.
Proof.
  intros Hf Hd Hc. unfold CatalogFile.RecycleCatalogFile, CatalogFile.ParseCheckpointFilenames.
  destruct (add_files dir (ListDirectory files dir) [] [] [] []) as [-> ->]. cbn [app].
  pose proof (listed_perm _ _ _ _ _ Hf) as Pf.
  assert (existsb (fun i => info_ts i =? c) (omap (listed full_cls dir) (ListDirectory files dir)) = true) as ->.
  { apply existsb_exists. exists (full_info dir c). split; [|cbn; apply Z.eqb_refl].
    apply list_elem_of_In. rewrite Pf. apply list_elem_of_fmap. by exists c. }
  eexists. split; [reflexivity|]. intros p.
  rewrite (foldl_delete (fun i => info_ts i <=? c)), (foldl_delete (fun i => info_ts i <? c)).
  rewrite (bool_decide_ext _ _ (deleted_infos _ _ _ _ _ (fun t => t <=? c) (fun t => t <= c) p (fun t => Z.leb_le t c) Hd)).
  rewrite (bool_decide_ext _ _ (deleted_infos _ _ _ _ _ (fun t => t <? c) (fun t => t < c) p (fun t => Z.ltb_lt t c) Hf)).
  repeat case_bool_decide; case_decide; naive_solver.
Qed.
End recycling.
