(* ===== verification/WalManager.v ===== *)
(** * The log manager: [src/src/storage/wal/wal_manager.cpp]

    The manager writes the entries of committed transactions to the log file, swaps the file when it
    is too large and before the entry of a checkpoint, removes the files that a checkpoint has made
    redundant, and finds what to replay after a restart. The state is the members of the class and
    the files. [ofs_] is the open stream with the bytes it has not yet handed to the file; a closed
    stream is [None]. A step of the flush thread is an iteration of its inner loop ([write_txn]) or the
    rest of a turn ([finish_batch]). What a replay does to the catalog is a list of calls: the files
    that are attached and the commands that are replayed. *)
From Stdlib Require Import Ascii.
From stdpp Require Import sorting.
From S2P Require Import Prelude Serialize WalInfo WalCmd WalEntry WalIterator TxnContext LogFile.

Module WalManager.

Inductive StorageMode := kUnInitialized | kAdmin | kReadable | kWritable.

Record WalManager := mkWalManager {
  running_ : bool;
  ofs_ : option bytes;
  max_commit_ts_ : Z;
  last_swap_wal_ts_ : Z;
  wal_size_ : Z;
  last_ckp_wal_size_ : Z;
  checkpoint_in_progress_ : bool;
  last_ckp_ts_ : Z;
  last_full_ckp_ts_ : Z;
}.
Implicit Types (m : WalManager) (files : gmap string bytes).

Definition set_running b m : WalManager :=
  mkWalManager b (ofs_ m) (max_commit_ts_ m) (last_swap_wal_ts_ m) (wal_size_ m) (last_ckp_wal_size_ m)
    (checkpoint_in_progress_ m) (last_ckp_ts_ m) (last_full_ckp_ts_ m).
Definition set_ofs o m : WalManager :=
  mkWalManager (running_ m) o (max_commit_ts_ m) (last_swap_wal_ts_ m) (wal_size_ m) (last_ckp_wal_size_ m)
    (checkpoint_in_progress_ m) (last_ckp_ts_ m) (last_full_ckp_ts_ m).
Definition set_commit ts size m : WalManager :=
  mkWalManager (running_ m) (ofs_ m) ts (last_swap_wal_ts_ m) size (last_ckp_wal_size_ m)
    (checkpoint_in_progress_ m) (last_ckp_ts_ m) (last_full_ckp_ts_ m).
Definition set_swap ts m : WalManager :=
  mkWalManager (running_ m) (ofs_ m) (max_commit_ts_ m) ts (wal_size_ m) (last_ckp_wal_size_ m)
    (checkpoint_in_progress_ m) (last_ckp_ts_ m) (last_full_ckp_ts_ m).
Definition set_progress b m : WalManager :=
  mkWalManager (running_ m) (ofs_ m) (max_commit_ts_ m) (last_swap_wal_ts_ m) (wal_size_ m) (last_ckp_wal_size_ m)
    b (last_ckp_ts_ m) (last_full_ckp_ts_ m).
Definition set_ckp ts full_ts m : WalManager :=
  mkWalManager (running_ m) (ofs_ m) (max_commit_ts_ m) (last_swap_wal_ts_ m) (wal_size_ m) (last_ckp_wal_size_ m)
    (checkpoint_in_progress_ m) ts full_ts.
Definition SetLastCkpWalSize wal_size m : WalManager :=
  mkWalManager (running_ m) (ofs_ m) (max_commit_ts_ m) (last_swap_wal_ts_ m) (wal_size_ m) wal_size
    (checkpoint_in_progress_ m) (last_ckp_ts_ m) (last_full_ckp_ts_ m).

(** The constructor. *)
Definition make : WalManager := mkWalManager false None 0 0 0 0 false UNCOMMIT_TS UNCOMMIT_TS.

Definition LastCheckpointTS m : Z := if last_ckp_ts_ m =? UNCOMMIT_TS then 0 else last_ckp_ts_ m.

Definition UpdateCommitState (commit_ts wal_size : Z) m : res WalManager :=
  check? negb ((commit_ts <=? max_commit_ts_ m) || (wal_size <? wal_size_ m)) else Unrecoverable in
  Ok (set_commit commit_ts wal_size m).

Definition TrySubmitCheckpointTask m : bool * WalManager :=
  if checkpoint_in_progress_ m then (false, m) else (true, set_progress true m).

Section manager.
Context `{P : WalPayload} `{D : Directory}.
Context (uoc : bool) (wal_dir_ catalog_dir : string) (cfg_wal_size_threshold_ cfg_delta_checkpoint_interval_wal_bytes_ : Z).

Definition wal_path_ : string := join wal_dir_ WalFile.TempWalFilename.

(** [std::ofstream(wal_path_, app)], [write], [flush] and [close]. *)
Definition ofs_open (p : WalManager * gmap string bytes) : WalManager * gmap string bytes :=
  (set_ofs (Some []) p.1, <[wal_path_ := default [] (p.2 !! wal_path_)]> p.2).
Definition ofs_write (bs : bytes) m : WalManager := set_ofs ((fun pending => pending ++ bs) <$> ofs_ m) m.
Definition ofs_flush m files : WalManager * gmap string bytes :=
  match ofs_ m with
  | None => (m, files)
  | Some pending => (set_ofs (Some []) m, <[wal_path_ := default [] (files !! wal_path_) ++ pending]> files)
  end.
Definition ofs_close m files : WalManager * gmap string bytes :=
  let '(m, files) := ofs_flush m files in (set_ofs None m, files).

Definition Start m files : WalManager * gmap string bytes :=
  if running_ m then (m, files)
  else let '(m, files) := ofs_open (set_running true m, files) in (set_commit (max_commit_ts_ m) 0 m, files).

(** The part of [Stop] behind the flush thread. *)
Definition Stop m files : WalManager * gmap string bytes :=
  if running_ m then ofs_close (set_running false m) files else (m, files).

Definition SwapWalFile (max_commit_ts : Z) (error_if_duplicate : bool) m files : res (WalManager * gmap string bytes) :=
  if max_commit_ts <=? last_swap_wal_ts_ m then Ok (m, files) else
  let '(m, files) := ofs_close m files in
  let new_file_path := join wal_dir_ (WalFile.WalFilename max_commit_ts) in
  let? files := match files !! new_file_path with
                | Some _ => if error_if_duplicate then Err Unrecoverable else Ok (delete wal_path_ files)
                | None => match files !! wal_path_ with
                          | Some content => Ok (<[new_file_path := content]> (delete wal_path_ files))
                          | None => Ok files
                          end
                end in
  let '(m, files) := ofs_open (m, files) in
  Ok (set_swap max_commit_ts m, files).

(** ** The flush thread *)
Record Txn := mkTxn { wal_entry_ : WalEntry; txn_type_ : TransactionType }.

(** An entry is written into a buffer of the announced size and must fill it. *)
Definition fill_buffer (entry : WalEntry) : res bytes :=
  let '(exp_size, entry) := entry_GetSizeInBytes uoc entry in
  check? 0 <=? exp_size else LengthErr in
  let? buf := entry_WriteAdv uoc entry in
  let act_size := Z.of_nat (length buf) in
  if exp_size <? act_size then Err Undefined else
  check? exp_size =? act_size else Unrecoverable in
  Ok buf.

(** The body of the loop over a batch. *)
Definition write_txn (txn : Txn) m files : res (WalManager * gmap string bytes) :=
  let entry := wal_entry_ txn in
  match cmds_ entry with
  | [] => Ok (m, files)
  | _ =>
      let? (m, files) := if bool_decide (txn_type_ txn = kCheckpoint) then SwapWalFile (max_commit_ts_ m) true m files
                         else Ok (m, files) in
      let? buf := fill_buffer entry in
      let m := ofs_write buf m in
      let wal_size := wal_size_ m + Z.of_nat (length buf) in
      check? wal_size <? 2 ^ 63 else Undefined in
      let? m := UpdateCommitState (commit_ts_ entry) wal_size m in
      Ok (m, files)
  end.

(** The rest of the turn: the transactions whose [CommitBottom] is called are those of the batch, and
    the answer is whether a delta checkpoint was submitted. *)
Definition finish_batch m files : res (bool * WalManager * gmap string bytes) :=
  if negb (running_ m) then Ok (false, m, files) else
  let '(m, files) := ofs_flush m files in
  match files !! wal_path_ with
  | None => Err Unrecoverable
  | Some content =>
      let? (m, files) := if cfg_wal_size_threshold_ <? Z.of_nat (length content) then SwapWalFile (max_commit_ts_ m) true m files
                         else Ok (m, files) in
      if i64 cfg_delta_checkpoint_interval_wal_bytes_ <? wal_size_ m - last_ckp_wal_size_ m
      then let '(submitted, m) := TrySubmitCheckpointTask m in Ok (submitted, m, files)
      else Ok (false, m, files)
  end.

(** A batch; [None] is the null pointer that stops the thread. *)
Fixpoint write_batch (txn_batch : list (option Txn)) m files : res (WalManager * gmap string bytes) :=
  match txn_batch with
  | [] => Ok (m, files)
  | None :: _ => Ok (set_running false m, files)
  | Some txn :: txn_batch => let? (m, files) := write_txn txn m files in write_batch txn_batch m files
  end.
(** A turn of [Flush]. *)
Definition flush_turn (txn_batch : list (option Txn)) m files : res (bool * WalManager * gmap string bytes) :=
  if bool_decide (txn_batch = []) then Ok (false, m, files)
  else let? (m, files) := write_batch txn_batch m files in finish_batch m files.

(** ** Checkpoints *)

(** [Catalog::SaveFullCatalog]: the file is written under a temporary name and renamed. A failing write
    leaves a part of it under the temporary name and is recoverable. *)
Definition SaveFullCatalog (written : option bytes) (catalog_str : bytes) (max_commit_ts : Z) files : bool * gmap string bytes :=
  match written with
  | Some part => (false, <[join catalog_dir (CatalogFile.TempFullCheckpointFilename max_commit_ts) := part]> files)
  | None => (true, <[join catalog_dir (CatalogFile.FullCheckpointFilename max_commit_ts) := catalog_str]> files)
  end.
(** Timestamps of checkpoints are below 2^63, so the conversion to [i64] does not change them. *)
Definition checkpoint_cmd (max_commit_ts : Z) (is_full : bool) : WalCmd :=
  WalCmdCheckpoint max_commit_ts is_full "catalog"
    (if is_full then CatalogFile.FullCheckpointFilename max_commit_ts else CatalogFile.DeltaCheckpointFilename max_commit_ts).

(** The command is added to the transaction; the defer sets [checkpoint_in_progress_] in every case,
    also when the call raises. *)
Definition FullCheckpointInner (max_committed_ts : Z) (written : option bytes) (catalog_str : bytes) m files
    : res (option WalCmd) * WalManager * gmap string bytes :=
  let m := set_progress false m in
  let last_ckp_ts := last_ckp_ts_ m in
  let last_full_ckp_ts := last_full_ckp_ts_ m in
  let wal_size := wal_size_ m in
  let max_commit_ts := max_committed_ts in
  if max_commit_ts =? last_full_ckp_ts then (Ok None, m, files)
  else if (negb (last_full_ckp_ts =? UNCOMMIT_TS) && (max_commit_ts <=? last_full_ckp_ts)) ||
          (negb (last_ckp_ts =? UNCOMMIT_TS) && (max_commit_ts <? last_ckp_ts))
  then (Err Unrecoverable, m, files)
  else
    let '(saved, files) := SaveFullCatalog written catalog_str max_commit_ts files in
    let '(cmd, m) := if saved then (Some (checkpoint_cmd max_commit_ts true), SetLastCkpWalSize wal_size m) else (None, m) in
    (Ok cmd, set_ckp max_commit_ts max_commit_ts m, files).

(** [Catalog::SaveDeltaCatalog] picks operations up to [picked_ts] from the global delta. *)
Definition SaveDeltaCatalog (last_ckp_ts picked_ts : Z) (delta : bytes) files : bool * gmap string bytes :=
  if picked_ts <=? last_ckp_ts then (false, files)
  else (true, <[join catalog_dir (CatalogFile.DeltaCheckpointFilename picked_ts) := delta]> files).

Definition DeltaCheckpointInner (begin_ts picked_ts : Z) (delta : bytes) m files
    : res (option WalCmd) * WalManager * gmap string bytes :=
  let m := set_progress false m in
  let last_ckp_ts := last_ckp_ts_ m in
  let wal_size := wal_size_ m in
  let max_commit_ts := Z.min (max_commit_ts_ m) begin_ts in
  if max_commit_ts =? last_ckp_ts then (Ok None, m, files)
  else if negb (last_ckp_ts =? UNCOMMIT_TS) && (max_commit_ts <=? last_ckp_ts) then (Err Unrecoverable, m, files)
  else
    let '(saved, files) := SaveDeltaCatalog last_ckp_ts picked_ts delta files in
    if negb saved then (Ok None, m, files)
    else if picked_ts =? 0 then (Err Unrecoverable, m, files)
    else (Ok (Some (checkpoint_cmd picked_ts false)), set_ckp picked_ts (last_full_ckp_ts_ m) (SetLastCkpWalSize wal_size m), files).

(** Called when the transaction of the checkpoint has been committed. *)
Definition CommitFullCheckpoint (max_commit_ts : Z) files : res (gmap string bytes) :=
  let? files := WalFile.RecycleWalFile max_commit_ts wal_dir_ files in
  CatalogFile.RecycleCatalogFile max_commit_ts catalog_dir files.
Definition CommitDeltaCheckpoint (max_commit_ts : Z) files : res (gmap string bytes) :=
  WalFile.RecycleWalFile max_commit_ts wal_dir_ files.

(** ** Replay *)
Record ReplayWalOptions := mkReplayWalOptions { on_startup_ : bool; is_replay_ : bool; sync_from_leader_ : bool }.

(** The commands whose replay is called, in order. *)
Definition replay_cmd (options : ReplayWalOptions) (cmd : WalCmd) : res (list WalCmd) :=
  match cmd with
  | WalCmdCheckpoint _ _ _ _ =>
      if on_startup_ options then (if sync_from_leader_ options then Ok [cmd] else Err Unrecoverable) else Ok []
  | WalCmdSetSegmentStatusSealed _ _ _ _ _ | WalCmdUpdateSegmentBloomFilterData _ _ _ _ _ => Err Unrecoverable
  | _ => Ok [cmd]
  end.
Fixpoint replay_cmds (options : ReplayWalOptions) (cmds : list WalCmd) : res (list WalCmd) :=
  match cmds with
  | [] => Ok []
  | cmd :: cmds => let? calls := replay_cmd options cmd in let? rest := replay_cmds options cmds in Ok (calls ++ rest)
  end.
Definition ReplayWalEntry (options : ReplayWalOptions) (entry : WalEntry) : res (list WalCmd) := replay_cmds options (cmds_ entry).

(** The current file and the swapped ones from the newest to the oldest. *)
Definition wal_list files : res (list string) :=
  let? (temp_wal_info, wal_infos) := WalFile.ParseWalFilenames files wal_dir_ in
  Ok (option_list temp_wal_info ++ (path_ <$> merge_sort newer wal_infos)).

(** Phase 1 collects the entries behind the newest checkpoint, phase 2 those before it with a later
    timestamp. *)
Fixpoint phase1 (fuel : nat) files (iterator : WalListIterator) (entries : list WalEntry)
    : res (option (option (WalEntry * WalCmd) * list WalEntry * WalListIterator)) :=
  let? (has_next, iterator) := WalListIterator.HasNext files iterator in
  if negb has_next then Ok (Some (None, entries, iterator)) else
  match fuel with
  | O => Ok None
  | S fuel =>
      let? (wal_entry, iterator) := WalListIterator.Next uoc iterator in
      match wal_entry with
      | None => Err Unrecoverable
      | Some wal_entry =>
          match IsCheckPoint wal_entry None with
          | (true, Some cmd) => Ok (Some (Some (wal_entry, cmd), entries, iterator))
          | _ => phase1 fuel files iterator (entries ++ [wal_entry])
          end
      end
  end.
Fixpoint phase2 (fuel : nat) files (iterator : WalListIterator) (max_checkpoint_ts : Z) (entries : list WalEntry)
    : res (option (list WalEntry)) :=
  let? (has_next, iterator) := WalListIterator.HasNext files iterator in
  if negb has_next then Ok (Some entries) else
  match fuel with
  | O => Ok None
  | S fuel =>
      let? (wal_entry, iterator) := WalListIterator.Next uoc iterator in
      match wal_entry with
      | None => Err Unrecoverable
      | Some wal_entry => if max_checkpoint_ts <? commit_ts_ wal_entry
                          then phase2 fuel files iterator max_checkpoint_ts (entries ++ [wal_entry])
                          else Ok (Some entries)
      end
  end.

Definition checkpoint_ts (cmd : WalCmd) : Z := match cmd with WalCmdCheckpoint ts _ _ _ => u64 ts | _ => 0 end.

(** Phase 3: the calls, the last commit timestamp and the last transaction. *)
Fixpoint phase3 (max_checkpoint_ts : Z) (replay_entries : list WalEntry) (last_commit_ts last_txn_id : Z) (calls : list WalCmd)
    : res (list WalCmd * Z * Z) :=
  match replay_entries with
  | [] => Ok (calls, last_commit_ts, last_txn_id)
  | entry :: replay_entries =>
      check? negb (commit_ts_ entry <? max_checkpoint_ts) else Unrecoverable in
      let? more := ReplayWalEntry (mkReplayWalOptions false true false) entry in
      phase3 max_checkpoint_ts replay_entries (commit_ts_ entry) (txn_id_ entry) (calls ++ more)
  end.

(** What a restart does: the catalog files it attaches, the commands it replays, and the timestamps it
    goes on with. *)
Record Replay := mkReplay {
  attach : FileInfo * list FileInfo;
  replayed : list WalEntry;
  calls : list WalCmd;
  next_txn_id : Z;
  system_start_ts : Z;
}.

Definition ReplayWalFile (fuel : nat) (mode : StorageMode) m files
    : res (option (option Replay * WalManager * gmap string bytes)) :=
  let? list := wal_list files in
  if bool_decide (list = []) then Ok (Some (None, m, files)) else
  let? (iterator, files) := WalListIterator.make uoc list files in
  let? r := phase1 fuel files iterator [] in
  match r with
  | None => Ok None
  | Some (checkpoint, entries, iterator) =>
      let '(last_commit_ts, max_checkpoint_ts) := match checkpoint with
                                                  | Some (wal_entry, cmd) => (commit_ts_ wal_entry, checkpoint_ts cmd)
                                                  | None => (0, 0)
                                                  end in
      let? r := phase2 fuel files iterator max_checkpoint_ts entries in
      match r with
      | None => Ok None
      | Some entries =>
          if last_commit_ts =? 0 then
            match mode with
            | kReadable => Ok (Some (None, m, files))
            | _ => Err Unrecoverable
            end
          else
            match CatalogFile.ParseValidCheckpointFilenames files catalog_dir max_checkpoint_ts with
            | None => Err Unrecoverable
            | Some attach =>
                let replay_entries := rev entries in
                let? (calls, last_commit_ts, last_txn_id) := phase3 max_checkpoint_ts replay_entries last_commit_ts 0 [] in
                let? m := UpdateCommitState last_commit_ts 0 m in
                Ok (Some (Some (mkReplay attach replay_entries calls last_txn_id (u64 (last_commit_ts + 1))), m, files))
            end
      end
  end.

(** ** Reading the log while the system runs *)

(** [CollectWalEntries]: the entries that a replay would use and the checkpoint itself. *)
Definition CollectWalEntries (fuel : nat) files : res (option (list WalEntry * gmap string bytes)) :=
  let? list := wal_list files in
  check? negb (bool_decide (list = [])) else Unrecoverable in
  let? (iterator, files) := WalListIterator.make uoc list files in
  let? r := phase1 fuel files iterator [] in
  match r with
  | None => Ok None
  | Some (None, _, _) => Err Unrecoverable
  | Some (Some (wal_entry, cmd), entries, iterator) =>
      check? negb (commit_ts_ wal_entry =? 0) else Unrecoverable in
      let? r := phase2 fuel files iterator (checkpoint_ts cmd) (entries ++ [wal_entry]) in
      Ok ((fun wal_entries => (rev wal_entries, files)) <$> r)
  end.

(** [GetCatalogFiles]: the catalog of the newest checkpoint. *)
Definition GetCatalogFiles (fuel : nat) files : res (option (option (FileInfo * list FileInfo) * gmap string bytes)) :=
  let? list := wal_list files in
  check? negb (bool_decide (list = [])) else Unrecoverable in
  let? (iterator, files) := WalListIterator.make uoc list files in
  let? r := phase1 fuel files iterator [] in
  match r with
  | None => Ok None
  | Some (None, _, _) => Err Unrecoverable
  | Some (Some (wal_entry, cmd), _, _) =>
      check? negb (commit_ts_ wal_entry =? 0) else Unrecoverable in
      Ok (Some (CatalogFile.ParseValidCheckpointFilenames files catalog_dir (checkpoint_ts cmd), files))
  end.

(** The entry that stands for the catalog files in [GetDiffWalEntryString]. *)
Definition filename (path : string) : string := match rfind "/"%char path with Some i => sdrop (i + 1) path | None => path end.
Definition catalog_entry (next_txn_id : Z) (attach : FileInfo * list FileInfo) : WalEntry :=
  let '(full, deltas) := attach in
  mkWalEntry 0 0 next_txn_id (foldl Z.max (Z.max 0 (info_ts full)) (info_ts <$> deltas))
    (WalCmdCheckpoint (i64 (info_ts full)) true "catalog" (filename (path_ full)) ::
     ((fun d => WalCmdCheckpoint (i64 (info_ts d)) false "catalog" (filename (path_ d))) <$> deltas)).

Fixpoint entry_strings (entries : list WalEntry) : res (list bytes) :=
  match entries with
  | [] => Ok []
  | entry :: entries => let? buf := fill_buffer entry in let? rest := entry_strings entries in Ok (buf :: rest)
  end.

(** [GetDiffWalEntryString]: what a leader sends to a node that joins. Without a checkpoint the path of
    the catalog stays empty, which is the data directory itself. *)
Definition GetDiffWalEntryString (fuel : nat) (data_dir : string) (next_txn_id : Z) files : res (option (list bytes * gmap string bytes)) :=
  let? list := wal_list files in
  if bool_decide (list = []) then Ok (Some ([], files)) else
  let? (iterator, files) := WalListIterator.make uoc list files in
  let? r := phase1 fuel files iterator [] in
  match r with
  | None => Ok None
  | Some (checkpoint, entries, iterator) =>
      let '(max_checkpoint_ts, dir) := match checkpoint with
                                       | Some (_, cmd) => (checkpoint_ts cmd, catalog_dir)
                                       | None => (0, data_dir)
                                       end in
      let? r := phase2 fuel files iterator max_checkpoint_ts entries in
      match r with
      | None => Ok None
      | Some log_entries =>
          match CatalogFile.ParseValidCheckpointFilenames files dir max_checkpoint_ts with
          | None => Err Unrecoverable
          | Some attach =>
              let? log_strings := entry_strings (rev (log_entries ++ [catalog_entry next_txn_id attach])) in
              Ok (Some (log_strings, files))
          end
      end
  end.

(** [FlushLogByReplication]: on startup, the old file is put aside under the largest timestamp of the
    log, or dropped when that name is taken. *)
Fixpoint max_commit (fuel : nat) files (iterator : WalListIterator) (max_commit_ts : Z) : res (option Z) :=
  let? (has_next, iterator) := WalListIterator.HasNext files iterator in
  if negb has_next then Ok (Some max_commit_ts) else
  match fuel with
  | O => Ok None
  | S fuel =>
      let? (wal_entry, iterator) := WalListIterator.Next uoc iterator in
      match wal_entry with
      | None => Ok (Some max_commit_ts)
      | Some wal_entry => max_commit fuel files iterator (Z.max max_commit_ts (commit_ts_ wal_entry))
      end
  end.
Definition FlushLogByReplication (fuel : nat) (synced_logs : list bytes) (on_startup : bool) m files
    : res (option (WalManager * gmap string bytes)) :=
  let write p := ofs_flush (foldl (fun m log => ofs_write log m) (fst p) synced_logs) (snd p) in
  if negb on_startup then Ok (Some (write (m, files))) else
  let? list := wal_list files in
  let? r := if bool_decide (list = []) then Ok (Some (0, files))
            else let? (iterator, files) := WalListIterator.make uoc list files in
                 let? r := max_commit fuel files iterator 0 in Ok ((fun ts => (ts, files)) <$> r) in
  match r with
  | None => Ok None
  | Some (max_commit_ts, files) =>
      let? p := SwapWalFile max_commit_ts false m files in
      Ok (Some (write p))
  end.

End manager.
End WalManager.
