(* ===== verification/WalReplay.v ===== *)
(** * What the log iterator gives to a replay

    The iterator over the files of a log as the list of entries it yields, and the three phases of
    [WalManager::ReplayWalFile] on such a list. *)
From stdpp Require Import sorting.
From S2P Require Import Prelude Serialize WalInfo WalCmd WalEntry WalIterator LogFile WalManager.

Section replay.
Context `{P : WalPayload} `{PL : !WalPayloadLaws}.
Context (uoc : bool).
Import WalEntryIterator.
Implicit Types (files : gmap string bytes) (f : crash_file) (es : list WalEntry).

(** ** Lists of entries *)
Fixpoint yields files (l : WalListIterator) es : Prop :=
  match es with
  | [] => exists l', WalListIterator.HasNext files l = Ok (false, l')
  | e :: es => exists l' l'', WalListIterator.HasNext files l = Ok (true, l') /\
                 WalListIterator.Next uoc l' = Ok (Some e, l'') /\ yields files l'' es
  end.

Lemma yields_ext files l l' es :
  WalListIterator.HasNext files l = WalListIterator.HasNext files l' -> yields files l' es -> yields files l es.
Proof. intros H. destruct es; cbn; by rewrite H. Qed.

Lemma yields_file es b post files paths rest :
  Forall (entry_ok uoc) es -> image uoc es = Ok b -> Z.of_nat (length (b ++ post)) < 2 ^ 63 ->
  yields files (mkListIterator paths (Some (mkIterator true 0 (b ++ post)))) rest ->
  yields files (mkListIterator paths (Some (mkIterator true (Z.of_nat (length b)) (b ++ post)))) (rev (stored uoc <$> es) ++ rest).
Proof.
  revert b post. induction es as [|e es IH] using rev_ind; intros b post Hok Hi Hl Hr; [by injection Hi as <-|].
  apply Forall_app in Hok as [Hes He]. apply Forall_cons in He as [He _].
  apply image_snoc in Hi as (b1 & b2 & H1 & H2 & ->). pose proof (written_length uoc e b2 He H2).
  rewrite fmap_app, rev_app_distr. cbn [fmap list_fmap rev app yields].
  eexists _, (mkListIterator paths (Some (mkIterator true (Z.of_nat (length b1)) ((b1 ++ b2) ++ post)))).
  unfold WalListIterator.HasNext at 1. cbn [iter_]. unfold WalEntryIterator.HasNext at 1. cbn [is_backward_ off_ andb orb].
  replace (0 <? _) with true by (symmetry; apply Z.ltb_lt; rewrite length_app; lia). cbn [orb].
  split; [done|]. unfold WalListIterator.Next. cbn [iter_ wal_list_]. rewrite <- !app_assoc in *. split.
  - by rewrite (next_backward uoc e b2 b1 post) by done.
  - by apply IH.
Qed.

Definition newest_entries (fs : list crash_file) : list WalEntry := concat (map (fun f => rev (stored uoc <$> good f)) fs).

Lemma yields_files fs f c files :
  Forall (intact uoc files) (f :: fs) -> files !! path f = Some c ->
  yields files (mkListIterator (path <$> f :: fs) (Some (WalEntryIterator.make c true))) (newest_entries (f :: fs)).
Proof.
  revert f c. induction fs as [|g fs IH]; intros f c Hi Hc; apply Forall_cons in Hi as [(b & Him & Hb & Hok & Hl) Hi];
    rewrite Hc in Hb; injection Hb as ->; unfold newest_entries; cbn [map concat]; unfold WalEntryIterator.make;
    rewrite <- (app_nil_r b) in Hl; rewrite <- (app_nil_r b) at 2; apply yields_file; [done..| |done|done|done|]; rewrite app_nil_r in *.
  - cbn. by eexists.
  - apply Forall_cons in Hi as [Hg Hi]. destruct Hg as (bg & Hg).
    apply (yields_ext _ _ (mkListIterator (path <$> (g :: fs)) (Some (WalEntryIterator.make bg true)))).
    + unfold WalListIterator.HasNext at 1. cbn [iter_ wal_list_ fmap list_fmap].
      change (WalEntryIterator.HasNext (mkIterator true 0 b)) with false. cbn [WalListIterator.advance].
      unfold Make. destruct Hg as (_ & -> & _). cbn [res_bind]. reflexivity.
    + apply IH; [constructor; [by exists bg|done]|apply Hg].
Qed.

(** ** Opening the log after a crash *)
Lemma intact_holds files f : intact uoc files f -> tail f = [] -> holds uoc files f.
Proof. intros (bs & H1 & H2 & H3 & H4) Ht. exists bs. rewrite Ht, app_nil_r. auto 6. Qed.

Lemma purge_intact found before fs files :
  Forall (fun f => intact uoc files f /\ tail f = []) fs ->
  WalListIterator.purge uoc found before (path <$> fs) files = Ok (before ++ (path <$> fs), files).
Proof.
  intros H. revert found before. induction H as [|f fs [Hf Ht] _ IH]; intros found before; cbn [WalListIterator.purge fmap list_fmap].
  - rewrite app_nil_r. by destruct found.
  - destruct found; [done|]. destruct Hf as (bs & Hi & Hf). rewrite (scan_file_holds uoc files f bs); [|apply intact_holds; [by exists bs|done]|done].
    cbn [res_bind]. rewrite decide_True by done. rewrite IH. by rewrite <- app_assoc.
Qed.

(** Only the newest file may have a torn tail. The log is cut back to its entries. *)
Lemma make_torn f fs files bs :
  NoDup (path <$> f :: fs) -> holds uoc files f -> image uoc (good f) = Ok bs ->
  Forall (fun f => intact uoc files f /\ tail f = []) fs ->
  exists it files', WalListIterator.make uoc (path <$> f :: fs) files = Ok (it, files') /\
    yields files' it (newest_entries (f :: fs)) /\ (forall p, p <> path f -> files' !! p = files !! p) /\
    (files' !! path f = Some bs \/ good f = [] /\ files' !! path f = None).
Proof.
  intros Hnd Hf Hi Hfs. unfold WalListIterator.make. cbn [fmap list_fmap] in *. apply NoDup_cons in Hnd as [Hn Hnd].
  cbn [WalListIterator.purge]. rewrite (scan_file_holds uoc files f bs) by done. cbn [res_bind].
  destruct Hf as (bs' & Hi' & Hl & Hok & Ht & Hlen). rewrite Hi in Hi'. injection Hi' as <-.
  assert (Hother : forall files', (forall p, p <> path f -> files' !! p = files !! p) ->
            Forall (fun f => intact uoc files' f /\ tail f = []) fs).
  { intros files' He. rewrite Forall_forall in Hfs |- *. intros g Hg. destruct (Hfs g Hg) as [(b & H1 & H2 & H3) H4]. split; [|done].
    exists b. rewrite He; [done|]. intros E. apply Hn. rewrite <- E. apply list_elem_of_fmap. eauto. }
  assert (Hkeep : forall files', (forall p, p <> path f -> files' !! p = files !! p) -> files' !! path f = Some bs ->
            yields files' (mkListIterator (path <$> f :: fs) (Some (WalEntryIterator.make bs true))) (newest_entries (f :: fs))).
  { intros files' He Hb. apply yields_files; [|done]. constructor; [|eapply Forall_impl; [by apply Hother|]; naive_solver].
    exists bs. rewrite length_app in Hlen. split_and!; [done..|lia]. }
  case_decide as Et.
  - rewrite purge_intact by done. cbn [res_bind app]. unfold Make. rewrite Hl, Et, app_nil_r in *. cbn [res_bind].
    eexists _, files. split; [reflexivity|]. split; [by apply Hkeep|]. auto.
  - destruct (_ =? 0) eqn:E0.
    + apply Z.eqb_eq in E0. assert (good f = []) as Hg.
      { pose proof (image_length uoc _ _ Hok Hi). destruct (good f); cbn in *; [done|lia]. }
      assert (He : forall p, p <> path f -> delete (path f) files !! p = files !! p) by (intros; by rewrite lookup_delete_ne).
      rewrite (purge_intact _ [] fs) by by apply Hother. cbn [res_bind app].
      assert (newest_entries (f :: fs) = newest_entries fs) as -> by (unfold newest_entries; cbn [map concat]; by rewrite Hg).
      pose proof (Hother _ He) as Hfs'. destruct fs as [|g fs].
      * eexists _, _. split; [reflexivity|]. split; [by eexists|]. rewrite lookup_delete_eq. auto.
      * apply Forall_cons in Hfs' as [[Hg' Htg] Hfs']. destruct Hg' as (bg & Hg'). cbn [fmap list_fmap]. unfold Make.
        destruct Hg' as (Hgi & Hgl & Hgo). rewrite Hgl. cbn [res_bind]. eexists _, _. split; [reflexivity|].
        split; [|rewrite lookup_delete_eq; auto]. apply (yields_files fs g bg); [|done].
        constructor; [by exists bg|]. eapply Forall_impl; [done|]. naive_solver.
    + assert (He : forall p, p <> path f -> <[path f := bs]> files !! p = files !! p) by (intros; by rewrite lookup_insert_ne).
      rewrite Hl. change (default [] (Some (bs ++ tail f))) with (bs ++ tail f). rewrite Nat2Z.id, take_app_length.
      rewrite (purge_intact _ [path f] fs) by by apply Hother. cbn [res_bind app]. unfold Make. rewrite lookup_insert_eq. cbn [res_bind].
      eexists _, _. split; [reflexivity|]. split; [|split; [done|left; apply lookup_insert_eq]]. apply Hkeep; [done|apply lookup_insert_eq].
Qed.

(** A write that was cut off behind its size is torn. *)
Lemma torn_prefix e bs pre k :
  entry_ok uoc e -> written uoc e = Ok bs -> (4 <= k < length bs)%nat -> Z.of_nat (length pre) < 2 ^ 63 ->
  torn uoc pre (take k bs).
Proof.
  intros Hok Hw Hk Hl. destruct (written_spec uoc e Hok) as (bs' & Hw' & Hlen & (tl & Ht) & _).
  rewrite Hw in Hw'. injection Hw' as <-. pose proof (entry_size_nonneg uoc e Hok). pose proof (ok_size _ _ Hok).
  split.
  - intros E. apply (f_equal length) in E. rewrite length_take in E. cbn in E. lia.
  - eexists. unfold WalEntryIterator.Next. cbn [is_backward_ off_ buf_].
    rewrite (size_at pre (take k bs) _ (entry_size uoc e) (take (k - 4) tl)); [|reflexivity|unfold signed_range; lia|].
    + cbn [res_bind]. rewrite (wrap_id 64 (entry_size uoc e)), wrap_id by (unfold unsigned_range; lia).
      replace (_ <? _) with true by (symmetry; apply Z.ltb_lt; rewrite length_app, length_take; lia). reflexivity.
    + rewrite Ht at 1. rewrite take_app, length_le_encode, take_ge by (rewrite length_le_encode; lia). done.
Qed.

(** ** The phases *)
Import WalManager.

Lemma phase1_found files l a e b cmd acc fuel :
  yields files l (a ++ e :: b) -> Forall (fun x => (IsCheckPoint x None).1 = false) a -> IsCheckPoint e None = (true, Some cmd) ->
  (length a < fuel)%nat ->
  exists l', phase1 uoc fuel files l acc = Ok (Some (Some (e, cmd), acc ++ a, l')) /\ yields files l' b.
Proof.
  intros Hy Ha He. revert l acc fuel Hy. induction Ha as [|x a Hx _ IH]; intros l acc fuel Hy Hf; (destruct fuel as [|fuel]; [cbn in Hf; lia|]);
    cbn [app yields] in Hy; destruct Hy as (l1 & l2 & H1 & H2 & Hy); cbn [phase1]; rewrite H1; cbn [res_bind negb]; rewrite H2; cbn [res_bind].
  - rewrite He, app_nil_r. eauto.
  - destruct (IsCheckPoint x None) as [[] o]; [done|]. destruct (IH l2 (acc ++ [x]) fuel Hy) as (l' & -> & ?); [cbn in Hf; lia|].
    exists l'. by rewrite <- app_assoc.
Qed.

Lemma has_next_again files l l' : WalListIterator.HasNext files l = Ok (false, l') -> WalListIterator.HasNext files l' = Ok (false, l').
Proof.
  unfold WalListIterator.HasNext. destruct (iter_ l) as [it|] eqn:E; [|by intros [= <-]; rewrite E].
  destruct (HasNext it) eqn:Eh; [done|]. clear E. generalize (wal_list_ l). intros ps. revert it Eh. induction ps as [|p ps IH]; intros it Eh; cbn.
  - intros [= <-]. cbn. by rewrite Eh.
  - destruct ps as [|q ps]; [intros [= <-]; cbn; by rewrite Eh|]. destruct (Make files q true) as [it'|]; cbn [res_bind]; [|done].
    destruct (HasNext it') eqn:Eh'; [done|]. by apply IH.
Qed.

Lemma phase1_none files l a acc fuel :
  yields files l a -> Forall (fun x => (IsCheckPoint x None).1 = false) a -> (length a <= fuel)%nat ->
  exists l', phase1 uoc fuel files l acc = Ok (Some (None, acc ++ a, l')) /\ yields files l' [].
Proof.
  intros Hy Ha. revert l acc fuel Hy. induction Ha as [|x a Hx _ IH]; intros l acc fuel Hy Hf; cbn [yields] in Hy.
  - destruct Hy as (l' & H1). exists l'. rewrite app_nil_r. split; [|exists l'; by apply (has_next_again _ l)].
    destruct fuel; cbn [phase1]; by rewrite H1.
  - destruct fuel as [|fuel]; [cbn in Hf; lia|]. destruct Hy as (l1 & l2 & H1 & H2 & Hy). cbn [phase1]. rewrite H1. cbn [res_bind negb].
    rewrite H2. cbn [res_bind]. destruct (IsCheckPoint x None) as [[] o]; [done|].
    destruct (IH l2 (acc ++ [x]) fuel Hy) as (l' & -> & ?); [cbn in Hf; lia|]. exists l'. by rewrite <- app_assoc.
Qed.

Lemma phase2_spec files l a b c acc fuel :
  yields files l (a ++ b) -> Forall (fun x => c < commit_ts_ x) a -> (forall x, head b = Some x -> commit_ts_ x <= c) ->
  (length a < fuel)%nat -> phase2 uoc fuel files l c acc = Ok (Some (acc ++ a)).
Proof.
  intros Hy Ha Hb. revert l acc fuel Hy. induction Ha as [|x a Hx _ IH]; intros l acc fuel Hy Hf; (destruct fuel as [|fuel]; [cbn in Hf; lia|]).
  - rewrite app_nil_r. destruct b as [|y b]; cbn [app yields] in Hy.
    + destruct Hy as (l' & H1). cbn [phase2]. by rewrite H1.
    + destruct Hy as (l1 & l2 & H1 & H2 & _). cbn [phase2]. rewrite H1. cbn [res_bind negb]. rewrite H2. cbn [res_bind].
      replace (_ <? _) with false; [done|]. symmetry. apply Z.ltb_ge. by apply Hb.
  - cbn [app yields] in Hy. destruct Hy as (l1 & l2 & H1 & H2 & Hy). cbn [phase2]. rewrite H1. cbn [res_bind negb]. rewrite H2. cbn [res_bind].
    replace (_ <? _) with true by (symmetry; apply Z.ltb_lt, Hx). rewrite IH; [by rewrite <- app_assoc|done|cbn in Hf; lia].
Qed.

Definition is_ckp_cmd (cmd : WalCmd) : bool := match cmd with WalCmdCheckpoint _ _ _ _ => true | _ => false end.
Definition data_cmds (e : WalEntry) : list WalCmd := filter (fun cmd => is_ckp_cmd cmd = false) (cmds_ e).

Lemma phase3_spec c es last_ts last_id calls :
  Forall (fun e => c <= commit_ts_ e /\ Forall (fun cmd => is_filter_cmd cmd = false) (cmds_ e)) es ->
  phase3 c es last_ts last_id calls =
  Ok (calls ++ concat (data_cmds <$> es), default last_ts (last (commit_ts_ <$> es)), default last_id (last (txn_id_ <$> es))).
Proof.
  intros H. revert last_ts last_id calls. induction H as [|e es [Hc He] _ IH]; intros last_ts last_id calls; cbn [phase3].
  - cbn. by rewrite app_nil_r.
  - replace (_ <? _) with false by (symmetry; by apply Z.ltb_ge). cbn [negb].
    assert (ReplayWalEntry (mkReplayWalOptions false true false) e = Ok (data_cmds e)) as ->.
    { unfold ReplayWalEntry, data_cmds. clear -He. induction He as [|cmd cmds Hc _ IH]; [done|]. cbn [replay_cmds]. rewrite IH, filter_cons.
      destruct cmd; cbn in Hc |- *; done. }
    cbn [res_bind]. rewrite IH. cbn [fmap list_fmap concat]. rewrite <- app_assoc.
    change (list_fmap _ _ ?f es) with (f <$> es). rewrite !last_cons. by destruct (last (commit_ts_ <$> es)), (last (txn_id_ <$> es)).
Qed.
End replay.
