(* ===== verification/WalRuns.v ===== *)
(** * Runs of the log manager

    Histories of the log: transactions are written and acknowledged, files are swapped, checkpoints
    are saved, logged and committed, and the process crashes and starts again. The ghost state is the
    sequence of entries that were ever logged, the acknowledged part of it, and the checkpoints whose
    files were saved. [accepted] is what the callers keep: commit timestamps grow
    (what the transaction manager does is in [TxnHistory]), the entry of a checkpoint holds nothing
    else, comes after the file of the checkpoint, and checkpoints are logged in the order of what they
    contain; after a start, the first entry is not that of a periodic checkpoint. A checkpoint that is
    saved contains at least what the logged ones do. A run goes on after a restart that continues the
    timestamps of the log; [WalDefects] shows the restarts that do not. *)
From stdpp Require Import sorting.
From S2P Require Import Prelude Serialize WalInfo WalCmd WalEntry WalIterator TxnContext LogFile WalManager WalReplay.
Import WalManager.

Section runs.
Context `{P : WalPayload} `{PL : !WalPayloadLaws} `{D : Directory} `{DL : !DirectoryLaws}.
Context (uoc : bool) (wal_dir catalog_dir : string) (threshold interval : Z).
Abbreviation wal_path := (wal_path_ wal_dir).

Record world := mkWorld {
  mgr : WalManager;
  files : gmap string bytes;
  logged : list WalEntry;
  acked : list WalEntry;
  fulls : gset Z;
  deltas : gset Z;
}.
Implicit Types (w : world) (e : WalEntry) (c : Z).

(** ** Entries *)
Definition ckp e : option Z := match cmds_ e with [WalCmdCheckpoint c _ _ _] => Some c | _ => None end.
Definition newest (es : list WalEntry) : option Z := last (omap ckp es).

Definition ordinary e : Prop := Forall (fun cmd => is_ckp_cmd cmd = false /\ is_filter_cmd cmd = false) (cmds_ e).
Definition checkpoints (fulls deltas : gset Z) e (full : bool) c : Prop :=
  cmds_ e = [checkpoint_cmd c full] /\ 0 < c < commit_ts_ e /\ c ∈ (if full then fulls else deltas) /\ exists f, f ∈ fulls /\ f <= c.
Definition entry_valid (fulls deltas : gset Z) e : Prop :=
  entry_ok uoc e /\ cmds_ e <> [] /\ 0 < commit_ts_ e < 2 ^ 63 /\ (ordinary e \/ exists full c, checkpoints fulls deltas e full c).

Definition accepted w (t : Txn) : Prop :=
  let e := wal_entry_ t in
  entry_valid (fulls w) (deltas w) e /\ max_commit_ts_ (mgr w) < commit_ts_ e /\
  wal_size_ (mgr w) + entry_size uoc e < 2 ^ 63 /\
  (forall c, ckp e = Some c -> Forall (fun c' => c' <= c) (omap ckp (logged w))) /\
  (txn_type_ t = kCheckpoint -> 0 < wal_size_ (mgr w)).

(** ** Crashes

    The entries of the files survive, and of the bytes in the stream a prefix, which ends between two
    entries or behind the size of one. A crash may also hit a swap before the new file is created. *)
Inductive crash w (survived : list WalEntry) : gmap string bytes -> Prop :=
| crash_cut pend1 pend2 content b1 b2 partial :
    logged w = survived ++ pend2 -> suffix pend1 survived ->
    files w !! wal_path = Some content -> ofs_ (mgr w) = Some (b1 ++ b2) ->
    image uoc pend1 = Ok b1 -> image uoc pend2 = Ok b2 -> prefix partial b2 ->
    (partial = [] \/ exists e pend2' be, pend2 = e :: pend2' /\ written uoc e = Ok be /\ (4 <= length partial < length be)%nat) ->
    crash w survived (<[wal_path := content ++ b1 ++ partial]> (files w))
| crash_swap :
    logged w = survived -> files w !! wal_path = Some [] -> ofs_ (mgr w) = Some [] -> crash w survived (delete wal_path (files w)).
Definition fits (fs : gmap string bytes) : Prop := forall p content, fs !! p = Some content -> Z.of_nat (length content) < 2 ^ 63.

Definition last_ts (es : list WalEntry) : Z := default 0 (last (commit_ts_ <$> es)).

(** ** Steps *)
Inductive step w : world -> Prop :=
| step_write t m fs :
    accepted w t -> write_txn uoc wal_dir t (mgr w) (files w) = Ok (m, fs) ->
    step w (mkWorld m fs (logged w ++ [wal_entry_ t]) (acked w) (fulls w) (deltas w))
| step_finish b m fs :
    0 < wal_size_ (mgr w) -> finish_batch wal_dir threshold interval (mgr w) (files w) = Ok (b, m, fs) ->
    step w (mkWorld m fs (logged w) (logged w) (fulls w) (deltas w))
| step_full c io str cmd m fs :
    0 < c < 2 ^ 63 -> Forall (fun c' => c' <= c) (omap ckp (logged w)) ->
    FullCheckpointInner catalog_dir c io str (mgr w) (files w) = (Ok cmd, m, fs) ->
    step w (mkWorld m fs (logged w) (acked w) (if cmd is Some _ then {[c]} ∪ fulls w else fulls w) (deltas w))
| step_delta begin_ts c delta cmd m fs :
    0 < c < 2 ^ 63 -> Forall (fun c' => c' < c) (omap ckp (logged w)) ->
    DeltaCheckpointInner catalog_dir begin_ts c delta (mgr w) (files w) = (Ok cmd, m, fs) ->
    step w (mkWorld m fs (logged w) (acked w) (fulls w) (if cmd is Some _ then {[c]} ∪ deltas w else deltas w))
| step_commit e full c fs :
    e ∈ acked w -> cmds_ e = [checkpoint_cmd c full] ->
    (if full then CommitFullCheckpoint wal_dir catalog_dir c (files w) else CommitDeltaCheckpoint wal_dir c (files w)) = Ok fs ->
    step w (mkWorld (mgr w) fs (logged w) (acked w) (fulls w) (deltas w))
| step_restart survived fs fuel plan m fs' :
    crash w survived fs -> fits fs -> is_Some (newest survived) -> (length survived < fuel)%nat ->
    ReplayWalFile uoc wal_dir catalog_dir fuel kWritable WalManager.make fs = Ok (Some (Some plan, m, fs')) ->
    system_start_ts plan = last_ts survived + 1 ->
    step w (mkWorld (Start wal_dir m fs').1 (Start wal_dir m fs').2 survived survived (fulls w) (deltas w)).

(** A new database. *)
Definition empty_dirs (fs : gmap string bytes) : Prop :=
  canonical_wal fs wal_dir [] /\ canonical_full fs catalog_dir [] /\ canonical_delta fs catalog_dir [] /\ fs !! wal_path = None.
Inductive reachable : world -> Prop :=
| reachable_start fs : empty_dirs fs -> reachable (mkWorld (Start wal_dir WalManager.make fs).1 (Start wal_dir WalManager.make fs).2 [] [] ∅ ∅)
| reachable_step w w' : reachable w -> step w w' -> reachable w'.
End runs.
