(* ===== verification/WalInvariant.v ===== *)
(** * The invariant of the log

    The files of the log hold the logged entries in order, less a prefix that the newest checkpoint
    contains; the names of the swapped files bound the timestamps in them; the catalog files that the
    newest checkpoint needs are there. Every step keeps this, except the restart, which is in
    [WalRecovery]. *)
From stdpp Require Import sorting.
From S2P Require Import Prelude Serialize WalInfo WalCmd WalEntry WalIterator TxnContext LogFile WalManager WalReplay WalRuns.
Import WalManager.

Section images.
Context `{P : WalPayload} `{PL : !WalPayloadLaws}.
Context (uoc : bool).

Lemma image_app es1 es2 b1 b2 : image uoc es1 = Ok b1 -> image uoc es2 = Ok b2 -> image uoc (es1 ++ es2) = Ok (b1 ++ b2).
Proof.
  revert b1. induction es1 as [|e es1 IH]; intros b1 H1 H2; [by injection H1 as <-|].
  apply image_cons in H1 as (x & y & Hx & Hy & ->). cbn [app]. apply image_cons. exists x, (y ++ b2).
  split_and!; [done|by apply IH|by rewrite app_assoc].
Qed.
Lemma image_app_inv es1 es2 b : image uoc (es1 ++ es2) = Ok b -> exists b1 b2, image uoc es1 = Ok b1 /\ image uoc es2 = Ok b2 /\ b = b1 ++ b2.
Proof.
  revert b. induction es1 as [|e es1 IH]; intros b H; [by exists [], b|].
  apply image_cons in H as (x & y & Hx & (b1 & b2 & H1 & H2 & ->)%IH & ->). exists (x ++ b1), b2.
  split_and!; [|done|by rewrite app_assoc]. apply image_cons. eauto.
Qed.
Lemma image_nil es : Forall (entry_ok uoc) es -> image uoc es = Ok [] -> es = [].
Proof. intros Hok Hi. pose proof (image_length uoc es [] Hok Hi). destruct es; [done|cbn in *; lia]. Qed.

Lemma suffix_image_inj a b l bs :
  Forall (entry_ok uoc) l -> suffix a l -> suffix b l -> image uoc a = Ok bs -> image uoc b = Ok bs -> a = b.
Proof.
  intros Hok Ha Hb Ia Ib.
  assert (H : forall x y, suffix (x ++ y) l -> image uoc (x ++ y) = image uoc y -> is_Some (match image uoc y with Ok b => Some b | _ => None end) -> x = []).
  { intros x y [k ->] E [c Hc]. destruct (image uoc y) as [cy|] eqn:Ey; [|done].
    apply image_app_inv in E as (b1 & b2 & H1 & H2 & E). rewrite Ey in H2. injection H2 as <-.
    apply Forall_app in Hok as [_ Hok]. apply Forall_app in Hok as [Hok _]. apply image_nil; [done|]. rewrite H1. f_equal.
    apply (f_equal length) in E. rewrite length_app in E. destruct b1; [done|cbn in E; lia]. }
  destruct Ha as [ka Ea], Hb as [kb Eb]. rewrite Ea in Eb. apply app_eq_inv in Eb as [(k & -> & ->)|(k & -> & ->)].
  - rewrite (H k a); [done|exists kb; by rewrite Ea, app_assoc|congruence|]. rewrite Ia. eauto.
  - rewrite (H k b); [done|by exists ka|congruence|]. rewrite Ib. eauto.
Qed.

Lemma last_ts_snoc es e : last_ts (es ++ [e]) = commit_ts_ e.
Proof. unfold last_ts. by rewrite fmap_app, last_app. Qed.
Lemma last_ts_grow (a b : list WalEntry) : StronglySorted Z.lt (commit_ts_ <$> a ++ b) -> Forall (fun e => 0 < commit_ts_ e) (a ++ b) -> last_ts a <= last_ts (a ++ b).
Proof.
  destruct b as [|e b _] using rev_ind; [rewrite app_nil_r; lia|]. rewrite app_assoc, last_ts_snoc, fmap_app. intros Hs Hp.
  destruct a as [|x a _] using rev_ind; [apply Forall_app in Hp as [_ [Hp _]%Forall_cons]; cbn; lia|]. rewrite last_ts_snoc.
  assert (commit_ts_ x < commit_ts_ e); [|lia]. eapply (StronglySorted_app_1_elem_of _ _ [commit_ts_ e]); [exact Hs| |by left].
  apply list_elem_of_fmap. exists x. split; [done|]. set_solver.
Qed.

Lemma fill_buffer_ok e :
  entry_ok uoc e -> Forall (fun c => is_filter_cmd c = false) (cmds_ e) ->
  exists bs, fill_buffer uoc e = Ok bs /\ written uoc e = Ok bs /\ Z.of_nat (length bs) = entry_size uoc e.
Proof.
  intros Hok Hf. destruct (written_spec uoc e Hok) as (bs & Hw & Hl & _). exists bs. split_and!; [|done..].
  pose proof (entry_announced uoc e Hok Hf) as Ha. pose proof (entry_size_nonneg uoc e Hok). unfold fill_buffer, written in *.
  destruct (entry_GetSizeInBytes uoc e) as [n e']. cbn [fst snd] in *. subst n. rewrite Hw. cbn [res_bind]. rewrite Hl.
  replace (0 <=? _) with true by (symmetry; apply Z.leb_le; lia). by rewrite Z.ltb_irrefl, Z.eqb_refl.
Qed.
End images.

Section invariant.
Context `{P : WalPayload} `{PL : !WalPayloadLaws} `{D : Directory} `{DL : !DirectoryLaws}.
Context (uoc : bool) (wal_dir catalog_dir : string) (threshold interval : Z).
Context (Hdirs : wal_dir <> catalog_dir).
Abbreviation wal_path := (wal_path_ wal_dir).
Implicit Types (w : world) (e : WalEntry) (c T : Z) (rot : list (Z * list WalEntry)) (fs : gmap string bytes).

(** ** Parts of the invariant *)
Definition rotated rot : list WalEntry := concat rot.*2.

(** The log files: [rot] are the swapped ones with their timestamps, [cur] the entries of the current one. *)
Record log_files fs rot (cur : list WalEntry) : Prop := {
  lf_cur : exists b, image uoc cur = Ok b /\ fs !! wal_path = Some b;
  lf_rot : Forall (fun p => exists b, image uoc p.2 = Ok b /\ fs !! join wal_dir (WalFile.WalFilename p.1) = Some b) rot;
  lf_dir : canonical_wal fs wal_dir rot.*1;
}.
(** Their names. *)
Record names_ok (max : Z) rot : Prop := {
  nm_sorted : StronglySorted Z.lt rot.*1;
  nm_ts : Forall (fun p => 0 <= p.1 <= max /\ Forall (fun e => commit_ts_ e <= p.1) p.2) rot;
}.
Definition sorted_set (s : gset Z) : list Z := merge_sort Z.le (elements s).
Definition newest_at_least (es : list WalEntry) (x : Z) : Prop := exists c, newest es = Some c /\ x <= c.
(** The catalog files: everything below the full checkpoint [r] may be gone. *)
Definition catalog_files fs (fulls deltas : gset Z) (r : Z) : Prop :=
  canonical_full fs catalog_dir (filter (fun t => r <= t) (sorted_set fulls)) /\
  canonical_delta fs catalog_dir (filter (fun t => r < t) (sorted_set deltas)).

Record inv w (gone : list WalEntry) rot (cur pend : list WalEntry) (r : Z) : Prop := {
  iv_log : logged w = gone ++ rotated rot ++ cur ++ pend;
  iv_valid : Forall (entry_valid uoc (fulls w) (deltas w)) (logged w);
  iv_sorted : StronglySorted Z.lt (commit_ts_ <$> logged w);
  iv_ckps : StronglySorted Z.le (omap ckp (logged w));
  iv_max : Forall (fun e => commit_ts_ e <= max_commit_ts_ (mgr w)) (logged w);
  iv_range : 0 <= max_commit_ts_ (mgr w) < 2 ^ 63;
  iv_size : 0 <= wal_size_ (mgr w);
  iv_run : running_ (mgr w) = true;
  iv_ofs : exists b, image uoc pend = Ok b /\ ofs_ (mgr w) = Some b;
  iv_files : log_files (files w) rot cur;
  iv_names : names_ok (max_commit_ts_ (mgr w)) rot;
  iv_last : Forall (fun T => T = max_commit_ts_ (mgr w) -> T <= last_swap_wal_ts_ (mgr w) \/ wal_size_ (mgr w) = 0) rot.*1;
  iv_latest : max_commit_ts_ (mgr w) = last_ts (logged w);
  iv_reached : Forall (fun T => T <= last_ts (gone ++ rotated rot ++ cur)) rot.*1;
  iv_after : Forall (fun e => Forall (fun T => T < commit_ts_ e) rot.*1) (cur ++ pend);
  iv_gone : Forall (fun e => newest_at_least (gone ++ rotated rot ++ cur) (commit_ts_ e)) gone;
  iv_catalog : catalog_files (files w) (fulls w) (deltas w) r;
  iv_saved : Forall (fun t => 0 < t < 2 ^ 63) (elements (fulls w) ++ elements (deltas w));
  iv_base : r = 0 \/ r ∈ fulls w /\ newest_at_least (gone ++ rotated rot ++ cur) r;
  iv_acked : prefix (acked w) (gone ++ rotated rot ++ cur);
}.

Lemma sorted_set_elem s t : t ∈ sorted_set s <-> t ∈ s.
Proof. unfold sorted_set. by rewrite merge_sort_Permutation, elem_of_elements. Qed.
Lemma sorted_set_nodup s : NoDup (sorted_set s).
Proof. unfold sorted_set. rewrite merge_sort_Permutation. apply NoDup_elements. Qed.
Lemma sorted_set_sorted s : StronglySorted Z.lt (sorted_set s).
Proof.
  pose proof (sorted_set_nodup s) as Hn. pose proof (StronglySorted_merge_sort Z.le (elements s)) as Hs. fold (sorted_set s) in Hs.
  induction Hs as [|x l Hs IH Hx]; constructor; apply NoDup_cons in Hn as [Hn1 Hn2]; [by apply IH|].
  rewrite Forall_forall in Hx |- *. intros y Hy. specialize (Hx y Hy). assert (x <> y) by (intros ->; done). lia.
Qed.

(** ** Names in different directories *)
Lemma wal_path_name n : no_slash n = true -> join wal_dir n = wal_path -> n = WalFile.TempWalFilename.
Proof. intros Hn E. by apply (join_inj wal_dir n wal_dir WalFile.TempWalFilename) in E as [_ ?]. Qed.
Lemma dirs_ne n1 n2 : no_slash n1 = true -> no_slash n2 = true -> join wal_dir n1 <> join catalog_dir n2.
Proof. intros H1 H2 E. by apply join_inj in E as [? _]. Qed.
Lemma wal_path_not_rot T : 0 <= T < 2 ^ 63 -> join wal_dir (WalFile.WalFilename T) <> wal_path.
Proof. intros HT E. apply wal_path_name in E; [by apply (wal_name_fresh T)|apply wal_name_no_slash]. Qed.

(** Writing the current file changes nothing else. *)
Lemma canonical_wal_cur fs l b : canonical_wal fs wal_dir l -> canonical_wal (<[wal_path := b]> fs) wal_dir l.
Proof.
  apply canonical_insert_other. intros n Hn [ts Hc] E. symmetry in E. apply wal_path_name in E as ->; [|done].
  unfold wal_cls in Hc. by rewrite bool_decide_true in Hc.
Qed.
Lemma log_files_cur fs rot cur cur' b :
  Forall (fun p => 0 <= p.1 < 2 ^ 63) rot -> image uoc cur' = Ok b -> log_files fs rot cur -> log_files (<[wal_path := b]> fs) rot cur'.
Proof.
  intros HT Hb [H1 H2 H3]. split.
  - exists b. by rewrite lookup_insert_eq.
  - rewrite Forall_forall in H2, HT |- *. intros p Hp. destruct (H2 p Hp) as (bp & Hi & Hf). exists bp. split; [done|].
    rewrite lookup_insert_ne; [done|]. intros E. symmetry in E. by apply wal_path_not_rot in E; auto.
  - by apply canonical_wal_cur.
Qed.
Lemma catalog_files_ext fs fs' fulls deltas r :
  (forall n, no_slash n = true -> fs' !! join catalog_dir n = fs !! join catalog_dir n) ->
  catalog_files fs fulls deltas r -> catalog_files fs' fulls deltas r.
Proof. intros He [H1 H2]. split; (eapply canonical_ext; [|done]); intros n Hn _; by rewrite He. Qed.
Lemma log_files_ext fs fs' rot cur :
  (forall n, no_slash n = true -> fs' !! join wal_dir n = fs !! join wal_dir n) -> log_files fs rot cur -> log_files fs' rot cur.
Proof.
  intros He [(b & H1 & H1') H2 H3]. split.
  - exists b. split; [done|]. rewrite <- H1'. by apply (He WalFile.TempWalFilename).
  - eapply Forall_impl; [done|]. intros p (bp & Hi & Hf). exists bp. by rewrite He by apply wal_name_no_slash.
  - eapply canonical_ext; [|done]. intros n Hn _. by rewrite He.
Qed.

(** ** Swapping the file *)
Lemma rot_range w gone rot cur pend r : inv w gone rot cur pend r -> Forall (fun p => 0 <= p.1 < 2 ^ 63) rot.
Proof.
  intros Hi. pose proof (iv_range _ _ _ _ _ _ Hi). eapply Forall_impl; [apply (nm_ts _ _ (iv_names _ _ _ _ _ _ Hi))|].
  intros p [? _]. lia.
Qed.
Lemma rotated_snoc rot p : rotated (rot ++ [p]) = rotated rot ++ p.2.
Proof. unfold rotated. rewrite fmap_app, concat_app. cbn. by rewrite app_nil_r. Qed.

Lemma swap_files fs rot cur pend bc bp T :
  image uoc cur = Ok bc -> image uoc pend = Ok bp -> 0 <= T < 2 ^ 63 -> Forall (fun p => 0 <= p.1 < T) rot ->
  log_files fs rot cur ->
  log_files (<[wal_path := []]> (<[join wal_dir (WalFile.WalFilename T) := bc ++ bp]> (delete wal_path (<[wal_path := bc ++ bp]> fs))))
    (rot ++ [(T, cur ++ pend)]) [].
Proof.
  intros Hc Hp HT Hr [H1 H2 H3]. pose proof (wal_path_not_rot T HT) as Hn. split.
  - exists []. by rewrite lookup_insert_eq.
  - apply Forall_app. split.
    + rewrite Forall_forall in H2, Hr |- *. intros p Hin. destruct (H2 p Hin) as (b & Hi & Hf). specialize (Hr p Hin). exists b. split; [done|].
      assert (join wal_dir (WalFile.WalFilename T) <> join wal_dir (WalFile.WalFilename p.1)).
      { intros E. apply join_inj in E as [_ E]; [|apply wal_name_no_slash..]. apply (f_equal WalFile.wal_name) in E.
        rewrite !wal_name_ok in E by lia. injection E. lia. }
      assert (wal_path <> join wal_dir (WalFile.WalFilename p.1)) by (intros E; symmetry in E; apply wal_path_not_rot in E; [done|lia]).
      by rewrite lookup_insert_ne, lookup_insert_ne, lookup_delete_ne, lookup_insert_ne by done.
    + repeat constructor. exists (bc ++ bp). split; [by apply image_app|]. cbn. by rewrite lookup_insert_ne, lookup_insert_eq.
  - apply canonical_wal_cur. rewrite fmap_app. cbn [fmap list_fmap fst].
    apply (canonical_insert _ _ _ _ rot.*1).
    + apply wal_name_no_slash.
    + unfold wal_cls. rewrite bool_decide_false by by apply wal_name_fresh. by apply wal_name_ok.
    + apply NoDup_app. split_and!; [apply H3| |apply NoDup_singleton]. intros t (p & E & Hin)%list_elem_of_fmap E'%list_elem_of_singleton.
      rewrite Forall_forall in Hr. specialize (Hr p Hin). lia.
    + intros t. rewrite elem_of_app, list_elem_of_singleton. done.
    + eapply canonical_ext; [|exact H3]. intros n Hns [ts Hcl].
      assert (wal_path <> join wal_dir n) by (intros E; symmetry in E; apply wal_path_name in E as ->; [|done]; by unfold wal_cls in Hcl; rewrite bool_decide_true in Hcl).
      by rewrite lookup_delete_ne, lookup_insert_ne by done.
Qed.

Lemma newest_grow a b x : StronglySorted Z.le (omap ckp (a ++ b)) -> newest_at_least a x -> newest_at_least (a ++ b) x.
Proof.
  unfold newest_at_least, newest. rewrite omap_app. intros Hs (c & Hc & Hx). rewrite last_app.
  destruct (last (omap ckp b)) as [c'|] eqn:E; [|eauto]. exists c'. split; [done|].
  apply last_Some_elem_of in Hc, E. pose proof (StronglySorted_app_1_elem_of _ _ _ _ _ Hs Hc E). cbn in *. lia.
Qed.

Lemma durable_grow w gone rot cur pend r :
  inv w gone rot cur pend r -> last_ts (gone ++ rotated rot ++ cur) <= last_ts (logged w).
Proof.
  intros []. assert (E : logged w = (gone ++ rotated rot ++ cur) ++ pend) by (rewrite iv_log0; by rewrite <- !app_assoc).
  rewrite E in *. apply last_ts_grow; [done|]. eapply Forall_impl; [exact iv_valid0|]. intros e (_ & _ & ? & _). lia.
Qed.

Lemma flush_inv w gone rot cur pend r :
  inv w gone rot cur pend r ->
  exists fs, ofs_flush wal_dir (mgr w) (files w) = (set_ofs (Some []) (mgr w), fs) /\
    inv (mkWorld (set_ofs (Some []) (mgr w)) fs (logged w) (acked w) (fulls w) (deltas w)) gone rot (cur ++ pend) [] r.
Proof.
  intros Hi. pose proof (rot_range _ _ _ _ _ _ Hi) as Hr. pose proof (durable_grow _ _ _ _ _ _ Hi) as Hg.
  destruct Hi. destruct iv_ofs0 as (bp & Hp & Ho). destruct (lf_cur _ _ _ iv_files0) as (bc & Hc & Hf).
  unfold ofs_flush. rewrite Ho, Hf. eexists. split; [reflexivity|]. split; cbn [mgr files logged acked fulls deltas set_ofs max_commit_ts_ last_swap_wal_ts_ wal_size_ running_ ofs_]; auto.
  - by rewrite app_nil_r.
  - exists []. done.
  - by apply (log_files_cur _ _ cur); [|apply image_app|].
  - rewrite iv_log0 in Hg. eapply Forall_impl; [exact iv_reached0|]. cbn. lia.
  - by rewrite app_nil_r.
  - rewrite iv_log0 in iv_ckps0. eapply Forall_impl; [done|]. intros e He. rewrite !app_assoc in *. by apply newest_grow.
  - eapply catalog_files_ext; [|done]. intros n Hn. apply lookup_insert_ne. by apply (dirs_ne WalFile.TempWalFilename n).
  - destruct iv_base0 as [?|[? He]]; [by left|right; split; [done|]]. rewrite iv_log0 in iv_ckps0. rewrite !app_assoc in *. by apply newest_grow.
  - rewrite !app_assoc in *. by apply prefix_app_r.
Qed.

Lemma swap_inv w gone rot cur pend r :
  inv w gone rot cur pend r -> 0 < wal_size_ (mgr w) ->
  exists m fs rot' cur' pend', SwapWalFile wal_dir (max_commit_ts_ (mgr w)) true (mgr w) (files w) = Ok (m, fs) /\
    inv (mkWorld m fs (logged w) (acked w) (fulls w) (deltas w)) gone rot' cur' pend' r /\ (pend = [] -> pend' = []) /\
    max_commit_ts_ m = max_commit_ts_ (mgr w) /\ wal_size_ m = wal_size_ (mgr w) /\ running_ m = true.
Proof.
  intros Hi Hw. unfold SwapWalFile. destruct (_ <=? _) eqn:Es.
  { exists (mgr w), (files w), rot, cur, pend. split_and!; [done| |done..|apply Hi]. by destruct w. }
  apply Z.leb_gt in Es. pose proof (rot_range _ _ _ _ _ _ Hi) as Hr. pose proof (durable_grow _ _ _ _ _ _ Hi) as Hg. destruct Hi.
  destruct iv_ofs0 as (bp & Hp & Ho). destruct (lf_cur _ _ _ iv_files0) as (bc & Hc & Hf).
  unfold ofs_close, ofs_flush. rewrite Ho, Hf. cbn [default from_option id].
  pose proof (wal_path_not_rot _ iv_range0) as Hn.
  assert (Hlt : Forall (fun p => 0 <= p.1 < max_commit_ts_ (mgr w)) rot).
  { rewrite Forall_forall in iv_last0. rewrite Forall_forall in Hr |- *. intros p Hin. specialize (Hr p Hin). pose proof (nm_ts _ _ iv_names0) as Ht.
    rewrite Forall_forall in Ht. destruct (Ht p Hin) as [? _]. assert (p.1 <> max_commit_ts_ (mgr w)); [|lia]. intros E.
    destruct (iv_last0 p.1) as [?|?]; [apply list_elem_of_fmap; eauto|done|lia..]. }
  assert (Hnew : (<[wal_path := bc ++ bp]> (files w)) !! join wal_dir (WalFile.WalFilename (max_commit_ts_ (mgr w))) = None).
  { rewrite lookup_insert_ne by done. match goal with |- ?x = None => destruct x eqn:E end; [|done]. exfalso.
    destruct (lf_dir _ _ _ iv_files0) as (_ & Hd & _). destruct (Hd (WalFile.WalFilename (max_commit_ts_ (mgr w))) (max_commit_ts_ (mgr w))) as [_ Hin].
    - apply wal_name_no_slash.
    - rewrite E. eauto.
    - unfold wal_cls. rewrite bool_decide_false by by apply wal_name_fresh. by apply wal_name_ok.
    - apply list_elem_of_fmap in Hin as (p & Ep & Hin). rewrite Forall_forall in Hlt. specialize (Hlt p Hin). lia. }
  rewrite Hnew, lookup_insert_eq. cbn [res_bind]. unfold ofs_open. cbn [fst snd].
  rewrite lookup_insert_ne, lookup_delete_eq by done. cbn [default from_option id].
  eexists _, _, (rot ++ [(max_commit_ts_ (mgr w), cur ++ pend)]), [], []. split; [reflexivity|]. split; [|done].
  assert (Hd : gone ++ rotated (rot ++ [(max_commit_ts_ (mgr w), cur ++ pend)]) ++ [] = (gone ++ rotated rot ++ cur) ++ pend).
  { rewrite rotated_snoc. cbn [snd]. by rewrite app_nil_r, <- !app_assoc. }
  assert (He : gone ++ rotated rot ++ cur ++ pend = (gone ++ rotated rot ++ cur) ++ pend) by by rewrite <- !app_assoc.
  split; cbn [mgr files logged acked fulls deltas set_ofs set_swap max_commit_ts_ last_swap_wal_ts_ wal_size_ running_ ofs_]; auto.
  - rewrite iv_log0, rotated_snoc. cbn [snd]. by rewrite !app_nil_r.
  - exists []. done.
  - by apply swap_files.
  - destruct iv_names0 as [H1 H2]. split.
    + rewrite fmap_app. cbn [fmap list_fmap]. apply StronglySorted_app_2; [|done|by repeat constructor].
      intros x y (p & -> & Hin)%list_elem_of_fmap ->%list_elem_of_singleton. rewrite Forall_forall in Hlt. by apply Hlt.
    + apply Forall_app. split; [done|]. repeat constructor; [cbn; lia..|]. cbn [fst snd]. rewrite iv_log0 in iv_max0.
      apply Forall_app in iv_max0 as [_ Hm]. by apply Forall_app in Hm as [_ Hm].
  - rewrite Forall_forall. intros T HT E. left. lia.
  - rewrite fmap_app, Hd. rewrite iv_log0, He in *. apply Forall_app. split; [|apply Forall_singleton; cbn; lia].
    eapply Forall_impl; [exact iv_reached0|]. cbn. lia.
  - rewrite Hd. rewrite iv_log0, He in iv_ckps0. eapply Forall_impl; [done|]. intros e. by apply newest_grow.
  - eapply catalog_files_ext; [|done]. intros n Hns.
    assert (forall n', no_slash n' = true -> join wal_dir n' <> join catalog_dir n) as Hne by (intros; by apply dirs_ne).
    pose proof (Hne WalFile.TempWalFilename eq_refl). pose proof (Hne _ (wal_name_no_slash (max_commit_ts_ (mgr w)))).
    by rewrite lookup_insert_ne, lookup_insert_ne, lookup_delete_ne, lookup_insert_ne by done.
  - rewrite Hd. destruct iv_base0 as [?|[? Hb]]; [by left|right; split; [done|]]. rewrite iv_log0, He in iv_ckps0. by apply newest_grow.
  - rewrite Hd. by apply prefix_app_r.
Qed.

Lemma append_inv w gone rot cur pend r e bs size :
  inv w gone rot cur pend r -> entry_valid uoc (fulls w) (deltas w) e -> max_commit_ts_ (mgr w) < commit_ts_ e ->
  (forall c, ckp e = Some c -> Forall (fun c' => c' <= c) (omap ckp (logged w))) ->
  written uoc e = Ok bs -> 0 < size ->
  inv (mkWorld (set_commit (commit_ts_ e) size (ofs_write bs (mgr w))) (files w) (logged w ++ [e]) (acked w) (fulls w) (deltas w))
    gone rot cur (pend ++ [e]) r.
Proof.
  intros [] Hv Hlt Hc Hb Hs. destruct iv_ofs0 as (bp & Hp & Ho).
  split; cbn [mgr files logged acked fulls deltas set_commit set_ofs ofs_write max_commit_ts_ last_swap_wal_ts_ wal_size_ running_ ofs_]; auto.
  - rewrite iv_log0. by rewrite <- !app_assoc.
  - apply Forall_app. split; [done|by apply Forall_singleton].
  - rewrite fmap_app. apply StronglySorted_app_2; [|done|by repeat constructor].
    intros x y (e' & -> & Hin)%list_elem_of_fmap ->%list_elem_of_singleton. rewrite Forall_forall in iv_max0. specialize (iv_max0 e' Hin). lia.
  - rewrite omap_app. cbn. destruct (ckp e) as [c|] eqn:E; [|by rewrite app_nil_r].
    apply StronglySorted_app_2; [|done|by repeat constructor]. intros x y Hx ->%list_elem_of_singleton.
    specialize (Hc c eq_refl). rewrite Forall_forall in Hc. by apply Hc.
  - apply Forall_app. split; [|by apply Forall_singleton]. eapply Forall_impl; [done|]. cbn. lia.
  - destruct Hv as (_ & _ & ? & _). lia.
  - lia.
  - exists (bp ++ bs). rewrite Ho. split; [|done]. apply image_snoc. eauto.
  - destruct iv_names0 as [H1 H2]. split; [done|]. eapply Forall_impl; [done|]. cbn. intros p [? ?]. split; [lia|done].
  - pose proof (nm_ts _ _ iv_names0) as Ht. rewrite Forall_forall in Ht. rewrite Forall_forall. intros T (p & -> & Hin)%list_elem_of_fmap E.
    destruct (Ht p Hin) as [? _]. lia.
  - by rewrite last_ts_snoc.
  - rewrite app_assoc. apply Forall_app. split; [done|]. apply Forall_singleton. pose proof (nm_ts _ _ iv_names0) as Ht.
    rewrite Forall_forall in Ht. rewrite Forall_forall. intros T (p & -> & Hin)%list_elem_of_fmap. destruct (Ht p Hin) as [? _]. lia.
Qed.

(** ** The steps *)
Lemma valid_no_filter fulls deltas e : entry_valid uoc fulls deltas e -> Forall (fun cmd => is_filter_cmd cmd = false) (cmds_ e).
Proof.
  intros (_ & _ & _ & [Ho|(full & c & -> & _)]); [|by apply Forall_singleton]. eapply Forall_impl; [exact Ho|]. naive_solver.
Qed.

Lemma write_inv w gone rot cur pend r t :
  inv w gone rot cur pend r -> accepted uoc w t ->
  exists m fs rot' cur' pend', write_txn uoc wal_dir t (mgr w) (files w) = Ok (m, fs) /\
    inv (mkWorld m fs (logged w ++ [wal_entry_ t]) (acked w) (fulls w) (deltas w)) gone rot' cur' pend' r /\ 0 < wal_size_ m.
Proof.
  intros Hi (Hv & Hlt & Hsz & Hc & Hk). unfold write_txn. destruct (cmds_ (wal_entry_ t)) as [|cmd cmds] eqn:E; [by destruct Hv as (_ & ? & _)|].
  clear E cmd cmds.
  destruct (fill_buffer_ok uoc (wal_entry_ t)) as (bs & Hb & Hw & Hl); [apply Hv|by eapply valid_no_filter|].
  assert (exists m fs rot' cur' pend', (if bool_decide (txn_type_ t = kCheckpoint) then SwapWalFile wal_dir (max_commit_ts_ (mgr w)) true (mgr w) (files w)
            else Ok (mgr w, files w)) = Ok (m, fs) /\ inv (mkWorld m fs (logged w) (acked w) (fulls w) (deltas w)) gone rot' cur' pend' r /\
            max_commit_ts_ m = max_commit_ts_ (mgr w) /\ wal_size_ m = wal_size_ (mgr w)) as (m & fs & rot' & cur' & pend' & -> & Hi' & Em & Es).
  { case_bool_decide as Ek.
    - destruct (swap_inv _ _ _ _ _ _ Hi (Hk Ek)) as (m & fs & rot' & cur' & pend' & ? & ? & _ & ? & ? & _). by exists m, fs, rot', cur', pend'.
    - exists (mgr w), (files w), rot, cur, pend. split_and!; [done| |done..]. by destruct w. }
  cbn [res_bind]. rewrite Hb. cbn [res_bind]. change (wal_size_ (ofs_write bs m)) with (wal_size_ m). rewrite Es, Hl.
  replace (_ <? 2 ^ 63) with true by (symmetry; by apply Z.ltb_lt). pose proof (entry_size_nonneg uoc (wal_entry_ t) (proj1 Hv)).
  pose proof (iv_size _ _ _ _ _ _ Hi). unfold UpdateCommitState. change (wal_size_ (ofs_write bs m)) with (wal_size_ m). change (max_commit_ts_ (ofs_write bs m)) with (max_commit_ts_ m).
  rewrite Em, Es.
  replace (_ || _) with false by (symmetry; apply orb_false_iff; split; [apply Z.leb_gt|apply Z.ltb_ge]; lia). cbn [negb res_bind].
  eexists _, fs, rot', cur', (pend' ++ [wal_entry_ t]). split; [reflexivity|].
  split; [|cbn; lia].
  apply (append_inv (mkWorld m fs (logged w) (acked w) (fulls w) (deltas w)) gone rot' cur' pend' r (wal_entry_ t) bs); cbn [mgr files logged acked fulls deltas]; [done..|lia|done|done|lia].
Qed.

Lemma inv_mgr w m gone rot cur pend r acked' :
  inv w gone rot cur pend r -> max_commit_ts_ m = max_commit_ts_ (mgr w) -> wal_size_ m = wal_size_ (mgr w) -> running_ m = running_ (mgr w) ->
  ofs_ m = ofs_ (mgr w) -> last_swap_wal_ts_ m = last_swap_wal_ts_ (mgr w) -> prefix acked' (gone ++ rotated rot ++ cur) ->
  inv (mkWorld m (files w) (logged w) acked' (fulls w) (deltas w)) gone rot cur pend r.
Proof. intros [] E1 E2 E3 E4 E5 Ha. split; cbn [mgr files logged acked fulls deltas]; rewrite ?E1, ?E2, ?E3, ?E4, ?E5; auto. Qed.

Lemma finish_inv w gone rot cur pend r :
  inv w gone rot cur pend r -> 0 < wal_size_ (mgr w) ->
  exists b m fs rot' cur', finish_batch wal_dir threshold interval (mgr w) (files w) = Ok (b, m, fs) /\
    inv (mkWorld m fs (logged w) (logged w) (fulls w) (deltas w)) gone rot' cur' [] r.
Proof.
  intros Hi Hs. unfold finish_batch. rewrite (iv_run _ _ _ _ _ _ Hi). cbn [negb].
  destruct (flush_inv _ _ _ _ _ _ Hi) as (fs & -> & Hi1). set (w1 := mkWorld _ _ _ _ _ _) in Hi1.
  destruct (lf_cur _ _ _ (iv_files _ _ _ _ _ _ Hi1)) as (content & _ & Hc). change (files w1) with fs in Hc. rewrite Hc.
  assert (exists m fs' rot' cur', (if threshold <? Z.of_nat (length content) then SwapWalFile wal_dir (max_commit_ts_ (mgr w1)) true (mgr w1) fs
            else Ok (mgr w1, fs)) = Ok (m, fs') /\ inv (mkWorld m fs' (logged w) (acked w) (fulls w) (deltas w)) gone rot' cur' [] r)
    as (m & fs' & rot' & cur' & E & Hi2).
  { destruct (threshold <? _).
    - destruct (swap_inv w1 _ _ _ _ _ Hi1 Hs) as (m & fs' & rot' & cur' & pend' & E & Hi2 & Hp & _). rewrite (Hp eq_refl) in Hi2.
      by exists m, fs', rot', cur'.
    - by exists (mgr w1), fs, rot, (cur ++ pend). }
  change (set_ofs (Some []) (mgr w)) with (mgr w1). rewrite E. cbn [res_bind].
  assert (Hall : forall m', max_commit_ts_ m' = max_commit_ts_ m -> wal_size_ m' = wal_size_ m -> running_ m' = running_ m -> ofs_ m' = ofs_ m ->
            last_swap_wal_ts_ m' = last_swap_wal_ts_ m -> inv (mkWorld m' fs' (logged w) (logged w) (fulls w) (deltas w)) gone rot' cur' [] r).
  { intros m' ? ? ? ? ?. apply (inv_mgr (mkWorld m fs' (logged w) (acked w) (fulls w) (deltas w))); [done..|].
    pose proof (iv_log _ _ _ _ _ _ Hi2) as El. cbn [logged] in El. rewrite El, app_nil_r. done. }
  unfold TrySubmitCheckpointTask. destruct (i64 interval <? _); [destruct (checkpoint_in_progress_ m)|]; eexists _, _, fs', rot', cur'; (split; [reflexivity|]); by apply Hall.
Qed.

(** ** Checkpoint files *)
Lemma entry_valid_mono fulls deltas fulls' deltas' e :
  fulls ⊆ fulls' -> deltas ⊆ deltas' -> entry_valid uoc fulls deltas e -> entry_valid uoc fulls' deltas' e.
Proof.
  intros Hf Hd (H1 & H2 & H3 & H4). do 3 (split; [done|]). destruct H4 as [?|(full & c & E & Hc & Hin & (f & Hfi & Hle))]; [by left|].
  right. exists full, c. do 2 (split; [done|]). split; [destruct full; by auto|]. exists f. auto.
Qed.

(** The files of the catalog have changed and with them what was saved. *)
Lemma saved_inv w m fs fulls' deltas' gone rot cur pend r :
  inv w gone rot cur pend r -> fulls w ⊆ fulls' -> deltas w ⊆ deltas' ->
  max_commit_ts_ m = max_commit_ts_ (mgr w) -> wal_size_ m = wal_size_ (mgr w) -> running_ m = running_ (mgr w) ->
  ofs_ m = ofs_ (mgr w) -> last_swap_wal_ts_ m = last_swap_wal_ts_ (mgr w) ->
  (forall n, no_slash n = true -> fs !! join wal_dir n = files w !! join wal_dir n) -> catalog_files fs fulls' deltas' r ->
  Forall (fun t => 0 < t < 2 ^ 63) (elements fulls' ++ elements deltas') ->
  inv (mkWorld m fs (logged w) (acked w) fulls' deltas') gone rot cur pend r.
Proof.
  intros [] Hf Hd E1 E2 E3 E4 E5 Hw Hc Hs. split; cbn [mgr files logged acked fulls deltas]; rewrite ?E1, ?E2, ?E3, ?E4, ?E5; auto.
  - eapply Forall_impl; [exact iv_valid0|]. intros e. by apply entry_valid_mono.
  - by eapply log_files_ext.
  - destruct iv_base0 as [?|[? ?]]; [by left|right; auto].
Qed.

Lemma base_le w gone rot cur pend r (R : Z -> Z -> Prop) c :
  inv w gone rot cur pend r -> (forall x, x <= 0 -> R x c) -> (forall x y, x <= y -> R y c -> R x c) -> Forall (fun c' => R c' c) (omap ckp (logged w)) -> R r c.
Proof.
  intros [] H0 Hle Hc. destruct iv_base0 as [->|[_ (c' & Hn & Hr)]]; [by apply H0|]. apply (Hle r c' Hr).
  unfold newest in Hn. apply last_Some_elem_of in Hn. rewrite Forall_forall in Hc. apply Hc. rewrite iv_log0.
  rewrite !omap_app in *. set_solver.
Qed.

Lemma full_file_inv w gone rot cur pend r c fs str :
  inv w gone rot cur pend r -> 0 < c < 2 ^ 63 -> Forall (fun c' => c' <= c) (omap ckp (logged w)) ->
  fs = <[join catalog_dir (CatalogFile.FullCheckpointFilename c) := str]> (files w) -> catalog_files fs ({[c]} ∪ fulls w) (deltas w) r.
Proof.
  intros Hi Hc Hle ->. assert (Hr : r <= c) by (apply (base_le w gone rot cur pend r (fun x y => x <= y) c Hi); [lia|lia|done]).
  destruct (iv_catalog _ _ _ _ _ _ Hi) as [H1 H2]. pose proof (full_name_ok c ltac:(lia)) as Hn. split.
  - eapply canonical_insert; [apply full_no_slash|by unfold full_cls; rewrite Hn|apply NoDup_filter, sorted_set_nodup| |exact H1].
    intros t. rewrite !list_elem_of_filter, !sorted_set_elem. set_solver.
  - apply canonical_insert_other; [|done]. intros n Hns [ts Hd] E. apply join_inj in E as [_ <-]; [|apply full_no_slash|done].
    unfold delta_cls in Hd. by rewrite Hn in Hd.
Qed.
Lemma delta_file_inv w gone rot cur pend r c fs str :
  inv w gone rot cur pend r -> 0 < c < 2 ^ 63 -> Forall (fun c' => c' < c) (omap ckp (logged w)) ->
  fs = <[join catalog_dir (CatalogFile.DeltaCheckpointFilename c) := str]> (files w) -> catalog_files fs (fulls w) ({[c]} ∪ deltas w) r.
Proof.
  intros Hi Hc Hle ->. assert (Hr : r < c) by (apply (base_le w gone rot cur pend r (fun x y => x < y) c Hi); [lia|lia|done]).
  destruct (iv_catalog _ _ _ _ _ _ Hi) as [H1 H2]. pose proof (delta_name_ok c ltac:(lia)) as Hn. split.
  - apply canonical_insert_other; [|done]. intros n Hns [ts Hd] E. apply join_inj in E as [_ <-]; [|apply delta_no_slash|done].
    unfold full_cls in Hd. by rewrite Hn in Hd.
  - eapply canonical_insert; [apply delta_no_slash|by unfold delta_cls; rewrite Hn|apply NoDup_filter, sorted_set_nodup| |exact H2].
    intros t. rewrite !list_elem_of_filter, !sorted_set_elem. set_solver.
Qed.

Lemma saved_range (fulls deltas fulls' deltas' : gset Z) c :
  0 < c < 2 ^ 63 -> fulls' ⊆ {[c]} ∪ fulls -> deltas' ⊆ {[c]} ∪ deltas -> Forall (fun t => 0 < t < 2 ^ 63) (elements fulls ++ elements deltas) ->
  Forall (fun t => 0 < t < 2 ^ 63) (elements fulls' ++ elements deltas').
Proof.
  intros Hc Hf Hd Hs. rewrite Forall_forall in Hs |- *. intros t. rewrite elem_of_app, !elem_of_elements. intros Ht.
  assert (t = c \/ t ∈ fulls \/ t ∈ deltas) as [->|Hin] by set_solver; [done|]. apply Hs. rewrite elem_of_app, !elem_of_elements. done.
Qed.

Lemma full_inv w gone rot cur pend r c io str cmd m fs :
  inv w gone rot cur pend r -> 0 < c < 2 ^ 63 -> Forall (fun c' => c' <= c) (omap ckp (logged w)) ->
  FullCheckpointInner catalog_dir c io str (mgr w) (files w) = (Ok cmd, m, fs) ->
  inv (mkWorld m fs (logged w) (acked w) (if cmd is Some _ then {[c]} ∪ fulls w else fulls w) (deltas w)) gone rot cur pend r.
Proof.
  intros Hi Hc Hle. unfold FullCheckpointInner. destruct (c =? _).
  { intros [= <- <- <-]. by apply (saved_inv w); [..|apply Hi|apply Hi]. }
  destruct (_ || _); [done|]. unfold SaveFullCatalog. destruct io as [part|]; intros [= <- <- <-].
  - apply (saved_inv w); [done..| | |apply Hi].
    + intros n Hns. apply lookup_insert_ne. symmetry. apply dirs_ne; [done|apply temp_full_no_slash].
    + destruct (iv_catalog _ _ _ _ _ _ Hi) as [H1 H2]. pose proof (temp_full_name_ok c ltac:(lia)) as Hn.
      split; (apply canonical_insert_other; [|done]); intros n Hns [ts Hd] E; (apply join_inj in E as [_ <-]; [|apply temp_full_no_slash|done]);
        unfold full_cls, delta_cls in Hd; by rewrite Hn in Hd.
  - apply (saved_inv w); [done|set_solver|done..| | |].
    + intros n Hns. apply lookup_insert_ne. symmetry. apply dirs_ne; [done|apply full_no_slash].
    + by eapply full_file_inv.
    + apply (saved_range (fulls w) (deltas w) _ _ c); [done|done|set_solver|apply Hi].
Qed.
Lemma delta_inv w gone rot cur pend r begin_ts c delta cmd m fs :
  inv w gone rot cur pend r -> 0 < c < 2 ^ 63 -> Forall (fun c' => c' < c) (omap ckp (logged w)) ->
  DeltaCheckpointInner catalog_dir begin_ts c delta (mgr w) (files w) = (Ok cmd, m, fs) ->
  inv (mkWorld m fs (logged w) (acked w) (fulls w) (if cmd is Some _ then {[c]} ∪ deltas w else deltas w)) gone rot cur pend r.
Proof.
  intros Hi Hc Hle. unfold DeltaCheckpointInner. destruct (_ =? last_ckp_ts_ _).
  { intros [= <- <- <-]. by apply (saved_inv w); [..|apply Hi|apply Hi]. }
  destruct (_ && _); [done|]. unfold SaveDeltaCatalog. destruct (_ <=? _); cbn [negb].
  { intros [= <- <- <-]. by apply (saved_inv w); [..|apply Hi|apply Hi]. }
  destruct (_ =? _); [done|]. intros [= <- <- <-]. apply (saved_inv w); [done|done|set_solver|done..| | |].
  - intros n Hns. apply lookup_insert_ne. symmetry. apply dirs_ne; [done|apply delta_no_slash].
  - by eapply delta_file_inv.
  - apply (saved_range (fulls w) (deltas w) _ _ c); [done|set_solver|done|apply Hi].
Qed.

(** ** Removing redundant files *)
Lemma rotated_app rot1 rot2 : rotated (rot1 ++ rot2) = rotated rot1 ++ rotated rot2.
Proof. unfold rotated. by rewrite fmap_app, concat_app. Qed.

Lemma recycle_wal_inv w gone rot cur pend r c :
  inv w gone rot cur pend r -> newest_at_least (gone ++ rotated rot ++ cur) c ->
  exists fs gone' rot', WalFile.RecycleWalFile c wal_dir (files w) = Ok fs /\
    inv (mkWorld (mgr w) fs (logged w) (acked w) (fulls w) (deltas w)) gone' rot' cur pend r /\
    gone' ++ rotated rot' ++ cur = gone ++ rotated rot ++ cur /\
    forall n, no_slash n = true -> fs !! join catalog_dir n = files w !! join catalog_dir n.
Proof.
  intros Hi Hc. pose proof (rot_range _ _ _ _ _ _ Hi) as Hr. destruct Hi.
  destruct (RecycleWalFile_spec (files w) wal_dir rot.*1 c (lf_dir _ _ _ iv_files0)) as (fs & E & Hl). rewrite Forall_forall in Hr.
  pose proof (split_sorted fst (fun p => p.1 <= c) (fun p => c < p.1) rot ltac:(intros; cbn; lia) ltac:(intros ? ?; cbn; lia) (nm_sorted _ _ iv_names0)) as Hsp. set (drop := filter (fun p => p.1 <= c) rot) in *. set (keep := filter (fun p => c < p.1) rot) in *.
  assert (Hd : (gone ++ rotated drop) ++ rotated keep ++ cur = gone ++ rotated rot ++ cur) by (rewrite Hsp, rotated_app; by rewrite <- !app_assoc).
  assert (Hdrop : forall p, p ∈ drop -> p ∈ rot /\ p.1 <= c) by (intros p [? ?]%list_elem_of_filter; done).
  assert (Hkeep : forall p, p ∈ keep -> p ∈ rot /\ c < p.1) by (intros p [? ?]%list_elem_of_filter; done).
  assert (Hk : forall p, p ∈ keep -> fs !! join wal_dir (WalFile.WalFilename p.1) = files w !! join wal_dir (WalFile.WalFilename p.1)).
  { intros p [Hin Hgt]%Hkeep. rewrite Hl, decide_False; [done|]. intros (t & (q & -> & Hq)%list_elem_of_fmap & Ht & Ej)%Exists_exists.
    apply wal_path_inj in Ej; auto. lia. }
  exists fs, (gone ++ rotated drop), keep. split; [done|]. split; [|split; [done|]].
  - split; cbn [mgr files logged acked fulls deltas]; auto.
    + rewrite iv_log0, Hsp, rotated_app. by rewrite <- !app_assoc.
    + destruct iv_files0 as [(b & H1 & H1') H2 H3]. split.
      * exists b. split; [done|]. rewrite Hl, decide_False; [done|]. intros (t & (q & -> & Hq)%list_elem_of_fmap & _ & Ej)%Exists_exists.
        symmetry in Ej. by apply wal_path_not_rot in Ej; auto.
      * rewrite Forall_forall in H2 |- *. intros p Hp. rewrite (Hk p Hp). apply H2. by apply Hkeep.
      * eapply canonical_remove; [exact Hl| | |exact H3].
        -- destruct H3 as [Hnd _]. rewrite Hsp, fmap_app in Hnd. by apply NoDup_app in Hnd as (_ & _ & ?).
        -- intros t. rewrite !list_elem_of_fmap. split.
           ++ intros (p & -> & Hp). destruct (Hkeep p Hp) as [Hin Hgt]. split; [eauto|].
              intros (t & (q & -> & Hq)%list_elem_of_fmap & Ht & Ej)%Exists_exists. apply wal_path_inj in Ej; auto. lia.
           ++ intros ((p & -> & Hp) & Hn). exists p. split; [done|]. apply list_elem_of_filter. split; [|done].
              destruct (decide (c < p.1)); [done|]. exfalso. apply Hn. apply Exists_exists. exists p.1. split; [apply list_elem_of_fmap; eauto|]. split; [lia|done].
    + destruct iv_names0 as [H1 H2]. rewrite Hsp in H1, H2. split.
      * rewrite fmap_app in H1. by apply StronglySorted_app_1_r in H1.
      * by apply Forall_app in H2 as [_ H2].
    + rewrite Hsp, fmap_app in iv_last0. by apply Forall_app in iv_last0 as [_ ?].
    + rewrite Hd. rewrite Hsp, fmap_app in iv_reached0 at 1. by apply Forall_app in iv_reached0 as [_ ?].
    + eapply Forall_impl; [exact iv_after0|]. intros e He. rewrite Hsp, fmap_app in He. by apply Forall_app in He as [_ ?].
    + rewrite Hd. apply Forall_app. split; [done|]. rewrite Forall_forall. intros e He. unfold rotated in He.
      apply list_elem_of_In, in_concat in He as (es & Hes & He). apply list_elem_of_In in Hes, He. apply list_elem_of_fmap in Hes as (p & -> & Hp).
      destruct (Hdrop p Hp) as [Hin Hle]. destruct iv_names0 as [_ H2]. rewrite Forall_forall in H2. destruct (H2 p Hin) as [_ H3]. rewrite Forall_forall in H3.
      destruct Hc as (c' & ? & ?). exists c'. split; [done|]. specialize (H3 e He). lia.
    + eapply catalog_files_ext; [|done]. intros n Hn. rewrite Hl, decide_False; [done|].
      intros (t & _ & _ & Ej)%Exists_exists. symmetry in Ej. apply dirs_ne in Ej; [done|apply wal_name_no_slash|done].
    + by rewrite Hd.
    + by rewrite Hd.
  - intros n Hn. rewrite Hl, decide_False; [done|].
    intros (t & _ & _ & Ej)%Exists_exists. symmetry in Ej. apply dirs_ne in Ej; [done|apply wal_name_no_slash|done].
Qed.

Lemma recycle_catalog_inv w gone rot cur pend r c fs :
  inv w gone rot cur pend r -> newest_at_least (gone ++ rotated rot ++ cur) c ->
  CatalogFile.RecycleCatalogFile c catalog_dir (files w) = Ok fs ->
  inv (mkWorld (mgr w) fs (logged w) (acked w) (fulls w) (deltas w)) gone rot cur pend c.
Proof.
  intros Hi Hc E. destruct (iv_catalog _ _ _ _ _ _ Hi) as [H1 H2]. pose proof (RecycleCatalogFile_found _ _ _ _ _ H1 E) as Hin.
  destruct (RecycleCatalogFile_spec _ _ _ _ c H1 H2 Hin) as (fs' & E' & Hl). rewrite E in E'. injection E' as <-.
  apply list_elem_of_filter in Hin as [Hrc Hin%sorted_set_elem]. pose proof (iv_saved _ _ _ _ _ _ Hi) as Hs. rewrite Forall_forall in Hs.
  assert (Rf : forall t, t ∈ fulls w -> 0 <= t < 2 ^ 63) by (intros t Ht; assert (0 < t < 2 ^ 63); [apply Hs, elem_of_app; left; by apply elem_of_elements|lia]).
  assert (Rd : forall t, t ∈ deltas w -> 0 <= t < 2 ^ 63) by (intros t Ht; assert (0 < t < 2 ^ 63); [apply Hs, elem_of_app; right; by apply elem_of_elements|lia]).
  destruct Hi. split; cbn [mgr files logged acked fulls deltas]; auto.
  - eapply log_files_ext; [|done]. intros n Hn. rewrite Hl, decide_False; [done|]. rewrite !Exists_exists.
    intros [(t & _ & _ & Ej)|(t & _ & _ & Ej)]; revert Ej; (apply dirs_ne; [done|]); [apply full_no_slash|apply delta_no_slash].
  - split.
    + eapply canonical_remove; [exact Hl|apply NoDup_filter, sorted_set_nodup| |exact H1]. intros t. rewrite !list_elem_of_filter, !sorted_set_elem, !Exists_exists. split.
      * intros [Hct Ht]. split; [split; [lia|done]|]. intros [(t' & Ht' & Hlt & Ej)|(t' & Ht' & Hle & Ej)].
        -- apply list_elem_of_filter in Ht' as [_ Ht'%sorted_set_elem]. apply full_path_inj in Ej; auto. lia.
        -- apply list_elem_of_filter in Ht' as [_ Ht'%sorted_set_elem]. apply full_delta_path in Ej; auto.
      * intros [[Hrt Ht] Hn]. split; [|done]. destruct (decide (c <= t)); [done|]. exfalso. apply Hn. left. exists t.
        rewrite list_elem_of_filter, sorted_set_elem. split; [done|]. split; [lia|done].
    + eapply canonical_remove; [exact Hl|apply NoDup_filter, sorted_set_nodup| |exact H2]. intros t. rewrite !list_elem_of_filter, !sorted_set_elem, !Exists_exists. split.
      * intros [Hct Ht]. split; [split; [lia|done]|]. intros [(t' & Ht' & Hlt & Ej)|(t' & Ht' & Hle & Ej)].
        -- apply list_elem_of_filter in Ht' as [_ Ht'%sorted_set_elem]. symmetry in Ej. apply full_delta_path in Ej; auto.
        -- apply list_elem_of_filter in Ht' as [_ Ht'%sorted_set_elem]. apply delta_path_inj in Ej; auto. lia.
      * intros [[Hrt Ht] Hn]. split; [|done]. destruct (decide (c < t)); [done|]. exfalso. apply Hn. right. exists t.
        rewrite list_elem_of_filter, sorted_set_elem. split; [done|]. split; [lia|done].
Qed.
End invariant.
