(* ===== verification/WalRecovery.v ===== *)
(** * Recovery: what a restart finds in the log

    The replay of a crashed log under the invariant of [WalInvariant], the restart as a step that
    keeps it, and the theorems on runs. *)
From stdpp Require Import sorting.
From S2P Require Import Prelude Serialize WalInfo WalCmd WalEntry WalIterator TxnContext LogFile WalManager WalReplay WalRuns WalInvariant.
Import WalManager.

Section recovery.
Context `{P : WalPayload} `{PL : !WalPayloadLaws} `{D : Directory} `{DL : !DirectoryLaws}.
Context (uoc : bool) (wal_dir catalog_dir : string) (threshold interval : Z).
Context (Hdirs : wal_dir <> catalog_dir).
Abbreviation wal_path := (wal_path_ wal_dir).
Abbreviation inv := (inv uoc wal_dir catalog_dir).
Implicit Types (w : world) (e : WalEntry) (c T : Z) (rot : list (Z * list WalEntry)) (fs : gmap string bytes).

(** ** Entries as they are read back *)
Lemma stored_spec e : entry_ok uoc e ->
  commit_ts_ (stored uoc e) = commit_ts_ e /\ txn_id_ (stored uoc e) = txn_id_ e /\ cmds_ (stored uoc e) = canon uoc <$> cmds_ e.
Proof. intros Hok. unfold stored. destruct (written_spec uoc e Hok) as (bs & -> & _). done. Qed.
Lemma canon_kind cmd : is_ckp_cmd (canon uoc cmd) = is_ckp_cmd cmd /\ is_filter_cmd (canon uoc cmd) = is_filter_cmd cmd.
Proof. by destruct cmd. Qed.
Lemma data_stored e : entry_ok uoc e -> data_cmds (stored uoc e) = canon uoc <$> data_cmds e.
Proof.
  intros Hok. unfold data_cmds. destruct (stored_spec e Hok) as (_ & _ & ->). induction (cmds_ e) as [|cmd cmds IH]; [done|].
  cbn [fmap list_fmap]. rewrite !filter_cons. destruct (canon_kind cmd) as [-> _]. case_decide; cbn; by rewrite IH.
Qed.
Lemma ordinary_not_ckp e : entry_ok uoc e -> ordinary e -> (IsCheckPoint (stored uoc e) None).1 = false /\ ckp e = None.
Proof.
  intros Hok Ho. split.
  - unfold IsCheckPoint. destruct (stored_spec e Hok) as (_ & _ & ->).
    assert (foldl checkpoint_step (0, None) (canon uoc <$> cmds_ e) = (0, None)) as ->; [|done].
    induction Ho as [|cmd cmds [Hc _] _ IH]; [done|]. cbn [fmap list_fmap foldl]. assert (checkpoint_step (0, None) (canon uoc cmd) = (0, None)) as ->; [|done].
    by destruct cmd.
  - unfold ckp, ordinary in *. destruct (cmds_ e) as [|cmd cmds]; [done|]. apply Forall_cons in Ho as [[Hc _] _]. by destruct cmd, cmds.
Qed.
Lemma valid_ckp fulls deltas e c : entry_valid uoc fulls deltas e -> ckp e = Some c ->
  (exists full, IsCheckPoint (stored uoc e) None = (true, Some (checkpoint_cmd c full))) /\ u64 c = c /\ c < commit_ts_ e /\
  data_cmds e = [] /\ exists f, f ∈ fulls /\ f <= c.
Proof.
  intros (Hok & _ & Hts & Hk) Hc. destruct Hk as [Ho|(full & c' & E & Hr & _ & Hf)]; [by rewrite (proj2 (ordinary_not_ckp e Hok Ho)) in Hc|].
  unfold ckp in Hc. rewrite E in Hc. injection Hc as ->. assert (u64 c = c) as Hu by (apply u64_id; lia). split_and!; [|done|lia| |done].
  - exists full. unfold IsCheckPoint. destruct (stored_spec e Hok) as (_ & _ & ->). rewrite E. cbn. rewrite Hu.
    replace (0 <? c) with true by (symmetry; apply Z.ltb_lt; lia). replace (c =? 0) with false by (symmetry; apply Z.eqb_neq; lia). done.
  - unfold data_cmds. by rewrite E.
Qed.
Lemma valid_not_ckp fulls deltas e : entry_valid uoc fulls deltas e -> ckp e = None -> (IsCheckPoint (stored uoc e) None).1 = false.
Proof.
  intros (Hok & _ & _ & [Ho|(full & c & E & _)]) Hc; [by apply ordinary_not_ckp|]. unfold ckp in Hc. by rewrite E in Hc.
Qed.

Lemma newest_split es c : newest es = Some c -> exists a ck b, es = a ++ ck :: b /\ ckp ck = Some c /\ Forall (fun e => ckp e = None) b.
Proof.
  unfold newest. induction es as [|e es IH] using rev_ind; [done|]. rewrite omap_app. cbn. destruct (ckp e) as [c'|] eqn:E.
  - rewrite last_snoc. intros [= ->]. exists es, e, []. done.
  - rewrite app_nil_r. intros (a & ck & b & -> & Hc & Hb)%IH. exists a, ck, (b ++ [e]). split_and!; [by rewrite <- app_assoc|done|].
    apply Forall_app. split; [done|by apply Forall_singleton].
Qed.
Lemma newest_none es : newest es = None -> Forall (fun e => ckp e = None) es.
Proof.
  unfold newest. induction es as [|e es IH]; intros H; constructor; cbn in H.
  - destruct (ckp e); [|done]. rewrite last_cons in H. by destruct (last (omap ckp es)).
  - apply IH. destruct (ckp e); [|done]. rewrite last_cons in H. by destruct (last (omap ckp es)).
Qed.

(** ** The files after a crash *)
Definition rot_files rot : list crash_file := (fun p => mkCrashFile (join wal_dir (WalFile.WalFilename p.1)) p.2 []) <$> reverse rot.

Lemma newest_rot_files rot : newest_entries uoc (rot_files rot) = rev (stored uoc <$> rotated rot).
Proof.
  induction rot as [|p rot IH] using rev_ind; [done|].
  assert (rot_files (rot ++ [p]) = mkCrashFile (join wal_dir (WalFile.WalFilename p.1)) p.2 [] :: rot_files rot) as ->
    by (unfold rot_files; by rewrite reverse_snoc).
  rewrite rotated_snoc, fmap_app, rev_app_distr, <- IH. done.
Qed.

Lemma wal_list_spec fs rot :
  canonical_wal fs wal_dir rot.*1 -> StronglySorted Z.lt rot.*1 ->
  wal_list wal_dir fs = Ok (option_list (if bool_decide (is_Some (fs !! wal_path)) then Some wal_path else None) ++ (path <$> rot_files rot)).
Proof.
  intros Hc Hs. unfold wal_list. rewrite ParseWalFilenames_spec. cbn [res_bind]. do 2 f_equal.
  rewrite (sorted_infos wal_cls WalFile.WalFilename fs wal_dir (reverse rot.*1) newer).
  - unfold rot_files. rewrite <- fmap_reverse, <- !list_fmap_compose. done.
  - unfold newer. lia.
  - destruct Hc as (H1 & H2 & H3). split_and!; [by rewrite reverse_Permutation|..].
    + intros n ts Hn Hf Ht. destruct (H2 n ts Hn Hf Ht). split; [done|]. by rewrite elem_of_reverse.
    + intros ts. rewrite elem_of_reverse. apply H3.
  - rewrite fmap_reverse. by apply sorted_newer.
Qed.

Lemma crash_spec w gone rot cur pend r survived fs :
  inv w gone rot cur pend r -> crash uoc wal_dir w survived fs -> fits fs ->
  exists pend1 b, survived = gone ++ rotated rot ++ cur ++ pend1 /\ prefix survived (logged w) /\ image uoc (cur ++ pend1) = Ok b /\
    (forall p, p <> wal_path -> fs !! p = files w !! p) /\
    ((exists partial, fs !! wal_path = Some (b ++ partial) /\ holds uoc fs (mkCrashFile wal_path (cur ++ pend1) partial)) \/
     fs !! wal_path = None /\ cur ++ pend1 = []).
Proof.
  intros Hi Hcr Hfit. pose proof (iv_valid _ _ _ _ _ _ _ _ _ Hi) as Hv. destruct (iv_ofs _ _ _ _ _ _ _ _ _ Hi) as (bp & Hp & Ho).
  destruct (lf_cur _ _ _ _ _ (iv_files _ _ _ _ _ _ _ _ _ Hi)) as (bc & Hc & Hf). pose proof (iv_log _ _ _ _ _ _ _ _ _ Hi) as Hl.
  assert (Hok : Forall (entry_ok uoc) (logged w)) by (eapply Forall_impl; [exact Hv|]; intros e He; apply He).
  destruct Hcr as [pend1 pend2 content b1 b2 partial El [k Ek] Hf' Ho' H1 H2 Hpre Hpart|El Hf' Ho'].
  - rewrite Hf in Hf'. injection Hf' as <-. rewrite Ho in Ho'. injection Ho' as ->.
    assert (pend1 ++ pend2 = pend) as <-.
    { apply (suffix_image_inj uoc _ _ (logged w) (b1 ++ b2)); [done|exists k; by rewrite El, Ek, <- app_assoc| |by apply image_app|done].
      exists (gone ++ rotated rot ++ cur). rewrite Hl. by rewrite <- !app_assoc. }
    assert (Es : survived = gone ++ rotated rot ++ cur ++ pend1).
    { apply (app_inv_tail pend2). rewrite <- El, Hl. by rewrite <- !app_assoc. }
    exists pend1, (bc ++ b1). pose proof (image_app uoc _ _ _ _ Hc H1) as Him.
    assert (Hlook : (<[wal_path := bc ++ b1 ++ partial]> (files w)) !! wal_path = Some ((bc ++ b1) ++ partial)) by by rewrite lookup_insert_eq, app_assoc.
    split_and!; [done|by exists pend2|done|intros p Hne; by rewrite lookup_insert_ne|]. left. exists partial. split; [done|].
    exists (bc ++ b1). cbn [good path tail]. rewrite Hl in Hok. rewrite !app_assoc in Hok. apply Forall_app in Hok as [Hok Hok2].
    specialize (Hfit _ _ Hlook). split_and!; [done|done| | |done].
    + rewrite <- !app_assoc in Hok. by apply Forall_app in Hok as [_ [_ ?]%Forall_app].
    + destruct Hpart as [->|(e & pend2' & be & -> & Hbe & Hlen)]; [by left|right].
      apply image_cons in H2 as (be' & rest & Hbe' & _ & ->). rewrite Hbe in Hbe'. injection Hbe' as <-.
      remember (length partial) as k' eqn:Hk'. assert (partial = take k' be) as ->.
      { destruct Hpre as [rest' E]. apply (f_equal (take k')) in E. rewrite Hk', take_app_length, take_app_le in E by lia. by rewrite <- Hk' in E. }
      apply (torn_prefix uoc e be); [by apply Forall_cons in Hok2 as [? _]|done|lia|]. rewrite length_app in Hfit. lia.
  - rewrite Hf in Hf'. injection Hf' as ->. rewrite Ho in Ho'. injection Ho' as ->.
    rewrite Hl in Hok. apply Forall_app in Hok as [_ [_ [Hok1 Hok2]%Forall_app]%Forall_app].
    apply (image_nil uoc) in Hc as ->, Hp as ->; [|done..]. exists [], []. subst survived. rewrite Hl. split_and!; [done..| |].
    + intros p Hne. by rewrite lookup_delete_ne.
    + right. by rewrite lookup_delete_eq.
Qed.

Lemma rot_files_intact w gone rot cur pend r fs :
  inv w gone rot cur pend r -> (forall p, p <> wal_path -> fs !! p = files w !! p) -> fits fs ->
  Forall (fun f => intact uoc fs f /\ tail f = []) (rot_files rot).
Proof.
  intros Hi He Hfit. pose proof (rot_range _ _ _ _ _ _ _ _ _ Hi) as Hr. pose proof (iv_valid _ _ _ _ _ _ _ _ _ Hi) as Hv.
  pose proof (lf_rot _ _ _ _ _ (iv_files _ _ _ _ _ _ _ _ _ Hi)) as Hf. rewrite (iv_log _ _ _ _ _ _ _ _ _ Hi) in Hv.
  apply Forall_app in Hv as [_ [Hv _]%Forall_app]. unfold rot_files. apply Forall_fmap. rewrite Forall_forall in Hr, Hf. rewrite Forall_forall in Hv.
  rewrite Forall_forall. intros p Hp. rewrite elem_of_reverse in Hp. destruct (Hf p Hp) as (b & Him & Hl). split; [|done]. exists b. cbn [good path].
  rewrite He by by apply wal_path_not_rot, Hr. split_and!; [done|done| |].
  - rewrite Forall_forall. intros e He'. apply Hv. unfold rotated. apply list_elem_of_In, in_concat. exists p.2.
    split; apply list_elem_of_In; [apply list_elem_of_fmap; eauto|done].
  - apply (Hfit (join wal_dir (WalFile.WalFilename p.1))). rewrite He; [done|]. by apply wal_path_not_rot, Hr.
Qed.

(** Opening the log gives the surviving entries from the newest to the oldest and cuts the torn tail. *)
Lemma open_spec w gone rot cur pend r survived fs :
  inv w gone rot cur pend r -> crash uoc wal_dir w survived fs -> fits fs ->
  exists pend1 b list, survived = gone ++ rotated rot ++ cur ++ pend1 /\ prefix survived (logged w) /\ image uoc (cur ++ pend1) = Ok b /\
    wal_list wal_dir fs = Ok list /\ (list = [] -> rotated rot ++ cur ++ pend1 = []) /\
    exists it fs', WalListIterator.make uoc list fs = Ok (it, fs') /\ yields uoc fs' it (rev (stored uoc <$> (rotated rot ++ cur ++ pend1))) /\
      (forall p, p <> wal_path -> fs' !! p = files w !! p) /\
      (fs' !! wal_path = Some b \/ cur ++ pend1 = [] /\ fs' !! wal_path = None).
Proof.
  intros Hi Hcr Hfit. destruct (crash_spec _ _ _ _ _ _ _ _ Hi Hcr Hfit) as (pend1 & b & Es & Hpre & Him & He & Hcase).
  pose proof (rot_files_intact _ _ _ _ _ _ _ Hi He Hfit) as Hint. pose proof (rot_range _ _ _ _ _ _ _ _ _ Hi) as Hr. rewrite Forall_forall in Hr.
  pose proof (nm_sorted _ _ (iv_names _ _ _ _ _ _ _ _ _ Hi)) as Hs.
  assert (Hcan : canonical_wal fs wal_dir rot.*1).
  { eapply canonical_ext; [|apply (lf_dir _ _ _ _ _ (iv_files _ _ _ _ _ _ _ _ _ Hi))]. intros n Hn [ts Hc]. rewrite He; [done|].
    intros E. apply wal_path_name in E as ->; [|done]. by unfold wal_cls in Hc; rewrite bool_decide_true in Hc. }
  assert (Hnd : NoDup (path <$> rot_files rot)).
  { unfold rot_files. rewrite <- list_fmap_compose. apply (NoDup_fmap_2_strong (fun p : Z * list WalEntry => join wal_dir (WalFile.WalFilename p.1))).
    - intros p q Hp Hq E. rewrite elem_of_reverse in Hp, Hq. apply wal_path_inj in E; [|by apply Hr..].
      destruct Hcan as [Hnd _]. apply list_elem_of_lookup_1 in Hp as [i Hpi]. apply list_elem_of_lookup_1 in Hq as [j Hqj].
      assert (i = j) as ->; [|congruence]. eapply (NoDup_lookup rot.*1); [done|by rewrite list_lookup_fmap, Hpi|by rewrite list_lookup_fmap, Hqj, E].
    - rewrite reverse_Permutation. destruct Hcan as [Hnd _]. by apply NoDup_fmap_1 in Hnd. }
  exists pend1, b. rewrite (wal_list_spec fs rot Hcan Hs). destruct Hcase as [(partial & Hlook & Hh)|[Hlook Hempty]].
  - rewrite bool_decide_true by (rewrite Hlook; eauto). eexists. do 4 (split; [done|]). split; [done|].
    destruct (make_torn uoc (mkCrashFile wal_path (cur ++ pend1) partial) (rot_files rot) fs b) as (it & fs' & E & Hy & Ho & Hc); [|done..|].
    + cbn [fmap list_fmap path]. apply NoDup_cons. split; [|done]. intros (f & E & (p & -> & Hp)%list_elem_of_fmap)%list_elem_of_fmap. rewrite elem_of_reverse in Hp.
      symmetry in E. by apply wal_path_not_rot in E; [|apply Hr].
    + exists it, fs'. split; [done|]. split; [|split].
      * unfold newest_entries in Hy. cbn [map concat good] in Hy. change (concat _) with (newest_entries uoc (rot_files rot)) in Hy.
        by rewrite newest_rot_files, <- rev_app_distr, <- fmap_app in Hy.
      * intros p Hp. rewrite Ho by done. by apply He.
      * cbn [path good] in Hc. done.
  - rewrite bool_decide_false by (rewrite Hlook; by intros []). eexists. do 4 (split; [done|]). rewrite Hempty, app_nil_r. change (option_list None ++ ?l) with l.
    split; [intros E; apply fmap_nil_inv, fmap_nil_inv in E; by rewrite <- (reverse_involutive rot), E|].
    exists match rot_files rot with [] => mkListIterator [] None
           | f :: _ => mkListIterator (path <$> rot_files rot) (Some (WalEntryIterator.make (default [] (fs !! path f)) true)) end, fs.
    rewrite <- newest_rot_files. unfold WalListIterator.make. rewrite purge_intact by done. cbn [res_bind app]. destruct (rot_files rot) as [|f l] eqn:E.
    + split; [done|]. split; [by eexists|]. auto.
    + apply Forall_cons in Hint as [[(bf & H1 & H2 & H3) Ht] Hint]. cbn [fmap list_fmap]. unfold WalEntryIterator.Make. rewrite H2. cbn [res_bind default from_option id].
      split; [done|]. split; [|auto]. apply (yields_files uoc l f bf); [|done]. constructor; [by exists bf|]. eapply Forall_impl; [exact Hint|]. naive_solver.
Qed.

(** ** What is replayed *)
Lemma gone_le w gone rot cur pend r pend1 c e :
  inv w gone rot cur pend r -> prefix (gone ++ rotated rot ++ cur ++ pend1) (logged w) -> newest (gone ++ rotated rot ++ cur ++ pend1) = Some c ->
  e ∈ gone -> commit_ts_ e <= c.
Proof.
  intros Hi [lost Hl] Hn He. pose proof (iv_gone _ _ _ _ _ _ _ _ _ Hi) as Hg. rewrite Forall_forall in Hg. specialize (Hg e He).
  pose proof (iv_ckps _ _ _ _ _ _ _ _ _ Hi) as Hc. rewrite Hl, omap_app in Hc. apply StronglySorted_app_1_l in Hc.
  assert (E : gone ++ rotated rot ++ cur ++ pend1 = (gone ++ rotated rot ++ cur) ++ pend1) by by rewrite <- !app_assoc.
  rewrite E in *. apply (newest_grow _ pend1) in Hg as (c' & Hc' & ?); [|done]. rewrite Hn in Hc'. injection Hc' as <-. done.
Qed.

(** The newest checkpoint among the survivors, the entries [a1] it contains and the others. *)
Lemma survivors w gone rot cur pend r pend1 c :
  inv w gone rot cur pend r -> prefix (gone ++ rotated rot ++ cur ++ pend1) (logged w) -> newest (gone ++ rotated rot ++ cur ++ pend1) = Some c ->
  exists a1 a2 ck b, rotated rot ++ cur ++ pend1 = a1 ++ a2 ++ ck :: b /\ ckp ck = Some c /\ Forall (fun e => ckp e = None) b /\
    Forall (fun e => commit_ts_ e <= c) a1 /\ Forall (fun e => c < commit_ts_ e) (a2 ++ ck :: b) /\
    filter (fun e => c < commit_ts_ e) (gone ++ rotated rot ++ cur ++ pend1) = a2 ++ ck :: b.
Proof.
  intros Hi Hpre Hn. assert (Hgone : forall x, x ∈ gone -> commit_ts_ x <= c) by (intros x; by apply (gone_le w gone rot cur pend r pend1)). destruct Hpre as [lost Hl].
  pose proof (iv_valid _ _ _ _ _ _ _ _ _ Hi) as Hv. pose proof (iv_sorted _ _ _ _ _ _ _ _ _ Hi) as Hs. rewrite Hl in Hv, Hs.
  apply Forall_app in Hv as [Hv _]. rewrite fmap_app in Hs. apply StronglySorted_app_1_l in Hs.
  set (R := rotated rot ++ cur ++ pend1) in *. destruct (newest_split _ _ Hn) as (a & ck & b & E & Hck & Hb).
  assert (Hlt : c < commit_ts_ ck).
  { rewrite E in Hv. apply Forall_app in Hv as [_ [Hv _]%Forall_cons]. by apply (valid_ckp _ _ _ _ Hv Hck). }
  assert (exists a', R = a' ++ ck :: b) as [a' ER].
  { apply app_eq_inv in E as [(k & -> & Ek)|(k & Ek & ->)]; [|eauto]. destruct k as [|ck' k]; [by exists []|]. cbn in Ek. injection Ek as <- _.
    exfalso. specialize (Hgone ck ltac:(set_solver)). lia. }
  assert (HsR : StronglySorted Z.lt (commit_ts_ <$> R)) by (rewrite fmap_app in Hs; by apply StronglySorted_app_1_r in Hs).
  assert (Hafter : Forall (fun e => c < commit_ts_ e) (ck :: b)).
  { constructor; [done|]. rewrite ER, fmap_app in HsR. apply StronglySorted_app_1_r in HsR. cbn in HsR. apply StronglySorted_inv in HsR as [_ Hx].
    rewrite Forall_forall in Hx. rewrite Forall_forall. intros x Hin. assert (commit_ts_ ck < commit_ts_ x); [|lia]. apply Hx, list_elem_of_fmap. eauto. }
  rewrite ER, fmap_app in HsR. apply StronglySorted_app_1_l in HsR. pose proof (split_sorted commit_ts_ (fun e => commit_ts_ e <= c) (fun e => c < commit_ts_ e) a' ltac:(intros; cbn; lia) ltac:(intros ? ?; cbn; lia) HsR) as Ea.
  exists (filter (fun e => commit_ts_ e <= c) a'), (filter (fun e => c < commit_ts_ e) a'), ck, b. rewrite Forall_forall in Hafter. split_and!.
  - rewrite ER, Ea at 1. by rewrite <- app_assoc.
  - done.
  - done.
  - rewrite Forall_forall. intros x [? _]%list_elem_of_filter. done.
  - apply Forall_app. split; rewrite Forall_forall; [intros x [? _]%list_elem_of_filter; done|done].
  - rewrite filter_app, (filter_none _ gone) by (apply Forall_forall; intros x Hx; specialize (Hgone x Hx); lia). cbn [app].
    rewrite ER, filter_app. f_equal. apply filter_all, Forall_forall. done.
Qed.

Lemma attached_base fulls deltas r c :
  Forall (fun t => 0 < t < 2 ^ 63) (elements fulls ++ elements deltas) -> r = 0 \/ r ∈ fulls /\ r <= c -> (exists f, f ∈ fulls /\ f <= c) ->
  attached catalog_dir (filter (fun t => r <= t) (sorted_set fulls)) (filter (fun t => r < t) (sorted_set deltas)) c =
    attached catalog_dir (sorted_set fulls) (sorted_set deltas) c /\ is_Some (attached catalog_dir (sorted_set fulls) (sorted_set deltas) c).
Proof.
  intros Hs Hr (f0 & Hf0 & Hle0). rewrite Forall_forall in Hs. unfold attached.
  assert (Hsome : is_Some (last (filter (fun t => t <= c) (sorted_set fulls)))).
  { apply last_is_Some. intros E. assert (f0 ∈ filter (fun t => t <= c) (sorted_set fulls)) by (rewrite list_elem_of_filter, sorted_set_elem; done). rewrite E in H. by apply elem_of_nil in H. }
  assert (Hpos : forall t, t ∈ fulls \/ t ∈ deltas -> 0 < t) by (intros t Ht; apply Hs; rewrite elem_of_app, !elem_of_elements; done).
  destruct Hsome as [f Hf]. rewrite Hf. assert (Hlast : last (filter (fun t => t <= c) (filter (fun t => r <= t) (sorted_set fulls))) = Some f /\ r <= f).
  { destruct Hr as [->|[Hin Hrc]].
    - rewrite (filter_all (fun t => 0 <= t)); [|apply Forall_forall; intros t Ht%sorted_set_elem; assert (0 < t) by (apply Hpos; by left); lia]. split; [done|].
      apply last_Some_elem_of in Hf. rewrite list_elem_of_filter, sorted_set_elem in Hf.
      assert (0 < f) by (apply Hpos; left; apply Hf). lia.
    - pose proof (sorted_set_sorted fulls) as Hss. assert (sorted_set fulls = filter (fun t => t < r) (sorted_set fulls) ++ filter (fun t => r <= t) (sorted_set fulls)) as Hsp.
      { apply (split_sorted id); [lia|cbn; lia|by rewrite list_fmap_id]. }
      assert (is_Some (last (filter (fun t => t <= c) (filter (fun t => r <= t) (sorted_set fulls))))) as [f' Hf'].
      { apply last_is_Some. intros E. assert (r ∈ filter (fun t => t <= c) (filter (fun t => r <= t) (sorted_set fulls))) as Hx
          by (rewrite !list_elem_of_filter, sorted_set_elem; done). rewrite E in Hx. by apply elem_of_nil in Hx. }
      rewrite Hsp, filter_app, last_app, Hf' in Hf. injection Hf as <-. split; [done|]. apply last_Some_elem_of in Hf'. rewrite !list_elem_of_filter in Hf'. apply Hf'. }
  destruct Hlast as [-> Hrf]. split; [|eauto]. do 3 f_equal. apply list_filter_filter_l. lia.
Qed.

Abbreviation replay := (ReplayWalFile uoc wal_dir catalog_dir).

(** A replay of surviving entries with the newest checkpoint [c]. *)
Record replays w (survived : list WalEntry) c (plan : Replay) : Prop := {
  rp_attach : attached catalog_dir (sorted_set (fulls w)) (sorted_set (deltas w)) c = Some (attach plan);
  rp_calls : calls plan = canon uoc <$> concat (data_cmds <$> filter (fun e => c < commit_ts_ e) survived);
  rp_start : exists a ck b, filter (fun e => c < commit_ts_ e) survived = a ++ ck :: b /\ ckp ck = Some c /\ Forall (fun e => ckp e = None) b /\
    system_start_ts plan = default (commit_ts_ ck) (last (commit_ts_ <$> a ++ b)) + 1;
}.

Lemma phases_spec fs it fulls deltas a1 a2 ck d c fuel :
  yields uoc fs it (rev (stored uoc <$> a1 ++ a2 ++ ck :: d)) -> Forall (entry_valid uoc fulls deltas) (a1 ++ a2 ++ ck :: d) ->
  ckp ck = Some c -> Forall (fun e => ckp e = None) d -> Forall (fun e => commit_ts_ e <= c) a1 -> Forall (fun e => c < commit_ts_ e) a2 ->
  (length (a1 ++ a2 ++ ck :: d) < fuel)%nat ->
  exists it' cmd, phase1 uoc fuel fs it [] = Ok (Some (Some (stored uoc ck, cmd), rev (stored uoc <$> d), it')) /\ checkpoint_ts cmd = c /\
    forall acc, phase2 uoc fuel fs it' c acc = Ok (Some (acc ++ rev (stored uoc <$> a2))).
Proof.
  intros Hy Hv Hck Hd Ha1 Ha2 Hfuel. apply Forall_app in Hv as [Hv1 [Hv2 [Hvk Hvd]%Forall_cons]%Forall_app].
  destruct (valid_ckp _ _ _ _ Hvk Hck) as ((full & Hisck) & Hu & _). rewrite !length_app in Hfuel. cbn [length] in Hfuel.
  rewrite !fmap_app, !rev_app_distr in Hy. cbn [fmap list_fmap rev] in Hy. rewrite <- !app_assoc in Hy. cbn [app] in Hy.
  destruct (phase1_found uoc fs it (rev (stored uoc <$> d)) (stored uoc ck) (rev (stored uoc <$> a2) ++ rev (stored uoc <$> a1)) (checkpoint_cmd c full) [] fuel)
    as (it' & E1 & Hy'); [exact Hy| |exact Hisck|rewrite length_rev, length_fmap; lia|].
  { apply Forall_rev, Forall_fmap. rewrite Forall_forall in Hvd, Hd |- *. intros x Hx. cbn. eapply valid_not_ckp; eauto. }
  exists it', (checkpoint_cmd c full). split; [exact E1|]. split; [cbn; by rewrite Hu|]. intros acc.
  apply (phase2_spec uoc fs it' _ (rev (stored uoc <$> a1))); [done| | |rewrite length_rev, length_fmap; lia].
  - apply Forall_rev, Forall_fmap. rewrite Forall_forall in Ha2, Hv2 |- *. intros x Hx. cbn.
    rewrite (proj1 (stored_spec x (proj1 (Hv2 x Hx)))). by apply Ha2.
  - intros x Hx. apply head_Some_elem_of, list_elem_of_In, in_rev, list_elem_of_In, list_elem_of_fmap in Hx as (y & -> & Hy2).
    rewrite Forall_forall in Ha1, Hv1. rewrite (proj1 (stored_spec y (proj1 (Hv1 y Hy2)))). by apply Ha1.
Qed.

(** Phase 3 on valid entries behind [c]. *)
Lemma phase3_valid fulls deltas es c ts0 :
  Forall (fun e => entry_valid uoc fulls deltas e /\ c < commit_ts_ e) es -> 0 < ts0 < 2 ^ 63 ->
  exists ts id, phase3 c (stored uoc <$> es) ts0 0 [] = Ok (canon uoc <$> concat (data_cmds <$> es), ts, id) /\ 0 < ts < 2 ^ 63 /\
    ts = default ts0 (last (commit_ts_ <$> es)).
Proof.
  intros Hes Hts0. rewrite phase3_spec.
  2: { apply Forall_fmap. eapply Forall_impl; [exact Hes|]. intros x [Hx Hc]. cbn. destruct (stored_spec x (proj1 Hx)) as (-> & _ & ->).
       split; [lia|]. apply Forall_fmap. eapply Forall_impl; [by eapply valid_no_filter|]. intros cmd Hcmd. cbn. by destruct (canon_kind cmd) as [_ ->]. }
  assert (commit_ts_ <$> (stored uoc <$> es) = commit_ts_ <$> es) as ->.
  { rewrite <- list_fmap_compose. apply list_fmap_ext. intros i x Hx%list_elem_of_lookup_2. rewrite Forall_forall in Hes.
    apply stored_spec, (proj1 (Hes x Hx)). }
  eexists _, _. split.
  - cbn [app]. do 3 f_equal. clear Hts0. induction Hes as [|x l [Hx _] _ IH]; [done|]. cbn [fmap list_fmap concat].
    rewrite fmap_app, <- IH, (data_stored x (proj1 Hx)). done.
  - split; [|done]. destruct (last _) as [t|] eqn:E; cbn; [|done]. apply last_Some_elem_of, list_elem_of_fmap in E as (x & -> & Hx).
    rewrite Forall_forall in Hes. apply (Hes x Hx).
Qed.

Lemma base_below w gone rot cur pend r pend1 c :
  inv w gone rot cur pend r -> prefix (gone ++ rotated rot ++ cur ++ pend1) (logged w) -> newest (gone ++ rotated rot ++ cur ++ pend1) = Some c ->
  r = 0 \/ r ∈ fulls w /\ r <= c.
Proof.
  intros Hi [lost Hl] Hn. destruct (iv_base _ _ _ _ _ _ _ _ _ Hi) as [?|[? Hx]]; [by left|right]. split; [done|].
  pose proof (iv_ckps _ _ _ _ _ _ _ _ _ Hi) as Hcs. rewrite Hl, omap_app in Hcs. apply StronglySorted_app_1_l in Hcs.
  assert (E : gone ++ rotated rot ++ cur ++ pend1 = (gone ++ rotated rot ++ cur) ++ pend1) by by rewrite <- !app_assoc.
  rewrite E in Hcs, Hn. apply (newest_grow _ pend1) in Hx as (c' & Hc' & ?); [|done]. rewrite Hn in Hc'. by injection Hc' as <-.
Qed.

Lemma replay_spec w gone rot cur pend r survived fs c fuel :
  inv w gone rot cur pend r -> crash uoc wal_dir w survived fs -> fits fs -> newest survived = Some c -> (length survived < fuel)%nat ->
  exists pend1 b plan ts fs', survived = gone ++ rotated rot ++ cur ++ pend1 /\ prefix survived (logged w) /\ image uoc (cur ++ pend1) = Ok b /\
    replay fuel kWritable WalManager.make fs = Ok (Some (Some plan, set_commit ts 0 WalManager.make, fs')) /\
    replays w survived c plan /\ system_start_ts plan = ts + 1 /\ 0 < ts < 2 ^ 63 /\
    (forall p, p <> wal_path -> fs' !! p = files w !! p) /\ (fs' !! wal_path = Some b \/ cur ++ pend1 = [] /\ fs' !! wal_path = None).
Proof.
  intros Hi Hcr Hfit Hn Hfuel. destruct (open_spec _ _ _ _ _ _ _ _ Hi Hcr Hfit) as (pend1 & b & list & Es & Hpre & Him & El & Hne & it & fs' & Em & Hy & Ho & Hw).
  subst survived. destruct (survivors _ _ _ _ _ _ _ _ Hi Hpre Hn) as (a1 & a2 & ck & d & ER & Hck & Hd & Ha1 & Ha2 & Hflt).
  pose proof (base_below _ _ _ _ _ _ _ _ Hi Hpre Hn) as Hrc.
  pose proof (iv_valid _ _ _ _ _ _ _ _ _ Hi) as Hv. destruct Hpre as [lost Hl]. rewrite Hl in Hv. apply Forall_app in Hv as [[_ Hv]%Forall_app _].
  rewrite ER in Hv, Hy, Hne. rewrite length_app, ER in Hfuel. apply Forall_app in Ha2 as [Ha2 [_ Hd2]%Forall_cons].
  destruct (phases_spec fs' it _ _ a1 a2 ck d c fuel Hy Hv Hck Hd Ha1 Ha2 ltac:(lia)) as (it' & cmd & E1 & Ec & E2).
  apply Forall_app in Hv as [_ [Hv2 [Hvk Hvd]%Forall_cons]%Forall_app]. destruct (valid_ckp _ _ _ _ Hvk Hck) as (_ & _ & _ & Hckdata & Hbase).
  destruct (phase3_valid (fulls w) (deltas w) (a2 ++ d) c (commit_ts_ ck)) as (ts & id & E3 & Hts & Ets).
  { apply Forall_app. split; by apply Forall_and. }
  { apply Hvk. }
  exists pend1, b. unfold ReplayWalFile. rewrite El. cbn [res_bind]. rewrite bool_decide_false by (intros E; specialize (Hne E); by destruct a1, a2).
  rewrite Em. cbn [res_bind]. rewrite E1. cbn [res_bind]. rewrite Ec, (proj1 (stored_spec ck (proj1 Hvk))), E2, <- rev_app_distr, <- fmap_app. cbn [res_bind].
  replace (commit_ts_ ck =? 0) with false by (symmetry; apply Z.eqb_neq; destruct Hvk as (_ & _ & ? & _); lia).
  assert (catalog_files catalog_dir fs' (fulls w) (deltas w) r) as [Hcf Hcd].
  { eapply catalog_files_ext; [|apply (iv_catalog _ _ _ _ _ _ _ _ _ Hi)]. intros n Hns. apply Ho. intros E. symmetry in E.
    by apply (dirs_ne wal_dir catalog_dir Hdirs WalFile.TempWalFilename n) in E. }
  rewrite (valid_files fs' catalog_dir _ _ c Hcf Hcd) by apply StronglySorted_filter, sorted_set_sorted.
  destruct (attached_base (fulls w) (deltas w) r c (iv_saved _ _ _ _ _ _ _ _ _ Hi) Hrc Hbase) as [-> [att Hatt]]. rewrite Hatt, rev_involutive, E3.
  cbn [res_bind]. unfold UpdateCommitState. cbn [max_commit_ts_ wal_size_ WalManager.make].
  replace ((ts <=? 0) || (0 <? 0)) with false by (symmetry; apply orb_false_iff; split; [apply Z.leb_gt; lia|done]). cbn [negb res_bind].
  eexists _, ts, fs'. split; [done|]. split; [by exists lost|]. split; [done|]. split; [reflexivity|]. split.
  - split; cbn [attach calls system_start_ts]; [done|rewrite Hflt, !fmap_app, !concat_app; cbn [fmap list_fmap concat]; by rewrite Hckdata|].
    exists a2, ck, d. rewrite <- Ets. split_and!; [done..|]. apply wrap_id. unfold unsigned_range. lia.
  - split; [|done]. cbn [system_start_ts]. apply wrap_id. unfold unsigned_range. lia.
Qed.

(** The entries that are collected while the system runs are those a replay would use. *)
Lemma collect_spec w gone rot cur pend r survived fs c fuel :
  inv w gone rot cur pend r -> crash uoc wal_dir w survived fs -> fits fs -> newest survived = Some c -> (length survived < fuel)%nat ->
  exists fs', CollectWalEntries uoc wal_dir fuel fs = Ok (Some (stored uoc <$> filter (fun e => c < commit_ts_ e) survived, fs')).
Proof.
  intros Hi Hcr Hfit Hn Hfuel. destruct (open_spec _ _ _ _ _ _ _ _ Hi Hcr Hfit) as (pend1 & b & list & Es & Hpre & Him & El & Hne & it & fs' & Em & Hy & Ho & Hw).
  subst survived. destruct (survivors _ _ _ _ _ _ _ _ Hi Hpre Hn) as (a1 & a2 & ck & d & ER & Hck & Hd & Ha1 & Ha2 & Hflt).
  pose proof (iv_valid _ _ _ _ _ _ _ _ _ Hi) as Hv. destruct Hpre as [lost Hl]. rewrite Hl in Hv. apply Forall_app in Hv as [[_ Hv]%Forall_app _].
  rewrite ER in Hv, Hy, Hne. rewrite length_app, ER in Hfuel. apply Forall_app in Ha2 as [Ha2 _].
  destruct (phases_spec fs' it _ _ a1 a2 ck d c fuel Hy Hv Hck Hd Ha1 Ha2 ltac:(lia)) as (it' & cmd & E1 & Ec & E2).
  apply Forall_app in Hv as [_ [_ [Hvk _]%Forall_cons]%Forall_app].
  exists fs'. unfold CollectWalEntries. rewrite El. cbn [res_bind]. rewrite bool_decide_false by (intros E; specialize (Hne E); by destruct a1, a2).
  cbn [negb]. rewrite Em. cbn [res_bind]. rewrite E1. cbn [res_bind]. rewrite Ec, (proj1 (stored_spec ck (proj1 Hvk))), E2. cbn [res_bind].
  replace (commit_ts_ ck =? 0) with false by (symmetry; apply Z.eqb_neq; destruct Hvk as (_ & _ & ? & _); lia).
  cbn. rewrite Hflt, !rev_app_distr, !rev_involutive, fmap_app. cbn. done.
Qed.

(** ** Restarts *)
Lemma start_inv fs : empty_dirs wal_dir catalog_dir fs ->
  inv (mkWorld (Start wal_dir WalManager.make fs).1 (Start wal_dir WalManager.make fs).2 [] [] ∅ ∅) [] [] [] [] 0.
Proof.
  intros (H1 & H2 & H3 & H4). unfold Start. cbn [running_ WalManager.make ofs_open fst snd]. rewrite H4. cbn [default from_option id].
  split; cbn [mgr files logged acked fulls deltas max_commit_ts_ set_commit set_ofs set_running ofs_ running_ wal_size_ WalManager.make]; try done; try lia.
  - constructor.
  - constructor.
  - by exists [].
  - split; [exists []; by rewrite lookup_insert_eq|done|]. by apply canonical_wal_cur.
  - split; constructor.
  - eapply catalog_files_ext; [|split; [exact H2|exact H3]]. intros n Hn. apply lookup_insert_ne.
    by apply (dirs_ne wal_dir catalog_dir Hdirs WalFile.TempWalFilename n).
Qed.

Lemma last_max (es : list WalEntry) : StronglySorted Z.lt (commit_ts_ <$> es) -> Forall (fun e => commit_ts_ e <= last_ts es) es.
Proof.
  destruct es as [|e es _] using rev_ind; [done|]. intros Hs.
  assert (last_ts (es ++ [e]) = commit_ts_ e) as -> by (unfold last_ts; by rewrite fmap_app, last_app). rewrite fmap_app in Hs.
  apply Forall_app. split; [|by apply Forall_singleton]. rewrite Forall_forall. intros x Hx.
  assert (commit_ts_ x < commit_ts_ e); [|lia]. eapply (StronglySorted_app_1_elem_of _ _ [commit_ts_ e]); [exact Hs|apply list_elem_of_fmap; eauto|by left].
Qed.

Lemma restart_inv w gone rot cur pend r survived fs fuel plan m fs' :
  inv w gone rot cur pend r -> crash uoc wal_dir w survived fs -> fits fs ->
  replay fuel kWritable WalManager.make fs = Ok (Some (Some plan, m, fs')) -> system_start_ts plan = last_ts survived + 1 ->
  (length survived < fuel)%nat -> is_Some (newest survived) ->
  exists cur', inv (mkWorld (Start wal_dir m fs').1 (Start wal_dir m fs').2 survived survived (fulls w) (deltas w)) gone rot cur' [] r.
Proof.
  intros Hi Hcr Hfit Hrep Hst Hfuel [c Hn].
  destruct (replay_spec _ _ _ _ _ _ _ _ _ _ Hi Hcr Hfit Hn Hfuel) as (pend1 & b & plan' & ts & fs2 & Es & [lost Hl] & Him & E & Hrp & Hsts & Hts & Ho & Hw).
  rewrite Hrep in E. injection E as -> -> ->. assert (ts = last_ts survived) by lia. subst ts. exists (cur ++ pend1).
  pose proof (rot_range _ _ _ _ _ _ _ _ _ Hi) as Hr. destruct Hi. rewrite Hl in *.
  apply Forall_app in iv_valid as [Hv _]. rewrite fmap_app in iv_sorted. apply StronglySorted_app_1_l in iv_sorted.
  rewrite omap_app in iv_ckps. apply StronglySorted_app_1_l in iv_ckps.
  assert (Ed : gone ++ rotated rot ++ cur ++ pend1 = (gone ++ rotated rot ++ cur) ++ pend1) by by rewrite <- !app_assoc.
  assert (Hgrow : forall x, newest_at_least (gone ++ rotated rot ++ cur) x -> newest_at_least (gone ++ rotated rot ++ cur ++ pend1) x).
  { intros x Hx. rewrite Ed. apply newest_grow; [|done]. by rewrite <- Ed, <- Es. }
  unfold Start. cbn [running_ set_commit WalManager.make ofs_open fst snd].
  assert (Hcur : default [] (fs2 !! wal_path) = b).
  { destruct Hw as [->|[En ->]]; [done|]. rewrite En in Him. by injection Him as <-. }
  assert (Hlts : last_ts (gone ++ rotated rot ++ cur) <= last_ts survived).
  { rewrite Es, Ed. apply last_ts_grow; rewrite <- Ed, <- Es; [done|]. eapply Forall_impl; [exact Hv|]. intros e (_ & _ & ? & _). lia. }
  rewrite Hcur.
  split; cbn [mgr files logged acked fulls deltas max_commit_ts_ set_commit set_ofs set_running ofs_ running_ wal_size_ last_swap_wal_ts_ WalManager.make]; try done; try lia.
  - by rewrite app_nil_r.
  - by apply last_max.
  - by exists [].
  - apply (log_files_ext _ _ (<[wal_path := b]> (files w))); [|by apply (log_files_cur _ _ _ _ cur)].
    intros n Hns. destruct (decide (join wal_dir n = wal_path)) as [->|Hne]; [by rewrite !lookup_insert_eq|]. rewrite !lookup_insert_ne by done. by apply Ho.
  - destruct iv_names as [N1 N2]. split; [done|]. rewrite Forall_forall in N2. rewrite Forall_forall in iv_reached. rewrite Forall_forall. intros p Hp.
    destruct (N2 p Hp) as [? ?]. split; [|done]. specialize (iv_reached p.1 ltac:(apply list_elem_of_fmap; eauto)). lia.
  - rewrite Forall_forall. auto.
  - rewrite <- Es. eapply Forall_impl; [exact iv_reached|]. cbn. lia.
  - rewrite app_nil_r. assert (pend = pend1 ++ lost) as ->.
    { rewrite Es, <- !app_assoc in iv_log. by apply app_inv_head, app_inv_head, app_inv_head in iv_log. }
    rewrite app_assoc in iv_after. by apply Forall_app in iv_after as [? _].
  - eapply Forall_impl; [exact iv_gone|]. auto.
  - eapply catalog_files_ext; [|exact iv_catalog]. intros n Hns. pose proof (dirs_ne wal_dir catalog_dir Hdirs WalFile.TempWalFilename n eq_refl Hns) as Hne.
    rewrite lookup_insert_ne by done. apply Ho. by apply not_eq_sym.
  - destruct iv_base as [?|[? ?]]; [by left|right; auto].
  - by rewrite <- Es.
Qed.

(** ** Every reachable state *)
Lemma step_inv w w' gone rot cur pend r :
  inv w gone rot cur pend r -> step uoc wal_dir catalog_dir threshold interval w w' -> exists gone' rot' cur' pend' r', inv w' gone' rot' cur' pend' r'.
Proof.
  intros Hi Hs. destruct Hs as [t m fs Ha E|b m fs Hw E|c io str cmd m fs Hc Hle E|begin_ts c delta cmd m fs Hc Hle E|e full c fs He Ec E|
    survived fs fuel plan m fs' Hcr Hfit Hn Hfuel E Hst].
  - destruct (write_inv _ _ _ Hdirs _ _ _ _ _ _ _ Hi Ha) as (m' & fs' & rot' & cur' & pend' & E' & Hi' & _). rewrite E in E'. injection E' as <- <-. eauto 6.
  - destruct (finish_inv _ _ _ threshold interval Hdirs _ _ _ _ _ _ Hi Hw) as (b' & m' & fs' & rot' & cur' & E' & Hi'). rewrite E in E'. injection E' as <- <- <-. eauto 6.
  - exists gone, rot, cur, pend, r. by eapply full_inv.
  - exists gone, rot, cur, pend, r. by eapply delta_inv.
  - assert (Hc : newest_at_least (gone ++ rotated rot ++ cur) c).
    { destruct (iv_acked _ _ _ _ _ _ _ _ _ Hi) as [k Ek]. rewrite Ek. destruct (list_elem_of_split _ _ He) as (l1 & l2 & El). rewrite El, <- app_assoc. cbn [app].
      rewrite (cons_middle e). rewrite app_assoc. pose proof (iv_ckps _ _ _ _ _ _ _ _ _ Hi) as Hcs. rewrite (iv_log _ _ _ _ _ _ _ _ _ Hi) in Hcs.
      apply newest_grow.
      - rewrite <- (app_assoc l1), <- cons_middle. replace (l1 ++ e :: l2 ++ k) with (gone ++ rotated rot ++ cur) by (rewrite Ek, El; by rewrite <- app_assoc).
        rewrite !app_assoc, omap_app in Hcs. rewrite <- !app_assoc in Hcs. by apply StronglySorted_app_1_l in Hcs.
      - exists c. split; [|lia]. unfold newest. rewrite omap_app, last_app. cbn. unfold ckp. by rewrite Ec. }
    destruct (recycle_wal_inv _ _ _ Hdirs _ _ _ _ _ _ c Hi Hc) as (fs1 & gone' & rot' & E1 & Hi1 & Ed & _).
    destruct full; unfold CommitFullCheckpoint, CommitDeltaCheckpoint in E; rewrite E1 in E; cbn [res_bind] in E; [|injection E as <-; eauto 6].
    exists gone', rot', cur, pend, c. apply (recycle_catalog_inv _ _ _ Hdirs _ gone' rot' cur pend r c fs Hi1); [by rewrite Ed|done].
  - destruct (restart_inv _ _ _ _ _ _ _ _ _ _ _ _ Hi Hcr Hfit E Hst Hfuel Hn) as (cur' & Hi'). eauto 6.
Qed.

Lemma recovery_inv w : reachable uoc wal_dir catalog_dir threshold interval w -> exists gone rot cur pend r, inv w gone rot cur pend r.
Proof.
  induction 1 as [fs He|w w' _ (gone & rot & cur & pend & r & Hi) Hs]; [|by eapply step_inv].
  exists [], [], [], [], 0. by apply start_inv.
Qed.
End recovery.

Section theorems.
Context `{P : WalPayload} `{PL : !WalPayloadLaws} `{D : Directory} `{DL : !DirectoryLaws}.

(** C2. A restart recovers the database from the log. The runs are those in which checkpoints are logged in
    the order of what they contain and every earlier restart went on with the timestamp behind the last one
    of the log; [late_checkpoint_loses_commit] and [restart_reuses_timestamps] are about the other ones.
    The crash may come at any point of such a run and keeps any number of bytes of the stream, but not
    one to three bytes of an entry, which the reader of sizes does not check for. Then
    all acknowledged entries survive; when a checkpoint is among the survivors, the replay
    of the log returns, attaches the newest saved full catalog that this checkpoint covers and all
    saved deltas between the two, and replays, in the order of the log, exactly the commands of the
    surviving entries that the checkpoint does not contain. *)
Theorem restart_replays_committed (uoc : bool) (wal_dir catalog_dir : string) (threshold interval : Z) (w : world)
    (survived : list WalEntry) (fs : gmap string bytes) (c : Z) (fuel : nat) :
  wal_dir <> catalog_dir -> reachable uoc wal_dir catalog_dir threshold interval w -> crash uoc wal_dir w survived fs -> fits fs ->
  newest survived = Some c -> (length survived < fuel)%nat ->
  prefix (acked w) survived /\ prefix survived (logged w) /\
  exists plan m fs', ReplayWalFile uoc wal_dir catalog_dir fuel kWritable WalManager.make fs = Ok (Some (Some plan, m, fs')) /\
    attached catalog_dir (sorted_set (fulls w)) (sorted_set (deltas w)) c = Some (attach plan) /\
    calls plan = canon uoc <$> concat (data_cmds <$> filter (fun e => c < commit_ts_ e) survived).
Proof.
  intros Hd (gone & rot & cur & pend & r & Hi)%recovery_inv Hcr Hfit Hn Hfuel; [|done].
  destruct (replay_spec _ _ _ Hd _ _ _ _ _ _ _ _ _ _ Hi Hcr Hfit Hn Hfuel) as (pend1 & b & plan & ts & fs' & Es & Hpre & _ & E & [H1 H2 _] & _).
  split; [|split; [done|eauto 7]].
  assert (survived = (gone ++ rotated rot ++ cur) ++ pend1) as -> by (rewrite Es; by rewrite <- !app_assoc). apply prefix_app_r, Hi.
Qed.

(** C27. The log accepts every transaction. In every run, writing the entry of an accepted transaction
    and finishing the batch do not raise: the buffer has the announced size, timestamps grow, and the
    names of swapped files are new. *)
Theorem log_accepts_transactions (uoc : bool) (wal_dir catalog_dir : string) (threshold interval : Z) (w : world) (t : Txn) :
  wal_dir <> catalog_dir -> reachable uoc wal_dir catalog_dir threshold interval w -> accepted uoc w t ->
  exists m fs b m' fs', write_txn uoc wal_dir t (mgr w) (files w) = Ok (m, fs) /\ finish_batch wal_dir threshold interval m fs = Ok (b, m', fs').
Proof.
  intros Hd (gone & rot & cur & pend & r & Hi)%recovery_inv Ha; [|done].
  destruct (write_inv _ _ _ Hd _ _ _ _ _ _ _ Hi Ha) as (m & fs & rot' & cur' & pend' & E & Hi' & Hw).
  destruct (finish_inv _ _ _ threshold interval Hd _ _ _ _ _ _ Hi' Hw) as (b & m' & fs' & rot2 & cur2 & E2 & _). exists m, fs, b, m', fs'. split; [done|exact E2].
Qed.
End theorems.

(** ** Automation for concrete runs *)
(** Entries are compared by the virtual machine, without computing their types. *)
Ltac by_vm := match goal with |- _ = ?y => vm_cast_no_check (eq_refl y) end.
Ltac concrete_entry := split; [vm_compute; split; congruence..|vm_compute; reflexivity|repeat constructor; vm_compute; intuition congruence|vm_compute; reflexivity].
Ltac compute_bound := vm_compute; first [reflexivity|split; [discriminate|reflexivity]|split; reflexivity|repeat constructor; discriminate].
(** An ordinary transaction and a checkpoint. *)
Ltac accept_data := split; [split; [concrete_entry|split; [discriminate|split; [compute_bound|left; by repeat constructor]]]|];
  split; [compute_bound|split; [compute_bound|split; [discriminate|discriminate]]].
Ltac accept_ckp full c f := split; [split; [concrete_entry|split; [discriminate|split; [compute_bound|right; exists full, c; split; [reflexivity|split; [compute_bound|
    split; [vm_compute; reflexivity|exists f; split; [vm_compute; reflexivity|compute_bound]]]]]]]|];
  split; [compute_bound|split; [compute_bound|split; [intros ? [= <-]; vm_compute; repeat constructor; discriminate|compute_bound || discriminate]]].

(** ** An instance

    A new database logs a transaction and its first full checkpoint. Then a user asks for a full
    checkpoint, which is saved; before it is logged, a transaction commits and a delta checkpoint is
    saved, logged and committed. *)
Section scenario.
Import DemoPayload.
#[local] Existing Instance SortedDirectory.
Abbreviation demo_reachable := (reachable true "/wal" "/catalog" 1000000 1000000).

Definition do_write (t : Txn) (w : world) : world :=
  match write_txn true "/wal" t (mgr w) (files w) with
  | Ok (m, fs) => mkWorld m fs (logged w ++ [wal_entry_ t]) (acked w) (fulls w) (deltas w)
  | Err _ => w
  end.
Definition do_finish (w : world) : world :=
  match finish_batch "/wal" 1000000 1000000 (mgr w) (files w) with
  | Ok (_, m, fs) => mkWorld m fs (logged w) (logged w) (fulls w) (deltas w)
  | Err _ => w
  end.
Definition do_full (c : Z) (w : world) : world :=
  match FullCheckpointInner "/catalog" c None [] (mgr w) (files w) with
  | (Ok cmd, m, fs) => mkWorld m fs (logged w) (acked w) (if cmd is Some _ then {[c]} ∪ fulls w else fulls w) (deltas w)
  | _ => w
  end.
Definition do_delta (begin_ts c : Z) (w : world) : world :=
  match DeltaCheckpointInner "/catalog" begin_ts c [] (mgr w) (files w) with
  | (Ok cmd, m, fs) => mkWorld m fs (logged w) (acked w) (fulls w) (if cmd is Some _ then {[c]} ∪ deltas w else deltas w)
  | _ => w
  end.
Definition do_commit (full : bool) (c : Z) (w : world) : world :=
  match (if full then CommitFullCheckpoint "/wal" "/catalog" c (files w) else CommitDeltaCheckpoint "/wal" c (files w)) with
  | Ok fs => mkWorld (mgr w) fs (logged w) (acked w) (fulls w) (deltas w)
  | Err _ => w
  end.

Lemma do_write_reachable t w : accepted true w t -> demo_reachable w -> demo_reachable (do_write t w).
Proof. intros Ha Hw. unfold do_write. destruct (write_txn _ _ _ _ _) as [[m fs]|] eqn:E; [|done]. eapply reachable_step; [exact Hw|]. by apply step_write. Qed.
Lemma do_finish_reachable w : 0 < wal_size_ (mgr w) -> demo_reachable w -> demo_reachable (do_finish w).
Proof. intros Ha Hw. unfold do_finish. destruct (finish_batch _ _ _ _ _) as [[[b m] fs]|] eqn:E; [|done]. eapply reachable_step; [exact Hw|]. by eapply step_finish. Qed.
Lemma do_full_reachable c w : 0 < c < 2 ^ 63 -> Forall (fun c' => c' <= c) (omap ckp (logged w)) -> demo_reachable w -> demo_reachable (do_full c w).
Proof.
  intros Hc Hl Hw. unfold do_full. destruct (FullCheckpointInner _ _ _ _ _ _) as [[[cmd|] m] fs] eqn:E; [|done]. eapply reachable_step; [exact Hw|]. by eapply step_full.
Qed.
Lemma do_delta_reachable b c w : 0 < c < 2 ^ 63 -> Forall (fun c' => c' < c) (omap ckp (logged w)) -> demo_reachable w -> demo_reachable (do_delta b c w).
Proof.
  intros Hc Hl Hw. unfold do_delta. destruct (DeltaCheckpointInner _ _ _ _ _ _) as [[[cmd|] m] fs] eqn:E; [|done]. eapply reachable_step; [exact Hw|]. by eapply step_delta.
Qed.
Lemma do_commit_reachable e full c w : e ∈ acked w -> cmds_ e = [checkpoint_cmd c full] -> demo_reachable w -> demo_reachable (do_commit full c w).
Proof.
  intros He Hc Hw. unfold do_commit. destruct (if full then _ else _) as [fs|] eqn:E; [|done]. eapply reachable_step; [exact Hw|]. by eapply step_commit.
Qed.

Definition drop_db (ts : Z) (db : string) : Txn := mkTxn (mkWalEntry 0 0 ts ts [WalCmdDropDatabase db]) kNormal.
Definition log_ckp (ts c : Z) (full : bool) (type : TransactionType) : Txn := mkTxn (mkWalEntry 0 0 ts ts [checkpoint_cmd c full]) type.


Lemma compute_elem (l l' : list WalEntry) e : l = l' -> e ∈ l' -> e ∈ l.
Proof. by intros ->. Qed.

Definition demo_start : world := mkWorld (Start "/wal" WalManager.make ∅).1 (Start "/wal" WalManager.make ∅).2 [] [] ∅ ∅.
Definition demo_first : world := do_finish (do_write (drop_db 2 "a") demo_start).
Definition demo_checkpoint : world := do_commit true 2 (do_finish (do_write (log_ckp 4 2 true kNormal) (do_full 2 demo_first))).
Definition demo_saved : world := do_full 4 demo_checkpoint.
Definition demo_written : world := do_write (drop_db 6 "b") demo_saved.
Definition demo_delta : world := do_commit false 6 (do_finish (do_write (log_ckp 8 6 false kCheckpoint) (do_delta 7 6 (do_finish demo_written)))).

Lemma demo_start_reachable : demo_reachable demo_start.
Proof.
  apply reachable_start. split_and!; [| | |done]; (split_and!; [constructor| |by intros ? ?%elem_of_nil]); intros n ts _ [? Hx]; by rewrite lookup_empty in Hx.
Qed.
Lemma demo_first_reachable : demo_reachable demo_first.
Proof. apply do_finish_reachable; [compute_bound|]. apply do_write_reachable; [accept_data|apply demo_start_reachable]. Qed.
Lemma demo_checkpoint_reachable : demo_reachable demo_checkpoint.
Proof.
  apply (do_commit_reachable (wal_entry_ (log_ckp 4 2 true kNormal))); [|reflexivity|].
  { eapply (compute_elem _ [wal_entry_ (drop_db 2 "a"); wal_entry_ (log_ckp 4 2 true kNormal)]); [by_vm|set_solver]. }
  apply do_finish_reachable; [compute_bound|]. apply do_write_reachable; [accept_ckp true 2 2|].
  apply do_full_reachable; [compute_bound|vm_compute; constructor|apply demo_first_reachable].
Qed.
Lemma demo_saved_reachable : demo_reachable demo_saved.
Proof. apply do_full_reachable; [compute_bound|vm_compute; repeat constructor; discriminate|apply demo_checkpoint_reachable]. Qed.
Lemma demo_written_reachable : demo_reachable demo_written.
Proof. apply do_write_reachable; [accept_data|apply demo_saved_reachable]. Qed.
Lemma demo_delta_reachable : demo_reachable demo_delta.
Proof.
  apply (do_commit_reachable (wal_entry_ (log_ckp 8 6 false kCheckpoint))); [|reflexivity|].
  { eapply (compute_elem _ [wal_entry_ (drop_db 2 "a"); wal_entry_ (log_ckp 4 2 true kNormal); wal_entry_ (drop_db 6 "b"); wal_entry_ (log_ckp 8 6 false kCheckpoint)]);
      [by_vm|set_solver]. }
  apply do_finish_reachable; [compute_bound|]. apply do_write_reachable; [accept_ckp false 6 2|].
  apply do_delta_reachable; [compute_bound|vm_compute; repeat constructor; reflexivity|]. apply do_finish_reachable; [compute_bound|apply demo_written_reachable].
Qed.

(** The second transaction is torn: ten bytes of its entry reach the file. *)
Definition demo_survived : list WalEntry := [wal_entry_ (drop_db 2 "a"); wal_entry_ (log_ckp 4 2 true kNormal)].
Definition demo_content : bytes := default [] (files demo_written !! wal_path_ "/wal").
Definition demo_pending : bytes := default [] (ofs_ (mgr demo_written)).
Definition demo_crashed : gmap string bytes := <[wal_path_ "/wal" := demo_content ++ [] ++ take 10 demo_pending]> (files demo_written).

Lemma demo_crash : crash true "/wal" demo_written demo_survived demo_crashed.
Proof.
  apply (crash_cut _ _ _ _ [] [wal_entry_ (drop_db 6 "b")] demo_content [] demo_pending (take 10 demo_pending)).
  - by_vm.
  - by exists demo_survived.
  - vm_compute. reflexivity.
  - vm_compute. reflexivity.
  - reflexivity.
  - vm_compute. reflexivity.
  - exists (drop 10 demo_pending). by rewrite take_drop.
  - right. exists (wal_entry_ (drop_db 6 "b")), [], demo_pending. split; [done|]. split; [vm_compute; reflexivity|vm_compute; lia].
Qed.
Lemma fits_all (fs : gmap string bytes) : map_Forall (fun _ content => Z.of_nat (length content) < 2 ^ 63) fs -> fits fs.
Proof. intros H p content Hp. exact (H p content Hp). Qed.
Lemma demo_fits : fits demo_crashed.
Proof. apply fits_all, (bool_decide_unpack _). vm_compute. exact I. Qed.

Lemma restart_replays_committed_witness :
  prefix (acked demo_written) demo_survived /\ prefix demo_survived (logged demo_written) /\
  exists plan m fs', ReplayWalFile true "/wal" "/catalog" 3 kWritable WalManager.make demo_crashed = Ok (Some (Some plan, m, fs')) /\
    attached "/catalog" (sorted_set (fulls demo_written)) (sorted_set (deltas demo_written)) 2 = Some (attach plan) /\
    calls plan = canon true <$> concat (data_cmds <$> filter (fun e => 2 < commit_ts_ e) demo_survived).
Proof.
  apply (restart_replays_committed true "/wal" "/catalog" 1000000 1000000 demo_written demo_survived demo_crashed 2 3).
  - discriminate.
  - exact demo_written_reachable.
  - exact demo_crash.
  - exact demo_fits.
  - vm_compute. reflexivity.
  - vm_compute. lia.
Defined.

Lemma log_accepts_transactions_witness : exists m fs b m' fs',
  write_txn true "/wal" (drop_db 6 "b") (mgr demo_saved) (files demo_saved) = Ok (m, fs) /\ finish_batch "/wal" 1000000 1000000 m fs = Ok (b, m', fs').
Proof.
  apply (log_accepts_transactions true "/wal" "/catalog" 1000000 1000000 demo_saved (drop_db 6 "b")); [discriminate|exact demo_saved_reachable|accept_data].
Defined.
End scenario.
