(* ===== verification/WalDefects.v ===== *)
(** * What the log manager gets wrong

    A restart before the first checkpoint is refused, the timestamps after a restart can fall behind
    the log, and a checkpoint that is logged after one that contains more makes acknowledged
    transactions unreachable. *)
From stdpp Require Import sorting.
From S2P Require Import Prelude Serialize WalInfo WalCmd WalEntry WalIterator TxnContext LogFile WalManager WalReplay WalRuns WalInvariant WalRecovery.
Import WalManager.

Section defects.
Context `{P : WalPayload} `{PL : !WalPayloadLaws} `{D : Directory} `{DL : !DirectoryLaws}.

(** A database that crashes after its first entry and before its first checkpoint does not start
    again: the replay of a log without a checkpoint is an unrecoverable error. *)
Theorem restart_needs_checkpoint (uoc : bool) (wal_dir catalog_dir : string) (threshold interval : Z) (w : world)
    (survived : list WalEntry) (fs : gmap string bytes) (fuel : nat) :
  wal_dir <> catalog_dir -> reachable uoc wal_dir catalog_dir threshold interval w -> crash uoc wal_dir w survived fs -> fits fs ->
  survived <> [] -> newest survived = None -> (length survived <= fuel)%nat -> (0 < fuel)%nat ->
  ReplayWalFile uoc wal_dir catalog_dir fuel kWritable WalManager.make fs = Err Unrecoverable.
Proof.
  intros Hd (gone & rot & cur & pend & r & Hi)%recovery_inv Hcr Hfit Hne Hn Hfuel Hpos; [|done].
  destruct (open_spec _ _ _ _ _ _ _ _ _ _ _ Hi Hcr Hfit) as (pend1 & b & list & Es & [lost Hl] & _ & El & Hlist & it & fs' & Em & Hy & _).
  pose proof (newest_none _ Hn) as Hnone. pose proof (iv_valid _ _ _ _ _ _ _ _ _ Hi) as Hv. rewrite Hl in Hv. apply Forall_app in Hv as [Hv _].
  assert (gone = []) as ->.
  { destruct gone as [|e gone]; [done|]. pose proof (iv_gone _ _ _ _ _ _ _ _ _ Hi) as Hg. apply Forall_cons in Hg as [(c & Hc & _) _]. exfalso.
    apply last_Some_elem_of, list_elem_of_omap in Hc as (x & Hx & Hxc). rewrite Forall_forall in Hnone. rewrite Hnone in Hxc; [done|].
    rewrite Es. rewrite !elem_of_app in *. naive_solver. }
  cbn [app] in Es. rewrite <- Es in Hy, Hlist. unfold ReplayWalFile. rewrite El. cbn [res_bind]. rewrite bool_decide_false by auto. rewrite Em. cbn [res_bind].
  destruct (phase1_none uoc fs' it (rev (stored uoc <$> survived)) [] fuel Hy) as (it' & -> & Hy').
  { apply Forall_rev, Forall_fmap. rewrite Forall_forall in Hnone, Hv |- *. intros x Hx. cbn. eapply valid_not_ckp; eauto. }
  { by rewrite length_rev, length_fmap. }
  cbn [res_bind app]. by rewrite (phase2_spec uoc fs' it' [] [] 0 _ fuel Hy').
Qed.

(** A restart can reuse timestamps. When the last entry of the log is a checkpoint and the entry
    before it is replayed, the system goes on from the timestamp of that entry, not from the largest
    timestamp in the log: the new start is not behind the commit timestamp of the checkpoint. *)
Theorem restart_reuses_timestamps (uoc : bool) (wal_dir catalog_dir : string) (threshold interval : Z) (w : world)
    (before : list WalEntry) (x ck : WalEntry) (fs : gmap string bytes) (c : Z) (fuel : nat) :
  wal_dir <> catalog_dir -> reachable uoc wal_dir catalog_dir threshold interval w -> crash uoc wal_dir w (before ++ [x; ck]) fs -> fits fs ->
  ckp x = None -> ckp ck = Some c -> c < commit_ts_ x -> (length (before ++ [x; ck]) < fuel)%nat ->
  exists plan m fs', ReplayWalFile uoc wal_dir catalog_dir fuel kWritable WalManager.make fs = Ok (Some (Some plan, m, fs')) /\
    system_start_ts plan = commit_ts_ x + 1 /\ max_commit_ts_ m = commit_ts_ x /\ system_start_ts plan <= commit_ts_ ck.
Proof.
  intros Hd (gone & rot & cur & pend & r & Hi)%recovery_inv Hcr Hfit Hx Hck Hlt Hfuel; [|done].
  assert (Hn : newest (before ++ [x; ck]) = Some c) by (unfold newest; rewrite omap_app; cbn; by rewrite Hx, Hck, last_snoc).
  destruct (replay_spec _ _ _ Hd _ _ _ _ _ _ _ _ _ _ Hi Hcr Hfit Hn Hfuel)
    as (pend1 & b & plan & ts & fs' & Es & [lost Hl] & _ & E & [_ _ (a & ck' & b' & Hf & Hck' & Hb' & Hst)] & Hsts & _).
  pose proof (iv_sorted _ _ _ _ _ _ _ _ _ Hi) as Hs. rewrite Hl, fmap_app in Hs. apply StronglySorted_app_1_l in Hs. rewrite fmap_app in Hs.
  apply StronglySorted_app_1_r in Hs. cbn in Hs. apply StronglySorted_inv in Hs as [_ [Hxck _]%Forall_cons].
  rewrite filter_app, !filter_cons, !decide_True in Hf by lia. cbn [filter list_filter] in Hf.
  assert (b' = [] /\ a = filter (fun e => c < commit_ts_ e) before ++ [x]) as [-> ->].
  { change [x; ck] with ([x] ++ [ck]) in Hf. rewrite app_assoc in Hf. destruct b' as [|y b' _] using rev_ind.
    - apply app_inj_tail in Hf as [<- _]. done.
    - rewrite app_comm_cons, app_assoc in Hf. apply app_inj_tail in Hf as [_ <-]. apply Forall_app in Hb' as [_ [Hy _]%Forall_cons]. congruence. }
  rewrite app_nil_r, fmap_app, last_app in Hst. cbn in Hst. exists plan, (set_commit ts 0 WalManager.make), fs'.
  split; [done|]. split; [done|]. cbn. split; lia.
Qed.
End defects.

(** ** Checkpoints in the wrong order *)
Section late_checkpoint.
Import DemoPayload.
#[local] Existing Instance SortedDirectory.

(** The request of the user, whose file was saved before the delta checkpoint, is logged after it. *)
Definition late : Txn := log_ckp 10 4 true kNormal.

Definition late_run : res (option (option Replay * WalManager * gmap string bytes)) :=
  let? (m, fs) := write_txn true "/wal" late (mgr demo_delta) (files demo_delta) in
  let? (_, _, fs) := finish_batch "/wal" 1000000 1000000 m fs in
  let? fs := CommitFullCheckpoint "/wal" "/catalog" 4 fs in
  ReplayWalFile true "/wal" "/catalog" 10 kWritable WalManager.make fs.
Definition loses_all (r : res (option (option Replay * WalManager * gmap string bytes))) : bool :=
  match r with
  | Ok (Some (Some plan, _, _)) =>
      bool_decide (attach plan = (full_info "/catalog" 4, [])) && match calls plan with [] => true | _ => false end
  | _ => false
  end.
Lemma late_run_loses : loses_all late_run = true.
Proof. by_vm. Qed.

Lemma dropped_acked : wal_entry_ (drop_db 6 "b") ∈ acked demo_delta.
Proof.
  eapply (compute_elem _ [wal_entry_ (drop_db 2 "a"); wal_entry_ (log_ckp 4 2 true kNormal); wal_entry_ (drop_db 6 "b"); wal_entry_ (log_ckp 8 6 false kCheckpoint)]);
    [by_vm|set_solver].
Qed.

(** A late checkpoint loses acknowledged transactions. The full checkpoint that a user asks for is
    saved by the background thread but logged by the thread of the user. When a transaction commits
    and a delta checkpoint is saved, logged and committed in between, the log file with the
    transaction is removed, and then the newest checkpoint of the log is the one that does not
    contain it: the replay attaches the full catalog alone and replays nothing. *)
Theorem late_checkpoint_loses_commit :
  exists m1 fs1 b m2 fs2 fs3 plan m4 fs4,
    reachable true "/wal" "/catalog" 1000000 1000000 demo_delta /\ wal_entry_ (drop_db 6 "b") ∈ acked demo_delta /\
    write_txn true "/wal" late (mgr demo_delta) (files demo_delta) = Ok (m1, fs1) /\
    finish_batch "/wal" 1000000 1000000 m1 fs1 = Ok (b, m2, fs2) /\
    CommitFullCheckpoint "/wal" "/catalog" 4 fs2 = Ok fs3 /\
    ReplayWalFile true "/wal" "/catalog" 10 kWritable WalManager.make fs3 = Ok (Some (Some plan, m4, fs4)) /\
    attach plan = (full_info "/catalog" 4, []) /\ calls plan = [].
Proof.
  pose proof late_run_loses as H. unfold late_run in H.
  destruct (write_txn _ _ late _ _) as [[m1 fs1]|] eqn:E1; [|done]. cbn [res_bind] in H.
  destruct (finish_batch _ _ _ m1 fs1) as [[[b m2] fs2]|] eqn:E2; [|done]. cbn [res_bind] in H.
  destruct (CommitFullCheckpoint _ _ _ fs2) as [fs3|] eqn:E3; [|done]. cbn [res_bind] in H.
  destruct (ReplayWalFile _ _ _ _ _ _ fs3) as [[[[[plan|] m4] fs4]|]|] eqn:E4; [|done..].
  apply andb_true_iff in H as [Ha%bool_decide_eq_true Hc].
  exists m1, fs1, b, m2, fs2, fs3, plan, m4, fs4.
  split; [exact demo_delta_reachable|]. split; [exact dropped_acked|refine (conj eq_refl (conj E2 (conj E3 (conj E4 (conj Ha _))))); destruct (calls plan); [reflexivity|discriminate]].
Qed.

(** The checkpoint of the user comes after a transaction that it does not contain. *)
Definition demo_behind : world := do_finish (do_write (log_ckp 8 4 true kNormal) (do_finish demo_written)).
Lemma demo_behind_reachable : reachable true "/wal" "/catalog" 1000000 1000000 demo_behind.
Proof.
  apply do_finish_reachable; [compute_bound|]. apply do_write_reachable; [accept_ckp true 4 2|].
  apply do_finish_reachable; [compute_bound|apply demo_written_reachable].
Qed.
Definition behind_content : bytes := default [] (files demo_behind !! wal_path_ "/wal").
Definition behind_files : gmap string bytes := <[wal_path_ "/wal" := behind_content ++ [] ++ []]> (files demo_behind).

Lemma restart_reuses_timestamps_witness : exists plan m fs',
  ReplayWalFile true "/wal" "/catalog" 5 kWritable WalManager.make behind_files = Ok (Some (Some plan, m, fs')) /\
  system_start_ts plan = 7 /\ max_commit_ts_ m = 6 /\ system_start_ts plan <= 8.
Proof.
  apply (restart_reuses_timestamps true "/wal" "/catalog" 1000000 1000000 demo_behind
    [wal_entry_ (drop_db 2 "a"); wal_entry_ (log_ckp 4 2 true kNormal)] (wal_entry_ (drop_db 6 "b")) (wal_entry_ (log_ckp 8 4 true kNormal)) behind_files 4 5).
  - discriminate.
  - exact demo_behind_reachable.
  - apply (crash_cut _ _ _ _ [] [] behind_content [] [] []); [by_vm|by eexists; rewrite app_nil_r|by_vm|by_vm|done|done|by exists []|by left].
  - apply fits_all, (bool_decide_unpack _). vm_compute. exact I.
  - reflexivity.
  - reflexivity.
  - reflexivity.
  - cbn. lia.
Defined.
End late_checkpoint.
