(* ===== verification/QueryNode.v ===== *)
(** * Query trees of full-text search: [src/src/storage/invertedindex/search/query_node.cpp]

    The parser gives a tree of terms, phrases and keywords under AND, OR and NOT. Before the search
    the weights are pushed to the leaves and the tree is rewritten: NOT is combined with an AND above
    it, nested ANDs and ORs are flattened, and equal terms below an OR are merged. Weights are numbers
    of 32 bits in the format of IEEE 754 ([SpecFloat] with 24 bits of precision). The node of a filter,
    which only stands at the root, and rank features, which are not part of query trees, are left out. *)
From Stdlib Require Import SpecFloat.
From S2P Require Import Prelude.

(** ** [float] *)
Abbreviation f32 := spec_float.
Definition f32_one : f32 := S754_finite false 8388608 (-23).
Definition f32_mul : f32 -> f32 -> f32 := SFmul 24 128.
Definition f32_add : f32 -> f32 -> f32 := SFadd 24 128.

(** ** The tree *)
Inductive QueryNodeType := TERM | PHRASE | AND | AND_NOT | OR | KEYWORD | NOT.
#[export] Instance QueryNodeType_eq_dec : EqDecision QueryNodeType.
Proof. solve_decision. Defined.

(** The derived classes of [MultiQueryNode]. *)
Inductive multi_type := NotQueryNode | AndQueryNode | AndNotQueryNode | OrQueryNode | KeywordQueryNode.

Inductive QueryNode :=
| TermQueryNode (weight_ : f32) (term_ column_ : string) (position_ : bool)
| PhraseQueryNode (weight_ : f32) (terms_ : list string) (column_ : string) (slop_ : Z)
| MultiQueryNode (class : multi_type) (weight_ : f32) (children_ : list QueryNode).

Section induction.
Context (P : QueryNode -> Prop).
Hypothesis HT : forall w t c p, P (TermQueryNode w t c p).
Hypothesis HP : forall w ts c s, P (PhraseQueryNode w ts c s).
Hypothesis HM : forall k w cs, Forall P cs -> P (MultiQueryNode k w cs).
Lemma QueryNode_ind' (q : QueryNode) : P q.
Proof.
  revert q. fix IH 1. intros [w t c p|w ts c s|k w cs]; [apply HT|apply HP|]. apply HM.
  induction cs as [|q cs IHcs]; constructor; [apply IH|exact IHcs].
Qed.
End induction.

Module QueryNode.

Definition GetType (q : QueryNode) : QueryNodeType :=
  match q with
  | TermQueryNode _ _ _ _ => TERM
  | PhraseQueryNode _ _ _ _ => PHRASE
  | MultiQueryNode NotQueryNode _ _ => NOT
  | MultiQueryNode AndQueryNode _ _ => AND
  | MultiQueryNode AndNotQueryNode _ _ => AND_NOT
  | MultiQueryNode OrQueryNode _ _ => OR
  | MultiQueryNode KeywordQueryNode _ _ => KEYWORD
  end.
Definition GetWeight (q : QueryNode) : f32 :=
  match q with TermQueryNode w _ _ _ | PhraseQueryNode w _ _ _ | MultiQueryNode _ w _ => w end.
Definition MultiplyWeight (factor : f32) (q : QueryNode) : QueryNode :=
  match q with
  | TermQueryNode w t c p => TermQueryNode (f32_mul w factor) t c p
  | PhraseQueryNode w ts c s => PhraseQueryNode (f32_mul w factor) ts c s
  | MultiQueryNode k w cs => MultiQueryNode k (f32_mul w factor) cs
  end.

(** A keyword keeps its weight, the other inner nodes hand it on. *)
Fixpoint PushDownWeight (factor : f32) (q : QueryNode) : QueryNode :=
  match q with
  | MultiQueryNode KeywordQueryNode _ _ | TermQueryNode _ _ _ _ | PhraseQueryNode _ _ _ _ => MultiplyWeight factor q
  | MultiQueryNode k w cs => MultiQueryNode k f32_one (map (PushDownWeight (f32_mul factor w)) cs)
  end.

Fixpoint LeafCount (q : QueryNode) : Z :=
  match q with
  | TermQueryNode _ _ _ _ | PhraseQueryNode _ _ _ _ => 1
  | MultiQueryNode (OrQueryNode | AndQueryNode) _ cs => foldl (fun cnt it => u32 (cnt + it)) 0 (map LeafCount cs)
  | MultiQueryNode AndNotQueryNode _ (c :: _) => LeafCount c
  | MultiQueryNode _ _ _ => 0
  end.

(** The columns and the terms, for highlighting. *)
Fixpoint GetQueryColumnsTerms (q : QueryNode) : list string * list string :=
  match q with
  | TermQueryNode _ t c _ => ([c], [t])
  | PhraseQueryNode _ ts c _ => ([c], ts)
  | MultiQueryNode _ _ cs =>
      foldl (fun acc r => (acc.1 ++ r.1, acc.2 ++ r.2)) ([], []) (map GetQueryColumnsTerms cs)
  end.

(** ** The rewriting of one node, whose children are optimised *)
Definition not_child (child : QueryNode) : res (list QueryNode) :=
  match child with
  | MultiQueryNode NotQueryNode _ _ => Err Recoverable
  | MultiQueryNode OrQueryNode _ or_children => Ok or_children
  | _ => Ok [child]
  end.
Fixpoint not_list (children : list QueryNode) : res (list QueryNode) :=
  match children with
  | [] => Ok []
  | child :: children => let? l := not_child child in let? rest := not_list children in Ok (l ++ rest)
  end.
Definition InnerNot (children_ : list QueryNode) : res QueryNode :=
  check? negb (bool_decide (children_ = [])) else Unrecoverable in
  let? new_not_list := not_list children_ in Ok (MultiQueryNode NotQueryNode f32_one new_not_list).

(** What a child of an AND adds to the two lists. *)
Definition and_child (child : QueryNode) : res (list QueryNode * list QueryNode) :=
  match child with
  | MultiQueryNode AndQueryNode _ cs => Ok (cs, [])
  | MultiQueryNode NotQueryNode _ cs => Ok ([], cs)
  | MultiQueryNode AndNotQueryNode _ [] => Err Undefined
  | MultiQueryNode AndNotQueryNode _ (MultiQueryNode AndQueryNode _ cs :: rest) => Ok (cs, rest)
  | MultiQueryNode AndNotQueryNode _ (first_child :: rest) => Ok ([first_child], rest)
  | _ => Ok ([child], [])
  end.
Fixpoint and_lists (children : list QueryNode) : res (list QueryNode * list QueryNode) :=
  match children with
  | [] => Ok ([], [])
  | child :: children => let? (a, n) := and_child child in let? (a', n') := and_lists children in Ok (a ++ a', n ++ n')
  end.
Definition and_result (and_list not_list : list QueryNode) : QueryNode :=
  match and_list, not_list with
  | [], _ => MultiQueryNode NotQueryNode f32_one not_list
  | _, [] => MultiQueryNode AndQueryNode f32_one and_list
  | [a], _ => MultiQueryNode AndNotQueryNode f32_one (a :: not_list)
  | _, _ => MultiQueryNode AndNotQueryNode f32_one (MultiQueryNode AndQueryNode f32_one and_list :: not_list)
  end.
Definition InnerAnd (children_ : list QueryNode) : res QueryNode :=
  check? (2 <=? length children_)%nat else Unrecoverable in
  let? (and_list, not_list) := and_lists children_ in Ok (and_result and_list not_list).

(** What a child of an OR adds to the two lists. *)
Definition or_child (child : QueryNode) : list QueryNode * list QueryNode :=
  match child with
  | MultiQueryNode OrQueryNode _ cs => (cs, [])
  | MultiQueryNode NotQueryNode _ _ => ([], [child])
  | _ => ([child], [])
  end.
Fixpoint or_lists (children : list QueryNode) : list QueryNode * list QueryNode :=
  match children with
  | [] => ([], [])
  | child :: children => let '(o, n) := or_child child in let '(o', n') := or_lists children in (o ++ o', n ++ n')
  end.

(** The argument of a NOT: its only child, or an OR of its children. *)
Definition not_argument (not_node : QueryNode) : QueryNode :=
  match not_node with
  | MultiQueryNode _ _ [c] => c
  | MultiQueryNode _ _ cs => MultiQueryNode OrQueryNode f32_one cs
  | _ => not_node
  end.

Definition same_term (q1 q2 : QueryNode) : bool :=
  match q1, q2 with
  | TermQueryNode _ t1 c1 p1, TermQueryNode _ t2 c2 p2 => bool_decide (t1 = t2 /\ c1 = c2 /\ p1 = p2)
  | _, _ => false
  end.
Definition add_weight (w : f32) (q : QueryNode) : QueryNode :=
  match q with TermQueryNode w2 t c p => TermQueryNode (f32_add w2 w) t c p | _ => q end.
(** Adds a term to an equal one in the list, [None] if there is none. *)
Fixpoint merge_term (child1 : QueryNode) (or_list_tmp : list QueryNode) : option (list QueryNode) :=
  match or_list_tmp with
  | [] => None
  | child2 :: l => if same_term child1 child2 then Some (add_weight (GetWeight child1) child2 :: l)
                   else (fun l => child2 :: l) <$> merge_term child1 l
  end.
Fixpoint merge_terms (or_list or_list_tmp : list QueryNode) : list QueryNode :=
  match or_list with
  | [] => or_list_tmp
  | child1 :: or_list => merge_terms or_list (default (or_list_tmp ++ [child1]) (merge_term child1 or_list_tmp))
  end.

Definition InnerOr (children_ : list QueryNode) : res QueryNode :=
  check? (2 <=? length children_)%nat else Unrecoverable in
  let '(or_list, not_list) := or_lists children_ in
  match or_list, not_list with
  | [], _ =>
      let? optimized_node := InnerAnd (map not_argument not_list) in
      Ok (MultiQueryNode NotQueryNode f32_one [optimized_node])
  | _, [] =>
      match merge_terms or_list [] with
      | [q] => Ok q
      | or_list => Ok (MultiQueryNode OrQueryNode f32_one or_list)
      end
  | _, _ => Err Recoverable
  end.

Definition InnerGetNewOptimizedQueryTree (class : multi_type) (children_ : list QueryNode) : res QueryNode :=
  match class with
  | NotQueryNode => InnerNot children_
  | AndQueryNode => InnerAnd children_
  | OrQueryNode => InnerOr children_
  | AndNotQueryNode | KeywordQueryNode => Err Unrecoverable
  end.

(** ** The whole tree *)
Fixpoint GetNewOptimizedQueryTree (q : QueryNode) : res QueryNode :=
  match q with
  | MultiQueryNode class _ children_ =>
      let? children_ := (fix optimize_children (children : list QueryNode) : res (list QueryNode) :=
        match children with
        | [] => Ok []
        | child :: children =>
            let? child := match GetType child with
                          | TERM | PHRASE | KEYWORD => Ok child
                          | AND_NOT => Err Unrecoverable
                          | NOT | AND | OR => GetNewOptimizedQueryTree child
                          end in
            let? children := optimize_children children in Ok (child :: children)
        end) children_ in
      InnerGetNewOptimizedQueryTree class children_
  | _ => Err Undefined
  end.

Definition GetOptimizedQueryTree (root : QueryNode) : res QueryNode :=
  let root := PushDownWeight f32_one root in
  match GetType root with
  | TERM | PHRASE | KEYWORD => Ok root
  | NOT => Err Recoverable
  | AND | OR =>
      let? optimized_root := GetNewOptimizedQueryTree root in
      check? negb (bool_decide (GetType optimized_root = NOT)) else Recoverable in Ok optimized_root
  | AND_NOT => Err Unrecoverable
  end.

End QueryNode.
