(* ===== verification/QuerySemantics.v ===== *)
(** * What a query tree means, and that the optimisation keeps it

    A document matches a tree if it matches its formula; several children of a NOT are an implicit OR,
    and the terms of a keyword are alternatives. [polarity] tells which trees the rewriting accepts:
    a tree is positive or negative, negative ones have to stand below an AND with something positive,
    and an OR has children of one kind. [normal] is the form that the comments of the source promise. *)
From S2P Require Import Prelude QueryNode.
Import QueryNode.

(** ** The meaning of a tree for one document *)
Section meaning.
Context (term : string -> string -> bool) (phrase : string -> list string -> Z -> bool).

Fixpoint matches (q : QueryNode) : bool :=
  match q with
  | TermQueryNode _ t c _ => term c t
  | PhraseQueryNode _ ts c s => phrase c ts s
  | MultiQueryNode NotQueryNode _ cs => negb (existsb id (map matches cs))
  | MultiQueryNode AndQueryNode _ cs => forallb id (map matches cs)
  | MultiQueryNode (OrQueryNode | KeywordQueryNode) _ cs => existsb id (map matches cs)
  | MultiQueryNode AndNotQueryNode _ cs =>
      match map matches cs with [] => false | b :: bs => b && negb (existsb id bs) end
  end.
End meaning.

Definition is_leaf (q : QueryNode) : bool := match GetType q with TERM | PHRASE | KEYWORD => true | _ => false end.

(** ** Which trees are accepted *)
Fixpoint polarity (q : QueryNode) : option bool :=
  match q with
  | TermQueryNode _ _ _ _ | PhraseQueryNode _ _ _ _ | MultiQueryNode KeywordQueryNode _ _ => Some true
  | MultiQueryNode AndNotQueryNode _ _ => None
  | MultiQueryNode NotQueryNode _ cs =>
      if negb (bool_decide (cs = [])) && forallb (fun p => bool_decide (p = Some true)) (map polarity cs) then Some false else None
  | MultiQueryNode AndQueryNode _ cs =>
      let ps := map polarity cs in
      if (2 <=? length cs)%nat && forallb (fun p => bool_decide (p <> None)) ps
      then Some (existsb (fun p => bool_decide (p = Some true)) ps) else None
  | MultiQueryNode OrQueryNode _ cs =>
      let ps := map polarity cs in
      if (2 <=? length cs)%nat then
        if forallb (fun p => bool_decide (p = Some true)) ps then Some true
        else if forallb (fun p => bool_decide (p = Some false)) ps then Some false else None
      else None
  end.
Definition valid (root : QueryNode) : bool :=
  match GetType root with NOT | AND_NOT => false | _ => bool_decide (polarity root = Some true) end.

(** ** The normal form *)
Definition below_and (q : QueryNode) : bool := is_leaf q || bool_decide (GetType q = OR).
Definition below_or (q : QueryNode) : bool := is_leaf q || bool_decide (GetType q = AND \/ GetType q = AND_NOT).
Fixpoint normal (q : QueryNode) : bool :=
  match q with
  | TermQueryNode _ _ _ _ | PhraseQueryNode _ _ _ _ | MultiQueryNode KeywordQueryNode _ _ => true
  | MultiQueryNode NotQueryNode _ cs => negb (bool_decide (cs = [])) && forallb below_or cs && forallb id (map normal cs)
  | MultiQueryNode AndQueryNode _ cs => (2 <=? length cs)%nat && forallb below_and cs && forallb id (map normal cs)
  | MultiQueryNode OrQueryNode _ cs => (2 <=? length cs)%nat && forallb below_or cs && forallb id (map normal cs)
  | MultiQueryNode AndNotQueryNode _ cs =>
      match cs with
      | c :: (_ :: _) as rest => (is_leaf c || bool_decide (GetType c = AND \/ GetType c = OR)) && forallb below_or rest
      | _ => false
      end && forallb id (map normal cs)
  end.

(** ** Lists of booleans *)
Lemma existsb_id_app l1 l2 : existsb id (l1 ++ l2) = existsb id l1 || existsb id l2.
Proof. apply existsb_app. Qed.
Lemma forallb_id_app l1 l2 : forallb id (l1 ++ l2) = forallb id l1 && forallb id l2.
Proof. apply forallb_app. Qed.
Create HintDb query discriminated.
#[export] Hint Rewrite map_app existsb_id_app forallb_id_app forallb_app existsb_app andb_true_r orb_false_r : query.

(** ** The lists of the rewriting *)
Definition is_not (q : QueryNode) : bool := bool_decide (GetType q = NOT).
(** All children are below an OR, or an AND, and in normal form. *)
Definition all_below_or (l : list QueryNode) : Prop := Forall (fun q => below_or q = true /\ normal q = true) l.
Definition all_below_and (l : list QueryNode) : Prop := Forall (fun q => below_and q = true /\ normal q = true) l.

Lemma forallb_normal l : forallb id (map normal l) = true <-> Forall (fun q => normal q = true) l.
Proof. rewrite forallb_forall, Forall_forall. setoid_rewrite in_map_iff. setoid_rewrite list_elem_of_In. naive_solver. Qed.
Lemma all_below_or_iff l : all_below_or l <-> forallb below_or l = true /\ forallb id (map normal l) = true.
Proof. rewrite forallb_normal, forallb_forall. unfold all_below_or. rewrite !Forall_forall. setoid_rewrite list_elem_of_In. naive_solver. Qed.
Lemma all_below_and_iff l : all_below_and l <-> forallb below_and l = true /\ forallb id (map normal l) = true.
Proof. rewrite forallb_normal, forallb_forall. unfold all_below_and. rewrite !Forall_forall. setoid_rewrite list_elem_of_In. naive_solver. Qed.

(** What a normal tree looks like. *)
Inductive shape : QueryNode -> Prop :=
| shape_leaf q : is_leaf q = true -> shape q
| shape_not w cs : cs <> [] -> all_below_or cs -> shape (MultiQueryNode NotQueryNode w cs)
| shape_and w cs : (2 <= length cs)%nat -> all_below_and cs -> shape (MultiQueryNode AndQueryNode w cs)
| shape_or w cs : (2 <= length cs)%nat -> all_below_or cs -> shape (MultiQueryNode OrQueryNode w cs)
| shape_and_not w c cs : cs <> [] -> normal c = true -> is_leaf c = true \/ GetType c = AND \/ GetType c = OR -> all_below_or cs ->
    shape (MultiQueryNode AndNotQueryNode w (c :: cs)).

Lemma normal_shape q : normal q = true <-> shape q.
Proof.
  split.
  - destruct q as [| |[] w cs]; intros H; try (apply shape_leaf; done); cbn -[Nat.leb] in H; rewrite ?andb_true_iff, ?negb_true_iff in H.
    + destruct H as [[H1%bool_decide_eq_false H2] H3]. constructor; [done|]. by apply all_below_or_iff.
    + destruct H as [[H1%Nat.leb_le H2] H3]. constructor; [done|]. by apply all_below_and_iff.
    + destruct H as [H1 H2]. destruct cs as [|c [|c' cs]]; [done..|]. apply andb_true_iff in H1 as [H1 H3]. cbn [map forallb] in H2.
      apply andb_true_iff in H2 as [H2 H4]. constructor; [done|done| |by apply all_below_or_iff].
      apply orb_true_iff in H1 as [?|?%bool_decide_eq_true]; auto.
    + destruct H as [[H1%Nat.leb_le H2] H3]. constructor; [done|]. by apply all_below_or_iff.
  - intros [q' H|w cs H1 H2|w cs H1 H2|w cs H1 H2|w c cs H1 H2 H3 H4].
    + by destruct q' as [| |[] w cs].
    + apply all_below_or_iff in H2 as [H2 H3]. cbn. rewrite H2, H3, bool_decide_false by done. done.
    + apply all_below_and_iff in H2 as [H2 H3]. cbn -[Nat.leb]. rewrite H2, H3. apply Nat.leb_le in H1. by rewrite H1.
    + apply all_below_or_iff in H2 as [H2 H3]. cbn -[Nat.leb]. rewrite H2, H3. apply Nat.leb_le in H1. by rewrite H1.
    + apply all_below_or_iff in H4 as [H4 H5]. destruct cs as [|c' cs]; [done|]. cbn [normal map forallb] in *.
      change (id (normal c)) with (normal c). rewrite H2, H5. cbn [forallb] in H4. rewrite H4, !andb_true_r.
      destruct H3 as [->|H3]; [done|]. by rewrite bool_decide_true, orb_true_r.
Qed.

Lemma leaf_not_not q : is_leaf q = true -> is_not q = false.
Proof. by destruct q as [| |[] w cs]. Qed.
Lemma below_or_not q : below_or q = true -> is_not q = false.
Proof. by destruct q as [| |[] w cs]. Qed.
Lemma below_and_not q : below_and q = true -> is_not q = false.
Proof. by destruct q as [| |[] w cs]. Qed.

Section lists.
Context (term : string -> string -> bool) (phrase : string -> list string -> Z -> bool).
Abbreviation any l := (existsb id (map (matches term phrase) l)).
Abbreviation all l := (forallb id (map (matches term phrase) l)).

Lemma not_list_spec cs : Forall shape cs ->
  if existsb is_not cs then not_list cs = Err Recoverable
  else exists l, not_list cs = Ok l /\ all_below_or l /\ (length cs <= length l)%nat /\ any l = any cs.
Proof.
  induction 1 as [|c cs Hc _ IH]; [exists []; by repeat constructor|]. cbn [existsb not_list].
  assert (Hchild : if is_not c then not_child c = Err Recoverable
    else exists l, not_child c = Ok l /\ all_below_or l /\ (1 <= length l)%nat /\ any l = matches term phrase c).
  { destruct Hc as [q H|w l H1 H2|w l H1 H2|w l H1 H2|w q l H1 H2 H3 H4].
    - rewrite leaf_not_not by done. exists [q]. destruct q as [| |[] w l]; try done; (split; [done|]; split; [repeat constructor|split; [done|cbn; by rewrite orb_false_r]]).
    - done.
    - exists [MultiQueryNode AndQueryNode w l]. split; [done|]. split; [|split; [done|cbn; by rewrite orb_false_r]].
      repeat constructor. apply normal_shape. by constructor.
    - exists l. split; [done|]. split; [done|]. split; [lia|done].
    - exists [MultiQueryNode AndNotQueryNode w (q :: l)]. split; [done|]. split; [|split; [done|cbn; by rewrite orb_false_r]].
      repeat constructor. apply normal_shape. by constructor. }
  destruct (is_not c) eqn:E; cbn [orb]; [by rewrite Hchild|]. destruct Hchild as (l & -> & Hl & Hlen & Em). cbn [res_bind].
  destruct (existsb is_not cs); [by rewrite IH|]. destruct IH as (l' & -> & Hl' & Hlen' & Em'). cbn [res_bind].
  exists (l ++ l'). split; [done|]. split; [by apply Forall_app|]. split; [rewrite length_app; cbn; lia|].
  rewrite map_app, existsb_id_app, Em, Em'. done.
Qed.

Lemma and_lists_spec cs : Forall shape cs -> exists a n,
  and_lists cs = Ok (a, n) /\ all_below_and a /\ all_below_or n /\ all cs = all a && negb (any n) /\
  (a = [] <-> forallb is_not cs = true) /\ (n = [] -> length cs <= length a)%nat /\ (a = [] -> length cs <= length n)%nat.
Proof.
  induction 1 as [|c cs Hc _ IH]; [exists [], []; by repeat constructor|]. destruct IH as (a & n & E & Ha & Hn & Em & Hnot & Hlen & Hlen').
  cbn [and_lists].
  assert (Hchild : exists a1 n1, and_child c = Ok (a1, n1) /\ all_below_and a1 /\ all_below_or n1 /\ matches term phrase c = all a1 && negb (any n1) /\
    (if is_not c then a1 = [] /\ n1 <> [] else a1 <> [])).
  { destruct Hc as [q H|w l H1 H2|w l H1 H2|w l H1 H2|w q l H1 H2 H3 H4].
    - exists [q], []. rewrite leaf_not_not by done.
      destruct q as [| |[] w l]; try done; (split; [done|]; split; [repeat constructor|]; split; [constructor|]; split; [cbn; by rewrite !andb_true_r|done]).
    - exists [], l. split_and!; try done. by constructor.
    - exists l, []. split_and!; try done; [by constructor|cbn; by rewrite andb_true_r|]. destruct l; [cbn in H1; lia|done].
    - exists [MultiQueryNode OrQueryNode w l], []. split_and!; try done; [|by constructor|cbn; by rewrite !andb_true_r].
      repeat constructor. apply normal_shape. by constructor.
    - assert (Hq : exists a1, and_child (MultiQueryNode AndNotQueryNode w (q :: l)) = Ok (a1, l) /\ all_below_and a1 /\ matches term phrase q = all a1 /\ a1 <> []).
      { destruct (decide (GetType q = AND)) as [Ht|Ht].
        - apply normal_shape in H2. destruct H2 as [q H|w' l' H|w' l' H H'|w' l' H|w' q' l' H]; try done; [by destruct q as [| |[] ? ?]|].
          exists l'. split_and!; try done. destruct l'; [cbn in H; lia|done].
        - exists [q]. split_and!; [|constructor; [|constructor]|cbn; by rewrite andb_true_r|done].
          + by destruct q as [| |[] ? ?].
          + split; [|done]. unfold below_and. destruct H3 as [->|[?|H3]]; [done|done|]. by rewrite H3, bool_decide_true, orb_true_r. }
      destruct Hq as (a1 & -> & Ha1 & Em1 & Hne). exists a1, l. split_and!; try done. cbn [matches map]. by rewrite Em1. }
  destruct Hchild as (a1 & n1 & -> & Ha1 & Hn1 & Em1 & Hc1). cbn [res_bind]. rewrite E. cbn [res_bind]. exists (a1 ++ a), (n1 ++ n).
  split_and!; [done|by apply Forall_app|by apply Forall_app| | | |].
  - cbn [map forallb]. rewrite !map_app, forallb_id_app, existsb_id_app, negb_orb. change (id (matches term phrase c)) with (matches term phrase c).
    rewrite Em1, Em. destruct (all a1), (all a), (any n1), (any n); done.
  - cbn [forallb]. destruct (is_not c); cbn [andb].
    + destruct Hc1 as [-> _]. done.
    + split; [intros [-> _]%app_eq_nil; done|done].
  - intros [-> ->]%app_eq_nil. specialize (Hlen eq_refl). rewrite length_app. cbn. destruct (is_not c); [by destruct Hc1|].
    destruct a1; [done|]. cbn. lia.
  - intros [-> ->]%app_eq_nil. specialize (Hlen' eq_refl). rewrite length_app. cbn. destruct (is_not c); [|done].
    destruct Hc1 as [_ Hc1]. destruct n1; [done|]. cbn. lia.
Qed.

Lemma InnerAnd_spec cs : Forall shape cs -> (2 <= length cs)%nat -> exists q,
  InnerAnd cs = Ok q /\ shape q /\ matches term phrase q = all cs /\ is_not q = forallb is_not cs /\ (is_not q = false -> below_or q = true).
Proof.
  intros Hs Hlen. unfold InnerAnd. rewrite (proj2 (Nat.leb_le _ _)) by done.
  destruct (and_lists_spec cs Hs) as (a & n & -> & Ha & Hn & -> & Hnot & Hla & Hln). cbn [res_bind].
  exists (and_result a n). split; [done|]. destruct a as [|a1 a].
  - assert (n <> []) by (specialize (Hln eq_refl); by destruct n; cbn in *; [lia|]). cbn. split_and!; [by constructor|done| |done].
    unfold is_not. rewrite bool_decide_true by done. symmetry. by apply Hnot.
  - assert (Hf : forallb is_not cs = false) by (apply not_true_is_false; intros H%Hnot; done). rewrite Hf.
    destruct n as [|n1 n].
    + specialize (Hla eq_refl). split_and!; try (by destruct a).
      * assert (2 <= length (a1 :: a))%nat by lia. destruct a; by apply shape_and.
      * cbn. rewrite andb_true_r. by destruct a.
    + destruct a as [|a2 a]; cbn [and_result].
      * apply Forall_cons in Ha as [[Ha1 Ha2] _]. split_and!; try done; [|cbn; by rewrite andb_true_r].
        apply shape_and_not; try done. unfold below_and in Ha1. apply orb_true_iff in Ha1 as [?|?%bool_decide_eq_true]; auto.
      * split_and!; try done. apply shape_and_not; try done; [|by right; left]. apply normal_shape, shape_and; [cbn; lia|done].
Qed.

Lemma or_lists_spec cs : Forall shape cs -> exists o n,
  or_lists cs = (o, n) /\ all_below_or o /\ Forall (fun q => shape q /\ is_not q = true) n /\ any cs = any o || any n /\
  (o = [] <-> forallb is_not cs = true) /\ (n = [] <-> existsb is_not cs = false) /\ (o = [] -> length n = length cs).
Proof.
  induction 1 as [|c cs Hc _ IH]; [exists [], []; by repeat constructor|]. destruct IH as (o & n & E & Ho & Hn & Em & Hon & Hnn & Hlen).
  cbn [or_lists]. rewrite E.
  assert (Hchild : exists o1 n1, or_child c = (o1, n1) /\ all_below_or o1 /\ matches term phrase c = any o1 || any n1 /\
    (if is_not c then o1 = [] /\ n1 = [c] else o1 <> [] /\ n1 = [])).
  { destruct Hc as [q H|w l H1 H2|w l H1 H2|w l H1 H2|w q l H1 H2 H3 H4].
    - exists [q], []. rewrite leaf_not_not by done. destruct q as [| |[] w l]; try done; (split_and!; try done; [by repeat constructor|cbn; by rewrite !orb_false_r]).
    - exists [], [MultiQueryNode NotQueryNode w l]. split_and!; try done; [constructor|cbn; by rewrite orb_false_r].
    - exists [MultiQueryNode AndQueryNode w l], []. split_and!; try done; [|cbn; by rewrite !orb_false_r].
      repeat constructor. apply normal_shape. by apply shape_and.
    - exists l, []. split_and!; try done; [cbn; by rewrite orb_false_r|]. destruct l; [cbn in H1; lia|done].
    - exists [MultiQueryNode AndNotQueryNode w (q :: l)], []. split_and!; try done; [|cbn [map existsb]; by rewrite !orb_false_r].
      repeat constructor. apply normal_shape. by apply shape_and_not. }
  destruct Hchild as (o1 & n1 & -> & Ho1 & Em1 & Hc1). exists (o1 ++ o), (n1 ++ n). split; [done|]. split; [by apply Forall_app|].
  cbn [map existsb forallb]. change (id (matches term phrase c)) with (matches term phrase c).
  rewrite !map_app, !existsb_id_app, Em1, Em. split; [|split; [destruct (any o1), (any o), (any n1), (any n); done|]].
  - destruct (is_not c) eqn:Hn1; destruct Hc1 as [? ->]; [|done]. apply Forall_app; split; [|done]. apply Forall_singleton. done.
  - destruct (is_not c); destruct Hc1 as [H1 ->]; subst; cbn [app andb orb].
    + split_and!; [done|done|]. intros ->. cbn. by rewrite Hlen.
    + split_and!; [|done|]; [split; [intros [? _]%app_eq_nil; done|done]|]. intros [? _]%app_eq_nil. done.
Qed.

(** ** Merging equal terms *)
Lemma same_term_matches q1 q2 : same_term q1 q2 = true -> matches term phrase q1 = matches term phrase q2.
Proof. destruct q1, q2; try done. cbn. intros (-> & -> & ->)%bool_decide_eq_true. done. Qed.
Lemma add_weight_matches w q : matches term phrase (add_weight w q) = matches term phrase q.
Proof. by destruct q. Qed.
Lemma add_weight_below w q : below_or q = true /\ normal q = true -> below_or (add_weight w q) = true /\ normal (add_weight w q) = true.
Proof. by destruct q. Qed.

Lemma merge_term_spec q l l' : merge_term q l = Some l' -> all_below_or l -> all_below_or l' /\ any l' = any l || matches term phrase q /\ length l' = length l.
Proof.
  revert l'. induction l as [|c l IH]; intros l' H Hl; [done|]. cbn in H. apply Forall_cons in Hl as [Hc Hl].
  destruct (same_term q c) eqn:Es.
  - injection H as <-. split; [constructor; [by apply add_weight_below|done]|]. split; [|done]. cbn. rewrite add_weight_matches, (same_term_matches q c) by done.
    unfold id. by destruct (matches _ _ c), (existsb _ _).
  - destruct (merge_term q l) as [l2|]; [|done]. injection H as <-. destruct (IH l2 eq_refl Hl) as (Hl2 & Em & Hlen).
    split; [by constructor|]. cbn. by rewrite Em, Hlen, orb_assoc.
Qed.
Lemma merge_terms_spec l tmp : all_below_or l -> all_below_or tmp ->
  all_below_or (merge_terms l tmp) /\ any (merge_terms l tmp) = any tmp || any l /\ (l <> [] \/ tmp <> [] -> merge_terms l tmp <> []).
Proof.
  revert tmp. induction l as [|q l IH]; intros tmp Hl Ht; [cbn; rewrite orb_false_r; naive_solver|]. apply Forall_cons in Hl as [Hq Hl]. cbn [merge_terms].
  destruct (merge_term q tmp) as [tmp'|] eqn:E.
  - change (default _ (Some tmp')) with tmp'. destruct (merge_term_spec _ _ _ E Ht) as (Ht' & Em & Hlen). destruct (IH tmp' Hl Ht') as (H1 & H2 & H3). split; [done|].
    split; [rewrite H2, Em; cbn; unfold id; by rewrite orb_assoc|]. intros _. apply H3. right. intros ->. destruct tmp; [by cbn in E|done].
  - change (default ?x None) with x. destruct (IH (tmp ++ [q]) Hl) as (H1 & H2 & H3); [by apply Forall_app; split; [|repeat constructor; apply Hq]|]. split; [done|].
    split; [rewrite H2, map_app, existsb_id_app; cbn; unfold id; by rewrite orb_false_r, orb_assoc|]. intros _. apply H3. right. by destruct tmp.
Qed.

Lemma not_argument_spec q : shape q -> is_not q = true -> shape (not_argument q) /\ is_not (not_argument q) = false /\ matches term phrase q = negb (matches term phrase (not_argument q)).
Proof.
  intros [q' H|w cs H1 H2|w cs H1 H2|w cs H1 H2|w c cs H1 H2 H3 H4] Hn; try done; [by destruct q' as [| |[] ? ?]|].
  destruct cs as [|c [|c' cs]]; [done| |].
  - apply Forall_cons in H2 as [[H2 H3] _]. cbn. unfold id. rewrite orb_false_r. split_and!; [by apply normal_shape|by apply below_or_not|done].
  - split_and!; [|done..]. apply shape_or; [cbn; lia|done].
Qed.
Lemma not_arguments_spec l : Forall (fun q => shape q /\ is_not q = true) l ->
  Forall shape (map not_argument l) /\ forallb is_not (map not_argument l) = bool_decide (l = []) /\ any l = negb (all (map not_argument l)).
Proof.
  induction 1 as [|q l [Hs Hn] _ (IH1 & IH2 & IH3)]; [by repeat constructor|]. destruct (not_argument_spec q Hs Hn) as (H1 & H2 & H3).
  cbn [map forallb existsb]. unfold id. rewrite H2, H3. split_and!; [by constructor|done|]. unfold id in IH3. rewrite IH3. by rewrite negb_andb.
Qed.

Lemma InnerOr_spec cs : Forall shape cs -> (2 <= length cs)%nat ->
  if forallb is_not cs || negb (existsb is_not cs)
  then exists q, InnerOr cs = Ok q /\ shape q /\ matches term phrase q = any cs /\ is_not q = forallb is_not cs
  else InnerOr cs = Err Recoverable.
Proof.
  intros Hs Hlen. unfold InnerOr. rewrite (proj2 (Nat.leb_le _ _)) by done.
  destruct (or_lists_spec cs Hs) as (o & n & -> & Ho & Hn & -> & Hon & Hnn & Hno). destruct o as [|q o].
  - rewrite (proj1 Hon eq_refl). cbn [orb]. destruct (not_arguments_spec n Hn) as (H1 & H2 & ->).
    destruct (InnerAnd_spec (map not_argument n)) as (q & -> & Hq & Em & Hnq & Hb); [done|rewrite length_map, Hno by done; lia|]. cbn [res_bind].
    eexists. split; [done|]. assert (Hne : n <> []) by (intros ->; specialize (Hno eq_refl); cbn in Hno; lia).
    rewrite H2, bool_decide_false in Hnq by done. split; [|split; [|done]].
    + apply shape_not; [done|]. repeat constructor; [by apply Hb|by apply normal_shape].
    + cbn. rewrite Em. unfold id. by rewrite orb_false_r.
  - assert (Hf : forallb is_not cs = false) by (apply not_true_is_false; intros H%Hon; done). rewrite Hf. cbn [orb]. destruct n as [|n1 n].
    + rewrite (proj1 Hnn eq_refl). cbn [negb]. destruct (merge_terms_spec (q :: o) [] Ho ltac:(constructor)) as (H1 & H2 & H3).
      specialize (H3 ltac:(by left)). rewrite orb_false_r. rewrite <- (orb_false_l (any (q :: o))). change false with (any []). rewrite <- H2.
      destruct (merge_terms (q :: o) []) as [|q1 [|q2 l]]; [done| |].
      * apply Forall_cons in H1 as [[H1 H4] _]. eexists. split; [done|]. cbn. unfold id. rewrite orb_false_r. split_and!; [by apply normal_shape|done|by apply below_or_not].
      * eexists. split; [done|]. split_and!; [|done|done]. apply shape_or; [cbn; lia|done].
    + destruct (existsb is_not cs) eqn:Ex; [done|]. by specialize (proj2 Hnn eq_refl).
Qed.
End lists.

(** ** The whole tree *)
Definition opt_child (child : QueryNode) : res QueryNode :=
  match GetType child with
  | TERM | PHRASE | KEYWORD => Ok child
  | AND_NOT => Err Unrecoverable
  | NOT | AND | OR => GetNewOptimizedQueryTree child
  end.
Fixpoint opt_children (children : list QueryNode) : res (list QueryNode) :=
  match children with
  | [] => Ok []
  | child :: children => let? child := opt_child child in let? children := opt_children children in Ok (child :: children)
  end.
Lemma optimize_multi k w cs :
  GetNewOptimizedQueryTree (MultiQueryNode k w cs) = let? cs := opt_children cs in InnerGetNewOptimizedQueryTree k cs.
Proof.
  reflexivity.
Qed.

Section tree.
Context (term : string -> string -> bool) (phrase : string -> list string -> Z -> bool).
Abbreviation any l := (existsb id (map (matches term phrase) l)).
Abbreviation all l := (forallb id (map (matches term phrase) l)).

Definition opt_ok (q : QueryNode) (r : res QueryNode) : Prop :=
  match r with
  | Ok q' => polarity q = Some (negb (is_not q')) /\ shape q' /\ matches term phrase q' = matches term phrase q
  | Err _ => polarity q = None
  end.

Lemma opt_children_spec cs : Forall (fun c => opt_ok c (opt_child c)) cs ->
  match opt_children cs with
  | Ok cs' => map polarity cs = map (fun c => Some (negb (is_not c))) cs' /\ Forall shape cs' /\
              map (matches term phrase) cs' = map (matches term phrase) cs /\ length cs' = length cs
  | Err _ => None ∈ map polarity cs
  end.
Proof.
  induction 1 as [|c cs Hc _ IH]; [by repeat constructor|]. cbn [opt_children]. destruct (opt_child c) as [c'|]; cbn [res_bind].
  - destruct Hc as (Hp & Hs & Hm). destruct (opt_children cs) as [cs'|]; cbn [res_bind].
    + destruct IH as (IH1 & IH2 & IH3 & IH4). cbn. rewrite Hp, IH1, Hm, IH3, IH4. repeat split. by constructor.
    + cbn. by right.
  - cbn in Hc |- *. rewrite Hc. by left.
Qed.

(** The polarities of the children of a rewritten node. *)
Abbreviation positive p := (bool_decide (p = Some true)).
Lemma polarity_lists cs : let ps := map (fun c => Some (negb (is_not c))) cs in
  forallb (fun p => positive p) ps = negb (existsb is_not cs) /\ forallb (fun p => bool_decide (p = Some false)) ps = forallb is_not cs /\
  forallb (fun p => bool_decide (p <> None)) ps = true /\ existsb (fun p => positive p) ps = negb (forallb is_not cs).
Proof.
  induction cs as [|c cs (IH1 & IH2 & IH3 & IH4)]; [done|]. cbn. rewrite IH1, IH2, IH3, IH4.
  by destruct (is_not c), (existsb is_not cs), (forallb is_not cs).
Qed.
Lemma None_not_all (ps : list (option bool)) (f : option bool -> bool) : None ∈ ps -> f None = false -> forallb f ps = false.
Proof. intros H Hf. apply not_true_is_false. rewrite forallb_forall. intros Ha. rewrite Ha in Hf; [done|]. by apply list_elem_of_In. Qed.

Lemma inner_spec k w cs : (k = NotQueryNode \/ k = AndQueryNode \/ k = OrQueryNode) -> Forall (fun c => opt_ok c (opt_child c)) cs ->
  opt_ok (MultiQueryNode k w cs) (GetNewOptimizedQueryTree (MultiQueryNode k w cs)).
Proof.
  intros Hk Hcs. rewrite optimize_multi. pose proof (opt_children_spec cs Hcs) as H. destruct (opt_children cs) as [cs'|]; cbn [res_bind].
  - destruct H as (Hp & Hs & Hm & Hlen). pose proof (polarity_lists cs') as (P1 & P2 & P3 & P4). rewrite <- Hp in P1, P2, P3, P4.
    destruct Hk as [-> | [-> | ->]]; cbn [InnerGetNewOptimizedQueryTree].
    + unfold InnerNot. pose proof (not_list_spec term phrase cs' Hs) as Hn. destruct cs' as [|c cs'].
      { destruct cs; [|done]. done. }
      rewrite bool_decide_false by done. cbn [negb]. assert (cs <> []) by by destruct cs. unfold opt_ok. cbn [polarity]. rewrite P1, bool_decide_false by done. cbn [negb andb].
      destruct (existsb is_not (c :: cs')); [by rewrite Hn|]. destruct Hn as (l & -> & Hl & Hll & Em). cbn [res_bind negb]. split; [done|]. split.
      * apply shape_not; [|done]. intros ->. cbn in Hll. lia.
      * cbn [matches]. by rewrite Em, Hm.
    + unfold opt_ok. cbn [polarity]. rewrite P3, P4, <- Hlen. destruct (2 <=? length cs')%nat eqn:E.
      * apply Nat.leb_le in E. destruct (InnerAnd_spec term phrase cs' Hs E) as (q & -> & Hq & Em & Hn & _). rewrite Hn. split; [done|]. split; [done|].
        cbn [matches]. by rewrite Em, Hm.
      * unfold InnerAnd. by rewrite E.
    + unfold opt_ok. cbn [polarity]. rewrite P1, P2, <- Hlen. destruct (2 <=? length cs')%nat eqn:E.
      * apply Nat.leb_le in E. pose proof (InnerOr_spec term phrase cs' Hs E) as Ho.
        assert (Hx : forallb is_not cs' = true -> existsb is_not cs' = true) by (destruct cs'; cbn in *; [lia|]; by intros [-> _]%andb_true_iff).
        destruct (existsb is_not cs'), (forallb is_not cs'); cbn [negb orb] in *; try (by specialize (Hx eq_refl)).
        -- destruct Ho as (q & -> & Hq & Em & Hn). rewrite Hn. split; [done|]. split; [done|]. cbn [matches]. by rewrite Em, Hm.
        -- by rewrite Ho.
        -- destruct Ho as (q & -> & Hq & Em & Hn). rewrite Hn. split; [done|]. split; [done|]. cbn [matches]. by rewrite Em, Hm.
      * unfold InnerOr. by rewrite E.
  - unfold opt_ok. destruct Hk as [-> | [-> | ->]]; cbn [polarity]; rewrite ?(None_not_all _ (fun p => positive p)), ?(None_not_all _ (fun p => bool_decide (p = Some false))),
      ?(None_not_all _ (fun p => bool_decide (p <> None))), ?andb_false_r by done; first [done|by destruct (2 <=? length cs)%nat].
Qed.

Lemma optimize_spec q : opt_ok q (opt_child q) /\ (is_leaf q = false -> GetType q <> AND_NOT -> opt_ok q (GetNewOptimizedQueryTree q)).
Proof.
  induction q as [w t c p|w ts c s|k w cs IH] using QueryNode_ind'.
  - split; [|done]. cbn. split; [done|]. split; [by apply shape_leaf|done].
  - split; [|done]. cbn. split; [done|]. split; [by apply shape_leaf|done].
  - assert (Hcs : Forall (fun c => opt_ok c (opt_child c)) cs) by (eapply Forall_impl; [exact IH|]; by intros c [? _]).
    destruct k; try (split; [|intros _ _]; apply inner_spec; auto; done).
    + split; [done|done].
    + split; [|done]. cbn. split; [done|]. split; [by apply shape_leaf|done].
Qed.

(** ** Weights do not matter *)
Lemma push_down_type f q : GetType (PushDownWeight f q) = GetType q.
Proof. by destruct q as [| |[] w cs]. Qed.
Lemma push_down_same q f : polarity (PushDownWeight f q) = polarity q /\ matches term phrase (PushDownWeight f q) = matches term phrase q.
Proof.
  revert f. induction q as [w t c p|w ts c s|k w cs IH] using QueryNode_ind'; intros f; [done|done|].
  assert (H : map polarity (map (PushDownWeight (f32_mul f w)) cs) = map polarity cs /\
    map (matches term phrase) (map (PushDownWeight (f32_mul f w)) cs) = map (matches term phrase) cs).
  { rewrite !map_map. split; apply map_ext_Forall; (eapply Forall_impl; [exact IH|]); intros c Hc; apply Hc. }
  destruct H as [H1 H2]. destruct k; cbn [PushDownWeight MultiplyWeight]; [| | | |done]; split; cbn [polarity matches]; rewrite ?H1, ?H2, ?length_map; try done.
  by destruct cs.
Qed.
End tree.

Lemma optimized_tree (root : QueryNode) :
  match GetOptimizedQueryTree root with
  | Ok tree => valid root = true /\ normal tree = true /\ is_not tree = false /\
               forall term phrase, matches term phrase tree = matches term phrase root
  | Err _ => valid root = false
  end.
Proof.
  unfold GetOptimizedQueryTree. set (q := PushDownWeight f32_one root).
  assert (Hpush : forall term phrase, polarity q = polarity root /\ matches term phrase q = matches term phrase root) by (intros; apply push_down_same).
  assert (Hp : polarity q = polarity root) by apply (Hpush (fun _ _ => true) (fun _ _ _ => true)).
  unfold valid. rewrite <- (push_down_type f32_one root). fold q. rewrite <- Hp. pose proof (fun t p => proj2 (Hpush t p)) as Hm. clearbody q.
  assert (Hleaf : is_leaf q = true -> bool_decide (polarity q = Some true) = true /\ normal q = true /\ is_not q = false).
  { intros Hq. split_and!; [by destruct q as [| |[] ? ?]|by apply normal_shape, shape_leaf|by apply leaf_not_not]. }
  assert (Hinner : is_leaf q = false -> GetType q <> AND_NOT -> match GetNewOptimizedQueryTree q with
    | Ok tree => bool_decide (polarity q = Some true) = negb (is_not tree) /\ normal tree = true /\ forall t p, matches t p tree = matches t p root
    | Err _ => bool_decide (polarity q = Some true) = false end).
  { intros H1 H2. pose proof (fun t p => proj2 (optimize_spec t p q) H1 H2) as H. unfold opt_ok in H. destruct (GetNewOptimizedQueryTree q) as [tree|].
    - destruct (H (fun _ _ => true) (fun _ _ _ => true)) as (-> & Hs & _). split; [by destruct (is_not tree)|]. split; [by apply normal_shape|].
      intros t p. rewrite <- Hm. apply H.
    - by rewrite (H (fun _ _ => true) (fun _ _ _ => true)). }
  destruct (GetType q) eqn:Et; try done;
    try (destruct Hleaf as (? & ? & ?); [unfold is_leaf; by rewrite Et|]; auto).
  - assert (is_leaf q = false) as Hl by (unfold is_leaf; by rewrite Et). specialize (Hinner Hl ltac:(done)).
    destruct (GetNewOptimizedQueryTree q) as [tree|]; cbn [res_bind]; [|done]. destruct Hinner as (-> & Hn & Hmm). fold (is_not tree).
    destruct (is_not tree) eqn:En; [done|]. cbn [negb]. by rewrite En.
  - assert (is_leaf q = false) as Hl by (unfold is_leaf; by rewrite Et). specialize (Hinner Hl ltac:(done)).
    destruct (GetNewOptimizedQueryTree q) as [tree|]; cbn [res_bind]; [|done]. destruct Hinner as (-> & Hn & Hmm). fold (is_not tree).
    destruct (is_not tree) eqn:En; [done|]. cbn [negb]. by rewrite En.
Qed.

(** C17. The optimisation of query trees is correct. It accepts exactly the queries that are not negative
    as a whole, in which, once the children are rewritten, no NOT stands below a NOT and no OR mixes negative and positive
    children; the tree
    it returns has the promised normal form, without NOT, and every document matches it exactly if it
    matches the query, whatever its terms and phrases mean. *)
Theorem query_optimization_correct (root : QueryNode) :
  match GetOptimizedQueryTree root with
  | Ok tree => valid root = true /\ normal tree = true /\ is_not tree = false /\
               forall term phrase, matches term phrase tree = matches term phrase root
  | Err _ => valid root = false
  end.
Proof. apply optimized_tree. Qed.
