(* ===== verification/DocIterator.v ===== *)
(** * Document iterators: [src/src/storage/invertedindex/search]

    An iterator stands on a document, or on [INVALID_ROWID] before its first call and after its last
    document, and [Next doc_id] moves it to a document that is not before [doc_id]. Iterators of terms
    and phrases read postings; the others combine iterators. Postings enter through the class
    [Posting]: what [SeekDoc] answers and the positions of the term in a document. The iterators are
    those of a filter, where all matches are wanted: there is no score threshold. The loops of [Next]
    take fuel and give [None] without it. The heaps of the standard library are lists from which a
    least element is taken. *)
From stdpp Require Import sorting.
From S2P Require Import Prelude.

Definition INVALID_ROWID : Z := 2 ^ 64 - 1.

(** ** Postings *)
Class Posting := {
  posting : Type;
  SeekDoc : Z -> posting -> posting;
  posting_doc : posting -> Z;
  posting_df : posting -> Z;
  (** The number of documents of the column. *)
  posting_total_df : posting -> Z;
  posting_positions : posting -> Z -> list Z;
}.

(** ** Costs: [DocIteratorEstimateIterateCost] *)
Record cost := mkCost { priority_ : Z; estimate_cost_ : Z }.
Definition cost_le (a b : cost) : Prop :=
  priority_ a < priority_ b \/ (priority_ a = priority_ b /\ estimate_cost_ a <= estimate_cost_ b).
#[export] Instance cost_le_dec a b : Decision (cost_le a b).
Proof. unfold cost_le. apply _. Defined.
Definition cost_add (a rhs : cost) : cost :=
  let '(a, rhs) := if priority_ a <? priority_ rhs then (rhs, a) else (a, rhs) in
  mkCost (priority_ a) (u32 (estimate_cost_ a + Z.shiftr (estimate_cost_ rhs) (3 * (priority_ a - priority_ rhs)))).
Definition cost_min (a b : cost) : cost := if decide (cost_le a b) then a else b.

(** ** The heap of an OR: [DocIteratorHeap]

    The entries start at 1, as in the source. *)
Module DocIteratorHeap.
Record DocIteratorEntry := mkEntry { entry_doc : Z; entry_id : nat }.
#[export] Instance entry_inhabited : Inhabited DocIteratorEntry := populate (mkEntry INVALID_ROWID 0).
Implicit Types h : list DocIteratorEntry.

Definition make : list DocIteratorEntry := [mkEntry INVALID_ROWID 0].
Definition AddEntry (e : DocIteratorEntry) h : list DocIteratorEntry := h ++ [e].
Definition TopEntry h : DocIteratorEntry := h !!! 1%nat.

Definition swap (i j : nat) h : list DocIteratorEntry := <[i := h !!! j]> (<[j := h !!! i]> h).
Definition smaller h (i j : nat) : nat :=
  if bool_decide (i < length h)%nat && (entry_doc (h !!! i) <? entry_doc (h !!! j)) then i else j.
(** The child of [idx] to swap with, or [idx]. *)
Definition min_child h (idx : nat) : nat := smaller h (2 * idx + 1) (smaller h (2 * idx) idx).
Fixpoint adjust (fuel : nat) (idx : nat) h : list DocIteratorEntry :=
  match fuel with
  | O => h
  | S fuel => let min := min_child h idx in if (min =? idx)%nat then h else adjust fuel min (swap idx min h)
  end.
Definition AdjustDown (idx : nat) h : list DocIteratorEntry := adjust (length h) idx h.
Fixpoint build (i : nat) h : list DocIteratorEntry :=
  match i with O => h | S i' => build i' (AdjustDown i h) end.
Definition BuildHeap h : list DocIteratorEntry := build ((1 + length h) / 2) h.
End DocIteratorHeap.
Import DocIteratorHeap.

(** ** Phrases: [PhraseDocIterator::GetPhraseMatchData] *)
Module Phrase.
Definition INVALID_POSITION : Z := 2 ^ 32 - 1.

(** The first position from [pos] on. *)
Definition SeekPosition (pos : Z) (l : list Z) : Z := default INVALID_POSITION (head (filter (fun p => pos <= p) l)).

Fixpoint follows (position0 i : Z) (rest : list (list Z)) : bool :=
  match rest with
  | [] => true
  | l :: rest => if SeekPosition (position0 + i) l =? position0 + i then follows position0 (i + 1) rest else false
  end.
Definition GetExactPhraseMatchData (positions : list (list Z)) : list Z :=
  match positions with
  | [] => []
  | l :: rest => filter (fun position0 => follows position0 1 rest = true) l
  end.

(** The explicit stack of steps is the recursion: [walk] takes the positions of a step in turn and stops
    at the first one that does not fit. The result is the lengths of the solutions. *)
Definition fits (slop : Z) (prev : option (Z * Z)) (phrase_pos : Z) : option (Z * Z) :=
  match prev with
  | None => Some (phrase_pos, phrase_pos)
  | Some (lo, hi) =>
      let lo := Z.min phrase_pos lo in
      let hi := Z.max phrase_pos hi in
      if slop <? hi - lo then None else Some (lo, hi)
  end.
Definition first_step (slop i : Z) (prev : option (Z * Z)) (l : list Z) : list Z :=
  match prev with
  | None => l
  | Some (lo, _) => filter (fun p => lo - slop + i <= p) l
  end.
Fixpoint sloppy (slop i : Z) (positions : list (list Z)) (prev : option (Z * Z)) : list Z :=
  match positions with
  | [] => []
  | l :: rest =>
      (fix walk (l : list Z) : list Z :=
         match l with
         | [] => []
         | p :: l =>
             match fits slop prev (p - i) with
             | None => []
             | Some (lo, hi) =>
                 (match rest with [] => [hi - lo] | _ => sloppy slop (i + 1) rest (Some (lo, hi)) end) ++ walk l
             end
         end) (first_step slop i prev l)
  end.
Definition GetSloppyPhraseMatchData (slop : Z) (positions : list (list Z)) : list Z := sloppy slop 0 positions None.

Definition GetPhraseMatchData (slop : Z) (positions : list (list Z)) : bool :=
  negb (bool_decide ((if slop =? 0 then GetExactPhraseMatchData positions else GetSloppyPhraseMatchData slop positions) = [])).
End Phrase.

(** ** The loops of the combining iterators

    [next] is the call of the children. *)
Section loops.
Context {A : Type} (doc_id : A -> Z) (next : Z -> A -> option (bool * A)).

(** The [for] loop of [AndIterator::Next]; [None] is a child without a document. *)
Fixpoint and_round (target_doc_id : Z) (children : list A) : option (option Z * list A) :=
  match children with
  | [] => Some (Some target_doc_id, [])
  | it :: children =>
      match next target_doc_id it with
      | None => None
      | Some (false, it) => Some (None, it :: children)
      | Some (true, it) =>
          match and_round (doc_id it) children with
          | None => None
          | Some (r, children) => Some (r, it :: children)
          end
      end
  end.
Definition first_doc (children : list A) : Z := match children with [] => INVALID_ROWID | it :: _ => doc_id it end.
Fixpoint and_loop (fuel : nat) (target_doc_id : Z) (children : list A) : option (Z * list A) :=
  match fuel with
  | O => None
  | S fuel =>
      match and_round target_doc_id children with
      | None => None
      | Some (None, children) => Some (INVALID_ROWID, children)
      | Some (Some target_doc_id, children) =>
          if target_doc_id =? INVALID_ROWID then Some (INVALID_ROWID, children)
          else if target_doc_id =? first_doc children then Some (target_doc_id, children)
          else and_loop fuel target_doc_id children
      end
  end.

(** The [for] loop of [AndNotIterator::Next]: whether an excluded document was found. *)
Fixpoint and_not_scan (doc : Z) (children : list A) : option (bool * list A) :=
  match children with
  | [] => Some (false, [])
  | it :: children =>
      match next doc it with
      | None => None
      | Some (_, it) =>
          if doc_id it =? doc then Some (true, it :: children)
          else match and_not_scan doc children with
               | None => None
               | Some (b, children) => Some (b, it :: children)
               end
      end
  end.
Fixpoint and_not_loop (fuel : nat) (doc : Z) (first : A) (children : list A) : option (Z * A * list A) :=
  match fuel with
  | O => None
  | S fuel =>
      match next doc first with
      | None => None
      | Some (_, first) =>
          let doc := doc_id first in
          if doc =? INVALID_ROWID then Some (INVALID_ROWID, first, children)
          else match and_not_scan doc children with
               | None => None
               | Some (true, children) => and_not_loop fuel (u64 (doc + 1)) first children
               | Some (false, children) => Some (doc, first, children)
               end
      end
  end.

(** [DocIterator::Next()]. *)
Definition next_doc (it : A) : option (bool * A) :=
  next (if doc_id it =? INVALID_ROWID then 0 else u64 (doc_id it + 1)) it.

(** The first call of an OR or a keyword moves every child and builds the heap. *)
Fixpoint or_start (i : nat) (heap : list DocIteratorEntry) (children : list A) : option (list DocIteratorEntry * list A) :=
  match children with
  | [] => Some (heap, [])
  | it :: children =>
      match next_doc it with
      | None => None
      | Some (_, it) =>
          match or_start (S i) (AddEntry (mkEntry (doc_id it) i) heap) children with
          | None => None
          | Some (heap, children) => Some (heap, it :: children)
          end
      end
  end.
Fixpoint or_loop (fuel : nat) (doc : Z) (heap : list DocIteratorEntry) (children : list A)
    : option (list DocIteratorEntry * list A) :=
  match fuel with
  | O => None
  | S fuel =>
      if doc <=? entry_doc (TopEntry heap) then Some (heap, children)
      else let i := entry_id (TopEntry heap) in
           match children !! i with
           | None => None
           | Some top =>
               match next doc top with
               | None => None
               | Some (_, top) =>
                   or_loop fuel doc (AdjustDown 1 (<[1%nat := mkEntry (doc_id top) i]> heap)) (<[i := top]> children)
               end
           end
  end.
Definition or_next (fuel : nat) (doc doc_id_ : Z) (heap : list DocIteratorEntry) (children : list A)
    : option (Z * list DocIteratorEntry * list A) :=
  match (if doc_id_ =? INVALID_ROWID then
           match or_start 0 heap children with
           | None => None
           | Some (heap, children) => let heap := BuildHeap heap in Some (entry_doc (TopEntry heap), heap, children)
           end
         else Some (doc_id_, heap, children)) with
  | None => None
  | Some (doc_id_, heap, children) =>
      if negb (doc_id_ =? INVALID_ROWID) && (doc <=? doc_id_) then Some (doc_id_, heap, children)
      else match or_loop fuel doc heap children with
           | None => None
           | Some (heap, children) => Some (entry_doc (TopEntry heap), heap, children)
           end
  end.

(** The loop of [MinimumShouldMatchWrapper::Next]; an exception gives no result either. *)
Fixpoint wrapper_loop (match_count : A -> res Z) (minimum_should_match : Z) (fuel : nat) (doc : Z) (base : A) : option (bool * A) :=
  match fuel with
  | O => None
  | S fuel =>
      match next doc base with
      | None => None
      | Some (false, base) => Some (false, base)
      | Some (true, base) =>
          match match_count base with
          | Err _ => None
          | Ok count => if minimum_should_match <=? count then Some (true, base)
                        else wrapper_loop match_count minimum_should_match fuel (u64 (doc_id base + 1)) base
          end
      end
  end.

(** All children move to a document; the answers are not used. *)
Fixpoint next_all (doc : Z) (children : list A) : option (list A) :=
  match children with
  | [] => Some []
  | it :: children =>
      match next doc it with
      | None => None
      | Some (_, it) => match next_all doc children with None => None | Some children => Some (it :: children) end
      end
  end.
End loops.

(** ** [MinimumShouldMatchIterator]

    The children that stand on the current document are in [lead_], the ones behind it in
    [head_heap_], and up to [minimum_should_match_ - 1] others, which lag, in [tail_heap_]. *)
Section minimum_should_match.
Context {A : Type} (doc_id : A -> Z) (next : Z -> A -> option (bool * A)) (cost_of : A -> cost) (minimum_should_match_ : Z).

Record msm_state := mkMsm { lead_ : list nat; head_heap_ : list nat; tail_heap_ : list nat; msm_children : list A }.
Implicit Types (m : msm_state) (idx : nat).

(** A least element of a list, and the rest: the top of a heap of [std::push_heap] and [std::pop_heap]. *)
Fixpoint take_least (le : nat -> nat -> bool) (l : list nat) : option (nat * list nat) :=
  match l with
  | [] => None
  | x :: l => match take_least le l with
              | None => Some (x, [])
              | Some (y, rest) => if le x y then Some (x, l) else Some (y, x :: rest)
              end
  end.
Definition child_doc m idx : Z := match msm_children m !! idx with Some it => doc_id it | None => INVALID_ROWID end.
Definition child_cost m idx : cost := match msm_children m !! idx with Some it => cost_of it | None => mkCost 0 0 end.
Definition by_doc m (x y : nat) : bool := child_doc m x <=? child_doc m y.
Definition by_cost m (x y : nat) : bool := bool_decide (cost_le (child_cost m x) (child_cost m y)).

Definition HeadHeapTop m : Z := match take_least (by_doc m) (head_heap_ m) with Some (idx, _) => child_doc m idx | None => INVALID_ROWID end.
Definition PushToHeadHeap idx m : msm_state := mkMsm (lead_ m) (idx :: head_heap_ m) (tail_heap_ m) (msm_children m).
Definition PushToTailHeap idx m : option nat * msm_state :=
  let set_tail tail := mkMsm (lead_ m) (head_heap_ m) tail (msm_children m) in
  if Z.of_nat (length (tail_heap_ m)) <? minimum_should_match_ - 1 then (None, set_tail (idx :: tail_heap_ m))
  else match take_least (by_cost m) (tail_heap_ m) with
       | None => (Some idx, m)
       | Some (front, rest) => if by_cost m idx front then (Some idx, m) else (Some front, set_tail (idx :: rest))
       end.
Definition set_child idx it m : msm_state := mkMsm (lead_ m) (head_heap_ m) (tail_heap_ m) (<[idx := it]> (msm_children m)).

(** A child goes to the tail; the one that leaves it moves on to [doc]. *)
Definition lag_behind (doc : Z) idx m : option msm_state :=
  match PushToTailHeap idx m with
  | (None, m) => Some m
  | (Some pop_idx, m) =>
      match msm_children m !! pop_idx with
      | None => None
      | Some it =>
          match next doc it with
          | None => None
          | Some (b, it) => let m := set_child pop_idx it m in Some (if b then PushToHeadHeap pop_idx m else m)
          end
      end
  end.
Fixpoint lag_all (doc : Z) (l : list nat) m : option msm_state :=
  match l with
  | [] => Some m
  | idx :: l => match lag_behind doc idx m with None => None | Some m => lag_all doc l m end
  end.
(** [while (HeadHeapTop() < doc_id)]. *)
Fixpoint lag_heads (fuel : nat) (doc : Z) m : option msm_state :=
  match fuel with
  | O => None
  | S fuel =>
      if HeadHeapTop m <? doc then
        match take_least (by_doc m) (head_heap_ m) with
        | None => None
        | Some (idx, rest) =>
            match lag_behind doc idx (mkMsm (lead_ m) rest (tail_heap_ m) (msm_children m)) with
            | None => None
            | Some m => lag_heads fuel doc m
            end
        end
      else Some m
  end.
(** [while (HeadHeapTop() == doc_id)]. *)
Fixpoint collect_lead (fuel : nat) (doc : Z) m : msm_state :=
  match fuel with
  | O => m
  | S fuel =>
      if HeadHeapTop m =? doc then
        match take_least (by_doc m) (head_heap_ m) with
        | None => m
        | Some (idx, rest) => collect_lead fuel doc (mkMsm (lead_ m ++ [idx]) rest (tail_heap_ m) (msm_children m))
        end
      else m
  end.
Definition enough (l : list nat) : bool := minimum_should_match_ <=? Z.of_nat (length l).
(** [while (lead_.size() + tail_size_ >= minimum_should_match_)]: whether the document matches. *)
Fixpoint advance_tail (fuel : nat) (doc : Z) m : option (bool * msm_state) :=
  match fuel with
  | O => None
  | S fuel =>
      if enough (lead_ m ++ tail_heap_ m) then
        match take_least (by_cost m) (tail_heap_ m) with
        | None => None
        | Some (idx, rest) =>
            let m := mkMsm (lead_ m) (head_heap_ m) rest (msm_children m) in
            match msm_children m !! idx with
            | None => None
            | Some it =>
                match next doc it with
                | None => None
                | Some (b, it) =>
                    let m := set_child idx it m in
                    if negb b then advance_tail fuel doc m
                    else if doc <? doc_id it then advance_tail fuel doc (PushToHeadHeap idx m)
                    else let m := mkMsm (lead_ m ++ [idx]) (head_heap_ m) (tail_heap_ m) (msm_children m) in
                         if enough (lead_ m) then Some (true, m) else advance_tail fuel doc m
                end
            end
        end
      else Some (false, m)
  end.
Fixpoint msm_loop (fuel : nat) (doc : Z) m : option (Z * msm_state) :=
  match fuel with
  | O => None
  | S fuel =>
      match lag_all doc (lead_ m) (mkMsm [] (head_heap_ m) (tail_heap_ m) (msm_children m)) with
      | None => None
      | Some m =>
          match lag_heads fuel doc m with
          | None => None
          | Some m =>
              if negb (enough (tail_heap_ m ++ head_heap_ m)) then Some (INVALID_ROWID, m)
              else
                let doc := HeadHeapTop m in
                let m := collect_lead (length (head_heap_ m)) doc m in
                if enough (lead_ m) then Some (doc, m)
                else match advance_tail fuel doc m with
                     | None => None
                     | Some (true, m) => Some (doc, m)
                     | Some (false, m) => msm_loop fuel (u64 (doc + 1)) m
                     end
          end
      end
  end.
Definition msm_next (fuel : nat) (doc doc_id_ : Z) m : option (Z * msm_state) :=
  if doc_id_ =? INVALID_ROWID then
    msm_loop fuel doc (mkMsm (seq 0 (length (msm_children m))) (head_heap_ m) (tail_heap_ m) (msm_children m))
  else if doc <=? doc_id_ then Some (doc_id_, m) else msm_loop fuel doc m.
End minimum_should_match.
Arguments msm_state : clear implicits.
Arguments mkMsm {A} _ _ _ _.
Arguments lead_ {A} _.
Arguments head_heap_ {A} _.
Arguments tail_heap_ {A} _.
Arguments msm_children {A} _.

(** ** The iterators *)
Section iterators.
Context `{P : Posting}.

Inductive DocIterator :=
| TermDocIterator (doc_id_ : Z) (iter_ : posting)
| PhraseDocIterator (doc_id_ : Z) (pos_iters_ : list posting) (slop_ : Z)
| AndIterator (doc_id_ : Z) (children_ : list DocIterator)
| AndNotIterator (doc_id_ : Z) (children_ : list DocIterator)
| OrIterator (doc_id_ : Z) (heap_ : list DocIteratorEntry) (children_ : list DocIterator)
| KeywordIterator (doc_id_ : Z) (heap_ : list DocIteratorEntry) (children_ : list DocIterator)
| MustFirstIterator (doc_id_ : Z) (children_ : list DocIterator)
| BatchOrIterator (doc_id_ buffer_start_doc_id_ : Z) (match_cnt_ : list Z) (children_ : list (Z * posting))
| MinimumShouldMatchIterator (doc_id_ minimum_should_match_ : Z) (lead_ head_heap_ tail_heap_ : list nat) (children_ : list DocIterator)
| MinimumShouldMatchWrapper (minimum_should_match_ : Z) (base : DocIterator).

Fixpoint DocID (it : DocIterator) : Z :=
  match it with
  | TermDocIterator d _ | PhraseDocIterator d _ _ | AndIterator d _ | AndNotIterator d _ | OrIterator d _ _ | KeywordIterator d _ _
  | MustFirstIterator d _ | BatchOrIterator d _ _ _ | MinimumShouldMatchIterator d _ _ _ _ _ => d
  | MinimumShouldMatchWrapper _ base => DocID base
  end.

Definition first_cost (costs : list cost) : cost := default (mkCost 0 0) (head costs).
Fixpoint GetEstimateIterateCost (it : DocIterator) : cost :=
  match it with
  | TermDocIterator _ p => mkCost 0 (posting_df p)
  | PhraseDocIterator _ ps _ => mkCost 1 (match posting_df <$> ps with [] => 0 | df :: dfs => foldl Z.min df dfs end)
  | AndIterator _ cs => foldl cost_min (mkCost 0 0) (map GetEstimateIterateCost cs)
  | AndNotIterator _ cs | MustFirstIterator _ cs => first_cost (map GetEstimateIterateCost cs)
  | OrIterator _ _ cs | KeywordIterator _ _ cs | MinimumShouldMatchIterator _ _ _ _ _ cs =>
      foldl cost_add (mkCost 0 0) (map GetEstimateIterateCost cs)
  | BatchOrIterator _ _ _ cs => foldl cost_add (mkCost 0 0) (map (fun c => mkCost 0 (posting_df c.2)) cs)
  | MinimumShouldMatchWrapper _ base => GetEstimateIterateCost base
  end.

(** The number of matching terms and phrases on the current document. *)
Definition res_sum (l : list (res Z)) : res Z := foldl (fun acc r => let? a := acc in let? c := r in Ok (u32 (a + c))) (Ok 0) l.
Fixpoint MatchCount (it : DocIterator) : res Z :=
  let on_doc d (cs : list DocIterator) := map (fun c => if DocID c =? d then MatchCount c else Ok 0) cs in
  match it with
  | TermDocIterator d _ | PhraseDocIterator d _ _ => Ok (if d =? INVALID_ROWID then 0 else 1)
  | AndIterator d cs =>
      if d =? INVALID_ROWID then Ok 0
      else res_sum (map (fun c => match c with
                                  | TermDocIterator _ _ | PhraseDocIterator _ _ _ => Ok 1
                                  | _ => MatchCount c
                                  end) cs)
  | AndNotIterator _ (c :: _) => MatchCount c
  | AndNotIterator _ [] => Err Undefined
  | OrIterator d _ cs | MustFirstIterator d cs => if d =? INVALID_ROWID then Ok 0 else res_sum (on_doc d cs)
  | KeywordIterator _ _ _ => Ok 0
  | BatchOrIterator d start cnt _ => match cnt !! Z.to_nat (u32 (d - start)) with Some c => Ok c | None => Err Undefined end
  | MinimumShouldMatchIterator _ _ _ _ _ _ => Err Unrecoverable
  | MinimumShouldMatchWrapper _ base => MatchCount base
  end.

(** *** Constructors *)
Definition sort_by_cost (l : list DocIterator) : list DocIterator :=
  merge_sort (fun a b => cost_le (GetEstimateIterateCost a) (GetEstimateIterateCost b)) l.
Definition make_and (iterators : list DocIterator) : DocIterator := AndIterator INVALID_ROWID (sort_by_cost iterators).
Definition make_and_not (iterators : list DocIterator) : DocIterator :=
  AndNotIterator INVALID_ROWID (match iterators with [] => [] | it :: l => it :: sort_by_cost l end).
Definition make_or (iterators : list DocIterator) : DocIterator := OrIterator INVALID_ROWID make iterators.
Definition make_keyword (iterators : list DocIterator) : DocIterator := KeywordIterator INVALID_ROWID make iterators.
Definition make_must_first (iterators : list DocIterator) : DocIterator := MustFirstIterator INVALID_ROWID iterators.
Definition make_msm (iterators : list DocIterator) (minimum_should_match : Z) : res DocIterator :=
  check? 1 <? minimum_should_match else Unrecoverable in
  Ok (MinimumShouldMatchIterator INVALID_ROWID minimum_should_match [] [] [] iterators).

(** *** Leaves *)
Definition posting_next (t : Z) (p : posting) : option (bool * posting) :=
  let p := SeekDoc t p in Some (negb (posting_doc p =? INVALID_ROWID), p).
Definition term_next (t doc_id_ : Z) (p : posting) : bool * (Z * posting) :=
  if negb (doc_id_ =? INVALID_ROWID) && (t <=? doc_id_) then (true, (doc_id_, p))
  else let p := SeekDoc t p in (negb (posting_doc p =? INVALID_ROWID), (posting_doc p, p)).

(** The loop of [PhraseDocIterator::Next]: the postings meet as below an AND, then the positions decide. *)
Fixpoint phrase_loop (fuel : nat) (t slop : Z) (ps : list posting) : option (Z * list posting) :=
  match fuel with
  | O => None
  | S fuel =>
      match and_round posting_doc posting_next t ps with
      | None => None
      | Some (None, ps) => Some (INVALID_ROWID, ps)
      | Some (Some t, ps) =>
          if t =? first_doc posting_doc ps then
            if Phrase.GetPhraseMatchData slop (map (fun p => posting_positions p t) ps) then Some (t, ps)
            else phrase_loop fuel (u64 (t + 1)) slop ps
          else phrase_loop fuel t slop ps
      end
  end.

(** *** [BatchOrIterator]

    A buffer of 128 documents holds how many terms match each. Term frequencies in postings are
    positive. *)
Definition BATCH_OR_LEN : Z := 128.
Fixpoint BatchDecodeTo (fuel : nat) (start stop : Z) (p : posting) (hits : list Z) : option (list Z * posting) :=
  match fuel with
  | O => None
  | S fuel => if posting_doc p <? stop
              then BatchDecodeTo fuel start stop (SeekDoc (u64 (posting_doc p + 1)) p) (u32 (posting_doc p - start) :: hits)
              else Some (hits, p)
  end.
Fixpoint decode_children (fuel : nat) (start : Z) (cs : list (Z * posting)) : option (list (list Z) * list (Z * posting)) :=
  match cs with
  | [] => Some ([], [])
  | (d, p) :: cs =>
      match (if negb (d =? INVALID_ROWID) && (d <? u64 (start + BATCH_OR_LEN))
             then match BatchDecodeTo fuel start (u64 (start + BATCH_OR_LEN)) p [] with
                  | None => None
                  | Some (hits, p) => Some (hits, (posting_doc p, p))
                  end
             else Some ([], (d, p))) with
      | None => None
      | Some (hits, c) =>
          match decode_children fuel start cs with
          | None => None
          | Some (l, cs) => Some (hits :: l, c :: cs)
          end
      end
  end.
Definition match_counts (hits : list (list Z)) : list Z :=
  map (fun pos => Z.of_nat (length (filter (fun l => pos ∈ l) hits))) (seqZ 0 BATCH_OR_LEN).
(** The first position from [pos] on whose count is not 0. *)
Definition scan_buffer (pos : Z) (match_cnt : list Z) : option Z :=
  head (filter (fun i => pos <= i /\ match_cnt !! Z.to_nat i <> Some 0) (seqZ 0 BATCH_OR_LEN)).
Definition batch_fill (fuel : nat) (t : Z) (cs : list (Z * posting)) : option (Z * Z * list Z * list (Z * posting)) :=
  let cs := map (fun c => if c.1 =? INVALID_ROWID then c else (term_next t c.1 c.2).2) cs in
  let next_start := foldl Z.min INVALID_ROWID (map fst cs) in
  if next_start =? INVALID_ROWID then Some (INVALID_ROWID, next_start, [], cs)
  else match decode_children fuel next_start cs with
       | None => None
       | Some (hits, cs) => Some (next_start, next_start, match_counts hits, cs)
       end.
Definition batch_next (fuel : nat) (t doc_id_ start : Z) (cnt : list Z) (cs : list (Z * posting))
    : option (Z * Z * list Z * list (Z * posting)) :=
  if doc_id_ =? INVALID_ROWID then batch_fill fuel t (map (fun c => (term_next t c.1 c.2).2) cs)
  else if t <=? doc_id_ then Some (doc_id_, start, cnt, cs)
  else
    let pos := u32 (t - start) in
    if pos <? BATCH_OR_LEN then
      match scan_buffer pos cnt with
      | Some pos => Some (u64 (start + pos), start, cnt, cs)
      | None => batch_fill fuel (u64 (start + BATCH_OR_LEN)) cs
      end
    else batch_fill fuel t cs.

(** *** [Next] *)
Definition found (d : Z) : bool := negb (d =? INVALID_ROWID).
Fixpoint Next (fuel : nat) (t : Z) (it : DocIterator) : option (bool * DocIterator) :=
  match fuel with
  | O => None
  | S fuel =>
      match it with
      | TermDocIterator d p => let '(b, (d, p)) := term_next t d p in Some (b, TermDocIterator d p)
      | PhraseDocIterator d ps slop =>
          if found d && (t <=? d) then Some (true, it)
          else match phrase_loop fuel t slop ps with
               | None => None
               | Some (d, ps) => Some (found d, PhraseDocIterator d ps slop)
               end
      | AndIterator d cs =>
          if found d && (t <=? d) then Some (true, it)
          else match and_loop DocID (Next fuel) fuel t cs with
               | None => None
               | Some (d, cs) => Some (found d, AndIterator d cs)
               end
      | AndNotIterator d cs =>
          match cs with
          | [] => None
          | c :: cs => match and_not_loop DocID (Next fuel) fuel t c cs with
                       | None => None
                       | Some (d, c, cs) => Some (found d, AndNotIterator d (c :: cs))
                       end
          end
      | OrIterator d heap cs =>
          match or_next DocID (Next fuel) fuel t d heap cs with
          | None => None
          | Some (d, heap, cs) => Some (found d, OrIterator d heap cs)
          end
      | KeywordIterator d heap cs =>
          match or_next DocID (Next fuel) fuel t d heap cs with
          | None => None
          | Some (d, heap, cs) => Some (found d, KeywordIterator d heap cs)
          end
      | MustFirstIterator d cs =>
          match cs with
          | [] => None
          | c :: cs =>
              match Next fuel t c with
              | None => None
              | Some (_, c) =>
                  let d := DocID c in
                  if found d then match next_all (Next fuel) d cs with
                                  | None => None
                                  | Some cs => Some (true, MustFirstIterator d (c :: cs))
                                  end
                  else Some (false, MustFirstIterator d (c :: cs))
              end
          end
      | BatchOrIterator d start cnt cs =>
          match batch_next fuel t d start cnt cs with
          | None => None
          | Some (d, start, cnt, cs) => Some (found d, BatchOrIterator d start cnt cs)
          end
      | MinimumShouldMatchIterator d m lead head tail cs =>
          match msm_next DocID (Next fuel) GetEstimateIterateCost m fuel t d (mkMsm lead head tail cs) with
          | None => None
          | Some (d, s) => Some (found d, MinimumShouldMatchIterator d m (lead_ s) (head_heap_ s) (tail_heap_ s) (msm_children s))
          end
      | MinimumShouldMatchWrapper m base =>
          match wrapper_loop DocID (Next fuel) MatchCount m fuel t base with
          | None => None
          | Some (b, base) => Some (b, MinimumShouldMatchWrapper m base)
          end
      end
  end.
End iterators.
