(* ===== verification/DocCursor.v ===== *)
(** * Cursors over sets of documents

    The abstract iterator: a set of documents and a state. A fresh cursor goes to the first document
    that is not before the target; a cursor on a document [d] stays for targets up to [d] and goes on
    for later ones; a cursor that is done stays done. [p] in a state is the last target it moved for.
    [CursorOf] is what an iterator promises to the iterator that calls it; the loops of the combining
    iterators are proved against it, each for the set it computes. *)
From stdpp Require Import sorting.
From S2P Require Import Prelude DocIterator.
Import DocIteratorHeap.

(** ** The first document of a set *)
Definition least (S : gset Z) (t : Z) : option Z := head (merge_sort Z.le (filter (fun x => t <= x) (elements S))).

Lemma elem_of_tail_list (S : gset Z) t x : x ∈ merge_sort Z.le (filter (fun x => t <= x) (elements S)) <-> x ∈ S /\ t <= x.
Proof. rewrite merge_sort_Permutation, list_elem_of_filter, elem_of_elements. tauto. Qed.

Lemma least_Some S t d : least S t = Some d <-> d ∈ S /\ t <= d /\ forall x, x ∈ S -> t <= x -> d <= x.
Proof.
  unfold least. pose proof (elem_of_tail_list S t) as H.
  pose proof (StronglySorted_merge_sort Z.le (filter (fun x => t <= x) (elements S))) as Hs.
  destruct (merge_sort Z.le _) as [|a l]; cbn.
  - split; [done|]. intros (H1 & H2 & _). exfalso. by eapply (not_elem_of_nil d), H.
  - assert (Ha : a ∈ S /\ t <= a /\ forall x, x ∈ S -> t <= x -> a <= x).
    { split_and!; try apply H; try by left. intros x Hx Ht. specialize (proj2 (H x) (conj Hx Ht)). intros [->|Hl]%elem_of_cons; [done|].
      apply StronglySorted_inv in Hs as [_ Hf]. rewrite Forall_forall in Hf. by apply Hf. }
    split; [intros [= <-]; done|]. intros (H1 & H2 & H3). f_equal. apply Z.le_antisymm; [by apply Ha|]. by apply H3; apply Ha.
Qed.
Lemma least_None S t : least S t = None <-> forall x, x ∈ S -> x < t.
Proof.
  unfold least. pose proof (elem_of_tail_list S t) as H. destruct (merge_sort Z.le _) as [|a l]; cbn.
  - split; [|done]. intros _ x Hx. apply Z.nle_gt. intros Hle. by eapply (not_elem_of_nil x), H.
  - split; [done|]. intros Hn. destruct (proj1 (H a) ltac:(by left)) as [H1 H2]. specialize (Hn a H1). lia.
Qed.

(** ** States *)
Inductive state := Fresh | At (p d : Z) | Done (p : Z).
Definition at_or (S : gset Z) (t : Z) : state := match least S t with Some d => At t d | None => Done t end.
Definition advance (S : gset Z) (s : state) (t : Z) : state :=
  match s with
  | Fresh => at_or S t
  | At _ d => if t <=? d then s else at_or S t
  | Done _ => s
  end.
Definition doc (s : state) : Z := match s with At _ d => d | _ => INVALID_ROWID end.
Definition is_done (s : state) : Prop := match s with Done _ => True | _ => False end.
Definition is_fresh (s : state) : Prop := match s with Fresh => True | _ => False end.

(** Documents and targets are below a limit, that of a table or of one of its segments. *)
Class DocLimit := { limit : Z; limit_pos : 0 < limit }.
Section limit.
Context {DL : DocLimit}.
Definition in_range (S : gset Z) : Prop := forall x, x ∈ S -> 0 <= x < limit `min` INVALID_ROWID - 1.
Definition target (t : Z) : Prop := 0 <= t < limit `min` INVALID_ROWID.
Lemma target_0 : target 0.
Proof. pose proof limit_pos. unfold target, INVALID_ROWID. lia. Qed.
Definition valid_state (S : gset Z) (s : state) : Prop :=
  match s with
  | Fresh => True
  | At p d => p <= d /\ d ∈ S /\ forall x, x ∈ S -> p <= x -> d <= x
  | Done p => forall x, x ∈ S -> x < p
  end.
(** The state does not know of a target behind [t]. *)
Definition lag (s : state) (t : Z) : Prop := match s with Fresh => True | At p _ | Done p => p <= t end.

Lemma at_or_valid S t : valid_state S (at_or S t).
Proof.
  unfold at_or. destruct (least S t) as [d|] eqn:E; cbn; [|by apply least_None].
  apply least_Some in E as (H1 & H2 & H3). auto.
Qed.
Lemma advance_valid S s t : valid_state S s -> valid_state S (advance S s t).
Proof. destruct s; cbn; intros H; [apply at_or_valid| |done]. destruct (t <=? d); [done|apply at_or_valid]. Qed.
Lemma at_or_At S t d : d ∈ S -> t <= d -> (forall x, x ∈ S -> t <= x -> d <= x) -> at_or S t = At t d.
Proof. intros H1 H2 H3. unfold at_or. by rewrite (proj2 (least_Some S t d)). Qed.
Lemma at_or_Done S t : (forall x, x ∈ S -> ~ t <= x) -> at_or S t = Done t.
Proof. intros H. unfold at_or. rewrite (proj2 (least_None S t)); [done|]. intros x Hx. apply Z.nle_gt, H, Hx. Qed.
(** A call that is not answered from the current document. *)
Definition moves (s : state) (t : Z) : Prop := match s with At _ d => d < t | _ => True end.
Lemma advance_moves S s t : moves s t -> ~ is_done s -> advance S s t = at_or S t.
Proof. destruct s; cbn; [done| |done]. intros H _. by rewrite (proj2 (Z.leb_gt _ _)). Qed.
Lemma at_or_not_fresh S t : ~ is_fresh (at_or S t).
Proof. unfold at_or. destruct (least S t); cbn; tauto. Qed.
Lemma advance_not_fresh S s t : ~ is_fresh (advance S s t).
Proof. destruct s; cbn; [apply at_or_not_fresh| |tauto]. destruct (t <=? d); [cbn; tauto|apply at_or_not_fresh]. Qed.
Lemma at_or_lag S t : lag (at_or S t) t.
Proof. unfold at_or. destruct (least S t); cbn; lia. Qed.
Lemma advance_lag S s t : lag s t -> lag (advance S s t) t.
Proof. destruct s; cbn; intros H; [apply at_or_lag| |done]. destruct (t <=? d); [done|apply at_or_lag]. Qed.
Lemma lag_le s t t' : lag s t -> t <= t' -> lag s t'.
Proof. destruct s; cbn; lia. Qed.

(** A cursor that lags behind the target goes to the first document from it on. *)
Lemma advance_doc S s t : valid_state S s -> lag s t -> doc (advance S s t) = default INVALID_ROWID (least S t).
Proof.
  destruct s as [|p d|p]; cbn; intros Hv Hl.
  - unfold at_or. by destruct (least S t).
  - destruct (Z.leb_spec t d) as [Hle|Hgt]; [|unfold at_or; by destruct (least S t)]. destruct Hv as (H1 & H2 & H3).
    assert (least S t = Some d) as ->; [|done]. apply least_Some. split_and!; [done|done|]. intros x Hx Ht. apply H3; [done|lia].
  - assert (least S t = None) as ->; [|done]. apply least_None. intros x Hx. specialize (Hv x Hx). lia.
Qed.
Lemma advance_ge S s t : target t -> t <= doc (advance S s t).
Proof.
  intros [Ht1 Ht2]. assert (Ha : t <= doc (at_or S t)).
  { unfold at_or. destruct (least S t) as [d|] eqn:E; cbn; [|lia]. by apply least_Some in E as (_ & ? & _). }
  destruct s; cbn; [done| |lia]. destruct (Z.leb_spec t d); cbn; [done|done].
Qed.
Lemma doc_valid S s : in_range S -> valid_state S s -> doc s = INVALID_ROWID \/ (doc s ∈ S /\ target (doc s)).
Proof. destruct s as [|p d|p]; cbn; intros Hr Hv; auto. right. destruct Hv as (_ & Hd & _). split; [done|]. specialize (Hr d Hd). unfold target. lia. Qed.
Lemma doc_at S s : in_range S -> valid_state S s -> doc s <> INVALID_ROWID -> exists p, s = At p (doc s).
Proof. destruct s; cbn; intros Hr Hv Hd; try done. by eexists. Qed.
Lemma doc_invalid S s : in_range S -> valid_state S s -> doc s = INVALID_ROWID -> is_fresh s \/ is_done s.
Proof. destruct s as [|p d|p]; cbn; auto. intros Hr (_ & Hd & _) ->. specialize (Hr _ Hd). unfold INVALID_ROWID in Hr. lia. Qed.

End limit.

(** ** What an iterator promises *)
Class CursorOf (A : Type) := {
  c_doc : A -> Z;
  c_next : nat -> Z -> A -> option (bool * A);
  c_docs : A -> gset Z;
  c_good : A -> state -> Prop;
}.
Class CursorLaws (A : Type) {DL : DocLimit} `{CursorOf A} (sub : A -> Prop) := {
  cursor_state a s : sub a -> c_good a s -> c_doc a = doc s /\ valid_state (c_docs a) s;
  cursor_range a : sub a -> in_range (c_docs a);
  cursor_next a : sub a -> forall s t, c_good a s -> target t -> exists N a',
    (forall F, (N <= F)%nat -> c_next F t a = Some (bool_decide (doc (advance (c_docs a) s t) <> INVALID_ROWID), a')) /\
    sub a' /\ c_good a' (advance (c_docs a) s t) /\ c_docs a' = c_docs a;
}.

(** ** Calls of children *)
Section cursors.
Context {DL : DocLimit} {A : Type} {CO : CursorOf A} {sub : A -> Prop} {CL : CursorLaws A sub}.
Implicit Types (c : A) (cs : list A) (s : state) (ss : list state).

Definition children cs ss : Prop := Forall sub cs /\ Forall2 c_good cs ss.
Lemma children_cons c cs ss : children (c :: cs) ss -> exists s ss', ss = s :: ss' /\ sub c /\ c_good c s /\ children cs ss'.
Proof. intros ([? ?]%Forall_cons & (s & ss' & ? & ? & ->)%Forall2_cons_inv_l). exists s, ss'. by split_and!. Qed.
Lemma children_cons_2 c cs s ss : sub c -> c_good c s -> children cs ss -> children (c :: cs) (s :: ss).
Proof. intros ? ? (? & ?). split_and!; by constructor. Qed.
Lemma children_length cs ss : children cs ss -> length cs = length ss.
Proof. intros [_ H]. by eapply Forall2_length. Qed.
Lemma children_lookup cs ss i c s : children cs ss -> cs !! i = Some c -> ss !! i = Some s -> sub c /\ c_good c s.
Proof. intros [H1 H2] Hc Hs. split; [by eapply Forall_lookup_1|]. by eapply Forall2_lookup_lr. Qed.
Lemma children_insert cs ss i c s : children cs ss -> sub c -> c_good c s -> children (<[i:=c]> cs) (<[i:=s]> ss).
Proof. intros [H1 H2] Hc Hs. split; [by apply Forall_insert|by apply Forall2_insert]. Qed.

(** One call, with all it gives. *)
Lemma child_call c s t : sub c -> c_good c s -> target t -> let s' := advance (c_docs c) s t in exists N c',
  (forall F, (N <= F)%nat -> c_next F t c = Some (bool_decide (doc s' <> INVALID_ROWID), c')) /\
  sub c' /\ c_good c' s' /\ c_docs c' = c_docs c /\ c_doc c' = doc s' /\ valid_state (c_docs c) s' /\ t <= doc s' /\
  (doc s' = INVALID_ROWID /\ is_done s' \/ target (doc s') /\ exists p, s' = At p (doc s')).
Proof.
  intros Hsub Hg Ht s'. destruct (cursor_next c Hsub s t Hg Ht) as (N & c1 & HN & Hsub1 & Hg1 & Hd1).
  destruct (cursor_state c s Hsub Hg) as [_ Hv]. pose proof (cursor_range c Hsub) as Hr.
  destruct (cursor_state c1 _ Hsub1 Hg1) as [Hdoc _]. pose proof (advance_valid _ _ t Hv) as Hv1. fold s' in Hdoc, Hv1, Hg1.
  exists N, c1. split_and!; try done; [by apply advance_ge|].
  destruct (decide (doc s' = INVALID_ROWID)) as [Hi|Hi]; [left|right].
  - split; [done|]. destruct (doc_invalid _ _ Hr Hv1 Hi) as [H|H]; [|done]. by apply advance_not_fresh in H.
  - destruct (doc_valid _ _ Hr Hv1) as [?|[_ ?]]; [done|]. split; [done|]. by eapply doc_at.
Qed.

Definition common (l : list (gset Z)) (x : Z) : Prop := Forall (fun S => x ∈ S) l.
Notation docs_of := (map c_docs).
(** All children on one document. *)
Lemma children_common cs ss d : children cs ss -> Forall (fun s => exists p, s = At p d) ss -> common (docs_of cs) d.
Proof.
  revert ss. induction cs as [|c cs IH]; intros ss Hc Hd; [constructor|]. apply children_cons in Hc as (s & ss' & -> & Hsub & Hg & Hc).
  apply Forall_cons in Hd as [[p ->] Hd]. constructor; [|by eapply IH]. by destruct (cursor_state c _ Hsub Hg) as [_ (_ & ? & _)].
Qed.

(** ** AND *)

Lemma and_round_spec cs ss t : children cs ss -> target t -> exists N r cs' ss',
  (forall F, (N <= F)%nat -> and_round c_doc (c_next F) t cs = Some (r, cs')) /\ children cs' ss' /\ docs_of cs' = docs_of cs /\
  (Exists is_done ss -> r = None) /\
  match r with
  | None => Exists is_done ss' /\ (Forall (fun s => lag s t) ss -> forall x, t <= x -> ~ common (docs_of cs) x)
  | Some t' =>
      t <= t' /\ target t' /\ Forall (fun s => exists p d, s = At p d /\ t <= d <= t') ss' /\
      (first_doc c_doc cs' = t' -> Forall (fun s => doc s = t') ss') /\ (cs <> [] -> t <= first_doc c_doc cs' <= t') /\
      (Forall (fun s => lag s t) ss -> Forall (fun s => lag s t') ss' /\ forall x, t <= x -> common (docs_of cs) x -> t' <= x)
  end.
Proof.
  revert ss t. induction cs as [|c cs IH]; intros ss t Hc Ht.
  { destruct Hc as (_ & ->%Forall2_nil_inv_l). exists 0%nat, (Some t), [], []. split_and!; try done; try lia.
    - intros H. by apply Exists_nil in H. }
  apply children_cons in Hc as (s & ss' & -> & Hsub & Hg & Hcs).
  destruct (child_call c s t Hsub Hg Ht) as (N & c1 & HN & Hsub1 & Hg1 & Hd1 & Hdoc & Hv1 & Hge & Hcase).
  assert (Hfirst : lag s t -> forall x, t <= x -> x ∈ c_docs c -> doc (advance (c_docs c) s t) <= x).
  { intros Hl x Hx Hxs. rewrite advance_doc by (try done; by apply cursor_state). destruct (least (c_docs c) t) as [d|] eqn:E; cbn.
    - apply least_Some in E as (_ & _ & E). by apply E.
    - specialize (proj1 (least_None _ _) E x Hxs). lia. }
  set (s1 := advance (c_docs c) s t) in *. destruct Hcase as [[Hi Hdn]|[Ht1 [p Hs1]]].
  - exists N, None, (c1 :: cs), (s1 :: ss'). split_and!; try done.
    + intros F HF. cbn. rewrite HN by done. by rewrite bool_decide_false by tauto.
    + by apply children_cons_2.
    + cbn. by rewrite Hd1.
    + by left.
    + intros [Hl _]%Forall_cons x Hx [Hcom _]%Forall_cons. specialize (Hfirst Hl x Hx Hcom). specialize (cursor_range c Hsub x Hcom). lia.
  - destruct (IH ss' (doc s1) Hcs Ht1) as (N2 & r & cs' & ss2 & HN2 & Hcs' & Hdocs & Hdone & Hpost).
    exists (N `max` N2)%nat, r, (c1 :: cs'), (s1 :: ss2). split_and!.
    + intros F HF. cbn. rewrite HN by lia. rewrite bool_decide_true by (unfold target in Ht1; lia). rewrite Hdoc, HN2 by lia. done.
    + by apply children_cons_2.
    + cbn. by rewrite Hd1, Hdocs.
    + intros [H|H]%Exists_cons; [|by apply Hdone]. destruct s; try done.
    + assert (Hlags : Forall (fun s => lag s t) (s :: ss') -> Forall (fun s => lag s (doc s1)) ss').
      { intros [_ Hls]%Forall_cons. eapply Forall_impl; [exact Hls|]. cbn. intros s' Hs'. by eapply lag_le. }
      destruct r as [t'|].
      * destruct Hpost as (H1 & H2 & H3 & H4 & H5 & H6). split_and!; try done; try lia.
        -- constructor; [by exists p, (doc s1)|]. eapply Forall_impl; [exact H3|]. cbn. intros s' (p' & d' & -> & ?). exists p', d'. split; [done|lia].
        -- cbn. rewrite Hdoc. intros E. constructor; [done|]. rewrite E in H3. eapply Forall_impl; [exact H3|]. cbn. intros s' (p' & d' & -> & ?). cbn. lia.
        -- cbn. rewrite Hdoc. intros _. lia.
        -- intros Hl. specialize (Hlags Hl). apply Forall_cons in Hl as [Hl _]. destruct (H6 Hlags) as [H7 H8]. split.
           ++ constructor; [|done]. eapply lag_le; [apply advance_lag, Hl|]. lia.
           ++ cbn. intros x Hx [Hx1 Hx2]%Forall_cons. apply H8; [|done]. by apply Hfirst.
      * destruct Hpost as [H1 H2]. split; [by right|]. cbn. intros Hl x Hx [Hx1 Hx2]%Forall_cons.
        apply (H2 (Hlags Hl) x); [|done]. apply Forall_cons in Hl as [Hl _]. by apply Hfirst.
Qed.

(** The documents of the first child from a target on; every round of the loop leaves one behind. *)
Definition ahead c (t : Z) : gset Z := filter (fun x => t <= x) (c_docs c).
Lemma ahead_less c t d t' : d ∈ c_docs c -> t <= d < t' -> (size (ahead c t') < size (ahead c t))%nat.
Proof.
  intros Hd Ht. apply subset_size. split; [intros x; unfold ahead; rewrite !elem_of_filter; intros [? ?]; split; [lia|done]|].
  intros H. specialize (H d). unfold ahead in H. rewrite !elem_of_filter in H. destruct H as [H _]; [split; [lia|done]|]. lia.
Qed.

Lemma and_loop_spec c cs ss t t0 : children (c :: cs) ss -> target t -> t0 <= t -> exists N d cs' ss',
  (forall F n, (N <= F)%nat -> (N <= n)%nat -> and_loop c_doc (c_next F) n t (c :: cs) = Some (d, cs')) /\
  children cs' ss' /\ docs_of cs' = docs_of (c :: cs) /\ (Exists is_done ss -> d = INVALID_ROWID) /\
  if decide (d = INVALID_ROWID) then Exists is_done ss' /\
    (Forall (fun s => lag s t) ss -> (forall x, t0 <= x < t -> ~ common (docs_of (c :: cs)) x) -> forall x, t0 <= x -> ~ common (docs_of (c :: cs)) x)
  else target d /\ Forall (fun s => exists p, s = At p d) ss' /\
    (Forall (fun s => lag s t) ss -> (forall x, t0 <= x < t -> ~ common (docs_of (c :: cs)) x) ->
      Forall (fun s => lag s d) ss' /\ t0 <= d /\ forall x, t0 <= x -> common (docs_of (c :: cs)) x -> d <= x).
Proof.
  remember (size (ahead c t)) as k eqn:Ek. revert c cs ss t Ek. induction (lt_wf k) as [k _ IH]. intros c cs ss t -> Hc Ht Ht0.
  destruct (and_round_spec (c :: cs) ss t Hc Ht) as (N & r & cs1 & ss1 & HN & Hc1 & Hd1 & Hdone & Hpost). destruct r as [t'|].
  2: { destruct Hpost as [H1 H2]. exists (S N), INVALID_ROWID, cs1, ss1. split_and!; try done.
       - intros F [|n] HF Hn; [lia|]. cbn [and_loop]. by rewrite HN by lia.
       - rewrite decide_True by done. split; [done|]. intros Hl Hno x Hx. destruct (Z_lt_ge_dec x t); [apply Hno; lia|]. apply H2; [done|lia]. }
  destruct Hpost as (H1 & H2 & H3 & H4 & H5 & H6). specialize (H5 ltac:(done)).
  assert (Hi : t' <> INVALID_ROWID) by (unfold target in H2; lia). destruct cs1 as [|c1 cs1]; [done|]. cbn [first_doc] in *.
  destruct (decide (t' = c_doc c1)) as [E|E].
  - exists (S N), t', (c1 :: cs1), ss1. split_and!; try done.
    + intros F [|n] HF Hn; [lia|]. cbn [and_loop]. rewrite HN by lia. cbn [first_doc]. rewrite (proj2 (Z.eqb_neq _ _)) by done. by rewrite (proj2 (Z.eqb_eq _ _)).
    + intros Hex. by specialize (Hdone Hex).
    + rewrite decide_False by done. specialize (H4 ltac:(done)). split_and!; [done| |].
      * rewrite Forall_forall in H3, H4 |- *. intros s Hs. destruct (H3 s Hs) as (p & d & -> & _). specialize (H4 _ Hs). cbn in H4. subst d. by exists p.
      * intros Hl Hno. destruct (H6 Hl) as [H7 H8]. split_and!; [done|lia|]. intros x Hx Hcom. apply H8; [|done].
        destruct (Z_lt_ge_dec x t); [|lia]. exfalso. apply (Hno x); [lia|done].
  - assert (Hlt : c_doc c1 < t') by lia. cbn in Hd1. injection Hd1 as Hdc Hdcs.
    assert (Hin : c_doc c1 ∈ c_docs c1).
    { pose proof Hc1 as Hcc. apply children_cons in Hcc as (s1 & ss2 & -> & Hs1 & Hg1 & _). apply Forall_cons in H3 as [(p & d & -> & _) _].
      destruct (cursor_state c1 _ Hs1 Hg1) as [-> (_ & Hx & _)]. done. }
    destruct (IH (size (ahead c1 t'))) with (c := c1) (cs := cs1) (ss := ss1) (t := t') as (N2 & d & cs2 & ss2 & HN2 & Hc2 & Hd2 & Hdone2 & Hpost2); try done; [|lia|].
    { unfold ahead. rewrite Hdc. apply (ahead_less c t (c_doc c1) t'); [by rewrite <- Hdc|lia]. }
    assert (Hcom : forall x, common (docs_of (c1 :: cs1)) x <-> common (docs_of (c :: cs)) x) by (intros x; cbn; by rewrite Hdc, Hdcs).
    exists (S (N `max` N2))%nat, d, cs2, ss2. split_and!.
    + intros F [|n] HF Hn; [lia|]. cbn [and_loop]. rewrite HN by lia. cbn [first_doc]. rewrite !(proj2 (Z.eqb_neq _ _)) by done. apply HN2; lia.
    + done.
    + rewrite Hd2. cbn. congruence.
    + intros Hex. by specialize (Hdone Hex).
    + case_decide.
      * destruct Hpost2 as [H7 H8]. split; [done|]. intros Hl Hno. destruct (H6 Hl) as [H9 H10]. intros x Hx. rewrite <- Hcom. apply (H8 H9); [|done].
        intros y Hy Hy2%Hcom. destruct (Z_lt_ge_dec y t); [by apply (Hno y); [lia|]|]. specialize (H10 y ltac:(lia) Hy2). lia.
      * destruct Hpost2 as (H7 & H8 & H9). split_and!; [done|done|]. intros Hl Hno. destruct (H6 Hl) as [H10 H11].
        destruct (H9 H10) as (H12 & H13 & H14).
        -- intros y Hy Hy2%Hcom. destruct (Z_lt_ge_dec y t); [by apply (Hno y); [lia|]|]. specialize (H11 y ltac:(lia) Hy2). lia.
        -- split_and!; [done|done|]. intros x Hx Hx2. apply H14; [done|by apply Hcom].
Qed.

Definition and_docs (l : list (gset Z)) : gset Z := match l with [] => ∅ | X :: l => foldr (∩) X l end.
Lemma elem_of_and_docs l x : x ∈ and_docs l <-> l <> [] /\ common l x.
Proof.
  destruct l as [|X l]; cbn; [set_solver|]. unfold common. rewrite Forall_cons.
  induction l as [|Y l IH]; cbn; [naive_solver|]. rewrite elem_of_intersection, IH, Forall_cons. naive_solver.
Qed.
Definition and_state ss s : Prop :=
  match s with
  | Fresh => Forall is_fresh ss
  | At _ d => Forall (fun s => exists p, s = At p d /\ p <= d) ss
  | Done _ => Exists is_done ss
  end.
Lemma and_next_spec cs ss s t : cs <> [] -> children cs ss -> and_state ss s -> target t -> moves s t ->
  let s' := advance (and_docs (docs_of cs)) s t in exists N cs' ss',
  (forall F, (N <= F)%nat -> and_loop c_doc (c_next F) F t cs = Some (doc s', cs')) /\
  children cs' ss' /\ docs_of cs' = docs_of cs /\ and_state ss' s'.
Proof.
  intros Hne Hc Hs Ht Hm s'. destruct cs as [|c cs]; [done|]. clear Hne.
  destruct (and_loop_spec c cs ss t t Hc Ht ltac:(lia)) as (N & d & cs' & ss' & HN & Hc' & Hd' & Hdone & Hpost). exists N, cs', ss'.
  cut (d = doc s' /\ and_state ss' s'). { intros [<- ?]. split_and!; try done. intros F HF. by apply HN. }
  assert (Hnone : forall x, t <= x < t -> ~ common (docs_of (c :: cs)) x) by lia.
  assert (Hl : ~ is_done s -> Forall (fun s => lag s t) ss).
  { intros Hnd. destruct s; cbn in Hs, Hm; try done; (eapply Forall_impl; [exact Hs|]).
    - by intros [].
    - cbn. intros ? (p' & -> & ?). cbn. lia. }
  assert (Hcase : is_done s \/ ~ is_done s) by (destruct s; cbn; tauto). destruct Hcase as [Hds|Hds].
  - destruct s; try done. cbn in s', Hs. subst s'. specialize (Hdone Hs). subst d. rewrite decide_True in Hpost by done. by destruct Hpost as [? _].
  - unfold s'. rewrite advance_moves by done. specialize (Hl Hds). case_decide.
    + subst d. destruct Hpost as [H1 H2]. rewrite at_or_Done; [done|]. intros x [_ Hx]%elem_of_and_docs Hle. by apply (H2 Hl Hnone x).
    + destruct Hpost as (H1 & H2 & H3). destruct (H3 Hl Hnone) as (H4 & H5 & H6).
      assert (Hin : common (docs_of (c :: cs)) d) by (rewrite <- Hd'; by eapply children_common).
      rewrite (at_or_At _ _ d); [|by apply elem_of_and_docs|done|by intros x [_ ?]%elem_of_and_docs ?; apply H6].
      split; [done|]. cbn. rewrite Forall_forall in H2, H4 |- *. intros s1 Hs1. destruct (H2 s1 Hs1) as [p ->]. specialize (H4 _ Hs1). cbn in H4. eauto.
Qed.

(** ** AND NOT *)
Definition excluded (l : list (gset Z)) (x : Z) : Prop := Exists (fun X => x ∈ X) l.
Definition past (d : Z) s : Prop := ~ is_fresh s /\ lag s d /\ d < doc s.

Lemma least_first (X : gset Z) t : in_range X -> forall x, x ∈ X -> t <= x -> default INVALID_ROWID (least X t) <= x.
Proof.
  intros Hr x Hx Ht. destruct (least X t) as [d|] eqn:E; cbn.
  - apply least_Some in E as (_ & _ & E). by apply E.
  - specialize (proj1 (least_None _ _) E x Hx). lia.
Qed.
Lemma and_not_scan_spec cs ss d : children cs ss -> target d -> Forall (fun s => lag s d) ss -> exists N b cs' ss',
  (forall F, (N <= F)%nat -> and_not_scan c_doc (c_next F) d cs = Some (b, cs')) /\ children cs' ss' /\ docs_of cs' = docs_of cs /\
  Forall (fun s => lag s d) ss' /\ (b = true <-> excluded (docs_of cs) d) /\ (b = false -> Forall (past d) ss').
Proof.
  intros Hc Ht. revert ss Hc. induction cs as [|c cs IH]; intros ss Hc Hl.
  { destruct Hc as (_ & ->%Forall2_nil_inv_l). exists 0%nat, false, [], []. split_and!; try done; try by constructor.
    split; [done|]. intros H%Exists_nil. done. }
  apply children_cons in Hc as (s & ss' & -> & Hsub & Hg & Hcs). apply Forall_cons in Hl as [Hl Hls].
  destruct (child_call c s d Hsub Hg Ht) as (N & c1 & HN & Hsub1 & Hg1 & Hd1 & Hdoc & Hv1 & Hge & Hcase).
  pose proof (cursor_range c Hsub) as Hr. destruct (cursor_state c s Hsub Hg) as [_ Hv].
  pose proof (advance_doc (c_docs c) s d Hv Hl) as Had. pose proof (advance_lag (c_docs c) s d Hl) as Hl1.
  pose proof (advance_not_fresh (c_docs c) s d) as Hnf. set (s1 := advance (c_docs c) s d) in *.
  destruct (decide (doc s1 = d)) as [E|E].
  - exists N, true, (c1 :: cs), (s1 :: ss'). split_and!; try done.
    + intros F HF. cbn. rewrite HN by done. rewrite Hdoc. by rewrite (proj2 (Z.eqb_eq _ _)).
    + by apply children_cons_2.
    + cbn. by rewrite Hd1.
    + by constructor.
    + split; [intros _|done]. left. destruct (doc_valid _ _ Hr Hv1) as [Hi|[? _]]; [unfold target in Ht; lia|congruence].
  - destruct (IH ss' Hcs Hls) as (N2 & b & cs' & ss2 & HN2 & Hcs' & Hdocs & Hl2 & Hb & Hp).
    exists (N `max` N2)%nat, b, (c1 :: cs'), (s1 :: ss2). split_and!; try done.
    + intros F HF. cbn. rewrite HN by lia. rewrite Hdoc, (proj2 (Z.eqb_neq _ _)) by done. by rewrite HN2 by lia.
    + by apply children_cons_2.
    + cbn. by rewrite Hd1, Hdocs.
    + by constructor.
    + rewrite Hb. cbn. unfold excluded. rewrite Exists_cons. split; [auto|]. intros [Hx|?]; [|done].
      pose proof (least_first _ d Hr d Hx ltac:(lia)) as Hle. lia.
    + intros Hbf. constructor; [|by apply Hp]. split_and!; [done|done|lia].
Qed.

Lemma and_not_loop_spec c cs s0 ss t t' : sub c -> c_good c s0 -> children cs ss -> target t ->
  t' <= doc (advance (c_docs c) s0 t) -> (forall x, x ∈ c_docs c -> t' <= x -> doc (advance (c_docs c) s0 t) <= x) ->
  Forall (fun s => lag s (doc (advance (c_docs c) s0 t))) ss ->
  exists N d c' cs' s0' ss',
  (forall F n, (N <= F)%nat -> (N <= n)%nat -> and_not_loop c_doc (c_next F) n t c cs = Some (d, c', cs')) /\
  sub c' /\ c_good c' s0' /\ children cs' ss' /\ c_docs c' = c_docs c /\ docs_of cs' = docs_of cs /\ d = doc s0' /\
  (if decide (d = INVALID_ROWID) then is_done s0' /\ forall x, x ∈ c_docs c -> t' <= x -> excluded (docs_of cs) x
   else (exists p, s0' = At p d) /\ t' <= d /\ Forall (past d) ss' /\ ~ excluded (docs_of cs) d /\
     forall x, x ∈ c_docs c -> t' <= x < d -> excluded (docs_of cs) x).
Proof.
  remember (size (ahead c t)) as k eqn:Ek. revert c cs s0 ss t t' Ek. induction (lt_wf k) as [k _ IH].
  intros c cs s0 ss t t' -> Hsub Hg Hcs Ht Ht' Hfirst Hl.
  destruct (child_call c s0 t Hsub Hg Ht) as (N & c1 & HN & Hsub1 & Hg1 & Hd1 & Hdoc & Hv1 & Hge & Hcase).
  pose proof (cursor_range c Hsub) as Hr. set (s1 := advance (c_docs c) s0 t) in *. destruct Hcase as [[Hi Hdn]|[Ht1 [p Hs1]]].
  - exists (S N), INVALID_ROWID, c1, cs, s1, ss. split_and!; try done.
    + intros F [|n] HF Hn; [lia|]. cbn. rewrite HN by lia. rewrite Hdoc, Hi. done.
    + rewrite decide_True by done. split; [done|]. intros x Hx Hle. specialize (Hfirst x Hx Hle). specialize (Hr x Hx). lia.
  - destruct (and_not_scan_spec cs ss (doc s1) Hcs Ht1 Hl) as (N2 & b & cs' & ss2 & HN2 & Hcs' & Hdocs & Hl2 & Hb & Hp).
    assert (Hni : doc s1 <> INVALID_ROWID) by (unfold target in Ht1; lia).
    assert (Hin : doc s1 ∈ c_docs c) by (destruct (doc_valid _ _ Hr Hv1) as [?|[? _]]; done).
    destruct b.
    + assert (Hu : u64 (doc s1 + 1) = doc s1 + 1). { specialize (Hr _ Hin). unfold u64, wrap. apply Z.mod_small. unfold INVALID_ROWID in Hr. lia. }
      assert (Ht2 : target (doc s1 + 1)). { specialize (Hr _ Hin). unfold target. lia. }
      assert (Hm : moves s1 (doc s1 + 1) /\ ~ is_done s1) by (rewrite Hs1; cbn; split; [lia|tauto]).
      assert (Hdoc2 : doc (advance (c_docs c) s1 (doc s1 + 1)) = default INVALID_ROWID (least (c_docs c) (doc s1 + 1))).
      { rewrite advance_moves by apply Hm. unfold at_or. by destruct (least _ _). }
      destruct (IH (size (ahead c1 (doc s1 + 1)))) with (c := c1) (cs := cs') (s0 := s1) (ss := ss2) (t := doc s1 + 1) (t' := doc s1 + 1)
        as (N3 & d & c3 & cs3 & s3 & ss3 & HN3 & Hsub3 & Hg3 & Hcs3 & Hd3 & Hds3 & Hdd & Hpost); try done; rewrite ?Hd1.
      * unfold ahead. rewrite Hd1. apply (ahead_less c t (doc s1) _); [done|lia].
      * by apply advance_ge.
      * intros x Hx Hle. rewrite Hdoc2. by apply least_first.
      * eapply Forall_impl; [exact Hl2|]. cbn. intros s Hs. eapply lag_le; [exact Hs|]. pose proof (advance_ge (c_docs c) s1 _ Ht2). lia.
      * exists (S (N `max` N2 `max` N3))%nat, d, c3, cs3, s3, ss3. split_and!; try done; try congruence.
        -- intros F [|n] HF Hn; [lia|]. cbn. rewrite HN by lia. rewrite Hdoc, (proj2 (Z.eqb_neq _ _)) by done. rewrite HN2 by lia. rewrite Hu. apply HN3; lia.
        -- assert (Hexc : excluded (docs_of cs) (doc s1)) by (by apply Hb). rewrite Hd1, Hdocs in Hpost.
           assert (Hless : forall x, x ∈ c_docs c -> t' <= x -> x = doc s1 \/ doc s1 + 1 <= x) by (intros x Hx Hle; specialize (Hfirst x Hx Hle); lia).
           case_decide.
           ++ destruct Hpost as [H1 H2]. split; [done|]. intros x Hx Hle. destruct (Hless x Hx Hle) as [->|?]; [done|]. by apply H2.
           ++ destruct Hpost as (H1 & H2 & H3 & H4 & H5). split_and!; try done; [lia|]. intros x Hx Hle.
              destruct (Hless x Hx ltac:(lia)) as [->|?]; [done|]. apply H5; [done|lia].
    + exists (S (N `max` N2))%nat, (doc s1), c1, cs', s1, ss2. split_and!; try done.
      * intros F [|n] HF Hn; [lia|]. cbn. rewrite HN by lia. rewrite Hdoc, (proj2 (Z.eqb_neq _ _)) by done. by rewrite HN2 by lia.
      * rewrite decide_False by done. split_and!; [by exists p|done|by apply Hp| |].
        -- intros Hx. apply Hb in Hx. done.
        -- intros x Hx Hle. specialize (Hfirst x Hx ltac:(lia)). lia.
Qed.

Definition and_not_docs (l : list (gset Z)) : gset Z := match l with [] => ∅ | X :: l => X ∖ ⋃ l end.
Definition and_not_state ss s : Prop :=
  match ss with
  | [] => False
  | s0 :: ss =>
      match s with
      | Fresh => is_fresh s0 /\ Forall is_fresh ss
      | At _ d => (exists p, s0 = At p d) /\ Forall (past d) ss
      | Done _ => is_done s0
      end
  end.
Lemma elem_of_and_not_docs X l x : x ∈ and_not_docs (X :: l) <-> x ∈ X /\ ~ excluded l x.
Proof. cbn. rewrite elem_of_difference, elem_of_union_list. unfold excluded. rewrite list.Exists_exists. naive_solver. Qed.
Lemma and_not_next_spec c cs ss s t : children (c :: cs) ss -> and_not_state ss s -> valid_state (and_not_docs (docs_of (c :: cs))) s -> target t ->
  let s' := advance (and_not_docs (docs_of (c :: cs))) s t in exists N c' cs' ss',
  (forall F, (N <= F)%nat -> and_not_loop c_doc (c_next F) F t c cs = Some (doc s', c', cs')) /\
  children (c' :: cs') ss' /\ docs_of (c' :: cs') = docs_of (c :: cs) /\ and_not_state ss' s'.
Proof.
  intros (s0 & ss' & -> & Hsub & Hg & Hcs)%children_cons Hs Hv Ht s'. pose proof (cursor_range c Hsub) as Hr.
  destruct (cursor_state c s0 Hsub Hg) as [_ Hv0].
  assert (Hcase : is_done s \/ ~ is_done s) by (destruct s; cbn; tauto). destruct Hcase as [Hds|Hds].
  { destruct s; try done. cbn in s', Hs. subst s'. destruct s0; try done.
    destruct (child_call c _ t Hsub Hg Ht) as (N & c1 & HN & Hsub1 & Hg1 & Hd1 & Hdoc & _). cbn [advance doc] in *.
    exists (S N), c1, cs, (Done p0 :: ss'). split_and!; try done; [|by apply children_cons_2|by cbn; rewrite Hd1].
    intros [|F] HF; [lia|]. cbn. rewrite HN by lia. rewrite Hdoc. done. }
  pose (t' := match s with At p d => Z.max t d | _ => t end).
  assert (Hfirst : doc (advance (c_docs c) s0 t) = default INVALID_ROWID (least (c_docs c) t')).
  { destruct s; cbn in Hs, t'; try done; [destruct s0, Hs as [Hs _]; try done; by apply advance_doc|].
    destruct Hs as [[p0 ->] Hs]. destruct (Z.max_spec t d) as [[? E]|[? E]]; unfold t'; rewrite E.
    - cbn. rewrite (proj2 (Z.leb_le _ _)) by lia. cbn. cbn in Hv0. rewrite (proj2 (least_Some (c_docs c) d d)); [done|].
      destruct Hv0 as (? & ? & ?). split_and!; [done|lia|]. intros x Hx Hle. done.
    - apply advance_doc; [done|]. cbn. cbn in Hv0. lia. }
  destruct (and_not_loop_spec c cs s0 ss' t t') as (N & d & c3 & cs3 & s3 & ss3 & HN & Hsub3 & Hg3 & Hcs3 & Hd3 & Hds3 & Hdd & Hpost); try done.
  - rewrite Hfirst. destruct (least (c_docs c) t') as [d|] eqn:E; [by apply least_Some in E as (_ & ? & _)|]. unfold t'. cbn. unfold target in Ht.
    destruct s; try lia. destruct Hv as (_ & [Hd _]%elem_of_and_not_docs & _). specialize (Hr _ Hd). lia.
  - rewrite Hfirst. by apply least_first.
  - destruct s; cbn in Hs; try done; destruct Hs as [H1 H2]; (eapply Forall_impl; [exact H2|]); [by intros []|].
    cbn. intros s1 (_ & ? & _). eapply lag_le; [done|]. destruct H1 as [p0 ->]. cbn. destruct (Z.leb_spec t d); cbn; [lia|].
    pose proof (advance_ge (c_docs c) Fresh t Ht) as Hge. cbn in Hge. lia.
  - exists N, c3, cs3, (s3 :: ss3). cut (d = doc s' /\ and_not_state (s3 :: ss3) s').
    { intros [<- ?]. split_and!; [intros F HF; by apply HN|by apply children_cons_2|by cbn; rewrite Hd3, Hds3|done]. }
    assert (Hs' : s' = at_or (and_not_docs (docs_of (c :: cs))) t' \/ exists p, s = At p t' /\ s' = s).
    { unfold s', t'. destruct s as [|p0 d0|]; cbn; [by left| |done]. destruct (Z.leb_spec t d0); [right|left; by rewrite Z.max_l by lia].
      exists p0. by rewrite Z.max_r by lia. }
    clearbody t' s'. case_decide.
    + destruct Hpost as [H1 H2]. assert (Hno : forall x, x ∈ and_not_docs (docs_of (c :: cs)) -> ~ t' <= x).
      { intros x [Hx1 Hx2]%elem_of_and_not_docs Hle. by apply Hx2, H2. }
      destruct Hs' as [->|(p & -> & ->)]; [by rewrite at_or_Done|]. exfalso. destruct Hv as (_ & Hv & _). by apply (Hno t').
    + destruct Hpost as (H1 & H2 & H3 & H4 & H5). destruct H1 as [p1 ->].
      assert (Hin : d ∈ c_docs c). { rewrite <- Hd3. by destruct (cursor_state c3 _ Hsub3 Hg3) as [_ (_ & ? & _)]. }
      assert (Hno : forall x, x ∈ and_not_docs (docs_of (c :: cs)) -> t' <= x -> d <= x).
      { intros x [Hx1 Hx2]%elem_of_and_not_docs Hle. apply Z.nlt_ge. intros Hlt. apply Hx2, H5; [done|lia]. }
      destruct Hs' as [->|(p & -> & ->)].
      * rewrite (at_or_At _ _ d); [|by apply elem_of_and_not_docs|done|done]. cbn. split_and!; try done. by exists p1.
      * destruct Hv as (_ & Hv & _). specialize (Hno t' Hv ltac:(lia)). assert (d = t') as -> by lia. cbn. split_and!; try done. by exists p1.
Qed.
End cursors.
Arguments children {A CO} sub cs ss.
Notation docs_of := (map c_docs).
