(* ===== verification/DocHeap.v ===== *)
(** * The heap of document iterators

    [DocIteratorHeap] of [DocIterator]: an entry that has become too large for its place is moved down
    by [AdjustDown] until no child is before it, and [BuildHeap] does so from the last parent to the
    first. Both only exchange entries, and both end with the least document on top. *)
From S2P Require Import Prelude DocIterator.
Import DocIteratorHeap.

Implicit Types h : list DocIteratorEntry.
Notation at_doc h i := (entry_doc (h !!! i)).

(** ** Exchanges *)
Lemma length_swap i j h : length (swap i j h) = length h.
Proof. unfold swap. by rewrite !length_insert. Qed.
Lemma swap_lookup i j h k : (i < length h)%nat -> (j < length h)%nat ->
  swap i j h !!! k = if decide (k = i) then h !!! j else if decide (k = j) then h !!! i else h !!! k.
Proof.
  intros Hi Hj. unfold swap. destruct (decide (k = i)) as [->|Hk].
  - rewrite list_lookup_total_insert_eq; [done|]. by rewrite length_insert.
  - rewrite list_lookup_total_insert_ne by done. destruct (decide (k = j)) as [->|Hk'].
    + by rewrite list_lookup_total_insert_eq.
    + by rewrite list_lookup_total_insert_ne.
Qed.
Lemma swap_Permutation i j h : (i < length h)%nat -> (j < length h)%nat -> swap i j h ≡ₚ h.
Proof.
  intros Hi Hj. apply Permutation_inj. split; [apply length_swap|].
  exists (fun k => if decide (k = i) then j else if decide (k = j) then i else k). split.
  - intros x y. repeat case_decide; congruence.
  - intros k. destruct (decide (k < length h)%nat) as [Hk|Hk].
    + rewrite !list_lookup_lookup_total_lt; [|repeat case_decide; done|by rewrite length_swap]. f_equal.
      rewrite swap_lookup by done. repeat case_decide; done.
    + rewrite !lookup_ge_None_2; [done|repeat case_decide; lia|rewrite length_swap; lia].
Qed.

(** What both operations keep: the entries, up to their order, and the unused first place. *)
Definition same_entries h h' : Prop := h' ≡ₚ h /\ h' !! 0%nat = h !! 0%nat.
#[export] Instance same_entries_refl : Reflexive same_entries.
Proof. by split. Qed.
#[export] Instance same_entries_trans : Transitive same_entries.
Proof. intros a b c [H1 H2] [H3 H4]. split; [by etrans|congruence]. Qed.
Lemma same_entries_length h h' : same_entries h h' -> length h' = length h.
Proof. intros [H _]. by apply Permutation_length. Qed.
Lemma same_entries_tail e es h' : same_entries (e :: es) h' -> exists es', h' = e :: es' /\ es' ≡ₚ es.
Proof.
  intros [H1 H2]. destruct h' as [|e' es']; [done|]. cbn in H2. injection H2 as ->. exists es'. split; [done|]. by apply Permutation_cons_inv in H1.
Qed.
Lemma swap_same i j h : (0 < i < length h)%nat -> (0 < j < length h)%nat -> same_entries h (swap i j h).
Proof.
  intros Hi Hj. split; [apply swap_Permutation; lia|]. unfold swap. by rewrite !list_lookup_insert_ne by lia.
Qed.

(** ** Moving down *)
Lemma half_double i k : (i / 2 = k)%nat <-> (i = 2 * k \/ i = 2 * k + 1)%nat.
Proof. pose proof (Nat.div_mod_eq i 2). pose proof (Nat.mod_upper_bound i 2). lia. Qed.

Lemma smaller_cases h i j : (smaller h i j = j /\ ((i < length h)%nat -> at_doc h j <= at_doc h i)) \/
  (smaller h i j = i /\ (i < length h)%nat /\ at_doc h i < at_doc h j).
Proof.
  unfold smaller. destruct (bool_decide_reflect (i < length h)%nat) as [Hi|Hi]; cbn; [|left; split; [done|lia]].
  destruct (Z.ltb_spec (at_doc h i) (at_doc h j)); [right|left]; auto.
Qed.
Lemma min_child_spec h idx : (0 < idx)%nat -> let m := min_child h idx in
  (forall i, (i < length h)%nat -> (i / 2 = idx)%nat -> at_doc h m <= at_doc h i) /\
  (m = idx \/ (m / 2 = idx)%nat /\ (m < length h)%nat /\ at_doc h m < at_doc h idx).
Proof.
  intros Hidx m. unfold m, min_child.
  destruct (smaller_cases h (2 * idx) idx) as [[E H]|(E & Hl & H)]; rewrite E;
    (destruct (smaller_cases h (2 * idx + 1) (smaller h (2 * idx) idx)) as [[E' H']|(E' & Hl' & H')]; rewrite E in E', H'; rewrite E').
  all: split; [intros i Hi [->| ->]%half_double|].
  all: try (by left); try (right; rewrite half_double; lia); try lia.
  all: try (specialize (H Hi)); try (specialize (H' Hi)); lia.
Qed.

(** Every entry whose parent is from [k] on is not before its parent. *)
Definition heap_from (k : nat) h : Prop :=
  forall i, (2 <= i < length h)%nat -> (k <= i / 2)%nat -> at_doc h (i / 2)%nat <= at_doc h i.
(** The same but for the children of [idx], which are not before the parent of [idx]. *)
Definition heap_but (k idx : nat) h : Prop :=
  (forall i, (2 <= i < length h)%nat -> (k <= i / 2)%nat -> (i / 2)%nat <> idx -> at_doc h (i / 2)%nat <= at_doc h i) /\
  (forall i, (2 <= i < length h)%nat -> (i / 2)%nat = idx -> (0 < k <= idx / 2)%nat -> at_doc h (idx / 2)%nat <= at_doc h i).

Lemma swap_heap_but k idx h : (0 < k <= idx)%nat -> heap_but k idx h -> let m := min_child h idx in
  m <> idx -> heap_but k m (swap idx m h).
Proof.
  intros Hk [H1 H2] m Hm. destruct (min_child_spec h idx ltac:(lia)) as [Hmin [?|(Hh & Hl & Hlt)]]; [done|]. fold m in Hmin, Hh, Hl, Hlt.
  assert (Hmi : (idx < m)%nat) by (apply half_double in Hh; lia).
  assert (Hsw := swap_lookup idx m h). specialize (fun k => Hsw k ltac:(lia) Hl).
  split; rewrite length_swap; intros i Hi; rewrite !Hsw.
  - intros Hki Hne. destruct (decide (i = idx)) as [->|Hi1].
    { rewrite (decide_False (P := (idx / 2 = idx)%nat)) by (intros ?%half_double; lia). rewrite decide_False by done. apply H2; [lia|done|lia]. }
    rewrite (decide_False (P := (i / 2 = m)%nat)) by done. destruct (decide (i / 2 = idx)%nat) as [E|E].
    + destruct (decide (i = m)) as [->|]; [lia|]. apply Hmin; [lia|done].
    + rewrite decide_False by (intros ->; done). by apply H1.
  - intros Hh2 _. rewrite Hh, decide_True by done. apply half_double in Hh2.
    rewrite !decide_False by lia. assert (E : (i / 2 = m)%nat) by (by apply half_double). rewrite <- E. apply H1; [done|rewrite E; lia|rewrite E; lia].
Qed.
Lemma adjust_spec k fuel idx h : (0 < k <= idx)%nat -> (length h <= fuel + idx)%nat -> heap_but k idx h ->
  same_entries h (adjust fuel idx h) /\ heap_from k (adjust fuel idx h).
Proof.
  revert idx h. induction fuel as [|fuel IH]; intros idx h Hk Hf Hb; cbn [adjust].
  - split; [done|]. intros i Hi Hki. apply Hb; [done|done|]. intros ?%half_double. lia.
  - destruct (min_child_spec h idx ltac:(lia)) as [Hmin Hm]. destruct (Nat.eqb_spec (min_child h idx) idx) as [E|E].
    + split; [done|]. intros i Hi Hki. destruct (decide (i / 2 = idx)%nat) as [Ei|Ei]; [|by apply Hb]. rewrite Ei. rewrite E in Hmin. apply Hmin; [lia|done].
    + destruct Hm as [?|(Hh & Hl & Hlt)]; [done|]. assert (Hmi : (idx < min_child h idx)%nat) by (apply half_double in Hh; lia).
      destruct (IH (min_child h idx) (swap idx (min_child h idx) h)) as [H1 H2]; [lia|rewrite length_swap; lia|by apply swap_heap_but|].
      split; [|done]. etrans; [|exact H1]. apply swap_same; lia.
Qed.

Lemma AdjustDown_spec h : heap_but 1 1 h -> same_entries h (AdjustDown 1 h) /\ heap_from 1 (AdjustDown 1 h).
Proof. intros H. apply adjust_spec; [lia|lia|done]. Qed.

(** The top may be replaced. *)
Lemma heap_replace_top e h : heap_from 1 h -> heap_but 1 1 (<[1%nat := e]> h).
Proof.
  intros H. split; intros i; rewrite length_insert; intros Hi.
  - intros H1 H2. rewrite !list_lookup_total_insert_ne; [by apply H| |lia]. pose proof (Nat.div_le_lower_bound i 2 1). lia.
  - cbn. lia.
Qed.

(** ** Building *)
Lemma build_spec i h : heap_from (S i) h -> same_entries h (build i h) /\ heap_from 1 (build i h).
Proof.
  revert h. induction i as [|i IH]; intros h H; cbn [build]; [done|].
  destruct (adjust_spec (S i) (length h) (S i) h) as [H1 H2]; [lia|lia| |].
  - split; [|intros j Hj Hh Hk; assert (S i / 2 < S i)%nat by (apply Nat.div_lt; lia); lia]. intros j Hj Hk Hne. apply H; [done|lia].
  - destruct (IH _ H2) as [H3 H4]. split; [by etrans|done].
Qed.
Lemma BuildHeap_spec h : same_entries h (BuildHeap h) /\ heap_from 1 (BuildHeap h).
Proof.
  apply build_spec. intros i Hi Hk. exfalso. assert (E : (i / 2 <= length h / 2)%nat) by (apply Nat.Div0.div_le_mono; lia).
  assert ((length h / 2 <= (1 + length h) / 2)%nat) by (apply Nat.Div0.div_le_mono; lia). lia.
Qed.

(** ** The top *)
Lemma TopEntry_least h : heap_from 1 h -> forall i, (1 <= i < length h)%nat -> entry_doc (TopEntry h) <= at_doc h i.
Proof.
  intros H i. induction (lt_wf i) as [i _ IH]. intros Hi. destruct (decide (i = 1)%nat) as [->|Hne]; [done|].
  assert (Hd : (i / 2 < i)%nat) by (apply Nat.div_lt; lia). assert (Hd1 : (1 <= i / 2)%nat) by (apply Nat.div_le_lower_bound; lia).
  etrans; [apply (IH (i / 2)%nat); lia|]. apply H; [lia|done].
Qed.
