(* ===== verification/DocUnion.v ===== *)
(** * Cursors over unions: [OrIterator], [KeywordIterator]

    The heap of an OR holds one entry per child with the child's document, besides entries of an
    earlier pass which all are [INVALID_ROWID]. [Next] moves every child that is behind the target
    once, so that the top is the first document of the union. *)
From S2P Require Import Prelude DocIterator DocCursor DocHeap.
Import DocIteratorHeap.

Section union.
Context {DL : DocLimit} {A : Type} {CO : CursorOf A} {sub : A -> Prop} {CL : CursorLaws A sub}.
Implicit Types (c : A) (cs : list A) (s : state) (ss : list state) (h : list DocIteratorEntry).

(** ** The heap and the children *)
Definition entries_from (i : nat) ss : list DocIteratorEntry := imap (fun k s => mkEntry (doc s) (i + k)) ss.
Notation or_entries := (entries_from 0).
Definition no_doc (e : DocIteratorEntry) : Prop := entry_doc e = INVALID_ROWID.
Definition heap_inv h ss : Prop :=
  exists (h0 : DocIteratorEntry) (es stale : list DocIteratorEntry), h = h0 :: es /\ es ≡ₚ or_entries ss ++ stale /\ Forall no_doc stale /\ heap_from 1 h.

Lemma lookup_entries ss i : or_entries ss !! i = (fun s => mkEntry (doc s) i) <$> ss !! i.
Proof. unfold entries_from. by rewrite list_lookup_imap. Qed.
Lemma insert_entries ss i s : (i < length ss)%nat -> or_entries (<[i:=s]> ss) = <[i := mkEntry (doc s) i]> (or_entries ss).
Proof.
  intros Hi. apply list_eq. intros j. rewrite lookup_entries. destruct (decide (i = j)) as [<-|Hne].
  - rewrite !list_lookup_insert_eq; [done|unfold entries_from; by rewrite length_imap|done].
  - by rewrite !list_lookup_insert_ne, lookup_entries by done.
Qed.
Lemma insert_Permutation {B} (l : list B) i x y : l !! i = Some x -> y :: l ≡ₚ x :: <[i:=y]> l.
Proof.
  revert i. induction l as [|z l IH]; intros [|i] H; cbn in *; try done.
  - injection H as ->. apply Permutation_swap.
  - rewrite Permutation_swap, (IH i H). apply Permutation_swap.
Qed.

Lemma heap_top h ss : heap_inv h ss -> ss <> [] ->
  (forall s, s ∈ ss -> entry_doc (TopEntry h) <= doc s) /\
  (no_doc (TopEntry h) \/ exists i s, ss !! i = Some s /\ TopEntry h = mkEntry (doc s) i).
Proof.
  intros (h0 & es & stale & -> & Hp & Hst & Hh) Hne. destruct es as [|e es].
  { apply Permutation_nil_l in Hp. by destruct ss. }
  assert (He : TopEntry (h0 :: e :: es) = e) by done. split.
  - intros s [i Hi]%list_elem_of_lookup. assert (Hin : mkEntry (doc s) i ∈ e :: es).
    { rewrite Hp. apply elem_of_app. left. apply list_elem_of_lookup. exists i. by rewrite lookup_entries, Hi. }
    apply list_elem_of_lookup in Hin as [j Hj]. pose proof (TopEntry_least _ Hh (S j)) as Hle.
    rewrite (list_lookup_total_correct (h0 :: e :: es) (S j) _ Hj) in Hle. apply Hle. apply lookup_lt_Some in Hj. cbn in *. lia.
  - rewrite He. assert (Hin : e ∈ or_entries ss ++ stale) by (rewrite <- Hp; by left). apply elem_of_app in Hin as [Hin|Hin].
    + right. apply list_elem_of_lookup in Hin as [i Hi]. rewrite lookup_entries in Hi. destruct (ss !! i) as [s|] eqn:E; [|done]. injection Hi as <-. eauto.
    + left. rewrite Forall_forall in Hst. by apply Hst.
Qed.

(** The child on top has moved. *)
Lemma heap_update h ss i s s' : heap_inv h ss -> ss !! i = Some s -> TopEntry h = mkEntry (doc s) i ->
  heap_inv (AdjustDown 1 (<[1%nat := mkEntry (doc s') i]> h)) (<[i:=s']> ss).
Proof.
  intros (h0 & es & stale & -> & Hp & Hst & Hh) Hi Htop. pose proof (lookup_lt_Some _ _ _ Hi) as Hl. destruct es as [|e es].
  { apply Permutation_nil_l in Hp. symmetry in Hp. apply app_eq_nil in Hp as [Hp _]. destruct ss; [cbn in Hl; lia|done]. }
  destruct (AdjustDown_spec (<[1%nat := mkEntry (doc s') i]> (h0 :: e :: es))) as [H1 H2]; [by apply heap_replace_top|].
  cbn [insert list_insert] in H1, H2 |- *. destruct (same_entries_tail _ _ _ H1) as (es' & Heq & Hp').
  exists h0, es', stale. split_and!; [done| |done|done]. rewrite Hp', insert_entries by done. cbn in Htop. subst e.
  assert (Hi' : or_entries ss !! i = Some (mkEntry (doc s) i)) by (by rewrite lookup_entries, Hi).
  apply (Permutation_cons_inv (a := mkEntry (doc s) i)). rewrite Permutation_swap, Hp, !app_comm_cons. by rewrite <- (insert_Permutation _ _ _ (mkEntry (doc s') i) Hi').
Qed.

(** ** The first call *)
Definition started cs ss : list state := zip_with (fun c s => advance (c_docs c) s 0) cs ss.
Lemma or_start_spec cs ss : children sub cs ss -> Forall (fun s => doc s = INVALID_ROWID) ss -> exists N cs', forall i h F, (N <= F)%nat ->
  or_start c_doc (c_next F) i h cs = Some (h ++ entries_from i (started cs ss), cs') /\ children sub cs' (started cs ss) /\ docs_of cs' = docs_of cs.
Proof.
  revert ss. induction cs as [|c cs IH]; intros ss Hc Hi.
  { destruct Hc as (_ & ->%Forall2_nil_inv_l). exists 0%nat, []. intros i h F _. cbn. rewrite app_nil_r. split_and!; done. }
  apply children_cons in Hc as (s & ss' & -> & Hsub & Hg & Hcs). apply Forall_cons in Hi as [Hi His]. pose proof target_0 as Ht.
  destruct (child_call c s 0 Hsub Hg Ht) as (N & c1 & HN & Hsub1 & Hg1 & Hd1 & Hdoc & _). destruct (IH ss' Hcs His) as (N2 & cs' & HN2).
  destruct (cursor_state c s Hsub Hg) as [Hdc _].
  exists (N `max` N2)%nat, (c1 :: cs'). intros i h F HF. cbn. unfold next_doc. rewrite Hdc, Hi. cbn. rewrite HN by lia.
  destruct (HN2 (S i) (AddEntry (mkEntry (c_doc c1) i) h) F ltac:(lia)) as (-> & Hc' & Hd'). split_and!; [|by apply children_cons_2|by cbn; rewrite Hd1, Hd'].
  do 2 f_equal. unfold AddEntry, entries_from. rewrite <- app_assoc. cbn. rewrite Hdoc, Nat.add_0_r. do 2 f_equal. apply imap_ext. intros k x _. cbn. f_equal. lia.
Qed.

(** ** The loop *)
Definition behind (t : Z) ss : nat := length (filter (fun s => doc s < t) ss).
Lemma behind_less t ss i s s' : ss !! i = Some s -> doc s < t -> t <= doc s' -> (behind t (<[i:=s']> ss) < behind t ss)%nat.
Proof.
  unfold behind. revert i. induction ss as [|x ss IH]; intros [|i] Hi H1 H2; cbn in Hi; try done.
  - injection Hi as ->. cbn [insert list_insert]. rewrite !filter_cons, decide_False, decide_True by lia. cbn [length]. lia.
  - change (<[S i:=s']> (x :: ss)) with (x :: <[i:=s']> ss). rewrite !filter_cons. specialize (IH i Hi H1 H2). case_decide; cbn [length]; lia.
Qed.
(** A child that was asked for documents up to the target. *)
Definition running (t : Z) s : Prop := ~ is_fresh s /\ lag s t.
Definition settled (t : Z) s : Prop := ~ is_fresh s /\ lag s t /\ t <= doc s.

Lemma or_loop_spec h cs ss t : heap_inv h ss -> ss <> [] -> children sub cs ss -> Forall (running t) ss -> target t -> exists N h' cs' ss',
  (forall F n, (N <= F)%nat -> (N <= n)%nat -> or_loop c_doc (c_next F) n t h cs = Some (h', cs')) /\
  heap_inv h' ss' /\ children sub cs' ss' /\ docs_of cs' = docs_of cs /\ Forall (settled t) ss' /\ ss' <> [].
Proof.
  remember (behind t ss) as k eqn:Ek. revert h cs ss Ek. induction (lt_wf k) as [k _ IH]. intros h cs ss -> Hh Hne Hc Hrun Ht.
  destruct (heap_top h ss Hh Hne) as [Hmin Htop]. destruct (Z.leb_spec t (entry_doc (TopEntry h))) as [Hle|Hgt].
  - exists 1%nat, h, cs, ss. split_and!; try done.
    + intros F [|n] _ Hn; [lia|]. cbn. by rewrite (proj2 (Z.leb_le _ _)).
    + rewrite Forall_forall in Hrun |- *. intros s Hs. destruct (Hrun s Hs). specialize (Hmin s Hs). split_and!; try done. lia.
  - destruct Htop as [Hno|(i & s & Hi & Htop)]; [unfold no_doc, target in *; lia|]. rewrite Htop in Hgt. cbn in Hgt.
    destruct (lookup_lt_is_Some_2 cs i) as [c Hci]; [rewrite (children_length cs ss) by done; by eapply lookup_lt_Some|].
    destruct (children_lookup _ _ _ _ _ Hc Hci Hi) as [Hsub Hg].
    destruct (child_call c s t Hsub Hg Ht) as (N & c1 & HN & Hsub1 & Hg1 & Hd1 & Hdoc & Hv1 & Hge & _).
    pose proof (advance_not_fresh (c_docs c) s t) as Hnf. pose proof (advance_lag (c_docs c) s t) as Hlag.
    set (s1 := advance (c_docs c) s t) in *. assert (Hr1 : running t s1) by (split; [done|]; apply Hlag; by eapply (Forall_lookup_1 _ _ _ _ Hrun)).
    edestruct (IH (behind t (<[i:=s1]> ss))) with (h := AdjustDown 1 (<[1%nat := mkEntry (doc s1) i]> h)) (cs := <[i:=c1]> cs) (ss := <[i:=s1]> ss)
      as (N2 & h' & cs' & ss' & HN2 & Hrest); try done.
    + by eapply behind_less.
    + by eapply heap_update.
    + intros E%(f_equal length). rewrite length_insert in E. by destruct ss.
    + by apply children_insert.
    + by apply Forall_insert.
    + exists (S (N `max` N2))%nat, h', cs', ss'. split.
      * intros F [|n] HF Hn; [lia|]. cbn. rewrite Htop. cbn. rewrite (proj2 (Z.leb_gt _ _)) by done. rewrite Hci, HN by lia. rewrite Hdoc. apply HN2; lia.
      * destruct Hrest as (? & ? & Hd & ? & ?). split_and!; try done. rewrite Hd, list_fmap_insert, Hd1.
        apply list_insert_id. by rewrite list_lookup_fmap, Hci.
Qed.

(** ** The call *)
Definition or_docs (l : list (gset Z)) : gset Z := ⋃ l.
Definition or_state h ss s : Prop :=
  match s with
  | Fresh => h = make /\ Forall is_fresh ss
  | At p d => heap_inv h ss /\ Forall (settled p) ss /\ entry_doc (TopEntry h) = d
  | Done _ => heap_inv h ss /\ Forall is_done ss
  end.

(** Children that have settled at a target give the state of the union there. *)
Lemma settled_least (X : gset Z) s t : valid_state X s -> settled t s -> doc s = default INVALID_ROWID (least X t).
Proof.
  intros Hv (Hf & Hl & Hd). rewrite <- (advance_doc X s t Hv Hl). destruct s as [|p d|p]; cbn in *; try done. by rewrite (proj2 (Z.leb_le _ _)).
Qed.
Lemma union_in_range cs : Forall sub cs -> in_range (or_docs (docs_of cs)).
Proof.
  intros Hs x (X & (c & -> & Hc)%list_elem_of_fmap & Hx)%elem_of_union_list. rewrite Forall_forall in Hs. by apply (cursor_range c (Hs c Hc)).
Qed.
Lemma children_elem cs ss c : children sub cs ss -> c ∈ cs -> exists s, s ∈ ss /\ c_good c s.
Proof.
  intros [_ Hf] [i Hi]%list_elem_of_lookup. destruct (Forall2_lookup_l _ _ _ _ _ Hf Hi) as (s & Hs & Hg). exists s. split; [|done]. by eapply list_elem_of_lookup_2.
Qed.
Lemma or_settled h cs ss t : heap_inv h ss -> ss <> [] -> children sub cs ss -> Forall (settled t) ss -> target t ->
  let s' := at_or (or_docs (docs_of cs)) t in entry_doc (TopEntry h) = doc s' /\ or_state h ss s'.
Proof.
  intros Hh Hne Hc Hset Ht s'. destruct (heap_top h ss Hh Hne) as [Hmin Htop]. pose proof Hc as [Hsub Hg].
  assert (Hlow : forall x, x ∈ or_docs (docs_of cs) -> t <= x -> entry_doc (TopEntry h) <= x).
  { intros x (X & (c & -> & Hcc)%list_elem_of_fmap & Hx)%elem_of_union_list Hle. destruct (children_elem cs ss c Hc Hcc) as (s & Hs & Hgs).
    assert (Hsc : sub c) by (rewrite Forall_forall in Hsub; auto). destruct (cursor_state c s Hsc Hgs) as [_ Hv].
    etrans; [by apply Hmin|]. rewrite (settled_least _ s t Hv) by (rewrite Forall_forall in Hset; auto). apply least_first; try done. by apply cursor_range. }
  assert (Hdone : no_doc (TopEntry h) -> Forall is_done ss).
  { intros Hno. rewrite Forall_forall in Hset |- *. intros s Hs. destruct (Hset s Hs) as (Hf & _). specialize (Hmin s Hs). unfold no_doc in Hno.
    apply list_elem_of_lookup in Hs as [i Hi]. destruct (Forall2_lookup_r _ _ _ _ _ Hg Hi) as (c & Hci & Hgc).
    assert (Hsc : sub c) by (by eapply Forall_lookup_1). destruct (cursor_state c s Hsc Hgc) as [_ Hv]. pose proof (cursor_range c Hsc) as Hr.
    destruct (decide (doc s = INVALID_ROWID)) as [E|E]; [destruct (doc_invalid _ _ Hr Hv E); done|].
    destruct (doc_valid _ _ Hr Hv) as [?|[_ ?]]; [done|]. unfold target in *. lia. }
  destruct (decide (no_doc (TopEntry h))) as [Hno|Hno].
  - assert (E : s' = Done t).
    { apply at_or_Done. intros x Hx Hle. specialize (Hlow x Hx Hle). specialize (union_in_range cs Hsub x Hx). unfold no_doc in Hno. lia. }
    rewrite E. split; [done|]. split; [done|auto].
  - destruct Htop as [?|(i & s & Hi & Htop)]; [done|]. rewrite Htop in *. cbn in *.
    destruct (Forall2_lookup_r _ _ _ _ _ Hg Hi) as (c & Hci & Hgc). assert (Hsc : sub c) by (by eapply Forall_lookup_1).
    destruct (cursor_state c s Hsc Hgc) as [_ Hv]. destruct (doc_valid _ _ (cursor_range c Hsc) Hv) as [?|[Hin _]]; [done|].
    assert (Hs : settled t s) by (by eapply Forall_lookup_1).
    assert (E : s' = At t (doc s)).
    { apply at_or_At; [|apply Hs|done]. apply elem_of_union_list. exists (c_docs c). split; [|done]. apply list_elem_of_fmap. exists c. split; [done|]. by eapply list_elem_of_lookup_2. }
    rewrite E. split; [done|]. split_and!; try done. by rewrite Htop.
Qed.

Lemma started_running cs ss t : children sub cs ss -> Forall is_fresh ss -> 0 <= t -> Forall (running t) (started cs ss) /\ Forall (settled 0) (started cs ss).
Proof.
  intros Hc. revert ss Hc. induction cs as [|c cs IH]; intros ss Hc Hf Ht; [by split; constructor|].
  apply children_cons in Hc as (s & ss' & -> & Hsub & Hg & Hcs). apply Forall_cons in Hf as [Hf Hfs]. destruct (IH ss' Hcs Hfs Ht) as [H1 H2].
  destruct s; try done. cbn. pose proof (at_or_not_fresh (c_docs c) 0). pose proof (at_or_lag (c_docs c) 0) as Hl. split; constructor; try done.
  - split; [done|]. by eapply lag_le.
  - split_and!; try done. apply (advance_ge (c_docs c) Fresh 0), target_0.
Qed.
Lemma started_done cs ss : length cs = length ss -> Forall is_done ss -> started cs ss = ss.
Proof.
  revert ss. induction cs as [|c cs IH]; intros [|s ss] Hl Hd; cbn in Hl |- *; try done. apply Forall_cons in Hd as [Hd Hds].
  unfold started in IH. rewrite IH by (done || lia). by destruct s.
Qed.
Lemma heap_start (h0 : DocIteratorEntry) ss : heap_inv (BuildHeap (h0 :: or_entries ss)) ss.
Proof.
  destruct (BuildHeap_spec (h0 :: or_entries ss)) as [H1 H2]. destruct (same_entries_tail _ _ _ H1) as (es & E & Hp).
  exists h0, es, []. rewrite app_nil_r. done.
Qed.
Lemma heap_restart h ss : heap_inv h ss -> Forall is_done ss -> heap_inv (BuildHeap (h ++ or_entries ss)) ss.
Proof.
  intros (h0 & es & stale & -> & Hp & Hst & _) Hd. destruct (BuildHeap_spec ((h0 :: es) ++ or_entries ss)) as [H1 H2].
  destruct (same_entries_tail _ _ _ H1) as (es' & E & Hp'). exists h0, es', (or_entries ss ++ stale). split_and!; [done| | |done].
  - rewrite Hp', Hp. apply Permutation_app_comm.
  - apply Forall_app. split; [|done]. apply Forall_lookup. intros i e. rewrite lookup_entries. intros (s & Hs & ->)%fmap_Some.
    assert (Hds : is_done s) by (by eapply Forall_lookup_1). by destruct s.
Qed.

Lemma or_next_spec h cs ss s t : ss <> [] -> children sub cs ss -> or_state h ss s -> valid_state (or_docs (docs_of cs)) s -> target t ->
  let s' := advance (or_docs (docs_of cs)) s t in exists N h' cs' ss',
  (forall F, (N <= F)%nat -> or_next c_doc (c_next F) F t (doc s) h cs = Some (doc s', h', cs')) /\
  children sub cs' ss' /\ docs_of cs' = docs_of cs /\ or_state h' ss' s' /\ ss' <> [].
Proof.
  intros Hne Hc Hs Hv Ht s'. pose proof Hc as [Hsub _]. pose proof (union_in_range cs Hsub) as Hr.
  assert (Hloop : forall h1 cs1 ss1, heap_inv h1 ss1 -> ss1 <> [] -> children sub cs1 ss1 -> docs_of cs1 = docs_of cs -> Forall (running t) ss1 ->
    s' = at_or (or_docs (docs_of cs)) t -> exists N h' cs' ss',
    (forall F, (N <= F)%nat -> or_loop c_doc (c_next F) F t h1 cs1 = Some (h', cs')) /\ entry_doc (TopEntry h') = doc s' /\
    children sub cs' ss' /\ docs_of cs' = docs_of cs /\ or_state h' ss' s' /\ ss' <> []).
  { intros h1 cs1 ss1 Hh1 Hne1 Hc1 Hd1 Hrun1 Es'. destruct (or_loop_spec h1 cs1 ss1 t) as (N & h' & cs' & ss' & HN & Hh' & Hc' & Hd' & Hset & Hne'); try done.
    destruct (or_settled h' cs' ss' t Hh' Hne' Hc' Hset Ht) as [H1 H2]. rewrite Hd', Hd1, <- Es' in H1, H2.
    exists N, h', cs', ss'. split_and!; try done; [intros F HF; by apply HN|congruence]. }
  unfold or_next. destruct s as [|p d|p].
  - destruct Hs as [-> Hf]. destruct (or_start_spec cs ss Hc) as (N & cs1 & HN); [eapply Forall_impl; [exact Hf|]; by intros []|].
    destruct (HN 0%nat make N ltac:(lia)) as (_ & Hc1 & Hd1). destruct (started_running cs ss t Hc Hf) as [Hrun Hset0]; [unfold target in Ht; lia|].
    assert (Hne1 : started cs ss <> []). { intros E%(f_equal length). rewrite <- (children_length _ _ Hc1) in E. apply (f_equal length) in Hd1.
      rewrite !length_map in Hd1. rewrite (children_length _ _ Hc) in Hd1. destruct ss; [done|cbn in *; lia]. }
    pose proof (heap_start (mkEntry INVALID_ROWID 0) (started cs ss)) as Hh1. set (h1 := BuildHeap _) in Hh1.
    destruct (or_settled h1 cs1 _ 0 Hh1 Hne1 Hc1 Hset0 target_0) as [Htop _]. rewrite Hd1 in Htop. set (s0 := at_or _ 0) in Htop.
    destruct (decide (doc s0 <> INVALID_ROWID /\ t <= doc s0)) as [[E1 E2]|E].
    + exists N, h1, cs1, (started cs ss).
      assert (Hset : Forall (settled t) (started cs ss)).
      { rewrite Forall_forall in Hrun |- *. intros s Hin. destruct (Hrun s Hin). split_and!; try done. etrans; [exact E2|]. rewrite <- Htop. by apply (heap_top h1 _ Hh1 Hne1). }
      destruct (or_settled h1 cs1 _ t Hh1 Hne1 Hc1 Hset Ht) as [H1 H2]. rewrite Hd1 in H1, H2. fold s' in H1, H2. split_and!; try done.
      intros F HF. cbn [doc]. rewrite Z.eqb_refl. destruct (HN 0%nat make F HF) as (-> & _). change (make ++ entries_from 0 (started cs ss)) with (mkEntry INVALID_ROWID 0 :: or_entries (started cs ss)).
      fold h1. rewrite Htop, (proj2 (Z.eqb_neq _ _)), (proj2 (Z.leb_le _ _)) by done. cbn. do 3 f_equal. congruence.
    + destruct (Hloop h1 cs1 (started cs ss)) as (N2 & h2 & cs2 & ss2 & HN2 & Htop2 & Hrest); try done.
      exists (N `max` N2)%nat, h2, cs2, ss2. split; [|done].
      intros F HF. cbn [doc]. rewrite Z.eqb_refl. destruct (HN 0%nat make F ltac:(lia)) as (-> & _). change (make ++ entries_from 0 (started cs ss)) with (mkEntry INVALID_ROWID 0 :: or_entries (started cs ss)).
      fold h1. rewrite Htop. destruct (Z.eqb_spec (doc s0) INVALID_ROWID); cbn [negb andb]; [by rewrite HN2, Htop2 by lia|].
      rewrite (proj2 (Z.leb_gt _ _)) by lia. by rewrite HN2, Htop2 by lia.
  - destruct Hs as (Hh & Hset & Htop). cbn [doc]. assert (Hd : d <> INVALID_ROWID). { destruct Hv as (_ & Hv & _). specialize (Hr _ Hv). lia. }
    rewrite (proj2 (Z.eqb_neq d INVALID_ROWID) Hd). unfold s'. cbn [advance]. destruct (Z.leb_spec t d) as [Hle|Hgt].
    + exists 0%nat, h, cs, ss. split_and!; try done. intros F _. by rewrite (proj2 (Z.eqb_neq d INVALID_ROWID) Hd).
    + destruct (Hloop h cs ss) as (N & h2 & cs2 & ss2 & HN & Htop2 & Hrest); try done.
      * eapply Forall_impl; [exact Hset|]. intros s (Hnf & Hl & _). split; [done|]. eapply lag_le; [done|]. destruct Hv as (Hv & _). lia.
      * unfold s'. cbn. by rewrite (proj2 (Z.leb_gt _ _)).
      * assert (Es' : s' = at_or (or_docs (docs_of cs)) t) by (unfold s'; cbn; by rewrite (proj2 (Z.leb_gt _ _))). rewrite Es' in Htop2, Hrest.
        exists N, h2, cs2, ss2. split; [|done]. intros F HF. rewrite andb_false_r. by rewrite HN, Htop2 by done.
  - destruct Hs as [Hh Hd]. destruct (or_start_spec cs ss Hc) as (N & cs1 & HN); [eapply Forall_impl; [exact Hd|]; by intros []|].
    destruct (HN 0%nat h N ltac:(lia)) as (_ & Hc1 & Hd1). rewrite started_done in HN, Hc1 by (done || exact (children_length _ _ Hc)).
    pose proof (heap_restart h ss Hh Hd) as Hh1. exists (S N), (BuildHeap (h ++ or_entries ss)), cs1, ss. split_and!; try done.
    assert (Htop : entry_doc (TopEntry (BuildHeap (h ++ or_entries ss))) = INVALID_ROWID).
    { destruct (heap_top _ _ Hh1 Hne) as [_ [H|(i & s & Hi & ->)]]; [done|]. assert (Hds : is_done s) by (by eapply Forall_lookup_1). by destruct s. }
    intros [|F] HF; [lia|]. cbn [doc]. rewrite Z.eqb_refl. destruct (HN 0%nat h (S F) ltac:(lia)) as (-> & _). rewrite Htop, Z.eqb_refl. cbn [negb andb or_loop].
    rewrite Htop, (proj2 (Z.leb_le _ _)) by (unfold target in Ht; lia). by rewrite Htop.
Qed.
End union.
