(* ===== verification/DocTree.v ===== *)
(** * Trees of document iterators are cursors

    What postings promise ([PostingLaws]), and that the iterators of terms, phrases, AND, AND NOT, OR,
    keywords and MUST FIRST over such postings are cursors over the documents that their tree means.
    The loops of [Next] end: for every call there is an amount of fuel that is enough. *)
From S2P Require Import Prelude DocIterator DocCursor DocHeap DocUnion.
Import DocIteratorHeap.

(** ** Postings

    A posting is a cursor over the documents of its term; it stays done, and it keeps the positions. *)
Class PostingLaws {DL : DocLimit} `{P : Posting} := {
  posting_docs : posting -> gset Z;
  posting_ok : posting -> Prop;
  posting_good : posting -> state -> Prop;
  posting_state p s : posting_ok p -> posting_good p s -> posting_doc p = doc s /\ valid_state (posting_docs p) s;
  posting_range p : posting_ok p -> in_range (posting_docs p);
  posting_seek p s t : posting_ok p -> posting_good p s -> target t ->
    posting_ok (SeekDoc t p) /\ posting_good (SeekDoc t p) (advance (posting_docs p) s t);
  posting_seek_docs p t : posting_docs (SeekDoc t p) = posting_docs p;
  posting_seek_positions p t : posting_positions (SeekDoc t p) = posting_positions p;
}.

Section tree.
Context `{PL : PostingLaws}.
Implicit Types (p : posting) (ps : list posting) (it : DocIterator) (s : state) (ss : list state).

#[export] Instance posting_cursor : CursorOf posting :=
  {| c_doc := posting_doc; c_next := fun _ => posting_next; c_docs := posting_docs; c_good := posting_good |}.
#[export] Instance posting_cursor_laws : CursorLaws posting posting_ok.
Proof.
  split; cbn; [apply posting_state|apply posting_range|]. intros p Hok s t Hg Ht.
  destruct (posting_seek p s t Hok Hg Ht) as (H1 & H2). exists 0%nat, (SeekDoc t p). split; [|split_and!; [done|done|apply posting_seek_docs]].
  intros F _. unfold posting_next. destruct (posting_state _ _ H1 H2) as [-> _].
  destruct (Z.eqb_spec (doc (advance (posting_docs p) s t)) INVALID_ROWID); [rewrite bool_decide_false|rewrite bool_decide_true]; by try tauto.
Qed.

(** ** Phrases *)
Definition phrase_docs (slop : Z) ps : gset Z :=
  filter (fun x => Phrase.GetPhraseMatchData slop (map (fun p => posting_positions p x) ps) = true) (and_docs (map posting_docs ps)).

Lemma round_positions t ps r ps' : and_round posting_doc posting_next t ps = Some (r, ps') -> map posting_positions ps' = map posting_positions ps.
Proof.
  revert t r ps'. induction ps as [|p ps IH]; intros t r ps' E; cbn in E; [by simplify_eq|].
  destruct (posting_doc (SeekDoc t p) =? INVALID_ROWID); cbn in E; simplify_eq; cbn; [by rewrite posting_seek_positions|].
  destruct (and_round _ _ _ ps) as [[r1 ps1]|] eqn:E1; [|done]. simplify_eq. cbn. rewrite posting_seek_positions. f_equal. by eapply IH.
Qed.
Lemma positions_at ps ps' (x : Z) : map posting_positions ps' = map posting_positions ps ->
  map (fun p => posting_positions p x) ps' = map (fun p => posting_positions p x) ps.
Proof. intros E. rewrite <- !(map_map posting_positions (fun f => f x)). by rewrite E. Qed.
Lemma phrase_docs_same slop ps ps' : map posting_docs ps' = map posting_docs ps -> map posting_positions ps' = map posting_positions ps ->
  phrase_docs slop ps' = phrase_docs slop ps.
Proof. intros E1 E2. unfold phrase_docs. rewrite E1. apply set_eq. intros x. rewrite !elem_of_filter. by rewrite (positions_at ps ps' x E2). Qed.
Lemma elem_of_phrase_docs slop ps x : ps <> [] -> x ∈ phrase_docs slop ps <->
  Phrase.GetPhraseMatchData slop (map (fun p => posting_positions p x) ps) = true /\ common (map posting_docs ps) x.
Proof. intros Hne. unfold phrase_docs. rewrite elem_of_filter, elem_of_and_docs. split; [naive_solver|]. intros [? ?]. split_and!; try done. by destruct ps. Qed.
Lemma phrase_loop_spec slop p ps ss t t0 : children posting_ok (p :: ps) ss -> target t -> t0 <= t -> exists N d ps' ss',
  (forall n, (N <= n)%nat -> phrase_loop n t slop (p :: ps) = Some (d, ps')) /\ children posting_ok ps' ss' /\
  map posting_docs ps' = map posting_docs (p :: ps) /\ map posting_positions ps' = map posting_positions (p :: ps) /\
  (Exists is_done ss -> d = INVALID_ROWID) /\
  let matching := phrase_docs slop (p :: ps) in
  if decide (d = INVALID_ROWID) then Exists is_done ss' /\
    (Forall (fun s => lag s t) ss -> (forall x, t0 <= x < t -> x ∉ matching) -> forall x, t0 <= x -> x ∉ matching)
  else target d /\ d ∈ matching /\ Forall (fun s => exists q, s = At q d) ss' /\
    (Forall (fun s => lag s t) ss -> (forall x, t0 <= x < t -> x ∉ matching) ->
      Forall (fun s => lag s d) ss' /\ t0 <= d /\ forall x, t0 <= x -> x ∈ matching -> d <= x).
Proof.
  remember (size (ahead p t)) as k eqn:Ek. revert p ps ss t Ek. induction (lt_wf k) as [k _ IH]. intros p ps ss t -> Hc Ht Ht0.
  destruct (and_round_spec (p :: ps) ss t Hc Ht) as (N & r & ps1 & ss1 & HN & Hc1 & Hd1 & Hdone & Hpost). specialize (HN N ltac:(lia)).
  cbn [c_next c_doc posting_cursor] in HN. pose proof (round_positions _ _ _ _ HN) as Hpos1. destruct r as [t'|].
  2: { destruct Hpost as [H1 H2]. exists 1%nat, INVALID_ROWID, ps1, ss1. split_and!; try done.
       - intros [|n] Hn; [lia|]. cbn [phrase_loop]. by rewrite HN.
       - rewrite decide_True by done. split; [done|]. intros Hl Hno x Hx. destruct (Z_lt_ge_dec x t); [apply Hno; lia|].
         intros [_ Hcom]%elem_of_phrase_docs; [|done]. apply (H2 Hl x); [lia|done]. }
  destruct Hpost as (H1 & H2 & H3 & H4 & H5 & H6). specialize (H5 ltac:(done)).
  destruct ps1 as [|p1 ps1]; [done|]. cbn [first_doc c_doc posting_cursor] in *.
  assert (Hin : posting_doc p1 ∈ posting_docs p1).
  { pose proof Hc1 as Hcc. apply children_cons in Hcc as (s1 & ss2 & -> & Hs1 & Hg1 & _). apply Forall_cons in H3 as [(q & d & -> & _) _].
    destruct (posting_state p1 _ Hs1 Hg1) as [-> (_ & Hx & _)]. done. }
  pose proof Hd1 as Hd1'. cbn in Hd1'. injection Hd1' as Hdc Hdcs. pose proof (phrase_docs_same slop _ _ Hd1 Hpos1) as Hsame.
  assert (Hrange : in_range (posting_docs p)). { destruct Hc as [[Hok _]%Forall_cons _]. by apply posting_range. }
  (* what remains to be done when the loop goes on with [t2] *)
  assert (Hgo : forall t2, target t2 -> posting_doc p1 < t2 -> t <= t2 ->
    (Forall (fun s => lag s t) ss -> Forall (fun s => lag s t2) ss1 /\ forall x, t <= x < t2 -> x ∉ phrase_docs slop (p :: ps)) ->
    exists N d ps' ss',
    (forall n, (N <= n)%nat -> phrase_loop n t2 slop (p1 :: ps1) = Some (d, ps')) /\ children posting_ok ps' ss' /\
    map posting_docs ps' = map posting_docs (p :: ps) /\ map posting_positions ps' = map posting_positions (p :: ps) /\
    let matching := phrase_docs slop (p :: ps) in
    if decide (d = INVALID_ROWID) then Exists is_done ss' /\
      (Forall (fun s => lag s t) ss -> (forall x, t0 <= x < t -> x ∉ matching) -> forall x, t0 <= x -> x ∉ matching)
    else target d /\ d ∈ matching /\ Forall (fun s => exists q, s = At q d) ss' /\
      (Forall (fun s => lag s t) ss -> (forall x, t0 <= x < t -> x ∉ matching) ->
        Forall (fun s => lag s d) ss' /\ t0 <= d /\ forall x, t0 <= x -> x ∈ matching -> d <= x)).
  { intros t2 Ht2 Hlt Hle Hskip.
    destruct (IH (size (ahead p1 t2))) with (p := p1) (ps := ps1) (ss := ss1) (t := t2) as (N2 & d & ps2 & ss2 & HN2 & Hc2 & Hd2 & Hp2 & Hdone2 & Hpost2); try done; [|lia|].
    { assert (ahead p1 t2 = ahead p t2) as -> by (unfold ahead; cbn; by rewrite Hdc). apply (ahead_less p t (posting_doc p1) t2); [by cbn; rewrite <- Hdc|lia]. }
    exists N2, d, ps2, ss2. cbn zeta in Hpost2. rewrite Hsame in Hpost2. split_and!; [done|done|etrans; [exact Hd2|exact Hd1]|congruence|].
    assert (Hskip2 : Forall (fun s => lag s t) ss -> (forall x, t0 <= x < t -> x ∉ phrase_docs slop (p :: ps)) ->
      Forall (fun s => lag s t2) ss1 /\ forall x, t0 <= x < t2 -> x ∉ phrase_docs slop (p :: ps)).
    { intros Hl Hno. destruct (Hskip Hl) as [H7 H8]. split; [done|]. intros x Hx. destruct (Z_lt_ge_dec x t); [apply Hno|apply H8]; lia. }
    cbn zeta. case_decide.
    - destruct Hpost2 as [H7 H8]. split; [done|]. intros Hl Hno. destruct (Hskip2 Hl Hno). by apply H8.
    - destruct Hpost2 as (H7 & H8 & H9 & H10). split_and!; try done. intros Hl Hno. destruct (Hskip2 Hl Hno). by apply H10. }
  assert (Hnd : ~ Exists is_done ss). { intros Hex. by specialize (Hdone Hex). }
  destruct (decide (t' = posting_doc p1)) as [E|E].
  - specialize (H4 ltac:(done)). assert (Hall : Forall (fun s => exists q, s = At q t') ss1).
    { rewrite Forall_forall in H3, H4 |- *. intros s Hs. destruct (H3 s Hs) as (q & d & -> & _). specialize (H4 _ Hs). cbn in H4. subst d. by exists q. }
    pose proof (positions_at _ _ t' Hpos1) as Hpa.
    destruct (Phrase.GetPhraseMatchData slop (map (fun p => posting_positions p t') (p :: ps))) eqn:Em.
    + assert (Hi : t' <> INVALID_ROWID) by (unfold target in H2; lia).
      exists 1%nat, t', (p1 :: ps1), ss1. split_and!; try done.
      * intros [|n] Hn; [lia|]. cbn [phrase_loop]. rewrite HN. cbn [first_doc]. rewrite (proj2 (Z.eqb_eq _ _)) by done. by rewrite Hpa, Em.
      * cbn zeta. rewrite decide_False by done. split_and!; [done| |done|].
        -- apply elem_of_phrase_docs; [done|]. split; [done|]. change (common (map c_docs (p :: ps)) t'). rewrite <- Hd1. by eapply children_common.
        -- intros Hl Hno. destruct (H6 Hl) as [H7 H8]. split_and!; [done|lia|]. intros x Hx Hm. destruct (Z_lt_ge_dec x t); [exfalso; apply (Hno x); [lia|done]|].
           apply H8; [lia|]. by apply elem_of_phrase_docs in Hm as [_ ?].
    + assert (Hr' : 0 <= t' < limit `min` INVALID_ROWID - 1). { apply Hrange. by rewrite <- Hdc, E. }
      assert (Hu : u64 (t' + 1) = t' + 1). { unfold u64, wrap. apply Z.mod_small. unfold INVALID_ROWID in Hr'. lia. }
      destruct (Hgo (t' + 1)) as (N2 & d & ps2 & ss2 & HN2 & Hc2 & Hd2 & Hp2 & Hpost2); [unfold target; lia|lia|lia| |].
      { intros Hl. destruct (H6 Hl) as [H7 H8]. split; [eapply Forall_impl; [exact H7|]; cbn; intros s Hs; eapply lag_le; [exact Hs|lia]|].
        intros x Hx [Hm Hcom]%elem_of_phrase_docs; [|done]. specialize (H8 x ltac:(lia) Hcom). assert (x = t') by lia. subst x. congruence. }
      exists (S N2), d, ps2, ss2. split_and!; try done. intros [|n] Hn; [lia|]. cbn [phrase_loop]. rewrite HN. cbn [first_doc].
      rewrite (proj2 (Z.eqb_eq _ _)) by done. rewrite Hpa, Em, Hu. apply HN2. lia.
  - destruct (Hgo t') as (N2 & d & ps2 & ss2 & HN2 & Hc2 & Hd2 & Hp2 & Hpost2); [done|lia|lia| |].
    { intros Hl. destruct (H6 Hl) as [H7 H8]. split; [done|]. intros x Hx [Hm Hcom]%elem_of_phrase_docs; [|done]. specialize (H8 x ltac:(lia) Hcom). lia. }
    exists (S N2), d, ps2, ss2. split_and!; try done. intros [|n] Hn; [lia|]. cbn [phrase_loop]. rewrite HN. cbn [first_doc].
    rewrite (proj2 (Z.eqb_neq _ _)) by done. apply HN2. lia.
Qed.

Lemma and_lag ss s t : and_state ss s -> ~ is_done s -> moves s t -> Forall (fun s => lag s t) ss.
Proof.
  intros Hs Hnd Hm. destruct s; cbn in Hs, Hm; try done; (eapply Forall_impl; [exact Hs|]); [by intros []|].
  cbn. intros ? (p' & -> & ?). cbn. lia.
Qed.
Lemma phrase_next_spec slop ps ss s t : ps <> [] -> children posting_ok ps ss -> and_state ss s -> target t -> moves s t ->
  let s' := advance (phrase_docs slop ps) s t in exists N ps' ss',
  (forall F, (N <= F)%nat -> phrase_loop F t slop ps = Some (doc s', ps')) /\
  children posting_ok ps' ss' /\ phrase_docs slop ps' = phrase_docs slop ps /\ and_state ss' s' /\ ps' <> [].
Proof.
  intros Hne Hc Hs Ht Hm s'. destruct ps as [|p ps]; [done|].
  destruct (phrase_loop_spec slop p ps ss t t Hc Ht ltac:(lia)) as (N & d & ps' & ss' & HN & Hc' & Hd' & Hp' & Hdone & Hpost). exists N, ps', ss'.
  cut (d = doc s' /\ and_state ss' s'). { intros [<- ?]. split_and!; try done; [by apply phrase_docs_same|]. intros ->. discriminate Hd'. }
  assert (Hnone : forall x, t <= x < t -> x ∉ phrase_docs slop (p :: ps)) by lia. cbn zeta in Hpost.
  assert (Hcase : is_done s \/ ~ is_done s) by (destruct s; cbn; tauto). destruct Hcase as [Hds|Hds].
  - destruct s; try done. cbn in s', Hs. subst s'. specialize (Hdone Hs). subst d. rewrite decide_True in Hpost by done. by destruct Hpost as [? _].
  - unfold s'. rewrite advance_moves by done. pose proof (and_lag ss s t Hs Hds Hm) as Hl. case_decide.
    + subst d. destruct Hpost as [H1 H2]. rewrite at_or_Done; [done|]. intros x Hx Hle. by apply (H2 Hl Hnone x).
    + destruct Hpost as (H1 & H2 & H3 & H4). destruct (H4 Hl Hnone) as (H5 & H6 & H7). rewrite (at_or_At _ _ d) by auto.
      split; [done|]. cbn. rewrite Forall_forall in H3, H5 |- *. intros s1 Hs1. destruct (H3 s1 Hs1) as [q ->]. specialize (H5 _ Hs1). cbn in H5. eauto.
Qed.

(** ** Trees *)
Fixpoint docs it : gset Z :=
  match it with
  | TermDocIterator _ p => posting_docs p
  | PhraseDocIterator _ ps slop => phrase_docs slop ps
  | AndIterator _ cs => and_docs (map docs cs)
  | AndNotIterator _ cs => and_not_docs (map docs cs)
  | OrIterator _ _ cs | KeywordIterator _ _ cs => or_docs (map docs cs)
  | MustFirstIterator _ cs => default ∅ (head (map docs cs))
  | _ => ∅
  end.

(** The trees of up to a depth. *)
Fixpoint ok (n : nat) it : Prop :=
  match n with
  | O => False
  | S n =>
      match it with
      | TermDocIterator _ p => posting_ok p
      | PhraseDocIterator _ ps _ => ps <> [] /\ Forall posting_ok ps
      | AndIterator _ cs | AndNotIterator _ cs | OrIterator _ _ cs | KeywordIterator _ _ cs | MustFirstIterator _ cs =>
          cs <> [] /\ Forall (ok n) cs
      | _ => False
      end
  end.

(** The state of an iterator, from the states of its children. *)
Inductive good : DocIterator -> state -> Prop :=
| good_term p s : posting_good p s -> good (TermDocIterator (doc s) p) s
| good_phrase ps slop ss s : Forall2 posting_good ps ss -> and_state ss s -> valid_state (phrase_docs slop ps) s ->
    good (PhraseDocIterator (doc s) ps slop) s
| good_and cs ss s : Forall2 good cs ss -> and_state ss s -> valid_state (and_docs (map docs cs)) s -> good (AndIterator (doc s) cs) s
| good_and_not cs ss s : Forall2 good cs ss -> and_not_state ss s -> valid_state (and_not_docs (map docs cs)) s ->
    good (AndNotIterator (doc s) cs) s
| good_or h cs ss s : Forall2 good cs ss -> or_state h ss s -> valid_state (or_docs (map docs cs)) s -> good (OrIterator (doc s) h cs) s
| good_keyword h cs ss s : Forall2 good cs ss -> or_state h ss s -> valid_state (or_docs (map docs cs)) s ->
    good (KeywordIterator (doc s) h cs) s
| good_must_first c cs ss s : good c s -> Forall2 good cs ss -> good (MustFirstIterator (doc s) (c :: cs)) s.

#[export] Instance tree_cursor : CursorOf DocIterator := {| c_doc := DocID; c_next := Next; c_docs := docs; c_good := good |}.

(** *** Documents are in range *)
Lemma and_docs_range l : Forall in_range l -> in_range (and_docs l).
Proof. intros Hl x [Hne Hx]%elem_of_and_docs. destruct l as [|X l]; [done|]. apply Forall_cons in Hl as [Hl _]. apply Forall_cons in Hx as [Hx _]. by apply Hl. Qed.
Lemma and_not_docs_range l : Forall in_range l -> in_range (and_not_docs l).
Proof. intros Hl x Hx. destruct l as [|X l]; [set_solver|]. apply elem_of_and_not_docs in Hx as [Hx _]. apply Forall_cons in Hl as [Hl _]. by apply Hl. Qed.
Lemma or_docs_range l : Forall in_range l -> in_range (or_docs l).
Proof. intros Hl x (X & HX & Hx)%elem_of_union_list. rewrite Forall_forall in Hl. by eapply Hl. Qed.
Lemma phrase_docs_range slop ps : Forall posting_ok ps -> in_range (phrase_docs slop ps).
Proof.
  intros Hok x [_ Hx]%elem_of_filter. revert x Hx. apply and_docs_range. apply Forall_fmap. eapply Forall_impl; [exact Hok|]. apply posting_range.
Qed.
Lemma docs_range n it : ok n it -> in_range (docs it).
Proof.
  revert it. induction n as [|n IH]; intros it H; [done|].
  assert (Hcs : forall cs, Forall (ok n) cs -> Forall in_range (map docs cs)) by (intros cs Hcs; apply Forall_fmap; by eapply Forall_impl).
  destruct it as [d p|d ps slop|d cs|d cs|d h cs|d h cs|d cs| | |]; cbn in H |- *; try done.
  - by apply posting_range.
  - by apply phrase_docs_range, H.
  - apply and_docs_range, Hcs, H.
  - apply and_not_docs_range, Hcs, H.
  - apply or_docs_range, Hcs, H.
  - apply or_docs_range, Hcs, H.
  - destruct H as [Hne H]. destruct cs as [|c cs]; [done|]. cbn. apply Forall_cons in H as [H _]. by apply IH.
Qed.
Lemma good_state n it s : ok n it -> good it s -> DocID it = doc s /\ valid_state (docs it) s.
Proof.
  revert it s. induction n as [|n IH]; intros it s Hok Hg; [done|]. destruct Hg; cbn in *; try done.
  - by destruct (posting_state _ _ Hok H).
  - split; [done|]. destruct Hok as [_ [Hok _]%Forall_cons]. by apply IH.
Qed.

(** *** Calls *)
Lemma next_all_spec (B : Type) (CO : CursorOf B) (sub : B -> Prop) (CL : CursorLaws B sub) cs ss t : children sub cs ss -> target t -> exists N cs' ss',
  (forall F, (N <= F)%nat -> next_all (c_next F) t cs = Some cs') /\ children sub cs' ss' /\ map c_docs cs' = map c_docs cs.
Proof.
  intros Hc Ht. revert ss Hc. induction cs as [|c cs IH]; intros ss Hc.
  { destruct Hc as (_ & ->%Forall2_nil_inv_l). by exists 0%nat, [], []. }
  apply children_cons in Hc as (s & ss' & -> & Hsub & Hg & Hcs).
  destruct (child_call c s t Hsub Hg Ht) as (N & c1 & HN & Hsub1 & Hg1 & Hd1 & _). destruct (IH ss' Hcs) as (N2 & cs' & ss2 & HN2 & Hcs2 & Hd2).
  exists (N `max` N2)%nat, (c1 :: cs'), (advance (c_docs c) s t :: ss2). split_and!; [|by apply children_cons_2|by cbn; rewrite Hd1, Hd2].
  intros F HF. cbn. by rewrite HN, HN2 by lia.
Qed.
Lemma found_doc s : found (doc s) = bool_decide (doc s <> INVALID_ROWID).
Proof. unfold found. destruct (Z.eqb_spec (doc s) INVALID_ROWID); [rewrite bool_decide_false|rewrite bool_decide_true]; by try tauto. Qed.
(** The answer from the current document, in the iterators that look at it first. *)
Lemma stay_or_move s (X : gset Z) t : in_range X -> valid_state X s ->
  (found (doc s) && (t <=? doc s) = true /\ advance X s t = s /\ doc s <> INVALID_ROWID) \/ (found (doc s) && (t <=? doc s) = false /\ moves s t).
Proof.
  intros Hr Hv. rewrite found_doc. destruct s as [|p d|p]; cbn; [by right| |by right].
  assert (d <> INVALID_ROWID) by (destruct Hv as (_ & Hv & _); specialize (Hr _ Hv); lia). rewrite bool_decide_true by done. cbn. destruct (Z.leb_spec t d); [left|right]; done.
Qed.

(** A call does what the cursor does. *)
Definition steps (n : nat) it s (t : Z) : Prop := exists N it',
  (forall F, (N <= F)%nat -> Next F t it = Some (bool_decide (doc (advance (docs it) s t) <> INVALID_ROWID), it')) /\
  ok n it' /\ good it' (advance (docs it) s t) /\ docs it' = docs it.

Lemma steps_stay n it s t : ok n it -> good it s -> advance (docs it) s t = s -> doc s <> INVALID_ROWID ->
  (forall F, Next (S F) t it = Some (true, it)) -> steps n it s t.
Proof.
  intros Hok Hg Ha Hd HN. exists 1%nat, it. rewrite Ha. split_and!; try done. intros [|F] HF; [lia|]. rewrite HN. by rewrite bool_decide_true.
Qed.
(** A call that ends with the documents of its children. *)
Lemma steps_move n it s t it' N : ok n it' -> docs it' = docs it -> good it' (advance (docs it) s t) ->
  (forall F, (N <= F)%nat -> Next (S F) t it = Some (found (doc (advance (docs it) s t)), it')) -> steps n it s t.
Proof.
  intros Hok Hd Hg HN. exists (S N), it'. split_and!; try done. intros [|F] HF; [lia|]. rewrite HN by lia. by rewrite found_doc.
Qed.

Section step.
Context (n : nat) `{CL : !CursorLaws DocIterator (ok n)}.

Lemma term_steps d p s t : ok (S n) (TermDocIterator d p) -> good (TermDocIterator d p) s -> target t -> steps (S n) (TermDocIterator d p) s t.
Proof.
  intros Hok Hg Ht. pose proof (docs_range _ _ Hok) as Hr. destruct (good_state _ _ _ Hok Hg) as [_ Hv]. inversion Hg; subst.
  destruct (stay_or_move s _ t Hr Hv) as [(E & Ha & Hd)|[E Hm]].
  - apply steps_stay; try done. intros F. cbn. unfold term_next. unfold found in E. by rewrite E.
  - destruct (posting_seek p s t Hok ltac:(done) Ht) as [K1 K2]. destruct (posting_state _ _ K1 K2) as [Hd _].
    apply (steps_move _ _ _ _ (TermDocIterator (posting_doc (SeekDoc t p)) (SeekDoc t p)) 0); cbn; [done|apply posting_seek_docs| |].
    + rewrite Hd. by constructor.
    + intros F _. unfold term_next. unfold found in E. rewrite E. unfold found. by rewrite Hd.
Qed.
Lemma phrase_steps d ps slop s t : ok (S n) (PhraseDocIterator d ps slop) -> good (PhraseDocIterator d ps slop) s -> target t ->
  steps (S n) (PhraseDocIterator d ps slop) s t.
Proof.
  intros Hok Hg Ht. pose proof (docs_range _ _ Hok) as Hr. destruct (good_state _ _ _ Hok Hg) as [_ Hv]. pose proof (advance_valid _ _ t Hv) as Hv'.
  inversion Hg; subst. destruct (stay_or_move s _ t Hr Hv) as [(E & Ha & Hd)|[E Hm]].
  - apply steps_stay; try done. intros F. cbn. by rewrite E.
  - destruct Hok as [Hne Hok]. destruct (phrase_next_spec slop ps ss s t) as (N & ps' & ss' & HN & [Hok' Hg'] & Hd' & Hs' & Hne'); try done.
    eapply (steps_move _ _ _ _ (PhraseDocIterator _ ps' slop) N); [done|done| |intros F HF; cbn; rewrite E, HN by done; done].
    cbn [docs] in *. econstructor; [done|done|by rewrite Hd'].
Qed.
Lemma and_steps d cs s t : ok (S n) (AndIterator d cs) -> good (AndIterator d cs) s -> target t -> steps (S n) (AndIterator d cs) s t.
Proof.
  intros Hok Hg Ht. pose proof (docs_range _ _ Hok) as Hr. destruct (good_state _ _ _ Hok Hg) as [_ Hv]. pose proof (advance_valid _ _ t Hv) as Hv'.
  inversion Hg; subst. destruct (stay_or_move s _ t Hr Hv) as [(E & Ha & Hd)|[E Hm]].
  - apply steps_stay; try done. intros F. cbn. by rewrite E.
  - destruct Hok as [Hne Hok]. destruct (and_next_spec cs ss s t) as (N & cs' & ss' & HN & [Hok' Hg'] & Hd' & Hs'); try done.
    cbn [c_docs tree_cursor] in Hd', HN, Hs'. cbn [docs] in *.
    eapply (steps_move _ _ _ _ (AndIterator _ cs') N); cbn [docs ok Next]; [|by rewrite Hd'|econstructor; [done|done|by rewrite Hd']|].
    + split; [|done]. intros ->. by destruct cs.
    + intros F HF. rewrite E. by setoid_rewrite HN.
Qed.
Lemma and_not_steps d cs s t : ok (S n) (AndNotIterator d cs) -> good (AndNotIterator d cs) s -> target t -> steps (S n) (AndNotIterator d cs) s t.
Proof.
  intros Hok Hg Ht. destruct (good_state _ _ _ Hok Hg) as [_ Hv]. pose proof (advance_valid _ _ t Hv) as Hv'.
  inversion Hg; subst. destruct Hok as [Hne Hok]. destruct cs as [|c cs]; [done|].
  destruct (and_not_next_spec c cs ss s t) as (N & c' & cs' & ss' & HN & [Hok' Hg'] & Hd' & Hs'); try done.
  cbn [c_docs tree_cursor] in Hd', HN, Hs'. cbn [docs] in *.
  eapply (steps_move _ _ _ _ (AndNotIterator _ (c' :: cs')) N); cbn [docs ok Next]; [done|by rewrite Hd'|econstructor; [done|done|by rewrite Hd']|].
  intros F HF. by setoid_rewrite HN.
Qed.
(** OR and keywords have the same heap. *)
Lemma heap_steps h cs ss s t : cs <> [] -> Forall (ok n) cs -> Forall2 good cs ss -> or_state h ss s -> valid_state (or_docs (map docs cs)) s -> target t ->
  let s' := advance (or_docs (map docs cs)) s t in exists N h' cs' ss',
  (forall F, (N <= F)%nat -> or_next DocID (Next F) F t (doc s) h cs = Some (doc s', h', cs')) /\ cs' <> [] /\ Forall (ok n) cs' /\
  Forall2 good cs' ss' /\ map docs cs' = map docs cs /\ or_state h' ss' s'.
Proof.
  intros Hne Hok Hg Hs Hv Ht s'. destruct (or_next_spec h cs ss s t) as (N & h' & cs' & ss' & HN & [Hok' Hg'] & Hd' & Hs' & Hne'); try done.
  { intros ->. by apply Forall2_nil_inv_r in Hg as ->. }
  exists N, h', cs', ss'. split_and!; try done. intros ->. by destruct cs.
Qed.
Lemma or_steps d h cs s t : ok (S n) (OrIterator d h cs) -> good (OrIterator d h cs) s -> target t -> steps (S n) (OrIterator d h cs) s t.
Proof.
  intros Hok Hg Ht. destruct (good_state _ _ _ Hok Hg) as [_ Hv]. pose proof (advance_valid _ _ t Hv) as Hv'. inversion Hg; subst. destruct Hok as [Hne Hok].
  destruct (heap_steps h cs ss s t) as (N & h' & cs' & ss' & HN & Hne' & Hok' & Hg' & Hd' & Hs'); try done. cbn [docs] in *.
  eapply (steps_move _ _ _ _ (OrIterator _ h' cs') N); cbn [docs ok Next]; [done|by rewrite Hd'|econstructor; [done|done|by rewrite Hd']|].
  intros F HF. by rewrite HN.
Qed.
Lemma keyword_steps d h cs s t : ok (S n) (KeywordIterator d h cs) -> good (KeywordIterator d h cs) s -> target t -> steps (S n) (KeywordIterator d h cs) s t.
Proof.
  intros Hok Hg Ht. destruct (good_state _ _ _ Hok Hg) as [_ Hv]. pose proof (advance_valid _ _ t Hv) as Hv'. inversion Hg; subst. destruct Hok as [Hne Hok].
  destruct (heap_steps h cs ss s t) as (N & h' & cs' & ss' & HN & Hne' & Hok' & Hg' & Hd' & Hs'); try done. cbn [docs] in *.
  eapply (steps_move _ _ _ _ (KeywordIterator _ h' cs') N); cbn [docs ok Next]; [done|by rewrite Hd'|econstructor; [done|done|by rewrite Hd']|].
  intros F HF. by rewrite HN.
Qed.
Lemma must_first_steps d cs s t : ok (S n) (MustFirstIterator d cs) -> good (MustFirstIterator d cs) s -> target t -> steps (S n) (MustFirstIterator d cs) s t.
Proof.
  intros Hok Hg Ht. inversion Hg as [| | | | | |c cs0 ss s0 Hgc Hgcs]; subst. destruct Hok as [Hne [Hokc Hok]%Forall_cons].
  destruct (child_call (CO := tree_cursor) (sub := ok n) c s t Hokc Hgc Ht) as (N & c1 & HN & Hsub1 & Hg1 & Hd1 & Hdoc & Hv1 & Hge & Hcase). cbn [c_docs c_doc c_good c_next tree_cursor] in *.
  destruct Hcase as [[Hi Hdn]|[Ht1 [p Hs1]]].
  - apply (steps_move _ _ _ _ (MustFirstIterator (doc (advance (docs c) s t)) (c1 :: cs0)) N); cbn [docs ok Next map head default]; [by split; [|constructor]|done|by econstructor|].
    intros F HF. rewrite HN by done. unfold found. cbn [from_option id]. by rewrite Hdoc, Hi.
  - destruct (next_all_spec _ _ (ok n) CL cs0 ss (doc (advance (docs c) s t))) as (N2 & cs' & ss' & HN2 & [Hok' Hg'] & Hd'); [done|done|].
    apply (steps_move _ _ _ _ (MustFirstIterator (doc (advance (docs c) s t)) (c1 :: cs')) (N `max` N2)); cbn [docs ok Next map head default]; [by split; [|constructor]|done|by econstructor|].
    intros F HF. rewrite HN by lia. rewrite Hdoc. cbn [from_option id]. assert (Hf : found (doc (advance (docs c) s t)) = true).
    { unfold found. rewrite (proj2 (Z.eqb_neq _ _)); [done|]. unfold target in Ht1. lia. }
    rewrite Hf. by setoid_rewrite HN2; [|lia].
Qed.
End step.

#[export] Instance tree_cursor_laws n : CursorLaws DocIterator (ok n).
Proof.
  induction n as [|n IH]; split; try done.
  - intros it s. apply good_state.
  - intros it. apply docs_range.
  - intros it Hok s t Hg Ht. fold (steps (S n) it s t). destruct it; try done.
    + by apply term_steps.
    + by apply phrase_steps.
    + by apply and_steps.
    + by apply and_not_steps.
    + by apply or_steps.
    + by apply keyword_steps.
    + by apply must_first_steps.
Qed.
End tree.
