(* ===== verification/PostingIterator.v ===== *)
(** * Postings on disk: [posting_iterator.cpp], [multi_posting_decoder.cpp], [skiplist_reader.cpp]

    The posting of a term is a list of segment postings, one per index file, each with a first row. The
    documents of a segment are in blocks of up to 128 differences; a skip list has one item per block
    with the last document and the length. [SeekDoc] skips to the block that may hold the target and
    goes on in it. The items and blocks are those that the integer decoders give; postings that are
    still in memory, term frequencies and positions are not part of this file. *)
From S2P Require Import Prelude DocIterator.

Definition MAX_DOC_PER_RECORD : nat := 128.

(** ** Segment postings *)
Record SegmentPosting := mkSegment {
  base_row_id_ : Z;
  (** Differences of last documents and of offsets, for each block. *)
  skip_list : list (Z * Z);
  (** The block at an offset of the document list. *)
  doc_list : Z -> list Z;
}.

(** ** [SkipListReader]: the items that were not read yet, and the sums of the others *)
Record SkipListReader := mkReader { current_doc_id_ : Z; current_offset_ : Z; skipped_item_count_ : Z; items_ : list (Z * Z) }.
Definition reader_start (seg : SegmentPosting) : SkipListReader := mkReader 0 0 0 (skip_list seg).

(** With a block whose last document is not before the query: the last document of the block before it, and the offset. *)
Fixpoint skip_loop (query_doc_id current_doc_id current_offset skipped : Z) (items : list (Z * Z)) : option (Z * Z) * SkipListReader :=
  match items with
  | [] => (None, mkReader current_doc_id current_offset (skipped + 1) [])
  | (d, o) :: items =>
      let doc_id := u32 (current_doc_id + d) in
      let offset := u32 (current_offset + o) in
      if query_doc_id <=? doc_id then (Some (current_doc_id, current_offset), mkReader doc_id offset (skipped + 1) items)
      else skip_loop query_doc_id doc_id offset (skipped + 1) items
  end.
Definition SkipListReader_SkipTo (query_doc_id : Z) (r : SkipListReader) : option (Z * Z) * SkipListReader :=
  skip_loop query_doc_id (current_doc_id_ r) (current_offset_ r) (skipped_item_count_ r) (items_ r).
Definition GetSkippedItemCount (r : SkipListReader) : Z := Z.max (skipped_item_count_ r - 1) 0.

(** ** [SkipIndexDecoder] *)
Record IndexDecoder := mkIndexDecoder {
  last_doc_id_ : Z; last_doc_id_in_prev_record_ : Z; offset_ : Z; skiped_item_count_ : Z; skiplist_reader_ : SkipListReader }.
Definition CreateIndexDecoder (seg : SegmentPosting) : IndexDecoder := mkIndexDecoder 0 0 0 0 (reader_start seg).
Definition DecodeSkipList (start_doc_id : Z) (d : IndexDecoder) : bool * IndexDecoder :=
  match SkipListReader_SkipTo start_doc_id (skiplist_reader_ d) with
  | (None, r) => (false, mkIndexDecoder (last_doc_id_ d) (last_doc_id_in_prev_record_ d) (offset_ d) (skiped_item_count_ d) r)
  | (Some (prev, offset), r) => (true, mkIndexDecoder (current_doc_id_ r) prev offset (GetSkippedItemCount r) r)
  end.
Definition InnerGetSeekedDocCount (d : IndexDecoder) : Z := u32 (Z.shiftl (skiped_item_count_ d) 7).

(** ** [MultiPostingDecoder]

    [index_decoder_] reads the segment before [segment_cursor_]. *)
Record MultiPostingDecoder := mkDecoder {
  seg_postings_ : list SegmentPosting; segment_cursor_ : nat; decoder_base_ : Z; index_decoder_ : IndexDecoder; need_decode_doc_id_ : bool }.

Definition GetSegmentBaseRowId (seg_cursor : nat) (segs : list SegmentPosting) : Z :=
  match segs !! seg_cursor with None => INVALID_ROWID | Some seg => base_row_id_ seg end.
Fixpoint locate (fuel cur : nat) (start_row_id : Z) (segs : list SegmentPosting) : nat :=
  match fuel with
  | O => cur
  | S fuel =>
      let next := GetSegmentBaseRowId (S cur) segs in
      if negb (next =? INVALID_ROWID) && (next <=? start_row_id) then locate fuel (S cur) start_row_id segs else cur
  end.
Definition LocateSegment (start_seg_cursor : nat) (start_row_id : Z) (segs : list SegmentPosting) : nat :=
  if GetSegmentBaseRowId start_seg_cursor segs =? INVALID_ROWID then start_seg_cursor
  else locate (length segs) start_seg_cursor start_row_id segs.

Definition MoveToSegment (start_row_id : Z) (m : MultiPostingDecoder) : bool * MultiPostingDecoder :=
  let cursor := LocateSegment (segment_cursor_ m) start_row_id (seg_postings_ m) in
  match seg_postings_ m !! cursor with
  | None => (false, m)
  | Some seg => (true, mkDecoder (seg_postings_ m) (S cursor) (base_row_id_ seg) (CreateIndexDecoder seg) (need_decode_doc_id_ m))
  end.
Definition decoder_init (segs : list SegmentPosting) : MultiPostingDecoder :=
  (MoveToSegment 0 (mkDecoder segs 0 0 (mkIndexDecoder 0 0 0 0 (mkReader 0 0 0 [])) false)).2.

(** The last rows of the block and of the one before it. *)
Definition SkipInOneSegment (start_row_id : Z) (m : MultiPostingDecoder) : option (Z * Z) * MultiPostingDecoder :=
  let next := GetSegmentBaseRowId (segment_cursor_ m) (seg_postings_ m) in
  if negb (next =? INVALID_ROWID) && (next <=? start_row_id) then (None, m)
  else
    let base := decoder_base_ m in
    let cur_seg_doc_id := if base <=? start_row_id then u32 (start_row_id - base) else 0 in
    match DecodeSkipList cur_seg_doc_id (index_decoder_ m) with
    | (false, d) => (None, mkDecoder (seg_postings_ m) (segment_cursor_ m) base d (need_decode_doc_id_ m))
    | (true, d) => (Some (u64 (base + last_doc_id_in_prev_record_ d), u64 (base + last_doc_id_ d)),
                    mkDecoder (seg_postings_ m) (segment_cursor_ m) base d true)
    end.
Fixpoint decoder_skip (fuel : nat) (start_row_id : Z) (m : MultiPostingDecoder) : option (Z * Z) * MultiPostingDecoder :=
  match SkipInOneSegment start_row_id m with
  | (Some b, m) => (Some b, m)
  | (None, m) =>
      match MoveToSegment start_row_id m, fuel with
      | (false, m), _ | (_, m), O => (None, m)
      | (true, m), S fuel => decoder_skip fuel start_row_id m
      end
  end.
(** Every turn of the loop moves to a later segment. *)
Definition MultiPostingDecoder_SkipTo (start_row_id : Z) (m : MultiPostingDecoder) : option (Z * Z) * MultiPostingDecoder :=
  decoder_skip (length (seg_postings_ m)) start_row_id m.

(** Decoding writes the block to the start of the buffer. *)
Definition current_block (m : MultiPostingDecoder) : list Z :=
  match seg_postings_ m !! pred (segment_cursor_ m) with None => [] | Some seg => doc_list seg (offset_ (index_decoder_ m)) end.
Definition DecodeCurrentDocIDBuffer (m : MultiPostingDecoder) (doc_buffer : list Z) : list Z * MultiPostingDecoder :=
  if need_decode_doc_id_ m
  then (current_block m ++ drop (length (current_block m)) doc_buffer,
        mkDecoder (seg_postings_ m) (segment_cursor_ m) (decoder_base_ m) (index_decoder_ m) false)
  else (doc_buffer, m).

(** ** [PostingIterator] *)
Record PostingIterator := mkPosting {
  segment_postings_ : list SegmentPosting;
  doc_freq_ : Z;
  last_doc_id_in_prev_block_ : Z;
  lowest_possible_doc_id_in_current_block_ : Z;
  last_doc_id_in_current_block_ : Z;
  current_row_id_ : Z;
  doc_buffer_cursor_ : nat;
  doc_buffer_ : list Z;
  finish_decode_docid_ : bool;
  posting_decoder_ : MultiPostingDecoder;
}.
Module PostingIterator.
Implicit Types p : PostingIterator.

Definition Init (segs : list SegmentPosting) (doc_freq : Z) : PostingIterator :=
  mkPosting segs doc_freq INVALID_ROWID INVALID_ROWID INVALID_ROWID INVALID_ROWID 0 (replicate MAX_DOC_PER_RECORD 0) false (decoder_init segs).

Definition SkipTo (doc_id : Z) p : bool * PostingIterator :=
  let last := last_doc_id_in_current_block_ p in
  if (last <? doc_id) || (last =? INVALID_ROWID) then
    let '(r, m) := MultiPostingDecoder_SkipTo doc_id (posting_decoder_ p) in
    match r with
    | Some (prev_last, last) =>
        let lowest := if last_doc_id_in_prev_record_ (index_decoder_ m) =? 0 then prev_last else u64 (prev_last + 1) in
        (true, mkPosting (segment_postings_ p) (doc_freq_ p) prev_last lowest last (current_row_id_ p) (doc_buffer_cursor_ p) (doc_buffer_ p) false m)
    | None =>
        (false, mkPosting (segment_postings_ p) (doc_freq_ p) INVALID_ROWID INVALID_ROWID INVALID_ROWID (current_row_id_ p) (doc_buffer_cursor_ p) (doc_buffer_ p) false m)
    end
  else (true, p).

(** [while (current_row_id < row_id)]; beyond the buffer nothing is defined. *)
Fixpoint advance_in_block (fuel : nat) (row_id current_row_id : Z) (cursor : nat) (buffer : list Z) : res (Z * nat) :=
  if current_row_id <? row_id then
    match buffer !! cursor, fuel with
    | Some d, S fuel => advance_in_block fuel row_id (u64 (current_row_id + d)) (S cursor) buffer
    | _, _ => Err Undefined
    end
  else Ok (current_row_id, cursor).

(** The first document of a block that was not decoded yet. *)
Definition open_block p : PostingIterator :=
  if finish_decode_docid_ p then p
  else
    let '(buffer, m) := DecodeCurrentDocIDBuffer (posting_decoder_ p) (doc_buffer_ p) in
    mkPosting (segment_postings_ p) (doc_freq_ p) (last_doc_id_in_prev_block_ p) (lowest_possible_doc_id_in_current_block_ p) (last_doc_id_in_current_block_ p)
      (u64 (last_doc_id_in_prev_block_ p + default 0 (buffer !! 0%nat))) 1 buffer true m.
Definition set_current (row_id : Z) p : PostingIterator :=
  mkPosting (segment_postings_ p) (doc_freq_ p) (last_doc_id_in_prev_block_ p) (lowest_possible_doc_id_in_current_block_ p) (last_doc_id_in_current_block_ p)
    row_id (doc_buffer_cursor_ p) (doc_buffer_ p) (finish_decode_docid_ p) (posting_decoder_ p).
Definition set_cursor (row_id : Z) (cursor : nat) p : PostingIterator :=
  mkPosting (segment_postings_ p) (doc_freq_ p) (last_doc_id_in_prev_block_ p) (lowest_possible_doc_id_in_current_block_ p) (last_doc_id_in_current_block_ p)
    row_id cursor (doc_buffer_ p) (finish_decode_docid_ p) (posting_decoder_ p).

Definition SeekDoc (row_id : Z) p : res PostingIterator :=
  match segment_postings_ p with
  | [] => Ok (set_current INVALID_ROWID p)
  | _ =>
      let current := if finish_decode_docid_ p then current_row_id_ p else INVALID_ROWID in
      if negb (current =? INVALID_ROWID) && (row_id <=? current) then Ok p
      else match SkipTo row_id p with
           | (false, p) => Ok (set_current INVALID_ROWID p)
           | (true, p) =>
               let p := open_block p in
               let? (current, cursor) := advance_in_block MAX_DOC_PER_RECORD row_id (current_row_id_ p) (doc_buffer_cursor_ p) (doc_buffer_ p) in
               Ok (set_cursor current cursor p)
           end
  end.
End PostingIterator.
