(* ===== verification/PostingCursor.v ===== *)
(** * Postings on disk are cursors

    The rows that the blocks of a posting hold, what the writer of the index guarantees of them
    ([posting_wf]), and that [SeekDoc] goes to the first row from a target on. The number of a document
    in a segment is [u32] of the difference between the target and the first row of the segment:
    the result needs all targets within [2 ^ 32] rows of the first row of every segment posting, that
    is, a table with one segment ([limit]). *)
From stdpp Require Import sorting.
From S2P Require Import Prelude DocIterator DocCursor DocTree PostingIterator.

(** ** The rows of a posting *)
Fixpoint sums (prev : Z) (deltas : list Z) : list Z :=
  match deltas with [] => [] | d :: deltas => (prev + d) :: sums (prev + d) deltas end.
(** The documents of the blocks that the items stand for. *)
Fixpoint blocks_from (dl : Z -> list Z) (prev off : Z) (items : list (Z * Z)) : list (list Z) :=
  match items with [] => [] | (d, o) :: items => sums prev (dl off) :: blocks_from dl (prev + d) (off + o) items end.
Definition abs_blocks (base : Z) (blocks : list (list Z)) : list (list Z) := map (map (Z.add base)) blocks.
Definition seg_blocks (seg : SegmentPosting) : list (list Z) := abs_blocks (base_row_id_ seg) (blocks_from (doc_list seg) 0 0 (skip_list seg)).
Definition all_blocks (segs : list SegmentPosting) : list (list Z) := concat (map seg_blocks segs).

(** What holds of the items: a block is not empty, fits the buffer and ends with the document of its item. *)
Fixpoint wf_items (dl : Z -> list Z) (prev off : Z) (items : list (Z * Z)) : Prop :=
  match items with
  | [] => True
  | (d, o) :: items =>
      last (sums prev (dl off)) = Some (prev + d) /\ (length (dl off) <= MAX_DOC_PER_RECORD)%nat /\ Forall (Z.le 0) (dl off) /\
      unsigned_range 32 (prev + d) /\ unsigned_range 32 (off + o) /\ wf_items dl (prev + d) (off + o) items
  end.

Section posting.
Context {DL : DocLimit}.
Implicit Types (seg : SegmentPosting) (segs : list SegmentPosting) (m : MultiPostingDecoder) (p : PostingIterator) (t : Z).

Definition seg_wf seg : Prop :=
  wf_items (doc_list seg) 0 0 (skip_list seg) /\ 0 <= base_row_id_ seg < INVALID_ROWID /\ limit <= base_row_id_ seg + 2 ^ 32.
(** Segments follow each other. *)
Fixpoint segs_wf segs : Prop :=
  match segs with
  | [] => True
  | seg :: segs =>
      seg_wf seg /\ Forall (fun seg' => base_row_id_ seg < base_row_id_ seg' /\ Forall (Forall (fun x => x < base_row_id_ seg')) (seg_blocks seg)) segs /\ segs_wf segs
  end.
Definition rows_wf (blocks : list (list Z)) : Prop := StronglySorted Z.lt (concat blocks) /\ Forall (fun x => 0 <= x < limit `min` INVALID_ROWID - 1) (concat blocks).
Definition posting_wf segs : Prop := segs <> [] /\ segs_wf segs /\ rows_wf (all_blocks segs).

(** ** Blocks *)
Definition block_last (b : list Z) : Z := default 0 (last b).
(** The blocks from the first one that reaches the target. *)
Fixpoint skip_blocks t (blocks : list (list Z)) : list (list Z) :=
  match blocks with [] => [] | b :: bs => if t <=? block_last b then blocks else skip_blocks t bs end.

Lemma skip_blocks_app t bs bs' : Forall (fun b => block_last b < t) bs -> skip_blocks t (bs ++ bs') = skip_blocks t bs'.
Proof. induction 1 as [|b bs H _ IH]; cbn; [done|]. by rewrite (proj2 (Z.leb_gt _ _)). Qed.
Lemma last_map_add base (l : list Z) : last (map (Z.add base) l) = Z.add base <$> last l.
Proof. apply fmap_last. Qed.
Lemma sums_last_nonempty prev l x : last (sums prev l) = Some x -> l <> [].
Proof. by destruct l. Qed.

(** ** The skip list *)
Lemma skip_loop_spec dl q prev off n items base t : wf_items dl prev off items -> unsigned_range 32 prev -> unsigned_range 32 off ->
  (forall x, unsigned_range 32 x -> (q <= x <-> t <= base + x)) ->
  let '(r, r') := skip_loop q prev off n items in
  wf_items dl (current_doc_id_ r') (current_offset_ r') (items_ r') /\ unsigned_range 32 (current_doc_id_ r') /\ unsigned_range 32 (current_offset_ r') /\
  let rest := skip_blocks t (abs_blocks base (blocks_from dl prev off items)) in
  match r with
  | Some (prev', off') => rest = map (Z.add base) (sums prev' (dl off')) :: abs_blocks base (blocks_from dl (current_doc_id_ r') (current_offset_ r') (items_ r')) /\
      last (sums prev' (dl off')) = Some (current_doc_id_ r') /\ (length (dl off') <= MAX_DOC_PER_RECORD)%nat /\ Forall (Z.le 0) (dl off') /\ unsigned_range 32 prev'
  | None => rest = [] /\ items_ r' = []
  end.
Proof.
  revert prev off n. induction items as [|[d o] items IH]; intros prev off n Hwf Hp Ho Hq; [done|]; cbn -[wrap block_last sums]. destruct Hwf as (H1 & H2 & H2' & H3 & H4 & H5).
  rewrite !wrap_id by done. assert (Hb : block_last (map (Z.add base) (sums prev (dl off))) = base + (prev + d)).
  { unfold block_last. rewrite last_map_add, H1. done. }
  rewrite Hb. destruct (Z.leb_spec q (prev + d)) as [Hle|Hgt].
  - apply Hq in Hle; [|done]. rewrite (proj2 (Z.leb_le _ _)) by done. cbn. split_and!; done.
  - rewrite (proj2 (Z.leb_gt t _)); [by apply IH|]. apply Z.nle_gt. intros Hle. apply Hq in Hle; [lia|done].
Qed.

(** ** Segments *)
Record dec_ok m : Prop := {
  do_segs : segs_wf (seg_postings_ m);
  do_rows : rows_wf (all_blocks (seg_postings_ m));
  do_seg : exists seg, segment_cursor_ m <> 0%nat /\ seg_postings_ m !! pred (segment_cursor_ m) = Some seg /\ decoder_base_ m = base_row_id_ seg /\
    let r := skiplist_reader_ (index_decoder_ m) in
    wf_items (doc_list seg) (current_doc_id_ r) (current_offset_ r) (items_ r) /\ unsigned_range 32 (current_doc_id_ r) /\ unsigned_range 32 (current_offset_ r) /\
    (exists passed, seg_blocks seg = passed ++ abs_blocks (base_row_id_ seg) (blocks_from (doc_list seg) (current_doc_id_ r) (current_offset_ r) (items_ r)));
}.
(** The blocks to come: of the current segment, and of the later ones. *)
Definition cur_rest m : list (list Z) :=
  match seg_postings_ m !! pred (segment_cursor_ m) with
  | None => []
  | Some seg => let r := skiplist_reader_ (index_decoder_ m) in
                abs_blocks (base_row_id_ seg) (blocks_from (doc_list seg) (current_doc_id_ r) (current_offset_ r) (items_ r))
  end.
Definition later_rest m : list (list Z) := all_blocks (drop (segment_cursor_ m) (seg_postings_ m)).
Definition dec_rest m : list (list Z) := cur_rest m ++ later_rest m.

Lemma segs_wf_lookup segs i seg : segs_wf segs -> segs !! i = Some seg -> seg_wf seg.
Proof. revert i. induction segs as [|s segs IH]; intros [|i] Hw Hi; cbn in *; try done; [simplify_eq; apply Hw|]. by eapply IH; [apply Hw|]. Qed.
Lemma segs_wf_later segs i j seg seg' : segs_wf segs -> segs !! i = Some seg -> segs !! j = Some seg' -> (i < j)%nat ->
  base_row_id_ seg < base_row_id_ seg' /\ Forall (Forall (fun x => x < base_row_id_ seg')) (seg_blocks seg).
Proof.
  revert i j. induction segs as [|s segs IH]; intros [|i] [|j] Hw Hi Hj Hlt; cbn in *; try done; try lia.
  - simplify_eq. destruct Hw as (_ & Hf & _). by eapply (Forall_lookup_1 _ _ _ _ Hf).
  - eapply (IH i j); [apply Hw|done|done|lia].
Qed.

Lemma base_lookup i segs seg : segs_wf segs -> segs !! i = Some seg -> GetSegmentBaseRowId i segs = base_row_id_ seg /\ base_row_id_ seg <> INVALID_ROWID.
Proof. intros Hw Hi. unfold GetSegmentBaseRowId. rewrite Hi. destruct (segs_wf_lookup segs i seg Hw Hi) as (_ & ? & _). split; [done|lia]. Qed.
(** Whether a target is in a later segment. *)
Lemma beyond_spec i segs t : segs_wf segs ->
  (negb (GetSegmentBaseRowId i segs =? INVALID_ROWID) && (GetSegmentBaseRowId i segs <=? t) = true /\ exists seg, segs !! i = Some seg /\ base_row_id_ seg <= t) \/
  (negb (GetSegmentBaseRowId i segs =? INVALID_ROWID) && (GetSegmentBaseRowId i segs <=? t) = false /\ forall seg, segs !! i = Some seg -> t < base_row_id_ seg).
Proof.
  intros Hw. destruct (segs !! i) as [seg|] eqn:Hi.
  - destruct (base_lookup i segs seg Hw Hi) as [-> Hne]. rewrite (proj2 (Z.eqb_neq _ _)) by done. cbn.
    destruct (Z.leb_spec (base_row_id_ seg) t); [left; eauto|right]. split; [done|]. intros ? [= <-]. done.
  - right. unfold GetSegmentBaseRowId. rewrite Hi. done.
Qed.
Lemma locate_spec fuel cur t segs : segs_wf segs -> (cur < length segs)%nat -> (length segs <= fuel + cur)%nat ->
  let j := locate fuel cur t segs in (cur <= j < length segs)%nat /\
  (forall k seg, (cur < k <= j)%nat -> segs !! k = Some seg -> base_row_id_ seg <= t) /\ (forall seg, segs !! S j = Some seg -> t < base_row_id_ seg).
Proof.
  intros Hw. revert cur. induction fuel as [|fuel IH]; intros cur Hc Hf; [lia|]. cbn [locate].
  destruct (beyond_spec (S cur) segs t Hw) as [[-> (seg & Hi & Hle)]|[-> Hno]].
  - pose proof (lookup_lt_Some _ _ _ Hi) as Hl. destruct (IH (S cur) Hl ltac:(lia)) as (H1 & H2 & H3). split_and!; [lia|lia| |done].
    intros k seg' Hk Hs. destruct (decide (k = S cur)) as [->|]; [by simplify_eq|]. apply (H2 k); [lia|done].
  - split_and!; [lia|lia| |done]. intros k seg Hk. lia.
Qed.

Lemma all_blocks_app segs segs' : all_blocks (segs ++ segs') = all_blocks segs ++ all_blocks segs'.
Proof. unfold all_blocks. by rewrite map_app, concat_app. Qed.
(** A block below a bound ends below it. *)
Lemma block_below t b : b <> [] -> Forall (fun x => x < t) b -> block_last b < t.
Proof.
  intros Hne Hf. unfold block_last. destruct (last b) as [x|] eqn:E; [|by apply last_None in E]. cbn. rewrite Forall_forall in Hf. apply Hf. by apply last_Some_elem_of.
Qed.
Lemma wf_blocks_nonempty dl prev off items base : wf_items dl prev off items -> Forall (fun b => b <> []) (abs_blocks base (blocks_from dl prev off items)).
Proof.
  revert prev off. induction items as [|[d o] items IH]; intros prev off Hw; cbn -[sums]; [constructor|]. destruct Hw as (H1 & _ & _ & _ & _ & H5). constructor; [|by apply IH].
  by destruct (dl off).
Qed.
Lemma seg_blocks_nonempty seg : seg_wf seg -> Forall (fun b => b <> []) (seg_blocks seg).
Proof. intros [H _]. by apply wf_blocks_nonempty. Qed.
Lemma blocks_below t bs : Forall (fun b => b <> []) bs -> Forall (Forall (fun x => x < t)) bs -> Forall (fun b => block_last b < t) bs.
Proof. rewrite !Forall_forall. intros H1 H2 b Hb. by apply block_below; auto. Qed.
Lemma blocks_le t t' bs : Forall (Forall (fun x => x < t)) bs -> t <= t' -> Forall (Forall (fun x => x < t')) bs.
Proof. intros H Hle. eapply Forall_impl; [exact H|]. intros b Hb. eapply Forall_impl; [exact Hb|]. cbn. lia. Qed.

Definition move_ok t m m' : Prop := dec_ok m' /\ skip_blocks t (later_rest m) = skip_blocks t (dec_rest m') /\
  seg_postings_ m' = seg_postings_ m /\ (segment_cursor_ m < segment_cursor_ m' <= length (seg_postings_ m))%nat.
Lemma passed_segments segs i j t : segs_wf segs -> (i <= j)%nat -> (j < length segs)%nat ->
  (forall k seg, (i < k <= j)%nat -> segs !! k = Some seg -> base_row_id_ seg <= t) ->
  skip_blocks t (all_blocks (drop i segs)) = skip_blocks t (all_blocks (drop j segs)).
Proof.
  intros Hw Hij. remember (j - i)%nat as n eqn:En. revert i Hij En. induction n as [|n IH]; intros i Hij En Hj Hk.
  - by assert (i = j) as -> by lia.
  - destruct (lookup_lt_is_Some_2 segs i) as [seg Hseg]; [lia|]. rewrite (drop_S _ _ _ Hseg).
    destruct (lookup_lt_is_Some_2 segs (S i)) as [seg' Hseg']; [lia|]. destruct (segs_wf_later segs i (S i) seg seg' Hw Hseg Hseg' ltac:(lia)) as [_ Hlt].
    unfold all_blocks. cbn [map concat]. rewrite skip_blocks_app.
    + apply IH; [lia|lia|done|]. intros k s Hk2. apply Hk. lia.
    + apply blocks_below; [by apply seg_blocks_nonempty, (segs_wf_lookup segs i)|]. eapply blocks_le; [exact Hlt|]. apply (Hk (S i)); [lia|done].
Qed.
Lemma MoveToSegment_spec t m : dec_ok m -> match MoveToSegment t m with
  | (false, m') => m' = m /\ later_rest m = [] /\ (length (seg_postings_ m) <= segment_cursor_ m)%nat
  | (true, m') => move_ok t m m'
  end.
Proof.
  intros [Hw Hr Hs]. unfold MoveToSegment, LocateSegment. destruct (seg_postings_ m !! segment_cursor_ m) as [seg0|] eqn:E0.
  - destruct (base_lookup _ _ _ Hw E0) as [-> Hne]. rewrite (proj2 (Z.eqb_neq _ _)) by done. pose proof (lookup_lt_Some _ _ _ E0) as Hl0.
    destruct (locate_spec (length (seg_postings_ m)) (segment_cursor_ m) t (seg_postings_ m) Hw Hl0 ltac:(lia)) as (H1 & H2 & H3).
    set (j := locate _ _ _ _) in *. destruct (lookup_lt_is_Some_2 (seg_postings_ m) j) as [seg Hseg]; [lia|]. rewrite Hseg.
    pose proof (segs_wf_lookup _ _ _ Hw Hseg) as Hsw. split_and!; cbn; try lia; try done.
    + constructor; cbn; [done|done|]. exists seg. split_and!; try done; [apply Hsw|]. by exists [].
    + unfold later_rest, dec_rest, cur_rest, later_rest. cbn. rewrite Hseg. rewrite (passed_segments _ (segment_cursor_ m) j t) by (done || lia).
      rewrite (drop_S _ _ _ Hseg). done.
  - unfold GetSegmentBaseRowId. rewrite E0, Z.eqb_refl, E0. apply lookup_ge_None_1 in E0. split_and!; [done| |done]. unfold later_rest. by rewrite drop_ge.
Qed.

(** ** The block that a skip gives *)
Definition block_ok m (b : list Z) (prev last_row : Z) : Prop :=
  b = sums prev (current_block m) /\ last b = Some last_row /\ (length (current_block m) <= MAX_DOC_PER_RECORD)%nat /\ need_decode_doc_id_ m = true.
Definition skip_ok t (rest : list (list Z)) (r : option (Z * Z)) m' : Prop :=
  dec_ok m' /\
  match r with
  | Some (prev, last_row) => exists b, skip_blocks t rest = b :: dec_rest m' /\ block_ok m' b prev last_row
  | None => skip_blocks t rest = [] /\ dec_rest m' = []
  end.

Lemma sums_add base prev l : map (Z.add base) (sums prev l) = sums (base + prev) l.
Proof. revert prev. induction l as [|d l IH]; intros prev; cbn; [done|]. by rewrite IH, Z.add_assoc. Qed.
Lemma sums_ge prev l : Forall (Z.le 0) l -> Forall (Z.le prev) (sums prev l).
Proof.
  revert prev. induction l as [|d l IH]; intros prev Hl; cbn; constructor; apply Forall_cons in Hl as [Hd Hl]; [lia|].
  eapply Forall_impl; [by apply IH|]. cbn. lia.
Qed.
Lemma skip_blocks_suffix t bs : exists skipped, bs = skipped ++ skip_blocks t bs /\ Forall (fun b => block_last b < t) skipped.
Proof.
  induction bs as [|b bs (sk & IH & Hsk)]; cbn; [by exists []|]. destruct (Z.leb_spec t (block_last b)); [by exists []|]. exists (b :: sk). cbn. rewrite <- IH. split; [done|]. by constructor.
Qed.
Lemma skip_blocks_head t bs b bs' : skip_blocks t bs = b :: bs' -> t <= block_last b.
Proof. induction bs as [|c bs IH]; cbn; [done|]. destruct (Z.leb_spec t (block_last c)); [by intros [= -> _]|done]. Qed.
Lemma concat_elem (b : list Z) bs x : b ∈ bs -> x ∈ b -> x ∈ concat bs.
Proof. intros Hb Hx. apply list_elem_of_In, in_concat. exists b. by rewrite <- !list_elem_of_In. Qed.
Lemma seg_in_all segs i seg b : segs !! i = Some seg -> b ∈ seg_blocks seg -> b ∈ all_blocks segs.
Proof.
  intros Hi Hb. unfold all_blocks. apply list_elem_of_In, in_concat. exists (seg_blocks seg). split; [|by apply list_elem_of_In].
  apply in_map, list_elem_of_In. by eapply list_elem_of_lookup_2.
Qed.

Lemma SkipInOneSegment_spec t m : dec_ok m -> target t -> match SkipInOneSegment t m with
  | (Some r, m') => skip_ok t (dec_rest m) (Some r) m' /\ seg_postings_ m' = seg_postings_ m
  | (None, m') => dec_ok m' /\ skip_blocks t (dec_rest m) = skip_blocks t (later_rest m') /\ seg_postings_ m' = seg_postings_ m /\
                  segment_cursor_ m' = segment_cursor_ m /\ ((length (seg_postings_ m) <= segment_cursor_ m)%nat -> dec_rest m' = [])
  end.
Proof.
  intros Hok Ht. pose proof Hok as [Hw Hr (seg & Hc & Hseg & Hbase & Hit & Hd & Ho & passed & Hp)]. unfold SkipInOneSegment.
  pose proof (segs_wf_lookup _ _ _ Hw Hseg) as (_ & Hb & Hlim).
  assert (Hcur : cur_rest m = abs_blocks (base_row_id_ seg) (blocks_from (doc_list seg) (current_doc_id_ (skiplist_reader_ (index_decoder_ m)))
    (current_offset_ (skiplist_reader_ (index_decoder_ m))) (items_ (skiplist_reader_ (index_decoder_ m))))) by (unfold cur_rest; by rewrite Hseg).
  destruct (beyond_spec (segment_cursor_ m) (seg_postings_ m) t Hw) as [[-> (seg' & Hseg' & Hle)]|[-> Hno]].
  - split_and!; try done.
    + unfold dec_rest. apply skip_blocks_app, blocks_below; [rewrite Hcur; by apply wf_blocks_nonempty|].
      destruct (segs_wf_later _ (pred (segment_cursor_ m)) (segment_cursor_ m) seg seg' Hw Hseg Hseg' ltac:(lia)) as [_ Hlt].
      eapply blocks_le in Hlt; [|exact Hle]. rewrite Hp in Hlt. apply Forall_app in Hlt as [_ Hlt]. by rewrite Hcur.
    + intros Hl. apply lookup_lt_Some in Hseg'. lia.
  - rewrite Hbase. set (q := if base_row_id_ seg <=? t then u32 (t - base_row_id_ seg) else 0).
    assert (Hq : forall x, unsigned_range 32 x -> q <= x <-> t <= base_row_id_ seg + x).
    { intros x Hx. unfold q. destruct (Z.leb_spec (base_row_id_ seg) t); [|unfold unsigned_range in Hx; lia].
      rewrite wrap_id; [lia|]. unfold unsigned_range, target in *. lia. }
    unfold DecodeSkipList, SkipListReader_SkipTo.
    pose proof (skip_loop_spec (doc_list seg) q _ _ (skipped_item_count_ (skiplist_reader_ (index_decoder_ m))) _ (base_row_id_ seg) t Hit Hd Ho Hq) as Hskip.
    destruct (skip_loop _ _ _ _ _) as [r r']. destruct Hskip as (Hit' & Hd' & Ho' & Hres). rewrite <- Hcur in Hres, Hp.
    destruct (skip_blocks_suffix t (cur_rest m)) as (skipped & Hsk & _).
    destruct r as [[prev off]|].
    + destruct Hres as (Hrest & Hlast & Hlen & Hpos & Hprev). rewrite Hrest in Hsk.
      set (b := map (Z.add (base_row_id_ seg)) (sums prev (doc_list seg off))) in *.
      assert (Hin : b ∈ seg_blocks seg) by (rewrite Hp, Hsk; rewrite !elem_of_app, elem_of_cons; auto).
      assert (Hlastb : last b = Some (base_row_id_ seg + current_doc_id_ r')) by (unfold b; by rewrite last_map_add, Hlast).
      assert (Hrow : 0 <= base_row_id_ seg + current_doc_id_ r' < INVALID_ROWID).
      { destruct Hr as [_ Hr]. rewrite Forall_forall in Hr. specialize (Hr (base_row_id_ seg + current_doc_id_ r')). cut (0 <= base_row_id_ seg + current_doc_id_ r' < limit `min` INVALID_ROWID - 1); [lia|].
        apply Hr. eapply concat_elem; [by eapply seg_in_all|]. by apply last_Some_elem_of. }
      assert (Hprevle : prev <= current_doc_id_ r').
      { pose proof (sums_ge prev _ Hpos) as Hge. rewrite Forall_forall in Hge. apply Hge. by apply last_Some_elem_of. }
      cbn. rewrite !wrap_id by (unfold unsigned_range, INVALID_ROWID in *; lia). split; [|done]. split; cbn.
      * constructor; cbn; [done|done|]. exists seg. split_and!; try done. exists (passed ++ skipped ++ [b]). rewrite Hp, Hsk. by rewrite <- !app_assoc.
      * exists b. split.
        -- assert (Hskb : skip_blocks t (dec_rest m) = b :: (abs_blocks (base_row_id_ seg) (blocks_from (doc_list seg) (current_doc_id_ r') (current_offset_ r') (items_ r')) ++ later_rest m)).
           { unfold dec_rest. clear -Hrest. revert Hrest. induction (cur_rest m) as [|c cs IH]; cbn; [done|]. destruct (t <=? block_last c); [intros [= -> ->]; done|done]. }
           rewrite Hskb. unfold dec_rest, cur_rest, later_rest. cbn. by rewrite Hseg.
        -- split_and!; cbn; [|done| |done]; unfold current_block; cbn; rewrite Hseg; [by apply sums_add|done].
    + destruct Hres as [Hrest Hitems]. split_and!; try done.
      * constructor; cbn; [done|done|]. exists seg. split_and!; try done. exists (passed ++ skipped). rewrite Hp, Hsk, Hrest, !app_nil_r, Hitems. cbn. by rewrite app_nil_r.
      * unfold dec_rest. clear -Hrest. unfold later_rest. cbn. induction (cur_rest m) as [|c cs IH]; cbn in *; [done|]. destruct (t <=? block_last c); [done|]. by apply IH.
      * intros Hl. unfold dec_rest, cur_rest, later_rest. cbn. rewrite Hseg, Hitems. cbn. by rewrite drop_ge.
Qed.
Lemma decoder_skip_spec fuel t m : dec_ok m -> target t -> (length (seg_postings_ m) <= fuel + segment_cursor_ m)%nat ->
  let '(r, m') := decoder_skip fuel t m in skip_ok t (dec_rest m) r m' /\ seg_postings_ m' = seg_postings_ m.
Proof.
  intros Hok Ht. revert m Hok. induction fuel as [|fuel IH]; intros m Hok Hf; cbn [decoder_skip];
    (pose proof (SkipInOneSegment_spec t m Hok Ht) as H1; destruct (SkipInOneSegment t m) as [[r|] m1]; [done|]; destruct H1 as (Hok1 & E1 & Es1 & Ec1 & Hlast1);
     pose proof (MoveToSegment_spec t m1 Hok1) as H2; destruct (MoveToSegment t m1) as [[] m2]).
  - destruct H2 as (_ & _ & _ & Hlt). rewrite Es1, Ec1 in Hlt. lia.
  - destruct H2 as (-> & Hl & Hge). rewrite Es1, Ec1 in Hge. split; [|done]. split; [done|]. rewrite E1, Hl. split; [done|by apply Hlast1].
  - destruct H2 as (Hok2 & E2 & Es2 & Hlt). rewrite Es1, Ec1 in Hlt. specialize (IH m2 Hok2). rewrite Es2, Es1 in IH. specialize (IH ltac:(lia)).
    destruct (decoder_skip fuel t m2) as [r m3]. destruct IH as [[Hok3 IH] IHs]. split; [|done]. split; [done|]. by rewrite E1, E2.
  - destruct H2 as (-> & Hl & Hge). rewrite Es1, Ec1 in Hge. split; [|done]. split; [done|]. rewrite E1, Hl. split; [done|by apply Hlast1].
Qed.

(** ** In a block

    [rem]: the rows after the current one, up to the end of the block. *)
Definition remaining (current : Z) (k cursor : nat) (buffer : list Z) : list Z := sums current (take k (drop cursor buffer)).
Definition rows_of p : list Z := concat (all_blocks (segment_postings_ p)).

Lemma advance_spec fuel t c cursor buffer k : (k <= fuel)%nat -> (k <= length buffer - cursor)%nat -> t <= default c (last (remaining c k cursor buffer)) ->
  Forall (fun x => 0 <= x < INVALID_ROWID) (remaining c k cursor buffer) -> exists d cursor' k' skipped,
  PostingIterator.advance_in_block fuel t c cursor buffer = Ok (d, cursor') /\ c :: remaining c k cursor buffer = skipped ++ d :: remaining d k' cursor' buffer /\
  Forall (fun x => x < t) skipped /\ t <= d /\ (k' <= length buffer - cursor')%nat.
Proof.
  revert c cursor k. induction fuel as [|fuel IH]; intros c cursor k Hf Hk Hl Hr; cbn [PostingIterator.advance_in_block].
  - assert (k = 0)%nat as -> by lia. cbn in Hl. rewrite (proj2 (Z.ltb_ge _ _)) by done. exists c, cursor, 0%nat, []. split_and!; try done; lia.
  - destruct (Z.ltb_spec c t) as [Hlt|Hge].
    + destruct k as [|k]; [change (t <= c) in Hl; lia|]. destruct (lookup_lt_is_Some_2 buffer cursor) as [x Hx]; [lia|]. rewrite Hx.
      assert (Hrem : remaining c (S k) cursor buffer = (c + x) :: remaining (c + x) k (S cursor) buffer).
      { unfold remaining. by rewrite (drop_S _ _ _ Hx). }
      rewrite Hrem in Hl, Hr |- *. apply Forall_cons in Hr as [Hrx Hr]. rewrite wrap_id by (unfold unsigned_range, INVALID_ROWID in *; lia).
      destruct (IH (c + x) (S cursor) k) as (d & cursor' & k' & skipped & E & Hs & Hsk & Htd & Hk'); [lia|lia| |done|].
      { rewrite last_cons in Hl. by destruct (last (remaining (c + x) k (S cursor) buffer)). }
      exists d, cursor', k', (c :: skipped). rewrite Hs. split_and!; try done. by constructor.
    + exists c, cursor, k, []. split_and!; done.
Qed.

(** ** The states of a posting *)
Definition docs_of_posting p : gset Z := list_to_set (rows_of p).
Definition common_ok p : Prop :=
  segment_postings_ p = seg_postings_ (posting_decoder_ p) /\ dec_ok (posting_decoder_ p) /\ length (doc_buffer_ p) = MAX_DOC_PER_RECORD.
Definition state_ok p (s : state) : Prop :=
  match s with
  | Fresh => finish_decode_docid_ p = false /\ last_doc_id_in_current_block_ p = INVALID_ROWID /\ current_row_id_ p = INVALID_ROWID /\
             dec_rest (posting_decoder_ p) = all_blocks (segment_postings_ p)
  | At _ d => finish_decode_docid_ p = true /\ current_row_id_ p = d /\ exists k passed,
      let rem := remaining d k (doc_buffer_cursor_ p) (doc_buffer_ p) in
      (k <= length (doc_buffer_ p) - doc_buffer_cursor_ p)%nat /\ last_doc_id_in_current_block_ p = default d (last rem) /\
      rows_of p = passed ++ d :: rem ++ concat (dec_rest (posting_decoder_ p))
  | Done _ => finish_decode_docid_ p = false /\ last_doc_id_in_current_block_ p = INVALID_ROWID /\ current_row_id_ p = INVALID_ROWID /\
              dec_rest (posting_decoder_ p) = []
  end.
Definition good_posting p s : Prop := common_ok p /\ state_ok p s /\ valid_state (docs_of_posting p) s.

Lemma elem_of_docs p x : x ∈ docs_of_posting p <-> x ∈ rows_of p.
Proof. unfold docs_of_posting. by rewrite elem_of_list_to_set. Qed.
Lemma rows_range p : common_ok p -> StronglySorted Z.lt (rows_of p) /\ Forall (fun x => 0 <= x < limit `min` INVALID_ROWID - 1) (rows_of p).
Proof. intros (E & [_ Hr _] & _). unfold rows_of. rewrite E. exact Hr. Qed.
Lemma sorted_app_lt (l1 l2 : list Z) : StronglySorted Z.lt (l1 ++ l2) -> forall x y, x ∈ l1 -> y ∈ l2 -> x < y.
Proof.
  induction l1 as [|a l1 IH]; cbn; intros Hs x y Hx Hy; [by apply not_elem_of_nil in Hx|]. apply StronglySorted_inv in Hs as [Hs Hf].
  apply elem_of_cons in Hx as [->|Hx]; [|by apply IH]. rewrite Forall_forall in Hf. apply Hf. apply elem_of_app. by right.
Qed.
(** The first row from a target on. *)
Lemma at_or_split p passed d rest t : common_ok p -> rows_of p = passed ++ d :: rest -> Forall (fun x => x < t) passed -> t <= d -> at_or (docs_of_posting p) t = At t d.
Proof.
  intros Hc E Hp Hd. destruct (rows_range p Hc) as [Hs _]. rewrite E in Hs. apply at_or_At; [|done|].
  - rewrite elem_of_docs, E. apply elem_of_app. right. by left.
  - intros x Hx Hle. rewrite elem_of_docs, E in Hx. apply elem_of_app in Hx as [Hx|[->|Hx]%elem_of_cons]; [rewrite Forall_forall in Hp; specialize (Hp x Hx); lia|lia|].
    replace (passed ++ d :: rest) with ((passed ++ [d]) ++ rest) in Hs by (by rewrite <- app_assoc). apply Z.lt_le_incl, (sorted_app_lt _ _ Hs d x); [|done].
    apply elem_of_app. right. by left.
Qed.
Lemma at_or_none p t : Forall (fun x => x < t) (rows_of p) -> at_or (docs_of_posting p) t = Done t.
Proof. intros Hf. apply at_or_Done. intros x Hx. rewrite elem_of_docs in Hx. rewrite Forall_forall in Hf. specialize (Hf x Hx). lia. Qed.

(** Going on in the block at hand. *)
Lemma finish_in_block p c k passed t : common_ok p -> finish_decode_docid_ p = true -> current_row_id_ p = c ->
  (k <= length (doc_buffer_ p) - doc_buffer_cursor_ p)%nat -> last_doc_id_in_current_block_ p = default c (last (remaining c k (doc_buffer_cursor_ p) (doc_buffer_ p))) ->
  rows_of p = passed ++ c :: remaining c k (doc_buffer_cursor_ p) (doc_buffer_ p) ++ concat (dec_rest (posting_decoder_ p)) ->
  Forall (fun x => x < t) passed -> t <= last_doc_id_in_current_block_ p -> exists p',
  (let? (current, cursor) := PostingIterator.advance_in_block MAX_DOC_PER_RECORD t (current_row_id_ p) (doc_buffer_cursor_ p) (doc_buffer_ p) in
   Ok (PostingIterator.set_cursor current cursor p)) = Ok p' /\ good_posting p' (at_or (docs_of_posting p) t) /\ segment_postings_ p' = segment_postings_ p.
Proof.
  intros Hc Hfin Hcur Hk Hlast Hrows Hpass Ht. pose proof (rows_range p Hc) as [Hs Hr].
  destruct (advance_spec MAX_DOC_PER_RECORD t c (doc_buffer_cursor_ p) (doc_buffer_ p) k) as (d & cursor' & k' & skipped & E & Hsplit & Hsk & Htd & Hk').
  - destruct Hc as (_ & _ & Hl). lia.
  - done.
  - by rewrite <- Hlast.
  - rewrite Hrows in Hr. apply Forall_app in Hr as [_ Hr]. apply Forall_cons in Hr as [_ Hr]. apply Forall_app in Hr as [Hr _]. eapply Forall_impl; [exact Hr|]. cbn. lia.
  - rewrite Hcur, E. cbn. eexists. split; [done|]. split; [|done].
    assert (Hrows' : rows_of p = (passed ++ skipped) ++ d :: remaining d k' cursor' (doc_buffer_ p) ++ concat (dec_rest (posting_decoder_ p))).
    { rewrite Hrows. rewrite <- app_assoc. f_equal. rewrite !app_comm_cons, Hsplit. by rewrite <- app_assoc. }
    assert (Hat : at_or (docs_of_posting p) t = At t d) by (eapply at_or_split; [done|exact Hrows'|by apply Forall_app|done]).
    pose proof (at_or_valid (docs_of_posting p) t) as Hv. rewrite Hat in Hv |- *. split_and!; try done; [apply Hc..|]. cbn. split_and!; try done.
    exists k', (passed ++ skipped). split_and!; try done. rewrite Hlast.
    assert (Hll : last (c :: remaining c k (doc_buffer_cursor_ p) (doc_buffer_ p)) = last (d :: remaining d k' cursor' (doc_buffer_ p))) by (by rewrite Hsplit, last_app_cons).
    rewrite !last_cons in Hll. destruct (last (remaining c k _ _)), (last (remaining d k' _ _)); cbn in *; congruence.
Qed.

(** Rows up to the end of a block. *)
Lemma sorted_last (b : list Z) x : StronglySorted Z.lt b -> x ∈ b -> x <= block_last b.
Proof.
  intros Hs Hx. unfold block_last. destruct b as [|y b _] using rev_ind; [by apply not_elem_of_nil in Hx|]. rewrite last_snoc. cbn.
  apply elem_of_app in Hx as [Hx|Hx%list_elem_of_singleton]; [|lia]. apply Z.lt_le_incl, (sorted_app_lt b [y] Hs); [done|by left].
Qed.
Lemma blocks_rows_below t bs : StronglySorted Z.lt (concat bs) -> Forall (fun b => block_last b < t) bs -> Forall (fun x => x < t) (concat bs).
Proof.
  intros Hs Hl. induction Hl as [|b bs Hb _ IH]; [constructor|]. cbn in *. apply Forall_app. split; [|apply IH; by apply StronglySorted_app_1_r in Hs].
  rewrite Forall_forall. intros x Hx. pose proof (sorted_last b x ltac:(by apply StronglySorted_app_1_l in Hs) Hx). lia.
Qed.
(** Skipping to another block. *)
Lemma seek_block p passed t : common_ok p -> target t -> last_doc_id_in_current_block_ p < t \/ last_doc_id_in_current_block_ p = INVALID_ROWID ->
  rows_of p = passed ++ concat (dec_rest (posting_decoder_ p)) -> Forall (fun x => x < t) passed -> exists p',
  match PostingIterator.SkipTo t p with
  | (false, p) => Ok (PostingIterator.set_current INVALID_ROWID p)
  | (true, p) => let p := PostingIterator.open_block p in
      let? (current, cursor) := PostingIterator.advance_in_block MAX_DOC_PER_RECORD t (current_row_id_ p) (doc_buffer_cursor_ p) (doc_buffer_ p) in
      Ok (PostingIterator.set_cursor current cursor p)
  end = Ok p' /\ good_posting p' (at_or (docs_of_posting p) t) /\ segment_postings_ p' = segment_postings_ p.
Proof.
  intros Hc Ht Hl Hrows Hpass. pose proof Hc as (Hseg & Hdec & Hbuf). pose proof (rows_range p Hc) as [Hs Hr]. unfold PostingIterator.SkipTo.
  assert ((last_doc_id_in_current_block_ p <? t) || (last_doc_id_in_current_block_ p =? INVALID_ROWID) = true) as ->.
  { apply orb_true_iff. rewrite Z.ltb_lt, Z.eqb_eq. done. }
  pose proof (decoder_skip_spec (length (seg_postings_ (posting_decoder_ p))) t (posting_decoder_ p) Hdec Ht ltac:(lia)) as Hskip. unfold MultiPostingDecoder_SkipTo.
  destruct (decoder_skip _ t _) as [r m']. destruct Hskip as [[Hdec' Hres] Hseg'].
  destruct (skip_blocks_suffix t (dec_rest (posting_decoder_ p))) as (skipped & Hsk & Hskl). rewrite Hrows, Hsk, concat_app in Hs.
  assert (Hsks : Forall (fun x => x < t) (concat skipped)) by (apply blocks_rows_below; [|done]; by apply StronglySorted_app_1_r, StronglySorted_app_1_l in Hs).
  set (sk := skip_blocks t (dec_rest (posting_decoder_ p))) in *. rewrite Hsk, concat_app, app_assoc in Hrows.
  assert (Hpass' : Forall (fun x => x < t) (passed ++ concat skipped)) by (by apply Forall_app).
  destruct r as [[prev last_row]|].
  - destruct Hres as (b & Hb & Hbs & Hlast & Hlen & Hneed). pose proof (skip_blocks_head _ _ _ _ Hb) as Htl. unfold block_last in Htl. rewrite Hlast in Htl. cbn in Htl.
    rewrite Hb in Hrows. cbn [concat] in Hrows. destruct (current_block m') as [|x blk] eqn:Eblk; [by rewrite Hbs in Hlast|]. cbn in Hbs.
    set (p1 := PostingIterator.open_block _). assert (Hbr : 0 <= prev + x < INVALID_ROWID).
    { rewrite Hrows, Forall_forall in Hr. specialize (Hr (prev + x)). cut (0 <= prev + x < limit `min` INVALID_ROWID - 1); [lia|]. apply Hr. rewrite Hbs.
      apply elem_of_app. right. by left. }
    assert (Hp1 : p1 = mkPosting (segment_postings_ p) (doc_freq_ p) prev (if last_doc_id_in_prev_record_ (index_decoder_ m') =? 0 then prev else u64 (prev + 1)) last_row
      (prev + x) 1 (x :: blk ++ drop (length (x :: blk)) (doc_buffer_ p)) true
      (mkDecoder (seg_postings_ m') (segment_cursor_ m') (decoder_base_ m') (index_decoder_ m') false)).
    { unfold p1, PostingIterator.open_block, DecodeCurrentDocIDBuffer. cbn -[drop length wrap]. rewrite Hneed. cbn -[drop length wrap]. rewrite Eblk.
      cbn -[drop length wrap]. by rewrite (wrap_id 64 (prev + x)) by (unfold unsigned_range, INVALID_ROWID in *; lia). }
    assert (Hfields : finish_decode_docid_ p1 = true /\ current_row_id_ p1 = prev + x /\ doc_buffer_cursor_ p1 = 1%nat /\
      doc_buffer_ p1 = x :: blk ++ drop (length (x :: blk)) (doc_buffer_ p) /\ last_doc_id_in_current_block_ p1 = last_row /\
      segment_postings_ p1 = segment_postings_ p /\ seg_postings_ (posting_decoder_ p1) = seg_postings_ m' /\ dec_ok (posting_decoder_ p1) /\
      dec_rest (posting_decoder_ p1) = dec_rest m').
    { rewrite Hp1. destruct Hdec' as [H1 H2 H3]. split_and!; try reflexivity. by constructor. }
    clearbody p1. clear Hp1. destruct Hfields as (F1 & F2 & F3 & F4 & F5 & F6 & F7 & F8 & F9).
    assert (Hrem : remaining (prev + x) (length blk) (doc_buffer_cursor_ p1) (doc_buffer_ p1) = sums (prev + x) blk).
    { unfold remaining. rewrite F3, F4. cbn [drop]. by rewrite drop_0, take_app_length. }
    assert (Hlen1 : length (doc_buffer_ p1) = MAX_DOC_PER_RECORD).
    { rewrite F4, length_cons, length_app, length_drop, length_cons. rewrite length_cons in Hlen. lia. }
    assert (Hdocs : docs_of_posting p1 = docs_of_posting p) by (unfold docs_of_posting, rows_of; by rewrite F6).
    rewrite <- F6, <- Hdocs. apply (finish_in_block p1 (prev + x) (length blk) (passed ++ concat skipped) t); try done.
    + split_and!; [congruence|done|done].
    + rewrite F3, F4, length_cons, length_app. lia.
    + rewrite Hrem, F5. rewrite Hbs, last_cons in Hlast. by destruct (last (sums (prev + x) blk)); simplify_eq.
    + transitivity (rows_of p); [unfold rows_of; by rewrite F6|]. rewrite Hrows, Hbs, Hrem, F9. done.
    + by rewrite F5.
  - destruct Hres as [Hrest Hrest']. rewrite Hrest in Hrows. cbn in Hrows. rewrite app_nil_r in Hrows. eexists. split; [done|]. split; [|done].
    rewrite at_or_none by (by rewrite Hrows). split_and!; cbn; try done; [split_and!; cbn; [congruence|done|done]|].
    intros x Hx. apply (elem_of_docs p) in Hx. rewrite Hrows in Hx.
    rewrite Forall_forall in Hpass'. by apply Hpass'.
Qed.

Lemma SeekDoc_unfold t p : segment_postings_ p <> [] -> PostingIterator.SeekDoc t p =
  let current := if finish_decode_docid_ p then current_row_id_ p else INVALID_ROWID in
  if negb (current =? INVALID_ROWID) && (t <=? current) then Ok p
  else match PostingIterator.SkipTo t p with
       | (false, p) => Ok (PostingIterator.set_current INVALID_ROWID p)
       | (true, p) => let p := PostingIterator.open_block p in
           let? (current, cursor) := PostingIterator.advance_in_block MAX_DOC_PER_RECORD t (current_row_id_ p) (doc_buffer_cursor_ p) (doc_buffer_ p) in
           Ok (PostingIterator.set_cursor current cursor p)
       end.
Proof. unfold PostingIterator.SeekDoc. by destruct (segment_postings_ p). Qed.
Lemma SeekDoc_spec p s t : posting_wf (segment_postings_ p) -> good_posting p s -> target t -> exists p',
  PostingIterator.SeekDoc t p = Ok p' /\ good_posting p' (advance (docs_of_posting p) s t) /\ segment_postings_ p' = segment_postings_ p.
Proof.
  intros (Hne & _) Hg Ht. pose proof Hg as (Hc & Hs & Hv). rewrite SeekDoc_unfold by done. clear Hne.
  pose proof (rows_range p Hc) as [Hsort Hr]. destruct s as [|q d|q]; cbn in Hs; cbn [advance].
  - destruct Hs as (Hf & Hl & Hcur & Hrest). rewrite Hf, Z.eqb_refl. cbn [negb andb]. apply (seek_block p [] t); auto. unfold rows_of. by rewrite <- Hrest.
  - destruct Hs as (Hf & Hcur & k & passed & Hk & Hlast & Hrows). rewrite Hf, Hcur. rewrite Hrows in Hr, Hsort.
    assert (Hd : 0 <= d < INVALID_ROWID). { apply Forall_app in Hr as [_ Hr]. apply Forall_cons in Hr as [Hr _]. lia. }
    rewrite (proj2 (Z.eqb_neq d INVALID_ROWID)) by lia. cbn [negb andb]. destruct (Z.leb_spec t d) as [Hle|Hgt].
    + by exists p.
    + assert (Hpd : Forall (fun x => x < t) passed).
      { rewrite Forall_forall. intros x Hx. pose proof (sorted_app_lt _ _ Hsort x d Hx ltac:(by left)). lia. }
      destruct (Z_le_gt_dec t (last_doc_id_in_current_block_ p)) as [Hle2|Hgt2].
      * assert (Hlr : last_doc_id_in_current_block_ p < INVALID_ROWID).
        { rewrite Hlast. destruct (last (remaining d k _ _)) as [x|] eqn:El; cbn; [|lia]. apply last_Some_elem_of in El. apply Forall_app in Hr as [_ Hr].
          apply Forall_cons in Hr as [_ Hr]. apply Forall_app in Hr as [Hr _]. rewrite Forall_forall in Hr. specialize (Hr x El). cbn in Hr. lia. }
        assert (Hskip : PostingIterator.SkipTo t p = (true, p)).
        { unfold PostingIterator.SkipTo. rewrite (proj2 (Z.ltb_ge _ _)) by done. rewrite (proj2 (Z.eqb_neq _ _)) by lia. done. }
        rewrite Hskip. assert (Hopen : PostingIterator.open_block p = p) by (unfold PostingIterator.open_block; by rewrite Hf). cbv zeta. rewrite Hopen.
        by apply (finish_in_block p d k passed).
      * apply (seek_block p (passed ++ d :: remaining d k (doc_buffer_cursor_ p) (doc_buffer_ p))); try done; [left; lia| |].
        -- rewrite Hrows. by rewrite <- app_assoc.
        -- apply Forall_app. split; [done|]. rewrite Forall_forall. intros x Hx.
           assert (Hxl : x <= last_doc_id_in_current_block_ p); [|lia]. rewrite Hlast.
           apply StronglySorted_app_1_r in Hsort. rewrite app_comm_cons in Hsort. apply StronglySorted_app_1_l in Hsort.
           pose proof (sorted_last _ x Hsort Hx) as Hb. unfold block_last in Hb. rewrite last_cons in Hb. by destruct (last (remaining d k _ _)).
  - destruct Hs as (Hf & Hl & Hcur & Hrest). rewrite Hf, Z.eqb_refl. cbn [negb andb]. destruct Hc as (Hseg & Hdec & Hbuf).
    pose proof (decoder_skip_spec (length (seg_postings_ (posting_decoder_ p))) t (posting_decoder_ p) Hdec Ht ltac:(lia)) as Hskip.
    unfold PostingIterator.SkipTo, MultiPostingDecoder_SkipTo. rewrite Hl, Z.eqb_refl, orb_true_r.
    destruct (decoder_skip _ t _) as [r m']. destruct Hskip as [[Hdec' Hres] Hseg']. rewrite Hrest in Hres. cbn [skip_blocks] in Hres.
    destruct r as [[prev last_row]|]; [by destruct Hres as (b & ? & _)|]. eexists. split; [done|]. split; [|done].
    split_and!; [split_and!; cbn; [congruence|done|done]|by split_and!; cbn; try done; apply Hres|done].
Qed.

(** A posting that was just looked up. *)
Lemma Init_good segs df : posting_wf segs -> good_posting (PostingIterator.Init segs df) Fresh.
Proof.
  intros (Hne & Hw & Hr). destruct segs as [|seg segs]; [done|]. unfold PostingIterator.Init, decoder_init, MoveToSegment. cbn [seg_postings_ segment_cursor_ need_decode_doc_id_].
  assert (LocateSegment 0 0 (seg :: segs) = 0%nat) as ->.
  { unfold LocateSegment. destruct (base_lookup 0 (seg :: segs) seg Hw eq_refl) as [-> Hni]. rewrite (proj2 (Z.eqb_neq _ _)) by done.
    cbn [length locate]. destruct (beyond_spec 1 (seg :: segs) 0 Hw) as [[_ (seg' & Hs & Hle)]|[-> _]]; [|done].
    destruct (segs_wf_later (seg :: segs) 0 1 seg seg' Hw eq_refl Hs ltac:(lia)) as [Hlt _]. destruct (segs_wf_lookup (seg :: segs) 0 seg Hw eq_refl) as (_ & ? & _). lia. }
  cbn [lookup list_lookup]. split_and!; [split_and!; [done| |done]|done|done].
  constructor; cbn [seg_postings_ segment_cursor_ decoder_base_ index_decoder_ posting_decoder_ snd]; [done|done|]. exists seg. split_and!; try done; [apply Hw|]. by exists [].
Qed.
End posting.

(** ** Postings of an index on disk, as the iterators see them

    Positions and the number of documents of the column come with the posting. Where the source would
    read beyond the buffer there is no result; [SeekDoc_spec] says when that does not happen. *)
Record IndexPosting := mkIndexPosting { iter_ : PostingIterator; positions_ : Z -> list Z; total_df_ : Z }.
Definition seek (t : Z) (ip : IndexPosting) : IndexPosting :=
  match PostingIterator.SeekDoc t (iter_ ip) with Ok p => mkIndexPosting p (positions_ ip) (total_df_ ip) | Err _ => ip end.
#[export] Instance disk_posting : Posting := {|
  posting := IndexPosting;
  SeekDoc := seek;
  posting_doc ip := current_row_id_ (iter_ ip);
  posting_df ip := doc_freq_ (iter_ ip);
  posting_total_df := total_df_;
  posting_positions := positions_;
|}.

Lemma SeekDoc_segments t p p' : PostingIterator.SeekDoc t p = Ok p' -> segment_postings_ p' = segment_postings_ p.
Proof.
  assert (Hopen : forall p, segment_postings_ (PostingIterator.open_block p) = segment_postings_ p).
  { intros p0. unfold PostingIterator.open_block. destruct (finish_decode_docid_ p0); [done|]. by destruct (DecodeCurrentDocIDBuffer _ _). }
  assert (Hskip : segment_postings_ (PostingIterator.SkipTo t p).2 = segment_postings_ p).
  { unfold PostingIterator.SkipTo. destruct (_ || _); [|done]. by destruct (MultiPostingDecoder_SkipTo t (posting_decoder_ p)) as [[[? ?]|] ?]. }
  destruct (decide (segment_postings_ p = [])) as [E|E]; [unfold PostingIterator.SeekDoc; rewrite E; by intros [= <-]|].
  rewrite SeekDoc_unfold by done. cbv zeta. destruct (_ && _); [by intros [= <-]|]. destruct (PostingIterator.SkipTo t p) as [[] p1]; cbn in Hskip; [|by intros [= <-]].
  destruct (PostingIterator.advance_in_block _ _ _ _ _) as [[c k]|]; cbn; [|done]. intros [= <-]. cbn. by rewrite Hopen.
Qed.
#[export] Instance disk_posting_laws {DL : DocLimit} : PostingLaws.
Proof.
  refine {| posting_docs ip := docs_of_posting (iter_ ip); posting_ok ip := posting_wf (segment_postings_ (iter_ ip)); posting_good ip s := good_posting (iter_ ip) s |}.
  - intros ip s _ (_ & Hs & Hv). split; [|done]. destruct s; cbn in Hs |- *; apply Hs.
  - intros ip (_ & _ & _ & Hr) x. cbn. rewrite elem_of_docs. rewrite Forall_forall in Hr. apply Hr.
  - intros ip s t Hok Hg Ht. destruct (SeekDoc_spec (iter_ ip) s t Hok Hg Ht) as (p' & E & Hg' & Hs). cbn. unfold seek. rewrite E. cbn. by rewrite Hs.
  - intros ip t. cbn. unfold seek. destruct (PostingIterator.SeekDoc t (iter_ ip)) as [p'|] eqn:E; [|done]. cbn. unfold docs_of_posting, rows_of. by rewrite (SeekDoc_segments _ _ _ E).
  - intros ip t. cbn. unfold seek. by destruct (PostingIterator.SeekDoc t (iter_ ip)).
Defined.

(** ** A sequence of calls *)
Fixpoint seek_all (ts : list Z) (p : PostingIterator) : res (list Z) :=
  match ts with
  | [] => Ok []
  | t :: ts => let? p := PostingIterator.SeekDoc t p in let? ds := seek_all ts p in Ok (current_row_id_ p :: ds)
  end.
(** The documents of a cursor. *)
Fixpoint cursor_docs (X : gset Z) (s : state) (ts : list Z) : list Z :=
  match ts with [] => [] | t :: ts => let s := advance X s t in doc s :: cursor_docs X s ts end.
Lemma seek_all_spec {DL : DocLimit} ts p s : posting_wf (segment_postings_ p) -> good_posting p s -> Forall target ts ->
  seek_all ts p = Ok (cursor_docs (docs_of_posting p) s ts).
Proof.
  intros Hw Hg Hts. revert p s Hw Hg. induction Hts as [|t ts Ht _ IH]; intros p s Hw Hg; [done|]. cbn.
  destruct (SeekDoc_spec p s t Hw Hg Ht) as (p' & E & Hg' & Hs). rewrite E. cbn. rewrite (IH p' (advance (docs_of_posting p) s t)); [|by rewrite Hs|done]. cbn.
  assert (docs_of_posting p' = docs_of_posting p) as -> by (unfold docs_of_posting, rows_of; by rewrite Hs).
  do 2 f_equal. destruct Hg' as (_ & Hst & _). destruct (advance _ s t); cbn in Hst |- *; apply Hst.
Qed.

(** C19. A posting on disk is a cursor over its rows, for targets within [2 ^ 32] rows of the first row of
    every segment posting, as in a table with one segment: for every sequence of such targets, forwards or
    back, the calls of [SeekDoc] after [Init] do not read beyond the buffer, and give the first row from the
    target on where the cursor has not passed it, across blocks and segment postings; once there is no row
    they stay without one. For targets in a later segment see [later_segment_overruns_buffer]. *)
Theorem posting_refines_cursor {DL : DocLimit} (segs : list SegmentPosting) (df : Z) (ts : list Z) :
  posting_wf segs -> Forall target ts ->
  seek_all ts (PostingIterator.Init segs df) = Ok (cursor_docs (list_to_set (concat (all_blocks segs))) Fresh ts).
Proof. intros Hw Hts. apply (seek_all_spec ts (PostingIterator.Init segs df) Fresh); [done|by apply Init_good|done]. Qed.

(** A table with one segment. *)
Definition one_segment : DocLimit := {| limit := 2 ^ 32; limit_pos := eq_refl |}.
(** Two index files: rows 3, 5 and 9 in two blocks, and rows 21 and 22. *)
Definition demo_segs : list SegmentPosting :=
  [mkSegment 2 [(3, 4); (4, 2)] (fun o => if o =? 0 then [1; 2] else if o =? 4 then [4] else []);
   mkSegment 20 [(2, 4)] (fun o => if o =? 0 then [1; 1] else [])].
Lemma demo_segs_wf : @posting_wf one_segment demo_segs.
Proof. split_and!; [done| |]; cbn; unfold seg_wf, rows_wf, unsigned_range; cbn; split_and!; repeat constructor; cbn; unfold MAX_DOC_PER_RECORD; try lia; try done. Qed.
Lemma posting_refines_cursor_witness :
  seek_all [0; 4; 4; 10; 6; 22; 23; 3] (PostingIterator.Init demo_segs 5) = Ok [3; 5; 5; 21; 21; 22; INVALID_ROWID; INVALID_ROWID].
Proof.
  rewrite (@posting_refines_cursor one_segment demo_segs 5 [0; 4; 4; 10; 6; 22; 23; 3] demo_segs_wf); [reflexivity|].
  repeat constructor; cbn; unfold INVALID_ROWID; lia.
Defined.
