(* ===== verification/FulltextSearch.v ===== *)
(** * Full-text filters: [CreateSearch] of [query_node.cpp], [IndexFilterEvaluatorFulltext]

    The tree of iterators that a query tree is searched with, and the filter of a segment: the bitmask
    of the rows whose documents the iterator of the tree finds. The index enters as a function: the
    postings of the terms of a column with a full-text index. Filters have [topn = 0] and no score
    threshold; the iterator that skips blocks by their scores ([kBMW]) is not part of the model. *)
From S2P Require Import Prelude Bitmask QueryNode DocIterator.
Import QueryNode.

Inductive EarlyTermAlgo := kAuto | kNaive | kBatch | kCompare.
#[export] Instance EarlyTermAlgo_eq_dec : EqDecision EarlyTermAlgo.
Proof. solve_decision. Defined.

Record CreateSearchParams := mkParams { early_term_algo : EarlyTermAlgo; similarity_is_bm25 : bool; minimum_should_match : Z }.
Definition RemoveMSM (params : CreateSearchParams) : CreateSearchParams :=
  mkParams (early_term_algo params) (similarity_is_bm25 params) 0.

Section search.
Context `{P : Posting}.
(** [GetColumnIndexReader] and [Lookup]. *)
Context (index_reader : string -> option (string -> option posting)).

Definition search : Type := CreateSearchParams -> bool -> res (option DocIterator).

Fixpoint lookup_all (lookup : string -> option posting) (terms : list string) : option (list posting) :=
  match terms with
  | [] => Some []
  | term :: terms =>
      match lookup term with
      | None => None
      | Some p => match lookup_all lookup terms with None => None | Some ps => Some (p :: ps) end
      end
  end.

(** ** AND *)
Fixpoint search_all (params : CreateSearchParams) (children : list search) : res (option (list DocIterator)) :=
  match children with
  | [] => Ok (Some [])
  | child :: children =>
      let? iter := child params false in
      match iter with
      | None => Ok None
      | Some iter => let? iters := search_all params children in
                     Ok (match iters with None => None | Some iters => Some (iter :: iters) end)
      end
  end.
Definition CreateSearchAnd (children : list search) : search := fun params is_top_level =>
  let? sub_doc_iters := search_all (RemoveMSM params) children in
  match sub_doc_iters, children with
  | None, _ | Some [], _ | _, [] => Ok None
  | Some [_], front :: _ => front params is_top_level
  | Some iters, _ =>
      if minimum_should_match params <=? Z.of_nat (length iters) then Ok (Some (make_and iters))
      else Ok (Some (MinimumShouldMatchWrapper (minimum_should_match params) (make_and iters)))
  end.

(** ** AND NOT *)
Fixpoint search_some (params : CreateSearchParams) (children : list search) : res (list DocIterator) :=
  match children with
  | [] => Ok []
  | child :: children =>
      let? iter := child params false in
      let? iters := search_some params children in
      Ok (match iter with None => iters | Some iter => iter :: iters end)
  end.
Definition CreateSearchAndNot (children : list search) : search := fun params is_top_level =>
  match children with
  | [] => Err Undefined
  | front :: children =>
      let? first_iter := front params is_top_level in
      match first_iter with
      | None => Ok None
      | Some first_iter =>
          let? iters := search_some (RemoveMSM params) children in
          Ok (Some (match iters with [] => first_iter | _ => make_and_not (first_iter :: iters) end))
      end
  end.

(** ** OR *)
Inductive or_kind := KindOr | KindBatchOr.
Fixpoint term_postings (iters : list DocIterator) : res (list (Z * posting)) :=
  match iters with
  | [] => Ok []
  | TermDocIterator d p :: iters => let? l := term_postings iters in Ok ((d, p) :: l)
  | _ => Err Unrecoverable
  end.
Definition make_batch_or (iters : list DocIterator) : res DocIterator :=
  let? cs := term_postings iters in Ok (BatchOrIterator INVALID_ROWID 0 [] cs).
Definition make_kind (T : or_kind) (iters : list DocIterator) : res DocIterator :=
  match T with KindOr => Ok (make_or iters) | KindBatchOr => make_batch_or iters end.

Definition GetIterResultT (T : or_kind) (params : CreateSearchParams) (sub_doc_iters keyword_iters : list DocIterator) : res (option DocIterator) :=
  let m := minimum_should_match params in
  let msm_bar := match keyword_iters with [] => 1 | _ => 0 end in
  if Z.of_nat (length sub_doc_iters) <? m then Ok None
  else if m <=? msm_bar then
    match T with
    | KindOr => Ok (Some (make_or (sub_doc_iters ++ keyword_iters)))
    | KindBatchOr =>
        let? msm_iter := make_batch_or sub_doc_iters in
        Ok (Some (match keyword_iters with [] => msm_iter | _ => make_or (keyword_iters ++ [msm_iter]) end))
    end
  else
    let? msm_iter := (if m <=? 1 then make_kind T sub_doc_iters
                      else if m <? Z.of_nat (length sub_doc_iters) then
                        match T with
                        | KindOr => make_msm sub_doc_iters m
                        | KindBatchOr => let? it := make_batch_or sub_doc_iters in Ok (MinimumShouldMatchWrapper m it)
                        end
                      else Ok (make_and sub_doc_iters)) in
    Ok (Some (match keyword_iters with [] => msm_iter | _ => make_must_first (msm_iter :: keyword_iters) end)).

Definition is_term_iter (it : DocIterator) : bool := match it with TermDocIterator _ _ => true | _ => false end.
Definition term_children_need_batch (sub_doc_iters : list DocIterator) : bool :=
  let '(total_df, df_sum) := foldl (fun acc iter => match iter with
                                                     | TermDocIterator _ p => (posting_total_df p, u64 (acc.2 + posting_df p))
                                                     | _ => acc
                                                     end) (0, 0) sub_doc_iters in
  negb (df_sum =? 0) && (total_df <=? u64 (df_sum * 5)).

(** The iterators of the children of an OR, with the children that have one. *)
Fixpoint or_iters (params : CreateSearchParams) (children : list (QueryNodeType * search)) : res (list (QueryNodeType * search * DocIterator)) :=
  match children with
  | [] => Ok []
  | (type, child) :: children =>
      let? iter := child params false in
      let? l := or_iters params children in
      Ok (match iter with None => l | Some iter => (type, child, iter) :: l end)
  end.
Definition is_keyword (c : QueryNodeType * search * DocIterator) : bool := bool_decide (c.1.1 = KEYWORD).

Definition or_default (params : CreateSearchParams) (iters : list DocIterator) : DocIterator :=
  if minimum_should_match params <=? 0 then make_or iters else MinimumShouldMatchWrapper (minimum_should_match params) (make_or iters).
Definition CreateSearchOr (children : list (QueryNodeType * search)) : search := fun params is_top_level =>
  let? l := or_iters (RemoveMSM params) children in
  let keyword_iters := map snd (filter (fun c => is_keyword c = true) l) in
  let subs := filter (fun c => is_keyword c = false) l in
  let sub_doc_iters := map snd subs in
  let all_are_term_or_phrase :=
    forallb (fun c => bool_decide (c.1.1 = TERM \/ c.1.1 = PHRASE)) subs && (2 <=? length sub_doc_iters)%nat in
  match l with
  | [] => Ok None
  | [(_, only_child, _)] => only_child params is_top_level
  | _ =>
      let algo := early_term_algo params in
      let batch := negb (bool_decide (algo = kNaive \/ algo = kCompare)) && similarity_is_bm25 params && term_children_need_batch sub_doc_iters in
      let choose_algo := match algo with
                         | kAuto => if term_children_need_batch sub_doc_iters then kBatch else kNaive
                         | _ => algo
                         end in
      let top := is_top_level && all_are_term_or_phrase && similarity_is_bm25 params in
      if top && bool_decide (choose_algo = kCompare) then Err Unrecoverable
      else if top && bool_decide (choose_algo = kNaive) then GetIterResultT KindOr params sub_doc_iters keyword_iters
      else if batch then
        let term_iters := filter (fun it => is_term_iter it = true) sub_doc_iters in
        match keyword_iters ++ filter (fun it => is_term_iter it = false) sub_doc_iters with
        | [] => GetIterResultT KindBatchOr params term_iters []
        | not_term_iters => let? batch_or_iter := make_batch_or term_iters in Ok (Some (or_default params (not_term_iters ++ [batch_or_iter])))
        end
      else if all_are_term_or_phrase then GetIterResultT KindOr params sub_doc_iters keyword_iters
      else Ok (Some (or_default params (sub_doc_iters ++ keyword_iters)))
  end.

(** ** Keywords *)
Fixpoint keyword_iters (params : CreateSearchParams) (children : list (QueryNodeType * search)) : res (list DocIterator) :=
  match children with
  | [] => Ok []
  | (type, child) :: children =>
      check? bool_decide (type = TERM) else Unrecoverable in
      let? iter := child params true in
      let? iters := keyword_iters params children in
      Ok (match iter with None => iters | Some iter => iter :: iters end)
  end.
Definition CreateSearchKeyword (children : list (QueryNodeType * search)) : search := fun params _ =>
  let? iters := keyword_iters params children in
  Ok (match iters with [] => None | _ => Some (make_keyword iters) end).

(** ** The tree *)
Fixpoint CreateSearch (q : QueryNode) : search :=
  match q with
  | TermQueryNode _ term column _ => fun _ _ =>
      match index_reader column with
      | None => Err Recoverable
      | Some lookup => Ok (TermDocIterator INVALID_ROWID <$> lookup term)
      end
  | PhraseQueryNode _ terms column slop => fun _ _ =>
      match index_reader column with
      | None => Err Recoverable
      | Some lookup => Ok ((fun ps => PhraseDocIterator INVALID_ROWID ps slop) <$> lookup_all lookup terms)
      end
  | MultiQueryNode AndQueryNode _ cs => CreateSearchAnd (map CreateSearch cs)
  | MultiQueryNode AndNotQueryNode _ cs => CreateSearchAndNot (map CreateSearch cs)
  | MultiQueryNode OrQueryNode _ cs => CreateSearchOr (map (fun c => (GetType c, CreateSearch c)) cs)
  | MultiQueryNode KeywordQueryNode _ cs => CreateSearchKeyword (map (fun c => (GetType c, CreateSearch c)) cs)
  | MultiQueryNode NotQueryNode _ _ => fun _ _ => Err Unrecoverable
  end.

(** ** The filter of a segment: [IndexFilterEvaluatorFulltext::Evaluate]

    [None] is a lack of fuel. *)
Definition RowID (segment_id segment_offset : Z) : Z := segment_id * 2 ^ 32 + segment_offset.
Definition segment_offset_ (row_id : Z) : Z := wrap 32 row_id.

Section filter.
Context {R : Type} `{Roaring R}.

(** [while (ft_iter->DocID() < end_rowid)]. *)
Fixpoint filter_loop (fuel : nat) (end_rowid : Z) (ft_iter : DocIterator) (result : Bitmask R) : option (res (Bitmask R)) :=
  match fuel with
  | O => None
  | S fuel =>
      if DocID ft_iter <? end_rowid then
        match Bitmask.SetTrue (segment_offset_ (DocID ft_iter)) result with
        | Err e => Some (Err e)
        | Ok result =>
            match next_doc DocID (Next fuel) ft_iter with
            | None => None
            | Some (_, ft_iter) => filter_loop fuel end_rowid ft_iter result
            end
        end
      else Some (Ok result)
  end.
Definition Evaluate (fuel : nat) (query_tree : QueryNode) (params : CreateSearchParams) (segment_id segment_row_count : Z) : option (res (Bitmask R)) :=
  let result := Bitmask.SetAllFalse (Bitmask.make segment_row_count) in
  let end_rowid := RowID segment_id segment_row_count in
  match CreateSearch query_tree params true with
  | Err e => Some (Err e)
  | Ok None => Some (Ok result)
  | Ok (Some ft_iter) =>
      match Next fuel (RowID segment_id 0) ft_iter with
      | None => None
      | Some (false, _) => Some (Ok result)
      | Some (true, ft_iter) =>
          match filter_loop fuel end_rowid ft_iter result with
          | None => None
          | Some (Err e) => Some (Err e)
          | Some (Ok result) => Some (Ok (Bitmask.RunOptimize result))
          end
      end
  end.
End filter.
End search.
