(* ===== verification/FulltextFilter.v ===== *)
(** * The loop of a full-text filter

    [Evaluate] makes one pass over an iterator: it calls [Next] on a fresh iterator and then as long
    as the document is in the segment. [one_pass] is what an iterator promises for that, and
    [evaluate_rows] what the bitmask holds in the end. *)
From S2P Require Import Prelude Bitmask QueryNode DocIterator DocCursor DocTree FulltextSearch.

Section filter.
Context `{PL : PostingLaws}.
Context (index_reader : string -> option (string -> option posting)).
Implicit Types (it : DocIterator) (s : state).

(** ** Iterators that run once *)
Record one_pass (X : gset Z) (I : DocIterator -> state -> Prop) : Prop := {
  pass_range : in_range X;
  pass_state it s : I it s -> DocID it = doc s /\ valid_state X s;
  pass_next it s t : I it s -> ~ is_done s -> target t -> exists N it',
    (forall F, (N <= F)%nat -> Next F t it = Some (bool_decide (doc (advance X s t) <> INVALID_ROWID), it')) /\ I it' (advance X s t);
}.
Lemma tree_pass n it0 : ok n it0 -> one_pass (docs it0) (fun it s => ok n it /\ good it s /\ docs it = docs it0).
Proof.
  intros Hok. split; [by eapply docs_range| |].
  - intros it s (H1 & H2 & <-). by eapply good_state.
  - intros it s t (H1 & H2 & <-) _ Ht. destruct (cursor_next (H := tree_cursor) (sub := ok n) it H1 s t H2 Ht) as (N & it' & HN & H3 & H4 & H5).
    exists N, it'. done.
Qed.

Context {R : Type} `{RL : RoaringLaws R}.

(** ** The rows that the loop adds *)
Definition rows_in (X : gset Z) (segment_id a b : Z) : gset Z :=
  list_to_set (filter (fun o => RowID segment_id o ∈ X) (seqZ a (b - a))).
Lemma elem_of_rows_in X g a b o : o ∈ rows_in X g a b <-> RowID g o ∈ X /\ a <= o < b.
Proof. unfold rows_in. rewrite elem_of_list_to_set, list_elem_of_filter, elem_of_seqZ. split; intros [? ?]; (split; [done|lia]). Qed.

Lemma segment_row_offset g o : unsigned_range 32 o -> segment_offset_ (RowID g o) = o.
Proof. intros Ho. unfold segment_offset_, RowID, wrap, unsigned_range in *. rewrite Z.add_comm, Z.mod_add, Z.mod_small by lia. done. Qed.
Section pass.
Context (X : gset Z) (I : DocIterator -> state -> Prop) (HI : one_pass X I).

Lemma filter_loop_spec it s g (b : Bitmask R) :
  I it s -> Bitmask.bitmask_ok b -> ~ is_fresh s -> unsigned_range 32 g -> RowID g 0 <= doc s ->
  exists N b', (forall F, (N <= F)%nat -> filter_loop F (RowID g (count_ b)) it b = Some (Ok b')) /\ Bitmask.bitmask_ok b' /\ count_ b' = count_ b /\
  Bitmask.bits b' = Bitmask.bits b ∪ rows_in X g (doc s - RowID g 0) (count_ b).
Proof.
  remember (Z.to_nat (RowID g (count_ b) - doc s)) as k eqn:Ek. revert it s b Ek. induction (lt_wf k) as [k _ IH].
  intros it s b -> Hg Hb Hnf Hg0 Hle. destruct (pass_state _ _ HI it s Hg) as [Hdoc Hv]. pose proof (pass_range _ _ HI) as Hr.
  pose proof (Bitmask.bo_count b Hb) as Hc. unfold unsigned_range in Hg0, Hc.
  assert (Hmax : RowID g (count_ b) <= INVALID_ROWID) by (unfold RowID, INVALID_ROWID; lia).
  destruct (Z.ltb_spec (doc s) (RowID g (count_ b))) as [Hlt|Hge].
  - assert (Ho : 0 <= doc s - RowID g 0 < count_ b) by (unfold RowID in *; lia). assert (Hd : doc s <> INVALID_ROWID) by lia.
    destruct (doc_valid _ _ Hr Hv) as [?|[Hin _]]; [done|]. pose proof (Hr _ Hin) as Hrd. destruct (doc_at _ _ Hr Hv Hd) as [p Hs].
    assert (Hoff : segment_offset_ (DocID it) = doc s - RowID g 0).
    { rewrite Hdoc. transitivity (segment_offset_ (RowID g (doc s - RowID g 0))); [f_equal; unfold RowID; lia|]. apply segment_row_offset. unfold unsigned_range. lia. }
    destruct (Bitmask.SetTrue_spec b _ Hb Ho) as (b1 & Hset & Hb1 & Hc1 & Hbits1). assert (Ht : target (doc s + 1)) by (unfold target; lia).
    destruct (pass_next _ _ HI it s (doc s + 1) Hg ltac:(by rewrite Hs; cbn; tauto) Ht) as (N & it1 & HN & Hg1).
    pose proof (advance_ge X s (doc s + 1) Ht) as Hge1. set (s1 := advance X s (doc s + 1)) in *.
    assert (Hs1 : doc s1 = default INVALID_ROWID (least X (doc s + 1))).
    { apply advance_doc; [done|]. rewrite Hs. rewrite Hs in Hv. cbn in *. lia. }
    destruct (IH (Z.to_nat (RowID g (count_ b1) - doc s1))) with (it := it1) (s := s1) (b := b1) as (N2 & b2 & HN2 & Hb2 & Hc2 & Hbits2); try done.
    + rewrite Hc1. lia.
    + apply advance_not_fresh.
    + lia.
    + exists (S (N `max` N2))%nat, b2. split_and!; [|done|congruence|].
      * intros [|F] HF; [lia|]. cbn [filter_loop]. rewrite Hdoc, (proj2 (Z.ltb_lt _ _)) by lia. rewrite <- Hdoc, Hoff, Hset. unfold next_doc.
        rewrite Hdoc, (proj2 (Z.eqb_neq _ _)) by done. assert (u64 (doc s + 1) = doc s + 1) as ->.
        { apply wrap_id. unfold unsigned_range. unfold INVALID_ROWID in Hrd. lia. }
        rewrite HN by lia. rewrite <- Hc1. apply HN2. lia.
      * rewrite Hbits2, Hbits1, Hc1. apply set_eq. intros o. rewrite !elem_of_union, !elem_of_rows_in, elem_of_singleton.
        assert (Hskip : forall o, RowID g o ∈ X -> doc s - RowID g 0 + 1 <= o -> doc s1 - RowID g 0 <= o).
        { intros o' Ho' Hle'. rewrite Hs1. pose proof (least_first X (doc s + 1) Hr (RowID g o') Ho'). unfold RowID in *. lia. }
        assert (Hthis : RowID g (doc s - RowID g 0) = doc s) by (unfold RowID; lia).
        split.
        -- intros [[->|?]|[? ?]]; [right; rewrite Hthis; split; [done|lia]|by left|right; split; [done|lia]].
        -- intros [?|[Ho1 Ho2]]; [by left; right|]. destruct (decide (o = doc s - RowID g 0)) as [->|]; [by left; left|]. right. split; [done|].
           split; [|lia]. apply Hskip; [done|lia].
  - exists 1%nat, b. split_and!; try done.
    + intros [|F] HF; [lia|]. cbn [filter_loop]. by rewrite Hdoc, (proj2 (Z.ltb_ge _ _)).
    + apply set_eq. intros o. rewrite elem_of_union, elem_of_rows_in. unfold RowID in *. split; [by left|]. intros [?|[_ ?]]; [done|lia].
Qed.


Lemma pass_rows it (tree : QueryNode) (params : CreateSearchParams) (g n : Z) :
  I it Fresh -> CreateSearch index_reader tree params true = Ok (Some it) -> unsigned_range 32 g -> RowID g 0 < limit -> unsigned_range 32 n ->
  exists N (b : Bitmask R), (forall fuel, (N <= fuel)%nat -> Evaluate index_reader fuel tree params g n = Some (Ok b)) /\
  Bitmask.bitmask_ok b /\ forall o, o ∈ Bitmask.bits b <-> RowID g o ∈ X /\ 0 <= o < n.
Proof.
  intros Hfresh Ec Hg Hlim Hc. unfold Evaluate. set (b0 := Bitmask.SetAllFalse (Bitmask.make n)).
  destruct (Bitmask.empty_bitmask n Hc) as (Hb0 & Hc0 & Hbits0). fold b0 in Hb0, Hc0, Hbits0.
  assert (Ht : target (RowID g 0)) by (unfold target, RowID, INVALID_ROWID, unsigned_range in *; lia).
  destruct (pass_next _ _ HI it Fresh _ Hfresh ltac:(by cbn; tauto) Ht) as (N & it1 & HN & Hg1). pose proof (pass_range _ _ HI) as Hr.
  pose proof (advance_ge X Fresh _ Ht) as Hge1. set (s1 := advance X Fresh (RowID g 0)) in *.
  assert (Hrows : forall o, RowID g o ∈ X -> 0 <= o -> doc s1 - RowID g 0 <= o).
  { intros o Hx Ho. assert (Hs1 : doc s1 = default INVALID_ROWID (least X (RowID g 0))) by (by apply advance_doc). rewrite Hs1.
    pose proof (least_first X (RowID g 0) Hr _ Hx). unfold RowID in *. lia. }
  destruct (bool_decide_reflect (doc s1 <> INVALID_ROWID)) as [Hd|Hd].
  - destruct (filter_loop_spec it1 s1 g b0 Hg1 Hb0 (advance_not_fresh _ _ _) Hg Hge1) as (N2 & b & HN2 & Hb & Hcb & Hbits).
    destruct (Bitmask.optimize_ok b Hb) as (Hb' & Hc' & Hbits'). exists (N `max` N2)%nat, (Bitmask.RunOptimize b). split_and!; [|done|].
    + intros F HF. rewrite Ec, HN by lia. rewrite <- Hc0. by rewrite HN2 by lia.
    + intros o. rewrite Hbits', Hbits, Hbits0, elem_of_union, elem_of_rows_in, Hc0. split; [intros [Ho|[Ho1 Ho2]]; [set_solver|]; split; [done|lia]|].
      intros [Ho1 Ho2]. right. split; [done|]. split; [apply Hrows; [done|lia]|lia].
  - exists N, b0. split_and!; [intros F HF; by rewrite Ec, HN|done|]. intros o. rewrite Hbits0. split; [set_solver|].
    intros [Ho1 Ho2]. specialize (Hrows o Ho1 ltac:(lia)). apply dec_stable in Hd. unfold RowID, INVALID_ROWID, unsigned_range in *. lia.
Qed.
End pass.

(** The whole filter: [Y] are the documents that the search stands for. *)
Lemma evaluate_rows (Y : gset Z) (tree : QueryNode) (params : CreateSearchParams) (g n : Z) (f : Z -> bool) :
  match CreateSearch index_reader tree params true with
  | Err _ => False
  | Ok None => forall x, f x = false
  | Ok (Some it) => (forall x, x ∈ Y <-> f x = true) /\ exists J, one_pass Y J /\ J it Fresh
  end -> unsigned_range 32 g -> RowID g 0 < limit -> unsigned_range 32 n ->
  exists N (b : Bitmask R), (forall fuel, (N <= fuel)%nat -> Evaluate index_reader fuel tree params g n = Some (Ok b)) /\
  forall o, 0 <= o -> Bitmask.IsTrue o b = (o <? n) && f (RowID g o).
Proof.
  intros Hf Hg Hlim Hc. destruct (CreateSearch index_reader tree params true) as [[it|]|] eqn:Ec; [| |done].
  - destruct Hf as (HY & J & HJ & Hf). destruct (pass_rows Y J HJ it tree params g n Hf Ec Hg Hlim Hc) as (N & b & HN & Hb & Hbits).
    exists N, b. split; [done|]. intros o Ho. rewrite Bitmask.IsTrue_bits by done.
    apply eq_true_iff_eq. rewrite bool_decide_eq_true, Hbits, andb_true_iff, Z.ltb_lt, HY. intuition.
  - destruct (Bitmask.empty_bitmask n Hc) as (Hb0 & Hc0 & Hbits0).
    eexists 0%nat, _. split; [intros F _; unfold Evaluate; by rewrite Ec|]. intros o Ho. rewrite Bitmask.IsTrue_bits by done. rewrite Hbits0, Hf, andb_false_r.
    by apply bool_decide_eq_false.
Qed.
End filter.
