(* ===== verification/MinimumMatch.v ===== *)
(** * Cursors over documents with a minimum number of matches: [MinimumShouldMatchIterator]

    Every child is in one of four places: it leads (it stands on the current document), it is ahead
    (in the head heap), it lags (in the tail) or it has ended. Because at most [minimum - 1] children
    lag, no document before the top of the head heap can match; only the top is a candidate, and the
    tail is moved to it until it matches or cannot match any more. *)
From S2P Require Import Prelude DocIterator DocCursor.

(** ** The least element of a list *)
Lemma take_least_nil le l : take_least le l = None -> l = [].
Proof. destruct l as [|x l]; [done|]. cbn. destruct (take_least le l) as [[y rest]|]; [by case_match|done]. Qed.
Lemma take_least_perm le l x rest : take_least le l = Some (x, rest) -> l ≡ₚ x :: rest.
Proof.
  revert x rest. induction l as [|z l IH]; intros x rest E; cbn in E; [done|]. destruct (take_least le l) as [[y r]|] eqn:El.
  - case_match; simplify_eq; [done|]. rewrite (IH _ _ eq_refl). apply Permutation_swap.
  - apply take_least_nil in El as ->. by simplify_eq.
Qed.
Lemma take_least_le (key : nat -> Z) l x rest : take_least (fun a b => key a <=? key b) l = Some (x, rest) -> Forall (fun y => key x <= key y) l.
Proof.
  revert x rest. induction l as [|z l IH]; intros x rest E; cbn in E; [constructor|]. destruct (take_least _ l) as [[y r]|] eqn:El.
  - specialize (IH _ _ eq_refl). destruct (Z.leb_spec (key z) (key y)); simplify_eq; constructor; try lia; [|done].
    eapply Forall_impl; [exact IH|]. cbn. lia.
  - apply take_least_nil in El as ->. simplify_eq. constructor; [lia|constructor].
Qed.

(** ** Counting matches *)
Definition match_count (l : list (gset Z)) (x : Z) : nat := length (filter (fun X => x ∈ X) l).
Section count.
Context (DS : list (gset Z)).
(** Among the sets with some indices. *)
Definition count_in (x : Z) (l : list nat) : nat := length (filter (fun i => x ∈ DS !!! i) l).

Lemma count_in_app x l l' : count_in x (l ++ l') = (count_in x l + count_in x l')%nat.
Proof. unfold count_in. by rewrite filter_app, length_app. Qed.
Lemma count_in_perm x l l' : l ≡ₚ l' -> count_in x l = count_in x l'.
Proof. intros H. unfold count_in. by rewrite H. Qed.
Lemma count_in_le x l : (count_in x l <= length l)%nat.
Proof. apply length_filter. Qed.
Lemma count_in_none x l : Forall (fun i => x ∉ DS !!! i) l -> count_in x l = 0%nat.
Proof. intros H. unfold count_in. induction H as [|i l Hi _ IH]; [done|]. by rewrite filter_cons_False. Qed.
Lemma count_in_all x l : Forall (fun i => x ∈ DS !!! i) l -> count_in x l = length l.
Proof. intros H. unfold count_in. induction H as [|i l Hi _ IH]; [done|]. rewrite filter_cons_True by done. cbn. by rewrite IH. Qed.
End count.
Lemma count_in_shift (X : gset Z) (l : list (gset Z)) x : length (filter (fun i => x ∈ (X :: l) !!! i) (map S (seq 0 (length l)))) = length (filter (fun i => x ∈ l !!! i) (seq 0 (length l))).
Proof.
  generalize (seq 0 (length l)) as js. induction js as [|i js IH]; [done|]. cbn [map].
  destruct (decide (x ∈ l !!! i)) as [H|H]; [rewrite !filter_cons_True by done; cbn; by rewrite IH|by rewrite !filter_cons_False].
Qed.
Lemma match_count_seq (DS : list (gset Z)) x : match_count DS x = count_in DS x (seq 0 (length DS)).
Proof.
  unfold match_count, count_in. induction DS as [|X l IH]; [done|]. cbn [length seq]. rewrite <- seq_shift.
  rewrite (filter_cons _ X), (filter_cons _ 0%nat). pose proof (count_in_shift X l x) as E. cbn [lookup_total list_lookup_total] in *.
  case_decide; cbn [length]; rewrite E, IH; done.
Qed.

Section minimum.
Context {DL : DocLimit} {A : Type} {CO : CursorOf A} {sub : A -> Prop} {CL : CursorLaws A sub}.
Context (cost_of : A -> cost) (M : Z) (HM : 1 <= M) (DS : list (gset Z)).
Implicit Types (m : msm_state A) (ss : list state) (dead l : list nat) (i j : nat).
Notation child_doc := (child_doc c_doc).

(** ** The invariant: [l] are the children that are in no heap and have not ended *)
Record inv (t : Z) l m ss dead : Prop := {
  inv_children : children sub (msm_children m) ss;
  inv_docs : docs_of (msm_children m) = DS;
  inv_parts : l ++ head_heap_ m ++ tail_heap_ m ++ dead ≡ₚ seq 0 (length DS);
  inv_lag : Forall (fun s => lag s t) ss;
  inv_head : Forall (fun i => exists p d, ss !! i = Some (At p d)) (head_heap_ m);
  inv_dead : Forall (fun i => exists p, ss !! i = Some (Done p)) dead;
  inv_tail : Z.of_nat (length (tail_heap_ m)) <= M - 1;
}.

Lemma inv_perm t l l' m ss dead : l ≡ₚ l' -> inv t l m ss dead -> inv t l' m ss dead.
Proof. intros Hp []. split; try done. by rewrite <- Hp. Qed.
Lemma inv_le t t' l m ss dead : t <= t' -> inv t l m ss dead -> inv t' l m ss dead.
Proof. intros Ht []. split; try done. eapply Forall_impl; [exact inv_lag0|]. cbn. intros s Hs. eapply lag_le; [exact Hs|done]. Qed.
Lemma inv_lead t l m ss dead lead : inv t l m ss dead -> inv t l (mkMsm lead (head_heap_ m) (tail_heap_ m) (msm_children m)) ss dead.
Proof. intros []. by split. Qed.
Lemma inv_length t l m ss dead : inv t l m ss dead -> length (msm_children m) = length DS /\ length ss = length DS.
Proof. intros H. rewrite <- (inv_docs _ _ _ _ _ H), length_map. split; [done|]. symmetry. eapply children_length, H. Qed.
Lemma inv_bound t l m ss dead i : inv t l m ss dead -> i ∈ l ++ head_heap_ m ++ tail_heap_ m ++ dead -> (i < length DS)%nat.
Proof. intros H Hi. rewrite (inv_parts _ _ _ _ _ H), elem_of_seq in Hi. lia. Qed.
Lemma inv_distinct t l m ss dead : inv t l m ss dead -> NoDup (l ++ head_heap_ m ++ tail_heap_ m ++ dead).
Proof. intros H. rewrite (inv_parts _ _ _ _ _ H). apply NoDup_seq. Qed.

(** *** Moves between the places *)
Lemma inv_to_head t j l m ss dead p d : inv t (j :: l) m ss dead -> ss !! j = Some (At p d) -> inv t l (PushToHeadHeap j m) ss dead.
Proof.
  intros [] Hj. split; cbn; try done; [|constructor; eauto]. rewrite <- inv_parts0. solve_Permutation.
Qed.
Lemma inv_to_dead t j l m ss dead p : inv t (j :: l) m ss dead -> ss !! j = Some (Done p) -> inv t l m ss (j :: dead).
Proof.
  intros [] Hj. split; cbn; try done; [|constructor; eauto]. rewrite <- inv_parts0. solve_Permutation.
Qed.
Lemma inv_to_tail t j l m ss dead tail : inv t (j :: l) m ss dead -> tail ≡ₚ j :: tail_heap_ m -> Z.of_nat (length tail) <= M - 1 ->
  inv t l (mkMsm (lead_ m) (head_heap_ m) tail (msm_children m)) ss dead.
Proof.
  intros [] Hj Hl. split; cbn; try done. rewrite <- inv_parts0, Hj. solve_Permutation.
Qed.
Lemma inv_from_tail t j l m ss dead rest : inv t l m ss dead -> tail_heap_ m ≡ₚ j :: rest ->
  inv t (j :: l) (mkMsm (lead_ m) (head_heap_ m) rest (msm_children m)) ss dead.
Proof.
  intros [] Hj. split; cbn; try done.
  - rewrite <- inv_parts0, Hj. solve_Permutation.
  - apply Permutation_length in Hj. cbn in Hj. lia.
Qed.
Lemma inv_from_head t j l m ss dead rest : inv t l m ss dead -> head_heap_ m ≡ₚ j :: rest ->
  inv t (j :: l) (mkMsm (lead_ m) rest (tail_heap_ m) (msm_children m)) ss dead.
Proof.
  intros [] Hj. split; cbn; try done.
  - rewrite <- inv_parts0, Hj. solve_Permutation.
  - rewrite Hj in inv_head0. by apply Forall_cons in inv_head0 as [_ ?].
Qed.

(** *** A call of a child *)
Lemma inv_call t j l m ss dead : inv t (j :: l) m ss dead -> target t -> exists N it it' s', msm_children m !! j = Some it /\
  (forall F, (N <= F)%nat -> c_next F t it = Some (bool_decide (doc s' <> INVALID_ROWID), it')) /\
  inv t (j :: l) (set_child j it' m) (<[j:=s']> ss) dead /\ <[j:=s']> ss !! j = Some s' /\ c_doc it' = doc s' /\ t <= doc s' /\
  (doc s' = INVALID_ROWID /\ (exists p, s' = Done p) \/ target (doc s') /\ exists p, s' = At p (doc s')).
Proof.
  intros H Ht. pose proof (inv_bound _ _ _ _ _ j H ltac:(by left)) as Hj. destruct (inv_length _ _ _ _ _ H) as [L1 L2].
  destruct (lookup_lt_is_Some_2 (msm_children m) j) as [it Hit]; [lia|]. destruct (lookup_lt_is_Some_2 ss j) as [s Hs]; [lia|].
  pose proof (inv_distinct _ _ _ _ _ H) as [Hnot _]%NoDup_cons. destruct H as [Hc Hd Hp Hl Hh Hdd Htl].
  destruct (children_lookup _ _ _ _ _ Hc Hit Hs) as [Hsub Hg].
  destruct (child_call it s t Hsub Hg Ht) as (N & it' & HN & Hsub' & Hg' & Hd' & Hdoc & _ & Hge & Hcase).
  assert (Hlag : lag s t) by (by eapply (Forall_lookup_1 _ _ _ _ Hl)). pose proof (advance_lag (c_docs it) s t Hlag) as Hlag'.
  set (s' := advance (c_docs it) s t) in *. exists N, it, it', s'. split_and!; try done.
  - split; cbn; try done.
    + by apply children_insert.
    + rewrite <- Hd, list_fmap_insert, Hd'. apply list_insert_id. by rewrite list_lookup_fmap, Hit.
    + by apply Forall_insert.
    + rewrite Forall_forall in Hh |- *. intros i Hi. rewrite list_lookup_insert_ne; [by apply Hh|]. intros ->. apply Hnot. set_solver.
    + rewrite Forall_forall in Hdd |- *. intros i Hi. rewrite list_lookup_insert_ne; [by apply Hdd|]. intros ->. apply Hnot. set_solver.
  - apply list_lookup_insert_eq. lia.
  - destruct Hcase as [[? Hdn]|?]; [left; split; [done|]|by right]. destruct s'; try done. by eexists.
Qed.

(** ** Children fall behind *)
Definition heads_behind (t : Z) m : nat := length (filter (fun i => child_doc m i < t) (head_heap_ m)).
Definition heads_from (t : Z) m : Prop := Forall (fun i => t <= child_doc m i) (head_heap_ m).

Lemma child_doc_set m j it i : i <> j -> child_doc (set_child j it m) i = child_doc m i.
Proof. intros H. unfold DocIterator.child_doc. cbn. by rewrite list_lookup_insert_ne. Qed.
Lemma child_doc_this m j it : (j < length (msm_children m))%nat -> child_doc (set_child j it m) j = c_doc it.
Proof. intros H. unfold DocIterator.child_doc. cbn. by rewrite list_lookup_insert_eq. Qed.
Lemma behind_set t m j it l : j ∉ l ->
  length (filter (fun i => child_doc (set_child j it m) i < t) l) = length (filter (fun i => child_doc m i < t) l).
Proof.
  induction l as [|i l IH]; intros Hj; [done|]. apply not_elem_of_cons in Hj as [Hi Hj]. specialize (IH Hj).
  pose proof (child_doc_set m j it i ltac:(done)) as E. destruct (decide (child_doc m i < t)).
  - rewrite !filter_cons_True by (rewrite ?E; done). cbn. by rewrite IH.
  - by rewrite !filter_cons_False by (rewrite ?E; done).
Qed.
Lemma inv_not_head t j l m ss dead : inv t (j :: l) m ss dead -> j ∉ head_heap_ m.
Proof. intros H Hj. apply inv_distinct, NoDup_cons in H as [Hnot _]. apply Hnot, elem_of_app. right. apply elem_of_app. by left. Qed.

Lemma lag_behind_spec t j l m ss dead : inv t (j :: l) m ss dead -> target t -> exists N m' ss' dead',
  (forall F, (N <= F)%nat -> lag_behind (c_next F) cost_of M t j m = Some m') /\ inv t l m' ss' dead' /\ lead_ m' = lead_ m /\
  (heads_behind t m' <= heads_behind t m)%nat.
Proof.
  intros H Ht. assert (Hcall : forall k m1, inv t (k :: l) m1 ss dead -> exists N m' ss' dead',
    (forall F, (N <= F)%nat -> match msm_children m1 !! k with
       | None => None
       | Some it => match c_next F t it with
                    | None => None
                    | Some (b, it) => let m := set_child k it m1 in Some (if b then PushToHeadHeap k m else m)
                    end
       end = Some m') /\ inv t l m' ss' dead' /\ lead_ m' = lead_ m1 /\ (heads_behind t m' <= heads_behind t m1)%nat).
  { intros k m1 H1. destruct (inv_call t k l m1 ss dead H1 Ht) as (N & it & it' & s' & Hit & HN & H2 & Hs' & Hdoc & Hge & Hcase).
    pose proof (lookup_lt_Some _ _ _ Hit) as Hlt.
    assert (Hsame : heads_behind t (set_child k it' m1) = heads_behind t m1).
    by (by eapply behind_set, inv_not_head).
    destruct Hcase as [[Hi [p ->]]|[Htd [p Hp]]].
    - exists N, (set_child k it' m1), (<[k:=Done p]> ss), (k :: dead). split_and!; [|by eapply inv_to_dead|done|lia].
      intros F HF. rewrite Hit, HN by done. by rewrite bool_decide_false by tauto.
    - exists N, (PushToHeadHeap k (set_child k it' m1)), (<[k:=s']> ss), dead. split_and!; [|apply (inv_to_head _ _ _ _ _ _ p (doc s')); [done|by rewrite <- Hp]|done|].
      + intros F HF. rewrite Hit, HN by done. by rewrite bool_decide_true by (unfold target in Htd; lia).
      + etrans; [|by apply Nat.eq_le_incl, Hsame]. unfold heads_behind. cbn [PushToHeadHeap head_heap_]. rewrite filter_cons_False; [done|].
        change (child_doc (PushToHeadHeap k (set_child k it' m1)) k) with (child_doc (set_child k it' m1) k). rewrite child_doc_this by done. lia. }
  unfold lag_behind, PushToTailHeap. destruct (Z.ltb_spec (Z.of_nat (length (tail_heap_ m))) (M - 1)) as [Hlt|Hge].
  - exists 0%nat, (mkMsm (lead_ m) (head_heap_ m) (j :: tail_heap_ m) (msm_children m)), ss, dead. split_and!; try done.
    eapply inv_to_tail; [done|done|]. cbn. lia.
  - destruct (take_least (by_cost cost_of m) (tail_heap_ m)) as [[front rest]|] eqn:E; [|by apply Hcall].
    destruct (by_cost cost_of m j front); [by apply Hcall|].
    apply take_least_perm in E. pose proof (inv_from_tail _ _ _ _ _ _ _ H E) as H1. pose proof (Permutation_length E) as El. cbn in El.
    destruct (Hcall front (mkMsm (lead_ m) (head_heap_ m) (j :: rest) (msm_children m))) as (N & m' & ss' & dead' & HN & H2 & Hl & Hb); [|by exists N, m', ss', dead'].
    pose proof (inv_tail _ _ _ _ _ H). apply (inv_perm _ _ (j :: front :: l)) in H1; [|apply Permutation_swap].
    eapply (inv_to_tail _ j (front :: l) _ _ _ (j :: rest)) in H1; [done|done|cbn; lia].
Qed.
Lemma lag_all_spec t l m ss dead : inv t l m ss dead -> target t -> exists N m' ss' dead',
  (forall F, (N <= F)%nat -> lag_all (c_next F) cost_of M t l m = Some m') /\ inv t [] m' ss' dead' /\ lead_ m' = lead_ m.
Proof.
  intros H Ht. revert m ss dead H. induction l as [|j l IH]; intros m ss dead H; [by exists 0%nat, m, ss, dead|].
  destruct (lag_behind_spec t j l m ss dead H Ht) as (N & m1 & ss1 & dead1 & HN & H1 & Hl1 & _).
  destruct (IH m1 ss1 dead1 H1) as (N2 & m2 & ss2 & dead2 & HN2 & H2 & Hl2).
  exists (N `max` N2)%nat, m2, ss2, dead2. split_and!; [|done|congruence]. intros F HF. cbn. rewrite HN by lia. apply HN2. lia.
Qed.

(** ** The top of the head heap *)
Lemma head_top m : (head_heap_ m = [] /\ HeadHeapTop c_doc m = INVALID_ROWID) \/
  exists j rest, take_least (by_doc c_doc m) (head_heap_ m) = Some (j, rest) /\ head_heap_ m ≡ₚ j :: rest /\
    HeadHeapTop c_doc m = child_doc m j /\ heads_from (child_doc m j) m.
Proof.
  unfold HeadHeapTop. destruct (take_least (by_doc c_doc m) (head_heap_ m)) as [[j rest]|] eqn:E.
  - right. exists j, rest. split_and!; try done; [by eapply take_least_perm|]. by eapply (take_least_le (child_doc m)).
  - left. split; [by eapply take_least_nil|done].
Qed.
Lemma head_doc t l m ss dead i : inv t l m ss dead -> i ∈ head_heap_ m -> target (child_doc m i) /\ exists p, p <= t /\ ss !! i = Some (At p (child_doc m i)).
Proof.
  intros H Hi. pose proof (inv_head _ _ _ _ _ H) as Hh. rewrite Forall_forall in Hh. destruct (Hh i Hi) as (p & d & Hs). destruct H as [Hc Hd Hp Hl _ _ _].
  destruct (lookup_lt_is_Some_2 (msm_children m) i) as [it Hit]; [rewrite (children_length _ _ Hc); by eapply lookup_lt_Some|].
  destruct (children_lookup _ _ _ _ _ Hc Hit Hs) as [Hsub Hg]. destruct (cursor_state it _ Hsub Hg) as [Hdoc Hv].
  assert (E : child_doc m i = d) by (unfold DocIterator.child_doc; by rewrite Hit). rewrite E. pose proof (cursor_range it Hsub) as Hr.
  destruct (doc_valid _ _ Hr Hv) as [Hi'|[_ ?]]; [cbn in Hi'; destruct Hv as (_ & Hv & _); specialize (Hr _ Hv); lia|].
  split; [done|]. exists p. split; [|done]. by apply (Forall_lookup_1 _ _ _ _ Hl Hs).
Qed.

Lemma lag_heads_spec t m ss dead : inv t [] m ss dead -> target t -> exists N m' ss' dead',
  (forall F n, (N <= F)%nat -> (N <= n)%nat -> lag_heads c_doc (c_next F) cost_of M n t m = Some m') /\
  inv t [] m' ss' dead' /\ lead_ m' = lead_ m /\ heads_from t m'.
Proof.
  remember (heads_behind t m) as k eqn:Ek. revert m ss dead Ek. induction (lt_wf k) as [k _ IH]. intros m ss dead -> H Ht.
  destruct (Z.ltb_spec (HeadHeapTop c_doc m) t) as [Hlt|Hge].
  - destruct (head_top m) as [[_ Hi]|(j & rest & E & Hp & Htop & Hmin)]; [unfold target in Ht; lia|].
    pose proof (inv_from_head _ _ _ _ _ _ _ H Hp) as H1.
    assert (Hless : (heads_behind t (mkMsm (lead_ m) rest (tail_heap_ m) (msm_children m)) < heads_behind t m)%nat).
    { assert (Hj : child_doc m j < t) by lia. unfold heads_behind. cbn [head_heap_]. rewrite Hp, filter_cons_True by exact Hj. apply Nat.lt_succ_diag_r. }
    destruct (lag_behind_spec t j [] _ ss dead H1 Ht) as (N & m1 & ss1 & dead1 & HN & H2 & Hl1 & Hb).
    destruct (IH (heads_behind t m1) ltac:(lia) m1 ss1 dead1 eq_refl H2 Ht) as (N2 & m2 & ss2 & dead2 & HN2 & H3 & Hl2 & Hf).
    exists (S (N `max` N2)), m2, ss2, dead2. split_and!; [|done|by rewrite Hl2, Hl1|done].
    intros F [|n] HF Hn; [lia|]. cbn. rewrite (proj2 (Z.ltb_lt _ _)) by done. rewrite E, HN by lia. apply HN2; lia.
  - exists 1%nat, m, ss, dead. split_and!; try done; [intros F [|n] _ Hn; [lia|]; cbn; by rewrite (proj2 (Z.ltb_ge _ _))|].
    destruct (head_top m) as [[Hn _]|(j & rest & _ & _ & Htop & Hmin)]; [by unfold heads_from; rewrite Hn|].
    eapply Forall_impl; [exact Hmin|]. cbn. lia.
Qed.

(** ** Candidates *)
Definition leads_at (d : Z) m : Prop := Forall (fun i => child_doc m i = d) (lead_ m).
Lemma collect_lead_spec fuel d t m ss dead : (length (head_heap_ m) <= fuel)%nat -> inv t (lead_ m) m ss dead -> heads_from d m -> leads_at d m -> target d ->
  let m' := collect_lead c_doc fuel d m in inv t (lead_ m') m' ss dead /\ heads_from (d + 1) m' /\ leads_at d m' /\
  tail_heap_ m' = tail_heap_ m.
Proof.
  revert m. induction fuel as [|fuel IH]; intros m Hlen H Hf Hl Hd.
  { cbn. destruct (head_heap_ m) as [|] eqn:E; [|cbn in Hlen; lia]. split_and!; try done. unfold heads_from. rewrite E. constructor. }
  cbn. destruct (Z.eqb_spec (HeadHeapTop c_doc m) d) as [Heq|Hne].
  - destruct (head_top m) as [[_ Hi]|(j & rest & E & Hp & Htop & Hmin)]; [unfold target in Hd; lia|]. rewrite E.
    pose proof (Permutation_length Hp) as El. cbn in El.
    destruct (IH (mkMsm (lead_ m ++ [j]) rest (tail_heap_ m) (msm_children m))) as (H1 & H2 & H3 & H4); try done.
    + cbn. lia.
    + pose proof (inv_from_head _ _ _ _ _ _ _ H Hp) as H1. apply (inv_lead _ _ _ _ _ (lead_ m ++ [j])) in H1. eapply inv_perm; [|exact H1]. cbn. solve_Permutation.
    + unfold heads_from in *. rewrite Hp in Hf. by apply Forall_cons in Hf as [_ ?].
    + unfold leads_at in *. cbn. apply Forall_app. split; [done|]. constructor; [|constructor]. rewrite <- Heq, Htop. done.
  - split_and!; try done. unfold heads_from in *. rewrite Forall_forall in Hf |- *. intros i Hi.
    destruct (head_top m) as [[Hn _]|(j & rest & E & Hp & Htop & Hmin)]; [rewrite Hn in Hi; set_solver|].
    unfold heads_from in Hmin. rewrite Forall_forall in Hmin. specialize (Hmin i Hi).
    assert (d <= child_doc m j); [|lia]. apply Hf. rewrite Hp. by left.
Qed.
Lemma advance_tail_spec d m ss dead : inv d (lead_ m) m ss dead -> heads_from (d + 1) m -> leads_at d m -> target d -> Z.of_nat (length (lead_ m)) < M ->
  exists N b m' ss' dead', (forall F n, (N <= F)%nat -> (N <= n)%nat -> advance_tail c_doc (c_next F) cost_of M n d m = Some (b, m')) /\
  inv d (lead_ m') m' ss' dead' /\ heads_from (d + 1) m' /\ leads_at d m' /\
  (if b : bool then M <= Z.of_nat (length (lead_ m')) else Z.of_nat (length (lead_ m' ++ tail_heap_ m')) < M).
Proof.
  remember (length (tail_heap_ m)) as k eqn:Ek. revert m ss dead Ek. induction k as [|k IH]; intros m ss dead Ek H Hf Hl Hd Hless.
  { exists 1%nat, false, m, ss, dead. symmetry in Ek. apply nil_length_inv in Ek. split_and!; try done; [|by rewrite Ek, app_nil_r].
    intros F [|n] _ Hn; [lia|]. cbn. unfold enough. by rewrite Ek, app_nil_r, (proj2 (Z.leb_gt _ _)). }
  destruct (Z.leb_spec M (Z.of_nat (length (lead_ m ++ tail_heap_ m)))) as [Henough|Hfew].
  2:{ exists 1%nat, false, m, ss, dead. split_and!; try done. intros F [|n] _ Hn; [lia|]. cbn. unfold enough. by rewrite (proj2 (Z.leb_gt _ _)). }
  destruct (take_least (by_cost cost_of m) (tail_heap_ m)) as [[j rest]|] eqn:E; [|apply take_least_nil in E; by rewrite E in Ek].
  pose proof (take_least_perm _ _ _ _ E) as Hp. pose proof (Permutation_length Hp) as El. cbn in El.
  pose proof (inv_from_tail _ _ _ _ _ _ _ H Hp) as H1. set (m1 := mkMsm (lead_ m) (head_heap_ m) rest (msm_children m)) in *.
  destruct (inv_call d j (lead_ m) m1 ss dead H1 Hd) as (N & it & it' & s' & Hit & HN & H2 & Hs' & Hdoc & Hge & Hcase). cbn [msm_children m1] in Hit.
  pose proof (inv_not_head _ _ _ _ _ _ H1) as Hnh. assert (Hnl : j ∉ lead_ m).
  { pose proof (inv_distinct _ _ _ _ _ H1) as [Hn _]%NoDup_cons. intros Hj. apply Hn, elem_of_app. by left. }
  set (m2 := set_child j it' m1) in *. assert (Hthis : child_doc m2 j = doc s').
  { rewrite <- Hdoc. apply child_doc_this. by apply lookup_lt_Some in Hit. }
  assert (Hl2 : leads_at d m2).
  { unfold leads_at in *. rewrite Forall_forall in Hl |- *. intros i Hi. unfold m2. rewrite child_doc_set; [by apply Hl|]. intros ->. done. }
  assert (Hf2 : heads_from (d + 1) m2).
  { unfold heads_from in *. rewrite Forall_forall in Hf |- *. intros i Hi. unfold m2. rewrite child_doc_set; [by apply Hf|]. intros ->. done. }
  assert (Hstep : forall F n, (N <= F)%nat -> advance_tail c_doc (c_next F) cost_of M (S n) d m =
    if negb (bool_decide (doc s' <> INVALID_ROWID)) then advance_tail c_doc (c_next F) cost_of M n d m2
    else if d <? doc s' then advance_tail c_doc (c_next F) cost_of M n d (PushToHeadHeap j m2)
    else let m := mkMsm (lead_ m2 ++ [j]) (head_heap_ m2) (tail_heap_ m2) (msm_children m2) in
         if enough M (lead_ m) then Some (true, m) else advance_tail c_doc (c_next F) cost_of M n d m).
  { intros F n HF. cbn [advance_tail]. unfold enough at 1. rewrite (proj2 (Z.leb_le _ _)) by done. rewrite E. fold m1. cbn [msm_children m1].
    rewrite Hit, HN by done. fold m1. by rewrite Hdoc. }
  assert (Hlen : forall m3 dead3 ss3, length (tail_heap_ m3) = k -> inv d (lead_ m3) m3 ss3 dead3 -> heads_from (d + 1) m3 -> leads_at d m3 -> Z.of_nat (length (lead_ m3)) < M ->
    (forall F n, (N <= F)%nat -> advance_tail c_doc (c_next F) cost_of M (S n) d m = advance_tail c_doc (c_next F) cost_of M n d m3) ->
    exists N b m' ss' dead', (forall F n, (N <= F)%nat -> (N <= n)%nat -> advance_tail c_doc (c_next F) cost_of M n d m = Some (b, m')) /\
    inv d (lead_ m') m' ss' dead' /\ heads_from (d + 1) m' /\ leads_at d m' /\
    (if b : bool then M <= Z.of_nat (length (lead_ m')) else Z.of_nat (length (lead_ m' ++ tail_heap_ m')) < M)).
  { intros m3 dead3 ss3 Hk H3 Hf3 Hl3 Hless3 Hnext. destruct (IH m3 ss3 dead3 (eq_sym Hk) H3 Hf3 Hl3 Hd Hless3) as (N3 & b & m4 & ss4 & dead4 & HN3 & Hrest).
    exists (S (N `max` N3)), b, m4, ss4, dead4. split; [|done]. intros F [|n] HF Hn; [lia|]. rewrite Hnext by lia. apply HN3; lia. }
  destruct Hcase as [[Hi [p ->]]|[Htd [p Hs]]].
  - apply (Hlen m2 (j :: dead) (<[j:=Done p]> ss)); [cbn; lia|by eapply inv_to_dead|done|done|done|].
    intros F n HF. rewrite Hstep by done. by rewrite bool_decide_false by tauto.
  - assert (Hb : bool_decide (doc s' <> INVALID_ROWID) = true) by (apply bool_decide_eq_true; unfold target in Htd; lia). rewrite Hb in Hstep. cbn [negb] in Hstep.
    destruct (Z.ltb_spec d (doc s')) as [Hlt|Heq].
    + apply (Hlen (PushToHeadHeap j m2) dead (<[j:=s']> ss)); [cbn; lia|apply (inv_to_head _ _ _ _ _ _ p (doc s')); [done|by rewrite <- Hs]| |done|done|done].
      unfold heads_from. cbn [PushToHeadHeap head_heap_]. constructor; [|done]. change (child_doc (PushToHeadHeap j m2) j) with (child_doc m2 j). lia.
    + set (m3 := mkMsm (lead_ m2 ++ [j]) (head_heap_ m2) (tail_heap_ m2) (msm_children m2)) in *.
      assert (H3 : inv d (lead_ m3) m3 (<[j:=s']> ss) dead).
      { apply (inv_lead _ _ _ _ _ (lead_ m2 ++ [j])) in H2. eapply inv_perm; [|exact H2]. cbn. solve_Permutation. }
      assert (Hl3 : leads_at d m3). { unfold leads_at. cbn. apply Forall_app. split; [done|]. constructor; [|constructor]. change (child_doc m3 j) with (child_doc m2 j). lia. }
      assert (Hstep3 : forall F n, (N <= F)%nat -> advance_tail c_doc (c_next F) cost_of M (S n) d m =
        if enough M (lead_ m3) then Some (true, m3) else advance_tail c_doc (c_next F) cost_of M n d m3) by exact Hstep.
      destruct (enough M (lead_ m3)) eqn:Ee.
      * exists (S N), true, m3, (<[j:=s']> ss), dead. split_and!; try done; [|by apply Z.leb_le].
        intros F [|n] HF Hn; [lia|]. by apply Hstep3; lia.
      * apply (Hlen m3 dead (<[j:=s']> ss)); [cbn; lia|done|done|done|by apply Z.leb_gt|exact Hstep3].
Qed.

(** ** What the places tell about a document *)
Lemma inv_state t l m ss dead i : inv t l m ss dead -> (i < length DS)%nat -> exists it s, msm_children m !! i = Some it /\ ss !! i = Some s /\
  DS !!! i = c_docs it /\ child_doc m i = doc s /\ valid_state (DS !!! i) s /\ lag s t /\ in_range (DS !!! i).
Proof.
  intros H Hi. destruct (inv_length _ _ _ _ _ H) as [L1 L2]. destruct H as [Hc Hd _ Hl _ _ _].
  destruct (lookup_lt_is_Some_2 (msm_children m) i) as [it Hit]; [lia|]. destruct (lookup_lt_is_Some_2 ss i) as [s Hs]; [lia|].
  destruct (children_lookup _ _ _ _ _ Hc Hit Hs) as [Hsub Hg]. destruct (cursor_state it s Hsub Hg) as [Hdoc Hv].
  assert (E : DS !!! i = c_docs it). { apply list_lookup_total_correct. rewrite <- Hd, list_lookup_fmap, Hit. done. }
  exists it, s. rewrite E. split_and!; try done; [|by apply (Forall_lookup_1 _ _ _ _ Hl Hs)|by apply cursor_range].
  unfold DocIterator.child_doc. by rewrite Hit.
Qed.
Lemma dead_ended t l m ss dead x : inv t l m ss dead -> t <= x -> Forall (fun i => x ∉ DS !!! i) dead.
Proof.
  intros H Hx. pose proof (inv_dead _ _ _ _ _ H) as Hdd. rewrite Forall_forall in Hdd |- *. intros i Hi Hin. destruct (Hdd i Hi) as [p Hs].
  destruct (inv_state _ _ _ _ _ i H) as (it & s & _ & Hs2 & _ & _ & Hv & Hl & _); [eapply inv_bound; [exact H|]; rewrite !elem_of_app; auto|].
  simplify_eq. specialize (Hv x Hin). cbn in Hl. lia.
Qed.
Lemma heads_skip t t' l m ss dead x : inv t l m ss dead -> heads_from t' m -> t <= x < t' -> Forall (fun i => x ∉ DS !!! i) (head_heap_ m).
Proof.
  intros H Hf Hx. unfold heads_from in Hf. rewrite Forall_forall in Hf |- *. intros i Hi Hin. specialize (Hf i Hi).
  destruct (head_doc _ _ _ _ _ i H Hi) as (_ & p & Hp & Hs).
  destruct (inv_state _ _ _ _ _ i H) as (it & s & _ & Hs2 & _ & _ & Hv & _ & _); [eapply inv_bound; [exact H|]; rewrite !elem_of_app; auto|].
  simplify_eq. destruct Hv as (_ & _ & Hv). specialize (Hv x Hin). lia.
Qed.
Lemma leads_match t l m ss dead d : inv t l m ss dead -> leads_at d m -> target d -> Forall (fun i => d ∈ DS !!! i) (lead_ m).
Proof.
  intros H Hl Hd. unfold leads_at in Hl. rewrite Forall_forall in Hl |- *. intros i Hi. specialize (Hl i Hi).
  destruct (decide (i < length DS)%nat) as [Hlt|Hge].
  - destruct (inv_state _ _ _ _ _ i H Hlt) as (it & s & _ & _ & _ & Hdoc & Hv & _ & Hr).
    destruct (doc_valid _ _ Hr Hv) as [?|[? _]]; [unfold target in Hd; lia|congruence].
  - destruct (inv_length _ _ _ _ _ H) as [L1 _]. unfold DocIterator.child_doc in Hl. rewrite lookup_ge_None_2 in Hl by lia. unfold target in Hd. lia.
Qed.
Lemma count_parts t l m ss dead x : inv t l m ss dead ->
  match_count DS x = (count_in DS x l + count_in DS x (head_heap_ m) + count_in DS x (tail_heap_ m) + count_in DS x dead)%nat.
Proof. intros H. rewrite match_count_seq, <- (count_in_perm DS x _ _ (inv_parts _ _ _ _ _ H)), !count_in_app. lia. Qed.
(** Only the children that lag and those in no heap can match before the heads. *)
Lemma count_before t t' l m ss dead x : inv t l m ss dead -> heads_from t' m -> t <= x < t' -> (match_count DS x <= length l + length (tail_heap_ m))%nat.
Proof.
  intros H Hf Hx. rewrite (count_parts _ _ _ _ _ x H), (count_in_none DS x (head_heap_ m)), (count_in_none DS x dead);
    [|eapply dead_ended; [exact H|lia]|by eapply heads_skip].
  pose proof (count_in_le DS x l). pose proof (count_in_le DS x (tail_heap_ m)). lia.
Qed.
Lemma count_rest t m ss dead x : inv t [] m ss dead -> t <= x -> (match_count DS x <= length (tail_heap_ m ++ head_heap_ m))%nat.
Proof.
  intros H Hx. rewrite (count_parts _ _ _ _ _ x H), (count_in_none DS x dead) by (by eapply dead_ended).
  pose proof (count_in_le DS x (head_heap_ m)). pose proof (count_in_le DS x (tail_heap_ m)). rewrite length_app. cbn. lia.
Qed.
Lemma count_leads t m ss dead d : inv t (lead_ m) m ss dead -> leads_at d m -> target d -> (length (lead_ m) <= match_count DS d)%nat.
Proof. intros H Hl Hd. rewrite (count_parts _ _ _ _ _ d H), (count_in_all DS d (lead_ m)) by (by eapply leads_match). lia. Qed.

(** ** The loop *)
Definition matching (x : Z) : Prop := M <= Z.of_nat (match_count DS x).
(** A state on a document that matches. *)
Definition settled_on (d : Z) m : Prop := target d /\ matching d /\ exists ss dead, inv d (lead_ m) m ss dead.
Definition ahead_of (t : Z) : gset Z := filter (fun x => t <= x) (⋃ DS).
Lemma ahead_of_less t d t' : d ∈ ⋃ DS -> t <= d < t' -> (size (ahead_of t') < size (ahead_of t))%nat.
Proof.
  intros Hd Ht. apply subset_size. split; [intros x; unfold ahead_of; rewrite !elem_of_filter; intros [? ?]; split; [lia|done]|].
  intros H. specialize (H d). unfold ahead_of in H. rewrite !elem_of_filter in H. destruct H as [H _]; [split; [lia|done]|]. lia.
Qed.

(** One turn of the loop: the end, a match, or a document that does not match. *)
Notation loop F := (msm_loop c_doc (c_next F) cost_of M).
Lemma msm_turn t m ss dead : inv t (lead_ m) m ss dead -> target t -> exists N d m',
  docs_of (msm_children m') = DS /\
  (d = INVALID_ROWID /\ (forall x, t <= x -> ~ matching x) /\ (forall F n, (N <= F)%nat -> (N <= n)%nat -> loop F (S n) t m = Some (d, m')) \/
   t <= d /\ (forall x, t <= x < d -> ~ matching x) /\
     (settled_on d m' /\ (forall F n, (N <= F)%nat -> (N <= n)%nat -> loop F (S n) t m = Some (d, m')) \/
      ~ matching d /\ target (d + 1) /\ d ∈ ⋃ DS /\ (exists ss' dead', inv d (lead_ m') m' ss' dead') /\
        forall F n, (N <= F)%nat -> (N <= n)%nat -> loop F (S n) t m = loop F n (d + 1) m')).
Proof.
  intros H Ht. apply (inv_lead _ _ _ _ _ []) in H. destruct (lag_all_spec t _ _ ss dead H Ht) as (N1 & m1 & ss1 & dead1 & HN1 & H1 & Hl1).
  destruct (lag_heads_spec t m1 ss1 dead1 H1 Ht) as (N2 & m2 & ss2 & dead2 & HN2 & H2 & Hl2 & Hf2). cbn [lead_] in Hl1. rewrite Hl1 in Hl2.
  destruct (enough M (tail_heap_ m2 ++ head_heap_ m2)) eqn:Ee; unfold enough in Ee.
  2:{ exists (N1 `max` N2)%nat, INVALID_ROWID, m2. split; [by apply (inv_docs _ _ _ _ _ H2)|]. left. split_and!; [done| |].
      - intros x Hx. unfold matching. apply Z.leb_gt in Ee. pose proof (count_rest _ _ _ _ x H2 Hx). lia.
      - intros F n HF Hn. cbn [msm_loop]. rewrite HN1, HN2 by lia. unfold enough. by rewrite Ee. }
  pose proof (inv_tail _ _ _ _ _ H2) as Htl. apply Z.leb_le in Ee. rewrite length_app in Ee.
  destruct (head_top m2) as [[Hn _]|(j & rest & _ & Hp & Htop & Hmin)]; [rewrite Hn in Ee; cbn in Ee; lia|].
  assert (Hj : j ∈ head_heap_ m2) by (rewrite Hp; by left). destruct (head_doc _ _ _ _ _ j H2 Hj) as (Hd & p & _ & Hsj).
  assert (Hjb : (j < length DS)%nat) by (eapply inv_bound; [exact H2|]; rewrite !elem_of_app; auto).
  destruct (inv_state _ _ _ _ _ j H2 Hjb) as (itj & sj & _ & Hsj2 & _ & _ & Hvj & _ & Hrj). rewrite Hsj in Hsj2. injection Hsj2 as <-. destruct Hvj as (_ & Hin & _).
  specialize (Hrj _ Hin). set (d := child_doc m2 j) in *.
  assert (Htd : t <= d) by (unfold heads_from in Hf2; rewrite Forall_forall in Hf2; by apply Hf2).
  assert (Hbefore : forall x, t <= x < d -> ~ matching x).
  { intros x Hx. unfold matching. pose proof (count_before _ _ _ _ _ _ x H2 Hmin Hx) as Hc. cbn in Hc. lia. }
  assert (H2l : inv t (lead_ m2) m2 ss2 dead2) by (by rewrite Hl2).
  destruct (collect_lead_spec (length (head_heap_ m2)) d t m2 ss2 dead2 (le_n _) H2l Hmin) as (H3 & Hf3 & Hl3 & _); [unfold leads_at; by rewrite Hl2|done|].
  set (m3 := collect_lead c_doc (length (head_heap_ m2)) d m2) in *. apply (inv_le _ d) in H3; [|done].
  assert (Hstep : forall F n, (N1 `max` N2 <= F)%nat -> (N2 <= n)%nat -> loop F (S n) t m =
    if enough M (lead_ m3) then Some (d, m3)
    else match advance_tail c_doc (c_next F) cost_of M n d m3 with
         | None => None
         | Some (true, m) => Some (d, m)
         | Some (false, m) => loop F n (u64 (d + 1)) m
         end).
  { intros F n HF Hn. cbn [msm_loop]. rewrite HN1, HN2 by lia. unfold enough at 1. rewrite length_app, (proj2 (Z.leb_le _ _)) by done. cbn [negb]. by rewrite Htop. }
  destruct (enough M (lead_ m3)) eqn:Ee3; unfold enough in Ee3.
  { apply Z.leb_le in Ee3. exists (N1 `max` N2)%nat, d, m3. split; [by apply (inv_docs _ _ _ _ _ H3)|]. right. split; [done|]. split; [done|]. left.
    split; [|intros F n HF Hn; by apply Hstep; lia]. split; [done|]. split; [|by exists ss2, dead2]. unfold matching. pose proof (count_leads _ _ _ _ d H3 Hl3 Hd). lia. }
  apply Z.leb_gt in Ee3. destruct (advance_tail_spec d m3 ss2 dead2 H3 Hf3 Hl3 Hd Ee3) as (N3 & b & m4 & ss4 & dead4 & HN3 & H4 & Hf4 & Hl4 & Hb).
  exists (N1 `max` N2 `max` N3)%nat, d, m4. split; [by apply (inv_docs _ _ _ _ _ H4)|]. right. split; [done|]. split; [done|]. destruct b; [left|right].
  - split; [|intros F n HF Hn; by rewrite Hstep, HN3 by lia]. split; [done|]. split; [|by exists ss4, dead4].
    unfold matching. pose proof (count_leads _ _ _ _ d H4 Hl4 Hd). lia.
  - split_and!; [| | |by exists ss4, dead4|].
    + unfold matching. pose proof (count_before _ _ _ _ _ _ d H4 Hf4 ltac:(lia)) as Hc. rewrite length_app in Hb. lia.
    + unfold target. lia.
    + apply elem_of_union_list. exists (DS !!! j). split; [by apply list_elem_of_lookup_total_2|done].
    + intros F n HF Hn. rewrite Hstep, HN3 by lia. rewrite wrap_id; [done|]. unfold unsigned_range, INVALID_ROWID in *. lia.
Qed.

Lemma msm_loop_spec t m ss dead : inv t (lead_ m) m ss dead -> target t -> exists N d m',
  (forall F n, (N <= F)%nat -> (N <= n)%nat -> loop F n t m = Some (d, m')) /\ docs_of (msm_children m') = DS /\
  (d = INVALID_ROWID /\ (forall x, t <= x -> ~ matching x) \/ t <= d /\ settled_on d m' /\ forall x, t <= x < d -> ~ matching x).
Proof.
  remember (size (ahead_of t)) as k eqn:Ek. revert t m ss dead Ek. induction (lt_wf k) as [k _ IH]. intros t m ss dead -> H Ht.
  destruct (msm_turn t m ss dead H Ht) as (N & d & m1 & Hd1 & [(-> & Hno & HN)|(Htd & Hbefore & [[Hset HN]|(Hno & Ht1 & Hin & (ss1 & dead1 & H1) & HN)])]).
  - exists (S N), INVALID_ROWID, m1. split_and!; [intros F [|n] HF Hn; [lia|]; apply HN; lia|done|by left].
  - exists (S N), d, m1. split_and!; [intros F [|n] HF Hn; [lia|]; apply HN; lia|done|by right].
  - apply (inv_le _ (d + 1)) in H1; [|lia].
    destruct (IH _ (ahead_of_less t d (d + 1) Hin ltac:(lia)) (d + 1) m1 ss1 dead1 eq_refl H1 Ht1) as (N4 & d4 & m5 & HN4 & Hd5 & Hpost).
    exists (S (N `max` N4)), d4, m5. split_and!; [|done|].
    + intros F [|n] HF Hn; [lia|]. rewrite HN by lia. apply HN4; lia.
    + assert (Hup : forall x, t <= x < d + 1 -> ~ matching x).
      { intros x Hx. destruct (decide (x = d)) as [->|]; [done|]. apply Hbefore. lia. }
      destruct Hpost as [[-> Hpost]|(H5 & H6 & H7)]; [left|right].
      * split; [done|]. intros x Hx. destruct (decide (x < d + 1)); [apply Hup; lia|apply Hpost; lia].
      * split_and!; [lia|done|]. intros x Hx. destruct (decide (x < d + 1)); [apply Hup; lia|apply H7; lia].
Qed.

(** ** The call

    A second pass over an iterator that has ended would count children twice (the constructor of
    places runs again while the heaps keep their entries), so the states are those of one pass. *)
Definition msm_docs : gset Z := filter (fun x => M <= Z.of_nat (match_count DS x)) (⋃ DS).
Definition msm_good m (s : state) : Prop :=
  match s with
  | Fresh => head_heap_ m = [] /\ tail_heap_ m = [] /\ exists ss, children sub (msm_children m) ss /\ Forall is_fresh ss
  | At _ d => settled_on d m
  | Done _ => True
  end.
Lemma elem_of_msm_docs x : x ∈ msm_docs <-> matching x.
Proof.
  unfold msm_docs. rewrite elem_of_filter. split; [by intros [? _]|]. intros Hx. split; [done|]. unfold matching, match_count in Hx.
  destruct (filter (fun X => x ∈ X) DS) as [|X l] eqn:E; [cbn in Hx; lia|]. apply elem_of_union_list. exists X.
  apply and_comm, (list_elem_of_filter (fun X => x ∈ X)). rewrite E. by left.
Qed.
Lemma msm_next_spec m s t : docs_of (msm_children m) = DS -> msm_good m s -> ~ is_done s -> target t -> let s' := advance msm_docs s t in exists N m',
  (forall F, (N <= F)%nat -> msm_next c_doc (c_next F) cost_of M F t (doc s) m = Some (doc s', m')) /\
  docs_of (msm_children m') = DS /\ msm_good m' s'.
Proof.
  intros HDS Hg Hnd Ht s'.
  assert (Hloop : forall m1 ss dead, inv t (lead_ m1) m1 ss dead -> s' = at_or msm_docs t -> exists N m',
    (forall F, (N <= F)%nat -> loop F F t m1 = Some (doc s', m')) /\ docs_of (msm_children m') = DS /\ msm_good m' s').
  { intros m1 ss dead H ->. destruct (msm_loop_spec t m1 ss dead H Ht) as (N & d & m' & HN & Hd & [[-> Hno]|(Htd & Hset & Hno)]); exists N, m'.
    - rewrite at_or_Done; [split_and!; [intros F HF; by apply HN|done|done]|]. intros x Hx%elem_of_msm_docs Hle. by apply (Hno x).
    - rewrite (at_or_At _ _ d); [split_and!; [intros F HF; by apply HN|done|done]|apply elem_of_msm_docs, Hset|done|].
      intros x Hx%elem_of_msm_docs Hle. apply Z.nlt_ge. intros Hlt. by apply (Hno x). }
  unfold msm_next. destruct s as [|p d|p]; [| |done].
  - destruct Hg as (Hh & Htl & ss & Hc & Hf). cbn. apply (Hloop _ ss []); [|done]. split; cbn; try done.
    + rewrite Hh, Htl, app_nil_r, <- HDS, length_map. done.
    + eapply Forall_impl; [exact Hf|]. by intros [].
    + rewrite Hh. constructor.
    + rewrite Htl. cbn. lia.
  - destruct Hg as (Htd & Hm & ss & dead & H). cbn [doc]. rewrite (proj2 (Z.eqb_neq d _)) by (unfold target in Htd; lia). destruct (Z.leb_spec t d) as [Hle|Hgt].
    + exists 0%nat, m. unfold s'. cbn. rewrite (proj2 (Z.leb_le _ _)) by done. split_and!; try done. split_and!; [done|done|by exists ss, dead].
    + apply (Hloop _ ss dead); [|unfold s'; cbn; by rewrite (proj2 (Z.leb_gt _ _))]. eapply inv_le; [|exact H]. lia.
Qed.
End minimum.
