(* ===== verification/MinimumResult.v ===== *)
(** * Filters with a minimum number of matching leaves

    [msm_pass]: a [MinimumShouldMatchIterator] runs once over the documents that enough of its children
    have. [minimum_should_match_exact]: a filter for an OR of terms and phrases with any
    minimum sets exactly the bits of the rows that match so many of them, when two leaves have postings and
    the search is exhaustive. *)
From S2P Require Import Prelude Bitmask QueryNode QuerySemantics DocIterator DocCursor DocHeap DocUnion DocTree PostingIterator PostingCursor.
From S2P Require Import FulltextSearch FulltextFilter FulltextResult MinimumMatch.
Import QueryNode.

Section minimum_result.
Context `{PL : PostingLaws}.
Context (index_reader : string -> option (string -> option posting)).
Implicit Types (it : DocIterator) (its cs : list DocIterator) (q : QueryNode) (s : state) (fs : list (Z -> bool)).

(** ** The iterator *)
Definition msm_runs (n : nat) (M : Z) (DS : list (gset Z)) it s : Prop := exists lead head tail cs,
  it = MinimumShouldMatchIterator (doc s) M lead head tail cs /\ map docs cs = DS /\
  msm_good (CO := tree_cursor) (sub := ok n) M DS (mkMsm lead head tail cs) s /\ valid_state (msm_docs M DS) s.
Lemma msm_pass n M DS : 1 <= M -> Forall in_range DS -> one_pass (msm_docs M DS) (msm_runs n M DS).
Proof.
  intros HM HDS. assert (Hr : in_range (msm_docs M DS)).
  { intros x [_ (X & HX & Hx)%elem_of_union_list]%elem_of_filter. rewrite Forall_forall in HDS. by apply (HDS X HX). }
  split; [done| |].
  - intros it s (lead & head & tail & cs & -> & _ & _ & Hv). done.
  - intros it s t (lead & head & tail & cs & -> & Hd & Hg & Hv) Hnd Ht.
    destruct (msm_next_spec (CO := tree_cursor) (sub := ok n) GetEstimateIterateCost M HM DS (mkMsm lead head tail cs) s t Hd Hg Hnd Ht) as (N & [lead' head' tail' cs'] & HN & Hd' & Hg').
    exists (S N), (MinimumShouldMatchIterator (doc (advance (msm_docs M DS) s t)) M lead' head' tail' cs'). split.
    + intros [|F] HF; [lia|]. cbn [Next]. setoid_rewrite HN; [|lia]. by rewrite found_doc.
    + exists lead', head', tail', cs'. split_and!; try done. by apply advance_valid.
Qed.

(** ** Leaves with an iterator *)
Definition hits fs (x : Z) : nat := length (filter (fun f => f x = true) fs).
Lemma hits_cons f fs x : hits (f :: fs) x = ((if f x then 1 else 0) + hits fs x)%nat.
Proof. unfold hits. destruct (f x) eqn:E; [by rewrite filter_cons_True|rewrite filter_cons_False; [done|congruence]]. Qed.
Lemma hits_le fs x : (hits fs x <= length fs)%nat.
Proof. apply length_filter. Qed.
Lemma hits_any fs x : existsb id (map (fun f => f x) fs) = (1 <=? Z.of_nat (hits fs x)).
Proof.
  induction fs as [|f fs IH]; [done|]. rewrite hits_cons. cbn. rewrite IH. unfold id. destruct (f x); cbn; [|done].
  symmetry. apply Z.leb_le. lia.
Qed.
Lemma hits_all fs x : forallb id (map (fun f => f x) fs) = (Z.of_nat (length fs) <=? Z.of_nat (hits fs x)).
Proof.
  induction fs as [|f fs IH]; [done|]. rewrite hits_cons. cbn [map forallb length]. rewrite IH. unfold id. pose proof (hits_le fs x).
  destruct (f x); cbn [andb].
  - destruct (Z.leb_spec (Z.of_nat (length fs)) (Z.of_nat (hits fs x))), (Z.leb_spec (Z.of_nat (S (length fs))) (Z.of_nat (1 + hits fs x))); done || lia.
  - symmetry. apply Z.leb_gt. lia.
Qed.
Lemma hits_docs its fs x : Forall2 stands_for its fs -> match_count (map docs its) x = hits fs x.
Proof.
  induction 1 as [|it f its fs (_ & _ & Hd) _ IH]; [done|]. rewrite hits_cons, <- IH. unfold match_count. cbn [map]. destruct (f x) eqn:E.
  - rewrite filter_cons_True; [done|]. by apply Hd.
  - rewrite filter_cons_False; [done|]. rewrite Hd. congruence.
Qed.

Definition enough_hits (M : Z) fs (x : Z) : bool := Z.max 1 M <=? Z.of_nat (hits fs x).
Definition passes (r : res (option DocIterator)) (f : Z -> bool) : Prop :=
  match r with
  | Err _ => False
  | Ok None => forall x, f x = false
  | Ok (Some it) => exists Y, (forall x, x ∈ Y <-> f x = true) /\ exists J, one_pass Y J /\ J it Fresh
  end.
Lemma stands_pass it f : stands_for it f -> passes (Ok (Some it)) f.
Proof. intros ([n Hok] & Hg & Hd). exists (docs it). split; [done|]. eexists. split; [by apply (tree_pass n)|done]. Qed.
Lemma passes_ext r f g : (forall x, f x = g x) -> passes r f -> passes r g.
Proof. intros E H. destruct r as [[it|]|]; cbn in *; [|intros x; by rewrite <- E|done]. destruct H as (Y & HY & HJ). exists Y. split; [|done]. intros x. by rewrite <- E. Qed.

(** The four ways of an OR of terms and phrases. *)
Lemma kind_passes params its fs : (2 <= length its)%nat -> Forall2 stands_for its fs ->
  passes (GetIterResultT KindOr params its []) (enough_hits (minimum_should_match params) fs).
Proof.
  intros Hlen H. pose proof (Forall2_length _ _ _ H) as El. unfold GetIterResultT, enough_hits. set (M := minimum_should_match params). assert (Hne : its <> []) by (by intros ->; cbn in Hlen; lia).
  destruct (Z.ltb_spec (Z.of_nat (length its)) M) as [Hmore|Hle].
  { intros x. apply Z.leb_gt. pose proof (hits_le fs x). lia. }
  destruct (Z.leb_spec M 1) as [Hone|Htwo].
  { rewrite app_nil_r. eapply passes_ext; [|apply stands_pass, stands_or; done]. intros x. cbv beta. rewrite hits_any, Z.max_l by lia. done. }
  destruct (Z.ltb_spec M (Z.of_nat (length its))) as [Hmid|Hall].
  - unfold make_msm. rewrite (proj2 (Z.ltb_lt _ _)) by lia. cbn. destruct (stands_children its fs H) as ([n Hn] & Hg & _).
    exists (msm_docs M (map docs its)). split.
    + intros x. rewrite (elem_of_msm_docs M ltac:(lia)). unfold matching. rewrite (hits_docs its fs) by done. rewrite Z.leb_le, Z.max_r by lia. done.
    + exists (msm_runs n M (map docs its)). split; [apply msm_pass; [lia|]|].
      * apply Forall_fmap. eapply Forall_impl; [exact Hn|]. intros it. apply docs_range.
      * exists [], [], [], its. split_and!; try done. cbn. split_and!; try done. exists (replicate (length its) Fresh). split; [done|apply replicate_fresh].
  - eapply passes_ext; [|apply stands_pass, stands_make_and; done]. intros x. cbv beta. rewrite hits_all, Z.max_r by lia. do 2 f_equal. lia.
Qed.

(** ** The search of an OR of leaves *)
Definition is_leaf q : Prop := GetType q = TERM \/ GetType q = PHRASE.
(** A leaf has postings: all its terms are in the index. *)
Definition has_postings q : bool :=
  match q with
  | TermQueryNode _ t c _ => match index_reader c with Some lookup => bool_decide (is_Some (lookup t)) | None => false end
  | PhraseQueryNode _ ts c _ => match index_reader c with Some lookup => bool_decide (is_Some (lookup_all lookup ts)) | None => false end
  | _ => false
  end.
(** The leaves that a document matches. *)
Definition leaf_matches (qs : list QueryNode) (x : Z) : nat := length (filter (fun q => row_matches index_reader q x = true) qs).

Lemma leaf_search q params top : index_ok index_reader -> searchable index_reader q -> is_leaf q ->
  if has_postings q then exists it, CreateSearch index_reader q params top = Ok (Some it) /\ stands_for it (row_matches index_reader q)
  else CreateSearch index_reader q params top = Ok None /\ forall x, row_matches index_reader q x = false.
Proof.
  intros Hi Hs Hl. pose proof (create_search_docs index_reader q Hi Hs) as Hf.
  assert (Hq : normal q = true /\ is_not q = false) by (destruct q as [| |[] ? ?]; destruct Hl; try discriminate; done).
  specialize (Hf (proj1 Hq) (proj2 Hq) (mkParams kNaive true 0) false). specialize (Hf ltac:(split; [done|by left])). unfold found_for in Hf.
  destruct q as [w t c p|w ts c sl|[] w cs]; [| |destruct Hl; discriminate..].
  - cbn in *. destruct (index_reader c) as [lookup|]; [|by destruct Hs]. destruct (lookup t) as [pt|]; cbn in *; eauto.
  - cbn in *. destruct Hs as [Hs _]. destruct (index_reader c) as [lookup|]; [|by destruct Hs]. destruct (lookup_all lookup ts) as [ps|]; cbn in *; eauto.
Qed.
Lemma or_iters_leaves qs params : index_ok index_reader -> Forall (searchable index_reader) qs -> Forall is_leaf qs -> exists l fs,
  or_iters params (map (fun c => (GetType c, CreateSearch index_reader c)) qs) = Ok l /\ Forall2 stands_for (map snd l) fs /\
  (forall x, hits fs x = leaf_matches qs x) /\ Forall (fun c => c.1.1 = TERM \/ c.1.1 = PHRASE) l /\ length l = length (filter (fun q => has_postings q = true) qs).
Proof.
  intros Hi. induction qs as [|q qs IH]; intros Hs Hl; [exists [], []; by split_and!|]. apply Forall_cons in Hs as [Hq Hs]. apply Forall_cons in Hl as [Hlq Hl].
  destruct (IH Hs Hl) as (l & fs & E & H1 & H2 & H3 & H4). cbn [map or_iters]. pose proof (leaf_search q params false Hi Hq Hlq) as Hls. destruct (has_postings q) eqn:Eq.
  - destruct Hls as (it & Ec & Hst). rewrite Ec. cbn [res_bind]. rewrite E. cbn [res_bind]. exists ((GetType q, CreateSearch index_reader q, it) :: l), (row_matches index_reader q :: fs).
    split_and!; [done|by constructor| |by constructor|rewrite filter_cons_True by done; cbn; by rewrite H4].
    intros x. rewrite hits_cons, H2. unfold leaf_matches. destruct (row_matches index_reader q x) eqn:Ex; [by rewrite filter_cons_True|].
    rewrite filter_cons_False by congruence. done.
  - destruct Hls as [Ec Hno]. rewrite Ec. cbn [res_bind]. rewrite E. cbn [res_bind]. exists l, fs. split_and!; try done; [|rewrite filter_cons_False by congruence; done].
    intros x. rewrite H2. unfold leaf_matches. rewrite filter_cons_False; [done|]. rewrite Hno. done.
Qed.
Lemma filter_split_none {B} (p : B -> bool) (l : list B) : Forall (fun x => p x = false) l -> filter (fun x => p x = true) l = [] /\ filter (fun x => p x = false) l = l.
Proof.
  induction 1 as [|x l Hx _ [IH1 IH2]]; [done|]. rewrite filter_cons_False, filter_cons_True by congruence. by rewrite IH1, IH2.
Qed.
Lemma or_leaves_pass w qs params : index_ok index_reader -> Forall (searchable index_reader) qs -> Forall is_leaf qs ->
  (2 <= length (filter (fun q => has_postings q = true) qs))%nat -> early_term_algo params = kNaive \/ similarity_is_bm25 params = false ->
  passes (CreateSearch index_reader (MultiQueryNode OrQueryNode w qs) params true)
    (fun x => Z.max 1 (minimum_should_match params) <=? Z.of_nat (leaf_matches qs x)).
Proof.
  intros Hi Hs Hl Hlen Hex. cbn. unfold CreateSearchOr. destruct (or_iters_leaves qs (RemoveMSM params) Hi Hs Hl) as (l & fs & -> & H1 & H2 & H3 & H4). cbn [res_bind].
  destruct (filter_split_none is_keyword l) as [-> ->].
  { eapply Forall_impl; [exact H3|]. intros c Hc. unfold is_keyword. apply bool_decide_eq_false. destruct Hc as [-> | ->]; done. }
  assert (Hall : forallb (fun c : QueryNodeType * search * DocIterator => bool_decide (c.1.1 = TERM \/ c.1.1 = PHRASE)) l && (2 <=? length (map snd l))%nat = true).
  { apply andb_true_iff. split; [|apply Nat.leb_le; rewrite length_map; lia]. apply forallb_forall. intros c Hc%list_elem_of_In. rewrite Forall_forall in H3.
    by apply bool_decide_eq_true, H3. }
  rewrite Hall. apply (passes_ext _ (enough_hits (minimum_should_match params) fs)); [intros x; unfold enough_hits; by rewrite H2|]. cbn [map].
  pose proof (kind_passes params (map snd l) fs ltac:(rewrite length_map; lia) H1) as Hk. cbn [andb].
  destruct l as [|c1 [|c2 l]]; [cbn in H4; lia|cbn in H4; lia|]. set (L := c1 :: c2 :: l) in *. clearbody L. cbn [map]. destruct c1 as [[ty1 sc1] it1].
  destruct Hex as [Ha|Hb].
  - rewrite Ha. rewrite (bool_decide_true (kNaive = kNaive \/ _)) by auto. cbn [negb andb]. rewrite (bool_decide_false (kNaive = kCompare)) by done.
    rewrite (bool_decide_true (kNaive = kNaive)) by done. rewrite andb_false_r. by destruct (similarity_is_bm25 params).
  - rewrite Hb, !andb_false_r. cbn [andb]. done.
Qed.

End minimum_result.

(** ** An example *)
Import RoaringSet.
Definition demo_leaves : list QueryNode :=
  map (fun term => TermQueryNode f32_one term "color" true) ["red"; "blue"; "dark"; "green"]%string.
(** "red" in rows 1, 3 and 4, "blue" in rows 3 and 6, "dark" in rows 4 and 6, "green" in no row. *)
Definition demo_colors (column : string) : option (string -> option IndexPosting) :=
  if bool_decide (column = "color"%string)
  then Some (fun term => if bool_decide (term = "red"%string) then Some (demo_posting [1; 2; 1])
                         else if bool_decide (term = "blue"%string) then Some (demo_posting [3; 3])
                         else if bool_decide (term = "dark"%string) then Some (demo_posting [4; 2]) else None)
  else None.
Lemma demo_colors_ok : @index_ok one_segment disk_posting disk_posting_laws demo_colors.
Proof.
  intros column lookup term p Hc Hp. unfold demo_colors in Hc. case_bool_decide; [|done]. simplify_eq.
  repeat case_bool_decide; simplify_eq; demo_index_wf.
Qed.
