(* ===== verification/FulltextOptions.v ===== *)
(** * The option [minimum_should_match]: [parse_fulltext_options.cpp]

    A list of conditions, separated by spaces: [n], [-n], [p%] or [-p%], each possibly after [k<], which
    asks for more than [k] leaves. Strings are lists of character codes. *)
From stdpp Require Import sorting.
From S2P Require Import Prelude Calendar.

Inductive MinimumShouldMatchValue := MinimumShouldMatchCount (value_ : Z) | MinimumShouldMatchPercentage (value_ : Z).
Abbreviation SingleMinimumShouldMatchOption := (Z * MinimumShouldMatchValue)%type.

(** ** [std::from_chars] for [int], on the whole range *)
Fixpoint number_of (acc : Z) (l : list Z) : option Z :=
  match l with
  | [] => Some acc
  | c :: l => if isdigit c then number_of (acc * 10 + (c - 48)) l else None
  end.
Definition from_chars (l : list Z) : option Z :=
  let '(sign, ds) := match l with 45 :: r => (-1, r) | _ => (1, l) end in
  match ds with
  | [] => None
  | _ => match number_of 0 ds with
         | None => None
         | Some n => if (- 2 ^ 31 <=? sign * n) && (sign * n <? 2 ^ 31) then Some (sign * n) else None
         end
  end.

(** The part before the first ['<'], with its length. *)
Fixpoint find_lt (l : list Z) : option nat :=
  match l with [] => None | c :: l => if c =? 60 then Some 0%nat else S <$> find_lt l end.

Definition ParseSingleMinimumShouldMatchOption (input_str : list Z) : res SingleMinimumShouldMatchOption :=
  let is_percentage := bool_decide (last input_str = Some 37) in
  let len := (length input_str - (if is_percentage then 1 else 0))%nat in
  let? (first, start_val_pos) := (match find_lt input_str with
                                  | None => Ok (0, 0%nat)
                                  | Some separate_pos =>
                                      match from_chars (take separate_pos input_str) with
                                      | None => Err Recoverable
                                      | Some n => check? 0 <? n else Recoverable in Ok (n, S separate_pos)
                                      end
                                  end) in
  check? (start_val_pos <? len)%nat else Recoverable in
  match from_chars (take (len - start_val_pos) (drop start_val_pos input_str)) with
  | None => Err Recoverable
  | Some n =>
      if is_percentage then check? (-100 <=? n) && (n <=? 100) else Recoverable in Ok (first, MinimumShouldMatchPercentage n)
      else Ok (first, MinimumShouldMatchCount n)
  end.

(** The words between spaces. *)
Fixpoint words (word : list Z) (l : list Z) : list (list Z) :=
  let close rest := match word with [] => rest | _ => word :: rest end in
  match l with
  | [] => close []
  | c :: l => if c =? 32 then close (words [] l) else words (word ++ [c]) l
  end.
Fixpoint parse_words (ws : list (list Z)) : res (list SingleMinimumShouldMatchOption) :=
  match ws with
  | [] => Ok []
  | w :: ws => let? o := ParseSingleMinimumShouldMatchOption w in let? l := parse_words ws in Ok (o :: l)
  end.
Definition before (a b : SingleMinimumShouldMatchOption) : Prop := a.1 <= b.1.
#[export] Instance before_dec a b : Decision (before a b).
Proof. unfold before. apply _. Defined.
Fixpoint adjacent_differ (l : list SingleMinimumShouldMatchOption) : bool :=
  match l with a :: (b :: _) as rest => negb (a.1 =? b.1) && adjacent_differ rest | _ => true end.
Definition ParseMinimumShouldMatchOption (input_str : list Z) : res (list SingleMinimumShouldMatchOption) :=
  let? l := parse_words (words [] input_str) in
  let result := merge_sort before l in
  check? adjacent_differ result else Recoverable in Ok result.

(** ** The number of leaves that have to match *)
Definition get_result_from_i64 (leaf_count x : Z) : Z := if 0 <=? x then Z.min x leaf_count else Z.max (x + leaf_count) 0.
Definition option_count (leaf_count : Z) (o : MinimumShouldMatchValue) : res Z :=
  match o with
  | MinimumShouldMatchCount v => Ok (get_result_from_i64 leaf_count v)
  | MinimumShouldMatchPercentage v =>
      check? (-100 <=? v) && (v <=? 100) else Unrecoverable in
      let cnt := Z.quot (v * leaf_count) 100 in
      Ok (get_result_from_i64 leaf_count (if (v <? 0) && (0 <=? cnt) then leaf_count else cnt))
  end.
(** [std::lower_bound] by halving. *)
Fixpoint lower_bound (fuel first len : nat) (leaf_count : Z) (l : list SingleMinimumShouldMatchOption) : nat :=
  match fuel with
  | O => first
  | S fuel =>
      if (len =? 0)%nat then first
      else let half := (len / 2)%nat in
           match l !! (first + half)%nat with
           | Some o => if o.1 <? leaf_count then lower_bound fuel (first + half + 1) (len - half - 1) leaf_count l
                       else lower_bound fuel first half leaf_count l
           | None => first
           end
  end.
Definition GetMinimumShouldMatchParameter (option_vec : list SingleMinimumShouldMatchOption) (leaf_count : Z) : res Z :=
  match option_vec with
  | [] => Ok 0
  | _ =>
      match lower_bound (length option_vec) 0 (length option_vec) leaf_count option_vec with
      | O => Ok leaf_count
      | S pos => match option_vec !! pos with Some (_, match_option) => option_count leaf_count match_option | None => Err Undefined end
      end
  end.

(** ** What the option asks for *)
Definition fewer (leaf_count : Z) (l : list SingleMinimumShouldMatchOption) : list SingleMinimumShouldMatchOption := filter (fun o => o.1 < leaf_count) l.
(** The last condition with fewer leaves decides; without one, all leaves have to match. A negative number counts the leaves that need not match. *)
Definition wanted (leaf_count : Z) (l : list SingleMinimumShouldMatchOption) : Z :=
  match last (fewer leaf_count l) with
  | None => leaf_count
  | Some (_, MinimumShouldMatchCount v) => if 0 <=? v then Z.min v leaf_count else Z.max 0 (leaf_count - - v)
  | Some (_, MinimumShouldMatchPercentage v) => if 0 <=? v then v * leaf_count / 100 else leaf_count - (- v * leaf_count) / 100
  end.
Definition value_ok (v : MinimumShouldMatchValue) : Prop := match v with MinimumShouldMatchCount _ => True | MinimumShouldMatchPercentage v => -100 <= v <= 100 end.
Definition strictly_before (a b : SingleMinimumShouldMatchOption) : Prop := a.1 < b.1.

Lemma single_ok w o : ParseSingleMinimumShouldMatchOption w = Ok o -> value_ok o.2.
Proof.
  unfold ParseSingleMinimumShouldMatchOption. destruct (match find_lt w with None => _ | Some _ => _ end) as [[first start]|]; cbn [res_bind]; [|done].
  set (len := (length w - _)%nat). destruct (start <? len)%nat; [|done]. destruct (from_chars (take (len - start) (drop start w))) as [n|]; [|done].
  destruct (bool_decide _); [|by intros [= <-]]. destruct (Z.leb_spec (-100) n), (Z.leb_spec n 100); cbn; intros E; simplify_eq; cbn; lia.
Qed.
Lemma parse_words_ok ws l : parse_words ws = Ok l -> Forall (fun o => value_ok o.2) l.
Proof.
  revert l. induction ws as [|w ws IH]; intros l E; cbn in E; [by simplify_eq|]. destruct (ParseSingleMinimumShouldMatchOption w) as [o|] eqn:E1; [|done]. cbn in E.
  destruct (parse_words ws) as [l'|]; [|done]. cbn in E. simplify_eq. constructor; [by eapply single_ok|auto].
Qed.
Lemma strict_of_differ l : StronglySorted before l -> adjacent_differ l = true -> StronglySorted strictly_before l.
Proof.
  induction 1 as [|a l Hs IH Hf]; intros Hd; constructor.
  - apply IH. destruct l; [done|]. cbn in Hd. by apply andb_true_iff in Hd as [_ ?].
  - destruct l as [|b l]; [constructor|]. cbn in Hd. apply andb_true_iff in Hd as [Hd _]. apply negb_true_iff, Z.eqb_neq in Hd.
    apply Forall_cons in Hf as [Hab Hf]. unfold before, strictly_before in *. apply StronglySorted_inv in Hs as [_ Hs].
    constructor; [lia|]. rewrite Forall_forall in Hs |- *. intros o Ho. specialize (Hs o Ho). lia.
Qed.
#[local] Instance before_total : Total before.
Proof. intros a b. unfold before. lia. Qed.
#[local] Instance before_trans : Transitive before.
Proof. intros a b c. unfold before. lia. Qed.
Lemma parse_ok s l : ParseMinimumShouldMatchOption s = Ok l -> StronglySorted strictly_before l /\ Forall (fun o => value_ok o.2) l.
Proof.
  unfold ParseMinimumShouldMatchOption. destruct (parse_words _) as [l0|] eqn:E; cbn [res_bind]; [|done]. destruct (adjacent_differ _) eqn:Ed; [|done]. intros [= <-]. split.
  - apply strict_of_differ; [|done]. apply StronglySorted_merge_sort; apply _.
  - rewrite merge_sort_Permutation. by eapply parse_words_ok.
Qed.

(** ** Binary search *)
Lemma option_bound_spec fuel first len leaf l k : (first <= k <= first + len)%nat -> (first + len <= length l)%nat -> (len <= fuel)%nat ->
  (forall i o, l !! i = Some o -> o.1 < leaf <-> (i < k)%nat) -> lower_bound fuel first len leaf l = k.
Proof.
  revert first len. induction fuel as [|fuel IH]; intros first len Hk Hl Hf Hi; cbn [lower_bound]; [lia|]. destruct (Nat.eqb_spec len 0); [lia|].
  assert (Hh : (len / 2 < len)%nat) by (apply Nat.div_lt; lia). set (half := (len / 2)%nat) in *.
  destruct (lookup_lt_is_Some_2 l (first + half)) as [o Ho]; [lia|]. rewrite Ho. destruct (Z.ltb_spec o.1 leaf) as [Hlt|Hge].
  - apply (Hi _ _ Ho) in Hlt. apply IH; [lia|lia|lia|done].
  - apply IH; [|lia|lia|done]. split; [lia|]. apply Nat.nlt_ge. intros Hlt. assert (o.1 < leaf) by (apply (Hi _ _ Ho); lia). lia.
Qed.
Lemma fewer_prefix l leaf : StronglySorted strictly_before l -> (forall i o, l !! i = Some o -> o.1 < leaf <-> (i < length (fewer leaf l))%nat) /\ fewer leaf l = take (length (fewer leaf l)) l.
Proof.
  unfold fewer. induction 1 as [|a l Hs [IH1 IH2] Hf]; [done|]. rewrite filter_cons. destruct (decide (a.1 < leaf)) as [Ha|Ha].
  - split; [|cbn; by f_equal]. intros [|i] o Ho; cbn in *; [simplify_eq; split; [lia|done]|]. rewrite (IH1 i o Ho). lia.
  - assert (Hnil : filter (fun o : SingleMinimumShouldMatchOption => o.1 < leaf) l = []).
    { clear -Hf Ha. induction Hf as [|b l Hab _ IH]; [done|]. unfold strictly_before in Hab. rewrite filter_cons, decide_False by lia. exact IH. }
    rewrite Hnil. split; [|done]. intros i o Ho. split; [|cbn; lia]. intros Hlt. exfalso.
    destruct i as [|i]; cbn in Ho; [simplify_eq; lia|]. rewrite Forall_forall in Hf. specialize (Hf o ltac:(by eapply list_elem_of_lookup_2)). unfold strictly_before in Hf. lia.
Qed.
Lemma option_count_wanted leaf v : 0 <= leaf -> value_ok v -> exists r, option_count leaf v = Ok r /\ 0 <= r <= leaf /\
  r = match v with
      | MinimumShouldMatchCount v => if 0 <=? v then Z.min v leaf else Z.max 0 (leaf - - v)
      | MinimumShouldMatchPercentage v => if 0 <=? v then v * leaf / 100 else leaf - (- v * leaf) / 100
      end.
Proof.
  intros Hleaf Hv. destruct v as [v|v]; cbn [option_count value_ok] in *; unfold get_result_from_i64.
  - eexists. split; [done|]. destruct (Z.leb_spec 0 v); lia.
  - rewrite (proj2 (Z.leb_le (-100) v)), (proj2 (Z.leb_le v 100)) by lia. cbn [andb]. eexists. split; [done|]. destruct (Z.leb_spec 0 v) as [Hp|Hn].
    + rewrite (proj2 (Z.ltb_ge v 0)) by lia. cbn [andb]. rewrite Z.quot_div_nonneg by nia. pose proof (Z.div_le_upper_bound (v * leaf) 100 leaf ltac:(lia) ltac:(nia)).
      pose proof (Z.div_pos (v * leaf) 100 ltac:(nia) ltac:(lia)). rewrite (proj2 (Z.leb_le _ _)) by done. lia.
    + rewrite (proj2 (Z.ltb_lt v 0)) by lia. cbn [andb]. assert (E : Z.quot (v * leaf) 100 = - (- v * leaf / 100)).
      { replace (v * leaf) with (- (- v * leaf)) by ring. rewrite Z.quot_opp_l by lia. by rewrite Z.quot_div_nonneg by nia. }
      rewrite E. pose proof (Z.div_le_upper_bound (- v * leaf) 100 leaf ltac:(lia) ltac:(nia)). pose proof (Z.div_pos (- v * leaf) 100 ltac:(nia) ltac:(lia)).
      destruct (Z.leb_spec 0 (- (- v * leaf / 100))); [rewrite (proj2 (Z.leb_le 0 leaf)) by lia|rewrite (proj2 (Z.leb_gt _ _)) by lia]; lia.
Qed.

(** C34. The number of leaves that have to match is within bounds and is the one the option asks for: every
    option that is parsed gives, for a tree with [leaf_count] leaves, a number from 0 to [leaf_count],
    without an error. The conditions may come in any order; the last one that asks for fewer leaves than
    there are decides, found by binary search, and without any all leaves have to match. *)
Theorem minimum_should_match_bounds (input_str : list Z) (option_vec : list SingleMinimumShouldMatchOption) (leaf_count : Z) :
  ParseMinimumShouldMatchOption input_str = Ok option_vec -> 0 <= leaf_count -> exists r,
  GetMinimumShouldMatchParameter option_vec leaf_count = Ok r /\ 0 <= r <= leaf_count /\ r = (if decide (option_vec = []) then 0 else wanted leaf_count option_vec).
Proof.
  intros Hp Hleaf. destruct (parse_ok _ _ Hp) as [Hs Hv]. unfold GetMinimumShouldMatchParameter. destruct option_vec as [|o l] eqn:El; [exists 0; split; [done|]; split; [lia|done]|].
  rewrite <- El in *. rewrite decide_False by (by rewrite El). clear El. destruct (fewer_prefix option_vec leaf_count Hs) as [H1 H2].
  assert (Hl : (length (fewer leaf_count option_vec) <= length option_vec)%nat) by apply length_filter.
  rewrite (option_bound_spec _ _ _ _ _ (length (fewer leaf_count option_vec))) by (done || lia). unfold wanted.
  destruct (length (fewer leaf_count option_vec)) as [|n] eqn:En.
  - apply nil_length_inv in En. rewrite En. exists leaf_count. cbn. split; [done|]. split; [lia|done].
  - destruct (lookup_lt_is_Some_2 option_vec n) as [[k v] Ho]; [lia|]. rewrite Ho.
    assert (Hlast : last (fewer leaf_count option_vec) = Some (k, v)).
    { rewrite last_lookup, En. cbn [pred]. rewrite H2. by rewrite lookup_take_lt by lia. }
    rewrite Hlast. apply option_count_wanted; [done|]. by apply (Forall_lookup_1 _ _ _ _ Hv Ho).
Qed.
(** "3<90% -2" for 10 leaves *)
Lemma minimum_should_match_bounds_witness : exists opts r, ParseMinimumShouldMatchOption [51; 60; 57; 48; 37; 32; 45; 50] = Ok opts /\
  GetMinimumShouldMatchParameter opts 10 = Ok r /\ r = 9.
Proof.
  destruct (ParseMinimumShouldMatchOption [51; 60; 57; 48; 37; 32; 45; 50]) as [opts|] eqn:E; [|vm_compute in E; discriminate].
  destruct (minimum_should_match_bounds _ opts 10 E ltac:(lia)) as (r & H1 & H2 & H3). exists opts, r. split; [done|]. split; [done|].
  vm_compute in E. injection E as <-. vm_compute in H3. exact H3.
Defined.
