(* ===== verification/FulltextDefects.v ===== *)
(** * Where full-text search goes wrong

    Runs of the model in which the iterators do not do what they mean to: a posting that reads beyond
    its buffer, a batch that goes back, a phrase that is not found, a minimum that is not
    applied and one that counts a term twice. *)
From S2P Require Import Prelude QueryNode DocIterator DocCursor PostingIterator PostingCursor FulltextSearch FulltextResult.
Import QueryNode.

(** ** Targets of a later segment *)
(** A term of two rows of segment 0. *)
Definition old_term : list SegmentPosting := [mkSegment 0 [(7, 4)] (fun o => if o =? 0 then [3; 4] else [])].
Lemma old_term_wf : @posting_wf one_segment old_term.
Proof. split_and!; [done| |]; cbn; unfold seg_wf, rows_wf, unsigned_range; cbn; split_and!; repeat constructor; cbn; unfold MAX_DOC_PER_RECORD; try lia; try done. Qed.

(** The loop in a block leaves the buffer when all that is left of it does not reach the target. *)
Fixpoint total (l : list Z) : Z := match l with [] => 0 | x :: l => x + total l end.
Lemma total_nonneg l : Forall (Z.le 0) l -> 0 <= total l.
Proof. induction 1; cbn; lia. Qed.
Lemma advance_overruns fuel t cur cursor buffer : Forall (Z.le 0) (drop cursor buffer) -> 0 <= cur -> cur + total (drop cursor buffer) < t -> t <= 2 ^ 64 ->
  PostingIterator.advance_in_block fuel t cur cursor buffer = Err Undefined.
Proof.
  revert cur cursor. induction fuel as [|fuel IH]; intros cur cursor Hf Hc Ht Hm; pose proof (total_nonneg _ Hf) as Hn; cbn [PostingIterator.advance_in_block];
    rewrite (proj2 (Z.ltb_lt cur t)) by lia; destruct (buffer !! cursor) as [d|] eqn:E; [done..| |done].
  rewrite (drop_S _ d cursor E) in Hf, Ht. apply Forall_cons in Hf as [Hd Hf]. cbn in Ht. pose proof (total_nonneg _ Hf). rewrite wrap_id by (unfold unsigned_range; lia). apply IH; [done|lia..].
Qed.
Lemma last_total prev l x : last (sums prev l) = Some x -> x = prev + total l.
Proof.
  revert prev. induction l as [|d l IH]; intros prev; [done|]. cbn [sums]. rewrite last_cons. destruct (last (sums (prev + d) l)) eqn:E.
  - intros [= <-]. rewrite (IH _ E). cbn. lia.
  - intros [= <-]. destruct l; [cbn; lia|]. cbn [sums] in E. rewrite last_cons in E. by destruct (last _).
Qed.
Lemma total_app l l' : total (l ++ l') = total l + total l'.
Proof. induction l; cbn; lia. Qed.
Lemma total_zeros n : total (replicate n 0) = 0.
Proof. induction n; cbn; lia. Qed.


(** C40. A search in a later segment reads beyond the buffer. Take any well-formed posting of one index file that
    starts at row 0, all of whose rows are in segment 0, and a target in a later segment whose offset is
    not behind the last row; such a target, with offset 0, is the first one that the filter of that segment
    asks for. [SkipTo] takes the target modulo [2 ^ 32] and goes to the same block as for the row of
    segment 0 with this offset, and then the loop of [SeekDoc], which looks for the whole target in that
    block, runs past the end of the buffer of 128 documents. *)
Theorem later_segment_overruns_buffer (seg : SegmentPosting) (df g o : Z) : @posting_wf one_segment [seg] -> base_row_id_ seg = 0 -> 1 <= g < 2 ^ 32 -> unsigned_range 32 o ->
  (exists row, row ∈ concat (all_blocks [seg]) /\ o <= row) ->
  let p := PostingIterator.Init [seg] df in
  PostingIterator.SkipTo (RowID g o) p = PostingIterator.SkipTo (RowID 0 o) p /\ (PostingIterator.SkipTo (RowID g o) p).1 = true /\
  PostingIterator.SeekDoc (RowID g o) p = Err Undefined.
Proof.
  intros (_ & [Hseg _] & [Hsort _]) Hbase Hg Ho (row & Hrow & Hle) p. destruct Hseg as (Hitems & _ & _). unfold all_blocks in *. cbn in Hrow, Hsort. rewrite app_nil_r in Hrow, Hsort.
  assert (Hdec : forall g, 0 <= g -> u32 (RowID g o - 0) = o) by (intros g' _; unfold RowID, wrap; rewrite Z.sub_0_r, Z.add_comm, Z.mod_add by done; apply Z.mod_small, Ho).
  pose proof (skip_loop_spec (doc_list seg) o 0 0 0 (skip_list seg) 0 o Hitems) as Hskip. specialize (Hskip ltac:(done) ltac:(done)). specialize (Hskip ltac:(intros; lia)).
  destruct (skip_loop o 0 0 0 (skip_list seg)) as [[[prev off]|] r] eqn:Es.
  2:{ exfalso. destruct Hskip as (_ & _ & _ & Hnil & _). destruct (skip_blocks_suffix o (seg_blocks seg)) as (sk & Esk & Hsk). unfold seg_blocks in Esk at 2. rewrite Hbase, Hnil, app_nil_r in Esk.
      subst sk. pose proof (blocks_rows_below o _ Hsort Hsk) as Hb. rewrite Forall_forall in Hb. specialize (Hb row Hrow). lia. }
  destruct Hskip as (_ & Hcur & _ & _ & Hlast & Hlen & Hpos & Hprev).
  destruct seg as [base items dl]. cbn in Hbase, Es, Hlast, Hlen, Hpos. subst base. set (seg := mkSegment 0 items dl) in *.
  set (m := mkDecoder [seg] 1 0 (mkIndexDecoder (current_doc_id_ r) prev off (GetSkippedItemCount r) r) true).
  set (lowest := if prev =? 0 then u64 (0 + prev) else u64 (u64 (0 + prev) + 1)).
  assert (Hsk : forall g, 0 <= g -> PostingIterator.SkipTo (RowID g o) p =
    (true, mkPosting [seg] df (u64 (0 + prev)) lowest (u64 (0 + current_doc_id_ r)) INVALID_ROWID 0 (replicate MAX_DOC_PER_RECORD 0) false m)).
  { intros g' Hg'. unfold PostingIterator.SkipTo. change (last_doc_id_in_current_block_ p) with INVALID_ROWID. rewrite Z.eqb_refl, orb_true_r.
    change (posting_decoder_ p) with (mkDecoder [seg] 1 0 (CreateIndexDecoder seg) false). unfold MultiPostingDecoder_SkipTo. cbn [length seg_postings_ decoder_skip].
    unfold SkipInOneSegment. cbn [segment_cursor_ seg_postings_ decoder_base_ index_decoder_ need_decode_doc_id_]. change (GetSegmentBaseRowId 1 [seg]) with INVALID_ROWID. rewrite Z.eqb_refl. cbn [negb andb].
    rewrite (proj2 (Z.leb_le 0 (RowID g' o))) by (unfold RowID, unsigned_range in *; lia). rewrite Hdec by done. unfold DecodeSkipList, SkipListReader_SkipTo. cbn [skiplist_reader_ CreateIndexDecoder reader_start current_doc_id_ current_offset_ skipped_item_count_ items_ skip_list seg].
    rewrite Es. reflexivity. }
  rewrite !Hsk by lia. split; [done|]. split; [done|]. unfold PostingIterator.SeekDoc. cbn [segment_postings_ p PostingIterator.Init finish_decode_docid_]. rewrite Z.eqb_refl. cbn [negb andb].
  fold p. rewrite Hsk by lia. set (q := PostingIterator.open_block _). pose proof (last_total _ _ _ Hlast) as Htot. destruct (dl off) as [|d l] eqn:El; [done|].
  apply Forall_cons in Hpos as [Hd Hl]. cbn [total] in Htot. pose proof (total_nonneg l Hl). unfold unsigned_range in *.
  assert (Hbuf : doc_buffer_ q = (d :: l) ++ drop (length (d :: l)) (replicate MAX_DOC_PER_RECORD 0)) by (rewrite <- El; reflexivity).
  assert (Hrow0 : current_row_id_ q = prev + d).
  { transitivity (u64 (u64 (0 + prev) + default 0 (doc_buffer_ q !! 0%nat))); [reflexivity|]. rewrite Hbuf. change (default 0 (((d :: l) ++ _) !! 0%nat)) with d.
    rewrite (wrap_id 64 (0 + prev)) by (unfold unsigned_range; lia). apply wrap_id. unfold unsigned_range. lia. }
  assert (Hdrop : drop (doc_buffer_cursor_ q) (doc_buffer_ q) = l ++ drop (S (length l)) (replicate MAX_DOC_PER_RECORD 0)) by (rewrite Hbuf; reflexivity).
  rewrite (advance_overruns MAX_DOC_PER_RECORD); rewrite ?Hdrop, ?Hrow0.
  - done.
  - apply Forall_app. split; [done|]. apply Forall_drop, Forall_replicate. lia.
  - lia.
  - rewrite total_app, drop_replicate, total_zeros. unfold RowID. lia.
  - unfold RowID. lia.
Qed.
Lemma later_segment_overruns_buffer_witness : PostingIterator.SeekDoc (RowID 1 0) (PostingIterator.Init old_term 2) = Err Undefined /\
  PostingIterator.SeekDoc (RowID 0 0) (PostingIterator.Init old_term 2) <> Err Undefined.
Proof.
  split; [|discriminate]. apply (later_segment_overruns_buffer (mkSegment 0 [(7, 4)] (fun o => if o =? 0 then [3; 4] else [])) 2 1 0).
  - exact old_term_wf.
  - reflexivity.
  - lia.
  - unfold unsigned_range. lia.
  - exists 7. split; [|lia]. apply (bool_decide_unpack _). reflexivity.
Defined.

(** ** A batch goes back *)
(** Rows 1 and 3 of segment 0, row 2 of segment 1. *)
Definition two_segments : IndexPosting :=
  mkIndexPosting (PostingIterator.Init [mkSegment 0 [(3, 4)] (fun o => if o =? 0 then [1; 2] else []);
                                        mkSegment (2 ^ 32) [(2, 4)] (fun o => if o =? 0 then [2] else [])] 3) (fun _ => []) 8.
Definition calls (fuel : nat) (ts : list Z) (it : DocIterator) : option (list Z) :=
  snd <$> foldl (fun acc t => match acc with
                              | None => None
                              | Some (it, ds) => match Next fuel t it with None => None | Some (_, it) => Some (it, ds ++ [DocID it]) end
                              end) (Some (it, [])) ts.
Definition term_calls (ts : list Z) : option (list Z) := calls 20 ts (TermDocIterator INVALID_ROWID two_segments).
Definition batch_calls (ts : list Z) : option (list Z) := calls 20 ts (BatchOrIterator INVALID_ROWID 0 [] [(INVALID_ROWID, two_segments)]).

Lemma batch_or_goes_back :
  term_calls [RowID 0 0; RowID 1 2] = Some [RowID 0 1; RowID 1 2] /\ batch_calls [RowID 0 0; RowID 1 2] = Some [RowID 0 1; RowID 0 3].
Proof. split; vm_compute; reflexivity. Qed.

(** ** Phrases with slop *)
(** A choice of one position per term, counted from the start of the phrase, within the slop. *)
Definition phrase_choice (slop : Z) (positions : list (list Z)) (choice : list Z) : bool :=
  let starts := imap (fun i p => p - Z.of_nat i) choice in
  bool_decide (Forall2 (fun p l => p ∈ l) choice positions) && (foldr Z.max (default 0 (head starts)) starts - foldr Z.min (default 0 (head starts)) starts <=? slop).
Lemma sloppy_phrase_misses : exists slop positions choice, phrase_choice slop positions choice = true /\ Phrase.GetPhraseMatchData slop positions = false.
Proof. by exists 3, [[5]; [8]; [4; 8]], [5; 8; 8]. Qed.

(** ** A minimum without effect *)
(** An index with one term. *)
Definition one_term (column term : string) : option IndexPosting := if bool_decide (term = "red"%string) then Some two_segments else None.
Definition either (column t1 t2 : string) : QueryNode :=
  MultiQueryNode OrQueryNode f32_one [TermQueryNode f32_one t1 column true; TermQueryNode f32_one t2 column true].
Lemma minimum_ignored_for_missing_terms :
  CreateSearch (P := disk_posting) (fun column => Some (one_term column)) (either "color" "red" "blue") (mkParams kNaive true 2) true =
  Ok (Some (TermDocIterator INVALID_ROWID two_segments)).
Proof. reflexivity. Qed.

(** ** The cost of an AND *)
Lemma and_cost_zero `{P : Posting} d (cs : list DocIterator) :
  Forall (fun c => 0 <= priority_ (GetEstimateIterateCost c) /\ 0 <= estimate_cost_ (GetEstimateIterateCost c)) cs -> GetEstimateIterateCost (AndIterator d cs) = mkCost 0 0.
Proof.
  intros H. cbn. induction H as [|c cs Hc _ IH]; [done|]. cbn. unfold cost_min at 2. rewrite decide_True; [exact IH|]. unfold cost_le. cbn. lia.
Qed.

(** ** A second pass of a minimum *)
(** Rows 1, 3 and 12; row 3; row 4. *)
Definition three_terms : DocIterator (P := disk_posting) :=
  MinimumShouldMatchIterator INVALID_ROWID 2 [] [] [] (map (fun rows => TermDocIterator INVALID_ROWID (demo_posting rows)) [[1; 2; 9]; [3]; [4]]).
(** The test for the first call also holds after the end: the places are filled again while the heaps keep
    their entries, the first term counts twice, and its row 12 is found. *)
Lemma minimum_counts_twice_after_end : calls 30 [0; 4; 5] three_terms = Some [3; INVALID_ROWID; 12].
Proof. vm_compute. reflexivity. Qed.
