(* ===== verification/SecondaryIndex.v ===== *)
(** * Secondary indexes: [src/src/storage/secondary_index], [index_filter_evaluators.cpp]

    The index of a column in a segment is a list of chunks, each with its keys in order and their row
    offsets, and an ordered map in memory for the rows that are in no chunk yet. Keys are the ordered
    values of integers, dates and times, or hashes of strings. Chunks are written from the map or by
    merging older chunks. A query for a range of keys asks a PGM index, which is a library, for an
    approximate position and walks from there to the exact ends.

    Chunks have the times of their commit and of their deprecation. Transactions that dump the map or
    merge chunks keep what they did in a [TxnIndexStore], whose commit sets these times. *)
From stdpp Require Import sorting.
From S2P Require Import Prelude Bitmask BlockVersion.

(** ** The PGM index over sorted keys: a range of positions around the place of a key

    [key_min] and [key_max] are the limits of the type of the keys. The library reserves the largest value
    of the type: it refuses keys with it and promises nothing for a search for it. *)
Class PGM := { key_min : Z; key_max : Z; pgm_search : list Z -> Z -> Z * Z }.
(** The number of keys below a value: its place in the keys. *)
Definition rank (v : Z) (keys : list Z) : Z := Z.of_nat (length (filter (fun k => k < v) keys)).
Definition indexable `{PGM} (v : Z) : Prop := key_min <= v < key_max.
Class PGMLaws `{PGM} := {
  pgm_range keys v : StronglySorted Z.le keys -> keys <> [] -> Forall indexable keys -> indexable v ->
    let '(lower, upper) := pgm_search keys v in 0 <= lower <= rank v keys /\ lower < Z.of_nat (length keys) /\ rank v keys <= upper <= Z.of_nat (length keys);
}.

Section secondary.
Context `{PGM}.

(** ** [SecondaryIndexDataT] *)
Record SecondaryIndexData := mkIndexData { chunk_row_count_ : Z; key_ : list Z; offset_ : list Z }.
Definition SearchPGM (v : Z) (index : SecondaryIndexData) : Z * Z := pgm_search (key_ index) v.

(** [BuildIndex] of the PGM index over sorted keys, which raises for the reserved value. *)
Definition BuildIndex (keys : list Z) : res unit :=
  match last keys with
  | Some k => if k =? key_max then Err InvalidArgument else Ok tt
  | None => Ok tt
  end.
(** [InsertData], from the ordered map. *)
Definition InsertData (chunk_row_count : Z) (map : list (Z * Z)) : res SecondaryIndexData :=
  check? Z.of_nat (length map) =? chunk_row_count else Unrecoverable in
  let? _ := BuildIndex map.*1 in
  Ok (mkIndexData chunk_row_count map.*1 map.*2).

(** *** [SecondaryIndexChunkMerger]: the readers with what they have not given yet *)
Definition pair_le (a b : Z * Z) : bool := (a.1 <? b.1) || ((a.1 =? b.1) && (a.2 <=? b.2)).
(** The reader on top of the queue, by key, offset and number, with its pair. *)
Fixpoint queue_top (i : nat) (readers : list (list (Z * Z))) : option (nat * (Z * Z)) :=
  match readers with
  | [] => None
  | r :: readers =>
      match r, queue_top (S i) readers with
      | [], top => top
      | p :: _, None => Some (i, p)
      | p :: _, Some (j, q) => if pair_le p q then Some (i, p) else Some (j, q)
      end
  end.
Fixpoint merge_readers (fuel : nat) (readers : list (list (Z * Z))) : list (Z * Z) :=
  match fuel with
  | O => []
  | S fuel =>
      match queue_top 0 readers with
      | None => []
      | Some (i, p) => p :: merge_readers fuel (alter tail i readers)
      end
  end.
Definition chunk_pairs (index : SecondaryIndexData) : list (Z * Z) := zip (key_ index) (offset_ index).
Definition InsertMergeData (chunk_row_count : Z) (old_chunks : list SecondaryIndexData) : res SecondaryIndexData :=
  let readers := map chunk_pairs old_chunks in
  let pairs := merge_readers (length (concat readers)) readers in
  check? Z.of_nat (length pairs) <=? chunk_row_count else Undefined in
  check? Z.of_nat (length pairs) =? chunk_row_count else Unrecoverable in
  let? _ := BuildIndex pairs.*1 in
  Ok (mkIndexData chunk_row_count pairs.*1 pairs.*2).

(** ** Search in a chunk: [TrunkReaderT]

    Loops that move a position while a test holds for its key. *)
Fixpoint search_forward (fuel : nat) (test : Z -> bool) (pos : nat) (keys : list Z) : res (option nat) :=
  match keys !! pos, fuel with
  | Some k, S fuel =>
      if test k then (if (S pos =? length keys)%nat then Ok None else search_forward fuel test (S pos) keys) else Ok (Some pos)
  | _, _ => Err Undefined
  end.
(** The last position that passed the test; none when the first position passed. *)
Fixpoint search_backward (test : Z -> bool) (pos found : nat) (keys : list Z) : res (option nat) :=
  match keys !! pos with
  | None => Err Undefined
  | Some k => if test k then match pos with O => Ok None | S p => search_backward test p pos keys end else Ok (Some found)
  end.

(** [GetResultCnt]: the positions of the range, [None] for none. *)
Definition GetResultCnt (begin_val end_val : Z) (index : SecondaryIndexData) : res (option (nat * nat)) :=
  let keys := key_ index in
  let begin_pos := u32 (SearchPGM begin_val index).1 in
  let end_pos := Z.min (u32 (SearchPGM end_val index).2) (u32 (chunk_row_count_ index - 1)) in
  if end_pos <? begin_pos then Ok None
  else
    let begin_pos := Z.to_nat begin_pos in
    let end_pos := Z.to_nat end_pos in
    match keys !! begin_pos with
    | None => Err Undefined
    | Some k =>
        let? first := (if k <? begin_val then search_forward (length keys) (fun k => k <? begin_val) begin_pos keys
                       else let? r := search_backward (fun k => begin_val <=? k) begin_pos begin_pos keys in Ok (Some (default 0%nat r))) in
        match first with
        | None => Ok None
        | Some begin_pos =>
            match keys !! end_pos with
            | None => Err Undefined
            | Some k =>
                let? last := (if k <=? end_val then let? r := search_forward (length keys) (fun k => k <=? end_val) end_pos keys in Ok (Some (default (length keys) r))
                              else search_backward (fun k => end_val <? k) end_pos end_pos keys) in
                match last with
                | None => Ok None
                | Some end_pos => Ok (if (end_pos <=? begin_pos)%nat then None else Some (begin_pos, end_pos))
                end
            end
        end
    end.

(** ** The map in memory: [SecondaryIndexInMemT], a [std::multimap] *)
(** [emplace]: behind the pairs with the same key. *)
Fixpoint emplace (key offset : Z) (m : list (Z * Z)) : list (Z * Z) :=
  match m with
  | [] => [(key, offset)]
  | (k, o) :: m => if k <=? key then (k, o) :: emplace key offset m else (key, offset) :: (k, o) :: m
  end.
Definition InsertInner (rows : list (Z * Z)) (m : list (Z * Z)) : list (Z * Z) := foldl (fun m row => emplace row.1 row.2 m) m rows.
Definition Dump (m : list (Z * Z)) : res SecondaryIndexData := InsertData (u32 (Z.of_nat (length m))) m.
(** [lower_bound] to [upper_bound]. *)
Fixpoint lower_bound (b : Z) (m : list (Z * Z)) : list (Z * Z) :=
  match m with [] => [] | (k, o) :: r => if k <? b then lower_bound b r else m end.
Fixpoint until_upper_bound (e : Z) (m : list (Z * Z)) : list (Z * Z) :=
  match m with [] => [] | (k, o) :: m => if k <=? e then (k, o) :: until_upper_bound e m else [] end.

(** ** Chunks of a segment *)
Record ChunkIndexEntry := mkChunk { index_data : SecondaryIndexData; row_count_ : Z; commit_ts_ : Z; deprecate_ts_ : Z }.
Definition NewSecondaryIndexChunkIndexEntry (data : SecondaryIndexData) (row_count : Z) : ChunkIndexEntry := mkChunk data row_count UNCOMMIT_TS UNCOMMIT_TS.
Definition set_commit_ts (ts : Z) (c : ChunkIndexEntry) : ChunkIndexEntry := mkChunk (index_data c) (row_count_ c) ts (deprecate_ts_ c).
Definition Committed (c : ChunkIndexEntry) : bool := negb (commit_ts_ c =? UNCOMMIT_TS).
Definition Commit (ts : Z) (c : ChunkIndexEntry) : ChunkIndexEntry := if commit_ts_ c =? UNCOMMIT_TS then set_commit_ts ts c else c.
Definition DeprecateChunk (ts : Z) (c : ChunkIndexEntry) : ChunkIndexEntry := mkChunk (index_data c) (row_count_ c) (commit_ts_ c) ts.
(** [BaseEntry::CheckVisible] of an entry that has no transaction, as chunks have none. *)
Definition BaseCheckVisible (begin_ts : Z) (c : ChunkIndexEntry) : bool := commit_ts_ c <=? begin_ts.
Definition CheckVisible (begin_ts : Z) (c : ChunkIndexEntry) : bool := (begin_ts <? deprecate_ts_ c) && BaseCheckVisible begin_ts c.

Record SegmentIndexEntry := mkSegmentIndex {
  chunk_index_entries_ : list ChunkIndexEntry;
  memory_secondary_index_ : option (list (Z * Z));
  optimizing_ : bool;
  (** The segment index as an entry of the catalog. *)
  txn_id_ : Z; index_commit_ts_ : Z; checkpoint_ts_ : Z; max_ts_ : Z;
}.
Definition set_chunks cs (i : SegmentIndexEntry) := mkSegmentIndex cs (memory_secondary_index_ i) (optimizing_ i) (txn_id_ i) (index_commit_ts_ i) (checkpoint_ts_ i) (max_ts_ i).
Definition set_memory m (i : SegmentIndexEntry) := mkSegmentIndex (chunk_index_entries_ i) m (optimizing_ i) (txn_id_ i) (index_commit_ts_ i) (checkpoint_ts_ i) (max_ts_ i).
Definition set_optimizing o (i : SegmentIndexEntry) := mkSegmentIndex (chunk_index_entries_ i) (memory_secondary_index_ i) o (txn_id_ i) (index_commit_ts_ i) (checkpoint_ts_ i) (max_ts_ i).
Definition set_max_ts ts (i : SegmentIndexEntry) := mkSegmentIndex (chunk_index_entries_ i) (memory_secondary_index_ i) (optimizing_ i) (txn_id_ i) (index_commit_ts_ i) (checkpoint_ts_ i) ts.

(** ** Writing: the cases of secondary indexes

    [MemIndexInsert], with the keys and offsets of the rows of a block. *)
Definition MemIndexInsert (rows : list (Z * Z)) (commit_ts : Z) (i : SegmentIndexEntry) : SegmentIndexEntry :=
  set_max_ts commit_ts (set_memory (Some (InsertInner rows (default [] (memory_secondary_index_ i)))) i).
(** [MemIndexDump], with the position of the new chunk. *)
Definition MemIndexDump (i : SegmentIndexEntry) : res (SegmentIndexEntry * option nat) :=
  match memory_secondary_index_ i with
  | None => Ok (i, None)
  | Some m =>
      let? data := Dump m in
      let chunk := NewSecondaryIndexChunkIndexEntry data (u32 (Z.of_nat (length m))) in
      Ok (set_memory None (set_chunks (chunk_index_entries_ i ++ [chunk]) i), Some (length (chunk_index_entries_ i)))
  end.
(** [PopulateEntirely], with the rows of the segment; [ts] is the later of the two times of the transaction. *)
Definition PopulateEntirely (rows : list (Z * Z)) (ts : Z) (i : SegmentIndexEntry) : res (SegmentIndexEntry * option nat) :=
  let? (i, chunk) := MemIndexDump (set_memory (Some (InsertInner rows [])) i) in
  Ok (set_max_ts ts i, chunk).

(** *** What a transaction did: [TxnIndexStore], for the index of one segment; chunks by position *)
Record TxnIndexStore := mkIndexStore {
  index_entry_map_ : bool;
  store_chunks_ : list nat;
  optimize_data_ : list (nat * list nat);
  (** [status_ = kOptimizing]. *)
  status_ : bool;
}.
Definition new_index_store : TxnIndexStore := mkIndexStore false [] [] false.
Definition AddChunkIndexStore (chunk : nat) (s : TxnIndexStore) : TxnIndexStore := mkIndexStore true (store_chunks_ s ++ [chunk]) (optimize_data_ s) (status_ s).
Definition AddSegmentOptimizing (s : TxnIndexStore) : TxnIndexStore := mkIndexStore true (store_chunks_ s) (optimize_data_ s) true.
Definition ReplaceChunkIndexEntries (merged : ChunkIndexEntry) (old_chunks : list nat) (s : TxnIndexStore) (i : SegmentIndexEntry) : SegmentIndexEntry * TxnIndexStore :=
  (set_chunks (chunk_index_entries_ i ++ [merged]) i,
   mkIndexStore (index_entry_map_ s) (store_chunks_ s) (optimize_data_ s ++ [(length (chunk_index_entries_ i), old_chunks)]) (status_ s)).

(** [RebuildChunkIndexEntries]: the transaction merges the chunks that it sees. *)
Definition visible_chunks (begin_ts : Z) (i : SegmentIndexEntry) : list (nat * ChunkIndexEntry) :=
  filter (fun c => CheckVisible begin_ts c.2 = true) (imap pair (chunk_index_entries_ i)).
Definition RebuildChunkIndexEntries (begin_ts : Z) (s : TxnIndexStore) (i : SegmentIndexEntry) : res (SegmentIndexEntry * TxnIndexStore) :=
  if optimizing_ i then Ok (i, s)
  else
    let i := set_optimizing true i in
    let old_chunks := visible_chunks begin_ts i in
    let row_count := foldl (fun n c => u32 (n + row_count_ c.2)) 0 old_chunks in
    if (length old_chunks <=? 1)%nat then Ok (i, s)
    else
      let s := AddSegmentOptimizing s in
      let? data := InsertMergeData row_count (map (fun c => index_data c.2) old_chunks) in
      Ok (ReplaceChunkIndexEntries (NewSecondaryIndexChunkIndexEntry data row_count) (map fst old_chunks) s i).

(** *** Commit and rollback *)
Definition alter_chunks (f : ChunkIndexEntry -> ChunkIndexEntry) (ps : list nat) (cs : list ChunkIndexEntry) : list ChunkIndexEntry := foldl (fun cs p => alter f p cs) cs ps.
Definition CommitOptimize (new_chunk : nat) (old_chunks : list nat) (commit_ts : Z) (i : SegmentIndexEntry) : SegmentIndexEntry :=
  set_max_ts commit_ts (set_chunks (alter_chunks (DeprecateChunk commit_ts) old_chunks (alter (Commit commit_ts) new_chunk (chunk_index_entries_ i))) i).
Definition CommitSegmentIndex (txn_id commit_ts : Z) (i : SegmentIndexEntry) : SegmentIndexEntry :=
  let i := set_max_ts commit_ts i in
  if index_commit_ts_ i =? UNCOMMIT_TS
  then mkSegmentIndex (map (Commit commit_ts) (chunk_index_entries_ i)) (memory_secondary_index_ i) (optimizing_ i) txn_id commit_ts commit_ts commit_ts
  else i.
Definition StoreCommit (txn_id commit_ts : Z) (s : TxnIndexStore) (i : SegmentIndexEntry) : SegmentIndexEntry :=
  let i := foldl (fun i o => CommitOptimize o.1 o.2 commit_ts i) i (optimize_data_ s) in
  let chunks := store_chunks_ s ++ concat (map (fun o => o.1 :: o.2) (optimize_data_ s)) in
  let i := if index_entry_map_ s || negb (bool_decide (optimize_data_ s = [])) then CommitSegmentIndex txn_id commit_ts i else i in
  set_chunks (alter_chunks (fun c => if Committed c then c else Commit commit_ts c) chunks (chunk_index_entries_ i)) i.
Definition StoreRollback (abort_ts : Z) (s : TxnIndexStore) (i : SegmentIndexEntry) : SegmentIndexEntry :=
  set_chunks (foldl (fun cs o => alter_chunks (DeprecateChunk abort_ts) o.2 cs) (chunk_index_entries_ i) (optimize_data_ s)) i.
Definition TryRevert (s : TxnIndexStore) (i : SegmentIndexEntry) : SegmentIndexEntry :=
  if status_ s && index_entry_map_ s then set_optimizing false i else i.

(** ** Queries *)
Context {R : Type} `{Roaring R}.

(** Sets the bits of offsets. *)
Fixpoint set_rows (offsets : list Z) (b : Bitmask R) : res (Bitmask R) :=
  match offsets with
  | [] => Ok b
  | o :: offsets => let? b := Bitmask.SetTrue o b in set_rows offsets b
  end.
Definition OutPut (begin_pos end_pos : nat) (index : SecondaryIndexData) (selected_rows : Bitmask R) : res (Bitmask R) :=
  set_rows (take (end_pos - begin_pos) (drop begin_pos (offset_ index))) selected_rows.
Definition RangeQueryInner (segment_row_count b e : Z) (m : list (Z * Z)) : res (Z * Bitmask R) :=
  let rows := until_upper_bound e (lower_bound b m) in
  let? result := set_rows (filter (fun o => o < segment_row_count) rows.*2) (Bitmask.SetAllFalse (Bitmask.make segment_row_count)) in
  Ok (u32 (Z.of_nat (length rows)), Bitmask.RunOptimize result).

Fixpoint execute_chunks (begin_val end_val begin_ts : Z) (chunks : list ChunkIndexEntry) (b : Bitmask R) : res (Bitmask R) :=
  match chunks with
  | [] => Ok b
  | chunk :: chunks =>
      let? b := (if CheckVisible begin_ts chunk
                 then let? found := GetResultCnt begin_val end_val (index_data chunk) in
                      match found with None => Ok b | Some (begin_pos, end_pos) => OutPut begin_pos end_pos (index_data chunk) b end
                 else Ok b) in
      execute_chunks begin_val end_val begin_ts chunks b
  end.
Definition ExecuteSingleRangeT (interval_range : Z * Z) (index_entry : SegmentIndexEntry) (segment_row_count begin_ts : Z) : res (Bitmask R) :=
  let '(begin_val, end_val) := interval_range in
  let? part_result := execute_chunks begin_val end_val begin_ts (chunk_index_entries_ index_entry) (Bitmask.SetAllFalse (Bitmask.make segment_row_count)) in
  let? part_result := (match memory_secondary_index_ index_entry with
                       | None => Ok part_result
                       | Some m =>
                           let? (cnt, rows) := RangeQueryInner segment_row_count begin_val end_val m in
                           if cnt =? 0 then Ok part_result else Bitmask.MergeOr rows part_result
                       end) in
  Ok (Bitmask.RunOptimize part_result).

(** [IndexFilterEvaluatorSecondaryT::Evaluate], with the index of the segment. *)
Fixpoint merge_ranges (pairs : list (Z * Z)) (index_entry : SegmentIndexEntry) (segment_row_count begin_ts : Z) (result : Bitmask R) : res (Bitmask R) :=
  match pairs with
  | [] => Ok result
  | rng :: pairs =>
      let? part_result := ExecuteSingleRangeT rng index_entry segment_row_count begin_ts in
      let? result := Bitmask.MergeOr part_result result in
      merge_ranges pairs index_entry segment_row_count begin_ts result
  end.
Definition EvaluateSecondary (pairs : list (Z * Z)) (index_entry : SegmentIndexEntry) (segment_row_count begin_ts : Z) : res (Bitmask R) :=
  let? result := merge_ranges pairs index_entry segment_row_count begin_ts (Bitmask.SetAllFalse (Bitmask.make segment_row_count)) in
  Ok (Bitmask.RunOptimize result).
End secondary.

(** * Queries find exactly the rows of a range

    [range_search]: the walk from the positions of the PGM index ends at the exact ends of the range.
    [secondary_rows]: the bitmask of a list of ranges has exactly the rows with a key in them.
    [merge_readers_spec]: merging chunks keeps the pairs of keys and offsets, in the order of the keys. *)
(** ** Sorted keys *)
Definition below (v : Z) (keys : list Z) : nat := length (filter (fun k => k < v) keys).
Lemma rank_below v keys : rank v keys = Z.of_nat (below v keys).
Proof. done. Qed.
Lemma below_le v keys : (below v keys <= length keys)%nat.
Proof. apply length_filter. Qed.
Lemma below_mono v w keys : v <= w -> (below v keys <= below w keys)%nat.
Proof.
  intros Hv. unfold below. induction keys as [|k keys IH]; [done|]. rewrite !filter_cons. repeat case_decide; cbn; lia.
Qed.
Lemma below_none v keys : Forall (Z.le v) keys -> below v keys = 0%nat.
Proof. intros Hf. unfold below. induction Hf as [|k keys Hk _ IH]; [done|]. by rewrite filter_cons_False by lia. Qed.
Lemma below_spec v keys p k : StronglySorted Z.le keys -> keys !! p = Some k -> k < v <-> (p < below v keys)%nat.
Proof.
  intros Hs. revert p. induction Hs as [|x keys Hs IH Hx]; intros p Hp; [done|]. unfold below. destruct (decide (x < v)) as [Hlt|Hge].
  - rewrite filter_cons_True by done. destruct p as [|p]; cbn in Hp |- *; [simplify_eq; lia|]. rewrite (IH p Hp). unfold below. lia.
  - rewrite filter_cons_False by done. change (length (filter (fun k0 => k0 < v) keys)) with (below v keys). rewrite below_none.
    + split; [|lia]. intros Hk. assert (x <= k); [|lia]. destruct p as [|p]; cbn in Hp; [simplify_eq; lia|].
      rewrite Forall_forall in Hx. apply Hx. by eapply list_elem_of_lookup_2.
    + eapply Forall_impl; [exact Hx|]. cbn. lia.
Qed.

(** ** The loops *)
Lemma search_forward_spec fuel test pos keys c : (forall p k, keys !! p = Some k -> test k = true <-> (p < c)%nat) -> (c <= length keys)%nat ->
  (pos < length keys)%nat -> (pos <= c)%nat -> (length keys <= fuel + pos)%nat ->
  search_forward fuel test pos keys = Ok (if decide (c = length keys) then None else Some c).
Proof.
  intros Ht Hc. revert pos. induction fuel as [|fuel IH]; intros pos Hp Hpc Hf; [lia|]. cbn [search_forward].
  destruct (lookup_lt_is_Some_2 keys pos Hp) as [k Hk]. rewrite Hk. specialize (Ht pos k Hk) as Htk. destruct (test k) eqn:E.
  - assert (pos < c)%nat by (by apply Htk). destruct (Nat.eqb_spec (S pos) (length keys)) as [En|En]; [rewrite decide_True by lia; done|]. apply IH; lia.
  - assert (~ (pos < c)%nat) by (intros Hx; apply Htk in Hx; congruence). assert (pos = c) as -> by lia. by rewrite decide_False by lia.
Qed.
Lemma search_backward_spec test pos found keys c : (forall p k, keys !! p = Some k -> test k = true <-> (c <= p)%nat) ->
  (pos < length keys)%nat -> ((c <= pos)%nat \/ found = c /\ c = S pos) ->
  search_backward test pos found keys = Ok (if decide (c = 0%nat) then None else Some c).
Proof.
  intros Ht. revert found. induction pos as [|pos IH]; intros found Hp Hcase; cbn.
  - destruct (lookup_lt_is_Some_2 keys 0 Hp) as [k Hk]. rewrite Hk. specialize (Ht 0%nat k Hk). destruct (test k).
    + rewrite decide_True; [done|]. assert (c <= 0)%nat by (by apply Ht). lia.
    + destruct Hcase as [Hc|[-> ->]]; [apply Ht in Hc; discriminate|]. done.
  - destruct (lookup_lt_is_Some_2 keys (S pos) Hp) as [k Hk]. rewrite Hk. specialize (Ht (S pos) k Hk). destruct (test k).
    + apply IH; [lia|]. assert (c <= S pos)%nat by (by apply Ht). destruct (decide (c <= pos)%nat); [by left|right; lia].
    + destruct Hcase as [Hc|[-> ->]]; [apply Ht in Hc; discriminate|]. done.
Qed.

Section search.
Context `{PL : PGMLaws}.

Record chunk_ok (c : SecondaryIndexData) : Prop := {
  co_sorted : StronglySorted Z.le (key_ c);
  co_keys : chunk_row_count_ c = Z.of_nat (length (key_ c));
  co_offsets : length (offset_ c) = length (key_ c);
  co_some : 0 < chunk_row_count_ c < 2 ^ 32;
  co_indexable : Forall indexable (key_ c);
}.

Lemma range_search b e c : chunk_ok c -> b <= e -> indexable b -> indexable e ->
  GetResultCnt b e c = Ok (if decide (below b (key_ c) < below (e + 1) (key_ c))%nat then Some (below b (key_ c), below (e + 1) (key_ c)) else None).
Proof.
  intros [Hs Hn Ho Hsome Hix] Hbe Hb0 He0. set (keys := key_ c) in *. assert (Hne : keys <> []) by (intros E; rewrite E in Hn; cbn in Hn; lia).
  pose proof (pgm_range keys b Hs Hne Hix Hb0) as Hb. pose proof (pgm_range keys e Hs Hne Hix He0) as He. unfold GetResultCnt, SearchPGM. fold keys.
  destruct (pgm_search keys b) as [lb ub], (pgm_search keys e) as [le ue]. cbn [fst snd]. rewrite !rank_below in Hb, He.
  pose proof (below_le b keys) as L1. pose proof (below_le (e + 1) keys) as L2. pose proof (below_le e keys) as L3.
  pose proof (below_mono b e keys Hbe) as M1. pose proof (below_mono e (e + 1) keys ltac:(lia)) as M2.
  rewrite !(wrap_id 32) by (unfold unsigned_range; lia). set (i := below b keys) in *. set (j := below (e + 1) keys) in *.
  destruct (Z.ltb_spec (Z.min ue (chunk_row_count_ c - 1)) lb) as [Hlt|Hge].
  { exfalso. lia. }
  assert (Hi : forall p k, keys !! p = Some k -> k < b <-> (p < i)%nat) by (intros p k Hk; by apply below_spec).
  assert (Hj : forall p k, keys !! p = Some k -> k < e + 1 <-> (p < j)%nat) by (intros p k Hk; by apply below_spec).
  set (bp := Z.to_nat lb). set (ep := Z.to_nat (Z.min ue (chunk_row_count_ c - 1))).
  assert (Hbp : (bp < length keys)%nat) by lia. assert (Hep : (ep < length keys)%nat) by lia. assert (Hbi : (bp <= i)%nat) by lia.
  destruct (lookup_lt_is_Some_2 keys bp Hbp) as [kb Hkb]. destruct (lookup_lt_is_Some_2 keys ep Hep) as [ke Hke]. rewrite Hkb, Hke.
  assert (Hfirst : (if kb <? b then search_forward (length keys) (fun k => k <? b) bp keys
    else let? r := search_backward (fun k => b <=? k) bp bp keys in Ok (Some (default 0%nat r))) = Ok (if decide (i = length keys) then None else Some i)).
  { destruct (Z.ltb_spec kb b) as [Hk|Hk].
    - apply search_forward_spec; [|done|done|done|lia]. intros p k Hp. rewrite Z.ltb_lt. by apply Hi.
    - assert (~ (bp < i)%nat) by (intros Hx; apply (Hi bp kb Hkb) in Hx; lia). rewrite (search_backward_spec _ _ _ _ i); [|intros p k Hp; rewrite Z.leb_le; specialize (Hi p k Hp); lia|done|lia].
      cbn. rewrite (decide_False (P := i = length keys)) by lia. case_decide; cbn; congruence. }
  rewrite Hfirst. cbn [res_bind]. destruct (decide (i = length keys)) as [Ei|Ei]; [by rewrite decide_False by lia|].
  assert (Hlast : (if ke <=? e then let? r := search_forward (length keys) (fun k => k <=? e) ep keys in Ok (Some (default (length keys) r))
    else search_backward (fun k => e <? k) ep ep keys) = Ok (if decide (j = 0%nat) then None else Some j)).
  { destruct (Z.leb_spec ke e) as [Hk|Hk].
    - assert (ep < j)%nat by (apply (Hj ep ke Hke); lia). rewrite (search_forward_spec _ _ _ _ j); [|intros p k Hp; rewrite Z.leb_le; specialize (Hj p k Hp); lia|done|done|lia|lia].
      cbn. rewrite (decide_False (P := j = 0%nat)) by lia. case_decide; cbn; congruence.
    - apply search_backward_spec; [|done|left]; [intros p k Hp; rewrite Z.ltb_lt; specialize (Hj p k Hp); lia|].
      apply Nat.nlt_ge. intros Hx. apply (Hj ep ke Hke) in Hx. lia. }
  rewrite Hlast. cbn [res_bind]. destruct (decide (j = 0%nat)) as [Ej|Ej]; [by rewrite decide_False by lia|].
  destruct (Nat.leb_spec j i); [by rewrite decide_False by lia|by rewrite decide_True by lia].
Qed.

(** ** Rows of a range *)
Context {R : Type} `{RL : RoaringLaws R}.
Implicit Types (bm : Bitmask R).

Lemma set_rows_spec os bm : Bitmask.bitmask_ok bm -> Forall (fun o => 0 <= o < count_ bm) os -> exists bm',
  set_rows os bm = Ok bm' /\ Bitmask.bitmask_ok bm' /\ count_ bm' = count_ bm /\ Bitmask.bits bm' = Bitmask.bits bm ∪ list_to_set os.
Proof.
  revert bm. induction os as [|o os IH]; intros bm Hb Ho; [exists bm; split_and!; try done; set_solver|].
  apply Forall_cons in Ho as [Ho Hos]. destruct (Bitmask.SetTrue_spec bm o Hb Ho) as (b1 & E & Hb1 & Hc1 & Hbits). cbn. rewrite E. cbn.
  rewrite <- Hc1 in Hos. destruct (IH b1 Hb1 Hos) as (b2 & E2 & Hb2 & Hc2 & Hbits2). exists b2. split_and!; [done|done|congruence|]. rewrite Hbits2, Hbits. set_solver.
Qed.
(** The pairs of a chunk at positions of a range. *)
Lemma chunk_slice b e c o : chunk_ok c -> o ∈ take (below (e + 1) (key_ c) - below b (key_ c)) (drop (below b (key_ c)) (offset_ c)) <->
  exists k, (k, o) ∈ chunk_pairs c /\ b <= k <= e.
Proof.
  intros [Hs Hn Ho _ _]. rewrite list_elem_of_lookup. split.
  - intros [p Hp]. apply lookup_take_Some in Hp as [Hp Hlt]. rewrite lookup_drop in Hp.
    destruct (lookup_lt_is_Some_2 (key_ c) (below b (key_ c) + p)) as [k Hk]; [rewrite <- Ho; by eapply lookup_lt_Some|]. exists k. split.
    + apply list_elem_of_lookup. exists (below b (key_ c) + p)%nat. unfold chunk_pairs. rewrite lookup_zip_with, Hk, Hp. done.
    + pose proof (below_spec b _ _ _ Hs Hk). pose proof (below_spec (e + 1) _ _ _ Hs Hk). lia.
  - intros (k & [p Hp]%list_elem_of_lookup & Hk). unfold chunk_pairs in Hp. rewrite lookup_zip_with in Hp.
    destruct (key_ c !! p) as [k'|] eqn:E1; [|done]. cbn in Hp. destruct (offset_ c !! p) as [o'|] eqn:E2; [|done]. cbn in Hp. simplify_eq.
    pose proof (below_spec b _ _ _ Hs E1). pose proof (below_spec (e + 1) _ _ _ Hs E1). exists (p - below b (key_ c))%nat.
    rewrite lookup_take_lt by lia. rewrite lookup_drop, <- E2. f_equal. lia.
Qed.
(** The pairs of the map between the bounds. *)
Lemma mem_slice b e (m : list (Z * Z)) q : StronglySorted (fun p q => p.1 <= q.1) m -> q ∈ until_upper_bound e (lower_bound b m) <-> q ∈ m /\ b <= q.1 <= e.
Proof.
  intros Hs. induction Hs as [|[k o] m Hs IH Hf]; [set_solver|]. cbn. destruct (Z.ltb_spec k b) as [Hlt|Hge].
  - rewrite IH, elem_of_cons. split; [tauto|]. intros [[->|?] ?]; [cbn in *; lia|done].
  - cbn. rewrite Forall_forall in Hf.
    assert (Hmid : lower_bound b m = m). { destruct m as [|[k' o'] m']; [done|]. cbn. assert (k <= k') by (apply (Hf (k', o')); by left). by rewrite (proj2 (Z.ltb_ge _ _)) by lia. }
    rewrite Hmid in IH. destruct (Z.leb_spec k e) as [Hle|Hgt].
    + rewrite !elem_of_cons, IH. split; [intros [->|[? ?]]; [split; [by left|cbn; lia]|tauto]|]. intros [[->|?] ?]; [by left|by right].
    + split; [set_solver|]. intros [[->|Hq]%elem_of_cons ?]; [cbn in *; lia|]. specialize (Hf q Hq). cbn in Hf. lia.
Qed.

Definition chunks_seen (t : Z) (idx : SegmentIndexEntry) : list ChunkIndexEntry := filter (fun c => CheckVisible t c = true) (chunk_index_entries_ idx).
(** The pairs that a transaction sees. *)
Definition seen_pairs (t : Z) (idx : SegmentIndexEntry) (q : Z * Z) : Prop :=
  (exists c, c ∈ chunks_seen t idx /\ q ∈ chunk_pairs (index_data c)) \/ (exists m, memory_secondary_index_ idx = Some m /\ q ∈ m).
(** Chunks hold rows of the segment; the map may hold later ones. *)
Definition chunk_rows (n : Z) (c : ChunkIndexEntry) : Prop := chunk_ok (index_data c) /\ Forall (fun o => 0 <= o < n) (offset_ (index_data c)).
Record segment_index_ok (n t : Z) (idx : SegmentIndexEntry) : Prop := {
  si_chunks : Forall (chunk_rows n) (chunks_seen t idx);
  si_map m : memory_secondary_index_ idx = Some m -> StronglySorted (fun p q => p.1 <= q.1) m /\ Forall (fun q => 0 <= q.2) m /\ Z.of_nat (length m) < 2 ^ 32;
}.

Lemma one_chunk_spec b e c bm : b <= e -> indexable b /\ indexable e -> Bitmask.bitmask_ok bm -> chunk_rows (count_ bm) c -> exists bm',
  (let? found := GetResultCnt b e (index_data c) in match found with None => Ok bm | Some (begin_pos, end_pos) => OutPut begin_pos end_pos (index_data c) bm end) = Ok bm' /\
  Bitmask.bitmask_ok bm' /\ count_ bm' = count_ bm /\ forall o, o ∈ Bitmask.bits bm' <-> o ∈ Bitmask.bits bm \/ exists k, (k, o) ∈ chunk_pairs (index_data c) /\ b <= k <= e.
Proof.
  intros Hbe [Hib Hie] Hb [Hc Hoff]. rewrite (range_search b e _ Hc Hbe Hib Hie). cbn [res_bind]. case_decide as Hd.
  - unfold OutPut. edestruct (set_rows_spec (take (below (e + 1) (key_ (index_data c)) - below b (key_ (index_data c))) (drop (below b (key_ (index_data c))) (offset_ (index_data c)))) bm Hb) as (b1 & E1 & H1 & H2 & H3).
    { apply Forall_take, Forall_drop, Hoff. }
    exists b1. split_and!; try done. intros o. rewrite H3, elem_of_union, elem_of_list_to_set. by rewrite chunk_slice.
  - exists bm. split_and!; try done. intros o. split; [by left|]. intros [?|Hk]; [done|]. rewrite <- (chunk_slice b e _ o Hc) in Hk.
    replace (below (e + 1) (key_ (index_data c)) - below b (key_ (index_data c)))%nat with 0%nat in Hk by lia. cbn in Hk. set_solver.
Qed.
Lemma execute_chunks_spec b e t cs bm : b <= e -> (filter (fun c => CheckVisible t c = true) cs <> [] -> indexable b /\ indexable e) -> Bitmask.bitmask_ok bm -> Forall (chunk_rows (count_ bm)) (filter (fun c => CheckVisible t c = true) cs) -> exists bm',
  execute_chunks b e t cs bm = Ok bm' /\ Bitmask.bitmask_ok bm' /\ count_ bm' = count_ bm /\
  forall o, o ∈ Bitmask.bits bm' <-> o ∈ Bitmask.bits bm \/ exists c k, c ∈ filter (fun c => CheckVisible t c = true) cs /\ (k, o) ∈ chunk_pairs (index_data c) /\ b <= k <= e.
Proof.
  intros Hbe. revert bm. induction cs as [|c cs IH]; intros bm Hix Hb Hcs.
  - exists bm. split_and!; try done. intros o. split; [by left|]. intros [?|(? & ? & ?%not_elem_of_nil & _)]; done.
  - cbn [execute_chunks]. destruct (CheckVisible t c) eqn:Ev.
    + rewrite filter_cons_True in Hcs, Hix |- * by done. apply Forall_cons in Hcs as [Hc Hcs]. destruct (one_chunk_spec b e c bm Hbe (Hix ltac:(done)) Hb Hc) as (b1 & -> & Hb1 & Hc1 & Hbits1).
      cbn [res_bind]. destruct (IH b1 (fun _ => Hix ltac:(done)) Hb1) as (b2 & E2 & Hb2 & Hc2 & Hbits2); [by rewrite Hc1|].
      exists b2. split_and!; [done|done|congruence|]. intros o. rewrite Hbits2, Hbits1. setoid_rewrite elem_of_cons. naive_solver.
    + rewrite filter_cons_False in Hcs, Hix |- * by congruence. cbn [res_bind]. by apply IH.
Qed.
Lemma RangeQuery_spec n b e m : unsigned_range 32 n -> StronglySorted (fun p q => p.1 <= q.1) m -> Forall (fun q => 0 <= q.2) m -> Z.of_nat (length m) < 2 ^ 32 ->
  exists cnt bm, RangeQueryInner n b e m = Ok (cnt, bm) /\ Bitmask.bitmask_ok bm /\ count_ bm = n /\
  (forall o, o ∈ Bitmask.bits bm <-> 0 <= o < n /\ exists k, (k, o) ∈ m /\ b <= k <= e) /\ (cnt = 0 -> Bitmask.bits bm = ∅).
Proof.
  intros Hn Hs Ho Hlen. unfold RangeQueryInner. set (rows := until_upper_bound e (lower_bound b m)). destruct (Bitmask.empty_bitmask (R := R) n Hn) as (Hb0 & Hc0 & Hbits0).
  assert (Hrows : forall o, o ∈ filter (fun o => o < n) rows.*2 <-> 0 <= o < n /\ exists k, (k, o) ∈ m /\ b <= k <= e).
  { intros o. rewrite list_elem_of_filter, list_elem_of_fmap. split.
    - intros [Hlt ([k o'] & -> & Hq)]. unfold rows in Hq. rewrite (mem_slice b e m) in Hq by done. destruct Hq as [Hq Hk]. rewrite Forall_forall in Ho.
      specialize (Ho _ Hq). cbn in *. split; [lia|]. by exists k.
    - intros [Hlt (k & Hq & Hk)]. split; [lia|]. exists (k, o). split; [done|]. unfold rows. by rewrite (mem_slice b e m). }
  destruct (set_rows_spec (filter (fun o => o < n) rows.*2) _ Hb0) as (b1 & E & Hb1 & Hc1 & Hbits1).
  { rewrite Hc0. apply Forall_forall. intros o Hx. by apply Hrows in Hx as [? _]. }
  rewrite E. cbn [res_bind]. destruct (Bitmask.optimize_ok b1 Hb1) as (Hb' & Hc' & Hbits'). eexists _, _. split; [done|]. split_and!; [done|congruence| |].
  - intros o. rewrite Hbits', Hbits1, Hbits0, elem_of_union, elem_of_list_to_set, Hrows. set_solver.
  - rewrite wrap_id.
    + intros Hz. rewrite Hbits', Hbits1, Hbits0. destruct rows; [set_solver|cbn in Hz; lia].
    + assert (Hle : (length rows <= length m)%nat); [|unfold unsigned_range; lia]. unfold rows. clear. transitivity (length (lower_bound b m)).
      * induction (lower_bound b m) as [|[k o] l IH]; cbn; [lia|]. destruct (k <=? e); cbn; lia.
      * induction m as [|[k o] m IH]; cbn; [lia|]. destruct (k <? b); cbn; lia.
Qed.
(** Ranges of keys; the bounds that chunks are searched for are not the reserved value. *)
Definition range_ok (t : Z) (idx : SegmentIndexEntry) (r : Z * Z) : Prop := r.1 <= r.2 /\ (chunks_seen t idx <> [] -> indexable r.1 /\ indexable r.2).
Lemma single_range n t b e idx : unsigned_range 32 n -> segment_index_ok n t idx -> range_ok t idx (b, e) -> exists bm, ExecuteSingleRangeT (b, e) idx n t = Ok bm /\
  Bitmask.bitmask_ok bm /\ count_ bm = n /\ forall o, o ∈ Bitmask.bits bm <-> 0 <= o < n /\ exists k, seen_pairs t idx (k, o) /\ b <= k <= e.
Proof.
  intros Hn [Hch Hmap] [Hbe Hix]. cbn in Hbe, Hix. unfold ExecuteSingleRangeT. destruct (Bitmask.empty_bitmask (R := R) n Hn) as (Hb0 & Hc0 & Hbits0).
  destruct (execute_chunks_spec b e t (chunk_index_entries_ idx) _ Hbe Hix Hb0) as (b1 & E & Hb1 & Hc1 & Hbits1); [by rewrite Hc0|]. rewrite E. cbn [res_bind].
  assert (Hin : forall c k o, c ∈ chunks_seen t idx -> (k, o) ∈ chunk_pairs (index_data c) -> 0 <= o < n).
  { intros c k o Hc Hq. rewrite Forall_forall in Hch. destruct (Hch c Hc) as [_ Hoff]. rewrite Forall_forall in Hoff. apply Hoff.
    unfold chunk_pairs in Hq. by apply elem_of_zip_r in Hq. }
  destruct (memory_secondary_index_ idx) as [m|] eqn:Em.
  - destruct (Hmap m eq_refl) as (Hs & Ho & Hlen). destruct (RangeQuery_spec n b e m Hn Hs Ho Hlen) as (cnt & bm & -> & Hbm & Hcm & Hbm2 & Hz). cbn [res_bind].
    assert (Hor : exists b2, (if cnt =? 0 then Ok b1 else Bitmask.MergeOr bm b1) = Ok b2 /\ Bitmask.bitmask_ok b2 /\ count_ b2 = n /\ Bitmask.bits b2 = Bitmask.bits b1 ∪ Bitmask.bits bm).
    { destruct (Z.eqb_spec cnt 0) as [E0|E0]; [exists b1; split_and!; [done|done|congruence|rewrite (Hz E0); set_solver]|].
      destruct (Bitmask.MergeOr_spec b1 bm Hb1 Hbm) as (b2 & ? & ? & ? & ?); [congruence|]. exists b2. split_and!; try done. congruence. }
    destruct Hor as (b2 & -> & Hb2 & Hc2 & Hbits2). cbn [res_bind]. destruct (Bitmask.optimize_ok b2 Hb2) as (Hb' & Hc' & Hbits').
    eexists. split; [done|]. split_and!; [done|congruence|]. intros o. rewrite Hbits', Hbits2, elem_of_union, Hbits1, Hbits0, Hbm2. unfold seen_pairs, chunks_seen in *. split.
    + intros [[?|(c & k & Hc & Hq & Hk)]|[Ho2 (k & Hq & Hk)]]; [set_solver|split; [by eapply Hin|]; exists k; split; [left; by exists c|done]|].
      split; [done|]. exists k. split; [right; by exists m|done].
    + intros [Ho2 (k & [(c & Hc & Hq)|(m' & Hm & Hq)] & Hk)]; [left; right; by exists c, k|]. assert (m' = m) as -> by congruence. right. split; [done|]. by exists k.
  - cbn [res_bind]. destruct (Bitmask.optimize_ok b1 Hb1) as (Hb' & Hc' & Hbits').
    eexists. split; [done|]. split_and!; [done|congruence|]. intros o. rewrite Hbits', Hbits1, Hbits0. unfold seen_pairs, chunks_seen in *. split.
    + intros [?|(c & k & Hc & Hq & Hk)]; [set_solver|split; [by eapply Hin|]; exists k; split; [left; by exists c|done]].
    + intros [Ho2 (k & [(c & Hc & Hq)|(m' & Hm & Hq)] & Hk)]; [right; by exists c, k|congruence].
Qed.

Definition in_ranges (pairs : list (Z * Z)) (k : Z) : Prop := Exists (fun r => r.1 <= k <= r.2) pairs.
#[export] Instance in_ranges_dec pairs k : Decision (in_ranges pairs k).
Proof. unfold in_ranges. apply _. Defined.
Lemma merge_ranges_spec n t pairs idx bm : unsigned_range 32 n -> segment_index_ok n t idx -> Forall (range_ok t idx) pairs -> Bitmask.bitmask_ok bm -> count_ bm = n ->
  exists bm', merge_ranges pairs idx n t bm = Ok bm' /\ Bitmask.bitmask_ok bm' /\ count_ bm' = n /\
  forall o, o ∈ Bitmask.bits bm' <-> o ∈ Bitmask.bits bm \/ 0 <= o < n /\ exists k, seen_pairs t idx (k, o) /\ in_ranges pairs k.
Proof.
  intros Hn Hidx. revert bm. induction pairs as [|[b e] pairs IH]; intros bm Hp Hb Hc.
  - exists bm. split_and!; try done. intros o. split; [by left|]. intros [?|(_ & k & _ & Hk)]; [done|]. by apply Exists_nil in Hk.
  - apply Forall_cons in Hp as [Hbe Hp]. destruct (single_range n t b e idx Hn Hidx Hbe) as (b1 & E & Hb1 & Hc1 & Hbits1). cbn [merge_ranges]. rewrite E. cbn [res_bind].
    destruct (Bitmask.MergeOr_spec bm b1 Hb Hb1) as (b2 & E2 & Hb2 & Hc2 & Hbits2); [congruence|]. rewrite E2. cbn [res_bind].
    destruct (IH b2 Hp Hb2) as (b3 & E3 & Hb3 & Hc3 & Hbits3); [congruence|]. exists b3. split_and!; try done. intros o. rewrite Hbits3, Hbits2, elem_of_union, Hbits1.
    unfold in_ranges. setoid_rewrite Exists_cons. cbn [fst snd]. split.
    + intros [[?|(? & k & ? & ?)]|(? & k & ? & ?)]; [by left|right; split; [done|]; exists k; auto..].
    + intros [?|(? & k & ? & [?|?])]; [by left; left|left; right|right]; (split; [done|]; by exists k).
Qed.
Lemma secondary_rows n t pairs idx : unsigned_range 32 n -> segment_index_ok n t idx -> Forall (range_ok t idx) pairs -> exists bm,
  EvaluateSecondary pairs idx n t = Ok bm /\ Bitmask.bitmask_ok bm /\ count_ bm = n /\
  forall o, o ∈ Bitmask.bits bm <-> 0 <= o < n /\ exists k, seen_pairs t idx (k, o) /\ in_ranges pairs k.
Proof.
  intros Hn Hidx Hp. unfold EvaluateSecondary. destruct (Bitmask.empty_bitmask (R := R) n Hn) as (Hb0 & Hc0 & Hbits0).
  destruct (merge_ranges_spec n t pairs idx _ Hn Hidx Hp Hb0 Hc0) as (b1 & -> & Hb1 & Hc1 & Hbits1). cbn [res_bind].
  destruct (Bitmask.optimize_ok b1 Hb1) as (Hb' & Hc' & Hbits'). eexists. split; [done|]. split_and!; [done|congruence|].
  intros o. rewrite Hbits', Hbits1, Hbits0. set_solver.
Qed.
End search.

(** ** Chunks keep their pairs *)
Definition key_le (p q : Z * Z) : Prop := p.1 <= q.1.
Lemma queue_top_spec i readers :
  match queue_top i readers with
  | None => Forall (fun r => r = []) readers
  | Some (j, p) => exists n r, j = (i + n)%nat /\ readers !! n = Some (p :: r) /\ Forall (fun r => match r with [] => True | q :: _ => key_le p q end) readers
  end.
Proof.
  revert i. induction readers as [|r readers IH]; intros i; cbn; [constructor|]. specialize (IH (S i)). destruct r as [|p r].
  - destruct (queue_top (S i) readers) as [[j p]|]; [|by constructor]. destruct IH as (n & r & -> & Hn & Hf). exists (S n), r. split_and!; [lia|done|by constructor].
  - destruct (queue_top (S i) readers) as [[j q]|].
    + destruct IH as (n & r' & -> & Hn & Hf). unfold pair_le. destruct (Z.ltb_spec p.1 q.1); [|destruct (Z.eqb_spec p.1 q.1)]; cbn [orb andb].
      * exists 0%nat, r. split_and!; [lia|done|]. constructor; [unfold key_le; lia|]. eapply Forall_impl; [exact Hf|]. intros [|x l]; [done|]. unfold key_le. lia.
      * destruct (p.2 <=? q.2).
        -- exists 0%nat, r. split_and!; [lia|done|]. constructor; [unfold key_le; lia|]. eapply Forall_impl; [exact Hf|]. intros [|x l]; [done|]. unfold key_le. lia.
        -- exists (S n), r'. split_and!; [lia|done|]. constructor; [unfold key_le; lia|done].
      * exists (S n), r'. split_and!; [lia|done|]. constructor; [unfold key_le; lia|done].
    + exists 0%nat, r. split_and!; [lia|done|]. constructor; [unfold key_le; lia|]. eapply Forall_impl; [exact IH|]. by intros l ->.
Qed.
Lemma concat_alter_tail (readers : list (list (Z * Z))) n p r : readers !! n = Some (p :: r) -> concat readers ≡ₚ p :: concat (alter tail n readers).
Proof.
  revert n. induction readers as [|l readers IH]; intros [|n] Hn; cbn in Hn; try done.
  - simplify_eq. done.
  - change (alter tail (S n) (l :: readers)) with (l :: alter tail n readers). cbn. rewrite (IH n Hn). solve_Permutation.
Qed.
Lemma merge_readers_spec fuel readers : (length (concat readers) <= fuel)%nat -> Forall (StronglySorted key_le) readers ->
  merge_readers fuel readers ≡ₚ concat readers /\ StronglySorted key_le (merge_readers fuel readers).
Proof.
  revert readers. induction fuel as [|fuel IH]; intros readers Hlen Hs.
  { destruct (concat readers) eqn:E; [|cbn in Hlen; lia]. split; [done|constructor]. }
  cbn. pose proof (queue_top_spec 0 readers) as Ht. destruct (queue_top 0 readers) as [[j p]|].
  - destruct Ht as (n & r & -> & Hn & Hf). cbn. pose proof (concat_alter_tail _ _ _ _ Hn) as Hp. pose proof (Permutation_length Hp) as Hl. cbn in Hl.
    assert (Hs' : Forall (StronglySorted key_le) (alter tail n readers)).
    { apply Forall_alter; [done|]. intros l Hl' _. rewrite Hn in Hl'. simplify_eq. pose proof (Forall_lookup_1 _ _ _ _ Hs Hn) as Hx. by apply StronglySorted_inv in Hx as [? _]. }
    destruct (IH (alter tail n readers)) as [IH1 IH2]; [lia|done|]. split; [by rewrite IH1, Hp|]. constructor; [done|]. rewrite IH1. apply Forall_forall. intros q Hq.
    assert (Hq' : q ∈ concat readers) by (rewrite Hp; by right). apply list_elem_of_In, in_concat in Hq' as (l & Hl2%list_elem_of_In & Hq2%list_elem_of_In). rewrite Forall_forall in Hs, Hf.
    specialize (Hs l Hl2). specialize (Hf l Hl2). destruct l as [|x l]; [set_solver|]. apply StronglySorted_inv in Hs as [_ Hx]. rewrite Forall_forall in Hx.
    apply elem_of_cons in Hq2 as [->|Hq2]; [done|]. specialize (Hx q Hq2). unfold key_le in *. lia.
  - split; [|constructor]. symmetry. clear -Ht. induction Ht as [|l readers -> _ IH]; [done|]. done.
Qed.
