(* ===== verification/SecondaryHistory.v ===== *)
(** * Histories of a secondary index

    Rows are inserted into the map in memory, transactions dump the map to chunks and merge chunks,
    and their stores commit. [secondary_index_exact]: a query finds exactly the inserted rows with a
    key in its ranges, when no dump is pending and the reader began after the commit of the last one.
    [optimize_rollback_loses_rows] and [dump_hides_rows] show what the code does otherwise. *)
From stdpp Require Import sorting.
From S2P Require Import Prelude Bitmask BlockVersion SecondaryIndex.

(** ** The map in memory *)
Lemma emplace_perm k o m : emplace k o m ≡ₚ (k, o) :: m.
Proof. induction m as [|[k' o'] m IH]; cbn; [done|]. destruct (k' <=? k); [rewrite IH|]; solve_Permutation. Qed.
Lemma emplace_sorted k o m : StronglySorted key_le m -> StronglySorted key_le (emplace k o m).
Proof.
  induction 1 as [|[k' o'] m Hs IH Hf]; cbn; [by repeat constructor|]. destruct (Z.leb_spec k' k).
  - constructor; [done|]. rewrite emplace_perm. constructor; [done|done].
  - constructor; [by constructor|]. constructor; [unfold key_le; cbn; lia|]. eapply Forall_impl; [exact Hf|]. intros q. unfold key_le. cbn. lia.
Qed.
Lemma InsertInner_spec rows m : StronglySorted key_le m -> InsertInner rows m ≡ₚ rows ++ m /\ StronglySorted key_le (InsertInner rows m).
Proof.
  revert m. induction rows as [|[k o] rows IH]; intros m Hm; [done|]. destruct (IH (emplace k o m)) as [H1 H2]; [by apply emplace_sorted|].
  split; [|done]. change (InsertInner ((k, o) :: rows) m) with (InsertInner rows (emplace k o m)). rewrite H1, emplace_perm. solve_Permutation.
Qed.
Section history.
Context {P : PGM}.
(** The keys of a type. *)
Definition is_key (k : Z) : Prop := key_min <= k <= key_max.

(** ** Chunks that are written *)
Lemma sorted_keys (l : list (Z * Z)) : StronglySorted key_le l -> StronglySorted Z.le l.*1.
Proof. induction 1 as [|q l Hs IH Hf]; [constructor|]. cbn. constructor; [done|]. by apply Forall_fmap. Qed.
Lemma chunk_of_pairs l : StronglySorted key_le l -> l <> [] -> Z.of_nat (length l) < 2 ^ 32 -> Forall (fun q => indexable q.1) l ->
  chunk_ok (mkIndexData (Z.of_nat (length l)) l.*1 l.*2) /\ chunk_pairs (mkIndexData (Z.of_nat (length l)) l.*1 l.*2) = l.
Proof.
  intros Hs Hne Hlen Hix. split; [|apply zip_fst_snd]. split; cbn; [by apply sorted_keys|by rewrite length_fmap|by rewrite !length_fmap| |by apply Forall_fmap].
  split; [|done]. destruct l; [done|]. cbn. lia.
Qed.
Lemma chunk_pairs_sorted c : chunk_ok c -> StronglySorted key_le (chunk_pairs c).
Proof.
  intros [Hs _ Ho _ _]. unfold chunk_pairs. remember (offset_ c) as os eqn:Eo. clear Eo. revert os Ho. induction Hs as [|k ks Hs IH Hf]; intros [|o os] Ho; cbn in *; try done; [constructor|].
  constructor; [apply IH; lia|]. apply Forall_forall. intros [k' o'] Hq. apply elem_of_zip_l in Hq. rewrite Forall_forall in Hf. by apply Hf.
Qed.
(** [BuildIndex] accepts keys of the type exactly when the largest value is not among them. *)
Lemma BuildIndex_spec (m : list (Z * Z)) : StronglySorted key_le m -> Forall (fun q => is_key q.1) m ->
  BuildIndex m.*1 = if decide (Forall (fun q => indexable q.1) m) then Ok tt else Err InvalidArgument.
Proof.
  intros Hs Hk. unfold BuildIndex. destruct m as [|q m _] using rev_ind; [by rewrite decide_True|]. rewrite fmap_app. cbn [fmap list_fmap]. rewrite last_snoc. rewrite Forall_app in Hk. destruct Hk as [Hk [Hq _]%Forall_cons].
  assert (Hle : Forall (fun x => x.1 <= q.1) m).
  { clear -Hs. induction m as [|x m IH]; [constructor|]. cbn in Hs. apply StronglySorted_inv in Hs as [Hs Hf]. constructor; [|by apply IH]. rewrite Forall_forall in Hf. apply (Hf q). set_solver. }
  destruct (Z.eqb_spec q.1 key_max) as [E|E].
  - rewrite decide_False; [done|]. rewrite Forall_app. intros [_ [Hx _]%Forall_cons]. unfold indexable in Hx. lia.
  - rewrite decide_True; [done|]. unfold is_key in *. unfold indexable. rewrite Forall_app. split; [|constructor; [lia|done]]. rewrite Forall_forall in *. intros x Hx. specialize (Hk x Hx). specialize (Hle x Hx). lia.
Qed.
Lemma Dump_outcome m : StronglySorted key_le m -> Forall (fun q => is_key q.1) m -> Z.of_nat (length m) < 2 ^ 32 ->
  Dump m = if decide (Forall (fun q => indexable q.1) m) then Ok (mkIndexData (Z.of_nat (length m)) m.*1 m.*2) else Err InvalidArgument.
Proof.
  intros Hs Hk Hlen. unfold Dump, InsertData. rewrite wrap_id by (unfold unsigned_range; lia). rewrite Z.eqb_refl, BuildIndex_spec by done. by case_decide.
Qed.
Lemma Dump_spec m d : StronglySorted key_le m -> m <> [] -> Forall (fun q => is_key q.1) m -> Dump m = Ok d ->
  chunk_ok d /\ chunk_row_count_ d = u32 (Z.of_nat (length m)) /\ chunk_pairs d = m.
Proof.
  intros Hs Hne Hk Hd. assert (E : Z.of_nat (length m) = u32 (Z.of_nat (length m))).
  { unfold Dump, InsertData in Hd. destruct (Z.eqb_spec (Z.of_nat (length m)) (u32 (Z.of_nat (length m)))); [done|discriminate]. }
  pose proof (wrap_range 32 (Z.of_nat (length m)) ltac:(lia)) as Hw. rewrite <- E in Hw. unfold unsigned_range in Hw. rewrite Dump_outcome in Hd by (done || lia).
  destruct (decide (Forall (fun q => indexable q.1) m)) as [Hix|]; [|discriminate]. injection Hd as <-. destruct (chunk_of_pairs m Hs Hne ltac:(lia) Hix). rewrite <- E. done.
Qed.
Lemma chunk_pairs_ne c : chunk_ok c -> chunk_pairs c <> [].
Proof.
  intros [_ Hk Ho Hn _]. unfold chunk_pairs. destruct (key_ c) as [|k ks]; [cbn in Hk; lia|]. destruct (offset_ c); [done|]. done.
Qed.
Lemma InsertMergeData_spec n cs d : Forall chunk_ok cs -> cs <> [] -> unsigned_range 32 n -> InsertMergeData n cs = Ok d ->
  chunk_ok d /\ chunk_row_count_ d = n /\ forall q, q ∈ chunk_pairs d <-> exists c, c ∈ cs /\ q ∈ chunk_pairs c.
Proof.
  intros Hcs Hne Hn. unfold InsertMergeData. destruct (merge_readers_spec (length (concat (map chunk_pairs cs))) (map chunk_pairs cs)) as [Hp Hs]; [done| |].
  { apply Forall_fmap. eapply Forall_impl; [exact Hcs|]. apply chunk_pairs_sorted. }
  set (l := merge_readers _ _) in *. destruct (Z.leb_spec (Z.of_nat (length l)) n); [|discriminate]. destruct (Z.eqb_spec (Z.of_nat (length l)) n) as [El|]; [|discriminate].
  intros Hb. res_inv. subst d. assert (Hl : l <> []).
  { intros E. rewrite E in Hp. destruct cs as [|c cs]; [done|]. apply Forall_cons in Hcs as [Hc _]. apply chunk_pairs_ne in Hc. apply Permutation_nil in Hp. by apply app_eq_nil in Hp as [? _]. }
  unfold unsigned_range in Hn. rewrite <- El. assert (Hix : Forall (fun q => indexable q.1) l).
  { rewrite Hp. apply Forall_concat, Forall_fmap. eapply Forall_impl; [exact Hcs|]. intros c Hc. apply Forall_forall. intros [k o] Hq. apply elem_of_zip_l in Hq.
    pose proof (co_indexable c Hc) as Hi. rewrite Forall_forall in Hi. by apply Hi. }
  destruct (chunk_of_pairs l Hs Hl ltac:(lia) Hix) as [Hok Hpairs]. split_and!; [done|done|]. intros q. rewrite Hpairs, Hp.
  rewrite list_elem_of_In, in_concat. setoid_rewrite in_map_iff. setoid_rewrite <- list_elem_of_In. naive_solver.
Qed.

(** ** Chunks by position *)
Lemma alter_chunks_lookup f ps cs i : (forall c, f (f c) = f c) -> alter_chunks f ps cs !! i = if decide (i ∈ ps) then f <$> cs !! i else cs !! i.
Proof.
  intros Hf. revert cs. induction ps as [|p ps IH]; intros cs; [done|]. unfold alter_chunks in *. cbn [foldl]. rewrite IH. destruct (decide (i = p)) as [->|Hne].
  - rewrite list_lookup_alter_eq, (decide_True (P := p ∈ p :: ps)) by (by left). case_decide; [|done]. destruct (cs !! p); cbn; [by rewrite Hf|done].
  - rewrite list_lookup_alter_ne by done. repeat case_decide; set_solver.
Qed.
Lemma elem_of_visible t idx p c : (p, c) ∈ visible_chunks t idx <-> chunk_index_entries_ idx !! p = Some c /\ CheckVisible t c = true.
Proof.
  unfold visible_chunks. rewrite list_elem_of_filter, list_elem_of_lookup. cbn. setoid_rewrite list_lookup_imap. split.
  - intros [Hv [i Hi]]. destruct (chunk_index_entries_ idx !! i) eqn:E; cbn in Hi; [|done]. by simplify_eq.
  - intros [Hp Hv]. split; [done|]. exists p. by rewrite Hp.
Qed.

(** ** Histories *)
Record world := mkWorld {
  index : SegmentIndexEntry;
  (** The stores of the transactions that have changed the index and have not committed. *)
  stores : list TxnIndexStore;
  (** The rows inserted so far, the latest timestamp, and the commit of the last dump. *)
  rows : list (Z * Z); clock : Z; dumped : Z;
}.
Definition new_segment_index : SegmentIndexEntry := mkSegmentIndex [] None false 0 UNCOMMIT_TS 0 0.
Definition rows_fit (rs : list (Z * Z)) : Prop := rs <> [] /\ Forall (fun q => unsigned_range 32 q.2 /\ is_key q.1) rs.
Definition next_ts (w : world) (ts : Z) : Prop := clock w < ts < UNCOMMIT_TS.

(** The index of a new segment, or of a segment that has rows, is committed with the transaction that creates it. *)
Inductive start : world -> Prop :=
| StartEmpty txn_id ts : 0 <= ts < UNCOMMIT_TS -> start (mkWorld (CommitSegmentIndex txn_id ts new_segment_index) [] [] ts ts)
| StartPopulated txn_id rs ts ts' idx c : rows_fit rs -> 0 <= ts < UNCOMMIT_TS -> PopulateEntirely rs ts' new_segment_index = Ok (idx, c) ->
    start (mkWorld (CommitSegmentIndex txn_id ts idx) [] rs ts ts).
Inductive step (w : world) : world -> Prop :=
| StepInsert rs ts : rows_fit rs -> step w (mkWorld (MemIndexInsert rs ts (index w)) (stores w) (rows w ++ rs) (clock w) (dumped w))
(** A transaction that fills a segment dumps the map when it commits. *)
| StepInsertDump idx p ts : next_ts w ts -> MemIndexDump (index w) = Ok (idx, Some p) ->
    step w (mkWorld (set_chunks (alter (Commit ts) p (chunk_index_entries_ idx)) idx) (stores w) (rows w) ts ts)
(** A task dumps the map. *)
| StepDump idx p : MemIndexDump (index w) = Ok (idx, Some p) -> step w (mkWorld idx (AddChunkIndexStore p new_index_store :: stores w) (rows w) (clock w) (dumped w))
(** A transaction merges the chunks that it sees. *)
| StepOptimize begin_ts idx s : begin_ts <= clock w -> RebuildChunkIndexEntries begin_ts new_index_store (index w) = Ok (idx, s) ->
    step w (mkWorld idx (s :: stores w) (rows w) (clock w) (dumped w))
| StepCommit txn_id l1 s l2 ts : stores w = l1 ++ s :: l2 -> next_ts w ts ->
    step w (mkWorld (TryRevert s (StoreCommit txn_id ts s (index w))) (l1 ++ l2) (rows w) ts (if decide (store_chunks_ s = []) then dumped w else ts)).
Inductive reachable : world -> Prop :=
| ReachStart w : start w -> reachable w
| ReachStep w w' : reachable w -> step w w' -> reachable w'.

(** ** The invariant *)
Definition uncommitted (c : ChunkIndexEntry) : Prop := commit_ts_ c = UNCOMMIT_TS.
(** The chunks that a store will commit. *)
Definition targets (s : TxnIndexStore) : list nat := store_chunks_ s ++ map fst (optimize_data_ s).
(** A store of a dump, or of a merge: the merged chunk has the rows of the old ones. *)
Inductive store_ok (cs : list ChunkIndexEntry) (now : Z) : TxnIndexStore -> Prop :=
| DumpStore p : store_ok cs now (mkIndexStore true [p] [] false)
| IdleStore : store_ok cs now new_index_store
| MergeStore p olds c : cs !! p = Some c ->
    (forall o, o ∈ olds -> exists c', cs !! o = Some c' /\ commit_ts_ c' <= now /\ forall q, q ∈ chunk_pairs (index_data c') -> q ∈ chunk_pairs (index_data c)) ->
    store_ok cs now (mkIndexStore true [] [(p, olds)] true).
Record chunk_inv (rs : list (Z * Z)) (now : Z) (c : ChunkIndexEntry) : Prop := {
  ci_ok : chunk_ok (index_data c);
  ci_row_count : row_count_ c = chunk_row_count_ (index_data c);
  ci_rows : forall q, q ∈ chunk_pairs (index_data c) -> q ∈ rs;
  ci_commit : commit_ts_ c = UNCOMMIT_TS \/ 0 <= commit_ts_ c <= now;
  ci_live : uncommitted c -> deprecate_ts_ c = UNCOMMIT_TS;
}.
Definition pending (w : world) (q : Z * Z) : Prop :=
  exists s p c, s ∈ stores w /\ p ∈ store_chunks_ s /\ chunk_index_entries_ (index w) !! p = Some c /\ q ∈ chunk_pairs (index_data c).
Definition chunk_seen (t : Z) (cs : list ChunkIndexEntry) (q : Z * Z) : Prop :=
  exists p c, cs !! p = Some c /\ CheckVisible t c = true /\ q ∈ chunk_pairs (index_data c).
Definition in_map (idx : SegmentIndexEntry) (q : Z * Z) : Prop := exists m, memory_secondary_index_ idx = Some m /\ q ∈ m.
Record inv (w : world) : Prop := {
  inv_clock : 0 <= dumped w <= clock w /\ clock w < UNCOMMIT_TS;
  inv_committed : index_commit_ts_ (index w) <> UNCOMMIT_TS;
  inv_fit : Forall (fun q => unsigned_range 32 q.2 /\ is_key q.1) (rows w);
  inv_chunks : Forall (chunk_inv (rows w) (clock w)) (chunk_index_entries_ (index w));
  inv_map m : memory_secondary_index_ (index w) = Some m -> StronglySorted key_le m /\ m <> [] /\ (length m <= length (rows w))%nat /\ forall q, q ∈ m -> q ∈ rows w;
  inv_targets : NoDup (concat (map targets (stores w)));
  inv_pending p : p ∈ concat (map targets (stores w)) -> exists c, chunk_index_entries_ (index w) !! p = Some c /\ uncommitted c;
  inv_stores : Forall (store_ok (chunk_index_entries_ (index w)) (clock w)) (stores w);
  inv_cover t q : dumped w <= t < UNCOMMIT_TS -> q ∈ rows w -> chunk_seen t (chunk_index_entries_ (index w)) q \/ in_map (index w) q \/ pending w q;
}.

Lemma seen_pairs_lookup t idx q : seen_pairs t idx q <-> chunk_seen t (chunk_index_entries_ idx) q \/ in_map idx q.
Proof.
  unfold seen_pairs, chunks_seen, chunk_seen, in_map. setoid_rewrite list_elem_of_filter. setoid_rewrite list_elem_of_lookup. naive_solver.
Qed.
Lemma chunk_inv_mono rs rs' now now' c : (forall q, q ∈ rs -> q ∈ rs') -> now <= now' -> chunk_inv rs now c -> chunk_inv rs' now' c.
Proof. intros Hrs Hnow [H1 H2 H3 H4 H5]. split; auto. destruct H4; [by left|right; lia]. Qed.
(** Chunks keep their data; those committed stay so. *)
Definition evolves (now now' : Z) (cs cs' : list ChunkIndexEntry) : Prop :=
  forall p c, cs !! p = Some c -> exists c', cs' !! p = Some c' /\ index_data c' = index_data c /\ (commit_ts_ c <= now -> commit_ts_ c' <= now').
Lemma store_ok_evolves now now' cs cs' s : evolves now now' cs cs' -> store_ok cs now s -> store_ok cs' now' s.
Proof.
  intros Hev [p| |p olds c Hp Ho]; [constructor..|]. destruct (Hev p c Hp) as (c1 & Hc1 & Hd1 & _). apply (MergeStore _ _ p olds c1); [done|]. intros o Hin.
  destruct (Ho o Hin) as (c' & Hc' & Hts & Hq). destruct (Hev o c' Hc') as (c2 & Hc2 & Hd2 & Ht2). exists c2. rewrite Hd1, Hd2. auto.
Qed.
Lemma evolves_app now cs cs2 : evolves now now cs (cs ++ cs2).
Proof. intros p c Hp. exists c. split; [by apply lookup_app_l_Some|done]. Qed.
Lemma evolves_refl now now' cs : now <= now' -> evolves now now' cs cs.
Proof. intros Hn p c Hp. exists c. split_and!; [done|done|lia]. Qed.

(** A new chunk, at the end. *)
Lemma chunk_seen_app t cs cs2 q : chunk_seen t cs q -> chunk_seen t (cs ++ cs2) q.
Proof. intros (p & c & Hp & ?). exists p, c. split; [by apply lookup_app_l_Some|done]. Qed.
Lemma pending_app idx cs2 ss rs a b idx' ss' rs' a' b' q : chunk_index_entries_ idx' = chunk_index_entries_ idx ++ cs2 -> (forall s, s ∈ ss -> s ∈ ss') ->
  pending (mkWorld idx ss rs a b) q -> pending (mkWorld idx' ss' rs' a' b') q.
Proof. intros E Hss (s & p & c & Hs & Hp & Hc & Hq). exists s, p, c. cbn in *. rewrite E. split_and!; [auto|done|by apply lookup_app_l_Some|done]. Qed.

(** ** Steps keep the invariant *)
Lemma insert_inv w rs ts : inv w -> rows_fit rs -> inv (mkWorld (MemIndexInsert rs ts (index w)) (stores w) (rows w ++ rs) (clock w) (dumped w)).
Proof.
  intros [H1 H2 H3 H4 H5 H6 H7 H8 H9] [Hne Hfit]. destruct w as [idx ss rws now d]. cbn in *.
  destruct (InsertInner_spec rs (default [] (memory_secondary_index_ idx))) as [Hp Hs].
  { destruct (memory_secondary_index_ idx); cbn; [by apply H5|constructor]. }
  split; cbn; try done.
  - by apply Forall_app.
  - eapply Forall_impl; [exact H4|]. intros c. apply chunk_inv_mono; [set_solver|lia].
  - intros m [= <-]. split; [done|]. assert (Hold : forall q, q ∈ default [] (memory_secondary_index_ idx) -> q ∈ rws).
    { destruct (memory_secondary_index_ idx); cbn; [by apply H5|set_solver]. }
    split_and!.
    + intros E. rewrite E in Hp. apply Permutation_nil, app_eq_nil in Hp as [? _]. done.
    + rewrite Hp, !length_app. destruct (memory_secondary_index_ idx); cbn; [destruct (H5 _ eq_refl) as (_ & _ & ? & _)|]; lia.
    + intros q. rewrite Hp, !elem_of_app. naive_solver.
  - intros t q Ht Hq. apply elem_of_app in Hq as [Hq|Hq].
    + destruct (H9 t q Ht Hq) as [?|[(m & Hm & Hqm)|?]]; [by left| |by right; right]. right; left. eexists. split; [done|]. rewrite Hp, Hm. set_solver.
    + right; left. eexists. split; [done|]. rewrite Hp. set_solver.
Qed.
Lemma new_chunk_inv rs now d n : chunk_ok d -> n = chunk_row_count_ d -> (forall q, q ∈ chunk_pairs d -> q ∈ rs) -> chunk_inv rs now (NewSecondaryIndexChunkIndexEntry d n).
Proof. intros Hd Hn Hq. split; [done|done|done|by left|done]. Qed.
Lemma map_keys w m : inv w -> memory_secondary_index_ (index w) = Some m -> Forall (fun q => is_key q.1) m.
Proof.
  intros Hi Hm. destruct (inv_map w Hi m Hm) as (_ & _ & _ & Hq). pose proof (inv_fit w Hi) as Hf. rewrite Forall_forall in Hf |- *. intros q Hin. by apply Hf, Hq.
Qed.
Lemma MemIndexDump_spec w idx p : inv w -> MemIndexDump (index w) = Ok (idx, Some p) -> exists m c,
  memory_secondary_index_ (index w) = Some m /\ p = length (chunk_index_entries_ (index w)) /\ idx = set_memory None (set_chunks (chunk_index_entries_ (index w) ++ [c]) (index w)) /\
  chunk_inv (rows w) (clock w) c /\ uncommitted c /\ chunk_pairs (index_data c) = m.
Proof.
  intros Hi. unfold MemIndexDump. destruct (memory_secondary_index_ (index w)) as [m|] eqn:Em; [|discriminate]. intros H. res_inv.
  destruct (inv_map w Hi m Em) as (Hs & Hne & _ & Hq). pose proof (map_keys w m Hi Em) as Hk. destruct (Dump_spec m x Hs Hne Hk ltac:(done)) as (Hok & Hn & Hp).
  simplify_eq. exists (chunk_pairs x), (NewSecondaryIndexChunkIndexEntry x (u32 (Z.of_nat (length (chunk_pairs x))))). split_and!; try done.
  apply new_chunk_inv; [done|by rewrite Hn|done].
Qed.
Lemma fresh_target w : inv w -> length (chunk_index_entries_ (index w)) ∉ concat (map targets (stores w)).
Proof. intros Hi Hin. destruct (inv_pending w Hi _ Hin) as (c & Hc & _). apply lookup_lt_Some in Hc. lia. Qed.
Lemma pending_lookup_app w p c : inv w -> p ∈ concat (map targets (stores w)) -> exists c', (chunk_index_entries_ (index w) ++ [c]) !! p = Some c' /\ uncommitted c'.
Proof. intros Hi Hp. destruct (inv_pending w Hi p Hp) as (c' & Hc & Hu). exists c'. split; [by apply lookup_app_l_Some|done]. Qed.

Lemma dump_inv w idx p : inv w -> MemIndexDump (index w) = Ok (idx, Some p) -> inv (mkWorld idx (AddChunkIndexStore p new_index_store :: stores w) (rows w) (clock w) (dumped w)).
Proof.
  intros Hi Hd. destruct (MemIndexDump_spec w idx p Hi Hd) as (m & c & Hm & -> & -> & Hc & Hu & Hpairs). pose proof (fresh_target w Hi) as Hfresh.
  pose proof (fun p => pending_lookup_app w p c Hi) as Hpend. destruct Hi as [H1 H2 H3 H4 H5 H6 H7 H8 H9]. destruct w as [idx ss rws now d]. cbn in *. split; cbn; try done.
  - apply Forall_app. split; [done|]. by constructor.
  - constructor; [done|]. done.
  - intros q [->|Hq]%elem_of_cons; [|by apply Hpend]. exists c. split; [by apply list_lookup_middle|done].
  - constructor; [constructor|]. eapply Forall_impl; [exact H8|]. intros s. apply store_ok_evolves, evolves_app.
  - intros t q Ht Hq. destruct (H9 t q Ht Hq) as [Hs|[(m' & Hm' & Hqm)|Hp]]; [left; by apply chunk_seen_app| |].
    + right; right. exists (AddChunkIndexStore (length (chunk_index_entries_ idx)) new_index_store), (length (chunk_index_entries_ idx)), c. cbn.
      split_and!; [by left|by left|by apply list_lookup_middle|congruence].
    + right; right. eapply pending_app; [done| |exact Hp]. intros s. by right.
Qed.
Lemma insert_dump_inv w idx p ts : inv w -> next_ts w ts -> MemIndexDump (index w) = Ok (idx, Some p) ->
  inv (mkWorld (set_chunks (alter (Commit ts) p (chunk_index_entries_ idx)) idx) (stores w) (rows w) ts ts).
Proof.
  intros Hi Hts Hd. destruct (MemIndexDump_spec w idx p Hi Hd) as (m & c & Hm & -> & -> & Hc & Hu & Hpairs).
  destruct w as [idx ss rws now d]. unfold next_ts in Hts. cbn in Hts, Hm, Hc, Hpairs |- *. pose proof (inv_clock _ Hi) as Hclk. cbn in Hclk.
  assert (Ec : Commit ts c = set_commit_ts ts c) by (unfold Commit; by rewrite (proj2 (Z.eqb_eq _ _) Hu)). assert (Hlen : alter (Commit ts) (length (chunk_index_entries_ idx)) (chunk_index_entries_ idx ++ [c]) = chunk_index_entries_ idx ++ [set_commit_ts ts c]).
  { rewrite alter_app_r_alt by done. rewrite Nat.sub_diag. cbn. by rewrite Ec. }
  rewrite Hlen. pose proof (fun p => pending_lookup_app _ p (set_commit_ts ts c) Hi) as Hpend. destruct Hi as [H1 H2 H3 H4 H5 H6 H7 H8 H9]. cbn in *. split; cbn; try done; try lia.
  - apply Forall_app. split; [eapply Forall_impl; [exact H4|]; intros x; apply chunk_inv_mono; [done|lia]|]. constructor; [|done].
    destruct Hc as [C1 C2 C3 C4 C5]. split; cbn; try done; [right; lia|]. unfold uncommitted. cbn. lia.
  - eapply Forall_impl; [exact H8|]. intros s Hs. eapply store_ok_evolves; [apply evolves_refl|]; [|eapply store_ok_evolves; [apply evolves_app|exact Hs]]. lia.
  - intros t q Ht Hq. destruct (H9 t q ltac:(lia) Hq) as [Hs|[(m' & Hm' & Hqm)|Hp]]; [left; by apply chunk_seen_app| |].
    + left. exists (length (chunk_index_entries_ idx)), (set_commit_ts ts c). split; [by apply list_lookup_middle|]. split; [|cbn; congruence].
      unfold CheckVisible, BaseCheckVisible. cbn. rewrite (ci_live _ _ _ Hc Hu). apply andb_true_iff. split; [apply Z.ltb_lt|apply Z.leb_le]; lia.
    + right; right. eapply pending_app; [done| |exact Hp]. done.
Qed.
Lemma idle_inv w o : inv w -> inv (mkWorld (set_optimizing o (index w)) (new_index_store :: stores w) (rows w) (clock w) (dumped w)).
Proof.
  intros [H1 H2 H3 H4 H5 H6 H7 H8 H9]. destruct w as [idx ss rws now d]. cbn in *. split; cbn; try done.
  - by constructor; [constructor|].
  - intros t q Ht Hq. destruct (H9 t q Ht Hq) as [?|[?|(s & p & c & Hs & Hp)]]; [by left|by right; left|]. right; right. exists s, p, c. split; [by right|done].
Qed.
Lemma set_optimizing_same idx : set_optimizing (optimizing_ idx) idx = idx.
Proof. by destruct idx. Qed.
(** The merged chunk has the rows of the chunks that the transaction sees. *)
Lemma rebuild_spec w t idx s : inv w -> RebuildChunkIndexEntries t new_index_store (index w) = Ok (idx, s) ->
  (exists o, idx = set_optimizing o (index w) /\ s = new_index_store) \/
  (exists c, idx = set_chunks (chunk_index_entries_ (index w) ++ [c]) (set_optimizing true (index w)) /\
    s = mkIndexStore true [] [(length (chunk_index_entries_ (index w)), map fst (visible_chunks t (index w)))] true /\
    chunk_inv (rows w) (clock w) c /\ uncommitted c /\ forall q, q ∈ chunk_pairs (index_data c) <-> exists o, o ∈ visible_chunks t (index w) /\ q ∈ chunk_pairs (index_data o.2)).
Proof.
  intros Hi. unfold RebuildChunkIndexEntries. destruct (optimizing_ (index w)) eqn:Eo.
  { intros [= <- <-]. left. exists true. by rewrite <- Eo, set_optimizing_same. }
  set (n := foldl _ _ _). change (visible_chunks t (set_optimizing true (index w))) with (visible_chunks t (index w)) in *.
  set (vs := visible_chunks t (index w)) in *. destruct (Nat.leb_spec (length vs) 1) as [Hl|Hl]; [intros [= <- <-]; left; by exists true|]. intros H. res_inv. right.
  assert (Hvs : Forall (fun o => chunk_inv (rows w) (clock w) o.2) vs).
  { apply Forall_forall. intros [p c] Hp. apply elem_of_visible in Hp as [Hp _]. eapply Forall_lookup_1; [apply (inv_chunks w Hi)|exact Hp]. }
  assert (Hn : unsigned_range 32 n).
  { unfold n. destruct vs as [|v vs' _] using rev_ind; [cbn in Hl; lia|]. rewrite foldl_app. cbn. apply wrap_range. lia. }
  destruct (InsertMergeData_spec n (map (fun c => index_data c.2) vs) x) as (Hok & Hrc & Hq); [| |done|done|].
  { apply Forall_fmap. eapply Forall_impl; [exact Hvs|]. intros o [? _ _ _ _]. done. }
  { destruct vs; [cbn in Hl; lia|done]. }
  assert (Hq' : forall q, q ∈ chunk_pairs x <-> exists o, o ∈ vs /\ q ∈ chunk_pairs (index_data o.2)).
  { intros q. rewrite Hq. split; [|intros (o & Ho & ?); exists (index_data o.2); split; [|done]; apply list_elem_of_fmap; by exists o].
    intros (d & Hd & ?). apply list_elem_of_fmap in Hd as (o & -> & Ho). by exists o. }
  subst idx s. eexists. split_and!; [done|done| |done|done].
  apply new_chunk_inv; [done|done|]. intros q (o & Ho & Hqo)%Hq'. rewrite Forall_forall in Hvs. by apply (ci_rows _ _ _ (Hvs o Ho)).
Qed.
Lemma optimize_inv w t idx s : inv w -> t <= clock w -> RebuildChunkIndexEntries t new_index_store (index w) = Ok (idx, s) ->
  inv (mkWorld idx (s :: stores w) (rows w) (clock w) (dumped w)).
Proof.
  intros Hi Ht Hr. destruct (rebuild_spec w t idx s Hi Hr) as [(o & -> & ->)|(c & -> & -> & Hc & Hu & Hq)]; [by apply idle_inv|]. pose proof (fresh_target w Hi) as Hfresh.
  pose proof (fun p => pending_lookup_app w p c Hi) as Hpend. destruct Hi as [H1 H2 H3 H4 H5 H6 H7 H8 H9]. destruct w as [idx ss rws now d]. cbn in *. split; cbn; try done.
  - apply Forall_app. split; [done|]. by constructor.
  - by constructor.
  - intros p [->|Hp]%elem_of_cons; [|by apply Hpend]. exists c. split; [by apply list_lookup_middle|done].
  - constructor; [|eapply Forall_impl; [exact H8|]; intros s; apply store_ok_evolves, evolves_app]. apply (MergeStore _ _ _ _ c); [by apply list_lookup_middle|].
    intros p Hp. apply list_elem_of_fmap in Hp as ([p' c'] & -> & Hp). exists c'. pose proof Hp as [Hl Hv]%elem_of_visible. split_and!; [by apply lookup_app_l_Some| |].
    + unfold CheckVisible, BaseCheckVisible in Hv. lia.
    + intros q Hqc. apply Hq. by exists (p', c').
  - intros t' q Ht' Hqr. destruct (H9 t' q Ht' Hqr) as [?|[?|Hp]]; [left; by apply chunk_seen_app|by right; left|]. right; right. eapply pending_app; [done| |exact Hp]. intros s. by right.
Qed.

(** *** Commits *)
Definition replaced (s : TxnIndexStore) : list nat := concat (map snd (optimize_data_ s)).
Definition committed_chunk (ts : Z) (s : TxnIndexStore) (p : nat) (c : ChunkIndexEntry) : ChunkIndexEntry :=
  if decide (p ∈ targets s) then set_commit_ts ts c else if decide (p ∈ replaced s) then DeprecateChunk ts c else c.
Lemma Commit_idem ts c : Commit ts (Commit ts c) = Commit ts c.
Proof. unfold Commit. destruct (Z.eqb_spec (commit_ts_ c) UNCOMMIT_TS) as [E|E]; cbn; [|by rewrite (proj2 (Z.eqb_neq _ _) E)]. by destruct (ts =? UNCOMMIT_TS). Qed.
Lemma commit_once ts c : (if Committed c then c else Commit ts c) = Commit ts c.
Proof. unfold Committed, Commit. by destruct (commit_ts_ c =? UNCOMMIT_TS). Qed.
Lemma commit_all_lookup ts ps cs p : alter_chunks (fun c => if Committed c then c else Commit ts c) ps cs !! p = if decide (p ∈ ps) then Commit ts <$> cs !! p else cs !! p.
Proof.
  rewrite alter_chunks_lookup by (intros c; rewrite !commit_once; apply Commit_idem). case_decide; [|done]. destruct (cs !! p); [|done]. cbn. by rewrite commit_once.
Qed.
Lemma commit_uncommitted ts c : uncommitted c -> Commit ts c = set_commit_ts ts c.
Proof. intros Hu. unfold Commit. by rewrite (proj2 (Z.eqb_eq _ _) Hu). Qed.
Lemma commit_committed ts c : ~ uncommitted c -> Commit ts c = c.
Proof. intros Hu. unfold Commit. by rewrite (proj2 (Z.eqb_neq _ _) Hu). Qed.
Lemma CommitSegmentIndex_committed txn_id ts i : index_commit_ts_ i <> UNCOMMIT_TS -> CommitSegmentIndex txn_id ts i = set_max_ts ts i.
Proof. intros Hi. unfold CommitSegmentIndex. cbn. by rewrite (proj2 (Z.eqb_neq _ _) Hi). Qed.

Lemma merge_commit_lookup ts p olds cs q c : q <> p \/ uncommitted c -> (q ∈ olds -> ~ uncommitted c) -> cs !! q = Some c ->
  alter_chunks (fun c => if Committed c then c else Commit ts c) (p :: olds) (alter_chunks (DeprecateChunk ts) olds (alter (Commit ts) p cs)) !! q =
  Some (committed_chunk ts (mkIndexStore true [] [(p, olds)] true) q c).
Proof.
  intros Hp Ho Hq. rewrite commit_all_lookup, alter_chunks_lookup by done. unfold committed_chunk, targets, replaced. cbn. rewrite app_nil_r. destruct (decide (q = p)) as [->|Hne].
  - destruct Hp as [?|Hu]; [done|]. rewrite !(decide_True (P := p ∈ p :: _)) by (by left). rewrite decide_False by naive_solver.
    rewrite list_lookup_alter_eq, Hq. cbn. by rewrite Commit_idem, commit_uncommitted.
  - rewrite (decide_False (P := q ∈ [p])) by set_solver. rewrite list_lookup_alter_ne by done. rewrite Hq. destruct (decide (q ∈ olds)) as [Hin|Hin].
    + rewrite decide_True by (by right). cbn. rewrite commit_committed; [done|]. unfold uncommitted in *. cbn. auto.
    + rewrite decide_False by set_solver. done.
Qed.
Lemma alter_chunks_None f ps cs p : (forall c, f (f c) = f c) -> cs !! p = None -> alter_chunks f ps cs !! p = None.
Proof. intros Hf Hp. rewrite alter_chunks_lookup by done. rewrite Hp. by case_decide. Qed.
Lemma target_uncommitted w s p c : inv w -> s ∈ stores w -> p ∈ targets s -> chunk_index_entries_ (index w) !! p = Some c -> uncommitted c.
Proof.
  intros Hi Hs Hp Hc. destruct (inv_pending w Hi p) as (c' & Hc' & Hu); [|congruence]. apply list_elem_of_In, in_concat. exists (targets s). rewrite <- !list_elem_of_In. split; [|done].
  apply list_elem_of_fmap. by exists s.
Qed.
Lemma replaced_committed w s p : inv w -> s ∈ stores w -> p ∈ replaced s -> exists c, chunk_index_entries_ (index w) !! p = Some c /\ commit_ts_ c <= clock w /\
  exists p' c', targets s = [p'] /\ chunk_index_entries_ (index w) !! p' = Some c' /\ forall q, q ∈ chunk_pairs (index_data c) -> q ∈ chunk_pairs (index_data c').
Proof.
  intros Hi Hs Hp. pose proof (inv_stores w Hi) as Hst. rewrite Forall_forall in Hst. destruct (Hst s Hs) as [p0| |p0 olds c0 Hc0 Ho]; [set_solver..|].
  unfold replaced in Hp. cbn in Hp. rewrite app_nil_r in Hp. destruct (Ho p Hp) as (c & Hc & Hts & Hq). exists c. split_and!; [done|done|]. by exists p0, c0.
Qed.
Lemma clock_uncommitted w c : inv w -> commit_ts_ c <= clock w -> ~ uncommitted c.
Proof. intros Hi Hc Hu. pose proof (inv_clock w Hi). unfold uncommitted in Hu. lia. Qed.
Lemma StoreCommit_spec w txn_id s ts : inv w -> s ∈ stores w -> let idx := TryRevert s (StoreCommit txn_id ts s (index w)) in
  memory_secondary_index_ idx = memory_secondary_index_ (index w) /\ index_commit_ts_ idx = index_commit_ts_ (index w) /\
  forall p, chunk_index_entries_ idx !! p = committed_chunk ts s p <$> chunk_index_entries_ (index w) !! p.
Proof.
  intros Hi Hs. pose proof (inv_committed w Hi) as Hic. pose proof (fun p c => target_uncommitted w s p c Hi Hs) as Htgt.
  pose proof (fun p => replaced_committed w s p Hi Hs) as Hrep. pose proof (inv_stores w Hi) as Hst. rewrite Forall_forall in Hst. specialize (Hst s Hs).
  destruct Hst as [p0| |p0 olds c0 Hc0 Ho]; unfold TryRevert, StoreCommit; cbn -[alter_chunks].
  - rewrite CommitSegmentIndex_committed by done. cbn -[alter_chunks]. split_and!; [done|done|]. intros p. rewrite commit_all_lookup. unfold committed_chunk, targets. cbn.
    case_decide as Hp; [|by destruct (_ !! p)]. destruct (chunk_index_entries_ (index w) !! p) as [c|] eqn:E; [|done]. cbn. f_equal. apply commit_uncommitted. by apply (Htgt p).
  - split_and!; [done|done|]. intros p. cbn. by destruct (_ !! p).
  - rewrite CommitSegmentIndex_committed by done. cbn -[alter_chunks]. split_and!; [done|done|]. intros p. rewrite app_nil_r.
    destruct (chunk_index_entries_ (index w) !! p) as [c|] eqn:E.
    + apply merge_commit_lookup; [|intros Hp|done].
      * destruct (decide (p = p0)) as [->|]; [right; apply (Htgt p0 c); [set_solver|done]|by left].
      * destruct (Hrep p) as (c' & Hc' & Hle & _); [unfold replaced; cbn; by rewrite app_nil_r|]. simplify_eq. by eapply clock_uncommitted.
    + apply alter_chunks_None; [intros c; rewrite !commit_once; apply Commit_idem|]. apply alter_chunks_None; [done|]. destruct (decide (p = p0)) as [->|]; [congruence|]. by rewrite list_lookup_alter_ne.
Qed.
Lemma committed_chunk_data ts s p c : index_data (committed_chunk ts s p c) = index_data c.
Proof. unfold committed_chunk. by repeat case_decide. Qed.
Lemma target_visible w s p c ts t : inv w -> s ∈ stores w -> p ∈ targets s -> chunk_index_entries_ (index w) !! p = Some c -> ts <= t < UNCOMMIT_TS ->
  CheckVisible t (committed_chunk ts s p c) = true.
Proof.
  intros Hi Hs Hp Hc Ht. unfold committed_chunk. rewrite decide_True by done. unfold CheckVisible, BaseCheckVisible. cbn.
  pose proof (inv_chunks w Hi) as Hcs. rewrite Forall_lookup in Hcs. rewrite (ci_live _ _ _ (Hcs p c Hc) (target_uncommitted w s p c Hi Hs Hp Hc)). lia.
Qed.
Lemma kept_visible w s p c ts t : inv w -> s ∈ stores w -> chunk_index_entries_ (index w) !! p = Some c -> t < UNCOMMIT_TS -> CheckVisible t c = true ->
  (p ∈ replaced s -> t < ts) -> CheckVisible t (committed_chunk ts s p c) = true.
Proof.
  intros Hi Hs Hc Ht Hv Hr. unfold committed_chunk. case_decide as Htg.
  - pose proof (target_uncommitted w s p c Hi Hs Htg Hc) as Hu. unfold CheckVisible, BaseCheckVisible, uncommitted in *. lia.
  - case_decide as Hrp; [|done]. specialize (Hr Hrp). unfold CheckVisible, BaseCheckVisible in *. cbn. lia.
Qed.
Lemma commit_chunk_inv w s p c ts : inv w -> s ∈ stores w -> next_ts w ts -> chunk_index_entries_ (index w) !! p = Some c ->
  chunk_inv (rows w) ts (committed_chunk ts s p c) /\ (commit_ts_ c <= clock w -> commit_ts_ (committed_chunk ts s p c) <= ts).
Proof.
  intros Hi Hs Hts Hc. pose proof (inv_clock w Hi). unfold next_ts in Hts. pose proof (inv_chunks w Hi) as Hcs. rewrite Forall_lookup in Hcs. destruct (Hcs p c Hc) as [C1 C2 C3 C4 C5].
  unfold committed_chunk. destruct (decide (p ∈ targets s)); [|destruct (decide (p ∈ replaced s)) as [Hr|]]; split; cbn; try lia.
  - split; cbn; try done; [right; lia|]. unfold uncommitted. cbn. lia.
  - destruct (replaced_committed w s p Hi Hs Hr) as (c' & Hc' & Hle & _). simplify_eq. split; cbn; try done; [right; lia|]. unfold uncommitted. cbn. lia.
  - split; try done. destruct C4; [by left|right; lia].
Qed.
Lemma commit_cover w txn_id l1 s l2 ts t q : inv w -> stores w = l1 ++ s :: l2 -> next_ts w ts -> let idx := TryRevert s (StoreCommit txn_id ts s (index w)) in
  dumped w <= t < UNCOMMIT_TS -> (store_chunks_ s <> [] -> ts <= t) -> q ∈ rows w ->
  chunk_seen t (chunk_index_entries_ idx) q \/ in_map idx q \/ pending (mkWorld idx (l1 ++ l2) (rows w) ts ts) q.
Proof.
  intros Hi El Hts idx Ht Hdump Hq. assert (Hs : s ∈ stores w) by (rewrite El; set_solver). destruct (StoreCommit_spec w txn_id s ts Hi Hs) as (Hm & _ & Hl). fold idx in Hm, Hl.
  assert (Hnew : forall p c, p ∈ targets s -> ts <= t -> chunk_index_entries_ (index w) !! p = Some c -> q ∈ chunk_pairs (index_data c) -> chunk_seen t (chunk_index_entries_ idx) q).
  { intros p c Hp Hge Hc Hqc. exists p, (committed_chunk ts s p c). rewrite Hl, Hc, committed_chunk_data. split_and!; [done| |done]. eapply target_visible; try done. lia. }
  destruct (inv_cover w Hi t q Ht Hq) as [(p & c & Hp & Hv & Hqc)|[Hmem|(s0 & p & c & Hs0 & Hp & Hc & Hqc)]].
  - left. destruct (decide (p ∈ replaced s /\ ts <= t)) as [[Hr Hge]|Hk].
    + destruct (replaced_committed w s p Hi Hs Hr) as (c1 & Hc1 & _ & p' & c' & Htg & Hc' & Hsub). simplify_eq. apply (Hnew p' c'); [rewrite Htg; by left|done|done|by apply Hsub].
    + exists p, (committed_chunk ts s p c). rewrite Hl, Hp, committed_chunk_data. split_and!; [done| |done]. eapply kept_visible; try done; [lia|]. intros Hr. apply Z.nle_gt. naive_solver.
  - right; left. destruct Hmem as (m & E & ?). exists m. by rewrite Hm.
  - rewrite El in Hs0. assert (Hin : s0 = s \/ s0 ∈ l1 ++ l2) by set_solver. destruct Hin as [->|Hin].
    + left. apply (Hnew p c); [apply elem_of_app; by left| |done|done]. apply Hdump. intros E. rewrite E in Hp. set_solver.
    + right; right. exists s0, p, (committed_chunk ts s p c). split_and!; [done|done| |by rewrite committed_chunk_data].
      transitivity (committed_chunk ts s p <$> chunk_index_entries_ (index w) !! p); [apply Hl|by rewrite Hc].
Qed.
Lemma commit_inv w txn_id l1 s l2 ts : inv w -> stores w = l1 ++ s :: l2 -> next_ts w ts ->
  inv (mkWorld (TryRevert s (StoreCommit txn_id ts s (index w))) (l1 ++ l2) (rows w) ts (if decide (store_chunks_ s = []) then dumped w else ts)).
Proof.
  intros Hi El Hts. assert (Hs : s ∈ stores w) by (rewrite El; set_solver). destruct (StoreCommit_spec w txn_id s ts Hi Hs) as (Hm & Hic & Hl).
  pose proof (fun p c => commit_chunk_inv w s p c ts Hi Hs Hts) as Hch. pose proof (commit_cover w txn_id l1 s l2 ts) as Hcov. cbn zeta in Hcov.
  assert (Hsplit : concat (map targets (stores w)) ≡ₚ targets s ++ concat (map targets (l1 ++ l2))) by (rewrite El, !map_app, !concat_app; cbn; solve_Permutation).
  pose proof (inv_clock w Hi) as Hclk. pose proof Hts as Hts'. unfold next_ts in Hts'. set (idx := TryRevert _ _) in *. split; cbn.
  - case_decide; lia.
  - rewrite Hic. apply (inv_committed w Hi).
  - apply (inv_fit w Hi).
  - apply Forall_lookup. intros p c. rewrite Hl. intros (c0 & Hc0 & ->)%fmap_Some_1. by apply Hch.
  - intros m. rewrite Hm. apply (inv_map w Hi).
  - pose proof (inv_targets w Hi) as Hn. rewrite Hsplit in Hn. by apply NoDup_app in Hn as (_ & _ & ?).
  - intros p Hp. pose proof (inv_targets w Hi) as Hn. rewrite Hsplit in Hn. apply NoDup_app in Hn as (_ & Hdis & _).
    destruct (inv_pending w Hi p) as (c & Hc & Hu); [rewrite Hsplit; set_solver|]. exists c. split; [|done]. rewrite Hl, Hc. cbn. f_equal. unfold committed_chunk.
    rewrite decide_False by (intros ?; by eapply Hdis). rewrite decide_False; [done|]. intros Hr. destruct (replaced_committed w s p Hi Hs Hr) as (c' & Hc' & Hle & _). simplify_eq.
    by apply (clock_uncommitted w c Hi Hle).
  - pose proof (inv_stores w Hi) as Hst. rewrite El in Hst. apply Forall_app in Hst as [Hs1 [_ Hs2]%Forall_cons].
    assert (Hev : evolves (clock w) ts (chunk_index_entries_ (index w)) (chunk_index_entries_ idx)).
    { intros p c Hc. exists (committed_chunk ts s p c). rewrite Hl, Hc, committed_chunk_data. split_and!; [done|done|]. by apply Hch. }
    apply Forall_app. split; (eapply Forall_impl; [eassumption|]; intros s0; by apply store_ok_evolves).
  - intros t q Ht Hq. destruct (Hcov t q Hi El Hts) as [?|[?|(s0 & p & c & ?)]]; [case_decide; lia| |done|by left|by right; left|].
    + intros Hne. rewrite decide_False in Ht by done. lia.
    + right; right. by exists s0, p, c.
Qed.
Lemma index_start_inv w : start w -> inv w.
Proof.
  assert (Hne : forall ts, 0 <= ts < UNCOMMIT_TS -> ts <> UNCOMMIT_TS) by lia. destruct 1 as [txn_id ts Hts|txn_id rs ts ts' idx c [Hne0 Hfit] Hts Hp].
  - split; cbn; try done; try set_solver; try constructor.
  - unfold PopulateEntirely in Hp. res_inv. destruct x as [i p]. res_inv. simplify_eq. cbn in H |- *. destruct (InsertInner_spec rs []) as [Hp Hs]; [constructor|]. rewrite app_nil_r in Hp.
    unfold MemIndexDump in H. cbn in H. res_inv. simplify_eq. destruct (Dump_spec (InsertInner rs []) x Hs) as (Hok & Hn & Hpairs); [| |done|].
    { intros E. rewrite E in Hp. by apply Permutation_nil in Hp. }
    { rewrite Hp. eapply Forall_impl; [exact Hfit|]. by intros q [_ ?]. }
    set (d := NewSecondaryIndexChunkIndexEntry x (u32 (Z.of_nat (length (InsertInner rs []))))).
    split; cbn; try done; try set_solver; try by constructor.
    + change (Forall (chunk_inv rs ts) [set_commit_ts ts d]). constructor; [|done]. split; cbn; [done|congruence|rewrite Hpairs; intros q; by rewrite Hp|right; lia|].
      unfold uncommitted. cbn. intros E. by apply Hne in E.
    + intros t q Ht Hq. left. exists 0%nat, (set_commit_ts ts d). split; [done|]. split; [|cbn; by rewrite Hpairs, Hp]. unfold CheckVisible, BaseCheckVisible. cbn. lia.
Qed.
Lemma index_reachable_inv w : reachable w -> inv w.
Proof.
  induction 1 as [w Hw|w w' Hr IH Hst]; [by apply index_start_inv|]. destruct Hst.
  - by apply insert_inv.
  - by eapply insert_dump_inv.
  - by eapply dump_inv.
  - by eapply optimize_inv.
  - by eapply commit_inv.
Qed.
Lemma inv_segment_ok n t w : inv w -> Z.of_nat (length (rows w)) < 2 ^ 32 -> (forall c, c ∈ chunks_seen t (index w) -> Forall (fun o => o < n) (offset_ (index_data c))) ->
  segment_index_ok n t (index w).
Proof.
  intros Hi Hlen Hn. pose proof (inv_fit w Hi) as Hfit. rewrite Forall_forall in Hfit. split.
  - apply Forall_forall. intros c Hc. pose proof Hc as [_ Hin]%list_elem_of_filter. pose proof (inv_chunks w Hi) as Hcs. rewrite Forall_forall in Hcs. destruct (Hcs c Hin) as [Hok _ Hq _ _].
    split; [done|]. specialize (Hn c Hc). rewrite Forall_forall in Hn. apply Forall_forall. intros o Ho. split; [|by apply Hn].
    apply list_elem_of_lookup in Ho as [p Hp]. destruct (lookup_lt_is_Some_2 (key_ (index_data c)) p) as [k Hk]; [rewrite <- (co_offsets _ Hok); by eapply lookup_lt_Some|].
    assert (Hpair : (k, o) ∈ chunk_pairs (index_data c)) by (apply list_elem_of_lookup; exists p; unfold chunk_pairs; by rewrite lookup_zip_with, Hk, Hp).
    destruct (Hfit _ (Hq _ Hpair)) as [Hu _]. unfold unsigned_range in Hu. cbn in Hu. lia.
  - intros m Hm. destruct (inv_map w Hi m Hm) as (Hs & _ & Hl & Hq). split_and!; [done| |lia]. apply Forall_forall. intros q Hqm. destruct (Hfit _ (Hq _ Hqm)) as [Hu _]. unfold unsigned_range in Hu. lia.
Qed.

(** ** The theorems *)
Context {PL : PGMLaws} {R : Type} `{RL : RoaringLaws R}.

(** C33. The search for a range of keys in a chunk of a secondary index, which starts at positions that the PGM
    index gives and walks along the keys, reads no position out of the chunk and returns exactly the
    positions whose keys are in the range, or none when there are none. The bounds are any keys but the
    largest value of the type, which the PGM index reserves. *)
Theorem secondary_range_search b e c : chunk_ok c -> b <= e -> indexable b -> indexable e -> exists found, GetResultCnt b e c = Ok found /\
  match found with
  | None => forall k, k ∈ key_ c -> ~ (b <= k <= e)
  | Some (begin_pos, end_pos) => (begin_pos < end_pos <= length (key_ c))%nat /\ forall p k, key_ c !! p = Some k -> b <= k <= e <-> (begin_pos <= p < end_pos)%nat
  end.
Proof.
  intros Hc Hbe Hib Hie. rewrite (range_search b e c Hc Hbe Hib Hie). eexists. split; [done|]. pose proof (co_sorted c Hc) as Hs. case_decide as Hlt.
  - split; [split; [done|apply below_le]|]. intros p k Hp. pose proof (below_spec b _ _ _ Hs Hp). pose proof (below_spec (e + 1) _ _ _ Hs Hp). lia.
  - intros k [p Hp]%list_elem_of_lookup Hk. pose proof (below_spec b _ _ _ Hs Hp). pose proof (below_spec (e + 1) _ _ _ Hs Hp). lia.
Qed.

(** C9. A secondary index of a segment, after any history in which rows are inserted into the map in memory, the
    map is dumped to chunks, transactions merge the chunks that they see and all of these commit in any
    order, where all dumps and merges return (with a row whose key is the largest value of the type they raise,
    [largest_key_blocks_dump]), and for ranges whose bounds are not that value, or over rows that all are in
    memory, answers a query for ranges of keys with exactly the rows that were inserted with a key in one of
    the ranges, provided that no dump waits for its commit and that the reader began after the last one.
    Merges, pending or committed after the reader began, do not change the answer. *)
Theorem secondary_index_exact w n t pairs : reachable w -> Forall (fun s => store_chunks_ s = []) (stores w) -> dumped w <= t < UNCOMMIT_TS ->
  unsigned_range 32 n -> Z.of_nat (length (rows w)) < 2 ^ 32 -> (forall c, c ∈ chunks_seen t (index w) -> Forall (fun o => o < n) (offset_ (index_data c))) ->
  Forall (range_ok t (index w)) pairs -> exists bm, EvaluateSecondary (R := R) pairs (index w) n t = Ok bm /\
  forall o, 0 <= o < n -> Bitmask.IsTrue o bm = bool_decide (Exists (fun q => q.2 = o /\ in_ranges pairs q.1) (rows w)).
Proof.
  intros Hr%index_reachable_inv Hst Ht Hn Hlen Hch Hp. destruct (secondary_rows (R := R) n t pairs (index w) Hn (inv_segment_ok n t w Hr Hlen Hch) Hp) as (bm & E & Hb & Hc & Hbits).
  exists bm. split; [done|]. intros o Ho. rewrite Bitmask.IsTrue_bits by (done || lia). apply bool_decide_ext. rewrite Hbits, Exists_exists. split.
  - intros [_ (k & Hs & Hk)]. exists (k, o). split; [|done]. apply seen_pairs_lookup in Hs as [(p & c & Hpc & _ & Hq)|(m & Hm & Hq)]; [|by apply (inv_map w Hr m Hm)].
    pose proof (inv_chunks w Hr) as Hcs. rewrite Forall_lookup in Hcs. by apply (ci_rows _ _ _ (Hcs p c Hpc)).
  - intros ([k o'] & Hq & [= ->] & Hk). split; [done|]. exists k. split; [|done]. apply seen_pairs_lookup. destruct (inv_cover w Hr t (k, o) Ht Hq) as [?|[?|(s & p & c & Hs & Hps & _)]]; [by left|by right|].
    rewrite Forall_forall in Hst. rewrite (Hst s Hs) in Hps. set_solver.
Qed.

(** Nothing is seen after a rollback: the old chunks are deprecated and the merged one is not committed. *)
Lemma rollback_unseen begin_ts abort_ts t idx idx' s : (2 <= length (visible_chunks begin_ts idx))%nat -> optimizing_ idx = false ->
  (forall c, c ∈ chunk_index_entries_ idx -> CheckVisible begin_ts c = true) -> RebuildChunkIndexEntries begin_ts new_index_store idx = Ok (idx', s) -> abort_ts <= t < UNCOMMIT_TS ->
  chunks_seen t (StoreRollback abort_ts s idx') = [].
Proof.
  intros Hv Ho Hall Hr Ht. unfold RebuildChunkIndexEntries in Hr. rewrite Ho in Hr. change (visible_chunks begin_ts (set_optimizing true idx)) with (visible_chunks begin_ts idx) in Hr.
  destruct (Nat.leb_spec (length (visible_chunks begin_ts idx)) 1) as [?|_]; [lia|]. res_inv. subst idx' s. apply elem_of_nil_inv. intros c [Hvis [p Hp]%list_elem_of_lookup]%list_elem_of_filter.
  cbn -[alter_chunks] in Hp. rewrite alter_chunks_lookup in Hp by done. destruct (decide (p < length (chunk_index_entries_ idx))%nat) as [Hlt|Hge].
  - destruct (lookup_lt_is_Some_2 _ _ Hlt) as [c0 Hc0]. rewrite decide_True in Hp.
    + rewrite lookup_app_l, Hc0 in Hp by done. cbn in Hp. simplify_eq. unfold CheckVisible in Hvis. cbn in Hvis. lia.
    + apply list_elem_of_fmap. exists (p, c0). split; [done|]. apply elem_of_visible. split; [done|]. apply Hall. by eapply list_elem_of_lookup_2.
  - rewrite lookup_app_r in Hp by lia. assert (Hlk : exists c0, commit_ts_ c0 = UNCOMMIT_TS /\ (c = c0 \/ c = DeprecateChunk abort_ts c0)).
    { destruct (p - length (chunk_index_entries_ idx))%nat; cbn in Hp; [|by case_decide]. case_decide; simplify_eq; eexists; (split; [|eauto]); done. }
    destruct Hlk as (c0 & E & [->| ->]); unfold CheckVisible, BaseCheckVisible in Hvis; cbn in Hvis; lia.
Qed.

(** C39. When a transaction that has merged the chunks of a secondary index is rolled back, every later query on the
    index finds no row of these chunks: the rollback deprecates the old chunks, and the merged chunk is
    never committed. Of an index with all its rows in chunks that the transaction sees, all rows are lost. *)
Theorem optimize_rollback_loses_rows begin_ts abort_ts t idx idx' s n pairs : (2 <= length (visible_chunks begin_ts idx))%nat -> optimizing_ idx = false -> memory_secondary_index_ idx = None ->
  (forall c, c ∈ chunk_index_entries_ idx -> CheckVisible begin_ts c = true) -> RebuildChunkIndexEntries begin_ts new_index_store idx = Ok (idx', s) -> abort_ts <= t < UNCOMMIT_TS ->
  unsigned_range 32 n -> Forall (fun r => r.1 <= r.2) pairs -> exists bm, EvaluateSecondary (R := R) pairs (TryRevert s (StoreRollback abort_ts s idx')) n t = Ok bm /\
  forall o, 0 <= o < n -> Bitmask.IsTrue o bm = false.
Proof.
  intros Hv Ho Hm Hall Hr Ht Hn Hp. pose proof (rollback_unseen begin_ts abort_ts t idx idx' s Hv Ho Hall Hr Ht) as Hnone. set (i := TryRevert _ _).
  assert (Hseen : chunks_seen t i = []) by (unfold i, TryRevert; by destruct (_ && _)). assert (Hmem : memory_secondary_index_ i = None).
  { transitivity (memory_secondary_index_ idx'); [unfold i, TryRevert; by destruct (_ && _)|]. unfold RebuildChunkIndexEntries in Hr. rewrite Ho in Hr. destruct (_ <=? 1)%nat; res_inv; by subst. }
  destruct (secondary_rows (R := R) n t pairs i Hn) as (bm & E & Hb & _ & Hbits).
  { split; [by rewrite Hseen|]. by rewrite Hmem. }
  { eapply Forall_impl; [exact Hp|]. intros r Hr'. by split. }
  exists bm. split; [done|]. intros o Hoo. rewrite Bitmask.IsTrue_bits by (done || lia). apply bool_decide_eq_false. rewrite Hbits. intros [_ (k & [(c & Hc & _)|(m & Hm' & _)] & _)]; [|congruence].
  rewrite Hseen in Hc. set_solver.
Qed.

(** A reader that began before the commit of a dump finds none of the dumped rows: not in the map, which is
    gone, and not in the chunk, which is later. *)
Lemma dump_hides_rows idx idx' p ts t q : MemIndexDump idx = Ok (idx', Some p) -> ts < UNCOMMIT_TS -> t < ts ->
  seen_pairs t (set_chunks (alter (Commit ts) p (chunk_index_entries_ idx')) idx') q <-> chunk_seen t (chunk_index_entries_ idx) q.
Proof.
  intros Hd Hts Ht. unfold MemIndexDump in Hd. destruct (memory_secondary_index_ idx) as [m|]; [|discriminate]. res_inv. simplify_eq. rewrite seen_pairs_lookup. cbn [set_chunks set_memory chunk_index_entries_].
  rewrite alter_app_r_alt by done. rewrite Nat.sub_diag. split; [|intros ?; left; by apply chunk_seen_app]. intros [(i & c & Hi & Hv & Hq)|(m' & Hm & _)]; [|done].
  destruct (decide (i < length (chunk_index_entries_ idx))%nat) as [Hlt|Hge]; [rewrite lookup_app_l in Hi by done; by exists i, c|].
  rewrite lookup_app_r in Hi by lia. destruct (i - length (chunk_index_entries_ idx))%nat; [|done]. cbn in Hi. simplify_eq. unfold CheckVisible, BaseCheckVisible, Commit in Hv. cbn in Hv. rewrite Z.eqb_refl in Hv. cbn in Hv. lia.
Qed.
(** An index with at most one chunk that the transaction sees stays marked as being optimized, and is never merged again. *)
Lemma lone_chunk_blocks_optimize begin_ts idx txn_id ts : (length (visible_chunks begin_ts idx) <= 1)%nat -> exists idx', RebuildChunkIndexEntries begin_ts new_index_store idx = Ok (idx', new_index_store) /\
  forall begin_ts' s, RebuildChunkIndexEntries begin_ts' s (TryRevert new_index_store (StoreCommit txn_id ts new_index_store idx')) = Ok (TryRevert new_index_store (StoreCommit txn_id ts new_index_store idx'), s).
Proof.
  intros Hl. unfold RebuildChunkIndexEntries at 1. destruct (optimizing_ idx) eqn:Eo.
  - exists idx. split; [done|]. intros t s. unfold RebuildChunkIndexEntries. cbn. by rewrite Eo.
  - change (visible_chunks begin_ts (set_optimizing true idx)) with (visible_chunks begin_ts idx). rewrite (proj2 (Nat.leb_le _ _) Hl). by eexists.
Qed.
(** Dumps raise as long as a row with the largest value of the key type is in memory, and return otherwise. *)
Lemma largest_key_blocks_dump w m : reachable w -> memory_secondary_index_ (index w) = Some m -> Z.of_nat (length m) < 2 ^ 32 ->
  if decide (Forall (fun q => indexable q.1) m) then exists idx p, MemIndexDump (index w) = Ok (idx, Some p) else MemIndexDump (index w) = Err InvalidArgument.
Proof.
  intros Hi%index_reachable_inv Hm Hlen. destruct (inv_map w Hi m Hm) as (Hs & _). unfold MemIndexDump. rewrite Hm, Dump_outcome by (done || by apply (map_keys w)). case_decide; cbn; eauto.
Qed.
End history.

(** ** Examples *)
Import RoaringSet.
(** A PGM index for [TinyInt] that answers with two positions around the place of a key. *)
#[local] Instance near_pgm : PGM := {| key_min := -128; key_max := 127; pgm_search keys v :=
  (Z.max 0 (Z.min (rank v keys) (Z.of_nat (length keys) - 1) - 2), Z.min (Z.of_nat (length keys)) (rank v keys + 2)) |}.
#[local] Instance near_pgm_laws : PGMLaws.
Proof.
  constructor. intros keys v _ Hne _ _. cbn. rewrite rank_below. pose proof (below_le v keys). destruct keys; [done|]. cbn [length] in *. lia.
Qed.
(** Two rows dumped by their transaction, two by a task, the merge of the two chunks, and a row in memory. *)
Definition demo_index cs m o ts : SegmentIndexEntry := mkSegmentIndex cs m o 1 1 1 ts.
Definition demo_chunk1 : ChunkIndexEntry := mkChunk (mkIndexData 2 [3; 5] [1; 0]) 2 2 UNCOMMIT_TS.
Definition demo_chunk2 : ChunkIndexEntry := mkChunk (mkIndexData 2 [5; 9] [2; 3]) 2 3 UNCOMMIT_TS.
Definition demo_merged : ChunkIndexEntry := mkChunk (mkIndexData 4 [3; 5; 5; 9] [1; 0; 2; 3]) 4 UNCOMMIT_TS UNCOMMIT_TS.
Definition demo_chunks : list ChunkIndexEntry := [demo_chunk1; demo_chunk2].
Definition demo_rows : list (Z * Z) := [(5, 0); (3, 1); (5, 2); (9, 3)].
Definition demo_store : TxnIndexStore := mkIndexStore true [] [(2%nat, [0%nat; 1%nat])] true.
Definition demo1 : world := mkWorld (demo_index [] None false 1) [] [] 1 1.
Definition demo2 : world := mkWorld (demo_index [] (Some [(3, 1); (5, 0)]) false 2) [] [(5, 0); (3, 1)] 1 1.
Definition demo3 : world := mkWorld (demo_index [demo_chunk1] None false 2) [] [(5, 0); (3, 1)] 2 2.
Definition demo4 : world := mkWorld (demo_index [demo_chunk1] (Some [(5, 2); (9, 3)]) false 3) [] demo_rows 2 2.
Definition demo5 : world := mkWorld (demo_index [demo_chunk1; set_commit_ts UNCOMMIT_TS demo_chunk2] None false 3) [AddChunkIndexStore 1 new_index_store] demo_rows 2 2.
Definition demo6 : world := mkWorld (demo_index demo_chunks None false 3) [] demo_rows 3 3.
Definition demo7 : world := mkWorld (demo_index (demo_chunks ++ [demo_merged]) None true 3) [demo_store] demo_rows 3 3.
Definition demo8 : world := mkWorld (demo_index [DeprecateChunk 4 demo_chunk1; DeprecateChunk 4 demo_chunk2; set_commit_ts 4 demo_merged] None false 4) [] demo_rows 4 3.
Definition demo9 : world := mkWorld (demo_index (chunk_index_entries_ (index demo8)) (Some [(4, 4)]) false 5) [] (demo_rows ++ [(4, 4)]) 4 3.
Lemma demo_fit rs : rs <> [] -> forallb (fun q => (0 <=? q.2) && (q.2 <? 2 ^ 32) && (-128 <=? q.1) && (q.1 <=? 127)) rs = true -> rows_fit rs.
Proof. intros Hne Hf. split; [done|]. apply Forall_forall. intros q Hq. rewrite forallb_forall in Hf. specialize (Hf q (proj1 (list_elem_of_In _ _) Hq)). unfold unsigned_range, is_key. cbn. lia. Qed.
Lemma demo6_reachable : reachable demo6.
Proof.
  assert (U : UNCOMMIT_TS = 18446744073709551615) by reflexivity.
  assert (R1 : reachable demo1) by (apply ReachStart, (StartEmpty 1 1); lia).
  assert (R2 : reachable demo2) by (apply (ReachStep _ _ R1), (StepInsert demo1 [(5, 0); (3, 1)] 2); by apply demo_fit).
  assert (R3 : reachable demo3) by (apply (ReachStep _ _ R2), (StepInsertDump demo2 (demo_index [set_commit_ts UNCOMMIT_TS demo_chunk1] None false 2) 0 2); [unfold next_ts; cbn; lia|reflexivity]).
  assert (R4 : reachable demo4) by (apply (ReachStep _ _ R3), (StepInsert demo3 [(5, 2); (9, 3)] 3); by apply demo_fit).
  assert (R5 : reachable demo5) by (apply (ReachStep _ _ R4), (StepDump demo4 (index demo5) 1); reflexivity).
  apply (ReachStep _ _ R5), (StepCommit demo5 4 [] (AddChunkIndexStore 1 new_index_store) [] 3); [reflexivity|unfold next_ts; cbn; lia].
Qed.
Lemma demo9_reachable : reachable demo9.
Proof.
  assert (U : UNCOMMIT_TS = 18446744073709551615) by reflexivity. pose proof demo6_reachable as R6.
  assert (R7 : reachable demo7) by (apply (ReachStep _ _ R6), (StepOptimize demo6 3 (index demo7) demo_store); [cbn; lia|reflexivity]).
  assert (R8 : reachable demo8) by (apply (ReachStep _ _ R7), (StepCommit demo7 5 [] demo_store [] 4); [reflexivity|unfold next_ts; cbn; lia]).
  apply (ReachStep _ _ R8), (StepInsert demo8 [(4, 4)] 5); by apply demo_fit.
Qed.

Lemma secondary_index_exact_witness : exists bm, EvaluateSecondary (R := gset Z) [(4, 5); (9, 20)] (index demo9) 5 4 = Ok bm /\
  map (fun o => Bitmask.IsTrue o bm) [0; 1; 2; 3; 4] = [true; false; true; true; true].
Proof.
  destruct (secondary_index_exact (R := gset Z) demo9 5 4 [(4, 5); (9, 20)]) as (bm & E & Hbm).
  - apply demo9_reachable.
  - constructor.
  - split; [done|reflexivity].
  - unfold unsigned_range. lia.
  - reflexivity.
  - intros c Hc. change (chunks_seen 4 (index demo9)) with [set_commit_ts 4 demo_merged] in Hc. apply list_elem_of_singleton in Hc as ->. repeat constructor; lia.
  - repeat constructor; cbn; lia.
  - exists bm. split; [done|]. cbn [map]. rewrite !Hbm by lia. reflexivity.
Defined.
Lemma secondary_range_search_witness : exists found, GetResultCnt 4 5 (mkIndexData 4 [3; 5; 5; 9] [1; 0; 2; 3]) = Ok found /\ found = Some (1%nat, 3%nat).
Proof.
  destruct (secondary_range_search 4 5 (mkIndexData 4 [3; 5; 5; 9] [1; 0; 2; 3])) as (found & E & _).
  - split; [|reflexivity|reflexivity|cbn; lia|unfold indexable; cbn; repeat constructor; lia]. cbn. repeat (constructor; [|repeat constructor; lia]). constructor.
  - lia.
  - unfold indexable. cbn. lia.
  - unfold indexable. cbn. lia.
  - exists found. split; [done|]. cut (Ok (Some (1%nat, 3%nat)) = Ok found); [congruence|]. rewrite <- E. reflexivity.
Defined.
Lemma optimize_rollback_loses_rows_witness : exists bm, EvaluateSecondary (R := gset Z) [(0, 20)] (TryRevert demo_store (StoreRollback 4 demo_store (index demo7))) 5 4 = Ok bm /\
  rows demo6 = [(5, 0); (3, 1); (5, 2); (9, 3)] /\ map (fun o => Bitmask.IsTrue o bm) [0; 1; 2; 3] = [false; false; false; false].
Proof.
  destruct (optimize_rollback_loses_rows (R := gset Z) 3 4 4 (index demo6) (index demo7) demo_store 5 [(0, 20)]) as (bm & E & Hbm).
  - apply Nat.leb_le. reflexivity.
  - reflexivity.
  - reflexivity.
  - apply Forall_forall. repeat constructor.
  - reflexivity.
  - split; [done|reflexivity].
  - unfold unsigned_range. lia.
  - repeat constructor; cbn; lia.
  - exists bm. split; [done|]. split; [reflexivity|]. cbn [map]. by rewrite !Hbm by lia.
Defined.
